(* ===== verification/_CoqProject ===== *)
-Q . S2P
Prelude.v
GoLib.v
FilePath.v
GoTime.v
Enforcement.v
StoreModel.v
StoreSql.v
StoreTasks.v
StoreWorkers.v
Dfs.v
StoreGraph.v
StoreMeta.v
StoreEvents.v
StoreEventsProps.v
StoreProjects.v
StoreProjectsProps.v
StoreInv.v
StoreSpec.v
StoreTrace.v
StoreProps.v
StoreQueryProps.v
PlanModel.v
PlanFacts.v
PlanImport.v
PlanEdges.v
PlanProps.v
PlanParse.v
PlanParseProps.v
PlanValidate.v
PlanValidateProps.v
OrchSpend.v
OrchSpendProps.v
OrchPaths.v
OrchPathsProps.v
AgentOutput.v
Provider.v
ProviderProps.v
CmdResolver.v
OrchVerify.v
OrchVerifyProps.v
StoreCalibrations.v
StoreCalibrationsProps.v
OrchBinding.v
OrchBindingProps.v
OrchDispatch.v
OrchPass.v
OrchDispatchProps.v
OrchClaims.v
OrchTurn.v
OrchTurnProps.v
OrchRunProps.v
SupDispatch.v
SupDrive.v
SupDriveProps.v
SupHooks.v
SupHooksProps.v
StoreDeps.v
StoreOperator.v
StoreOperatorProps.v
OperatorReadProps.v
Observe.v
ObserveProps.v
GoJson.v
CodexDiag.v
CodexDiagProps.v
AgentLifecycle.v
Watchdog.v
IpcServer.v
IpcServerProps.v
Declarative.v
RunnerIo.v
Runners.v
RunnersProps.v
TuiModel.v
StoreOpen.v
SupLock.v
IpcClient.v
Contain.v
Adapters.v
VConfig.v
