(* ===== verification/Prelude.v ===== *)
(** * radioactive-ralph: a verification library

    radioactive-ralph runs coding agents over plans. A plan is a Markdown
    document; it is parsed, validated and imported as a task graph into a
    user-level SQLite store; the orchestrator claims ready tasks for workers,
    runs one provider turn for each worker or group, verifies what came back
    itself, and writes the verdict; a reaper gives back what dead workers held.
    The library models these parts from [src/] and proves what makes them
    correct.

    ** Parts and files

    Shared: [Prelude] (results, the state-and-error monad [SM], list lemmas,
    tactics, hints), [GoLib] (the Go string functions in use), [FilePath]
    ([path/filepath] on Unix), [GoTime] (RFC 3339 in Go's [time] package, with
    its round trip), [Dfs] (depth-first search with a visited set).

    The enforcement evaluator ([internal/enforcement/policy.go]):
    [Enforcement], with its theorems.

    The store ([internal/store]). [StoreModel] has the tables as finite maps by
    primary key, [StoreSql] the statements on them; [StoreTasks] ([tasks.go],
    [claim.go], [output_reservation.go]), [StoreWorkers] ([workers.go],
    [reaper.go]), [StoreGraph] ([plans.go], [plan_graph.go],
    [ready_partition.go], [plan_delete.go]), [StoreMeta] ([task_metadata.go],
    [hook_verifications.go], [hook_sessions.go]), [StoreEvents] ([events.go] and
    the attach loop of [internal/supervisor]), [StoreProjects] ([projects.go],
    [config.go], [spend.go]) and [StoreCalibrations] ([calibrations.go]) have
    one definition per method; a method that opens a transaction is
    [atomically] what it runs. [StoreInv] is the invariant: [sound], which any
    operations keep, and [wf], which those keep that respect two conditions the
    store leaves to its callers. [StoreSpec] is the closed form of each operation
    ([task_spec]), [StoreTrace] the store as a state machine over [Op], with any
    arguments ([issuable]) and under the two conditions ([reachable]). Theorems: [StoreProps], [StoreQueryProps], [StoreEventsProps],
    [StoreProjectsProps], [StoreCalibrationsProps]. [StoreOpen] ([store.go],
    [migrate.go], [backup.go]) is how processes come to the database: the DSN, the
    busy classification, the journal-mode retry, the migrations several openers
    apply at once ([open_step]) and the backup statement, with its theorems.

    Plans ([internal/plan]). [PlanModel] ([types.go], [decompose.go]),
    [PlanParse] ([parse.go], [metadata.go], [meta.go]), [PlanValidate]
    ([validate.go]); [PlanFacts] and [PlanEdges] are their lemmas. [PlanImport]
    ([internal/orch/plan_import.go], [dispatch_graph.go]) turns a plan into a
    graph and a ready wave back into steps. Theorems: [PlanProps],
    [PlanParseProps], [PlanValidateProps].

    Providers. [Provider] ([internal/provider]: bindings, requirements,
    invocations, timeouts, failures), [CmdResolver] ([cmd/radioactive_ralph]:
    the pool of a project, its rotation and cooldowns), [AgentOutput]
    ([internal/agent/output.go]). Theorems: [ProviderProps], those in [CmdResolver],
    those in [AgentOutput].

    Provider processes. [AgentLifecycle] ([internal/agent/lifecycle.go],
    [agent.go]: who may probe, signal and reap the child, with the goroutines
    that compete for it), [Watchdog] ([internal/agent/watchdog.go],
    [internal/provider/watchdog.go]: signals, and the supervision of a turn),
    [CodexDiag] ([internal/provider/codex_diagnostics.go]: what a Codex stream
    tells of a failure), [Declarative] ([declarative.go]: providers described by
    configuration), [RunnerIo] ([result_limits.go], [progress.go], [exec.go],
    [hook_environment.go]: the ceilings, files, prompts, argument vectors and
    environment the runners share) and [Runners] ([claude.go], [opencode.go],
    [copilot.go], [codex.go]: a turn from the lines a command prints to its result
    or error). [Contain] ([internal/contain]) is the write boundary around the
    process: the policy, the wrapped argument vectors, the helper and its Landlock
    ruleset; [Adapters] ([internal/adapters]) the provider's own hook, and the
    launcher that runs a managed OpenCode and asks for its final stop. [GoJson] is
    the grammar and the string decoding of [encoding/json].
    Theorems: those in [AgentLifecycle], those in [Watchdog], [CodexDiagProps] (also the
    fuel of the grammar), those in [Declarative], [RunnersProps], those in [Contain],
    those in [Adapters].

    The control plane ([internal/ipc]). [IpcServer] ([server.go], [protocol.go])
    is one connection from its bytes to its frames, and the accept loop, the
    connections and [Stop]; [IpcClient] ([client.go], [client_drive.go],
    [client_query.go]) is what a client sends for each command and how it reads
    the answer or the attach stream. Theorems: [IpcServerProps], those in
    [IpcClient].

    The orchestrator ([internal/orch]). [OrchSpend] ([spend.go]), [OrchPaths]
    ([task_paths.go]), [OrchVerify] ([verify.go]), and [orchestrator.go] in three
    parts: [OrchBinding] (the binding of a step), [OrchDispatch] ([DispatchNext]
    down to the launch) and [OrchTurn] (the launched goroutine, to its deferred
    releases). [OrchPass] is the induction over a pass; [OrchDispatchProps],
    [OrchClaims] and [OrchTurnProps] are what passes and turns preserve.
    Theorems: [OrchSpendProps], [OrchPathsProps], [OrchVerifyProps],
    [OrchBindingProps], [OrchRunProps].

    The supervisor ([internal/supervisor]). [SupHooks] ([hooks.go]: what a
    provider's hooks report, and whether it may stop), [SupDispatch]
    ([supervisor.go]: the tick, the enqueue command and the rotating pass over
    the active plans) and [SupDrive] ([drive.go], [project.go], [config.go],
    [calibration.go], with [ImportPlan] and the title of a plan). [SupLock] is the
    runtime directory ([discovery.go], [flock.go], [pid.go] and [listenEndpoint]
    of [internal/ipc]): any number of processes that acquire, serve, stop, release
    and crash, one system call at a time ([lock_step]). Theorems:
    [SupHooksProps], those in [SupDispatch], [SupDriveProps], those in [SupLock].

    Configuration ([internal/vconfig], [init_cmd.go] and [config_source.go] of
    [cmd/radioactive_ralph]). [VConfig] resolves the layers of a project over a
    [ConfigSource], an interface whose laws ([SourceLaws]) the store and the
    supervisor's client both keep, and the headless init that writes a file's values
    through it. Theorems: those in [VConfig].

    What an operator sees. [StoreOperator] has the read side of the store
    ([operator_snapshot.go], [operator_messages.go], [operator_task_detail.go],
    [timeutil.go]), [Observe] the service and the client's checks
    ([internal/observe]), the supervisor's handlers and the status, events and
    plan list commands of [cmd/radioactive_ralph]. [StoreDeps] is what runs of
    the store do to dependency edges. Theorems: [StoreOperatorProps] (what is
    called dead), [OperatorReadProps] (the list of workers, and the promise of an
    answer, [sound_answer], that links the store to the service), [ObserveProps].
    [TuiModel] is the terminal front end ([internal/tui/model.go], the order of
    the rows of [meso.go], the window of [micro.go]): the model updated message by
    message, and the program of [tui_step] in which the commands under way answer
    in any order. Theorems: those in [TuiModel].

    ** How they interact

    The database [DB] is the state of the store's tasks, plans and workers. The
    registry ([StoreProjects]) and the calibrations stand beside it; where one
    table refers to another across that line the model brings the keys over
    ([see_workers]). The orchestrator's state [Orch] holds the store, the
    in-flight reservations, the resolver's own state, the slots taken and the
    flights: a [Flight] is what a launched goroutine holds. A pass is a function
    of [Orch]; a turn is a function of [Runtime], which adds what a turn leaves
    behind. Outside parties appear as functions on the database at the points
    where the code lets go of it, and as steps of their own in [orch_step]. The
    supervisor's handlers are functions of what they share; the hook handlers,
    the verifications they start and the other clients of the store are the steps
    of [hook_step], which cuts a handler at each of its store calls. An agent's
    goroutines are program counters of [agent_step], the watchdog and the
    supervisor of a turn those of [turn_step], the server's those of
    [server_step]; a [select] is a choice among the steps that are ready, and what
    the kernel, a socket or a callback answers is the step's to choose. A turn's
    convergence is [TerminateAndWait] or [Wait] of [agent_step]; the lines a runner
    ingests are the calls [turn_step] makes, and supervision's error, the evidence
    file and the exit status come to it as an [Ending]. An operator's request reads a [View], what one read transaction sees of the
    tables, the log and the messages; a command that asks again reads another.

    Interfaces are classes: [SqlEngine] (an ORDER BY gives a sorted permutation
    and promises nothing for equal keys), [PlanCodec], [BindingCodec], [Json]
    (JSON as the code uses it), [Markdown] (goldmark's block tree),
    [FileSystem], [CostOps] (the engine's sums of [cost_usd]), [World] (the
    shell, stat and texts of verification), [BindingResolver],
    [InvocationHash], [CalibrationHash], [Durations], [MapRange] (the order of
    ranging over a Go map), [JsonText], [Viper], [Wire] (the JSON text of a
    configuration value), [Host] and [Files] (what [Contain] and [Adapters] ask of
    the file system), [OperatorCodec] ([json_extract] and the hash of a partition),
    [Texts] and [TurnTexts] (printed errors), [WaitStatus]
    (the platform's exit status), [UnicodeTables], [Printable], [Codec] (the arguments of the
    commands) and [Environment] (the search path and the regular expressions of
    a binding). Clients are proved against the class; the witnesses instantiate it.

    ** What the theorems show

    Store: every database any operations lead to satisfies the invariant; no two
    running tasks of a project reserve one output; each operation leaves of every
    task row exactly what its specification computes; a claim is a lease only its session can end or the reaper take;
    claims, cycles, retries, requeues and ready partitions are decided exactly;
    a plan graph is written whole or not at all; the live event stream loses and
    repeats nothing; identifiers are never stolen; calibrations never change;
    processes that open the database together run each migration once.
    Enforcement: a decision can be persisted and submitted again; completion is
    earned by the policy's own predicates; the counters are what the events
    charged, within the budgets, and one more than a budget blocks the run for good.
    Plans: the parse is total and well-formed, and reads back the layout of any
    plan it returned; import
    validation accepts what it should; the imported edges mean the document
    order; a plan drains; each stored task resolves to its step.
    Providers: requests resolve exactly or are refused; failures have the retry
    budget of their class; a bound provider was selected and the rotation finds
    a fitting one; output is framed the same however it arrives.
    Orchestrator: a pass claims what it launches and pays for it; slots and
    reservations balance over any run; a turn settles its tasks however it ends;
    a verdict is what the check says, for the session still owning the task (the
    containment check stops at an output it cannot resolve); a binding honours the
    step's restrictions but for two gaps, named in the theorem;
    declared paths stay in the project.
    Supervisor: a provider stops only on verdicts younger than its last tool use;
    a verification under way holds its key; every active plan has its turn; an
    import builds the plan its Markdown describes or nothing; a kill stops the
    worker and gives back its tasks; a directory keeps its project; one process
    holds the runtime directory until one releases it, and two can after that; init
    stores what it says it stores and skips what it says it skips.
    Processes: a child is reaped once and not touched after, a clean return means
    it was reaped, and nobody waits in vain; callbacks see every record that is no
    prompt, in order; a turn returns converged, and nil only for a reason; a Codex
    failure is told exactly and in fixed words; validated templates render, each
    token once; a turn of a built-in runner succeeds exactly when its frames, its
    ceilings and its process allow it; token counts are exact sums; a refusal is
    told by its status; the prompt arrives byte for byte;
    a command wrapped on Linux runs under exactly the ruleset of its policy or not
    at all, and no grant has the home directory in it; the launcher of a managed OpenCode exits
    with success exactly on the supervisor's word after a clean and reclaimed run, in
    an environment whose every variable is known.
    Control plane: a line has one answer and at most one handler call; a stopped
    server has no connection left, and the one that asked keeps its own until it
    is answered; the client yields exactly the frames of a stream up to its end,
    and no command of a current client is refused for its version.
    Operator: what a snapshot calls dead never runs again; a task is shown
    blocked by its nearest failure; the list of workers is complete or refused;
    a sound store's answer passes the client's check, and the zero-worker gate
    is exact; the plan list misses no plan; the backlog meets the live tail; a
    failure is shown as retried exactly when it is; a terminal session keeps one
    tick, one gather and one subscription under way, and its selection over a
    refresh; counts of done tasks never fall, and late events overstate them.

    ** Bounds and fuel

    [Dfs] takes the number of nodes as fuel and the colouring walk of the import
    gate the number of its steps; a search that marks each node once never
    exhausts either. [Parse] takes its fuel from the chain of blocks, the JSON
    scan from the tokens, the ancestor walk of [OrchPaths] from the path's
    elements, the line reader from the bytes to come; that these are enough is
    part of the theorems on them (their functions answer [Some]). The walks of
    the operator's queries take the number of edges, which bounds a path in an
    acyclic graph; on a cyclic one the walk over depths does not end. The JSON
    grammar takes twice the frame's length as fuel ([json_tree_fuel]) and the
    scanner's nesting limit as its depth, the walk over a frame and the template loops the length of the rest
    ([walk_fuel], [validated_pieces]). Opening takes [migrationBusyAttempts] tries
    for each migration, and [opening_ends] bounds its turns; the journal-mode loop
    takes [journalModeWALAttempts], as the code does. A rotation asks
    the resolver at most [maxProviderRotations] more times, as the code does.
    [decode] takes the length, since a rune takes a byte. Clocks and counters are
    integers, [float64] is [SpecFloat]'s binary64 in [Runners]; int64 is written out where the code can
    overflow it (the reaper's cut-off, the retention budget).

    ** Not modelled

    Interleaving inside a pass or inside one turn's bookkeeping: a pass runs
    under the orchestrator's mutex, and a turn's recording and release are one
    step of [orch_step]. Failures of the database itself, such as a lost
    connection, which each method passes on. Heartbeats and the provider processes, which are I/O. The SQL
    inside a migration, the modes of files and directories, the Windows forms of
    the lock and the socket, the start of a process and its terminal, the signals that reclaim the
    descendants of a managed OpenCode, the installation of its adapters, the
    rendering of the terminal front end, the graphical one, the printing of the commands, service and
    environment integration: presentation and I/O over the parts modelled here.
    The JSON decoding in front of the enforcement evaluator.
    [findingPathRe] and goldmark are third-party matching and parsing, and stay
    parameters. *)
From Stdlib Require Export Ascii.
From stdpp Require Export base gmap sets list strings fin_maps.
From Stdlib Require Export ZArith Lia.

(** ** Lists *)

Lemma filter_none {A} (P : A → Prop) `{∀ x, Decision (P x)} (l : list A) : (∀ x, x ∈ l → ¬ P x) → filter P l = [].
Proof.
  induction l as [|a l IH]; intros Hn; [done|]. rewrite filter_cons_False by (apply Hn; set_solver).
  apply IH. set_solver.
Qed.

Lemma filter_all {A} (P : A → Prop) `{∀ x, Decision (P x)} (l : list A) : (∀ x, x ∈ l → P x) → filter P l = l.
Proof.
  induction l as [|a l IH]; intros Hn; [done|]. rewrite filter_cons_True by (apply Hn; set_solver).
  f_equal. apply IH. set_solver.
Qed.

(** ** Results and the state-and-error monad of the store *)

(** [result E A] is Go's pair [(A, error)]: exactly one side is meaningful. *)
Inductive result (E A : Type) : Type :=
| Ok (a : A)
| Err (e : E).
Arguments Ok {E A} a.
Arguments Err {E A} e.

Definition is_ok {E A} (r : result E A) : bool :=
  match r with Ok _ => true | Err _ => false end.

Definition rbind {E A B} (r : result E A) (f : A → result E B) : result E B :=
  match r with Ok a => f a | Err e => Err e end.

Declare Scope ralph_scope.
Delimit Scope ralph_scope with ralph.
Open Scope ralph_scope.

Notation "'try' x ':=' c 'in' k" := (rbind c (λ x, k))
  (at level 10, x name, c at level 100, k at level 200) : ralph_scope.

Lemma rbind_ok {E A B} (r : result E A) (f : A → result E B) b :
  rbind r f = Ok b ↔ ∃ a, r = Ok a ∧ f a = Ok b.
Proof. destruct r; simpl; naive_solver. Qed.

(** A computation over a state [S] that may fail with an [E]. On an error the
    state is the one reached so far: statements executed outside a transaction
    stay executed. *)
Definition SM (S E A : Type) : Type := S → result E A * S.

Section StateMonad.
Context {S E : Type}.

Definition sret {A} (a : A) : SM S E A := λ s, (Ok a, s).
Definition sfail {A} (e : E) : SM S E A := λ s, (Err e, s).
Definition sget {A} (f : S → A) : SM S E A := λ s, (Ok (f s), s).
Definition smod (f : S → S) : SM S E unit := λ s, (Ok tt, f s).
Definition sbind {A B} (m : SM S E A) (k : A → SM S E B) : SM S E B :=
  λ s, match m s with
       | (Ok a, s') => k a s'
       | (Err e, s') => (Err e, s')
       end.
(** [BeginTx ... defer Rollback ... Commit]: an error restores the state the
    transaction started from. *)
Definition atomically {A} (m : SM S E A) : SM S E A :=
  λ s, match m s with
       | (Ok a, s') => (Ok a, s')
       | (Err e, _) => (Err e, s)
       end.
(** A Go [for ... range] loop whose body may return early with an error. *)
Fixpoint sfor {A} (l : list A) (body : A → SM S E unit) : SM S E unit :=
  match l with
  | [] => sret tt
  | a :: l' => sbind (body a) (λ _, sfor l' body)
  end.

Lemma atomically_ok {A} (m : SM S E A) s a s' :
  atomically m s = (Ok a, s') ↔ m s = (Ok a, s').
Proof. unfold atomically. destruct (m s) as [[?|?] ?]; naive_solver. Qed.

Lemma atomically_err {A} (m : SM S E A) s e s' :
  atomically m s = (Err e, s') → s' = s.
Proof. unfold atomically. destruct (m s) as [[?|?] ?]; naive_solver. Qed.

Lemma sbind_ok {A B} (m : SM S E A) (k : A → SM S E B) s b s' :
  sbind m k s = (Ok b, s') ↔ ∃ a s1, m s = (Ok a, s1) ∧ k a s1 = (Ok b, s').
Proof. unfold sbind. destruct (m s) as [[?|?] ?]; naive_solver. Qed.

Lemma sbind_err {A B} (m : SM S E A) (k : A → SM S E B) s e s' :
  sbind m k s = (Err e, s') ↔
  m s = (Err e, s') ∨ ∃ a s1, m s = (Ok a, s1) ∧ k a s1 = (Err e, s').
Proof. unfold sbind. destruct (m s) as [[?|?] ?]; naive_solver. Qed.
End StateMonad.

Notation "'let!' x ':=' m 'in' k" := (sbind m (λ x, k))
  (at level 10, x name, m at level 100, k at level 200) : ralph_scope.
Notation "'do!' m 'in' k" := (sbind m (λ _, k))
  (at level 10, m at level 100, k at level 200) : ralph_scope.

(** [triple P m Q]: a run of [m] from a state in [P] that returns a value ends
    in [Q]. Runs that fail are not constrained: inside a transaction they are
    rolled back. *)
Definition triple {S E A} (P : S → Prop) (m : SM S E A) (Q : A → S → Prop) : Prop :=
  ∀ s a s', P s → m s = (Ok a, s') → Q a s'.

(** An invariant that every run of a computation preserves, whatever it returns. *)
Definition preserves {S E A} (I : S → Prop) (m : SM S E A) : Prop :=
  ∀ s, I s → I (m s).2.

Section Triples.
Context {S E : Type}.

Lemma triple_ret {A} (P : S → Prop) (a : A) (Q : A → S → Prop) :
  (∀ s, P s → Q a s) → triple P (sret (E:=E) a) Q.
Proof. intros HPQ s b s' HP Heq. unfold sret in Heq. simplify_eq. auto. Qed.
Lemma triple_fail {A} (P : S → Prop) (e : E) (Q : A → S → Prop) :
  triple P (sfail e) Q.
Proof. intros s b s' HP Heq. unfold sfail in Heq. simplify_eq. Qed.
Lemma triple_get {A} (P : S → Prop) (f : S → A) (Q : A → S → Prop) :
  (∀ s, P s → Q (f s) s) → triple P (sget (E:=E) f) Q.
Proof. intros HPQ s b s' HP Heq. unfold sget in Heq. simplify_eq. auto. Qed.
Lemma triple_mod (P : S → Prop) (f : S → S) (Q : unit → S → Prop) :
  (∀ s, P s → Q tt (f s)) → triple P (smod (E:=E) f) Q.
Proof. intros HPQ s b s' HP Heq. unfold smod in Heq. simplify_eq. auto. Qed.
Lemma triple_bind {A B} (P : S → Prop) (m : SM S E A) (k : A → SM S E B) R Q :
  triple P m R → (∀ a, triple (R a) (k a) Q) → triple P (sbind m k) Q.
Proof.
  intros Hm Hk s b s' HP (a & s1 & Ha & Hb)%sbind_ok.
  exact (Hk a _ _ _ (Hm _ _ _ HP Ha) Hb).
Qed.
Lemma triple_conseq {A} (P P' : S → Prop) (m : SM S E A) (Q Q' : A → S → Prop) :
  (∀ s, P s → P' s) → triple P' m Q' → (∀ a s, Q' a s → Q a s) → triple P m Q.
Proof. intros HP Hm HQ s a s' ? ?. eapply HQ, Hm; eauto. Qed.
Lemma triple_for {A} (I : S → Prop) (l : list A) (body : A → SM S E unit) :
  (∀ a, a ∈ l → triple I (body a) (λ _, I)) → triple I (sfor l body) (λ _, I).
Proof.
  induction l as [|a l IH]; intros Hb; simpl; [by apply triple_ret|].
  eapply triple_bind; [apply Hb; set_solver|].
  intros []. apply IH. set_solver.
Qed.
Lemma triple_atomically {A} (P : S → Prop) (m : SM S E A) Q :
  triple P m Q → triple P (atomically m) Q.
Proof. intros Hm s a s' HP Heq. exact (Hm _ _ _ HP (proj1 (atomically_ok _ _ _ _) Heq)). Qed.

(** A transaction preserves what its committing runs preserve. *)
Lemma preserves_atomically {A} (I : S → Prop) (m : SM S E A) :
  triple I m (λ _, I) → preserves I (atomically m).
Proof.
  intros Hm s Hs. unfold atomically.
  destruct (m s) as [[a|e] s1] eqn:Heq; [exact (Hm _ _ _ Hs Heq)|exact Hs].
Qed.

(** What each iteration establishes, and every later one keeps, holds of all
    elements when the loop ends. *)
Lemma sfor_all {A} (R : S → S → Prop) (P : A → S → Prop) (l : list A) (body : A → SM S E unit) s s' :
  (∀ s, R s s) → (∀ s1 s2 s3, R s1 s2 → R s2 s3 → R s1 s3) →
  (∀ a s1 s2, a ∈ l → body a s1 = (Ok tt, s2) → R s1 s2 ∧ P a s2) →
  (∀ a s1 s2, R s1 s2 → P a s1 → P a s2) →
  sfor l body s = (Ok tt, s') → R s s' ∧ ∀ a, a ∈ l → P a s'.
Proof.
  intros Hrefl Htrans Hbody Hkeep. revert s. induction l as [|a l IH]; intros s; simpl.
  - unfold sret. intros. simplify_eq. split; [done|]. by intros a ?%elem_of_nil.
  - intros ([] & s1 & Ha & Hl)%sbind_ok.
    destruct (Hbody a s s1) as [HR HP]; [by apply elem_of_cons; left|done|].
    destruct (IH (λ a s1 s2 Hin, Hbody a s1 s2 (proj2 (elem_of_cons _ _ _) (or_intror Hin))) s1 Hl) as [HR' Hall].
    split; [by eapply Htrans|]. intros b [->|Hb]%elem_of_cons; [by eapply Hkeep|auto].
Qed.

(** A single statement: when it fails, it changed nothing. *)
Definition statement {A} (m : SM S E A) : Prop :=
  ∀ s e s', m s = (Err e, s') → s' = s.

Lemma preserves_statement {A} (I : S → Prop) (m : SM S E A) :
  statement m → triple I m (λ _, I) → preserves I m.
Proof.
  intros Hst Hm s Hs. destruct (m s) as [[a|e] s1] eqn:Heq; simpl.
  - exact (Hm _ _ _ Hs Heq).
  - by rewrite (Hst _ _ _ Heq).
Qed.
Lemma statement_atomically {A} (m : SM S E A) : statement (atomically m).
Proof. intros s e s'. apply atomically_err. Qed.
Lemma preserves_ret {A} (I : S → Prop) (a : A) : preserves I (sret (E:=E) a).
Proof. by intros s Hs. Qed.
Lemma preserves_fail {A} (I : S → Prop) (e : E) : preserves I (sfail (S:=S) (A:=A) e).
Proof. by intros s Hs. Qed.
Lemma preserves_get {A} (I : S → Prop) (f : S → A) : preserves I (sget (E:=E) f).
Proof. by intros s Hs. Qed.
Lemma preserves_mod (I : S → Prop) (f : S → S) :
  (∀ s, I s → I (f s)) → preserves I (smod (E:=E) f).
Proof. intros Hf s Hs. by apply Hf. Qed.
Lemma preserves_bind {A B} (I : S → Prop) (m : SM S E A) (k : A → SM S E B) :
  preserves I m → (∀ a, preserves I (k a)) → preserves I (sbind m k).
Proof.
  intros Hm Hk s Hs. specialize (Hm s Hs). unfold sbind.
  destruct (m s) as [[a|e] s1]; [by apply Hk|done].
Qed.
Lemma preserves_for {A} (I : S → Prop) (l : list A) (body : A → SM S E unit) :
  (∀ a, preserves I (body a)) → preserves I (sfor l body).
Proof.
  intros Hb. induction l as [|a l IH]; simpl; [apply preserves_ret|].
  by apply preserves_bind.
Qed.
Lemma preserves_atomic {A} (I : S → Prop) (m : SM S E A) :
  preserves I m → preserves I (atomically m).
Proof.
  intros Hm s Hs. specialize (Hm s Hs). unfold atomically.
  by destruct (m s) as [[a|e] s1].
Qed.
End Triples.

Create HintDb preserve.
#[export] Hint Resolve preserves_ret preserves_fail preserves_get : preserve.

(** Walks a computation, one [preserves] rule per construct. *)
Ltac preserve :=
  repeat first
    [ solve [eauto with preserve]
    | apply preserves_atomic
    | apply preserves_bind; [|intros ?]
    | apply preserves_for; intros ?
    | lazymatch goal with |- preserves _ (match ?x with _ => _ end) => destruct x eqn:? end ].

Create HintDb triple.
#[export] Hint Resolve triple_ret triple_fail triple_get triple_mod : triple.

(** ** Tactics of the development *)

(** Splits the innermost [match] or [if] of a hypothesis or of the goal, keeping
    the equation. *)
Ltac split_match :=
  match goal with
  | |- context [ match ?x with _ => _ end ] =>
      lazymatch x with context [ match _ with _ => _ end ] => fail | _ => idtac end;
      destruct x eqn:?
  | H : context [ match ?x with _ => _ end ] |- _ =>
      lazymatch x with context [ match _ with _ => _ end ] => fail | _ => idtac end;
      destruct x eqn:?
  end.
Ltac split_matches := repeat (split_match; simplify_eq/=; try done).
