(* ===== verification/GoLib.v ===== *)
(** * The parts of the Go language and standard library the program uses

    Byte strings are [string]; [strconv.Itoa] on non-negative integers,
    [strings.Join], [strings.HasPrefix], [strings.TrimSpace] (with the Unicode
    white space of [unicode.IsSpace], as UTF-8 byte sequences) and the Unix
    [path/filepath.Clean]; the rest of [path/filepath] is in [FilePath]. *)
From S2P Require Import Prelude.
From Stdlib Require Import DecimalString DecimalNat DecimalFacts.

(** ** Characters of a string *)

Fixpoint chars (s : string) : list Ascii.ascii :=
  match s with EmptyString => [] | String c s' => c :: chars s' end.

Fixpoint of_chars (l : list Ascii.ascii) : string :=
  match l with [] => EmptyString | c :: l' => String c (of_chars l') end.

Lemma of_chars_chars s : of_chars (chars s) = s.
Proof. induction s; simpl; congruence. Qed.
Lemma chars_of_chars l : chars (of_chars l) = l.
Proof. induction l; simpl; congruence. Qed.
Lemma chars_inj s1 s2 : chars s1 = chars s2 → s1 = s2.
Proof. intros H. by rewrite <-(of_chars_chars s1), H, of_chars_chars. Qed.
Lemma chars_app s1 s2 : chars (s1 +:+ s2) = chars s1 ++ chars s2.
Proof. induction s1; simpl; [done|]. f_equal. done. Qed.

(** ** strings.Join, strings.Split on one separator byte *)

Definition char_str (c : Ascii.ascii) : string := String c EmptyString.

(** [strings.Join(parts, sep)]. *)
Fixpoint Join (sep : string) (parts : list string) : string :=
  match parts with
  | [] => ""
  | [p] => p
  | p :: rest => p +:+ sep +:+ Join sep rest
  end.

(** [strings.Split(s, sep)] for a one-byte separator. *)
Fixpoint split_chars (sep : Ascii.ascii) (l : list Ascii.ascii) : list (list Ascii.ascii) :=
  match l with
  | [] => [[]]
  | c :: l' =>
      if decide (c = sep) then [] :: split_chars sep l'
      else match split_chars sep l' with
           | [] => [[c]]
           | w :: ws => (c :: w) :: ws
           end
  end.

Definition Split (sep : Ascii.ascii) (s : string) : list string :=
  of_chars <$> split_chars sep (chars s).

(** [strings.HasPrefix(s, p)]. *)
Fixpoint HasPrefix (s p : string) : bool :=
  match p, s with
  | EmptyString, _ => true
  | String c p', String d s' => bool_decide (c = d) && HasPrefix s' p'
  | _, EmptyString => false
  end.

Definition no_char (c : Ascii.ascii) (s : string) : Prop := c ∉ chars s.

#[export] Instance no_char_dec c s : Decision (no_char c s).
Proof. unfold no_char. apply _. Defined.

Lemma split_chars_ne sep l : split_chars sep l ≠ [].
Proof. destruct l as [|c l]; simpl; [done|]. repeat case_match; done. Qed.

Lemma split_chars_word sep w : sep ∉ w → split_chars sep w = [w].
Proof.
  induction w as [|c w IH]; intros Hn; simpl; [done|].
  rewrite decide_False by set_solver. rewrite IH by set_solver. done.
Qed.

Lemma split_chars_app sep w l :
  sep ∉ w → split_chars sep (w ++ sep :: l) = w :: split_chars sep l.
Proof.
  induction w as [|c w IH]; intros Hn; simpl.
  - by rewrite decide_True by done.
  - rewrite decide_False by set_solver. rewrite IH by set_solver. done.
Qed.

(** A join of separator-free parts splits back into them. *)
Lemma Split_Join sep parts :
  parts ≠ [] → Forall (no_char sep) parts →
  Split sep (Join (char_str sep) parts) = parts.
Proof.
  unfold Split. induction parts as [|p parts IH]; intros Hne Hall; [done|].
  apply Forall_cons in Hall as [Hp Hall]. destruct parts as [|q parts].
  - simpl. rewrite split_chars_word by done. simpl. by rewrite of_chars_chars.
  - change (Join (char_str sep) (p :: q :: parts))
      with (p +:+ char_str sep +:+ Join (char_str sep) (q :: parts)).
    rewrite !chars_app. change (chars (char_str sep)) with [sep].
    change ([sep] ++ ?l) with (sep :: l).
    rewrite split_chars_app by done. rewrite fmap_cons, of_chars_chars.
    f_equal. by apply IH.
Qed.

Lemma split_chars_no_sep sep l : Forall (λ w, sep ∉ w) (split_chars sep l).
Proof.
  induction l as [|c l IH]; simpl; [constructor; [set_solver|done]|].
  case_decide as Hc; [constructor; [set_solver|done]|].
  destruct (split_chars sep l) as [|w ws]; [constructor; [set_solver|done]|].
  apply Forall_cons in IH as [? ?]. constructor; [set_solver|done].
Qed.

Lemma Split_no_sep sep s : Forall (no_char sep) (Split sep s).
Proof.
  unfold Split. apply Forall_fmap. eapply Forall_impl; [apply split_chars_no_sep|].
  intros w Hw. unfold compose, no_char. by rewrite chars_of_chars.
Qed.

(** Texts joined by a byte the first does not contain split back. *)
Lemma cut_inj c a1 b1 a2 b2 :
  no_char c a1 → no_char c a2 → a1 +:+ String c b1 = a2 +:+ String c b2 → a1 = a2 ∧ b1 = b2.
Proof.
  unfold no_char. revert a2. induction a1 as [|x a1 IH]; intros [|y a2] H1 H2 Heq; simpl in *.
  - by simplify_eq.
  - simplify_eq. destruct H2. by apply elem_of_cons; left.
  - simplify_eq. destruct H1. by apply elem_of_cons; left.
  - simplify_eq. destruct (IH a2) as [-> ->]; [..|done|done].
    + intros Hin. apply H1. by apply elem_of_cons; right.
    + intros Hin. apply H2. by apply elem_of_cons; right.
Qed.

(** ** strings.TrimSpace

    [unicode.IsSpace]: the ASCII spaces, and U+0085, U+00A0, U+1680,
    U+2000..U+200A, U+2028, U+2029, U+202F, U+205F, U+3000 as UTF-8. *)

Definition code (c : Ascii.ascii) : nat := Ascii.nat_of_ascii c.

Definition space1 (c : Ascii.ascii) : bool :=
  ((9 <=? code c) && (code c <=? 13)) || (code c =? 32).
Definition space2 (a b : Ascii.ascii) : bool :=
  (code a =? 194) && ((code b =? 133) || (code b =? 160)).
Definition space3 (a b c : Ascii.ascii) : bool :=
  ((code a =? 225) && (code b =? 154) && (code c =? 128)) ||
  ((code a =? 226) && (code b =? 128) &&
     (((128 <=? code c) && (code c <=? 138)) || (code c =? 168) || (code c =? 169) || (code c =? 175))) ||
  ((code a =? 226) && (code b =? 129) && (code c =? 159)) ||
  ((code a =? 227) && (code b =? 128) && (code c =? 128)).

Fixpoint trim_left (l : list Ascii.ascii) : list Ascii.ascii :=
  match l with
  | [] => []
  | a :: l1 =>
      if space1 a then trim_left l1
      else match l1 with
           | [] => l
           | b :: l2 =>
               if space2 a b then trim_left l2
               else match l2 with
                    | [] => l
                    | c :: l3 => if space3 a b c then trim_left l3 else l
                    end
           end
  end.

(** The same from the end: the arguments come last byte first. *)
Fixpoint trim_right_rev (l : list Ascii.ascii) : list Ascii.ascii :=
  match l with
  | [] => []
  | c :: l1 =>
      if space1 c then trim_right_rev l1
      else match l1 with
           | [] => l
           | b :: l2 =>
               if space2 b c then trim_right_rev l2
               else match l2 with
                    | [] => l
                    | a :: l3 => if space3 a b c then trim_right_rev l3 else l
                    end
           end
  end.

Definition TrimSpace (s : string) : string :=
  of_chars (rev (trim_right_rev (rev (trim_left (chars s))))).

(** A byte that starts no space rune and is part of none stops both trims. *)
Definition solid (c : Ascii.ascii) : Prop := 33 ≤ code c ≤ 127.

Lemma solid_not_space a b c x :
  (solid x) → (space1 x = false) ∧ (space2 x b = false) ∧ (space2 a x = false) ∧
  (space3 x b c = false) ∧ (space3 a x c = false) ∧ (space3 a b x = false).
Proof.
  unfold solid. intros Hx.
  assert (∀ k, 128 ≤ k → (code x =? k) = false) as He by (intros k Hk; apply Nat.eqb_neq; lia).
  assert ((128 <=? code x) = false) as Hl by (apply Nat.leb_gt; lia).
  assert ((code x <=? 13) = false) as H13 by (apply Nat.leb_gt; lia).
  assert ((code x =? 32) = false) as H32 by (apply Nat.eqb_neq; lia).
  unfold space1, space2, space3. rewrite H32, H13, Hl, !He by lia.
  rewrite ?andb_false_r. simpl. rewrite ?andb_false_r. done.
Qed.

Lemma trim_left_solid x l : solid x → x ∈ l → x ∈ trim_left l.
Proof.
  intros Hx. remember (length l) as n eqn:Hn. assert (length l ≤ n) as Hle by lia. clear Hn.
  revert l Hle. induction n as [|n IH]; intros l Hle Hin.
  { destruct l; [done|simpl in Hle; lia]. }
  destruct l as [|a l1]; [done|]. simpl in Hle |- *. apply elem_of_cons in Hin.
  pose proof (λ a b c, solid_not_space a b c x Hx) as Hns.
  destruct (space1 a) eqn:H1.
  { apply IH; [lia|]. destruct Hin as [<-|]; [|done]. by destruct (Hns x x x) as (? & _); congruence. }
  destruct l1 as [|b l2]; [by apply elem_of_cons|].
  destruct (space2 a b) eqn:H2.
  { apply IH; [simpl in Hle; lia|]. rewrite elem_of_cons in Hin.
    destruct Hin as [<-|[<-|]]; [|..|done].
    - destruct (Hns x b x) as (_ & ? & _); congruence.
    - destruct (Hns a x x) as (_ & _ & ? & _). congruence. }
  destruct l2 as [|c l3]; [by apply elem_of_cons|].
  destruct (space3 a b c) eqn:H3; [|by apply elem_of_cons].
  apply IH; [simpl in Hle; lia|]. rewrite !elem_of_cons in Hin.
  destruct Hin as [<-|[<-|[<-|]]]; [| | |done].
  - destruct (Hns x b c) as (_ & _ & _ & ? & _). congruence.
  - destruct (Hns a x c) as (_ & _ & _ & _ & ? & _). congruence.
  - destruct (Hns a b x) as (_ & _ & _ & _ & _ & ?). congruence.
Qed.

Lemma trim_right_rev_solid x l : solid x → x ∈ l → x ∈ trim_right_rev l.
Proof.
  intros Hx. remember (length l) as n eqn:Hn. assert (length l ≤ n) as Hle by lia. clear Hn.
  revert l Hle. induction n as [|n IH]; intros l Hle Hin.
  { destruct l; [done|simpl in Hle; lia]. }
  destruct l as [|c l1]; [done|]. simpl in Hle |- *. apply elem_of_cons in Hin.
  pose proof (λ a b c, solid_not_space a b c x Hx) as Hns.
  destruct (space1 c) eqn:H1.
  { apply IH; [lia|]. destruct Hin as [<-|]; [|done]. by destruct (Hns x x x) as (? & _); congruence. }
  destruct l1 as [|b l2]; [by apply elem_of_cons|].
  destruct (space2 b c) eqn:H2.
  { apply IH; [simpl in Hle; lia|]. rewrite elem_of_cons in Hin.
    destruct Hin as [<-|[<-|]]; [|..|done].
    - destruct (Hns b x x) as (_ & _ & ? & _); congruence.
    - destruct (Hns x c x) as (_ & ? & _). congruence. }
  destruct l2 as [|a l3]; [by apply elem_of_cons|].
  destruct (space3 a b c) eqn:H3; [|by apply elem_of_cons].
  apply IH; [simpl in Hle; lia|]. rewrite !elem_of_cons in Hin.
  destruct Hin as [<-|[<-|[<-|]]]; [| | |done].
  - destruct (Hns a b x) as (_ & _ & _ & _ & _ & ?). congruence.
  - destruct (Hns a x c) as (_ & _ & _ & _ & ? & _). congruence.
  - destruct (Hns x b c) as (_ & _ & _ & ? & _). congruence.
Qed.

Lemma TrimSpace_solid x s : solid x → x ∈ chars s → TrimSpace s ≠ "".
Proof.
  intros Hx Hin He. unfold TrimSpace in He. apply (f_equal chars) in He. rewrite chars_of_chars in He.
  assert (x ∈ rev (trim_right_rev (rev (trim_left (chars s))))) as Hin'.
  { apply list_elem_of_In, in_rev. rewrite rev_involutive. apply list_elem_of_In, trim_right_rev_solid; [done|].
    apply list_elem_of_In, in_rev. rewrite rev_involutive. by apply list_elem_of_In, trim_left_solid. }
  rewrite He in Hin'. by apply elem_of_nil in Hin'.
Qed.

(** A text that starts and ends with solid bytes is its own trim. *)
Definition tight (s : string) : Prop :=
  (∀ c, head (chars s) = Some c → solid c) ∧ (∀ c, last (chars s) = Some c → solid c).

Lemma trim_left_head l : (∀ c, head l = Some c → solid c) → trim_left l = l.
Proof.
  intros Hh. destruct l as [|c l]; [done|]. specialize (Hh c eq_refl).
  pose proof (λ b d, solid_not_space d b d c Hh) as Hn. simpl.
  destruct (Hn c c) as (-> & _). destruct l as [|b l]; [done|].
  destruct (Hn b b) as (_ & -> & _). destruct l as [|d l]; [done|].
  assert (space3 c b d = false) as ->; [|done].
  destruct (solid_not_space d b d c Hh) as (_ & _ & _ & ? & _). done.
Qed.

Lemma trim_right_rev_head l : (∀ c, head l = Some c → solid c) → trim_right_rev l = l.
Proof.
  intros Hh. destruct l as [|c l]; [done|]. specialize (Hh c eq_refl). simpl.
  destruct (solid_not_space c c c c Hh) as (-> & _). destruct l as [|b l]; [done|].
  destruct (solid_not_space b b b c Hh) as (_ & _ & -> & _). destruct l as [|a l]; [done|].
  destruct (solid_not_space a b b c Hh) as (_ & _ & _ & _ & _ & ->). done.
Qed.

Lemma head_rev {A} (l : list A) : head (rev l) = last l.
Proof.
  induction l as [|a l IH]; [done|]. simpl. destruct l as [|b l]; [done|].
  rewrite last_cons_cons, <-IH. simpl. destruct (rev l); done.
Qed.

Lemma TrimSpace_tight s : tight s → TrimSpace s = s.
Proof.
  intros [Hh Hl]. unfold TrimSpace. rewrite trim_left_head by done.
  rewrite trim_right_rev_head by (intros c; rewrite head_rev; apply Hl).
  by rewrite rev_involutive, of_chars_chars.
Qed.

Lemma TrimSpace_tight_space s : tight s → TrimSpace (s +:+ " ") = s.
Proof.
  intros [Hh Hl]. destruct (decide (s = "")) as [->|Hne]; [done|].
  unfold TrimSpace. rewrite chars_app, trim_left_head, rev_app_distr.
  2: { destruct s; [done|]. apply Hh. }
  cbn [rev chars app trim_right_rev]. change (space1 " "%char) with true. cbv iota.
  rewrite trim_right_rev_head by (intros c; rewrite head_rev; apply Hl).
  by rewrite rev_involutive, of_chars_chars.
Qed.

(** [strip_prefix p l] is what follows the prefix [p] of [l]. *)
Fixpoint strip_prefix (p l : list Ascii.ascii) : option (list Ascii.ascii) :=
  match p, l with
  | [], _ => Some l
  | c :: p', d :: l' => if decide (c = d) then strip_prefix p' l' else None
  | _, [] => None
  end.

(** ** strconv.Itoa *)

Definition nat_text (n : nat) : string := NilEmpty.string_of_uint (Nat.to_uint n).

Definition Itoa (z : Z) : string :=
  if (z <? 0)%Z then String "-"%char (nat_text (Z.to_nat (- z))) else nat_text (Z.to_nat z).

Lemma nat_text_inj n m : nat_text n = nat_text m → n = m.
Proof.
  unfold nat_text. intros H. apply (f_equal NilEmpty.uint_of_string) in H.
  rewrite !NilEmpty.usu in H. simplify_eq. by apply Unsigned.to_uint_inj.
Qed.

Definition is_digit (c : Ascii.ascii) : Prop :=
  48 ≤ Ascii.nat_of_ascii c ≤ 57.

Lemma nat_text_digits n : Forall is_digit (chars (nat_text n)).
Proof.
  unfold nat_text. generalize (Nat.to_uint n). intros d.
  induction d; simpl; constructor; try done; unfold is_digit; vm_compute; lia.
Qed.

Lemma nat_text_no_char c n : ¬ is_digit c → no_char c (nat_text n).
Proof.
  intros Hc Hin. pose proof (nat_text_digits n) as Hall.
  rewrite Forall_forall in Hall. by apply Hc, Hall.
Qed.

Lemma Itoa_inj x y : Itoa x = Itoa y → x = y.
Proof.
  assert (∀ n s, nat_text n ≠ String "-"%char s) as Hno.
  { intros n s Heq. pose proof (nat_text_digits n) as Hd. rewrite Heq in Hd. simpl in Hd.
    apply Forall_cons in Hd as [[Hd _] _]. vm_compute in Hd. lia. }
  unfold Itoa. destruct (Z.ltb_spec x 0), (Z.ltb_spec y 0); intros Heq.
  - injection Heq as Heq. apply nat_text_inj in Heq. lia.
  - symmetry in Heq. by apply Hno in Heq.
  - by apply Hno in Heq.
  - apply nat_text_inj in Heq. lia.
Qed.

#[export] Instance Itoa_Inj : Inj (=) (=) Itoa.
Proof. exact Itoa_inj. Qed.

Lemma Itoa_no_char c z : ¬ is_digit c → c ≠ "-"%char → no_char c (Itoa z).
Proof.
  intros Hd Hm. unfold Itoa. destruct (z <? 0)%Z; [|by apply nat_text_no_char].
  unfold no_char. simpl. intros [->|Hin]%elem_of_cons; [done|].
  by apply (nat_text_no_char c (Z.to_nat (- z)) Hd).
Qed.

(** ** filepath.Clean (Unix)

    The source walks the path once, keeping the output built so far; here the
    output is the stack of its elements, innermost first. An empty element or
    ["."] is skipped, [".."] removes the previous element when there is one
    that is not itself [".."], and is dropped at the root. *)

Definition slash : Ascii.ascii := "/"%char.

Definition clean_step (rooted : bool) (st : list string) (seg : string) : list string :=
  if decide (seg = "") then st
  else if decide (seg = ".") then st
  else if decide (seg = "..") then
    match st with
    | [] => if rooted then [] else [".."]
    | top :: rest => if decide (top = "..") then ".." :: st else rest
    end
  else seg :: st.

Definition clean_elems (rooted : bool) (segs : list string) : list string :=
  foldl (clean_step rooted) [] segs.

Definition Clean (path : string) : string :=
  let rooted := HasPrefix path "/" in
  let out := Join "/" (rev (clean_elems rooted (Split slash path))) in
  if rooted then "/" +:+ out else if decide (out = "") then "." else out.

(** The stacks [clean_step] builds: [".."] only at the bottom, and only in a
    path that is not rooted. *)
Fixpoint clean_stack (rooted : bool) (st : list string) : Prop :=
  match st with
  | [] => True
  | a :: st' =>
      a ≠ "" ∧ a ≠ "." ∧ no_char slash a ∧
      (a = ".." → rooted = false ∧ (st' = [] ∨ head st' = Some "..")) ∧
      clean_stack rooted st'
  end.

Lemma clean_step_stack rooted st seg :
  no_char slash seg → clean_stack rooted st → clean_stack rooted (clean_step rooted st seg).
Proof.
  intros Hseg Hst. unfold clean_step. repeat case_decide; subst; try done.
  destruct st as [|top rest]; [destruct rooted; naive_solver|].
  destruct Hst as (? & ? & ? & Hdd & Hst).
  case_decide; subst; [|done]. simpl. naive_solver.
Qed.

Lemma clean_elems_stack rooted segs :
  Forall (no_char slash) segs → clean_stack rooted (clean_elems rooted segs).
Proof.
  unfold clean_elems. intros Hall.
  assert (∀ st, clean_stack rooted st → clean_stack rooted (foldl (clean_step rooted) st segs))
    as Hgen; [|by apply Hgen].
  induction Hall as [|seg segs Hseg Hall IH]; intros st Hst; simpl; [done|].
  by apply IH, clean_step_stack.
Qed.

Lemma clean_step_push rooted a st :
  clean_stack rooted (a :: st) → clean_step rooted st a = a :: st.
Proof.
  intros (Hne & Hnd & Hns & Hdd & Hst). unfold clean_step.
  case_decide; [done|]. case_decide; [done|]. case_decide as Heq; [subst|done].
  destruct (Hdd eq_refl) as [-> [->|Hhd]]; [done|].
  by destruct st as [|b st]; simplify_eq/=.
Qed.

Lemma clean_elems_rev rooted st :
  clean_stack rooted st → clean_elems rooted (rev st) = st.
Proof.
  induction st as [|a st IH]; intros Hst; [done|]. simpl.
  unfold clean_elems in *. rewrite foldl_app. simpl.
  rewrite IH by apply Hst. by apply clean_step_push.
Qed.

Lemma clean_stack_no_char rooted st : clean_stack rooted st → Forall (no_char slash) st.
Proof. induction st; simpl; [done|]. intros. constructor; naive_solver. Qed.

Lemma Join_cons_ne sep a l : a ≠ "" → Join sep (a :: l) ≠ "".
Proof. destruct a; [done|]. by destruct l. Qed.

Lemma Join_cons_no_prefix a l :
  a ≠ "" → no_char slash a → HasPrefix (Join "/" (a :: l)) "/" = false.
Proof.
  destruct a as [|c a]; [done|]. intros _ Hn.
  assert ("/"%char ≠ c) by (intros <-; apply Hn; set_solver).
  destruct l; simpl; by rewrite bool_decide_false.
Qed.

Lemma Split_slash_prefix s : Split slash ("/" +:+ s) = "" :: Split slash s.
Proof. done. Qed.

Lemma clean_elems_empty rooted segs : clean_elems rooted ("" :: segs) = clean_elems rooted segs.
Proof. done. Qed.

(** [filepath.Clean] returns a fixed point of itself. *)
Lemma Clean_idem path : Clean (Clean path) = Clean path.
Proof.
  unfold Clean at 2 3. set (r := HasPrefix path "/").
  pose proof (clean_elems_stack r _ (Split_no_sep slash path)) as Hst.
  revert Hst. generalize (clean_elems r (Split slash path)) as st. intros st Hst.
  assert (Split slash (Join "/" (rev st)) = rev st ∨ st = []) as Hsplit.
  { destruct st as [|a st]; [by right|left]. apply Split_Join.
    - simpl. by destruct (rev st).
    - apply Forall_rev. by eapply clean_stack_no_char. }
  destruct r.
  - assert (clean_elems true (Split slash (Join "/" (rev st))) = st) as He.
    { destruct Hsplit as [->| ->]; [by apply clean_elems_rev|done]. }
    unfold Clean. rewrite Split_slash_prefix, clean_elems_empty.
    change (HasPrefix ("/" +:+ Join "/" (rev st)) "/") with (HasPrefix (Join "/" (rev st)) "").
    replace (HasPrefix (Join "/" (rev st)) "") with true by (by destruct (Join _ _)).
    by rewrite He.
  - case_decide as Hout; [done|].
    assert (st ≠ []) as Hne by (intros ->; done).
    assert (rev st ≠ []) as Hrev.
    { intros Hr. apply Hne. by rewrite <-(rev_involutive st), Hr. }
    destruct Hsplit as [Hsplit|]; [|done].
    unfold Clean. rewrite Hsplit.
    assert (HasPrefix (Join "/" (rev st)) "/" = false) as ->.
    { pose proof (Forall_rev (clean_stack_no_char _ _ Hst)) as Hns.
      assert (Forall (λ a, a ≠ "") (rev st)) as Hne'.
      { apply Forall_rev. clear -Hst. induction st; constructor; naive_solver. }
      destruct (rev st) as [|a l]; [done|].
      apply Join_cons_no_prefix; [by inversion Hne'|by inversion Hns]. }
    rewrite clean_elems_rev by done. by rewrite decide_False.
Qed.

(** ** strconv.Atoi *)

Definition atoi_digit (c : Ascii.ascii) : option Z :=
  if bool_decide (48 ≤ code c ≤ 57) then Some (Z.of_nat (code c) - 48)%Z else None.
Fixpoint atoi_digits (acc : Z) (l : list Ascii.ascii) : option Z :=
  match l with
  | [] => Some acc
  | c :: l' => d ← atoi_digit c; atoi_digits (10 * acc + d) l'
  end.
Definition atoi_number (l : list Ascii.ascii) : option Z := match l with [] => None | _ => atoi_digits 0 l end.

(** A sign, digits, and the range of an [int]. *)
Definition Atoi (s : string) : option Z :=
  z ← match chars s with
      | [] => None
      | c :: l => if decide (c = "-"%char) then Z.opp <$> atoi_number l else if decide (c = "+"%char) then atoi_number l else atoi_number (c :: l)
      end;
  if bool_decide (- 2 ^ 63 ≤ z < 2 ^ 63)%Z then Some z else None.

Lemma atoi_digits_uint d acc : atoi_digits (Z.of_nat acc) (chars (NilEmpty.string_of_uint d)) = Some (Z.of_nat (Nat.of_uint_acc d acc)).
Proof.
  revert acc. induction d as [|d IH|d IH|d IH|d IH|d IH|d IH|d IH|d IH|d IH|d IH]; intros acc; [done|..]; cbn [NilEmpty.string_of_uint chars atoi_digits Nat.of_uint_acc];
    unfold atoi_digit; rewrite bool_decide_true by (vm_compute; lia); cbn [mbind option_bind]; rewrite <- IH; f_equal; rewrite ?Nat.tail_mul_spec; vm_compute (code _); lia.
Qed.

Lemma Atoi_Itoa z : (- 2 ^ 63 ≤ z < 2 ^ 63)%Z → Atoi (Itoa z) = Some z.
Proof.
  intros Hz.
  assert (Hnum : ∀ n, atoi_number (chars (nat_text n)) = Some (Z.of_nat n)).
  { intros n. assert (Hd : atoi_digits 0 (chars (nat_text n)) = Some (Z.of_nat n)).
    { unfold nat_text. rewrite (atoi_digits_uint _ 0). f_equal. f_equal. apply Unsigned.of_to. }
    unfold atoi_number. destruct (chars (nat_text n)) eqn:Hn; [|done]. cbn in Hd. assert (n = 0) as -> by (injection Hd; lia). done. }
  assert (Hz' : ∀ x, x = z → (if bool_decide (- 2 ^ 63 ≤ x < 2 ^ 63)%Z then Some x else None) = Some z) by (intros x ->; by rewrite bool_decide_true).
  unfold Atoi, Itoa. destruct (Z.ltb_spec z 0) as [Hs|Hs].
  - cbn [chars]. rewrite decide_True by done. rewrite Hnum. cbn [fmap option_fmap option_map mbind option_bind]. apply Hz'. lia.
  - pose proof (nat_text_digits (Z.to_nat z)) as Hd. specialize (Hnum (Z.to_nat z)). destruct (chars (nat_text _)) as [|c l]; [done|].
    apply Forall_cons in Hd as [Hc _]. rewrite !decide_False by (intros ->; vm_compute in Hc; lia). rewrite Hnum. cbn [mbind option_bind]. apply Hz'. lia.
Qed.

(** ** 64-bit two's complement *)

Definition wrap64 (z : Z) : Z := ((z + 2 ^ 63) mod 2 ^ 64 - 2 ^ 63)%Z.

Lemma wrap64_id z : (- 2 ^ 63 ≤ z < 2 ^ 63)%Z → wrap64 z = z.
Proof. intros H. unfold wrap64. rewrite Z.mod_small; lia. Qed.
