(* ===== verification/FilePath.v ===== *)
(** * Go's [path/filepath] on Unix

    [Join], [Dir] and [Base] beside the [Clean] of [GoLib], and the clean
    absolute paths they work on, as their elements. *)
From S2P Require Import Prelude GoLib.

(** [filepath.IsAbs]: a leading slash. *)
Definition IsAbs (path : string) : bool := HasPrefix path "/".

(** [filepath.Join]: the elements from the first non-empty one on. *)
Fixpoint JoinPath (elems : list string) : string :=
  match elems with
  | [] => ""
  | e :: rest => if decide (e = "") then JoinPath rest else Clean (Join "/" elems)
  end.

(** What precedes and includes the last slash, and what follows it, of a text
    given last byte first. *)
Fixpoint after_slash (l : list Ascii.ascii) : list Ascii.ascii :=
  match l with
  | [] => []
  | c :: l' => if decide (c = slash) then [] else c :: after_slash l'
  end.
Fixpoint upto_slash (l : list Ascii.ascii) : list Ascii.ascii :=
  match l with
  | [] => []
  | c :: l' => if decide (c = slash) then l else upto_slash l'
  end.
Fixpoint strip_slashes (l : list Ascii.ascii) : list Ascii.ascii :=
  match l with
  | c :: l' => if decide (c = slash) then strip_slashes l' else l
  | [] => []
  end.

(** [filepath.Dir]. *)
Definition Dir (path : string) : string := Clean (of_chars (rev (upto_slash (rev (chars path))))).

(** [filepath.Base]. *)
Definition Base (path : string) : string :=
  if decide (path = "") then "."
  else match strip_slashes (rev (chars path)) with
       | [] => "/"
       | l => of_chars (rev (after_slash l))
       end.

(** ** Clean absolute paths *)

Definition plain (e : string) : Prop := e ≠ "" ∧ e ≠ "." ∧ e ≠ ".." ∧ no_char slash e.

Definition abs_path (es : list string) : string := "/" +:+ Join "/" es.

Lemma plain_stack es : Forall plain es ↔ clean_stack true es.
Proof.
  induction es as [|e es IH]; simpl; [done|]. rewrite Forall_cons, IH. unfold plain. naive_solver.
Qed.

Lemma Clean_rooted p : HasPrefix p "/" = true → ∃ es, Forall plain es ∧ Clean p = abs_path es.
Proof.
  intros Hp. unfold Clean. rewrite Hp. exists (rev (clean_elems true (Split slash p))). split; [|done].
  apply Forall_rev, plain_stack, clean_elems_stack, Split_no_sep.
Qed.

Lemma abs_path_rooted es : HasPrefix (abs_path es) "/" = true.
Proof. unfold abs_path. simpl. by destruct (Join "/" es). Qed.

Lemma Clean_abs_path es : Forall plain es → Clean (abs_path es) = abs_path es.
Proof.
  intros He. destruct (decide (es = [])) as [->|Hne]; [done|].
  unfold Clean. rewrite abs_path_rooted. unfold abs_path.
  rewrite Split_slash_prefix, clean_elems_empty, Split_Join; [|done|].
  2: { eapply Forall_impl; [exact He|]. by intros e (_ & _ & _ & ?). }
  rewrite <-(rev_involutive es) at 1. rewrite clean_elems_rev; [by rewrite rev_involutive|].
  apply plain_stack, Forall_rev, He.
Qed.

Lemma split_chars_cut sep l1 l2 : split_chars sep (l1 ++ sep :: l2) = split_chars sep l1 ++ split_chars sep l2.
Proof.
  induction l1 as [|c l1 IH]; simpl; [by rewrite decide_True|].
  rewrite IH. case_decide; [done|]. destruct (split_chars sep l1) as [|w ws] eqn:Hw; [|done].
  by apply split_chars_ne in Hw.
Qed.

Lemma Split_cut s t : Split slash (s +:+ "/" +:+ t) = Split slash s ++ Split slash t.
Proof. unfold Split. rewrite !chars_app. simpl. by rewrite split_chars_cut, fmap_app. Qed.

Lemma Split_abs_path es :
  Forall plain es → Split slash (abs_path es) = "" :: match es with [] => [""] | _ => es end.
Proof.
  intros He. unfold abs_path. rewrite Split_slash_prefix. f_equal. destruct es as [|e es]; [done|].
  apply Split_Join; [done|]. eapply Forall_impl; [exact He|]. by intros x (_ & _ & _ & ?).
Qed.

Lemma abs_path_inj es1 es2 : Forall plain es1 → Forall plain es2 → abs_path es1 = abs_path es2 → es1 = es2.
Proof.
  intros H1 H2 Heq. apply (f_equal (Split slash)) in Heq. rewrite !Split_abs_path in Heq by done.
  injection Heq as Heq. destruct es1 as [|a es1], es2 as [|b es2]; [done| | |done].
  - injection Heq as Hb _. apply Forall_cons_1 in H2 as [[Hne _] _]. congruence.
  - injection Heq as Hb _. apply Forall_cons_1 in H1 as [[Hne _] _]. congruence.
Qed.

Lemma HasPrefix_app s p : HasPrefix s p = true ↔ ∃ t, s = p +:+ t.
Proof.
  revert s. induction p as [|c p IH]; intros s; simpl.
  - split; [intros _; by exists s|intros _; by destruct s].
  - destruct s as [|d s]; [split; [done|by intros [t ?]]|]. simpl. rewrite andb_true_iff, bool_decide_eq_true, IH. split.
    + intros [-> [t ->]]. by exists t.
    + intros [t [= -> ->]]. eauto.
Qed.

Lemma string_app_assoc (a b c : string) : (a +:+ b) +:+ c = a +:+ b +:+ c.
Proof. induction a as [|x a IH]; [done|]. exact (f_equal (String x) IH). Qed.

Lemma Join_cons sep e l : l ≠ [] → Join sep (e :: l) = e +:+ sep +:+ Join sep l.
Proof. by destruct l. Qed.

Lemma Join_app es1 es2 : es1 ≠ [] → es2 ≠ [] → Join "/" (es1 ++ es2) = Join "/" es1 +:+ "/" +:+ Join "/" es2.
Proof.
  intros H1 H2. induction es1 as [|e es1 IH]; [done|]. destruct es1 as [|e' es1].
  - by apply Join_cons.
  - rewrite <-app_comm_cons, !(Join_cons _ e) by done. rewrite IH by done. by rewrite !string_app_assoc.
Qed.

Lemma Clean_slash p : HasPrefix p "/" = true → Clean ("/" +:+ p) = Clean p.
Proof.
  intros Hp. unfold Clean. rewrite Hp, Split_slash_prefix, clean_elems_empty.
  change (HasPrefix ("/" +:+ p) "/") with (HasPrefix p ""). by replace (HasPrefix p "") with true by by destruct p.
Qed.

(** Below a clean directory, the elements of a clean path are appended. *)
Lemma JoinPath_abs es ds : Forall plain es → Forall plain ds → JoinPath (abs_path es :: ds) = abs_path (es ++ ds).
Proof.
  intros He Hd. cbn [JoinPath]. rewrite decide_False by done.
  assert (Forall plain (es ++ ds)) as Hall by by apply Forall_app.
  destruct ds as [|d ds]; [rewrite app_nil_r; by apply Clean_abs_path|].
  rewrite Join_cons by done. destruct es as [|e es].
  - assert (abs_path [] +:+ "/" +:+ Join "/" (d :: ds) = "/" +:+ abs_path (d :: ds)) as -> by done.
    rewrite Clean_slash by apply abs_path_rooted. by apply Clean_abs_path.
  - assert (abs_path (e :: es) +:+ "/" +:+ Join "/" (d :: ds) = abs_path ((e :: es) ++ d :: ds)) as ->;
      [|by apply Clean_abs_path].
    unfold abs_path. by rewrite Join_app.
Qed.

(** ** Dir and Base *)

Lemma upto_slash_app l1 l2 : slash ∉ l1 → upto_slash (l1 ++ slash :: l2) = slash :: l2.
Proof.
  induction l1 as [|c l1 IH]; intros Hn; [done|]. cbn [upto_slash after_slash app].
  rewrite decide_False by set_solver. apply IH. set_solver.
Qed.
Lemma after_slash_app l1 l2 : slash ∉ l1 → after_slash (l1 ++ slash :: l2) = l1.
Proof.
  induction l1 as [|c l1 IH]; intros Hn; [done|]. cbn [upto_slash after_slash app].
  rewrite decide_False by set_solver. f_equal. apply IH. set_solver.
Qed.

(** The last element of a clean path, and what is before it. *)
Lemma chars_snoc es e :
  chars (abs_path (es ++ [e])) = chars (match es with [] => "" | _ => abs_path es end) ++ slash :: chars e.
Proof.
  destruct es as [|e' es]; [done|]. unfold abs_path. rewrite Join_app by done. simpl. by rewrite !chars_app.
Qed.

Lemma Dir_abs_path es e : Forall plain (es ++ [e]) → Dir (abs_path (es ++ [e])) = abs_path es.
Proof.
  intros He. apply Forall_app in He as [Hes [(Hne & _ & _ & Hns) _]%Forall_cons_1].
  unfold Dir. rewrite chars_snoc, rev_app_distr. simpl. rewrite <-app_assoc. simpl.
  rewrite upto_slash_app by (rewrite list_elem_of_In, <-in_rev, <-list_elem_of_In; exact Hns).
  simpl. rewrite rev_involutive. destruct es as [|e' es]; [done|].
  assert (of_chars (chars (abs_path (e' :: es)) ++ [slash]) = abs_path (e' :: es) +:+ "/" +:+ "") as ->.
  { apply chars_inj. by rewrite chars_of_chars, chars_app. }
  unfold Clean. assert (HasPrefix (abs_path (e' :: es) +:+ "/" +:+ "") "/" = true) as ->.
  { unfold abs_path. simpl. by destruct (_ +:+ _). }
  rewrite Split_cut. unfold clean_elems. rewrite foldl_app. simpl.
  pose proof (Clean_abs_path (e' :: es) Hes) as Hc. unfold Clean in Hc. by rewrite abs_path_rooted in Hc.
Qed.

Lemma Base_abs_path es e : Forall plain (es ++ [e]) → Base (abs_path (es ++ [e])) = e.
Proof.
  intros He. apply Forall_app in He as [Hes [(Hne & _ & _ & Hns) _]%Forall_cons_1].
  unfold Base. rewrite decide_False by done. rewrite chars_snoc, rev_app_distr. simpl. rewrite <-app_assoc. simpl.
  assert (slash ∉ rev (chars e)) as Hn by (rewrite list_elem_of_In, <-in_rev, <-list_elem_of_In; exact Hns).
  destruct (rev (chars e)) as [|c l] eqn:Hr.
  { apply (f_equal (@rev _)) in Hr. rewrite rev_involutive in Hr. destruct e; done. }
  cbn [app strip_slashes]. rewrite decide_False by set_solver.
  cbn [after_slash]. rewrite decide_False, after_slash_app by set_solver.
  by rewrite <-Hr, rev_involutive, of_chars_chars.
Qed.
