(* ===== verification/GoTime.v ===== *)
(** * RFC 3339 times of Go's [time] package

    An instant is its nanoseconds since 1970-01-01T00:00:00Z. [ParseRFC3339] is
    [time.Parse(time.RFC3339, s)], lenient where Go is: an hour of one digit, a
    comma before the fraction, an offset of 24 hours or 60 minutes.
    [FormatRFC3339Nano] is [t.UTC().Format(time.RFC3339Nano)]. The two agree on
    the years the text has four digits for. *)
From S2P Require Import Prelude GoLib.

Local Open Scope Z_scope.

(** ** Dates of the Gregorian calendar *)

Definition is_leap (y : Z) : bool := (y mod 4 =? 0) && (negb (y mod 100 =? 0) || (y mod 400 =? 0)).

(** The days from 0001-01-01 to the first of January of a year. *)
Definition days_to_year (y : Z) : Z := 365 * (y - 1) + (y - 1) / 4 - (y - 1) / 100 + (y - 1) / 400.

Definition month_days (leap : bool) : list Z := [31; if leap then 29 else 28; 31; 30; 31; 30; 31; 31; 30; 31; 30; 31].
Definition days_in (y m : Z) : Z := default 0 (month_days (is_leap y) !! Z.to_nat (m - 1)).

(** The days before a month. *)
Definition days_to_month (leap : bool) (m : Z) : Z := foldr Z.add 0 (take (Z.to_nat (m - 1)) (month_days leap)).

Definition epoch_day : Z := 719162.
Definition day_number (y m d : Z) : Z := days_to_year y + days_to_month (is_leap y) m + (d - 1) - epoch_day.

(** The year of a day counted from 0001-01-01: the estimate is a year or two
    short at most. *)
Definition year_of (n : Z) : Z :=
  let c := 400 * n / 146097 in
  if days_to_year (c + 2) <=? n then c + 2 else if days_to_year (c + 1) <=? n then c + 1 else c.

(** The month and the day of a day of the year. *)
Fixpoint month_of (lengths : list Z) (m doy : Z) : Z * Z :=
  match lengths with
  | [] => (m, doy + 1)
  | k :: lengths' => if doy <? k then (m, doy + 1) else month_of lengths' (m + 1) (doy - k)
  end.

Definition date_of (day : Z) : Z * Z * Z :=
  let n := day + epoch_day in
  let y := year_of n in
  let '(m, d) := month_of (month_days (is_leap y)) 1 (n - days_to_year y) in (y, m, d).

(** ** Instants *)

Definition second_ns : Z := 1000000000.
Definition instant (day h mi s ns offset : Z) : Z := (day * 86400 + h * 3600 + mi * 60 + s - offset) * second_ns + ns.

(** ** Numerals *)

Definition digit_value (c : Ascii.ascii) : option Z :=
  let n := Z.of_nat (Ascii.nat_of_ascii c) in if (48 <=? n) && (n <=? 57) then Some (n - 48) else None.
Definition digit_char (d : Z) : Ascii.ascii := Ascii.ascii_of_nat (Z.to_nat (d + 48)).

(** The numeral of [w] digits. *)
Fixpoint numeral (w : nat) (n : Z) : list Ascii.ascii :=
  match w with O => [] | S w' => numeral w' (n / 10) ++ [digit_char (n mod 10)] end.

(** [w] digits, exactly. *)
Fixpoint read_digits (w : nat) (acc : Z) (l : list Ascii.ascii) : option (Z * list Ascii.ascii) :=
  match w with
  | O => Some (acc, l)
  | S w' => match l with
            | [] => None
            | c :: l' => match digit_value c with Some d => read_digits w' (acc * 10 + d) l' | None => None end
            end
  end.

Fixpoint span_digits (l : list Ascii.ascii) : list Ascii.ascii * list Ascii.ascii :=
  match l with
  | c :: l' => match digit_value c with Some _ => let '(ds, rest) := span_digits l' in (c :: ds, rest) | None => ([], l) end
  | [] => ([], [])
  end.

(** ** Parsing *)

Definition literal (c : Ascii.ascii) (l : list Ascii.ascii) : option (list Ascii.ascii) :=
  match l with c' :: l' => if decide (c' = c) then Some l' else None | [] => None end.

(** [getnum] that is content with one digit. *)
Definition read_hour (l : list Ascii.ascii) : option (Z * list Ascii.ascii) :=
  match read_digits 2 0 l with Some r => Some r | None => read_digits 1 0 l end.

(** [parseNanoseconds]: nine digits count, fewer are scaled. *)
Definition nanoseconds (ds : list Ascii.ascii) : option Z :=
  let used := take 9 ds in
  match read_digits (length used) 0 used with
  | Some (n, _) => Some (n * 10 ^ Z.of_nat (9 - length used))
  | None => None
  end.

(** A fraction the layout does not mention; a mark without a digit is none. *)
Definition read_fraction (l : list Ascii.ascii) : option (Z * list Ascii.ascii) :=
  match l with
  | c :: l' =>
      if decide (c = "."%char ∨ c = ","%char) then
        match span_digits l' with
        | ([], _) => Some (0, l)
        | (ds, rest) => match nanoseconds ds with Some ns => Some (ns, rest) | None => None end
        end
      else Some (0, l)
  | [] => Some (0, l)
  end.

Definition read_offset (l : list Ascii.ascii) : option (Z * list Ascii.ascii) :=
  match l with
  | [] => None
  | sign :: l1 =>
      if decide (sign = "Z"%char) then Some (0, l1)
      else match read_digits 2 0 l1 with
      | None => None
      | Some (hh, l2) =>
          match literal ":" l2 with
          | None => None
          | Some l3 =>
              match read_digits 2 0 l3 with
              | None => None
              | Some (mm, l4) =>
                  if (24 <? hh) || (60 <? mm) then None
                  else if decide (sign = "+"%char) then Some ((hh * 60 + mm) * 60, l4)
                  else if decide (sign = "-"%char) then Some (- ((hh * 60 + mm) * 60), l4) else None
              end
          end
      end
  end.

Definition between (lo hi : Z) (r : option (Z * list Ascii.ascii)) : option (Z * list Ascii.ascii) :=
  match r with Some (n, l) => if (lo <=? n) && (n <=? hi) then Some (n, l) else None | None => None end.

#[local] Notation "'read' x '&' l '<-' e ';' k" :=
  (match e with Some (x, l) => k | None => None end) (at level 10, x name, l name, e at level 100, k at level 200).
#[local] Notation "'skip' l '<-' e ';' k" :=
  (match e with Some l => k | None => None end) (at level 10, l name, e at level 100, k at level 200).

(** A layout of date and time: [sep] between the two, [zone] after them. *)
Definition parse_layout (sep : Ascii.ascii) (zone : list Ascii.ascii → option (Z * list Ascii.ascii)) (l : list Ascii.ascii) : option Z :=
  read y & l <- read_digits 4 0 l; skip l <- literal "-" l;
  read m & l <- between 1 12 (read_digits 2 0 l); skip l <- literal "-" l;
  read d & l <- read_digits 2 0 l; skip l <- literal sep l;
  read h & l <- between 0 23 (read_hour l); skip l <- literal ":" l;
  read mi & l <- between 0 59 (read_digits 2 0 l); skip l <- literal ":" l;
  read s & l <- between 0 59 (read_digits 2 0 l);
  read ns & l <- read_fraction l;
  read offset & l <- zone l;
  match l with
  | [] => if (1 <=? d) && (d <=? days_in y m) then Some (instant (day_number y m d) h mi s ns offset) else None
  | _ :: _ => None
  end.
Definition parse_time : list Ascii.ascii → option Z := parse_layout "T" read_offset.
Definition ParseRFC3339 (s : string) : option Z := parse_time (chars s).

(** ** Formatting *)

(** A year of four digits at least, with its sign. *)
Definition year_text (y : Z) : list Ascii.ascii :=
  let digits := if Z.abs y <? 10000 then numeral 4 (Z.abs y) else chars (Itoa (Z.abs y)) in
  if y <? 0 then "-"%char :: digits else digits.

(** Nine digits without the zeros at their end. *)
Fixpoint drop_zeros (l : list Ascii.ascii) : list Ascii.ascii :=
  match l with c :: l' => if decide (c = "0"%char) then drop_zeros l' else l | [] => [] end.
Definition fraction_text (ns : Z) : list Ascii.ascii :=
  match rev (drop_zeros (rev (numeral 9 ns))) with [] => [] | ds => "."%char :: ds end.

Definition stamp (sep : Ascii.ascii) (zone : list Ascii.ascii) (t : Z) : list Ascii.ascii :=
  let ns := t mod second_ns in
  let secs := t / second_ns in
  let sod := secs mod 86400 in
  let '(y, m, d) := date_of (secs / 86400) in
  year_text y ++ "-"%char :: numeral 2 m ++ "-"%char :: numeral 2 d ++ sep :: numeral 2 (sod / 3600) ++
  ":"%char :: numeral 2 (sod / 60 mod 60) ++ ":"%char :: numeral 2 (sod mod 60) ++ fraction_text ns ++ zone.
Definition format_time : Z → list Ascii.ascii := stamp "T" ["Z"%char].
Definition FormatRFC3339Nano (t : Z) : string := of_chars (format_time t).

(** ** Numerals read back *)

Lemma digit_value_char d : 0 ≤ d < 10 → digit_value (digit_char d) = Some d.
Proof.
  intros Hd. assert (d = 0 ∨ d = 1 ∨ d = 2 ∨ d = 3 ∨ d = 4 ∨ d = 5 ∨ d = 6 ∨ d = 7 ∨ d = 8 ∨ d = 9) as Hc by lia.
  by repeat destruct Hc as [->|Hc]; [..|subst].
Qed.

Lemma read_digits_app w1 w2 acc l :
  read_digits (w1 + w2) acc l = match read_digits w1 acc l with Some (n, l') => read_digits w2 n l' | None => None end.
Proof.
  revert acc l. induction w1 as [|w1 IH]; intros acc l; [done|]. cbn [read_digits Nat.add].
  destruct l as [|c l]; [done|]. by destruct (digit_value c).
Qed.

Lemma numeral_length w n : length (numeral w n) = w.
Proof. revert n. induction w as [|w IH]; intros n; [done|]. cbn [numeral]. rewrite length_app, IH. simpl. lia. Qed.

Lemma read_numeral w n acc l :
  0 ≤ n < 10 ^ Z.of_nat w → read_digits w acc (numeral w n ++ l) = Some (acc * 10 ^ Z.of_nat w + n, l).
Proof.
  revert n l. induction w as [|w IH]; intros n l Hn.
  { simpl in Hn. cbn. do 2 f_equal. lia. }
  assert (10 ^ Z.of_nat (S w) = 10 * 10 ^ Z.of_nat w) as Hp by (rewrite Nat2Z.inj_succ, Z.pow_succ_r; lia).
  replace (S w) with (w + 1)%nat by lia. rewrite read_digits_app. cbn [numeral].
  replace (w + 1)%nat with (S w) by lia. cbn [numeral]. rewrite <-app_assoc, IH.
  - cbn [read_digits app]. rewrite digit_value_char by (apply Z.mod_pos_bound; lia). do 2 f_equal. rewrite Hp.
    pose proof (Z.div_mod n 10 ltac:(lia)). lia.
  - split; [apply Z.div_pos; lia|]. apply Z.div_lt_upper_bound; lia.
Qed.

(** ** Dates read back *)

Lemma year_days y : days_to_year (y + 1) = days_to_year y + (if is_leap y then 366 else 365).
Proof.
  unfold days_to_year, is_leap. replace (y + 1 - 1) with y by lia.
  destruct (Z.eqb_spec (y mod 4) 0), (Z.eqb_spec (y mod 100) 0), (Z.eqb_spec (y mod 400) 0); cbn [andb orb negb];
    Z.to_euclidean_division_equations; lia.
Qed.

Lemma year_of_spec n : days_to_year (year_of n) ≤ n < days_to_year (year_of n + 1).
Proof.
  unfold year_of. set (c := 400 * n / 146097).
  assert (days_to_year c ≤ n ∧ n < days_to_year (c + 3)) as Hb.
  { subst c. unfold days_to_year. split; Z.to_euclidean_division_equations; lia. }
  destruct (Z.leb_spec (days_to_year (c + 2)) n) as [|Hn2]; [replace (c + 2 + 1) with (c + 3) by lia; lia|].
  destruct (Z.leb_spec (days_to_year (c + 1)) n) as [|Hn1]; [replace (c + 1 + 1) with (c + 2) by lia; lia|lia].
Qed.

Lemma month_of_spec y doy :
  0 ≤ doy < (if is_leap y then 366 else 365) →
  let '(m, d) := month_of (month_days (is_leap y)) 1 doy in
  1 ≤ m ≤ 12 ∧ 1 ≤ d ≤ days_in y m ∧ days_to_month (is_leap y) m + (d - 1) = doy.
Proof.
  unfold days_in, days_to_month, month_days. intros Hd. destruct (is_leap y); cbn [month_of].
  all: repeat match goal with
       | |- context [if ?a <? ?b then _ else _] => destruct (Z.ltb_spec a b)
       end; simpl; lia.
Qed.

Lemma date_of_spec day :
  let '(y, m, d) := date_of day in
  1 ≤ m ≤ 12 ∧ 1 ≤ d ≤ days_in y m ∧ day_number y m d = day ∧
  days_to_year y ≤ day + epoch_day < days_to_year (y + 1).
Proof.
  unfold date_of. pose proof (year_of_spec (day + epoch_day)) as Hy. set (y := year_of (day + epoch_day)) in *.
  assert (0 ≤ day + epoch_day - days_to_year y < (if is_leap y then 366 else 365)) as Hdoy.
  { pose proof (year_days y). lia. }
  pose proof (month_of_spec y _ Hdoy) as Hm. destruct (month_of _ 1 _) as [m d]. destruct Hm as (? & ? & Hm).
  split_and!; [lia..| |lia|lia]. unfold day_number. lia.
Qed.

Lemma days_to_year_mono a b : a ≤ b → days_to_year a ≤ days_to_year b.
Proof. intros. unfold days_to_year. Z.to_euclidean_division_equations; lia. Qed.

(** The instants whose UTC year has four digits. *)
Definition year_zero : Z := -62167219200 * second_ns.
Definition year_10000 : Z := 253402300800 * second_ns.
Definition four_digit_year (t : Z) : Prop := year_zero ≤ t < year_10000.

Lemma four_digits day y :
  days_to_year y ≤ day + epoch_day < days_to_year (y + 1) → -719528 ≤ day < 2932897 → 0 ≤ y < 10000.
Proof.
  unfold epoch_day. intros Hy Hd. split.
  - apply Z.nlt_ge. intros Hlt. pose proof (days_to_year_mono (y + 1) 0 ltac:(lia)).
    change (days_to_year 0) with (-366) in *. lia.
  - apply Z.nle_gt. intros Hle. pose proof (days_to_year_mono 10000 y ltac:(lia)).
    change (days_to_year 10000) with 3652059 in *. lia.
Qed.

(** ** Fractions read back *)

Definition is_numeral (l : list Ascii.ascii) : Prop := ∀ c, c ∈ l → is_Some (digit_value c).

Lemma numeral_digits w n : is_numeral (numeral w n).
Proof.
  revert n. induction w as [|w IH]; intros n c Hc; [by apply elem_of_nil in Hc|].
  apply elem_of_app in Hc as [Hc|Hc]; [by eapply IH|]. apply list_elem_of_singleton in Hc as ->.
  rewrite digit_value_char; [done|]. apply Z.mod_pos_bound. lia.
Qed.

Lemma span_numeral l c rest : is_numeral l → digit_value c = None → span_digits (l ++ c :: rest) = (l, c :: rest).
Proof.
  intros Hl Hc. induction l as [|d l IH]; simpl; [by rewrite Hc|].
  destruct (Hl d ltac:(by left)) as [v ->]. rewrite IH; [done|]. intros x Hx. apply Hl. by right.
Qed.

Lemma drop_zeros_split l : ∃ k, l = replicate k "0"%char ++ drop_zeros l.
Proof.
  induction l as [|c l (k & IH)]; [by exists 0%nat|]. simpl. destruct (decide (c = "0"%char)) as [->|]; [|by exists 0%nat].
  exists (S k). simpl. by rewrite <-IH.
Qed.

Lemma read_zeros k acc : read_digits k acc (replicate k "0"%char) = Some (acc * 10 ^ Z.of_nat k, []).
Proof.
  revert acc. induction k as [|k IH]; intros acc; [cbn; do 2 f_equal; lia|]. cbn [replicate read_digits].
  change (digit_value "0") with (Some 0). cbv iota beta. rewrite IH. do 2 f_equal. rewrite Nat2Z.inj_succ, Z.pow_succ_r by lia. lia.
Qed.

Lemma read_all w acc l n rest l' :
  length l = w → read_digits w acc l = Some (n, rest) → rest = [] ∧ read_digits w acc (l ++ l') = Some (n, l').
Proof.
  revert acc l. induction w as [|w IH]; intros acc l Hl; destruct l as [|c l]; try done.
  - by intros [= <- <-].
  - simpl. destruct (digit_value c); [|done]. apply IH. simpl in Hl. lia.
Qed.

Lemma read_fraction_text ns c rest :
  0 ≤ ns < second_ns → digit_value c = None → c ≠ "."%char → c ≠ ","%char →
  read_fraction (fraction_text ns ++ c :: rest) = Some (ns, c :: rest).
Proof.
  intros Hns Hc Hdot Hcomma. unfold fraction_text. set (ds := rev (drop_zeros (rev (numeral 9 ns)))).
  assert (∃ k, numeral 9 ns = ds ++ replicate k "0"%char) as (k & Hk).
  { destruct (drop_zeros_split (rev (numeral 9 ns))) as (k & Hk). exists k.
    rewrite <-(rev_involutive (numeral 9 ns)), Hk, rev_app_distr. subst ds. f_equal.
    rewrite rev_alt. apply (reverse_replicate k "0"%char). }
  pose proof (f_equal length Hk) as Hlen. rewrite numeral_length, length_app, length_replicate in Hlen.
  pose proof (read_numeral 9 ns 0 [] ltac:(exact Hns)) as Hread.
  rewrite app_nil_r, Hk in Hread. rewrite Hlen, read_digits_app in Hread.
  destruct (read_digits (length ds) 0 (ds ++ replicate k _)) as [[n l]|] eqn:Hn; [|done].
  assert (∃ n', read_digits (length ds) 0 ds = Some (n', [])) as (n' & Hn').
  { assert (is_numeral ds) as Hd by (intros x Hx; apply (numeral_digits 9 ns); rewrite Hk; apply elem_of_app; by left).
    clear -Hd. revert Hd. generalize 0. induction ds as [|x ds IH]; intros acc Hd; simpl; [by eexists|].
    destruct (Hd x ltac:(by left)) as [v ->]. apply IH. intros y Hy. apply Hd. by right. }
  destruct (read_all _ _ _ _ _ (replicate k "0"%char) eq_refl Hn') as [_ Hn2]. rewrite Hn2 in Hn. injection Hn as <- <-.
  rewrite read_zeros in Hread. injection Hread as Hval. change (0 * 10 ^ Z.of_nat 9) with 0 in Hval.
  assert (is_numeral ds) as Hd by (intros y Hy; apply (numeral_digits 9 ns); rewrite Hk; apply elem_of_app; by left).
  clearbody ds. assert (ns = n' * 10 ^ Z.of_nat k) as -> by lia. clear Hval Hk Hn2.
  destruct ds as [|x ds'].
  - cbn in Hn'. injection Hn' as <-. cbn [app]. unfold read_fraction. rewrite decide_False by naive_solver. done.
  - cbn [app read_fraction]. rewrite decide_True by by left.
    change (x :: (ds' ++ c :: rest)) with ((x :: ds') ++ c :: rest). rewrite span_numeral by done. cbv iota beta.
    unfold nanoseconds. rewrite take_ge by lia. rewrite Hn'. cbv iota beta.
    by replace (9 - length (x :: ds'))%nat with k by lia.
Qed.

(** ** The round trip *)

Lemma read_field w n c rest :
  0 ≤ n < 10 ^ Z.of_nat w → read_digits w 0 (numeral w n ++ c :: rest) = Some (n, c :: rest).
Proof. intros Hn. rewrite read_numeral by done. do 2 f_equal. Qed.

Lemma literal_same c l : literal c (c :: l) = Some l.
Proof. simpl. by rewrite decide_True by done. Qed.

Lemma between_in lo hi n l : lo ≤ n ≤ hi → between lo hi (Some (n, l)) = Some (n, l).
Proof. intros Hn. simpl. by rewrite (proj2 (Z.leb_le lo n)), (proj2 (Z.leb_le n hi)) by lia. Qed.

Lemma instant_split t :
  let secs := t / second_ns in let sod := secs mod 86400 in
  instant (secs / 86400) (sod / 3600) (sod / 60 mod 60) (sod mod 60) (t mod second_ns) 0 = t.
Proof. unfold instant, second_ns. cbv zeta. Z.to_euclidean_division_equations; lia. Qed.

(** The layout's own stamp reads back, when what follows the seconds does. *)
Lemma parse_stamp sep zone ztext t :
  four_digit_year t → (∀ ns, ns = t mod second_ns → read_fraction (fraction_text ns ++ ztext) = Some (ns, ztext)) → zone ztext = Some (0, []) →
  parse_layout sep zone (stamp sep ztext t) = Some t.
Proof.
  intros Ht Hfrac Hzone. unfold stamp. set (secs := t / second_ns). set (sod := secs mod 86400).
  pose proof (instant_split t) as Hsplit. cbv zeta in Hsplit. fold secs sod in Hsplit.
  assert (-719528 ≤ secs / 86400 < 2932897) as Hday.
  { unfold four_digit_year, year_zero, year_10000 in Ht. subst secs. unfold second_ns in *. Z.to_euclidean_division_equations; lia. }
  assert (0 ≤ sod < 86400) as Hsod by (apply Z.mod_pos_bound; lia).
  assert (0 ≤ sod / 3600 < 24 ∧ 0 ≤ sod / 60 mod 60 < 60 ∧ 0 ≤ sod mod 60 < 60) as (Hh & Hmi & Hs)
    by (Z.to_euclidean_division_equations; lia).
  assert (0 ≤ t mod second_ns < second_ns) as Hns by (apply Z.mod_pos_bound; done).
  pose proof (date_of_spec (secs / 86400)) as Hdate. destruct (date_of _) as [[y m] d].
  destruct Hdate as (Hm & Hd & Hday' & Hyear). pose proof (four_digits _ _ Hyear Hday) as Hy.
  assert (d ≤ 31) as Hd31.
  { unfold days_in in Hd. destruct (month_days _ !! _) as [k|] eqn:Hk; [|simpl in Hd; lia]. simpl in Hd.
    apply list_elem_of_lookup_2 in Hk. unfold month_days in Hk. destruct (is_leap y); set_solver by lia. }
  assert (year_text y = numeral 4 y) as ->.
  { unfold year_text. rewrite Z.abs_eq by lia. rewrite (proj2 (Z.ltb_lt y 10000)), (proj2 (Z.ltb_ge y 0)) by lia. done. }
  clearbody sod secs. unfold parse_layout, read_hour.
  rewrite read_field by (simpl; lia). cbv iota beta. rewrite literal_same.
  rewrite read_field by (simpl; lia). rewrite between_in by lia. cbv iota beta. rewrite literal_same.
  rewrite read_field by (simpl; lia). cbv iota beta. rewrite literal_same.
  rewrite read_field by (simpl; lia). cbv iota beta. rewrite between_in by lia. cbv iota beta. rewrite literal_same.
  rewrite read_field by (simpl; lia). rewrite between_in by lia. cbv iota beta. rewrite literal_same.
  assert (∀ n l, 0 ≤ n < 60 → read_digits 2 0 (numeral 2 n ++ l) = Some (n, l)) as Hsec
    by (intros n l Hn; rewrite read_numeral by (simpl; lia); done).
  rewrite Hsec by lia. rewrite between_in by lia. cbv iota beta.
  rewrite Hfrac by done. cbv iota beta. rewrite Hzone. cbv iota beta.
  rewrite (proj2 (Z.leb_le 1 d)), (proj2 (Z.leb_le d _)) by lia. cbn [andb]. by rewrite Hday', Hsplit.
Qed.

Lemma parse_format t : four_digit_year t → parse_time (format_time t) = Some t.
Proof.
  intros Ht. apply parse_stamp; [done| |done]. intros ns ->. apply read_fraction_text; [|done..]. by apply Z.mod_pos_bound.
Qed.

Lemma ParseRFC3339_FormatRFC3339Nano t : four_digit_year t → ParseRFC3339 (FormatRFC3339Nano t) = Some t.
Proof. intros Ht. unfold ParseRFC3339, FormatRFC3339Nano. rewrite chars_of_chars. by apply parse_format. Qed.
