(* ===== verification/Enforcement.v ===== *)
(** * The enforcement policy: [internal/enforcement/policy.go]

    The deterministic evaluator adapters consult: a request holds a policy, the
    persisted snapshot and one normalized observation; the decision is the next
    snapshot and a reason. Texts outside the vocabularies are kept, as they reach
    the validation. The decoding of the JSON boundary is left out. *)
From S2P Require Import Prelude GoLib GoTime.

Local Open Scope Z_scope.

Definition SchemaVersion : Z := 1.
Definition maxBudget : Z := 1000.
Definition maxPredicates : Z := 64.

(** ** Vocabularies *)

Inductive State := StateActive | StateWaitExternal | StateVerify | StateComplete | StateBlocked | StateUnknown (raw : string).
Inductive Action :=
| ActionProgress | ActionNoProgress | ActionWaitExternal | ActionRecheck | ActionRequestVerify | ActionVerify
| ActionRetryableFailure | ActionTerminalFailure | ActionUnknown (raw : string).
Inductive PredicateKind :=
| PredicateCommandExitZero | PredicateFileExists | PredicateChecksGreen | PredicateReviewApproved | PredicateExactArtifact
| PredicateUnknown (raw : string).
Inductive WaitOwner :=
| WaitOwnerOperator | WaitOwnerGitHub | WaitOwnerGitea | WaitOwnerClaude | WaitOwnerCodex | WaitOwnerOpenCode
| WaitOwnerRadioactiveRalph | WaitOwnerCodeRabbit | WaitOwnerAIGitBot | WaitOwnerExternal | WaitOwnerUnknown (raw : string).
Inductive ReasonCode :=
| ReasonMalformedInput | ReasonInvalidTransition | ReasonProgressRecorded | ReasonNoProgressRecorded | ReasonNoProgressExhausted
| ReasonRetryScheduled | ReasonRetryExhausted | ReasonWaitingExternal | ReasonWaitNotDue | ReasonWaitRecheckDue
| ReasonWaitDeadlineExceeded | ReasonVerificationRequested | ReasonAcceptancePassed | ReasonAcceptanceFailed
| ReasonTerminalFailure | ReasonTerminalState.

#[export] Instance State_eq_dec : EqDecision State.
Proof. solve_decision. Defined.
#[export] Instance ReasonCode_eq_dec : EqDecision ReasonCode.
Proof. solve_decision. Defined.

Definition validState (s : State) : bool := match s with StateUnknown _ => false | _ => true end.
Definition validAction (a : Action) : bool := match a with ActionUnknown _ => false | _ => true end.
Definition validPredicateKind (k : PredicateKind) : bool := match k with PredicateUnknown _ => false | _ => true end.
Definition validWaitOwner (o : WaitOwner) : bool := match o with WaitOwnerUnknown _ => false | _ => true end.

(** ** Requests and decisions *)

Record Predicate := mkPredicate { pd_id : string; pd_kind : PredicateKind }.
Record Policy := mkPolicy {
  py_schema : Z; py_id : string; py_retry_budget : Z; py_no_progress_budget : Z; py_acceptance : list Predicate }.
Record WaitWindow := mkWait { ww_owner : WaitOwner; ww_recheck_at : string; ww_deadline : string }.
Record Snapshot := mkSnapshot { sn_state : State; sn_retry : Z; sn_no_progress : Z; sn_wait : option WaitWindow }.
Record PredicateResult := mkResult { pr_observed : bool; pr_satisfied : bool }.

(** [None]: a nil map; an empty one is [Some]. *)
Record Event := mkEvent { ev_action : Action; ev_now : string; ev_wait : option WaitWindow; ev_results : option (gmap string PredicateResult) }.
Record Request := mkRequest { rq_policy : Policy; rq_snapshot : Snapshot; rq_event : Event }.
Record Decision := mkDecision {
  dc_schema : Z; dc_state : State; dc_retry : Z; dc_no_progress : Z; dc_wait : option WaitWindow; dc_reason : ReasonCode }.

(** ** Validation *)

(** [^[a-z][a-z0-9._-]{0,63}$]. *)
Definition in_range (lo hi : Ascii.ascii) (c : Ascii.ascii) : bool :=
  (Ascii.nat_of_ascii lo <=? Ascii.nat_of_ascii c)%nat && (Ascii.nat_of_ascii c <=? Ascii.nat_of_ascii hi)%nat.
Definition identifier_char (c : Ascii.ascii) : bool :=
  in_range "a" "z" c || in_range "0" "9" c || bool_decide (c = "."%char ∨ c = "_"%char ∨ c = "-"%char).
Definition identifierPattern (s : string) : bool :=
  match chars s with
  | [] => false
  | c :: l => in_range "a" "z" c && (length l <=? 63)%nat && forallb identifier_char l
  end.

Definition parseWait (wait : option WaitWindow) : option (Z * Z) :=
  match wait with
  | None => None
  | Some w =>
      match ParseRFC3339 (ww_recheck_at w) with
      | None => None
      | Some recheckAt => match ParseRFC3339 (ww_deadline w) with None => None | Some deadline => Some (recheckAt, deadline) end
      end
  end.

Definition validateWait (wait : option WaitWindow) : bool :=
  match wait with
  | None => false
  | Some w => validWaitOwner (ww_owner w) && match parseWait wait with Some (recheckAt, deadline) => recheckAt <? deadline | None => false end
  end.

Definition validateTimestamp (value : string) : bool := match ParseRFC3339 value with Some _ => true | None => false end.

Definition is_nil {A} (o : option A) : bool := match o with None => true | Some _ => false end.

Definition validateEvent (event : Event) (predicateIDs : gset string) : bool :=
  match ev_action event with
  | ActionWaitExternal =>
      negb (bool_decide (ev_now event = "")) && validateTimestamp (ev_now event) && validateWait (ev_wait event) &&
      is_nil (ev_results event) &&
      match ParseRFC3339 (ev_now event), parseWait (ev_wait event) with
      | Some now, Some (recheckAt, deadline) => (now <? recheckAt) && (now <? deadline)
      | _, _ => false
      end
  | ActionRecheck =>
      negb (bool_decide (ev_now event = "")) && validateTimestamp (ev_now event) && is_nil (ev_wait event) && is_nil (ev_results event)
  | ActionVerify =>
      bool_decide (ev_now event = "") && is_nil (ev_wait event) &&
      match ev_results event with
      | None => false
      | Some results =>
          forallb (λ kr, bool_decide (kr.1 ∈ predicateIDs) && negb (pr_satisfied kr.2 && negb (pr_observed kr.2))) (map_to_list results)
      end
  | _ => bool_decide (ev_now event = "") && is_nil (ev_wait event) && is_nil (ev_results event)
  end.

(** The predicates' identifiers, when each is well formed and none repeats. *)
Fixpoint predicate_ids (acceptance : list Predicate) (seen : gset string) : option (gset string) :=
  match acceptance with
  | [] => Some seen
  | p :: acceptance' =>
      if negb (identifierPattern (pd_id p)) || negb (validPredicateKind (pd_kind p)) then None
      else if decide (pd_id p ∈ seen) then None
      else predicate_ids acceptance' ({[pd_id p]} ∪ seen)
  end.

Definition within (lo hi v : Z) : bool := (lo <=? v) && (v <=? hi).

Definition validatePolicy (p : Policy) : option (gset string) :=
  if (py_schema p =? SchemaVersion) && identifierPattern (py_id p) && within 0 maxBudget (py_retry_budget p) &&
     within 0 maxBudget (py_no_progress_budget p) && within 1 maxPredicates (Z.of_nat (length (py_acceptance p)))
  then predicate_ids (py_acceptance p) ∅ else None.

Definition validateSnapshot (p : Policy) (s : Snapshot) : bool :=
  validState (sn_state s) && within 0 (maxBudget + 1) (sn_retry s) && within 0 (maxBudget + 1) (sn_no_progress s) &&
  (bool_decide (sn_state s = StateBlocked) ||
   ((sn_retry s <=? py_retry_budget p) && (sn_no_progress s <=? py_no_progress_budget p))) &&
  (if decide (sn_state s = StateWaitExternal) then validateWait (sn_wait s) else is_nil (sn_wait s)).

Definition validateRequest (r : Request) : bool :=
  match validatePolicy (rq_policy r) with
  | None => false
  | Some predicateIDs =>
      validateSnapshot (rq_policy r) (rq_snapshot r) && validAction (ev_action (rq_event r)) && validateEvent (rq_event r) predicateIDs
  end.

(** ** Decisions *)

Definition normalizedWait (wait : option WaitWindow) : option WaitWindow :=
  match wait, parseWait wait with
  | Some w, Some (recheckAt, deadline) => Some (mkWait (ww_owner w) (FormatRFC3339Nano recheckAt) (FormatRFC3339Nano deadline))
  | _, _ => None
  end.

Definition decisionFromSnapshot (s : Snapshot) (reason : ReasonCode) : Decision :=
  mkDecision SchemaVersion (sn_state s) (sn_retry s) (sn_no_progress s) (normalizedWait (sn_wait s)) reason.
Definition blockedFrom (s : Snapshot) (reason : ReasonCode) : Decision :=
  decisionFromSnapshot (mkSnapshot StateBlocked (sn_retry s) (sn_no_progress s) None) reason.
Definition blockedMalformed : Decision := mkDecision SchemaVersion StateBlocked 0 0 None ReasonMalformedInput.

Definition retryOrBlock (p : Policy) (s : Snapshot) (retryReason : ReasonCode) : Decision :=
  let s := mkSnapshot (sn_state s) (sn_retry s + 1) (sn_no_progress s) (sn_wait s) in
  if py_retry_budget p <? sn_retry s then blockedFrom s ReasonRetryExhausted else decisionFromSnapshot s retryReason.

(** A nil map has no entries. *)
Definition acceptanceSatisfied (p : Policy) (results : option (gmap string PredicateResult)) : bool :=
  forallb (λ pd, match default ∅ results !! pd_id pd with
                 | Some r => pr_observed r && pr_satisfied r
                 | None => false
                 end) (py_acceptance p).

Definition with_state (st : State) (wait : option WaitWindow) (s : Snapshot) : Snapshot :=
  mkSnapshot st (sn_retry s) (sn_no_progress s) wait.

Definition evaluateActive (r : Request) : Decision :=
  let s := rq_snapshot r in
  match ev_action (rq_event r) with
  | ActionProgress => decisionFromSnapshot (mkSnapshot (sn_state s) (sn_retry s) 0 (sn_wait s)) ReasonProgressRecorded
  | ActionNoProgress =>
      let s := mkSnapshot (sn_state s) (sn_retry s) (sn_no_progress s + 1) (sn_wait s) in
      if py_no_progress_budget (rq_policy r) <? sn_no_progress s then blockedFrom s ReasonNoProgressExhausted
      else decisionFromSnapshot s ReasonNoProgressRecorded
  | ActionRetryableFailure => retryOrBlock (rq_policy r) s ReasonRetryScheduled
  | ActionWaitExternal => decisionFromSnapshot (with_state StateWaitExternal (normalizedWait (ev_wait (rq_event r))) s) ReasonWaitingExternal
  | ActionRequestVerify => decisionFromSnapshot (with_state StateVerify (sn_wait s) s) ReasonVerificationRequested
  | _ => blockedFrom s ReasonInvalidTransition
  end.

Definition evaluateWait (r : Request) : Decision :=
  let s := rq_snapshot r in
  match ev_action (rq_event r) with
  | ActionRecheck =>
      match ParseRFC3339 (ev_now (rq_event r)) with
      | None => blockedMalformed
      | Some now =>
          match parseWait (sn_wait s) with
          | None => blockedMalformed
          | Some (recheckAt, deadline) =>
              if negb (now <? deadline) then blockedFrom s ReasonWaitDeadlineExceeded
              else if now <? recheckAt then decisionFromSnapshot s ReasonWaitNotDue
              else decisionFromSnapshot (with_state StateActive None s) ReasonWaitRecheckDue
          end
      end
  | _ => blockedFrom s ReasonInvalidTransition
  end.

Definition evaluateVerify (r : Request) : Decision :=
  let s := rq_snapshot r in
  match ev_action (rq_event r) with
  | ActionVerify =>
      if acceptanceSatisfied (rq_policy r) (ev_results (rq_event r))
      then decisionFromSnapshot (with_state StateComplete None s) ReasonAcceptancePassed
      else retryOrBlock (rq_policy r) (with_state StateActive (sn_wait s) s) ReasonAcceptanceFailed
  | ActionWaitExternal => decisionFromSnapshot (with_state StateWaitExternal (normalizedWait (ev_wait (rq_event r))) s) ReasonWaitingExternal
  | ActionRetryableFailure => retryOrBlock (rq_policy r) (with_state StateActive (sn_wait s) s) ReasonRetryScheduled
  | _ => blockedFrom s ReasonInvalidTransition
  end.

Definition Evaluate (r : Request) : Decision :=
  if negb (validateRequest r) then blockedMalformed
  else match sn_state (rq_snapshot r) with
  | StateComplete | StateBlocked => decisionFromSnapshot (rq_snapshot r) ReasonTerminalState
  | st =>
      match ev_action (rq_event r), st with
      | ActionTerminalFailure, _ => blockedFrom (rq_snapshot r) ReasonTerminalFailure
      | _, StateActive => evaluateActive r
      | _, StateWaitExternal => evaluateWait r
      | _, StateVerify => evaluateVerify r
      | _, _ => blockedFrom (rq_snapshot r) ReasonInvalidTransition
      end
  end.

(** What an adapter persists of a decision. *)
Definition persisted (d : Decision) : Snapshot := mkSnapshot (dc_state d) (dc_retry d) (dc_no_progress d) (dc_wait d).

(** * Properties of the enforcement evaluator

    Its decisions can be persisted and submitted again, completion is earned by
    the policy's own predicates, and the budgets bound every run. *)

Local Open Scope Z_scope.

(** ** Waits survive being written down *)

(** The window's instants have four-digit UTC years. *)
Definition utc_years (w : option WaitWindow) : Prop :=
  ∀ recheckAt deadline, parseWait w = Some (recheckAt, deadline) → four_digit_year recheckAt ∧ four_digit_year deadline.

Lemma parseWait_some w a b : parseWait w = Some (a, b) → ∃ w', w = Some w' ∧ ParseRFC3339 (ww_recheck_at w') = Some a ∧ ParseRFC3339 (ww_deadline w') = Some b.
Proof. destruct w as [w|]; simpl; [|done]. repeat case_match; intros; simplify_eq. eauto. Qed.

Lemma normalized_parses w : utc_years w → parseWait (normalizedWait w) = parseWait w.
Proof.
  intros Hy. unfold normalizedWait. destruct w as [w|]; [|done].
  destruct (parseWait (Some w)) as [[a b]|] eqn:Hp; [|done]. destruct (Hy a b Hp) as [Ha Hb].
  cbn [parseWait ww_recheck_at ww_deadline]. by rewrite !ParseRFC3339_FormatRFC3339Nano.
Qed.

Lemma normalized_years w : utc_years w → utc_years (normalizedWait w).
Proof. intros Hy a b. rewrite normalized_parses by done. apply Hy. Qed.

Lemma normalized_valid w : utc_years w → validateWait w = true → validateWait (normalizedWait w) = true.
Proof.
  intros Hy Hw. pose proof (normalized_parses w Hy) as Hn. unfold validateWait in *. destruct w as [w|]; [|done].
  unfold normalizedWait in *. destruct (parseWait (Some w)) as [[a b]|]; [|by rewrite andb_false_r in Hw].
  by rewrite Hn.
Qed.

(** ** Valid snapshots *)

Definition counts_ok (p : Policy) (blocked : bool) (retry no_progress : Z) : Prop :=
  0 ≤ retry ≤ maxBudget + 1 ∧ 0 ≤ no_progress ≤ maxBudget + 1 ∧
  (blocked = false → retry ≤ py_retry_budget p ∧ no_progress ≤ py_no_progress_budget p).

Lemma within_true lo hi v : within lo hi v = true ↔ lo ≤ v ≤ hi.
Proof. unfold within. rewrite andb_true_iff, !Z.leb_le. done. Qed.

Lemma validateSnapshot_true p s :
  validateSnapshot p s = true ↔
  validState (sn_state s) = true ∧ counts_ok p (bool_decide (sn_state s = StateBlocked)) (sn_retry s) (sn_no_progress s) ∧
  (if decide (sn_state s = StateWaitExternal) then validateWait (sn_wait s) = true else sn_wait s = None).
Proof.
  unfold validateSnapshot, counts_ok. rewrite !andb_true_iff, orb_true_iff, andb_true_iff, !within_true, !Z.leb_le, bool_decide_eq_true, bool_decide_eq_false.
  assert (∀ w : option WaitWindow, is_nil w = true ↔ w = None) as Hnil by (intros []; split; done).
  destruct (decide (sn_state s = StateWaitExternal)) as [Hw|Hw].
  - rewrite Hw. naive_solver.
  - rewrite Hnil. destruct (decide (sn_state s = StateBlocked)); naive_solver.
Qed.

Lemma policy_budgets p ids : validatePolicy p = Some ids → 0 ≤ py_retry_budget p ≤ maxBudget ∧ 0 ≤ py_no_progress_budget p ≤ maxBudget.
Proof. unfold validatePolicy. destruct (_ && _) eqn:Hb; [|done]. rewrite !andb_true_iff, !within_true in Hb. naive_solver. Qed.

(** ** Shapes of a decision *)

Definition decides_from (p : Policy) (d : Decision) : Prop :=
  dc_schema d = SchemaVersion ∧ validateSnapshot p (persisted d) = true.

Lemma decide_blocked p s reason :
  0 ≤ sn_retry s ≤ maxBudget + 1 → 0 ≤ sn_no_progress s ≤ maxBudget + 1 → decides_from p (blockedFrom s reason).
Proof. intros Hr Hn. split; [done|]. apply validateSnapshot_true. by split_and!. Qed.

Lemma decide_malformed p : decides_from p blockedMalformed.
Proof. split; [done|]. apply validateSnapshot_true. by split_and!. Qed.

Lemma decide_plain p st retry no_progress reason :
  st = StateActive ∨ st = StateVerify ∨ st = StateComplete →
  counts_ok p false retry no_progress → decides_from p (decisionFromSnapshot (mkSnapshot st retry no_progress None) reason).
Proof.
  intros Hst (? & ? & Hc). split; [done|]. apply validateSnapshot_true. unfold counts_ok.
  specialize (Hc eq_refl). destruct Hst as [->|[->| ->]]; cbn; naive_solver.
Qed.

Lemma decide_waiting p retry no_progress w reason :
  utc_years w → validateWait w = true →
  counts_ok p false retry no_progress → decides_from p (decisionFromSnapshot (mkSnapshot StateWaitExternal retry no_progress w) reason).
Proof.
  intros Hy Hw (? & ? & Hc). split; [done|]. apply validateSnapshot_true. unfold counts_ok. specialize (Hc eq_refl).
  split; [done|]. split; [cbn; naive_solver|]. rewrite decide_True by done. by apply normalized_valid.
Qed.

Lemma decide_retry p st retry no_progress reason :
  st = StateActive ∨ st = StateVerify ∨ st = StateComplete → 0 ≤ py_retry_budget p ≤ maxBudget →
  counts_ok p false retry no_progress → decides_from p (retryOrBlock p (mkSnapshot st retry no_progress None) reason).
Proof.
  intros Hst Hp (? & ? & Hc). specialize (Hc eq_refl). unfold retryOrBlock. cbn [sn_state sn_retry sn_no_progress sn_wait].
  destruct (Z.ltb_spec (py_retry_budget p) (retry + 1)); [apply decide_blocked; cbn; lia|].
  apply decide_plain; [done|]. split_and!; lia.
Qed.

(** ** Evaluation of a valid request *)

Lemma valid_request r :
  validateRequest r = true →
  (∃ ids, validatePolicy (rq_policy r) = Some ids) ∧ validateSnapshot (rq_policy r) (rq_snapshot r) = true.
Proof.
  unfold validateRequest. destruct (validatePolicy _) as [ids|]; [|done]. rewrite !andb_true_iff. intros ((? & _) & _).
  split; [by exists ids|done].
Qed.

Lemma valid_wait_event r :
  validateRequest r = true → ev_action (rq_event r) = ActionWaitExternal → validateWait (ev_wait (rq_event r)) = true.
Proof.
  unfold validateRequest, validateEvent. destruct (validatePolicy _) as [ids|]; [|done]. intros Hv Ha. rewrite Ha in Hv.
  rewrite !andb_true_iff in Hv. naive_solver.
Qed.

(** A request of a valid policy, by the state it is in. *)
Section Decides.
Context (p : Policy) (e : Event) (retry no_progress : Z).
Context (Hr : 0 ≤ py_retry_budget p ≤ maxBudget) (Hn : 0 ≤ py_no_progress_budget p ≤ maxBudget).
Context (Hc : counts_ok p false retry no_progress).
Context (Hwait : ev_action e = ActionWaitExternal → validateWait (ev_wait e) = true) (Hyears : utc_years (ev_wait e)).

Lemma block_decides st w reason : decides_from p (blockedFrom (mkSnapshot st retry no_progress w) reason).
Proof. destruct Hc as (? & ? & _). by apply decide_blocked. Qed.

Lemma wait_decides reason :
  ev_action e = ActionWaitExternal →
  decides_from p (decisionFromSnapshot (mkSnapshot StateWaitExternal retry no_progress (normalizedWait (ev_wait e))) reason).
Proof. intros Ha. apply decide_waiting; [by apply normalized_years|apply normalized_valid; auto|done]. Qed.

Lemma active_decides : decides_from p (evaluateActive (mkRequest p (mkSnapshot StateActive retry no_progress None) e)).
Proof.
  unfold evaluateActive. cbn [rq_policy rq_snapshot rq_event sn_state sn_retry sn_no_progress sn_wait].
  destruct Hc as (Hc1 & Hc2 & Hc3). specialize (Hc3 eq_refl).
  pose proof wait_decides as Hwd. pose proof block_decides as Hbd. destruct (ev_action e) eqn:Ha; try apply Hbd.
  - apply decide_plain; [by left|]. split_and!; lia.
  - destruct (Z.ltb_spec (py_no_progress_budget p) (no_progress + 1)).
    + apply decide_blocked; cbn; lia.
    + apply decide_plain; [by left|]. split_and!; lia.
  - by apply Hwd.
  - apply decide_plain; [by right; left|done].
  - by apply decide_retry; [left|..].
Qed.

Lemma verify_decides : decides_from p (evaluateVerify (mkRequest p (mkSnapshot StateVerify retry no_progress None) e)).
Proof.
  unfold evaluateVerify. cbn [rq_policy rq_snapshot rq_event sn_state sn_retry sn_no_progress sn_wait].
  pose proof wait_decides as Hwd. pose proof block_decides as Hbd. destruct (ev_action e) eqn:Ha; try apply Hbd.
  - by apply Hwd.
  - destruct (acceptanceSatisfied _ _); [by apply decide_plain; [right; right|]|by apply decide_retry; [left|..]].
  - by apply decide_retry; [left|..].
Qed.

Lemma waiting_decides w :
  utc_years w → validateWait w = true →
  decides_from p (evaluateWait (mkRequest p (mkSnapshot StateWaitExternal retry no_progress w) e)).
Proof.
  intros Hy Hw. unfold evaluateWait. cbn [rq_policy rq_snapshot rq_event sn_state sn_retry sn_no_progress sn_wait].
  destruct (ev_action e); try apply block_decides.
  destruct (ParseRFC3339 _) as [now|]; [|apply decide_malformed].
  destruct (parseWait w) as [[a b]|]; [|apply decide_malformed].
  destruct (negb _); [apply block_decides|]. destruct (now <? a); [by apply decide_waiting|by apply decide_plain; [left|]].
Qed.
End Decides.

(** a decision can always be persisted and submitted again. Whatever the
    request, the decision has the schema version and the snapshot it persists is
    valid under the policy: counts within its budgets unless blocked, a wait
    window exactly when waiting, owned and in order. The evaluator never locks an
    adapter out by its own output, as long as the windows' instants have
    four-digit UTC years. *)
Theorem decisions_can_be_resubmitted r ids :
  validatePolicy (rq_policy r) = Some ids → utc_years (sn_wait (rq_snapshot r)) → utc_years (ev_wait (rq_event r)) →
  dc_schema (Evaluate r) = SchemaVersion ∧ validateSnapshot (rq_policy r) (persisted (Evaluate r)) = true.
Proof.
  intros Hids Hys Hye. change (decides_from (rq_policy r) (Evaluate r)). unfold Evaluate.
  destruct (validateRequest r) eqn:Hv; [|apply decide_malformed]. cbn [negb].
  destruct (valid_request r Hv) as [_ Hs]. pose proof (valid_wait_event r Hv) as Hwait.
  pose proof (policy_budgets _ _ Hids) as [Hbr Hbn].
  pose proof (proj1 (validateSnapshot_true _ _) Hs) as (Hst & Hc & Hw).
  destruct r as [p [st retry no_progress w] e]. cbn [rq_policy rq_snapshot rq_event sn_state sn_retry sn_no_progress sn_wait] in *.
  destruct st; [| | | | |done]; cbn [bool_decide] in Hw; rewrite ?decide_True in Hw by done; rewrite ?decide_False in Hw by done.
  - subst w. assert (decides_from p (evaluateActive (mkRequest p (mkSnapshot StateActive retry no_progress None) e))) by by apply active_decides.
    pose proof (block_decides p retry no_progress Hc StateActive None ReasonTerminalFailure). by destruct (ev_action e).
  - assert (decides_from p (evaluateWait (mkRequest p (mkSnapshot StateWaitExternal retry no_progress w) e))) by by apply waiting_decides.
    pose proof (block_decides p retry no_progress Hc StateWaitExternal w ReasonTerminalFailure). by destruct (ev_action e).
  - subst w. assert (decides_from p (evaluateVerify (mkRequest p (mkSnapshot StateVerify retry no_progress None) e))) by by apply verify_decides.
    pose proof (block_decides p retry no_progress Hc StateVerify None ReasonTerminalFailure). by destruct (ev_action e).
  - subst w. by apply decide_plain; [right; right|].
  - destruct Hc as (? & ? & _). subst w. split; [done|]. apply validateSnapshot_true. by split_and!.
Qed.

(** ** Completion *)

(** Every predicate of the policy was observed, and satisfied. *)
Definition acceptance_met (p : Policy) (results : option (gmap string PredicateResult)) : Prop :=
  ∀ pd, pd ∈ py_acceptance p → ∃ rs m, results = Some m ∧ m !! pd_id pd = Some rs ∧ pr_observed rs = true ∧ pr_satisfied rs = true.

Lemma acceptance_true p results : acceptanceSatisfied p results = true ↔ acceptance_met p results.
Proof.
  unfold acceptanceSatisfied, acceptance_met. rewrite forallb_forall. split.
  - intros Hall pd Hpd. specialize (Hall pd (proj1 (list_elem_of_In _ _) Hpd)). destruct results as [m|]; [|done].
    simpl in Hall. destruct (m !! pd_id pd) as [rs|] eqn:Hm; [|done]. apply andb_true_iff in Hall. naive_solver.
  - intros Hall pd Hpd%list_elem_of_In. destruct (Hall pd Hpd) as (rs & m & -> & Hm & Ho & Hs). simpl. by rewrite Hm, Ho, Hs.
Qed.

Definition not_done (d : Decision) : Prop := dc_state d ≠ StateComplete.

Lemma retry_not_done p s reason : sn_state s ≠ StateComplete → not_done (retryOrBlock p s reason).
Proof. unfold retryOrBlock. by destruct (_ <? _). Qed.

Lemma active_not_done r : sn_state (rq_snapshot r) = StateActive → not_done (evaluateActive r).
Proof.
  intros Hs. unfold evaluateActive. destruct (ev_action _); try done; unfold not_done; cbn; try by rewrite Hs.
  - destruct (_ <? _); [done|]. cbn. by rewrite Hs.
  - apply retry_not_done. by rewrite Hs.
Qed.

Lemma wait_not_done r : sn_state (rq_snapshot r) = StateWaitExternal → not_done (evaluateWait r).
Proof. intros Hs. unfold evaluateWait, not_done. repeat case_match; try done. cbn. by rewrite Hs. Qed.

(** completion is earned. The evaluator answers COMPLETE exactly on a valid
    request that was complete already, or that was verifying and submits results
    in which every predicate of the policy is observed and satisfied; and a
    blocked snapshot stays blocked whatever is submitted. *)
Theorem completion_is_earned r :
  (dc_state (Evaluate r) = StateComplete ↔
     validateRequest r = true ∧
     (sn_state (rq_snapshot r) = StateComplete ∨
      (sn_state (rq_snapshot r) = StateVerify ∧ ev_action (rq_event r) = ActionVerify ∧
       acceptance_met (rq_policy r) (ev_results (rq_event r))))) ∧
  (sn_state (rq_snapshot r) = StateBlocked → dc_state (Evaluate r) = StateBlocked).
Proof.
  unfold Evaluate. destruct (validateRequest r) eqn:Hv; [|by split; [split; [|intros [? _]]|]]. cbn [negb].
  destruct (valid_request r Hv) as [_ (Hst & _)%validateSnapshot_true].
  destruct (sn_state (rq_snapshot r)) eqn:Hs; [| | | | |done]; (split; [|try done]).
  - assert (not_done (evaluateActive r)) by by apply active_not_done. unfold not_done in *.
    split; [|naive_solver]. by destruct (ev_action _).
  - assert (not_done (evaluateWait r)) by by apply wait_not_done. unfold not_done in *.
    split; [|naive_solver]. by destruct (ev_action _).
  - rewrite <-acceptance_true. unfold evaluateVerify. destruct (ev_action (rq_event r)) eqn:Ha; cbn; try naive_solver.
    + destruct (acceptanceSatisfied _ _); [naive_solver|]. split; [|naive_solver].
      intros Hd. by apply retry_not_done in Hd.
    + split; [|naive_solver]. intros Hd. by apply retry_not_done in Hd.
  - cbn. rewrite Hs. naive_solver.
  - cbn. rewrite Hs. naive_solver.
Qed.

(** ** Runs *)

(** What an adapter persists after a series of observations, each evaluated on
    the snapshot the last decision left. *)
Definition step (p : Policy) (s : Snapshot) (e : Event) : Snapshot := persisted (Evaluate (mkRequest p s e)).
Definition after (p : Policy) (s : Snapshot) (es : list Event) : Snapshot := foldl (step p) s es.
Definition fresh : Snapshot := mkSnapshot StateActive 0 0 None.

Definition running (s : Snapshot) : Prop := sn_state s ≠ StateBlocked ∧ sn_state s ≠ StateComplete.

#[export] Instance acceptance_met_dec p results : base.Decision (acceptance_met p results).
Proof. refine (cast_if (decide (acceptanceSatisfied p results = true))); by rewrite <-acceptance_true. Defined.

(** What the observations alone cost: a retry for each retryable failure and each
    verification whose predicates are not all observed and satisfied; an idle turn
    for each report of no progress since the last report of progress. *)
Definition charge (p : Policy) (e : Event) : Z :=
  match ev_action e with
  | ActionRetryableFailure => 1
  | ActionVerify => if decide (acceptance_met p (ev_results e)) then 0 else 1
  | _ => 0
  end.
Definition charges (p : Policy) (es : list Event) : Z := foldl (λ n e, n + charge p e) 0 es.
Definition next_idle (n : Z) (e : Event) : Z :=
  match ev_action e with ActionProgress => 0 | ActionNoProgress => n + 1 | _ => n end.
Definition idles (es : list Event) : Z := foldl next_idle 0 es.

Lemma charges_snoc p es e : charges p (es ++ [e]) = charges p es + charge p e.
Proof. unfold charges. by rewrite foldl_app. Qed.
Lemma idles_snoc es e : idles (es ++ [e]) = next_idle (idles es) e.
Proof. unfold idles. by rewrite foldl_app. Qed.
Lemma after_snoc p s es e : after p s (es ++ [e]) = step p (after p s es) e.
Proof. unfold after. by rewrite foldl_app. Qed.

(** The observations that a state takes as a failure. *)
Definition charging (st : State) (a : Action) : bool :=
  match st, a with
  | (StateActive | StateVerify), ActionRetryableFailure => true
  | StateVerify, ActionVerify => true
  | _, _ => false
  end.

Lemma not_satisfied p results : acceptanceSatisfied p results = false ↔ ¬ acceptance_met p results.
Proof. by rewrite <-acceptance_true, not_true_iff_false. Qed.

Definition one_more (budget counted : Z) : State := if decide (counted ≤ budget) then StateActive else StateBlocked.

Lemma retry_counts p rt np w reason :
  let s' := persisted (retryOrBlock p (mkSnapshot StateActive rt np w) reason) in
  sn_retry s' = rt + 1 ∧ sn_no_progress s' = np ∧ sn_state s' = one_more (py_retry_budget p) (rt + 1).
Proof.
  unfold retryOrBlock, one_more. cbn [sn_retry].
  destruct (Z.ltb_spec (py_retry_budget p) (rt + 1)); [rewrite decide_False by lia|rewrite decide_True by lia]; done.
Qed.

Lemma Evaluate_charge p s e :
  validateRequest (mkRequest p s e) = true → charging (sn_state s) (ev_action e) = true → charge p e = 1 →
  sn_retry (step p s e) = sn_retry s + 1 ∧ sn_no_progress (step p s e) = sn_no_progress s ∧
  sn_state (step p s e) = one_more (py_retry_budget p) (sn_retry s + 1).
Proof.
  intros Hv Hc He. unfold step, Evaluate. rewrite Hv. cbn [negb rq_snapshot rq_event].
  destruct s as [st rt np w]. unfold charging in Hc. cbn [sn_state sn_retry sn_no_progress] in *.
  destruct st, (ev_action e) eqn:Ha; try done; unfold evaluateActive, evaluateVerify, with_state; cbn [rq_snapshot rq_policy rq_event]; rewrite Ha.
  - apply retry_counts.
  - unfold charge in He. rewrite Ha in He. case_decide as Hm; [done|]. rewrite (proj2 (not_satisfied _ _)) by done. apply retry_counts.
  - apply retry_counts.
Qed.

Lemma Evaluate_idle p s e :
  validateRequest (mkRequest p s e) = true → sn_state s = StateActive → ev_action e = ActionNoProgress →
  sn_no_progress (step p s e) = sn_no_progress s + 1 ∧ sn_retry (step p s e) = sn_retry s ∧
  sn_state (step p s e) = one_more (py_no_progress_budget p) (sn_no_progress s + 1).
Proof.
  intros Hv Hs Ha. unfold step, Evaluate. rewrite Hv. cbn [negb rq_snapshot rq_event]. rewrite Hs, Ha.
  unfold evaluateActive, one_more. cbn [rq_snapshot rq_policy rq_event sn_no_progress]. rewrite Ha, Hs.
  destruct (Z.ltb_spec (py_no_progress_budget p) (sn_no_progress s + 1)); [rewrite decide_False by lia|rewrite decide_True by lia]; done.
Qed.

(** Every other observation a run survives costs nothing, or ends an idle spell. *)
Lemma Evaluate_free p s e :
  running (step p s e) → running s →
  charging (sn_state s) (ev_action e) = true ∧ charge p e = 1 ∨ sn_state s = StateActive ∧ ev_action e = ActionNoProgress ∨
  charge p e = 0 ∧ ev_action e ≠ ActionNoProgress ∧ sn_retry (step p s e) = sn_retry s ∧
  sn_no_progress (step p s e) = next_idle (sn_no_progress s) e.
Proof.
  unfold step, Evaluate, next_idle, charge. destruct (validateRequest _); cbn [negb rq_snapshot rq_event]; [|intros [[] _]; done].
  intros [Hb Hd] [Hnb Hnc]. destruct s as [st rt np w]. cbn [sn_state] in *.
  destruct st; try done; destruct (ev_action e) eqn:Ha; try (by exfalso; apply Hb); try (by left); try (by right; left); try (by right; right);
    revert Hb Hd; unfold evaluateActive, evaluateWait, evaluateVerify; cbn [rq_snapshot rq_policy rq_event]; rewrite Ha; intros Hb Hd;
    try (by exfalso; apply Hb); try (by right; right).
  - right; right. repeat case_match; try done; by exfalso; apply Hb.
  - case_decide as Hm; [|by left]. apply acceptance_true in Hm. exfalso. apply Hd. by rewrite Hm.
Qed.

Lemma stays_ended p s e : ¬ running s → ¬ running (step p s e).
Proof.
  unfold step, Evaluate, running. intros Hs [Hb Hc]. apply Hs. destruct (validateRequest _); cbn [negb rq_snapshot] in *; [|done].
  destruct (sn_state s) eqn:Hst; done.
Qed.

Lemma step_blocked p s e : sn_state s = StateBlocked → sn_state (step p s e) = StateBlocked.
Proof. intros Hs. unfold step, Evaluate. destruct (validateRequest _); [|done]. cbn. by rewrite Hs. Qed.
Lemma blocked_stays p s es : sn_state s = StateBlocked → sn_state (after p s es) = StateBlocked.
Proof. revert s. induction es as [|e es IH]; intros s Hs; [done|]. by apply IH, step_blocked. Qed.

Lemma running_dec s : running s ∨ ¬ running s.
Proof. unfold running. destruct (decide (sn_state s = StateBlocked)), (decide (sn_state s = StateComplete)); tauto. Qed.

(** The counts of a run that goes on. *)
Lemma running_counts p es :
  is_Some (validatePolicy p) → running (after p fresh es) →
  (sn_retry (after p fresh es) = charges p es ∧ charges p es ≤ py_retry_budget p) ∧
  (sn_no_progress (after p fresh es) = idles es ∧ idles es ≤ py_no_progress_budget p).
Proof.
  intros [ids Hp]. destruct (policy_budgets p ids Hp) as [? ?].
  induction es as [|e es IH] using rev_ind; [intros _; cbn; lia|]. rewrite after_snoc, charges_snoc, idles_snoc. intros Hr.
  set (s := after p fresh es) in *.
  destruct (running_dec s) as [Hs|Hs]; [|by apply (stays_ended p s e) in Hs].
  destruct (IH Hs) as [[Hrt Hrb] [Hnp Hnb]].
  assert (validateRequest (mkRequest p s e) = true) as Hv.
  { destruct (validateRequest _) eqn:Hv; [done|]. exfalso. destruct Hr as [Hb _]. apply Hb. unfold step, Evaluate. by rewrite Hv. }
  destruct (Evaluate_free p s e Hr Hs) as [[Hc Hch]|[[Ha Hi]|(Hc & Hne & H1 & H2)]].
  - destruct (Evaluate_charge p s e Hv Hc Hch) as (H1 & H2 & H3). unfold one_more in H3. case_decide; [|by destruct Hr].
    assert (next_idle (idles es) e = idles es) as -> by (unfold charging, next_idle in *; destruct (sn_state s), (ev_action e); done). lia.
  - destruct (Evaluate_idle p s e Hv Ha Hi) as (H1 & H2 & H3). unfold one_more in H3. case_decide; [|by destruct Hr].
    unfold charge, next_idle. rewrite Hi. lia.
  - rewrite H1, H2, Hnp, Hc. split; [lia|]. split; [done|]. unfold next_idle. destruct (ev_action e); done || lia.
Qed.

(** C33: the budgets bound every run. Under a valid policy and through any
    observations from a fresh snapshot, as long as the run is neither blocked nor
    complete its retry count is the number of retryable failures and failed
    verifications it observed, within the retry budget, and its idle count the
    number of reports of no progress since the last progress, within that budget.
    The next valid failure is counted, and leaves the run active when the budget
    allows one more and blocks it otherwise; so does the next valid report of no
    progress; and a run that is blocked stays blocked through any observations. *)
Theorem budgets_bound_a_run p es :
  is_Some (validatePolicy p) →
  let s := after p fresh es in
  (running s →
     (sn_retry s = charges p es ∧ charges p es ≤ py_retry_budget p) ∧
     (sn_no_progress s = idles es ∧ idles es ≤ py_no_progress_budget p) ∧
     ∀ e, validateRequest (mkRequest p s e) = true →
       (charging (sn_state s) (ev_action e) = true → charge p e = 1 →
          sn_retry (step p s e) = charges p (es ++ [e]) ∧
          sn_state (step p s e) = one_more (py_retry_budget p) (charges p (es ++ [e]))) ∧
       (sn_state s = StateActive → ev_action e = ActionNoProgress →
          sn_no_progress (step p s e) = idles (es ++ [e]) ∧
          sn_state (step p s e) = one_more (py_no_progress_budget p) (idles (es ++ [e])))) ∧
  (sn_state s = StateBlocked → ∀ es', sn_state (after p fresh (es ++ es')) = StateBlocked).
Proof.
  intros Hp s. split; [|intros Hb es'; unfold after; rewrite foldl_app; by apply blocked_stays].
  intros Hs. destruct (running_counts p es Hp Hs) as [Hr Hn]. split; [done|]. split; [done|]. intros e Hv.
  destruct Hr as [Hr _], Hn as [Hn _]. fold s in Hr, Hn. split.
  - intros Hc Hch. destruct (Evaluate_charge p s e Hv Hc Hch) as (-> & _ & ->). by rewrite charges_snoc, Hch, Hr.
  - intros Ha Hi. destruct (Evaluate_idle p s e Hv Ha Hi) as (-> & _ & ->). rewrite idles_snoc. unfold next_idle. by rewrite Hi, Hn.
Qed.

(** ** Waits *)

(** A recheck inside a valid wait: early it changes nothing, in the window the
    run is active again, at the deadline it is blocked. *)
Lemma wait_window p s e ids now a b :
  validatePolicy p = Some ids → validateRequest (mkRequest p s e) = true → sn_state s = StateWaitExternal →
  ev_action e = ActionRecheck → ParseRFC3339 (ev_now e) = Some now → parseWait (sn_wait s) = Some (a, b) →
  a < b ∧
  Evaluate (mkRequest p s e) =
    if b <=? now then blockedFrom s ReasonWaitDeadlineExceeded
    else if now <? a then decisionFromSnapshot s ReasonWaitNotDue
    else decisionFromSnapshot (with_state StateActive None s) ReasonWaitRecheckDue.
Proof.
  intros Hp Hv Hs Ha Hnow Hw. split.
  - destruct (valid_request _ Hv) as [_ (_ & _ & Hwait)%validateSnapshot_true]. cbn in Hwait. rewrite Hs in Hwait. cbn in Hwait.
    unfold validateWait in Hwait. rewrite Hw in Hwait. destruct (sn_wait s); [|done].
    apply andb_true_iff in Hwait as [_ Hlt]. by apply Z.ltb_lt.
  - unfold Evaluate. rewrite Hv. cbn. rewrite Hs, Ha. unfold evaluateWait. cbn. rewrite Ha, Hnow, Hw.
    replace (negb (now <? b)) with (b <=? now) by (rewrite Z.leb_antisym; done). done.
Qed.

(** ** A run *)

Definition demo_policy : Policy := mkPolicy 1 "p" 1 2 [mkPredicate "tests" PredicateCommandExitZero].
Definition observe (a : Action) : Event := mkEvent a "" None None.
Definition verify_with (satisfied : bool) : Event := mkEvent ActionVerify "" None (Some {["tests" := mkResult true satisfied]}).
Definition wait_until (deadline : string) : Event :=
  mkEvent ActionWaitExternal "2024-01-01T00:00:00Z" (Some (mkWait WaitOwnerGitHub "2024-01-01T01:00:00Z" deadline)) None.
Definition demo_events : list Event :=
  [observe ActionNoProgress; observe ActionRequestVerify; verify_with false; observe ActionNoProgress].

(** One failed verification is within the budget; another retry blocks. *)
Lemma budgets_bound_a_run_witness :
  let s := after demo_policy fresh demo_events in
  sn_retry s = 1 ∧ charges demo_policy demo_events = 1 ∧ sn_no_progress s = 2 ∧
  sn_state (step demo_policy s (observe ActionRetryableFailure)) = StateBlocked.
Proof.
  assert (is_Some (validatePolicy demo_policy)) as Hp by (eexists; vm_compute; reflexivity).
  destruct (budgets_bound_a_run demo_policy demo_events Hp) as [Hrun _].
  destruct Hrun as ([Hr _] & [Hn _] & Hnext); [split; vm_compute; discriminate|].
  destruct (Hnext (observe ActionRetryableFailure) ltac:(vm_compute; reflexivity)) as [Hc _].
  destruct (Hc ltac:(vm_compute; reflexivity) ltac:(vm_compute; reflexivity)) as [_ Hb]. cbn zeta.
  split; [rewrite Hr; vm_compute; reflexivity|]. split; [vm_compute; reflexivity|]. split; [rewrite Hn; vm_compute; reflexivity|].
  rewrite Hb. vm_compute. reflexivity.
Defined.

Lemma decisions_can_be_resubmitted_witness :
  validateSnapshot demo_policy (persisted (Evaluate (mkRequest demo_policy fresh (wait_until "2024-01-02T00:00:00+02:00")))) = true ∧
  sn_wait (persisted (Evaluate (mkRequest demo_policy fresh (wait_until "2024-01-02T00:00:00+02:00")))) =
    Some (mkWait WaitOwnerGitHub "2024-01-01T01:00:00Z" "2024-01-01T22:00:00Z").
Proof.
  split; [|vm_compute; reflexivity].
  assert (∃ ids, validatePolicy demo_policy = Some ids) as [ids Hids] by (eexists; vm_compute; reflexivity).
  refine (proj2 (decisions_can_be_resubmitted (mkRequest demo_policy fresh (wait_until "2024-01-02T00:00:00+02:00")) ids Hids _ _)).
  - intros a b Hp. discriminate Hp.
  - intros a b Hp. vm_compute in Hp. injection Hp as <- <-. split; split; vm_compute; done.
Defined.

Example verified_run_completes :
  sn_state (after demo_policy fresh [observe ActionRequestVerify; verify_with true]) = StateComplete.
Proof. vm_compute. reflexivity. Qed.

(** A deadline at the end of the year 9999 west of Greenwich is accepted, and
    its window is lost: the decision waits without one, and submitting it again
    is refused as malformed. *)
Example far_deadline_loses_its_window :
  let d := Evaluate (mkRequest demo_policy fresh (wait_until "9999-12-31T23:59:59-05:00")) in
  dc_state d = StateWaitExternal ∧ dc_reason d = ReasonWaitingExternal ∧ dc_wait d = None ∧
  dc_reason (Evaluate (mkRequest demo_policy (persisted d) (mkEvent ActionRecheck "2024-01-01T02:00:00Z" None None))) = ReasonMalformedInput.
Proof. vm_compute. done. Qed.
