(* ===== verification/StoreModel.v ===== *)
(** * The user-level SQLite store: schema, rows, statements

    The tables of [internal/store/schema] as finite maps keyed by their primary
    keys, the typed status columns of [tasks.go] and [plans.go], and the SQL
    statements the store's methods execute, each with the constraints SQLite
    checks ([foreign_keys] is on for every connection). *)
From S2P Require Import Prelude GoLib GoTime.

(** ** Status columns *)

Inductive TaskStatus :=
| TaskStatusPending | TaskStatusReady | TaskStatusReadyPendingApproval
| TaskStatusBlocked | TaskStatusRunning | TaskStatusDone | TaskStatusFailed
| TaskStatusSkipped | TaskStatusDecomposed
| TaskStatusBlockedCapability | TaskStatusBlockedInput.

#[export] Instance TaskStatus_eq_dec : EqDecision TaskStatus.
Proof. solve_decision. Defined.

Definition task_status_text (st : TaskStatus) : string :=
  match st with
  | TaskStatusPending => "pending"
  | TaskStatusReady => "ready"
  | TaskStatusReadyPendingApproval => "ready_pending_approval"
  | TaskStatusBlocked => "blocked"
  | TaskStatusRunning => "running"
  | TaskStatusDone => "done"
  | TaskStatusFailed => "failed"
  | TaskStatusSkipped => "skipped"
  | TaskStatusDecomposed => "decomposed"
  | TaskStatusBlockedCapability => "blocked_capability"
  | TaskStatusBlockedInput => "blocked_input"
  end.

Inductive PlanStatus :=
| PlanStatusDraft | PlanStatusActive | PlanStatusPaused | PlanStatusDone
| PlanStatusFailedPartial | PlanStatusArchived | PlanStatusAbandoned.

#[export] Instance PlanStatus_eq_dec : EqDecision PlanStatus.
Proof. solve_decision. Defined.

(** ** Rows *)

Record Plan := mkPlan {
  p_project : string;
  p_slug : string;
  p_title : string;
  p_status : PlanStatus;
  p_source : option string;
  p_created_at : Z;
  p_updated_at : string;
  p_tags : option string }.

Record Task := mkTask {
  t_description : string;
  t_status : TaskStatus;
  t_parallel_group : option Z;
  t_sequence_ordinal : option Z;
  t_acceptance : option string;
  t_claimed_by_session : option string;
  t_claimed_by_worker : option string;
  t_retry_count : Z;
  t_reclaim_count : Z;
  t_parent : option string;
  t_created_at : Z;
  t_failure_category : option string }.

Record TaskMeta := mkTaskMeta {
  m_group_path : string;
  m_team_path : string;
  m_metadata_json : string;
  m_assigned_alias : option string;
  m_assigned_provider : option string;
  m_assigned_model : option string;
  m_assigned_effort : option string;
  m_assigned_domain : option string;
  m_assigned_session : option string;
  m_provider_session : option string;
  m_calibration : option string;
  m_capability_set : option string;
  m_completion_evidence : option string;
  m_blocked_reason : option string }.

Record Session := mkSession {
  s_role : string;
  s_pid : option Z;
  s_pid_start : option string;
  s_host : option string;
  s_started_at : Z;
  s_heartbeat : Z }.

Record Worker := mkWorker {
  w_session : string;
  w_provider : string;
  w_model : option string;
  w_native_fanout : bool;
  w_pid : Z;
  w_pid_start : string;
  w_plan : option string;
  w_task : option string;
  w_started_at : Z;
  w_heartbeat : Z;
  w_status : string }.

Inductive HookState := HookVerificationPending | HookVerificationPassed | HookVerificationFailed.

#[export] Instance HookState_eq_dec : EqDecision HookState.
Proof. solve_decision. Defined.

(** The structured payload of an event ([EventPayload]). *)
Record EventPayload := mkPayload {
  pl_summary : string;
  pl_reason : string;
  pl_evidence : list string;
  pl_handoff_to : string;
  pl_retryable : bool;
  pl_needs_context : list string;
  pl_approval_required : bool;
  pl_provider : string;
  pl_provider_session : string;
  pl_failure_category : string;
  pl_operator_action : string }.

Definition zero_payload : EventPayload :=
  mkPayload "" "" [] "" false [] false "" "" "" "".
Definition reason_payload (reason : string) : EventPayload :=
  mkPayload "" reason [] "" false [] false "" "" "" "".

(** What an events row's [payload_json] encodes. *)
Inductive Payload :=
| PayloadStruct (p : EventPayload)
| PayloadJSON (raw : string)
| PayloadReclaim (reason : string) (reclaim_count concurrent_claims : Z).

Record Event := mkEvent {
  e_project : option string;
  e_plan : option string;
  e_task : option string;
  e_kind : string;
  e_stream : option string;
  e_actor : option string;
  e_payload : Payload }.

(** ** The database

    [db_clock] is the clock the store reads, in nanoseconds; columns hold
    seconds, the resolution of the RFC 3339 text the store writes. *)
Record DB := mkDB {
  db_clock : Z;
  db_projects : gset string;
  db_plans : gmap string Plan;
  db_tasks : gmap (string * string) Task;
  db_deps : gset (string * string * string);
  db_metadata : gmap (string * string) TaskMeta;
  db_inputs : gmap (string * string * string) string;
  db_outputs : gset (string * string * string);
  db_sessions : gmap string Session;
  db_workers : gmap string Worker;
  db_hooks : gmap (string * string * string) (HookState * Z);
  db_calibrations : gset string;
  db_events : list Event }.

Definition second : Z := 1000000000.
Definition db_now (s : DB) : Z := (db_clock s / second)%Z.

(** The two texts of the time: Go's RFC 3339, and SQLite's [CURRENT_TIMESTAMP],
    which the update triggers write. *)
Definition now_rfc3339 (s : DB) : string := FormatRFC3339Nano (db_now s * second_ns).
Definition current_timestamp (s : DB) : string :=
  of_chars ((λ c, if decide (c = "T"%char) then " "%char else c) <$> removelast (chars (now_rfc3339 s))).

Definition set_plans f s := mkDB (db_clock s) (db_projects s) (f (db_plans s)) (db_tasks s)
  (db_deps s) (db_metadata s) (db_inputs s) (db_outputs s) (db_sessions s) (db_workers s)
  (db_hooks s) (db_calibrations s) (db_events s).
Definition set_tasks f s := mkDB (db_clock s) (db_projects s) (db_plans s) (f (db_tasks s))
  (db_deps s) (db_metadata s) (db_inputs s) (db_outputs s) (db_sessions s) (db_workers s)
  (db_hooks s) (db_calibrations s) (db_events s).
Definition set_deps f s := mkDB (db_clock s) (db_projects s) (db_plans s) (db_tasks s)
  (f (db_deps s)) (db_metadata s) (db_inputs s) (db_outputs s) (db_sessions s) (db_workers s)
  (db_hooks s) (db_calibrations s) (db_events s).
Definition set_metadata f s := mkDB (db_clock s) (db_projects s) (db_plans s) (db_tasks s)
  (db_deps s) (f (db_metadata s)) (db_inputs s) (db_outputs s) (db_sessions s) (db_workers s)
  (db_hooks s) (db_calibrations s) (db_events s).
Definition set_inputs f s := mkDB (db_clock s) (db_projects s) (db_plans s) (db_tasks s)
  (db_deps s) (db_metadata s) (f (db_inputs s)) (db_outputs s) (db_sessions s) (db_workers s)
  (db_hooks s) (db_calibrations s) (db_events s).
Definition set_outputs f s := mkDB (db_clock s) (db_projects s) (db_plans s) (db_tasks s)
  (db_deps s) (db_metadata s) (db_inputs s) (f (db_outputs s)) (db_sessions s) (db_workers s)
  (db_hooks s) (db_calibrations s) (db_events s).
Definition set_sessions f s := mkDB (db_clock s) (db_projects s) (db_plans s) (db_tasks s)
  (db_deps s) (db_metadata s) (db_inputs s) (db_outputs s) (f (db_sessions s)) (db_workers s)
  (db_hooks s) (db_calibrations s) (db_events s).
Definition set_workers f s := mkDB (db_clock s) (db_projects s) (db_plans s) (db_tasks s)
  (db_deps s) (db_metadata s) (db_inputs s) (db_outputs s) (db_sessions s) (f (db_workers s))
  (db_hooks s) (db_calibrations s) (db_events s).
Definition set_hooks f s := mkDB (db_clock s) (db_projects s) (db_plans s) (db_tasks s)
  (db_deps s) (db_metadata s) (db_inputs s) (db_outputs s) (db_sessions s) (db_workers s)
  (f (db_hooks s)) (db_calibrations s) (db_events s).
Definition set_events f s := mkDB (db_clock s) (db_projects s) (db_plans s) (db_tasks s)
  (db_deps s) (db_metadata s) (db_inputs s) (db_outputs s) (db_sessions s) (db_workers s)
  (db_hooks s) (db_calibrations s) (f (db_events s)).
Definition set_clock f s := mkDB (f (db_clock s)) (db_projects s) (db_plans s) (db_tasks s)
  (db_deps s) (db_metadata s) (db_inputs s) (db_outputs s) (db_sessions s) (db_workers s)
  (db_hooks s) (db_calibrations s) (db_events s).

(** ** Errors *)

(** The sentinels of the package, and the constraint a statement violated. *)
Inductive StoreError :=
| ErrArguments (what : string)
| ErrNoReadyTask
| ErrOutputReserved (path : string)
| ErrTaskNotRunning
| ErrTaskNotOwnedRunning
| ErrTaskNotFound
| ErrDuplicateTask
| ErrDuplicateSlug
| ErrPlanNotFound
| ErrDuplicateTaskMetadata
| ErrTaskMetadataMissing
| ErrTaskExecutionConflict
| ErrTaskProviderSessionConflict
| ErrCalibrationBound
| ErrNotClearable
| ErrSelfDependency
| ErrWouldCycle
| ErrUnique (table : string)
| ErrForeignKey (table : string)
| ErrCheck (table : string).

#[export] Instance StoreError_eq_dec : EqDecision StoreError.
Proof. solve_decision. Defined.

(** [errors.Is]: [ErrTaskNotOwnedRunning] wraps [ErrTaskNotRunning]. *)
Definition errors_is (e target : StoreError) : bool :=
  bool_decide (e = target) ||
  (bool_decide (e = ErrTaskNotOwnedRunning) && bool_decide (target = ErrTaskNotRunning)).

Abbreviation Store A := (SM DB StoreError A).

(** [nullIfEmpty]: an empty string binds NULL. *)
Definition nullIfEmpty (value : string) : option string :=
  if decide (value = "") then None else Some value.
(** [COALESCE(col, '')]. *)
Definition coalesce (o : option string) : string := default "" o.
(** SQL [col = ?] on a nullable column: NULL is equal to nothing. *)
Definition sql_eq (o : option string) (v : string) : bool := bool_decide (o = Some v).
