(* ===== verification/StoreSql.v ===== *)
(** * SQL statements of the store

    [WHERE]/[UPDATE]/[DELETE] as functions on the tables, the foreign-key
    actions, and [ORDER BY] as an interface: SQLite promises a permutation of
    the rows sorted by the key and nothing about rows with equal keys. *)
From S2P Require Import Prelude GoLib StoreModel.
From stdpp Require Import sorting.

(** ** ORDER BY *)

Inductive Cell := KInt (z : Z) | KText (t : string).
#[export] Instance Cell_eq_dec : EqDecision Cell.
Proof. solve_decision. Defined.

Definition cell_leb (a b : Cell) : bool :=
  match a, b with
  | KInt x, KInt y => (x <=? y)%Z
  | KText x, KText y => String.leb x y
  | KInt _, KText _ => true
  | KText _, KInt _ => false
  end.

(** Keys compare lexicographically, as a list of [ORDER BY] terms does. *)
Fixpoint key_leb (k1 k2 : list Cell) : bool :=
  match k1, k2 with
  | [], _ => true
  | _, [] => false
  | a :: k1', b :: k2' => if decide (a = b) then key_leb k1' k2' else cell_leb a b
  end.

(** [CASE WHEN col IS NULL THEN 1 ELSE 0 END, col]: NULLs last. *)
Definition nulls_last (o : option Z) : list Cell :=
  match o with Some z => [KInt 0; KInt z] | None => [KInt 1; KInt 0] end.

Definition key_order {A} (key : A → list Cell) (a b : A) : Prop := key_leb (key a) (key b).

Class SqlEngine := {
  order_by : ∀ {A : Type}, (A → list Cell) → list A → list A;
  order_by_perm : ∀ A (key : A → list Cell) l, order_by key l ≡ₚ l;
  order_by_sorted : ∀ A (key : A → list Cell) l, StronglySorted (key_order key) (order_by key l)
}.

Lemma cell_leb_total a b : cell_leb a b ∨ cell_leb b a.
Proof.
  destruct a as [x|x], b as [y|y]; simpl; auto.
  - destruct (Z.leb_spec x y); [by left|right]. apply Is_true_true. apply Z.leb_le. lia.
  - destruct (String.leb_total x y) as [->| ->]; auto.
Qed.

Lemma cell_leb_trans a b c : cell_leb a b → cell_leb b c → cell_leb a c.
Proof.
  destruct a as [x|x], b as [y|y], c as [z|z]; simpl; try done.
  - rewrite !Is_true_true, !Z.leb_le. lia.
  - apply (transitivity (R:=String.le)).
Qed.

Lemma cell_leb_antisym a b : cell_leb a b → cell_leb b a → a = b.
Proof.
  destruct a as [x|x], b as [y|y]; simpl; try done.
  - rewrite !Is_true_true, !Z.leb_le. intros. f_equal. lia.
  - rewrite !Is_true_true. intros. f_equal. by apply String.leb_antisym.
Qed.

Lemma key_leb_total k1 k2 : key_leb k1 k2 ∨ key_leb k2 k1.
Proof.
  revert k2. induction k1 as [|a k1 IH]; intros [|b k2]; simpl; auto.
  repeat case_decide; subst; try done. by apply cell_leb_total.
Qed.

Lemma key_leb_trans k1 k2 k3 : key_leb k1 k2 → key_leb k2 k3 → key_leb k1 k3.
Proof.
  revert k2 k3. induction k1 as [|a k1 IH]; intros [|b k2] [|c k3]; simpl; try done.
  intros H12 H23. repeat case_decide; subst; try done; eauto using cell_leb_trans.
  exfalso. by eauto using cell_leb_antisym.
Qed.

Section MergeSortEngine.
Context {A : Type} (key : A → list Cell).
#[local] Instance key_order_total : Total (key_order key).
Proof. intros a b. apply key_leb_total. Qed.
#[local] Instance key_order_trans : Transitive (key_order key).
Proof. intros a b c. apply key_leb_trans. Qed.
#[local] Instance key_order_dec : RelDecision (key_order key).
Proof. intros a b. unfold key_order. apply _. Defined.
Definition sort_by (l : list A) : list A := merge_sort (key_order key) l.
Lemma sort_by_sorted l : StronglySorted (key_order key) (sort_by l).
Proof. apply StronglySorted_merge_sort; apply _. Qed.
Lemma sort_by_perm l : sort_by l ≡ₚ l.
Proof. apply merge_sort_Permutation. Qed.
End MergeSortEngine.

(** One engine: a stable-looking merge sort. *)
Definition merge_engine : SqlEngine :=
  {| order_by := @sort_by;
     order_by_perm := @sort_by_perm;
     order_by_sorted := @sort_by_sorted |}.

(** ** Row tests *)

Definition has {K V} `{Countable K} (k : K) (m : gmap K V) : bool := bool_decide (is_Some (m !! k)).

Lemma has_true {K V} `{Countable K} (k : K) (m : gmap K V) : has k m = true ↔ is_Some (m !! k).
Proof. apply bool_decide_eq_true. Qed.

(** A nullable reference column against the referenced table. *)
Definition fk_ok {V} (ref : option string) (m : gmap string V) : bool :=
  match ref with None => true | Some k => has k m end.

Lemma fk_ok_true {V} (ref : option string) (m : gmap string V) :
  fk_ok ref m = true ↔ ∀ k, ref = Some k → is_Some (m !! k).
Proof. destruct ref as [k|]; simpl; [rewrite has_true|]; naive_solver. Qed.

Abbreviation TaskRow := ((string * string) * Task)%type.

(** [status NOT IN ('done', 'skipped', 'decomposed')], negated. *)
Definition satisfied (st : TaskStatus) : bool :=
  match st with
  | TaskStatusDone | TaskStatusSkipped | TaskStatusDecomposed => true
  | _ => false
  end.

(** [status IN ('pending', 'ready')]. *)
Definition claimable (st : TaskStatus) : bool :=
  match st with TaskStatusPending | TaskStatusReady => true | _ => false end.

(** The [NOT EXISTS] walk over [task_deps] every readiness query shares. *)
Definition unmet_dep (s : DB) (planID taskID : string) (d : string * string * string) : bool :=
  let '(dp, dt, dd) := d in
  bool_decide (dp = planID) && bool_decide (dt = taskID) &&
  match db_tasks s !! (dp, dd) with
  | Some td => negb (satisfied (t_status td))
  | None => false
  end.

Definition deps_satisfied (s : DB) (planID taskID : string) : bool :=
  negb (existsb (unmet_dep s planID taskID) (elements (db_deps s))).

Lemma deps_satisfied_true s p i :
  deps_satisfied s p i = true ↔
  ∀ d td, (p, i, d) ∈ db_deps s → db_tasks s !! (p, d) = Some td → satisfied (t_status td) = true.
Proof.
  unfold deps_satisfied. rewrite negb_true_iff, <-not_true_iff_false, existsb_exists. split.
  - intros Hn d td Hd Htd. destruct (satisfied (t_status td)) eqn:Hs; [done|].
    destruct Hn. exists (p, i, d). rewrite <-list_elem_of_In, elem_of_elements.
    split; [done|]. simpl. by rewrite !bool_decide_true, Htd, Hs.
  - intros Hall ([[dp dt] dd] & Hin & Hu). rewrite <-list_elem_of_In, elem_of_elements in Hin.
    simpl in Hu. repeat case_bool_decide; simplify_eq/=.
    destruct (db_tasks s !! (p, dd)) as [td|] eqn:Htd; [|done].
    specialize (Hall _ _ Hin Htd). by rewrite Hall in Hu.
Qed.

(** ** Statements on tasks *)

(** [INSERT INTO events]; the only constraint is the project reference. *)
Definition insert_event (e : Event) : Store unit :=
  let! ok := sget (λ s, match e_project e with None => true | Some p => bool_decide (p ∈ db_projects s) end) in
  if ok then smod (set_events (λ es, es ++ [e])) else sfail (ErrForeignKey "events").

Definition task_fk_ok (s : DB) (t : Task) : bool :=
  fk_ok (t_claimed_by_session t) (db_sessions s) && fk_ok (t_claimed_by_worker t) (db_workers s).

(** [UPDATE tasks SET ... WHERE plan_id = ? AND id = ? AND ...], returning
    [RowsAffected]. *)
Definition update_task (k : string * string) (where_ : Task → bool) (set_ : Task → Task) : Store Z :=
  λ s, match db_tasks s !! k with
       | Some t =>
           if where_ t then
             if task_fk_ok s (set_ t) then (Ok 1%Z, set_tasks <[k := set_ t]> s)
             else (Err (ErrForeignKey "tasks"), s)
           else (Ok 0%Z, s)
       | None => (Ok 0%Z, s)
       end.

(** [UPDATE tasks SET ... WHERE ...] over every row. *)
Definition update_where (where_ : string * string → Task → bool) (set_ : Task → Task) (s : DB) : DB :=
  set_tasks (map_imap (λ k t, Some (if where_ k t then set_ t else t))) s.

Lemma update_where_lookup where_ set_ s k :
  db_tasks (update_where where_ set_ s) !! k =
  (λ t, if where_ k t then set_ t else t) <$> db_tasks s !! k.
Proof. simpl. rewrite map_lookup_imap. by destruct (db_tasks s !! k). Qed.

(** The row rewrites of the task statements. *)
Definition with_status (st : TaskStatus) (t : Task) : Task :=
  mkTask (t_description t) st (t_parallel_group t) (t_sequence_ordinal t) (t_acceptance t)
    (t_claimed_by_session t) (t_claimed_by_worker t) (t_retry_count t) (t_reclaim_count t)
    (t_parent t) (t_created_at t) (t_failure_category t).
Definition with_claim (session worker : option string) (t : Task) : Task :=
  mkTask (t_description t) (t_status t) (t_parallel_group t) (t_sequence_ordinal t) (t_acceptance t)
    session worker (t_retry_count t) (t_reclaim_count t)
    (t_parent t) (t_created_at t) (t_failure_category t).
Definition with_counts (retry reclaim : Z) (t : Task) : Task :=
  mkTask (t_description t) (t_status t) (t_parallel_group t) (t_sequence_ordinal t) (t_acceptance t)
    (t_claimed_by_session t) (t_claimed_by_worker t) retry reclaim
    (t_parent t) (t_created_at t) (t_failure_category t).
Definition with_failure (category : option string) (t : Task) : Task :=
  mkTask (t_description t) (t_status t) (t_parallel_group t) (t_sequence_ordinal t) (t_acceptance t)
    (t_claimed_by_session t) (t_claimed_by_worker t) (t_retry_count t) (t_reclaim_count t)
    (t_parent t) (t_created_at t) category.

(** ** Foreign-key actions *)

(** [tasks.claimed_by_worker_id REFERENCES workers(id) ON DELETE SET NULL]. *)
Definition null_worker (gone : string → bool) (t : Task) : Task :=
  match t_claimed_by_worker t with
  | Some w => if gone w then with_claim (t_claimed_by_session t) None t else t
  | None => t
  end.
(** [tasks.claimed_by_session REFERENCES sessions(id) ON DELETE SET NULL]. *)
Definition null_session (gone : string → bool) (t : Task) : Task :=
  match t_claimed_by_session t with
  | Some x => if gone x then with_claim None (t_claimed_by_worker t) t else t
  | None => t
  end.

Definition row_gone {V} (dead : string → V → bool) (m : gmap string V) (k : string) : bool :=
  match m !! k with Some v => dead k v | None => false end.

(** [DELETE FROM workers WHERE dead]. *)
Definition delete_workers (dead : string → Worker → bool) (s : DB) : DB :=
  set_tasks (fmap (null_worker (row_gone dead (db_workers s))))
    (set_workers (filter (λ kv, dead kv.1 kv.2 = false)) s).

(** [DELETE FROM sessions WHERE dead]: [workers.session_id] and
    [hook_verifications.session_id] cascade, [tasks.claimed_by_session] is
    nulled. *)
Definition delete_sessions (dead : string → Session → bool) (s : DB) : DB :=
  let gone := row_gone dead (db_sessions s) in
  set_hooks (filter (λ kv, gone kv.1.1.1 = false))
    (set_tasks (fmap (null_session gone))
       (delete_workers (λ _ w, gone (w_session w))
          (set_sessions (filter (λ kv, dead kv.1 kv.2 = false)) s))).

#[global] Arguments insert_event : simpl never.
#[global] Arguments update_task : simpl never.
