(* ===== verification/StoreTasks.v ===== *)
(** * Task lifecycle: [internal/store/tasks.go], [claim.go], [output_reservation.go]

    One definition per method; each public method that opens a transaction is
    [atomically] the statements it runs. *)
From S2P Require Import Prelude GoLib StoreModel StoreSql.

(** ** Creation *)

Record CreateTaskOpts := mkCreateTaskOpts {
  o_plan_id : string;
  o_id : string;
  o_description : string;
  o_parallel_group : option Z;
  o_sequence_ordinal : option Z;
  o_acceptance : string;
  o_parent : string;
  o_requires_approval : bool }.

Definition new_task (o : CreateTaskOpts) (now : Z) : Task :=
  {| t_description := o_description o;
     t_status := if o_requires_approval o then TaskStatusReadyPendingApproval else TaskStatusPending;
     t_parallel_group := o_parallel_group o;
     t_sequence_ordinal := o_sequence_ordinal o;
     t_acceptance := nullIfEmpty (o_acceptance o);
     t_claimed_by_session := None;
     t_claimed_by_worker := None;
     t_retry_count := 0;
     t_reclaim_count := 0;
     t_parent := nullIfEmpty (o_parent o);
     t_created_at := now;
     t_failure_category := None |}.

Definition createTaskOn (o : CreateTaskOpts) : Store unit :=
  if bool_decide (o_plan_id o = "" ∨ o_id o = "" ∨ o_description o = "")
  then sfail (ErrArguments "PlanID, ID, and Description required")
  else λ s,
    let k := (o_plan_id o, o_id o) in
    if has k (db_tasks s) then (Err ErrDuplicateTask, s)
    else if negb (has (o_plan_id o) (db_plans s)) then (Err (ErrForeignKey "tasks"), s)
    else if match nullIfEmpty (o_parent o) with
            | Some parent => negb (has (o_plan_id o, parent) (db_tasks s) || bool_decide (parent = o_id o))
            | None => false
            end
    then (Err (ErrForeignKey "tasks"), s)
    else (Ok tt, set_tasks <[k := new_task o (db_now s)]> s).

(** ** Readiness queries *)

Definition ready_row (s : DB) (planID : string) (row : TaskRow) : bool :=
  bool_decide (row.1.1 = planID) && claimable (t_status row.2) && deps_satisfied s planID row.1.2.

Definition task_rows (s : DB) (where_ : TaskRow → bool) : list TaskRow :=
  filter (λ r, where_ r = true) (map_to_list (db_tasks s)).

Lemma task_rows_elem s where_ k t :
  (k, t) ∈ task_rows s where_ ↔ db_tasks s !! k = Some t ∧ where_ (k, t) = true.
Proof. unfold task_rows. rewrite list_elem_of_filter, elem_of_map_to_list. tauto. Qed.

Section Queries.
Context `{SqlEngine}.

(** [Ready]. *)
Definition Ready (planID : string) (s : DB) : list TaskRow :=
  order_by (λ r, [KInt (t_created_at r.2)]) (task_rows s (ready_row s planID)).

(** Ranks of [ListTasks]' [ORDER BY CASE status]. *)
Definition list_rank (st : TaskStatus) : Z :=
  match st with
  | TaskStatusReadyPendingApproval => 0
  | TaskStatusBlocked => 1
  | TaskStatusRunning => 2
  | TaskStatusPending => 3
  | TaskStatusDone => 4
  | TaskStatusFailed => 5
  | _ => 6
  end.

Definition ListTasks (planID : string) (statuses : list TaskStatus) (s : DB) : list TaskRow :=
  order_by (λ r, [KInt (list_rank (t_status r.2)); KInt (t_created_at r.2); KText r.1.2])
    (task_rows s (λ r, bool_decide (r.1.1 = planID) &&
       (bool_decide (statuses = []) || bool_decide (t_status r.2 ∈ statuses)))).

Definition GetTask (planID taskID : string) : Store Task :=
  λ s, match db_tasks s !! (planID, taskID) with
       | Some t => (Ok t, s)
       | None => (Err ErrTaskNotFound, s)
       end.
End Queries.

Record StatusCounts := mkStatusCounts {
  c_active_plans : nat;
  c_ready : nat;
  c_running : nat;
  c_approval : nat;
  c_blocked : nat;
  c_failed : nat }.

(** [SELECT status, COUNT( * ) FROM tasks GROUP BY status]: one row per status
    that occurs. *)
Definition count_status (s : DB) (st : TaskStatus) : nat :=
  length (task_rows s (λ r, bool_decide (t_status r.2 = st))).

Definition all_statuses : list TaskStatus :=
  [TaskStatusPending; TaskStatusReady; TaskStatusReadyPendingApproval; TaskStatusBlocked;
   TaskStatusRunning; TaskStatusDone; TaskStatusFailed; TaskStatusSkipped;
   TaskStatusDecomposed; TaskStatusBlockedCapability; TaskStatusBlockedInput].

Definition group_by_status (s : DB) : list (TaskStatus * nat) :=
  filter (λ g, g.2 ≠ 0) ((λ st, (st, count_status s st)) <$> all_statuses).

Definition fold_status_row (c : StatusCounts) (row : TaskStatus * nat) : StatusCounts :=
  let '(st, n) := row in
  match st with
  | TaskStatusReady => mkStatusCounts (c_active_plans c) n (c_running c) (c_approval c) (c_blocked c) (c_failed c)
  | TaskStatusRunning => mkStatusCounts (c_active_plans c) (c_ready c) n (c_approval c) (c_blocked c) (c_failed c)
  | TaskStatusReadyPendingApproval =>
      mkStatusCounts (c_active_plans c) (c_ready c) (c_running c) n (c_blocked c) (c_failed c)
  | TaskStatusBlocked | TaskStatusBlockedCapability | TaskStatusBlockedInput =>
      mkStatusCounts (c_active_plans c) (c_ready c) (c_running c) (c_approval c) (c_blocked c + n) (c_failed c)
  | TaskStatusFailed => mkStatusCounts (c_active_plans c) (c_ready c) (c_running c) (c_approval c) (c_blocked c) n
  | _ => c
  end.

Definition StatusCountsOf (s : DB) : StatusCounts :=
  let active := length (filter (λ p, p_status p.2 = PlanStatusActive) (map_to_list (db_plans s))) in
  foldl fold_status_row (mkStatusCounts active 0 0 0 0 0) (group_by_status s).

(** ** Output reservations *)

Definition canonicalReservationPath (path : string) : string :=
  if decide (path = "") then ""
  else let cleaned := Clean path in
       if decide (cleaned = ".") then "" else cleaned.

Definition reserveTaskOutputOn (planID taskID path mode : string) : Store unit :=
  let path := canonicalReservationPath path in
  if decide (path = "") then sfail (ErrArguments "output path required")
  else
    let mode := if decide (mode = "") then "exclusive" else mode in
    λ s,
      if negb (bool_decide (mode = "exclusive")) then (Err (ErrCheck "task_output_reservations"), s)
      else if bool_decide ((planID, taskID, path) ∈ db_outputs s)
      then (Err (ErrUnique "task_output_reservations"), s)
      else if negb (has (planID, taskID) (db_tasks s))
      then (Err (ErrForeignKey "task_output_reservations"), s)
      else (Ok tt, set_outputs (λ o, {[(planID, taskID, path)]} ∪ o) s).

Definition reserveTaskInputOn (planID taskID path sha256 : string) : Store unit :=
  let path := canonicalReservationPath path in
  if decide (path = "") then sfail (ErrArguments "input path required")
  else λ s,
    if has (planID, taskID, path) (db_inputs s) then (Err (ErrUnique "task_input_reservations"), s)
    else if negb (has (planID, taskID) (db_tasks s))
    then (Err (ErrForeignKey "task_input_reservations"), s)
    else (Ok tt, set_inputs <[(planID, taskID, path) := sha256]> s).

Definition same_project (s : DB) (p q : string) : bool :=
  match db_plans s !! p, db_plans s !! q with
  | Some a, Some b => bool_decide (p_project a = p_project b)
  | _, _ => false
  end.

Definition running_task (s : DB) (k : string * string) : bool :=
  match db_tasks s !! k with
  | Some t => bool_decide (t_status t = TaskStatusRunning)
  | None => false
  end.

(** One row of the reservation join: [theirs] is held by a running task of the
    same project that is not [mine]'s task. *)
Definition reservation_blocks (s : DB) (mine theirs : string * string * string) : bool :=
  let '(mp, mt, mpath) := mine in
  let '(tp, tt_, tpath) := theirs in
  bool_decide (tpath = mpath) && negb (bool_decide ((tp, tt_) = (mp, mt))) &&
  same_project s mp tp && running_task s (tp, tt_).

(** The paths of (planID, taskID) that a running peer has reserved. *)
Definition reserved_by_peer (s : DB) (planID taskID : string) : list string :=
  snd <$> filter (λ mine, mine.1 = (planID, taskID) ∧
                          existsb (reservation_blocks s mine) (elements (db_outputs s)) = true)
                 (elements (db_outputs s)).

(** ** Claims *)

Definition claim_task (sessionID workerID : string) (t : Task) : Task :=
  with_status TaskStatusRunning (with_claim (Some sessionID) (Some workerID) t).

Definition plain_event (planID taskID kind actor stream : string) (p : Payload) : Event :=
  mkEvent None (Some planID) (Some taskID) kind (Some stream) (Some actor) p.

(** The common tail of both claims: guarded UPDATE, RowsAffected, event. *)
Definition claim_row (planID taskID sessionID workerID : string) : Store unit :=
  let! claimed := update_task (planID, taskID) (λ t, claimable (t_status t)) (claim_task sessionID workerID) in
  if (claimed =? 0)%Z then sfail ErrNoReadyTask
  else insert_event (plain_event planID taskID "task.claimed" sessionID "worker" (PayloadStruct zero_payload)).

Section Claims.
Context `{SqlEngine}.

(** [outputReservationConflict]: [""] when there is none. *)
Definition outputReservationConflict (planID taskID : string) (s : DB) : string :=
  default "" (head (order_by (λ _, []) (reserved_by_peer s planID taskID))).

Definition claimTaskOnce (planID taskID sessionID workerID : string) : Store Task :=
  do! atomically (
    let! selected := sget (λ s,
      match db_tasks s !! (planID, taskID) with
      | Some t => ready_row s planID ((planID, taskID), t)
      | None => false
      end) in
    if negb selected then sfail ErrNoReadyTask
    else
      let! conflict := sget (outputReservationConflict planID taskID) in
      if negb (bool_decide (conflict = "")) then sfail (ErrOutputReserved conflict)
      else claim_row planID taskID sessionID workerID) in
  GetTask planID taskID.

(** The SELECT of [ClaimNextReady]: ready rows whose outputs no running peer
    has reserved, author order first, then creation time. *)
Definition next_ready (planID : string) (s : DB) : list TaskRow :=
  order_by (λ r, nulls_last (t_sequence_ordinal r.2) ++ [KInt (t_created_at r.2)])
    (task_rows s (λ r, ready_row s planID r && bool_decide (reserved_by_peer s planID r.1.2 = []))).

Definition ClaimNextReady (planID sessionID workerID : string) : Store Task :=
  let! taskID := atomically (
    let! rows := sget (next_ready planID) in
    match rows with
    | [] => sfail ErrNoReadyTask
    | row :: _ => do! claim_row planID row.1.2 sessionID workerID in sret row.1.2
    end) in
  GetTask planID taskID.
End Claims.

(** ** Owner-guarded reports *)

(** [status = 'running' AND claimed_by_session = ?]. *)
Definition owned_running (sessionID : string) (t : Task) : bool :=
  bool_decide (t_status t = TaskStatusRunning) && sql_eq (t_claimed_by_session t) sessionID.

(** [status = ..., claimed_by_session = NULL, claimed_by_worker_id = NULL]. *)
Definition release_to (st : TaskStatus) (t : Task) : Task := with_status st (with_claim None None t).

Definition MarkDone `{SqlEngine} (planID taskID sessionID evidenceJSON : string) : Store (list TaskRow) :=
  do! atomically (
    let! n := update_task (planID, taskID) (owned_running sessionID) (release_to TaskStatusDone) in
    if (n =? 0)%Z then sfail ErrTaskNotOwnedRunning
    else insert_event (plain_event planID taskID "worker.completed" sessionID "worker" (PayloadJSON evidenceJSON))) in
  sget (Ready planID).

Definition retry_task (t : Task) : Task :=
  with_failure None (with_counts (t_retry_count t + 1) (t_reclaim_count t) (release_to TaskStatusPending t)).
Definition fail_task (category : string) (t : Task) : Task :=
  with_failure (nullIfEmpty category) (release_to TaskStatusFailed t).

Definition MarkFailedWithPayload (planID taskID sessionID : string) (payload : EventPayload)
    (maxRetries : Z) : Store bool :=
  atomically (
    let! retries := sget (λ s,
      match db_tasks s !! (planID, taskID) with
      | Some t => if owned_running sessionID t then Some (t_retry_count t) else None
      | None => None
      end) in
    match retries with
    | None => sfail ErrTaskNotOwnedRunning
    | Some retries =>
        if (retries + 1 <=? maxRetries)%Z then
          let! n := update_task (planID, taskID) (owned_running sessionID) retry_task in
          if (n =? 0)%Z then sfail ErrTaskNotOwnedRunning
          else do! insert_event (plain_event planID taskID "task.failed" sessionID "worker" (PayloadStruct payload)) in
               sret true
        else
          let! n := update_task (planID, taskID) (owned_running sessionID) (fail_task (pl_failure_category payload)) in
          if (n =? 0)%Z then sfail ErrTaskNotOwnedRunning
          else do! insert_event (plain_event planID taskID "task.failed_terminal" sessionID "worker" (PayloadStruct payload)) in
               sret false
    end).

Definition MarkFailed (planID taskID sessionID reason : string) (maxRetries : Z) : Store bool :=
  MarkFailedWithPayload planID taskID sessionID (reason_payload reason) maxRetries.

(** [ReleaseClaim] runs outside a transaction. *)
Definition ReleaseClaim (planID taskID sessionID reason : string) : Store unit :=
  let! n := update_task (planID, taskID) (owned_running sessionID) (release_to TaskStatusPending) in
  if (n =? 0)%Z then sfail ErrTaskNotOwnedRunning
  else insert_event (plain_event planID taskID "task.released" sessionID "orch" (PayloadStruct (reason_payload reason))).

Definition MarkBlocked (planID taskID sessionID : string) (payload : EventPayload) : Store unit :=
  atomically (
    let! n := update_task (planID, taskID) (owned_running sessionID) (release_to TaskStatusBlocked) in
    if (n =? 0)%Z then sfail ErrTaskNotOwnedRunning
    else
      let kind := if decide (pl_needs_context payload = []) then "task.blocked" else "task.context_requested" in
      insert_event (plain_event planID taskID kind sessionID "worker" (PayloadStruct payload))).

(** [ApproveTask] returns (found, changed). *)
Definition ApproveTask (planID taskID : string) : Store (bool * bool) :=
  atomically (
    let! status := sget (λ s, t_status <$> db_tasks s !! (planID, taskID)) in
    match status with
    | None => sret (false, false)
    | Some st =>
        if negb (bool_decide (st = TaskStatusReadyPendingApproval)) then sret (true, false)
        else
          let! n := update_task (planID, taskID)
                      (λ t, bool_decide (t_status t = TaskStatusReadyPendingApproval))
                      (with_status TaskStatusReady) in
          sret (true, (0 <? n)%Z)
    end).
