(* ===== verification/StoreWorkers.v ===== *)
(** * Sessions, workers and the reaper: [internal/store/workers.go], [reaper.go] *)
From S2P Require Import Prelude GoLib StoreModel StoreSql StoreTasks.

(** ** Sessions *)

Record SessionOpts := mkSessionOpts {
  so_id : string;
  so_role : string;
  so_pid : Z;
  so_pid_start : string;
  so_host : string }.

(** [uuid] is the identifier [Store.uuid] generates when the caller gives none. *)
Definition CreateSession (uuid : string) (o : SessionOpts) : Store string :=
  if decide (so_role o = "") then sfail (ErrArguments "Role required")
  else λ s,
    let id := if decide (so_id o = "") then uuid else so_id o in
    let now := db_now s in
    if has id (db_sessions s) then (Err (ErrUnique "sessions"), s)
    else (Ok id, set_sessions <[id :=
           mkSession (so_role o) (if (0 <? so_pid o)%Z then Some (so_pid o) else None)
             (nullIfEmpty (so_pid_start o)) (nullIfEmpty (so_host o)) now now]> s).

Definition beat_session (now : Z) (x : Session) : Session :=
  mkSession (s_role x) (s_pid x) (s_pid_start x) (s_host x) (s_started_at x) now.
Definition beat_worker (now : Z) (w : Worker) : Worker :=
  mkWorker (w_session w) (w_provider w) (w_model w) (w_native_fanout w) (w_pid w) (w_pid_start w)
    (w_plan w) (w_task w) (w_started_at w) now (w_status w).
Definition assign_worker (plan task : option string) (status : string) (now : Z) (w : Worker) : Worker :=
  mkWorker (w_session w) (w_provider w) (w_model w) (w_native_fanout w) (w_pid w) (w_pid_start w)
    plan task (w_started_at w) now status.

Definition HeartbeatSession (sessionID : string) : Store unit :=
  smod (λ s, set_sessions (alter (beat_session (db_now s)) sessionID) s).

Definition CloseSession (sessionID : string) : Store unit :=
  smod (delete_sessions (λ id _, bool_decide (id = sessionID))).

(** ** Workers *)

Record WorkerOpts := mkWorkerOpts {
  wo_session : string;
  wo_provider : string;
  wo_model : string;
  wo_native_fanout : bool;
  wo_pid : Z;
  wo_pid_start : string }.

Definition CreateWorker (uuid : string) (o : WorkerOpts) : Store string :=
  if bool_decide (wo_session o = "" ∨ wo_provider o = "" ∨ (wo_pid o ≤ 0)%Z ∨ wo_pid_start o = "")
  then sfail (ErrArguments "SessionID, Provider, SubprocessPID, SubprocessStartTime all required")
  else λ s,
    let now := db_now s in
    if has uuid (db_workers s) then (Err (ErrUnique "workers"), s)
    else if negb (has (wo_session o) (db_sessions s)) then (Err (ErrForeignKey "workers"), s)
    else (Ok uuid, set_workers <[uuid :=
           mkWorker (wo_session o) (wo_provider o) (nullIfEmpty (wo_model o)) (wo_native_fanout o)
             (wo_pid o) (wo_pid_start o) None None now now "running"]> s).

Definition worker_fk_ok (s : DB) (plan task : option string) : bool :=
  match plan, task with Some p, Some i => has (p, i) (db_tasks s) | _, _ => true end.

Definition SetWorkerTask (workerID planID taskID : string) : Store unit := λ s,
  let plan := nullIfEmpty planID in
  let task := nullIfEmpty taskID in
  if has workerID (db_workers s) && negb (worker_fk_ok s plan task)
  then (Err (ErrForeignKey "workers"), s)
  else (Ok tt, set_workers (alter (assign_worker plan task "running" (db_now s)) workerID) s).

Definition HeartbeatWorker (workerID : string) : Store unit :=
  smod (λ s, set_workers (alter (beat_worker (db_now s)) workerID) s).

(** Both UPDATEs of [HeartbeatWorkerAndSession]; neither can fail. *)
Definition HeartbeatWorkerAndSession (workerID : string) : Store unit :=
  atomically (
    do! smod (λ s, set_workers (alter (beat_worker (db_now s)) workerID) s) in
    smod (λ s, match db_workers s !! workerID with
               | Some w => set_sessions (alter (beat_session (db_now s)) (w_session w)) s
               | None => s
               end)).

Definition running_workers (s : DB) : list (string * Worker) :=
  filter (λ kw, w_status kw.2 = "running") (map_to_list (db_workers s)).

Definition CountRunningWorkers (s : DB) : nat := length (running_workers s).

Record RunningWorker := mkRunningWorker {
  rw_id : string; rw_provider : string; rw_plan : string; rw_task : string }.

Definition ListRunningWorkers `{SqlEngine} (s : DB) : list RunningWorker :=
  (λ kw, mkRunningWorker kw.1 (w_provider kw.2) (coalesce (w_plan kw.2)) (coalesce (w_task kw.2))) <$>
    order_by (λ kw, [KInt (w_started_at kw.2)]) (running_workers s).

Definition ClearWorkerTask (workerID status : string) : Store unit :=
  let status := if decide (status = "") then "idle" else status in
  smod (λ s, set_workers (alter (assign_worker None None status (db_now s)) workerID) s).

(** [ReclaimWorker] requeues every running task the worker holds. *)
Definition held_by (workerID : string) (t : Task) : bool :=
  sql_eq (t_claimed_by_worker t) workerID && bool_decide (t_status t = TaskStatusRunning).

Definition ReclaimWorker (workerID : string) : Store bool :=
  atomically (
    let! exists_ := sget (λ s, has workerID (db_workers s)) in
    if negb exists_ then sret false
    else
      do! smod (update_where (λ _, held_by workerID) (release_to TaskStatusPending)) in
      do! smod (λ s, set_workers (alter (assign_worker None None "terminated" (db_now s)) workerID) s) in
      sret true).

(** ** The reaper *)

Definition staleSessionMultiplier : Z := 3.

(** [status = 'running' AND (claimed_by_worker_id IS NULL OR claimed_by_worker_id
    IN (SELECT id FROM workers WHERE last_heartbeat < ?))]. *)
Definition stale_worker (s : DB) (cutoff : Z) (w : string) : bool :=
  match db_workers s !! w with Some x => (w_heartbeat x <? cutoff)%Z | None => false end.

Definition reclaimable (s : DB) (cutoff : Z) (t : Task) : bool :=
  bool_decide (t_status t = TaskStatusRunning) &&
  match t_claimed_by_worker t with None => true | Some w => stale_worker s cutoff w end.

Definition reclaim_reason (t : Task) : string :=
  match t_claimed_by_worker t with None => "orphaned_claim" | Some _ => "stale_heartbeat" end.

Definition reclaim_task (t : Task) : Task :=
  with_counts (t_retry_count t) (t_reclaim_count t + 1) (release_to TaskStatusPending t).

(** [now.Add(d).Format(time.RFC3339)], in seconds. *)
Definition cutoff_at (clock d : Z) : Z := ((clock + d) / second)%Z.

Section Reaper.
Context `{SqlEngine}.

Definition reclaim_event (reasons : gmap (string * string) string) (concurrent : Z) (row : TaskRow) : Event :=
  mkEvent None (Some row.1.1) (Some row.1.2) "task.reclaimed" (Some "service") None
    (PayloadReclaim (default "unclassified" (reasons !! row.1)) (t_reclaim_count row.2) concurrent).

Definition ReclaimStale (staleAfter : Z) : Store Z :=
  atomically (
    let! staleCutoff := sget (λ s, cutoff_at (db_clock s) (wrap64 (- staleAfter))) in
    let! deleteCutoff := sget (λ s, cutoff_at (db_clock s) (wrap64 (- staleAfter * staleSessionMultiplier))) in
    let! reasons := sget (λ s,
      reclaim_reason <$> filter (λ kt, reclaimable s staleCutoff kt.2 = true) (db_tasks s)) in
    let! concurrentClaims := sget (λ s,
      Z.of_nat (length (task_rows s (λ r, bool_decide (t_status r.2 = TaskStatusRunning))))) in
    let! touched := sget (λ s,
      (λ r, (r.1, reclaim_task r.2)) <$>
        order_by (λ _, []) (task_rows s (λ r, reclaimable s staleCutoff r.2))) in
    do! smod (λ s, update_where (λ _, reclaimable s staleCutoff) reclaim_task s) in
    do! sfor touched (λ row, insert_event (reclaim_event reasons concurrentClaims row)) in
    do! smod (delete_workers (λ _ w, (w_heartbeat w <? deleteCutoff)%Z)) in
    do! smod (λ s, delete_sessions (λ id x,
      (s_heartbeat x <? deleteCutoff)%Z &&
      negb (existsb (λ kw, bool_decide (w_session kw.2 = id) && (staleCutoff <=? w_heartbeat kw.2)%Z)
              (map_to_list (db_workers s)))) s) in
    sret (Z.of_nat (length touched))).
End Reaper.
