(* ===== verification/Dfs.v ===== *)
(** * Depth-first search with a visited set

    The recursive closure [visit] of [wouldCreateCycleOn] over an arbitrary
    successor function, with a bound on its recursion depth as fuel. *)
From S2P Require Import Prelude.
From stdpp Require Import relations.

Section Dfs.
Context (next : string → list string) (target : string).

Definition dfs_edge (a b : string) : Prop := b ∈ next a.

(** [for _, n := range next { cyc := visit(n); if cyc { return true } }] *)
Fixpoint visit_all (visit : string → gset string → option (bool * gset string))
    (ns : list string) (visited : gset string) : option (bool * gset string) :=
  match ns with
  | [] => Some (false, visited)
  | n :: ns' =>
      match visit n visited with
      | None => None
      | Some (true, v) => Some (true, v)
      | Some (false, v) => visit_all visit ns' v
      end
  end.

(** [None] is out of fuel. *)
Fixpoint visit (fuel : nat) (node : string) (visited : gset string) : option (bool * gset string) :=
  match fuel with
  | O => None
  | S fuel' =>
      if decide (node = target) then Some (true, visited)
      else if decide (node ∈ visited) then Some (false, visited)
      else visit_all (visit fuel') (next node) ({[node]} ∪ visited)
  end.

Lemma visit_true fuel node visited v :
  visit fuel node visited = Some (true, v) → rtc dfs_edge node target.
Proof.
  revert node visited v. induction fuel as [|fuel IH]; intros node visited v Hv; [done|].
  simpl in Hv. case_decide as Hn; [by subst|]. case_decide; [done|].
  assert (∀ ns vis, visit_all (visit fuel) ns vis = Some (true, v) →
            ∃ m, m ∈ ns ∧ rtc dfs_edge m target) as Hall.
  { induction ns as [|m ns IHns]; intros vis Hm; simpl in Hm; [done|].
    destruct (visit fuel m vis) as [[[] w]|] eqn:Hw; simplify_eq.
    - exists m. split; [set_solver|]. by eapply IH.
    - destruct (IHns _ Hm) as (m' & ? & ?). exists m'. split; [set_solver|done]. }
  destruct (Hall _ _ Hv) as (m & Hm & Hr). by eapply rtc_l.
Qed.

(** What a negative answer leaves behind: everything newly visited is not the
    target and has all its successors visited. *)
Definition explored (before after : gset string) : Prop :=
  before ⊆ after ∧
  ∀ x, x ∈ after → x ∉ before → x ≠ target ∧ ∀ y, y ∈ next x → y ∈ after.

Lemma visit_all_explored f ns visited v :
  (∀ m vis w, f m vis = Some (false, w) → explored vis w ∧ m ∈ w) →
  visit_all f ns visited = Some (false, v) →
  explored visited v ∧ ∀ m, m ∈ ns → m ∈ v.
Proof.
  intros Hf. revert visited. induction ns as [|m ns IH]; intros visited Hv; simpl in Hv.
  - simplify_eq. split; [|set_solver]. split; [done|]. by intros.
  - destruct (f m visited) as [[[] w]|] eqn:Hw; simplify_eq.
    destruct (Hf _ _ _ Hw) as [[Hsub Hexp] Hm].
    destruct (IH _ Hv) as [[Hsub' Hexp'] Hns].
    split; [|set_solver]. split; [set_solver|]. intros x Hx Hnx.
    destruct (decide (x ∈ w)) as [Hxw|Hxw]; [|by apply Hexp'].
    destruct (Hexp x Hxw Hnx) as [Hne Hy]. split; [done|]. set_solver.
Qed.

Lemma visit_false fuel node visited v :
  visit fuel node visited = Some (false, v) → explored visited v ∧ node ∈ v.
Proof.
  revert node visited v. induction fuel as [|fuel IH]; intros node visited v Hv; [done|].
  simpl in Hv. case_decide as Hn; [done|]. case_decide as Hin.
  - simplify_eq. split; [|done]. split; [done|]. by intros.
  - apply visit_all_explored in Hv as [[Hsub Hexp] Hns]; [|eauto].
    split; [|set_solver]. split; [set_solver|]. intros x Hx Hnx.
    destruct (decide (x = node)) as [->|Hxn]; [done|].
    apply Hexp; [done|]. set_solver.
Qed.

Lemma explored_reach v a b :
  explored ∅ v → a ∈ v → rtc dfs_edge a b → b ∈ v ∧ b ≠ target.
Proof.
  intros [_ Hexp] Ha Hr. revert Ha. induction Hr as [a|a b c Hab Hbc IH]; intros Ha.
  - split; [done|]. by apply Hexp; [|set_solver].
  - apply IH. eapply Hexp; [exact Ha|set_solver|done].
Qed.

(** The answer from an empty visited set is reachability. *)
Lemma visit_correct fuel node b v :
  visit fuel node ∅ = Some (b, v) → b = true ↔ rtc dfs_edge node target.
Proof.
  intros Hv. destruct b; [by split; [intros _; by eapply visit_true|]|].
  split; [done|]. intros Hr. exfalso.
  apply visit_false in Hv as [Hexp Hnode].
  by destruct (explored_reach _ _ _ Hexp Hnode Hr).
Qed.

(** Fuel: one more than the nodes of a successor-closed set not yet visited. *)
Lemma visit_enough (V : gset string) fuel node visited :
  (∀ x y, x ∈ V → y ∈ next x → y ∈ V) →
  node ∈ V → size (V ∖ visited) < fuel →
  visit fuel node visited ≠ None.
Proof.
  intros HV. revert node visited. induction fuel as [|fuel IH]; intros node visited Hnode Hsize; [lia|].
  simpl. case_decide as Hn; [done|]. case_decide as Hin; [done|].
  assert (size (V ∖ ({[node]} ∪ visited)) < fuel) as Hsmall.
  { eapply Nat.lt_le_trans; [|apply Nat.lt_succ_r, Hsize]. apply subset_size. set_solver. }
  assert (∀ ns vis, ({[node]} ∪ visited) ⊆ vis → (∀ m, m ∈ ns → m ∈ V) →
            visit_all (visit fuel) ns vis ≠ None) as Hall;
    [|by apply Hall; [|intros; eapply HV]].
  induction ns as [|m ns IHns]; intros vis Hsub Hns; simpl; [done|].
  assert (visit fuel m vis ≠ None) as Hm.
  { apply IH; [set_solver|]. eapply Nat.le_lt_trans; [|exact Hsmall].
    apply subseteq_size. set_solver. }
  destruct (visit fuel m vis) as [[[] w]|] eqn:Hw; [done| |done].
  apply visit_false in Hw as [[Hw _] _]. apply IHns; set_solver.
Qed.
End Dfs.
