(* ===== verification/StoreGraph.v ===== *)
(** * Plans and their dependency graph: [plans.go], [plan_graph.go],
    [tasks.go] (AddDep), [ready_partition.go], [plan_delete.go] *)
From S2P Require Import Prelude GoLib StoreModel StoreSql StoreTasks Dfs.
From stdpp Require Import relations.

(** ** Plans *)

Record CreatePlanOpts := mkCreatePlanOpts {
  po_project : string;
  po_slug : string;
  po_title : string;
  po_source : string;
  po_tags : string }.

(** Any UNIQUE violation (the slug index or the primary key) is reported as a
    duplicate slug. *)
Definition createPlanOn (uuid : string) (o : CreatePlanOpts) : Store string :=
  if bool_decide (po_project o = "" ∨ po_slug o = "" ∨ po_title o = "")
  then sfail (ErrArguments "ProjectID, Slug, and Title required")
  else λ s,
    if has uuid (db_plans s) ||
       existsb (λ p, bool_decide (p_project p.2 = po_project o) && bool_decide (p_slug p.2 = po_slug o))
         (map_to_list (db_plans s))
    then (Err ErrDuplicateSlug, s)
    else if negb (bool_decide (po_project o ∈ db_projects s)) then (Err (ErrForeignKey "plans"), s)
    else (Ok uuid, set_plans <[uuid :=
           mkPlan (po_project o) (po_slug o) (po_title o) PlanStatusDraft (nullIfEmpty (po_source o))
             (db_now s) (now_rfc3339 s) (nullIfEmpty (po_tags o))]> s).

Definition GetPlan (id : string) : Store Plan :=
  λ s, match db_plans s !! id with Some p => (Ok p, s) | None => (Err ErrPlanNotFound, s) end.

(** An update fires the trigger that refreshes [updated_at]. *)
Definition with_plan_status (st : PlanStatus) (updated_at : string) (p : Plan) : Plan :=
  mkPlan (p_project p) (p_slug p) (p_title p) st (p_source p) (p_created_at p) updated_at (p_tags p).

Definition setPlanStatusOn (id : string) (status : PlanStatus) : Store unit :=
  λ s, if has id (db_plans s) then (Ok tt, set_plans (alter (with_plan_status status (current_timestamp s)) id) s)
       else (Err ErrPlanNotFound, s).

(** [ListPlans]: every project's when none is named; no status asks for the
    active and the paused. *)
Definition ListPlans `{SqlEngine} (projectID : string) (statuses : list PlanStatus) (s : DB) : list (string * Plan) :=
  let statuses := match statuses with [] => [PlanStatusActive; PlanStatusPaused] | _ => statuses end in
  rev (order_by (λ r, [KText (p_updated_at r.2)])
    (filter (λ r, p_status r.2 ∈ statuses ∧ (projectID = "" ∨ p_project r.2 = projectID)) (map_to_list (db_plans s)))).

(** ** Dependency edges *)

Section Edges.
Context `{SqlEngine}.

(** [SELECT depends_on FROM task_deps WHERE plan_id = ? AND task_id = ?]. *)
Definition depends_on (s : DB) (planID node : string) : list string :=
  order_by (λ _, [])
    (snd <$> filter (λ d, d.1 = (planID, node)) (elements (db_deps s))).

(** One step deeper than the longest chain of distinct nodes. *)
Definition cycle_fuel (s : DB) : nat := S (S (size (db_deps s))).

Definition wouldCreateCycleOn (s : DB) (planID task dep : string) : option bool :=
  fst <$> visit (depends_on s planID) task (cycle_fuel s) dep ∅.

Definition addDepOn (planID taskID dependsOn : string) : Store unit :=
  if decide (taskID = dependsOn) then sfail ErrSelfDependency
  else λ s,
    match wouldCreateCycleOn s planID taskID dependsOn with
    | Some false =>
        if bool_decide ((planID, taskID, dependsOn) ∈ db_deps s) then (Err (ErrUnique "task_deps"), s)
        else if negb (has (planID, taskID) (db_tasks s) && has (planID, dependsOn) (db_tasks s))
        then (Err (ErrForeignKey "task_deps"), s)
        else (Ok tt, set_deps (λ d, {[(planID, taskID, dependsOn)]} ∪ d) s)
    | _ => (Err ErrWouldCycle, s)
    end.
End Edges.

(** ** Plan graphs *)

Record TaskInputSpec := mkTaskInputSpec { ti_path : string; ti_sha256 : string }.
Record TaskOutputSpec := mkTaskOutputSpec { to_path : string; to_mode : string }.

Record GraphTaskSpec := mkGraphTaskSpec {
  g_task : CreateTaskOpts;
  g_depends_on : list string;
  g_group_path : string;
  g_team_path : string;
  g_metadata_json : string;
  g_inputs : list TaskInputSpec;
  g_outputs : list TaskOutputSpec }.

Definition putTaskMetadataOn (planID taskID groupPath teamPath metadataJSON : string) : Store unit :=
  if decide (groupPath = "") then sfail (ErrArguments "group path required")
  else λ s,
    if has (planID, taskID) (db_metadata s) then (Err ErrDuplicateTaskMetadata, s)
    else if negb (has (planID, taskID) (db_tasks s)) then (Err (ErrForeignKey "task_metadata"), s)
    else (Ok tt, set_metadata <[(planID, taskID) :=
           mkTaskMeta groupPath teamPath metadataJSON None None None None None None None None None None None]> s).

(** [spec := task.CreateTaskOpts; spec.PlanID = planID]. *)
Definition with_plan_id (planID : string) (o : CreateTaskOpts) : CreateTaskOpts :=
  mkCreateTaskOpts planID (o_id o) (o_description o) (o_parallel_group o) (o_sequence_ordinal o)
    (o_acceptance o) (o_parent o) (o_requires_approval o).

Definition write_graph_node (planID : string) (task : GraphTaskSpec) : Store unit :=
  let spec := with_plan_id planID (g_task task) in
  do! createTaskOn spec in
  do! (if decide (g_group_path task = "") then sret tt
       else putTaskMetadataOn planID (o_id spec) (g_group_path task) (g_team_path task)
              (if decide (g_metadata_json task = "") then "{}" else g_metadata_json task)) in
  do! sfor (g_inputs task) (λ i, reserveTaskInputOn planID (o_id spec) (ti_path i) (ti_sha256 i)) in
  sfor (g_outputs task) (λ o, reserveTaskOutputOn planID (o_id spec) (to_path o) (to_mode o)).

Definition writeGraphTasksOn `{SqlEngine} (planID : string) (tasks : list GraphTaskSpec) : Store unit :=
  do! sfor tasks (write_graph_node planID) in
  sfor tasks (λ task, sfor (g_depends_on task) (addDepOn planID (o_id (g_task task)))).

Definition CreatePlanGraph `{SqlEngine} (uuid : string) (o : CreatePlanOpts)
    (tasks : list GraphTaskSpec) (activate : bool) : Store string :=
  atomically (
    let! planID := createPlanOn uuid o in
    do! writeGraphTasksOn planID tasks in
    do! (if activate then setPlanStatusOn planID PlanStatusActive else sret tt) in
    sret planID).

Definition MaterializePlanGraph `{SqlEngine} (planID : string) (tasks : list GraphTaskSpec) : Store unit :=
  atomically (writeGraphTasksOn planID tasks).

(** ** Plan deletion

    The row and everything that cascades from it: tasks, edges, metadata,
    reservations and hook verdicts of the plan go; a worker that was on one of
    its tasks keeps running with both columns NULL. Events have no reference to
    the plan and are deleted explicitly. *)

Definition unassign_plan (planID : string) (tasks : gmap (string * string) Task) (w : Worker) : Worker :=
  match w_plan w, w_task w with
  | Some p, Some i =>
      if bool_decide (p = planID) && has (p, i) tasks
      then mkWorker (w_session w) (w_provider w) (w_model w) (w_native_fanout w) (w_pid w) (w_pid_start w)
             None None (w_started_at w) (w_heartbeat w) (w_status w)
      else w
  | _, _ => w
  end.

Definition cascade_plan (planID : string) (s : DB) : DB :=
  set_workers (fmap (unassign_plan planID (db_tasks s)))
    (set_hooks (filter (λ kv, kv.1.1.2 ≠ planID))
    (set_outputs (filter (λ o, o.1.1 ≠ planID))
    (set_inputs (filter (λ kv, kv.1.1.1 ≠ planID))
    (set_metadata (filter (λ kv, kv.1.1 ≠ planID))
    (set_deps (filter (λ d, d.1.1 ≠ planID))
    (set_tasks (filter (λ kv, kv.1.1 ≠ planID))
    (set_plans (delete planID) s))))))).

Definition DeletePlan (planID : string) : Store unit :=
  atomically (
    do! smod (set_events (filter (λ e, e_plan e ≠ Some planID))) in
    let! exists_ := sget (λ s, has planID (db_plans s)) in
    if negb exists_ then sfail ErrPlanNotFound
    else smod (cascade_plan planID)).

(** ** Ready partitions *)

Record declaredBinding := mkDeclaredBinding {
  b_mode : string; b_alias : string; b_provider : string; b_model : string;
  b_effort : string; b_calibration : string; b_repetitions : Z; b_fixture : string }.

#[export] Instance declaredBinding_eq_dec : EqDecision declaredBinding.
Proof. solve_decision. Defined.

Definition zero_binding : declaredBinding := mkDeclaredBinding "" "" "" "" "" "" 0 "".

(** [encoding/json] on the one sub-object the store reads: decoding a metadata
    document yields its binding, if any ([None] for an undecodable document);
    encoding a binding is injective and never empty. *)
Class BindingCodec := {
  unmarshal_binding : string → option (option declaredBinding);
  marshal_binding : declaredBinding → string;
  marshal_binding_inj : ∀ a b, marshal_binding a = marshal_binding b → a = b;
  marshal_binding_nonempty : ∀ a, marshal_binding a ≠ ""
}.

Record ReadyPartition := mkReadyPartition {
  rp_group_path : string;
  rp_binding_key : string;
  rp_tasks : list TaskRow }.

Section Partitions.
Context `{SqlEngine} `{BindingCodec}.

Definition declaredBindingKey (metadataJSON : string) : string :=
  if decide (metadataJSON = "") then ""
  else match unmarshal_binding metadataJSON with
       | Some (Some b) => if decide (b = zero_binding) then "" else marshal_binding b
       | _ => ""
       end.

(** [COALESCE(m.group_path,'')] and [COALESCE(m.metadata_json,'')] of the LEFT JOIN. *)
Definition row_group (s : DB) (k : string * string) : string :=
  match db_metadata s !! k with Some m => m_group_path m | None => "" end.
Definition row_metadata (s : DB) (k : string * string) : string :=
  match db_metadata s !! k with Some m => m_metadata_json m | None => "" end.

(** The statuses the walk surfaces: claimable, or a fail-closed gate. *)
Definition dispatchable (st : TaskStatus) : bool :=
  match st with
  | TaskStatusPending | TaskStatusReady | TaskStatusBlockedCapability | TaskStatusBlockedInput => true
  | _ => false
  end.

Definition partition_rows (s : DB) (planID : string) : list TaskRow :=
  order_by (λ r, KText (row_group s r.1) :: nulls_last (t_sequence_ordinal r.2) ++ [KInt (t_created_at r.2)])
    (task_rows s (λ r, bool_decide (r.1.1 = planID) && dispatchable (t_status r.2) &&
                       deps_satisfied s planID r.1.2)).

(** [key := groupPath + "\x00" + binding]. *)
Definition partition_key (groupPath binding : string) : string :=
  groupPath +:+ String Ascii.zero binding.

(** [parts[idx].Tasks = append(parts[idx].Tasks, t)], creating the partition
    when its key is new. *)
Fixpoint add_to_partition (groupPath binding : string) (row : TaskRow)
    (parts : list ReadyPartition) : list ReadyPartition :=
  match parts with
  | [] => [mkReadyPartition groupPath binding [row]]
  | p :: parts' =>
      if decide (partition_key (rp_group_path p) (rp_binding_key p) = partition_key groupPath binding)
      then mkReadyPartition (rp_group_path p) (rp_binding_key p) (rp_tasks p ++ [row]) :: parts'
      else p :: add_to_partition groupPath binding row parts'
  end.

Definition ReadyPartitions (planID : string) (s : DB) : list ReadyPartition :=
  foldl (λ parts row,
           add_to_partition (row_group s row.1) (declaredBindingKey (row_metadata s row.1)) row parts)
    [] (partition_rows s planID).
End Partitions.
