(* ===== verification/StoreMeta.v ===== *)
(** * Execution metadata and hook verdicts: [task_metadata.go], [hook_verifications.go] *)
From S2P Require Import Prelude GoLib StoreModel StoreSql StoreTasks StoreGraph.

(** ** Row rewrites *)

Definition bind_execution (alias provider model effort domain session : string) (m : TaskMeta) : TaskMeta :=
  mkTaskMeta (m_group_path m) (m_team_path m) (m_metadata_json m)
    (Some alias) (Some provider) (Some model) (Some effort) (Some domain) (Some session)
    (if sql_eq (m_assigned_session m) session then m_provider_session m else None)
    (m_calibration m) (m_capability_set m) (m_completion_evidence m) None.
Definition bind_calibration (id caps : string) (m : TaskMeta) : TaskMeta :=
  mkTaskMeta (m_group_path m) (m_team_path m) (m_metadata_json m)
    (m_assigned_alias m) (m_assigned_provider m) (m_assigned_model m) (m_assigned_effort m)
    (m_assigned_domain m) (m_assigned_session m) (m_provider_session m)
    (Some id) (Some caps) (m_completion_evidence m) (m_blocked_reason m).
Definition bind_provider_session (id : option string) (m : TaskMeta) : TaskMeta :=
  mkTaskMeta (m_group_path m) (m_team_path m) (m_metadata_json m)
    (m_assigned_alias m) (m_assigned_provider m) (m_assigned_model m) (m_assigned_effort m)
    (m_assigned_domain m) (m_assigned_session m) id
    (m_calibration m) (m_capability_set m) (m_completion_evidence m) (m_blocked_reason m).
Definition with_blocked_reason (reason : string) (m : TaskMeta) : TaskMeta :=
  mkTaskMeta (m_group_path m) (m_team_path m) (m_metadata_json m)
    (m_assigned_alias m) (m_assigned_provider m) (m_assigned_model m) (m_assigned_effort m)
    (m_assigned_domain m) (m_assigned_session m) (m_provider_session m)
    (m_calibration m) (m_capability_set m) (m_completion_evidence m) (Some reason).

(** [UPDATE task_metadata SET ... WHERE plan_id = ? AND task_id = ? AND ...]. *)
Definition update_metadata (k : string * string) (where_ : DB → TaskMeta → bool)
    (set_ : TaskMeta → TaskMeta) : Store Z :=
  λ s, match db_metadata s !! k with
       | Some m => if where_ s m then (Ok 1%Z, set_metadata <[k := set_ m]> s) else (Ok 0%Z, s)
       | None => (Ok 0%Z, s)
       end.

Definition GetTaskExecutionMetadata (planID taskID : string) : Store TaskMeta :=
  λ s, match db_metadata s !! (planID, taskID) with
       | Some m => (Ok m, s)
       | None => (Err ErrTaskMetadataMissing, s)
       end.

(** ** Calibration *)

Definition BindTaskCalibration (planID taskID calibrationID capabilitySetJSON : string) : Store unit :=
  if bool_decide (calibrationID = "" ∨ capabilitySetJSON = "")
  then sfail (ErrArguments "calibration id and capability set required")
  else
    let unbound (m : TaskMeta) := bool_decide (coalesce (m_calibration m) = "") in
    let! fk := sget (λ s,
      match db_metadata s !! (planID, taskID) with
      | Some m => negb (unbound m) || bool_decide (calibrationID ∈ db_calibrations s)
      | None => true
      end) in
    if negb fk then sfail (ErrForeignKey "task_metadata")
    else
      let! count := update_metadata (planID, taskID) (λ _, unbound) (bind_calibration calibrationID capabilitySetJSON) in
      if (count =? 1)%Z then sret tt
      else
        let! existing := sget (λ s, db_metadata s !! (planID, taskID)) in
        match existing with
        | None => sfail ErrTaskMetadataMissing
        | Some m =>
            if bool_decide (coalesce (m_calibration m) = calibrationID) &&
               bool_decide (coalesce (m_capability_set m) = capabilitySetJSON)
            then sret tt else sfail ErrCalibrationBound
        end.

(** ** Provenance *)

(** [EXISTS (SELECT 1 FROM tasks WHERE ... status = 'running' AND claimed_by_session = ?)]. *)
Definition owns_task (s : DB) (planID taskID sessionID : string) : bool :=
  match db_tasks s !! (planID, taskID) with
  | Some t => owned_running sessionID t
  | None => false
  end.

Definition same_execution (alias provider model effort domain : string) (m : TaskMeta) : bool :=
  bool_decide (coalesce (m_assigned_alias m) = alias) &&
  bool_decide (coalesce (m_assigned_provider m) = provider) &&
  bool_decide (coalesce (m_assigned_model m) = model) &&
  bool_decide (coalesce (m_assigned_effort m) = effort) &&
  bool_decide (coalesce (m_assigned_domain m) = domain).

Definition RecordTaskExecution (planID taskID alias provider model effort domain sessionID : string) : Store unit :=
  atomically (
    let! count := update_metadata (planID, taskID)
      (λ s m, owns_task s planID taskID sessionID &&
              (negb (bool_decide (coalesce (m_assigned_session m) = sessionID)) ||
               (same_execution alias provider model effort domain m &&
                bool_decide (coalesce (m_assigned_session m) = sessionID))))
      (bind_execution alias provider model effort domain sessionID) in
    if (count =? 0)%Z then
      let! owner := sget (λ s,
        match db_tasks s !! (planID, taskID) with
        | Some t => if bool_decide (t_status t = TaskStatusRunning)
                    then Some (coalesce (t_claimed_by_session t)) else None
        | None => None
        end) in
      if negb (bool_decide (owner = Some sessionID)) then sfail ErrTaskNotOwnedRunning
      else
        let! exists_ := sget (λ s, has (planID, taskID) (db_metadata s)) in
        if negb exists_ then sfail ErrTaskMetadataMissing else sfail ErrTaskExecutionConflict
    else sret tt).

Definition RecordTaskProviderSession (planID taskID claimingSessionID providerSessionID : string) : Store unit :=
  let stored := nullIfEmpty providerSessionID in
  let! count := update_metadata (planID, taskID)
    (λ s m, sql_eq (m_assigned_session m) claimingSessionID &&
            match m_provider_session m with
            | None => true
            | Some _ => match stored with Some v => sql_eq (m_provider_session m) v | None => false end
            end &&
            owns_task s planID taskID claimingSessionID)
    (bind_provider_session stored) in
  if (count =? 0)%Z then
    let! row := sget (λ s,
      match db_tasks s !! (planID, taskID), db_metadata s !! (planID, taskID) with
      | Some t, Some m =>
          if bool_decide (t_status t = TaskStatusRunning)
          then Some (coalesce (t_claimed_by_session t), coalesce (m_assigned_session m), coalesce (m_provider_session m))
          else None
      | _, _ => None
      end) in
    match row with
    | Some (owner, assigned, current) =>
        if negb (bool_decide (owner = claimingSessionID)) || negb (bool_decide (assigned = claimingSessionID))
        then sfail ErrTaskNotOwnedRunning
        else if negb (bool_decide (current = providerSessionID)) then sfail ErrTaskProviderSessionConflict
        else sret tt
    | None => sfail ErrTaskNotOwnedRunning
    end
  else sret tt.

(** ** Fail-closed pre-dispatch blocks *)

Definition service_event (planID taskID kind : string) (p : Payload) : Event :=
  mkEvent None (Some planID) (Some taskID) kind (Some "service") None p.

Definition markMetadataBlocked (planID taskID : string) (status : TaskStatus) (reason : string) : Store bool :=
  atomically (
    let! prior := sget (λ s, t_status <$> db_tasks s !! (planID, taskID)) in
    match prior with
    | None => sfail ErrTaskNotRunning
    | Some prior =>
        let transitioned := negb (bool_decide (prior = status)) in
        let! count := update_task (planID, taskID) (λ t, dispatchable (t_status t)) (with_status status) in
        if (count =? 0)%Z then sfail ErrTaskNotRunning
        else
          let! count := update_metadata (planID, taskID) (λ _ _, true) (with_blocked_reason reason) in
          if (count =? 0)%Z then sfail ErrTaskMetadataMissing
          else
            do! (if transitioned
                 then insert_event (service_event planID taskID ("task." +:+ task_status_text status)
                                      (PayloadStruct (reason_payload reason)))
                 else sret tt) in
            sret transitioned
    end).

Definition MarkBlockedCapability (planID taskID reason : string) : Store bool :=
  markMetadataBlocked planID taskID TaskStatusBlockedCapability reason.
Definition MarkBlockedInput (planID taskID reason : string) : Store bool :=
  markMetadataBlocked planID taskID TaskStatusBlockedInput reason.

Definition ClearTaskBlock (planID taskID : string) (blocked : TaskStatus) : Store bool :=
  if bool_decide (blocked ≠ TaskStatusBlockedCapability) && bool_decide (blocked ≠ TaskStatusBlockedInput)
  then sfail ErrNotClearable
  else atomically (
    let! count := update_task (planID, taskID) (λ t, bool_decide (t_status t = blocked)) (with_status TaskStatusPending) in
    if (count =? 0)%Z then sret false
    else
      do! update_metadata (planID, taskID) (λ _ _, true) (with_blocked_reason "") in
      sret true).

(** ** Hook verdicts *)

(** The live-owner check of both writes. *)
Definition hook_owner (s : DB) (sessionID planID taskID : string) : bool :=
  owns_task s planID taskID sessionID &&
  match db_metadata s !! (planID, taskID) with
  | Some m => sql_eq (m_assigned_session m) sessionID
  | None => false
  end.

Definition SetHookVerificationPending (sessionID planID taskID : string) : Store bool := λ s,
  if hook_owner s sessionID planID taskID
  then if has sessionID (db_sessions s)
       then (Ok true, set_hooks <[(sessionID, planID, taskID) := (HookVerificationPending, db_clock s)]> s)
       else (Err (ErrForeignKey "hook_verifications"), s)
  else (Ok false, s).

Definition SetHookVerificationResult (sessionID planID taskID : string) (passed : bool) : Store unit :=
  let state := if passed then HookVerificationPassed else HookVerificationFailed in
  smod (λ s,
    if hook_owner s sessionID planID taskID
    then set_hooks (alter (λ _, (state, db_clock s)) (sessionID, planID, taskID)) s
    else s).

Definition InvalidateHookVerifications (sessionID : string) : Store unit :=
  smod (set_hooks (filter (λ kv, kv.1.1.1 ≠ sessionID))).

Definition ClearHookVerification (sessionID planID taskID : string) : Store unit :=
  smod (set_hooks (delete (sessionID, planID, taskID))).

Definition HookVerificationStates (sessionID : string) (s : DB) : gmap (string * string) HookState :=
  list_to_map ((λ kv, ((kv.1.1.2, kv.1.2), kv.2.1)) <$>
    filter (λ kv, kv.1.1.1 = sessionID) (map_to_list (db_hooks s))).

(** [HookTask], and [RunningHookTasks]: the running tasks a session claimed and
    executes. *)
Record HookTask := mkHookTask { ht_plan : string; ht_task : string; ht_worker : string; ht_provider : string }.

Definition hook_row (s : DB) (sessionID : string) (r : TaskRow) : bool :=
  hook_owner s sessionID r.1.1 r.1.2.
Definition hook_task (s : DB) (r : TaskRow) : HookTask :=
  mkHookTask r.1.1 r.1.2 (coalesce (t_claimed_by_worker r.2)) (coalesce (db_metadata s !! r.1 ≫= m_assigned_provider)).
Definition RunningHookTasks `{SqlEngine} (sessionID : string) : Store (list HookTask) :=
  if decide (sessionID = "") then sfail (ErrArguments "hook session id required")
  else sget (λ s, hook_task s <$> order_by (λ r, [KText r.1.1; KText r.1.2]) (task_rows s (hook_row s sessionID))).
