(* ===== verification/StoreEvents.v ===== *)
(** * The event log: [internal/store/events.go], and the live tail of
    [internal/supervisor/supervisor.go]

    The events table with its AUTOINCREMENT ids and timestamps, the rows the
    rest of the store appends, the project-scoped queries over it, and the loop
    that streams them to an attached client. *)
From stdpp Require Import sorting.
From S2P Require Import Prelude GoLib StoreModel StoreSql.

(** ** The table *)

Record LogRow := mkLogRow { lr_id : Z; lr_event : Event; lr_occurred : Z }.

(** [lg_seq] is the last id handed out; [lg_plans] maps a plan to its project. *)
Record EventLog := mkEventLog {
  lg_seq : Z;
  lg_rows : list LogRow;
  lg_plans : gmap string string;
  lg_projects : gset string }.

(** An [INSERT INTO events]. *)
Definition append_event (e : Event) (now : Z) (l : EventLog) : EventLog :=
  mkEventLog (lg_seq l + 1) (lg_rows l ++ [mkLogRow (lg_seq l + 1) e now]) (lg_plans l) (lg_projects l).

(** [DeletePlan]: its rows and its events. *)
Definition drop_plan (plan : string) (l : EventLog) : EventLog :=
  mkEventLog (lg_seq l) (filter (λ r, e_plan (lr_event r) ≠ Some plan) (lg_rows l))
    (delete plan (lg_plans l)) (lg_projects l).

Definition add_plan (plan project : string) (l : EventLog) : EventLog :=
  mkEventLog (lg_seq l) (lg_rows l) (<[plan := project]> (lg_plans l)) (lg_projects l).

(** ** Emit *)

Record EmitOpts := mkEmitOpts {
  em_project : string; em_plan : string; em_task : string; em_kind : string;
  em_stream : string; em_actor : string; em_payload : string }.

(** [encoding/json] on one text: validity, and the marshalling of
    [{"raw": ...}], which is valid JSON. *)
Class JsonText := {
  json_valid : string → bool;
  wrap_raw : string → string;
  wrap_raw_valid : ∀ s, json_valid (wrap_raw s) = true;
  empty_object_valid : json_valid "{}" = true }.

Definition jsonOrEmptyObject `{JsonText} (raw : string) : string :=
  if decide (raw = "") then "{}" else if json_valid raw then raw else wrap_raw raw.

Definition Emit `{JsonText} (o : EmitOpts) (now : Z) : SM EventLog StoreError unit := λ l,
  if decide (em_kind o = "") then (Err (ErrArguments "kind"), l)
  else if match nullIfEmpty (em_project o) with None => true | Some p => bool_decide (p ∈ lg_projects l) end then
    (Ok tt, append_event (mkEvent (nullIfEmpty (em_project o)) (nullIfEmpty (em_plan o)) (nullIfEmpty (em_task o))
              (em_kind o) (nullIfEmpty (em_stream o)) (nullIfEmpty (em_actor o))
              (PayloadJSON (jsonOrEmptyObject (em_payload o)))) now l)
  else (Err (ErrForeignKey "events"), l).

(** ** Queries *)

(** [eventProjectScope]. *)
Definition in_scope (l : EventLog) (project : string) (e : Event) : bool :=
  match e_project e with
  | Some p => bool_decide (p = project)
  | None => match e_plan e with Some plan => sql_eq (lg_plans l !! plan) project | None => false end
  end.

(** A row as a query returns it. *)
Record EventView := mkEventView {
  ev_id : Z; ev_project : string; ev_plan : string; ev_task : string; ev_kind : string;
  ev_stream : string; ev_actor : string; ev_payload : Payload; ev_occurred : Z }.

Definition view_row (r : LogRow) (plan task : string) : EventView :=
  let e := lr_event r in
  mkEventView (lr_id r) (coalesce (e_project e)) plan task (e_kind e)
    (coalesce (e_stream e)) (coalesce (e_actor e)) (e_payload e) (lr_occurred r).

(** The LEFT JOIN of [EventsAfter]: the identifiers of a plan of another project
    are blanked. *)
Definition tail_view (l : EventLog) (project : string) (r : LogRow) : EventView :=
  match e_plan (lr_event r) with
  | Some plan =>
      if sql_eq (lg_plans l !! plan) project then view_row r plan (coalesce (e_task (lr_event r)))
      else view_row r "" ""
  | None => view_row r "" ""
  end.

Definition scoped_rows (l : EventLog) (project : string) (after : Z) : list LogRow :=
  filter (λ r, (after < lr_id r)%Z ∧ in_scope l project (lr_event r) = true) (lg_rows l).

Definition page_size (limit default_ : Z) : nat := Z.to_nat (if (limit <=? 0)%Z then default_ else limit).

Section Queries.
Context `{SqlEngine}.

Definition EventsAfter (project : string) (afterID limit : Z) (l : EventLog) : list EventView :=
  tail_view l project <$>
  take (page_size limit 256) (order_by (λ r, [KInt (lr_id r)]) (scoped_rows l project afterID)).

Definition newest_first (r : LogRow) : list Cell := [KInt (- lr_occurred r); KInt (- lr_id r)].

Definition ListProjectEvents (project : string) (limit : Z) (l : EventLog) : list EventView :=
  (λ r, view_row r (coalesce (e_plan (lr_event r))) (coalesce (e_task (lr_event r)))) <$>
  take (page_size limit 20)
    (order_by newest_first (filter (λ r, in_scope l project (lr_event r) = true) (lg_rows l))).

Definition ListTaskEvents (planID taskID : string) (limit : Z) (l : EventLog) : list EventView :=
  (λ r, view_row r planID taskID) <$>
  take (page_size limit 20)
    (order_by newest_first
       (filter (λ r, sql_eq (e_plan (lr_event r)) planID && sql_eq (e_task (lr_event r)) taskID = true) (lg_rows l))).
End Queries.

Definition MaxEventID (project : string) (l : EventLog) : Z :=
  foldr Z.max 0%Z (lr_id <$> filter (λ r, in_scope l project (lr_event r) = true) (lg_rows l)).

(** ** The live tail *)

Definition attachTailBatch : Z := 256.

(** What the loop of [HandleAttach] holds: the cursor, the frames the client was
    sent, and whether the client is still there. *)
Record Tail := mkTail { tl_cursor : Z; tl_sent : list EventView; tl_open : bool }.

Section Tail.
Context `{SqlEngine} (project : string).
(** [json.Marshal] of a frame; [emit] to the client, which may be gone. *)
Context (marshals : EventView → bool) (emit : EventView → bool).

(** The inner [for ... range events]. *)
Fixpoint deliver (events : list EventView) (t : Tail) : Tail :=
  match events with
  | [] => t
  | ev :: events' =>
      if marshals ev then
        if emit ev then deliver events' (mkTail (ev_id ev) (tl_sent t ++ [ev]) true)
        else mkTail (tl_cursor t) (tl_sent t) false
      else deliver events' (mkTail (ev_id ev) (tl_sent t) true)
  end.

(** One page: the next read and its delivery; the second component says whether
    the drain goes on. *)
Definition tail_page (l : EventLog) (t : Tail) : Tail * bool :=
  let events := EventsAfter project (tl_cursor t) attachTailBatch l in
  match events with
  | [] => (t, false)
  | _ => let t' := deliver events t in
         (t', tl_open t' && negb (length events <? Z.to_nat attachTailBatch))
  end.

(** The drain loop on a log nobody writes to meanwhile; [None]: out of fuel. *)
Fixpoint drain_pages (fuel : nat) (l : EventLog) (t : Tail) : option Tail :=
  match fuel with
  | 0 => None
  | S n => let '(t', again) := tail_page l t in if again then drain_pages n l t' else Some t'
  end.

(** [HandleAttach] among the writers: between any two reads the log may grow,
    lose a plan or gain one. A transient store error is a read that did not
    happen. *)
Inductive tail_step : EventLog * Tail → EventLog * Tail → Prop :=
| tail_read l t : tl_open t = true → tail_step (l, t) (l, (tail_page l t).1)
| tail_append l t e now : tail_step (l, t) (append_event e now l, t)
| tail_drop l t plan : tail_step (l, t) (drop_plan plan l, t)
| tail_plan l t plan p :
    lg_plans l !! plan = None → (∀ r, r ∈ lg_rows l → e_plan (lr_event r) ≠ Some plan) →
    tail_step (l, t) (add_plan plan p l, t).
End Tail.

Definition tail_from (afterID : Z) : Tail := mkTail afterID [] true.

(** Ids ascend and stay within the sequence. *)
Definition id_lt (r1 r2 : LogRow) : Prop := (lr_id r1 < lr_id r2)%Z.

Definition log_ok (l : EventLog) : Prop :=
  StronglySorted id_lt (lg_rows l) ∧ Forall (λ r, (0 < lr_id r ≤ lg_seq l)%Z) (lg_rows l) ∧ (0 ≤ lg_seq l)%Z.
