(* ===== verification/StoreEventsProps.v ===== *)
(** * Properties of the event log and its live tail *)
From stdpp Require Import sorting.
From S2P Require Import Prelude GoLib StoreModel StoreSql StoreEvents.

(** ** Sorted rows *)

Lemma StronglySorted_filter {A} (R : relation A) (P : A → Prop) `{∀ x, Decision (P x)} l :
  StronglySorted R l → StronglySorted R (filter P l).
Proof.
  induction 1 as [|a l Hl IH Ha]; [constructor|]. rewrite filter_cons. case_decide; [|done].
  constructor; [done|]. rewrite Forall_forall in *. intros x [_ Hx]%list_elem_of_filter. auto.
Qed.

Lemma ids_unique l r1 r2 : StronglySorted id_lt l → r1 ∈ l → r2 ∈ l → lr_id r1 = lr_id r2 → r1 = r2.
Proof.
  unfold id_lt. induction 1 as [|a l Hl IH Ha]; [by intros ?%elem_of_nil|]. rewrite Forall_forall in Ha.
  intros [->|H1]%elem_of_cons [->|H2]%elem_of_cons Heq; auto.
  - specialize (Ha _ H2). lia.
  - specialize (Ha _ H1). lia.
Qed.

Section Order.
Context `{SqlEngine}.

(** Rows already in id order stay so. *)
Lemma order_by_ids l : StronglySorted id_lt l → order_by (λ r, [KInt (lr_id r)]) l = l.
Proof.
  intros Hl. apply (StronglySorted_unique_strong (key_order (λ r, [KInt (lr_id r)]))).
  - intros r1 r2 H1 H2. rewrite order_by_perm in H1. unfold key_order. simpl. intros Hab Hba.
    apply (ids_unique l); [done..|].
    repeat case_decide; simplify_eq; try done. apply Is_true_true, Z.leb_le in Hab, Hba. lia.
  - apply order_by_sorted.
  - clear -Hl. induction Hl as [|a l Hl IH Ha]; constructor; [done|].
    eapply Forall_impl; [exact Ha|]. unfold id_lt, key_order. simpl. intros b Hb.
    case_decide; [done|]. apply Is_true_true, Z.leb_le. lia.
  - apply order_by_perm.
Qed.

Context (project : string).

Lemma scoped_sorted l after : log_ok l → StronglySorted id_lt (scoped_rows l project after).
Proof. intros [Hl _]. by apply StronglySorted_filter. Qed.

Lemma EventsAfter_rows l after limit :
  log_ok l →
  EventsAfter project after limit l = tail_view l project <$> take (page_size limit 256) (scoped_rows l project after).
Proof. intros Hl. unfold EventsAfter. by rewrite order_by_ids by by apply scoped_sorted. Qed.

Lemma view_row_id r p t : ev_id (view_row r p t) = lr_id r.
Proof. done. Qed.

Lemma tail_view_id l r : ev_id (tail_view l project r) = lr_id r.
Proof. unfold tail_view. by repeat case_match. Qed.

(** What the view of a row depends on. *)
Lemma tail_view_plans l l' r :
  (∀ plan, e_plan (lr_event r) = Some plan → lg_plans l !! plan = lg_plans l' !! plan) →
  tail_view l project r = tail_view l' project r ∧
  in_scope l project (lr_event r) = in_scope l' project (lr_event r).
Proof.
  intros Hp. unfold tail_view, in_scope. destruct (e_plan (lr_event r)) as [plan|]; [|done].
  by rewrite (Hp plan eq_refl).
Qed.

(** The rows past the last row of a page are the rest. *)
Definition last_id (after : Z) (rows : list LogRow) : Z := default after (lr_id <$> last rows).

Lemma scoped_past l after pre rest :
  log_ok l → scoped_rows l project after = pre ++ rest →
  scoped_rows l project (last_id after pre) = rest ∧ (after ≤ last_id after pre)%Z ∧
  (∀ r, r ∈ scoped_rows l project after → (lr_id r ≤ last_id after pre)%Z → r ∈ pre).
Proof.
  intros Hl Hs. pose proof (scoped_sorted l after Hl) as Hsort. rewrite Hs in Hsort.
  assert (∀ r, r ∈ pre ++ rest → (after < lr_id r)%Z) as Hafter.
  { intros r. rewrite <-Hs. unfold scoped_rows. rewrite list_elem_of_filter. naive_solver. }
  destruct (last pre) as [x|] eqn:Hx; unfold last_id; rewrite Hx; simpl.
  2: { apply last_None in Hx as ->. split_and!; [done|lia|]. rewrite Hs. simpl. intros r Hr Hle.
       specialize (Hafter r Hr). lia. }
  apply last_Some in Hx as [pre' ->].
  assert (∀ r, r ∈ pre' ++ [x] → (lr_id r ≤ lr_id x)%Z) as Hpre.
  { intros r [Hr|Hr]%elem_of_app; [|set_solver by lia].
    apply StronglySorted_app in Hsort as (_ & Hsort & _).
    apply Z.lt_le_incl. by eapply (StronglySorted_app_1_elem_of _ _ _ r x Hsort); [|set_solver]. }
  assert (∀ r, r ∈ rest → (lr_id x < lr_id r)%Z) as Hrest.
  { intros r Hr. by eapply (StronglySorted_app_1_elem_of _ _ _ x r Hsort); [set_solver|]. }
  assert (after < lr_id x)%Z as Hax by (apply Hafter; set_solver).
  split_and!; [|lia|].
  - assert (scoped_rows l project (lr_id x) = filter (λ r, (lr_id x < lr_id r)%Z) (scoped_rows l project after)) as ->.
    { unfold scoped_rows. rewrite list_filter_filter. apply list_filter_iff. intros r. split; [|tauto].
      intros [? ?]. split; [done|split; [lia|done]]. }
    rewrite Hs, filter_app. assert (filter (λ r, (lr_id x < lr_id r)%Z) (pre' ++ [x]) = []) as ->.
    { apply filter_none. intros r Hr. specialize (Hpre r Hr). lia. }
    simpl. by apply filter_all.
  - rewrite Hs. intros r [Hr|Hr]%elem_of_app Hle; [done|]. specialize (Hrest r Hr). lia.
Qed.

(** ** One page *)

Context (marshals emit : EventView → bool).

(** A delivery consumes a prefix of the page, and all of it unless the client
    is gone; what it sends is what marshals. *)
Lemma deliver_rows l rows t t' :
  tl_open t = true → deliver marshals emit (tail_view l project <$> rows) t = t' →
  ∃ pre rest, rows = pre ++ rest ∧
    tl_cursor t' = last_id (tl_cursor t) pre ∧
    tl_sent t' = tl_sent t ++ filter (λ ev, marshals ev = true) (tail_view l project <$> pre) ∧
    ((∀ ev, emit ev = true) → rest = [] ∧ tl_open t' = true).
Proof.
  revert t. induction rows as [|r rows IH]; intros t Ht.
  { intros <-. exists [], []. simpl. by rewrite app_nil_r. }
  rewrite fmap_cons. cbn [deliver]. set (ev := tail_view l project r).
  assert (∀ pre c, last_id c (r :: pre) = last_id (ev_id ev) pre) as Hlast.
  { intros pre c. unfold last_id. rewrite last_cons. unfold ev. rewrite tail_view_id. by destruct (last pre). }
  destruct (marshals ev) eqn:Hm; [destruct (emit ev) eqn:He|]; intros Hd.
  - edestruct IH as (pre & rest & -> & Hc & Hs & Hr); [|exact Hd|]; [done|].
    exists (r :: pre), rest. rewrite Hc, Hs, Hlast. split_and!; try done.
    rewrite fmap_cons, filter_cons_True by done. simpl. by rewrite <-app_assoc.
  - subst t'. exists [], (r :: rows). simpl. rewrite app_nil_r. split_and!; try done; intros Hall; by rewrite Hall in He.
  - edestruct IH as (pre & rest & -> & Hc & Hs & Hr); [|exact Hd|]; [done|].
    exists (r :: pre), rest. rewrite Hc, Hs, Hlast. split_and!; try done.
    rewrite fmap_cons, filter_cons_False by (fold ev; congruence). done.
Qed.

Lemma tail_page_rows l t :
  log_ok l → tl_open t = true →
  ∃ pre rest, scoped_rows l project (tl_cursor t) = pre ++ rest ∧
    let t' := (tail_page project marshals emit l t).1 in
    tl_cursor t' = last_id (tl_cursor t) pre ∧
    tl_sent t' = tl_sent t ++ filter (λ ev, marshals ev = true) (tail_view l project <$> pre) ∧
    ((∀ ev, emit ev = true) → tl_open t' = true ∧
      if (tail_page project marshals emit l t).2 then pre ≠ [] else rest = []).
Proof.
  intros Hl Ht. unfold tail_page. rewrite EventsAfter_rows by done.
  set (n := page_size attachTailBatch 256). set (rows := scoped_rows l project (tl_cursor t)).
  destruct (deliver_rows l (take n rows) t _ Ht eq_refl) as (pre & rest & Hrows & Hc & Hs & Hr).
  assert (rows = pre ++ rest ++ drop n rows) as Hsplit by by rewrite app_assoc, <-Hrows, take_drop.
  destruct (tail_view l project <$> take n rows) as [|ev evs] eqn:He.
  - apply fmap_nil_inv in He. exists [], rows. simpl. rewrite app_nil_r. split_and!; try done. intros _. split; [done|].
    destruct rows; [done|]. by destruct n eqn:Hn.
  - exists pre, (rest ++ drop n rows). rewrite <-He in Hc, Hs, Hr |- *. split_and!; try done.
    intros Hall. destruct (Hr Hall) as [-> Hop]. rewrite app_nil_r in Hrows. cbn [fst snd].
    split; [done|]. rewrite Hop, length_fmap. simpl. subst pre.
    assert (take n rows ≠ []) as Hne by (intros Hn; rewrite Hn in He; done).
    rewrite length_take. change (Z.to_nat attachTailBatch) with n. destruct (Nat.ltb_spec (min n (length rows)) n); simpl; [|exact Hne].
    apply drop_ge. lia.
Qed.
End Order.

(** ** The log under its writers *)

Lemma log_ok_append e now l : log_ok l → log_ok (append_event e now l).
Proof.
  intros (Hs & Hr & H0). split_and!; simpl; [|apply Forall_app; split|lia].
  - apply StronglySorted_app. split_and!; [|done|by repeat constructor].
    intros r1 r2 H1 ->%list_elem_of_singleton. unfold id_lt. simpl. rewrite Forall_forall in Hr.
    specialize (Hr _ H1). simpl in Hr. lia.
  - eapply Forall_impl; [exact Hr|]. simpl. lia.
  - constructor; [simpl; lia|constructor].
Qed.

Lemma log_ok_drop plan l : log_ok l → log_ok (drop_plan plan l).
Proof.
  intros (Hs & Hr & H0). split_and!; simpl; [by apply StronglySorted_filter| |done].
  rewrite Forall_forall in *. intros r [_ Hin]%list_elem_of_filter. auto.
Qed.

Section Stream.
Context `{SqlEngine} (project : string) (marshals emit : EventView → bool).

Abbreviation step := (tail_step project marshals emit).

(** What the stream guarantees from the cursor [a] it was opened at. *)
Record stream_ok (a : Z) (l : EventLog) (t : Tail) : Prop := {
  so_log : log_ok l;
  so_cursor : tl_cursor t = a ∨ (a ≤ tl_cursor t ≤ lg_seq l)%Z;
  so_sorted : StronglySorted Z.lt (ev_id <$> tl_sent t);
  so_range : Forall (λ ev, (a < ev_id ev ≤ tl_cursor t)%Z) (tl_sent t);
  so_complete : ∀ r, r ∈ lg_rows l → in_scope l project (lr_event r) = true →
    (a < lr_id r ≤ tl_cursor t)%Z → marshals (tail_view l project r) = true →
    tail_view l project r ∈ tl_sent t }.

Lemma fmap_ids l (rows : list LogRow) : ev_id <$> (tail_view l project <$> rows) = lr_id <$> rows.
Proof. rewrite <-list_fmap_compose. apply list_fmap_ext. intros i r _. apply tail_view_id. Qed.

Lemma sorted_views l (rows : list LogRow) :
  StronglySorted id_lt rows →
  StronglySorted Z.lt (ev_id <$> filter (λ ev, marshals ev = true) (tail_view l project <$> rows)).
Proof.
  induction 1 as [|r rows Hs IH Hr]; [constructor|]. rewrite fmap_cons, filter_cons. case_decide; [|done].
  rewrite fmap_cons. constructor; [done|]. apply Forall_fmap, Forall_forall.
  intros ev [_ (r' & -> & Hr')%list_elem_of_fmap]%list_elem_of_filter. simpl. rewrite !tail_view_id.
  rewrite Forall_forall in Hr. by apply Hr.
Qed.

Lemma stream_read a l t :
  stream_ok a l t → tl_open t = true → stream_ok a l (tail_page project marshals emit l t).1.
Proof.
  intros [Hl Hcur Hsort Hrange Hcomp] Ht.
  destruct (tail_page_rows project marshals emit l t Hl Ht) as (pre & rest & Hrows & Hc & Hs & _).
  set (t' := (tail_page project marshals emit l t).1) in *.
  destruct (scoped_past project l _ pre rest Hl Hrows) as (_ & Hle & Hpast).
  assert (∀ r, r ∈ pre → r ∈ lg_rows l ∧ (tl_cursor t < lr_id r ≤ tl_cursor t')%Z) as Hpre.
  { intros r Hr. assert (r ∈ scoped_rows l project (tl_cursor t)) as Hin by (rewrite Hrows; set_solver).
    unfold scoped_rows in Hin. apply list_elem_of_filter in Hin as [[??] ?].
    split_and!; [done..|]. rewrite Hc. unfold last_id. destruct (last pre) as [x|] eqn:Hx.
    - simpl. apply last_Some in Hx as [pre' ->]. pose proof (scoped_sorted project l (tl_cursor t) Hl) as Hso.
      rewrite Hrows in Hso. apply StronglySorted_app_1_l in Hso. apply elem_of_app in Hr as [Hr|Hr%list_elem_of_singleton].
      + apply Z.lt_le_incl. by eapply (StronglySorted_app_1_elem_of _ _ _ r x Hso); [|set_solver].
      + subst. lia.
    - apply last_None in Hx as ->. by apply elem_of_nil in Hr. }
  assert (a ≤ tl_cursor t)%Z as Ha by (destruct Hcur; lia).
  split; [done|..].
  - destruct pre as [|x pre].
    { rewrite Hc. unfold last_id. simpl. destruct Hcur; [by left|right; lia]. }
    right. destruct Hl as (_ & Hseq & _). rewrite Forall_forall in Hseq.
    split; [destruct (Hpre x ltac:(set_solver)); lia|].
    rewrite Hc. unfold last_id. destruct (last (x :: pre)) as [y|] eqn:Hy; [|by apply last_None in Hy].
    apply last_Some_elem_of in Hy. simpl. by destruct (Hseq y (proj1 (Hpre y Hy))).
  - rewrite Hs, fmap_app. apply StronglySorted_app. split_and!; [|done|].
    + intros i j (ev & -> & Hev)%list_elem_of_fmap
        (ev' & -> & [_ (r & -> & Hr)%list_elem_of_fmap]%list_elem_of_filter)%list_elem_of_fmap.
      rewrite tail_view_id. rewrite Forall_forall in Hrange. specialize (Hrange _ Hev).
      destruct (Hpre r Hr). simpl in Hrange. lia.
    + apply sorted_views. pose proof (scoped_sorted project l (tl_cursor t) Hl) as Hso. rewrite Hrows in Hso.
      by eapply StronglySorted_app_1_l.
  - rewrite Hs. apply Forall_app. split.
    + eapply Forall_impl; [exact Hrange|]. simpl. rewrite Hc. lia.
    + apply Forall_forall. intros ev [_ (r & -> & Hr)%list_elem_of_fmap]%list_elem_of_filter.
      rewrite tail_view_id. destruct (Hpre r Hr). lia.
  - intros r Hr Hscope Hid Hm. rewrite Hs. apply elem_of_app.
    destruct (decide (lr_id r ≤ tl_cursor t)%Z) as [Hold|Hnew]; [left; apply Hcomp; auto; lia|right].
    apply list_elem_of_filter. split; [done|]. apply list_elem_of_fmap_2. apply Hpast; [|rewrite <-Hc; lia].
    unfold scoped_rows. apply list_elem_of_filter. split; [split; [lia|done]|done].
Qed.

(** Writers leave the guarantee alone: old rows keep their view and scope. *)
Lemma stream_log a l l' t :
  stream_ok a l t → log_ok l' → (lg_seq l ≤ lg_seq l')%Z →
  (∀ r, r ∈ lg_rows l' → (lg_seq l < lr_id r)%Z ∨
     (r ∈ lg_rows l ∧ ∀ plan, e_plan (lr_event r) = Some plan → lg_plans l' !! plan = lg_plans l !! plan)) →
  stream_ok a l' t.
Proof.
  intros [Hl Hcur Hsort Hrange Hcomp] Hl' Hseq Hold. split; try done; [destruct Hcur; [by left|right; lia]|].
  intros r Hr Hscope Hid Hm. destruct (Hold r Hr) as [Hnew|[Hin Hp]]; [destruct Hcur; lia|].
  destruct (tail_view_plans project l' l r Hp) as [Hv Hsc]. rewrite Hv, Hsc in *. auto.
Qed.

Lemma stream_step a x y : step x y → stream_ok a x.1 x.2 → stream_ok a y.1 y.2.
Proof.
  intros [l t Ht|l t e now|l t plan|l t plan p Hn Hfresh] Hok; simpl in *.
  - by apply stream_read.
  - eapply stream_log; [exact Hok|apply log_ok_append, Hok|simpl; lia|]. simpl.
    intros r [Hr| ->%list_elem_of_singleton]%elem_of_app; [by right|left; simpl; lia].
  - eapply stream_log; [exact Hok|apply log_ok_drop, Hok|done|]. simpl.
    intros r [Hne Hr]%list_elem_of_filter. right. split; [done|]. intros q Hq.
    rewrite lookup_delete_ne; [done|congruence].
  - eapply stream_log; [exact Hok|apply Hok|done|]. simpl. intros r Hr. right. split; [done|].
    intros q Hq. rewrite lookup_insert_ne; [done|]. intros ->. by eapply Hfresh.
Qed.

Lemma stream_run a l0 x : log_ok l0 → rtc step (l0, tail_from a) x → stream_ok a x.1 x.2.
Proof.
  intros Hl0 Hrun. assert (stream_ok a (l0, tail_from a).1 (l0, tail_from a).2) as H0.
  { split; simpl; [done|by left|constructor|constructor|lia]. }
  revert H0. induction Hrun as [|x y z Hxy Hyz IH]; [done|]. intros Hx. by eapply IH, stream_step.
Qed.

(** Draining a quiet log with a client that reads. *)
Lemma drain_run l t fuel :
  log_ok l → tl_open t = true → (∀ ev, emit ev = true) → length (scoped_rows l project (tl_cursor t)) < fuel →
  ∃ t', drain_pages project marshals emit fuel l t = Some t' ∧ rtc step (l, t) (l, t') ∧
    scoped_rows l project (tl_cursor t') = [].
Proof.
  intros Hl. revert t. induction fuel as [|fuel IH]; intros t Ht Hemit Hf; [lia|]. simpl.
  pose proof (tail_read project marshals emit l t Ht) as Hstep.
  destruct (tail_page_rows project marshals emit l t Hl Ht) as (pre & rest & Hrows & Hc & _ & Ho).
  destruct (Ho Hemit) as [Hopen Hmore]. destruct (scoped_past project l _ pre rest Hl Hrows) as (Hrest & _).
  rewrite <-Hc in Hrest. destruct (tail_page project marshals emit l t) as [t' again]. simpl in *.
  destruct again.
  - destruct (IH t' Hopen Hemit) as (t'' & Hd & Hr & Hnil).
    { rewrite Hrest. rewrite Hrows, length_app in Hf. destruct pre; [done|]. simpl in Hf. lia. }
    exists t''. split_and!; [done| |done]. by eapply rtc_l.
  - exists t'. split_and!; [done|by apply rtc_once|by rewrite Hrest, Hmore].
Qed.
End Stream.

(** C37: the live stream neither loses, repeats nor reorders events. A client
    attached at cursor [a], with any writers between any two reads, has at every
    moment been sent frames with strictly ascending ids beyond [a]; every
    event of its project that is in the log past [a] and not past the cursor
    has been sent, under the view the log still gives it; and once the writers
    pause, a drain finishes and leaves no event of the project unsent. *)
Theorem live_stream_complete `{SqlEngine} project marshals emit a l0 l t :
  log_ok l0 → rtc (tail_step project marshals emit) (l0, tail_from a) (l, t) →
  StronglySorted Z.lt (ev_id <$> tl_sent t) ∧
  Forall (λ ev, (a < ev_id ev ≤ tl_cursor t)%Z) (tl_sent t) ∧
  (∀ r, r ∈ lg_rows l → in_scope l project (lr_event r) = true → (a < lr_id r ≤ tl_cursor t)%Z →
     marshals (tail_view l project r) = true → tail_view l project r ∈ tl_sent t) ∧
  (tl_open t = true → (∀ ev, emit ev = true) →
     ∃ t', drain_pages project marshals emit (S (length (lg_rows l))) l t = Some t' ∧
       ∀ r, r ∈ lg_rows l → in_scope l project (lr_event r) = true → (a < lr_id r)%Z →
         marshals (tail_view l project r) = true → tail_view l project r ∈ tl_sent t').
Proof.
  intros Hl0 Hrun. pose proof (stream_run project marshals emit a l0 _ Hl0 Hrun) as Hok. simpl in Hok.
  split_and!; [apply Hok..|]. intros Ht Hemit.
  destruct (drain_run project marshals emit l t (S (length (lg_rows l)))) as (t' & Hd & Hr & Hnil);
    [apply Hok|done|done|apply Nat.lt_succ_r, length_filter|].
  exists t'. split; [done|]. intros r Hrow Hscope Ha Hm.
  assert (stream_ok project marshals a l t') as Hok'.
  { apply (stream_run project marshals emit a l0 (l, t') Hl0). by etrans. }
  apply Hok'; try done. split; [done|]. destruct (decide (lr_id r ≤ tl_cursor t')%Z) as [|Hgt]; [done|exfalso].
  assert (r ∈ scoped_rows l project (tl_cursor t')) as Hin.
  { unfold scoped_rows. apply list_elem_of_filter. split; [split; [lia|done]|done]. }
  rewrite Hnil in Hin. by apply elem_of_nil in Hin.
Qed.

(** project isolation of the stream. A page carries only events of its
    project past the cursor, at most the page size, and a frame names a plan or a
    task only when that plan belongs to the project; no event is in scope of two
    projects. *)
Theorem EventsAfter_isolated `{SqlEngine} project after limit l :
  (∀ ev, ev ∈ EventsAfter project after limit l →
     (after < ev_id ev)%Z ∧
     (∃ r, r ∈ lg_rows l ∧ lr_id r = ev_id ev ∧ in_scope l project (lr_event r) = true) ∧
     ((ev_plan ev = "" ∧ ev_task ev = "") ∨ lg_plans l !! ev_plan ev = Some project)) ∧
  length (EventsAfter project after limit l) ≤ page_size limit 256 ∧
  (∀ e p q, in_scope l p e = true → in_scope l q e = true → p = q).
Proof.
  split_and!.
  - intros ev (r & -> & Hr)%list_elem_of_fmap. rewrite tail_view_id.
    apply (elem_of_take _ _ _) in Hr as (i & Hr & _). apply list_elem_of_lookup_2 in Hr.
    rewrite order_by_perm in Hr. unfold scoped_rows in Hr. apply list_elem_of_filter in Hr as [[Ha Hs] Hin].
    split_and!; [done|by exists r|]. unfold tail_view. destruct (e_plan (lr_event r)) as [plan|]; [|by left].
    destruct (sql_eq (lg_plans l !! plan) project) eqn:He; [|by left].
    right. unfold sql_eq in He. by apply bool_decide_eq_true in He.
  - unfold EventsAfter. rewrite length_fmap, length_take. lia.
  - intros e p q. unfold in_scope, sql_eq. destruct (e_project e) as [x|].
    + rewrite !bool_decide_eq_true. congruence.
    + destruct (e_plan e); [|done]. rewrite !bool_decide_eq_true. congruence.
Qed.

Definition demo_event (project : option string) (plan : option string) (kind : string) : Event :=
  mkEvent project plan (Some "t") kind None None (PayloadJSON "{}").
Definition demo_log : EventLog :=
  append_event (demo_event None None "tick") 5
    (append_event (demo_event None (Some "p") "task.claimed") 5
       (mkEventLog 0 [] {["p" := "proj"; "q" := "other"]} {["proj"; "other"]})).
Definition demo_log' : EventLog := append_event (demo_event (Some "proj") (Some "q") "note") 6 demo_log.
Definition demo_tail (l : EventLog) (t : Tail) : Tail :=
  (tail_page (H:=merge_engine) "proj" (λ _, true) (λ _, true) l t).1.

(** Reads around a write: the claim of the project's plan, then the note, whose
    foreign plan is blanked. *)
Lemma live_stream_complete_witness :
  (λ ev, (ev_id ev, ev_plan ev)) <$> tl_sent (demo_tail demo_log' (demo_tail demo_log (tail_from 0))) = [(1, "p"); (3, "")]%Z ∧
  StronglySorted Z.lt (ev_id <$> tl_sent (demo_tail demo_log' (demo_tail demo_log (tail_from 0)))).
Proof.
  split; [vm_compute; reflexivity|].
  refine (proj1 (live_stream_complete (H:=merge_engine) "proj" (λ _, true) (λ _, true) 0 demo_log demo_log' _ _ _)).
  - do 2 apply log_ok_append. split_and!; [constructor|constructor|done].
  - eapply rtc_l; [by apply tail_read|]. eapply rtc_l; [apply tail_append|].
    eapply rtc_once. by apply tail_read.
Defined.
