(* ===== verification/StoreProjects.v ===== *)
(** * Projects, their configuration and their spend:
    [internal/store/projects.go], [config.go], [spend.go]

    The tables a project owns beside its plans. [Cost] is the float64 column
    [cost_usd]; the engine's SUM over it is a parameter. *)
From stdpp Require Import sorting.
From S2P Require Import Prelude GoLib StoreModel StoreSql.

(** ** Rows *)

Record Project := mkProject {
  pj_name : option string; pj_created : Z; pj_updated : Z; pj_seen : option Z }.

Record Fingerprint := mkFingerprint { fp_kind : string; fp_value : string }.

(** A [project_identifiers] row; the table is listed in rowid order. *)
Record Ident := mkIdent { i_project : string; i_kind : string; i_value : string; i_added : Z }.

Definition FingerprintKindAbsPath : string := "abs_path".

(** Costs: SQL's SUM, Go's [>=] and the test [capUSD <= 0] on float64. *)
Class CostOps := {
  Cost : Type;
  cost_zero : Cost;
  cost_sum : list Cost → Cost;
  cost_geb : Cost → Cost → bool;
  cost_positive : Cost → bool }.

Record RecordSpendOpts `{CostOps} := mkSpendOpts {
  rs_project : string; rs_worker : string; rs_provider : string; rs_model : string;
  rs_input : Z; rs_output : Z; rs_cached : Z; rs_cost : Cost }.

Record SpendRow `{CostOps} := mkSpendRow {
  sp_project : string; sp_worker : option string; sp_provider : string; sp_model : option string;
  sp_input : Z; sp_output : Z; sp_cached : Z; sp_cost : Cost }.

(** [rg_workers]: the keys of the workers table, which spend rows reference. *)
Record Registry `{CostOps} := mkRegistry {
  rg_clock : Z;
  rg_projects : gmap string Project;
  rg_idents : list Ident;
  rg_config : gmap (string * string) (string * Z);
  rg_workers : gset string;
  rg_spend : list SpendRow }.

Arguments mkSpendOpts {_}.
Arguments mkSpendRow {_}.
Arguments mkRegistry {_}.

Section Registry.
Context `{CostOps}.

Definition rg_now (g : Registry) : Z := (rg_clock g / second)%Z.

Definition set_rg_projects f g :=
  mkRegistry (rg_clock g) (f (rg_projects g)) (rg_idents g) (rg_config g) (rg_workers g) (rg_spend g).
Definition set_rg_idents f g :=
  mkRegistry (rg_clock g) (rg_projects g) (f (rg_idents g)) (rg_config g) (rg_workers g) (rg_spend g).
Definition set_rg_config f g :=
  mkRegistry (rg_clock g) (rg_projects g) (rg_idents g) (f (rg_config g)) (rg_workers g) (rg_spend g).
Definition set_rg_spend f g :=
  mkRegistry (rg_clock g) (rg_projects g) (rg_idents g) (rg_config g) (rg_workers g) (f (rg_spend g)).

(** The workers table is written elsewhere ([StoreWorkers]). *)
Definition with_workers (ws : gset string) (g : Registry) : Registry :=
  mkRegistry (rg_clock g) (rg_projects g) (rg_idents g) (rg_config g) ws (rg_spend g).

Abbreviation Reg A := (SM Registry StoreError A).

(** ** Identity *)

Definition blank (fp : Fingerprint) : bool :=
  bool_decide (fp_kind fp = "") || bool_decide (fp_value fp = "").

Definition is_ident (fp : Fingerprint) (i : Ident) : Prop := i_kind i = fp_kind fp ∧ i_value i = fp_value fp.
#[export] Instance is_ident_dec fp i : Decision (is_ident fp i).
Proof. unfold is_ident. apply _. Defined.

(** [SELECT project_id ... WHERE kind = ? AND value = ?]. *)
Definition owner (fp : Fingerprint) (idents : list Ident) : option string :=
  i_project <$> head (filter (is_ident fp) idents).

Fixpoint ResolveProject (fps : list Fingerprint) (g : Registry) : option string :=
  match fps with
  | [] => None
  | fp :: fps' =>
      if blank fp then ResolveProject fps' g
      else match owner fp (rg_idents g) with
           | Some id => Some id
           | None => ResolveProject fps' g
           end
  end.

(** The UPSERT of one fingerprint: a new row, a refreshed [added_at], or, when
    another project owns it, nothing. *)
Definition upsert_ident (projectID : string) (fp : Fingerprint) (addedAt : Z) (idents : list Ident) : list Ident :=
  match owner fp idents with
  | None => idents ++ [mkIdent projectID (fp_kind fp) (fp_value fp) addedAt]
  | Some _ =>
      (λ i, if decide (is_ident fp i ∧ i_project i = projectID)
            then mkIdent (i_project i) (i_kind i) (i_value i) addedAt else i) <$> idents
  end.

Definition insertIdentifiers (projectID : string) (fps : list Fingerprint) (addedAt : Z) : Reg unit :=
  sfor fps (λ fp,
    if blank fp then sret tt
    else let! known := sget (λ g, has projectID (rg_projects g)) in
         (** The foreign key is checked for the inserted row only. *)
         let! conflict := sget (λ g, owner fp (rg_idents g)) in
         if known || bool_decide (is_Some conflict)
         then smod (set_rg_idents (upsert_ident projectID fp addedAt))
         else sfail (ErrForeignKey "project_identifiers")).

Definition CreateProject (uuid displayName : string) (fps : list Fingerprint) : Reg string :=
  atomically (
    let! now := sget rg_now in
    let! taken := sget (λ g, has uuid (rg_projects g)) in
    if taken then sfail (ErrUnique "projects")
    else
      do! smod (set_rg_projects <[uuid := mkProject (nullIfEmpty displayName) now now (Some now)]>) in
      do! insertIdentifiers uuid fps now in
      sret uuid).

Definition AddProjectIdentifiers (projectID : string) (fps : list Fingerprint) : Reg unit :=
  if decide (projectID = "") then sfail (ErrArguments "projectID")
  else atomically (
    let! now := sget rg_now in
    insertIdentifiers projectID fps now).

(** The trigger refreshes [updated_at]. *)
Definition TouchProjectLastSeen (projectID : string) : Reg unit :=
  let! now := sget rg_now in
  smod (set_rg_projects (alter (λ p, mkProject (pj_name p) (pj_created p) now (Some now)) projectID)).

(** [ORDER BY added_at DESC, rowid DESC LIMIT 1]: the latest, and of rows added
    in the same second the last inserted. *)
Definition later (a b : nat * Ident) : nat * Ident :=
  if ((i_added a.2 <? i_added b.2)%Z || ((i_added a.2 =? i_added b.2)%Z && (a.1 <? b.1)))
  then b else a.

Definition abs_paths (projectID : string) (g : Registry) : list (nat * Ident) :=
  filter (λ ri, i_project ri.2 = projectID ∧ i_kind ri.2 = FingerprintKindAbsPath) (imap pair (rg_idents g)).

Definition ProjectAbsPath (projectID : string) (g : Registry) : option string :=
  match abs_paths projectID g with
  | [] => None
  | r :: rows => Some (i_value (foldl later r rows).2)
  end.

(** ** Configuration *)

Definition GetProjectConfig (projectID : string) (g : Registry) : gmap string string :=
  list_to_map ((λ kv, (kv.1.2, kv.2.1)) <$> filter (λ kv, kv.1.1 = projectID) (map_to_list (rg_config g))).

Definition delete_key (projectID key : string) : Reg unit := smod (set_rg_config (delete (projectID, key))).

Definition upsert_key (projectID : string) (kv : string * string) : Reg unit :=
  let! known := sget (λ g, has projectID (rg_projects g)) in
  let! now := sget rg_now in
  if known then smod (set_rg_config <[(projectID, kv.1) := (kv.2, now)]>)
  else sfail (ErrForeignKey "project_config").

(** The maps' keys are sorted before they are written. *)
Definition sorted_keys (l : list string) : list string := merge_sort String.le l.

Definition ApplyProjectConfig (projectID : string) (upserts : gmap string string) (deleteKeys : list string) : Reg unit :=
  if decide (projectID = "") then sfail (ErrArguments "projectID")
  else if bool_decide ("" ∈ dom upserts) then sfail (ErrArguments "upsert key")
  else if bool_decide ("" ∈ deleteKeys) then sfail (ErrArguments "delete key")
  else atomically (
    do! sfor (sorted_keys deleteKeys) (delete_key projectID) in
    sfor (sorted_keys (elements (dom upserts))) (λ key, upsert_key projectID (key, default "" (upserts !! key)))).

Definition SetProjectConfig (projectID key value : string) : Reg unit :=
  ApplyProjectConfig projectID {[key := value]} [].

(** ** Spend *)

Definition RecordSpend (o : RecordSpendOpts) : Reg unit := λ g,
  if decide (rs_project o = "" ∨ rs_provider o = "") then (Err (ErrArguments "spend"), g)
  else if has (rs_project o) (rg_projects g) &&
          match nullIfEmpty (rs_worker o) with None => true | Some w => bool_decide (w ∈ rg_workers g) end
  then (Ok tt, set_rg_spend (λ rows, rows ++ [mkSpendRow (rs_project o) (nullIfEmpty (rs_worker o)) (rs_provider o)
          (nullIfEmpty (rs_model o)) (rs_input o) (rs_output o) (rs_cached o) (rs_cost o)]) g)
  else (Err (ErrForeignKey "spend"), g).

Definition provider_costs (projectID provider : string) (g : Registry) : list Cost :=
  sp_cost <$> filter (λ r, sp_project r = projectID ∧ sp_provider r = provider) (rg_spend g).

(** One provider's entry of [ProjectSpendByProvider]; a provider without rows
    has no entry, and Go reads the zero value for it. *)
Definition ProjectSpendByProvider (projectID provider : string) (g : Registry) : option Cost :=
  match provider_costs projectID provider g with
  | [] => None
  | costs => Some (cost_sum costs)
  end.
End Registry.
