(* ===== verification/StoreProjectsProps.v ===== *)
(** * Properties of project identity and configuration *)
From stdpp Require Import sorting.
From S2P Require Import Prelude GoLib StoreModel StoreSql StoreProjects.

Section Identity.
Context `{CostOps}.

#[export] Instance Fingerprint_eq_dec : EqDecision Fingerprint.
Proof. solve_decision. Defined.

(** The primary key: one row per fingerprint. *)
Definition ident_key (i : Ident) : string * string := (i_kind i, i_value i).
Definition idents_ok (idents : list Ident) : Prop := NoDup (ident_key <$> idents).

Lemma owner_none fp idents : owner fp idents = None ↔ ∀ i, i ∈ idents → ¬ is_ident fp i.
Proof.
  unfold owner. rewrite fmap_None, head_None. split.
  - intros Hn i Hi Hf. assert (i ∈ filter (is_ident fp) idents) as Hin by by apply list_elem_of_filter.
    rewrite Hn in Hin. by apply elem_of_nil in Hin.
  - intros Hn. induction idents as [|i idents IH]; [done|].
    rewrite filter_cons_False by (apply Hn; set_solver). apply IH. set_solver.
Qed.

Lemma owner_app fp l1 l2 : owner fp (l1 ++ l2) = match owner fp l1 with Some p => Some p | None => owner fp l2 end.
Proof. unfold owner. rewrite filter_app. by destruct (filter (is_ident fp) l1). Qed.

Lemma owner_refresh fp (g : Ident → Ident) idents :
  (∀ i, i_kind (g i) = i_kind i ∧ i_value (g i) = i_value i ∧ i_project (g i) = i_project i) →
  owner fp (g <$> idents) = owner fp idents.
Proof.
  intros Hg. unfold owner. induction idents as [|i idents IH]; [done|].
  rewrite fmap_cons, !filter_cons. destruct (Hg i) as (Hk & Hv & Hp).
  assert (is_ident fp (g i) ↔ is_ident fp i) as Hiff by (unfold is_ident; by rewrite Hk, Hv).
  destruct (decide (is_ident fp (g i))), (decide (is_ident fp i)); try tauto. simpl. by rewrite Hp.
Qed.

Lemma owner_upsert p fp t idents fp' :
  owner fp' (upsert_ident p fp t idents) =
  if decide (fp' = fp) then Some (default p (owner fp idents)) else owner fp' idents.
Proof.
  unfold upsert_ident. destruct (owner fp idents) as [q|] eqn:Ho.
  - rewrite owner_refresh by (intros i; by case_decide). case_decide; [by subst|done].
  - rewrite owner_app. case_decide as Hf.
    + subst. rewrite Ho. unfold owner, is_ident. by rewrite filter_cons_True.
    + destruct (owner fp' idents); [done|]. unfold owner. rewrite filter_cons_False; [done|].
      intros [? ?]. simpl in *. destruct fp, fp'. simpl in *. congruence.
Qed.

Lemma upsert_ident_ok p fp t idents : idents_ok idents → idents_ok (upsert_ident p fp t idents).
Proof.
  unfold idents_ok, upsert_ident. intros Hok. destruct (owner fp idents) as [q|] eqn:Ho.
  - rewrite <-list_fmap_compose. match goal with |- NoDup ?l => assert (l = ident_key <$> idents) as -> end; [|done].
    apply list_fmap_ext. intros i x _. simpl. by case_decide.
  - rewrite fmap_app, NoDup_app. split_and!; [done| |apply NoDup_singleton].
    intros k (i & -> & Hi)%list_elem_of_fmap Hk%list_elem_of_singleton. rewrite owner_none in Ho.
    apply (Ho i Hi). unfold is_ident, ident_key in *. simpl in Hk. by simplify_eq.
Qed.

(** What adding fingerprints for [p] may do to the table. *)
Record claims_idents (p : string) (fps : list Fingerprint) (l l' : list Ident) : Prop := {
  ci_ok : idents_ok l → idents_ok l';
  ci_kept : ∀ fp q, owner fp l = Some q → owner fp l' = Some q;
  ci_new : ∀ fp q, owner fp l = None → owner fp l' = Some q → q = p ∧ fp ∈ fps }.

Lemma insertIdentifiers_run p fps t g :
  match insertIdentifiers p fps t g with
  | (r, g') => claims_idents p fps (rg_idents g) (rg_idents g') ∧
               (r = Ok tt → ∀ fp, fp ∈ fps → blank fp = false → is_Some (owner fp (rg_idents g'))) ∧
               rg_config g' = rg_config g ∧ rg_spend g' = rg_spend g ∧ rg_projects g' = rg_projects g
  end.
Proof.
  unfold insertIdentifiers. revert g. induction fps as [|fp fps IH]; intros g; cbn [sfor].
  { split_and!; try done; [split; [done|done|congruence]|]. intros _ fp ?%elem_of_nil. done. }
  unfold sbind at 1. destruct (blank fp) eqn:Hb.
  { specialize (IH g). simpl. destruct (sfor fps _ g) as [r g']. destruct IH as ([Hok Hk Hn] & Hall & Hrest).
    split_and!; [|..|apply Hrest|apply Hrest|apply Hrest].
    - split; [done..|]. intros f q H1 H2. destruct (Hn f q H1 H2). set_solver.
    - intros Hr f [->|Hf]%elem_of_cons Hbf; [congruence|]. by apply Hall. }
  unfold sbind, sget. cbn beta iota.
  destruct (has p (rg_projects g) || bool_decide (is_Some (owner fp (rg_idents g)))) eqn:Hfk.
  2: { simpl. split_and!; try done. split; [done|done|congruence]. }
  simpl. set (g1 := set_rg_idents (upsert_ident p fp t) g).
  specialize (IH g1). destruct (sfor fps _ g1) as [r g']. destruct IH as ([Hok Hk Hn] & Hall & Hrest).
  assert (rg_idents g1 = upsert_ident p fp t (rg_idents g)) as Hg1 by done.
  split_and!; [|..|apply Hrest|apply Hrest|apply Hrest].
  - split.
    + intros Hi. apply Hok. rewrite Hg1. by apply upsert_ident_ok.
    + intros f q Hf. apply Hk. rewrite Hg1, owner_upsert. case_decide; [subst; by rewrite Hf|done].
    + intros f q Hf Hf'. destruct (decide (f = fp)) as [->|Hne].
      * assert (owner fp (rg_idents g1) = Some p) as Hp.
        { rewrite Hg1, owner_upsert, decide_True by done. by rewrite Hf. }
        rewrite (Hk _ _ Hp) in Hf'. simplify_eq. set_solver.
      * destruct (Hn f q) as [-> Hin]; [|done|set_solver]. by rewrite Hg1, owner_upsert, decide_False.
  - intros Hr f [->|Hf]%elem_of_cons Hbf; [|by apply Hall].
    exists (default p (owner fp (rg_idents g))). apply Hk. by rewrite Hg1, owner_upsert, decide_True.
Qed.

Lemma ResolveProject_first fps g :
  ResolveProject fps g = head (omap (λ fp, owner fp (rg_idents g)) (filter (λ fp, blank fp = false) fps)).
Proof.
  induction fps as [|fp fps IH]; [done|]. simpl. rewrite filter_cons.
  destruct (blank fp) eqn:Hb; case_decide; try congruence. simpl. by destruct (owner fp (rg_idents g)).
Qed.

(** a project's identity is never stolen. Adding fingerprints is all or
    nothing, keeps one row per fingerprint, and leaves every fingerprint that
    already had an owner with that owner; a fingerprint it gives an owner is one
    of those passed, and the owner is the project it was passed for. When it
    succeeds every non-blank fingerprint passed resolves, to its earlier owner if
    it had one and to this project otherwise. *)
Theorem AddProjectIdentifiers_never_steals p fps g r g' :
  AddProjectIdentifiers p fps g = (r, g') →
  match r with
  | Err _ => g' = g
  | Ok _ =>
      claims_idents p fps (rg_idents g) (rg_idents g') ∧
      ∀ fp, fp ∈ fps → blank fp = false →
        ResolveProject [fp] g' = Some (default p (ResolveProject [fp] g))
  end.
Proof.
  unfold AddProjectIdentifiers. case_decide; [by intros [= <- <-]|].
  unfold atomically, sbind, sget. pose proof (insertIdentifiers_run p fps (rg_now g) g) as Hrun.
  destruct (insertIdentifiers p fps (rg_now g) g) as [[[]|e] g1]; intros [= <- <-]; [|done].
  destruct Hrun as (Hc & Hall & _). split; [done|]. intros fp Hf Hb. simpl. rewrite Hb.
  destruct (Hall eq_refl fp Hf Hb) as [q Hq]. rewrite Hq. destruct (owner fp (rg_idents g)) as [q'|] eqn:Ho; simpl.
  - apply Hc in Ho. congruence.
  - f_equal. by apply (ci_new _ _ _ _ Hc fp).
Qed.
End Identity.

(** ** Configuration *)

Section Config.
Context `{CostOps}.

Lemma GetProjectConfig_lookup p g k : GetProjectConfig p g !! k = fst <$> rg_config g !! (p, k).
Proof.
  unfold GetProjectConfig. set (rows := filter _ _). 
  assert (∀ kv, kv ∈ rows ↔ kv.1.1 = p ∧ rg_config g !! kv.1 = Some kv.2) as Hrows.
  { intros [k' v]. unfold rows. by rewrite list_elem_of_filter, elem_of_map_to_list. }
  assert (NoDup (((λ kv : string * string * (string * Z), (kv.1.2, kv.2.1)) <$> rows).*1)) as Hnd.
  { rewrite <-list_fmap_compose. apply NoDup_fmap_2_strong.
    - intros [[p1 k1] v1] [[p2 k2] v2] [H1 H1']%Hrows [H2 H2']%Hrows ?. simpl in *. subst. congruence.
    - apply NoDup_filter, NoDup_map_to_list. }
  apply option_eq. intros v. rewrite <-elem_of_list_to_map by done. rewrite list_elem_of_fmap. split.
  - intros ([[p' k'] [v' z]] & [= -> ->] & [Hp Hv]%Hrows). simpl in *. subst. by rewrite Hv.
  - intros ([v' z] & Hv & ->)%fmap_Some. exists (p, k, (v', z)). split; [done|]. by apply Hrows.
Qed.

Lemma delete_keys_run p l g :
  ∃ c, sfor l (delete_key p) g = (Ok tt, set_rg_config (λ _, c) g) ∧
    ∀ q k, c !! (q, k) = if decide (q = p ∧ k ∈ l) then None else rg_config g !! (q, k).
Proof.
  revert g. induction l as [|key l IH]; intros g; cbn [sfor].
  - exists (rg_config g). split; [by destruct g|]. intros q k. rewrite decide_False; [done|].
    by intros [_ ?%elem_of_nil].
  - unfold sbind at 1. unfold delete_key at 1. cbn beta iota.
    destruct (IH (set_rg_config (delete (p, key)) g)) as (c & Hr & Hc). exists c. split; [exact Hr|].
    intros q k. rewrite Hc. simpl. destruct (decide (q = p ∧ k ∈ l)) as [Hin|Hout].
    + rewrite decide_True; [done|]. set_solver.
    + destruct (decide ((q, k) = (p, key))) as [[= -> ->]|Hne].
      * rewrite lookup_delete_eq, decide_True; [done|set_solver].
      * rewrite lookup_delete_ne by done. rewrite decide_False; [done|]. set_solver.
Qed.

Lemma upsert_keys_run p (ups : gmap string string) l g :
  (∀ k, k ∈ l → is_Some (ups !! k)) → has p (rg_projects g) = true →
  ∃ c, sfor l (λ key, upsert_key p (key, default "" (ups !! key))) g = (Ok tt, set_rg_config (λ _, c) g) ∧
    ∀ q k, fst <$> c !! (q, k) = if decide (q = p ∧ k ∈ l) then ups !! k else fst <$> rg_config g !! (q, k).
Proof.
  intros Hl. revert g. induction l as [|key l IH]; intros g Hp; cbn [sfor].
  - exists (rg_config g). split; [by destruct g|]. intros q k. rewrite decide_False; [done|].
    by intros [_ ?%elem_of_nil].
  - unfold sbind at 1. unfold upsert_key at 1. unfold sbind, sget, smod. cbn beta iota. rewrite Hp. cbn beta iota.
    set (g1 := set_rg_config _ g). destruct (IH ltac:(set_solver) g1 Hp) as (c & Hr & Hc). exists c. split; [exact Hr|].
    intros q k. rewrite Hc. simpl. destruct (decide (q = p ∧ k ∈ l)) as [Hin|Hout].
    + rewrite decide_True; [done|]. set_solver.
    + destruct (decide ((q, k) = (p, key))) as [[= -> ->]|Hne].
      * rewrite lookup_insert_eq, decide_True by set_solver. simpl.
        destruct (Hl key ltac:(set_solver)) as [v ->]. done.
      * rewrite lookup_insert_ne by done. rewrite decide_False; [done|]. set_solver.
Qed.

Lemma upsert_keys_unknown p (ups : gmap string string) l g :
  l ≠ [] → has p (rg_projects g) = false →
  (sfor l (λ key, upsert_key p (key, default "" (ups !! key))) g).1 = Err (ErrForeignKey "project_config").
Proof.
  destruct l as [|key l]; [done|]. intros _ Hp. cbn [sfor]. unfold sbind at 1. unfold upsert_key at 1.
  unfold sbind, sget. cbn beta iota. by rewrite Hp.
Qed.

Lemma sorted_keys_elem l k : k ∈ sorted_keys l ↔ k ∈ l.
Proof. unfold sorted_keys. by rewrite merge_sort_Permutation. Qed.

(** a configuration change is atomic and exact. A refused change leaves the
    registry as it was; an applied one gives the project exactly the upserted
    values over what it had less the deleted keys, an upserted key winning over
    its own deletion, and touches no other project. A change with non-empty keys
    to a known project is never refused. *)
Theorem ApplyProjectConfig_exact p ups dels g r g' :
  ApplyProjectConfig p ups dels g = (r, g') →
  match r with
  | Err _ => g' = g
  | Ok _ => GetProjectConfig p g' = ups ∪ filter (λ kv, kv.1 ∉ dels) (GetProjectConfig p g) ∧
            ∀ q, q ≠ p → GetProjectConfig q g' = GetProjectConfig q g
  end ∧
  (p ≠ "" → "" ∉ dom ups → "" ∉ dels → is_Some (rg_projects g !! p) → r = Ok tt).
Proof.
  unfold ApplyProjectConfig. case_decide as Hp; [intros [= <- <-]; split; [done|by intros]|].
  case_bool_decide as Hu; [intros [= <- <-]; split; [done|by intros]|].
  case_bool_decide as Hd; [intros [= <- <-]; split; [done|by intros]|].
  unfold atomically. unfold sbind at 1. destruct (delete_keys_run p (sorted_keys dels) g) as (c & -> & Hc).
  cbn beta iota. set (g1 := set_rg_config _ g). set (keys := sorted_keys (elements (dom ups))).
  assert (∀ k, k ∈ keys ↔ is_Some (ups !! k)) as Hkeys.
  { intros k. unfold keys. by rewrite sorted_keys_elem, elem_of_elements, elem_of_dom. }
  assert (∀ k, fst <$> c !! (p, k) = filter (λ kv, kv.1 ∉ dels) (GetProjectConfig p g) !! k) as Hfil.
  { intros k. rewrite Hc, map_lookup_filter, GetProjectConfig_lookup.
    assert (k ∈ sorted_keys dels ↔ k ∈ dels) as Hk by apply sorted_keys_elem.
    destruct (rg_config g !! (p, k)) as [[v z]|]; simpl; repeat case_decide; simpl; try reflexivity; tauto. }
  destruct (has p (rg_projects g1)) eqn:Hproj.
  - destruct (upsert_keys_run p ups keys g1) as (c' & -> & Hc'); [by intros k ?%Hkeys|done|].
    intros [= <- <-]. split; [|done]. split; [|intros q Hq]; apply map_eq; intros k.
    + rewrite GetProjectConfig_lookup. simpl. rewrite Hc', lookup_union. simpl. rewrite Hfil.
      destruct (ups !! k) as [v|] eqn:Hk.
      * rewrite decide_True by (split; [done|]; apply Hkeys; by eexists). by destruct (filter _ _ !! k).
      * rewrite decide_False; [by destruct (filter _ _ !! k)|]. intros [_ [? ?]%Hkeys]. congruence.
    + rewrite !GetProjectConfig_lookup. simpl. rewrite Hc', decide_False by tauto. simpl.
      by rewrite Hc, decide_False by tauto.
  - destruct keys as [|key keys'] eqn:Hk.
    + cbn [sfor]. intros [= <- <-]. split; [|done]. split; [|intros q Hq]; apply map_eq; intros k.
      * rewrite GetProjectConfig_lookup, lookup_union. simpl. rewrite Hfil.
        destruct (ups !! k) eqn:Hu'; [|by destruct (filter _ _ !! k)]. exfalso. apply (elem_of_nil k), Hkeys. by eexists.
      * rewrite !GetProjectConfig_lookup. simpl. by rewrite Hc, decide_False by tauto.
    + pose proof (upsert_keys_unknown p ups (key :: keys') g1 ltac:(done) Hproj) as Herr.
      destruct (sfor (key :: keys') _ g1) as [r1 g2]. simpl in Herr. subst r1. intros [= <- <-]. split; [done|].
      intros _ _ _ Hs. unfold has in Hproj. by apply bool_decide_eq_false in Hproj.
Qed.
End Config.

(** ** The current checkout *)

Section AbsPath.
Context `{CostOps}.

Lemma later_max r rows :
  let m := foldl later r rows in
  m ∈ r :: rows ∧ ∀ x, x ∈ r :: rows → (i_added x.2 ≤ i_added m.2)%Z.
Proof.
  revert r. induction rows as [|y rows IH]; intros r; simpl.
  { split; [set_solver|]. intros x ->%list_elem_of_singleton. lia. }
  destruct (IH (later r y)) as [Hin Hmax].
  assert (later r y = r ∨ later r y = y) as Hl by (unfold later; case_match; auto).
  assert (i_added r.2 ≤ i_added (later r y).2 ∧ i_added y.2 ≤ i_added (later r y).2)%Z as [Hr Hy].
  { unfold later. destruct (Z.ltb_spec (i_added r.2) (i_added y.2)), (Z.eqb_spec (i_added r.2) (i_added y.2)),
      (Nat.ltb r.1 y.1); simpl; lia. }
  split.
  - apply elem_of_cons in Hin as [->|Hin]; [destruct Hl as [->| ->]; set_solver|set_solver].
  - pose proof (Hmax (later r y) ltac:(set_solver)) as Hm.
    intros x [->|[->|Hx]%elem_of_cons]%elem_of_cons; [lia|lia|]. apply Hmax. set_solver.
Qed.

Lemma abs_paths_elem p g n i :
  (n, i) ∈ abs_paths p g ↔ rg_idents g !! n = Some i ∧ i_project i = p ∧ i_kind i = FingerprintKindAbsPath.
Proof.
  unfold abs_paths. rewrite list_elem_of_filter, list_elem_of_lookup. setoid_rewrite list_lookup_imap. split.
  - intros [[??] (j & Hj)]. destruct (rg_idents g !! j) eqn:Hl; simpl in *; by simplify_eq.
  - intros (Hn & ? & ?). split; [done|]. exists n. by rewrite Hn.
Qed.

Lemma ProjectAbsPath_some p g n i :
  (n, i) ∈ abs_paths p g → ∃ m j, ProjectAbsPath p g = Some (i_value j) ∧ (m, j) ∈ abs_paths p g ∧
    ∀ x, x ∈ abs_paths p g → (i_added x.2 ≤ i_added j)%Z.
Proof.
  unfold ProjectAbsPath. intros Hin. destruct (abs_paths p g) as [|r rows]; [by apply elem_of_nil in Hin|].
  destruct (later_max r rows) as [Hm Hmax]. destruct (foldl later r rows) as [m j]. by exists m, j.
Qed.

Lemma upsert_ident_rows p fp t l i :
  owner fp l = None ∨ owner fp l = Some p → i ∈ upsert_ident p fp t l → i_project i = p →
  (is_ident fp i ∧ i_added i = t) ∨ (i ∈ l ∧ ¬ is_ident fp i).
Proof.
  unfold upsert_ident. intros [Ho|Ho] Hin Hp; rewrite Ho in Hin.
  - apply elem_of_app in Hin as [Hin| ->%list_elem_of_singleton]; [right|by left].
    rewrite owner_none in Ho. auto.
  - apply list_elem_of_fmap in Hin as (j & -> & Hj). case_decide as Hd; [left; by destruct Hd|].
    right. split; [done|]. intros Hi. apply Hd. done.
Qed.

(** a moved project is found at its new path. When the clock is in a later
    second than any path recorded for the project, recording a path the project
    may own makes it the project's current checkout. *)
Theorem ProjectAbsPath_most_recent p path g g' :
  let fp := mkFingerprint FingerprintKindAbsPath path in
  AddProjectIdentifiers p [fp] g = (Ok tt, g') →
  path ≠ "" →
  owner fp (rg_idents g) = None ∨ owner fp (rg_idents g) = Some p →
  (∀ i, i ∈ rg_idents g → i_project i = p → (i_added i < rg_now g)%Z) →
  ProjectAbsPath p g' = Some path.
Proof.
  intros fp Hadd Hpath Hown Hold. assert (blank fp = false) as Hb.
  { unfold blank. by rewrite !bool_decide_false. }
  assert (rg_idents g' = upsert_ident p fp (rg_now g) (rg_idents g)) as Hg'.
  { revert Hadd. unfold AddProjectIdentifiers. case_decide; [done|]. unfold atomically, insertIdentifiers, sbind, sget.
    cbn [sfor]. unfold sbind. rewrite Hb. cbn beta iota. destruct (_ || _); [|done]. by intros [= <-]. }
  assert (∃ i, i ∈ rg_idents g' ∧ is_ident fp i ∧ i_project i = p) as (i & Hi & [Hk Hv] & Hp).
  { assert (owner fp (rg_idents g') = Some p) as Ho.
    { rewrite Hg', owner_upsert, decide_True by done. by destruct Hown as [->| ->]. }
    unfold owner in Ho. apply fmap_Some in Ho as (i & Hh & ->). apply head_Some_elem_of in Hh.
    apply list_elem_of_filter in Hh as [??]. by exists i. }
  apply list_elem_of_lookup in Hi as [n Hn].
  destruct (ProjectAbsPath_some p g' n i) as (m & j & -> & Hj & Hmax).
  { by apply abs_paths_elem. }
  pose proof (Hmax (n, i)) as Hni. rewrite !abs_paths_elem in *. specialize (Hni ltac:(done)). simpl in Hni.
  destruct Hj as (Hj & Hjp & Hjk). apply list_elem_of_lookup_2 in Hj, Hn. rewrite Hg' in Hj, Hn.
  destruct (upsert_ident_rows p fp _ _ j Hown Hj Hjp) as [[[_ ->] _]|[Hin _]]; [done|exfalso].
  destruct (upsert_ident_rows p fp _ _ i Hown Hn Hp) as [[_ Ht]|[_ Hni']]; [|by apply Hni'].
  specialize (Hold j Hin Hjp). lia.
Qed.
End AbsPath.

(** ** On concrete registries *)

(** Costs in whole micro-dollars. *)
Definition toy_costs : CostOps := {|
  Cost := Z; cost_zero := 0%Z; cost_sum := foldr Z.add 0%Z; cost_geb := Z.geb; cost_positive c := (0 <? c)%Z |}.

Definition demo_registry (clock : Z) (idents : list Ident) : Registry (H:=toy_costs) :=
  mkRegistry clock {["p" := mkProject None 0 0 None; "q" := mkProject None 0 0 None]} idents
    {[("p", "old") := ("1", 0%Z); ("q", "k") := ("2", 0%Z)]} ∅ [].

Definition abs (path : string) : Fingerprint := mkFingerprint FingerprintKindAbsPath path.
Definition abs_row (p path : string) (at_ : Z) : Ident := mkIdent p FingerprintKindAbsPath path at_.

Definition demo_owned : Registry (H:=toy_costs) := demo_registry (5 * second) [abs_row "q" "/a" 1].
Definition demo_added : Registry := (AddProjectIdentifiers (H:=toy_costs) "p" [abs "/a"; abs "/b"] demo_owned).2.

Lemma AddProjectIdentifiers_never_steals_witness :
  ResolveProject [abs "/a"] demo_added = Some "q" ∧ ResolveProject [abs "/b"] demo_added = Some "p".
Proof.
  assert (AddProjectIdentifiers (H:=toy_costs) "p" [abs "/a"; abs "/b"] demo_owned = (Ok tt, demo_added)) as Hrun
    by (vm_compute; reflexivity).
  destruct (AddProjectIdentifiers_never_steals (H:=toy_costs) _ _ _ _ _ Hrun) as [_ Hr].
  split; [exact (Hr (abs "/a") ltac:(set_solver) eq_refl)|exact (Hr (abs "/b") ltac:(set_solver) eq_refl)].
Defined.

Definition demo_configured : Registry :=
  (ApplyProjectConfig (H:=toy_costs) "p" {["new" := "3"]} ["old"] (demo_registry 0 [])).2.

Lemma ApplyProjectConfig_exact_witness :
  GetProjectConfig "p" demo_configured =
    {["new" := "3"]} ∪ filter (λ kv, kv.1 ∉ ["old"]) (GetProjectConfig "p" (demo_registry 0 [])).
Proof.
  assert (ApplyProjectConfig (H:=toy_costs) "p" {["new" := "3"]} ["old"] (demo_registry 0 []) = (Ok tt, demo_configured))
    as Hrun by (vm_compute; reflexivity).
  exact (proj1 (proj1 (ApplyProjectConfig_exact (H:=toy_costs) _ _ _ _ _ _ Hrun))).
Defined.

Definition demo_moved : Registry (H:=toy_costs) := demo_registry (5 * second) [abs_row "p" "/a" 1; abs_row "p" "/b" 2].
Definition demo_moved_back : Registry := (AddProjectIdentifiers (H:=toy_costs) "p" [abs "/a"] demo_moved).2.

Lemma ProjectAbsPath_most_recent_witness : ProjectAbsPath "p" demo_moved_back = Some "/a".
Proof.
  assert (AddProjectIdentifiers (H:=toy_costs) "p" [abs "/a"] demo_moved = (Ok tt, demo_moved_back)) as Hrun
    by (vm_compute; reflexivity).
  apply (ProjectAbsPath_most_recent (H:=toy_costs) "p" "/a" demo_moved _ Hrun).
  - done.
  - right. vm_compute. reflexivity.
  - intros i Hi _. assert (Forall (λ i, (i_added i < 5)%Z) [abs_row "p" "/a" 1; abs_row "p" "/b" 2]) as Hf
      by (repeat constructor). rewrite Forall_forall in Hf. exact (Hf i Hi).
Defined.

(** A project that moves from [/a] to [/b] and back within one second of the
    clock is still found at [/b]: the refreshed row ties with the newer one, and
    the tie goes to the row inserted last. *)
Example move_back_within_a_second :
  let g0 := demo_registry (5 * second) [abs_row "p" "/a" 1] in
  let g1 := (AddProjectIdentifiers (H:=toy_costs) "p" [abs "/b"] g0).2 in
  let g2 := (AddProjectIdentifiers (H:=toy_costs) "p" [abs "/a"] g1).2 in
  ProjectAbsPath "p" g1 = Some "/b" ∧ ProjectAbsPath "p" g2 = Some "/b".
Proof. vm_compute. done. Qed.
