(* ===== verification/StoreInv.v ===== *)
(** * The store's invariant

    [consistent]: the foreign keys the schema declares, the claims, the acyclic
    dependency graph and canonical reservations, whatever its clients do; and,
    where the clients are disciplined, claims by a session's own workers and the
    exclusivity of running writers. Each statement of [StoreSql] preserves it;
    [StoreTrace] composes them. *)
From S2P Require Import Prelude GoLib StoreModel StoreSql StoreTasks StoreWorkers Dfs StoreGraph StoreMeta.
From stdpp Require Import relations.

(** ** Definitions *)

Definition running (t : Task) : Prop := t_status t = TaskStatusRunning.
#[export] Instance running_dec t : Decision (running t).
Proof. unfold running. apply _. Defined.

(** A claim names an existing session and an existing worker, of that session
    where claims are [disciplined]; only a running task carries one. *)
Record claim_in (disciplined : bool) (sessions : gmap string Session) (workers : gmap string Worker) (t : Task) : Prop := {
  claim_idle : ¬ running t → t_claimed_by_session t = None ∧ t_claimed_by_worker t = None;
  claim_session : ∀ x, t_claimed_by_session t = Some x → is_Some (sessions !! x);
  claim_worker : ∀ w, t_claimed_by_worker t = Some w →
    ∃ W, workers !! w = Some W ∧ (disciplined = true → t_claimed_by_session t = Some (w_session W));
  claim_counts : (0 ≤ t_retry_count t)%Z ∧ (0 ≤ t_reclaim_count t)%Z }.

#[global] Arguments claim_idle {_} _ _ _ _.
#[global] Arguments claim_session {_} _ _ _ _.
#[global] Arguments claim_worker {_} _ _ _ _.
#[global] Arguments claim_counts {_} _ _ _ _.

Definition dep_edge (s : DB) (p a b : string) : Prop := (p, a, b) ∈ db_deps s.

(** No two running tasks of one project have declared the same output path. *)
Definition exclusive (s : DB) : Prop :=
  ∀ k1 k2 t1 t2 path,
    k1 ≠ k2 → db_tasks s !! k1 = Some t1 → db_tasks s !! k2 = Some t2 →
    running t1 → running t2 → same_project s k1.1 k2.1 = true →
    (k1.1, k1.2, path) ∈ db_outputs s → (k2.1, k2.2, path) ∈ db_outputs s → False.

Record consistent (disciplined : bool) (s : DB) : Prop := {
  wf_plan : ∀ k t, db_tasks s !! k = Some t → is_Some (db_plans s !! k.1);
  wf_claim : ∀ k t, db_tasks s !! k = Some t → claim_in disciplined (db_sessions s) (db_workers s) t;
  wf_worker : ∀ w W, db_workers s !! w = Some W → is_Some (db_sessions s !! w_session W);
  wf_dep : ∀ p a b, (p, a, b) ∈ db_deps s → is_Some (db_tasks s !! (p, a)) ∧ is_Some (db_tasks s !! (p, b));
  wf_acyclic : ∀ p a, ¬ tc (dep_edge s p) a a;
  wf_meta : ∀ k m, db_metadata s !! k = Some m → is_Some (db_tasks s !! k);
  wf_output : ∀ p i path, (p, i, path) ∈ db_outputs s →
    is_Some (db_tasks s !! (p, i)) ∧ path ≠ "" ∧ canonicalReservationPath path = path;
  wf_exclusive : disciplined = true → exclusive s }.
#[global] Arguments wf_plan {_} s.
#[global] Arguments wf_claim {_} s.
#[global] Arguments wf_worker {_} s.
#[global] Arguments wf_dep {_} s.
#[global] Arguments wf_acyclic {_} s.
#[global] Arguments wf_meta {_} s.
#[global] Arguments wf_output {_} s.
#[global] Arguments wf_exclusive {_} s.

Section Invariant.
Context {disciplined : bool}.
#[local] Abbreviation wf := (consistent disciplined).
#[local] Abbreviation claim_ok := (λ s t, claim_in disciplined (db_sessions s) (db_workers s) t).

(** ** The invariant and single statements *)

Lemma claim_ok_release s t st :
  st ≠ TaskStatusRunning → claim_ok s t → claim_ok s (release_to st t).
Proof. intros Hst Ht. destruct Ht. constructor; naive_solver. Qed.

(** A row whose new value is as good as the old one, and running only if the
    old one was. *)
Lemma wf_update_row s k t t' :
  wf s → db_tasks s !! k = Some t → claim_ok s t' → (running t' → running t) →
  wf (set_tasks <[k := t']> s).
Proof.
  intros Hwf Hk Hok Hrun.
  assert (∀ k', is_Some (db_tasks s !! k') → is_Some (<[k := t']> (db_tasks s) !! k')) as Hsome.
  { intros k' [x Hx]. rewrite lookup_insert. case_decide; eauto. }
  assert (∀ k' x, <[k := t']> (db_tasks s) !! k' = Some x →
    ∃ y, db_tasks s !! k' = Some y ∧ claim_ok s x ∧ (running x → running y)) as Hold.
  { intros k' x. rewrite lookup_insert. case_decide as Hkk; intros ?; simplify_eq; eauto.
    exists x. split_and!; [done|by eapply (wf_claim _ Hwf)|done]. }
  constructor; simpl.
  - intros k' x (y & Hy & _)%Hold. by eapply (wf_plan _ Hwf).
  - by intros k' x (y & Hy & Hc & _)%Hold.
  - apply (wf_worker _ Hwf).
  - intros p a b [??]%(wf_dep _ Hwf). eauto.
  - apply (wf_acyclic _ Hwf).
  - intros k' m Hm%(wf_meta _ Hwf). eauto.
  - intros p i path (? & ? & ?)%(wf_output _ Hwf). eauto.
  - intros Hd k1 k2 t1 t2 path Hne (y1 & Hy1 & _ & H1)%Hold (y2 & Hy2 & _ & H2)%Hold Hr1 Hr2.
    eapply (wf_exclusive _ Hwf Hd); eauto.
Qed.

Lemma update_task_ok k where_ set_ s n s' :
  update_task k where_ set_ s = (Ok n, s') →
  (n = 1%Z ∧ ∃ t, db_tasks s !! k = Some t ∧ where_ t = true ∧ task_fk_ok s (set_ t) = true ∧
                  s' = set_tasks <[k := set_ t]> s) ∨
  (n = 0%Z ∧ s' = s ∧ ∀ t, db_tasks s !! k = Some t → where_ t = false).
Proof.
  unfold update_task. intros Heq. destruct (db_tasks s !! k) as [t|]; [|naive_solver].
  destruct (where_ t) eqn:?; [|naive_solver].
  destruct (task_fk_ok s (set_ t)) eqn:?; simplify_eq. left. eauto 10.
Qed.

Lemma update_task_err k where_ set_ s e s' :
  update_task k where_ set_ s = (Err e, s') → s' = s.
Proof. unfold update_task. intros. repeat case_match; simplify_eq; done. Qed.

(** The owner-guarded rewrites: the new row is not running and unclaimed. *)
Definition settles (set_ : Task → Task) : Prop :=
  ∀ t, t_status (set_ t) ≠ TaskStatusRunning ∧
       t_claimed_by_session (set_ t) = None ∧ t_claimed_by_worker (set_ t) = None ∧
       (t_retry_count t ≤ t_retry_count (set_ t))%Z ∧ (t_reclaim_count t ≤ t_reclaim_count (set_ t))%Z.

Lemma settles_claim_ok set_ s t : settles set_ → claim_ok s t → claim_ok s (set_ t).
Proof.
  intros Hset [? ? ? ?]. destruct (Hset t) as (? & Hs & Hw & ? & ?).
  constructor; [done|by rewrite Hs|by rewrite Hw|lia].
Qed.

Lemma settles_release st : st ≠ TaskStatusRunning → settles (release_to st).
Proof. intros ? t. simpl. split_and!; done || lia. Qed.
Lemma settles_retry : settles retry_task.
Proof. intros t. simpl. split_and!; done || lia. Qed.
Lemma settles_fail c : settles (fail_task c).
Proof. intros t. simpl. split_and!; done || lia. Qed.
Lemma settles_reclaim : settles reclaim_task.
Proof. intros t. simpl. split_and!; done || lia. Qed.

Lemma triple_update_settles k where_ set_ :
  settles set_ → triple wf (update_task k where_ set_) (λ _, wf).
Proof.
  intros Hset s n s' Hwf [(_ & t & Hk & _ & _ & ->)|(_ & -> & _)]%update_task_ok; [|done].
  eapply wf_update_row; [done..|by eapply settles_claim_ok, (wf_claim _ Hwf)|].
  intros Hr. destruct (Hset t) as [Hn _]. by destruct Hn.
Qed.

(** A status change between two non-running statuses. *)
Lemma triple_update_status k where_ st :
  (∀ t, where_ t = true → ¬ running t) → st ≠ TaskStatusRunning →
  triple wf (update_task k where_ (with_status st)) (λ _, wf).
Proof.
  intros Hw Hst s n s' Hwf [(_ & t & Hk & Ht & _ & ->)|(_ & -> & _)]%update_task_ok; [|done].
  eapply wf_update_row; [done..| |done].
  destruct (wf_claim _ Hwf _ _ Hk) as [Hi ? ? ?].
  constructor; simpl; [|done..]. intros _. apply Hi. by apply Hw.
Qed.

Lemma triple_event_wf e : triple wf (insert_event e) (λ _, wf).
Proof.
  intros s a s' Hwf. unfold insert_event, sbind, sget. simpl.
  destruct (match e_project e with None => true | Some p => _ end); intros Heq;
    [unfold smod in Heq|unfold sfail in Heq]; simplify_eq.
  destruct Hwf. by constructor.
Qed.

Lemma wf_set_clock f s : wf s → wf (set_clock f s).
Proof. intros []. by constructor. Qed.
Lemma wf_set_hooks f s : wf s → wf (set_hooks f s).
Proof. intros []. by constructor. Qed.
Lemma wf_set_inputs f s : wf s → wf (set_inputs f s).
Proof. intros []. by constructor. Qed.
Lemma wf_set_events f s : wf s → wf (set_events f s).
Proof. intros []. by constructor. Qed.

(** ** Sessions and workers *)

(** Claims survive any change that keeps every session and the session of every
    worker. *)
Lemma claim_in_mono S1 S2 (W1 W2 : gmap string Worker) t :
  (∀ x, is_Some (S1 !! x) → is_Some (S2 !! x)) →
  (∀ w W, W1 !! w = Some W → ∃ W', W2 !! w = Some W' ∧ w_session W' = w_session W) →
  claim_in disciplined S1 W1 t → claim_in disciplined S2 W2 t.
Proof.
  intros HS HW [? ? Hw ?]. constructor; [done|by eauto| |done].
  intros w (W & HW1 & Heq)%Hw. destruct (HW _ _ HW1) as (W' & ? & Hs).
  exists W'. by rewrite Hs.
Qed.

Lemma wf_sessions_workers s S' W' :
  wf s →
  (∀ x, is_Some (db_sessions s !! x) → is_Some (S' !! x)) →
  (∀ w W, db_workers s !! w = Some W → ∃ Wn, W' !! w = Some Wn ∧ w_session Wn = w_session W) →
  (∀ w W, W' !! w = Some W → is_Some (S' !! w_session W)) →
  wf (set_sessions (λ _, S') (set_workers (λ _, W') s)).
Proof.
  intros Hwf HS HW Hfk. destruct Hwf as [H1 H2 H3 H4 H5 H6 H7 H8].
  constructor; simpl; try done. intros k t Hk. eapply claim_in_mono; [done..|]. by eapply H2.
Qed.

Lemma alter_some {V} (f : V → V) (m : gmap string V) k x :
  is_Some (m !! x) → is_Some (alter f k m !! x).
Proof. intros [v Hv]. rewrite lookup_alter. case_decide; subst; rewrite Hv; simpl; eauto. Qed.

Lemma wf_alter_session f k s : wf s → wf (set_sessions (alter f k) s).
Proof.
  intros Hwf. apply (wf_sessions_workers s (alter f k (db_sessions s)) (db_workers s)); [done| |eauto|].
  - intros x. apply alter_some.
  - intros w W Hw. by eapply alter_some, (wf_worker _ Hwf).
Qed.

Lemma wf_insert_session k x s : wf s → wf (set_sessions <[k := x]> s).
Proof.
  intros Hwf. apply (wf_sessions_workers s (<[k := x]> (db_sessions s)) (db_workers s)); [done| |eauto|].
  - intros y Hy. rewrite lookup_insert. case_decide; eauto.
  - intros w W Hw. rewrite lookup_insert. case_decide; [eauto|]. by eapply (wf_worker _ Hwf).
Qed.

Lemma wf_alter_worker f k s :
  (∀ w, w_session (f w) = w_session w) → wf s → wf (set_workers (alter f k) s).
Proof.
  intros Hf Hwf. change (wf (set_sessions (λ _, db_sessions s) (set_workers (λ _, alter f k (db_workers s)) s))).
  apply wf_sessions_workers; [done|done| |].
  - intros w W Hw. rewrite lookup_alter. case_decide; subst; rewrite ?Hw; simpl; eauto.
  - intros w W. rewrite lookup_alter. case_decide; [|by apply (wf_worker _ Hwf)].
    intros (W0 & HW0 & ->)%fmap_Some. rewrite Hf. by eapply (wf_worker _ Hwf).
Qed.

Lemma wf_insert_worker k x s :
  db_workers s !! k = None → is_Some (db_sessions s !! w_session x) → wf s →
  wf (set_workers <[k := x]> s).
Proof.
  intros Hk Hx Hwf. change (wf (set_sessions (λ _, db_sessions s) (set_workers (λ _, <[k := x]> (db_workers s)) s))).
  apply wf_sessions_workers; [done|done| |].
  - intros w W Hw. exists W. rewrite lookup_insert_ne; [done|]. intros ->. congruence.
  - intros w W. rewrite lookup_insert. case_decide; [by intros; simplify_eq|by apply (wf_worker _ Hwf)].
Qed.

(** ** Foreign-key actions *)

Lemma row_gone_true {V} (dead : string → V → bool) (m : gmap string V) k :
  row_gone dead m k = true ↔ ∃ v, m !! k = Some v ∧ dead k v = true.
Proof. unfold row_gone. destruct (m !! k); naive_solver. Qed.

Lemma delete_workers_worker dead s w W :
  db_workers (delete_workers dead s) !! w = Some W ↔ db_workers s !! w = Some W ∧ dead w W = false.
Proof. unfold delete_workers. simpl. by rewrite map_lookup_filter_Some. Qed.

Lemma delete_workers_task dead s k :
  db_tasks (delete_workers dead s) !! k = null_worker (row_gone dead (db_workers s)) <$> db_tasks s !! k.
Proof. unfold delete_workers. simpl. apply lookup_fmap. Qed.

Lemma null_worker_status gone t : t_status (null_worker gone t) = t_status t.
Proof. unfold null_worker. by repeat case_match. Qed.
Lemma null_session_status gone t : t_status (null_session gone t) = t_status t.
Proof. unfold null_session. by repeat case_match. Qed.

(** A pointwise change of task rows that keeps every status. *)
Lemma wf_map_tasks f s :
  (∀ t, t_status (f t) = t_status t) → wf s →
  (∀ k t, db_tasks s !! k = Some t → claim_ok s (f t)) →
  wf (set_tasks (fmap f) s).
Proof.
  intros Hf [H1 H2 H3 H4 H5 H6 H7 H8] Hc.
  assert (∀ k, is_Some (db_tasks s !! k) → is_Some ((f <$> db_tasks s) !! k)) as Hsome.
  { intros k [t Ht]. rewrite lookup_fmap, Ht. eauto. }
  assert (∀ k t, (f <$> db_tasks s) !! k = Some t → ∃ t0, db_tasks s !! k = Some t0 ∧ t = f t0) as Hold.
  { intros k t. rewrite lookup_fmap. intros (t0 & ? & ->)%fmap_Some. eauto. }
  constructor; simpl; try done.
  - intros k t (t0 & ? & ->)%Hold. eauto.
  - intros k t (t0 & ? & ->)%Hold. by eapply Hc.
  - intros p a b [??]%H4. eauto.
  - intros k m Hm%H6. eauto.
  - intros p i path (? & ? & ?)%H7. eauto.
  - intros Hd k1 k2 t1 t2 path ? (a & ? & ->)%Hold (b & ? & ->)%Hold.
    unfold running. rewrite !Hf. by eapply (H8 Hd).
Qed.

Lemma wf_delete_workers dead s : wf s → wf (delete_workers dead s).
Proof.
  intros Hwf. unfold delete_workers.
  set (gone := row_gone dead (db_workers s)).
  assert (wf (set_tasks (fmap (null_worker gone)) s)) as [H1 H2 H3 H4 H5 H6 H7 H8].
  { apply wf_map_tasks; [apply null_worker_status|done|]. intros k t Ht.
    pose proof (wf_claim _ Hwf _ _ Ht) as [Hi Hs Hw Hc].
    unfold null_worker. repeat case_match; [|exact (wf_claim _ Hwf _ _ Ht)..].
    constructor; simpl; try done. intros ?. by split; [apply Hi|]. }
  constructor; simpl; try done.
  - intros k t Hk. destruct (H2 k t Hk) as [Hi Hs Hw Hc]. constructor; [done|done| |done].
    intros w Hcw. destruct (Hw w Hcw) as (W & HW & Heq). exists W. split; [|done].
    apply map_lookup_filter_Some. split; [done|]. simpl in *.
    destruct (dead w W) eqn:Hdead; [|done]. exfalso.
    assert (gone w = true) as Hgone by (apply row_gone_true; eauto).
    rewrite lookup_fmap in Hk. apply fmap_Some in Hk as (t0 & _ & ->).
    unfold null_worker in Hcw. destruct (t_claimed_by_worker t0) as [w0|] eqn:Hw0; [|congruence].
    destruct (gone w0) eqn:Hg0; [done|]. congruence.
  - intros w W [HW _]%map_lookup_filter_Some. by eapply H3.
Qed.

Lemma delete_sessions_worker dead s w W :
  db_workers (delete_sessions dead s) !! w = Some W ↔
  db_workers s !! w = Some W ∧ row_gone dead (db_sessions s) (w_session W) = false.
Proof. unfold delete_sessions, delete_workers. simpl. by rewrite map_lookup_filter_Some. Qed.

Lemma delete_sessions_session dead s x X :
  db_sessions (delete_sessions dead s) !! x = Some X ↔ db_sessions s !! x = Some X ∧ dead x X = false.
Proof. unfold delete_sessions. simpl. by rewrite map_lookup_filter_Some. Qed.

Lemma delete_sessions_task dead s k :
  let gone := row_gone dead (db_sessions s) in
  db_tasks (delete_sessions dead s) !! k =
  null_session gone <$> (null_worker (row_gone (λ _ w, gone (w_session w)) (db_workers s)) <$> db_tasks s !! k).
Proof. unfold delete_sessions. simpl. by rewrite !lookup_fmap. Qed.

Lemma wf_delete_sessions dead s : wf s → wf (delete_sessions dead s).
Proof.
  intros Hwf. set (gone := row_gone dead (db_sessions s)).
  pose proof (wf_delete_workers (λ _ w, gone (w_session w)) s Hwf) as Hwf1.
  set (s1 := delete_workers (λ _ w, gone (w_session w)) s) in *.
  assert (∀ w W, db_workers s1 !! w = Some W → gone (w_session W) = false) as Halive.
  { intros w W [_ ?]%delete_workers_worker. done. }
  assert (wf (set_tasks (fmap (null_session gone)) s1)) as [H1 H2 H3 H4 H5 H6 H7 H8].
  { apply wf_map_tasks; [apply null_session_status|done|]. intros k t Ht.
    pose proof (wf_claim _ Hwf1 _ _ Ht) as [Hi Hs Hw Hc].
    unfold null_session. repeat case_match; [|exact (wf_claim _ Hwf1 _ _ Ht)..].
    constructor; simpl; try done; [intros ?; by split; [|apply Hi]|].
    intros w (W & HW & Heq)%Hw. exists W. split; [done|]. intros Hd. specialize (Heq Hd).
    pose proof (Halive _ _ HW). congruence. }
  assert (∀ x, gone x = false → is_Some (db_sessions s !! x) →
            is_Some (filter (λ kv, dead kv.1 kv.2 = false) (db_sessions s) !! x)) as Hkeep.
  { intros x Hx [X HX]. exists X. apply map_lookup_filter_Some. split; [done|]. simpl.
    unfold gone, row_gone in Hx. by rewrite HX in Hx. }
  change (delete_sessions dead s) with
    (set_hooks (filter (λ kv, gone kv.1.1.1 = false))
      (set_sessions (filter (λ kv, dead kv.1 kv.2 = false)) (set_tasks (fmap (null_session gone)) s1))).
  apply wf_set_hooks. constructor; simpl; try done.
  - intros k t Hk. destruct (H2 k t Hk) as [Hi Hs Hw Hc]. constructor; [done| |done|done].
    intros x Hx. apply Hkeep; [|by apply (Hs x)].
    rewrite lookup_fmap in Hk. apply fmap_Some in Hk as (t0 & _ & ->).
    unfold null_session in Hx. repeat case_match; simplify_eq/=; congruence.
  - intros w W HW. apply Hkeep; [by eapply Halive|by eapply H3].
Qed.

(** ** Creation statements *)

Lemma createTaskOn_ok o s s' :
  createTaskOn o s = (Ok tt, s') →
  db_tasks s !! (o_plan_id o, o_id o) = None ∧ is_Some (db_plans s !! o_plan_id o) ∧
  o_plan_id o ≠ "" ∧ o_id o ≠ "" ∧ o_description o ≠ "" ∧
  s' = set_tasks <[(o_plan_id o, o_id o) := new_task o (db_now s)]> s.
Proof.
  unfold createTaskOn, sfail. case_bool_decide as Hargs; [by intros; simplify_eq|].
  destruct (has _ (db_tasks s)) eqn:Hhas; [by intros; simplify_eq|].
  destruct (has (o_plan_id o) (db_plans s)) eqn:Hplan; simpl; [|by intros; simplify_eq].
  match goal with |- context [if ?b then _ else _] => destruct b end; [by intros; simplify_eq|].
  intros; simplify_eq. apply has_true in Hplan. apply bool_decide_eq_false in Hhas.
  rewrite <-eq_None_not_Some in Hhas. tauto.
Qed.

Lemma new_task_idle o now : ¬ running (new_task o now).
Proof. unfold running. simpl. by destruct (o_requires_approval o). Qed.

Lemma wf_insert_task s k t :
  wf s → db_tasks s !! k = None → is_Some (db_plans s !! k.1) →
  ¬ running t → claim_ok s t → wf (set_tasks <[k := t]> s).
Proof.
  intros [H1 H2 H3 H4 H5 H6 H7 H8] Hk Hp Hr Hc.
  assert (∀ k', is_Some (db_tasks s !! k') → is_Some (<[k := t]> (db_tasks s) !! k')) as Hsome.
  { intros k' [x Hx]. rewrite lookup_insert. case_decide; eauto. }
  constructor; simpl; try done.
  - intros k' x. rewrite lookup_insert. case_decide; [by intros; simplify_eq|apply H1].
  - intros k' x. rewrite lookup_insert. case_decide; [by intros; simplify_eq|apply H2].
  - intros p a b [??]%H4. eauto.
  - intros k' m Hm%H6. eauto.
  - intros p i path (? & ? & ?)%H7. eauto.
  - intros Hd k1 k2 t1 t2 path Hne. simpl. rewrite !lookup_insert.
    repeat case_decide; subst; intros ?? Hr1 Hr2; simplify_eq; try done.
    by eapply H8.
Qed.

Lemma claim_ok_fresh s t :
  t_claimed_by_session t = None → t_claimed_by_worker t = None →
  t_retry_count t = 0%Z → t_reclaim_count t = 0%Z → claim_ok s t.
Proof. intros H1 H2 H3 H4. constructor; rewrite ?H1, ?H2, ?H3, ?H4; done || lia. Qed.

(** The task exists and no worker runs it: what [write_graph_node] relies on
    while it adds reservations. *)
Definition idle_task (s : DB) (k : string * string) : Prop :=
  ∃ t, db_tasks s !! k = Some t ∧ ¬ running t.

Lemma triple_createTask o :
  triple wf (createTaskOn o) (λ _ s, wf s ∧ idle_task s (o_plan_id o, o_id o)).
Proof.
  intros s [] s' Hwf (Hk & Hp & _ & _ & _ & ->)%createTaskOn_ok. split.
  - apply wf_insert_task; [done..|apply new_task_idle|by apply claim_ok_fresh].
  - exists (new_task o (db_now s)). split; [apply lookup_insert_eq|apply new_task_idle].
Qed.

Lemma canonical_idem path :
  canonicalReservationPath (canonicalReservationPath path) = canonicalReservationPath path.
Proof.
  unfold canonicalReservationPath.
  destruct (decide (path = "")); [done|].
  destruct (decide (Clean path = ".")) as [|Hdot]; [done|].
  case_decide as He; [done|]. rewrite Clean_idem. by rewrite decide_False.
Qed.

Lemma triple_reserve_output p i path mode :
  triple (λ s, wf s ∧ (disciplined = true → idle_task s (p, i))) (reserveTaskOutputOn p i path mode)
    (λ _ s, wf s ∧ (disciplined = true → idle_task s (p, i))).
Proof.
  intros s [] s' [Hwf Hidle]. unfold reserveTaskOutputOn, sfail.
  set (c := canonicalReservationPath path).
  case_decide as Hc; [by intros; simplify_eq|].
  case_bool_decide; simpl; [|by intros; simplify_eq].
  case_bool_decide; [by intros; simplify_eq|].
  destruct (has _ (db_tasks s)) eqn:Hhas; simpl; intros; simplify_eq.
  split; [|done]. apply has_true in Hhas.
  destruct Hwf as [H1 H2 H3 H4 H5 H6 H7 H8]. constructor; simpl; try done.
  - intros p' i' path' [Heq|Hin]%elem_of_union; [|by apply H7].
    apply elem_of_singleton in Heq. simplify_eq. split_and!; [done..|apply canonical_idem].
  - intros Hd. destruct (Hidle Hd) as (t & Ht & Hr). intros k1 k2 t1 t2 path' Hne Hk1 Hk2 Hr1 Hr2 Hsame.
    assert (∀ k t', db_tasks s !! k = Some t' → running t' → (k.1, k.2) ≠ (p, i)) as Hnot.
    { intros [] t' Hk Hrt [= -> ->]. by simplify_eq. }
    simpl. rewrite !elem_of_union, !elem_of_singleton.
    intros [Heq|Hin1] [Heq'|Hin2];
      [exfalso; eapply Hnot; [| |by simplify_eq]; done..|by eapply (H8 Hd k1 k2)].
Qed.

Lemma triple_reserve_input p i path sha (I : DB → Prop) :
  (∀ f s, I s → I (set_inputs f s)) → triple I (reserveTaskInputOn p i path sha) (λ _, I).
Proof.
  intros HI s [] s' Hs. unfold reserveTaskInputOn, sfail.
  case_decide; [by intros; simplify_eq|].
  destruct (has _ (db_inputs s)); [by intros; simplify_eq|].
  destruct (has _ (db_tasks s)); simpl; intros; simplify_eq. by apply HI.
Qed.

Lemma wf_insert_metadata k m s : wf s → is_Some (db_tasks s !! k) → wf (set_metadata <[k := m]> s).
Proof.
  intros [H1 H2 H3 H4 H5 H6 H7 H8] Hk. constructor; simpl; try done.
  intros k' m'. rewrite lookup_insert. case_decide; [by intros; simplify_eq|apply H6].
Qed.

Lemma triple_put_metadata p i g tm j k :
  triple (λ s, wf s ∧ idle_task s k) (putTaskMetadataOn p i g tm j) (λ _ s, wf s ∧ idle_task s k).
Proof.
  intros s [] s' [Hwf Hidle]. unfold putTaskMetadataOn, sfail.
  case_decide; [by intros; simplify_eq|].
  destruct (has _ (db_metadata s)); [by intros; simplify_eq|].
  destruct (has _ (db_tasks s)) eqn:Hhas; simpl; intros; simplify_eq.
  split; [|done]. apply has_true in Hhas. by apply wf_insert_metadata.
Qed.

Lemma triple_update_metadata k where_ set_ :
  triple wf (update_metadata k where_ set_) (λ _, wf).
Proof.
  intros s n s' Hwf. unfold update_metadata.
  destruct (db_metadata s !! k) as [m|] eqn:Hm; [|by intros; simplify_eq].
  destruct (where_ s m); intros; simplify_eq; [|done].
  apply wf_insert_metadata; [done|]. by eapply (wf_meta _ Hwf).
Qed.

(** ** Plans *)

Lemma same_project_sym s p q : same_project s p q = same_project s q p.
Proof. unfold same_project. repeat case_match; try done. apply bool_decide_ext. done. Qed.

Lemma same_project_fmap s p q :
  same_project s p q =
  match p_project <$> db_plans s !! p, p_project <$> db_plans s !! q with
  | Some a, Some b => bool_decide (a = b)
  | _, _ => false
  end.
Proof. unfold same_project. by destruct (db_plans s !! p), (db_plans s !! q). Qed.

Lemma same_project_ext s s' p q :
  (∀ x, p_project <$> db_plans s' !! x = p_project <$> db_plans s !! x) →
  same_project s' p q = same_project s p q.
Proof. intros Hx. rewrite !same_project_fmap. by rewrite !Hx. Qed.

Lemma triple_createPlan uuid o : triple wf (createPlanOn uuid o) (λ _, wf).
Proof.
  intros s id s' Hwf. unfold createPlanOn, sfail. case_bool_decide; [by intros; simplify_eq|].
  destruct (has uuid (db_plans s)) eqn:Hhas; simpl; [by intros; simplify_eq|].
  destruct (existsb _ _); [by intros; simplify_eq|].
  case_bool_decide; simpl; intros; simplify_eq.
  apply bool_decide_eq_false in Hhas. rewrite <-eq_None_not_Some in Hhas.
  destruct Hwf as [H1 H2 H3 H4 H5 H6 H7 H8]. constructor; simpl; try done.
  - intros k t Hk. rewrite lookup_insert. case_decide; [eauto|by eapply H1].
  - intros Hd k1 k2 t1 t2 path Hne Hk1 Hk2 Hr1 Hr2. unfold same_project. simpl.
    pose proof (H1 _ _ Hk1) as [P1 HP1]. pose proof (H1 _ _ Hk2) as [P2 HP2].
    rewrite !lookup_insert_ne by congruence. intros Hsame.
    by eapply (H8 Hd k1 k2).
Qed.

Lemma triple_setPlanStatus id st : triple wf (setPlanStatusOn id st) (λ _, wf).
Proof.
  intros s [] s' Hwf. unfold setPlanStatusOn. destruct (has _ _); intros; simplify_eq.
  destruct Hwf as [H1 H2 H3 H4 H5 H6 H7 H8]. constructor; simpl; try done.
  - intros k t Hk. by eapply alter_some, H1.
  - intros Hd k1 k2 t1 t2 path Hne Hk1 Hk2 Hr1 Hr2 Hsame. eapply (H8 Hd k1 k2); [done..|].
    rewrite <-Hsame. symmetry. apply same_project_ext. intros p. simpl. rewrite lookup_alter.
    case_decide; subst; [|done]. by destruct (db_plans s !! p).
Qed.

(** ** Dependency edges *)

Lemma tc_add_edge {A} (R R' : relation A) (a b : A) :
  (∀ u v, R' u v → R u v ∨ (u = a ∧ v = b)) →
  ∀ x y, tc R' x y → tc R x y ∨ (rtc R x a ∧ rtc R b y).
Proof.
  intros HR x y Hxy. induction Hxy as [x y Hxy|x z y Hxz Hzy IH].
  - destruct (HR _ _ Hxy) as [?|[-> ->]]; [left; by apply tc_once|by right].
  - destruct (HR _ _ Hxz) as [Hr|[-> ->]], IH as [IH|[IH1 IH2]].
    + left. by eapply tc_l.
    + right. split; [by eapply rtc_l|done].
    + right. split; [done|by apply tc_rtc].
    + right. done.
Qed.

Lemma size_insert_le (x : string) (X : gset string) : size ({[x]} ∪ X) ≤ S (size X).
Proof.
  rewrite size_union_alt, size_singleton. apply le_n_S, subseteq_size. set_solver.
Qed.

Lemma list_to_set_size (l : list string) : size (list_to_set l : gset string) ≤ length l.
Proof.
  induction l as [|x l IH]; [done|simpl].
  pose proof (size_insert_le x (list_to_set l)). lia.
Qed.

Section EdgeFacts.
Context `{SqlEngine}.

Lemma depends_on_elem s p node m : m ∈ depends_on s p node ↔ dep_edge s p node m.
Proof.
  unfold depends_on, dep_edge. rewrite (order_by_perm string (λ _, [])).
  rewrite list_elem_of_fmap. split.
  - intros ([[p' n'] m'] & -> & Hin). rewrite list_elem_of_filter, elem_of_elements in Hin.
    naive_solver.
  - intros Hin. exists (p, node, m). rewrite list_elem_of_filter, elem_of_elements. done.
Qed.

Lemma dfs_dep_edge s p a b : rtc (dfs_edge (depends_on s p)) a b ↔ rtc (dep_edge s p) a b.
Proof.
  split; intros Hr; (eapply rtc_congruence with (f := id); [|exact Hr]); intros x y;
    unfold dfs_edge; by rewrite depends_on_elem.
Qed.

(** The cycle check always answers, and its answer is reachability. *)
Lemma wouldCreateCycleOn_total s p task dep : wouldCreateCycleOn s p task dep ≠ None.
Proof.
  unfold wouldCreateCycleOn. intros Hnone%fmap_None. revert Hnone.
  apply (visit_enough _ _ ({[dep]} ∪ list_to_set (snd <$> elements (db_deps s)))).
  - intros x y _. rewrite depends_on_elem. intros Hy. apply elem_of_union_r.
    apply elem_of_list_to_set, list_elem_of_fmap. exists (p, x, y). by rewrite elem_of_elements.
  - set_solver.
  - rewrite difference_empty_L. unfold cycle_fuel.
    assert (size (list_to_set (C:=gset string) (snd <$> elements (db_deps s))) ≤ size (db_deps s)) as Hle.
    { etrans; [apply list_to_set_size|]. by rewrite length_fmap. }
    pose proof (size_insert_le dep (list_to_set (snd <$> elements (db_deps s)))). lia.
Qed.

Lemma wouldCreateCycleOn_true s p task dep b :
  wouldCreateCycleOn s p task dep = Some b → b = true ↔ rtc (dep_edge s p) dep task.
Proof.
  unfold wouldCreateCycleOn. intros ([b' v] & Hv & Hb)%fmap_Some. simpl in Hb. subst b'.
  rewrite <-dfs_dep_edge. by eapply visit_correct.
Qed.

Lemma addDepOn_ok p a b s s' :
  addDepOn p a b s = (Ok tt, s') →
  a ≠ b ∧ ¬ rtc (dep_edge s p) b a ∧ (p, a, b) ∉ db_deps s ∧
  is_Some (db_tasks s !! (p, a)) ∧ is_Some (db_tasks s !! (p, b)) ∧
  s' = set_deps (λ d, {[(p, a, b)]} ∪ d) s.
Proof.
  unfold addDepOn, sfail. case_decide as Hab; [by intros; simplify_eq|].
  destruct (wouldCreateCycleOn s p a b) as [[]|] eqn:Hc; [by intros; simplify_eq| |by intros; simplify_eq].
  case_bool_decide as Hin; [by intros; simplify_eq|].
  destruct (has (p, a) _) eqn:Ha, (has (p, b) _) eqn:Hb; simpl; intros; simplify_eq.
  apply has_true in Ha, Hb. pose proof (wouldCreateCycleOn_true _ _ _ _ _ Hc). naive_solver.
Qed.

Lemma triple_addDep p a b : triple wf (addDepOn p a b) (λ _, wf).
Proof.
  intros s [] s' Hwf (Hab & Hnr & _ & Ha & Hb & ->)%addDepOn_ok.
  destruct Hwf as [H1 H2 H3 H4 H5 H6 H7 H8]. constructor; simpl; try done.
  - intros p' a' b'. rewrite elem_of_union, elem_of_singleton.
    intros [?|?]; [by simplify_eq|by apply H4].
  - intros p' x Hx. destruct (decide (p' = p)) as [->|Hp].
    + eapply (tc_add_edge (dep_edge s p)) in Hx; [|intros u v; unfold dep_edge; simpl;
        rewrite elem_of_union, elem_of_singleton; intros [?|?]; [right; by simplify_eq|by left]].
      destruct Hx as [Hx|[Hx1 Hx2]]; [by eapply H5|]. apply Hnr. by etrans.
    + apply (H5 p' x). revert Hx. apply (tc_congruence id). intros u v. unfold dep_edge. simpl.
      rewrite elem_of_union, elem_of_singleton. intros [?|?]; [by simplify_eq|done].
Qed.
End EdgeFacts.

(** ** Deletion *)

Lemma wf_cascade_plan p s : wf s → wf (cascade_plan p s).
Proof.
  intros [H1 H2 H3 H4 H5 H6 H7 H8].
  assert (∀ k t, filter (λ kv, kv.1.1 ≠ p) (db_tasks s) !! k = Some t ↔
                 db_tasks s !! k = Some t ∧ k.1 ≠ p) as Htask.
  { intros k t. apply map_lookup_filter_Some. }
  assert (∀ k, k.1 ≠ p → is_Some (db_tasks s !! k) →
               is_Some (filter (λ kv, kv.1.1 ≠ p) (db_tasks s) !! k)) as Hkeep.
  { intros k Hk [t Ht]. exists t. by apply Htask. }
  assert (∀ w W, (unassign_plan p (db_tasks s) <$> db_workers s) !! w = Some W →
            ∃ W0, db_workers s !! w = Some W0 ∧ w_session W = w_session W0) as Hwork.
  { intros w W. rewrite lookup_fmap. intros (W0 & HW0 & ->)%fmap_Some. exists W0. split; [done|].
    unfold unassign_plan. by repeat case_match. }
  constructor; simpl.
  - intros k t [Hk Hp]%Htask. rewrite lookup_delete_ne by done. by eapply H1.
  - intros k t [Hk _]%Htask. apply (claim_in_mono (db_sessions s) _ (db_workers s)); [done| |by eapply H2].
    simpl. intros w W HW. exists (unassign_plan p (db_tasks s) W). rewrite lookup_fmap, HW. split; [done|].
    unfold unassign_plan. by repeat case_match.
  - intros w W (W0 & HW0 & ->)%Hwork. by eapply H3.
  - intros p' a b [Hp Hd]%elem_of_filter. apply H4 in Hd as [??]. by split; apply Hkeep.
  - intros p' a Ha. apply (H5 p' a). revert Ha. apply (tc_congruence id). intros x y.
    unfold dep_edge. simpl. by intros [_ ?]%elem_of_filter.
  - intros k m [Hm Hp]%map_lookup_filter_Some. apply Hkeep; [done|]. by eapply H6.
  - intros p' i path [Hp Ho]%elem_of_filter. apply H7 in Ho as (? & ? & ?). split_and!; [|done..].
    by apply Hkeep.
  - intros Hd k1 k2 t1 t2 path Hne [Hk1 Hp1]%Htask [Hk2 Hp2]%Htask Hr1 Hr2 Hs.
    intros [_ Ho1]%elem_of_filter [_ Ho2]%elem_of_filter.
    eapply (H8 Hd k1 k2); [done..| |done|done].
    rewrite <-Hs. unfold same_project. simpl. by rewrite !lookup_delete_ne.
Qed.

(** ** Claims *)

Lemma running_task_true s k : running_task s k = true ↔ ∃ t, db_tasks s !! k = Some t ∧ running t.
Proof.
  unfold running_task. destruct (db_tasks s !! k); [rewrite bool_decide_eq_true|]; naive_solver.
Qed.

Lemma reserved_by_peer_elem s p i path :
  path ∈ reserved_by_peer s p i ↔
  (p, i, path) ∈ db_outputs s ∧
  ∃ q j, (q, j, path) ∈ db_outputs s ∧ (q, j) ≠ (p, i) ∧
         same_project s p q = true ∧ running_task s (q, j) = true.
Proof.
  unfold reserved_by_peer. rewrite list_elem_of_fmap. split.
  - intros ([[p' i'] path'] & -> & Hin). rewrite list_elem_of_filter, elem_of_elements in Hin.
    destruct Hin as [[Hk Hex] Hin]. simplify_eq/=. split; [done|].
    apply existsb_exists in Hex as ([[q j] path] & Hq & Hb).
    rewrite <-list_elem_of_In, elem_of_elements in Hq. simpl in Hb.
    rewrite !andb_true_iff, negb_true_iff, bool_decide_eq_true, bool_decide_eq_false in Hb.
    destruct Hb as [[[-> ?] ?] ?]. eauto 10.
  - intros (Hin & q & j & Hq & Hne & Hs & Hr). exists (p, i, path). split; [done|].
    rewrite list_elem_of_filter, elem_of_elements. split; [|done]. split; [done|].
    apply existsb_exists. exists (q, j, path). rewrite <-list_elem_of_In, elem_of_elements.
    split; [done|]. simpl. rewrite !bool_decide_true by done. rewrite bool_decide_false by done.
    by rewrite Hs, Hr.
Qed.

Lemma conflict_free `{SqlEngine} s p i :
  wf s → outputReservationConflict p i s = "" → reserved_by_peer s p i = [].
Proof.
  intros Hwf. unfold outputReservationConflict.
  destruct (order_by (λ _, []) (reserved_by_peer s p i)) as [|path l] eqn:Ho; simpl.
  - intros _. apply Permutation_nil. rewrite <-Ho. apply order_by_perm.
  - intros ->. assert ("" ∈ reserved_by_peer s p i) as Hin.
    { rewrite <-(order_by_perm _ (λ _, [])), Ho. set_solver. }
    apply reserved_by_peer_elem in Hin as [Hin _].
    by destruct (wf_output _ Hwf _ _ _ Hin) as (_ & ? & _).
Qed.

Lemma wf_claim_task s p i t sess w W :
  wf s → db_tasks s !! (p, i) = Some t → reserved_by_peer s p i = [] →
  is_Some (db_sessions s !! sess) → db_workers s !! w = Some W → (disciplined = true → w_session W = sess) →
  wf (set_tasks <[(p, i) := claim_task sess w t]> s).
Proof.
  intros Hwf Hk Hfree Hses Hw Hsess. pose proof Hwf as [H1 H2 H3 H4 H5 H6 H7 H8].
  assert (∀ k', is_Some (db_tasks s !! k') → is_Some (<[(p, i) := claim_task sess w t]> (db_tasks s) !! k')) as Hsome.
  { intros k' [y Hy]. rewrite lookup_insert. case_decide; eauto. }
  assert (∀ path k2 t2, (p, i, path) ∈ db_outputs s → (k2.1, k2.2, path) ∈ db_outputs s → k2 ≠ (p, i) →
            db_tasks s !! k2 = Some t2 → running t2 → same_project s p k2.1 = true → False) as Hno.
  { intros path [q j] t2 Hin Hin2 Hne Hk2 Hr Hs.
    assert (path ∈ reserved_by_peer s p i) as Hp; [|rewrite Hfree in Hp; set_solver].
    apply reserved_by_peer_elem. split; [done|]. exists q, j.
    split_and!; [done..|]. apply running_task_true. eauto. }
  constructor; simpl; try done.
  - intros k' x. rewrite lookup_insert. case_decide; [subst; intros _; by eapply H1|apply H1].
  - intros k' x. rewrite lookup_insert. case_decide; [|apply H2].
    intros. simplify_eq. destruct (H2 _ _ Hk) as [? ? ? ?]. constructor; simpl; [done| | |done].
    + intros x ?. by simplify_eq.
    + intros w' ?. simplify_eq. exists W. split; [done|]. intros Hd. by rewrite (Hsess Hd).
  - intros p' a b [??]%H4. eauto.
  - intros k' m Hm%H6. eauto.
  - intros p' i' path (? & ? & ?)%H7. eauto.
  - intros Hd k1 k2 t1 t2 path Hne. specialize (H8 Hd). simpl. rewrite !lookup_insert. clear Hd Hsess.
    repeat case_decide; subst; intros ?? Hr1 Hr2 Hs Ho1 Ho2; simplify_eq/=; try done.
    + by eapply (Hno path k2).
    + rewrite same_project_sym in Hs. by eapply (Hno path k1).
    + by eapply (H8 k1 k2).
Qed.

Lemma claim_row_ok p i sess w s s' :
  claim_row p i sess w s = (Ok tt, s') →
  ∃ t, db_tasks s !! (p, i) = Some t ∧ claimable (t_status t) = true ∧
       is_Some (db_sessions s !! sess) ∧ is_Some (db_workers s !! w) ∧
       s' = set_events (λ es, es ++ [plain_event p i "task.claimed" sess "worker" (PayloadStruct zero_payload)])
              (set_tasks <[(p, i) := claim_task sess w t]> s).
Proof.
  unfold claim_row. intros (n & s1 & Hu & He)%sbind_ok.
  apply update_task_ok in Hu as [(-> & t & Hk & Hc & Hfk & ->)|(-> & -> & _)]; [|done].
  exists t. unfold task_fk_ok in Hfk. simpl in Hfk. apply andb_true_iff in Hfk as [Hf1 Hf2].
  apply has_true in Hf1, Hf2. simpl in He. unfold insert_event, sbind, sget, smod in He. simpl in He.
  simplify_eq. done.
Qed.

(** The session of a claim is the session its worker was created under. *)
Definition worker_of (s : DB) (sess w : string) : Prop :=
  ∃ W, db_workers s !! w = Some W ∧ w_session W = sess.

Lemma triple_claim_row p i sess w :
  triple (λ s, wf s ∧ (disciplined = true → worker_of s sess w) ∧ reserved_by_peer s p i = []) (claim_row p i sess w) (λ _, wf).
Proof.
  intros s [] s' (Hwf & Hown & Hfree) (t & Hk & _ & Hx & [W HW] & ->)%claim_row_ok.
  apply wf_set_events. eapply wf_claim_task; [done..|].
  intros Hd. destruct (Hown Hd) as (W' & HW' & <-). congruence.
Qed.

(** ** Graph import *)

Section GraphImport.
Context `{SqlEngine}.

Lemma triple_write_node p g : triple wf (write_graph_node p g) (λ _, wf).
Proof.
  unfold write_graph_node. set (k := (p, o_id (g_task g))).
  eapply triple_bind; [apply triple_createTask|]. intros [].
  apply (triple_bind _ _ _ (λ _ s, wf s ∧ idle_task s k)).
  { case_decide; [by apply triple_ret|]. apply triple_put_metadata. }
  intros []. apply (triple_bind _ _ _ (λ _ s, wf s ∧ idle_task s k)).
  { apply triple_for. intros x _. apply triple_reserve_input.
    intros f s [? ?]. split; [by apply wf_set_inputs|done]. }
  intros [].
  apply (triple_conseq _ (λ s, wf s ∧ (disciplined = true → idle_task s k)) _ _
    (λ _ s, wf s ∧ (disciplined = true → idle_task s k))); [tauto| |tauto].
  apply triple_for. intros x _. apply triple_reserve_output.
Qed.

Lemma triple_write_graph p ts : triple wf (writeGraphTasksOn p ts) (λ _, wf).
Proof.
  unfold writeGraphTasksOn. apply (triple_bind _ _ _ (λ _, wf)).
  - apply triple_for. intros g _. apply triple_write_node.
  - intros []. apply triple_for. intros g _. apply triple_for. intros d _. apply triple_addDep.
Qed.
End GraphImport.
End Invariant.

(** With disciplined clients, and whatever they do. *)
Abbreviation wf := (consistent true).
Abbreviation sound := (consistent false).
Definition claim_ok (s : DB) (t : Task) : Prop := claim_in true (db_sessions s) (db_workers s) t.

#[export] Hint Resolve settles_release settles_retry settles_fail settles_reclaim : triple.
#[export] Hint Resolve wf_set_clock wf_set_hooks wf_set_inputs wf_set_events
  triple_event_wf triple_update_settles : triple.
