(* ===== verification/StoreSpec.v ===== *)
(** * What each store operation does, branch by branch

    Closed forms of the task operations: the state and the result of every
    call, as one case analysis on the row it addresses. *)
From S2P Require Import Prelude GoLib StoreModel StoreSql StoreTasks StoreWorkers Dfs StoreGraph StoreMeta StoreInv.

(** ** Statements *)

Lemma insert_event_run e s :
  e_project e = None → insert_event e s = (Ok tt, set_events (λ es, es ++ [e]) s).
Proof. intros He. unfold insert_event, sbind, sget, smod. by rewrite He. Qed.

Lemma update_settles_run k where_ set_ s :
  settles set_ →
  update_task k where_ set_ s =
  match db_tasks s !! k with
  | Some t => if where_ t then (Ok 1%Z, set_tasks <[k := set_ t]> s) else (Ok 0%Z, s)
  | None => (Ok 0%Z, s)
  end.
Proof.
  intros Hset. unfold update_task. destruct (db_tasks s !! k) as [t|]; [|done].
  destruct (where_ t); [|done]. unfold task_fk_ok.
  destruct (Hset t) as (_ & -> & -> & _). done.
Qed.

(** The state an owner's report leaves: the row rewritten, one event appended. *)
Definition reported (k : string * string) (t' : Task) (e : Event) (s : DB) : DB :=
  set_events (λ es, es ++ [e]) (set_tasks <[k := t']> s).

(** A report is accepted exactly from the session that owns the running task. *)
Definition reporter (s : DB) (k : string * string) (sessionID : string) : option Task :=
  match db_tasks s !! k with
  | Some t => if owned_running sessionID t then Some t else None
  | None => None
  end.

Lemma reporter_some s k x t :
  reporter s k x = Some t ↔ db_tasks s !! k = Some t ∧ running t ∧ t_claimed_by_session t = Some x.
Proof.
  unfold reporter, owned_running, sql_eq, running. destruct (db_tasks s !! k) as [t'|]; [|naive_solver].
  repeat case_bool_decide; simpl; naive_solver.
Qed.

(** [update; if n == 0 { return ErrTaskNotOwnedRunning }; event]. *)
Lemma report_run k sessionID set_ e s :
  settles set_ → e_project e = None →
  (let! n := update_task k (owned_running sessionID) set_ in
   if (n =? 0)%Z then sfail ErrTaskNotOwnedRunning else insert_event e) s =
  match reporter s k sessionID with
  | Some t => (Ok tt, reported k (set_ t) e s)
  | None => (Err ErrTaskNotOwnedRunning, s)
  end.
Proof.
  intros Hset He. unfold sbind, reporter. rewrite update_settles_run by done.
  destruct (db_tasks s !! k) as [t|]; [|done].
  destruct (owned_running sessionID t); [|done]. simpl. by rewrite ?insert_event_run.
Qed.

Lemma atomically_run {S E A} (m : SM S E A) s r s' :
  m s = (r, s') → (∀ e, r = Err e → s' = s) → atomically m s = (r, s').
Proof. intros Hm He. unfold atomically. rewrite Hm. destruct r; [done|]. by rewrite (He e). Qed.

(** ** Reports *)

Lemma MarkDone_run `{SqlEngine} p i x ev s :
  MarkDone p i x ev s =
  match reporter s (p, i) x with
  | Some t =>
      let s' := reported (p, i) (release_to TaskStatusDone t)
                  (plain_event p i "worker.completed" x "worker" (PayloadJSON ev)) s in
      (Ok (Ready p s'), s')
  | None => (Err ErrTaskNotOwnedRunning, s)
  end.
Proof.
  unfold MarkDone, sbind at 1, atomically.
  rewrite report_run by (done || by apply settles_release). by destruct (reporter s (p, i) x).
Qed.

Lemma ReleaseClaim_run p i x reason s :
  ReleaseClaim p i x reason s =
  match reporter s (p, i) x with
  | Some t => (Ok tt, reported (p, i) (release_to TaskStatusPending t)
                        (plain_event p i "task.released" x "orch" (PayloadStruct (reason_payload reason))) s)
  | None => (Err ErrTaskNotOwnedRunning, s)
  end.
Proof. unfold ReleaseClaim. by rewrite report_run by (done || by apply settles_release). Qed.

Definition block_kind (payload : EventPayload) : string :=
  if decide (pl_needs_context payload = []) then "task.blocked" else "task.context_requested".

Lemma MarkBlocked_run p i x payload s :
  MarkBlocked p i x payload s =
  match reporter s (p, i) x with
  | Some t => (Ok tt, reported (p, i) (release_to TaskStatusBlocked t)
                        (plain_event p i (block_kind payload) x "worker" (PayloadStruct payload)) s)
  | None => (Err ErrTaskNotOwnedRunning, s)
  end.
Proof.
  unfold MarkBlocked, atomically. rewrite report_run by (done || by apply settles_release).
  by destruct (reporter s (p, i) x).
Qed.

Lemma MarkFailed_run p i x payload maxRetries s :
  MarkFailedWithPayload p i x payload maxRetries s =
  match reporter s (p, i) x with
  | Some t =>
      if (t_retry_count t + 1 <=? maxRetries)%Z
      then (Ok true, reported (p, i) (retry_task t)
              (plain_event p i "task.failed" x "worker" (PayloadStruct payload)) s)
      else (Ok false, reported (p, i) (fail_task (pl_failure_category payload) t)
              (plain_event p i "task.failed_terminal" x "worker" (PayloadStruct payload)) s)
  | None => (Err ErrTaskNotOwnedRunning, s)
  end.
Proof.
  unfold MarkFailedWithPayload, atomically, sbind, sget, reporter.
  destruct (db_tasks s !! (p, i)) as [t|] eqn:Hk; [|done].
  destruct (owned_running x t) eqn:Ho; [|done].
  destruct (t_retry_count t + 1 <=? maxRetries)%Z;
    rewrite update_settles_run by (apply settles_retry || apply settles_fail);
    rewrite Hk, Ho; simpl; by rewrite ?insert_event_run.
Qed.

(** ** Approval and gates *)

Lemma ApproveTask_run {disciplined} p i s :
  consistent disciplined s →
  ApproveTask p i s =
  match db_tasks s !! (p, i) with
  | None => (Ok (false, false), s)
  | Some t =>
      if decide (t_status t = TaskStatusReadyPendingApproval)
      then (Ok (true, true), set_tasks <[(p, i) := with_status TaskStatusReady t]> s)
      else (Ok (true, false), s)
  end.
Proof.
  intros Hwf. unfold ApproveTask, atomically, sbind, sget, update_task.
  destruct (db_tasks s !! (p, i)) as [t|] eqn:Hk; simpl; [|done].
  case_bool_decide as Hst; case_decide; simplify_eq/=; try done.
  rewrite Hk. rewrite bool_decide_true by done.
  destruct (claim_idle _ _ _ (wf_claim _ Hwf _ _ Hk)) as [H1 H2]; [unfold running; congruence|].
  unfold task_fk_ok. simpl. by rewrite H1, H2.
Qed.

Lemma dispatchable_idle t : dispatchable (t_status t) = true → ¬ running t.
Proof. unfold running. by destruct (t_status t). Qed.
Lemma claimable_idle t : claimable (t_status t) = true → ¬ running t.
Proof. unfold running. by destruct (t_status t). Qed.

(** A status rewrite of an idle row cannot violate a reference. *)
Lemma update_idle_run {disciplined} k where_ st s :
  consistent disciplined s → (∀ t, where_ t = true → ¬ running t) →
  update_task k where_ (with_status st) s =
  match db_tasks s !! k with
  | Some t => if where_ t then (Ok 1%Z, set_tasks <[k := with_status st t]> s) else (Ok 0%Z, s)
  | None => (Ok 0%Z, s)
  end.
Proof.
  intros Hwf Hidle. unfold update_task. destruct (db_tasks s !! k) as [t|] eqn:Hk; [|done].
  destruct (where_ t) eqn:Hw; [|done]. unfold task_fk_ok. simpl.
  by destruct (claim_idle _ _ _ (wf_claim _ Hwf _ _ Hk) (Hidle _ Hw)) as [-> ->].
Qed.

Definition block_event (p i : string) (st : TaskStatus) (reason : string) : Event :=
  service_event p i ("task." +:+ task_status_text st) (PayloadStruct (reason_payload reason)).

Lemma markMetadataBlocked_run {disciplined} p i st reason s :
  consistent disciplined s →
  markMetadataBlocked p i st reason s =
  match db_tasks s !! (p, i) with
  | None => (Err ErrTaskNotRunning, s)
  | Some t =>
      if negb (dispatchable (t_status t)) then (Err ErrTaskNotRunning, s)
      else match db_metadata s !! (p, i) with
           | None => (Err ErrTaskMetadataMissing, s)
           | Some m =>
               let s' := set_metadata <[(p, i) := with_blocked_reason reason m]>
                           (set_tasks <[(p, i) := with_status st t]> s) in
               if decide (t_status t = st) then (Ok false, s')
               else (Ok true, set_events (λ es, es ++ [block_event p i st reason]) s')
           end
  end.
Proof.
  intros Hwf. unfold markMetadataBlocked, atomically, sbind, sget.
  destruct (db_tasks s !! (p, i)) as [t|] eqn:Hk; simpl; [|done].
  rewrite update_idle_run by (done || apply dispatchable_idle). rewrite Hk.
  destruct (dispatchable (t_status t)); simpl; [|done]. unfold update_metadata. simpl.
  destruct (db_metadata s !! (p, i)) as [m|]; simpl; [|done].
  by case_bool_decide; case_decide.
Qed.

Lemma ClearTaskBlock_run {disciplined} p i blocked s :
  consistent disciplined s → (blocked = TaskStatusBlockedCapability ∨ blocked = TaskStatusBlockedInput) →
  ClearTaskBlock p i blocked s =
  match db_tasks s !! (p, i) with
  | Some t =>
      if decide (t_status t = blocked)
      then (Ok true, set_metadata (alter (with_blocked_reason "") (p, i))
                       (set_tasks <[(p, i) := with_status TaskStatusPending t]> s))
      else (Ok false, s)
  | None => (Ok false, s)
  end.
Proof.
  intros Hwf Hb. unfold ClearTaskBlock, atomically, sbind.
  assert (bool_decide (blocked ≠ TaskStatusBlockedCapability) && bool_decide (blocked ≠ TaskStatusBlockedInput) = false) as ->
    by (destruct Hb; by subst).
  rewrite update_idle_run
    by (done || (intros t Ht%bool_decide_eq_true; unfold running; destruct Hb; congruence)).
  destruct (db_tasks s !! (p, i)) as [t|]; [|done].
  case_bool_decide; case_decide; try done. simpl. unfold update_metadata. simpl.
  destruct (db_metadata s !! (p, i)) as [m|] eqn:Hm; simpl; f_equal; unfold set_metadata, set_tasks; simpl; f_equal.
  - apply map_eq. intros k. rewrite lookup_insert, lookup_alter. case_decide; subst; by rewrite ?Hm.
  - symmetry. apply map_eq. intros k. rewrite lookup_alter. case_decide; subst; by rewrite ?Hm.
Qed.

(** ** Claims *)

Definition claimed (p i sess w : string) (t : Task) (s : DB) : DB :=
  reported (p, i) (claim_task sess w t) (plain_event p i "task.claimed" sess "worker" (PayloadStruct zero_payload)) s.

Lemma claim_row_run p i sess w s :
  claim_row p i sess w s =
  match db_tasks s !! (p, i) with
  | Some t =>
      if claimable (t_status t) then
        if has sess (db_sessions s) && has w (db_workers s) then (Ok tt, claimed p i sess w t s)
        else (Err (ErrForeignKey "tasks"), s)
      else (Err ErrNoReadyTask, s)
  | None => (Err ErrNoReadyTask, s)
  end.
Proof.
  unfold claim_row, sbind, update_task. destruct (db_tasks s !! (p, i)) as [t|]; [|done].
  destruct (claimable (t_status t)); [|done]. unfold task_fk_ok. simpl.
  destruct (has sess _ && has w _); [|done]. by rewrite ?insert_event_run.
Qed.

Section ClaimRuns.
Context `{SqlEngine}.

Lemma claimTaskOnce_run p i sess w s :
  claimTaskOnce p i sess w s =
  match db_tasks s !! (p, i) with
  | Some t =>
      if claimable (t_status t) && deps_satisfied s p i then
        if decide (outputReservationConflict p i s = "") then
          if has sess (db_sessions s) && has w (db_workers s)
          then (Ok (claim_task sess w t), claimed p i sess w t s)
          else (Err (ErrForeignKey "tasks"), s)
        else (Err (ErrOutputReserved (outputReservationConflict p i s)), s)
      else (Err ErrNoReadyTask, s)
  | None => (Err ErrNoReadyTask, s)
  end.
Proof.
  unfold claimTaskOnce, atomically, sbind, sget, sfail, GetTask.
  destruct (db_tasks s !! (p, i)) as [t|] eqn:Hk; simpl; [|done].
  unfold ready_row. simpl. rewrite bool_decide_true by done. simpl.
  destruct (claimable (t_status t)) eqn:Hc; simpl; [|done].
  destruct (deps_satisfied s p i); simpl; [|done].
  case_bool_decide; case_decide; simpl; try done.
  rewrite claim_row_run, Hk, Hc.
  destruct (has sess _ && has w _); [|done]. simpl. by rewrite lookup_insert_eq.
Qed.

Lemma ClaimNextReady_ok p sess w s t' s' :
  ClaimNextReady p sess w s = (Ok t', s') →
  ∃ i t, db_tasks s !! (p, i) = Some t ∧ head (next_ready p s) = Some ((p, i), t) ∧
         ready_row s p ((p, i), t) = true ∧ reserved_by_peer s p i = [] ∧
         is_Some (db_sessions s !! sess) ∧ is_Some (db_workers s !! w) ∧
         t' = claim_task sess w t ∧ s' = claimed p i sess w t s.
Proof.
  unfold ClaimNextReady. intros (i & s1 & Hat & Hget)%sbind_ok.
  apply (proj1 (atomically_ok _ _ _ _)) in Hat. unfold sbind at 1, sget in Hat.
  destruct (next_ready p s) as [|[[q j] t] rows] eqn:Hn; [by unfold sfail in Hat|].
  apply sbind_ok in Hat as ([] & s2 & Hc & Hret). simpl in *. unfold sret in Hret. simplify_eq.
  assert (((q, i), t) ∈ next_ready p s) as Hin by (rewrite Hn; set_solver).
  unfold next_ready in Hin.
  rewrite order_by_perm, task_rows_elem, andb_true_iff, bool_decide_eq_true in Hin.
  destruct Hin as (Hk & Hr & Hfree). simpl in Hfree.
  assert (q = p) as ->.
  { unfold ready_row in Hr. simpl in Hr. by case_bool_decide. }
  apply claim_row_ok in Hc as (t0 & Hk0 & _ & Hs & Hw & ->). simplify_eq.
  unfold GetTask in Hget. simpl in Hget. rewrite lookup_insert_eq in Hget. simplify_eq.
  exists i, t0. done.
Qed.

Lemma ClaimNextReady_err p sess w s e s' :
  ClaimNextReady p sess w s = (Err e, s') → db_tasks s' = db_tasks s ∨ e = ErrTaskNotFound.
Proof.
  unfold ClaimNextReady. intros [Hat|(i & s1 & _ & Hget)]%sbind_err.
  - left. by apply atomically_err in Hat as ->.
  - right. unfold GetTask in Hget. repeat case_match; by simplify_eq.
Qed.
End ClaimRuns.

(** ** The reaper *)

Lemma sfor_events {A} (l : list A) (ev : A → Event) s :
  (∀ a, e_project (ev a) = None) →
  sfor l (λ a, insert_event (ev a)) s = (Ok tt, set_events (λ es, es ++ (ev <$> l)) s).
Proof.
  intros Hev. revert s. induction l as [|a l IH]; intros s; simpl.
  - unfold sret, set_events. rewrite app_nil_r. by destruct s.
  - unfold sbind at 1. rewrite insert_event_run by done. rewrite IH.
    unfold set_events. simpl. by rewrite <-app_assoc.
Qed.

Section ReaperRun.
Context `{SqlEngine}.

Definition stale_cutoff (s : DB) (staleAfter : Z) : Z := cutoff_at (db_clock s) (wrap64 (- staleAfter)).
Definition delete_cutoff (s : DB) (staleAfter : Z) : Z :=
  cutoff_at (db_clock s) (wrap64 (- staleAfter * staleSessionMultiplier)).

(** The requeued rows, as the events report them. *)
Definition reclaimed_rows (s : DB) (staleAfter : Z) : list TaskRow :=
  (λ r, (r.1, reclaim_task r.2)) <$>
    order_by (λ _, []) (task_rows s (λ r, reclaimable s (stale_cutoff s staleAfter) r.2)).

(** The state when [ReclaimStale] starts deleting rows. *)
Definition requeued (s : DB) (staleAfter : Z) : DB :=
  let reasons := reclaim_reason <$> filter (λ kt, reclaimable s (stale_cutoff s staleAfter) kt.2 = true) (db_tasks s) in
  let claims := Z.of_nat (length (task_rows s (λ r, bool_decide (t_status r.2 = TaskStatusRunning)))) in
  set_events (λ es, es ++ (reclaim_event reasons claims <$> reclaimed_rows s staleAfter))
    (update_where (λ _, reclaimable s (stale_cutoff s staleAfter)) reclaim_task s).

Definition pruned_workers (s : DB) (staleAfter : Z) : DB :=
  delete_workers (λ _ w, (w_heartbeat w <? delete_cutoff s staleAfter)%Z) (requeued s staleAfter).

Definition dead_session (s : DB) (staleAfter : Z) (id : string) (x : Session) : bool :=
  (s_heartbeat x <? delete_cutoff s staleAfter)%Z &&
  negb (existsb (λ kw, bool_decide (w_session kw.2 = id) && (stale_cutoff s staleAfter <=? w_heartbeat kw.2)%Z)
          (map_to_list (db_workers (pruned_workers s staleAfter)))).

Lemma ReclaimStale_run d s :
  ReclaimStale d s =
  (Ok (Z.of_nat (length (reclaimed_rows s d))),
   delete_sessions (dead_session s d) (pruned_workers s d)).
Proof.
  unfold ReclaimStale, atomically, sbind, sget, smod, sret. cbv zeta.
  rewrite sfor_events by done. reflexivity.
Qed.
End ReaperRun.

(** ** Graph import *)

(** Everything an earlier statement wrote is still there. *)
Record extends (s s' : DB) : Prop := {
  ext_tasks : db_tasks s ⊆ db_tasks s';
  ext_deps : db_deps s ⊆ db_deps s';
  ext_meta : db_metadata s ⊆ db_metadata s';
  ext_inputs : db_inputs s ⊆ db_inputs s';
  ext_outputs : db_outputs s ⊆ db_outputs s';
  ext_clock : db_clock s' = db_clock s }.

Lemma extends_refl s : extends s s.
Proof. by constructor. Qed.
Lemma extends_trans s1 s2 s3 : extends s1 s2 → extends s2 s3 → extends s1 s3.
Proof. intros [] []. constructor; try (etrans; done); congruence. Qed.

Lemma reserveTaskOutputOn_ok p i path mode s s' :
  reserveTaskOutputOn p i path mode s = (Ok tt, s') →
  canonicalReservationPath path ≠ "" ∧ s' = set_outputs (λ o, {[(p, i, canonicalReservationPath path)]} ∪ o) s.
Proof.
  unfold reserveTaskOutputOn, sfail. set (c := canonicalReservationPath path).
  case_decide as Hc; [by intros; simplify_eq|].
  case_bool_decide; simpl; [|by intros; simplify_eq].
  case_bool_decide; [by intros; simplify_eq|].
  destruct (has _ (db_tasks s)) eqn:Hhas; simpl; intros; by simplify_eq.
Qed.
Lemma reserveTaskInputOn_ok p i path sha s s' :
  reserveTaskInputOn p i path sha s = (Ok tt, s') →
  db_inputs s !! (p, i, canonicalReservationPath path) = None ∧
  s' = set_inputs <[(p, i, canonicalReservationPath path) := sha]> s.
Proof.
  unfold reserveTaskInputOn, sfail. set (c := canonicalReservationPath path).
  case_decide as Hc; [by intros; simplify_eq|].
  destruct (has _ (db_inputs s)) eqn:Hi; [by intros; simplify_eq|].
  destruct (has _ (db_tasks s)) eqn:Hhas; simpl; intros; simplify_eq.
  apply bool_decide_eq_false in Hi. by rewrite <-eq_None_not_Some in Hi.
Qed.
Lemma putTaskMetadataOn_ok p i g tm j s s' :
  putTaskMetadataOn p i g tm j s = (Ok tt, s') →
  db_metadata s !! (p, i) = None ∧
  s' = set_metadata <[(p, i) := mkTaskMeta g tm j None None None None None None None None None None None]> s.
Proof.
  unfold putTaskMetadataOn, sfail. case_decide; [by intros; simplify_eq|].
  destruct (has _ (db_metadata s)) eqn:Hm; [by intros; simplify_eq|].
  destruct (has _ (db_tasks s)); simpl; intros; simplify_eq.
  apply bool_decide_eq_false in Hm. by rewrite <-eq_None_not_Some in Hm.
Qed.

(** What the import of one node writes. *)
Record node_written (p : string) (now : Z) (g : GraphTaskSpec) (s : DB) : Prop := {
  nw_task : db_tasks s !! (p, o_id (g_task g)) = Some (new_task (with_plan_id p (g_task g)) now);
  nw_meta : g_group_path g ≠ "" →
    db_metadata s !! (p, o_id (g_task g)) =
      Some (mkTaskMeta (g_group_path g) (g_team_path g)
              (if decide (g_metadata_json g = "") then "{}" else g_metadata_json g)
              None None None None None None None None None None None);
  nw_inputs : ∀ i, i ∈ g_inputs g →
    db_inputs s !! (p, o_id (g_task g), canonicalReservationPath (ti_path i)) = Some (ti_sha256 i);
  nw_outputs : ∀ o, o ∈ g_outputs g →
    (p, o_id (g_task g), canonicalReservationPath (to_path o)) ∈ db_outputs s }.

Lemma node_written_extends p now g s s' : extends s s' → node_written p now g s → node_written p now g s'.
Proof.
  intros [] [H1 H2 H3 H4]. constructor.
  - by eapply lookup_weaken.
  - intros Hg. eapply lookup_weaken; [by apply H2|done].
  - intros i Hi. eapply lookup_weaken; [by apply H3|done].
  - intros o Ho. set_solver.
Qed.

Lemma write_node_written p g s s' :
  write_graph_node p g s = (Ok tt, s') → extends s s' ∧ node_written p (db_now s) g s'.
Proof.
  unfold write_graph_node. cbv zeta. change (o_id (with_plan_id p (g_task g))) with (o_id (g_task g)).
  intros ([] & s1 & (Hk & _ & _ & _ & _ & Hs1)%createTaskOn_ok & Hrest)%sbind_ok. simpl in Hk.
  apply sbind_ok in Hrest as ([] & s2 & Hmeta & Hrest).
  apply sbind_ok in Hrest as ([] & s3 & Hin & Hout).
  assert (extends s s1) as E1.
  { subst s1. constructor; simpl; try done. by apply insert_subseteq. }
  assert (extends s1 s2 ∧ (g_group_path g ≠ "" → db_metadata s2 !! (p, o_id (g_task g)) =
    Some (mkTaskMeta (g_group_path g) (g_team_path g)
            (if decide (g_metadata_json g = "") then "{}" else g_metadata_json g)
            None None None None None None None None None None None))) as [E2 HM].
  { destruct (decide (g_group_path g = "")).
    - unfold sret in Hmeta. simplify_eq. split; [apply extends_refl|done].
    - apply putTaskMetadataOn_ok in Hmeta as [Hnone ->]. split.
      + constructor; simpl; try done. by apply insert_subseteq.
      + intros _. apply lookup_insert_eq. }
  apply (sfor_all extends (λ i s, db_inputs s !! (p, o_id (g_task g), canonicalReservationPath (ti_path i)) =
           Some (ti_sha256 i))) in Hin as [E3 HI]; [|apply extends_refl|apply extends_trans| |].
  2:{ intros i a b _ [Hnone ->]%reserveTaskInputOn_ok. split; [|apply lookup_insert_eq].
      constructor; simpl; try done. by apply insert_subseteq. }
  2:{ intros i a b [] Hi. by eapply lookup_weaken. }
  apply (sfor_all extends (λ o s, (p, o_id (g_task g), canonicalReservationPath (to_path o)) ∈ db_outputs s))
    in Hout as [E4 HO]; [|apply extends_refl|apply extends_trans| |].
  2:{ intros o a b _ [_ ->]%reserveTaskOutputOn_ok. split; [constructor; simpl; try done; set_solver|set_solver]. }
  2:{ intros o a b [] Ho. set_solver. }
  split; [eauto using extends_trans|].
  assert (extends s1 s') as E14 by eauto using extends_trans.
  assert (extends s2 s') as E24 by eauto using extends_trans. constructor.
  - eapply lookup_weaken; [|apply E14]. subst s1. simpl. apply lookup_insert_eq.
  - intros Hg. eapply lookup_weaken; [by apply HM|apply E24].
  - intros i Hi. eapply lookup_weaken; [by apply HI|apply E4].
  - intros o Ho. by apply HO.
Qed.

Lemma addDep_extends `{SqlEngine} p a b s s' :
  addDepOn p a b s = (Ok tt, s') → extends s s' ∧ (p, a, b) ∈ db_deps s'.
Proof.
  intros (_ & _ & _ & _ & _ & ->)%addDepOn_ok. split; [constructor; simpl; try done; set_solver|set_solver].
Qed.

(** The import of a list of nodes, in one statement about its final state. *)
Definition graph_written (p : string) (now : Z) (ts : list GraphTaskSpec) (s : DB) : Prop :=
  ∀ g, g ∈ ts → node_written p now g s ∧ ∀ d, d ∈ g_depends_on g → (p, o_id (g_task g), d) ∈ db_deps s.

Lemma write_graph_written `{SqlEngine} p ts s s' :
  writeGraphTasksOn p ts s = (Ok tt, s') → extends s s' ∧ graph_written p (db_now s) ts s'.
Proof.
  unfold writeGraphTasksOn. intros ([] & s1 & Hnodes & Hdeps)%sbind_ok.
  apply (sfor_all (λ a b, extends a b) (λ g b, db_clock b = db_clock s → node_written p (db_now s) g b))
    in Hnodes as [E1 HN]; [|apply extends_refl|apply extends_trans| |].
  2:{ intros g a b _ [He Hw]%write_node_written. split; [done|]. intros Hc.
      unfold db_now in *. by rewrite <-Hc, (ext_clock _ _ He). }
  2:{ intros g a b He Hw Hc. eapply node_written_extends; [done|]. apply Hw.
      by rewrite <-Hc, (ext_clock _ _ He). }
  apply (sfor_all extends (λ g b, ∀ d, d ∈ g_depends_on g → (p, o_id (g_task g), d) ∈ db_deps b))
    in Hdeps as [E2 HD]; [|apply extends_refl|apply extends_trans| |].
  2:{ intros g a b _ Hf. apply (sfor_all extends (λ d b, (p, o_id (g_task g), d) ∈ db_deps b)) in Hf; [exact Hf|apply extends_refl|apply extends_trans| |].
      - intros d u v _ Hd. by apply addDep_extends in Hd.
      - intros d u v [] Hd. set_solver. }
  2:{ intros g a b [] Hd d Hin. set_solver. }
  split; [by eapply extends_trans|]. intros g Hg. split; [|by apply HD].
  eapply node_written_extends; [done|]. apply HN; [done|]. by rewrite (ext_clock _ _ E1).
Qed.

(** The import of nodes and edges leaves the plans alone. *)
Lemma write_graph_plans `{SqlEngine} p ts s s' :
  writeGraphTasksOn p ts s = (Ok tt, s') → db_plans s' = db_plans s.
Proof.
  assert (triple (λ s1, db_plans s1 = db_plans s) (writeGraphTasksOn p ts) (λ _ s1, db_plans s1 = db_plans s)) as Ht;
    [|by apply Ht].
  apply (triple_bind _ _ _ (λ _ s1, db_plans s1 = db_plans s)).
  - apply triple_for. intros g _. unfold write_graph_node.
    apply (triple_bind _ _ _ (λ _ s1, db_plans s1 = db_plans s)).
    { intros a [] b Ha (_ & _ & _ & _ & _ & ->)%createTaskOn_ok. done. }
    intros []. apply (triple_bind _ _ _ (λ _ s1, db_plans s1 = db_plans s)).
    { case_decide; [by apply triple_ret|]. intros a [] b Ha [_ ->]%putTaskMetadataOn_ok. done. }
    intros []. apply (triple_bind _ _ _ (λ _ s1, db_plans s1 = db_plans s)).
    { apply triple_for. intros i _ a [] b Ha [_ ->]%reserveTaskInputOn_ok. done. }
    intros []. apply triple_for. intros i _ a [] b Ha [_ ->]%reserveTaskOutputOn_ok. done.
  - intros []. apply triple_for. intros g _. apply triple_for.
    intros d _ a [] b Ha (_ & _ & _ & _ & _ & ->)%addDepOn_ok. done.
Qed.
