(* ===== verification/StoreTrace.v ===== *)
(** * The store as a state machine

    Every exported operation of the store that changes the database as one
    constructor of [Op], its effect [exec], the states any operations lead to from
    the empty store ([issuable]) and those the operations of disciplined clients
    do ([reachable]: a claim names a worker of its session, and no output is
    reserved for a task that runs). One induction carries [consistent] over both;
    [task_spec] is what each operation does to a task row. *)
From S2P Require Import Prelude GoLib StoreModel StoreSql StoreTasks StoreWorkers Dfs StoreGraph StoreMeta StoreInv StoreSpec.

(** ** Operations *)

Inductive Op :=
| Tick (ns : Z)
| AddProject (id : string)
| AddCalibration (id : string)
| OpCreateSession (uuid : string) (o : SessionOpts)
| OpHeartbeatSession (x : string)
| OpCloseSession (x : string)
| OpCreateWorker (uuid : string) (o : WorkerOpts)
| OpSetWorkerTask (w p i : string)
| OpHeartbeatWorker (w : string)
| OpHeartbeatWorkerAndSession (w : string)
| OpClearWorkerTask (w status : string)
| OpReclaimWorker (w : string)
| OpReclaimStale (staleAfter : Z)
| OpCreatePlan (uuid : string) (o : CreatePlanOpts)
| OpSetPlanStatus (id : string) (st : PlanStatus)
| OpDeletePlan (id : string)
| OpCreateTask (o : CreateTaskOpts)
| OpAddDep (p a b : string)
| OpCreatePlanGraph (uuid : string) (o : CreatePlanOpts) (ts : list GraphTaskSpec) (activate : bool)
| OpMaterializePlanGraph (p : string) (ts : list GraphTaskSpec)
| OpReserveTaskInput (p i path sha : string)
| OpReserveTaskOutput (p i path mode : string)
| OpPutTaskMetadata (p i group team json : string)
| OpBindTaskCalibration (p i id caps : string)
| OpRecordTaskExecution (p i alias provider model effort domain x : string)
| OpRecordTaskProviderSession (p i x id : string)
| OpMarkBlockedCapability (p i reason : string)
| OpMarkBlockedInput (p i reason : string)
| OpClearTaskBlock (p i : string) (blocked : TaskStatus)
| OpClaimTask (p i x w : string)
| OpClaimNextReady (p x w : string)
| OpMarkDone (p i x evidence : string)
| OpMarkFailed (p i x : string) (payload : EventPayload) (maxRetries : Z)
| OpReleaseClaim (p i x reason : string)
| OpMarkBlocked (p i x : string) (payload : EventPayload)
| OpApproveTask (p i : string)
| OpHookPending (x p i : string)
| OpHookResult (x p i : string) (passed : bool)
| OpInvalidateHooks (x : string)
| OpClearHook (x p i : string)
| OpEmit (e : Event).

Section Exec.
Context `{SqlEngine}.

Definition exec (op : Op) (s : DB) : DB :=
  match op with
  | Tick ns => set_clock (Z.add ns) s
  | AddProject id => mkDB (db_clock s) ({[id]} ∪ db_projects s) (db_plans s) (db_tasks s)
      (db_deps s) (db_metadata s) (db_inputs s) (db_outputs s) (db_sessions s) (db_workers s)
      (db_hooks s) (db_calibrations s) (db_events s)
  | AddCalibration id => mkDB (db_clock s) (db_projects s) (db_plans s) (db_tasks s)
      (db_deps s) (db_metadata s) (db_inputs s) (db_outputs s) (db_sessions s) (db_workers s)
      (db_hooks s) ({[id]} ∪ db_calibrations s) (db_events s)
  | OpCreateSession uuid o => (CreateSession uuid o s).2
  | OpHeartbeatSession x => (HeartbeatSession x s).2
  | OpCloseSession x => (CloseSession x s).2
  | OpCreateWorker uuid o => (CreateWorker uuid o s).2
  | OpSetWorkerTask w p i => (SetWorkerTask w p i s).2
  | OpHeartbeatWorker w => (HeartbeatWorker w s).2
  | OpHeartbeatWorkerAndSession w => (HeartbeatWorkerAndSession w s).2
  | OpClearWorkerTask w st => (ClearWorkerTask w st s).2
  | OpReclaimWorker w => (ReclaimWorker w s).2
  | OpReclaimStale d => (ReclaimStale d s).2
  | OpCreatePlan uuid o => (createPlanOn uuid o s).2
  | OpSetPlanStatus id st => (setPlanStatusOn id st s).2
  | OpDeletePlan id => (DeletePlan id s).2
  | OpCreateTask o => (createTaskOn o s).2
  | OpAddDep p a b => (addDepOn p a b s).2
  | OpCreatePlanGraph uuid o ts act => (CreatePlanGraph uuid o ts act s).2
  | OpMaterializePlanGraph p ts => (MaterializePlanGraph p ts s).2
  | OpReserveTaskInput p i path sha => (reserveTaskInputOn p i path sha s).2
  | OpReserveTaskOutput p i path mode => (reserveTaskOutputOn p i path mode s).2
  | OpPutTaskMetadata p i g t j => (putTaskMetadataOn p i g t j s).2
  | OpBindTaskCalibration p i id caps => (BindTaskCalibration p i id caps s).2
  | OpRecordTaskExecution p i a pr m e d x => (RecordTaskExecution p i a pr m e d x s).2
  | OpRecordTaskProviderSession p i x id => (RecordTaskProviderSession p i x id s).2
  | OpMarkBlockedCapability p i r => (MarkBlockedCapability p i r s).2
  | OpMarkBlockedInput p i r => (MarkBlockedInput p i r s).2
  | OpClearTaskBlock p i b => (ClearTaskBlock p i b s).2
  | OpClaimTask p i x w => (claimTaskOnce p i x w s).2
  | OpClaimNextReady p x w => (ClaimNextReady p x w s).2
  | OpMarkDone p i x ev => (MarkDone p i x ev s).2
  | OpMarkFailed p i x pl max => (MarkFailedWithPayload p i x pl max s).2
  | OpReleaseClaim p i x r => (ReleaseClaim p i x r s).2
  | OpMarkBlocked p i x pl => (MarkBlocked p i x pl s).2
  | OpApproveTask p i => (ApproveTask p i s).2
  | OpHookPending x p i => (SetHookVerificationPending x p i s).2
  | OpHookResult x p i b => (SetHookVerificationResult x p i b s).2
  | OpInvalidateHooks x => (InvalidateHookVerifications x s).2
  | OpClearHook x p i => (ClearHookVerification x p i s).2
  | OpEmit e => (insert_event e s).2
  end.

(** What a disciplined client sees to, and the operations do not check: a claim
    names a worker of the claiming session (the orchestrator creates both), and
    outputs are declared at import, before the task runs. *)
Definition op_pre (s : DB) (op : Op) : Prop :=
  match op with
  | OpClaimTask _ _ x w | OpClaimNextReady _ x w => worker_of s x w
  | OpReserveTaskOutput p i _ _ => ¬ ∃ t, db_tasks s !! (p, i) = Some t ∧ running t
  | _ => True
  end.

(** Any operations, in any order, with any arguments. *)
Definition exec_all (s : DB) (ops : list Op) : DB := foldl (λ s op, exec op s) s ops.

(** Operations of disciplined clients. *)
Inductive run_from (s0 : DB) : list Op → DB → Prop :=
| run_nil : run_from s0 [] s0
| run_step ops op s :
    run_from s0 ops s → op_pre s op → run_from s0 (ops ++ [op]) (exec op s).
End Exec.

(** A freshly migrated database. *)
Definition empty_db (clock : Z) : DB :=
  mkDB clock ∅ ∅ ∅ ∅ ∅ ∅ ∅ ∅ ∅ ∅ ∅ [].

Definition reachable `{SqlEngine} (s : DB) : Prop :=
  ∃ clock ops, run_from (empty_db clock) ops s.

(** What any clients at all can bring a database to. *)
Definition issuable `{SqlEngine} (s : DB) : Prop := ∃ clock ops, s = exec_all (empty_db clock) ops.

Lemma empty_wf disciplined clock : consistent disciplined (empty_db clock).
Proof.
  constructor; simpl; try done; try (intros; set_solver).
  intros p a Ha. assert (∀ x y, ¬ dep_edge (empty_db clock) p x y) as Hno.
  { intros x y. unfold dep_edge. simpl. set_solver. }
  destruct Ha as [? ? Hxy|? ? ? Hxy _]; by eapply Hno.
Qed.

(** ** The invariant holds in every reachable state *)

Section Consistent.
Context {disciplined : bool}.
#[local] Abbreviation wf := (consistent disciplined).
#[local] Abbreviation claim_ok := (λ s t, claim_in disciplined (db_sessions s) (db_workers s) t).

Lemma wf_update_where where_ set_ s : settles set_ → wf s → wf (update_where where_ set_ s).
Proof.
  intros Hset [H1 H2 H3 H4 H5 H6 H7 H8].
  assert (∀ k t', db_tasks (update_where where_ set_ s) !! k = Some t' →
    ∃ t, db_tasks s !! k = Some t ∧ claim_ok s t' ∧ (running t' → running t)) as Hold.
  { intros k t'. rewrite update_where_lookup. intros (t & Hk & ->)%fmap_Some. exists t.
    split_and!; [done| |]; destruct (where_ k t); try done; try by eapply H2.
    - by eapply settles_claim_ok, H2.
    - intros Hr. by destruct (Hset t) as [? _]. }
  assert (∀ k, is_Some (db_tasks s !! k) → is_Some (db_tasks (update_where where_ set_ s) !! k)) as Hkeep.
  { intros k [t Ht]. rewrite update_where_lookup, Ht. eauto. }
  constructor; try done.
  - intros k t' (t & Hk & _)%Hold. by eapply H1.
  - by intros k t' (t & Hk & ? & _)%Hold.
  - intros p a b [??]%H4. eauto.
  - intros k m Hm%H6. eauto.
  - intros p i path (? & ? & ?)%H7. eauto.
  - intros Hd k1 k2 t1 t2 path Hne (a & Ha & _ & Ha')%Hold (b & Hb & _ & Hb')%Hold Hr1 Hr2.
    eapply (H8 Hd k1 k2); eauto.
Qed.

Lemma preserves_update_settles k where_ set_ : settles set_ → preserves wf (update_task k where_ set_).
Proof.
  intros Hset. apply preserves_statement; [|by apply triple_update_settles].
  intros s e s'. apply update_task_err.
Qed.
Lemma preserves_update_status k where_ st :
  (∀ t, where_ t = true → ¬ running t) → st ≠ TaskStatusRunning →
  preserves wf (update_task k where_ (with_status st)).
Proof.
  intros Hw Hst. apply preserves_statement; [|by apply triple_update_status].
  intros s e s'. apply update_task_err.
Qed.
Lemma preserves_event e : preserves wf (insert_event e).
Proof.
  apply preserves_statement; [|apply triple_event_wf].
  intros s e' s'. unfold insert_event, sbind, sget, smod, sfail. intros. repeat case_match; by simplify_eq/=.
Qed.
Lemma preserves_update_metadata k where_ set_ : preserves wf (update_metadata k where_ set_).
Proof.
  apply preserves_statement; [|apply triple_update_metadata].
  intros s e s'. unfold update_metadata. intros. by repeat case_match; simplify_eq.
Qed.
End Consistent.
#[export] Hint Resolve preserves_update_settles preserves_event preserves_update_metadata
  settles_release settles_retry settles_fail settles_reclaim : preserve.
#[export] Hint Extern 1 (_ ≠ TaskStatusRunning) => discriminate : preserve.

Ltac err_unchanged :=
  intros ? ? ? ?; repeat (unfold sfail, smod, sbind, sget in *; simplify_eq/=; try done; case_match).

Section Preservation.
Context `{SqlEngine}.
Context {disciplined : bool}.
#[local] Abbreviation wf := (consistent disciplined).

Lemma worker_ops_wf s :
  wf s →
  (∀ uuid o, wf (CreateSession uuid o s).2) ∧ (∀ x, wf (HeartbeatSession x s).2) ∧
  (∀ x, wf (CloseSession x s).2) ∧ (∀ uuid o, wf (CreateWorker uuid o s).2) ∧
  (∀ w p i, wf (SetWorkerTask w p i s).2) ∧ (∀ w, wf (HeartbeatWorker w s).2) ∧
  (∀ w, wf (HeartbeatWorkerAndSession w s).2) ∧ (∀ w st, wf (ClearWorkerTask w st s).2).
Proof.
  intros Hwf. split_and!.
  - intros uuid o. unfold CreateSession, sfail. case_decide; [done|].
    match goal with |- context [if has ?k ?m then _ else _] => destruct (has k m) end; [done|].
    by apply wf_insert_session.
  - intros x. by apply wf_alter_session.
  - intros x. by apply wf_delete_sessions.
  - intros uuid o. unfold CreateWorker, sfail. case_bool_decide; [done|].
    destruct (has uuid _) eqn:Hu; [done|]. destruct (has (wo_session o) _) eqn:Hs; [|done]. simpl.
    apply bool_decide_eq_false in Hu. rewrite <-eq_None_not_Some in Hu. apply has_true in Hs.
    by apply wf_insert_worker.
  - intros w p i. unfold SetWorkerTask.
    match goal with |- context [if ?b then _ else _] => destruct b end; [done|].
    by apply wf_alter_worker.
  - intros w. by apply wf_alter_worker.
  - intros w. unfold HeartbeatWorkerAndSession, atomically, sbind, smod. simpl.
    case_match; [apply wf_alter_session|]; by apply wf_alter_worker.
  - intros w st. by apply wf_alter_worker.
Qed.

Lemma ReclaimWorker_wf w : preserves wf (ReclaimWorker w).
Proof.
  unfold ReclaimWorker. preserve; apply preserves_mod; intros s Hs.
  - apply wf_update_where; [by apply settles_release|done].
  - by apply wf_alter_worker.
Qed.

Lemma ReclaimStale_wf d : preserves wf (ReclaimStale d).
Proof.
  unfold ReclaimStale. preserve; apply preserves_mod; intros s Hs.
  - by apply wf_update_where, Hs; apply settles_reclaim.
  - by apply wf_delete_workers.
  - by apply wf_delete_sessions.
Qed.

Lemma claims_wf p i x w s :
  wf s → (disciplined = true → worker_of s x w) →
  wf (claimTaskOnce p i x w s).2 ∧ wf (ClaimNextReady p x w s).2.
Proof.
  intros Hwf Hown.
  assert (∀ W, db_workers s !! w = Some W → disciplined = true → w_session W = x) as Hses.
  { intros W HW Hd. destruct (Hown Hd) as (W' & HW' & <-). congruence. }
  split.
  - rewrite claimTaskOnce_run. destruct (db_tasks s !! (p, i)) as [t|] eqn:Hk; [|done].
    destruct (claimable _ && _); [|done]. case_decide as Hc; [|done].
    destruct (has x _ && has w _) eqn:Hh; [|done]. apply andb_true_iff in Hh as [Hx%has_true [W HW]%has_true].
    apply wf_set_events. eapply wf_claim_task; [done..|by apply (conflict_free _ _ _ Hwf)|done|done|by apply Hses].
  - destruct (ClaimNextReady p x w s) as [[t'|e] s'] eqn:Hr.
    + apply ClaimNextReady_ok in Hr as (j & t & Hk & _ & _ & Hfree & Hx & [W HW] & _ & ->).
      simpl. apply wf_set_events. eapply wf_claim_task; [done..|by apply Hses].
    + unfold ClaimNextReady in Hr. apply sbind_err in Hr as [Hr|(j & s1 & Hr & Hg)].
      * by apply atomically_err in Hr as ->.
      * apply (proj1 (atomically_ok _ _ _ _)) in Hr. simpl.
        assert (s' = s1) as -> by (unfold GetTask in Hg; by repeat case_match; simplify_eq).
        unfold sbind at 1, sget in Hr.
        destruct (next_ready p s) as [|[[q j'] t] rows] eqn:Hn; [by unfold sfail in Hr|].
        apply sbind_ok in Hr as ([] & s2 & Hc & Hret). unfold sret in Hret. simplify_eq/=.
        assert (((q, j), t) ∈ next_ready p s) as Hin by (rewrite Hn; set_solver).
        unfold next_ready in Hin.
        rewrite order_by_perm, task_rows_elem, andb_true_iff, bool_decide_eq_true in Hin.
        destruct Hin as (_ & _ & Hfree). simpl in Hfree.
        by refine (triple_claim_row p j _ w s () s1 _ Hc).
Qed.

Lemma reports_wf p i x s :
  wf s →
  (∀ ev, wf (MarkDone p i x ev s).2) ∧ (∀ r, wf (ReleaseClaim p i x r s).2) ∧
  (∀ pl, wf (MarkBlocked p i x pl s).2) ∧ (∀ pl max, wf (MarkFailedWithPayload p i x pl max s).2).
Proof.
  intros Hwf.
  assert (∀ set_ e t, settles set_ → reporter s (p, i) x = Some t →
    wf (reported (p, i) (set_ t) e s)) as Hrep.
  { intros set_ e t Hset (Hk & Hr & _)%reporter_some. apply wf_set_events.
    eapply wf_update_row; [done..|by eapply settles_claim_ok, (wf_claim _ Hwf)|done]. }
  split_and!; intros.
  - rewrite MarkDone_run. destruct (reporter s (p, i) x) eqn:He; [|done].
    by apply (Hrep (release_to TaskStatusDone)); [apply settles_release|].
  - rewrite ReleaseClaim_run. destruct (reporter s (p, i) x) eqn:He; [|done].
    by apply (Hrep (release_to TaskStatusPending)); [apply settles_release|].
  - rewrite MarkBlocked_run. destruct (reporter s (p, i) x) eqn:He; [|done].
    by apply (Hrep (release_to TaskStatusBlocked)); [apply settles_release|].
  - rewrite MarkFailed_run. destruct (reporter s (p, i) x) eqn:He; [|done].
    case_match; [apply (Hrep retry_task)|apply (Hrep (fail_task _))]; auto with triple.
Qed.

Lemma ApproveTask_wf p i : preserves wf (ApproveTask p i).
Proof.
  unfold ApproveTask. preserve. apply preserves_update_status; [|done].
  intros t0 Ht%bool_decide_eq_true. unfold running. congruence.
Qed.

Lemma markMetadataBlocked_wf p i st reason :
  st ≠ TaskStatusRunning → preserves wf (markMetadataBlocked p i st reason).
Proof.
  intros Hst. unfold markMetadataBlocked. preserve.
  apply preserves_update_status; [|done]. intros t0. apply dispatchable_idle.
Qed.

Lemma ClearTaskBlock_wf p i b : preserves wf (ClearTaskBlock p i b).
Proof.
  unfold ClearTaskBlock.
  destruct (decide (b = TaskStatusRunning)) as [->|Hb]; [simpl; apply preserves_fail|].
  preserve; apply preserves_update_status; try done;
    intros t Ht%bool_decide_eq_true; unfold running; congruence.
Qed.

Lemma metadata_ops_wf s :
  wf s →
  (∀ p i id caps, wf (BindTaskCalibration p i id caps s).2) ∧
  (∀ p i a pr m e d x, wf (RecordTaskExecution p i a pr m e d x s).2) ∧
  (∀ p i x id, wf (RecordTaskProviderSession p i x id s).2) ∧
  (∀ x p i, wf (SetHookVerificationPending x p i s).2) ∧
  (∀ x p i b, wf (SetHookVerificationResult x p i b s).2).
Proof.
  intros Hwf. split_and!; intros.
  - revert s Hwf. change (preserves wf (BindTaskCalibration p i id caps)).
    unfold BindTaskCalibration. preserve.
  - revert s Hwf. change (preserves wf (RecordTaskExecution p i a pr m e d x)).
    unfold RecordTaskExecution. preserve.
  - revert s Hwf. change (preserves wf (RecordTaskProviderSession p i x id)).
    unfold RecordTaskProviderSession. preserve.
  - unfold SetHookVerificationPending. repeat case_match; simplify_eq/=; auto with triple.
  - unfold SetHookVerificationResult, smod. simpl. case_match; auto with triple.
Qed.

Lemma graph_ops_wf s :
  wf s →
  (∀ uuid o, wf (createPlanOn uuid o s).2) ∧ (∀ id st, wf (setPlanStatusOn id st s).2) ∧
  (∀ id, wf (DeletePlan id s).2) ∧ (∀ o, wf (createTaskOn o s).2) ∧
  (∀ p a b, wf (addDepOn p a b s).2) ∧
  (∀ uuid o ts act, wf (CreatePlanGraph uuid o ts act s).2) ∧
  (∀ p ts, wf (MaterializePlanGraph p ts s).2) ∧
  (∀ p i path sha, wf (reserveTaskInputOn p i path sha s).2) ∧
  (∀ p i g t j, wf (putTaskMetadataOn p i g t j s).2).
Proof.
  intros Hwf. split_and!; intros; revert s Hwf.
  - apply (preserves_statement wf (createPlanOn uuid o)); [|apply triple_createPlan].
    unfold createPlanOn. err_unchanged.
  - apply (preserves_statement wf (setPlanStatusOn id st)); [|apply triple_setPlanStatus].
    unfold setPlanStatusOn. err_unchanged.
  - change (preserves wf (DeletePlan id)). unfold DeletePlan. preserve; apply preserves_mod; intros s Hs.
    + by apply wf_set_events.
    + by apply wf_cascade_plan.
  - apply (preserves_statement wf (createTaskOn o)).
    + unfold createTaskOn. err_unchanged.
    + eapply triple_conseq; [done|apply triple_createTask|naive_solver].
  - apply (preserves_statement wf (addDepOn p a b)); [|apply triple_addDep].
    unfold addDepOn. err_unchanged.
  - change (preserves wf (CreatePlanGraph uuid o ts act)).
    apply preserves_atomically. eapply triple_bind; [apply triple_createPlan|]. intros p.
    eapply triple_bind; [apply triple_write_graph|]. intros [].
    apply (triple_bind _ _ _ (λ _, wf)); [|intros []; by apply triple_ret].
    destruct act; [apply triple_setPlanStatus|by apply triple_ret].
  - change (preserves wf (MaterializePlanGraph p ts)). apply preserves_atomically, triple_write_graph.
  - apply (preserves_statement wf (reserveTaskInputOn p i path sha)).
    + unfold reserveTaskInputOn. err_unchanged.
    + apply triple_reserve_input. auto with triple.
  - intros s Hwf. unfold putTaskMetadataOn, sfail. case_decide; [done|].
    destruct (has _ (db_metadata s)); [done|]. destruct (has _ (db_tasks s)) eqn:Hh; [|done].
    apply has_true in Hh. by apply wf_insert_metadata.
Qed.
End Preservation.

Lemma reserveTaskOutputOn_task p i path mode s s' :
  reserveTaskOutputOn p i path mode s = (Ok tt, s') → is_Some (db_tasks s !! (p, i)).
Proof.
  unfold reserveTaskOutputOn, sfail. set (c := canonicalReservationPath path).
  case_decide as Hc; [by intros; simplify_eq|].
  case_bool_decide; simpl; [|by intros; simplify_eq].
  case_bool_decide; [by intros; simplify_eq|].
  destruct (has _ (db_tasks s)) eqn:Hhas; simpl; intros; simplify_eq. by apply has_true in Hhas.
Qed.
Lemma reserveTaskOutputOn_err p i path mode : ∀ s e s',
  reserveTaskOutputOn p i path mode s = (Err e, s') → s' = s.
Proof. unfold reserveTaskOutputOn. err_unchanged. Qed.

Lemma exec_wf `{SqlEngine} {disciplined} op s :
  consistent disciplined s → (disciplined = true → op_pre s op) → consistent disciplined (exec op s).
Proof.
  intros Hwf Hpre.
  pose proof (worker_ops_wf s Hwf) as (? & ? & ? & ? & ? & ? & ? & ?).
  pose proof (metadata_ops_wf s Hwf) as (? & ? & ? & ? & ?).
  pose proof (graph_ops_wf s Hwf) as (? & ? & ? & ? & ? & ? & ? & ? & ?).
  destruct op; simpl in *; auto with triple.
  - destruct Hwf. by constructor.
  - destruct Hwf. by constructor.
  - by apply ReclaimWorker_wf.
  - by apply ReclaimStale_wf.
  - destruct (reserveTaskOutputOn p i path mode s) as [[[]|e] s'] eqn:Hr; simpl.
    + pose proof (reserveTaskOutputOn_task _ _ _ _ _ _ Hr) as [t Hk].
      apply (triple_reserve_output p i path mode s () s'); [|done]. split; [done|].
      intros Hd. exists t. split; [done|]. intros ?. apply (Hpre Hd). eauto.
    + by rewrite (reserveTaskOutputOn_err _ _ _ _ _ _ _ Hr).
  - by apply markMetadataBlocked_wf.
  - by apply markMetadataBlocked_wf.
  - by apply ClearTaskBlock_wf.
  - by apply claims_wf.
  - by apply claims_wf.
  - by apply reports_wf.
  - by apply reports_wf.
  - by apply reports_wf.
  - by apply reports_wf.
  - by apply ApproveTask_wf.
  - by apply preserves_event.
Qed.

Lemma run_wf `{SqlEngine} s0 ops s : wf s0 → run_from s0 ops s → wf s.
Proof. induction 2; [done|]. by apply exec_wf; auto. Qed.

Lemma exec_all_sound `{SqlEngine} s ops : sound s → sound (exec_all s ops).
Proof. revert s. induction ops as [|op ops IH]; intros s Hs; [done|]. by apply IH, exec_wf. Qed.

(** ** How a task row may change *)

(** The edges of the task state machine. *)
Definition status_edge (a b : TaskStatus) : bool :=
  match a, b with
  | TaskStatusPending, (TaskStatusRunning | TaskStatusBlockedCapability | TaskStatusBlockedInput) => true
  | TaskStatusReady, (TaskStatusRunning | TaskStatusBlockedCapability | TaskStatusBlockedInput) => true
  | TaskStatusReadyPendingApproval, TaskStatusReady => true
  | TaskStatusRunning, (TaskStatusDone | TaskStatusFailed | TaskStatusBlocked | TaskStatusPending) => true
  | TaskStatusBlockedCapability, (TaskStatusBlockedInput | TaskStatusPending) => true
  | TaskStatusBlockedInput, (TaskStatusBlockedCapability | TaskStatusPending) => true
  | _, _ => false
  end.

(** What an import fixes for the life of the row. *)
Definition declaration (t : Task) :=
  (t_description t, t_parallel_group t, t_sequence_ordinal t, t_acceptance t, t_parent t, t_created_at t).

Record row_move (t t' : Task) : Prop := {
  move_declared : declaration t' = declaration t;
  move_status : t_status t' = t_status t ∨ status_edge (t_status t) (t_status t') = true;
  move_retry : (t_retry_count t ≤ t_retry_count t' ≤ t_retry_count t + 1)%Z;
  move_reclaim : (t_reclaim_count t ≤ t_reclaim_count t' ≤ t_reclaim_count t + 1)%Z }.

(** A row an import wrote. *)
Definition fresh (t : Task) : Prop :=
  (t_status t = TaskStatusPending ∨ t_status t = TaskStatusReadyPendingApproval) ∧
  t_claimed_by_session t = None ∧ t_claimed_by_worker t = None ∧
  t_retry_count t = 0%Z ∧ t_reclaim_count t = 0%Z.

(** Every old row moved as [R] allows, every new row is fresh. *)
Definition evolves (R : string * string → Task → Task → Prop) (s s' : DB) : Prop :=
  ∀ k, match db_tasks s !! k, db_tasks s' !! k with
       | Some t, Some t' => R k t t'
       | Some _, None => False
       | None, Some t' => fresh t'
       | None, None => True
       end.

(** ** The specification of the task table

    What each operation makes of each row, as a function of the state it finds. *)

Definition at_key (k : string * string) (p i : string) : bool := bool_decide (k = (p, i)).
Definition registered (s : DB) (x w : string) : bool := has x (db_sessions s) && has w (db_workers s).

(** No running task of the project has reserved an output of this one. *)
Definition unreserved (s : DB) (p i : string) : bool := bool_decide (reserved_by_peer s p i = []).

(** What is left of a claim whose owners may be gone. *)
Definition surviving (gone : string → bool) (owner : option string) : option string :=
  match owner with Some x => if gone x then None else Some x | None => None end.
Definition disowned (session_gone worker_gone : string → bool) (t : Task) : Task :=
  with_claim (surviving session_gone (t_claimed_by_session t)) (surviving worker_gone (t_claimed_by_worker t)) t.

(** The owners the reaper deletes: silent for longer than the grace. *)
Definition session_pruned `{SqlEngine} (s : DB) (staleAfter : Z) : string → bool := row_gone (dead_session s staleAfter) (db_sessions s).
Definition worker_pruned `{SqlEngine} (s : DB) (staleAfter : Z) : string → bool :=
  row_gone (λ _ w, (w_heartbeat w <? delete_cutoff s staleAfter)%Z || session_pruned s staleAfter (w_session w)) (db_workers s).

(** Those a closed session takes with it. *)
Definition session_closed (s : DB) (x : string) : string → bool := row_gone (λ id _, bool_decide (id = x)) (db_sessions s).
Definition worker_closed (s : DB) (x : string) : string → bool :=
  row_gone (λ _ w, session_closed s x (w_session w)) (db_workers s).

Definition row_after `{SqlEngine} (op : Op) (s : DB) (k : string * string) (t : Task) : option Task :=
  match op with
  | OpClaimTask p i x w =>
      Some (if at_key k p i && claimable (t_status t) && deps_satisfied s p i && unreserved s p i && registered s x w
            then claim_task x w t else t)
  | OpClaimNextReady p x w =>
      Some (if bool_decide (fst <$> head (next_ready p s) = Some k) && registered s x w then claim_task x w t else t)
  | OpMarkDone p i x _ => Some (if at_key k p i && owned_running x t then release_to TaskStatusDone t else t)
  | OpMarkFailed p i x payload maxRetries =>
      Some (if at_key k p i && owned_running x t
            then if (t_retry_count t + 1 <=? maxRetries)%Z then retry_task t else fail_task (pl_failure_category payload) t
            else t)
  | OpReleaseClaim p i x _ => Some (if at_key k p i && owned_running x t then release_to TaskStatusPending t else t)
  | OpMarkBlocked p i x _ => Some (if at_key k p i && owned_running x t then release_to TaskStatusBlocked t else t)
  | OpApproveTask p i =>
      Some (if at_key k p i && bool_decide (t_status t = TaskStatusReadyPendingApproval) then with_status TaskStatusReady t else t)
  | OpMarkBlockedCapability p i _ =>
      Some (if at_key k p i && dispatchable (t_status t) && has k (db_metadata s) then with_status TaskStatusBlockedCapability t else t)
  | OpMarkBlockedInput p i _ =>
      Some (if at_key k p i && dispatchable (t_status t) && has k (db_metadata s) then with_status TaskStatusBlockedInput t else t)
  | OpClearTaskBlock p i b =>
      Some (if at_key k p i && bool_decide (t_status t = b) && bool_decide (b = TaskStatusBlockedCapability ∨ b = TaskStatusBlockedInput)
            then with_status TaskStatusPending t else t)
  | OpReclaimWorker w => Some (if held_by w t then release_to TaskStatusPending t else t)
  | OpReclaimStale d =>
      Some (if reclaimable s (stale_cutoff s d) t then reclaim_task t else disowned (session_pruned s d) (worker_pruned s d) t)
  | OpCloseSession x => Some (disowned (session_closed s x) (worker_closed s x) t)
  | OpDeletePlan p => if decide (k.1 = p) then None else Some t
  | _ => Some t
  end.

(** The rows of a graph; and those an operation adds. *)
Definition graph_rows (p : string) (now : Z) (ts : list GraphTaskSpec) : gmap (string * string) Task :=
  list_to_map ((λ g, ((p, o_id (g_task g)), new_task (with_plan_id p (g_task g)) now)) <$> ts).

Definition creatable (s : DB) (o : CreateTaskOpts) : bool :=
  negb (bool_decide (o_plan_id o = "" ∨ o_id o = "" ∨ o_description o = "")) && has (o_plan_id o) (db_plans s) &&
  match nullIfEmpty (o_parent o) with
  | Some parent => has (o_plan_id o, parent) (db_tasks s) || bool_decide (parent = o_id o)
  | None => true
  end.

Definition row_new `{SqlEngine} (op : Op) (s : DB) (k : string * string) : option Task :=
  match op with
  | OpCreateTask o => if at_key k (o_plan_id o) (o_id o) && creatable s o then Some (new_task o (db_now s)) else None
  | OpCreatePlanGraph uuid o ts act =>
      match (CreatePlanGraph uuid o ts act s).1 with Ok p => graph_rows p (db_now s) ts !! k | Err _ => None end
  | OpMaterializePlanGraph p ts =>
      match (MaterializePlanGraph p ts s).1 with Ok _ => graph_rows p (db_now s) ts !! k | Err _ => None end
  | _ => None
  end.

Definition task_spec `{SqlEngine} (op : Op) (s : DB) (k : string * string) : option Task :=
  match db_tasks s !! k with Some t => row_after op s k t | None => row_new op s k end.

(** A frame of the specification: the rows an operation may rewrite, and to
    what, in any state. *)
Definition touches (op : Op) (k : string * string) (t t' : Task) : Prop :=
  match op with
  | OpClaimTask p i x w => k = (p, i) ∧ claimable (t_status t) = true ∧ t' = claim_task x w t
  | OpClaimNextReady p x w => k.1 = p ∧ claimable (t_status t) = true ∧ t' = claim_task x w t
  | OpMarkDone p i x _ => k = (p, i) ∧ owned_running x t = true ∧ t' = release_to TaskStatusDone t
  | OpMarkFailed p i x payload maxRetries =>
      k = (p, i) ∧ owned_running x t = true ∧
      t' = if (t_retry_count t + 1 <=? maxRetries)%Z then retry_task t
           else fail_task (pl_failure_category payload) t
  | OpReleaseClaim p i x _ => k = (p, i) ∧ owned_running x t = true ∧ t' = release_to TaskStatusPending t
  | OpMarkBlocked p i x _ => k = (p, i) ∧ owned_running x t = true ∧ t' = release_to TaskStatusBlocked t
  | OpApproveTask p i =>
      k = (p, i) ∧ t_status t = TaskStatusReadyPendingApproval ∧ t' = with_status TaskStatusReady t
  | OpMarkBlockedCapability p i _ =>
      k = (p, i) ∧ dispatchable (t_status t) = true ∧ t' = with_status TaskStatusBlockedCapability t
  | OpMarkBlockedInput p i _ =>
      k = (p, i) ∧ dispatchable (t_status t) = true ∧ t' = with_status TaskStatusBlockedInput t
  | OpClearTaskBlock p i b =>
      k = (p, i) ∧ t_status t = b ∧ (b = TaskStatusBlockedCapability ∨ b = TaskStatusBlockedInput) ∧
      t' = with_status TaskStatusPending t
  | OpReclaimWorker w => held_by w t = true ∧ t' = release_to TaskStatusPending t
  | OpReclaimStale _ => running t ∧ (t' = reclaim_task t ∨ ∃ a b, t' = with_claim a b t)
  | OpCloseSession x => running t ∧ ∃ a b, t' = with_claim a b t
  | _ => False
  end.

Definition row_frame (op : Op) (k : string * string) (t t' : Task) : Prop := t' = t ∨ touches op k t t'.

(** Computations that leave the task table alone. *)
Definition keeps_tasks {A} (m : Store A) : Prop := ∀ T, preserves (λ s, db_tasks s = T) m.

Lemma keeps_tasks_run {A} (m : Store A) s : keeps_tasks m → db_tasks (m s).2 = db_tasks s.
Proof. intros Hm. by apply (Hm (db_tasks s)). Qed.

Lemma keeps_statement {A} (m : Store A) :
  (∀ s a s', m s = (Ok a, s') → db_tasks s' = db_tasks s) → statement m → keeps_tasks m.
Proof.
  intros Hok Hst T. apply preserves_statement; [done|]. intros s a s' <- Hm. by eapply Hok.
Qed.

Lemma keeps_event e T : preserves (λ s, db_tasks s = T) (insert_event e).
Proof. intros s Hs. unfold insert_event, sbind, sget, smod, sfail. by repeat case_match; simplify_eq/=. Qed.
Lemma keeps_update_metadata k where_ set_ T : preserves (λ s, db_tasks s = T) (update_metadata k where_ set_).
Proof. intros s Hs. unfold update_metadata. by repeat case_match. Qed.
#[export] Hint Resolve keeps_event keeps_update_metadata : preserve.

Section Rows.
Context `{SqlEngine}.
Context {disciplined : bool}.
#[local] Abbreviation wf := (consistent disciplined).

(** ** What the statements of an import do to the table *)

Lemma addDepOn_tasks p a b s u s' : addDepOn p a b s = (Ok u, s') → db_tasks s' = db_tasks s.
Proof. destruct u. by intros (_ & _ & _ & _ & _ & ->)%addDepOn_ok. Qed.
Lemma reserve_input_tasks p i path sha s u s' :
  reserveTaskInputOn p i path sha s = (Ok u, s') → db_tasks s' = db_tasks s.
Proof.
  unfold reserveTaskInputOn, sfail. set (c := canonicalReservationPath path). clearbody c.
  intros. repeat case_match; by simplify_eq.
Qed.
Lemma reserve_output_tasks p i path mode s u s' :
  reserveTaskOutputOn p i path mode s = (Ok u, s') → db_tasks s' = db_tasks s.
Proof.
  unfold reserveTaskOutputOn, sfail. set (c := canonicalReservationPath path). clearbody c.
  case_decide; [by intros; simplify_eq|].
  generalize (if decide (mode = "") then "exclusive" else mode). intros md.
  intros. repeat case_match; by simplify_eq.
Qed.
Lemma put_metadata_tasks p i g tm j s u s' :
  putTaskMetadataOn p i g tm j s = (Ok u, s') → db_tasks s' = db_tasks s.
Proof. unfold putTaskMetadataOn, sfail. intros. repeat case_match; by simplify_eq. Qed.
Lemma createPlan_tasks uuid o s u s' : createPlanOn uuid o s = (Ok u, s') → db_tasks s' = db_tasks s.
Proof. unfold createPlanOn, sfail. intros. repeat case_match; by simplify_eq. Qed.
Lemma setPlanStatus_tasks id st s u s' : setPlanStatusOn id st s = (Ok u, s') → db_tasks s' = db_tasks s.
Proof. unfold setPlanStatusOn. intros. repeat case_match; by simplify_eq. Qed.

Lemma with_claim_same t : with_claim (t_claimed_by_session t) (t_claimed_by_worker t) t = t.
Proof. by destruct t. Qed.

Lemma other_ops_tasks s :
  (∀ uuid o, db_tasks (CreateSession uuid o s).2 = db_tasks s) ∧
  (∀ uuid o, db_tasks (CreateWorker uuid o s).2 = db_tasks s) ∧
  (∀ w p i, db_tasks (SetWorkerTask w p i s).2 = db_tasks s) ∧
  (∀ w, db_tasks (HeartbeatWorkerAndSession w s).2 = db_tasks s) ∧
  (∀ p i id caps, db_tasks (BindTaskCalibration p i id caps s).2 = db_tasks s) ∧
  (∀ p i a pr m e d x, db_tasks (RecordTaskExecution p i a pr m e d x s).2 = db_tasks s) ∧
  (∀ p i x id, db_tasks (RecordTaskProviderSession p i x id s).2 = db_tasks s) ∧
  (∀ x p i, db_tasks (SetHookVerificationPending x p i s).2 = db_tasks s) ∧
  (∀ x p i b, db_tasks (SetHookVerificationResult x p i b s).2 = db_tasks s) ∧
  (∀ e, db_tasks (insert_event e s).2 = db_tasks s).
Proof.
  split_and!; intros.
  - unfold CreateSession, sfail. by repeat case_match.
  - unfold CreateWorker, sfail. by repeat case_match.
  - unfold SetWorkerTask. by repeat case_match.
  - unfold HeartbeatWorkerAndSession, atomically, sbind, smod. simpl. by case_match.
  - apply keeps_tasks_run. intros T. unfold BindTaskCalibration. preserve.
  - apply keeps_tasks_run. intros T. unfold RecordTaskExecution. preserve.
  - apply keeps_tasks_run. intros T. unfold RecordTaskProviderSession. preserve.
  - unfold SetHookVerificationPending. by repeat case_match.
  - unfold SetHookVerificationResult, smod. simpl. by case_match.
  - apply keeps_tasks_run. intros T. apply keeps_event.
Qed.

(** ** The operations meet it *)

Lemma spec_keep op s s' :
  (∀ k t, row_after op s k t = Some t) → (∀ k, row_new op s k = None) → db_tasks s' = db_tasks s →
  ∀ k, db_tasks s' !! k = task_spec op s k.
Proof. intros Ha Hn -> k. unfold task_spec. destruct (db_tasks s !! k); by rewrite ?Ha, ?Hn. Qed.

(** An operation on one row. *)
Lemma spec_row op s s' p i :
  (∀ k t, k ≠ (p, i) → row_after op s k t = Some t) → (∀ k, row_new op s k = None) →
  match db_tasks s !! (p, i) with
  | Some t => ∃ t', row_after op s (p, i) t = Some t' ∧ (db_tasks s' = <[(p, i) := t']> (db_tasks s) ∨ t' = t ∧ db_tasks s' = db_tasks s)
  | None => db_tasks s' = db_tasks s
  end → ∀ k, db_tasks s' !! k = task_spec op s k.
Proof.
  intros Ho Hn Hrow k. unfold task_spec. destruct (decide (k = (p, i))) as [->|Hne].
  - destruct (db_tasks s !! (p, i)) as [t|] eqn:Hk; [|by rewrite Hrow, Hk, Hn].
    destruct Hrow as (t' & -> & [->|[-> ->]]); [apply lookup_insert_eq|done].
  - assert (db_tasks s' !! k = db_tasks s !! k) as ->.
    { destruct (db_tasks s !! (p, i)); [|by rewrite Hrow]. destruct Hrow as (? & _ & [->|[_ ->]]); [by rewrite lookup_insert_ne|done]. }
    destruct (db_tasks s !! k); by rewrite ?Ho, ?Hn by done.
Qed.

(** An operation on every row. *)
Lemma spec_rows op s s' (f : string * string → Task → Task) :
  (∀ k t, db_tasks s !! k = Some t → row_after op s k t = Some (f k t)) → (∀ k, row_new op s k = None) →
  (∀ k, db_tasks s' !! k = f k <$> db_tasks s !! k) → ∀ k, db_tasks s' !! k = task_spec op s k.
Proof. intros Ha Hn Hf k. unfold task_spec. rewrite Hf. destruct (db_tasks s !! k) eqn:Hk; [by rewrite (Ha _ _ Hk)|by rewrite Hn]. Qed.

Ltac elsewhere := intros ? ? ?; simpl; unfold at_key; by rewrite bool_decide_false by done.
Ltac this_row := simpl; unfold at_key; rewrite bool_decide_true by done; simpl.

Lemma reports_spec p i x s k :
  (∀ ev, db_tasks (MarkDone p i x ev s).2 !! k = task_spec (OpMarkDone p i x ev) s k) ∧
  (∀ pl max, db_tasks (MarkFailedWithPayload p i x pl max s).2 !! k = task_spec (OpMarkFailed p i x pl max) s k) ∧
  (∀ r, db_tasks (ReleaseClaim p i x r s).2 !! k = task_spec (OpReleaseClaim p i x r) s k) ∧
  (∀ pl, db_tasks (MarkBlocked p i x pl s).2 !! k = task_spec (OpMarkBlocked p i x pl) s k).
Proof.
  split_and!; intros; rewrite ?MarkDone_run, ?MarkFailed_run, ?ReleaseClaim_run, ?MarkBlocked_run; unfold reporter;
    (apply (spec_row _ _ _ p i); [elsewhere|done|]);
    (destruct (db_tasks s !! (p, i)) as [t|]; [|done]); this_row;
    (destruct (owned_running x t); [|by exists t; split; [|right]]); try (by eexists; split; [|by left]).
  destruct (t_retry_count t + 1 <=? max)%Z; by eexists; split; [|by left].
Qed.

Lemma conflict_unreserved p i s : wf s → outputReservationConflict p i s = "" ↔ unreserved s p i = true.
Proof.
  intros Hwf. unfold unreserved. rewrite bool_decide_eq_true. split; [by apply (conflict_free _ _ _ Hwf)|].
  intros Hn. unfold outputReservationConflict. rewrite Hn.
  pose proof (order_by_perm string (λ _ : string, []) []) as Hp. apply Permutation_nil_r in Hp. by rewrite Hp.
Qed.

Lemma claims_spec p i x w s k : wf s →
  db_tasks (claimTaskOnce p i x w s).2 !! k = task_spec (OpClaimTask p i x w) s k ∧
  db_tasks (ClaimNextReady p x w s).2 !! k = task_spec (OpClaimNextReady p x w) s k.
Proof.
  intros Hwf. split.
  - rewrite claimTaskOnce_run. apply (spec_row _ _ _ p i); [elsewhere|done|].
    destruct (db_tasks s !! (p, i)) as [t|]; [|done]. this_row. fold (registered s x w).
    destruct (claimable (t_status t) && deps_satisfied s p i); simpl; [|by exists t; split; [|right]].
    pose proof (conflict_unreserved p i s Hwf) as Hc. case_decide as Hd.
    + rewrite (proj1 Hc Hd). simpl. destruct (registered s x w); [by eexists; split; [|by left]|by exists t; split; [|right]].
    + destruct (unreserved s p i); [by destruct Hd; apply Hc|]. by exists t; split; [|right].
  - destruct (ClaimNextReady p x w s) as [[t'|e] s'] eqn:Hr; cbn [snd].
    + apply ClaimNextReady_ok in Hr as (j & t & Hk & Hh & _ & _ & Hx%has_true & Hw%has_true & _ & ->).
      apply (spec_row _ _ _ p j); [|done|].
      * intros k' t0 Hne. simpl. rewrite Hh. simpl. by rewrite bool_decide_false by congruence.
      * rewrite Hk. simpl. rewrite Hh. simpl. rewrite bool_decide_true by done. unfold registered. rewrite Hx, Hw. by eexists; split; [|by left].
    + assert (s' = s ∧ (next_ready p s = [] ∨ registered s x w = false)) as [-> Hno].
      { apply sbind_err in Hr as [Hr|(j & s1 & Hr & Hg)].
        - pose proof (atomically_err _ _ _ _ Hr) as ->. split; [done|]. unfold atomically in Hr. unfold sbind at 1, sget in Hr.
          destruct (next_ready p s) as [|[[q j] t] rows] eqn:Hn; [by left|right].
          assert (((q, j), t) ∈ next_ready p s) as Hin by (rewrite Hn; set_solver).
          unfold next_ready in Hin. rewrite order_by_perm, task_rows_elem, andb_true_iff in Hin. destruct Hin as (Hk & Hrr & _).
          unfold ready_row in Hrr. simpl in Hrr. rewrite !andb_true_iff, bool_decide_eq_true in Hrr. destruct Hrr as [[-> Hc] _].
          unfold sbind at 1 in Hr. simpl in Hr. rewrite claim_row_run, Hk, Hc in Hr. unfold registered.
          by destruct (has x _ && has w _).
        - exfalso. apply (proj1 (atomically_ok _ _ _ _)) in Hr. unfold sbind at 1, sget in Hr.
          destruct (next_ready p s) as [|[[q j'] t] rows] eqn:Hn; [by unfold sfail in Hr|].
          apply sbind_ok in Hr as ([] & s2 & Hc & Hret). unfold sret in Hret. simplify_eq/=.
          apply claim_row_ok in Hc as (t0 & Hk0 & _ & _ & _ & ->). unfold GetTask in Hg. simpl in Hg. by rewrite lookup_insert_eq in Hg. }
      apply spec_keep; [|done|done]. intros k' t. simpl. destruct Hno as [->| ->]; [done|]. by rewrite andb_false_r.
Qed.

Lemma gates_spec p i s k : wf s →
  db_tasks (ApproveTask p i s).2 !! k = task_spec (OpApproveTask p i) s k ∧
  (∀ r, db_tasks (MarkBlockedCapability p i r s).2 !! k = task_spec (OpMarkBlockedCapability p i r) s k) ∧
  (∀ r, db_tasks (MarkBlockedInput p i r s).2 !! k = task_spec (OpMarkBlockedInput p i r) s k) ∧
  (∀ b, db_tasks (ClearTaskBlock p i b s).2 !! k = task_spec (OpClearTaskBlock p i b) s k).
Proof.
  intros Hwf.
  assert (∀ op st r, (∀ k t, row_after op s k t = Some (if at_key k p i && dispatchable (t_status t) && has k (db_metadata s) then with_status st t else t)) →
    (∀ k, row_new op s k = None) → ∀ k, db_tasks (markMetadataBlocked p i st r s).2 !! k = task_spec op s k) as Hblock.
  { intros op st r Ha Hn. rewrite (markMetadataBlocked_run _ _ _ _ s Hwf). apply (spec_row _ _ _ p i); [|done|].
    { intros k' t Hne. rewrite Ha. unfold at_key. by rewrite bool_decide_false. }
    destruct (db_tasks s !! (p, i)) as [t|]; [|done]. rewrite Ha. this_row.
    destruct (dispatchable (t_status t)); simpl; [|by exists t; split; [|right]]. unfold has.
    destruct (db_metadata s !! (p, i)); [rewrite bool_decide_true by done|rewrite bool_decide_false by (by intros [])].
    - eexists. split; [done|]. left. by case_decide.
    - by exists t; split; [|right]. }
  split_and!; intros.
  - rewrite (ApproveTask_run _ _ _ Hwf). apply (spec_row _ _ _ p i); [elsewhere|done|].
    destruct (db_tasks s !! (p, i)) as [t|]; [|done]. this_row.
    case_decide; [rewrite bool_decide_true by done; by eexists; split; [|by left]|].
    rewrite bool_decide_false by done. by exists t; split; [|right].
  - by apply Hblock.
  - by apply Hblock.
  - destruct (decide (b = TaskStatusBlockedCapability ∨ b = TaskStatusBlockedInput)) as [Hb|Hb].
    + rewrite (ClearTaskBlock_run _ _ _ _ Hwf Hb). apply (spec_row _ _ _ p i); [elsewhere|done|].
      destruct (db_tasks s !! (p, i)) as [t|]; [|done]. this_row. rewrite (bool_decide_true (_ ∨ _)), andb_true_r by done.
      case_decide; [rewrite bool_decide_true by done; by eexists; split; [|by left]|].
      rewrite bool_decide_false by done. by exists t; split; [|right].
    + apply spec_keep; [|done|].
      * intros k' t. simpl. by rewrite (bool_decide_false (_ ∨ _)), andb_false_r by done.
      * unfold ClearTaskBlock. rewrite !bool_decide_true by naive_solver. done.
Qed.

(** ** Owners that go *)

Lemma null_disowned session_gone worker_gone t :
  null_session session_gone (null_worker worker_gone t) = disowned session_gone worker_gone t.
Proof.
  unfold null_session, null_worker, disowned, surviving. destruct t as [d st pg so ac [x|] [w|] rc rr pa cr fc]; simpl; try destruct (worker_gone w);
    simpl; try destruct (session_gone x); done.
Qed.
Lemma null_worker_twice gone1 gone2 t : null_worker gone1 (null_worker gone2 t) = null_worker (λ w, gone2 w || gone1 w) t.
Proof.
  unfold null_worker. destruct (t_claimed_by_worker t) as [w|] eqn:Hw; [|by rewrite Hw].
  destruct (gone2 w) eqn:Hg; simpl; [done|]. by rewrite Hw.
Qed.
Lemma null_worker_ext gone1 gone2 t : (∀ w, gone1 w = gone2 w) → null_worker gone1 t = null_worker gone2 t.
Proof. intros Hg. unfold null_worker. by destruct (t_claimed_by_worker t); rewrite ?Hg. Qed.
Lemma disowned_idle session_gone worker_gone t :
  t_claimed_by_session t = None → t_claimed_by_worker t = None → disowned session_gone worker_gone t = t.
Proof. intros Hs Hw. unfold disowned. rewrite Hs, Hw. simpl. rewrite <-Hs, <-Hw at 1. apply with_claim_same. Qed.

Lemma reclaim_spec s k : wf s →
  (∀ x, db_tasks (CloseSession x s).2 !! k = task_spec (OpCloseSession x) s k) ∧
  (∀ w, db_tasks (ReclaimWorker w s).2 !! k = task_spec (OpReclaimWorker w) s k) ∧
  (∀ d, db_tasks (ReclaimStale d s).2 !! k = task_spec (OpReclaimStale d) s k).
Proof.
  intros Hwf. split_and!.
  - intros x. apply (spec_rows _ _ _ (λ _ t, disowned (session_closed s x) (worker_closed s x) t)); [done..|].
    intros k'. unfold CloseSession, smod. simpl snd. rewrite (delete_sessions_task (λ id _, bool_decide (id = x))).
    destruct (db_tasks s !! k'); [|done]. simpl. by rewrite null_disowned.
  - intros w. apply (spec_rows _ _ _ (λ _ t, if held_by w t then release_to TaskStatusPending t else t)); [done..|].
    intros k'. unfold ReclaimWorker, atomically, sbind, sget, smod, sret. destruct (has w (db_workers s)) eqn:Hh; simpl.
    + apply (update_where_lookup (λ _, held_by w)).
    + destruct (db_tasks s !! k') as [t|] eqn:Hk; [|done]. simpl. destruct (held_by w t) eqn:Hheld; [|done]. exfalso.
      unfold held_by, sql_eq in Hheld. apply andb_true_iff in Hheld as [Hw%bool_decide_eq_true _].
      destruct (claim_worker _ _ _ (wf_claim _ Hwf _ _ Hk) w Hw) as (W & HW & _). by apply bool_decide_eq_false in Hh; rewrite HW in Hh; destruct Hh.
  - intros d. rewrite ReclaimStale_run. simpl snd.
    apply (spec_rows _ _ _ (λ _ t, if reclaimable s (stale_cutoff s d) t then reclaim_task t
                                   else disowned (session_pruned s d) (worker_pruned s d) t)); [done..|].
    intros k'. rewrite (delete_sessions_task (dead_session s d)).
    set (dead := λ (_ : string) w, (w_heartbeat w <? delete_cutoff s d)%Z).
    assert (db_tasks (pruned_workers s d) !! k' = null_worker (row_gone dead (db_workers s)) <$>
      ((λ t, if reclaimable s (stale_cutoff s d) t then reclaim_task t else t) <$> db_tasks s !! k')) as ->.
    { etrans; [apply (delete_workers_task dead)|]. f_equal. apply (update_where_lookup (λ _, reclaimable s (stale_cutoff s d))). }
    destruct (db_tasks s !! k') as [t|]; [|done]. simpl. f_equal.
    assert (∀ u, null_session (session_pruned s d) (null_worker (row_gone (λ _ w, session_pruned s d (w_session w)) (db_workers (pruned_workers s d)))
       (null_worker (row_gone dead (db_workers s)) u)) = disowned (session_pruned s d) (worker_pruned s d) u) as Hboth.
    { intros u. rewrite null_worker_twice, <-null_disowned. f_equal. apply null_worker_ext. intros w. unfold worker_pruned.
      unfold row_gone at 1 2 3. change (db_workers (pruned_workers s d)) with (filter (λ kv, dead kv.1 kv.2 = false) (db_workers s)).
      destruct (db_workers s !! w) as [W|] eqn:HW.
      - change (w_heartbeat W <? delete_cutoff s d)%Z with (dead w W). destruct (dead w W) eqn:Hd; [done|]. simpl.
        by rewrite (proj2 (map_lookup_filter_Some _ _ _ W) (conj HW Hd)).
      - by rewrite map_lookup_filter_None_2 by (by left). }
    etrans; [exact (Hboth _)|]. destruct (reclaimable s (stale_cutoff s d) t); [|done]. by apply disowned_idle.
Qed.

(** ** Imports *)

Lemma create_spec o s k : db_tasks (createTaskOn o s).2 !! k = task_spec (OpCreateTask o) s k.
Proof.
  unfold task_spec, createTaskOn, sfail. simpl. unfold creatable.
  case_bool_decide as Ha; simpl; [rewrite andb_false_r; by destruct (db_tasks s !! k)|].
  destruct (has (o_plan_id o, o_id o) (db_tasks s)) eqn:Hh.
  { simpl. destruct (db_tasks s !! k) eqn:Hk; [done|]. unfold at_key. rewrite bool_decide_false; [done|]. intros ->.
    apply has_true in Hh. rewrite Hk in Hh. by destruct Hh. }
  destruct (has (o_plan_id o) (db_plans s)); simpl; [|rewrite andb_false_r; by destruct (db_tasks s !! k)].
  apply bool_decide_eq_false in Hh. rewrite <-eq_None_not_Some in Hh.
  assert (∀ b, db_tasks (if b : bool then (Err (ErrForeignKey "tasks") : result StoreError unit, s) else (Ok tt, set_tasks <[(o_plan_id o, o_id o) := new_task o (db_now s)]> s)).2 !! k =
    match db_tasks s !! k with Some t => Some t | None => if at_key k (o_plan_id o) (o_id o) && negb b then Some (new_task o (db_now s)) else None end) as Hb.
  { intros [|]; simpl; [rewrite andb_false_r; by destruct (db_tasks s !! k)|]. rewrite andb_true_r, lookup_insert. unfold at_key.
    case_decide as Hk; [subst k; by rewrite Hh, bool_decide_true|]. rewrite bool_decide_false by done. by destruct (db_tasks s !! k). }
  rewrite Hb. destruct (nullIfEmpty (o_parent o)); simpl; [by rewrite negb_involutive|done].
Qed.

Lemma sfor_tasks {A} (l : list A) (body : A → Store unit) a b :
  (∀ x u v, body x u = (Ok tt, v) → db_tasks v = db_tasks u) → sfor l body a = (Ok tt, b) → db_tasks b = db_tasks a.
Proof.
  intros Hbody Hf. apply (sfor_all (λ a b, db_tasks b = db_tasks a) (λ _ _, True)) in Hf as [Hf _]; [done|done|congruence| |done].
  intros x u v _ Hx. split; [by eapply Hbody|done].
Qed.

Lemma write_node_tasks p g s s' :
  write_graph_node p g s = (Ok tt, s') →
  db_now s' = db_now s ∧ db_tasks s !! (p, o_id (g_task g)) = None ∧
  db_tasks s' = <[(p, o_id (g_task g)) := new_task (with_plan_id p (g_task g)) (db_now s)]> (db_tasks s).
Proof.
  intros Hw. pose proof (write_node_written _ _ _ _ Hw) as [He _]. split; [unfold db_now; by rewrite (ext_clock _ _ He)|].
  revert Hw. unfold write_graph_node. cbv zeta.
  intros ([] & s1 & (Hk & _ & _ & _ & _ & ->)%createTaskOn_ok & Hrest)%sbind_ok. split; [exact Hk|].
  apply sbind_ok in Hrest as ([] & s2 & Hmeta & Hrest). apply sbind_ok in Hrest as ([] & s3 & Hin & Hout).
  apply sfor_tasks in Hin; [|intros *; apply reserve_input_tasks]. apply sfor_tasks in Hout; [|intros *; apply reserve_output_tasks].
  rewrite Hout, Hin. destruct (decide (g_group_path g = "")); [by injection Hmeta as <-|]. apply put_metadata_tasks in Hmeta. by rewrite Hmeta.
Qed.

Lemma write_nodes_tasks p ts s s' :
  sfor ts (write_graph_node p) s = (Ok tt, s') →
  ∀ k, db_tasks s' !! k = match db_tasks s !! k with Some t => Some t | None => graph_rows p (db_now s) ts !! k end.
Proof.
  revert s. induction ts as [|g ts IH]; intros s; cbn [sfor].
  { intros [= <-] k. unfold graph_rows. simpl. rewrite lookup_empty. by destruct (db_tasks s !! k). }
  intros ([] & s1 & (Hnow & Hfree & Htasks)%write_node_tasks & Hrest)%sbind_ok k. rewrite (IH s1 Hrest k), Htasks, Hnow.
  unfold graph_rows. simpl. rewrite !lookup_insert. case_decide; [subst k; by rewrite Hfree|done].
Qed.

Lemma write_graph_tasks p ts s s' :
  writeGraphTasksOn p ts s = (Ok tt, s') →
  ∀ k, db_tasks s' !! k = match db_tasks s !! k with Some t => Some t | None => graph_rows p (db_now s) ts !! k end.
Proof.
  unfold writeGraphTasksOn. intros ([] & s1 & Hnodes & Hdeps)%sbind_ok k. rewrite <-(write_nodes_tasks p ts s s1 Hnodes).
  assert (db_tasks s' = db_tasks s1) as ->; [|done]. revert Hdeps. apply sfor_tasks. intros g u v. apply sfor_tasks.
  intros d. intros *. apply addDepOn_tasks.
Qed.

Lemma graph_spec s k :
  (∀ uuid o ts act, db_tasks (CreatePlanGraph uuid o ts act s).2 !! k = task_spec (OpCreatePlanGraph uuid o ts act) s k) ∧
  (∀ p ts, db_tasks (MaterializePlanGraph p ts s).2 !! k = task_spec (OpMaterializePlanGraph p ts) s k).
Proof.
  unfold task_spec. split; intros; simpl.
  - destruct (CreatePlanGraph uuid o ts act s) as [[p|e] s'] eqn:Hc; simpl.
    + apply (proj1 (atomically_ok _ _ _ _)) in Hc. apply sbind_ok in Hc as (q & s1 & Hp & Hc). apply sbind_ok in Hc as ([] & s2 & Hg & Hc).
      apply sbind_ok in Hc as ([] & s3 & Ha & [= <- <-]).
      assert (db_tasks s1 = db_tasks s ∧ db_now s1 = db_now s) as [H1 Hn].
      { split; [by eapply createPlan_tasks|]. revert Hp. unfold createPlanOn, sfail. intros. repeat case_match; by simplify_eq. }
      assert (db_tasks s3 = db_tasks s2) as -> by (destruct act; [by eapply setPlanStatus_tasks|by injection Ha as <-]).
      rewrite (write_graph_tasks q ts s1 s2 Hg), H1, Hn. done.
    + apply atomically_err in Hc as ->. by destruct (db_tasks s !! k).
  - destruct (MaterializePlanGraph p ts s) as [[[]|e] s'] eqn:Hc; simpl.
    + apply (proj1 (atomically_ok _ _ _ _)) in Hc. by rewrite (write_graph_tasks p ts s s' Hc).
    + apply atomically_err in Hc as ->. by destruct (db_tasks s !! k).
Qed.

Lemma import_ops_tasks s :
  (∀ uuid o, db_tasks (createPlanOn uuid o s).2 = db_tasks s) ∧ (∀ id st, db_tasks (setPlanStatusOn id st s).2 = db_tasks s) ∧
  (∀ p a b, db_tasks (addDepOn p a b s).2 = db_tasks s) ∧
  (∀ p i path sha, db_tasks (reserveTaskInputOn p i path sha s).2 = db_tasks s) ∧
  (∀ p i path mode, db_tasks (reserveTaskOutputOn p i path mode s).2 = db_tasks s) ∧
  (∀ p i g t j, db_tasks (putTaskMetadataOn p i g t j s).2 = db_tasks s).
Proof.
  assert (∀ A (m : Store A), statement m → (∀ u r v, m u = (Ok r, v) → db_tasks v = db_tasks u) → db_tasks (m s).2 = db_tasks s) as Hst.
  { intros A m Hm Hok. by apply keeps_tasks_run, keeps_statement. }
  split_and!; intros; apply Hst.
  - unfold createPlanOn; err_unchanged.
  - intros *; apply createPlan_tasks.
  - unfold setPlanStatusOn; err_unchanged.
  - intros *; apply setPlanStatus_tasks.
  - unfold addDepOn; err_unchanged.
  - intros *; apply addDepOn_tasks.
  - unfold reserveTaskInputOn; err_unchanged.
  - intros *; apply reserve_input_tasks.
  - intros ?*; apply reserveTaskOutputOn_err.
  - intros *; apply reserve_output_tasks.
  - unfold putTaskMetadataOn; err_unchanged.
  - intros *; apply put_metadata_tasks.
Qed.

Lemma delete_spec p s k : wf s → db_tasks (DeletePlan p s).2 !! k = task_spec (OpDeletePlan p) s k.
Proof.
  intros Hwf. unfold task_spec, DeletePlan, atomically, sbind, smod, sget, sfail. simpl.
  destruct (has p (db_plans s)) eqn:Hp; simpl.
  - destruct (db_tasks s !! k) as [t|] eqn:Hk; [|by apply map_lookup_filter_None_2; left].
    case_decide as Hd; [apply map_lookup_filter_None_2; right; by intros ? _ Hne|]. by apply map_lookup_filter_Some_2.
  - destruct (db_tasks s !! k) as [t|] eqn:Hk; [|done]. rewrite decide_False; [done|]. intros <-.
    apply (wf_plan _ Hwf) in Hk. by apply bool_decide_eq_false in Hp.
Qed.

(** Every operation does to the task table what its specification says. *)
Lemma exec_task_spec op s k : wf s → db_tasks (exec op s) !! k = task_spec op s k.
Proof.
  intros Hwf.
  pose proof (import_ops_tasks s) as (? & ? & ? & ? & ? & ?).
  pose proof (other_ops_tasks s) as (? & ? & ? & ? & ? & ? & ? & ? & ? & ?).
  destruct op; unfold exec;
    first [ apply spec_keep; [done|done|first [done|auto]] | by apply graph_spec | by apply create_spec | by apply delete_spec
          | by apply gates_spec | by apply claims_spec | by apply reports_spec | by apply reclaim_spec ].
Qed.

(** ** The frame *)

Lemma next_ready_row p s k : fst <$> head (next_ready p s) = Some k →
  k.1 = p ∧ ∃ t, db_tasks s !! k = Some t ∧ claimable (t_status t) = true.
Proof.
  intros Hh. destruct (next_ready p s) as [|[k' t] rows] eqn:Hn; [done|]. injection Hh as ->.
  assert ((k, t) ∈ next_ready p s) as Hin by (rewrite Hn; by left).
  unfold next_ready in Hin. rewrite order_by_perm, task_rows_elem, andb_true_iff in Hin. destruct Hin as (Hk & Hr & _).
  unfold ready_row in Hr. simpl in Hr. rewrite !andb_true_iff, bool_decide_eq_true in Hr. destruct Hr as [[? ?] _]. eauto.
Qed.

Lemma row_after_frame op s k t t' :
  wf s → db_tasks s !! k = Some t → row_after op s k t = Some t' → row_frame op k t t'.
Proof.
  intros Hwf Hk. unfold row_frame.
  destruct op; simpl; try (by intros [= <-]; left);
    try (match goal with |- Some (if ?b then _ else _) = _ → _ => destruct b eqn:Hb; intros [= <-]; [right|by left] end;
         unfold at_key in Hb; rewrite ?andb_true_iff, ?bool_decide_eq_true in Hb; by intuition).
  - intros [= <-]. destruct (decide (running t)) as [Hrun|Hidle]; [right; split; [done|]; by eexists _, _|].
    left. destruct (claim_idle _ _ _ (wf_claim _ Hwf _ _ Hk) Hidle) as [H1 H2]. by apply disowned_idle.
  - destruct (reclaimable s (stale_cutoff s staleAfter) t) eqn:Hr; intros [= <-].
    + right. unfold reclaimable in Hr. apply andb_true_iff in Hr as [Hr%bool_decide_eq_true _]. split; [done|]. by left.
    + destruct (decide (running t)) as [Hrun|Hidle]; [right; split; [done|]; right; by eexists _, _|].
      left. destruct (claim_idle _ _ _ (wf_claim _ Hwf _ _ Hk) Hidle) as [H1 H2]. by apply disowned_idle.
  - by case_decide; [|intros [= <-]; left].
  - destruct (bool_decide _ && _) eqn:Hb; intros [= <-]; [right|by left]. apply andb_true_iff in Hb as [Hh%bool_decide_eq_true _].
    apply next_ready_row in Hh as (? & t0 & Hk0 & ?). simplify_eq. done.
Qed.

Lemma row_new_fresh op s k t : row_new op s k = Some t → fresh t.
Proof.
  assert (∀ p now ts t, graph_rows p now ts !! k = Some t → fresh t) as Hg.
  { intros p now ts u Hu. unfold graph_rows in Hu. apply elem_of_list_to_map_2, list_elem_of_fmap in Hu as (g & [= _ ->] & _).
    split; [|done]. simpl. destruct (o_requires_approval _); auto. }
  destruct op; simpl; try done.
  - destruct (_ && _); [|done]. intros [= <-]. split; [|done]. simpl. destruct (o_requires_approval o); auto.
  - destruct (CreatePlanGraph _ _ _ _ _).1; [apply Hg|done].
  - destruct (MaterializePlanGraph _ _ _).1; [apply Hg|done].
Qed.

Lemma exec_rows op s :
  wf s → (∀ p, op ≠ OpDeletePlan p) → evolves (row_frame op) s (exec op s).
Proof.
  intros Hwf Hop k. rewrite exec_task_spec by done. unfold task_spec. destruct (db_tasks s !! k) as [t|] eqn:Hk.
  - destruct (row_after op s k t) as [t'|] eqn:Ha; [by eapply row_after_frame|]. destruct op; simpl in Ha; try done. by destruct (Hop id).
  - destruct (row_new op s k) eqn:Hn; [by eapply row_new_fresh|done].
Qed.

End Rows.

(** ** Consequences of the specification *)

Lemma with_claim_move a b t : row_move t (with_claim a b t).
Proof. constructor; simpl; auto; lia. Qed.

Lemma touches_move op k t t' : touches op k t t' → row_move t t'.
Proof.
  assert (∀ st, t_status t = TaskStatusRunning → status_edge TaskStatusRunning st = true →
    row_move t (release_to st t)) as Hrel.
  { intros st Ht Hst. constructor; simpl; rewrite ?Ht; auto; lia. }
  assert (∀ x, owned_running x t = true → t_status t = TaskStatusRunning) as Hown.
  { intros x. unfold owned_running. by intros [?%bool_decide_eq_true _]%andb_true_iff. }
  destruct op; simpl; try done.
  - intros (_ & a & b & ->). apply with_claim_move.
  - unfold held_by. intros [[_ ?%bool_decide_eq_true]%andb_true_iff ->]. by apply Hrel.
  - intros (Hr & [->|(a & b & ->)]); [|apply with_claim_move].
    constructor; simpl; [done|rewrite Hr; auto|lia..].
  - intros (_ & Hd & ->). constructor; simpl; [done| |lia..]. destruct (t_status t); auto; done.
  - intros (_ & Hd & ->). constructor; simpl; [done| |lia..]. destruct (t_status t); auto; done.
  - intros (_ & <- & Hb & ->). constructor; simpl; [done| |lia..]. destruct Hb as [->| ->]; auto.
  - intros (_ & Hc & ->). constructor; simpl; [done| |lia..]. destruct (t_status t); auto; done.
  - intros (_ & Hc & ->). constructor; simpl; [done| |lia..]. destruct (t_status t); auto; done.
  - intros (_ & Ho%Hown & ->). by apply Hrel.
  - intros (_ & Ho%Hown & ->). case_match; constructor; simpl; try done; try lia; rewrite Ho; auto.
  - intros (_ & Ho%Hown & ->). by apply Hrel.
  - intros (_ & Ho%Hown & ->). by apply Hrel.
  - intros (_ & Ho & ->). constructor; simpl; [done| |lia..]. rewrite Ho. auto.
Qed.

(** ** Runs *)

(** The preconditions of a run, evaluated on the way. *)
Definition worker_ofb (s : DB) (x w : string) : bool :=
  match db_workers s !! w with Some W => bool_decide (w_session W = x) | None => false end.
Definition op_preb (s : DB) (op : Op) : bool :=
  match op with
  | OpClaimTask _ _ x w | OpClaimNextReady _ x w => worker_ofb s x w
  | OpReserveTaskOutput p i _ _ => negb (running_task s (p, i))
  | _ => true
  end.
Fixpoint run_ok `{SqlEngine} (s : DB) (ops : list Op) : bool :=
  match ops with
  | [] => true
  | op :: ops' => op_preb s op && run_ok (exec op s) ops'
  end.

Lemma worker_ofb_true s x w : worker_ofb s x w = true ↔ worker_of s x w.
Proof.
  unfold worker_ofb, worker_of. destruct (db_workers s !! w); [rewrite bool_decide_eq_true|]; naive_solver.
Qed.
Lemma op_preb_true s op : op_preb s op = true → op_pre s op.
Proof.
  destruct op; simpl; rewrite ?worker_ofb_true; try done.
  rewrite negb_true_iff, <-not_true_iff_false, running_task_true. done.
Qed.

Definition session_of (op : Op) : option string :=
  match op with
  | OpMarkDone _ _ x _ | OpMarkFailed _ _ x _ _ | OpReleaseClaim _ _ x _ | OpMarkBlocked _ _ x _ => Some x
  | _ => None
  end.
(** The operations the supervisor uses to take work away from a dead owner. *)
Definition supervises (op : Op) : bool :=
  match op with
  | OpCloseSession _ | OpReclaimWorker _ | OpReclaimStale _ | OpDeletePlan _ => true
  | _ => false
  end.

Section Runs.
Context `{SqlEngine}.

Lemma run_from_trans s0 ops s ops' :
  run_from s0 ops s → run_ok s ops' = true → run_from s0 (ops ++ ops') (exec_all s ops').
Proof.
  intros Hrun. revert ops s Hrun. induction ops' as [|op ops' IH]; intros ops s Hrun Hok.
  - by rewrite app_nil_r.
  - simpl in Hok. apply andb_true_iff in Hok as [Hpre%op_preb_true Hok]. rewrite cons_middle, app_assoc. apply IH; [|done]. by constructor.
Qed.

Lemma run_ok_run s ops : run_ok s ops = true → run_from s ops (exec_all s ops).
Proof. apply (run_from_trans s [] s). constructor. Qed.

Lemma reachable_run clock ops : run_ok (empty_db clock) ops = true → reachable (exec_all (empty_db clock) ops).
Proof. intros Hok. exists clock, ops. by apply run_ok_run. Qed.

Lemma issuable_sound s : issuable s → sound s.
Proof. intros (clock & ops & ->). apply exec_all_sound, empty_wf. Qed.

Lemma reachable_wf s : reachable s → wf s.
Proof. intros (clock & ops & Hrun). by eapply run_wf, Hrun; apply empty_wf. Qed.

(** What one step does to one row that survives it, and what a new row is. *)
Lemma exec_row op s k t t' :
  wf s → db_tasks s !! k = Some t → db_tasks (exec op s) !! k = Some t' → row_frame op k t t'.
Proof. intros Hwf Hk. rewrite exec_task_spec by done. unfold task_spec. rewrite Hk. by apply (row_after_frame _ _ _ _ _ Hwf). Qed.

Lemma exec_row_new op s k t' :
  wf s → db_tasks s !! k = None → db_tasks (exec op s) !! k = Some t' → fresh t'.
Proof. intros Hwf Hk. rewrite exec_task_spec by done. unfold task_spec. rewrite Hk. apply row_new_fresh. Qed.

(** A running row belongs to its session. *)
Lemma exec_keeps_claim s op k t x :
  wf s → db_tasks s !! k = Some t →
  t_status t = TaskStatusRunning → t_claimed_by_session t = Some x →
  supervises op = false → session_of op ≠ Some x →
  db_tasks (exec op s) !! k = Some t.
Proof.
  intros Hr Hk Hrun Hx Hsup Hop.
  assert (evolves (row_frame op) s (exec op s)) as Hev.
  { apply (exec_rows _ _ Hr). intros p ->. done. }
  specialize (Hev k). rewrite Hk in Hev. destruct (db_tasks (exec op s) !! k) as [t'|]; [|done].
  destruct Hev as [->|Ht]; [done|]. exfalso.
  assert (∀ y, owned_running y t = true → y = x) as Hown.
  { intros y. unfold owned_running, sql_eq. intros [_ Hy%bool_decide_eq_true]%andb_true_iff. congruence. }
  assert (∀ b, claimable (t_status t) = b → b = false) as Hcl by (intros b <-; by rewrite Hrun).
  destruct op; simpl in *; try done; rewrite ?Hrun in Ht; try naive_solver.
Qed.

Lemma run_from_app s0 ops s1 ops' s2 : run_from s0 ops s1 → run_from s1 ops' s2 → run_from s0 (ops ++ ops') s2.
Proof. intros H1 H2. induction H2; [by rewrite app_nil_r|]. rewrite app_assoc. by constructor. Qed.

Lemma run_one s op : op_pre s op → run_from s [op] (exec op s).
Proof. apply (run_step s []). constructor. Qed.
End Runs.
