(* ===== verification/StoreProps.v ===== *)
(** * Properties of the store

    The theorems about the store's operations, each over the states
    [StoreTrace.issuable] or [StoreTrace.reachable] from an empty database or
    over every state. The
    demonstration runs at the top are the inputs of the witnesses. *)
From S2P Require Import Prelude GoLib StoreModel StoreSql StoreTasks StoreWorkers Dfs StoreGraph StoreMeta StoreInv StoreSpec StoreTrace.
From stdpp Require Import relations sorting.

(** ** A demonstration run *)

Definition demo_task (id desc : string) (ordinal : option Z) (approval : bool) : CreateTaskOpts :=
  mkCreateTaskOpts "" id desc None ordinal "" "" approval.
Definition demo_node (id : string) (deps outputs : list string) (ordinal : option Z) (approval : bool) : GraphTaskSpec :=
  mkGraphTaskSpec (demo_task id ("do " +:+ id) ordinal approval) deps "g" "g" "" []
    ((λ p, mkTaskOutputSpec p "") <$> outputs).

(** [a] and [b] write the same file, [c] follows [a], [d] waits for approval. *)
Definition demo_graph : list GraphTaskSpec :=
  [demo_node "a" [] ["out.txt"] (Some 0%Z) false; demo_node "b" [] ["./out.txt"] (Some 1%Z) false;
   demo_node "c" ["a"] [] (Some 2%Z) false; demo_node "d" [] [] None true].

Definition demo_setup : list Op :=
  [Tick 5000000000; AddProject "proj"; OpCreateSession "s1" (mkSessionOpts "" "supervisor" 7 "t" "h");
   OpCreateWorker "w1" (mkWorkerOpts "s1" "claude" "" false 10 "t");
   OpCreatePlanGraph "p" (mkCreatePlanOpts "proj" "slug" "Title" "" "") demo_graph true].
Definition demo_db : DB := exec_all (H:=merge_engine) (empty_db 0) demo_setup.
Definition demo_claim : list Op := [OpClaimTask "p" "a" "s1" "w1"].
Definition demo_running : DB := exec_all (H:=merge_engine) (empty_db 0) (demo_setup ++ demo_claim).
Definition demo_task_row (s : DB) (i : string) : Task :=
  default (new_task (demo_task "" "" None false) 0) (db_tasks s !! ("p", i)).

Lemma demo_reachable : @reachable merge_engine demo_db.
Proof. apply (reachable_run (H:=merge_engine) 0 demo_setup). vm_compute. reflexivity. Qed.

Lemma demo_running_reachable : @reachable merge_engine demo_running.
Proof.
  apply (reachable_run (H:=merge_engine) 0 (demo_setup ++ demo_claim)).
  vm_compute. reflexivity.
Qed.

(** ** Safety in every reachable state *)

(** C2: the store stays well formed. Whatever operations clients issue, in any
    order, with any arguments and however the clock moves: references resolve,
    only running tasks carry a claim, a claim's session and worker exist, the
    dependency graph is acyclic and reservations are canonical. Where besides
    every claim names a worker of the claiming session and no output is reserved
    for a task that already runs, two conditions the operations leave to their
    callers, a claim's worker also belongs to the claiming session, and no two
    running tasks of a project have declared the same output. *)
Theorem store_invariant `{SqlEngine} s : (issuable s → sound s) ∧ (reachable s → wf s).
Proof. split; [apply issuable_sound|apply reachable_wf]. Qed.

(** A session claims with the worker of another. *)
Definition demo_intruder : list Op :=
  [OpCreateSession "s2" (mkSessionOpts "" "supervisor" 8 "t" "h"); OpClaimTask "p" "a" "s2" "w1"].
Lemma demo_intruder_issuable : @issuable merge_engine (exec_all (H:=merge_engine) demo_db demo_intruder).
Proof. exists 0%Z, (demo_setup ++ demo_intruder). unfold demo_db, exec_all. by rewrite foldl_app. Qed.

Lemma store_invariant_witness :
  sound (exec_all (H:=merge_engine) demo_db demo_intruder) ∧ wf demo_running.
Proof.
  split; [apply (proj1 (store_invariant (H:=merge_engine) _)), demo_intruder_issuable|
          apply (proj2 (store_invariant (H:=merge_engine) _)), demo_running_reachable].
Defined.

(** The two conditions are needed: a claim with another session's worker stands
    under a session its worker does not belong to, and a reservation made while
    two tasks run lets both write one path. *)
Example claims_do_not_check_the_worker : ¬ wf (exec_all (H:=merge_engine) demo_db demo_intruder).
Proof.
  set (s := exec_all demo_db demo_intruder). intros Hwf.
  assert (∃ t, db_tasks s !! ("p", "a") = Some t ∧ t_claimed_by_worker t = Some "w1" ∧ t_claimed_by_session t = Some "s2")
    as (t & Ht & Hw & Hx) by (eexists; split_and!; vm_compute; reflexivity).
  destruct (claim_worker _ _ _ (wf_claim _ Hwf _ _ Ht) "w1" Hw) as (W & HW & Hs). specialize (Hs eq_refl).
  assert (w_session <$> db_workers s !! "w1" = Some "s1") as Hses by (vm_compute; reflexivity).
  rewrite HW in Hses. injection Hses as Hses. congruence.
Qed.

Definition late_reservation : list Op :=
  [OpClaimTask "p" "a" "s1" "w1"; OpMarkDone "p" "a" "s1" "{}"; OpClaimTask "p" "b" "s1" "w1"; OpClaimTask "p" "c" "s1" "w1";
   OpReserveTaskOutput "p" "c" "out.txt" ""].
Example reservations_do_not_check_the_status : ¬ exclusive (exec_all (H:=merge_engine) demo_db late_reservation).
Proof.
  set (s := exec_all demo_db late_reservation). intros Hex.
  assert (∃ t u, db_tasks s !! ("p", "b") = Some t ∧ db_tasks s !! ("p", "c") = Some u ∧ running t ∧ running u)
    as (t & u & Ht & Hu & Hrt & Hru) by (eexists _, _; split_and!; vm_compute; reflexivity).
  apply (Hex ("p", "b") ("p", "c") t u "out.txt"); [done..| | |]; [vm_compute; reflexivity|..];
    (apply (bool_decide_eq_true_1 _); vm_compute; reflexivity).
Qed.

(** C1: output exclusivity. Two tasks of one project that run at the same time
    and have declared the same output path are the same task, in every database the
    operations lead to when no output is reserved for a task that already runs and
    every claim names a worker of the claiming session. *)
Theorem output_exclusivity `{SqlEngine} s k1 k2 t1 t2 path :
  reachable s →
  db_tasks s !! k1 = Some t1 → db_tasks s !! k2 = Some t2 →
  t_status t1 = TaskStatusRunning → t_status t2 = TaskStatusRunning →
  same_project s k1.1 k2.1 = true →
  (k1.1, k1.2, path) ∈ db_outputs s → (k2.1, k2.2, path) ∈ db_outputs s → k1 = k2.
Proof.
  intros Hr Hk1 Hk2 Hr1 Hr2 Hs Ho1 Ho2. destruct (decide (k1 = k2)) as [|Hne]; [done|].
  destruct (wf_exclusive _ (reachable_wf _ Hr) eq_refl k1 k2 t1 t2 path); done.
Qed.

Lemma output_exclusivity_witness : ("p", "a") = ("p", "a") :> string * string.
Proof.
  apply (output_exclusivity (H:=merge_engine) demo_running ("p", "a") ("p", "a")
           (demo_task_row demo_running "a") (demo_task_row demo_running "a") "out.txt");
    [apply demo_running_reachable|vm_compute; reflexivity..
    |apply (bool_decide_eq_true_1 _); vm_compute; reflexivity
    |apply (bool_decide_eq_true_1 _); vm_compute; reflexivity].
Defined.



(** the task lifecycle. One operation moves a row along one edge of the
    status graph or leaves its status, never rewrites what the import declared,
    and the retry and reclaim counters grow by at most one. *)
Theorem task_lifecycle `{SqlEngine} s op k t t' :
  reachable s → db_tasks s !! k = Some t → db_tasks (exec op s) !! k = Some t' → row_move t t'.
Proof.
  intros Hr Hk Hk'. destruct (exec_row op s k t t' (reachable_wf _ Hr) Hk Hk') as [->|Ht].
  - constructor; auto; lia.
  - by eapply touches_move.
Qed.

Lemma task_lifecycle_witness :
  row_move (demo_task_row demo_db "a") (demo_task_row demo_running "a").
Proof.
  apply (task_lifecycle (H:=merge_engine) demo_db (OpClaimTask "p" "a" "s1" "w1") ("p", "a"));
    [apply demo_reachable|vm_compute; reflexivity..].
Defined.

(** C4: a claim is a lease. While a task is running under a session, no
    operation but that session's own report and the supervisor's recovery
    operations changes its row in any column; in particular a report by another
    session has no effect on it. *)
Theorem claim_is_a_lease `{SqlEngine} s op k t x :
  reachable s → db_tasks s !! k = Some t →
  t_status t = TaskStatusRunning → t_claimed_by_session t = Some x →
  supervises op = false → session_of op ≠ Some x →
  db_tasks (exec op s) !! k = Some t.
Proof. intros Hr. apply exec_keeps_claim, reachable_wf, Hr. Qed.

Lemma claim_is_a_lease_witness :
  db_tasks (exec (H:=merge_engine) (OpMarkDone "p" "a" "s2" "{}") demo_running) !! ("p", "a")
  = Some (demo_task_row demo_running "a").
Proof.
  apply (claim_is_a_lease (H:=merge_engine) demo_running _ ("p", "a") (demo_task_row demo_running "a") "s1");
    [apply demo_running_reachable|vm_compute; reflexivity..|done|done].
Defined.

(** Statuses no operation leaves. *)
Definition final (st : TaskStatus) : bool :=
  match st with
  | TaskStatusDone | TaskStatusFailed | TaskStatusSkipped | TaskStatusDecomposed | TaskStatusBlocked => true
  | _ => false
  end.

Lemma final_untouched op k t t' : final (t_status t) = true → ¬ touches op k t t'.
Proof.
  intros Hf Ht. assert (∀ x, owned_running x t = true → False) as Hown.
  { intros x. unfold owned_running. intros [Hr%bool_decide_eq_true _]%andb_true_iff. by rewrite Hr in Hf. }
  assert (∀ w, held_by w t = true → False) as Hheld.
  { intros x. unfold held_by. intros [_ Hr%bool_decide_eq_true]%andb_true_iff. by rewrite Hr in Hf. }
  assert (¬ running t) as Hrun by (intros Hr; unfold running in Hr; by rewrite Hr in Hf).
  destruct op; simpl in Ht; try done;
    first [ destruct Ht as (_ & Ho & _); by apply Hown in Ho
          | destruct Ht as [Ho _]; by apply Hheld in Ho
          | destruct Ht as [Hr _]; by apply Hrun
          | destruct Ht as (_ & Hs & _); destruct (t_status t); done
          | destruct Ht as (_ & <- & [Hb|Hb] & _); by rewrite Hb in Hf ].
Qed.

(** a settled task is settled for good. Once a row is done, failed, skipped,
    decomposed or blocked, no sequence of operations that keeps its plan changes
    it; a task parked in [blocked] is never requeued. *)
Theorem settled_rows_are_final `{SqlEngine} s ops ops' k t :
  run_from s ops ops' → reachable s → db_tasks s !! k = Some t → final (t_status t) = true →
  OpDeletePlan k.1 ∉ ops → db_tasks ops' !! k = Some t.
Proof.
  intros Hrun Hr Hk Hf. induction Hrun as [|ops op s' Hrun IH Hpre]; [done|]. intros Hnot.
  assert (db_tasks s' !! k = Some t) as Hk' by (apply IH; set_solver). clear IH.
  assert (wf s') as Hwf by (eapply run_wf, Hrun; by apply reachable_wf).
  destruct (db_tasks (exec op s') !! k) as [t'|] eqn:Hn.
  - destruct (exec_row op s' k t t' Hwf Hk' Hn) as [->|Ht]; [done|].
    by apply final_untouched in Ht.
  - exfalso. assert (op = OpDeletePlan k.1 ∨ ∀ p, op ≠ OpDeletePlan p) as [->|Hop].
    { destruct op; try (by right). destruct (decide (id = k.1)) as [->|Hne]; [by left|].
      exfalso. simpl in Hn. unfold DeletePlan, atomically, sbind, smod, sget, sfail in Hn.
      simpl in Hn. destruct (has id (db_plans s')); simpl in Hn; [|congruence].
      rewrite map_lookup_filter_None in Hn. destruct Hn as [Hn|Hn]; [congruence|].
      by apply (Hn t Hk'). }
    + set_solver.
    + pose proof (exec_rows op s' Hwf Hop k) as Hev. by rewrite Hk', Hn in Hev.
Qed.

Definition demo_blocked : DB :=
  exec_all (H:=merge_engine) (empty_db 0) (demo_setup ++ demo_claim ++ [OpMarkBlocked "p" "a" "s1" zero_payload]).

Lemma settled_rows_are_final_witness :
  db_tasks (exec_all (H:=merge_engine) demo_blocked [OpReclaimStale 1; OpClearTaskBlock "p" "a" TaskStatusBlockedInput])
    !! ("p", "a") = Some (demo_task_row demo_blocked "a").
Proof.
  eapply (settled_rows_are_final (H:=merge_engine) demo_blocked);
    [apply run_ok_run; vm_compute; reflexivity
    |apply (reachable_run (H:=merge_engine)); vm_compute; reflexivity
    |vm_compute; reflexivity|vm_compute; reflexivity
    |intros [|[|[]%elem_of_nil]%elem_of_cons]%elem_of_cons; discriminate].
Defined.

(** ** Claims *)

(** A task a worker may take: pending or ready, with every dependency done,
    skipped or decomposed, and no running task of the project holding one of its
    declared outputs. *)
Definition eligible (s : DB) (p i : string) (t : Task) : Prop :=
  db_tasks s !! (p, i) = Some t ∧ claimable (t_status t) = true ∧
  (∀ d td, (p, i, d) ∈ db_deps s → db_tasks s !! (p, d) = Some td → satisfied (t_status td) = true) ∧
  (∀ path q j, (p, i, path) ∈ db_outputs s → (q, j, path) ∈ db_outputs s → (q, j) ≠ (p, i) →
     same_project s p q = true → running_task s (q, j) = false).

Lemma reserved_by_peer_nil s p i :
  reserved_by_peer s p i = [] ↔
  ∀ path q j, (p, i, path) ∈ db_outputs s → (q, j, path) ∈ db_outputs s → (q, j) ≠ (p, i) →
     same_project s p q = true → running_task s (q, j) = false.
Proof.
  split.
  - intros Hnil path q j H1 H2 Hne Hs. apply not_true_is_false. intros Hr.
    assert (path ∈ reserved_by_peer s p i) as Hin.
    { apply reserved_by_peer_elem. split; [done|]. by exists q, j. }
    rewrite Hnil in Hin. by apply elem_of_nil in Hin.
  - intros Hno. apply elem_of_nil_inv. intros path Hin.
    apply reserved_by_peer_elem in Hin as (H1 & q & j & H2 & Hne & Hs & Hr).
    by rewrite (Hno path q j) in Hr.
Qed.

Lemma conflict_iff `{SqlEngine} s p i :
  wf s → outputReservationConflict p i s = "" ↔ reserved_by_peer s p i = [].
Proof.
  intros Hwf. split; [by apply (conflict_free _ _ _ Hwf)|]. intros Hnil. unfold outputReservationConflict.
  assert (order_by (λ _ : string, []) (reserved_by_peer s p i) = []) as ->; [|done].
  apply Permutation_nil. by rewrite order_by_perm, Hnil.
Qed.

(** [ClaimTask] succeeds exactly on an eligible task claimed under an
    existing session and worker; it then returns the running row and leaves one
    [task.claimed] event. *)
Theorem ClaimTask_succeeds_iff `{SqlEngine} s p i x w t' s' :
  wf s →
  claimTaskOnce p i x w s = (Ok t', s') ↔
  ∃ t, eligible s p i t ∧ is_Some (db_sessions s !! x) ∧ is_Some (db_workers s !! w) ∧
       t' = claim_task x w t ∧ s' = claimed p i x w t s.
Proof.
  intros Hwf. rewrite claimTaskOnce_run. unfold eligible. split.
  - destruct (db_tasks s !! (p, i)) as [t|] eqn:Hk; [|done].
    destruct (claimable (t_status t)) eqn:Hc; [|done]. simpl.
    destruct (deps_satisfied s p i) eqn:Hd; [|done]. case_decide as Hf; [|done].
    destruct (has x (db_sessions s)) eqn:Hx; [|done]. destruct (has w (db_workers s)) eqn:Hw; [|done].
    simpl. intros. simplify_eq. exists t. apply has_true in Hx, Hw.
    rewrite deps_satisfied_true in Hd. apply conflict_iff in Hf; [|done].
    rewrite reserved_by_peer_nil in Hf. done.
  - intros (t & (Hk & Hc & Hd & Hf) & Hx & Hw & -> & ->). rewrite Hk, Hc.
    rewrite <-deps_satisfied_true in Hd. rewrite Hd. simpl.
    rewrite <-reserved_by_peer_nil, <-conflict_iff in Hf by done. rewrite decide_True by done.
    apply has_true in Hx, Hw. by rewrite Hx, Hw.
Qed.

Lemma ClaimTask_succeeds_iff_witness :
  claimTaskOnce (H:=merge_engine) "p" "a" "s1" "w1" demo_db =
    (Ok (demo_task_row demo_running "a"), demo_running) ↔
  ∃ t, eligible demo_db "p" "a" t ∧ is_Some (db_sessions demo_db !! "s1") ∧ is_Some (db_workers demo_db !! "w1") ∧
       demo_task_row demo_running "a" = claim_task "s1" "w1" t ∧ demo_running = claimed "p" "a" "s1" "w1" t demo_db.
Proof. apply (ClaimTask_succeeds_iff (H:=merge_engine)). apply (reachable_wf (H:=merge_engine)), demo_reachable. Defined.

(** a claimed task cannot be claimed again. After a successful claim, by
    either route, every further claim of the task is refused with
    [ErrNoReadyTask] and changes nothing. *)
Theorem claims_exclude_each_other `{SqlEngine} s p i x w t s' x' w' :
  claimTaskOnce p i x w s = (Ok t, s') →
  claimTaskOnce p i x' w' s' = (Err ErrNoReadyTask, s') ∧
  (∀ t'' s'', ClaimNextReady p x' w' s' = (Ok t'', s'') → db_tasks s'' !! (p, i) = Some t).
Proof.
  rewrite claimTaskOnce_run. intros Heq.
  assert (db_tasks s' !! (p, i) = Some t ∧ t_status t = TaskStatusRunning) as [Hk Hr].
  { repeat case_match; simplify_eq. simpl. rewrite lookup_insert_eq. done. }
  split.
  - rewrite claimTaskOnce_run, Hk, Hr. done.
  - intros t'' s'' (j & tj & Hj & _ & Hrr & _ & _ & _ & _ & ->)%ClaimNextReady_ok.
    simpl. rewrite lookup_insert_ne; [done|]. intros [= ->]. simplify_eq.
    unfold ready_row in Hrr. simpl in Hrr. rewrite Hr, andb_false_r in Hrr. done.
Qed.

Lemma claims_exclude_each_other_witness :
  claimTaskOnce (H:=merge_engine) "p" "a" "s2" "w2" demo_running = (Err ErrNoReadyTask, demo_running) ∧
  (∀ t'' s'', ClaimNextReady (H:=merge_engine) "p" "s2" "w2" demo_running = (Ok t'', s'') →
     db_tasks s'' !! ("p", "a") = Some (demo_task_row demo_running "a")).
Proof.
  apply (claims_exclude_each_other (H:=merge_engine) demo_db "p" "a" "s1" "w1").
  vm_compute. reflexivity.
Defined.

Definition next_key (t : Task) : list Cell := nulls_last (t_sequence_ordinal t) ++ [KInt (t_created_at t)].

Lemma next_ready_elem `{SqlEngine} s p k t :
  wf s → (k, t) ∈ next_ready p s ↔ k.1 = p ∧ eligible s p k.2 t.
Proof.
  intros Hwf. unfold next_ready. rewrite order_by_perm, task_rows_elem, andb_true_iff, bool_decide_eq_true.
  unfold ready_row, eligible. simpl. rewrite !andb_true_iff, bool_decide_eq_true.
  rewrite deps_satisfied_true, reserved_by_peer_nil. destruct k as [q i]. simpl. naive_solver.
Qed.

(** [ClaimNextReady] takes an eligible task that is first in author order
    (ordinal, NULLs last, then creation time), and with an existing session and
    worker it fails only when no task of the plan is eligible, leaving the store
    unchanged. *)
Theorem ClaimNextReady_takes_first `{SqlEngine} s p x w :
  wf s → is_Some (db_sessions s !! x) → is_Some (db_workers s !! w) →
  (∃ i t, eligible s p i t ∧
     (∀ j tj, eligible s p j tj → key_leb (next_key t) (next_key tj) = true) ∧
     ClaimNextReady p x w s = (Ok (claim_task x w t), claimed p i x w t s)) ∨
  ((∀ i t, ¬ eligible s p i t) ∧ ClaimNextReady p x w s = (Err ErrNoReadyTask, s)).
Proof.
  intros Hwf Hx Hw. apply has_true in Hx, Hw.
  destruct (next_ready p s) as [|[[q i] t] rows] eqn:Hn.
  - right. split.
    + intros i t Hel. assert (((p, i), t) ∈ next_ready p s) as Hin by by apply next_ready_elem.
      rewrite Hn in Hin. by apply elem_of_nil in Hin.
    + unfold ClaimNextReady, atomically, sbind, sget. by rewrite Hn.
  - left. assert (((q, i), t) ∈ next_ready p s) as Hin by (rewrite Hn; set_solver).
    apply next_ready_elem in Hin as [Hq Hel]; [|done]. simpl in *. subst q. exists i, t.
    split_and!; [done| |].
    + intros j tj Helj. assert (((p, j), tj) ∈ next_ready p s) as Hj by by apply next_ready_elem.
      pose proof (order_by_sorted TaskRow (λ r, nulls_last (t_sequence_ordinal r.2) ++ [KInt (t_created_at r.2)])
        (task_rows s (λ r, ready_row s p r && bool_decide (reserved_by_peer s p r.1.2 = [])))) as Hs.
      fold (next_ready p s) in Hs. rewrite Hn in Hs, Hj.
      apply elem_of_cons in Hj as [Heq|Hj].
      * simplify_eq. unfold next_key. apply Is_true_true. by destruct (key_leb_total (next_key t) (next_key t)).
      * apply StronglySorted_inv in Hs as [_ Hall]. rewrite Forall_forall in Hall.
        by apply Is_true_true, (Hall _ Hj).
    + destruct Hel as (Hk & Hc & _). unfold ClaimNextReady, atomically, sbind, sget. rewrite Hn. simpl.
      rewrite claim_row_run, Hk, Hc, Hx, Hw. simpl. unfold GetTask. simpl. by rewrite lookup_insert_eq.
Qed.

Lemma ClaimNextReady_takes_first_witness :
  (∃ i t, eligible demo_db "p" i t ∧
     (∀ j tj, eligible demo_db "p" j tj → key_leb (next_key t) (next_key tj) = true) ∧
     ClaimNextReady (H:=merge_engine) "p" "s1" "w1" demo_db =
       (Ok (claim_task "s1" "w1" t), claimed "p" i "s1" "w1" t demo_db)) ∨
  ((∀ i t, ¬ eligible demo_db "p" i t) ∧
   ClaimNextReady (H:=merge_engine) "p" "s1" "w1" demo_db = (Err ErrNoReadyTask, demo_db)).
Proof.
  apply (ClaimNextReady_takes_first (H:=merge_engine));
    [apply (reachable_wf (H:=merge_engine)), demo_reachable|apply has_true; vm_compute; reflexivity..].
Defined.

(** ** Reports *)

(** a worker's failure report, on every branch. Only the session that owns
    the running task is heard; a stale reporter gets [ErrTaskNotOwnedRunning]
    and changes nothing. A report within the retry budget requeues the task with
    one more retry and no failure category; one over the budget fails it for
    good with the reported category. Either leaves exactly one event. *)
Theorem MarkFailed_branches p i x payload maxRetries s :
  let k := (p, i) in
  match reporter s k x with
  | None => MarkFailedWithPayload p i x payload maxRetries s = (Err ErrTaskNotOwnedRunning, s)
  | Some t =>
      ∃ t' e, MarkFailedWithPayload p i x payload maxRetries s =
                (Ok (bool_decide (t_retry_count t + 1 ≤ maxRetries)%Z), reported k t' e s) ∧
        declaration t' = declaration t ∧
        t_claimed_by_session t' = None ∧ t_claimed_by_worker t' = None ∧
        e_payload e = PayloadStruct payload ∧
        (if decide (t_retry_count t + 1 ≤ maxRetries)%Z
         then t_status t' = TaskStatusPending ∧ t_retry_count t' = (t_retry_count t + 1)%Z ∧
              t_failure_category t' = None ∧ e_kind e = "task.failed"
         else t_status t' = TaskStatusFailed ∧ t_retry_count t' = t_retry_count t ∧
              t_failure_category t' = nullIfEmpty (pl_failure_category payload) ∧
              e_kind e = "task.failed_terminal")
  end.
Proof.
  intros k. rewrite MarkFailed_run. fold k. destruct (reporter s k x) as [t|]; [|done].
  destruct (Z.leb_spec (t_retry_count t + 1) maxRetries) as [Hle|Hgt].
  - rewrite bool_decide_true by lia. eexists _, _. by rewrite decide_True by lia.
  - rewrite bool_decide_false by lia. eexists _, _. by rewrite decide_False by lia.
Qed.

(** owner reports on completion, release and block: accepted exactly from
    the owner of the running task, which they settle with one event; from anyone
    else they are refused and the store is unchanged. *)
Theorem owner_reports `{SqlEngine} p i x ev reason payload s :
  let k := (p, i) in
  match reporter s k x with
  | None => MarkDone p i x ev s = (Err ErrTaskNotOwnedRunning, s) ∧
            ReleaseClaim p i x reason s = (Err ErrTaskNotOwnedRunning, s) ∧
            MarkBlocked p i x payload s = (Err ErrTaskNotOwnedRunning, s)
  | Some t =>
      (∃ s', MarkDone p i x ev s = (Ok (Ready p s'), s') ∧
        s' = reported k (release_to TaskStatusDone t)
               (plain_event p i "worker.completed" x "worker" (PayloadJSON ev)) s) ∧
      ReleaseClaim p i x reason s =
        (Ok tt, reported k (release_to TaskStatusPending t)
           (plain_event p i "task.released" x "orch" (PayloadStruct (reason_payload reason))) s) ∧
      MarkBlocked p i x payload s =
        (Ok tt, reported k (release_to TaskStatusBlocked t)
           (plain_event p i (if decide (pl_needs_context payload = []) then "task.blocked"
                             else "task.context_requested") x "worker" (PayloadStruct payload)) s)
  end.
Proof.
  intros k. rewrite MarkDone_run, ReleaseClaim_run, MarkBlocked_run. fold k.
  destruct (reporter s k x) as [t|]; [|done]. split_and!; [by eexists|done..].
Qed.

(** The budget every failure report of a run respects. *)
Definition within_budget (M : Z) (op : Op) : Prop :=
  match op with OpMarkFailed _ _ _ _ maxRetries => (maxRetries ≤ M)%Z | _ => True end.

(** the retry budget. In a run whose failure reports pass a budget of at
    most [M], no task is ever retried more than [M] times, whoever reports and
    however often it is reclaimed. *)
Theorem retry_budget `{SqlEngine} clock ops s M k t :
  run_from (empty_db clock) ops s → (0 ≤ M)%Z → Forall (within_budget M) ops →
  db_tasks s !! k = Some t → (t_retry_count t ≤ M)%Z.
Proof.
  intros Hrun HM. revert k t. induction Hrun as [|ops op s Hrun IH Hpre]; intros k t' Hb Hk'.
  - simpl in Hk'. by rewrite lookup_empty in Hk'.
  - apply Forall_app in Hb as [Hb [Hop _]%Forall_cons_1].
    assert (wf s) as Hwf by (eapply run_wf, Hrun; apply empty_wf).
    destruct (db_tasks s !! k) as [t|] eqn:Hk.
    + specialize (IH k t Hb Hk). destruct (exec_row op s k t t' Hwf Hk Hk') as [->|Ht]; [done|].
      destruct op; simpl in Ht; try done; try (destruct Ht as (_ & _ & ->); done).
      * destruct Ht as (_ & ? & ? & ->). done.
      * destruct Ht as (_ & ->). done.
      * destruct Ht as (_ & [->|(? & ? & ->)]); done.
      * destruct Ht as (_ & _ & _ & ->). done.
      * destruct Ht as (_ & _ & ->). simpl in Hop. destruct (Z.leb_spec (t_retry_count t + 1) maxRetries).
          all: simpl; lia.
    + destruct (exec_row_new op s k t' Hwf Hk Hk') as (_ & _ & _ & -> & _). done.
Qed.

Lemma retry_budget_witness : (t_retry_count (demo_task_row demo_running "a") ≤ 3)%Z.
Proof.
  apply (retry_budget (H:=merge_engine) 0 (demo_setup ++ demo_claim) demo_running 3 ("p", "a"));
    [apply (run_ok_run (H:=merge_engine)); vm_compute; reflexivity|done|
     repeat (apply Forall_cons; split; [done|]); done|vm_compute; reflexivity].
Defined.

(** ** The reaper *)

Lemma wrap64_neg d : (0 ≤ d)%Z → (d * 3 < 2 ^ 63)%Z →
  wrap64 (- d) = (- d)%Z ∧ wrap64 (- d * staleSessionMultiplier) = (- d * 3)%Z.
Proof. intros ??. unfold staleSessionMultiplier. split; apply wrap64_id; lia. Qed.

Lemma cutoffs_ordered s d : (0 ≤ d)%Z → (d * 3 < 2 ^ 63)%Z → (delete_cutoff s d ≤ stale_cutoff s d)%Z.
Proof.
  intros H0 H1. unfold delete_cutoff, stale_cutoff, cutoff_at.
  destruct (wrap64_neg d H0 H1) as [-> ->]. apply Z.div_le_mono; unfold second; lia.
Qed.

(** A running claim the reaper must leave alone: its worker has sent a heartbeat
    since the stale cutoff. *)
Definition live_claim (s : DB) (d : Z) (t : Task) : Prop :=
  ∃ w W, t_claimed_by_worker t = Some w ∧ db_workers s !! w = Some W ∧ (stale_cutoff s d ≤ w_heartbeat W)%Z.

Lemma live_claim_iff s d t :
  wf s → claim_ok s t → running t → live_claim s d t ↔ reclaimable s (stale_cutoff s d) t = false.
Proof.
  intros Hwf [_ _ Hw _] Hr. unfold reclaimable, live_claim. rewrite bool_decide_true by done. simpl.
  destruct (t_claimed_by_worker t) as [w|]; [|naive_solver].
  destruct (Hw w eq_refl) as (W & HW & _). unfold stale_worker. rewrite HW, Z.ltb_ge. naive_solver.
Qed.

Lemma pruned_worker `{SqlEngine} s d w W :
  db_workers (pruned_workers s d) !! w = Some W ↔
  db_workers s !! w = Some W ∧ (delete_cutoff s d ≤ w_heartbeat W)%Z.
Proof.
  unfold pruned_workers. rewrite delete_workers_worker, Z.ltb_ge. done.
Qed.

Lemma pruned_task `{SqlEngine} s d k :
  db_tasks (pruned_workers s d) !! k =
  (λ t, null_worker (row_gone (λ _ w, (w_heartbeat w <? delete_cutoff s d)%Z) (db_workers (requeued s d)))
          (if reclaimable s (stale_cutoff s d) t then reclaim_task t else t)) <$> db_tasks s !! k.
Proof.
  unfold pruned_workers. rewrite delete_workers_task.
  change (db_tasks (requeued s d)) with
    (db_tasks (update_where (λ _, reclaimable s (stale_cutoff s d)) reclaim_task s)).
  rewrite update_where_lookup. by destruct (db_tasks s !! k).
Qed.

Lemma null_worker_keep gone t :
  (∀ w, t_claimed_by_worker t = Some w → gone w = false) → null_worker gone t = t.
Proof. intros Hg. unfold null_worker. destruct (t_claimed_by_worker t); [|done]. by rewrite Hg. Qed.
Lemma null_session_keep gone t :
  (∀ x, t_claimed_by_session t = Some x → gone x = false) → null_session gone t = t.
Proof. intros Hg. unfold null_session. destruct (t_claimed_by_session t); [|done]. by rewrite Hg. Qed.

(** A session with a worker that beat since the stale cutoff is kept. *)
Lemma session_kept `{SqlEngine} s d w W :
  db_workers s !! w = Some W → (delete_cutoff s d ≤ stale_cutoff s d ≤ w_heartbeat W)%Z →
  row_gone (dead_session s d) (db_sessions (pruned_workers s d)) (w_session W) = false.
Proof.
  intros HW Hle. unfold row_gone. destruct (db_sessions _ !! _) as [X|]; [|done]. unfold dead_session.
  apply andb_false_iff. right. apply negb_false_iff. apply existsb_exists. exists (w, W).
  rewrite <-list_elem_of_In, elem_of_map_to_list, pruned_worker. split; [split; [done|lia]|].
  simpl. rewrite bool_decide_true by done. apply Z.leb_le. lia.
Qed.

(** What the reaper leaves of a running row. *)
Lemma reaper_row `{SqlEngine} s d k t :
  wf s → (delete_cutoff s d ≤ stale_cutoff s d)%Z → db_tasks s !! k = Some t →
  db_tasks (ReclaimStale d s).2 !! k =
  Some (if reclaimable s (stale_cutoff s d) t then reclaim_task t else t).
Proof.
  intros Hwf Hle Hk. rewrite ReclaimStale_run. simpl snd.
  rewrite delete_sessions_task, pruned_task, Hk. simpl. f_equal.
  destruct (reclaimable s (stale_cutoff s d) t) eqn:Hrec; [done|].
  pose proof (wf_claim _ Hwf _ _ Hk) as Hc.
  destruct (decide (running t)) as [Hr|Hr].
  - apply live_claim_iff in Hrec as (w & W & Hcw & HW & Hbeat); [|done..].
    destruct Hc as [_ _ Hw _]. destruct (Hw w Hcw) as (W' & HW' & Hses). specialize (Hses eq_refl). simplify_eq.
    pose proof (session_kept s d w W HW ltac:(lia)) as Hsess.
    rewrite !null_worker_keep; [apply null_session_keep|..]; intros y Hy; simplify_eq.
    + done.
    + unfold row_gone. rewrite HW. apply Z.ltb_ge. lia.
    + unfold row_gone at 1. case_match eqn:Hf; [|done].
      apply map_lookup_filter_Some in Hf as [Hf _].
      assert (t_claimed_by_worker t = Some y) as Hcy; [|by simplify_eq].
      revert Hy. unfold null_worker. rewrite Hcw. case_match; simpl; congruence.
  - destruct (claim_idle _ _ _ Hc Hr) as [H1 H2]. assert (∀ gone, null_worker gone t = t) as Hkw by (intros; apply null_worker_keep; by rewrite H2).
    rewrite !Hkw. apply null_session_keep. by rewrite H1.
Qed.

(** C32: the reaper. With a stale interval that does not overflow, every
    running task whose worker has been heard from since the stale cutoff keeps
    its row in every column, and every other running task is back in pending,
    unclaimed, with one more reclaim and its retry budget untouched. The count
    returned is the number of events appended, and any task still running
    afterwards is held by a live worker that still exists, as does its session. *)
Theorem ReclaimStale_requeues_exactly_the_dead `{SqlEngine} s d n s' :
  reachable s → (0 ≤ d)%Z → (d * 3 < 2 ^ 63)%Z → ReclaimStale d s = (Ok n, s') →
  (∀ k t, db_tasks s !! k = Some t → running t →
     (live_claim s d t → db_tasks s' !! k = Some t) ∧
     (¬ live_claim s d t →
        db_tasks s' !! k = Some (with_counts (t_retry_count t) (t_reclaim_count t + 1)
                                   (release_to TaskStatusPending t)))) ∧
  length (db_events s') = length (db_events s) + Z.to_nat n ∧
  (∀ k t, db_tasks s' !! k = Some t → running t →
     ∃ w W, t_claimed_by_worker t = Some w ∧ db_workers s' !! w = Some W ∧
            (stale_cutoff s d ≤ w_heartbeat W)%Z ∧ is_Some (db_sessions s' !! w_session W)).
Proof.
  intros Hreach H0 H1 Hrun. pose proof (reachable_wf s Hreach) as Hwf.
  pose proof (cutoffs_ordered s d H0 H1) as Hle. split_and!.
  - intros k t Hk Hr. pose proof (reaper_row s d k t Hwf Hle Hk) as Hrow. rewrite Hrun in Hrow. simpl in Hrow.
    rewrite (live_claim_iff s d t Hwf (wf_claim _ Hwf _ _ Hk) Hr).
    destruct (reclaimable s (stale_cutoff s d) t); done.
  - rewrite ReclaimStale_run in Hrun. simplify_eq. simpl.
    by rewrite length_app, length_fmap, Nat2Z.id.
  - assert (wf s') as Hwf'.
    { pose proof (ReclaimStale_wf d s Hwf) as Hw. by rewrite Hrun in Hw. }
    intros k t' Hk' Hr.
    assert (∃ t, db_tasks s !! k = Some t ∧ t' = if reclaimable s (stale_cutoff s d) t then reclaim_task t else t)
      as (t & Hk & ->).
    { destruct (db_tasks s !! k) as [t|] eqn:Hk.
      - pose proof (reaper_row s d k t Hwf Hle Hk) as Hrow. rewrite Hrun in Hrow. simpl in Hrow.
        exists t. split; congruence.
      - rewrite ReclaimStale_run in Hrun. simplify_eq. rewrite delete_sessions_task in Hk'.
        by rewrite pruned_task, Hk in Hk'. }
    destruct (reclaimable s (stale_cutoff s d) t) eqn:Hrec; [done|].
    apply live_claim_iff in Hrec as (w & W & Hcw & HW & Hbeat); [|done|by eapply wf_claim|done].
    pose proof (wf_claim _ Hwf' _ _ Hk') as [_ _ Hw _]. destruct (Hw w Hcw) as (W' & HW' & _).
    exists w, W. assert (W' = W) as ->.
    { rewrite ReclaimStale_run in Hrun. simplify_eq.
      apply delete_sessions_worker in HW' as [HW' _]. apply pruned_worker in HW' as [? _]. congruence. }
    split_and!; [done..|]. by eapply (wf_worker _ Hwf').
Qed.

Definition demo_late : DB :=
  exec_all (H:=merge_engine) (empty_db 0) (demo_setup ++ demo_claim ++ [Tick 100000000000]).
Lemma demo_late_reachable : @reachable merge_engine demo_late.
Proof. apply (reachable_run (H:=merge_engine)). vm_compute. reflexivity. Qed.

Lemma ReclaimStale_requeues_exactly_the_dead_witness :
  db_tasks (ReclaimStale (H:=merge_engine) 60000000000 demo_late).2 !! ("p", "a") =
  Some (with_counts 0 1 (release_to TaskStatusPending (demo_task_row demo_late "a"))).
Proof.
  apply (proj1 (ReclaimStale_requeues_exactly_the_dead (H:=merge_engine) demo_late 60000000000
           1 (ReclaimStale (H:=merge_engine) 60000000000 demo_late).2
           demo_late_reachable ltac:(lia) ltac:(lia) ltac:(vm_compute; reflexivity))).
  - vm_compute. reflexivity.
  - vm_compute. reflexivity.
  - intros (w & W & Hw & HW & Hle). revert Hw HW Hle. vm_compute.
    intros [= <-]. vm_compute. intros [= <-]. vm_compute. intros Hle. by apply Hle.
Defined.

(** ** The dependency graph *)

(** adding an edge. The cycle check terminates on every graph within its
    fuel and the call is refused exactly when the edge closes a cycle, repeats,
    is a self-loop or names a missing task; otherwise the edge, and only the
    edge, is added. *)
Theorem AddDep_decides_cycles `{SqlEngine} s p a b :
  wouldCreateCycleOn s p a b ≠ None ∧
  (rtc (dep_edge s p) b a → a ≠ b → addDepOn p a b s = (Err ErrWouldCycle, s)) ∧
  (∀ s', addDepOn p a b s = (Ok tt, s') ↔
     a ≠ b ∧ ¬ rtc (dep_edge s p) b a ∧ (p, a, b) ∉ db_deps s ∧
     is_Some (db_tasks s !! (p, a)) ∧ is_Some (db_tasks s !! (p, b)) ∧
     s' = set_deps (λ d, {[(p, a, b)]} ∪ d) s).
Proof.
  split; [apply wouldCreateCycleOn_total|].
  destruct (wouldCreateCycleOn s p a b) as [c|] eqn:Hc; [|by destruct (wouldCreateCycleOn_total s p a b)].
  pose proof (wouldCreateCycleOn_true _ _ _ _ _ Hc) as Hcyc. split.
  - intros Hr%Hcyc Hab. subst c. unfold addDepOn. rewrite decide_False by done. by rewrite Hc.
  - intros s'. split; [apply addDepOn_ok|]. intros (Hab & Hr & Hn & Ha & Hb & ->).
    unfold addDepOn. rewrite decide_False by done. rewrite Hc.
    destruct c; [by destruct Hr; apply Hcyc|]. rewrite bool_decide_false by done.
    apply has_true in Ha, Hb. by rewrite Ha, Hb.
Qed.

(** a plan import is all or nothing. When it fails the store is exactly as
    it was. When it succeeds, the plan row exists with the status asked for,
    every node has its task row, metadata, input hashes and canonical output
    reservations, every declared edge is present, and nothing that existed
    before is lost. *)
Theorem CreatePlanGraph_atomic `{SqlEngine} uuid o ts activate s r s' :
  CreatePlanGraph uuid o ts activate s = (r, s') →
  match r with
  | Err _ => s' = s
  | Ok p =>
      p = uuid ∧ db_plans s !! p = None ∧
      (∃ row, db_plans s' !! p = Some row ∧ p_project row = po_project o ∧ p_slug row = po_slug o ∧
              p_title row = po_title o ∧ p_source row = nullIfEmpty (po_source o) ∧
              p_status row = if activate then PlanStatusActive else PlanStatusDraft) ∧
      graph_written p (db_now s) ts s' ∧ extends s s'
  end.
Proof.
  destruct r as [p|e]; [|apply atomically_err]. unfold CreatePlanGraph.
  intros Hrun%(proj1 (atomically_ok _ _ _ _)).
  apply sbind_ok in Hrun as (p1 & s1 & Hplan & Hrun).
  apply sbind_ok in Hrun as ([] & s2 & Hgraph & Hrun).
  apply sbind_ok in Hrun as ([] & s3 & Hact & Hret). unfold sret in Hret. simplify_eq.
  unfold createPlanOn, sfail in Hplan. case_bool_decide; [by simplify_eq|].
  destruct (has uuid (db_plans s)) eqn:Hu; simpl in Hplan; [by simplify_eq|].
  destruct (existsb _ _); [by simplify_eq|]. case_bool_decide; simpl in Hplan; simplify_eq.
  apply bool_decide_eq_false in Hu. rewrite <-eq_None_not_Some in Hu.
  pose proof (write_graph_plans _ _ _ _ Hgraph) as Hplans.
  apply write_graph_written in Hgraph as [He Hw].
  assert (extends s s2) as He2.
  { eapply extends_trans; [|done]. by constructor. }
  destruct activate.
  - unfold setPlanStatusOn in Hact. destruct (has p (db_plans s2)); simplify_eq. simpl.
    split_and!; [done|done| | |by destruct He2; constructor].
    + eexists. rewrite lookup_alter_eq, Hplans. simpl. rewrite lookup_insert_eq. simpl. done.
    + intros g Hg. destruct (Hw g Hg) as [Hn Hd]. split; [|done]. by destruct Hn; constructor.
  - unfold sret in Hact. simplify_eq. split_and!; [done|done| |done|done].
    eexists. rewrite Hplans. simpl. rewrite lookup_insert_eq. done.
Qed.

Definition demo_opts : CreatePlanOpts := mkCreatePlanOpts "proj" "slug2" "T" "" "".
Definition demo_import : DB := (CreatePlanGraph (H:=merge_engine) "q" demo_opts demo_graph true demo_db).2.

Lemma CreatePlanGraph_atomic_witness : graph_written "q" (db_now demo_db) demo_graph demo_import.
Proof.
  assert (CreatePlanGraph (H:=merge_engine) "q" demo_opts demo_graph true demo_db = (Ok "q", demo_import)) as Hrun
    by (vm_compute; reflexivity).
  exact (proj1 (proj2 (proj2 (proj2 (CreatePlanGraph_atomic (H:=merge_engine) _ _ _ _ _ _ _ Hrun))))).
Defined.
