(* ===== verification/StoreQueryProps.v ===== *)
(** * Properties of the store's queries and gates

    Ready partitions, status counts, the fail-closed gates before a dispatch,
    execution provenance and hook verdicts. *)
From S2P Require Import Prelude GoLib StoreModel StoreSql StoreTasks StoreWorkers Dfs StoreGraph StoreMeta StoreInv StoreSpec StoreTrace StoreProps.
From stdpp Require Import sorting.

(** ** Ready partitions *)

Section PartitionFacts.
Context `{SqlEngine} `{BindingCodec}.

Definition part_key (p : ReadyPartition) : string := partition_key (rp_group_path p) (rp_binding_key p).
Definition row_key (s : DB) (r : TaskRow) : string :=
  partition_key (row_group s r.1) (declaredBindingKey (row_metadata s r.1)).

(** Every partition holds the rows of [rows] with its key, in order. *)
Record partitions (s : DB) (rows : list TaskRow) (parts : list ReadyPartition) : Prop := {
  parts_nodup : NoDup (part_key <$> parts);
  parts_rows : ∀ p, p ∈ parts →
    rp_tasks p = filter (λ r, row_key s r = part_key p) rows ∧ rp_tasks p ≠ [];
  parts_cover : ∀ r, r ∈ rows → row_key s r ∈ part_key <$> parts }.

Lemma add_to_partition_keys g b r parts :
  part_key <$> add_to_partition g b r parts =
  if decide (partition_key g b ∈ part_key <$> parts) then part_key <$> parts
  else (part_key <$> parts) ++ [partition_key g b].
Proof.
  induction parts as [|p parts IH]; [done|].
  cbn [add_to_partition]. fold (part_key p). rewrite (fmap_cons part_key p parts).
  destruct (decide (part_key p = partition_key g b)) as [Heq|Hne].
  - rewrite decide_True by (apply elem_of_cons; by left). done.
  - rewrite fmap_cons, IH.
    destruct (decide (partition_key g b ∈ part_key <$> parts)) as [Hin|Hin].
    + rewrite decide_True by (apply elem_of_cons; by right). done.
    + rewrite decide_False; [done|]. intros [?|?]%elem_of_cons; [by apply Hne|done].
Qed.

Lemma add_to_partition_elem g b r parts p :
  NoDup (part_key <$> parts) → p ∈ add_to_partition g b r parts →
  (part_key p ≠ partition_key g b ∧ p ∈ parts) ∨
  (part_key p = partition_key g b ∧
   ((∃ q, q ∈ parts ∧ part_key q = part_key p ∧ rp_tasks p = rp_tasks q ++ [r]) ∨
    (partition_key g b ∉ part_key <$> parts ∧ rp_tasks p = [r]))).
Proof.
  induction parts as [|q parts IH]; simpl; intros Hnd Hp.
  - apply list_elem_of_singleton in Hp as ->. right. split; [done|]. right. split; [set_solver|done].
  - apply NoDup_cons in Hnd as [Hq Hnd]. fold (part_key q) in Hp.
    destruct (decide (part_key q = partition_key g b)) as [Heq|Hne].
    + apply elem_of_cons in Hp as [->|Hp].
      * right. split; [done|]. left. exists q. split; [by apply elem_of_cons; left|]. done.
      * left. split; [|by apply elem_of_cons; right]. intros Hk. apply Hq.
        rewrite Heq, <-Hk. by apply list_elem_of_fmap_2.
    + apply elem_of_cons in Hp as [->|Hp].
      * left. split; [done|]. by apply elem_of_cons; left.
      * destruct (IH Hnd Hp) as [[? ?]|[Hk [(q' & ? & ? & ?)|[Hnin ?]]]].
        -- left. split; [done|]. by apply elem_of_cons; right.
        -- right. split; [done|]. left. exists q'. split; [by apply elem_of_cons; right|done].
        -- right. split; [done|]. right. split; [|done].
           intros [?|?]%elem_of_cons; [by apply Hne|done].
Qed.

Lemma partitions_step s rows parts r :
  partitions s rows parts →
  partitions s (rows ++ [r])
    (add_to_partition (row_group s r.1) (declaredBindingKey (row_metadata s r.1)) r parts).
Proof.
  intros [Hnd Hrows Hcov]. set (g := row_group s r.1). set (b := declaredBindingKey (row_metadata s r.1)).
  assert (row_key s r = partition_key g b) as Hkey by done. constructor.
  - rewrite add_to_partition_keys. case_decide as Hin; [done|].
    apply NoDup_app. split_and!; [done| |apply NoDup_singleton].
    intros x Hx ->%list_elem_of_singleton. done.
  - intros p Hp. rewrite filter_app, filter_cons, filter_nil.
    destruct (add_to_partition_elem g b r parts p Hnd Hp) as [[Hk Hin]|[Hk [(q & Hin & Hqk & Htasks)|[Hnin Htasks]]]].
    + rewrite decide_False by congruence. rewrite app_nil_r. by apply Hrows.
    + rewrite decide_True by congruence. destruct (Hrows q Hin) as [Hq _].
      rewrite Htasks, Hq, Hqk. split; [done|]. intros Happ. by apply app_nil in Happ as [_ ?].
    + rewrite decide_True by congruence. split; [|by rewrite Htasks].
      rewrite Htasks. assert (filter (λ r, row_key s r = part_key p) rows = []) as ->; [|done].
      apply elem_of_nil_inv. intros x [Hx Hxin]%list_elem_of_filter. apply Hnin.
      rewrite <-Hk, <-Hx. by apply Hcov.
  - intros x [Hx| ->%list_elem_of_singleton]%elem_of_app; rewrite add_to_partition_keys; case_decide; try done.
    + by apply Hcov.
    + apply elem_of_app. left. by apply Hcov.
    + apply elem_of_app. right. by apply list_elem_of_singleton.
Qed.

Lemma partitions_fold s rows done_ parts :
  partitions s done_ parts →
  partitions s (done_ ++ rows)
    (foldl (λ parts row, add_to_partition (row_group s row.1) (declaredBindingKey (row_metadata s row.1)) row parts)
       parts rows).
Proof.
  revert done_ parts. induction rows as [|r rows IH]; intros done_ parts Hp; simpl.
  - by rewrite app_nil_r.
  - rewrite cons_middle, app_assoc. by apply IH, partitions_step.
Qed.

Lemma ReadyPartitions_partitions p s : partitions s (partition_rows s p) (ReadyPartitions p s).
Proof.
  unfold ReadyPartitions. apply (partitions_fold s (partition_rows s p) [] []). constructor; simpl.
  - constructor.
  - by intros ? ?%elem_of_nil.
  - by intros ? ?%elem_of_nil.
Qed.

Lemma ready_partition_rows p s part r :
  part ∈ ReadyPartitions p s → r ∈ rp_tasks part → r.1.1 = p ∧ db_tasks s !! r.1 = Some r.2.
Proof.
  intros Hp Hr. destruct (parts_rows _ _ _ (ReadyPartitions_partitions p s) part Hp) as [Ht _].
  rewrite Ht in Hr. apply list_elem_of_filter in Hr as [_ Hr]. unfold partition_rows in Hr.
  rewrite order_by_perm in Hr. destruct r as [k t]. apply task_rows_elem in Hr as [Hk Hw].
  split; [|done]. rewrite !andb_true_iff, bool_decide_eq_true in Hw. naive_solver.
Qed.

(** The separator keeps the two halves of a key apart. *)
Lemma partition_key_inj g1 b1 g2 b2 :
  no_char Ascii.zero g1 → no_char Ascii.zero g2 →
  partition_key g1 b1 = partition_key g2 b2 → g1 = g2 ∧ b1 = b2.
Proof.
  apply cut_inj.
Qed.
End PartitionFacts.

(** the ready partitions of a plan. The rows are the dispatchable tasks with
    their dependencies met, in author order; each partition is non-empty and
    lists, in that order, exactly the rows of its key; no key occurs twice and no
    row is left out; and two rows with NUL-free group paths share a partition
    exactly when they share group path and declared binding. *)
Theorem ReadyPartitions_correct `{SqlEngine} `{BindingCodec} p s :
  let rows := partition_rows s p in
  let parts := ReadyPartitions p s in
  (∀ k t, (k, t) ∈ rows ↔ db_tasks s !! k = Some t ∧ k.1 = p ∧ dispatchable (t_status t) = true ∧
     ∀ d td, (p, k.2, d) ∈ db_deps s → db_tasks s !! (p, d) = Some td → satisfied (t_status td) = true) ∧
  partitions s rows parts ∧
  (∀ part r1 r2, part ∈ parts → r1 ∈ rows → r2 ∈ rows →
     no_char Ascii.zero (row_group s r1.1) → no_char Ascii.zero (row_group s r2.1) →
     r1 ∈ rp_tasks part →
     r2 ∈ rp_tasks part ↔
       row_group s r1.1 = row_group s r2.1 ∧
       declaredBindingKey (row_metadata s r1.1) = declaredBindingKey (row_metadata s r2.1)).
Proof.
  intros rows parts. pose proof (ReadyPartitions_partitions p s) as Hp. split_and!; [|done|].
  - intros k t. unfold rows, partition_rows.
    rewrite order_by_perm, task_rows_elem, !andb_true_iff, bool_decide_eq_true, deps_satisfied_true. naive_solver.
  - intros part r1 r2 Hpart H1 H2 Hz1 Hz2 Hin1.
    destruct (parts_rows _ _ _ Hp part Hpart) as [Htasks _]. rewrite Htasks in Hin1 |- *.
    apply list_elem_of_filter in Hin1 as [Hk1 _]. rewrite list_elem_of_filter. split.
    + intros [Hk2 _]. apply partition_key_inj; [done..|]. unfold row_key in *. congruence.
    + intros [Hg Hb]. split; [|done]. rewrite <-Hk1. unfold row_key. by rewrite Hg, Hb.
Qed.

(** ** Status counts *)

(** One group of the query, absent when its count is zero. *)
Definition status_step (c : StatusCounts) (st : TaskStatus) (n : nat) : StatusCounts :=
  if decide (n = 0) then c else fold_status_row c (st, n).

Lemma status_step_fields c st n :
  c_ready (status_step c st n) = (match st with TaskStatusReady => if decide (n = 0) then c_ready c else n | _ => c_ready c end) ∧
  c_running (status_step c st n) = (match st with TaskStatusRunning => if decide (n = 0) then c_running c else n | _ => c_running c end) ∧
  c_approval (status_step c st n) =
    (match st with TaskStatusReadyPendingApproval => if decide (n = 0) then c_approval c else n | _ => c_approval c end) ∧
  c_blocked (status_step c st n) =
    (match st with
     | TaskStatusBlocked | TaskStatusBlockedCapability | TaskStatusBlockedInput => c_blocked c + n
     | _ => c_blocked c
     end) ∧
  c_failed (status_step c st n) = (match st with TaskStatusFailed => if decide (n = 0) then c_failed c else n | _ => c_failed c end) ∧
  c_active_plans (status_step c st n) = c_active_plans c.
Proof. unfold status_step. case_decide; subst; destruct st; simpl; split_and!; lia. Qed.

Lemma StatusCounts_steps (f : TaskStatus → nat) l c :
  foldl fold_status_row c (filter (λ g, g.2 ≠ 0) ((λ st, (st, f st)) <$> l)) =
  foldl (λ c st, status_step c st (f st)) c l.
Proof.
  revert c. induction l as [|st l IH]; intros c; [done|].
  rewrite fmap_cons, filter_cons. simpl. unfold status_step at 2.
  destruct (decide (f st = 0)) as [Hz|Hz]; [rewrite decide_False by lia|rewrite decide_True by done]; apply IH.
Qed.

(** the dashboard counters are the numbers of tasks in each status, and the
    blocked counter covers the operator block and both pre-dispatch gates. *)
Theorem StatusCounts_accurate s :
  let n st := count_status s st in
  c_ready (StatusCountsOf s) = n TaskStatusReady ∧
  c_running (StatusCountsOf s) = n TaskStatusRunning ∧
  c_approval (StatusCountsOf s) = n TaskStatusReadyPendingApproval ∧
  c_blocked (StatusCountsOf s) =
    n TaskStatusBlocked + n TaskStatusBlockedCapability + n TaskStatusBlockedInput ∧
  c_failed (StatusCountsOf s) = n TaskStatusFailed ∧
  c_active_plans (StatusCountsOf s) =
    length (filter (λ p, p_status p.2 = PlanStatusActive) (map_to_list (db_plans s))).
Proof.
  intros n. unfold StatusCountsOf, group_by_status. rewrite StatusCounts_steps.
  subst n. cbv beta. unfold all_statuses. cbn [foldl].
  assert (∀ c st m, _) as Hf by exact status_step_fields.
  split_and!.
  - rewrite !(λ c st m, proj1 (Hf c st m)). simpl. case_decide; lia.
  - rewrite !(λ c st m, proj1 (proj2 (Hf c st m))). simpl. case_decide; lia.
  - rewrite !(λ c st m, proj1 (proj2 (proj2 (Hf c st m)))). simpl. case_decide; lia.
  - rewrite !(λ c st m, proj1 (proj2 (proj2 (proj2 (Hf c st m))))). simpl. lia.
  - rewrite !(λ c st m, proj1 (proj2 (proj2 (proj2 (proj2 (Hf c st m)))))). simpl. case_decide; lia.
  - by rewrite !(λ c st m, proj2 (proj2 (proj2 (proj2 (proj2 (Hf c st m)))))).
Qed.

(** ** Fail-closed gates *)

Definition gate (st : TaskStatus) : Prop :=
  st = TaskStatusBlockedCapability ∨ st = TaskStatusBlockedInput.

Definition gated_by (st : TaskStatus) (reason : string) (k : string * string) (t : Task) (m : TaskMeta) (s : DB) : DB :=
  set_metadata <[k := with_blocked_reason reason m]> (set_tasks <[k := with_status st t]> s).

Lemma set_tasks_twice k t1 t2 s : set_tasks <[k := t1]> (set_tasks <[k := t2]> s) = set_tasks <[k := t1]> s.
Proof. unfold set_tasks. simpl. by rewrite insert_insert_eq. Qed.

Lemma gated_twice st r1 r2 k t m s :
  gated_by st r2 k (with_status st t) (with_blocked_reason r1 m) (gated_by st r1 k t m s) = gated_by st r2 k t m s.
Proof. unfold gated_by, set_metadata, set_tasks. simpl. by rewrite !insert_insert_eq. Qed.

(** a dispatch gate opens and closes as one episode. Blocking a dispatchable
    task with metadata parks it and appends one event when the status changes;
    blocking it again under the same gate only refreshes the reason, with no
    further event; clearing the gate returns the task to pending with an empty
    reason; and while it is parked no claim succeeds. *)
Theorem gate_episode `{SqlEngine} s p i st r1 r2 t m x w :
  wf s → gate st → db_tasks s !! (p, i) = Some t → dispatchable (t_status t) = true → t_status t ≠ st →
  db_metadata s !! (p, i) = Some m →
  ∃ s1 s2,
    markMetadataBlocked p i st r1 s = (Ok true, s1) ∧
    db_events s1 = db_events s ++ [block_event p i st r1] ∧
    claimTaskOnce p i x w s1 = (Err ErrNoReadyTask, s1) ∧
    markMetadataBlocked p i st r2 s1 = (Ok false, s2) ∧ db_events s2 = db_events s1 ∧
    ∃ s3, ClearTaskBlock p i st s2 = (Ok true, s3) ∧
      db_tasks s3 = <[(p, i) := with_status TaskStatusPending t]> (db_tasks s) ∧
      db_metadata s3 = <[(p, i) := with_blocked_reason "" m]> (db_metadata s) ∧
      db_events s3 = db_events s1.
Proof.
  intros Hwf Hst Hk Hd Hne Hm.
  pose proof (markMetadataBlocked_run p i st r1 s Hwf) as H1. rewrite Hk, Hd, Hm in H1. simpl in H1.
  rewrite decide_False in H1 by done.
  eexists _, _. split_and!; [exact H1|done| | | |].
  - rewrite claimTaskOnce_run. simpl. rewrite lookup_insert_eq. simpl. destruct Hst as [->| ->]; done.
  - rewrite (markMetadataBlocked_run (disciplined:=true)).
    + simpl. rewrite !lookup_insert_eq. simpl.
      assert (dispatchable st = true) as -> by by destruct Hst as [->| ->].
      simpl. rewrite decide_True by done. done.
    + pose proof (markMetadataBlocked_wf p i st r1 ltac:(by destruct Hst as [->| ->]) s Hwf) as Hw.
      by rewrite H1 in Hw.
  - done.
  - rewrite (ClearTaskBlock_run (disciplined:=true)); [|shelve|done]. simpl. rewrite !lookup_insert_eq. simpl.
    rewrite decide_True by done. eexists. split; [done|]. simpl.
    rewrite !insert_insert_eq. split_and!; [done| |done].
    rewrite alter_insert_eq. done.
    Unshelve.
    pose proof (markMetadataBlocked_wf p i st r1 ltac:(by destruct Hst as [->| ->]) s Hwf) as Hw.
    rewrite H1 in Hw. simpl in Hw.
    pose proof (markMetadataBlocked_wf p i st r2 ltac:(by destruct Hst as [->| ->]) _ Hw) as Hw2.
    rewrite (markMetadataBlocked_run (disciplined:=true)) in Hw2 by done. simpl in Hw2. rewrite !lookup_insert_eq in Hw2. simpl in Hw2.
    assert (dispatchable st = true) as Hdst by by destruct Hst as [->| ->].
    rewrite Hdst in Hw2. simpl in Hw2. by rewrite decide_True in Hw2 by done.
Qed.

Definition demo_meta (s : DB) (i : string) : TaskMeta :=
  default (mkTaskMeta "" "" "" None None None None None None None None None None None)
    (db_metadata s !! ("p", i)).

Lemma gate_episode_witness :
  ∃ s1 s2,
    markMetadataBlocked "p" "a" TaskStatusBlockedInput "r1" demo_db = (Ok true, s1) ∧
    db_events s1 = db_events demo_db ++ [block_event "p" "a" TaskStatusBlockedInput "r1"] ∧
    claimTaskOnce (H:=merge_engine) "p" "a" "s1" "w1" s1 = (Err ErrNoReadyTask, s1) ∧
    markMetadataBlocked "p" "a" TaskStatusBlockedInput "r2" s1 = (Ok false, s2) ∧ db_events s2 = db_events s1 ∧
    ∃ s3, ClearTaskBlock "p" "a" TaskStatusBlockedInput s2 = (Ok true, s3) ∧
      db_tasks s3 = <[("p", "a") := with_status TaskStatusPending (demo_task_row demo_db "a")]> (db_tasks demo_db) ∧
      db_metadata s3 = <[("p", "a") := with_blocked_reason "" (demo_meta demo_db "a")]> (db_metadata demo_db) ∧
      db_events s3 = db_events s1.
Proof.
  apply (gate_episode (H:=merge_engine)); [apply (reachable_wf (H:=merge_engine)), demo_reachable|by right|
    vm_compute; reflexivity|vm_compute; reflexivity|vm_compute; discriminate|vm_compute; reflexivity].
Defined.

(** ** Provenance *)

Definition execution (m : TaskMeta) :=
  (coalesce (m_assigned_alias m), coalesce (m_assigned_provider m), coalesce (m_assigned_model m),
   coalesce (m_assigned_effort m), coalesce (m_assigned_domain m)).

Lemma same_execution_true a pr mo e d m :
  same_execution a pr mo e d m = true ↔ execution m = (a, pr, mo, e, d).
Proof.
  unfold same_execution, execution. rewrite !andb_true_iff, !bool_decide_eq_true. naive_solver.
Qed.

(** execution provenance is written once per claim. A successful
    [RecordTaskExecution] comes from the owner of the running task and leaves its
    assignment in the row; the same owner repeating it succeeds and changes
    nothing more, while any different assignment by that owner is refused with
    [ErrTaskExecutionConflict] and changes nothing. *)
Theorem RecordTaskExecution_immutable p i a pr mo e d x s s' a2 pr2 mo2 e2 d2 :
  RecordTaskExecution p i a pr mo e d x s = (Ok tt, s') →
  owns_task s p i x = true ∧
  (∃ m, db_metadata s' !! (p, i) = Some m ∧ execution m = (a, pr, mo, e, d) ∧ m_assigned_session m = Some x) ∧
  RecordTaskExecution p i a2 pr2 mo2 e2 d2 x s' =
    (if decide ((a2, pr2, mo2, e2, d2) = (a, pr, mo, e, d)) then (Ok tt, s') else (Err ErrTaskExecutionConflict, s')).
Proof.
  intros Hrun%(proj1 (atomically_ok _ _ _ _)).
  apply sbind_ok in Hrun as (n & s1 & Hu & Hrest). unfold update_metadata in Hu.
  destruct (db_metadata s !! (p, i)) as [m|] eqn:Hm.
  2:{ simplify_eq. simpl in Hrest. unfold sbind, sget, sfail in Hrest. by repeat case_match; simplify_eq/=. }
  destruct (owns_task s p i x) eqn:Ho; simpl in Hu.
  2:{ simplify_eq. simpl in Hrest. unfold sbind, sget, sfail in Hrest. by repeat case_match; simplify_eq/=. }
  match type of Hu with context [if ?b then _ else _] => destruct b eqn:Hw end.
  2:{ simplify_eq. simpl in Hrest. unfold sbind, sget, sfail in Hrest. by repeat case_match; simplify_eq/=. }
  simplify_eq. simpl in Hrest. unfold sret in Hrest. simplify_eq.
  set (m' := bind_execution a pr mo e d x m). set (s' := set_metadata <[(p, i) := m']> s).
  assert (db_metadata s' !! (p, i) = Some m') as Hm' by apply lookup_insert_eq.
  split_and!; [done|by exists m'|].
  unfold RecordTaskExecution, atomically, sbind, update_metadata. rewrite Hm'.
  assert (owns_task s' p i x = true) as -> by done. simpl.
  rewrite bool_decide_true by done. simpl.
  rewrite andb_true_r. destruct (decide ((a2, pr2, mo2, e2, d2) = (a, pr, mo, e, d))) as [Heq|Heq].
  - rewrite (proj2 (same_execution_true a2 pr2 mo2 e2 d2 m')) by (injection Heq as -> -> -> -> ->; reflexivity). simpl. unfold sret. f_equal.
    injection Heq as -> -> -> -> ->. unfold s', set_metadata. simpl. rewrite insert_insert_eq. f_equal. f_equal.
    unfold m', bind_execution. simpl. unfold sql_eq at 1. by rewrite bool_decide_true by done.
  - destruct (same_execution a2 pr2 mo2 e2 d2 m') eqn:Hs; [by apply same_execution_true in Hs|]. simpl.
    unfold sget, sfail. simpl.
    revert Ho. unfold owns_task, owned_running, sql_eq. destruct (db_tasks s !! (p, i)) as [t|]; [|done].
    intros [-> Hx%bool_decide_eq_true]%andb_true_iff. rewrite Hx. rewrite bool_decide_true by done. simpl.
    rewrite (proj2 (has_true _ _)) by (by exists m'). done.
Qed.

Definition demo_recorded : DB :=
  (RecordTaskExecution "p" "a" "al" "claude" "opus" "high" "code" "s1" demo_running).2.

Lemma RecordTaskExecution_immutable_witness :
  RecordTaskExecution "p" "a" "al" "codex" "gpt" "high" "code" "s1" demo_recorded =
  (Err ErrTaskExecutionConflict, demo_recorded).
Proof.
  assert (RecordTaskExecution "p" "a" "al" "claude" "opus" "high" "code" "s1" demo_running = (Ok tt, demo_recorded))
    as Hrun by (vm_compute; reflexivity).
  exact (proj2 (proj2 (RecordTaskExecution_immutable _ _ _ _ _ _ _ _ _ _ "al" "codex" "gpt" "high" "code" Hrun))).
Defined.

(** the first calibration wins. Binding a calibration to a task never
    changes one already bound: repeating the same pair is accepted without
    effect, a different one is refused with [ErrCalibrationBound]. *)
Theorem BindTaskCalibration_first_wins p i id caps s m :
  id ≠ "" → caps ≠ "" → db_metadata s !! (p, i) = Some m →
  BindTaskCalibration p i id caps s =
  if decide (coalesce (m_calibration m) = "") then
    if decide (id ∈ db_calibrations s)
    then (Ok tt, set_metadata <[(p, i) := bind_calibration id caps m]> s)
    else (Err (ErrForeignKey "task_metadata"), s)
  else if decide (coalesce (m_calibration m) = id ∧ coalesce (m_capability_set m) = caps)
       then (Ok tt, s) else (Err ErrCalibrationBound, s).
Proof.
  intros Hid Hcaps Hm. unfold BindTaskCalibration. rewrite bool_decide_false by naive_solver.
  unfold sbind, sget, update_metadata, sfail, sret. rewrite Hm.
  destruct (decide (coalesce (m_calibration m) = "")) as [He|He].
  - rewrite (bool_decide_true _ He). simpl. destruct (decide (id ∈ db_calibrations s)) as [Hc|Hc].
    + rewrite bool_decide_true by done. simpl. rewrite Hm, (bool_decide_true _ He). done.
    + by rewrite bool_decide_false by done.
  - rewrite !(bool_decide_false _ He). simpl. rewrite Hm, (bool_decide_false _ He). simpl. rewrite Hm.
    destruct (decide (coalesce (m_calibration m) = id ∧ coalesce (m_capability_set m) = caps)) as [[H1 H2]|Hn].
    + by rewrite (bool_decide_true _ H1), (bool_decide_true _ H2).
    + destruct (bool_decide (coalesce (m_calibration m) = id)) eqn:H1; [|done].
      destruct (bool_decide (coalesce (m_capability_set m) = caps)) eqn:H2; [|done].
      apply bool_decide_eq_true in H1, H2. by destruct Hn.
Qed.

Lemma BindTaskCalibration_first_wins_witness :
  BindTaskCalibration "p" "a" "cal" "{}" demo_db = (Err (ErrForeignKey "task_metadata"), demo_db).
Proof.
  exact (BindTaskCalibration_first_wins "p" "a" "cal" "{}" demo_db (demo_meta demo_db "a")
           ltac:(done) ltac:(done) ltac:(vm_compute; reflexivity)).
Defined.
