(* ===== verification/PlanModel.v ===== *)
(** * Plans and their positional readiness: [internal/plan/types.go], [decompose.go]

    A plan is a tree of headed groups; the walks below thread the path of
    indices exactly as the code's recursion does. *)
From S2P Require Import Prelude GoLib.

(** ** Data *)

Record TaskBinding := mkTaskBinding {
  tb_mode : string; tb_alias : string; tb_provider : string; tb_model : string;
  tb_effort : string; tb_calibration : string; tb_repetitions : Z; tb_fixture : string }.

Record TaskInput := mkTaskInput { in_path : string; in_sha256 : string }.
Record TaskOutput := mkTaskOutput { out_path : string; out_mode : string }.

Record TaskMetadata := mkTaskMetadata {
  md_id : string;
  md_after : option (list string);
  md_team : string;
  md_binding : TaskBinding;
  md_requires : list string;
  md_providers : list string;
  md_different_from : list string;
  md_inputs : list TaskInput;
  md_outputs : list TaskOutput }.

Record Step := mkStep {
  st_text : string;
  st_detail : string;
  st_requires_approval : bool;
  st_metadata : option TaskMetadata }.

Inductive Group := mkGroup {
  gr_heading : string;
  gr_level : Z;
  gr_parallel : bool;
  gr_steps : list Step;
  gr_subgroups : list Group }.

Record PlanDoc := mkPlanDoc { pl_groups : list Group }.

(** The methods of a nilable [*TaskMetadata]. *)
Definition DependsOn (m : option TaskMetadata) : list string * bool :=
  match m with
  | None => ([], false)
  | Some m => match md_after m with None => ([], false) | Some ids => (ids, true) end
  end.
Definition AllowedProviders (m : option TaskMetadata) : list string :=
  match m with None => [] | Some m => md_providers m end.
Definition IndependencePeers (m : option TaskMetadata) : list string :=
  match m with None => [] | Some m => md_different_from m end.

(** ** Step references *)

Record StepRef := mkRef { ref_group : list Z; ref_index : Z }.

Definition ID (r : StepRef) : string := Join "." ((Itoa <$> ref_group r) ++ [Itoa (ref_index r)]).
Definition GroupID (r : StepRef) : string := Join "." (Itoa <$> ref_group r).

(** ** Walks

    [over f i l] is [for i, g := range l] with the index, collecting results. *)
Definition over {A B} (f : Z → A → list B) : Z → list A → list B :=
  fix go i l := match l with [] => [] | a :: l' => f i a ++ go (i + 1)%Z l' end.

(** [for i, g := range l { if !f(i, g) { return false } }]. *)
Definition all_from {A} (f : Z → A → bool) : Z → list A → bool :=
  fix go i l := match l with [] => true | a :: l' => f i a && go (i + 1)%Z l' end.

(** The loop of [decomposeGroups]: skip while [skip], then return [f]. *)
Definition first_open {A R} (skip : Z → A → bool) (f : Z → A → option R) : Z → list A → option R :=
  fix go i l := match l with
                | [] => None
                | a :: l' => if skip i a then go (i + 1)%Z l' else f i a
                end.

Definition leaf_steps (path : list Z) (steps : list Step) : list (StepRef * Step) :=
  over (λ j s, [(mkRef path j, s)]) 0 steps.

Fixpoint walk_group (g : Group) (path : list Z) : list (StepRef * Step) :=
  match gr_subgroups g with
  | [] => leaf_steps path (gr_steps g)
  | _ :: _ => over (λ i sub, walk_group sub (path ++ [i])) 0 (gr_subgroups g)
  end.

Definition walkGroups (groups : list Group) (path : list Z) : list (StepRef * Step) :=
  over (λ i g, walk_group g (path ++ [i])) 0 groups.

Definition StepIDs (p : PlanDoc) : list string := ID ∘ fst <$> walkGroups (pl_groups p) [].

(** ** Readiness *)

(** [map[string]bool]. *)
Abbreviation DoneSet := (gset string).

Fixpoint groupDone (g : Group) (path : list Z) (done : DoneSet) : bool :=
  match gr_subgroups g with
  | [] => all_from (λ j _, bool_decide (ID (mkRef path j) ∈ done)) 0 (gr_steps g)
  | _ :: _ => all_from (λ i sub, groupDone sub (path ++ [i]) done) 0 (gr_subgroups g)
  end.

Record ReadyNow := mkReady { rd_steps : list Step; rd_refs : list StepRef; rd_parallel : bool }.

(** [for j, s := range g.Steps]: collects the steps not done, one only when the
    group is sequential. *)
Fixpoint leaf_ready (parallel : bool) (path : list Z) (done : DoneSet) (j : Z) (steps : list Step)
    : list (StepRef * Step) :=
  match steps with
  | [] => []
  | s :: steps' =>
      if bool_decide (ID (mkRef path j) ∈ done) then leaf_ready parallel path done (j + 1) steps'
      else (mkRef path j, s) :: if parallel then leaf_ready parallel path done (j + 1) steps' else []
  end.

Definition leafReady (g : Group) (path : list Z) (done : DoneSet) : option ReadyNow :=
  match leaf_ready (gr_parallel g) path done 0 (gr_steps g) with
  | [] => None
  | l => Some (mkReady (snd <$> l) (fst <$> l) (gr_parallel g))
  end.

Fixpoint decompose_group (g : Group) (path : list Z) (done : DoneSet) : option ReadyNow :=
  match gr_subgroups g with
  | [] => leafReady g path done
  | _ :: _ =>
      first_open (λ i sub, groupDone sub (path ++ [i]) done)
        (λ i sub, decompose_group sub (path ++ [i]) done) 0 (gr_subgroups g)
  end.

Definition decomposeGroups (groups : list Group) (path : list Z) (done : DoneSet) : option ReadyNow :=
  first_open (λ i g, groupDone g (path ++ [i]) done)
    (λ i g, decompose_group g (path ++ [i]) done) 0 groups.

(** [(nil, false)] when every step is done. *)
Definition Decompose (p : PlanDoc) (done : DoneSet) : list Step * bool :=
  match decomposeGroups (pl_groups p) [] done with
  | Some r => (rd_steps r, rd_parallel r)
  | None => ([], false)
  end.
Definition DecomposeRefs (p : PlanDoc) (done : DoneSet) : list Step * list StepRef * bool :=
  match decomposeGroups (pl_groups p) [] done with
  | Some r => (rd_steps r, rd_refs r, rd_parallel r)
  | None => ([], [], false)
  end.

(** ** Resolving a reference *)

Inductive PlanLookupError := ErrGroupRange (idx : Z) (depth : nat) | ErrStepRange (idx : Z).

(** [l[idx]] guarded by [idx < 0 || idx >= len(l)]. *)
Definition index_z {A} (l : list A) (idx : Z) : option A :=
  if decide (idx < 0 ∨ Z.of_nat (length l) ≤ idx)%Z then None else l !! Z.to_nat idx.

(** [var g Group]. *)
Definition zero_group : Group := mkGroup "" 0 false [] [].

Fixpoint descend (groups : list Group) (g : Group) (depth : nat) (path : list Z)
    : result PlanLookupError Group :=
  match path with
  | [] => Ok g
  | idx :: path' =>
      match index_z groups idx with
      | None => Err (ErrGroupRange idx depth)
      | Some g' => descend (gr_subgroups g') g' (S depth) path'
      end
  end.

Definition StepAt (p : PlanDoc) (ref : StepRef) : result PlanLookupError (Step * Group) :=
  try g := descend (pl_groups p) zero_group 0 (ref_group ref) in
  match index_z (gr_steps g) (ref_index ref) with
  | None => Err (ErrStepRange (ref_index ref))
  | Some s => Ok (s, g)
  end.

(** ** Induction on the tree *)

Section GroupInduction.
Context (P : Group → Prop).
Context (IHg : ∀ g, Forall P (gr_subgroups g) → P g).
Fixpoint Group_ind' (g : Group) : P g :=
  IHg g ((fix go (l : list Group) : Forall P l :=
            match l with
            | [] => Forall_nil_2 P
            | a :: l' => Forall_cons_2 P a l' (Group_ind' a) (go l')
            end) (gr_subgroups g)).
End GroupInduction.
