(* ===== verification/PlanFacts.v ===== *)
(** * Lemmas on plan walks

    Every walk of [PlanModel] is a function of the plan's leaves in document
    order; step references are unique and resolvable. *)
From S2P Require Import Prelude GoLib PlanModel.

(** ** The index loops *)

Lemma over_app {A B} (f : Z → A → list B) i l1 l2 :
  over f i (l1 ++ l2) = over f i l1 ++ over f (i + Z.of_nat (length l1)) l2.
Proof.
  revert i. induction l1 as [|a l1 IH]; intros i; simpl.
  - by rewrite Z.add_0_r.
  - rewrite IH, <-app_assoc. do 3 f_equal. lia.
Qed.

Lemma elem_of_over {A B} (f : Z → A → list B) i l x :
  x ∈ over f i l ↔ ∃ (n : nat) a, l !! n = Some a ∧ x ∈ f (i + Z.of_nat n)%Z a.
Proof.
  revert i. induction l as [|a l IH]; intros i; simpl.
  - split; [by intros ?%elem_of_nil|]. intros (n & a & ? & _). by rewrite lookup_nil in *.
  - rewrite elem_of_app, IH. split.
    + intros [Hx|(n & b & Hb & Hx)]; [exists 0, a; by rewrite Z.add_0_r|].
      exists (S n), b. split; [done|]. by replace (i + Z.of_nat (S n))%Z with (i + 1 + Z.of_nat n)%Z by lia.
    + intros ([|n] & b & Hb & Hx); simpl in Hb.
      * simplify_eq. left. by rewrite Z.add_0_r in Hx.
      * right. exists n, b. split; [done|]. by replace (i + 1 + Z.of_nat n)%Z with (i + Z.of_nat (S n))%Z by lia.
Qed.

Lemma NoDup_over {A B} (f : Z → A → list B) i l :
  (∀ n a, l !! n = Some a → NoDup (f (i + Z.of_nat n)%Z a)) →
  (∀ j k a b x, (j < k)%Z → x ∈ f j a → x ∈ f k b → False) →
  NoDup (over f i l).
Proof.
  revert i. induction l as [|a l IH]; intros i Hnd Hdis; simpl; [constructor|].
  apply NoDup_app. split_and!.
  - specialize (Hnd 0 a eq_refl). by rewrite Z.add_0_r in Hnd.
  - intros x Hx (n & b & _ & Hb)%elem_of_over. eapply (Hdis i); [|done|done]. lia.
  - apply IH; [|done]. intros n b Hb.
    replace (i + 1 + Z.of_nat n)%Z with (i + Z.of_nat (S n))%Z by lia. by apply Hnd.
Qed.

Lemma all_from_over {A B} (p : Z → A → bool) (f : Z → A → list B) (q : B → bool) i l :
  (∀ n a, l !! n = Some a → p (i + Z.of_nat n)%Z a = forallb q (f (i + Z.of_nat n)%Z a)) →
  all_from p i l = forallb q (over f i l).
Proof.
  revert i. induction l as [|a l IH]; intros i Hp; [done|]. simpl. rewrite forallb_app.
  pose proof (Hp 0 a eq_refl) as H0. rewrite Z.add_0_r in H0. rewrite H0. f_equal. apply IH. intros n b Hb.
  replace (i + 1 + Z.of_nat n)%Z with (i + Z.of_nat (S n))%Z by lia. by apply Hp.
Qed.

(** ** Leaves *)

Record Leaf := mkLeaf { lf_path : list Z; lf_parallel : bool; lf_steps : list Step }.

Fixpoint leaves_group (g : Group) (path : list Z) : list Leaf :=
  match gr_subgroups g with
  | [] => [mkLeaf path (gr_parallel g) (gr_steps g)]
  | _ :: _ => over (λ i sub, leaves_group sub (path ++ [i])) 0 (gr_subgroups g)
  end.
Definition leaves (groups : list Group) (path : list Z) : list Leaf :=
  over (λ i g, leaves_group g (path ++ [i])) 0 groups.

Definition walk_leaf (lf : Leaf) : list (StepRef * Step) := leaf_steps (lf_path lf) (lf_steps lf).
Definition leaf_done (done : DoneSet) (lf : Leaf) : bool :=
  forallb (λ rs, bool_decide (ID (fst rs) ∈ done)) (walk_leaf lf).
Definition ready_of (done : DoneSet) (lf : Leaf) : list (StepRef * Step) :=
  leaf_ready (lf_parallel lf) (lf_path lf) done 0 (lf_steps lf).

Fixpoint first_leaf (done : DoneSet) (ls : list Leaf) : option ReadyNow :=
  match ls with
  | [] => None
  | lf :: ls' =>
      if leaf_done done lf then first_leaf done ls'
      else Some (mkReady (snd <$> ready_of done lf) (fst <$> ready_of done lf) (lf_parallel lf))
  end.

Lemma over_concat {A B C} (f : Z → A → list B) (g : B → list C) i l :
  over (λ i a, concat (g <$> f i a)) i l = concat (g <$> over f i l).
Proof.
  revert i. induction l as [|a l IH]; intros i; [done|]. simpl.
  by rewrite IH, fmap_app, concat_app.
Qed.

Lemma over_fmap {A B C} (f : Z → A → list B) (g : B → C) i l :
  g <$> over f i l = over (λ i a, g <$> f i a) i l.
Proof. revert i. induction l as [|a l IH]; intros i; [done|]. simpl. by rewrite fmap_app, IH. Qed.

Lemma over_ext {A B} (f g : Z → A → list B) i l :
  (∀ j a, a ∈ l → f j a = g j a) → over f i l = over g i l.
Proof.
  revert i. induction l as [|a l IH]; intros i Hfg; [done|]. simpl. f_equal.
  - apply Hfg. by apply elem_of_cons; left.
  - apply IH. intros j b Hb. apply Hfg. by apply elem_of_cons; right.
Qed.

Lemma walk_group_leaves g path : walk_group g path = concat (walk_leaf <$> leaves_group g path).
Proof.
  revert path. induction g as [g IH] using Group_ind'. intros path. rewrite Forall_forall in IH.
  destruct g as [h lv par steps subs]; simpl in *. destruct subs as [|s0 subs].
  - simpl. by rewrite app_nil_r.
  - rewrite <-over_concat. apply over_ext. intros j a Ha. by apply IH.
Qed.

Lemma walkGroups_leaves groups path : walkGroups groups path = concat (walk_leaf <$> leaves groups path).
Proof.
  unfold walkGroups, leaves. rewrite <-over_concat. apply over_ext. intros j a _. apply walk_group_leaves.
Qed.

Lemma groupDone_leaves g path done : groupDone g path done = forallb (leaf_done done) (leaves_group g path).
Proof.
  revert path. induction g as [g IH] using Group_ind'. intros path. rewrite Forall_forall in IH.
  destruct g as [h lv par steps subs]; simpl in *. destruct subs as [|s0 subs].
  - simpl. rewrite andb_true_r. unfold leaf_done, walk_leaf, leaf_steps. simpl.
    apply all_from_over. intros n a _. simpl. by rewrite andb_true_r.
  - apply (all_from_over _ (λ i sub, leaves_group sub (path ++ [i]))).
    intros n a Ha. apply IH. by eapply list_elem_of_lookup_2.
Qed.

(** ** Leaf readiness *)

Lemma leaf_ready_nil parallel path done j steps :
  leaf_ready parallel path done j steps = [] ↔
  all_from (λ j _, bool_decide (ID (mkRef path j) ∈ done)) j steps = true.
Proof.
  revert j. induction steps as [|s steps IH]; intros j; simpl; [done|].
  case_bool_decide; simpl; [apply IH|done].
Qed.

Lemma leaf_done_nil done lf : leaf_done done lf = true ↔ ready_of done lf = [].
Proof.
  unfold ready_of. rewrite leaf_ready_nil. unfold leaf_done, walk_leaf, leaf_steps.
  erewrite <-all_from_over; [done|]. intros n a _. simpl. by rewrite andb_true_r.
Qed.

Lemma first_leaf_app done l1 l2 :
  first_leaf done (l1 ++ l2) =
  if forallb (leaf_done done) l1 then first_leaf done l2 else first_leaf done l1.
Proof.
  induction l1 as [|lf l1 IH]; [done|]. simpl. destruct (leaf_done done lf); [apply IH|done].
Qed.

(** The loop over groups is the loop over leaves. *)
Lemma first_open_leaves done path groups i :
  (∀ g, g ∈ groups → ∀ path, groupDone g path done = false →
     decompose_group g path done = first_leaf done (leaves_group g path)) →
  first_open (λ i g, groupDone g (path ++ [i]) done) (λ i g, decompose_group g (path ++ [i]) done) i groups =
  first_leaf done (over (λ i g, leaves_group g (path ++ [i])) i groups).
Proof.
  revert i. induction groups as [|g groups IH]; intros i Hg; [done|]. simpl.
  rewrite first_leaf_app, <-groupDone_leaves.
  destruct (groupDone g (path ++ [i]) done) eqn:Hd.
  - apply IH. intros g' Hg'. apply Hg. by apply elem_of_cons; right.
  - apply Hg; [by apply elem_of_cons; left|done].
Qed.

Lemma decompose_group_leaves g path done :
  groupDone g path done = false →
  decompose_group g path done = first_leaf done (leaves_group g path).
Proof.
  revert path. induction g as [g IH] using Group_ind'. intros path Hd. rewrite Forall_forall in IH.
  pose proof (groupDone_leaves g path done) as Hleaves. rewrite Hd in Hleaves.
  destruct g as [h lv par steps subs]; simpl in *. destruct subs as [|s0 subs].
  - simpl in *. rewrite andb_true_r in Hleaves. rewrite <-Hleaves. unfold leafReady. simpl.
    assert (leaf_ready par path done 0 steps ≠ []) as Hne.
    { intros He. assert (leaf_done done (mkLeaf path par steps) = true) by by apply leaf_done_nil. congruence. }
    unfold ready_of. simpl. by destruct (leaf_ready par path done 0 steps).
  - apply first_open_leaves. done.
Qed.

Lemma decomposeGroups_leaves groups path done :
  decomposeGroups groups path done = first_leaf done (leaves groups path).
Proof. apply first_open_leaves. intros g _ p. apply decompose_group_leaves. Qed.

(** ** References *)

Lemma ID_inj r1 r2 : ID r1 = ID r2 → r1 = r2.
Proof.
  unfold ID. intros Heq. destruct r1 as [p1 i1], r2 as [p2 i2]; simpl in *.
  assert (∀ (p : list Z) i, Forall (no_char "."%char) ((Itoa <$> p) ++ [Itoa i])) as Hno.
  { assert (∀ z, no_char "."%char (Itoa z)) as Hz.
    { intros z. apply Itoa_no_char; [|done]. unfold is_digit. vm_compute. lia. }
    intros p i. apply Forall_app. split; [by apply Forall_fmap, Forall_true|by constructor]. }
  apply (f_equal (Split "."%char)) in Heq. change "." with (char_str "."%char) in Heq.
  rewrite !Split_Join in Heq by (done || by intros ?%app_nil; naive_solver).
  apply app_inj_tail in Heq as [Hp Hi%Itoa_inj].
  apply (list_fmap_eq_inj Itoa) in Hp; [by subst|exact Itoa_inj].
Qed.

Lemma index_z_some {A} (l : list A) (n : nat) a : index_z l (Z.of_nat n) = Some a ↔ l !! n = Some a.
Proof.
  unfold index_z. rewrite Nat2Z.id. case_decide as Hd; [|done]. split; [done|].
  intros Hl%lookup_lt_Some. lia.
Qed.

Lemma elem_of_leaf_steps path steps ref s :
  (ref, s) ∈ leaf_steps path steps ↔ ∃ n : nat, steps !! n = Some s ∧ ref = mkRef path (Z.of_nat n).
Proof.
  unfold leaf_steps. rewrite elem_of_over. split.
  - intros (n & a & Hn & Hin%list_elem_of_singleton). simplify_eq. exists n. by rewrite Z.add_0_l.
  - intros (n & Hn & ->). exists n, s. split; [done|]. apply list_elem_of_singleton. by rewrite Z.add_0_l.
Qed.

(** What a walked reference resolves to from the group it was found under. *)
Definition resolves (g : Group) (rel : list Z) (idx : Z) (s : Step) : Prop :=
  ∀ depth, ∃ leaf, descend (gr_subgroups g) g depth rel = Ok leaf ∧
    gr_subgroups leaf = [] ∧ index_z (gr_steps leaf) idx = Some s.

Lemma walk_group_resolves g path ref s :
  (ref, s) ∈ walk_group g path → ∃ rel, ref_group ref = path ++ rel ∧ resolves g rel (ref_index ref) s.
Proof.
  revert path. induction g as [g IH] using Group_ind'. intros path Hin. rewrite Forall_forall in IH.
  destruct g as [h lv par steps subs]; simpl in *. destruct subs as [|s0 subs].
  - apply elem_of_leaf_steps in Hin as (n & Hn & ->). exists []. rewrite app_nil_r. split; [done|].
    intros depth. eexists. split_and!; [done|done|]. simpl. by apply index_z_some.
  - apply elem_of_over in Hin as (n & g' & Hn & Hin). rewrite Z.add_0_l in Hin.
    destruct (IH g' (list_elem_of_lookup_2 _ _ _ Hn) _ Hin) as (rel & Heq & Hres).
    exists (Z.of_nat n :: rel). split; [by rewrite Heq, <-app_assoc|].
    intros depth. destruct (Hres (S depth)) as (leaf & Hd & Hleaf). exists leaf. split; [|done].
    simpl. by rewrite (proj2 (index_z_some (s0 :: subs) n g') Hn).
Qed.

Lemma walkGroups_StepAt p ref s :
  (ref, s) ∈ walkGroups (pl_groups p) [] →
  ∃ g, StepAt p ref = Ok (s, g) ∧ gr_subgroups g = [].
Proof.
  unfold walkGroups. intros (n & g & Hn & Hin)%elem_of_over. rewrite Z.add_0_l in Hin.
  apply walk_group_resolves in Hin as (rel & Heq & Hres). simpl in Heq.
  destruct (Hres 1) as (leaf & Hd & Hleaf & Hidx). exists leaf. split; [|done].
  unfold StepAt. rewrite Heq. simpl. rewrite (proj2 (index_z_some (pl_groups p) n g) Hn).
  rewrite Hd. simpl. by rewrite Hidx.
Qed.

(** No two steps share a reference. *)
Lemma walk_group_path g path ref s : (ref, s) ∈ walk_group g path → ∃ rel, ref_group ref = path ++ rel.
Proof. intros (rel & ? & _)%walk_group_resolves. eauto. Qed.

Lemma walk_group_refs_nodup g path : NoDup (fst <$> walk_group g path).
Proof.
  revert path. induction g as [g IH] using Group_ind'. intros path. rewrite Forall_forall in IH.
  assert (∀ (f : Z → Group → list (StepRef * Step)) i l,
    fst <$> over f i l = over (λ i a, fst <$> f i a) i l) as Hmap.
  { intros f i l. revert i. induction l as [|a l IHl]; intros i; [done|]. simpl. by rewrite fmap_app, IHl. }
  destruct g as [h lv par steps subs]; simpl in *. destruct subs as [|s0 subs].
  - unfold leaf_steps. generalize 0%Z as i. induction steps as [|s steps IHs]; intros i; simpl; [constructor|].
    constructor; [|apply IHs]. intros ([r x] & Heq & Hin)%list_elem_of_fmap. simpl in Heq. subst r.
    apply elem_of_over in Hin as (n & a & _ & Hin%list_elem_of_singleton). simplify_eq. lia.
  - rewrite Hmap. apply NoDup_over.
    + intros n a Hn. apply IH. by eapply list_elem_of_lookup_2.
    + intros j k a b x Hjk ([r1 s1] & -> & H1)%list_elem_of_fmap ([r2 s2] & Heq & H2)%list_elem_of_fmap.
      simpl in Heq. subst r2. apply walk_group_path in H1 as (rel1 & E1). apply walk_group_path in H2 as (rel2 & E2).
      simpl in *. rewrite E1, <-!app_assoc in E2. apply app_inv_head in E2. simplify_eq. lia.
Qed.

Lemma walkGroups_group groups path h lv par :
  groups ≠ [] → walkGroups groups path = walk_group (mkGroup h lv par [] groups) path.
Proof. by destruct groups. Qed.

Lemma walkGroups_refs_nodup groups path : NoDup (fst <$> walkGroups groups path).
Proof.
  destruct (decide (groups = [])) as [->|Hne]; [constructor|].
  rewrite (walkGroups_group _ _ "" 0 false Hne). apply walk_group_refs_nodup.
Qed.
