(* ===== verification/PlanImport.v ===== *)
(** * From a parsed plan to a task graph: [internal/orch/plan_import.go],
    [dispatch_graph.go], and the acceptance annotations of [verify.go] *)
From S2P Require Import Prelude GoLib PlanModel StoreModel StoreSql StoreTasks StoreGraph.

(** ** Walks with group paths *)

Record Node := mkNode { nd_ref : StepRef; nd_step : Step; nd_group : string }.

Definition leaf_nodes (path : list Z) (steps : list Step) : list Node :=
  let groupPath := GroupID (mkRef path 0) in
  over (λ j s, [mkNode (mkRef path j) s groupPath]) 0 steps.

Fixpoint nodes_group (g : Group) (path : list Z) : list Node :=
  match gr_subgroups g with
  | [] => leaf_nodes path (gr_steps g)
  | _ :: _ => over (λ i sub, nodes_group sub (path ++ [i])) 0 (gr_subgroups g)
  end.

(** [walk]. *)
Definition walk (groups : list Group) (path : list Z) : list Node :=
  over (λ i g, nodes_group g (path ++ [i])) 0 groups.

Definition stepTaskID (ref : StepRef) (step : Step) : string :=
  match st_metadata step with
  | Some m => if decide (md_id m = "") then ID ref else md_id m
  | None => ID ref
  end.

Definition node_id (n : Node) : string := stepTaskID (nd_ref n) (nd_step n).

(** ** Document order *)

(** The state of [documentOrderEdges]' closure: the edges written so far (one
    entry per visited step, [idx] being their number) and the terminals of the
    previous leaf. *)
Definition EdgeState := (list (list string) * list string)%type.

(** One leaf: the first step, and every step of a parallel leaf, waits for
    [prevTerminals]; a later step of a sequential leaf waits for the step before. *)
Fixpoint leaf_edges (parallel : bool) (ids prevTerminals : list string) (start : nat) (idx : nat)
    (steps : list Step) : list (list string) :=
  match steps with
  | [] => []
  | _ :: steps' =>
      (if parallel || bool_decide (idx = start) then prevTerminals
       else match ids !! (idx - 1) with Some d => [d] | None => [] end)
      :: leaf_edges parallel ids prevTerminals start (S idx) steps'
  end.

Definition visit_leaf (ids : list string) (parallel : bool) (steps : list Step) (st : EdgeState) : EdgeState :=
  let '(edges, prevTerminals) := st in
  match steps with
  | [] => st
  | _ :: _ =>
      let start := length edges in
      let stop := start + length steps in
      (edges ++ leaf_edges parallel ids prevTerminals start start steps,
       if parallel then take (stop - start) (drop start ids)
       else match ids !! (stop - 1) with Some d => [d] | None => [] end)
  end.

Fixpoint visit_group (ids : list string) (g : Group) (st : EdgeState) : EdgeState :=
  match gr_subgroups g with
  | [] => visit_leaf ids (gr_parallel g) (gr_steps g) st
  | _ :: _ => foldl (λ st sub, visit_group ids sub st) st (gr_subgroups g)
  end.

Definition documentOrderEdges (parsed : PlanDoc) (ids : list string) : list (list string) :=
  (foldl (λ st g, visit_group ids g st) ([], []) (pl_groups parsed)).1.

(** ** Acceptance annotations *)

Record Acceptance := mkAcceptance { ac_command : string; ac_file_exists : string; ac_dir : string }.

(** [encoding/json] on the two documents the import writes. *)
Class PlanCodec := {
  marshal_metadata : TaskMetadata → string;
  marshal_acceptance : Acceptance → string;
  unmarshal_acceptance : string → option Acceptance;
  acceptance_roundtrip : ∀ a, unmarshal_acceptance (marshal_acceptance a) = Some a;
  marshal_acceptance_text : ∀ a, TrimSpace (marshal_acceptance a) ≠ ""
}.

(** The text up to the next backtick, when there is one. *)
Fixpoint until_backtick (l : list Ascii.ascii) : option (list Ascii.ascii) :=
  match l with
  | [] => None
  | c :: l' => if decide (c = "`"%char) then Some [] else cons c <$> until_backtick l'
  end.

(** [\s] of [regexp]. *)
Definition re_space (c : Ascii.ascii) : bool :=
  match Ascii.nat_of_ascii c with 9 | 10 | 12 | 13 | 32 => true | _ => false end.

(** [\s*([^`]+)]: white space is taken greedily, leaving the group one character
    at least. *)
Fixpoint re_group (body : list Ascii.ascii) : list Ascii.ascii :=
  match body with
  | [] => []
  | [c] => [c]
  | c :: body' => if re_space c then re_group body' else body
  end.

(** The first match of [`marker\s*([^`]+)`], scanning from the left; the group. *)
Fixpoint find_marker (marker : list Ascii.ascii) (l : list Ascii.ascii) : option (list Ascii.ascii) :=
  match l with
  | [] => None
  | _ :: l' =>
      match strip_prefix marker l with
      | Some rest =>
          match until_backtick rest with
          | Some (c :: body) => Some (re_group (c :: body))
          | _ => find_marker marker l'
          end
      | None => find_marker marker l'
      end
  end.

Definition annotation (marker haystack : string) : string :=
  match find_marker (chars marker) (chars haystack) with
  | Some m => TrimSpace (of_chars m)
  | None => ""
  end.

Definition step_haystack (step : Step) : string :=
  if decide (st_detail step = "") then st_text step
  else st_text step +:+ String "010"%char (st_detail step).

Definition defaultAcceptanceJSON `{PlanCodec} (step : Step) : string :=
  let acc := mkAcceptance (annotation "`accept:" (step_haystack step))
                          (annotation "`accept-file:" (step_haystack step)) "" in
  if bool_decide (ac_command acc = "") && bool_decide (ac_file_exists acc = "") then ""
  else marshal_acceptance acc.

Definition declaredReservations (step : Step) : list TaskInputSpec * list TaskOutputSpec :=
  match st_metadata step with
  | None => ([], [])
  | Some m =>
      ((λ i, mkTaskInputSpec (in_path i) (in_sha256 i)) <$> md_inputs m,
       (λ o, mkTaskOutputSpec (out_path o) (out_mode o)) <$> md_outputs m)
  end.

(** ** graphSpecs *)

Inductive ImportError :=
| ErrPlanArguments
| ErrNoSteps
| ErrDuplicateTaskID (id : string) (prev i : nat)
| ErrUnknownAfter (task dep : string).

(** The id loop: [byID] as the list of ids seen so far. *)
Fixpoint check_ids (seen : list string) (ids : list string) : option ImportError :=
  match ids with
  | [] => None
  | id :: ids' =>
      match list_find (λ x, x = id) seen with
      | Some (prev, _) => Some (ErrDuplicateTaskID id prev (length seen))
      | None => check_ids (seen ++ [id]) ids'
      end
  end.

Definition check_after (ids : list string) (id : string) (deps : list string) : option ImportError :=
  match list_find (λ d, d ∉ ids) deps with
  | Some (_, dep) => Some (ErrUnknownAfter id dep)
  | None => None
  end.

Definition node_spec `{PlanCodec} (n : Node) (deps : list string) : GraphTaskSpec :=
  let m := st_metadata (nd_step n) in
  mkGraphTaskSpec
    (mkCreateTaskOpts "" (node_id n) (st_text (nd_step n)) None None
       (defaultAcceptanceJSON (nd_step n)) "" (st_requires_approval (nd_step n)))
    deps (nd_group n)
    (match m with Some m => md_team m | None => "" end)
    (match m with Some m => marshal_metadata m | None => "{}" end)
    (declaredReservations (nd_step n)).1 (declaredReservations (nd_step n)).2.

Fixpoint build_specs `{PlanCodec} (ids : list string) (nodes : list Node) (docOrder : list (list string))
    : result ImportError (list GraphTaskSpec) :=
  match nodes with
  | [] => Ok []
  | n :: nodes' =>
      let '(deps, rest) := match docOrder with [] => ([], []) | d :: r => (d, r) end in
      let '(explicit, stated) := DependsOn (st_metadata (nd_step n)) in
      match (if stated then check_after ids (node_id n) explicit else None) with
      | Some e => Err e
      | None =>
          try specs := build_specs ids nodes' rest in
          Ok (node_spec n (if stated then explicit else deps) :: specs)
      end
  end.

Definition graphSpecs `{PlanCodec} (parsed : PlanDoc) : result ImportError (list GraphTaskSpec) :=
  let nodes := walk (pl_groups parsed) [] in
  match nodes with
  | [] => Err ErrNoSteps
  | _ :: _ =>
      let ids := node_id <$> nodes in
      match check_ids [] ids with
      | Some e => Err e
      | None => build_specs ids nodes (documentOrderEdges parsed ids)
      end
  end.

(** ** Dispatch *)

(** [index[stepTaskID(ref, step)] = ...]: a later step overwrites an earlier one. *)
Definition indexPlanSteps (parsed : PlanDoc) : gmap string (StepRef * Step) :=
  foldl (λ m n, <[node_id n := (nd_ref n, nd_step n)]> m) ∅ (walk (pl_groups parsed) []).

Definition groupHeadingFor (p : PlanDoc) (ref : StepRef) : string :=
  match StepAt p ref with Ok (_, g) => gr_heading g | Err _ => "" end.

Inductive WaveError :=
| WaveImport (e : ImportError)
| WaveStore (e : StoreError)
| ErrNoStepForTask (id : string).

Record readyGroup := mkReadyGroup {
  wg_group_path : string; wg_heading : string; wg_parallel : bool;
  wg_refs : list StepRef; wg_steps : list Step; wg_tasks : list TaskRow }.

Section Dispatch.
Context `{SqlEngine} `{BindingCodec} `{PlanCodec}.

Definition ensurePlanGraph (planID : string) (parsed : PlanDoc) : SM DB WaveError unit := λ s,
  match ListTasks planID [] s with
  | _ :: _ => (Ok tt, s)
  | [] =>
      match graphSpecs parsed with
      | Err e => (Err (WaveImport e), s)
      | Ok specs =>
          match MaterializePlanGraph planID specs s with
          | (Ok _, s') => (Ok tt, s')
          | (Err e, s') => (Err (WaveStore e), s')
          end
      end
  end.

Fixpoint locate (index : gmap string (StepRef * Step)) (rows : list TaskRow)
    : result WaveError (list (StepRef * Step)) :=
  match rows with
  | [] => Ok []
  | r :: rows' =>
      match index !! r.1.2 with
      | None => Err (ErrNoStepForTask r.1.2)
      | Some located => try rest := locate index rows' in Ok (located :: rest)
      end
  end.

Definition wave_group (parsed : PlanDoc) (part : ReadyPartition) : result WaveError readyGroup :=
  try located := locate (indexPlanSteps parsed) (rp_tasks part) in
  Ok (mkReadyGroup (rp_group_path part)
        (match located with [] => "" | l :: _ => groupHeadingFor parsed l.1 end)
        (1 <? Z.of_nat (length (rp_tasks part)))%Z
        (fst <$> located) (snd <$> located) (rp_tasks part)).

Fixpoint wave_groups (parsed : PlanDoc) (parts : list ReadyPartition) : result WaveError (list readyGroup) :=
  match parts with
  | [] => Ok []
  | p :: parts' =>
      try g := wave_group parsed p in
      try rest := wave_groups parsed parts' in
      Ok (g :: rest)
  end.

Definition loadReadyWave (planID : string) (parsed : PlanDoc) : SM DB WaveError (list readyGroup) :=
  do! ensurePlanGraph planID parsed in
  λ s, (wave_groups parsed (ReadyPartitions planID s), s).
End Dispatch.

(** ** A codec

    One instance of the interface, for evaluation: every character behind an
    ["x"], fields closed by a ["."]. *)
Fixpoint quote (l : list Ascii.ascii) : list Ascii.ascii :=
  match l with [] => ["."%char] | c :: l' => "x"%char :: c :: quote l' end.
Fixpoint unquote (fuel : nat) (l : list Ascii.ascii) : option (list Ascii.ascii * list Ascii.ascii) :=
  match fuel with
  | 0 => None
  | S n =>
      match l with
      | "."%char :: rest => Some ([], rest)
      | "x"%char :: c :: l' => '(w, rest) ← unquote n l'; Some (c :: w, rest)
      | _ => None
      end
  end.

Lemma unquote_quote w rest fuel : length w < fuel → unquote fuel (quote w ++ rest) = Some (w, rest).
Proof.
  revert fuel. induction w as [|c w IH]; intros [|fuel] Hf; simpl in *; try lia; [done|].
  by rewrite IH by lia.
Qed.

Definition toy_marshal (a : Acceptance) : string :=
  of_chars ("{"%char :: quote (chars (ac_command a)) ++ quote (chars (ac_file_exists a)) ++ quote (chars (ac_dir a))).
Definition unquote_fields (fuel : nat) (l : list Ascii.ascii) : option Acceptance :=
  '(c, l1) ← unquote fuel l;
  '(f, l2) ← unquote fuel l1;
  '(d, _) ← unquote fuel l2;
  Some (mkAcceptance (of_chars c) (of_chars f) (of_chars d)).
Definition toy_unmarshal (s : string) : option Acceptance :=
  match chars s with
  | "{"%char :: l => unquote_fields (S (length l)) l
  | _ => None
  end.

Lemma quote_length w : length w < length (quote w).
Proof. induction w; simpl; lia. Qed.

Lemma unquote_fields_quote fuel c f d :
  length c < fuel → length f < fuel → length d < fuel →
  unquote_fields fuel (quote c ++ quote f ++ quote d) =
  Some (mkAcceptance (of_chars c) (of_chars f) (of_chars d)).
Proof.
  intros Hc Hf Hd. unfold unquote_fields.
  rewrite unquote_quote by done. simpl. rewrite unquote_quote by done. simpl.
  pose proof (unquote_quote d [] fuel Hd) as Hq. rewrite app_nil_r in Hq. by rewrite Hq.
Qed.

Lemma toy_roundtrip a : toy_unmarshal (toy_marshal a) = Some a.
Proof.
  unfold toy_unmarshal, toy_marshal. rewrite chars_of_chars. destruct a as [c f d].
  cbn [ac_command ac_file_exists ac_dir].
  pose proof (quote_length (chars c)). pose proof (quote_length (chars f)). pose proof (quote_length (chars d)).
  rewrite unquote_fields_quote by (rewrite !length_app; lia). by rewrite !of_chars_chars.
Qed.

Definition toy_codec : PlanCodec.
Proof.
  refine {| marshal_metadata := λ m, md_id m; marshal_acceptance := toy_marshal;
            unmarshal_acceptance := toy_unmarshal; acceptance_roundtrip := toy_roundtrip |}.
  intros a. apply (TrimSpace_solid "{"%char); [unfold solid; vm_compute; lia|].
  unfold toy_marshal. rewrite chars_of_chars. by apply elem_of_cons; left.
Defined.

Lemma quote_inj a b r1 r2 : quote a ++ r1 = quote b ++ r2 → a = b ∧ r1 = r2.
Proof.
  revert b. induction a as [|c a IH]; intros [|d b] Heq; simplify_eq/=; try done.
  by destruct (IH b) as [-> ->].
Qed.

Definition toy_binding (b : declaredBinding) : string :=
  of_chars ("{"%char :: quote (chars (b_mode b)) ++ quote (chars (b_alias b)) ++ quote (chars (b_provider b)) ++
    quote (chars (b_model b)) ++ quote (chars (b_effort b)) ++ quote (chars (b_calibration b)) ++
    quote (chars (b_fixture b)) ++ quote (chars (Itoa (b_repetitions b))) ++ []).

Definition toy_binding_codec : BindingCodec.
Proof.
  refine {| unmarshal_binding := λ _, None; marshal_binding := toy_binding |}.
  - intros [] [] Heq. apply (f_equal chars) in Heq. unfold toy_binding in Heq. rewrite !chars_of_chars in Heq.
    simpl in Heq. injection Heq as Heq.
    repeat (apply quote_inj in Heq as [?%chars_inj Heq]). apply Itoa_inj in H6. by subst.
  - done.
Defined.
