(* ===== verification/PlanEdges.v ===== *)
(** * Document order as edges

    [documentOrderEdges] flattened to leaves, and the agreement of the edge walk
    with positional readiness. *)
From S2P Require Import Prelude GoLib PlanModel PlanFacts StoreModel StoreSql StoreTasks StoreGraph PlanImport.

(** A leaf as the importer sees it: its flavour and the ids of its steps. *)
Abbreviation IdLeaf := (bool * list string)%type.

(** Each later step of a sequential leaf waits for the one before. *)
Fixpoint chain (prev : string) (l : list string) : list (list string) :=
  match l with [] => [] | b :: l' => [prev] :: chain b l' end.

Definition leaf_spec (parallel : bool) (prev idl : list string) : list (list string) :=
  if parallel then replicate (length idl) prev
  else match idl with [] => [] | a :: l => prev :: chain a l end.

Definition terminals (parallel : bool) (idl : list string) : list string :=
  if parallel then idl else match last idl with Some d => [d] | None => [] end.

Fixpoint spec_edges (prev : list string) (ls : list IdLeaf) : list (list string) :=
  match ls with
  | [] => []
  | (par, []) :: ls' => spec_edges prev ls'
  | (par, idl) :: ls' => leaf_spec par prev idl ++ spec_edges (terminals par idl) ls'
  end.

(** ** The importer's closure computes [spec_edges] *)

Fixpoint split_ids (ids : list string) (ls : list Leaf) : list IdLeaf :=
  match ls with
  | [] => []
  | lf :: ls' =>
      let n := length (lf_steps lf) in
      (lf_parallel lf, take n ids) :: split_ids (drop n ids) ls'
  end.

Fixpoint leaf_count (ls : list Leaf) : nat :=
  match ls with [] => 0 | lf :: ls' => length (lf_steps lf) + leaf_count ls' end.

Lemma visit_group_leaves ids g path st :
  visit_group ids g st =
  foldl (λ st lf, visit_leaf ids (lf_parallel lf) (lf_steps lf) st) st (leaves_group g path).
Proof.
  revert path st. induction g as [g IH] using Group_ind'. intros path st. rewrite Forall_forall in IH.
  destruct g as [h lv par steps subs]; simpl in *. destruct subs as [|s0 subs]; [done|].
  generalize 0%Z as i. revert st IH. generalize (s0 :: subs) as l.
  induction l as [|g l IHl]; intros st IH i; [done|]. simpl. rewrite foldl_app.
  rewrite <-(IH g) by (apply elem_of_cons; by left).
  apply IHl. intros x Hx. apply IH. apply elem_of_cons; by right.
Qed.

Lemma documentOrderEdges_leaves p ids :
  documentOrderEdges p ids =
  (foldl (λ st lf, visit_leaf ids (lf_parallel lf) (lf_steps lf) st) ([], []) (leaves (pl_groups p) [])).1.
Proof.
  unfold documentOrderEdges, leaves. f_equal. generalize (([], []) : EdgeState) as st. generalize 0%Z as i.
  induction (pl_groups p) as [|g l IH]; intros i st; [done|]. simpl.
  by rewrite foldl_app, <-(visit_group_leaves ids g [i]), (IH (i + 1)%Z).
Qed.

Lemma leaf_edges_parallel ids prev start idx steps :
  leaf_edges true ids prev start idx steps = replicate (length steps) prev.
Proof. revert idx. induction steps as [|s steps IH]; intros idx; [done|]. simpl. by rewrite IH. Qed.

Lemma leaf_edges_chain ids0 prev start a l rest steps :
  start ≤ length ids0 → length steps = length l →
  leaf_edges false (ids0 ++ a :: l ++ rest) prev start (S (length ids0)) steps = chain a l.
Proof.
  revert ids0 a steps. induction l as [|b l IH]; intros ids0 a [|s steps] Hst Hlen; simpl in Hlen; try done.
  simpl. rewrite bool_decide_false by lia. rewrite Nat.sub_0_r, lookup_app_r, Nat.sub_diag by lia. simpl.
  f_equal. specialize (IH (ids0 ++ [a]) b steps). rewrite length_app, <-app_assoc in IH. simpl in IH.
  rewrite <-IH by lia. f_equal. lia.
Qed.

Lemma visit_leaf_spec par ids0 idl rest edges prev steps :
  length edges = length ids0 → length steps = length idl → idl ≠ [] →
  visit_leaf (ids0 ++ idl ++ rest) par steps (edges, prev) =
  (edges ++ leaf_spec par prev idl, terminals par idl).
Proof.
  intros He Hs Hne. destruct idl as [|a idl]; [done|]. destruct steps as [|s steps]; [done|].
  unfold visit_leaf. rewrite He. f_equal.
  - f_equal. unfold leaf_spec. destruct par.
    + by rewrite leaf_edges_parallel, Hs.
    + simpl. rewrite bool_decide_true by done. f_equal. apply leaf_edges_chain; [done|]. by simplify_eq/=.
  - unfold terminals. rewrite Hs. destruct par.
    + rewrite Nat.add_sub_swap, Nat.sub_diag, Nat.add_0_l by lia.
      by rewrite drop_app_length, take_app_length.
    + rewrite lookup_app_r by (simpl; lia). rewrite lookup_app_l by (simpl; lia). rewrite last_lookup.
      f_equal. simpl. replace (length ids0 + S (length idl) - 1 - length ids0) with (length idl) by lia. done.
Qed.

Lemma visit_leaf_empty ids par st : visit_leaf ids par [] st = st.
Proof. by destruct st. Qed.

Lemma leaf_spec_length par prev idl : length (leaf_spec par prev idl) = length idl.
Proof.
  unfold leaf_spec. destruct par; [apply length_replicate|]. destruct idl as [|a l]; [done|]. simpl. f_equal.
  revert a. induction l as [|b l IH]; intros a; [done|]. simpl. by rewrite IH.
Qed.

(** The importer's edges, over the leaves with their ids. *)
Lemma visit_leaves_spec ls ids0 ids edges prev :
  length edges = length ids0 → length ids = leaf_count ls →
  (foldl (λ st lf, visit_leaf (ids0 ++ ids) (lf_parallel lf) (lf_steps lf) st) (edges, prev) ls).1 =
  edges ++ spec_edges prev (split_ids ids ls).
Proof.
  revert ids0 ids edges prev. induction ls as [|lf ls IH]; intros ids0 ids edges prev He Hlen; cbn [foldl split_ids].
  - simpl. by rewrite app_nil_r.
  - simpl in Hlen. set (n := length (lf_steps lf)) in *.
    assert (length (take n ids) = n) as Hn by (rewrite length_take; lia).
    destruct (decide (n = 0)) as [Hz|Hz].
    + assert (lf_steps lf = []) as -> by by apply nil_length_inv.
      rewrite visit_leaf_empty, Hz. simpl. apply IH; [done|]. rewrite drop_0. lia.
    + assert (take n ids ≠ []) as Hne by (intros Ht; rewrite Ht in Hn; simpl in Hn; lia).
      assert (visit_leaf (ids0 ++ ids) (lf_parallel lf) (lf_steps lf) (edges, prev) =
        (edges ++ leaf_spec (lf_parallel lf) prev (take n ids), terminals (lf_parallel lf) (take n ids))) as ->.
      { rewrite <-(take_drop n ids) at 1. by apply visit_leaf_spec. }
      assert (ids0 ++ ids = (ids0 ++ take n ids) ++ drop n ids) as -> by by rewrite <-app_assoc, take_drop.
      rewrite IH.
      * rewrite <-app_assoc. f_equal. destruct (take n ids) as [|a l] eqn:Ht; [done|]. done.
      * rewrite !length_app, leaf_spec_length. lia.
      * rewrite length_drop. lia.
Qed.

Lemma documentOrderEdges_spec p ids :
  length ids = leaf_count (leaves (pl_groups p) []) →
  documentOrderEdges p ids = spec_edges [] (split_ids ids (leaves (pl_groups p) [])).
Proof.
  intros Hlen. rewrite documentOrderEdges_leaves.
  by rewrite (visit_leaves_spec _ [] ids [] []) by done.
Qed.

(** ** Readiness along the edges *)

(** A node of the graph: its id and the ids it waits for. *)
Abbreviation IdNode := (string * list string)%type.

Fixpoint chain_nodes (prev : string) (l : list string) : list IdNode :=
  match l with [] => [] | b :: l' => (b, [prev]) :: chain_nodes b l' end.

Definition leaf_nodes_of (parallel : bool) (prev idl : list string) : list IdNode :=
  if parallel then (λ id, (id, prev)) <$> idl
  else match idl with [] => [] | a :: l => (a, prev) :: chain_nodes a l end.

Fixpoint graph_nodes (prev : list string) (ls : list IdLeaf) : list IdNode :=
  match ls with
  | [] => []
  | (par, []) :: ls' => graph_nodes prev ls'
  | (par, idl) :: ls' => leaf_nodes_of par prev idl ++ graph_nodes (terminals par idl) ls'
  end.

Lemma chain_nodes_zip a l : zip l (chain a l) = chain_nodes a l.
Proof. revert a. induction l as [|b l IH]; intros a; [done|]. simpl. by rewrite IH. Qed.

Lemma leaf_nodes_zip par prev idl : zip idl (leaf_spec par prev idl) = leaf_nodes_of par prev idl.
Proof.
  unfold leaf_spec, leaf_nodes_of. destruct par.
  - induction idl as [|a l IH]; [done|]. simpl. by rewrite IH.
  - destruct idl as [|a l]; [done|]. simpl. by rewrite chain_nodes_zip.
Qed.

Lemma graph_nodes_zip prev ls : zip (concat (snd <$> ls)) (spec_edges prev ls) = graph_nodes prev ls.
Proof.
  revert prev. induction ls as [|[par [|a l]] ls IH]; intros prev; [done|apply IH|].
  cbn [fmap list_fmap concat snd spec_edges graph_nodes]. rewrite <-leaf_nodes_zip, <-IH.
  rewrite zip_with_app; [done|by rewrite leaf_spec_length].
Qed.

Definition all_done (done : DoneSet) (ds : list string) : Prop := ∀ d, d ∈ ds → d ∈ done.

(** The done-sets a run produces: nothing is done before what it waits for. *)
Definition closed (done : DoneSet) (nodes : list IdNode) : Prop :=
  ∀ id ds, (id, ds) ∈ nodes → id ∈ done → all_done done ds.

(** A node the edge walk dispatches. *)
Definition edge_ready (done : DoneSet) (nodes : list IdNode) (id : string) : Prop :=
  ∃ ds, (id, ds) ∈ nodes ∧ id ∉ done ∧ all_done done ds.

(** What positional readiness picks, in ids. *)
Definition undone (done : DoneSet) (idl : list string) : list string := filter (λ id, id ∉ done) idl.
Fixpoint pick (done : DoneSet) (ls : list IdLeaf) : list string :=
  match ls with
  | [] => []
  | (par, idl) :: ls' =>
      if decide (undone done idl = []) then pick done ls'
      else if par then undone done idl else take 1 (undone done idl)
  end.

Section Agreement.
Context (done : DoneSet).

(** Nothing past an unfinished step is done or ready. *)
Definition blocked (nodes : list IdNode) : Prop :=
  ∀ id ds, (id, ds) ∈ nodes → id ∉ done ∧ ¬ all_done done ds.

Lemma blocked_ready nodes id : blocked nodes → ¬ edge_ready done nodes id.
Proof. intros Hb (ds & Hin & _ & Hall). by destruct (Hb id ds Hin). Qed.

Lemma closed_app n1 n2 : closed done (n1 ++ n2) ↔ closed done n1 ∧ closed done n2.
Proof. unfold closed. setoid_rewrite elem_of_app. naive_solver. Qed.
Lemma closed_cons n ns : closed done (n :: ns) ↔ closed done [n] ∧ closed done ns.
Proof. apply (closed_app [n]). Qed.
Lemma edge_ready_app n1 n2 id :
  edge_ready done (n1 ++ n2) id ↔ edge_ready done n1 id ∨ edge_ready done n2 id.
Proof. unfold edge_ready. setoid_rewrite elem_of_app. naive_solver. Qed.
Lemma edge_ready_cons n ns id :
  edge_ready done (n :: ns) id ↔ edge_ready done [n] id ∨ edge_ready done ns id.
Proof. apply (edge_ready_app [n]). Qed.
Lemma edge_ready_one a ds id :
  edge_ready done [(a, ds)] id ↔ id = a ∧ a ∉ done ∧ all_done done ds.
Proof. unfold edge_ready. setoid_rewrite list_elem_of_singleton. naive_solver. Qed.
Lemma closed_one a ds : closed done [(a, ds)] ↔ (a ∈ done → all_done done ds).
Proof. unfold closed. setoid_rewrite list_elem_of_singleton. naive_solver. Qed.
Lemma all_done_one d : all_done done [d] ↔ d ∈ done.
Proof. unfold all_done. setoid_rewrite list_elem_of_singleton. naive_solver. Qed.

Lemma chain_blocked a l : a ∉ done → closed done (chain_nodes a l) → blocked (chain_nodes a l).
Proof.
  revert a. induction l as [|b l IH]; intros a Ha Hc; simpl; [by intros ? ? ?%elem_of_nil|].
  apply closed_cons in Hc as [Hb Hc]. rewrite closed_one, all_done_one in Hb.
  assert (b ∉ done) as Hnb by tauto.
  intros id ds [Heq|Hin]%elem_of_cons; [simplify_eq; by rewrite all_done_one|]. by eapply IH.
Qed.

Lemma chain_ready a l id :
  a ∈ done → closed done (chain_nodes a l) →
  id ∈ take 1 (undone done l) ↔ edge_ready done (chain_nodes a l) id.
Proof.
  revert a. induction l as [|b l IH]; intros a Ha Hc; simpl.
  - split; [by intros ?%elem_of_nil|]. by intros (ds & ?%elem_of_nil & _).
  - apply closed_cons in Hc as [_ Hc]. unfold undone. rewrite filter_cons, edge_ready_cons, edge_ready_one, all_done_one.
    case_decide as Hb.
    + simpl. rewrite list_elem_of_singleton. pose proof (blocked_ready _ id (chain_blocked b l Hb Hc)). naive_solver.
    + rewrite <-(IH b Hb Hc). unfold undone. naive_solver.
Qed.

Lemma leaf_ready_ids par prev idl id :
  all_done done prev → closed done (leaf_nodes_of par prev idl) →
  id ∈ (if par then undone done idl else take 1 (undone done idl)) ↔
  edge_ready done (leaf_nodes_of par prev idl) id.
Proof.
  intros Hp Hc. unfold leaf_nodes_of in *. destruct par.
  - unfold undone, edge_ready. rewrite list_elem_of_filter. setoid_rewrite list_elem_of_fmap. naive_solver.
  - destruct idl as [|a l]; [simpl; split; [by intros ?%elem_of_nil|by intros (ds & ?%elem_of_nil & _)]|].
    apply closed_cons in Hc as [_ Hc]. unfold undone. rewrite filter_cons, edge_ready_cons, edge_ready_one.
    case_decide as Ha.
    + simpl. rewrite list_elem_of_singleton.
      pose proof (blocked_ready _ id (chain_blocked a l Ha Hc)). naive_solver.
    + pose proof (chain_ready a l id Ha Hc). unfold undone in *. naive_solver.
Qed.

Lemma leaf_blocked par prev idl :
  ¬ all_done done prev → closed done (leaf_nodes_of par prev idl) → blocked (leaf_nodes_of par prev idl).
Proof.
  intros Hp Hc. unfold leaf_nodes_of in *. destruct par.
  - intros id ds Hin. assert (ds = prev) as -> by (apply list_elem_of_fmap in Hin; naive_solver).
    split; [|done]. intros Hid. by apply Hp, (Hc id prev).
  - destruct idl as [|a l]; [by intros ? ? ?%elem_of_nil|].
    apply closed_cons in Hc as [Ha Hc]. rewrite closed_one in Ha.
    assert (a ∉ done) as Hna by tauto.
    intros id ds [Heq|Hin]%elem_of_cons; [by simplify_eq|]. by eapply chain_blocked.
Qed.

(** The terminals of a closed leaf are done exactly when the leaf is. *)
Lemma chain_last_done a l d :
  closed done (chain_nodes a l) → last (a :: l) = Some d → d ∈ done → ∀ x, x ∈ a :: l → x ∈ done.
Proof.
  revert a. induction l as [|b l IH]; intros a Hc Hl Hd x Hx.
  - simpl in Hl. simplify_eq. by apply list_elem_of_singleton in Hx as ->.
  - apply closed_cons in Hc as [Hb Hc]. rewrite closed_one, all_done_one in Hb.
    assert (∀ x, x ∈ b :: l → x ∈ done) as Hall by by apply IH.
    apply elem_of_cons in Hx as [->|Hx]; [|by apply Hall]. apply Hb, Hall. by apply elem_of_cons; left.
Qed.

Lemma undone_nil idl : undone done idl = [] ↔ all_done done idl.
Proof.
  unfold undone, all_done. split.
  - intros Hn d Hd. destruct (decide (d ∈ done)) as [|Hnd]; [done|].
    assert (d ∈ filter (λ id, id ∉ done) idl) as Hin by by apply list_elem_of_filter.
    rewrite Hn in Hin. by apply elem_of_nil in Hin.
  - intros Hall. apply elem_of_nil_inv. intros x [Hn Hx]%list_elem_of_filter. auto.
Qed.

Lemma terminals_done par prev idl :
  idl ≠ [] → closed done (leaf_nodes_of par prev idl) →
  all_done done (terminals par idl) ↔ undone done idl = [].
Proof.
  intros Hne Hc. rewrite undone_nil. unfold terminals, leaf_nodes_of in *. destruct par; [done|].
  destruct idl as [|a l]; [done|]. destruct (last (a :: l)) as [d|] eqn:Hl.
  - rewrite all_done_one. apply closed_cons in Hc as [_ Hc]. split.
    + intros Hd x. by eapply chain_last_done.
    + intros Hall. apply Hall. by apply last_Some_elem_of.
  - by apply last_None in Hl.
Qed.

Lemma graph_blocked prev ls : ¬ all_done done prev → closed done (graph_nodes prev ls) → blocked (graph_nodes prev ls).
Proof.
  revert prev. induction ls as [|[par [|a l]] ls IH]; intros prev Hp Hc; simpl in *; [by intros ? ? ?%elem_of_nil|by apply IH|].
  apply closed_app in Hc as [Hc1 Hc2]. pose proof (leaf_blocked par prev (a :: l) Hp Hc1) as Hb1.
  assert (blocked (graph_nodes (terminals par (a :: l)) ls)) as Hb2.
  { apply IH; [|done]. rewrite (terminals_done par prev) by done. rewrite undone_nil. intros Hall.
    unfold leaf_nodes_of in Hb1. destruct par.
    - destruct (Hb1 a prev) as [Hn _]; [|by apply Hn, Hall, elem_of_cons; left].
      apply elem_of_cons. by left.
    - destruct (Hb1 a prev) as [Hn _]; [|by apply Hn, Hall, elem_of_cons; left].
      apply elem_of_cons. by left. }
  intros id ds [Hin|Hin]%elem_of_app; [by apply Hb1|by apply Hb2].
Qed.

(** Positional readiness and the edge walk agree on every closed done-set. *)
Lemma pick_ready prev ls id :
  all_done done prev → closed done (graph_nodes prev ls) →
  id ∈ pick done ls ↔ edge_ready done (graph_nodes prev ls) id.
Proof.
  revert prev. induction ls as [|[par idl] ls IH]; intros prev Hp Hc.
  - simpl. split; [by intros ?%elem_of_nil|by intros (ds & ?%elem_of_nil & _)].
  - destruct idl as [|a l]; [simpl in *; by apply IH|].
    set (idl := a :: l) in *. assert (idl ≠ []) as Hne by done.
    assert (graph_nodes prev ((par, idl) :: ls) = leaf_nodes_of par prev idl ++ graph_nodes (terminals par idl) ls)
      as Heq by done.
    rewrite Heq in Hc |- *. apply closed_app in Hc as [Hc1 Hc2]. rewrite edge_ready_app.
    pose proof (leaf_ready_ids par prev idl id Hp Hc1) as Hleaf.
    pose proof (terminals_done par prev idl Hne Hc1) as Hterm. cbn [pick].
    case_decide as Hu.
    + rewrite <-(IH (terminals par idl)) by (done || by apply Hterm). rewrite <-Hleaf, Hu.
      destruct par; simpl; rewrite elem_of_nil; naive_solver.
    + rewrite Hleaf. assert (¬ edge_ready done (graph_nodes (terminals par idl) ls) id); [|naive_solver].
      apply blocked_ready, graph_blocked; [|done]. by rewrite Hterm.
Qed.
End Agreement.

(** ** Positional readiness in ids *)

Definition leaf_ids (lf : Leaf) : list string := ID ∘ fst <$> walk_leaf lf.
Definition id_leaves (p : PlanDoc) : list IdLeaf :=
  (λ lf, (lf_parallel lf, leaf_ids lf)) <$> leaves (pl_groups p) [].

Lemma leaf_steps_length path steps : length (leaf_steps path steps) = length steps.
Proof.
  unfold leaf_steps. generalize 0%Z as i. induction steps as [|s steps IH]; intros i; [done|]. simpl. by rewrite IH.
Qed.

Lemma split_ids_concat (f : Leaf → list string) ls :
  (∀ lf, length (f lf) = length (lf_steps lf)) →
  split_ids (concat (f <$> ls)) ls = (λ lf, (lf_parallel lf, f lf)) <$> ls.
Proof.
  intros Hf. induction ls as [|lf ls IH]; [done|]. cbn [split_ids fmap list_fmap concat].
  rewrite <-(Hf lf), take_app_length, drop_app_length. by rewrite <-IH.
Qed.

Lemma leaf_count_concat (f : Leaf → list string) ls :
  (∀ lf, length (f lf) = length (lf_steps lf)) → length (concat (f <$> ls)) = leaf_count ls.
Proof.
  intros Hf. induction ls as [|lf ls IH]; [done|]. simpl. rewrite length_app, Hf. f_equal. exact IH.
Qed.

Lemma leaf_ids_length lf : length (leaf_ids lf) = length (lf_steps lf).
Proof. unfold leaf_ids, walk_leaf. by rewrite length_fmap, leaf_steps_length. Qed.

Lemma StepIDs_leaves p : StepIDs p = concat (leaf_ids <$> leaves (pl_groups p) []).
Proof.
  unfold StepIDs. rewrite walkGroups_leaves. induction (leaves (pl_groups p) []) as [|lf ls IH]; [done|].
  simpl. rewrite fmap_app. f_equal. exact IH.
Qed.

(** The graph an unannotated plan imports as. *)
Definition positional_nodes (p : PlanDoc) : list IdNode :=
  zip (StepIDs p) (documentOrderEdges p (StepIDs p)).

Lemma positional_nodes_graph p : positional_nodes p = graph_nodes [] (id_leaves p).
Proof.
  unfold positional_nodes. rewrite StepIDs_leaves, documentOrderEdges_spec;
    [|by apply leaf_count_concat, leaf_ids_length].
  rewrite split_ids_concat by apply leaf_ids_length. fold (id_leaves p). rewrite <-graph_nodes_zip. f_equal.
  unfold id_leaves. by rewrite <-list_fmap_compose.
Qed.

Lemma ready_of_ids done lf :
  ID ∘ fst <$> ready_of done lf =
  if lf_parallel lf then undone done (leaf_ids lf) else take 1 (undone done (leaf_ids lf)).
Proof.
  unfold ready_of, leaf_ids, walk_leaf, leaf_steps. destruct lf as [path par steps]; simpl.
  generalize 0%Z as j. induction steps as [|s steps IH]; intros j; [by destruct par|].
  cbn [leaf_ready over app]. rewrite fmap_cons. unfold undone at 1 2. rewrite !filter_cons. simpl.
  case_bool_decide as Hd.
  - rewrite !decide_False by tauto. apply IH.
  - rewrite !decide_True by done. destruct par; [|done]. rewrite fmap_cons. simpl. f_equal. apply IH.
Qed.

Lemma undone_leaf_done done lf : undone done (leaf_ids lf) = [] ↔ leaf_done done lf = true.
Proof.
  rewrite leaf_done_nil. pose proof (ready_of_ids done lf) as Hr. split; intros He.
  - rewrite He in Hr. apply (fmap_nil_inv (ID ∘ fst)). rewrite Hr. by destruct (lf_parallel lf).
  - rewrite He in Hr. destruct (lf_parallel lf), (undone done (leaf_ids lf)); done.
Qed.

Lemma first_leaf_pick done ls :
  match first_leaf done ls with Some r => ID <$> rd_refs r | None => [] end =
  pick done ((λ lf, (lf_parallel lf, leaf_ids lf)) <$> ls).
Proof.
  induction ls as [|lf ls IH]; [done|]. cbn [first_leaf fmap list_fmap pick].
  destruct (leaf_done done lf) eqn:Hd.
  - rewrite decide_True by by apply undone_leaf_done. exact IH.
  - rewrite decide_False by (rewrite undone_leaf_done; congruence).
    cbn [rd_refs]. rewrite <-list_fmap_compose. apply ready_of_ids.
Qed.

Lemma DecomposeRefs_pick p done : ID <$> (DecomposeRefs p done).1.2 = pick done (id_leaves p).
Proof.
  unfold DecomposeRefs, id_leaves. rewrite decomposeGroups_leaves, <-first_leaf_pick.
  by destruct (first_leaf done (leaves (pl_groups p) [])).
Qed.
