(* ===== verification/PlanProps.v ===== *)
(** * Properties of plans and of their import

    Step references, positional readiness, its agreement with the imported
    dependency edges, and the resolution of stored tasks back to plan steps. *)
From S2P Require Import Prelude GoLib PlanModel PlanFacts StoreModel StoreSql StoreTasks StoreGraph PlanImport PlanEdges StoreQueryProps.

(** ** A demonstration plan

    A sequential group of two steps, a parallel one of two below a subheading,
    and a last single step. *)
Definition demo_step (text : string) : Step := mkStep text "" false None.
Definition demo_plan : PlanDoc := mkPlanDoc
  [mkGroup "First" 1 false [demo_step "a"; demo_step "b"] [];
   mkGroup "Second" 1 false [] [mkGroup "Fan" 2 true [demo_step "c"; demo_step "d"] []];
   mkGroup "Last" 1 false [demo_step "e"] []].

(** step references. No two steps of a plan share an identifier, and the
    reference a walk hands out resolves back to that very step, in a leaf group. *)
Theorem step_refs_identify_steps p :
  NoDup (StepIDs p) ∧
  ∀ ref s, (ref, s) ∈ walkGroups (pl_groups p) [] →
    ID ref ∈ StepIDs p ∧ ∃ g, StepAt p ref = Ok (s, g) ∧ gr_subgroups g = [].
Proof.
  split.
  - unfold StepIDs. rewrite list_fmap_compose. apply (NoDup_fmap_2_strong ID).
    + intros x y _ _. apply ID_inj.
    + apply walkGroups_refs_nodup.
  - intros ref s Hin. split; [|by apply walkGroups_StepAt].
    unfold StepIDs. by apply (list_elem_of_fmap_2 (ID ∘ fst) _ (ref, s)).
Qed.

(** C6: document order as edges. On every done-set that contains nothing before
    what it waits for, the steps positional decomposition dispatches are exactly
    the steps the imported dependency edges make ready: not done, with every
    step they wait for done. *)
Theorem Decompose_is_the_edge_walk p done :
  closed done (positional_nodes p) →
  ∀ id, id ∈ ID <$> (DecomposeRefs p done).1.2 ↔ edge_ready done (positional_nodes p) id.
Proof.
  intros Hc id. rewrite DecomposeRefs_pick. rewrite positional_nodes_graph in *.
  apply pick_ready; [|done]. by intros d ?%elem_of_nil.
Qed.

Definition closedb (done : DoneSet) (nodes : list IdNode) : bool :=
  forallb (λ n, negb (bool_decide (n.1 ∈ done)) || forallb (λ d, bool_decide (d ∈ done)) n.2) nodes.

Lemma closedb_closed done nodes : closedb done nodes = true → closed done nodes.
Proof.
  unfold closedb. rewrite forallb_forall. intros Hall id ds Hin Hid d Hd.
  specialize (Hall (id, ds)). rewrite <-list_elem_of_In in Hall. specialize (Hall Hin). simpl in Hall.
  rewrite bool_decide_true in Hall by done. simpl in Hall. rewrite forallb_forall in Hall.
  specialize (Hall d). rewrite <-list_elem_of_In, bool_decide_eq_true in Hall. auto.
Qed.

Lemma Decompose_is_the_edge_walk_witness :
  "1.0.0" ∈ ID <$> (DecomposeRefs demo_plan {["0.0"; "0.1"]}).1.2 ↔
  edge_ready {["0.0"; "0.1"]} (positional_nodes demo_plan) "1.0.0".
Proof. apply Decompose_is_the_edge_walk, closedb_closed. vm_compute. reflexivity. Defined.

Lemma first_leaf_some done ls r :
  first_leaf done ls = Some r →
  ∃ lf, lf ∈ ls ∧ leaf_done done lf = false ∧ rd_refs r = fst <$> ready_of done lf ∧
        rd_steps r = snd <$> ready_of done lf ∧ rd_parallel r = lf_parallel lf.
Proof.
  induction ls as [|lf ls IH]; simpl; [done|]. destruct (leaf_done done lf) eqn:Hd.
  - intros (lf' & Hin & ?)%IH. exists lf'. split; [by apply elem_of_cons; right|done].
  - intros. simplify_eq. exists lf. split; [by apply elem_of_cons; left|done].
Qed.

Lemma first_leaf_none done ls : first_leaf done ls = None ↔ forallb (leaf_done done) ls = true.
Proof. induction ls as [|lf ls IH]; simpl; [done|]. by destruct (leaf_done done lf). Qed.

Lemma leaf_ready_walk par path done j steps x :
  x ∈ leaf_ready par path done j steps → x ∈ over (λ j s, [(mkRef path j, s)]) j steps ∧ ID x.1 ∉ done.
Proof.
  revert j. induction steps as [|s steps IH]; intros j; simpl; [by intros ?%elem_of_nil|].
  case_bool_decide as Hd.
  - intros [Hx Hn]%IH. split; [|done]. by apply elem_of_cons; right.
  - intros [->|Hx]%elem_of_cons; [by split; [apply elem_of_cons; left|]|]. destruct par; [|by apply elem_of_nil in Hx].
    apply IH in Hx as [Hx Hn]. split; [|done]. by apply elem_of_cons; right.
Qed.

Lemma StepIDs_done p done :
  forallb (leaf_done done) (leaves (pl_groups p) []) = true ↔ ∀ id, id ∈ StepIDs p → id ∈ done.
Proof.
  rewrite StepIDs_leaves. rewrite forallb_forall. setoid_rewrite <-list_elem_of_In.
  split.
  - intros Hall id Hid. apply list_elem_of_In, in_concat in Hid as (l & Hl & Hid).
    apply list_elem_of_In, list_elem_of_fmap in Hl as (lf & -> & Hlf). apply Hall, undone_leaf_done, undone_nil in Hlf.
    by apply Hlf, list_elem_of_In.
  - intros Hall lf Hlf. apply undone_leaf_done, undone_nil. intros d Hd. apply Hall.
    apply list_elem_of_In, in_concat. exists (leaf_ids lf). split; [|by apply list_elem_of_In].
    apply list_elem_of_In. by apply list_elem_of_fmap_2.
Qed.

Lemma DecomposeRefs_spec p done :
  let '(steps, refs, parallel) := DecomposeRefs p done in
  (refs = [] ↔ ∀ id, id ∈ StepIDs p → id ∈ done) ∧
  length steps = length refs ∧
  (∀ x, x ∈ zip refs steps → x ∈ walkGroups (pl_groups p) [] ∧ ID x.1 ∉ done) ∧
  (parallel = false → length refs ≤ 1).
Proof.
  unfold DecomposeRefs. rewrite decomposeGroups_leaves.
  destruct (first_leaf done (leaves (pl_groups p) [])) as [r|] eqn:Hf.
  - assert (¬ ∀ id, id ∈ StepIDs p → id ∈ done) as Hnot.
    { rewrite <-StepIDs_done, <-first_leaf_none. congruence. }
    apply first_leaf_some in Hf as (lf & Hlf & Hd & Hrefs & Hsteps & Hpar).
    assert (ready_of done lf ≠ []) as Hne by (intros He; apply leaf_done_nil in He; congruence).
    rewrite Hrefs, Hsteps, Hpar, !length_fmap. split_and!; [|done| |].
    + split; [|done]. by intros ?%fmap_nil_inv.
    + intros x Hx. rewrite zip_fst_snd in Hx.
      apply leaf_ready_walk in Hx as [Hx Hn]. split; [|done].
      rewrite walkGroups_leaves. apply list_elem_of_In, in_concat. exists (walk_leaf lf).
      split; apply list_elem_of_In; [by apply list_elem_of_fmap_2|done].
    + intros Hp. unfold ready_of. rewrite Hp. clear. generalize 0%Z as j.
      induction (lf_steps lf) as [|s l IH]; intros j; simpl; [lia|]. case_bool_decide; [apply IH|simpl; lia].
  - rewrite first_leaf_none, StepIDs_done in Hf. split_and!; [done|done|by intros x ?%elem_of_nil|simpl; lia].
Qed.

(** what decomposition returns. There is something to dispatch exactly while
    some step is not done; every step returned is a step of the plan that is not
    done, under its own reference; and a sequential wave is a single step. *)
Theorem DecomposeRefs_correct p done :
  let '(steps, refs, parallel) := DecomposeRefs p done in
  (refs = [] ↔ ∀ id, id ∈ StepIDs p → id ∈ done) ∧
  length steps = length refs ∧
  (∀ x, x ∈ zip refs steps → x ∈ walkGroups (pl_groups p) [] ∧ ID x.1 ∉ done) ∧
  (parallel = false → length refs ≤ 1).
Proof. exact (DecomposeRefs_spec p done). Qed.

(** Repeatedly marking every dispatched step done. *)
Fixpoint drain (p : PlanDoc) (rounds : nat) (done : DoneSet) : DoneSet :=
  match rounds with
  | 0 => done
  | S n => drain p n (list_to_set (ID <$> (DecomposeRefs p done).1.2) ∪ done)
  end.

Lemma drain_mono p n (done : DoneSet) : done ⊆ drain p n done.
Proof. revert done. induction n as [|n IH]; intros D; simpl; [easy|]. etrans; [|apply IH]. set_solver. Qed.

Lemma undone_shrinks (D D' : DoneSet) l x :
  D ⊆ D' → x ∈ D' → x ∉ D → x ∈ l → length (undone D' l) < length (undone D l).
Proof.
  intros Hsub Hd Hnd. unfold undone.
  assert (∀ l, length (filter (λ id, id ∉ D') l) ≤ length (filter (λ id, id ∉ D) l)) as Hmono.
  { intros k. induction k as [|a k IHk]; [done|]. rewrite !filter_cons. repeat case_decide; simpl; try lia. set_solver. }
  induction l as [|a l IHl]; intros Hx; [by apply elem_of_nil in Hx|].
  rewrite !filter_cons. specialize (Hmono l). apply elem_of_cons in Hx as [<-|Hx].
  - repeat case_decide; simpl; try done; lia.
  - specialize (IHl Hx). repeat case_decide; simpl; try lia. set_solver.
Qed.

(** C34: progress and termination. From any done-set, a dispatcher that completes
    what decomposition hands it finishes every step of the plan within as many
    rounds as the plan has unfinished steps. *)
Theorem Decompose_drains p done :
  ∀ id, id ∈ StepIDs p → id ∈ drain p (length (undone done (StepIDs p))) done.
Proof.
  remember (length (undone done (StepIDs p))) as n eqn:Hn.
  assert (length (undone done (StepIDs p)) ≤ n) as Hle by lia. clear Hn.
  revert done Hle. induction n as [|n IH]; intros D Hle id Hid; simpl.
  - assert (undone D (StepIDs p) = []) as Hu by (apply nil_length_inv; lia).
    by apply undone_nil in Hu; apply Hu.
  - pose proof (DecomposeRefs_spec p D) as Hc.
    destruct (DecomposeRefs p D) as [[steps refs] par]. simpl. destruct Hc as (Hnil & Hlen & Hw & _).
    destruct refs as [|r refs].
    + apply drain_mono. apply elem_of_union_r. by apply Hnil.
    + apply IH; [|done]. destruct steps as [|s steps]; [done|].
      destruct (Hw (r, s)) as [Hin Hnd]; [by apply elem_of_cons; left|]. simpl in Hnd.
      enough (length (undone (list_to_set (ID <$> r :: refs) ∪ D) (StepIDs p)) < length (undone D (StepIDs p))) by lia.
      apply (undone_shrinks _ _ _ (ID r)); [set_solver|set_solver|done|].
      by apply (list_elem_of_fmap_2 (ID ∘ fst) _ (r, s)).
Qed.

Lemma Decompose_drains_witness : "1.0.1" ∈ StepIDs demo_plan ∧ "1.0.1" ∈ drain demo_plan 5 ∅.
Proof.
  assert ("1.0.1" ∈ StepIDs demo_plan) as Hin by (vm_compute; set_solver).
  split; [exact Hin|]. exact (Decompose_drains demo_plan ∅ "1.0.1" Hin).
Defined.

(** ** Import *)

Lemma chain_in a l i ds d :
  chain a l !! i = Some ds → d ∈ ds → (a :: l) !! i = Some d.
Proof.
  revert a i. induction l as [|b l IH]; intros a [|i]; simpl; try done.
  - intros ? Hd. simplify_eq. by apply list_elem_of_singleton in Hd as ->.
  - apply IH.
Qed.

Lemma leaf_spec_in par prev idl i ds d :
  leaf_spec par prev idl !! i = Some ds → d ∈ ds →
  d ∈ prev ∨ ∃ j, j < i ∧ idl !! j = Some d.
Proof.
  unfold leaf_spec. destruct par.
  - intros [-> _]%lookup_replicate Hd. by left.
  - destruct idl as [|a l]; [done|]. destruct i as [|i]; simpl.
    + intros. simplify_eq. by left.
    + intros Hc Hd. right. exists i. split; [lia|]. by eapply chain_in.
Qed.

Lemma terminals_in par idl d : d ∈ terminals par idl → d ∈ idl.
Proof.
  unfold terminals. destruct par; [done|]. destruct (last idl) as [x|] eqn:Hl; [|by intros ?%elem_of_nil].
  intros ->%list_elem_of_singleton. by apply last_Some_elem_of.
Qed.

Lemma spec_edges_back ls pre prev i ds d :
  (∀ x, x ∈ prev → x ∈ pre) → spec_edges prev ls !! i = Some ds → d ∈ ds →
  ∃ j, j < length pre + i ∧ (pre ++ concat (snd <$> ls)) !! j = Some d.
Proof.
  revert pre prev i. induction ls as [|[par [|a l]] ls IH]; intros pre prev i Hp; [done|by apply IH|].
  set (idl := a :: l). assert (spec_edges prev ((par, idl) :: ls) =
    leaf_spec par prev idl ++ spec_edges (terminals par idl) ls) as -> by done.
  rewrite lookup_app_Some, leaf_spec_length. cbn [fmap list_fmap concat snd]. intros [Hi|[Hle Hi]] Hd.
  - pose proof (lookup_lt_Some _ _ _ Hi) as Hlt. rewrite leaf_spec_length in Hlt.
    destruct (leaf_spec_in _ _ _ _ _ _ Hi Hd) as [Hin|(j & Hj & Hjd)].
    + apply Hp, list_elem_of_lookup_1 in Hin as [j Hj]. exists j. pose proof (lookup_lt_Some _ _ _ Hj).
      split; [lia|]. by apply lookup_app_l_Some.
    + exists (length pre + j). split; [lia|]. rewrite lookup_app_r by lia.
      replace (length pre + j - length pre) with j by lia. by apply lookup_app_l_Some.
  - destruct (IH (pre ++ idl) (terminals par idl) (i - length idl)) as (j & Hj & Hjd); [|done|done|].
    + intros x Hx%terminals_in. apply elem_of_app. by right.
    + exists j. rewrite length_app in Hj. split; [lia|]. by rewrite <-app_assoc in Hjd.
Qed.

Lemma spec_edges_length prev ls : length (spec_edges prev ls) = length (concat (snd <$> ls)).
Proof.
  revert prev. induction ls as [|[par [|a l]] ls IH]; intros prev; [done|apply IH|].
  cbn [spec_edges fmap list_fmap concat snd]. by rewrite !length_app, leaf_spec_length, IH.
Qed.

Lemma split_ids_concat_all ids ls : length ids = leaf_count ls → concat (snd <$> split_ids ids ls) = ids.
Proof.
  revert ids. induction ls as [|lf ls IH]; intros ids Hlen; simpl in Hlen.
  - symmetry. by apply nil_length_inv.
  - cbn [split_ids fmap list_fmap concat snd]. etrans; [|apply (take_drop (length (lf_steps lf)))].
    f_equal. apply IH. rewrite length_drop. lia.
Qed.

Lemma nodes_leaves p :
  walk (pl_groups p) [] = (λ rs, mkNode rs.1 rs.2 (GroupID (mkRef (ref_group rs.1) 0))) <$> walkGroups (pl_groups p) [].
Proof.
  unfold walk, walkGroups. rewrite over_fmap. apply over_ext. intros i g _.
  generalize ([] ++ [i]) as path. clear i. induction g as [g IH] using Group_ind'. intros path.
  rewrite Forall_forall in IH. destruct g as [h lv par steps subs]; simpl in *. destruct subs as [|s0 subs].
  - unfold leaf_nodes, leaf_steps. rewrite over_fmap. apply over_ext. done.
  - rewrite over_fmap. apply over_ext. intros j a Ha. by apply IH.
Qed.

Lemma node_ids_length p : length (node_id <$> walk (pl_groups p) []) = leaf_count (leaves (pl_groups p) []).
Proof.
  rewrite length_fmap, nodes_leaves, length_fmap, <-(length_fmap (ID ∘ fst)).
  change (ID ∘ fst <$> walkGroups (pl_groups p) []) with (StepIDs p).
  rewrite StepIDs_leaves. apply leaf_count_concat, leaf_ids_length.
Qed.

(** document order never creates a cycle. The importer writes one edge list
    per step, in order, and every edge it derives from document order points to a
    step that comes strictly earlier in the document. *)
Theorem documentOrderEdges_point_backwards p ids :
  length ids = length (walk (pl_groups p) []) →
  length (documentOrderEdges p ids) = length ids ∧
  ∀ i ds d, documentOrderEdges p ids !! i = Some ds → d ∈ ds → ∃ j, j < i ∧ ids !! j = Some d.
Proof.
  intros Hlen. assert (length ids = leaf_count (leaves (pl_groups p) [])) as Hc.
  { by rewrite Hlen, <-node_ids_length, length_fmap. }
  rewrite documentOrderEdges_spec by done. split.
  - by rewrite spec_edges_length, split_ids_concat_all.
  - intros i ds d Hi Hd. destruct (spec_edges_back _ [] [] i ds d ltac:(done) Hi Hd) as (j & Hj & Hjd).
    exists j. split; [done|]. simpl in Hjd. by rewrite split_ids_concat_all in Hjd.
Qed.

Lemma documentOrderEdges_point_backwards_witness :
  ∃ j, j < 3 ∧ StepIDs demo_plan !! j = Some "0.1".
Proof.
  apply (proj2 (documentOrderEdges_point_backwards demo_plan (StepIDs demo_plan) ltac:(vm_compute; reflexivity))
           3 ["0.1"]); [vm_compute; reflexivity|by apply elem_of_cons; left].
Defined.

Lemma check_ids_none seen ids : check_ids seen ids = None ↔ NoDup ids ∧ ∀ x, x ∈ ids → x ∉ seen.
Proof.
  revert seen. induction ids as [|id ids IH]; intros seen; simpl.
  - split; [|done]. split; [constructor|]. by intros x ?%elem_of_nil.
  - destruct (list_find (λ x, x = id) seen) as [[prev y]|] eqn:Hf.
    + split; [done|]. intros [_ Hn]. apply list_find_Some in Hf as (Hl & -> & _).
      destruct (Hn id); [by apply elem_of_cons; left|]. by eapply list_elem_of_lookup_2.
    + apply list_find_None in Hf. rewrite Forall_forall in Hf. rewrite IH, NoDup_cons.
      setoid_rewrite elem_of_app. setoid_rewrite elem_of_cons. setoid_rewrite elem_of_nil. split.
      * intros [Hnd Hs]. split_and!; [|done|].
        -- intros Hin. destruct (Hs id Hin). auto.
        -- intros x [->|Hx]; [|by intros ?; destruct (Hs x Hx); auto]. intros Hx. by apply (Hf id).
      * intros [[Hn Hnd] Hs]. split; [done|]. intros x Hx [Hin|[->|[]]]; [|done]. by apply (Hs x); [right|].
Qed.

Lemma build_specs_ok `{PlanCodec} ids nodes order specs :
  build_specs ids nodes order = Ok specs → length order = length nodes →
  specs = zip_with (λ n deps,
            node_spec n (if (DependsOn (st_metadata (nd_step n))).2
                         then (DependsOn (st_metadata (nd_step n))).1 else deps)) nodes order ∧
  ∀ n, n ∈ nodes → (DependsOn (st_metadata (nd_step n))).2 = true →
    ∀ d, d ∈ (DependsOn (st_metadata (nd_step n))).1 → d ∈ ids.
Proof.
  revert order specs. induction nodes as [|n nodes IH]; intros order specs Hb Hlen; simpl in Hb.
  - simplify_eq. split; [done|]. by intros n ?%elem_of_nil.
  - destruct order as [|deps order]; [done|].
    destruct (DependsOn (st_metadata (nd_step n))) as [explicit stated] eqn:Hd.
    destruct (if stated then check_after ids (node_id n) explicit else None) eqn:Hcheck; [done|].
    destruct (build_specs ids nodes order) as [rest|] eqn:Hr; [|done]. simpl in Hb. simplify_eq.
    destruct (IH order rest Hr ltac:(simpl in Hlen; lia)) as [-> Hrest]. split.
    + cbn [zip_with]. by rewrite Hd.
    + intros n' [->|Hn]%elem_of_cons; [|by apply Hrest]. rewrite Hd. simpl. intros -> d Hin.
      unfold check_after in Hcheck. destruct (list_find (λ d, d ∉ ids) explicit) as [[j y]|] eqn:Hf; [done|].
      apply list_find_None in Hf. rewrite Forall_forall in Hf. specialize (Hf d Hin). by apply dec_stable.
Qed.

Lemma zip_specs_ids `{PlanCodec} (f : Node → list string → list string) nodes order :
  length order = length nodes →
  (λ g, o_id (g_task g)) <$> zip_with (λ n deps, node_spec n (f n deps)) nodes order = node_id <$> nodes.
Proof.
  revert order. induction nodes as [|n nodes IH]; intros [|d order] Hlen; try done.
  cbn [zip_with fmap list_fmap]. f_equal. apply IH. simpl in Hlen. lia.
Qed.

(** what an import builds. When [graphSpecs] accepts a plan, the specs are
    its steps in document order under pairwise distinct ids, each carrying its
    own text, approval flag and reservations; a step that states [after] has
    exactly those edges, every other has the document-order ones; and every edge
    names a task of the plan. *)
Theorem graphSpecs_builds_the_graph `{PlanCodec} p specs :
  graphSpecs p = Ok specs →
  let nodes := walk (pl_groups p) [] in
  let ids := node_id <$> nodes in
  nodes ≠ [] ∧ NoDup ids ∧ (λ g, o_id (g_task g)) <$> specs = ids ∧
  (∀ i n g, nodes !! i = Some n → specs !! i = Some g →
     o_description (g_task g) = st_text (nd_step n) ∧
     o_requires_approval (g_task g) = st_requires_approval (nd_step n) ∧
     (g_inputs g, g_outputs g) = declaredReservations (nd_step n) ∧
     (let '(explicit, stated) := DependsOn (st_metadata (nd_step n)) in
      if stated then g_depends_on g = explicit
      else documentOrderEdges p ids !! i = Some (g_depends_on g))) ∧
  (∀ g d, g ∈ specs → d ∈ g_depends_on g → d ∈ ids).
Proof.
  intros Hg nodes ids. unfold graphSpecs in Hg. fold nodes in Hg.
  assert (nodes ≠ []) as Hne by (intros He; by rewrite He in Hg).
  assert (match check_ids [] ids with Some e => Err e | None => build_specs ids nodes (documentOrderEdges p ids) end = Ok specs)
    as Hb by (destruct nodes; [done|exact Hg]). clear Hg.
  destruct (check_ids [] ids) eqn:Hids; [done|]. apply check_ids_none in Hids as [Hnd _].
  destruct (documentOrderEdges_point_backwards p ids) as [Hlen Hback]; [by unfold ids; rewrite length_fmap|].
  unfold ids in Hlen at 2. rewrite length_fmap in Hlen.
  destruct (build_specs_ok _ _ _ _ Hb Hlen) as [-> Hafter].
  split_and!; [done|done| | |].
  - by apply zip_specs_ids.
  - intros i n g Hn (n' & deps & -> & Hn' & Hdeps)%lookup_zip_with_Some. simplify_eq.
    simpl. split_and!; [done|done|by destruct (declaredReservations (nd_step n))|].
    destruct (DependsOn (st_metadata (nd_step n))) as [explicit stated]. simpl. by destruct stated.
  - intros g d Hin Hd. apply list_elem_of_lookup_1 in Hin as [i Hi].
    apply lookup_zip_with_Some in Hi as (n & deps & -> & Hn & Hdeps). simpl in Hd.
    destruct ((DependsOn (st_metadata (nd_step n))).2) eqn:Hs.
    + eapply Hafter; [by eapply list_elem_of_lookup_2|done|done].
    + destruct (Hback i deps d Hdeps Hd) as (j & _ & Hj). by eapply list_elem_of_lookup_2.
Qed.

Definition demo_specs : list GraphTaskSpec :=
  match graphSpecs (H:=toy_codec) demo_plan with Ok specs => specs | Err _ => [] end.

Lemma graphSpecs_builds_the_graph_witness :
  NoDup (node_id <$> walk (pl_groups demo_plan) []).
Proof.
  assert (graphSpecs (H:=toy_codec) demo_plan = Ok demo_specs) as Hg by (vm_compute; reflexivity).
  exact (proj1 (proj2 (graphSpecs_builds_the_graph (H:=toy_codec) demo_plan demo_specs Hg))).
Defined.

(** ** Dispatch *)

Lemma index_fold nodes (m : gmap string (StepRef * Step)) id ref step :
  foldl (λ m n, <[node_id n := (nd_ref n, nd_step n)]> m) m nodes !! id = Some (ref, step) →
  m !! id = Some (ref, step) ∨ ∃ n, n ∈ nodes ∧ node_id n = id ∧ nd_ref n = ref ∧ nd_step n = step.
Proof.
  revert m. induction nodes as [|n nodes IH]; intros m Hl; simpl in Hl; [by left|].
  destruct (IH _ Hl) as [Hm|(n' & Hn & ?)].
  - rewrite lookup_insert in Hm. case_decide as Hid; [|by left]. simplify_eq. right. exists n.
    split; [by apply elem_of_cons; left|done].
  - right. exists n'. split; [by apply elem_of_cons; right|done].
Qed.

Lemma index_some nodes (m : gmap string (StepRef * Step)) id :
  is_Some (m !! id) ∨ id ∈ node_id <$> nodes →
  is_Some (foldl (λ m n, <[node_id n := (nd_ref n, nd_step n)]> m) m nodes !! id).
Proof.
  revert m. induction nodes as [|n nodes IH]; intros m [Hm|Hin]; simpl; [done|by apply elem_of_nil in Hin|..].
  - apply IH. left. rewrite lookup_insert. case_decide; eauto.
  - apply IH. apply elem_of_cons in Hin as [->|Hin]; [left|by right]. rewrite lookup_insert_eq. eauto.
Qed.

Lemma locate_ok index rows :
  (∀ r, r ∈ rows → is_Some (index !! r.1.2)) →
  ∃ located, locate index rows = Ok located ∧ length located = length rows ∧
    ∀ i r l, rows !! i = Some r → located !! i = Some l → index !! r.1.2 = Some l.
Proof.
  induction rows as [|r rows IH]; intros Hr; simpl.
  - exists []. done.
  - destruct (Hr r) as [l Hl]; [by apply elem_of_cons; left|]. rewrite Hl.
    destruct IH as (located & -> & Hlen & Hall); [intros r' ?; apply Hr; by apply elem_of_cons; right|].
    simpl. exists (l :: located). split_and!; [done|simpl; lia|].
    intros [|i] r' l' Hr' Hl'; simplify_eq/=; [done|]. by eapply Hall.
Qed.

(** dispatch finds the instructions of every ready task. When every task of
    the plan was imported from the parsed source, loading the wave succeeds: it
    has one group per ready partition, with the partition's tasks in order, and
    each task comes with a step of the plan imported under that task's id, at a
    reference that resolves to the same step. *)
Theorem wave_resolves_every_task `{SqlEngine} `{BindingCodec} parsed planID s :
  (∀ i t, db_tasks s !! (planID, i) = Some t → i ∈ node_id <$> walk (pl_groups parsed) []) →
  ∃ groups, wave_groups parsed (ReadyPartitions planID s) = Ok groups ∧
    wg_tasks <$> groups = rp_tasks <$> ReadyPartitions planID s ∧
    ∀ g i task ref step, g ∈ groups → wg_tasks g !! i = Some task →
      wg_refs g !! i = Some ref → wg_steps g !! i = Some step →
      stepTaskID ref step = task.1.2 ∧ ∃ grp, StepAt parsed ref = Ok (step, grp).
Proof.
  intros Hids.
  assert (∀ part r, part ∈ ReadyPartitions planID s → r ∈ rp_tasks part →
    is_Some (indexPlanSteps parsed !! r.1.2)) as Hsome.
  { intros part [[q i] t] Hp Hr. apply index_some. right.
    destruct (ready_partition_rows planID s part _ Hp Hr) as [Hq Ht]. simpl in *. subst q. by eapply Hids. }
  assert (∀ id ref step, indexPlanSteps parsed !! id = Some (ref, step) →
    stepTaskID ref step = id ∧ ∃ grp, StepAt parsed ref = Ok (step, grp)) as Hindex.
  { intros id ref step Hl. unfold indexPlanSteps in Hl.
    apply index_fold in Hl as [?|(n & Hn & <- & <- & <-)]; [by rewrite lookup_empty in *|].
    split; [done|]. rewrite nodes_leaves in Hn. apply list_elem_of_fmap in Hn as ([r st] & -> & Hn).
    simpl. destruct (walkGroups_StepAt _ _ _ Hn) as (grp & ? & _). eauto. }
  revert Hsome. generalize (ReadyPartitions planID s) as parts.
  induction parts as [|part parts IH]; intros Hsome; simpl.
  - exists []. split_and!; [done|done|]. by intros ????? ?%elem_of_nil.
  - destruct (locate_ok (indexPlanSteps parsed) (rp_tasks part)) as (located & Hloc & Hlen & Hall).
    { intros r Hr. eapply Hsome; [by apply elem_of_cons; left|done]. }
    unfold wave_group. rewrite Hloc. simpl.
    destruct IH as (groups & -> & Htasks & Hgroups).
    { intros p r Hp. apply Hsome. by apply elem_of_cons; right. }
    simpl. eexists. split_and!; [done|by rewrite fmap_cons, Htasks|].
    intros g i task ref step [->|Hg]%elem_of_cons Ht Hr Hs; [|by eapply Hgroups].
    cbn [wg_tasks wg_refs wg_steps] in Ht, Hr, Hs.
    rewrite list_lookup_fmap in Hr. rewrite list_lookup_fmap in Hs. destruct (located !! i) as [[r st]|] eqn:Hl; simplify_eq/=.
    eapply Hindex. by eapply Hall.
Qed.

Definition demo_imported : DB :=
  (CreatePlanGraph (H:=merge_engine) "r" (StoreProps.demo_opts) demo_specs true StoreProps.demo_db).2.

Lemma wave_resolves_every_task_witness :
  ∃ groups, wave_groups demo_plan (@ReadyPartitions merge_engine toy_binding_codec "r" demo_imported) = Ok groups ∧
    wg_tasks <$> groups = rp_tasks <$> @ReadyPartitions merge_engine toy_binding_codec "r" demo_imported.
Proof.
  destruct (@wave_resolves_every_task merge_engine toy_binding_codec demo_plan "r" demo_imported)
    as (groups & H1 & H2 & _); [|exact (ex_intro _ groups (conj H1 H2))].
  intros i t Hk.
  assert (forallb (λ kt, negb (bool_decide (kt.1.1 = "r")) ||
            bool_decide (kt.1.2 ∈ node_id <$> walk (pl_groups demo_plan) [])) (map_to_list (db_tasks demo_imported)) = true)
    as Hall by (vm_compute; reflexivity).
  rewrite forallb_forall in Hall. specialize (Hall (("r", i), t)).
  rewrite <-list_elem_of_In, elem_of_map_to_list in Hall. specialize (Hall Hk). simpl in Hall.
  by apply bool_decide_eq_true in Hall.
Defined.
