(* ===== verification/PlanParse.v ===== *)
(** * Plan markdown: [internal/plan/parse.go], [metadata.go], [meta.go]

    goldmark turns the source into a chain of sibling blocks; what the code reads
    of them is [Block] and [Item]. The parse of that chain, the step markers and
    the metadata checks are the program's own. [encoding/json] is the interface
    [Json]. *)
From S2P Require Import Prelude GoLib PlanModel.

(** ** Blocks *)

(** A list item: the line segments of each child that carries them (paragraphs
    and text blocks), and the contents of its [ralph-task] fenced blocks. *)
Record Item := mkItem { it_lines : list (list string); it_blocks : list string }.

Record HeadingNode := mkHeading {
  h_level : Z;
  h_text : string;              (** [Lines().Value(source)] *)
  h_start : option Z;           (** [Lines().At(0).Start], when there are lines *)
  h_pos : Z }.

Inductive Block :=
| BHeading (h : HeadingNode)
| BList (ordered : bool) (items : list Item)
| BParagraph (text : string)    (** [Lines().Value(source)] *)
| BOther.

(** ** JSON *)

Inductive Token := TDelim (c : Ascii.ascii) | TString (s : string) | TScalar.

(** How a token stream ends: at the end of the input, or at malformed text. *)
Inductive StreamEnd := EndEOF | EndError (what : string).

Inductive Trailing := TrailingEOF | TrailingValue | TrailingError (what : string).

Class Json := {
  json_tokens : string → list Token * StreamEnd;      (** [Decoder.Token], repeated *)
  json_decode : string → result string TaskMetadata;  (** strict [Decode] of the first value *)
  json_trailing : string → Trailing;                  (** a second [Decode] *)
  json_fields : string → result string (list (string * string))  (** [map[string]json.RawMessage] *)
}.

Inductive MetaError :=
| ErrManyBlocks (n : nat)
| ErrScan (what : string)
| ErrKeyNotString
| ErrDuplicateKey (key : string)
| ErrDecode (what : string)
| ErrTrailing (what : string)
| ErrMultipleValues
| ErrNullField (field : string)
| ErrNullBindingField (field : string)
| ErrBindingNotObject
| ErrMissingID
| ErrPadded (field value : string).

(** ** Duplicate keys

    [checkJSONValue] on the stream: the remaining tokens, or an error. [fuel]
    bounds the tokens consumed. *)
Definition lbrace : Ascii.ascii := "{"%char.
Definition rbrace : Ascii.ascii := "}"%char.
Definition lbracket : Ascii.ascii := "["%char.
Definition rbracket : Ascii.ascii := "]"%char.

Definition end_error (e : StreamEnd) : MetaError :=
  match e with EndEOF => ErrScan "EOF" | EndError w => ErrScan w end.

(** [decoder.More()]. *)
Definition more (ts : list Token) (e : StreamEnd) : bool :=
  match ts with
  | TDelim c :: _ => negb (bool_decide (c = rbracket) || bool_decide (c = rbrace))
  | _ :: _ => true
  | [] => match e with EndEOF => false | EndError _ => true end
  end.

Fixpoint checkJSONValue (fuel : nat) (e : StreamEnd) (ts : list Token) : option (result MetaError (list Token)) :=
  match fuel with
  | 0 => None
  | S n =>
      match ts with
      | [] => match e with EndEOF => Some (Ok []) | EndError w => Some (Err (ErrScan w)) end
      | TDelim c :: ts' =>
          if decide (c = lbrace) then checkJSONObject n e [] ts'
          else if decide (c = lbracket) then checkJSONArray n e ts'
          else Some (Ok ts')
      | _ :: ts' => Some (Ok ts')
      end
  end
with checkJSONObject (fuel : nat) (e : StreamEnd) (seen : list string) (ts : list Token)
    : option (result MetaError (list Token)) :=
  match fuel with
  | 0 => None
  | S n =>
      match ts with
      | [] => Some (Err (end_error e))
      | TDelim c :: ts' => if decide (c = rbrace) then Some (Ok ts') else Some (Err ErrKeyNotString)
      | TScalar :: _ => Some (Err ErrKeyNotString)
      | TString key :: ts' =>
          if decide (key ∈ seen) then Some (Err (ErrDuplicateKey key))
          else match checkJSONValue n e ts' with
               | Some (Ok ts'') => checkJSONObject n e (key :: seen) ts''
               | r => r
               end
      end
  end
with checkJSONArray (fuel : nat) (e : StreamEnd) (ts : list Token) : option (result MetaError (list Token)) :=
  match fuel with
  | 0 => None
  | S n =>
      if more ts e then
        match checkJSONValue n e ts with
        | Some (Ok ts') => checkJSONArray n e ts'
        | r => r
        end
      else match ts with
           | [] => Some (Err (end_error e))
           | _ :: ts' => Some (Ok ts')
           end
  end.

Section Metadata.
Context `{Json}.

(** Every call but the last consumes a token, and each token costs two calls
    at most. *)
Definition json_fuel (ts : list Token) : nat := S (S (2 * length ts)).

Definition rejectDuplicateKeys (raw : string) : option MetaError :=
  let '(ts, e) := json_tokens raw in
  match checkJSONValue (json_fuel ts) e ts with
  | Some (Err err) => Some err
  | Some (Ok _) => None
  | None => Some (ErrScan "fuel")
  end.

Definition ensureJSONEOF (raw : string) : option MetaError :=
  match json_trailing raw with
  | TrailingEOF => None
  | TrailingValue => Some ErrMultipleValues
  | TrailingError w => Some (ErrTrailing w)
  end.

Definition null_field (fields : list (string * string)) : option string :=
  fst <$> head (filter (λ kv, kv.2 = "null") fields).

Definition rejectNullMetadataFields (raw : string) : option MetaError :=
  match json_fields raw with
  | Err w => Some (ErrDecode w)
  | Ok fields =>
      match null_field fields with
      | Some f => Some (ErrNullField f)
      | None =>
          match head (filter (λ kv, kv.1 = "binding") fields) with
          | None => None
          | Some (_, binding) =>
              match json_fields binding with
              | Err _ => Some ErrBindingNotObject
              | Ok bindingFields =>
                  match null_field bindingFields with
                  | Some f => Some (ErrNullBindingField f)
                  | None => None
                  end
              end
          end
      end
  end.

Definition check_padding (field value : string) : option MetaError :=
  if decide (value = TrimSpace value) then None else Some (ErrPadded field value).

Fixpoint check_all (field : string) (values : list string) : option MetaError :=
  match values with
  | [] => None
  | v :: vs => match check_padding field v with Some e => Some e | None => check_all field vs end
  end.

Definition rejectPaddedTaskIDs (m : TaskMetadata) : option MetaError :=
  match check_padding "id" (md_id m) with
  | Some e => Some e
  | None =>
      match check_all "differentFrom" (md_different_from m) with
      | Some e => Some e
      | None => match md_after m with Some deps => check_all "after" deps | None => None end
      end
  end.

Definition parseTaskMetadataBlock (item : Item) : result MetaError (option TaskMetadata) :=
  match it_blocks item with
  | [] => Ok None
  | [raw] =>
      match rejectDuplicateKeys raw with
      | Some e => Err e
      | None =>
          match json_decode raw with
          | Err w => Err (ErrDecode w)
          | Ok metadata =>
              match ensureJSONEOF raw with
              | Some e => Err e
              | None =>
                  match rejectNullMetadataFields raw with
                  | Some e => Err e
                  | None =>
                      if decide (md_id metadata = "") then Err ErrMissingID
                      else match rejectPaddedTaskIDs metadata with
                           | Some e => Err e
                           | None => Ok (Some metadata)
                           end
                  end
              end
          end
      end
  | bs => Err (ErrManyBlocks (length bs))
  end.

(** ** Steps *)

Definition approvalMarker : string := "[approval]".

(** [strings.EqualFold] against an ASCII text whose letters have no other
    Unicode fold: equality up to ASCII case. *)
Definition lower (c : Ascii.ascii) : Ascii.ascii :=
  let n := Ascii.nat_of_ascii c in
  if (65 <=? n) && (n <=? 90) then Ascii.ascii_of_nat (n + 32) else c.
Definition EqualFold (s t : string) : bool := bool_decide (lower <$> chars s = lower <$> chars t).

Definition parseStepMarkers (text : string) : string * bool :=
  let trimmed := chars (TrimSpace text) in
  let n := length trimmed in
  let k := length (chars approvalMarker) in
  if (k <=? n) && EqualFold (of_chars (drop (n - k) trimmed)) approvalMarker
  then (TrimSpace (of_chars (take (n - k) trimmed)), true)
  else (of_chars trimmed, false).

Definition headingText (h : HeadingNode) : string := TrimSpace (h_text h).

(** The non-blank trimmed lines, joined by one space. *)
Definition listItemText (item : Item) : string :=
  Join " " (filter (λ t, t ≠ "") (TrimSpace <$> concat (it_lines item))).

Definition step_of_item (item : Item) : result MetaError Step :=
  let '(text, requiresApproval) := parseStepMarkers (listItemText item) in
  try metadata := parseTaskMetadataBlock item in
  Ok (mkStep text "" requiresApproval metadata).

Fixpoint steps_of_items (items : list Item) : result MetaError (list Step) :=
  match items with
  | [] => Ok []
  | i :: items' =>
      try s := step_of_item i in
      try rest := steps_of_items items' in
      Ok (s :: rest)
  end.

(** The loop of [parseLeafSection] over the section's blocks: steps, details,
    and whether the first list was unordered. *)
Fixpoint leaf_scan (body : list Block) (sawList : bool) : result MetaError (list Step * list string * bool) :=
  match body with
  | [] => Ok ([], [], false)
  | BList ordered items :: body' =>
      try steps := steps_of_items items in
      try rest := leaf_scan body' true in
      let '(steps', details, parallel) := rest in
      Ok (steps ++ steps', details, if sawList then parallel else negb ordered)
  | BParagraph text :: body' =>
      try rest := leaf_scan body' sawList in
      let '(steps', details, parallel) := rest in
      let t := TrimSpace text in
      Ok (steps', if decide (t = "") then details else t :: details, parallel)
  | _ :: body' => leaf_scan body' sawList
  end.

Definition blank_line : string := String "010"%char (String "010"%char "").
Definition with_detail (detail : string) (s : Step) : Step :=
  mkStep (st_text s) detail (st_requires_approval s) (st_metadata s).

Definition parseLeafSection (body : list Block) : result MetaError (list Step * bool) :=
  try scan := leaf_scan body false in
  let '(steps, details, parallel) := scan in
  Ok (match details with [] => steps | _ => with_detail (Join blank_line details) <$> steps end, parallel).

(** ** Sections *)

Definition is_heading (b : Block) : bool := match b with BHeading _ => true | _ => false end.

(** [findSectionEnd]: the section's body, and the chain from its end on. *)
Fixpoint section (level : Z) (rest : list Block) : list Block * list Block :=
  match rest with
  | [] => ([], [])
  | b :: rest' =>
      if match b with BHeading h => (h_level h <=? level)%Z | _ => false end then ([], rest)
      else let '(body, stop) := section level rest' in (b :: body, stop)
  end.

(** [None]: out of fuel. *)
Fixpoint parseSiblingHeadings (fuel : nat) (chain : list Block) (parentLevel : Z)
    : option (result MetaError (list Group)) :=
  match fuel with
  | 0 => None
  | S n =>
      match chain with
      | [] => Some (Ok [])
      | BHeading h :: rest =>
          if (h_level h <=? parentLevel)%Z then Some (Ok [])
          else
            let '(body, stop) := section (h_level h) rest in
            match buildGroup n h body rest with
            | Some (Ok g) =>
                match parseSiblingHeadings n stop parentLevel with
                | Some (Ok gs) => Some (Ok (g :: gs))
                | r => r
                end
            | Some (Err e) => Some (Err e)
            | None => None
            end
      | _ :: rest => parseSiblingHeadings n rest parentLevel
      end
  end
with buildGroup (fuel : nat) (h : HeadingNode) (body rest : list Block) : option (result MetaError Group) :=
  match fuel with
  | 0 => None
  | S n =>
      if existsb is_heading body then
        match parseSiblingHeadings n rest (h_level h) with
        | Some (Ok subs) => Some (Ok (mkGroup (headingText h) (h_level h) false [] subs))
        | Some (Err e) => Some (Err e)
        | None => None
        end
      else
        match parseLeafSection body with
        | Ok (steps, parallel) => Some (Ok (mkGroup (headingText h) (h_level h) parallel steps []))
        | Err e => Some (Err e)
        end
  end.

Definition parse_fuel (chain : list Block) : nat := S (2 * length chain).
End Metadata.

(** goldmark: the top-level blocks of a document. *)
Class Markdown := { blocks_of : string → list Block }.

(** [normalizeSource]: the source ends with a newline. *)
Definition newline : Ascii.ascii := "010"%char.
Definition normalizeSource (md : string) : string :=
  match last (chars md) with
  | Some c => if decide (c = newline) then md else md +:+ char_str newline
  | None => char_str newline
  end.

Definition Parse `{Json} `{Markdown} (md : string) : option (result MetaError PlanDoc) :=
  let chain := blocks_of (normalizeSource md) in
  match parseSiblingHeadings (parse_fuel chain) chain 0 with
  | Some (Ok groups) => Some (Ok (mkPlanDoc groups))
  | Some (Err e) => Some (Err e)
  | None => None
  end.

(** ** Slugs *)

Definition alnum (c : Ascii.ascii) : bool :=
  let n := Ascii.nat_of_ascii c in
  ((97 <=? n) && (n <=? 122)) || ((48 <=? n) && (n <=? 57)).

(** The loop of [Slug] on the runes of the lower-cased title, a rune outside
    ASCII being any other byte here. *)
Fixpoint slug_loop (prevHyphen : bool) (l : list Ascii.ascii) : list Ascii.ascii :=
  match l with
  | [] => []
  | c :: l' =>
      if alnum c then c :: slug_loop false l'
      else if prevHyphen then slug_loop true l'
      else "-"%char :: slug_loop true l'
  end.

Fixpoint drop_hyphens (l : list Ascii.ascii) : list Ascii.ascii :=
  match l with
  | c :: l' => if decide (c = "-"%char) then drop_hyphens l' else l
  | [] => []
  end.

(** [strings.Trim(s, "-")]. *)
Definition trim_hyphens (l : list Ascii.ascii) : list Ascii.ascii :=
  rev (drop_hyphens (rev (drop_hyphens l))).

(** [Slug] of a title that is already lower case. *)
Definition Slug (lowered : string) : string :=
  match trim_hyphens (slug_loop false (chars lowered)) with
  | [] => "plan"
  | l => of_chars l
  end.
