(* ===== verification/PlanParseProps.v ===== *)
(** * Properties of the plan parser

    The duplicate-key scan against the tree its tokens spell, totality and
    well-formedness of the parse, and the round trip of every parsed plan
    through its layout in blocks. *)
From S2P Require Import Prelude GoLib PlanModel PlanParse.

(** ** Duplicate keys *)

(** A JSON value, as far as its tokens tell. *)
Inductive JValue :=
| JScalar (t : option string)
| JObject (fields : list (string * JValue))
| JArray (values : list JValue).

(** The tokens [encoding/json] delivers for a value. *)
Fixpoint tokens_of (v : JValue) : list Token :=
  match v with
  | JScalar None => [TScalar]
  | JScalar (Some s) => [TString s]
  | JObject fields => TDelim lbrace :: concat ((λ kv, TString kv.1 :: tokens_of kv.2) <$> fields) ++ [TDelim rbrace]
  | JArray values => TDelim lbracket :: concat (tokens_of <$> values) ++ [TDelim rbracket]
  end.

Definition field_tokens (fields : list (string * JValue)) : list Token :=
  concat ((λ kv, TString kv.1 :: tokens_of kv.2) <$> fields).

(** No object of the tree, at any depth, repeats a key. *)
Fixpoint unique_keys (v : JValue) : bool :=
  match v with
  | JScalar _ => true
  | JObject fields => bool_decide (NoDup (fst <$> fields)) && forallb (λ kv, unique_keys kv.2) fields
  | JArray values => forallb unique_keys values
  end.

Section JValueInduction.
Context (P : JValue → Prop)
  (Hscalar : ∀ t, P (JScalar t))
  (Hobject : ∀ fields, Forall (λ kv, P kv.2) fields → P (JObject fields))
  (Harray : ∀ values, Forall P values → P (JArray values)).

Fixpoint JValue_ind' (v : JValue) : P v :=
  match v with
  | JScalar t => Hscalar t
  | JObject fields =>
      Hobject fields ((fix go l : Forall (λ kv, P kv.2) l :=
        match l with [] => Forall_nil_2 _ | kv :: l' => Forall_cons_2 _ _ _ (JValue_ind' kv.2) (go l') end) fields)
  | JArray values =>
      Harray values ((fix go l : Forall P l :=
        match l with [] => Forall_nil_2 _ | x :: l' => Forall_cons_2 _ _ _ (JValue_ind' x) (go l') end) values)
  end.
End JValueInduction.

(** The scan of a value whose tokens stand in front of [rest]: the rest when
    its keys are unique, a repeated key otherwise. *)
Definition scans (v : JValue) : Prop :=
  ∀ e rest fuel, 2 * length (tokens_of v) ≤ fuel →
    if unique_keys v then checkJSONValue fuel e (tokens_of v ++ rest) = Some (Ok rest)
    else ∃ k, checkJSONValue fuel e (tokens_of v ++ rest) = Some (Err (ErrDuplicateKey k)).

Lemma tokens_of_more v e rest : more (tokens_of v ++ rest) e = true.
Proof. by destruct v as [[]| |]. Qed.

Lemma tokens_of_length v : 1 ≤ length (tokens_of v).
Proof. destruct v as [[]| |]; simpl; lia. Qed.

Lemma field_tokens_cons k v fields :
  field_tokens ((k, v) :: fields) = TString k :: tokens_of v ++ field_tokens fields.
Proof. done. Qed.

Lemma scan_object fields seen e rest fuel :
  Forall (λ kv, scans kv.2) fields →
  2 * length (field_tokens fields) + 1 ≤ fuel →
  if bool_decide (NoDup (fst <$> fields)) && bool_decide (Forall (λ kv, kv.1 ∉ seen) fields) &&
     forallb (λ kv, unique_keys kv.2) fields
  then checkJSONObject fuel e seen (field_tokens fields ++ TDelim rbrace :: rest) = Some (Ok rest)
  else ∃ k, checkJSONObject fuel e seen (field_tokens fields ++ TDelim rbrace :: rest) = Some (Err (ErrDuplicateKey k)).
Proof.
  intros Hs. revert seen fuel. induction Hs as [|[k v] fields Hv Hs IH]; intros seen fuel Hf.
  { destruct fuel; [simpl in Hf; lia|]. rewrite !bool_decide_true by constructor. done. }
  rewrite field_tokens_cons in Hf |- *. rewrite length_cons, length_app in Hf.
  destruct fuel as [|fuel]; [lia|]. rewrite <-app_comm_cons, <-app_assoc. cbn [checkJSONObject]. case_decide as Hk.
  { rewrite (bool_decide_false (Forall _ _)) by (intros [? _]%Forall_cons_1; done).
    rewrite andb_false_r. by exists k. }
  specialize (Hv e (field_tokens fields ++ TDelim rbrace :: rest) fuel ltac:(simpl in *; lia)).
  cbn [forallb snd fmap list_fmap fst] in Hv |- *.
  destruct (unique_keys v).
  - rewrite Hv. specialize (IH (k :: seen) fuel ltac:(simpl in *; lia)).
    replace (bool_decide (NoDup (k :: (fst <$> fields))) &&
             bool_decide (Forall (λ kv : string * JValue, kv.1 ∉ seen) ((k, v) :: fields)) &&
             (true && forallb (λ kv, unique_keys kv.2) fields))
      with (bool_decide (NoDup (fst <$> fields)) &&
            bool_decide (Forall (λ kv : string * JValue, kv.1 ∉ k :: seen) fields) &&
            forallb (λ kv, unique_keys kv.2) fields); [exact IH|].
    simpl. f_equal. rewrite <-!bool_decide_and. apply bool_decide_ext.
    rewrite NoDup_cons, Forall_cons, list_elem_of_fmap, !Forall_forall. simpl. set_solver.
  - destruct Hv as [k' Hv]. rewrite andb_false_r. exists k'. by rewrite Hv.
Qed.

Lemma scan_array values e rest fuel :
  Forall scans values → 2 * length (concat (tokens_of <$> values)) + 1 ≤ fuel →
  if forallb unique_keys values
  then checkJSONArray fuel e (concat (tokens_of <$> values) ++ TDelim rbracket :: rest) = Some (Ok rest)
  else ∃ k, checkJSONArray fuel e (concat (tokens_of <$> values) ++ TDelim rbracket :: rest) = Some (Err (ErrDuplicateKey k)).
Proof.
  intros Hs. revert fuel. induction Hs as [|v values Hv Hs IH]; intros fuel Hf.
  { destruct fuel; [simpl in Hf; lia|]. done. }
  rewrite fmap_cons in Hf |- *. cbn [concat forallb] in Hf |- *. rewrite length_app in Hf.
  pose proof (tokens_of_length v). destruct fuel as [|fuel]; [lia|]. rewrite <-app_assoc.
  cbn [checkJSONArray]. rewrite tokens_of_more.
  specialize (Hv e (concat (tokens_of <$> values) ++ TDelim rbracket :: rest) fuel ltac:(lia)).
  destruct (unique_keys v).
  - rewrite Hv. by apply IH; lia.
  - destruct Hv as [k Hv]. exists k. by rewrite Hv.
Qed.

Lemma scans_all v : scans v.
Proof.
  induction v as [t|fields IH|values IH] using JValue_ind'; intros e rest fuel Hf.
  - destruct t, fuel; simpl in *; done || lia.
  - cbn [tokens_of unique_keys] in Hf |- *. change (concat _) with (field_tokens fields) in Hf |- *.
    rewrite length_cons, length_app in Hf. destruct fuel as [|fuel]; [lia|].
    rewrite <-app_comm_cons, <-app_assoc. cbn [checkJSONValue].
    change ([TDelim rbrace] ++ rest) with (TDelim rbrace :: rest).
    pose proof (scan_object fields [] e rest fuel IH ltac:(simpl in *; lia)) as Hs.
    rewrite (bool_decide_true (Forall _ _)), andb_true_r in Hs by (apply Forall_true; set_solver).
    done.
  - cbn [tokens_of unique_keys] in Hf |- *. rewrite length_cons, length_app in Hf. destruct fuel as [|fuel]; [lia|].
    rewrite <-app_comm_cons, <-app_assoc. cbn [checkJSONValue].
    apply (scan_array values e rest fuel IH). simpl in *; lia.
Qed.

(** a repeated key never slips through. On a metadata block that spells a
    JSON value, whatever text follows it, the token scan terminates within its
    fuel and accepts the block exactly when no object in it, at any depth,
    repeats a key; otherwise it names a repeated key. *)
Theorem rejectDuplicateKeys_correct `{Json} raw v rest e :
  json_tokens raw = (tokens_of v ++ rest, e) →
  if unique_keys v then rejectDuplicateKeys raw = None
  else ∃ k, rejectDuplicateKeys raw = Some (ErrDuplicateKey k).
Proof.
  intros Ht. unfold rejectDuplicateKeys. rewrite Ht.
  pose proof (scans_all v e rest (json_fuel (tokens_of v ++ rest))) as Hs.
  specialize (Hs ltac:(unfold json_fuel; rewrite length_app; lia)).
  destruct (unique_keys v); [by rewrite Hs|]. destruct Hs as [k ->]. by exists k.
Qed.

(** A [Json] whose texts are words separated by single spaces: braces and
    brackets are delimiters, [#] a scalar, anything else a string; decoding keeps
    an [id] field. *)
Definition toy_token (w : string) : Token :=
  match w with
  | String c "" => if decide (c ∈ [lbrace; rbrace; lbracket; rbracket]) then TDelim c
                   else if decide (c = "#"%char) then TScalar else TString w
  | _ => TString w
  end.

Definition toy_id (ws : list string) : string :=
  match ws with "{" :: "id" :: v :: _ => v | _ => "" end.

Definition zero_task_binding : TaskBinding := mkTaskBinding "" "" "" "" "" "" 0 "".

Definition toy_json : Json := {|
  json_tokens raw := (toy_token <$> Split " " raw, EndEOF);
  json_decode raw := Ok (mkTaskMetadata (toy_id (Split " " raw)) None "" zero_task_binding [] [] [] [] []);
  json_trailing _ := TrailingEOF;
  json_fields raw := Ok [("id", toy_id (Split " " raw))] |}.

Lemma rejectDuplicateKeys_correct_witness :
  ∃ k, rejectDuplicateKeys (H:=toy_json) "{ id x list [ { y # y # } ] }" = Some (ErrDuplicateKey k).
Proof.
  pose (v := JObject [("id", JScalar (Some "x"));
                      ("list", JArray [JObject [("y", JScalar None); ("y", JScalar None)]])]).
  exact (rejectDuplicateKeys_correct (H:=toy_json) "{ id x list [ { y # y # } ] }" v [] EndEOF eq_refl).
Defined.

(** ** Totality and shape *)

Definition trimmed (s : string) : Prop := s = TrimSpace s.

(** Task ids a block may carry. *)
Definition metadata_wf (m : TaskMetadata) : Prop :=
  md_id m ≠ "" ∧ trimmed (md_id m) ∧ Forall trimmed (md_different_from m) ∧ Forall trimmed (default [] (md_after m)).

Definition step_wf (s : Step) : Prop :=
  match st_metadata s with Some m => metadata_wf m | None => True end.

(** A group is a leaf of steps or a sequence of strictly deeper groups. *)
Inductive group_wf : Group → Prop :=
| wf_leaf h lv par steps : Forall step_wf steps → group_wf (mkGroup h lv par steps [])
| wf_section h lv subs : Forall (λ g, (lv < gr_level g)%Z) subs → Forall group_wf subs →
    group_wf (mkGroup h lv false [] subs).

Lemma section_length level rest body stop : section level rest = (body, stop) → length stop ≤ length rest.
Proof.
  revert body stop. induction rest as [|b rest IH]; intros body stop; simpl; [naive_solver|].
  case_match; [intros; simplify_eq; simpl; lia|]. destruct (section level rest) as [bd st] eqn:Hs.
  intros. simplify_eq. specialize (IH _ _ eq_refl). lia.
Qed.

Section Shape.
Context `{Json}.

Lemma parse_total fuel :
  (∀ chain lvl, 2 * length chain < fuel → parseSiblingHeadings fuel chain lvl ≠ None) ∧
  (∀ h body rest, 2 * length rest + 1 < fuel → buildGroup fuel h body rest ≠ None).
Proof.
  induction fuel as [|fuel [IHs IHb]]; [split; intros; lia|]. split.
  - intros [|[h|o i|t|] rest] lvl Hf; simpl in Hf |- *; [done| |apply IHs; lia..].
    case_match; [done|]. destruct (section (h_level h) rest) as [body stop] eqn:Hs.
    apply section_length in Hs.
    pose proof (IHb h body rest ltac:(lia)). pose proof (IHs stop lvl ltac:(lia)).
    destruct (buildGroup fuel h body rest) as [[]|], (parseSiblingHeadings fuel stop lvl) as [[]|]; done.
  - intros h body rest Hf. simpl. pose proof (IHs rest (h_level h) ltac:(lia)).
    destruct (existsb is_heading body).
    + destruct (parseSiblingHeadings fuel rest (h_level h)) as [[]|]; done.
    + destruct (parseLeafSection body) as [[]|]; done.
Qed.

Lemma check_padding_none f v : check_padding f v = None ↔ trimmed v.
Proof. unfold check_padding, trimmed. case_decide; naive_solver. Qed.

Lemma check_all_none f vs : check_all f vs = None ↔ Forall trimmed vs.
Proof.
  induction vs as [|v vs IH]; simpl; [by split|]. rewrite Forall_cons, <-IH, <-(check_padding_none f v).
  destruct (check_padding f v); naive_solver.
Qed.

Lemma rejectPaddedTaskIDs_none m :
  rejectPaddedTaskIDs m = None ↔
  trimmed (md_id m) ∧ Forall trimmed (md_different_from m) ∧ Forall trimmed (default [] (md_after m)).
Proof.
  unfold rejectPaddedTaskIDs.
  rewrite <-(check_padding_none "id"), <-(check_all_none "differentFrom"), <-(check_all_none "after").
  destruct (check_padding _ _), (check_all "differentFrom" _), (md_after m); simpl; naive_solver.
Qed.

Lemma parseTaskMetadataBlock_some item m :
  parseTaskMetadataBlock item = Ok (Some m) → metadata_wf m.
Proof.
  unfold parseTaskMetadataBlock. repeat case_match; intros; simplify_eq.
  split; [done|]. by apply rejectPaddedTaskIDs_none.
Qed.

Lemma steps_of_items_wf items steps : steps_of_items items = Ok steps → Forall step_wf steps.
Proof.
  revert steps. induction items as [|i items IH]; intros steps; simpl; [intros; by simplify_eq|].
  intros (s & Hs & (rest & Hr & He)%rbind_ok)%rbind_ok. simplify_eq. constructor; [|by apply IH].
  unfold step_of_item in Hs. destruct (parseStepMarkers _) as [text ap].
  apply rbind_ok in Hs as (m & Hm & Hs). simplify_eq. unfold step_wf. simpl.
  destruct m; [|done]. by eapply parseTaskMetadataBlock_some.
Qed.

Lemma leaf_scan_wf body saw steps details par :
  leaf_scan body saw = Ok (steps, details, par) → Forall step_wf steps.
Proof.
  revert saw steps details par. induction body as [|[h|o items|t|] body IH]; intros saw steps details par; simpl.
  - intros. by simplify_eq.
  - apply IH.
  - intros (ss & Hss & ([[ss' ds] p'] & Hr & He)%rbind_ok)%rbind_ok. simplify_eq.
    apply Forall_app. split; [by eapply steps_of_items_wf|by eapply IH].
  - intros ([[ss' ds] p'] & Hr & He)%rbind_ok. simplify_eq. by eapply IH.
  - apply IH.
Qed.

Lemma parseLeafSection_wf body steps par : parseLeafSection body = Ok (steps, par) → Forall step_wf steps.
Proof.
  unfold parseLeafSection. intros ([[ss ds] p] & Hs & He)%rbind_ok. apply leaf_scan_wf in Hs.
  simplify_eq. destruct ds as [|d ds]; [done|]. apply Forall_fmap. eapply Forall_impl; [done|]. done.
Qed.

Lemma parse_wf fuel :
  (∀ chain lvl gs, parseSiblingHeadings fuel chain lvl = Some (Ok gs) →
     Forall (λ g, (lvl < gr_level g)%Z) gs ∧ Forall group_wf gs) ∧
  (∀ h body rest g, buildGroup fuel h body rest = Some (Ok g) → gr_level g = h_level h ∧ group_wf g).
Proof.
  induction fuel as [|fuel [IHs IHb]]; [done|]. split.
  - intros [|[h|o i|t|] rest] lvl gs; simpl; [naive_solver| |apply IHs..].
    case_match eqn:Hl; [naive_solver|]. destruct (section (h_level h) rest) as [body stop].
    destruct (buildGroup fuel h body rest) as [[g|]|] eqn:Hg; [|done..].
    destruct (parseSiblingHeadings fuel stop lvl) as [[gs'|]|] eqn:Hs; [|done..].
    intros ?. simplify_eq. apply IHb in Hg as [Hg ?]. apply IHs in Hs as [??]. split; constructor; try done.
    rewrite Hg. lia.
  - intros h body rest g. simpl. destruct (existsb is_heading body).
    + destruct (parseSiblingHeadings fuel rest (h_level h)) as [[gs|]|] eqn:Hs; [|done..].
      intros. simplify_eq. apply IHs in Hs as [??]. split; [done|]. by constructor.
    + destruct (parseLeafSection body) as [[steps par]|] eqn:Hl; [|done].
      intros. simplify_eq. split; [done|]. constructor. by eapply parseLeafSection_wf.
Qed.
End Shape.

Lemma Parse_wf `{Json} `{Markdown} md :
  match Parse md with
  | None => False
  | Some (Err _) => True
  | Some (Ok p) => Forall (λ g, (0 < gr_level g)%Z) (pl_groups p) ∧ Forall group_wf (pl_groups p)
  end.
Proof.
  unfold Parse. set (chain := blocks_of _).
  pose proof (proj1 (parse_total (parse_fuel chain)) chain 0%Z ltac:(unfold parse_fuel; lia)) as Ht.
  destruct (parseSiblingHeadings (parse_fuel chain) chain 0) as [[gs|]|] eqn:Hp; try done.
  by apply parse_wf in Hp.
Qed.

(** C35: parsing is total and its result is well formed. On any document the
    section scan finishes within its fuel; a parsed plan has groups that are
    either a leaf of steps or a sequence of strictly deeper groups, a sequence
    of groups is never parallel, and every task id or reference a step's
    metadata carries is free of surrounding whitespace, the id itself non-empty. *)
Theorem Parse_total_and_well_formed `{Json} `{Markdown} md :
  match Parse md with
  | None => False
  | Some (Err _) => True
  | Some (Ok p) => Forall (λ g, (0 < gr_level g)%Z) (pl_groups p) ∧ Forall group_wf (pl_groups p)
  end.
Proof. apply Parse_wf. Qed.

(** ** Trimmed texts

    A text that is its own trim stays whole next to an ASCII byte, and trimming
    trims for good. *)

(** No space stands at the front, or at the end of the reversal. *)
Definition front (l : list Ascii.ascii) : Prop :=
  match l with
  | [] => True
  | [a] => space1 a = false
  | [a; b] => space1 a = false ∧ space2 a b = false
  | a :: b :: c :: _ => space1 a = false ∧ space2 a b = false ∧ space3 a b c = false
  end.
Definition back (l : list Ascii.ascii) : Prop :=
  match l with
  | [] => True
  | [c] => space1 c = false
  | [c; b] => space1 c = false ∧ space2 b c = false
  | c :: b :: a :: _ => space1 c = false ∧ space2 b c = false ∧ space3 a b c = false
  end.

Lemma trim_left_spec l : (∃ k, l = k ++ trim_left l) ∧ front (trim_left l).
Proof.
  remember (length l) as n eqn:Hn. assert (length l ≤ n) as Hle by lia. clear Hn. revert l Hle.
  induction n as [|n IH]; intros l Hle; [destruct l; [by split; [exists []|]|simpl in Hle; lia]|].
  assert (∀ p q, l = p ++ q → length q ≤ n → (∃ k, l = k ++ trim_left q) ∧ front (trim_left q)) as Hcut.
  { intros p q -> Hq. destruct (IH q Hq) as [[k Hk] Hf]. split; [|done]. exists (p ++ k). by rewrite <-app_assoc, <-Hk. }
  destruct l as [|a l1]; [by split; [exists []|]|]. simpl in Hle. cbn [trim_left].
  destruct (space1 a) eqn:H1; [apply (Hcut [a]); done || lia|]. destruct l1 as [|b l2]; [by split; [exists []|]|]. simpl in Hle.
  destruct (space2 a b) eqn:H2; [apply (Hcut [a; b]); done || lia|]. destruct l2 as [|c l3]; [by split; [exists []|]|]. simpl in Hle.
  destruct (space3 a b c) eqn:H3; [apply (Hcut [a; b; c]); done || lia|by split; [exists []|]].
Qed.
Lemma trim_right_spec l : (∃ k, l = k ++ trim_right_rev l) ∧ back (trim_right_rev l).
Proof.
  remember (length l) as n eqn:Hn. assert (length l ≤ n) as Hle by lia. clear Hn. revert l Hle.
  induction n as [|n IH]; intros l Hle; [destruct l; [by split; [exists []|]|simpl in Hle; lia]|].
  assert (∀ p q, l = p ++ q → length q ≤ n → (∃ k, l = k ++ trim_right_rev q) ∧ back (trim_right_rev q)) as Hcut.
  { intros p q -> Hq. destruct (IH q Hq) as [[k Hk] Hf]. split; [|done]. exists (p ++ k). by rewrite <-app_assoc, <-Hk. }
  destruct l as [|c l1]; [by split; [exists []|]|]. simpl in Hle. cbn [trim_right_rev].
  destruct (space1 c) eqn:H1; [apply (Hcut [c]); done || lia|]. destruct l1 as [|b l2]; [by split; [exists []|]|]. simpl in Hle.
  destruct (space2 b c) eqn:H2; [apply (Hcut [c; b]); done || lia|]. destruct l2 as [|a l3]; [by split; [exists []|]|]. simpl in Hle.
  destruct (space3 a b c) eqn:H3; [apply (Hcut [c; b; a]); done || lia|by split; [exists []|]].
Qed.

Lemma front_iff l : front l ↔ trim_left l = l.
Proof.
  split; [|intros <-; apply trim_left_spec]. destruct l as [|a [|b [|c l]]]; [done|..]; cbn [front].
  - intros H1. simpl. by rewrite H1.
  - intros [H1 H2]. simpl. by rewrite H1, H2.
  - intros (H1 & H2 & H3). cbn [trim_left]. by rewrite H1, H2, H3.
Qed.
Lemma back_iff l : back l ↔ trim_right_rev l = l.
Proof.
  split; [|intros <-; apply trim_right_spec]. destruct l as [|c [|b [|a l]]]; [done|..]; cbn [back].
  - intros H1. simpl. by rewrite H1.
  - intros [H1 H2]. simpl. by rewrite H1, H2.
  - intros (H1 & H2 & H3). cbn [trim_right_rev]. by rewrite H1, H2, H3.
Qed.

Lemma front_prefix l k : front (l ++ k) → front l.
Proof. destruct l as [|a [|b [|c l]]], k as [|x [|y k]]; simpl; tauto. Qed.

Lemma trimmed_ends s : trimmed s ↔ front (chars s) ∧ back (rev (chars s)).
Proof.
  unfold trimmed, TrimSpace. rewrite front_iff, back_iff. split.
  - intros Hs. apply (f_equal chars) in Hs. rewrite chars_of_chars in Hs.
    destruct (trim_left_spec (chars s)) as [[k Hk] _]. destruct (trim_right_spec (rev (trim_left (chars s)))) as [[j Hj] _].
    apply (f_equal (@rev _)) in Hj. rewrite rev_involutive, rev_app_distr, <-Hs in Hj.
    rewrite Hj in Hk. pose proof Hk as Hlen. apply (f_equal length) in Hlen. rewrite !length_app in Hlen.
    assert (k = []) as -> by (destruct k; [done|simpl in Hlen; lia]). assert (rev j = []) as Hj0 by (destruct (rev j); [done|simpl in Hlen; lia]).
    rewrite Hj0, app_nil_r in Hj. split; [done|]. rewrite Hj in Hs. rewrite Hs at 2. by rewrite rev_involutive.
  - intros [-> ->]. by rewrite rev_involutive, of_chars_chars.
Qed.

Lemma TrimSpace_trimmed s : trimmed (TrimSpace s).
Proof.
  apply trimmed_ends. unfold TrimSpace. rewrite chars_of_chars, rev_involutive. split; [|apply trim_right_spec].
  destruct (trim_right_spec (rev (trim_left (chars s)))) as [[k Hk] _]. apply (f_equal (@rev _)) in Hk. rewrite rev_involutive, rev_app_distr in Hk.
  apply (front_prefix _ (rev k)). rewrite <-Hk. apply trim_left_spec.
Qed.

(** An ASCII byte completes no space of several bytes. *)
Definition ascii7 (c : Ascii.ascii) : Prop := code c < 128.
Lemma ascii7_no_space a b c x : ascii7 x →
  space2 a x = false ∧ space2 x b = false ∧ space3 a x c = false ∧ space3 a b x = false ∧ space3 x b c = false.
Proof.
  unfold ascii7. intros Hx. assert (∀ k, 128 ≤ k → (code x =? k) = false) as He by (intros k Hk; apply Nat.eqb_neq; lia).
  assert ((128 <=? code x) = false) as Hl by (apply Nat.leb_gt; lia).
  unfold space2, space3. rewrite Hl, !He by lia. rewrite ?andb_false_r. simpl. rewrite ?andb_false_r. done.
Qed.
Lemma front_next l x k : l ≠ [] → front l → ascii7 x → front (l ++ x :: k).
Proof.
  intros Hne Hf Hx. pose proof (λ a b c, ascii7_no_space a b c x Hx) as Hn.
  destruct l as [|a [|b [|c l]]]; [done|..]; cbn [app front] in Hf |- *; [|destruct Hf|done].
  - destruct k as [|y k]; split_and!; try done; first [by destruct (Hn a a a) as (? & ? & ? & ? & ?)|by destruct (Hn a a y) as (? & ? & ? & ? & ?)].
  - split_and!; try done; by destruct (Hn a b b) as (? & ? & ? & ? & ?).
Qed.
Lemma back_next l x k : l ≠ [] → back l → ascii7 x → back (l ++ x :: k).
Proof.
  intros Hne Hf Hx. pose proof (λ a b c, ascii7_no_space a b c x Hx) as Hn.
  destruct l as [|a [|b [|c l]]]; [done|..]; cbn [app back] in Hf |- *; [|destruct Hf|done].
  - destruct k as [|y k]; split_and!; try done; first [by destruct (Hn a a a) as (? & ? & ? & ? & ?)|by destruct (Hn y a a) as (? & ? & ? & ? & ?)].
  - split_and!; try done; by destruct (Hn a b a) as (? & ? & ? & ? & ?).
Qed.

(** A text between two trimmed ones that ASCII bytes keep apart is trimmed. *)
Lemma trimmed_front s r : trimmed s → s ≠ "" → (∃ x k, chars r = x :: k ∧ ascii7 x) → back (rev (chars (s +:+ r))) → trimmed (s +:+ r).
Proof.
  intros [Hf _]%trimmed_ends Hne (x & k & Hr & Hx) Hb. apply trimmed_ends. split; [|done]. rewrite chars_app, Hr.
  apply front_next; [by destruct s|done|done].
Qed.
Lemma back_after s r : trimmed s → s ≠ "" → (∃ x k, rev (chars r) = x :: k ∧ ascii7 x) → back (rev (chars (r +:+ s))).
Proof.
  intros [_ Hb]%trimmed_ends Hne (x & k & Hr & Hx). rewrite chars_app, rev_app_distr, Hr.
  apply back_next; [|done|done]. intros H%(f_equal (@length _)). rewrite length_rev in H. by destruct s.
Qed.

(** ** Round trip

    A renderer of plans as blocks, and the parse of what it writes. *)
Section Render.
Context `{Json} (print : TaskMetadata → string).

Definition render_step (s : Step) : Item :=
  mkItem [st_text s :: if st_requires_approval s then [approvalMarker] else []]
         (match st_metadata s with Some m => [print m] | None => [] end).

Definition render_detail (steps : list Step) : list Block :=
  match steps with
  | s :: _ => if decide (st_detail s = "") then [] else [BParagraph (st_detail s)]
  | [] => []
  end.

Definition render_steps (par : bool) (steps : list Step) : list Block :=
  match steps with
  | [] => if par then [BList false []] else []
  | _ => [BList (negb par) (render_step <$> steps)]
  end.

Fixpoint render (g : Group) : list Block :=
  BHeading (mkHeading (gr_level g) (gr_heading g) None 0) ::
  match gr_subgroups g with
  | [] => render_detail (gr_steps g) ++ render_steps (gr_parallel g) (gr_steps g)
  | subs => concat (render <$> subs)
  end.

Definition render_body (g : Group) : list Block := tail (render g).

(** What the renderer can write: trimmed texts, one detail per leaf, no step
    text that ends in the marker it does not carry, metadata its printer can
    round trip, and sections whose levels nest. Everything the parser returns is
    so, below. *)
Definition step_renderable (s : Step) : Prop :=
  trimmed (st_text s) ∧
  (st_requires_approval s = false → (parseStepMarkers (st_text s)).2 = false) ∧
  match st_metadata s with
  | Some m => parseTaskMetadataBlock (mkItem [] [print m]) = Ok (Some m)
  | None => True
  end.

(** Siblings come at non-increasing levels, all deeper than their section. *)
Fixpoint siblings (lvl : Z) (bound : option Z) (gs : list Group) : Prop :=
  match gs with
  | [] => True
  | g :: gs' => (lvl < gr_level g)%Z ∧ (match bound with Some b => (gr_level g <= b)%Z | None => True end) ∧
                siblings lvl (Some (gr_level g)) gs'
  end.

Inductive renderable : Group → Prop :=
| renderable_leaf h lv par steps d :
    trimmed h → trimmed d → Forall (λ s, st_detail s = d) steps → Forall step_renderable steps →
    renderable (mkGroup h lv par steps [])
| renderable_section h lv subs :
    trimmed h → subs ≠ [] → siblings lv None subs → Forall renderable subs →
    renderable (mkGroup h lv false [] subs).

(** *** Steps *)

Lemma TrimSpace_space t : trimmed t → TrimSpace (t +:+ " ") = t.
Proof.
  intros [Hf Hb]%trimmed_ends. destruct (decide (t = "")) as [->|Hne]; [done|]. unfold TrimSpace. rewrite chars_app. change (chars " ") with [" "%char].
  assert (front (chars t ++ [" "%char])) as ->%front_iff by (apply front_next; [by destruct t|done|unfold ascii7; vm_compute; lia]).
  rewrite rev_app_distr. cbn [rev app trim_right_rev]. change (space1 " "%char) with true. cbv iota.
  apply back_iff in Hb as ->. by rewrite rev_involutive, of_chars_chars.
Qed.

Lemma trimmed_marked t : trimmed t → t ≠ "" → trimmed (t +:+ " " +:+ approvalMarker).
Proof.
  intros Ht Hne. apply trimmed_front; [done|done|eexists _, _; split; [done|unfold ascii7; vm_compute; lia]|].
  rewrite chars_app, rev_app_distr. by vm_compute.
Qed.

Lemma parseStepMarkers_marked t :
  trimmed t → parseStepMarkers (Join " " (filter (λ x, x ≠ "") [t; approvalMarker])) = (t, true).
Proof.
  intros Ht. rewrite filter_cons. case_decide as Hne.
  - assert (Join " " (t :: filter (λ x, x ≠ "") [approvalMarker]) = t +:+ " " +:+ approvalMarker) as -> by done.
    unfold parseStepMarkers. rewrite <-trimmed_marked by done.
    assert (chars (t +:+ " " +:+ approvalMarker) = chars (t +:+ " ") ++ chars approvalMarker) as ->.
    { by rewrite !chars_app, app_assoc. }
    rewrite length_app, (proj2 (Nat.leb_le _ _)) by lia.
    replace (length (chars (t +:+ " ")) + length (chars approvalMarker) - length (chars approvalMarker))
      with (length (chars (t +:+ " "))) by lia.
    rewrite drop_app_length, take_app_length, !of_chars_chars.
    rewrite TrimSpace_space by done. by vm_compute.
  - assert (t = "") as -> by (destruct t; naive_solver). by vm_compute.
Qed.

Lemma parseStepMarkers_plain t :
  trimmed t → (parseStepMarkers t).2 = false →
  parseStepMarkers (Join " " (filter (λ x, x ≠ "") [t])) = (t, false).
Proof.
  intros Ht Hm. assert (Join " " (filter (λ x, x ≠ "") [t]) = t) as ->.
  { rewrite filter_cons. case_decide as Hne; [done|]. destruct t; naive_solver. }
  unfold parseStepMarkers in *. rewrite <-Ht in Hm |- *.
  rewrite of_chars_chars. by destruct (_ && _).
Qed.

Lemma render_step_parse s :
  step_renderable s → step_of_item (render_step s) = Ok (with_detail "" s).
Proof.
  intros (Ht & Hm & Hj). unfold step_of_item, listItemText, render_step. cbn [it_lines concat app].
  assert (parseTaskMetadataBlock (mkItem [st_text s :: (if st_requires_approval s then [approvalMarker] else [])]
    match st_metadata s with Some m => [print m] | None => [] end) = Ok (st_metadata s)) as Hb.
  { destruct (st_metadata s); [exact Hj|done]. }
  destruct (st_requires_approval s) eqn:Ha; rewrite app_nil_r; cbn [fmap list_fmap].
  - rewrite <-Ht. change (TrimSpace approvalMarker) with approvalMarker.
    rewrite parseStepMarkers_marked by done. rewrite Hb. unfold with_detail. by rewrite Ha.
  - rewrite <-Ht. rewrite parseStepMarkers_plain by auto. rewrite Hb.
    unfold with_detail. by rewrite Ha.
Qed.

Lemma render_steps_parse steps :
  Forall step_renderable steps → steps_of_items (render_step <$> steps) = Ok (with_detail "" <$> steps).
Proof.
  induction 1 as [|s steps Hs Hss IH]; [done|]. rewrite !fmap_cons. cbn [steps_of_items].
  by rewrite render_step_parse, IH.
Qed.

Lemma with_detail_same d s : st_detail s = d → with_detail d (with_detail "" s) = s.
Proof. destruct s. simpl. intros <-. done. Qed.

Lemma render_leaf_parse par steps d :
  trimmed d → Forall (λ s, st_detail s = d) steps → Forall step_renderable steps →
  parseLeafSection (render_detail steps ++ render_steps par steps) = Ok (steps, par).
Proof.
  intros Htr Hd Hs. destruct steps as [|s steps]; [by destruct par|].
  assert (st_detail s = d) as Hsd by by apply Forall_cons_1 in Hd as [? _].
  unfold render_detail, render_steps, parseLeafSection. rewrite Hsd.
  assert (with_detail d <$> (with_detail "" <$> s :: steps) = s :: steps) as Hback.
  { rewrite <-list_fmap_compose. rewrite <-(list_fmap_id (s :: steps)) at 2. apply list_fmap_ext.
    intros i x Hx. simpl. apply with_detail_same. rewrite Forall_lookup in Hd. by apply (Hd i). }
  pose proof (render_steps_parse _ Hs) as Hparse.
  case_decide as He; cbn [app leaf_scan].
  - rewrite Hparse. cbn [rbind]. rewrite app_nil_r, negb_involutive. subst d.
    rewrite He in Hback. rewrite <-Hback at 2. f_equal. f_equal.
    rewrite <-list_fmap_compose. apply list_fmap_ext. by intros.
  - rewrite Hparse. cbn [rbind]. rewrite app_nil_r, negb_involutive.
    rewrite <-Htr, decide_False by done. cbn [Join]. by rewrite Hback.
Qed.

(** *** Sections *)

(** A chain at which the sections deeper than [lvl] end. *)
Definition stops (lvl : Z) (chain : list Block) : Prop :=
  match chain with
  | [] => True
  | BHeading h :: _ => (h_level h <= lvl)%Z
  | _ => False
  end.

(** No heading of the chain closes a section of level [lvl]. *)
Definition deeper (lvl : Z) (chain : list Block) : Prop :=
  Forall (λ b, match b with BHeading h => (lvl < h_level h)%Z | _ => True end) chain.

Lemma section_app lvl body stop :
  deeper lvl body → stops lvl stop → section lvl (body ++ stop) = (body, stop).
Proof.
  intros Hd Hs. induction Hd as [|b body Hb Hd IH].
  - destruct stop as [|[h|o i|t|] stop]; try done. simpl in *.
    assert ((h_level h <=? lvl)%Z = true) as -> by lia. done.
  - simpl. rewrite IH. destruct b as [h|o i|t|]; try done.
    by assert ((h_level h <=? lvl)%Z = false) as -> by lia.
Qed.

Lemma siblings_levels lvl b gs : siblings lvl b gs → Forall (λ g, (lvl < gr_level g)%Z) gs.
Proof. revert b. induction gs as [|g gs IH]; intros b; [done|]. intros (? & _ & ?). eauto. Qed.

Lemma leaf_blocks_deeper lvl par steps : deeper lvl (render_detail steps ++ render_steps par steps).
Proof.
  apply Forall_app. split.
  - destruct steps as [|s steps]; simpl; [constructor|]. case_decide; by repeat constructor.
  - destruct steps; [destruct par|]; by repeat constructor.
Qed.

Lemma render_deeper g lvl : renderable g → (lvl < gr_level g)%Z → deeper lvl (render g).
Proof.
  revert lvl. induction g as [g IH] using Group_ind'. intros lvl Hr Hl. inversion Hr; subst; simpl in *.
  - constructor; [done|]. apply leaf_blocks_deeper.
  - constructor; [done|]. destruct subs as [|s0 subs]; [done|]. rename select (siblings _ _ _) into Hs.
    apply siblings_levels in Hs. change (deeper lvl (concat (render <$> s0 :: subs))).
    apply Forall_concat, Forall_fmap. rewrite Forall_forall in *. intros x Hx. simpl. apply IH; [done|auto|]. specialize (Hs x Hx). simpl in Hs. lia.
Qed.

Lemma renders_deeper gs lvl :
  Forall renderable gs → Forall (λ g, (lvl < gr_level g)%Z) gs → deeper lvl (concat (render <$> gs)).
Proof.
  intros Hr Hl. apply Forall_concat, Forall_fmap. rewrite Forall_forall in *. intros x Hx.
  apply render_deeper; [by apply Hr|by apply Hl].
Qed.

Lemma render_head g : render g = BHeading (mkHeading (gr_level g) (gr_heading g) None 0) :: render_body g.
Proof. by destruct g. Qed.

Lemma siblings_stops lvl g gs stop :
  siblings lvl (Some (gr_level g)) gs → (lvl < gr_level g)%Z → stops lvl stop →
  stops (gr_level g) (concat (render <$> gs) ++ stop).
Proof.
  intros Hs Hl Hst. destruct gs as [|g' gs].
  - destruct stop as [|[h|o i|t|] stop]; simpl in *; try done. lia.
  - rewrite fmap_cons. cbn [concat]. rewrite render_head. simpl. by destruct Hs as (_ & ? & _).
Qed.

Lemma render_body_deeper g : renderable g → deeper (gr_level g) (render_body g).
Proof.
  intros Hr. inversion Hr as [h lv par steps d Hh Hd Hsd Hss|h lv subs Hh Hne Hsib Hrs]; subst.
  - apply leaf_blocks_deeper.
  - destruct subs as [|g gs]; [done|]. apply renders_deeper; [done|]. by eapply siblings_levels.
Qed.

Lemma no_heading_leaf par steps : existsb is_heading (render_detail steps ++ render_steps par steps) = false.
Proof. destruct steps as [|s steps]; [by destruct par|]. simpl. by case_decide. Qed.

Lemma parse_render fuel :
  (∀ gs stop lvl b, 2 * length (concat (render <$> gs) ++ stop) < fuel → siblings lvl b gs →
     Forall renderable gs → stops lvl stop →
     parseSiblingHeadings fuel (concat (render <$> gs) ++ stop) lvl = Some (Ok gs)) ∧
  (∀ g stop, 2 * length (render_body g ++ stop) + 1 < fuel → renderable g → stops (gr_level g) stop →
     buildGroup fuel (mkHeading (gr_level g) (gr_heading g) None 0) (render_body g) (render_body g ++ stop) =
     Some (Ok g)).
Proof.
  induction fuel as [|fuel [IHs IHb]]; [split; intros; lia|]. split.
  - intros [|g gs] stop lvl b Hf Hsib Hr Hst.
    { destruct stop as [|[h|o i|t|] stop]; try done. simpl in *.
      by assert ((h_level h <=? lvl)%Z = true) as -> by lia. }
    apply Forall_cons in Hr as [Hg Hr]. destruct Hsib as (Hl & _ & Hsib).
    rewrite fmap_cons in Hf |- *. cbn [concat] in Hf |- *. rewrite render_head in Hf |- *.
    rewrite <-app_assoc, <-app_comm_cons in Hf |- *. cbn [parseSiblingHeadings h_level].
    assert ((gr_level g <=? lvl)%Z = false) as -> by lia.
    assert (stops (gr_level g) (concat (render <$> gs) ++ stop)) as Hstop by by eapply siblings_stops.
    rewrite section_app by (done || by apply render_body_deeper).
    simpl in Hf. rewrite IHb by (done || lia).
    erewrite IHs; [done| |done..]. rewrite length_app in Hf. lia.
  - intros g stop Hf Hr Hst. cbn [buildGroup].
    inversion Hr as [h lv par steps d Hh Hd Hsd Hss|h lv subs Hh Hne Hsib Hrs]; subst.
    + change (render_body (mkGroup h lv par steps [])) with (render_detail steps ++ render_steps par steps).
      rewrite no_heading_leaf, (render_leaf_parse par steps (default d (st_detail <$> head steps))).
      all: try done.
      * unfold headingText. simpl. by rewrite <-Hh.
      * destruct steps; simpl; [done|]. by apply Forall_cons_1 in Hsd as [-> _].
      * destruct steps as [|s steps]; [done|]. simpl. by pose proof (proj1 (Forall_cons_1 _ _ _ Hsd)) as ->.
    + destruct subs as [|g gs]; [done|].
      change (render_body (mkGroup h lv false [] (g :: gs))) with (concat (render <$> g :: gs)) in Hf |- *.
      assert (existsb is_heading (concat (render <$> g :: gs)) = true) as ->.
      { rewrite fmap_cons. cbn [concat]. by rewrite render_head. }
      cbn [h_level gr_level] in *. erewrite IHs; [|lia|done..]. unfold headingText. simpl. by rewrite <-Hh.
Qed.

(** *** What the parser returns can be rendered *)

Hypothesis Hprint : ∀ raw m, parseTaskMetadataBlock (mkItem [] [raw]) = Ok (Some m) → parseTaskMetadataBlock (mkItem [] [print m]) = Ok (Some m).

Lemma parseStepMarkers_out text : let '(t, approval) := parseStepMarkers text in
  trimmed t ∧ (approval = false → (parseStepMarkers t).2 = false).
Proof.
  unfold parseStepMarkers. destruct (_ && _) eqn:Hm; [by split; [apply TrimSpace_trimmed|]|]. rewrite of_chars_chars.
  split; [apply TrimSpace_trimmed|]. intros _. rewrite <-(TrimSpace_trimmed text). by rewrite Hm.
Qed.

Lemma block_renderable item m :
  parseTaskMetadataBlock item = Ok (Some m) → parseTaskMetadataBlock (mkItem [] [print m]) = Ok (Some m).
Proof.
  intros Hm. assert (∃ raw, it_blocks item = [raw]) as [raw Hr].
  { unfold parseTaskMetadataBlock in Hm. destruct (it_blocks item) as [|raw [|]]; [done|by exists raw|done]. }
  apply (Hprint raw). unfold parseTaskMetadataBlock in *. by rewrite Hr in Hm.
Qed.

Lemma items_renderable items steps :
  steps_of_items items = Ok steps → Forall step_renderable steps ∧ Forall (λ s, st_detail s = "") steps.
Proof.
  revert steps. induction items as [|i items IH]; intros steps; simpl; [intros; by simplify_eq|].
  intros (s & Hs & (rest & Hr & He)%rbind_ok)%rbind_ok. simplify_eq. destruct (IH rest Hr). unfold step_of_item in Hs.
  pose proof (parseStepMarkers_out (listItemText i)) as Ho. destruct (parseStepMarkers _) as [text ap].
  apply rbind_ok in Hs as (m & Hm & Hs). simplify_eq. destruct Ho as [Ht Hap]. split; constructor; try done.
  split; [done|]. split; [done|]. simpl. destruct m; [|done]. by eapply block_renderable.
Qed.

Definition detail_ok (d : string) : Prop := trimmed d ∧ d ≠ "".

Lemma scan_renderable body saw steps details par :
  leaf_scan body saw = Ok (steps, details, par) →
  Forall step_renderable steps ∧ Forall (λ s, st_detail s = "") steps ∧ Forall detail_ok details.
Proof.
  revert saw steps details par. induction body as [|[h|o items|t|] body IH]; intros saw steps details par; simpl.
  - intros. by simplify_eq.
  - apply IH.
  - intros (ss & Hss & ([[ss' ds] p'] & Hr & He)%rbind_ok)%rbind_ok. simplify_eq.
    apply items_renderable in Hss as [? ?]. apply IH in Hr as (? & ? & ?). rewrite !Forall_app. done.
  - intros ([[ss' ds] p'] & Hr & He)%rbind_ok. simplify_eq. apply IH in Hr as (? & ? & ?).
    split_and!; [done..|]. case_decide; [done|]. constructor; [|done]. split; [apply TrimSpace_trimmed|done].
  - apply IH.
Qed.

Lemma join_details details : details ≠ [] → Forall detail_ok details → detail_ok (Join blank_line details).
Proof.
  intros Hne Hd. induction Hd as [|d details [Ht Hdne] Hd IH]; [done|]. destruct details as [|d' details]; [done|].
  destruct (IH ltac:(done)) as [HtJ HneJ]. change (Join blank_line (d :: d' :: details)) with (d +:+ (blank_line +:+ Join blank_line (d' :: details))).
  set (J := Join blank_line (d' :: details)) in *. clearbody J. split; [|by destruct d].
  apply trimmed_front; [done|done|eexists _, _; split; [done|unfold ascii7; vm_compute; lia]|].
  assert (d +:+ (blank_line +:+ J) = (d +:+ blank_line) +:+ J) as ->.
  { rewrite <-(of_chars_chars (d +:+ _)), <-(of_chars_chars ((d +:+ _) +:+ _)), !chars_app, app_assoc. done. }
  apply back_after; [done|done|]. rewrite chars_app, rev_app_distr. eexists _, _. split; [done|unfold ascii7; vm_compute; lia].
Qed.

Lemma leaf_renderable h lv body steps par :
  trimmed h → parseLeafSection body = Ok (steps, par) → renderable (mkGroup h lv par steps []).
Proof.
  intros Hh ([[ss ds] p] & (Hs & He & Hd)%scan_renderable & Hx)%rbind_ok. simplify_eq. destruct ds as [|d ds].
  - by apply (renderable_leaf h lv _ _ "").
  - apply (renderable_leaf h lv _ _ (Join blank_line (d :: ds))); [done|by apply join_details| |]; apply Forall_fmap;
      (eapply Forall_impl; [exact Hs|]); done.
Qed.

Lemma section_split lvl rest body stop : section lvl rest = (body, stop) → rest = body ++ stop ∧ deeper lvl body ∧ stops lvl stop.
Proof.
  revert body stop. induction rest as [|b rest IH]; intros body stop; simpl; [intros; simplify_eq; by split_and!; [|constructor|]|].
  destruct b as [h|o i|t|].
  1: destruct (Z.leb_spec (h_level h) lvl); [intros; simplify_eq; by split_and!; [|constructor|]|].
  all: destruct (section lvl rest) as [bd st]; intros; simplify_eq; destruct (IH _ _ eq_refl) as (-> & ? & ?);
    (split; [done|]); (split; [by constructor|done]).
Qed.

Lemma headings_found fuel body stop lvl gs :
  deeper lvl body → existsb is_heading body = true → parseSiblingHeadings fuel (body ++ stop) lvl = Some (Ok gs) → gs ≠ [].
Proof.
  revert fuel. induction body as [|b body IH]; intros [|fuel]; [done..|]. intros [Hb Hd]%Forall_cons He. destruct b as [h|o i|t|]; simpl in He |- *.
  - destruct (Z.leb_spec (h_level h) lvl); [lia|]. destruct (section _ _) as [bd st].
    destruct (buildGroup _ _ _ _) as [[]|]; [|done..]. destruct (parseSiblingHeadings _ _ _) as [[]|]; [|done..]. by intros [= <-].
  - by apply IH.
  - by apply IH.
  - by apply IH.
Qed.

Lemma siblings_bound lvl b gs : siblings lvl None gs → (∀ g, head gs = Some g → (gr_level g ≤ b)%Z) → siblings lvl (Some b) gs.
Proof. destruct gs as [|g gs]; [done|]. intros (? & _ & ?) Hb. split_and!; auto. Qed.

Lemma parse_renderable fuel :
  (∀ chain lvl gs, parseSiblingHeadings fuel chain lvl = Some (Ok gs) →
     siblings lvl None gs ∧ Forall renderable gs ∧ ∀ b g, stops b chain → head gs = Some g → (gr_level g ≤ b)%Z) ∧
  (∀ h body stop g, deeper (h_level h) body → buildGroup fuel h body (body ++ stop) = Some (Ok g) →
     gr_level g = h_level h ∧ renderable g).
Proof.
  induction fuel as [|fuel [IHs IHb]]; [done|]. split.
  - intros [|b chain] lvl gs; [intros [= <-]; done|]. destruct b as [h|o i|t|]; cbn [parseSiblingHeadings].
    2-4: intros Hp; destruct (IHs _ _ _ Hp) as (? & ? & _); by split_and!.
    destruct (Z.leb_spec (h_level h) lvl) as [|Hl]; [by intros [= <-]|]. destruct (section (h_level h) chain) as [body stop] eqn:Hsec.
    apply section_split in Hsec as (-> & Hdeep & Hstop).
    destruct (buildGroup fuel h body (body ++ stop)) as [[g|]|] eqn:Hg; [|done..].
    destruct (parseSiblingHeadings fuel stop lvl) as [[gs'|]|] eqn:Hs; [|done..]. intros [= <-].
    destruct (IHb _ _ _ _ Hdeep Hg) as [Hlv Hrg]. destruct (IHs _ _ _ Hs) as (Hsib & Hrs & Hhead).
    split_and!; [|by constructor|intros b g' Hb [= <-]; by rewrite Hlv].
    split_and!; [lia|done|]. apply siblings_bound; [done|]. intros g' Hg'. rewrite Hlv. by eapply Hhead.
  - intros h body stop g Hdeep. cbn [buildGroup]. destruct (existsb is_heading body) eqn:He.
    + destruct (parseSiblingHeadings fuel (body ++ stop) (h_level h)) as [[gs|]|] eqn:Hs; [|done..]. intros [= <-].
      pose proof (headings_found _ _ _ _ _ Hdeep He Hs) as Hne. destruct (IHs _ _ _ Hs) as (Hsib & Hrs & _).
      split; [done|]. constructor; [apply TrimSpace_trimmed|done..].
    + destruct (parseLeafSection body) as [[steps par]|] eqn:Hleaf; [|done]. intros [= <-]. split; [done|].
      eapply leaf_renderable; [apply TrimSpace_trimmed|done].
Qed.
End Render.

(** C36: parse after render is the identity on everything the parser returns. Take a
    plan some document parses to, and a printer of metadata whose text, for any
    metadata a block parses to, parses to that metadata again: a document whose
    blocks are the plan's groups laid out in order, a heading each, a paragraph with
    the leaf's detail and a list of its steps with their approval markers and
    printed metadata, parses to the same plan, group by group and step by step. *)
Theorem Parse_render `{Json} `{Markdown} print md p md' :
  (∀ raw m, parseTaskMetadataBlock (mkItem [] [raw]) = Ok (Some m) → parseTaskMetadataBlock (mkItem [] [print m]) = Ok (Some m)) →
  Parse md = Some (Ok p) →
  blocks_of (normalizeSource md') = concat (render print <$> pl_groups p) →
  Parse md' = Some (Ok p).
Proof.
  intros Hprint Hmd Hb. unfold Parse in Hmd. set (source := blocks_of (normalizeSource md)) in *.
  destruct (parseSiblingHeadings (parse_fuel source) source 0) as [[gs|]|] eqn:Hgs; [|done..]. injection Hmd as <-.
  destruct (proj1 (parse_renderable print Hprint _) _ _ _ Hgs) as (Hs & Hr & _).
  unfold Parse. rewrite Hb. set (chain := concat _).
  pose proof (proj1 (parse_render print (parse_fuel chain)) gs [] 0%Z None) as Hp.
  rewrite app_nil_r in Hp. change (concat (render print <$> gs)) with chain in Hp. rewrite Hp; try done. unfold parse_fuel. lia.
Qed.

(** A [Markdown] for one-line blocks: ATX headings, [- ] and [1. ] items, and
    paragraphs. *)
Fixpoint toy_heading (level : Z) (l : list Ascii.ascii) : option Block :=
  match l with
  | "#"%char :: l' => toy_heading (level + 1) l'
  | " "%char :: l' => if (0 <? level)%Z then Some (BHeading (mkHeading level (of_chars l') None 0)) else None
  | _ => None
  end.

Definition toy_line (l : string) : list Block :=
  match l with
  | "" => []
  | String "-" (String " " t) => [BList false [mkItem [[t]] []]]
  | String "1" (String "." (String " " t)) => [BList true [mkItem [[t]] []]]
  | _ => match toy_heading 0 (chars l) with Some b => [b] | None => [BParagraph l] end
  end.

Fixpoint toy_merge (bs : list Block) : list Block :=
  match bs with
  | BList o items :: bs' =>
      match toy_merge bs' with
      | BList o' items' :: rest =>
          if bool_decide (o = o') then BList o (items ++ items') :: rest else BList o items :: BList o' items' :: rest
      | rest => BList o items :: rest
      end
  | b :: bs' => b :: toy_merge bs'
  | [] => []
  end.

Definition toy_markdown : Markdown := {| blocks_of md := toy_merge (concat (toy_line <$> Split newline md)) |}.

Definition demo_lines : list string :=
  ["# Build"; "twice"; "1. compile"; "1. link"; "# Check"; "## Fan"; "- unit"; "- e2e"].

(** The same with items that carry a metadata block, behind a bar, and several
    lines, parted by strokes; and metadata whose text is its id. *)
Definition laid_item (ordered : bool) (t : string) : list Block :=
  match Split "|" t with
  | [text; raw] => [BList ordered [mkItem [Split "/" text] [raw]]]
  | _ => [BList ordered [mkItem [Split "/" t] []]]
  end.
Definition laid_line (l : string) : list Block :=
  match l with
  | String "-" (String " " t) => laid_item false t
  | String "1" (String "." (String " " t)) => laid_item true t
  | _ => toy_line l
  end.
Definition laid_markdown : Markdown := {| blocks_of md := toy_merge (concat (laid_line <$> Split newline md)) |}.
Definition id_json : Json := {|
  json_tokens raw := ([TScalar], EndEOF);
  json_decode raw := Ok (mkTaskMetadata raw None "" zero_task_binding [] [] [] [] []);
  json_trailing _ := TrailingEOF;
  json_fields raw := Ok [] |}.

Lemma id_json_prints raw m :
  parseTaskMetadataBlock (H:=id_json) (mkItem [] [raw]) = Ok (Some m) → parseTaskMetadataBlock (H:=id_json) (mkItem [] [md_id m]) = Ok (Some m).
Proof.
  intros Hm. assert (md_id m = raw) as ->; [|done]. revert Hm. unfold parseTaskMetadataBlock. simpl.
  case_decide; [done|]. case_match; [done|]. by intros [= <-].
Qed.

(** A document, and the plan it parses to laid out again: the markers on lines of
    their own, the lines of an item joined, the stray whitespace gone. *)
Definition loose_lines : list string :=
  ["# Build "; "  twice"; "1. compile|c-1"; "1. link  [Approval]"; "# Check"; "## Fan"; "- unit"; "- e2e/run [approval]|e-2"].
Definition tidy_lines : list string :=
  ["# Build"; "twice"; "1. compile|c-1"; "1. link/[approval]"; "# Check"; "## Fan"; "- unit"; "- e2e run/[approval]|e-2"].
#[local] Notation laid_parse lines := (Parse (H:=id_json) (H0:=laid_markdown) (Join (char_str newline) lines)).

Lemma Parse_render_witness : laid_parse tidy_lines = laid_parse loose_lines ∧ ∃ p, laid_parse loose_lines = Some (Ok p).
Proof.
  assert (∃ p, laid_parse loose_lines = Some (Ok p)) as [p Hp] by (eexists; vm_compute; reflexivity).
  split; [|by exists p]. rewrite Hp.
  apply (Parse_render (H:=id_json) (H0:=laid_markdown) md_id (Join (char_str newline) loose_lines)); [exact id_json_prints|exact Hp|].
  vm_compute in Hp. injection Hp as <-. vm_compute. reflexivity.
Defined.
