(* ===== verification/PlanValidate.v ===== *)
(** * Import validation: [internal/plan/validate.go]

    The advisory findings of [Validate] on the block chain, the independence
    constraints, and the gate [ValidateForImport] an import passes. A finding is
    kept as data where the code renders it as a message. *)
From S2P Require Import Prelude GoLib PlanModel PlanParse.

Inductive Finding :=
| FEmptyPlan
| FNoPlanSteps
| FEmptyPeer (id : string)
| FSelfPeer (id : string)
| FUnknownPeer (id peer : string)
| FCycle (cycle : list string)
| FGroupNoSteps (heading : string)
| FLeadingParagraph (heading : string)
| FMixedLists (heading : string).

(** [PlanError]: line 0 applies to the whole document. *)
Record PlanError := mkPlanError { pe_line : Z; pe_msg : Finding }.
Definition whole_plan (f : Finding) : PlanError := mkPlanError 0 f.

(** ** The steps of a plan under their import ids *)

Definition step_id (path : list Z) (j : Z) (step : Step) : string :=
  match st_metadata step with
  | Some m => if decide (md_id m = "") then ID (mkRef path j) else md_id m
  | None => ID (mkRef path j)
  end.

Fixpoint plan_steps_group (g : Group) (path : list Z) : list (string * Step) :=
  over (λ j s, [(step_id path j s, s)]) 0 (gr_steps g) ++
  over (λ i sub, plan_steps_group sub (path ++ [i])) 0 (gr_subgroups g).

Definition walkPlanSteps (p : PlanDoc) : list (string * Step) :=
  over (λ i g, plan_steps_group g [i]) 0 (pl_groups p).

Fixpoint count_steps (g : Group) : nat := length (gr_steps g) + sum_list (count_steps <$> gr_subgroups g).
Definition countPlanSteps (groups : list Group) : nat := sum_list (count_steps <$> groups).

Definition different_from (s : Step) : list string :=
  match st_metadata s with Some m => TrimSpace <$> md_different_from m | None => [] end.

(** ** Cycles *)

Inductive Mark := Unvisited | OnStack | DoneMark.
#[export] Instance Mark_eq_dec : EqDecision Mark.
Proof. solve_decision. Defined.

Definition mark (state : gmap string Mark) (id : string) : Mark := default Unvisited (state !! id).

Section Cycles.
Context (peers : string → list string).

(** The loop over a node's peers, [visit] being the recursive call. *)
Fixpoint visit_peers
    (visit : string → gmap string Mark → list string → option (bool * gmap string Mark * list string))
    (ps : list string) (state : gmap string Mark) (cycle : list string)
    : option (bool * gmap string Mark * list string) :=
  match ps with
  | [] => Some (false, state, cycle)
  | peer :: ps' =>
      match mark state peer with
      | OnStack => Some (true, state, cycle ++ [peer])
      | Unvisited =>
          match visit peer state cycle with
          | Some (false, state', cycle') => visit_peers visit ps' state' cycle'
          | r => r
          end
      | DoneMark => visit_peers visit ps' state cycle
      end
  end.

Fixpoint visit_cycle (fuel : nat) (id : string) (state : gmap string Mark) (cycle : list string)
    : option (bool * gmap string Mark * list string) :=
  match fuel with
  | 0 => None
  | S n =>
      match visit_peers (visit_cycle n) (peers id) (<[id := OnStack]> state) (cycle ++ [id]) with
      | Some (false, state', cycle') => Some (false, <[id := DoneMark]> state', take (length cycle' - 1) cycle')
      | r => r
      end
  end.

(** The loop over every id: the first cycle found, if any. *)
Fixpoint find_cycle (fuel : nat) (order : list string) (state : gmap string Mark) : option (option (list string)) :=
  match order with
  | [] => Some None
  | id :: order' =>
      if decide (mark state id = Unvisited) then
        match visit_cycle fuel id state [] with
        | Some (true, _, cycle) => Some (Some cycle)
        | Some (false, state', _) => find_cycle fuel order' state'
        | None => None
        end
      else find_cycle fuel order' state
  end.
End Cycles.

(** [peers] and [order] of a plan. *)
Definition peer_edges (steps : list (string * Step)) : list (string * string) :=
  concat ((λ x, (λ peer, (x.1, peer)) <$> filter (λ peer, peer ≠ "" ∧ peer ≠ x.1) (different_from x.2)) <$> steps).

Definition peers_of (edges : list (string * string)) (id : string) : list string :=
  snd <$> filter (λ e, e.1 = id) edges.

(** One call per distinct node, and nodes are ids or peers. *)
Definition cycle_bound (steps : list (string * Step)) : nat := S (length steps + length (peer_edges steps)).

Definition validateDifferentFromAcyclic (p : PlanDoc) : option (list PlanError) :=
  let steps := walkPlanSteps p in
  match find_cycle (peers_of (peer_edges steps)) (cycle_bound steps) steps.*1 ∅ with
  | None => None
  | Some None => Some []
  | Some (Some cycle) => Some [whole_plan (FCycle cycle)]
  end.

(** ** Independence constraints *)

Definition peer_finding (known : list string) (id peer : string) : list PlanError :=
  if decide (peer = "") then [whole_plan (FEmptyPeer id)]
  else if decide (peer = id) then [whole_plan (FSelfPeer id)]
  else if decide (peer ∈ known) then [] else [whole_plan (FUnknownPeer id peer)].

Definition peer_findings (steps : list (string * Step)) : list PlanError :=
  concat ((λ x, concat (peer_finding steps.*1 x.1 <$> different_from x.2)) <$> steps).

Definition validateDifferentFrom (p : PlanDoc) : option (list PlanError) :=
  (λ cycles, peer_findings (walkPlanSteps p) ++ cycles) <$> validateDifferentFromAcyclic p.

(** ** Ambiguous sections *)

(** [lineOf] of a heading. *)
Definition lineOf (h : HeadingNode) (source : string) : Z :=
  let start := default (h_pos h) (h_start h) in
  if (start <? 0)%Z then 0%Z
  else (1 + Z.of_nat (length (filter (λ c, c = newline) (take (Z.to_nat start) (chars source)))))%Z.

Definition list_orders (body : list Block) : list bool :=
  omap (λ b, match b with BList ordered _ => Some ordered | _ => None end) body.

(** A non-empty paragraph before the first list. *)
Fixpoint leading_paragraph (body : list Block) : bool :=
  match body with
  | [] => false
  | BList _ _ :: _ => false
  | BParagraph text :: body' => negb (bool_decide (text = "")) || leading_paragraph body'
  | _ :: body' => leading_paragraph body'
  end.

Definition validateLeafSection (h : HeadingNode) (body : list Block) (source : string) : list PlanError :=
  let line := lineOf h source in
  let orders := list_orders body in
  match orders with
  | [] => [mkPlanError line (FGroupNoSteps (headingText h))]
  | _ =>
      (if leading_paragraph body then [mkPlanError line (FLeadingParagraph (headingText h))] else []) ++
      (if (1 <? length orders) && existsb id orders && existsb negb orders
       then [mkPlanError line (FMixedLists (headingText h))] else [])
  end.

Fixpoint validateSiblingHeadings (fuel : nat) (chain : list Block) (parentLevel : Z) (source : string)
    : option (list PlanError) :=
  match fuel with
  | 0 => None
  | S n =>
      match chain with
      | [] => Some []
      | BHeading h :: rest =>
          if (h_level h <=? parentLevel)%Z then Some []
          else
            let '(body, stop) := section (h_level h) rest in
            match (if existsb is_heading body then validateSiblingHeadings n rest (h_level h) source
                   else Some (validateLeafSection h body source)) with
            | None => None
            | Some errs => (λ errs', errs ++ errs') <$> validateSiblingHeadings n stop parentLevel source
            end
      | _ :: rest => validateSiblingHeadings n rest parentLevel source
      end
  end.

Definition Validate `{Markdown} (md : string) : option (list PlanError) :=
  let source := normalizeSource md in
  let chain := blocks_of source in
  validateSiblingHeadings (S (length chain)) chain 0 source.

(** ** The import gate *)

Inductive GateError :=
| ErrFindings (findings : list PlanError)
| ErrParse (e : MetaError).

(** [None]: accepted. The outer [option] is the fuel of the walks. *)
Definition ValidateForImport `{Json} `{Markdown} (md : string) : option (option GateError) :=
  if decide (TrimSpace md = "") then Some (Some (ErrFindings [whole_plan FEmptyPlan]))
  else
    match Validate md with
    | None => None
    | Some (f :: fs) => Some (Some (ErrFindings (f :: fs)))
    | Some [] =>
        match Parse md with
        | None => None
        | Some (Err e) => Some (Some (ErrParse e))
        | Some (Ok parsed) =>
            if decide (countPlanSteps (pl_groups parsed) = 0) then
              Some (Some (ErrFindings [whole_plan FNoPlanSteps]))
            else
              match validateDifferentFrom parsed with
              | None => None
              | Some [] => Some None
              | Some fs => Some (Some (ErrFindings fs))
              end
        end
    end.
