(* ===== verification/PlanValidateProps.v ===== *)
(** * Properties of import validation

    The three-colour walk decides whether the independence constraints are
    circular; the import gate accepts exactly the plans the dispatcher can
    serve. *)
From S2P Require Import Prelude GoLib PlanModel PlanFacts PlanImport PlanParse PlanParseProps PlanValidate.

(** ** Paths *)

Section Paths.
Context {A : Type} (edge : A → A → Prop).

(** Consecutive elements are connected. *)
Fixpoint linked (l : list A) : Prop :=
  match l with
  | a :: (b :: _) as l' => edge a b ∧ linked l'
  | _ => True
  end.

Lemma linked_snoc l a b : linked (l ++ [a]) → edge a b → linked ((l ++ [a]) ++ [b]).
Proof.
  induction l as [|x l IH]; simpl; [done|]. destruct l as [|y l]; simpl in *; [naive_solver|].
  intros [? ?] ?. split; [done|]. by apply IH.
Qed.

Lemma linked_app_r l1 l2 : linked (l1 ++ l2) → linked l2.
Proof.
  induction l1 as [|a l1 IH]; [done|]. simpl. destruct (l1 ++ l2) eqn:He; [|intros [_ ?]; by apply IH].
  by apply app_eq_nil in He as [-> ->].
Qed.

Lemma linked_tc a l b : linked (a :: l ++ [b]) → tc edge a b.
Proof.
  revert a. induction l as [|x l IH]; intros a; simpl.
  - intros [? _]. by apply tc_once.
  - intros [? ?]. eapply tc_l; [done|]. by apply IH.
Qed.

(** A path that comes back to one of its elements closes a cycle. *)
Lemma linked_cycle l x : linked (l ++ [x]) → x ∈ l → tc edge x x.
Proof.
  intros Hl (l1 & l2 & ->)%list_elem_of_split. rewrite <-app_assoc in Hl. by apply linked_app_r, linked_tc in Hl.
Qed.

Lemma acc_acyclic x : Acc (flip edge) x → ¬ tc edge x x.
Proof.
  induction 1 as [x _ IH]. intros Hx.
  assert (∃ y, edge x y ∧ rtc edge y x) as (y & Hy & Hyx).
  { inversion Hx as [? z|? y z]; subst; eauto using tc_rtc, rtc_refl. }
  apply (IH y Hy). by eapply tc_rtc_l, tc_once.
Qed.
End Paths.

(** ** The walk *)

Section Walk.
Context (peers : string → list string).

Definition edge_to (a b : string) : Prop := b ∈ peers a.

(** The marks say what the stack holds and that finished nodes lie on no
    cycle. *)
Record marks_ok (state : gmap string Mark) (cycle : list string) : Prop := {
  mk_stack : ∀ x, mark state x = OnStack ↔ x ∈ cycle;
  mk_done : ∀ x, mark state x = DoneMark → Acc (flip edge_to) x }.

(** Marks only advance, and settled ones stay. *)
Definition advances (state state' : gmap string Mark) : Prop :=
  ∀ x, mark state x ≠ Unvisited → mark state' x = mark state x.

(** How a visit ends: back where it was, or on a path that closes a cycle. *)
Definition visited (state : gmap string Mark) (cycle : list string) (goal : gmap string Mark → Prop)
    (r : option (bool * gmap string Mark * list string)) : Prop :=
  match r with
  | None => True
  | Some (true, _, path) => linked edge_to path ∧ ∃ l x, path = l ++ [x] ∧ x ∈ l
  | Some (false, state', cycle') => cycle' = cycle ∧ marks_ok state' cycle ∧ advances state state' ∧ goal state'
  end.

Definition visit_spec (visit : string → gmap string Mark → list string → option (bool * gmap string Mark * list string))
    : Prop :=
  ∀ id state cycle, marks_ok state cycle → mark state id = Unvisited → linked edge_to (cycle ++ [id]) →
    visited state cycle (λ state', mark state' id = DoneMark) (visit id state cycle).

Lemma advances_trans s1 s2 s3 : advances s1 s2 → advances s2 s3 → advances s1 s3.
Proof. intros H12 H23 x Hx. rewrite H23; [by apply H12|]. by rewrite H12. Qed.

Lemma advances_done s s' x : advances s s' → mark s x = DoneMark → mark s' x = DoneMark.
Proof. intros Hadv Hx. rewrite (Hadv x); [done|]. by rewrite Hx. Qed.

Lemma mark_insert state id m x : mark (<[id := m]> state) x = if decide (x = id) then m else mark state x.
Proof. unfold mark. case_decide; subst; by simplify_map_eq. Qed.

Lemma visited_weaken s1 s2 cycle (goal1 goal2 : gmap string Mark → Prop) r :
  visited s2 cycle goal2 r → advances s1 s2 → (∀ s, advances s2 s → goal2 s → goal1 s) → visited s1 cycle goal1 r.
Proof.
  destruct r as [[[[] s] c]|]; [by intros| |by intros]. intros (Hc & Hok & Hadv & Hg) H12 Himp.
  split_and!; [exact Hc|exact Hok|by eapply advances_trans|by apply Himp].
Qed.

Lemma visit_peers_spec visit ps state cycle last_ :
  visit_spec visit → marks_ok state (cycle ++ [last_]) → linked edge_to (cycle ++ [last_]) →
  Forall (edge_to last_) ps →
  visited state (cycle ++ [last_]) (λ state', Forall (λ p, mark state' p = DoneMark) ps)
    (visit_peers visit ps state (cycle ++ [last_])).
Proof.
  intros Hv Hok Hl Hps. revert state Hok. induction Hps as [|p ps Hp Hps IH]; intros state Hok; simpl.
  { by split_and!. }
  destruct (mark state p) eqn:Hm.
  - assert (linked edge_to ((cycle ++ [last_]) ++ [p])) as Hl' by by apply linked_snoc.
    specialize (Hv p state (cycle ++ [last_]) Hok Hm Hl').
    destruct (visit p state (cycle ++ [last_])) as [[[[] st'] c']|]; [exact Hv| |exact I].
    destruct Hv as (-> & Hok' & Hadv & Hd). eapply visited_weaken; [by apply IH|done|].
    intros s Hs Hf. constructor; [|done]. by eapply advances_done.
  - split; [by apply linked_snoc|]. exists (cycle ++ [last_]), p. split; [done|]. by apply Hok.
  - eapply visited_weaken; [by apply IH|by intros x|].
    intros s Hs Hf. constructor; [|done]. by eapply advances_done.
Qed.

Lemma visit_cycle_spec fuel : visit_spec (visit_cycle peers fuel).
Proof.
  induction fuel as [|fuel IH]; intros id state cycle Hok Hun Hl; simpl; [done|].
  assert (id ∉ cycle) as Hid by (intros Hin%Hok; congruence).
  assert (marks_ok (<[id := OnStack]> state) (cycle ++ [id])) as Hok1.
  { split; intros x; rewrite mark_insert.
    - rewrite elem_of_app, list_elem_of_singleton, <-(mk_stack _ _ Hok). case_decide; naive_solver.
    - case_decide; [done|]. apply Hok. }
  pose proof (visit_peers_spec _ (peers id) _ cycle id IH Hok1 Hl) as Hp.
  destruct (visit_peers _ _ _ _) as [[[[] st'] c']|]; [|..|exact I].
  { apply Hp. by apply Forall_forall. }
  destruct Hp as (-> & Hok' & Hadv & Hd); [by apply Forall_forall|].
  rewrite length_app, Nat.add_sub, take_app_length. split_and!.
  - done.
  - split; intros x; rewrite mark_insert; case_decide as Hx; subst.
    + split; [done|]. by intros.
    + rewrite (mk_stack _ _ Hok'), elem_of_app, list_elem_of_singleton. naive_solver.
    + intros _. constructor. intros y Hy. rewrite Forall_forall in Hd. apply Hok', Hd, Hy.
    + apply Hok'.
  - intros x Hx. rewrite mark_insert. case_decide; subst; [done|]. rewrite Hadv; rewrite mark_insert; by case_decide.
  - rewrite mark_insert. by case_decide.
Qed.

Lemma find_cycle_spec fuel order state :
  marks_ok state [] →
  match find_cycle peers fuel order state with
  | None => True
  | Some (Some path) => linked edge_to path ∧ ∃ l x, path = l ++ [x] ∧ x ∈ l
  | Some None => ∀ x, x ∈ order ∨ mark state x = DoneMark → Acc (flip edge_to) x
  end.
Proof.
  revert state. induction order as [|id order IH]; intros state Hok; simpl.
  - intros x [[]%elem_of_nil|Hx]. exact (mk_done _ _ Hok x Hx).
  - case_decide as Hm.
    + pose proof (visit_cycle_spec fuel id state [] Hok Hm I) as Hv.
      destruct (visit_cycle peers fuel id state []) as [[[[] st'] c']|]; [exact Hv| |exact I].
      destruct Hv as (-> & Hok' & Hadv & Hd). specialize (IH st' Hok').
      destruct (find_cycle peers fuel order st') as [[]|]; [exact IH| |exact I].
      intros x [Hx|Hx]; [apply elem_of_cons in Hx as [->|?]|]; apply IH; [by right|by left|].
      right. by eapply advances_done.
    + specialize (IH state Hok). destruct (find_cycle peers fuel order state) as [[]|]; [exact IH| |exact I].
      intros x [[->|Hx]%elem_of_cons|Hx]; apply IH; auto. right.
      destruct (mark state id) eqn:He; [done| |done]. by apply Hok in He as ?%elem_of_nil.
Qed.

(** *** Fuel: a call marks a node that was unvisited *)

Context (U : list string) (HU : ∀ x p, p ∈ peers x → p ∈ U).

Definition fresh_nodes (state : gmap string Mark) : nat := length (filter (λ x, mark state x = Unvisited) U).

Lemma fresh_advances state state' : advances state state' → fresh_nodes state' ≤ fresh_nodes state.
Proof.
  intros Hadv. unfold fresh_nodes. generalize U. intros l. induction l as [|x l IH]; [done|].
  rewrite !filter_cons. specialize (Hadv x). repeat case_decide; simpl; try lia. exfalso. intuition congruence.
Qed.

Lemma fresh_insert state id m :
  id ∈ U → mark state id = Unvisited → m ≠ Unvisited → fresh_nodes (<[id := m]> state) < fresh_nodes state.
Proof.
  intros Hin Hm Hn. unfold fresh_nodes.
  assert (∀ l, length (filter (λ x, mark (<[id := m]> state) x = Unvisited) l) ≤
               length (filter (λ x, mark state x = Unvisited) l)) as Hle.
  { intros l. induction l as [|x l IH]; [done|]. rewrite !filter_cons.
    rewrite mark_insert. repeat case_decide; simpl; try lia; congruence. }
  clear HU. revert Hin. generalize U. intros l. induction l as [|x l IH]; intros Hin.
  { by apply elem_of_nil in Hin. }
  rewrite !filter_cons, mark_insert. apply elem_of_cons in Hin as [<-|Hin].
  - specialize (Hle l). repeat case_decide; simpl; try lia; congruence.
  - specialize (IH Hin). repeat case_decide; simpl; try lia; congruence.
Qed.

Lemma visit_peers_total visit n ps state cycle :
  (∀ id state cycle, id ∈ U → mark state id = Unvisited → fresh_nodes state ≤ n →
     match visit id state cycle with
     | None => False | Some (true, _, _) => True | Some (false, state', _) => advances state state' end) →
  Forall (λ p, p ∈ U) ps → fresh_nodes state ≤ n →
  match visit_peers visit ps state cycle with
  | None => False | Some (true, _, _) => True | Some (false, state', _) => advances state state' end.
Proof.
  intros Hv Hps. revert state cycle. induction Hps as [|p ps Hp Hps IH]; intros state cycle Hn; simpl; [done|].
  destruct (mark state p) eqn:Hm; [|done|by apply IH].
  specialize (Hv p state cycle Hp Hm Hn).
  destruct (visit p state cycle) as [[[[] st'] c']|]; try done.
  specialize (IH st' c'). pose proof (fresh_advances _ _ Hv).
  specialize (IH ltac:(lia)). destruct (visit_peers visit ps st' c') as [[[[] st''] c'']|]; try done.
  by eapply advances_trans.
Qed.

Lemma visit_cycle_total n id state cycle :
  id ∈ U → mark state id = Unvisited → fresh_nodes state ≤ n →
  match visit_cycle peers n id state cycle with
  | None => False | Some (true, _, _) => True | Some (false, state', _) => advances state state' end.
Proof.
  revert id state cycle. induction n as [|n IH]; intros id state cycle Hid Hm Hn.
  { pose proof (fresh_insert state id OnStack Hid Hm ltac:(done)). lia. }
  simpl. pose proof (fresh_insert state id OnStack Hid Hm ltac:(done)).
  pose proof (visit_peers_total (visit_cycle peers n) n (peers id) (<[id:=OnStack]> state) (cycle ++ [id]) IH) as Hp.
  specialize (Hp ltac:(apply Forall_forall; intros q Hq; by eapply HU) ltac:(lia)).
  destruct (visit_peers _ _ _ _) as [[[[] st'] c']|]; try done.
  intros x Hx. rewrite mark_insert. case_decide; subst; [done|].
  rewrite (Hp x), mark_insert; [by rewrite decide_False|]. rewrite mark_insert. by rewrite decide_False.
Qed.

Lemma find_cycle_total n order state :
  Forall (λ x, x ∈ U) order → fresh_nodes state ≤ n → find_cycle peers n order state ≠ None.
Proof.
  intros Ho. revert state. induction Ho as [|id order Hid Ho IH]; intros state Hn; simpl; [done|].
  case_decide as Hm; [|by apply IH]. pose proof (visit_cycle_total n id state [] Hid Hm Hn) as Hv.
  destruct (visit_cycle peers n id state []) as [[[[] st'] c']|]; try done.
  apply IH. pose proof (fresh_advances _ _ Hv). lia.
Qed.
End Walk.

(** ** The independence constraints *)

(** [a] may only run on a provider of a different domain than [b]. *)
Definition independence (p : PlanDoc) (a b : string) : Prop :=
  edge_to (peers_of (peer_edges (walkPlanSteps p))) a b.

Lemma independence_edge p a b : independence p a b ↔ (a, b) ∈ peer_edges (walkPlanSteps p).
Proof.
  unfold independence, edge_to, peers_of. rewrite list_elem_of_fmap. split.
  - intros ([x y] & -> & [Hx Hin]%list_elem_of_filter). simpl in *. by subst.
  - intros Hin. exists (a, b). rewrite list_elem_of_filter. done.
Qed.

Lemma peer_edges_elem steps a b :
  (a, b) ∈ peer_edges steps ↔ ∃ s, (a, s) ∈ steps ∧ b ∈ different_from s ∧ b ≠ "" ∧ b ≠ a.
Proof.
  unfold peer_edges. rewrite list_elem_of_In, in_concat. split.
  - intros (l & Hl%list_elem_of_In & Hin%list_elem_of_In). apply list_elem_of_fmap in Hl as ([i s] & -> & Hs).
    apply list_elem_of_fmap in Hin as (y & He & [[??] Hy]%list_elem_of_filter). simpl in *. simplify_eq. eauto.
  - intros (s & Hs & Hb & Hne & Hna). eexists. split; apply list_elem_of_In.
    + apply list_elem_of_fmap. by exists (a, s).
    + apply list_elem_of_fmap. exists b. split; [done|]. by apply list_elem_of_filter.
Qed.

Lemma acyclic_check p :
  match validateDifferentFromAcyclic p with
  | None => False
  | Some [] => ∀ x, ¬ tc (independence p) x x
  | Some [f] => ∃ path x, f = whole_plan (FCycle (path ++ [x])) ∧ x ∈ path ∧ linked (independence p) (path ++ [x])
  | Some _ => False
  end.
Proof.
  unfold validateDifferentFromAcyclic. set (steps := walkPlanSteps p).
  set (peers := peers_of (peer_edges steps)).
  assert (marks_ok peers ∅ []) as Hok.
  { split; intros x; unfold mark; rewrite lookup_empty; simpl; [|done]. split; [done|]. by intros ?%elem_of_nil. }
  pose proof (find_cycle_spec peers (cycle_bound steps) steps.*1 ∅ Hok) as Hs.
  assert (find_cycle peers (cycle_bound steps) steps.*1 ∅ ≠ None) as Ht.
  { apply (find_cycle_total peers (steps.*1 ++ (peer_edges steps).*2)).
    - intros a b Hab. apply elem_of_app. right. apply (independence_edge p) in Hab.
      apply list_elem_of_fmap. by exists (a, b).
    - apply Forall_forall. intros x Hx. apply elem_of_app. by left.
    - unfold fresh_nodes. etrans; [apply length_filter|].
      rewrite length_app, !length_fmap. unfold cycle_bound. lia. }
  destruct (find_cycle peers (cycle_bound steps) steps.*1 ∅) as [[path|]|]; [| |done].
  - destruct Hs as (Hl & l & x & -> & Hx). by exists l, x.
  - intros x Hx. apply (acc_acyclic (independence p) x); [|done]. apply Hs. left.
    assert (∃ y, independence p x y) as (y & Hy%independence_edge).
    { inversion Hx; subst; eauto. }
    apply peer_edges_elem in Hy as (s & Hin & _). apply list_elem_of_fmap. by exists (x, s).
Qed.

Lemma peer_findings_nil steps :
  peer_findings steps = [] ↔
  ∀ i s peer, (i, s) ∈ steps → peer ∈ different_from s → peer ≠ "" ∧ peer ≠ i ∧ peer ∈ steps.*1.
Proof.
  unfold peer_findings.
  assert (∀ {A B} (f : A → list B) l, concat (f <$> l) = [] ↔ ∀ x, x ∈ l → f x = []) as Hnil.
  { intros A B f l. induction l as [|a l IH]; simpl.
    - split; [|done]. by intros _ x ?%elem_of_nil.
    - rewrite app_nil, IH. setoid_rewrite elem_of_cons. naive_solver. }
  rewrite Hnil. split.
  - intros Hf i s peer Hin Hp. specialize (Hf _ Hin). rewrite Hnil in Hf. specialize (Hf _ Hp).
    unfold peer_finding in Hf. repeat case_decide; simplify_eq. done.
  - intros Hf [i s] Hin. rewrite Hnil. intros peer Hp. destruct (Hf _ _ _ Hin Hp) as (? & ? & ?).
    unfold peer_finding. rewrite decide_False, decide_False, decide_True by done. done.
Qed.

Lemma validate_total fuel chain lvl source :
  length chain < fuel → validateSiblingHeadings fuel chain lvl source ≠ None.
Proof.
  revert chain lvl. induction fuel as [|fuel IH]; intros chain lvl Hf; [lia|].
  destruct chain as [|[h|o i|t|] rest]; simpl in Hf |- *; [done| |apply IH; lia..].
  case_match; [done|]. destruct (section (h_level h) rest) as [body stop] eqn:Hs. apply section_length in Hs.
  pose proof (IH rest (h_level h) ltac:(lia)). pose proof (IH stop lvl ltac:(lia)).
  destruct (existsb is_heading body), (validateSiblingHeadings fuel rest (h_level h) source),
    (validateSiblingHeadings fuel stop lvl source); done.
Qed.

(** circular independence constraints are found, and nothing else is called
    circular. The three-colour walk finishes within its fuel on every plan; it
    reports no finding exactly when no task must, through any chain of
    [differentFrom] entries, wait for itself, and otherwise a single finding
    whose path follows the declared constraints and returns to a task on it. *)
Theorem validateDifferentFromAcyclic_decides p :
  match validateDifferentFromAcyclic p with
  | None => False
  | Some [] => ∀ x, ¬ tc (independence p) x x
  | Some [f] => ∃ path x, f = whole_plan (FCycle (path ++ [x])) ∧
                  linked (independence p) (path ++ [x]) ∧ x ∈ path ∧ tc (independence p) x x
  | Some _ => False
  end.
Proof.
  pose proof (acyclic_check p) as Hc. destruct (validateDifferentFromAcyclic p) as [[|f [|]]|]; try exact Hc.
  destruct Hc as (path & x & -> & Hx & Hl). exists path, x. split_and!; try done. by eapply linked_cycle.
Qed.

(** ** The import gate *)

Lemma plan_steps_nodes g path :
  group_wf g → plan_steps_group g path = (λ n, (node_id n, nd_step n)) <$> nodes_group g path.
Proof.
  revert path. induction g as [g IH] using Group_ind'. intros path Hw.
  inversion Hw as [h lv par steps Hs|h lv subs Hl Hs]; subst; simpl in *.
  - rewrite app_nil_r. unfold leaf_nodes. rewrite over_fmap. done.
  - assert (over (λ i sub, plan_steps_group sub (path ++ [i])) 0 subs =
            (λ n, (node_id n, nd_step n)) <$> over (λ i sub, nodes_group sub (path ++ [i])) 0 subs) as Heq.
    { rewrite over_fmap. apply over_ext. intros i g Hg. rewrite Forall_forall in *. apply IH; auto. }
    destruct subs as [|g gs]; [done|exact Heq].
Qed.

(** Validation sees the steps under the ids the importer will give them. *)
Lemma walkPlanSteps_nodes p :
  Forall group_wf (pl_groups p) → walkPlanSteps p = (λ n, (node_id n, nd_step n)) <$> walk (pl_groups p) [].
Proof.
  intros Hw. unfold walkPlanSteps, walk. rewrite over_fmap. apply over_ext.
  intros i g Hg. apply plan_steps_nodes. rewrite Forall_forall in Hw. auto.
Qed.

Lemma count_steps_walk g path : count_steps g = length (plan_steps_group g path).
Proof.
  revert path. induction g as [g IH] using Group_ind'. intros path. destruct g as [h lv par steps subs]; simpl in *.
  rewrite length_app. f_equal.
  - generalize 0%Z. induction steps as [|s steps IHs]; intros j; [done|]. simpl. by rewrite (IHs (j + 1)%Z) at 1.
  - generalize 0%Z. induction IH as [|g gs Hg Hgs IHgs]; intros j; [done|]. simpl.
    rewrite length_app, <-IHgs. f_equal. apply Hg.
Qed.

Lemma countPlanSteps_walk p : countPlanSteps (pl_groups p) = length (walkPlanSteps p).
Proof.
  unfold countPlanSteps, walkPlanSteps. generalize 0%Z. induction (pl_groups p) as [|g gs IH]; intros j; [done|].
  simpl. rewrite length_app, <-IH. f_equal. apply count_steps_walk.
Qed.

(** What the importer may rely on: an accepted plan has steps, and its
    independence constraints name other tasks of the plan, without a circle. *)
Record importable (p : PlanDoc) : Prop := {
  imp_steps : walk (pl_groups p) [] ≠ [];
  imp_peers : ∀ n peer, n ∈ walk (pl_groups p) [] → peer ∈ different_from (nd_step n) →
    peer ≠ node_id n ∧ peer ∈ node_id <$> walk (pl_groups p) [];
  imp_acyclic : ∀ x, ¬ tc (λ a b, ∃ n, n ∈ walk (pl_groups p) [] ∧ node_id n = a ∧ b ∈ different_from (nd_step n)) x x }.

Lemma validateDifferentFrom_nil p :
  validateDifferentFrom p = Some [] ↔
  (∀ i s peer, (i, s) ∈ walkPlanSteps p → peer ∈ different_from s → peer ≠ "" ∧ peer ≠ i ∧ peer ∈ (walkPlanSteps p).*1) ∧
  (∀ x, ¬ tc (independence p) x x).
Proof.
  unfold validateDifferentFrom. rewrite <-peer_findings_nil. pose proof (acyclic_check p) as Hc.
  destruct (validateDifferentFromAcyclic p) as [[|f [|]]|]; try done; simpl.
  - rewrite app_nil_r. split; [|by intros [-> _]]. intros Heq. split; [|exact Hc]. congruence.
  - destruct Hc as (path & x & -> & Hx & Hl). split; [intros Heq; apply (inj Some), app_nil in Heq as [_ ?]; done|].
    intros [_ Ha]. exfalso. apply (Ha x). by eapply linked_cycle.
Qed.

Lemma importable_of p :
  Forall group_wf (pl_groups p) → walkPlanSteps p ≠ [] → validateDifferentFrom p = Some [] → importable p.
Proof.
  intros Hw Hn [Hpeers Hac]%validateDifferentFrom_nil.
  assert (∀ n, n ∈ walk (pl_groups p) [] → (node_id n, nd_step n) ∈ walkPlanSteps p) as Hin.
  { intros n Hn'. rewrite walkPlanSteps_nodes by done. apply list_elem_of_fmap. by exists n. }
  split.
  - intros He. rewrite walkPlanSteps_nodes, He in Hn by done. done.
  - intros n peer Hn' Hp. destruct (Hpeers _ _ _ (Hin n Hn') Hp) as (_ & ? & Hk). split; [done|].
    rewrite walkPlanSteps_nodes, <-list_fmap_compose in Hk by done. done.
  - intros x Hx. apply (Hac x). revert Hx. generalize x at 2 4. intros y.
    induction 1 as [a b Hab|a b c Hab Hbc IH]; [apply tc_once|eapply tc_l; [|apply IH]].
    all: apply independence_edge, peer_edges_elem; destruct Hab as (n & Hn' & <- & Hb); exists (nd_step n).
    all: destruct (Hpeers _ _ _ (Hin n Hn') Hb) as (? & ? & _); auto.
Qed.

Lemma validateDifferentFrom_total p : validateDifferentFrom p ≠ None.
Proof.
  unfold validateDifferentFrom. pose proof (acyclic_check p). by destruct (validateDifferentFromAcyclic p).
Qed.

(** The verdict, once the walks are known to finish. *)
Lemma ValidateForImport_verdict `{Json} `{Markdown} md :
  ValidateForImport md ≠ None ∧
  (ValidateForImport md = Some None ↔
     TrimSpace md ≠ "" ∧ Validate md = Some [] ∧
     ∃ p, Parse md = Some (Ok p) ∧ walkPlanSteps p ≠ [] ∧ validateDifferentFrom p = Some []).
Proof.
  unfold ValidateForImport. case_decide as Ht; [split; [done|]; split; [done|by intros [? _]]|].
  pose proof (validate_total (S (length (blocks_of (normalizeSource md)))) (blocks_of (normalizeSource md)) 0
    (normalizeSource md) ltac:(lia)) as Hv. fold (Validate md) in Hv.
  destruct (Validate md) as [[|f fs]|]; [|split; [done|]; split; [done|by intros (_ & ? & _)]|done].
  pose proof (Parse_wf md) as Hp.
  destruct (Parse md) as [[p|e]|]; [|split; [done|]; split; [done|by intros (_ & _ & p & ? & _)]|done].
  assert (countPlanSteps (pl_groups p) = 0 ↔ walkPlanSteps p = []) as Hc.
  { rewrite countPlanSteps_walk. apply length_zero_iff_nil. }
  case_decide as Hz.
  { split; [done|]. split; [done|]. intros (_ & _ & p' & Hp' & Hn & _). apply (inj Some) in Hp' as [= ->]. tauto. }
  pose proof (validateDifferentFrom_total p) as Hd.
  destruct (validateDifferentFrom p) as [[|g gs]|] eqn:He; [| |done]; (split; [done|]); split; try done.
  - intros _. split_and!; [done..|]. exists p. split_and!; [done| |done]. tauto.
  - intros (_ & _ & p' & Hp' & _ & Hd'). apply (inj Some) in Hp' as [= ->]. congruence.
Qed.

(** the import gate. On every document the gate reaches a verdict within its
    fuel. It accepts exactly a non-blank document with no ambiguous section that
    parses into a plan with at least one step, whose independence constraints
    each name another task under the id it will be imported with, and are not
    circular; so every accepted plan is one the importer can serve. *)
Theorem ValidateForImport_correct `{Json} `{Markdown} md :
  ValidateForImport md ≠ None ∧
  (ValidateForImport md = Some None ↔
     TrimSpace md ≠ "" ∧ Validate md = Some [] ∧ ∃ p, Parse md = Some (Ok p) ∧
     walkPlanSteps p ≠ [] ∧
     (∀ i s peer, (i, s) ∈ walkPlanSteps p → peer ∈ different_from s → peer ≠ "" ∧ peer ≠ i ∧ peer ∈ (walkPlanSteps p).*1) ∧
     (∀ x, ¬ tc (independence p) x x)) ∧
  (ValidateForImport md = Some None → ∃ p, Parse md = Some (Ok p) ∧ importable p).
Proof.
  destruct (ValidateForImport_verdict md) as [Ht Hiff].
  split_and!; [exact Ht| |].
  - rewrite Hiff. split; intros (Ht' & Hv & p & Hp & Hn & Hd);
      (split; [exact Ht'|split; [exact Hv|exists p; split; [exact Hp|split; [exact Hn|]]]]);
      by apply (validateDifferentFrom_nil p).
  - intros (_ & _ & p & Hp & Hn & Hd)%Hiff. exists p. split; [exact Hp|]. apply importable_of; [|exact Hn|exact Hd].
    pose proof (Parse_wf md) as Hw. rewrite Hp in Hw. apply Hw.
Qed.

(** The gate on concrete documents: a note before its list is ambiguous, after
    it it is the steps' detail. *)
Example gate_refuses_leading_note :
  ValidateForImport (H:=toy_json) (H0:=toy_markdown) (Join (char_str newline) demo_lines) =
  Some (Some (ErrFindings [mkPlanError 1 (FLeadingParagraph "Build")])).
Proof. vm_compute. reflexivity. Qed.

Example gate_accepts_trailing_note :
  ValidateForImport (H:=toy_json) (H0:=toy_markdown)
    (Join (char_str newline) ["# Build"; "1. compile"; "1. link"; "twice"; "# Check"; "## Fan"; "- unit"]) = Some None.
Proof. vm_compute. reflexivity. Qed.

Definition ring_step (id : string) (peers : list string) : Step :=
  mkStep id "" false (Some (mkTaskMetadata id None "" zero_task_binding [] [] peers [] [])).
Definition ring_doc : PlanDoc := mkPlanDoc
  [mkGroup "Reviews" 1 true [ring_step "a" ["b"]; ring_step "b" ["c"]; ring_step "c" ["b"; "a"]] []].

Example ring_is_found :
  validateDifferentFrom ring_doc = Some [whole_plan (FCycle ["a"; "b"; "c"; "b"])].
Proof. vm_compute. reflexivity. Qed.
