(* ===== verification/OrchSpend.v ===== *)
(** * Spend caps and plan progress: [internal/orch/spend.go]

    The in-flight reservations of capped providers, the ledger they protect, and
    the turns that take and release them. *)
From S2P Require Import Prelude GoLib StoreModel StoreSql StoreTasks StoreGraph StoreProjects PlanModel PlanParse.

Section Spend.
Context `{CostOps}.

Inductive SpendError :=
| ErrProviderTurnInFlight (provider : string)
| ErrSpendCapExceeded (provider : string) (spent cap : Cost).

(** What the orchestrator holds: [spendCapUSD], [capInFlight], and the store's
    ledger. *)
Record Spending := mkSpending {
  so_caps : gmap string Cost;
  so_inflight : gmap string Z;
  so_registry : Registry }.

Definition set_inflight f (o : Spending) : Spending := mkSpending (so_caps o) (f (so_inflight o)) (so_registry o).
Definition set_registry r (o : Spending) : Spending := mkSpending (so_caps o) (so_inflight o) r.

Definition see_workers (ws : gset string) (o : Spending) : Spending := set_registry (with_workers ws (so_registry o)) o.

Definition spendKey (projectID providerName : string) : string :=
  projectID +:+ String Ascii.zero providerName.

(** The configured cap of a capped provider. *)
Definition cap_of (o : Spending) (providerName : string) : option Cost :=
  match so_caps o !! providerName with
  | Some c => if cost_positive c then Some c else None
  | None => None
  end.

(** A missing key reads as zero. *)
Definition inflight (o : Spending) (key : string) : Z := default 0%Z (so_inflight o !! key).

Definition checkSpendCap (projectID providerName : string) (o : Spending) : result SpendError unit * Spending :=
  match cap_of o providerName with
  | None => (Ok tt, o)
  | Some capUSD =>
      let key := spendKey projectID providerName in
      if (0 <? inflight o key)%Z then (Err (ErrProviderTurnInFlight providerName), o)
      else
        let spent := default cost_zero (ProjectSpendByProvider projectID providerName (so_registry o)) in
        if cost_geb spent capUSD then (Err (ErrSpendCapExceeded providerName spent capUSD), o)
        else (Ok tt, set_inflight <[key := (inflight o key + 1)%Z]> o)
  end.

Definition releaseSpendReservation (projectID providerName : string) (o : Spending) : Spending :=
  match cap_of o providerName with
  | None => o
  | Some _ =>
      let key := spendKey projectID providerName in
      if (0 <? inflight o key)%Z then set_inflight <[key := (inflight o key - 1)%Z]> o else o
  end.

(** A provider's report of one turn. *)
Record Usage := mkUsage { us_input : Z; us_output : Z; us_cached : Z; us_cost : Cost }.

Definition recordUsage (projectID workerID providerName model : string) (usage : Usage) (o : Spending)
    : result StoreError unit * Spending :=
  let '(r, g) := RecordSpend (mkSpendOpts projectID workerID providerName model
                    (us_input usage) (us_output usage) (us_cached usage) (us_cost usage)) (so_registry o) in
  (r, set_registry g o).

(** ** Turns

    A turn is launched when the cap admits it and ends with its usage recorded
    (or the recording refused) and its reservation released; one abandoned
    before launch only releases. The workers table changes meanwhile. *)
Record Turn := mkTurn { tn_project : string; tn_provider : string }.

Record Dispatch := mkDispatch { dp_spending : Spending; dp_turns : list Turn }.

Inductive spend_step : Dispatch → Dispatch → Prop :=
| step_launch o o' turns p a :
    no_char Ascii.zero p → no_char Ascii.zero a → checkSpendCap p a o = (Ok tt, o') →
    spend_step (mkDispatch o turns) (mkDispatch o' (mkTurn p a :: turns))
| step_refuse o o' turns p a e :
    checkSpendCap p a o = (Err e, o') → spend_step (mkDispatch o turns) (mkDispatch o' turns)
| step_settle o o' r turns1 turns2 p a worker model usage :
    recordUsage p worker a model usage o = (r, o') →
    spend_step (mkDispatch o (turns1 ++ mkTurn p a :: turns2))
               (mkDispatch (releaseSpendReservation p a o') (turns1 ++ turns2))
| step_abandon o turns1 turns2 p a :
    spend_step (mkDispatch o (turns1 ++ mkTurn p a :: turns2))
               (mkDispatch (releaseSpendReservation p a o) (turns1 ++ turns2))
| step_workers o turns ws : spend_step (mkDispatch o turns) (mkDispatch (see_workers ws o) turns).

Definition idle (caps : gmap string Cost) (g : Registry) : Dispatch := mkDispatch (mkSpending caps ∅ g) [].
End Spend.

(** ** Progress *)

Record Progress := mkProgress { pr_done : nat; pr_total : nat }.

(** [doneSet]: the satisfied tasks of the plan, by task id. *)
Definition doneSet `{SqlEngine} (planID : string) (s : DB) : DoneSet :=
  list_to_set ((λ row : TaskRow, row.1.2) <$>
    filter (λ row : TaskRow, t_status row.2 ∈ [TaskStatusDone; TaskStatusSkipped; TaskStatusDecomposed]) (ListTasks planID [] s)).

Inductive ProgressError := ErrLoadPlan (e : StoreError) | ErrParsePlan (e : MetaError) | ErrParseFuel.

Definition PlanProgress `{SqlEngine} `{Json} `{Markdown} (planID : string) (s : DB) : result ProgressError Progress :=
  match (GetPlan planID s).1 with
  | Err e => Err (ErrLoadPlan e)
  | Ok storedPlan =>
      match Parse (coalesce (p_source storedPlan)) with
      | None => Err ErrParseFuel
      | Some (Err e) => Err (ErrParsePlan e)
      | Some (Ok parsedPlan) =>
          let done := doneSet planID s in
          let ids := StepIDs parsedPlan in
          Ok (mkProgress (length (filter (λ id, id ∈ done) ids)) (length ids))
      end
  end.
