(* ===== verification/OrchSpendProps.v ===== *)
(** * Properties of spend caps and plan progress *)
From S2P Require Import Prelude GoLib StoreModel StoreSql StoreTasks StoreGraph StoreProjects StoreProjectsProps PlanModel PlanFacts PlanImport PlanEdges PlanProps PlanParse PlanParseProps StoreTrace StoreProps OrchSpend.

Section Spend.
Context `{CostOps}.

#[export] Instance Turn_eq_dec : EqDecision Turn.
Proof. solve_decision. Defined.

(** The balance a cap is compared with. *)
Definition spent_of (costs : list Cost) : Cost :=
  match costs with [] => cost_zero | _ => cost_sum costs end.

Lemma spent_read p a g : default cost_zero (ProjectSpendByProvider p a g) = spent_of (provider_costs p a g).
Proof. unfold ProjectSpendByProvider. by destruct (provider_costs p a g). Qed.

Definition running_turns (p a : string) (turns : list Turn) : nat := length (filter (λ t, t = mkTurn p a) turns).

Lemma running_turns_cons p a t turns :
  running_turns p a (t :: turns) = (if decide (t = mkTurn p a) then 1 else 0) + running_turns p a turns.
Proof. unfold running_turns. rewrite filter_cons. by case_decide. Qed.

Lemma running_turns_remove p a t turns1 turns2 :
  running_turns p a (turns1 ++ t :: turns2) =
  (if decide (t = mkTurn p a) then 1 else 0) + running_turns p a (turns1 ++ turns2).
Proof.
  unfold running_turns. rewrite !filter_app, !length_app, filter_cons. case_decide; simpl; lia.
Qed.

(** A cap is respected up to the last recorded turn: every cost was added to a
    balance below the cap. *)
Definition under_cap (cap : Cost) (costs0 costs : list Cost) : Prop :=
  ∃ new, costs = costs0 ++ new ∧
    ∀ pre c post, new = pre ++ c :: post → cost_geb (spent_of (costs0 ++ pre)) cap = false.

Record spend_ok (caps : gmap string Cost) (g0 : Registry) (d : Dispatch) : Prop := {
  sk_caps : so_caps (dp_spending d) = caps;
  sk_names : ∀ t, t ∈ dp_turns d → no_char Ascii.zero (tn_project t) ∧ no_char Ascii.zero (tn_provider t);
  sk_turns : ∀ p a cap, no_char Ascii.zero p → cap_of (dp_spending d) a = Some cap →
    inflight (dp_spending d) (spendKey p a) = Z.of_nat (running_turns p a (dp_turns d)) ∧
    running_turns p a (dp_turns d) ≤ 1 ∧
    (running_turns p a (dp_turns d) = 1 →
       cost_geb (spent_of (provider_costs p a (so_registry (dp_spending d)))) cap = false);
  sk_costs : ∀ p a cap, cap_of (dp_spending d) a = Some cap →
    under_cap cap (provider_costs p a g0) (provider_costs p a (so_registry (dp_spending d))) }.

Lemma spendKey_inj p a q b :
  no_char Ascii.zero p → no_char Ascii.zero q → spendKey p a = spendKey q b → p = q ∧ a = b.
Proof. apply cut_inj. Qed.

Lemma cap_of_caps o o' a : so_caps o = so_caps o' → cap_of o a = cap_of o' a.
Proof. unfold cap_of. by intros ->. Qed.

Lemma inflight_insert o k k' v :
  inflight (set_inflight <[k := v]> o) k' = if decide (k' = k) then v else inflight o k'.
Proof. unfold inflight. simpl. case_decide; subst; by simplify_map_eq. Qed.

(** What releasing does to the in-flight counts. *)
Lemma release_inflight p a o q b :
  no_char Ascii.zero p → no_char Ascii.zero q → is_Some (cap_of o b) →
  inflight (releaseSpendReservation p a o) (spendKey q b) =
  if decide (mkTurn p a = mkTurn q b) then (if 0 <? inflight o (spendKey q b) then inflight o (spendKey q b) - 1 else inflight o (spendKey q b))%Z
  else inflight o (spendKey q b).
Proof.
  intros Hp Hq [cap Hcap]. unfold releaseSpendReservation.
  destruct (decide (mkTurn p a = mkTurn q b)) as [[= -> ->]|Hne].
  - rewrite Hcap. case_match; [by rewrite inflight_insert, decide_True by done|done].
  - destruct (cap_of o a); [|done]. case_match; [|done]. rewrite inflight_insert, decide_False; [done|].
    intros [-> ->]%spendKey_inj; done.
Qed.

Lemma release_same p a o :
  so_caps (releaseSpendReservation p a o) = so_caps o ∧ so_registry (releaseSpendReservation p a o) = so_registry o.
Proof. unfold releaseSpendReservation. by repeat case_match. Qed.

Lemma recordUsage_costs p w a m u o r o' :
  recordUsage p w a m u o = (r, o') →
  so_caps o' = so_caps o ∧ so_inflight o' = so_inflight o ∧
  ∀ q b, provider_costs q b (so_registry o') = provider_costs q b (so_registry o) ∨
    (q = p ∧ b = a ∧ provider_costs q b (so_registry o') = provider_costs q b (so_registry o) ++ [us_cost u]).
Proof.
  unfold recordUsage, RecordSpend. simpl. case_decide; [intros [= <- <-]; split_and!; [done..|by left]|].
  destruct (_ && _); intros [= <- <-]; (split_and!; [done..|]); [|by left].
  intros q b. simpl. unfold provider_costs. simpl. rewrite filter_app, fmap_app, filter_cons. simpl.
  case_decide as Hd; [right; destruct Hd; subst; done|left]. by rewrite app_nil_r.
Qed.

Lemma under_cap_snoc cap costs0 costs c :
  under_cap cap costs0 costs → cost_geb (spent_of costs) cap = false → under_cap cap costs0 (costs ++ [c]).
Proof.
  intros (new & -> & Hnew) Hb. exists (new ++ [c]). split; [by rewrite app_assoc|].
  intros pre x post Heq. destruct post as [|y post] using rev_ind.
  - apply app_inj_tail in Heq as [-> _]. done.
  - clear IHpost. rewrite app_comm_cons, app_assoc in Heq. apply app_inj_tail in Heq as [-> _]. by eapply Hnew.
Qed.

(** A turn leaving, with or without its usage recorded. *)
Lemma spend_leave caps g0 o o' turns1 turns2 p a :
  spend_ok caps g0 (mkDispatch o (turns1 ++ mkTurn p a :: turns2)) →
  so_caps o' = so_caps o → so_inflight o' = so_inflight o →
  (∀ q b, provider_costs q b (so_registry o') = provider_costs q b (so_registry o) ∨
     (q = p ∧ b = a ∧ ∃ c, provider_costs q b (so_registry o') = provider_costs q b (so_registry o) ++ [c])) →
  spend_ok caps g0 (mkDispatch (releaseSpendReservation p a o') (turns1 ++ turns2)).
Proof.
  intros [Hcaps Hnames Hturns Hcosts] Hc Hi Hg. simpl in *.
  assert (no_char Ascii.zero p ∧ no_char Ascii.zero a) as [Hp Ha] by (apply (Hnames (mkTurn p a)); set_solver).
  destruct (release_same p a o') as [Hrc Hrr].
  assert (∀ b, cap_of (releaseSpendReservation p a o') b = cap_of o b) as Hcap.
  { intros b. apply cap_of_caps. congruence. }
  split; simpl.
  - congruence.
  - intros t Ht. apply Hnames. set_solver.
  - intros q b cap Hq Hb. rewrite Hcap in Hb.
    destruct (Hturns q b cap Hq Hb) as (Hin & Hle & Hbal). rewrite running_turns_remove in Hin, Hle, Hbal.
    rewrite release_inflight; [|done..|rewrite (cap_of_caps o' o) by done; by eexists].
    assert (inflight o' (spendKey q b) = inflight o (spendKey q b)) as -> by (unfold inflight; by rewrite Hi).
    rewrite Hin, Hrr. case_decide as Hd.
    + split_and!; [|lia|intros; lia]. destruct (Z.ltb_spec 0 (Z.of_nat (1 + running_turns q b (turns1 ++ turns2)))); lia.
    + split_and!; [lia|lia|]. intros Hone. destruct (Hg q b) as [->|(-> & -> & _)]; [|done]. apply Hbal. lia.
  - intros q b cap Hb. rewrite Hcap in Hb. rewrite Hrr.
    destruct (Hg q b) as [->|(-> & -> & c & ->)]; [by apply Hcosts|]. apply under_cap_snoc; [by apply Hcosts|].
    destruct (Hturns p a cap Hp Hb) as (_ & Hle & Hbal). apply Hbal.
    rewrite running_turns_remove, decide_True in * by done. lia.
Qed.

Lemma spend_launch caps g0 o o' turns p a :
  spend_ok caps g0 (mkDispatch o turns) → no_char Ascii.zero p → no_char Ascii.zero a →
  checkSpendCap p a o = (Ok tt, o') → spend_ok caps g0 (mkDispatch o' (mkTurn p a :: turns)).
Proof.
  intros [Hcaps Hnames Hturns Hcosts] Hp Ha Hcheck. simpl in *. unfold checkSpendCap in Hcheck.
  assert (∀ t, t ∈ mkTurn p a :: turns → no_char Ascii.zero (tn_project t) ∧ no_char Ascii.zero (tn_provider t)) as Hn'.
  { intros t [->|Ht]%elem_of_cons; [done|by apply Hnames]. }
  destruct (cap_of o a) as [cap|] eqn:Hcap.
  - destruct (Z.ltb_spec 0 (inflight o (spendKey p a))) as [|Hzero]; [done|].
    destruct (cost_geb _ cap) eqn:Hgeb; [done|]. injection Hcheck as <-. rewrite spent_read in Hgeb.
    split; simpl; [done|done| |done].
    intros q b cap' Hq Hb. change (cap_of (set_inflight _ o) b) with (cap_of o b) in Hb.
    destruct (Hturns q b cap' Hq Hb) as (Hin & Hle & Hbal).
    rewrite inflight_insert, running_turns_cons. destruct (decide (mkTurn p a = mkTurn q b)) as [[= <- <-]|Hne].
    + rewrite decide_True by done. split_and!; [lia|lia|]. intros _. congruence.
    + rewrite decide_False; [done|]. intros [-> ->]%spendKey_inj; done.
  - injection Hcheck as <-. split; simpl; [done|done| |done].
    intros q b cap' Hq Hb. rewrite running_turns_cons, decide_False by (intros [= -> ->]; congruence).
    by apply Hturns.
Qed.

Lemma spend_step_ok caps g0 d d' : spend_step d d' → spend_ok caps g0 d → spend_ok caps g0 d'.
Proof.
  intros [o o' turns p a Hp Ha Hc|o o' turns p a e Hc|o o' r t1 t2 p a w m u Hr|o t1 t2 p a|o turns ws] Hok.
  - by eapply spend_launch.
  - unfold checkSpendCap in Hc. repeat case_match; by simplify_eq.
  - apply recordUsage_costs in Hr as (? & ? & Hg). eapply spend_leave; [exact Hok|done|done|].
    intros q b. destruct (Hg q b) as [?|(? & ? & ?)]; [by left|right; eauto].
  - eapply spend_leave; [exact Hok|done|done|by left].
  - destruct Hok as [Hcaps Hn Ht Hc]. by split.
Qed.

Lemma spend_run caps g0 d : rtc spend_step (idle caps g0) d → spend_ok caps g0 d.
Proof.
  intros Hrun. assert (spend_ok caps g0 (idle caps g0)) as H0.
  { split; simpl; [done|by intros t ?%elem_of_nil| |].
    { intros p a cap _ _. unfold running_turns, inflight. simpl. split_and!; [done|lia|lia]. }
    intros p a cap _. exists []. simpl. rewrite app_nil_r. split; [done|]. by intros [] ? ?. }
  revert H0. induction Hrun; [done|]. eauto using spend_step_ok.
Qed.
End Spend.

(** a spend cap is overshot by at most one turn. Whatever turns are launched,
    settled or abandoned, in any order and for any projects, a capped provider
    never has two turns running for one project, a running turn was admitted
    below the cap, and every cost recorded for the pair since the start was
    added to a balance below the cap. *)
Theorem spend_cap_overshoot `{CostOps} caps g0 o turns p a cap :
  rtc spend_step (idle caps g0) (mkDispatch o turns) →
  no_char Ascii.zero p → cap_of o a = Some cap →
  running_turns p a turns ≤ 1 ∧
  (running_turns p a turns = 1 → cost_geb (spent_of (provider_costs p a (so_registry o))) cap = false) ∧
  under_cap cap (provider_costs p a g0) (provider_costs p a (so_registry o)).
Proof.
  intros Hrun Hp Hc. apply spend_run in Hrun as [_ _ Hturns Hcosts].
  destruct (Hturns p a cap Hp Hc) as (_ & ? & ?). split_and!; [done|done|by apply Hcosts].
Qed.

(** A turn of 12 against a cap of 10 is admitted and recorded; the next is
    refused. *)
Definition demo_usage : Usage (H:=toy_costs) := mkUsage (H:=toy_costs) 1 1 0 12%Z.
Definition demo_start : Spending (H:=toy_costs) := mkSpending (H:=toy_costs) {["claude" := 10%Z]} ∅ (demo_registry 0 []).
Definition demo_launched : Spending := (checkSpendCap "p" "claude" demo_start).2.
Definition demo_recorded : Spending := (recordUsage "p" "" "claude" "m" demo_usage demo_launched).2.
Definition demo_settled : Spending := releaseSpendReservation "p" "claude" demo_recorded.

Lemma spend_cap_overshoot_witness :
  under_cap (H:=toy_costs) 10%Z [] (provider_costs "p" "claude" (so_registry demo_settled)) ∧
  provider_costs "p" "claude" (so_registry demo_settled) = [12%Z : Cost (CostOps:=toy_costs)] ∧
  (checkSpendCap "p" "claude" demo_settled).1 = Err (ErrSpendCapExceeded (H:=toy_costs) "claude" 12%Z 10%Z).
Proof.
  split_and!; [|vm_compute; reflexivity|vm_compute; reflexivity].
  refine (proj2 (proj2 (spend_cap_overshoot (H:=toy_costs) {["claude" := 10%Z]} (demo_registry 0 [])
    demo_settled [] "p" "claude" 10%Z _ _ _))).
  - eapply rtc_l; [apply (step_launch demo_start demo_launched [] "p" "claude")|].
    + apply (bool_decide_unpack _); vm_compute; exact I.
    + apply (bool_decide_unpack _); vm_compute; exact I.
    + vm_compute. reflexivity.
    + apply rtc_once. apply (step_settle demo_launched demo_recorded (Ok tt) [] [] "p" "claude" "" "m" demo_usage).
      vm_compute. reflexivity.
  - apply (bool_decide_unpack _); vm_compute; exact I.
  - vm_compute. reflexivity.
Defined.

(** ** Progress *)

Section Progress.
Context `{SqlEngine}.

Lemma doneSet_elem planID s i :
  i ∈ doneSet planID s ↔ ∃ t, db_tasks s !! (planID, i) = Some t ∧ satisfied (t_status t) = true.
Proof.
  unfold doneSet. rewrite elem_of_list_to_set, list_elem_of_fmap.
  assert (∀ st, st ∈ [TaskStatusDone; TaskStatusSkipped; TaskStatusDecomposed] ↔ satisfied st = true) as Hst.
  { intros st. rewrite !elem_of_cons, elem_of_nil. destruct st; naive_solver. }
  split.
  - intros ([[q j] t] & -> & [Hs Hin]%list_elem_of_filter). unfold ListTasks in Hin.
    rewrite order_by_perm, task_rows_elem in Hin. destruct Hin as [Hk Hq]. simpl in *.
    apply andb_true_iff in Hq as [Hq%bool_decide_eq_true _]. subst. exists t. by rewrite <-Hst.
  - intros (t & Hk & Hs%Hst). exists (planID, i, t). split; [done|]. apply list_elem_of_filter. split; [done|].
    unfold ListTasks. rewrite order_by_perm, task_rows_elem. split; [done|]. simpl. by rewrite bool_decide_true.
Qed.

Lemma StepIDs_walk p : StepIDs p = (λ n, ID (nd_ref n)) <$> walk (pl_groups p) [].
Proof. unfold StepIDs. rewrite nodes_leaves, <-list_fmap_compose. by apply list_fmap_ext. Qed.
End Progress.

(** progress counts steps by position, tasks by name. The total is the number
    of the plan's steps. When no step carries its own task id the done count is
    the number of steps whose task is satisfied; but when every step carries an
    id of its own, different from every position, and the tasks are those the
    importer made of them, the reported progress is zero however many of them
    are done. *)
Theorem PlanProgress_counts_positions `{SqlEngine} `{Json} `{Markdown} planID s plan p :
  (GetPlan planID s).1 = Ok plan → Parse (coalesce (p_source plan)) = Some (Ok p) →
  let nodes := walk (pl_groups p) [] in
  ((∀ n, n ∈ nodes → node_id n = ID (nd_ref n)) →
     PlanProgress planID s =
     Ok (mkProgress (length (filter (λ n, node_id n ∈ doneSet planID s) nodes)) (length nodes))) ∧
  ((∀ i t, db_tasks s !! (planID, i) = Some t → i ∈ node_id <$> nodes) →
   (∀ n, n ∈ nodes → node_id n ∉ StepIDs p) →
     PlanProgress planID s = Ok (mkProgress 0 (length nodes))).
Proof.
  intros Hg Hp nodes. unfold PlanProgress. rewrite Hg, Hp. rewrite StepIDs_walk, length_fmap. fold nodes. split.
  - intros Hid. f_equal. f_equal. clearbody nodes. induction nodes as [|n nodes IH]; [done|].
    rewrite fmap_cons, !filter_cons. rewrite <-(Hid n) by set_solver.
    case_decide; simpl; [f_equal|]; apply IH; set_solver.
  - intros Hall Hoff. f_equal. f_equal.
    match goal with |- length ?l = 0 => assert (l = []) as ->; [|done] end.
    apply filter_none. intros i Hi Hd. apply doneSet_elem in Hd as (t & Hk & _).
    apply Hall in Hk as (n & -> & Hn)%list_elem_of_fmap. by apply (Hoff n Hn).
Qed.

(** A document whose two steps are named, imported, and its first step run to
    completion. *)
Definition named_item (text block : string) : Item := mkItem [[text]] [block].
Definition named_markdown : Markdown := {| blocks_of _ :=
  [BHeading (mkHeading 1 "Build" None 0);
   BList true [named_item "compile" "{ id compile }"; named_item "link" "{ id link }"]] |}.

Definition named_plan : PlanDoc :=
  match Parse (H:=toy_json) (H0:=named_markdown) "doc" with Some (Ok p) => p | _ => mkPlanDoc [] end.
Definition named_specs : list GraphTaskSpec :=
  match graphSpecs (H:=toy_codec) named_plan with Ok specs => specs | Err _ => [] end.
Definition named_db : DB :=
  exec_all (H:=merge_engine)
    (CreatePlanGraph (H:=merge_engine) "n" (mkCreatePlanOpts "proj" "named" "Named" "doc" "") named_specs true demo_db).2
    [OpClaimTask "n" "compile" "s1" "w1"; OpMarkDone "n" "compile" "s1" "{}"].

Lemma PlanProgress_counts_positions_witness :
  doneSet (H:=merge_engine) "n" named_db = {["compile"]} ∧
  PlanProgress (H:=merge_engine) (H0:=toy_json) (H1:=named_markdown) "n" named_db = Ok (mkProgress 0 2).
Proof.
  split; [vm_compute; reflexivity|].
  assert (∃ plan, (GetPlan "n" named_db).1 = Ok plan) as [plan Hg] by (eexists; vm_compute; reflexivity).
  refine (proj2 (PlanProgress_counts_positions (H:=merge_engine) (H0:=toy_json) (H1:=named_markdown)
    "n" named_db plan named_plan Hg _) _ _).
  - vm_compute. reflexivity.
  - intros i t Hk.
    assert (forallb (λ kt, negb (bool_decide (kt.1.1 = "n")) ||
              bool_decide (kt.1.2 ∈ node_id <$> walk (pl_groups named_plan) [])) (map_to_list (db_tasks named_db)) = true)
      as Hall by (vm_compute; reflexivity).
    rewrite forallb_forall in Hall. specialize (Hall (("n", i), t)).
    rewrite <-list_elem_of_In, elem_of_map_to_list in Hall. specialize (Hall Hk). simpl in Hall.
    by apply bool_decide_eq_true in Hall.
  - assert (Forall (λ n, node_id n ∉ StepIDs named_plan) (walk (pl_groups named_plan) [])) as Hf
      by (apply (bool_decide_unpack _); vm_compute; exact I).
    rewrite Forall_forall in Hf. exact Hf.
Defined.
