(* ===== verification/OrchPaths.v ===== *)
(** * Declared task paths: [internal/orch/task_paths.go]

    Containment of declared inputs and outputs in the project, on a Unix file
    system. [filepath.EvalSymlinks] and the no-follow open-and-hash are the
    interface [FileSystem]. *)
From S2P Require Import Prelude GoLib FilePath PlanModel.

(** An error [os.IsNotExist] recognizes, or another one. *)
Inductive FsError := FsNotExist | FsFault (what : string).

Class FileSystem := {
  eval_symlinks : string → result FsError string;
  open_hash : string → result string string }.

Inductive PathError :=
| ErrTaskPathEscapesProject (why : string)
| ErrTaskPathUnresolvable (what : string)
| ErrTaskInputPinMismatch.

(** The declaration a refused path was found in. *)
Inductive DeclError := DeclaredInput (path : string) (e : PathError) | DeclaredOutput (path : string) (e : PathError).

Record taskInputDecl := mkInputDecl { id_path : string; id_sha256 : string }.
Record taskFilesystemDecl := mkDecl { fd_inputs : list taskInputDecl; fd_outputs : list string }.

Definition isDriveLetter (c : Ascii.ascii) : bool :=
  let n := code c in ((97 <=? n) && (n <=? 122)) || ((65 <=? n) && (n <=? 90)).

Definition isRooted (declared : string) : bool :=
  match declared with
  | EmptyString => false
  | String a rest =>
      IsAbs declared ||
      bool_decide (a = slash) || bool_decide (code a = 92) ||
      match rest with
      | String b _ => bool_decide (b = ":"%char) && isDriveLetter a
      | EmptyString => false
      end
  end.

Definition containedIn (root path : string) : bool :=
  bool_decide (path = root) || HasPrefix path (root +:+ "/").

Definition declFromMetadata (step : Step) : taskFilesystemDecl :=
  match st_metadata step with
  | None => mkDecl [] []
  | Some m => mkDecl ((λ i, mkInputDecl (in_path i) (in_sha256 i)) <$> md_inputs m) (out_path <$> md_outputs m)
  end.

Section Paths.
Context `{FileSystem}.

(** The loop of [resolveThroughExistingAncestor]; [None]: out of fuel. *)
Fixpoint resolve_ancestor (fuel : nat) (path current : string) (remaining : list string) : option (result string string) :=
  match fuel with
  | 0 => None
  | S n =>
      match eval_symlinks current with
      | Ok resolved =>
          match remaining with
          | [] => Some (Ok resolved)
          | _ => Some (Ok (JoinPath (resolved :: rev remaining)))
          end
      | Err (FsFault what) => Some (Err what)
      | Err FsNotExist =>
          let parent := Dir current in
          if decide (parent = current) then Some (Err ("no existing ancestor for " +:+ path))
          else resolve_ancestor n path parent (remaining ++ [Base current])
      end
  end.

(** A clean path has one ancestor per element, and an element at least one
    byte. *)
Definition resolveThroughExistingAncestor (path : string) : option (result string string) :=
  resolve_ancestor (S (length (chars path))) path path [].

Definition secureProjectPath (root declared : string) : option (result PathError string) :=
  if decide (declared = "") then Some (Err (ErrTaskPathEscapesProject "empty path"))
  else if isRooted declared then Some (Err (ErrTaskPathEscapesProject "rooted"))
  else
    match eval_symlinks root with
    | Err FsNotExist => Some (Err (ErrTaskPathUnresolvable "project root"))
    | Err (FsFault _) => Some (Err (ErrTaskPathUnresolvable "project root"))
    | Ok resolvedRoot =>
        let candidate := JoinPath [resolvedRoot; Clean declared] in
        match resolveThroughExistingAncestor candidate with
        | None => None
        | Some (Err what) => Some (Err (ErrTaskPathUnresolvable what))
        | Some (Ok resolved) =>
            if containedIn resolvedRoot resolved then Some (Ok resolved)
            else Some (Err (ErrTaskPathEscapesProject resolved))
        end
    end.

Definition check_input (root : string) (i : taskInputDecl) : option (result DeclError unit) :=
  match secureProjectPath root (id_path i) with
  | None => None
  | Some (Err e) => Some (Err (DeclaredInput (id_path i) e))
  | Some (Ok resolved) =>
      if decide (id_sha256 i = "") then Some (Ok tt)
      else match open_hash resolved with
           | Err _ => Some (Err (DeclaredInput (id_path i) ErrTaskInputPinMismatch))
           | Ok got => if decide (got = id_sha256 i) then Some (Ok tt)
                       else Some (Err (DeclaredInput (id_path i) ErrTaskInputPinMismatch))
           end
  end.

Definition check_output (root out : string) : option (result DeclError unit) :=
  match secureProjectPath root out with
  | None => None
  | Some (Err e) => Some (Err (DeclaredOutput out e))
  | Some (Ok _) => Some (Ok tt)
  end.

(** A loop that returns the first refusal. *)
Fixpoint check_each {A} (check : A → option (result DeclError unit)) (l : list A) : option (result DeclError unit) :=
  match l with
  | [] => Some (Ok tt)
  | a :: l' => match check a with
               | Some (Ok _) => check_each check l'
               | r => r
               end
  end.

Definition validateTaskFilesystem (root : string) (decl : taskFilesystemDecl) : option (result DeclError unit) :=
  match check_each (check_input root) (fd_inputs decl) with
  | Some (Ok _) => check_each (check_output root) (fd_outputs decl)
  | r => r
  end.
End Paths.

(** ** What is documented of [EvalSymlinks] *)

(** On an absolute path it returns a clean absolute path. *)
Class CleanEval `{FileSystem} : Prop :=
  eval_clean : ∀ p r, HasPrefix p "/" = true → eval_symlinks p = Ok r → ∃ es, Forall plain es ∧ r = abs_path es.

(** ** A small file system

    Directories, files with their hash, and symbolic links to absolute paths,
    by their elements; [eval] follows links up to a bound, as the kernel does. *)
Inductive FNode := FDir | FFile (hash : string) | FLink (target : list string).

Fixpoint eval_elems (fs : gmap (list string) FNode) (fuel : nat) (at_ rest : list string) : result FsError (list string) :=
  match fuel with
  | 0 => Err (FsFault "too many links")
  | S n =>
      match rest with
      | [] => Ok at_
      | e :: rest' =>
          match fs !! (at_ ++ [e]) with
          | None => Err FsNotExist
          | Some (FLink target) => eval_elems fs n [] (target ++ rest')
          | Some _ => eval_elems fs n (at_ ++ [e]) rest'
          end
      end
  end.

Definition elements_of (path : string) : list string := filter (λ e, e ≠ "") (Split slash path).

Definition toy_fs (fs : gmap (list string) FNode) : FileSystem := {|
  eval_symlinks p := match eval_elems fs 64 [] (elements_of p) with Ok es => Ok (Clean (abs_path es)) | Err e => Err e end;
  open_hash p := match fs !! elements_of p with Some (FFile h) => Ok h | _ => Err "not a file" end |}.
