(* ===== verification/OrchPathsProps.v ===== *)
(** * Properties of declared task paths *)
From S2P Require Import Prelude GoLib FilePath PlanModel OrchPaths.

(** ** Containment of clean paths *)

Lemma abs_path_split es t :
  Forall plain es → Split slash (abs_path es +:+ "/" +:+ t) = ("" :: match es with [] => [""] | _ => es end) ++ Split slash t.
Proof. intros He. by rewrite Split_cut, Split_abs_path. Qed.

(** Elementwise: the path is the root, or continues it. A root of no elements
    contains only itself. *)
Lemma containedIn_elems rs qs :
  Forall plain rs → Forall plain qs → containedIn (abs_path rs) (abs_path qs) = true → ∃ es, qs = rs ++ es.
Proof.
  intros Hr Hq. unfold containedIn. rewrite orb_true_iff, bool_decide_eq_true. intros [He|Hp].
  - apply abs_path_inj in He as ->; [|done..]. exists []. by rewrite app_nil_r.
  - apply HasPrefix_app in Hp as [t Ht]. rewrite string_app_assoc in Ht. apply (f_equal (Split slash)) in Ht.
    rewrite abs_path_split, Split_abs_path in Ht by done. injection Ht as Ht.
    destruct rs as [|a rs]; [|destruct qs; [|by exists (Split slash t)]].
    + destruct qs as [|b qs]; [by exists []|]. injection Ht as Hb _.
      apply Forall_cons_1 in Hq as [[Hne _] _]. congruence.
    + injection Ht as Ha _. apply Forall_cons_1 in Hr as [[Hne _] _]. congruence.
Qed.

Lemma containedIn_app rs es : rs ≠ [] → containedIn (abs_path rs) (abs_path (rs ++ es)) = true.
Proof.
  intros Hr. unfold containedIn. apply orb_true_iff. destruct es as [|e es].
  - left. apply bool_decide_eq_true. by rewrite app_nil_r.
  - right. apply HasPrefix_app. exists (Join "/" (e :: es)). unfold abs_path.
    rewrite Join_app by done. by rewrite !string_app_assoc.
Qed.

(** ** The deepest existing ancestor *)

Section Resolve.
Context `{FileSystem} `{!CleanEval}.

(** How the walk up from [cs] ends: at the deepest ancestor that resolves, at
    one that faults, or past the file system's root. *)
Inductive resolution (cs : list string) : result string string → Prop :=
| resolved_at k rs :
    k ≤ length cs → eval_symlinks (abs_path (take k cs)) = Ok (abs_path rs) → Forall plain rs →
    (∀ j, k < j ≤ length cs → eval_symlinks (abs_path (take j cs)) = Err FsNotExist) →
    resolution cs (Ok (abs_path (rs ++ drop k cs)))
| faulted_at k what :
    k ≤ length cs → eval_symlinks (abs_path (take k cs)) = Err (FsFault what) →
    (∀ j, k < j ≤ length cs → eval_symlinks (abs_path (take j cs)) = Err FsNotExist) →
    resolution cs (Err what)
| nothing_exists what :
    (∀ j, j ≤ length cs → eval_symlinks (abs_path (take j cs)) = Err FsNotExist) →
    resolution cs (Err what).

(** The peeled elements are re-joined in order. *)
Lemma rejoin rs ds :
  Forall plain rs → Forall plain ds →
  match rev ds with
  | [] => Some (Ok (abs_path rs) : result string string)
  | _ => Some (Ok (JoinPath (abs_path rs :: rev (rev ds))))
  end = Some (Ok (abs_path (rs ++ ds))).
Proof.
  intros Hr Hd. rewrite rev_involutive. destruct (rev ds) eqn:He.
  - apply (f_equal (@rev _)) in He. rewrite rev_involutive in He. subst ds. by rewrite app_nil_r.
  - by rewrite JoinPath_abs.
Qed.

Lemma resolve_ancestor_spec es ds path fuel :
  Forall plain (es ++ ds) → length es < fuel →
  (∀ j, length es < j ≤ length (es ++ ds) → eval_symlinks (abs_path (take j (es ++ ds))) = Err FsNotExist) →
  ∃ r, resolve_ancestor fuel path (abs_path es) (rev ds) = Some r ∧ resolution (es ++ ds) r.
Proof.
  revert ds fuel. induction es as [|e es IH] using rev_ind; intros ds fuel Hp Hf Hdeep; (destruct fuel as [|fuel]; [lia|]); cbn [resolve_ancestor].
  - destruct (eval_symlinks (abs_path [])) as [r|[|what]] eqn:He.
    + destruct (eval_clean _ _ (abs_path_rooted []) He) as (rs & Hrs & ->).
      exists (Ok (abs_path (rs ++ ds))). split; [by apply rejoin|].
      apply (resolved_at ds 0 rs); [lia|done|done|]. intros j Hj. apply Hdeep. done.
    + change (Dir (abs_path [])) with (abs_path []). rewrite decide_True by done. eexists. split; [done|].
      apply nothing_exists. intros [|j] Hj; [done|]. apply Hdeep. simpl in *. lia.
    + eexists. split; [done|]. apply (faulted_at ds 0); [lia|done|done].
  - assert (Forall plain (es ++ [e])) as Hes by by apply Forall_app in Hp as [? _].
    assert (take (length (es ++ [e])) ((es ++ [e]) ++ ds) = es ++ [e]) as Htake by by rewrite take_app_length.
    assert (drop (length (es ++ [e])) ((es ++ [e]) ++ ds) = ds) as Hdrop by by rewrite drop_app_length.
    assert (length (es ++ [e]) ≤ length ((es ++ [e]) ++ ds)) as Hle by (rewrite !length_app; lia).
    destruct (eval_symlinks (abs_path (es ++ [e]))) as [r|[|what]] eqn:He.
    + destruct (eval_clean _ _ (abs_path_rooted _) He) as (rs & Hrs & ->).
      exists (Ok (abs_path (rs ++ ds))). split; [apply rejoin; by apply Forall_app in Hp as [_ ?]|].
      rewrite <-Htake in He. pose proof (resolved_at _ _ _ Hle He Hrs Hdeep) as Hres. by rewrite Hdrop in Hres.
    + rewrite Dir_abs_path, Base_abs_path by done. rewrite decide_False.
      2: { intros Heq. apply abs_path_inj in Heq; [|by apply Forall_app in Hes as [? _]|done].
           apply (f_equal length) in Heq. rewrite length_app in Heq. simpl in Heq. lia. }
      rewrite <-app_assoc in Hp, Hdeep |- *. simpl in Hp, Hdeep |- *.
      destruct (IH (e :: ds) fuel) as (r & Hr & Hres); [done|rewrite length_app in Hf; simpl in Hf; lia| |].
      * intros j Hj. destruct (decide (j = S (length es))) as [->|Hne].
        -- rewrite <-He. do 2 f_equal. rewrite take_app_ge by lia. by replace (S (length es) - length es) with 1 by lia.
        -- apply Hdeep. rewrite length_app. simpl. lia.
      * exists r. split; [|done]. by rewrite <-Hr.
    + eexists. split; [done|]. rewrite <-Htake in He. by apply (faulted_at _ (length (es ++ [e]))).
Qed.

Lemma Join_length (es : list string) : Forall plain es → length es ≤ length (chars (Join "/" es)).
Proof.
  induction 1 as [|e es (Hne & _) He IH]; [simpl; lia|].
  assert (1 ≤ length (chars e)) by (destruct e; [done|simpl; lia]).
  destruct es as [|e' es]; [done|]. rewrite Join_cons, !chars_app, !length_app by done. simpl in *. lia.
Qed.

Lemma resolve_existing cs :
  Forall plain cs → ∃ r, resolveThroughExistingAncestor (abs_path cs) = Some r ∧ resolution cs r.
Proof.
  intros Hp. destruct (resolve_ancestor_spec cs [] (abs_path cs) (S (length (chars (abs_path cs))))) as (r & Hr & Hres).
  - by rewrite app_nil_r.
  - unfold abs_path. rewrite chars_app, length_app. pose proof (Join_length cs Hp). simpl. lia.
  - intros j Hj. rewrite app_nil_r in Hj. lia.
  - exists r. split; [done|]. by rewrite app_nil_r in Hres.
Qed.

Lemma JoinPath_rooted r d : HasPrefix r "/" = true → ∃ cs, Forall plain cs ∧ JoinPath [r; d] = abs_path cs.
Proof.
  intros Hr. simpl. rewrite decide_False by (intros ->; done). apply Clean_rooted.
  apply HasPrefix_app in Hr as [t ->]. apply HasPrefix_app. eexists. by rewrite !string_app_assoc.
Qed.
End Resolve.

(** C38: containment of declared paths. For a project at an absolute path, the
    check always reaches a verdict, and a path it approves is a clean absolute
    path that continues the resolved project root element by element, with no
    [".."] in it; no rooted path of any platform's shape is approved; and the
    path approved is the deepest existing ancestor of the declared location,
    resolved, with the elements that do not exist yet appended. *)
Theorem secureProjectPath_contained `{FileSystem} `{!CleanEval} root declared :
  HasPrefix root "/" = true →
  secureProjectPath root declared ≠ None ∧
  ∀ path, secureProjectPath root declared = Some (Ok path) →
    declared ≠ "" ∧ isRooted declared = false ∧
    ∃ rs cs es, eval_symlinks root = Ok (abs_path rs) ∧
      JoinPath [abs_path rs; Clean declared] = abs_path cs ∧ resolution cs (Ok path) ∧
      path = abs_path (rs ++ es) ∧ Forall plain (rs ++ es).
Proof.
  intros Hroot. unfold secureProjectPath.
  case_decide as Hd; [by split|]. destruct (isRooted declared); [by split|].
  destruct (eval_symlinks root) as [rr|[|]] eqn:He; [|by split..].
  destruct (eval_clean _ _ Hroot He) as (rs & Hrs & ->).
  destruct (JoinPath_rooted (abs_path rs) (Clean declared) (abs_path_rooted rs)) as (cs & Hcs & Hj). rewrite Hj.
  destruct (resolve_existing cs Hcs) as (r & -> & Hres). destruct r as [resolved|what]; [|by split].
  destruct (containedIn (abs_path rs) resolved) eqn:Hc; [|by split]. split; [done|].
  intros path [= <-]. split_and!; [done..|]. exists rs, cs.
  assert (∃ qs, Forall plain qs ∧ resolved = abs_path qs) as (qs & Hqs & ->).
  { inversion Hres as [k rs' Hk Hev Hp Hdeep| |]; subst. exists (rs' ++ drop k cs). split; [|done].
    apply Forall_app. split; [done|]. by apply Forall_drop. }
  destruct (containedIn_elems rs qs Hrs Hqs Hc) as [es ->]. by exists es.
Qed.

(** ** Admission *)

Section Admission.
Context `{FileSystem} `{!CleanEval}.

Lemma check_each_ok {A} (check : A → option (result DeclError unit)) l :
  (∀ a, check a ≠ None) →
  check_each check l ≠ None ∧ (check_each check l = Some (Ok tt) ↔ ∀ a, a ∈ l → check a = Some (Ok tt)) ∧
  (∀ e, check_each check l = Some (Err e) → ∃ a, a ∈ l ∧ check a = Some (Err e)).
Proof.
  intros Ht. induction l as [|a l (IH1 & IH2 & IH3)]; cbn [check_each].
  { split_and!; [done| |done]. split; [by intros _ a ?%elem_of_nil|done]. }
  specialize (Ht a). destruct (check a) as [[[]|e]|] eqn:Ha; [| |done].
  - split_and!; [done| |].
    + rewrite IH2. setoid_rewrite elem_of_cons. split; [intros Hl b [->|Hb]; auto|auto].
    + intros e He. destruct (IH3 e He) as (b & Hb & Hc). exists b. split; [set_solver|done].
  - split_and!; [done| |].
    + split; [done|]. intros Hl. specialize (Hl a ltac:(set_solver)). congruence.
    + intros e' [= <-]. exists a. split; [set_solver|done].
Qed.

Lemma secure_total root d : HasPrefix root "/" = true → secureProjectPath root d ≠ None.
Proof.
  intros Hroot. unfold secureProjectPath. case_decide; [done|]. destruct (isRooted d); [done|].
  destruct (eval_symlinks root) as [rr|[|]] eqn:He; [|done..].
  destruct (eval_clean _ _ Hroot He) as (rs & Hrs & ->).
  destruct (JoinPath_rooted (abs_path rs) (Clean d) (abs_path_rooted rs)) as (cs & Hcs & ->).
  destruct (resolve_existing cs Hcs) as (r & -> & _). destruct r; [|done]. by destruct (containedIn _ _).
Qed.

Definition input_admitted (root path sha : string) : Prop :=
  ∃ p, secureProjectPath root path = Some (Ok p) ∧ (sha ≠ "" → open_hash p = Ok sha).

Lemma check_input_ok root i :
  HasPrefix root "/" = true →
  check_input root i ≠ None ∧ (check_input root i = Some (Ok tt) ↔ input_admitted root (id_path i) (id_sha256 i)).
Proof.
  intros Hr. pose proof (secure_total root (id_path i) Hr) as Ht. unfold check_input, input_admitted.
  destruct (secureProjectPath root (id_path i)) as [[p|e]|]; [| |done].
  2: { split; [done|]. split; [done|]. by intros (? & ? & _). }
  case_decide as Hs; [split; [done|]; split; [by exists p|done]|].
  destruct (open_hash p) as [h|w] eqn:Hh.
  - case_decide as Hd; (split; [done|]); split; try done.
    + intros _. exists p. by subst.
    + intros (? & [= <-] & He). specialize (He Hs). congruence.
  - split; [done|]. split; [done|]. intros (? & [= <-] & He). specialize (He Hs). congruence.
Qed.

Lemma check_output_ok root o :
  HasPrefix root "/" = true →
  check_output root o ≠ None ∧ (check_output root o = Some (Ok tt) ↔ ∃ p, secureProjectPath root o = Some (Ok p)).
Proof.
  intros Hr. pose proof (secure_total root o Hr) as Ht. unfold check_output.
  destruct (secureProjectPath root o) as [[p|e]|]; [| |done]; (split; [done|]); split; try done; [by exists p|].
  by intros [? ?].
Qed.
End Admission.

(** a task is admitted exactly when its whole declared surface is. For a
    project at an absolute path the check finishes, and it accepts a step's
    declarations exactly when every declared input is contained and every pinned
    one has the pinned hash, and every declared output is contained; a refusal
    names a declaration that fails. *)
Theorem validateTaskFilesystem_admits `{FileSystem} `{!CleanEval} root step :
  HasPrefix root "/" = true →
  let verdict := validateTaskFilesystem root (declFromMetadata step) in
  let declared {A} (f : TaskMetadata → list A) := match st_metadata step with Some m => f m | None => [] end in
  verdict ≠ None ∧
  (verdict = Some (Ok tt) ↔
     (∀ i, i ∈ declared md_inputs → input_admitted root (in_path i) (in_sha256 i)) ∧
     (∀ o, o ∈ declared md_outputs → ∃ p, secureProjectPath root (out_path o) = Some (Ok p))) ∧
  (∀ e, verdict = Some (Err e) → match e with
     | DeclaredInput path _ => ∃ i, i ∈ declared md_inputs ∧ in_path i = path ∧ ¬ input_admitted root path (in_sha256 i)
     | DeclaredOutput path _ => ∃ o, o ∈ declared md_outputs ∧ out_path o = path ∧ ∀ p, secureProjectPath root path ≠ Some (Ok p)
     end).
Proof.
  intros Hr verdict declared. subst verdict. unfold validateTaskFilesystem.
  assert (fd_inputs (declFromMetadata step) = (λ i, mkInputDecl (in_path i) (in_sha256 i)) <$> declared _ md_inputs) as ->
    by (unfold declared, declFromMetadata; by destruct (st_metadata step)).
  assert (fd_outputs (declFromMetadata step) = out_path <$> declared _ md_outputs) as ->
    by (unfold declared, declFromMetadata; by destruct (st_metadata step)).
  generalize (declared _ md_inputs) as ins, (declared _ md_outputs) as outs. intros ins outs. clear declared.
  destruct (check_each_ok (check_input root) ((λ i, mkInputDecl (in_path i) (in_sha256 i)) <$> ins)
    (λ i, proj1 (check_input_ok root i Hr))) as (Ht1 & Hok1 & Herr1).
  destruct (check_each_ok (check_output root) (out_path <$> outs)
    (λ o, proj1 (check_output_ok root o Hr))) as (Ht2 & Hok2 & Herr2).
  assert ((∀ a, a ∈ (λ i, mkInputDecl (in_path i) (in_sha256 i)) <$> ins → check_input root a = Some (Ok tt)) ↔
          ∀ i, i ∈ ins → input_admitted root (in_path i) (in_sha256 i)) as Hins.
  { split.
    - intros Ha i Hi. apply (proj2 (check_input_ok root (mkInputDecl (in_path i) (in_sha256 i)) Hr)), Ha.
      apply list_elem_of_fmap. by exists i.
    - intros Ha a (i & -> & Hi)%list_elem_of_fmap. by apply (proj2 (check_input_ok root _ Hr)), Ha. }
  assert ((∀ a, a ∈ out_path <$> outs → check_output root a = Some (Ok tt)) ↔
          ∀ o, o ∈ outs → ∃ p, secureProjectPath root (out_path o) = Some (Ok p)) as Houts.
  { split.
    - intros Ha o Ho. apply (proj2 (check_output_ok root _ Hr)), Ha. by apply list_elem_of_fmap_2.
    - intros Ha a (o & -> & Ho)%list_elem_of_fmap. by apply (proj2 (check_output_ok root _ Hr)), Ha. }
  assert (∀ e, check_each (check_input root) ((λ i, mkInputDecl (in_path i) (in_sha256 i)) <$> ins) = Some (Err e) →
    ∃ i e', e = DeclaredInput (in_path i) e' ∧ i ∈ ins ∧ ¬ input_admitted root (in_path i) (in_sha256 i)) as Hbad.
  { intros e (a & (i & -> & Hi)%list_elem_of_fmap & Hc)%Herr1.
    assert (∃ e', e = DeclaredInput (in_path i) e') as [e' ->].
    { unfold check_input in Hc. simpl in Hc. repeat case_match; simplify_eq; eauto. }
    exists i, e'. split_and!; [done..|]. intros Ha%(proj2 (check_input_ok root (mkInputDecl _ _) Hr)). congruence. }
  destruct (check_each (check_input root) _) as [[[]|e]|]; [| |done].
  - split_and!; [done| |].
    + rewrite Hok2, Houts, <-Hins. tauto.
    + intros e (a & (o & -> & Ho)%list_elem_of_fmap & Hc)%Herr2. unfold check_output in Hc.
      destruct (secureProjectPath root (out_path o)) as [[p|e']|] eqn:Hs; simplify_eq.
      exists o. split_and!; [done..|]. intros p. congruence.
  - split_and!; [done| |].
    + rewrite <-Hins, <-Hok1. split; [done|]. by intros [? _].
    + intros e1 [= <-]. destruct (Hbad e eq_refl) as (i & e' & -> & Hi & Hn). by exists i.
Qed.

(** ** On a small file system *)

#[export] Instance toy_fs_clean fs : CleanEval (H:=toy_fs fs).
Proof.
  intros p r _. cbn [eval_symlinks toy_fs]. generalize 64. intros n. destruct (eval_elems fs n [] (elements_of p)); [|done]. intros [= <-].
  apply Clean_rooted, abs_path_rooted.
Qed.

(** A project with a checked-out file, a link inside and a link outside, and a
    link whose target does not exist yet. *)
Definition demo_fs : FileSystem := toy_fs
  {[ ["proj"] := FDir; ["proj"; "src"] := FDir; ["proj"; "src"; "a"] := FFile "h1";
     ["proj"; "in"] := FLink ["proj"; "src"]; ["proj"; "etc"] := FLink ["etc"];
     ["proj"; "build"] := FLink ["srv"; "out"]; ["etc"] := FDir; ["srv"] := FDir ]}.

Lemma secureProjectPath_contained_witness :
  secureProjectPath (H:=demo_fs) "/proj" "in/new/x" = Some (Ok "/proj/src/new/x") ∧
  isRooted "in/new/x" = false.
Proof.
  assert (secureProjectPath (H:=demo_fs) "/proj" "in/new/x" = Some (Ok "/proj/src/new/x")) as Hs
    by (vm_compute; reflexivity).
  split; [exact Hs|].
  exact (proj1 (proj2 (proj2 (secureProjectPath_contained (H:=demo_fs) "/proj" "in/new/x" eq_refl) _ Hs))).
Defined.

Definition demo_decl_step : Step := mkStep "s" "" false
  (Some (mkTaskMetadata "s" None "" (mkTaskBinding "" "" "" "" "" "" 0 "") [] [] []
    [mkTaskInput "src/a" "h1"; mkTaskInput "src/later" ""] [mkTaskOutput "out/b" ""])).

Lemma validateTaskFilesystem_admits_witness :
  validateTaskFilesystem (H:=demo_fs) "/proj" (declFromMetadata demo_decl_step) = Some (Ok tt) ∧
  input_admitted (H:=demo_fs) "/proj" "src/a" "h1".
Proof.
  assert (validateTaskFilesystem (H:=demo_fs) "/proj" (declFromMetadata demo_decl_step) = Some (Ok tt)) as Hv
    by (vm_compute; reflexivity).
  split; [exact Hv|].
  apply (proj1 (proj1 (proj1 (proj2 (validateTaskFilesystem_admits (H:=demo_fs) "/proj" demo_decl_step eq_refl))) Hv)
    (mkTaskInput "src/a" "h1")). set_solver.
Defined.

Example outside_link_is_refused :
  secureProjectPath (H:=demo_fs) "/proj" "etc/passwd" = Some (Err (ErrTaskPathEscapesProject "/etc/passwd")) ∧
  secureProjectPath (H:=demo_fs) "/proj" "../etc/passwd" = Some (Err (ErrTaskPathEscapesProject "/etc/passwd")) ∧
  secureProjectPath (H:=demo_fs) "/proj" "C:x" = Some (Err (ErrTaskPathEscapesProject "rooted")).
Proof. vm_compute. done. Qed.

(** An ancestor that is already a link out of the project is approved when the
    link's target does not exist yet: the link itself then counts as a missing
    element of the project. *)
Example dangling_link_is_approved :
  secureProjectPath (H:=demo_fs) "/proj" "build/out.txt" = Some (Ok "/proj/build/out.txt").
Proof. vm_compute. done. Qed.
