(* ===== verification/AgentOutput.v ===== *)
(** * The bounded output reader of an agent: [internal/agent/output.go],
    [output_retention.go]

    Bytes from the provider's terminal become newline-terminated lines under a
    retention limit per line and a ceiling on everything observed. *)
From S2P Require Import Prelude GoLib.

Abbreviation Byte := Ascii.ascii.
Definition LF : Byte := "010"%char.
Definition CR : Byte := "013"%char.

(** ** Limits *)

Definition outputReadBufferBytes : Z := 65536.
Definition outputRetentionSlots : Z := 4.
Definition discardedPrefixRetentionSlots : Z := 3.
Definition maxDiscardedOutputPrefixBytes : Z := 4096.
Definition maxConsecutiveEmptyReads : nat := 100.
Definition defaultRetainedLineBytes : Z := 1048576.
Definition maximumRetainedLineBytes : Z := 8388608.

(** The budget that holds lines of [lineBytes]. *)
Definition retention_of (lineBytes : Z) : Z :=
  (outputReadBufferBytes + discardedPrefixRetentionSlots * maxDiscardedOutputPrefixBytes +
   outputRetentionSlots * (lineBytes + 2))%Z.

Definition DefaultMaxOutputRetentionBytes : Z := retention_of defaultRetainedLineBytes.
Definition MaximumMaxOutputRetentionBytes : Z := retention_of maximumRetainedLineBytes.

Definition RetentionBudgetForLineBytes (lineBytes : Z) : Z :=
  if ((lineBytes <? 1) || (maximumRetainedLineBytes <? lineBytes))%Z then 0 else retention_of lineBytes.

Inductive OversizeOutputPolicy := RejectOversizeOutput | DiscardOversizeOutput.

Inductive OutputError :=
| ErrOutputLineTooLong | ErrObservedOutputTooLarge | ErrOutputRead | ErrOutputStopped
| ErrInvalidOutputRetention.

(** [normalizeOutputRetention]; Go's [/] truncates toward zero. A policy outside
    the two constants has no counterpart here. *)
Definition normalizeOutputRetention (budget : Z) : result OutputError Z :=
  if (budget <? 0)%Z then Err ErrInvalidOutputRetention
  else if (MaximumMaxOutputRetentionBytes <? budget)%Z then Err ErrInvalidOutputRetention
  else
    let budget := if (budget =? 0)%Z then DefaultMaxOutputRetentionBytes else budget in
    let lineBytes := (Z.quot (budget - outputReadBufferBytes -
                        discardedPrefixRetentionSlots * maxDiscardedOutputPrefixBytes) outputRetentionSlots - 2)%Z in
    if (lineBytes <? 1)%Z then Err ErrInvalidOutputRetention else Ok lineBytes.

(** ** The reader underneath *)

Inductive ReadError := ReadEOF | ReadFault.

(** One answer of [io.Reader.Read]: bytes with an error or none, or a count out
    of range. The list of answers is what the terminal has to say; answers longer
    than the buffer are delivered in pieces, and past the list is end of file. *)
Inductive Answer := Data (bytes : list Byte) (err : option ReadError) | BadCount.

Definition read_answer (size : nat) (src : list Answer) : (option (list Byte) * option ReadError) * list Answer :=
  match src with
  | [] => ((Some [], Some ReadEOF), [])
  | BadCount :: src' => ((None, None), src')
  | Data bytes err :: src' =>
      if decide (length bytes <= size) then ((Some bytes, err), src')
      else ((Some (take size bytes), None), Data (drop size bytes) err :: src')
  end.

(** [rd_pending] is [buffer[start:end]]; [rd_stop] the number of reads left
    before the stop channel is closed, if it ever is. *)
Record outputLineReader := mkReader {
  rd_src : list Answer;
  rd_pending : list Byte;
  rd_pendingErr : option ReadError;
  rd_emptyReads : nat;
  rd_stop : option nat;
  rd_maxObserved : Z;
  rd_observed : Z }.

Definition newOutputLineReader (src : list Answer) (stop : option nat) (maxObserved : Z) : outputLineReader :=
  mkReader src [] None 0 stop maxObserved 0.

Definition stopped (r : outputLineReader) : bool := bool_decide (rd_stop r = Some 0).

Definition consume (pending : list Byte) (r : outputLineReader) : outputLineReader :=
  mkReader (rd_src r) pending (rd_pendingErr r) (rd_emptyReads r) (rd_stop r) (rd_maxObserved r) (rd_observed r).
Definition take_error (r : outputLineReader) : outputLineReader :=
  mkReader (rd_src r) (rd_pending r) None 0 (rd_stop r) (rd_maxObserved r) (rd_observed r).

(** [uint64] subtraction. *)
Definition remainingObserved (r : outputLineReader) : Z := ((rd_maxObserved r - rd_observed r) mod 2 ^ 64)%Z.

Definition read_size (r : outputLineReader) : Z :=
  if ((0 <? rd_maxObserved r) && (remainingObserved r <? outputReadBufferBytes))%Z
  then (remainingObserved r + 1)%Z else outputReadBufferBytes.

(** [emptyReads >= maxConsecutiveEmptyReads]. *)
Definition too_many_empty (emptyReads : nat) : bool := maxConsecutiveEmptyReads <=? emptyReads.
#[global] Arguments too_many_empty : simpl never.

Definition readMore (r : outputLineReader) : option OutputError * outputLineReader :=
  let '((answer, err), src) := read_answer (Z.to_nat (read_size r)) (rd_src r) in
  let stop := pred <$> rd_stop r in
  match answer with
  | None => (Some ErrOutputRead, mkReader src [] (rd_pendingErr r) (rd_emptyReads r) stop (rd_maxObserved r) (rd_observed r))
  | Some [] =>
      match err with
      | Some e => (None, mkReader src [] (Some e) 0 stop (rd_maxObserved r) (rd_observed r))
      | None =>
          let r' := mkReader src [] (rd_pendingErr r) (S (rd_emptyReads r)) stop (rd_maxObserved r) (rd_observed r) in
          if too_many_empty (rd_emptyReads r') then (Some ErrOutputRead, r')
          else if stopped r' then (Some ErrOutputStopped, r') else (None, r')
      end
  | Some bytes =>
      let n := Z.of_nat (length bytes) in
      let observed := if (0 <? rd_maxObserved r)%Z then ((rd_observed r + n) mod 2 ^ 64)%Z else rd_observed r in
      if ((0 <? rd_maxObserved r) && (remainingObserved r <? n))%Z
      then (Some ErrObservedOutputTooLarge, mkReader src [] (rd_pendingErr r) 0 stop (rd_maxObserved r) observed)
      else (None, mkReader src bytes err 0 stop (rd_maxObserved r) observed)
  end.

(** ** Lines *)

Definition appendWithinCap (dst src : list Byte) (maximum : nat) : list Byte * bool :=
  if decide (maximum - length dst < length src) then (dst ++ take (maximum - length dst) src, false)
  else (dst ++ src, true).

(** The capacity the copy is made with. *)
Definition grown_cap (cap needed maximum : Z) : Z :=
  if (cap <? needed)%Z
  then
    let nextCap := (cap * 2)%Z in
    let nextCap := if (nextCap <? 4096)%Z then 4096%Z else nextCap in
    let nextCap := if (nextCap <? needed)%Z then needed else nextCap in
    if (maximum <? nextCap)%Z then maximum else nextCap
  else cap.

Definition prefix_bytes : nat := Z.to_nat maxDiscardedOutputPrefixBytes.

Definition makeDiscardedOutputPrefix (line : list Byte) (before : nat) (segment : list Byte) (complete : bool) : list Byte :=
  if complete then take (min (length line) prefix_bytes) line
  else
    let prefixBytes := min (before + length segment) prefix_bytes in
    let fromLine := min before prefixBytes in
    take fromLine line ++ take (prefixBytes - fromLine) segment.

Definition ends_cr (line : list Byte) : bool := bool_decide (last line = Some CR).
Definition strip_cr (line : list Byte) : list Byte := if ends_cr line then removelast line else line.

(** [bytes.IndexByte(pending, '\n')]: the bytes before it and those after. *)
Fixpoint cut_line (l : list Byte) : option (list Byte * list Byte) :=
  match l with
  | [] => None
  | c :: l' => if decide (c = LF) then Some ([], l')
               else match cut_line l' with Some (seg, rest) => Some (c :: seg, rest) | None => None end
  end.

(** What [nextLine] returns: a line, the prefix of a discarded record, or an
    error; [io.EOF] is the end. *)
Inductive Next := NextLine (line : list Byte) | NextDiscarded (prefix : list Byte) | NextEOF | NextErr (e : OutputError).

Definition oversizeLine (policy : OversizeOutputPolicy) (line : list Byte) : Next :=
  match policy with
  | DiscardOversizeOutput => NextDiscarded (take prefix_bytes line)
  | RejectOversizeOutput => NextErr ErrOutputLineTooLong
  end.

(** The record under construction: retained bytes, or the prefix of one that is
    being discarded. *)
Inductive Record_ := Retained (line : list Byte) | Discarding (prefix : list Byte).

Definition too_long (retained : nat) (line : list Byte) (complete : bool) : bool :=
  negb complete ||
  ((retained <? length line) && (negb (length line =? S retained) || negb (ends_cr line))).

Definition add_segment (retained : nat) (policy : OversizeOutputPolicy) (rec : Record_) (segment : list Byte)
    : result OutputError Record_ :=
  match rec with
  | Discarding _ => Ok rec
  | Retained line =>
      let '(line', ok) := appendWithinCap line segment (S retained) in
      if too_long retained line' ok then
        match policy with
        | RejectOversizeOutput => Err ErrOutputLineTooLong
        | DiscardOversizeOutput => Ok (Discarding (makeDiscardedOutputPrefix line' (length line) segment ok))
        end
      else Ok (Retained line')
  end.

Definition finish (retained : nat) (rec : Record_) : Next :=
  match rec with
  | Discarding p => NextDiscarded p
  | Retained line => NextLine (appendWithinCap (strip_cr line) [LF] (S retained)).1
  end.

(** The end-of-file branch. *)
Definition finish_eof (retained : nat) (policy : OversizeOutputPolicy) (rec : Record_) : Next :=
  match rec with
  | Retained [] => NextEOF
  | Discarding p => NextDiscarded p
  | Retained line =>
      if retained <? length (strip_cr line) then oversizeLine policy (strip_cr line)
      else NextLine (appendWithinCap (strip_cr line) [LF] (S retained)).1
  end.

(** The loop of [nextLine]; [None]: out of fuel. *)
Fixpoint next_line (retained : nat) (policy : OversizeOutputPolicy) (fuel : nat) (rec : Record_) (r : outputLineReader)
    : option (Next * outputLineReader) :=
  match fuel with
  | 0 => None
  | S n =>
      match rd_pending r with
      | [] =>
          match rd_pendingErr r with
          | Some ReadEOF => Some (finish_eof retained policy rec, take_error r)
          | Some ReadFault => Some (NextErr ErrOutputRead, take_error r)
          | None =>
              if stopped r then Some (NextErr ErrOutputStopped, r)
              else match readMore r with
                   | (Some e, r') => Some (NextErr e, r')
                   | (None, r') => next_line retained policy n rec r'
                   end
          end
      | pending =>
          match cut_line pending with
          | Some (segment, rest) =>
              match add_segment retained policy rec segment with
              | Err e => Some (NextErr e, consume rest r)
              | Ok rec' => Some (finish retained rec', consume rest r)
              end
          | None =>
              match add_segment retained policy rec pending with
              | Err e => Some (NextErr e, consume [] r)
              | Ok rec' => next_line retained policy n rec' (consume [] r)
              end
          end
      end
  end.

(** Every read takes a byte or an answer off the source. *)
Definition answer_size (a : Answer) : nat := match a with Data bytes _ => S (length bytes) | BadCount => 1 end.
Definition src_size (src : list Answer) : nat := sum_list_with answer_size src.
Definition line_fuel (r : outputLineReader) : nat := 2 * src_size (rd_src r) + 4.

Definition nextLine (retained : nat) (policy : OversizeOutputPolicy) (r : outputLineReader)
    : option (Next * outputLineReader) :=
  next_line retained policy (line_fuel r) (Retained []) r.

(** ** The reading loop *)

(** How the supervisor meets one delivery: it receives it, abandons the output,
    or kills the agent. *)
Inductive Consumer := Takes | Abandons | Kills.
Inductive Delivery := Output (line : list Byte) | Discarded (prefix : list Byte).

(** [readLoop]: what was delivered, and [outputErr]. *)
Fixpoint readLoop (fuel : nat) (retained : nat) (policy : OversizeOutputPolicy) (consumer : list Consumer)
    (abandoning : bool) (r : outputLineReader) : option (list Delivery * option OutputError) :=
  match fuel with
  | 0 => None
  | S n =>
      match nextLine retained policy r with
      | None => None
      | Some (NextEOF, _) => Some ([], None)
      | Some (NextErr ErrOutputStopped, _) => Some ([], None)
      | Some (NextErr e, r') => Some ([], if stopped r' then None else Some e)
      | Some (NextLine l, r') => deliver n retained policy consumer abandoning (Output l) r'
      | Some (NextDiscarded p, r') => deliver n retained policy consumer abandoning (Discarded p) r'
      end
  end
with deliver (fuel : nat) (retained : nat) (policy : OversizeOutputPolicy) (consumer : list Consumer)
    (abandoning : bool) (d : Delivery) (r : outputLineReader) : option (list Delivery * option OutputError) :=
  match fuel with
  | 0 => None
  | S n =>
      if abandoning then readLoop n retained policy consumer true r
      else match consumer with
           | Kills :: _ => Some ([], None)
           | Abandons :: consumer' => readLoop n retained policy consumer' true r
           | Takes :: consumer' => prod_map (cons d) id <$> readLoop n retained policy consumer' false r
           | [] => prod_map (cons d) id <$> readLoop n retained policy [] false r
           end
  end.

#[global] Arguments prefix_bytes : simpl never.

(** * Properties of the output reader

    Lines do not depend on how the terminal cuts its output into reads, and what
    is held at any moment stays within the budget. *)

#[local] Arguments Nat.min : simpl never.

(** ** What a source says *)

(** The bytes of a source that ends cleanly, after [empties] empty reads in a
    row; past an end of file there is only end of file. *)
Fixpoint stream (empties : nat) (src : list Answer) : option (list Byte) :=
  match src with
  | [] => Some []
  | BadCount :: _ => None
  | Data _ (Some ReadFault) :: _ => None
  | Data bytes (Some ReadEOF) :: src' => match stream 0 src' with Some [] => Some bytes | _ => None end
  | Data [] None :: src' => if too_many_empty (S empties) then None else stream (S empties) src'
  | Data bytes None :: src' => app bytes <$> stream 0 src'
  end.

(** The bytes a reader has yet to frame. *)
Definition content_of (r : outputLineReader) : option (list Byte) :=
  match rd_pendingErr r with
  | Some ReadEOF => match stream 0 (rd_src r) with Some [] => Some (rd_pending r) | _ => None end
  | Some ReadFault => None
  | None => app (rd_pending r) <$> stream (rd_emptyReads r) (rd_src r)
  end.

(** Nobody stops it, and what it has yet to read fits the ceiling. *)
Definition unhindered (r : outputLineReader) (content : list Byte) : Prop :=
  rd_stop r = None ∧
  (rd_maxObserved r = 0%Z ∨
   (0 < rd_maxObserved r < 2 ^ 63 ∧ 0 ≤ rd_observed r ∧
    rd_observed r + Z.of_nat (length content - length (rd_pending r)) ≤ rd_maxObserved r)%Z).

Definition reads (r : outputLineReader) (content : list Byte) : Prop :=
  content_of r = Some content ∧ unhindered r content.

Definition pending_weight (r : outputLineReader) : nat := match rd_pending r with [] => 0 | _ => 1 end.
Definition open_weight (r : outputLineReader) : nat := match rd_pendingErr r with None => 1 | _ => 0 end.
Definition work (r : outputLineReader) : nat := 2 * src_size (rd_src r) + pending_weight r + open_weight r.

Lemma read_size_pos r : (1 ≤ read_size r)%Z.
Proof.
  unfold read_size, remainingObserved, outputReadBufferBytes.
  pose proof (Z.mod_pos_bound (rd_maxObserved r - rd_observed r) (2 ^ 64) ltac:(lia)).
  destruct (_ && _); lia.
Qed.

Lemma stream_some empties bytes src c :
  bytes ≠ [] → stream empties (Data bytes None :: src) = Some c → ∃ rest, stream 0 src = Some rest ∧ c = bytes ++ rest.
Proof.
  intros Hb. destruct bytes as [|b bytes]; [done|]. simpl. destruct (stream 0 src) as [rest|]; [|done].
  intros [= <-]. by exists rest.
Qed.

(** What one answer leaves of a clean stream. *)
Lemma read_answer_stream size empties src c :
  1 ≤ size → stream empties src = Some c →
  ∃ bytes err src', read_answer size src = ((Some bytes, err), src') ∧ length bytes ≤ size ∧
    (src_size src' < src_size src ∨ (bytes = [] ∧ err = Some ReadEOF)) ∧ src_size src' ≤ src_size src ∧
    match err with
    | Some ReadEOF => c = bytes ∧ stream 0 src' = Some []
    | Some ReadFault => False
    | None => if decide (bytes = []) then too_many_empty (S empties) = false ∧ stream (S empties) src' = Some c
              else ∃ rest, stream 0 src' = Some rest ∧ c = bytes ++ rest
    end.
Proof.
  intros Hsize Hc. destruct src as [|[bytes err|] src]; simpl in Hc |- *; [|case_decide as Hl|done].
  - simplify_eq. exists [], (Some ReadEOF), []. naive_solver lia.
  - exists bytes, err, src. split_and!; [done|done|left; lia|lia|]. destruct err as [[]|]; [by destruct bytes, (stream 0 src) as [[]|]; simplify_eq|by destruct bytes|].
    case_decide as Hb.
    + subst. by destruct (too_many_empty (S empties)).
    + destruct bytes; [done|]. destruct (stream 0 src) as [rest|]; [|done]. exists rest. by simplify_eq/=.
  - exists (take size bytes), None, (Data (drop size bytes) err :: src).
    rewrite length_take. split_and!; [done|lia|left|simpl; rewrite length_drop; lia|].
    { simpl. rewrite length_drop. lia. }
    assert (drop size bytes ≠ []) as Hd by (intros E%(f_equal length); rewrite length_drop in E; simpl in E; lia).
    rewrite decide_False by (intros E%(f_equal length); rewrite length_take in E; simpl in E; lia).
    assert (Hsplit : bytes = take size bytes ++ drop size bytes) by (by rewrite take_drop).
    destruct err as [[]|]; [|by destruct bytes|].
    + assert (c = bytes ∧ stream 0 src = Some []) as [-> Hst] by (by destruct bytes, (stream 0 src) as [[]|]; simplify_eq). exists (drop size bytes). split; [|done]. simpl. rewrite Hst. by destruct (drop size bytes).
    + destruct bytes as [|b bytes]; [by destruct size|]. destruct (stream 0 src) as [rest|] eqn:Hst; [|done]. injection Hc as <-.
      exists (drop size (b :: bytes) ++ rest). split.
      { destruct (drop size (b :: bytes)) as [|d ds] eqn:Ed; [done|]. simpl. by rewrite Hst. }
      by rewrite app_comm_cons, Hsplit at 1; rewrite <-app_assoc.
Qed.

(** One read of a clean source. *)
Lemma readMore_reads r c :
  rd_pending r = [] → rd_pendingErr r = None → reads r c →
  ∃ r', readMore r = (None, r') ∧ reads r' c ∧ work r' < work r.
Proof.
  destruct r as [src pending perr empties stop mx obs]; simpl. intros -> -> [Hc [Hs Hm]].
  unfold content_of in Hc. simpl in *. destruct (stream empties src) as [c'|] eqn:Hst; [|done]. simplify_eq/=.
  set (r := mkReader src [] None empties None mx obs).
  destruct (read_answer_stream (Z.to_nat (read_size r)) empties src c) as (bytes & err & src' & Hr & Hl & Hw & Hw' & Hcase);
    [pose proof (read_size_pos r); lia|done|].
  unfold readMore. change (rd_src r) with src. rewrite Hr. subst r. cbn [rd_src rd_pendingErr rd_stop rd_maxObserved rd_observed rd_emptyReads fmap option_fmap option_map].
  destruct bytes as [|b bytes].
  - destruct err as [[]|]; [|done|].
    + destruct Hcase as [-> Hrest]. eexists. split; [done|].
      split; [split; [unfold content_of; simpl; by rewrite Hrest|split; [done|]]|]; simpl; [lia|].
      unfold work, pending_weight, open_weight. simpl. lia.
    + destruct Hcase as [He Hrest]. rewrite He.
      unfold stopped. simpl. eexists. split; [done|]. split; [split; [|split; [done|]]|]; simpl.
      * unfold content_of. simpl. by rewrite Hrest.
      * done.
      * unfold work, pending_weight, open_weight. simpl. destruct Hw as [?|[_ ?]]; [lia|done].
  - set (n := Z.of_nat (length (b :: bytes))) in *.
    assert (length c = length (b :: bytes) + match err with None => length c - length (b :: bytes) | _ => 0 end) as Hlen.
    { destruct err as [[]|]; [by destruct Hcase as [-> _]|done|]. destruct Hcase as (rest & _ & ->). rewrite length_app. lia. }
    assert (Hroom : mx = 0%Z ∨ (0 < mx < 2 ^ 63 ∧ 0 ≤ obs ∧ obs + Z.of_nat (length c) ≤ mx)%Z) by (destruct Hm as [?|Hm]; [by left|right]; simpl in Hm; lia).
    assert (((0 <? mx) && (remainingObserved (mkReader src [] None empties None mx obs) <? n))%Z = false) as ->.
    { destruct Hroom as [->|Hroom]; [done|]. rewrite (proj2 (Z.ltb_lt 0 mx)) by lia. simpl.
      apply Z.ltb_ge. unfold remainingObserved. cbn [rd_maxObserved rd_observed]. rewrite Z.mod_small by lia. lia. }
    eexists. split; [done|]. split; [split|].
    + unfold content_of. simpl. destruct err as [[]|]; [by destruct Hcase as [-> ->]|done|].
      destruct Hcase as (rest & -> & ->). done.
    + split; [done|]. simpl. destruct Hroom as [->|Hroom]; [by left|]. right.
      rewrite (proj2 (Z.ltb_lt 0 mx)) by lia. rewrite Z.mod_small by lia. simpl in *. lia.
    + unfold work, pending_weight, open_weight. simpl.
      destruct Hw as [?|[? _]]; [|done]. destruct err; lia.
Qed.

(** ** Records *)

(** The records of a byte stream: what stands between line feeds, and what
    follows the last one when there is any. *)
Definition records (content : list Byte) : list (list Byte) :=
  let ws := split_chars LF content in
  match last ws with Some [] => removelast ws | _ => ws end.

Definition fits (retained : nat) (record : list Byte) : Prop := length (strip_cr record) ≤ retained.
#[export] Instance fits_dec retained record : Decision (fits retained record).
Proof. unfold fits. apply _. Defined.

Lemma strip_cr_length w : length w - 1 ≤ length (strip_cr w) ≤ length w.
Proof.
  unfold strip_cr. destruct (ends_cr w); [|lia].
  destruct w as [|x w _] using rev_ind; [done|]. rewrite removelast_last, length_app. simpl. lia.
Qed.

Lemma strip_cr_ends w : ends_cr w = true → length (strip_cr w) = length w - 1.
Proof.
  unfold strip_cr. intros Hc. rewrite Hc. destruct w as [|x w _] using rev_ind; [done|].
  rewrite removelast_last, length_app. simpl. lia.
Qed.

Lemma strip_cr_id w : ends_cr w = false → strip_cr w = w.
Proof. unfold strip_cr. by intros ->. Qed.

Lemma records_nil : records [] = [].
Proof. done. Qed.

Lemma records_line w rest : LF ∉ w → records (w ++ LF :: rest) = w :: records rest.
Proof.
  intros Hw. unfold records. rewrite split_chars_app by done. pose proof (split_chars_ne LF rest) as Hne.
  destruct (split_chars LF rest) as [|a l] eqn:E; [done|]. simpl last.
  change (removelast (w :: a :: l)) with (w :: removelast (a :: l)).
  by destruct (last (a :: l)) as [[]|].
Qed.

Lemma records_tail w : LF ∉ w → w ≠ [] → records w = [w].
Proof. intros Hw Hne. unfold records. rewrite split_chars_word by done. by destruct w. Qed.

Lemma cut_line_some l seg rest : cut_line l = Some (seg, rest) → l = seg ++ LF :: rest ∧ LF ∉ seg.
Proof.
  revert seg rest. induction l as [|c l IH]; intros seg rest; simpl; [done|].
  case_decide as Hc; [intros; simplify_eq; set_solver|].
  destruct (cut_line l) as [[seg' rest']|]; [|done]. intros; simplify_eq.
  destruct (IH seg' rest) as [-> Hs]; [done|]. set_solver.
Qed.

Lemma cut_line_none l : cut_line l = None → LF ∉ l.
Proof.
  induction l as [|c l IH]; simpl; [set_solver|]. case_decide as Hc; [done|].
  destruct (cut_line l) as [[]|]; [done|]. set_solver.
Qed.

(** ** One record *)

(** Too long already, however it goes on. *)
Definition doomed (retained : nat) (w : list Byte) : Prop := ∀ more, ¬ fits retained (w ++ more).

(** What is kept of a discarded record. *)
Definition kept_prefix (retained : nat) (w prefix : list Byte) : Prop :=
  prefix `prefix_of` w ∧ min (S retained) prefix_bytes ≤ length prefix ≤ prefix_bytes.

(** The record under construction, after the bytes [w] of it. *)
Definition building (retained : nat) (policy : OversizeOutputPolicy) (w : list Byte) (rec : Record_) : Prop :=
  match rec with
  | Retained line => line = w ∧ (length w ≤ retained ∨ (length w = S retained ∧ ends_cr w = true))
  | Discarding p => policy = DiscardOversizeOutput ∧ doomed retained w ∧ kept_prefix retained w p
  end.

Lemma doomed_long retained w : S retained < length w → doomed retained w.
Proof.
  intros Hl more. unfold fits. pose proof (strip_cr_length (w ++ more)). rewrite length_app in *. lia.
Qed.

Lemma doomed_unterminated retained w : length w = S retained → ends_cr w = false → doomed retained w.
Proof.
  intros Hl Hc more. unfold fits. destruct more as [|m more].
  - rewrite app_nil_r, strip_cr_id by done. lia.
  - pose proof (strip_cr_length (w ++ m :: more)). rewrite length_app in *. simpl in *. lia.
Qed.

Lemma appendWithinCap_spec dst src maximum :
  length dst ≤ maximum →
  appendWithinCap dst src maximum = (take maximum (dst ++ src), bool_decide (length (dst ++ src) ≤ maximum)).
Proof.
  intros Hl. unfold appendWithinCap. rewrite length_app. case_decide as Hd.
  - rewrite take_app_ge by done. by rewrite bool_decide_false by lia.
  - rewrite take_ge by (rewrite length_app; lia). by rewrite bool_decide_true by lia.
Qed.

Lemma discarded_prefix_spec retained w seg :
  length w ≤ S retained → retained < length (w ++ seg) →
  kept_prefix retained (w ++ seg)
    (makeDiscardedOutputPrefix (take (S retained) (w ++ seg)) (length w) seg
       (bool_decide (length (w ++ seg) ≤ S retained))).
Proof.
  intros Hw Hl. unfold makeDiscardedOutputPrefix. case_bool_decide as Hc.
  - rewrite (take_ge (w ++ seg)) by done. split; [apply prefix_take|]. rewrite length_take. lia.
  - assert (take (min (length w) (min (length w + length seg) prefix_bytes)) (take (S retained) (w ++ seg)) ++
            take (min (length w + length seg) prefix_bytes - min (length w) (min (length w + length seg) prefix_bytes)) seg
            = take prefix_bytes (w ++ seg)) as ->.
    { rewrite take_take, !take_app. rewrite length_app in *.
      destruct (decide (length w ≤ prefix_bytes)).
      - rewrite !(take_ge w) by lia. rewrite <-app_assoc. f_equal.
        replace (min _ (S retained) - length w) with 0 by lia. simpl.
        destruct (decide (length seg ≤ prefix_bytes - length w)); [rewrite !take_ge by lia; done|f_equal; lia].
      - replace (prefix_bytes - length w) with 0 by lia.
        replace (min (min (length w) (min (length w + length seg) prefix_bytes)) (S retained)) with prefix_bytes by lia.
        replace (prefix_bytes - length w) with 0 by lia.
        replace (min (length w + length seg) prefix_bytes - min (length w) (min (length w + length seg) prefix_bytes)) with 0 by lia.
        by rewrite !take_0, !app_nil_r. }
    split; [apply prefix_take|]. rewrite length_take. lia.
Qed.

Lemma building_add retained policy w rec seg :
  building retained policy w rec →
  match add_segment retained policy rec seg with
  | Ok rec' => building retained policy (w ++ seg) rec'
  | Err e => e = ErrOutputLineTooLong ∧ policy = RejectOversizeOutput ∧ doomed retained (w ++ seg)
  end.
Proof.
  destruct rec as [line|p]; simpl.
  - intros [-> Hw]. rewrite appendWithinCap_spec by lia. unfold too_long.
    destruct (decide (length (w ++ seg) ≤ S retained)) as [Hle|Hgt].
    + rewrite (bool_decide_true _ Hle), take_ge by done. simpl.
      assert (Hspec := discarded_prefix_spec retained w seg). rewrite (bool_decide_true _ Hle), take_ge in Hspec by done.
      destruct (Nat.ltb_spec retained (length (w ++ seg))) as [Hlt|]; simpl; [|split; [done|by left]].
      assert (length (w ++ seg) = S retained) as Hl by lia. rewrite Hl, Nat.eqb_refl. simpl.
      destruct (ends_cr (w ++ seg)) eqn:Hc; simpl; [split; [done|by right]|].
      pose proof (doomed_unterminated _ _ Hl Hc). specialize (Hspec ltac:(lia) ltac:(lia)). unfold makeDiscardedOutputPrefix in Hspec. rewrite Hl in Hspec.
      destruct policy; [done|]. by split_and!.
    + rewrite (bool_decide_false _ Hgt). simpl. pose proof (doomed_long retained (w ++ seg) ltac:(lia)).
      assert (Hspec := discarded_prefix_spec retained w seg). rewrite (bool_decide_false _ Hgt) in Hspec.
      destruct policy; [done|]. split_and!; [done..|apply Hspec; lia].
  - intros (-> & Hd & [Hp Hl]). split_and!; [done| |split; [by apply prefix_app_r|done]].
    intros more. rewrite <-app_assoc. apply Hd.
Qed.

(** What one record becomes. *)
Inductive framed (retained : nat) (policy : OversizeOutputPolicy) (w : list Byte) : Next → Prop :=
| framed_line : fits retained w → framed retained policy w (NextLine (strip_cr w ++ [LF]))
| framed_discard p : policy = DiscardOversizeOutput → ¬ fits retained w → kept_prefix retained w p →
    framed retained policy w (NextDiscarded p)
| framed_reject : policy = RejectOversizeOutput → ¬ fits retained w →
    framed retained policy w (NextErr ErrOutputLineTooLong).

Lemma building_retained_fits retained policy w line : building retained policy w (Retained line) → fits retained w.
Proof.
  intros [_ [Hl|[Hl Hc]]]; unfold fits; pose proof (strip_cr_length w); [lia|].
  rewrite strip_cr_ends by done. lia.
Qed.

Lemma doomed_unfit retained w : doomed retained w → ¬ fits retained w.
Proof. intros Hd. specialize (Hd []). by rewrite app_nil_r in Hd. Qed.

Lemma finish_line retained w :
  fits retained w → (appendWithinCap (strip_cr w) [LF] (S retained)).1 = strip_cr w ++ [LF].
Proof.
  intros Hf. unfold fits in Hf. rewrite appendWithinCap_spec by lia. simpl.
  rewrite take_ge; [done|]. rewrite length_app. simpl. lia.
Qed.

Lemma finish_framed retained policy w rec : building retained policy w rec → framed retained policy w (finish retained rec).
Proof.
  destruct rec as [line|p]; intros Hb; simpl.
  - pose proof (building_retained_fits _ _ _ _ Hb) as Hf. destruct Hb as [-> _]. rewrite finish_line by done. by constructor.
  - destruct Hb as (-> & Hd & Hp). constructor; [done|by apply doomed_unfit|done].
Qed.

Lemma finish_eof_framed retained policy w rec :
  building retained policy w rec → w ≠ [] → framed retained policy w (finish_eof retained policy rec).
Proof.
  destruct rec as [line|p]; intros Hb Hne; simpl.
  - pose proof (building_retained_fits _ _ _ _ Hb) as Hf. destruct Hb as [-> _]. destruct w as [|c w]; [done|].
    unfold fits in Hf. rewrite (proj2 (Nat.ltb_ge _ _) Hf), finish_line by done. by constructor.
  - destruct Hb as (-> & Hd & Hp). constructor; [done|by apply doomed_unfit|done].
Qed.

Lemma reads_consume r c rest used :
  reads r c → rd_pending r = used ++ rest → ∃ c', c = used ++ c' ∧ reads (consume rest r) c'.
Proof.
  destruct r as [src pending perr empties stop mx obs]; intros [Hc [Hs Hm]]; simpl in *; intros ->.
  assert (∃ c', c = used ++ c' ∧ content_of (mkReader src rest perr empties stop mx obs) = Some c') as (c' & -> & Hc').
  { unfold content_of in *. simpl in *. destruct perr as [[]|]; [destruct (stream 0 src) as [[]|]; simplify_eq; eauto|done|].
    destruct (stream empties src) as [tl|]; [|done]. simplify_eq/=. exists (rest ++ tl). by rewrite <-app_assoc. }
  exists c'. split; [done|]. split; [done|]. split; [done|]. simpl.
  destruct Hm as [?|Hm]; [by left|right]. rewrite !length_app in Hm. split; [lia|]. split; [lia|].
  unfold content_of in Hc'. simpl in Hc'. lia.
Qed.

Lemma reads_eof r c :
  rd_pending r = [] → rd_pendingErr r = Some ReadEOF → reads r c → c = [] ∧ reads (take_error r) [].
Proof.
  destruct r as [src pending perr empties stop mx obs]; simpl. intros -> -> [Hc [Hs Hm]]. unfold content_of in Hc. simpl in *.
  destruct (stream 0 src) as [[]|] eqn:Hst; simplify_eq/=. split; [done|]. split; [unfold content_of; simpl; by rewrite Hst|].
  split; [done|]. simpl. by destruct Hm as [?|Hm]; [left|right].
Qed.

Lemma finish_eof_empty retained policy rec :
  building retained policy [] rec → finish_eof retained policy rec = NextEOF.
Proof.
  destruct rec as [line|p]; intros Hb; simpl.
  - by destruct Hb as [-> _].
  - destruct Hb as (_ & Hd & _). exfalso. apply (Hd []). unfold fits. simpl. lia.
Qed.

Lemma records_head w c :
  LF ∉ w → w ++ c ≠ [] → ∃ more rest, records (w ++ c) = (w ++ more) :: records rest ∧ length rest < length (w ++ c).
Proof.
  intros Hw Hne. destruct (cut_line c) as [[seg rest]|] eqn:Hcut.
  - apply cut_line_some in Hcut as [-> Hseg]. exists seg, rest. rewrite app_assoc. split; [apply records_line; set_solver|].
    rewrite !length_app. simpl. lia.
  - apply cut_line_none in Hcut. exists c, []. rewrite records_tail by set_solver. split; [done|].
    destruct (w ++ c); simpl; [done|lia].
Qed.

(** [nextLine] among the reads of a clean source: it ends, and returns the next
    record, leaving the rest. *)
Lemma next_line_reads retained policy fuel w rec r c :
  work r < fuel → reads r c → LF ∉ w → building retained policy w rec →
  ∃ out r', next_line retained policy fuel rec r = Some (out, r') ∧
    (w ++ c = [] → out = NextEOF) ∧
    (w ++ c ≠ [] → ∃ record rest, records (w ++ c) = record :: records rest ∧ length rest < length (w ++ c) ∧
       framed retained policy record out ∧ ((∀ e, out ≠ NextErr e) → reads r' rest)).
Proof.
  revert w rec r c. induction fuel as [|fuel IH]; intros w rec r c Hf Hr Hw Hb; [lia|]. cbn [next_line].
  destruct (rd_pending r) as [|b pending] eqn:Hp.
  - destruct (rd_pendingErr r) as [[]|] eqn:He.
    + apply reads_eof in Hr as [-> Hr]; [|done..]. rewrite app_nil_r.
      eexists _, _. split; [done|]. split.
      * intros ->. by apply finish_eof_empty.
      * intros Hne. exists w, []. rewrite records_tail by done. split_and!; [done|by destruct w; [|simpl; lia]|by apply finish_eof_framed|done].
    + destruct Hr as [Hc _]. unfold content_of in Hc. by rewrite He in Hc.
    + destruct (readMore_reads r c Hp He Hr) as (r' & Hm & Hr' & Hlt).
      assert (stopped r = false) as -> by (by destruct Hr as [_ [Hs _]]; unfold stopped; rewrite Hs).
      rewrite Hm. apply IH; [lia|done..].
  - destruct (cut_line (b :: pending)) as [[seg rest]|] eqn:Hcut; cbn beta iota.
    + apply cut_line_some in Hcut as [Hcut Hseg]. rewrite Hcut in Hp.
      destruct (reads_consume r c rest (seg ++ [LF]) Hr) as (c' & -> & Hr'); [by rewrite <-app_assoc|].
      rewrite <-app_assoc. cbn [app]. rewrite app_assoc.
      assert (LF ∉ w ++ seg) as Hws by set_solver.
      pose proof (building_add retained policy w rec seg Hb) as Hadd.
      destruct (add_segment retained policy rec seg) as [rec'|e]; eexists _, _; (split; [done|]);
        (split; [by destruct (w ++ seg)|]); intros _; exists (w ++ seg), c'; (split; [by apply records_line|]);
        (split; [rewrite !length_app; simpl; lia|]).
      * split; [by apply finish_framed|done].
      * destruct Hadd as (-> & Hpol & Hd). split; [|by intros Hn; destruct (Hn ErrOutputLineTooLong)].
        constructor; [done|by apply doomed_unfit].
    + apply cut_line_none in Hcut.
      destruct (reads_consume r c [] (b :: pending) Hr) as (c' & -> & Hr'); [by rewrite app_nil_r|].
      rewrite app_assoc. assert (LF ∉ w ++ b :: pending) as Hws by set_solver.
      pose proof (building_add retained policy w rec (b :: pending) Hb) as Hadd.
      destruct (add_segment retained policy rec (b :: pending)) as [rec'|e].
      * apply IH; [|done..]. unfold work, pending_weight, open_weight in *. rewrite Hp in Hf. simpl in *. lia.
      * destruct Hadd as (-> & Hpol & Hd). eexists _, _. split; [done|]. split; [by destruct w|]. intros _.
        destruct (records_head (w ++ b :: pending) c') as (more & rest & Hrec & Hlt); [done|by destruct w|].
        exists ((w ++ b :: pending) ++ more), rest. split_and!; [done..| |by intros Hn; destruct (Hn ErrOutputLineTooLong)].
        constructor; [done|apply Hd].
Qed.

Lemma nextLine_reads retained policy r c :
  reads r c →
  ∃ out r', nextLine retained policy r = Some (out, r') ∧
    (c = [] → out = NextEOF) ∧
    (c ≠ [] → ∃ record rest, records c = record :: records rest ∧ length rest < length c ∧
       framed retained policy record out ∧ ((∀ e, out ≠ NextErr e) → reads r' rest)).
Proof.
  intros Hr. apply (next_line_reads retained policy (line_fuel r) [] (Retained []) r c); [|done|set_solver|].
  - unfold line_fuel, work, pending_weight, open_weight. destruct (rd_pending r), (rd_pendingErr r); lia.
  - split; [done|left; simpl; lia].
Qed.

(** What the loop delivers of a list of records, and how it ends. *)
Inductive delivers (retained : nat) (policy : OversizeOutputPolicy)
    : list (list Byte) → list Delivery → option OutputError → Prop :=
| delivers_end : delivers retained policy [] [] None
| delivers_line w ws ds e : fits retained w → delivers retained policy ws ds e →
    delivers retained policy (w :: ws) (Output (strip_cr w ++ [LF]) :: ds) e
| delivers_prefix w ws p ds e : policy = DiscardOversizeOutput → ¬ fits retained w → kept_prefix retained w p →
    delivers retained policy ws ds e → delivers retained policy (w :: ws) (Discarded p :: ds) e
| delivers_stop w ws : policy = RejectOversizeOutput → ¬ fits retained w →
    delivers retained policy (w :: ws) [] (Some ErrOutputLineTooLong).

Definition not_stopping (r : outputLineReader) : Prop := rd_stop r = None.

Lemma next_line_stop retained policy fuel rec r out r' :
  rd_stop r = None → next_line retained policy fuel rec r = Some (out, r') → rd_stop r' = None.
Proof.
  revert rec r. induction fuel as [|fuel IH]; intros rec r Hs; [done|]. cbn [next_line].
  destruct (rd_pending r) as [|b pending].
  - destruct (rd_pendingErr r) as [[]|]; [intros; by simplify_eq..|]. unfold stopped. rewrite bool_decide_false by (by rewrite Hs).
    destruct (readMore r) as [e r1] eqn:Hm.
    assert (rd_stop r1 = None).
    { revert Hm. unfold readMore. rewrite Hs. intros. split_matches; by simplify_eq/=. }
    destruct e; [intros; by simplify_eq|by apply IH].
  - destruct (cut_line _) as [[]|]; destruct (add_segment _ _ _ _); intros; simplify_eq/=; try done. by eapply IH; [|done].
Qed.

(** C40: the output reader frames the byte stream, however the terminal cuts it
    into reads. From a source that ends cleanly, uninterrupted and within the
    ceiling on observed bytes, the loop delivers exactly the newline-separated
    records in order: each with its final carriage return stripped and a newline
    put back, an unterminated last one included, when it fits the retained-line
    limit; otherwise, under the discard policy, a bounded prefix of it and
    nothing else, and under the reject policy the loop ends there with
    [ErrOutputLineTooLong]. *)
Theorem readLoop_frames_records retained policy r content fuel :
  reads r content → 2 * length content < fuel →
  ∃ ds e, readLoop fuel retained policy [] false r = Some (ds, e) ∧ delivers retained policy (records content) ds e.
Proof.
  revert r content. induction fuel as [fuel IH] using lt_wf_ind; intros r content Hr Hf.
  destruct fuel as [|fuel]; [lia|]. cbn [readLoop].
  destruct (nextLine_reads retained policy r content Hr) as (out & r' & Hn & Hend & Hrec). rewrite Hn.
  destruct (decide (content = [])) as [->|Hne].
  { rewrite Hend by done. do 2 eexists. split; [done|]. constructor. }
  destruct (Hrec Hne) as (record & rest & -> & Hlt & Hfr & Hrest).
  assert (Hdeliver : ∀ d, (∀ e, out ≠ NextErr e) →
    ∃ ds e, deliver fuel retained policy [] false d r' = Some (d :: ds, e) ∧ delivers retained policy (records rest) ds e).
  { intros d Hout. destruct fuel as [|fuel]; [lia|]. cbn [deliver].
    destruct (IH fuel ltac:(lia) r' rest (Hrest Hout) ltac:(lia)) as (ds & e & -> & Hd). by exists ds, e. }
  destruct Hfr as [Hfit|p Hp Hfit Hk|Hp Hfit].
  - destruct (Hdeliver (Output (strip_cr record ++ [LF]))) as (ds & e & -> & Hd); [done|].
    do 2 eexists. split; [done|]. by constructor.
  - destruct (Hdeliver (Discarded p)) as (ds & e & -> & Hd); [done|].
    do 2 eexists. split; [done|]. by constructor.
  - assert (rd_stop r' = None) as Hs by (eapply next_line_stop; [apply Hr|exact Hn]).
    unfold stopped. rewrite bool_decide_false by (by rewrite Hs). do 2 eexists. split; [done|]. by constructor.
Qed.

(** ** Budgets *)

(** the retention budget. The budget for a line length is accepted and gives
    back that length; every budget that is accepted gives a line length for
    which the read buffer, the three discarded prefixes and the four lines the
    pipeline can hold at once fit the budget (the default when none is set). *)
Theorem retention_budget_roundtrip :
  (∀ lineBytes, (1 ≤ lineBytes ≤ maximumRetainedLineBytes)%Z →
     normalizeOutputRetention (RetentionBudgetForLineBytes lineBytes) = Ok lineBytes) ∧
  (∀ budget lineBytes, normalizeOutputRetention budget = Ok lineBytes →
     (1 ≤ lineBytes ≤ maximumRetainedLineBytes ∧
      retention_of lineBytes ≤ if decide (budget = 0) then DefaultMaxOutputRetentionBytes else budget)%Z).
Proof.
  split.
  - intros n Hn. unfold RetentionBudgetForLineBytes, normalizeOutputRetention, maximumRetainedLineBytes in *.
    assert (Heq : ((n <? 1) || (8388608 <? n))%Z = false) by (rewrite orb_false_iff, !Z.ltb_ge; lia). rewrite Heq.
    unfold MaximumMaxOutputRetentionBytes, retention_of, maximumRetainedLineBytes, outputReadBufferBytes,
      discardedPrefixRetentionSlots, maxDiscardedOutputPrefixBytes, outputRetentionSlots in *.
    set (x := (65536 + 3 * 4096 + 4 * (n + 2))%Z).
    assert (Hx : (77824 < x ≤ 65536 + 3 * 4096 + 4 * (8388608 + 2))%Z) by lia.
    rewrite (proj2 (Z.ltb_ge x 0)) by lia. rewrite (proj2 (Z.ltb_ge _ x)) by lia. rewrite (proj2 (Z.eqb_neq x 0)) by lia.
    replace (x - 65536 - 3 * 4096)%Z with ((n + 2) * 4)%Z by lia. cbv zeta. rewrite Z.quot_mul by lia.
    rewrite (proj2 (Z.ltb_ge (n + 2 - 2) 1)) by lia. f_equal. lia.
  - intros b n. unfold normalizeOutputRetention, DefaultMaxOutputRetentionBytes, MaximumMaxOutputRetentionBytes, retention_of,
      defaultRetainedLineBytes, maximumRetainedLineBytes, outputReadBufferBytes,
      discardedPrefixRetentionSlots, maxDiscardedOutputPrefixBytes, outputRetentionSlots.
    destruct (Z.ltb_spec b 0); [done|]. destruct (Z.ltb_spec (65536 + 3 * 4096 + 4 * (8388608 + 2)) b); [done|].
    set (x := if (b =? 0)%Z then (65536 + 3 * 4096 + 4 * (1048576 + 2))%Z else b).
    assert (x = if decide (b = 0)%Z then (65536 + 3 * 4096 + 4 * (1048576 + 2))%Z else b) as Hx.
    { subst x. destruct (Z.eqb_spec b 0), (decide (b = 0)%Z); done. }
    clearbody x. destruct (Z.ltb_spec (Z.quot (x - 65536 - 3 * 4096) 4 - 2) 1) as [|Hge]; [done|]. intros [= <-]. rewrite <-Hx.
    assert (0 ≤ x - 65536 - 3 * 4096)%Z.
    { destruct (Z.le_gt_cases 0 (x - 65536 - 3 * 4096)) as [|Hneg]; [done|].
      pose proof (Z.quot_le_mono (x - 65536 - 3 * 4096) 0 4 ltac:(lia) ltac:(lia)). rewrite Z.quot_0_l in * by lia. lia. }
    rewrite Z.quot_div_nonneg in * by lia.
    pose proof (Z.mul_div_le (x - 65536 - 3 * 4096) 4 ltac:(lia)).
    assert (x ≤ 65536 + 3 * 4096 + 4 * (8388608 + 2))%Z by (destruct (decide (b = 0)%Z); lia). lia.
Qed.

(** ** The ceiling on observed bytes *)

Lemma read_answer_length size src bytes err src' :
  read_answer size src = ((Some bytes, err), src') → length bytes ≤ size.
Proof.
  destruct src as [|[bs e|] src]; simpl; intros; simplify_eq/=; [lia|].
  case_decide; simplify_eq; [lia|]. rewrite length_take. lia.
Qed.

(** [uint64] counters do not wrap below 2^63. *)
Definition under_ceiling (r : outputLineReader) : Prop :=
  (0 < rd_maxObserved r < 2 ^ 63 ∧ 0 ≤ rd_observed r ≤ rd_maxObserved r)%Z.

Lemma readMore_ceiling r e r' :
  under_ceiling r → readMore r = (e, r') →
  rd_maxObserved r' = rd_maxObserved r ∧
  (under_ceiling r' ∨ (e = Some ErrObservedOutputTooLarge ∧ rd_observed r' = rd_maxObserved r + 1)%Z).
Proof.
  intros [Hm Ho]. unfold readMore. destruct (read_answer _ _) as [[[bytes|] err] src'] eqn:Hr;
    [|intros; simplify_eq/=; split; [done|by left]].
  apply read_answer_length in Hr.
  assert (Hrem : remainingObserved r = (rd_maxObserved r - rd_observed r)%Z) by (unfold remainingObserved; apply Z.mod_small; lia).
  unfold read_size in Hr. rewrite (proj2 (Z.ltb_lt 0 _)) in * by lia. rewrite Hrem in *. cbn [andb] in *.
  unfold outputReadBufferBytes in Hr.
  destruct bytes as [|b bytes].
  - destruct err as [e0|]; [intros; simplify_eq/=; split; [done|by left]|].
    destruct (too_many_empty _); [|destruct (stopped _)]; intros; simplify_eq/=; (split; [done|by left]).
  - set (n := Z.of_nat (length (b :: bytes))) in *.
    assert (Hn : (n ≤ rd_maxObserved r - rd_observed r + 1)%Z) by (destruct (Z.ltb_spec (rd_maxObserved r - rd_observed r) 65536); lia).
    destruct (Z.ltb_spec (rd_maxObserved r - rd_observed r) n); intros; simplify_eq/=; (split; [done|]);
      rewrite Z.mod_small by lia; [right; split; [done|lia]|left; unfold under_ceiling; simpl; lia].
Qed.

Lemma consume_ceiling rest r : under_ceiling r → under_ceiling (consume rest r).
Proof. done. Qed.

(** the ceiling on observed output holds to the byte. A reader that has seen
    no more than its ceiling has still seen no more after any call of
    [nextLine], except for a call that fails with [ErrObservedOutputTooLarge],
    which has read exactly one byte over. *)
Theorem observed_bytes_bounded retained policy r out r' :
  under_ceiling r → nextLine retained policy r = Some (out, r') →
  under_ceiling r' ∨ (out = NextErr ErrObservedOutputTooLarge ∧ rd_observed r' = rd_maxObserved r + 1)%Z.
Proof.
  unfold nextLine. generalize (line_fuel r). generalize (Retained []). intros rec fuel.
  revert rec r. induction fuel as [|fuel IH]; intros rec r Hu; [done|]. cbn [next_line].
  destruct (rd_pending r) as [|b pending].
  - destruct (rd_pendingErr r) as [[]|]; [intros; simplify_eq; by left..|].
    destruct (stopped r); [intros; simplify_eq; by left|].
    destruct (readMore r) as [e r1] eqn:Hm. destruct (readMore_ceiling r e r1 Hu Hm) as [Hmax [Hu1|[-> Ho]]].
    + destruct e; [intros; simplify_eq; by left|]. rewrite <-Hmax. by apply IH.
    + intros; simplify_eq. by right.
  - destruct (cut_line _) as [[]|]; destruct (add_segment _ _ _ _); try (intros; simplify_eq; by left).
    apply (IH _ (consume [] r)). by apply consume_ceiling.
Qed.

(** ** Witnesses *)

Definition text_bytes (s : string) : list Byte := chars s.

(** "hi", a record that is too long, and an unterminated one, cut oddly. *)
Definition demo_source : list Answer :=
  [Data (text_bytes "h") None; Data [] None; Data (text_bytes "i" ++ [CR]) None; Data [LF] None;
   Data (text_bytes "too l") None; Data (text_bytes "ong" ++ [LF] ++ text_bytes "e") None; Data (text_bytes "nd") (Some ReadEOF)].
Definition demo_content : list Byte := text_bytes "hi" ++ [CR; LF] ++ text_bytes "too long" ++ [LF] ++ text_bytes "end".

Lemma readLoop_frames_records_witness :
  ∃ ds e, readLoop 64 4 DiscardOversizeOutput [] false (newOutputLineReader demo_source None 100) = Some (ds, e) ∧
    delivers 4 DiscardOversizeOutput (records demo_content) ds e.
Proof.
  apply (readLoop_frames_records 4 DiscardOversizeOutput (newOutputLineReader demo_source None 100) demo_content 64).
  - split; [reflexivity|]. split; [reflexivity|]. right. vm_compute. split; [done|]. split; [done|]. done.
  - apply Nat.ltb_lt. reflexivity.
Defined.

Example demo_frames :
  readLoop 64 4 DiscardOversizeOutput [] false (newOutputLineReader demo_source None 100) =
  Some ([Output (text_bytes "hi" ++ [LF]); Discarded (text_bytes "too l"); Output (text_bytes "end" ++ [LF])], None).
Proof. vm_compute. reflexivity. Qed.

Lemma observed_bytes_bounded_witness :
  ∃ out r', nextLine 9 RejectOversizeOutput (consume [] (newOutputLineReader demo_source None 4)) = Some (out, r') ∧
    (under_ceiling r' ∨ (out = NextErr ErrObservedOutputTooLarge ∧ rd_observed r' = rd_maxObserved (newOutputLineReader demo_source None 4) + 1)%Z).
Proof.
  set (r := newOutputLineReader demo_source None 4). destruct (nextLine 9 RejectOversizeOutput (consume [] r)) as [[out r']|] eqn:H; [|by vm_compute in H].
  exists out, r'. split; [done|]. apply (observed_bytes_bounded 9 RejectOversizeOutput (consume [] r) out r'); [|done].
  split; vm_compute; done.
Defined.
