(* ===== verification/Provider.v ===== *)
(** * Provider bindings: [internal/provider]

    Capability records and their resolution ([binding.go], [provider.go]), the
    requirements a task states of them ([capabilities.go]), what a turn runs as
    ([invocation.go]), its limits ([timeouts.go]) and how its failure is
    classified ([failure.go]). *)
From stdpp Require Import sorting.
From S2P Require Import Prelude GoLib FilePath.

(** ** Bindings *)

Definition ModelHaiku : string := "haiku".
Definition ModelSonnet : string := "sonnet".
Definition ModelOpus : string := "opus".

Record BindingConfig := mkBindingConfig {
  bc_type : string; bc_bin : string; bc_binary : string; bc_args : list string; bc_output_file : string;
  bc_turn_timeout : string; bc_stall_timeout : string; bc_max_retries : Z; bc_session_id_regex : string;
  bc_haiku : string; bc_sonnet : string; bc_opus : string;
  bc_low : string; bc_medium : string; bc_high : string; bc_max : string;
  bc_supports_resume : option bool; bc_append_system_prompt : option bool;
  bc_native_fanout : bool;
  bc_supports_containment : option bool;
  bc_write_paths : list string }.

(** A [*bool] set to true, and one that is not set to false. *)
Definition is_set (o : option bool) : bool := default false o.
Definition not_unset (o : option bool) : bool := default true o.

Definition shipped (type_ binary : string) (fanout : bool) (write_paths : list string) : BindingConfig :=
  mkBindingConfig type_ "" binary [] "" "" "" 0 "" "" "" "" "" "" "" "" None None fanout None write_paths.

Definition defaultClaudeProvider : BindingConfig := shipped "claude" "claude" true [].
Definition defaultCodexProvider : BindingConfig := shipped "codex" "codex" false ["~/.codex"].
Definition defaultOpencodeProvider : BindingConfig := shipped "opencode" "opencode" true ["~/.local/share/opencode"].
Definition defaultCopilotProvider : BindingConfig := shipped "copilot" "copilot" false ["~/.copilot"].

Definition builtInProvider (name : string) : option BindingConfig :=
  if decide (name = "" ∨ name = "claude") then Some defaultClaudeProvider
  else if decide (name = "codex") then Some defaultCodexProvider
  else if decide (name = "opencode") then Some defaultOpencodeProvider
  else if decide (name = "copilot") then Some defaultCopilotProvider
  else None.

Record Binding := mkBinding { bd_name : string; bd_config : BindingConfig; bd_from_local : bool }.

Record File := mkFile { fl_default : string; fl_providers : gmap string BindingConfig }.
Record Local_ := mkLocal { lc_binary : string; lc_binaries : gmap string string }.

(** [if s != ""]. *)
Definition nonempty (s : string) : option string := if decide (s = "") then None else Some s.
Definition or_else (s fallback : string) : string := if decide (s = "") then fallback else s.

Definition BinaryFor (l : Local_) (providerName : string) : option string :=
  match lc_binaries l !! providerName with
  | Some bin => if decide (bin = "") then nonempty (lc_binary l) else Some bin
  | None => nonempty (lc_binary l)
  end.

Definition with_type_binary (type_ binary : string) (c : BindingConfig) : BindingConfig :=
  mkBindingConfig type_ (bc_bin c) binary (bc_args c) (bc_output_file c) (bc_turn_timeout c) (bc_stall_timeout c)
    (bc_max_retries c) (bc_session_id_regex c) (bc_haiku c) (bc_sonnet c) (bc_opus c) (bc_low c) (bc_medium c)
    (bc_high c) (bc_max c) (bc_supports_resume c) (bc_append_system_prompt c) (bc_native_fanout c)
    (bc_supports_containment c) (bc_write_paths c).
Definition with_timeouts (turn stall : string) (c : BindingConfig) : BindingConfig :=
  mkBindingConfig (bc_type c) (bc_bin c) (bc_binary c) (bc_args c) (bc_output_file c) turn stall
    (bc_max_retries c) (bc_session_id_regex c) (bc_haiku c) (bc_sonnet c) (bc_opus c) (bc_low c) (bc_medium c)
    (bc_high c) (bc_max c) (bc_supports_resume c) (bc_append_system_prompt c) (bc_native_fanout c)
    (bc_supports_containment c) (bc_write_paths c).
Definition with_fanout (fanout : bool) (c : BindingConfig) : BindingConfig :=
  mkBindingConfig (bc_type c) (bc_bin c) (bc_binary c) (bc_args c) (bc_output_file c) (bc_turn_timeout c) (bc_stall_timeout c)
    (bc_max_retries c) (bc_session_id_regex c) (bc_haiku c) (bc_sonnet c) (bc_opus c) (bc_low c) (bc_medium c)
    (bc_high c) (bc_max c) (bc_supports_resume c) (bc_append_system_prompt c) fanout
    (bc_supports_containment c) (bc_write_paths c).

(** [ErrNotDeclared]: the provider is in neither the configuration nor the
    shipped set. *)
Inductive BindingError := ErrNotDeclared (name : string).

Definition ResolveBinding (cfg : File) (local : Local_) (fromConfig : string) : result BindingError Binding :=
  let name := or_else (or_else fromConfig (fl_default cfg)) "claude" in
  match (match fl_providers cfg !! name with Some c => Some c | None => builtInProvider name end) with
  | None => Err (ErrNotDeclared name)
  | Some c =>
      let type_ := or_else (bc_type c) name in
      let binary := default (bc_binary c) (BinaryFor local name) in
      let binary := if decide (binary = "")
                    then match builtInProvider type_ with Some b => bc_binary b | None => "" end
                    else binary in
      Ok (mkBinding name (with_type_binary type_ binary c) (bool_decide (is_Some (BinaryFor local name))))
  end.

(** [BindingWritePaths]; [home] is [os.UserHomeDir], [None] when it fails. *)
Definition write_path (home : option string) (entry : string) : option string :=
  let entry := TrimSpace entry in
  if decide (entry = "") then None
  else match entry with
       | String "~" rest =>
           match home with
           | None => None
           | Some h => if decide (h = "") then None else Some (JoinPath [h; rest])
           end
       | _ => Some entry
       end.
Definition BindingWritePaths (home : option string) (b : Binding) : list string :=
  omap (write_path home) (bc_write_paths (bd_config b)).

Definition BindingSupportsContainment (b : Binding) : bool := not_unset (bc_supports_containment (bd_config b)).

(** ** Capabilities *)

Definition CapabilityNativeFanout : string := "native_fanout".
Definition CapabilityResume : string := "resume".
Definition CapabilityAppendSystemPrompt : string := "append_system_prompt".

Definition BindingCapabilities (c : BindingConfig) : gset string :=
  (if bc_native_fanout c then {[CapabilityNativeFanout]} else ∅) ∪
  (if is_set (bc_supports_resume c) then {[CapabilityResume]} else ∅) ∪
  (if is_set (bc_append_system_prompt c) then {[CapabilityAppendSystemPrompt]} else ∅).

Definition KnownCapability (key : string) : bool :=
  bool_decide (key = CapabilityNativeFanout) || bool_decide (key = CapabilityResume) ||
  bool_decide (key = CapabilityAppendSystemPrompt).

(** [sort.Strings]. *)
Definition sort_strings (l : list string) : list string := merge_sort String.le l.

(** The trimmed entries that are not blank. *)
Definition stated (l : list string) : list string := filter (λ s, s ≠ "") (TrimSpace <$> l).

Inductive CapabilityError :=
| ErrCapabilityUnknown (keys : list string)
| ErrCapabilityUnmet (alias : string) (keys : list string).

Definition CheckRequirements (b : Binding) (requires : list string) : option CapabilityError :=
  let caps := BindingCapabilities (bd_config b) in
  let unknown := filter (λ k, KnownCapability k = false) (stated requires) in
  let unmet := filter (λ k, KnownCapability k = true ∧ k ∉ caps) (stated requires) in
  match unknown, unmet with
  | _ :: _, _ => Some (ErrCapabilityUnknown (sort_strings unknown))
  | [], _ :: _ => Some (ErrCapabilityUnmet (bd_name b) (sort_strings unmet))
  | [], [] => None
  end.

Definition matches_binding (b : Binding) (name : string) : bool :=
  bool_decide (name = bd_name b) || bool_decide (name = bc_type (bd_config b)).

(** The refusal lists what is allowed; [None] is permission. *)
Definition CheckAllowedProviders (b : Binding) (providers : list string) : option (list string) :=
  if existsb (matches_binding b) (stated providers) then None
  else match stated providers with
       | [] => None
       | allowed => Some (sort_strings allowed)
       end.

(** ** Invocations *)

Record Request := mkRequest {
  rq_model : string; rq_effort : string; rq_strict : bool; rq_turn_timeout : Z; rq_stall_timeout : Z }.
Definition zero_request : Request := mkRequest "" "" false 0 0.

Record Invocation := mkInvocation { iv_alias : string; iv_provider : string; iv_model : string; iv_effort : string }.

Inductive InvocationError :=
| ErrNoModel | ErrTierNotMapped (tier resolved : string) | ErrEffortNotMapped (effort : string)
| ErrSurroundingSpace.

(** The model configured for a tier: [HaikuModel], [SonnetModel], [OpusModel]. *)
Definition tier_model (c : BindingConfig) (model : string) : string :=
  if decide (model = ModelHaiku) then bc_haiku c
  else if decide (model = ModelSonnet) then bc_sonnet c
  else if decide (model = ModelOpus) then bc_opus c
  else "".

Definition resolveModel (c : BindingConfig) (model : string) : string :=
  let own := if decide (model = ModelHaiku) then bc_haiku c
             else if decide (model = ModelOpus) then bc_opus c else "" in
  if decide (own = "") then
    if decide (bc_sonnet c = "") then
      if decide (bc_type c = "" ∨ bc_type c = "claude") then model else ""
    else bc_sonnet c
  else own.

Definition effort_setting (c : BindingConfig) (effort : string) : string :=
  if decide (effort = "low") then bc_low c
  else if decide (effort = "medium") then bc_medium c
  else if decide (effort = "high") then bc_high c
  else if decide (effort = "max") then bc_max c
  else "".

Definition resolveEffort (c : BindingConfig) (effort : string) : string := or_else (effort_setting c effort) effort.

Definition bindingHonorsModel (c : BindingConfig) (requested resolved : string) : bool :=
  if decide (tier_model c requested = "") then bool_decide (resolved = requested) else true.

Definition bindingMapsEffort (c : BindingConfig) (effort : string) : bool :=
  if decide (effort = "" ∨ effort = "default") then true
  else negb (bool_decide (effort_setting c effort = "")).

Definition validateExactlyHonorable (b : Binding) (req : Request) (model : string) : option InvocationError :=
  if decide (model = "") then Some ErrNoModel
  else if negb (bool_decide (rq_model req = "")) && negb (bindingHonorsModel (bd_config b) (rq_model req) model)
  then Some (ErrTierNotMapped (rq_model req) model)
  else if negb (bool_decide (rq_effort req = "")) && negb (bindingMapsEffort (bd_config b) (rq_effort req))
  then Some (ErrEffortNotMapped (rq_effort req))
  else None.

Definition ResolveInvocation (b : Binding) (req : Request) : result InvocationError Invocation :=
  let model := resolveModel (bd_config b) (rq_model req) in
  let effort := resolveEffort (bd_config b) (rq_effort req) in
  match (if rq_strict req then validateExactlyHonorable b req model else None) with
  | Some e => Err e
  | None =>
      if decide (TrimSpace model = model ∧ TrimSpace effort = effort)
      then Ok (mkInvocation (bd_name b) (bc_type (bd_config b)) model effort)
      else Err ErrSurroundingSpace
  end.

(** SHA-256 of the JSON of the alias, the whole configuration, the model and the
    effort. *)
Class InvocationHash := { InvocationConfigHash : Binding → string → string → string }.

(** ** Limits of a turn *)

Definition minute : Z := 60000000000.
Definition DefaultTurnTimeout : Z := 30 * minute.
Definition DefaultStallTimeout : Z := 3 * minute.
Definition MaxTurnTimeout : Z := 1440 * minute.
Definition MaxStallTimeout : Z := 60 * minute.

Record TurnLimits := mkLimits { tl_turn : Z; tl_stall : Z }.

(** [time.ParseDuration], in nanoseconds. *)
Class Durations := { ParseDuration : string → option Z }.

Inductive TimeoutError := ErrDuration (raw : string) | ErrNotPositive (d : Z) | ErrExceeds (d bound : Z) | ErrUnknownField.

Definition validateBoundedTimeout (value maxBound : Z) : option TimeoutError :=
  if (value <=? 0)%Z then Some (ErrNotPositive value)
  else if (maxBound <? value)%Z then Some (ErrExceeds value maxBound)
  else None.

Section Limits.
Context `{Durations}.

Definition parseBoundedTimeout (raw : string) (fallback maxBound : Z) : result TimeoutError Z :=
  let checked value := match validateBoundedTimeout value maxBound with Some e => Err e | None => Ok value end in
  if decide (raw = "") then checked fallback
  else match ParseDuration raw with None => Err (ErrDuration raw) | Some value => checked value end.

(** A request's override of a configured limit. *)
Definition overridden (configured requested maxBound : Z) : result TimeoutError Z :=
  if (requested =? 0)%Z then Ok configured
  else match validateBoundedTimeout requested maxBound with Some e => Err e | None => Ok requested end.

Definition ResolveTurnLimits (b : Binding) (req : Request) : result TimeoutError TurnLimits :=
  try turn := parseBoundedTimeout (bc_turn_timeout (bd_config b)) DefaultTurnTimeout MaxTurnTimeout in
  try stall := parseBoundedTimeout (bc_stall_timeout (bd_config b)) DefaultStallTimeout MaxStallTimeout in
  try turn := overridden turn (rq_turn_timeout req) MaxTurnTimeout in
  try stall := overridden stall (rq_stall_timeout req) MaxStallTimeout in
  Ok (mkLimits turn stall).

Definition ValidateConfiguredTimeout (field raw : string) : option TimeoutError :=
  if decide (raw = "") then None
  else
    let maxBound := if decide (field = "turn_timeout") then Some MaxTurnTimeout
                    else if decide (field = "stall_timeout") then Some MaxStallTimeout else None in
    match maxBound with
    | None => Some ErrUnknownField
    | Some maxBound =>
        match ParseDuration raw with
        | None => Some (ErrDuration raw)
        | Some value => validateBoundedTimeout value maxBound
        end
    end.
End Limits.

(** ** Failures *)

Inductive FailureCategory :=
| FailureNone
| FailureProcessCleanup | FailureOutputLimit
| FailureInteractivePrompt | FailureInteractivePromptPermission | FailureInteractivePromptConfirm
| FailureInteractivePromptClarification
| FailureStall | FailureTurnDeadline | FailureCanceled
| FailureProviderRejected | FailureProviderAuth | FailureProviderThrottled | FailureProviderUnavailable
| FailureRuntime.

#[export] Instance FailureCategory_eq_dec : EqDecision FailureCategory.
Proof. solve_decision. Defined.

Definition category_text (c : FailureCategory) : string :=
  match c with
  | FailureNone => ""
  | FailureProcessCleanup => "process_cleanup"
  | FailureOutputLimit => "output_limit"
  | FailureInteractivePrompt => "interactive_prompt"
  | FailureInteractivePromptPermission => "interactive_prompt_permission"
  | FailureInteractivePromptConfirm => "interactive_prompt_confirm"
  | FailureInteractivePromptClarification => "interactive_prompt_clarification"
  | FailureStall => "stall_timeout"
  | FailureTurnDeadline => "turn_deadline"
  | FailureCanceled => "canceled"
  | FailureProviderRejected => "provider_rejected"
  | FailureProviderAuth => "provider_auth"
  | FailureProviderThrottled => "provider_throttled"
  | FailureProviderUnavailable => "provider_unavailable"
  | FailureRuntime => "provider_runtime"
  end.

(** The errors [ClassifyFailure] looks for. *)
Inductive Sentinel :=
| ErrProcessSessionCleanup | ErrProcessTermination | ErrProcessExitObservation
| SnObservedOutputTooLarge | SnOutputLineTooLong | ErrAuthoritativeResultTooLarge | ErrStructuredEvidenceTooLarge
| ErrProviderOutputTooLarge | ErrStreamJSONLineTooLong
| ErrAgentBlocked | ErrProviderStalled | DeadlineExceeded | Canceled
| ErrClaudeAuthentication | ErrClaudeModelAccess | ErrClaudeRateLimit | ErrClaudeServiceUnavailable
| ErrClaudeResultFailed | ErrClaudeAPIFailure | ErrClaudeMaximumTurns | ErrClaudeInvalidRequest | ErrClaudeMissingResult
| ErrCodexTurnFailed | ErrCodexOversizeSchema
| ErrOpencodeReportedError | ErrOpencodeFinalReason | ErrOpencodeMissingFinish | ErrOpencodeInvalidUsage.

#[export] Instance Sentinel_eq_dec : EqDecision Sentinel.
Proof. solve_decision. Defined.

Inductive BlockReason := BlockReasonPrompt | BlockReasonStall.
Inductive PromptKind := PromptKindPermission | PromptKindConfirm | PromptKindClarification | PromptKindUnknown.

(** A Go error: the sentinels of its tree ([errors.Is]) and the first
    [BlockedError] in it ([errors.As]). *)
Record TurnError := mkTurnError { te_tree : list Sentinel; te_blocked : option (BlockReason * PromptKind) }.

Definition is_one_of (e : TurnError) (targets : list Sentinel) : bool :=
  existsb (λ s, bool_decide (s ∈ te_tree e)) targets.

Record Failure := mkFailure { fa_category : FailureCategory; fa_summary : string }.

Definition promptBlockFailure (kind : PromptKind) : Failure :=
  match kind with
  | PromptKindPermission => mkFailure FailureInteractivePromptPermission
      "provider requested permission to act (usually a write-path or binding grant, not a keystroke)"
  | PromptKindConfirm => mkFailure FailureInteractivePromptConfirm
      "provider requested confirmation of an action it already intended (usually suppressible with a flag)"
  | PromptKindClarification => mkFailure FailureInteractivePromptClarification
      "provider requested clarification about the task (the step's scoped context was insufficient)"
  | PromptKindUnknown => mkFailure FailureInteractivePrompt "provider requested interactive input"
  end.

Definition stall_failure : Failure := mkFailure FailureStall "provider made no progress before its stall timeout".

Definition ClassifyFailure (err : option TurnError) : Failure :=
  match err with
  | None => mkFailure FailureNone ""
  | Some e =>
      if is_one_of e [ErrProcessSessionCleanup; ErrProcessTermination; ErrProcessExitObservation]
      then mkFailure FailureProcessCleanup "provider process cleanup failed"
      else if is_one_of e [SnObservedOutputTooLarge; SnOutputLineTooLong; ErrAuthoritativeResultTooLarge;
                           ErrStructuredEvidenceTooLarge; ErrProviderOutputTooLarge; ErrStreamJSONLineTooLong]
      then mkFailure FailureOutputLimit "provider output exceeded a safety limit"
      else match te_blocked e with
           | Some (BlockReasonPrompt, kind) => promptBlockFailure kind
           | Some (BlockReasonStall, _) => stall_failure
           | None =>
               if is_one_of e [ErrProviderStalled] then stall_failure
               else if is_one_of e [DeadlineExceeded]
               then mkFailure FailureTurnDeadline "provider exceeded its total turn deadline"
               else if is_one_of e [Canceled] then mkFailure FailureCanceled "provider turn was canceled"
               else if is_one_of e [ErrClaudeAuthentication; ErrClaudeModelAccess]
               then mkFailure FailureProviderAuth "provider authentication or model access was denied"
               else if is_one_of e [ErrClaudeRateLimit]
               then mkFailure FailureProviderThrottled "provider rate limited the turn"
               else if is_one_of e [ErrClaudeServiceUnavailable]
               then mkFailure FailureProviderUnavailable "provider service was unavailable"
               else if is_one_of e [ErrClaudeResultFailed; ErrClaudeAPIFailure; ErrClaudeMaximumTurns;
                                    ErrClaudeInvalidRequest; ErrClaudeMissingResult; ErrCodexTurnFailed;
                                    ErrCodexOversizeSchema; ErrOpencodeReportedError; ErrOpencodeFinalReason;
                                    ErrOpencodeMissingFinish; ErrOpencodeInvalidUsage]
               then mkFailure FailureProviderRejected "provider reported an unsuccessful turn"
               else mkFailure FailureRuntime "provider execution failed"
           end
  end.

Definition Retryable (f : Failure) : bool :=
  match fa_category f with
  | FailureProviderAuth | FailureProviderRejected
  | FailureInteractivePrompt | FailureInteractivePromptPermission | FailureInteractivePromptConfirm
  | FailureInteractivePromptClarification
  | FailureOutputLimit | FailureProcessCleanup | FailureCanceled => false
  | _ => true
  end.

Definition RetryBudget (f : Failure) (configured : Z) : Z := if Retryable f then configured else 0.
