(* ===== verification/ProviderProps.v ===== *)
(** * Properties of provider bindings *)
From stdpp Require Import sorting.
From S2P Require Import Prelude GoLib StoreModel StoreSql StoreTasks StoreSpec Provider.

(** ** Requirements *)

Lemma sort_strings_perm l : sort_strings l ≡ₚ l.
Proof. apply merge_sort_Permutation. Qed.

Lemma stated_elem l s : s ∈ stated l ↔ s ≠ "" ∧ ∃ raw, raw ∈ l ∧ s = TrimSpace raw.
Proof. unfold stated. rewrite list_elem_of_filter, list_elem_of_fmap. naive_solver. Qed.

Lemma matches_binding_true b s : matches_binding b s = true ↔ s = bd_name b ∨ s = bc_type (bd_config b).
Proof. unfold matches_binding. rewrite orb_true_iff, !bool_decide_eq_true. done. Qed.

(** which bindings a task's restriction admits. A requirement check passes
    exactly when every stated key is known and the binding has it; otherwise it
    names every unknown key, or, when all are known, every missing one. A
    [providers] list admits a binding exactly when nothing but blanks is stated
    or the binding's alias or type is among the stated names. *)
Theorem task_restrictions_decided b requires providers :
  let caps := BindingCapabilities (bd_config b) in
  (CheckRequirements b requires = None ↔ ∀ k, k ∈ stated requires → KnownCapability k = true ∧ k ∈ caps) ∧
  (∀ keys, CheckRequirements b requires = Some (ErrCapabilityUnknown keys) →
     keys ≠ [] ∧ ∀ k, k ∈ keys ↔ k ∈ stated requires ∧ KnownCapability k = false) ∧
  (∀ alias keys, CheckRequirements b requires = Some (ErrCapabilityUnmet alias keys) →
     alias = bd_name b ∧ keys ≠ [] ∧ (∀ k, k ∈ stated requires → KnownCapability k = true) ∧
     ∀ k, k ∈ keys ↔ k ∈ stated requires ∧ k ∉ caps) ∧
  (CheckAllowedProviders b providers = None ↔
     stated providers = [] ∨ ∃ s, s ∈ stated providers ∧ (s = bd_name b ∨ s = bc_type (bd_config b))).
Proof.
  intros caps. unfold CheckRequirements. fold caps.
  set (unknown := filter (λ k, KnownCapability k = false) (stated requires)).
  set (unmet := filter (λ k, KnownCapability k = true ∧ k ∉ caps) (stated requires)).
  assert (Hun : ∀ k, k ∈ unknown ↔ k ∈ stated requires ∧ KnownCapability k = false)
    by (intros k; unfold unknown; rewrite list_elem_of_filter; tauto).
  assert (Hum : ∀ k, k ∈ unmet ↔ k ∈ stated requires ∧ KnownCapability k = true ∧ k ∉ caps)
    by (intros k; unfold unmet; rewrite list_elem_of_filter; tauto).
  assert (Hsort : ∀ k l, k ∈ sort_strings l ↔ k ∈ l) by (intros k l; by rewrite sort_strings_perm).
  assert (Hne : ∀ x l, sort_strings (x :: l) ≠ []).
  { intros x l E%(f_equal length). by rewrite (Permutation_length (sort_strings_perm _)) in E. }
  split_and!.
  - split.
    + destruct unknown as [|x l]; [destruct unmet as [|y m]; [intros _|done]|done].
      intros k Hk. destruct (KnownCapability k) eqn:Hkn; [|exfalso; by apply (not_elem_of_nil k), Hun].
      split; [done|]. destruct (decide (k ∈ caps)); [done|]. exfalso. by apply (not_elem_of_nil k), Hum.
    + intros Hall. destruct unknown as [|x l]; [destruct unmet as [|y m]; [done|]|].
      * destruct (proj1 (Hum y)) as (Hy & _ & Hn); [by left|]. by destruct (Hall y Hy).
      * destruct (proj1 (Hun x)) as (Hx & Hn); [by left|]. destruct (Hall x Hx). congruence.
  - intros keys. destruct unknown as [|x l]; [by destruct unmet|]. intros [= <-]. split; [done|].
    intros k. by rewrite Hsort, Hun.
  - intros alias keys. destruct unknown as [|x l]; [|done]. destruct unmet as [|y m]; [done|]. intros [= <- <-].
    assert (Hk : ∀ k, k ∈ stated requires → KnownCapability k = true).
    { intros k Hk. destruct (KnownCapability k) eqn:E; [done|]. exfalso. by apply (not_elem_of_nil k), Hun. }
    split_and!; [done..|]. intros k. rewrite Hsort, Hum. naive_solver.
  - unfold CheckAllowedProviders. destruct (existsb _ _) eqn:He.
    + apply existsb_exists in He as (s & Hs%list_elem_of_In & Hm%matches_binding_true).
      split; [intros _; right; by exists s|done].
    + split; [destruct (stated providers); [by left|done]|].
      intros [Hs|(s & Hs & Hm)]; [by rewrite Hs|]. exfalso.
      apply not_true_iff_false in He. apply He. apply existsb_exists. exists s.
      split; [by apply list_elem_of_In|by apply matches_binding_true].
Qed.

(** ** Strict requests *)

(** What a binding may run for a request without substituting: the tier's own
    model where one is configured, the tier's name otherwise. *)
Definition asked_model (c : BindingConfig) (requested model : string) : Prop :=
  model ≠ "" ∧ (requested = "" ∨ model = or_else (tier_model c requested) requested).

(** An effort no one maps must be absent or the provider's default. *)
Definition asked_effort (c : BindingConfig) (requested : string) : Prop :=
  requested = "" ∨ requested = "default" ∨ effort_setting c requested ≠ "".

Lemma resolveModel_tier c m : tier_model c m ≠ "" → resolveModel c m = tier_model c m.
Proof.
  unfold tier_model, resolveModel, ModelHaiku, ModelSonnet, ModelOpus. intros H.
  repeat case_decide; subst; congruence.
Qed.

(** a strict request runs as asked or not at all. [ResolveInvocation] on a
    strict request succeeds exactly when the resolved model is the tier's own
    (or the request's name, where the tier has none), the effort is mapped, and
    neither has surrounding white space; what it returns names exactly that. *)
Theorem strict_request_is_exact b req :
  rq_strict req = true →
  let c := bd_config b in
  ∀ inv, ResolveInvocation b req = Ok inv ↔
    inv = mkInvocation (bd_name b) (bc_type c) (resolveModel c (rq_model req)) (or_else (effort_setting c (rq_effort req)) (rq_effort req)) ∧
    asked_model c (rq_model req) (iv_model inv) ∧ asked_effort c (rq_effort req) ∧
    TrimSpace (iv_model inv) = iv_model inv ∧ TrimSpace (iv_effort inv) = iv_effort inv.
Proof.
  intros Hs c inv. unfold ResolveInvocation. rewrite Hs. fold c. unfold validateExactlyHonorable. fold c.
  set (model := resolveModel c (rq_model req)).
  assert (Hmodel : negb (bool_decide (rq_model req = "")) && negb (bindingHonorsModel c (rq_model req) model) = false ↔
                   (rq_model req = "" ∨ model = or_else (tier_model c (rq_model req)) (rq_model req))).
  { unfold bindingHonorsModel, or_else. destruct (bool_decide_reflect (rq_model req = "")) as [Hq|Hq]; [simpl; tauto|]. simpl. rewrite negb_false_iff.
    destruct (decide (tier_model c (rq_model req) = "")) as [Ht|Ht]; [rewrite bool_decide_eq_true; tauto|].
    split; [intros _; right; by apply resolveModel_tier|done]. }
  assert (Heff : negb (bool_decide (rq_effort req = "")) && negb (bindingMapsEffort c (rq_effort req)) = false ↔
                 asked_effort c (rq_effort req)).
  { unfold bindingMapsEffort, asked_effort. destruct (bool_decide_reflect (rq_effort req = "")) as [Hq|Hq]; [simpl; tauto|]. simpl. rewrite negb_false_iff.
    destruct (decide (rq_effort req = "" ∨ rq_effort req = "default")) as [Hd|Hd];
      [split; [intros _; destruct Hd; auto|done]|]. rewrite negb_true_iff, bool_decide_eq_false. tauto. }
  unfold asked_model. rewrite <-Heff. split.
  - destruct (decide (model = "")) as [Hm0|Hm0]; [done|].
    destruct (negb (bool_decide (rq_model req = "")) && _); [done|].
    destruct (negb (bool_decide (rq_effort req = "")) && _); [done|].
    destruct (decide _) as [Ht|Ht]; [|done]. intros [= <-]. simpl. unfold resolveEffort in Ht. split; [done|]. split; [split; [done|by apply Hmodel]|]. tauto.
  - intros (-> & [Hne Hmd%Hmodel] & E2 & H1 & H2). simpl in Hne, H1, H2. fold model in Hne, H1.
    rewrite decide_False by done. rewrite Hmd, E2. unfold resolveEffort.
    by rewrite decide_True.
Qed.

(** ** Limits *)

Definition within (bound d : Z) : Prop := (0 < d ≤ bound)%Z.

Lemma validateBoundedTimeout_none d bound : validateBoundedTimeout d bound = None ↔ within bound d.
Proof. unfold validateBoundedTimeout, within. destruct (Z.leb_spec d 0), (Z.ltb_spec bound d); naive_solver lia. Qed.

Section Limits.
Context `{Durations}.

Lemma parseBoundedTimeout_ok raw fallback bound d :
  parseBoundedTimeout raw fallback bound = Ok d →
  within bound d ∧ if decide (raw = "") then d = fallback else ParseDuration raw = Some d.
Proof.
  unfold parseBoundedTimeout. repeat case_decide; [|destruct (ParseDuration raw) as [v|]; [|done]];
    (destruct (validateBoundedTimeout _ _) eqn:E; [done|]); intros [= <-]; by apply validateBoundedTimeout_none in E.
Qed.

Lemma overridden_ok configured requested bound d :
  within bound configured → overridden configured requested bound = Ok d →
  within bound d ∧ d = if decide (requested = 0)%Z then configured else requested.
Proof.
  unfold overridden. intros Hc. destruct (Z.eqb_spec requested 0), (decide (requested = 0)%Z); try done.
  - by intros [= <-].
  - destruct (validateBoundedTimeout _ _) eqn:E; [done|]. intros [= <-]. by apply validateBoundedTimeout_none in E.
Qed.

(** An admitted configuration of one timeout resolves. *)
Lemma configured_resolves field raw fallback bound :
  (field = "turn_timeout" ∧ bound = MaxTurnTimeout) ∨ (field = "stall_timeout" ∧ bound = MaxStallTimeout) →
  within bound fallback → ValidateConfiguredTimeout field raw = None → ∃ d, parseBoundedTimeout raw fallback bound = Ok d.
Proof.
  intros Hf Hb. apply validateBoundedTimeout_none in Hb. unfold ValidateConfiguredTimeout, parseBoundedTimeout.
  destruct (decide (raw = "")); [rewrite Hb; by eexists|].
  assert ((if decide (field = "turn_timeout") then Some MaxTurnTimeout
           else if decide (field = "stall_timeout") then Some MaxStallTimeout else None) = Some bound) as ->
    by (destruct Hf as [[-> ->]|[-> ->]]; done).
  destruct (ParseDuration raw); [|done]. intros ->. by eexists.
Qed.
End Limits.

(** every turn is bounded. Limits that resolve are positive and under the
    hard ceilings of a day and an hour, whatever the configuration and the
    request say; and a configuration [ValidateConfiguredTimeout] admits always
    resolves for a request without overrides, so a dispatch admitted with it
    does not fail on its limits. *)
Theorem turn_limits_bounded `{Durations} b req :
  (∀ l, ResolveTurnLimits b req = Ok l → within MaxTurnTimeout (tl_turn l) ∧ within MaxStallTimeout (tl_stall l) ∧
     (rq_turn_timeout req ≠ 0%Z → tl_turn l = rq_turn_timeout req) ∧
     (rq_stall_timeout req ≠ 0%Z → tl_stall l = rq_stall_timeout req)) ∧
  (ValidateConfiguredTimeout "turn_timeout" (bc_turn_timeout (bd_config b)) = None →
   ValidateConfiguredTimeout "stall_timeout" (bc_stall_timeout (bd_config b)) = None →
   ∃ l, ResolveTurnLimits b zero_request = Ok l).
Proof.
  split.
  - intros l. unfold ResolveTurnLimits.
    intros (t & Ht & (st & Hst & (t' & Ht' & (st' & Hst' & [= <-])%rbind_ok)%rbind_ok)%rbind_ok)%rbind_ok. simpl.
    apply parseBoundedTimeout_ok in Ht as [Ht _], Hst as [Hst _].
    apply overridden_ok in Ht' as [Ht' Et], Hst' as [Hst' Est]; [|done..].
    split_and!; [done|done|intros Hn; by rewrite Et, decide_False|intros Hn; by rewrite Est, decide_False].
  - intros Ht Hst. destruct (configured_resolves "turn_timeout" (bc_turn_timeout (bd_config b)) DefaultTurnTimeout MaxTurnTimeout)
      as [t Et]; [by left|done|done|].
    destruct (configured_resolves "stall_timeout" (bc_stall_timeout (bd_config b)) DefaultStallTimeout MaxStallTimeout)
      as [st Est]; [by right|done|done|].
    unfold ResolveTurnLimits. rewrite Et, Est. by eexists.
Qed.

(** ** Failures *)

(** The retry budget of [orchestrator.go]: [defaultTurnRetries]. *)
Definition failed_turn (f : Failure) : EventPayload :=
  mkPayload "" (fa_summary f) [] "" false [] false "" "" (category_text (fa_category f)) "".

(** a failed turn is retried when, and only when, retrying can help. The
    owner's report of a classified failure under [RetryBudget] requeues a
    retryable one while the budget lasts, with one more retry; one that needs an
    operator, crossed a limit, was rejected or canceled fails the task at once,
    whatever budget is configured, and the row keeps its category. An error no
    rule knows is retryable, and every failure has a category. *)
Theorem failed_turn_retry_policy e p i x budget s t :
  let f := ClassifyFailure (Some e) in
  reporter s (p, i) x = Some t → (0 ≤ t_retry_count t)%Z →
  ∃ t' ev, MarkFailedWithPayload p i x (failed_turn f) (RetryBudget f budget) s =
             (Ok (Retryable f && bool_decide (t_retry_count t < budget)%Z), reported (p, i) t' ev s) ∧
    fa_category f ≠ FailureNone ∧
    (te_tree e = [] → te_blocked e = None → Retryable f = true) ∧
    (if decide (Retryable f = true ∧ (t_retry_count t < budget)%Z)
     then t_status t' = TaskStatusPending ∧ t_retry_count t' = (t_retry_count t + 1)%Z
     else t_status t' = TaskStatusFailed ∧ t_failure_category t' = Some (category_text (fa_category f))).
Proof.
  intros f Hr Hn. rewrite MarkFailed_run, Hr.
  assert (Hcat : fa_category f ≠ FailureNone).
  { unfold f, ClassifyFailure. destruct (te_blocked e) as [[[] []]|]; repeat (destruct (is_one_of _ _); [done|]); done. }
  assert (Htext : nullIfEmpty (category_text (fa_category f)) = Some (category_text (fa_category f)))
    by (by destruct (fa_category f)).
  assert (Hrt : te_tree e = [] → te_blocked e = None → Retryable f = true).
  { unfold f, ClassifyFailure, is_one_of. intros -> ->. done. }
  unfold RetryBudget. destruct (Retryable f) eqn:Hret; simpl.
  - destruct (Z.leb_spec (t_retry_count t + 1) budget) as [Hle|Hgt].
    + rewrite bool_decide_true by lia. do 2 eexists. split; [done|]. split_and!; [done..|].
      rewrite decide_True by (split; [done|lia]). done.
    + rewrite bool_decide_false by lia. do 2 eexists. split; [done|]. split_and!; [done..|].
      rewrite decide_False by lia. done.
  - rewrite (proj2 (Z.leb_gt _ _)) by lia. do 2 eexists. split; [done|]. by split_and!.
Qed.

(** ** Witnesses *)

Definition demo_config : BindingConfig :=
  mkBindingConfig "codex" "" "codex" [] "" "10m" "" 0 "" "" "gpt-5" "gpt-5-pro" "" "" "hard" "" None None false None [].
Definition demo_binding : Binding := mkBinding "reviewer" demo_config false.
Definition strict_opus : Request := mkRequest ModelOpus "high" true 0 0.

(** The strict request for a tier that falls back is refused; the loose one
    substitutes. *)
Example haiku_is_substituted :
  ResolveInvocation demo_binding (mkRequest ModelHaiku "" false 0 0) = Ok (mkInvocation "reviewer" "codex" "gpt-5" "") ∧
  ResolveInvocation demo_binding (mkRequest ModelHaiku "" true 0 0) = Err (ErrTierNotMapped ModelHaiku "gpt-5").
Proof. by split; vm_compute. Qed.

Lemma strict_request_is_exact_witness :
  ∃ inv, ResolveInvocation demo_binding strict_opus = Ok inv ∧
    inv = mkInvocation "reviewer" "codex" (resolveModel demo_config ModelOpus) (or_else (effort_setting demo_config "high") "high") ∧
    asked_model demo_config ModelOpus (iv_model inv) ∧ asked_effort demo_config "high" ∧
    TrimSpace (iv_model inv) = iv_model inv ∧ TrimSpace (iv_effort inv) = iv_effort inv.
Proof.
  assert (∃ inv, ResolveInvocation demo_binding strict_opus = Ok inv) as [inv Hi] by (eexists; vm_compute; reflexivity).
  exists inv. split; [exact Hi|]. exact (proj1 (strict_request_is_exact demo_binding strict_opus eq_refl inv) Hi).
Defined.

Definition demo_failed_task : Task :=
  mkTask "build" TaskStatusRunning None None None (Some "s1") (Some "w1") 1 0 None 0 None.
Definition demo_failed_db : DB :=
  mkDB 0 {["p"]} ∅ {[("plan", "t") := demo_failed_task]} ∅ ∅ ∅ ∅ ∅ ∅ ∅ ∅ [].

Definition demo_error : TurnError := mkTurnError [ErrClaudeAuthentication] None.
Definition demo_failure : Failure := ClassifyFailure (Some demo_error).

Lemma failed_turn_retry_policy_witness :
  reporter demo_failed_db ("plan", "t") "s1" = Some demo_failed_task ∧
  ∃ t' ev, MarkFailedWithPayload "plan" "t" "s1" (failed_turn demo_failure) (RetryBudget demo_failure 3) demo_failed_db =
             (Ok (Retryable demo_failure && bool_decide (1 < 3)%Z), reported ("plan", "t") t' ev demo_failed_db) ∧
    fa_category demo_failure ≠ FailureNone ∧
    (te_tree demo_error = [] → te_blocked demo_error = None → Retryable demo_failure = true) ∧
    (if decide (Retryable demo_failure = true ∧ (1 < 3)%Z)
     then t_status t' = TaskStatusPending ∧ t_retry_count t' = (1 + 1)%Z
     else t_status t' = TaskStatusFailed ∧ t_failure_category t' = Some (category_text (fa_category demo_failure))).
Proof.
  assert (Hr : reporter demo_failed_db ("plan", "t") "s1" = Some demo_failed_task) by (vm_compute; reflexivity).
  split; [exact Hr|]. apply (failed_turn_retry_policy demo_error "plan" "t" "s1" 3 demo_failed_db demo_failed_task Hr). by vm_compute.
Defined.
