(* ===== verification/CmdResolver.v ===== *)
(** * Selecting a provider for a dispatch: [cmd/radioactive_ralph]

    [binding_resolver.go], [provider_selection.go] and [provider_cooldowns.go]:
    the configured pool, its rotation, and the cooldowns of members that ran out
    of credit. Configuration arrives as the layers of [internal/vconfig], already
    decoded. *)
From S2P Require Import Prelude GoLib Provider.

(** ** Configuration values *)

(** A decoded [any]: the shapes the selection tells apart. *)
Inductive Value := VString (s : string) | VBool (b : bool) | VList (l : list Value) | VTable (t : list (string * Value)) | VOther.

Abbreviation Values := (gmap string Value).

(** The layers of one project: user values, the project's stanza in them, and
    the stored project values. *)
Record Layers := mkLayers { ly_user : Values; ly_stanza : option Values; ly_stored : Values }.

(** [ResolveProjects]: the stanza over the stored values. *)
Definition project_values (l : Layers) : Values := default ∅ (ly_stanza l) ∪ ly_stored l.

Inductive SelectError :=
| ErrBothKeys | ErrNotAnArray | ErrEmptyArray | ErrBadEntry (i : nat) | ErrDuplicated (name : string) | ErrBadName
| ErrProvider (name : string) (e : BindingError)
| ErrTimeoutText | ErrTimeout (e : TimeoutError).

Definition stringValue (v : Value) : option string :=
  match v with VString s => nonempty (TrimSpace s) | _ => None end.

Fixpoint slice_names (i : nat) (seen : gset string) (raw : list Value) : result SelectError (list string) :=
  match raw with
  | [] => Ok []
  | v :: raw' =>
      match stringValue v with
      | None => Err (ErrBadEntry i)
      | Some name =>
          if decide (name ∈ seen) then Err (ErrDuplicated name)
          else try rest := slice_names (S i) ({[name]} ∪ seen) raw' in Ok (name :: rest)
      end
  end.

Definition stringSliceValue (v : Value) : result SelectError (list string) :=
  match v with
  | VList [] => Err ErrEmptyArray
  | VList raw => slice_names 0 ∅ raw
  | _ => Err ErrNotAnArray
  end.

Definition no_local : Local_ := mkLocal "" ∅.

Fixpoint validateProviderNames (names : list string) : result SelectError unit :=
  match names with
  | [] => Ok tt
  | name :: names' =>
      match ResolveBinding (mkFile name ∅) no_local "" with
      | Err e => Err (ErrProvider name e)
      | Ok _ => validateProviderNames names'
      end
  end.

(** [None]: the layer selects nothing. *)
Definition providerSelectionFromValues (values : Values) : result SelectError (option (list string)) :=
  match values !! "providers", values !! "provider" with
  | Some _, Some _ => Err ErrBothKeys
  | None, None => Ok None
  | Some pool, None =>
      try names := stringSliceValue pool in
      try ok := validateProviderNames names in
      Ok (Some names)
  | None, Some single =>
      match stringValue single with
      | None => Err ErrBadName
      | Some name =>
          try ok := validateProviderNames [name] in
          Ok (Some [name])
      end
  end.

(** [resolveProviderNames]: the stanza, else the stored values, else the user's. *)
Definition resolveProviderNames (l : Layers) : result SelectError (list string) :=
  try stanza := match ly_stanza l with Some v => providerSelectionFromValues v | None => Ok None end in
  match stanza with
  | Some names => Ok names
  | None =>
      try stored := providerSelectionFromValues (ly_stored l) in
      match stored with
      | Some names => Ok names
      | None => try user := providerSelectionFromValues (ly_user l) in Ok (default [] user)
      end
  end.

(** ** Per-provider overrides *)

Definition fieldString (fields : Values) (key : string) : string :=
  match fields !! key with Some (VString s) => s | _ => "" end.

Definition fieldBool (fields : Values) (key : string) (fallback : bool) : bool :=
  match fields !! key with Some (VBool b) => b | _ => fallback end.

Definition mergeBindingConfigOverrides (base : BindingConfig) (fields : Values) : BindingConfig :=
  let over key old := or_else (fieldString fields key) old in
  mkBindingConfig (bc_type base) (bc_bin base) (bc_binary base) (bc_args base) (bc_output_file base)
    (over "turn_timeout" (bc_turn_timeout base)) (over "stall_timeout" (bc_stall_timeout base))
    (bc_max_retries base) (bc_session_id_regex base)
    (over "haiku_model" (bc_haiku base)) (over "sonnet_model" (bc_sonnet base)) (over "opus_model" (bc_opus base))
    (over "low_effort" (bc_low base)) (over "medium_effort" (bc_medium base))
    (over "high_effort" (bc_high base)) (over "max_effort" (bc_max base))
    (bc_supports_resume base) (bc_append_system_prompt base)
    (fieldBool fields "native_fanout" (bc_native_fanout base))
    (bc_supports_containment base) (bc_write_paths base).

Definition bindingConfigFromFields (fields : Values) : BindingConfig :=
  mergeBindingConfigOverrides (shipped "" "" false []) fields.

Definition table_of (v : Value) : option Values :=
  match v with VTable t => Some (list_to_map t) | _ => None end.

Definition extractProviderConfigTable (values : Values) : gmap string Values :=
  match values !! "provider_config" with
  | Some v => match table_of v with Some t => omap table_of t | None => ∅ end
  | None => ∅
  end.

(** Field by field, the project's over the user's. *)
Definition mergeProviderConfigTables (user project : gmap string Values) : gmap string Values :=
  union_with (λ u p, Some (p ∪ u)) user project.

Definition config_of (name : string) (fields : Values) : BindingConfig :=
  match builtInProvider name with
  | Some base => mergeBindingConfigOverrides base fields
  | None => bindingConfigFromFields fields
  end.

Definition resolveProviderConfigs (l : Layers) : gmap string BindingConfig :=
  map_imap (λ name fields, Some (config_of name fields))
    (mergeProviderConfigTables (extractProviderConfigTable (ly_user l)) (extractProviderConfigTable (project_values l))).

(** ** Timeouts *)

Definition layer_timeout (key : string) (values : Values) (resolved : string) : result SelectError string :=
  match values !! key with
  | None => Ok resolved
  | Some v => match stringValue v with Some t => Ok t | None => Err ErrTimeoutText end
  end.

Definition layeredTimeoutValue `{Durations} (key : string) (user project : Values) : result SelectError string :=
  try resolved := layer_timeout key user "" in
  try resolved := layer_timeout key project resolved in
  match ValidateConfiguredTimeout key resolved with
  | Some e => Err (ErrTimeout e)
  | None => Ok resolved
  end.

(** ** Cooldowns *)

Definition hour : Z := 60 * minute.
Definition cooldownDurations : list Z := [hour; 2 * hour; 4 * hour; 8 * hour; 24 * hour]%Z.

Record cooldownEntry := mkCooldown { cd_expiry : Z; cd_failures : nat }.
Abbreviation ProviderCooldowns := (gmap string cooldownEntry).

Definition shouldCooldown (c : FailureCategory) : bool :=
  match c with FailureProviderAuth | FailureProviderRejected | FailureProviderThrottled => true | _ => false end.

Definition cooldown_duration (failures : nat) : Z :=
  let idx := failures - 1 in
  let idx := if length cooldownDurations <=? idx then length cooldownDurations - 1 else idx in
  default 0%Z (cooldownDurations !! idx).

Definition RecordFailure (now : Z) (providerName : string) (f : Failure) (c : ProviderCooldowns) : ProviderCooldowns :=
  if shouldCooldown (fa_category f) then
    let failures := S (match c !! providerName with Some e => cd_failures e | None => 0 end) in
    <[providerName := mkCooldown (now + cooldown_duration failures) failures]> c
  else c.

Definition RecordSuccess (providerName : string) (c : ProviderCooldowns) : ProviderCooldowns := delete providerName c.

Definition cooled (now : Z) (c : ProviderCooldowns) (name : string) : bool :=
  match c !! name with Some e => (now <? cd_expiry e)%Z | None => false end.

Definition Active (now : Z) (c : ProviderCooldowns) : gmap string Z :=
  omap (λ e, if (now <? cd_expiry e)%Z then Some (cd_expiry e) else None) c.

(** [for ... range] over a map: every entry once, in no order. *)
Class MapRange := {
  range_map : ∀ {V}, gmap string V → list (string * V);
  range_map_perm : ∀ V (m : gmap string V), range_map m ≡ₚ map_to_list m }.

Definition sooner (best : string * Z) (kv : string * Z) : string * Z :=
  if bool_decide (best.1 = "") || (kv.2 <? best.2)%Z then kv else best.

Section Resolver.
Context `{MapRange} `{Durations}.

Definition EarliestExpiry (now : Z) (c : ProviderCooldowns) : string :=
  (foldl sooner ("", 0%Z) (range_map (Active now c))).1.

(** ** The resolver *)

Inductive Purpose := BindingDispatch | BindingProbe.

(** The cursors and the cooldowns the resolver closes over. *)
Record Resolver := mkResolver { rv_cursors : gmap string Z; rv_cooldowns : ProviderCooldowns }.

Definition cursor (r : Resolver) (projectID : string) : Z := default 0%Z (rv_cursors r !! projectID).

(** The names left after the cooldowns, and whether they still are a pool. *)
Definition active_names (now : Z) (c : ProviderCooldowns) (names : list string) : list string * bool :=
  if bool_decide (Active now c ≠ ∅) && (1 <? length names) then
    let filtered := filter (λ n, cooled now c n = false) names in
    let filtered := match filtered with
                    | [] => match EarliestExpiry now c with EmptyString => [] | n => [n] end
                    | _ => filtered
                    end in
    match filtered with
    | [] => (names, 1 <? length names)
    | _ => (filtered, 1 <? length filtered)
    end
  else (names, 1 <? length names).

Definition pick (cursor : Z) (names : list string) : string :=
  default "" (names !! Z.to_nat (cursor mod Z.of_nat (length names))).

Definition advance (projectID : string) (purpose : Purpose) (r : Resolver) : Resolver :=
  match purpose with
  | BindingProbe => r
  | BindingDispatch => mkResolver (<[projectID := ((cursor r projectID + 1) mod 2 ^ 64)%Z]> (rv_cursors r)) (rv_cooldowns r)
  end.

Definition resolved_binding (l : Layers) (name : string) (pooled : bool) : result SelectError Binding :=
  match ResolveBinding (mkFile name (resolveProviderConfigs l)) no_local "" with
  | Err e => Err (ErrProvider name e)
  | Ok b =>
      let config := if pooled then with_fanout false (bd_config b) else bd_config b in
      try turn := layeredTimeoutValue "turn_timeout" (ly_user l) (project_values l) in
      try stall := layeredTimeoutValue "stall_timeout" (ly_user l) (project_values l) in
      Ok (mkBinding (bd_name b) (with_timeouts turn stall config) (bd_from_local b))
  end.

(** [storeBindingResolver]: the cursor moves even when what follows fails. *)
Definition storeBindingResolver (now : Z) (l : Layers) (projectID : string) (purpose : Purpose)
    : SM Resolver SelectError Binding := λ r,
  match resolveProviderNames l with
  | Err e => (Err e, r)
  | Ok names =>
      let '(names, pooled) := active_names now (rv_cooldowns r) names in
      match names with
      | [] => (resolved_binding l "" pooled, r)
      | _ => (resolved_binding l (pick (cursor r projectID) names) pooled, advance projectID purpose r)
      end
  end.
End Resolver.

(** One order of iteration. *)
Definition list_range : MapRange := {| range_map V m := map_to_list m; range_map_perm V m := reflexivity _ |}.

(** ** Write containment *)

(** [strconv.ParseBool]. *)
Definition ParseBool (s : string) : option bool :=
  if decide (s ∈ ["1"; "t"; "T"; "TRUE"; "true"; "True"]) then Some true
  else if decide (s ∈ ["0"; "f"; "F"; "FALSE"; "false"; "False"]) then Some false
  else None.

(** [ContainProviderWrites] of [internal/vconfig/containment.go]. *)
Definition ContainProviderWrites (values : Values) : bool :=
  match values !! "contain_provider_writes" with
  | Some (VBool b) => b
  | Some (VString s) => default true (ParseBool s)
  | _ => true
  end.

(** * Properties of provider selection *)

(** ** Cooldowns *)

Lemma cooled_active now c name : cooled now c name = true ↔ is_Some (Active now c !! name).
Proof.
  unfold cooled, Active. rewrite lookup_omap. destruct (c !! name) as [e|]; simpl; [|split; [done|by intros []]].
  destruct (now <? cd_expiry e)%Z; split; try done; by intros [].
Qed.

(** The schedule: an hour, doubling to eight, then a day for good. *)
Definition schedule (k : nat) : Z :=
  match k with 0 | 1 => hour | 2 => 2 * hour | 3 => 4 * hour | 4 => 8 * hour | _ => 24 * hour end.

Lemma cooldown_duration_schedule k : cooldown_duration k = schedule k.
Proof.
  by destruct k as [|[|[|[|[|[|k]]]]]].
Qed.

(** A provider's failures, one after another, at the times given. *)
Definition failing (name : string) (f : Failure) (times : list Z) (c : ProviderCooldowns) : ProviderCooldowns :=
  foldl (λ c t, RecordFailure t name f c) c times.

Lemma failing_other name f times c name' : name' ≠ name → failing name f times c !! name' = c !! name'.
Proof.
  intros Hne. unfold failing. revert c. induction times as [|t times IH]; intros c; simpl; [done|].
  rewrite IH. unfold RecordFailure. destruct (shouldCooldown _); [by rewrite lookup_insert_ne|done].
Qed.

Lemma failing_snoc name f times t c : failing name f (times ++ [t]) c = RecordFailure t name f (failing name f times c).
Proof. unfold failing. by rewrite foldl_app. Qed.

Lemma failing_entry name f times t c :
  shouldCooldown (fa_category f) = true → c !! name = None →
  failing name f (times ++ [t]) c !! name = Some (mkCooldown (t + schedule (S (length times))) (S (length times))).
Proof.
  intros Hf Hc. revert t. induction times as [|t' times IH] using rev_ind; intros t; rewrite failing_snoc; unfold RecordFailure; rewrite Hf.
  - simpl. by rewrite Hc, lookup_insert_eq, cooldown_duration_schedule.
  - rewrite IH, lookup_insert_eq, length_app, cooldown_duration_schedule. simpl.
    by rewrite Nat.add_1_r.
Qed.

(** the cooldown of a provider. Only a rejected credential, a rejected turn
    or throttling starts one; the k-th such failure in a row keeps the provider
    out for the k-th entry of the schedule, counted from that failure (an hour,
    then two, four, eight, and a day from the fifth on), to the instant; any
    success ends it and resets the count; nobody else's cooldown moves. *)
Theorem cooldown_schedule name f times t now c :
  c !! name = None →
  let c' := failing name f (times ++ [t]) c in
  (shouldCooldown (fa_category f) = true →
     (cooled now c' name = true ↔ (now < t + schedule (S (length times)))%Z) ∧
     RecordSuccess name c' = c) ∧
  (shouldCooldown (fa_category f) = false → c' = c) ∧
  (∀ other, other ≠ name → cooled now c' other = cooled now c other).
Proof.
  intros Hc c'. split_and!.
  - intros Hf. pose proof (failing_entry name f times t c Hf Hc) as He. split.
    + unfold cooled. subst c'. rewrite He. simpl. apply Z.ltb_lt.
    + apply map_eq. intros k. unfold RecordSuccess. destruct (decide (k = name)) as [->|Hk].
      * by rewrite lookup_delete_eq.
      * rewrite lookup_delete_ne by done. by apply failing_other.
  - intros Hf. subst c'. unfold failing. generalize (times ++ [t]). intros l. induction l as [|x l IH]; [done|].
    simpl. unfold RecordFailure at 2. rewrite Hf. done.
  - intros other Hne. unfold cooled. subst c'. by rewrite failing_other.
Qed.

(** ** The selection *)

Lemma slice_names_nonempty i seen raw names : slice_names i seen raw = Ok names → Forall (λ n, n ≠ "") names.
Proof.
  revert i seen names. induction raw as [|v raw IH]; intros i seen names; simpl; [intros [= <-]; constructor|].
  unfold stringValue, nonempty. destruct v as [s| | | |]; try done. repeat case_decide; try done.
  intros (rest & Hr & [= <-])%rbind_ok. constructor; [done|by eapply IH].
Qed.

Lemma selection_nonempty values names :
  providerSelectionFromValues values = Ok (Some names) → names ≠ [] ∧ Forall (λ n, n ≠ "") names.
Proof.
  unfold providerSelectionFromValues. destruct (values !! "providers") as [v|], (values !! "provider") as [w|]; try done.
  - intros (ns & Hn & (? & _ & [= <-])%rbind_ok)%rbind_ok. unfold stringSliceValue in Hn. destruct v as [| |[|v raw]| |]; try done.
    pose proof (slice_names_nonempty _ _ _ _ Hn). split; [|done]. simpl in Hn.
    destruct (stringValue v); [|done]. case_decide; [done|]. by apply rbind_ok in Hn as (? & _ & [= <-]).
  - unfold stringValue, nonempty. destruct w; try done. case_decide; [done|].
    intros (? & _ & [= <-])%rbind_ok. split; [done|]. by repeat constructor.
Qed.

Lemma resolveProviderNames_nonempty l names : resolveProviderNames l = Ok names → Forall (λ n, n ≠ "") names.
Proof.
  unfold resolveProviderNames. intros (st & Hst & H)%rbind_ok. destruct st as [ns|].
  { injection H as <-. destruct (ly_stanza l) as [v|]; [|done]. by apply selection_nonempty in Hst as [_ ?]. }
  apply rbind_ok in H as (sd & Hsd & H). destruct sd as [ns|]; [injection H as <-; by apply selection_nonempty in Hsd as [_ ?]|].
  apply rbind_ok in H as (u & Hu & [= <-]). destruct u as [ns|]; [by apply selection_nonempty in Hu as [_ ?]|constructor].
Qed.

Section Resolver.
Context `{MapRange} `{Durations}.

Lemma foldl_sooner_elem best l : (foldl sooner best l) = best ∨ (foldl sooner best l) ∈ l.
Proof.
  revert best. induction l as [|kv l IH]; intros best; simpl; [by left|].
  destruct (IH (sooner best kv)) as [E|E]; [|right; by right].
  rewrite E. unfold sooner. destruct (_ || _); [right; by left|by left].
Qed.

Lemma EarliestExpiry_cooled now c : EarliestExpiry now c ≠ "" → cooled now c (EarliestExpiry now c) = true.
Proof.
  intros Hne. apply cooled_active. unfold EarliestExpiry in *.
  destruct (foldl_sooner_elem ("", 0%Z) (range_map (Active now c))) as [E|E]; [by rewrite E in Hne|].
  destruct (foldl _ _ _) as [k v]. rewrite range_map_perm in E. apply elem_of_map_to_list in E. by exists v.
Qed.

(** What is left of a selection once the cooldowns are considered. *)
Lemma active_names_spec now c names rest pooled :
  names ≠ [] → active_names now c names = (rest, pooled) →
  rest ≠ [] ∧ pooled = (1 <? length rest) ∧
  ((∀ n, n ∈ rest → n ∈ names ∧ (cooled now c n = true → ∀ m, m ∈ names → cooled now c m = true)) ∨
   (rest = [EarliestExpiry now c] ∧ EarliestExpiry now c ≠ "" ∧ ∀ m, m ∈ names → cooled now c m = true)).
Proof.
  intros Hne. unfold active_names. case_bool_decide as Ha; cbn [andb].
  2:{ intros [= <- <-]. split_and!; [done..|left]. intros n Hn. split; [done|]. intros Hc m Hm.
      apply cooled_active in Hc as [x Hx]. assert (Active now c = ∅) as E by tauto. by rewrite E in Hx. }
  destruct (Nat.ltb_spec 1 (length names)) as [Hl|Hl].
  2:{ intros [= <- <-]. split_and!; [done|symmetry; apply Nat.ltb_ge; lia|left]. destruct names as [|a [|]]; simpl in Hl; try lia; [done|].
      intros n ->%list_elem_of_singleton. split; [set_solver|]. by intros Hc m ->%list_elem_of_singleton. }
  destruct (filter (λ n, cooled now c n = false) names) as [|a f] eqn:Ef.
  - assert (Hall : ∀ m, m ∈ names → cooled now c m = true).
    { intros m Hm. destruct (cooled now c m) eqn:E; [done|]. exfalso. apply (not_elem_of_nil m). rewrite <-Ef.
      by apply list_elem_of_filter. }
    destruct (EarliestExpiry now c) as [|ch s] eqn:Ee; intros [= <- <-].
    + split_and!; [done|by symmetry; apply Nat.ltb_lt|left]. intros n Hn. by split.
    + split_and!; [done..|right]. by split_and!.
  - intros [= <- <-]. split_and!; [done..|left]. rewrite <-Ef. intros n [Hn Hin]%list_elem_of_filter. by split; [|rewrite Hn].
Qed.

Lemma pick_elem k names : names ≠ [] → pick k names ∈ names.
Proof.
  intros Hne. unfold pick. destruct (lookup_lt_is_Some_2 names (Z.to_nat (k mod Z.of_nat (length names)))) as [n Hn].
  - destruct names; [done|]. pose proof (Z.mod_pos_bound k (Z.of_nat (length (s :: names))) ltac:(simpl; lia)). lia.
  - rewrite Hn. simpl. by eapply list_elem_of_lookup_2.
Qed.

Lemma resolved_binding_ok l name pooled b :
  resolved_binding l name pooled = Ok b →
  bd_name b = or_else name "claude" ∧ (pooled = true → bc_native_fanout (bd_config b) = false) ∧
  layeredTimeoutValue "turn_timeout" (ly_user l) (project_values l) = Ok (bc_turn_timeout (bd_config b)) ∧
  layeredTimeoutValue "stall_timeout" (ly_user l) (project_values l) = Ok (bc_stall_timeout (bd_config b)).
Proof.
  unfold resolved_binding, ResolveBinding. cbn [fl_default fl_providers].
  assert (or_else (or_else "" name) "claude" = or_else name "claude") as -> by done.
  destruct (match _ !! _ with Some c => Some c | None => _ end) as [c|]; [|done].
  intros (t & Ht & (st & Hst & [= <-])%rbind_ok)%rbind_ok. simpl. rewrite Ht, Hst.
  split_and!; [done|by intros ->|done|done].
Qed.
End Resolver.

(** whom a dispatch is bound to. With nothing selected the resolver binds
    claude. Otherwise it binds a member of the selection, and never one in
    cooldown while another member is not; the one exception is a pool whose
    members all cool, where it binds the earliest-expiring provider the process
    has in cooldown at all. What is bound from two or more active members never
    fans out by itself, and its timeouts are the layered ones, validated. *)
Theorem resolver_binds_the_selection `{MapRange} `{Durations} now l projectID purpose r b r' names :
  resolveProviderNames l = Ok names →
  storeBindingResolver now l projectID purpose r = (Ok b, r') →
  let c := rv_cooldowns r in
  ((names = [] ∧ bd_name b = "claude") ∨
   (bd_name b ∈ names ∧ (cooled now c (bd_name b) = true → ∀ m, m ∈ names → cooled now c m = true)) ∨
   ((∀ m, m ∈ names → cooled now c m = true) ∧ bd_name b = EarliestExpiry now c ∧ cooled now c (bd_name b) = true)) ∧
  (1 < length (filter (λ n, cooled now c n = false) names) → bc_native_fanout (bd_config b) = false) ∧
  layeredTimeoutValue "turn_timeout" (ly_user l) (project_values l) = Ok (bc_turn_timeout (bd_config b)) ∧
  layeredTimeoutValue "stall_timeout" (ly_user l) (project_values l) = Ok (bc_stall_timeout (bd_config b)).
Proof.
  intros Hn Hb c. unfold storeBindingResolver in Hb. rewrite Hn in Hb.
  destruct (active_names now (rv_cooldowns r) names) as [rest pooled] eqn:Ha. fold c in Ha.
  assert (∃ name, resolved_binding l name pooled = Ok b ∧
    ((names = [] ∧ name = "") ∨ (names ≠ [] ∧ name ∈ rest))) as (name & Hr & Hname).
  { destruct names as [|a names].
    - assert (rest = []) as -> by (unfold active_names in Ha; change (1 <? length []) with false in Ha; rewrite andb_false_r in Ha; by simplify_eq).
      injection Hb as <- _. exists "". split; [done|by left].
    - destruct (active_names_spec now c (a :: names) rest pooled) as (Hne & _); [done..|].
      destruct rest as [|x rest]; [done|]. injection Hb as Hb _.
      exists (pick (cursor r projectID) (x :: rest)). split; [done|right]. split; [done|by apply pick_elem]. }
  apply resolved_binding_ok in Hr as (Hbd & Hfan & Ht & Hst). split_and!; [| |done..].
  - destruct Hname as [[-> ->]|[Hne Hin]]; [left; by rewrite Hbd|right].
    destruct (active_names_spec now c names rest pooled Hne Ha) as (_ & _ & Hsel).
    pose proof (proj1 (Forall_forall _ _) (resolveProviderNames_nonempty _ _ Hn)) as Hall. simpl in Hall.
    destruct Hsel as [Hsel|(-> & Hee & Hcool)].
    + destruct (Hsel name Hin) as [Hm Hc]. rewrite Hbd. unfold or_else. rewrite decide_False by (by apply Hall). left. by split.
    + apply list_elem_of_singleton in Hin as ->. right. rewrite Hbd. unfold or_else. rewrite decide_False by done.
      split_and!; [done..|by apply EarliestExpiry_cooled].
  - intros Hl. apply Hfan. destruct (decide (names = [])) as [->|Hne]; [simpl in Hl; lia|].
    destruct (active_names_spec now c names rest pooled Hne Ha) as (_ & -> & _). apply Nat.ltb_lt.
    unfold active_names in Ha. pose proof (length_filter (λ n, cooled now c n = false) names) as Hlen.
    case_bool_decide; cbn [andb] in Ha; [|simplify_eq; lia].
    destruct (Nat.ltb_spec 1 (length names)); [|lia].
    destruct (filter (λ n, cooled now c n = false) names) as [|x f]; [simpl in Hl; lia|]. by simplify_eq.
Qed.

(** ** Rotation *)

(** Consecutive resolutions by one project. *)
Fixpoint resolutions `{MapRange} `{Durations} (now : Z) (l : Layers) (projectID : string) (purposes : list Purpose) (r : Resolver)
    : list (result SelectError Binding) * Resolver :=
  match purposes with
  | [] => ([], r)
  | p :: ps => let '(b, r1) := storeBindingResolver now l projectID p r in
               let '(bs, r2) := resolutions now l projectID ps r1 in (b :: bs, r2)
  end.

Lemma no_cooldown_names `{MapRange} now c names : Active now c = ∅ → active_names now c names = (names, 1 <? length names).
Proof. intros Ha. unfold active_names. by rewrite bool_decide_false by tauto. Qed.

Lemma resolver_step `{MapRange} `{Durations} now l projectID purpose r names :
  resolveProviderNames l = Ok names → names ≠ [] → Active now (rv_cooldowns r) = ∅ →
  storeBindingResolver now l projectID purpose r =
  (resolved_binding l (pick (cursor r projectID) names) (1 <? length names), advance projectID purpose r).
Proof.
  intros Hn Hne Ha. unfold storeBindingResolver. rewrite Hn, no_cooldown_names by done. by destruct names.
Qed.

(** Rotating a list by [k]. *)
Definition rotation {A} (k : nat) (l : list A) : list A := drop k l ++ take k l.

Lemma picks_rotation names k :
  (0 ≤ k)%Z → names ≠ [] →
  (λ i, pick (k + Z.of_nat i) names) <$> seq 0 (length names) = rotation (Z.to_nat (k mod Z.of_nat (length names))) names.
Proof.
  intros Hk Hne. set (n := length names). assert (Hn : 0 < n) by (destruct names; simpl in *; [done|lia]).
  set (j := Z.to_nat (k mod Z.of_nat n)). assert (Hj : j < n) by (pose proof (Z.mod_pos_bound k (Z.of_nat n)); lia).
  apply list_eq_same_length with n; [unfold rotation; rewrite length_app, length_drop, length_take; lia|by rewrite length_fmap, length_seq|].
  intros i x y Hi Hx Hy. rewrite list_lookup_fmap, lookup_seq_lt in Hx by done. injection Hx as <-. simpl.
  unfold pick. fold n.
  assert (Z.to_nat ((k + Z.of_nat i) mod Z.of_nat n) = if decide (i < n - j) then j + i else i - (n - j)) as ->.
  { rewrite <-Zplus_mod_idemp_l. assert (k mod Z.of_nat n = Z.of_nat j)%Z as -> by (subst j; pose proof (Z.mod_pos_bound k (Z.of_nat n)); lia).
    case_decide; [rewrite Z.mod_small by lia; lia|].
    replace (Z.of_nat j + Z.of_nat i)%Z with (Z.of_nat (i - (n - j)) + 1 * Z.of_nat n)%Z by lia.
    rewrite Z_mod_plus_full, Z.mod_small by lia. lia. }
  unfold rotation in Hy. case_decide as Hd.
  - rewrite lookup_app_l in Hy by (rewrite length_drop; lia). rewrite lookup_drop in Hy. by rewrite Hy.
  - rewrite lookup_app_r in Hy by (rewrite length_drop; lia). rewrite length_drop, lookup_take_lt in Hy by lia.
    fold n in Hy. by rewrite Hy.
Qed.

Lemma advance_cursor projectID r k :
  cursor r projectID = k → (0 ≤ k < 2 ^ 64 - 1)%Z → cursor (advance projectID BindingDispatch r) projectID = (k + 1)%Z.
Proof. intros Hc Hk. unfold advance, cursor at 1. simpl. rewrite lookup_insert_eq, Hc. simpl. by rewrite Z.mod_small by lia. Qed.

Lemma dispatches_pick `{MapRange} `{Durations} now l projectID names m r k :
  resolveProviderNames l = Ok names → names ≠ [] → Active now (rv_cooldowns r) = ∅ →
  cursor r projectID = k → (0 ≤ k)%Z → (k + Z.of_nat m < 2 ^ 64)%Z →
  (∀ n, n ∈ names → ∃ b, resolved_binding l n (1 <? length names) = Ok b) →
  ∃ bs r', resolutions now l projectID (repeat BindingDispatch m) r = (Ok <$> bs, r') ∧
    bd_name <$> bs = (λ i, pick (k + Z.of_nat i) names) <$> seq 0 m ∧
    cursor r' projectID = (k + Z.of_nat m)%Z ∧ rv_cooldowns r' = rv_cooldowns r.
Proof.
  intros Hn Hne. revert r k. induction m as [|m IH]; intros r k Ha Hc Hk Hm Hall.
  { exists [], r. simpl. split_and!; [done..|lia|done]. }
  cbn [repeat resolutions]. rewrite (resolver_step now l projectID BindingDispatch r names Hn Hne Ha), Hc.
  destruct (Hall (pick k names) (pick_elem k names Hne)) as [b Hb]. rewrite Hb.
  assert (Hname : bd_name b = pick k names).
  { apply resolved_binding_ok in Hb as (-> & _). unfold or_else. rewrite decide_False; [done|].
    pose proof (proj1 (Forall_forall _ _) (resolveProviderNames_nonempty _ _ Hn)) as Hnm. by apply Hnm, pick_elem. }
  destruct (IH (advance projectID BindingDispatch r) (k + 1)%Z) as (bs & r' & Hr & Hbs & Hc' & Hcd);
    [done|apply advance_cursor; [done|lia]|lia|lia|done|].
  rewrite Hr. exists (b :: bs), r'. split; [done|]. split_and!; [|lia|done].
  rewrite fmap_cons, Hname, Hbs. cbn [seq fmap list_fmap]. f_equal; [f_equal; lia|].
  rewrite <-seq_shift. change (map S (seq 0 m)) with (S <$> seq 0 m). rewrite <-list_fmap_compose.
  apply list_fmap_ext. intros i x _. simpl. f_equal. lia.
Qed.

Lemma rotation_perm {A} k (l : list A) : rotation k l ≡ₚ l.
Proof. unfold rotation. rewrite Permutation_app_comm. by rewrite take_drop. Qed.

(** a pool is shared evenly. With nobody in cooldown, as many consecutive
    dispatches of a project as the pool has members bind each member once, in
    the configured order from where the cursor stands; a probe moves nothing,
    and one project's dispatches do not move another's cursor. *)
Theorem pool_rotates `{MapRange} `{Durations} now l projectID names r :
  resolveProviderNames l = Ok names → names ≠ [] → Active now (rv_cooldowns r) = ∅ →
  (0 ≤ cursor r projectID)%Z → (cursor r projectID + Z.of_nat (length names) < 2 ^ 64)%Z →
  (∀ n, n ∈ names → ∃ b, resolved_binding l n (1 <? length names) = Ok b) →
  (∃ bs r', resolutions now l projectID (repeat BindingDispatch (length names)) r = (Ok <$> bs, r') ∧
     bd_name <$> bs = rotation (Z.to_nat (cursor r projectID mod Z.of_nat (length names))) names ∧
     bd_name <$> bs ≡ₚ names ∧
     cursor r' projectID = (cursor r projectID + Z.of_nat (length names))%Z) ∧
  (∀ q, (storeBindingResolver now l q BindingProbe r).2 = r) ∧
  (∀ q, q ≠ projectID → cursor (storeBindingResolver now l projectID BindingDispatch r).2 q = cursor r q).
Proof.
  intros Hn Hne Ha Hk Hm Hall. split_and!.
  - destruct (dispatches_pick now l projectID names (length names) r (cursor r projectID)) as (bs & r' & Hr & Hbs & Hc & _); [done..|].
    exists bs, r'. rewrite Hbs, picks_rotation by done. split_and!; [done..|apply rotation_perm|done].
  - intros q. by rewrite (resolver_step now l q BindingProbe r names).
  - intros q Hq. rewrite (resolver_step now l projectID BindingDispatch r names) by done.
    unfold advance, cursor. simpl. by rewrite lookup_insert_ne.
Qed.

(** ** Witnesses *)

Definition toy_durations : Durations := {| ParseDuration s := if decide (s = "10m") then Some (10 * minute)%Z else None |}.

Definition demo_layers : Layers :=
  mkLayers {["provider" := VString "claude"; "turn_timeout" := VString " 10m "]} None
    {["providers" := VList [VString "codex"; VString "opencode"]]}.

Definition demo_resolver : Resolver := mkResolver {["p" := 3%Z]} ∅.

Lemma demo_names : resolveProviderNames demo_layers = Ok ["codex"; "opencode"].
Proof. vm_compute. reflexivity. Qed.

Lemma pool_rotates_witness :
  (∃ bs r', @resolutions list_range toy_durations 0 demo_layers "p" (repeat BindingDispatch 2) demo_resolver = (Ok <$> bs, r') ∧
     bd_name <$> bs = rotation (Z.to_nat (3 mod 2)) ["codex"; "opencode"] ∧
     bd_name <$> bs ≡ₚ ["codex"; "opencode"] ∧ cursor r' "p" = 5%Z) ∧
  (∀ q, (@storeBindingResolver list_range toy_durations 0 demo_layers q BindingProbe demo_resolver).2 = demo_resolver) ∧
  (∀ q, q ≠ "p" → cursor (@storeBindingResolver list_range toy_durations 0 demo_layers "p" BindingDispatch demo_resolver).2 q
                  = cursor demo_resolver q).
Proof.
  apply (@pool_rotates list_range toy_durations 0 demo_layers "p" ["codex"; "opencode"] demo_resolver).
  - exact demo_names.
  - done.
  - vm_compute. reflexivity.
  - by vm_compute.
  - by vm_compute.
  - intros n [->|[->|[]%elem_of_nil]%elem_of_cons]%elem_of_cons.
    + destruct (@resolved_binding toy_durations demo_layers "codex" (1 <? 2)) as [b|e] eqn:E; [by exists b|by vm_compute in E].
    + destruct (@resolved_binding toy_durations demo_layers "opencode" (1 <? 2)) as [b|e] eqn:E; [by exists b|by vm_compute in E].
Defined.

Lemma cooldown_schedule_witness :
  let f := mkFailure FailureProviderAuth "" in
  let c' := failing "claude" f ([0; 5] ++ [10])%Z ∅ in
  (shouldCooldown (fa_category f) = true →
     (cooled 20 c' "claude" = true ↔ (20 < 10 + schedule 3)%Z) ∧ RecordSuccess "claude" c' = ∅) ∧
  (shouldCooldown (fa_category f) = false → c' = ∅) ∧
  (∀ other, other ≠ "claude" → cooled 20 c' other = cooled 20 ∅ other).
Proof. intros f c'. exact (cooldown_schedule "claude" f [0; 5]%Z 10 20 ∅ (lookup_empty _)). Defined.

(** A pool of codex and opencode, both in cooldown; another project's claude
    comes out of its own first. *)
Definition cold_resolver : Resolver :=
  mkResolver ∅ {["codex" := mkCooldown 200 1; "opencode" := mkCooldown 300 1; "claude" := mkCooldown 100 1]}.

Lemma resolver_binds_the_selection_witness :
  ∃ b r', @storeBindingResolver list_range toy_durations 50 demo_layers "p" BindingDispatch cold_resolver = (Ok b, r') ∧
  let c := rv_cooldowns cold_resolver in
  let names := ["codex"; "opencode"] in
  ((names = [] ∧ bd_name b = "claude") ∨
   (bd_name b ∈ names ∧ (cooled 50 c (bd_name b) = true → ∀ m, m ∈ names → cooled 50 c m = true)) ∨
   ((∀ m, m ∈ names → cooled 50 c m = true) ∧ bd_name b = @EarliestExpiry list_range 50 c ∧ cooled 50 c (bd_name b) = true)) ∧
  (1 < length (filter (λ n, cooled 50 c n = false) names) → bc_native_fanout (bd_config b) = false) ∧
  @layeredTimeoutValue toy_durations "turn_timeout" (ly_user demo_layers) (project_values demo_layers) = Ok (bc_turn_timeout (bd_config b)) ∧
  @layeredTimeoutValue toy_durations "stall_timeout" (ly_user demo_layers) (project_values demo_layers) = Ok (bc_stall_timeout (bd_config b)).
Proof.
  destruct (@storeBindingResolver list_range toy_durations 50 demo_layers "p" BindingDispatch cold_resolver) as [[b|e] r'] eqn:E;
    [|by vm_compute in E].
  exists b, r'. split; [reflexivity|].
  exact (@resolver_binds_the_selection list_range toy_durations 50 demo_layers "p" BindingDispatch cold_resolver b r' _ demo_names E).
Defined.

(** The project selected codex and opencode; with both in cooldown its dispatch
    runs on claude, which it did not select. *)
Example cold_pool_binds_a_stranger :
  resolveProviderNames demo_layers = Ok ["codex"; "opencode"] ∧
  (λ b, bd_name b) <$> match (@storeBindingResolver list_range toy_durations 50 demo_layers "p" BindingDispatch cold_resolver).1 with
                       | Ok b => Some b | Err _ => None end = Some "claude".
Proof. by split; vm_compute. Qed.

(** A timeout in [provider_config] is read and then overwritten. *)
Example provider_timeout_is_dropped :
  let l := mkLayers ∅ None {["provider" := VString "codex";
             "provider_config" := VTable [("codex", VTable [("turn_timeout", VString "10m")])]]} in
  bc_turn_timeout (default (shipped "" "" false []) (resolveProviderConfigs l !! "codex")) = "10m" ∧
  match @resolved_binding toy_durations l "codex" false with Ok b => bc_turn_timeout (bd_config b) = "" | Err _ => False end.
Proof. by split; vm_compute. Qed.
