(* ===== verification/OrchVerify.v ===== *)
(** * Verification of a finished turn: [internal/orch/verify.go]

    The acceptance check, re-run by the orchestrator itself; the Stop hook's
    gate; and the verdict, written for the session that reported. The shell, the
    file system at the time of the check and the texts of their errors are the
    interface [World]. *)
From S2P Require Import Prelude GoLib FilePath StoreModel StoreSql StoreTasks StoreWorkers StoreGraph StoreProjects PlanModel PlanImport PlanParse OrchPaths.

(** ** Evidence *)

Record Evidence := mkEvidence {
  ev_ran : string; ev_exit_code : Z; ev_output : string; ev_failure_category : string;
  ev_diff : string; ev_files_changed : list string }.
Definition no_evidence : Evidence := mkEvidence "" 0 "" "" "" [].

(** [os.Stat]; [sh -c] in a directory, giving its error, if it did not exit with
    zero, and its output; the paths [findingPathRe] finds; [%q] and [%v]; the
    JSON of evidence. *)
Class World := {
  stat : string → result FsError unit;
  fs_error_text : FsError → string;
  run_shell : string → string → option string * string;
  finding_paths : string → list string;
  quoted : string → string;
  MarshalEvidence : Evidence → string }.

(** ** The acceptance check *)

Section Acceptance.
Context `{World} `{PlanCodec}.

(** A verdict with its reason. *)
Abbreviation Verdict := (bool * string)%type.

Definition checkFileExists (dir path : string) : Verdict :=
  let full := if negb (bool_decide (dir = "")) && negb (IsAbs path) then JoinPath [dir; path] else path in
  match stat full with
  | Err e => (false, "acceptance file " +:+ quoted full +:+ " does not exist: " +:+ fs_error_text e)
  | Ok _ => (true, "")
  end.

(** The loop of [phantomFindingPaths]. *)
Fixpoint phantom_paths (dir : string) (seen : gset string) (paths : list string) : list string :=
  match paths with
  | [] => []
  | m :: paths' =>
      let path := TrimSpace m in
      if decide (path = "" ∨ path ∈ seen) then phantom_paths dir seen paths'
      else
        let seen := {[path]} ∪ seen in
        let resolved := if IsAbs path then Some path
                        else if decide (dir = "") then None else Some (JoinPath [dir; path]) in
        match resolved with
        | None => phantom_paths dir seen paths'
        | Some full =>
            match stat full with
            | Err FsNotExist => path :: phantom_paths dir seen paths'
            | _ => phantom_paths dir seen paths'
            end
        end
  end.

Definition phantomFindingPaths (dir output : string) : list string := phantom_paths dir ∅ (finding_paths output).

Definition phantom_note (phantom : list string) : string :=
  match phantom with
  | [] => ""
  | _ => String newline (String newline "NOTE: ") +:+ Itoa (Z.of_nat (length phantom)) +:+
         " of these findings name files that DO NOT EXIST: " +:+ Join ", " phantom +:+
         String newline "A tool reporting a finding for a path that is not on disk is reporting a stale index, not a defect. Clear the tool's cache (e.g. `golangci-lint cache clean`) and re-run before changing code -- the finding cannot be fixed, because the file is gone."
  end.

Definition checkCommandExitsZero (dir command : string) : Verdict :=
  match run_shell dir command with
  | (Some err, out) =>
      (false, "acceptance command " +:+ quoted command +:+ " failed: " +:+ err +:+ String newline (TrimSpace out) +:+
              phantom_note (phantomFindingPaths dir out))
  | (None, _) => (true, "")
  end.

Definition blank_text (s : string) : bool := bool_decide (TrimSpace s = "").

(** [mechanicalAcceptanceCheck]; [Err]: the acceptance does not decode. *)
Definition mechanicalAcceptanceCheck (dir acceptanceJSON : string) (ev : Evidence) : result string Verdict :=
  if blank_text acceptanceJSON then
    if blank_text (ev_output ev) then Ok (false, "no acceptance criterion and no evidence output") else Ok (true, "")
  else
    match unmarshal_acceptance acceptanceJSON with
    | None => Err "orch: unmarshal acceptance"
    | Some acc =>
        if blank_text (ac_command acc) && blank_text (ac_file_exists acc)
        then Ok (false, "explicit acceptance has no mechanical predicate")
        else
          let checkDir := if decide (ac_dir acc = "") then dir else ac_dir acc in
          let file := if decide (ac_file_exists acc = "") then (true, "") else checkFileExists checkDir (ac_file_exists acc) in
          if negb file.1 then Ok file
          else if decide (ac_command acc = "") then Ok (true, "")
          else Ok (checkCommandExitsZero checkDir (ac_command acc))
    end.

Definition hasMechanicalAcceptance (acceptanceJSON : string) : bool :=
  if blank_text acceptanceJSON then false
  else match unmarshal_acceptance acceptanceJSON with
       | None => false
       | Some acc => negb (blank_text (ac_command acc)) || negb (blank_text (ac_file_exists acc))
       end.
End Acceptance.

(** ** The verdict *)

(** What the orchestrator holds across calls: the database and the session it
    made for itself, [""] before there is one. *)
Record Verifier := mkVerifier { vf_db : DB; vf_orch_session : string }.
Definition in_db {A} (m : Store A) : SM Verifier StoreError A := λ v,
  let '(r, s') := m (vf_db v) in (r, mkVerifier s' (vf_orch_session v)).
Definition map_db (f : DB → DB) (v : Verifier) : Verifier := mkVerifier (f (vf_db v)) (vf_orch_session v).

Inductive VerifyError :=
| VerifyStore (e : StoreError)
| VerifyBudget
| VerifyCheck (e : string)
| VerifyFuel.

Section Verify.
Context `{SqlEngine} `{World} `{PlanCodec} `{Json} `{Markdown} `{FileSystem} `{CostOps}.

(** The project registry the plan's directory is read from. *)
Context (registry : Registry).

Definition projectDirFor (planID : string) (s : DB) : result StoreError string :=
  match (GetPlan planID s).1 with
  | Err e => Err e
  | Ok p => match ProjectAbsPath (p_project p) registry with
            | Some dir => if decide (dir = "") then Ok "." else Ok dir
            | None => Ok "."
            end
  end.

(** [Some None]: no step to check. [None]: out of fuel. *)
Definition stepForTask (planID taskID : string) (s : DB) : option (option Step) :=
  match (GetPlan planID s).1 with
  | Err _ => Some None
  | Ok p =>
      if decide (coalesce (p_source p) = "") then Some None
      else match Parse (coalesce (p_source p)) with
           | None => None
           | Some (Err _) => Some None
           | Some (Ok parsed) => Some (snd <$> indexPlanSteps parsed !! taskID)
           end
  end.

(** The loop over the declared outputs: the first escape is the reason, the
    first fault ends the check. *)
Fixpoint escaped_output (projectDir : string) (outputs : list string) : option string :=
  match outputs with
  | [] => Some ""
  | out :: outputs' =>
      match secureProjectPath projectDir out with
      | None => None
      | Some (Ok _) => escaped_output projectDir outputs'
      | Some (Err (ErrTaskPathEscapesProject _)) =>
          Some ("declared output " +:+ quoted out +:+ " does not resolve inside the project")
      | Some (Err _) => Some ""
      end
  end.

Definition verifyTaskOutputContainment (planID taskID projectDir : string) (s : DB) : option string :=
  match stepForTask planID taskID s with
  | None => None
  | Some None => Some ""
  | Some (Some step) => escaped_output projectDir (fd_outputs (declFromMetadata step))
  end.

(** [ensureOrchSession]; [uuid] and the start time are what the clock and the
    generator give. *)
Definition ensureOrchSession (uuid startTime : string) : SM Verifier StoreError string := λ v,
  if decide (vf_orch_session v = "") then
    match CreateSession uuid (mkSessionOpts "" "orchestrator" 1 startTime "") (vf_db v) with
    | (Ok id, s') => (Ok id, mkVerifier s' id)
    | (Err e, s') => (Err e, mkVerifier s' (vf_orch_session v))
    end
  else (Ok (vf_orch_session v), v).

Definition orch_event (planID taskID kind : string) (payload : Payload) : Event :=
  mkEvent None (Some planID) (Some taskID) kind (Some "orch") (Some "orchestrator") payload.

Definition rejection (reason : string) : EventPayload := mkPayload "" reason [] "" true [] false "" "" "" "".

(** The verdict, written for [sessionID]. A report from a session that lost the
    task is a no-op, and emits nothing. *)
Definition record_verdict (planID taskID sessionID : string) (ok : bool) (reason : string) (ev : Evidence)
    : SM DB VerifyError bool := λ s,
  if negb ok then
    match MarkFailedWithPayload planID taskID sessionID (rejection reason) 3 s with
    | (Err e, s') => if errors_is e ErrTaskNotOwnedRunning then (Ok false, s') else (Err (VerifyStore e), s')
    | (Ok _, s') =>
        match insert_event (orch_event planID taskID "worker.verification_failed" (PayloadStruct (reason_payload reason))) s' with
        | (Err e, s'') => (Err (VerifyStore e), s'')
        | (Ok _, s'') => (Ok false, s'')
        end
    end
  else
    match MarkDone planID taskID sessionID (MarshalEvidence ev) s with
    | (Err e, s') => if errors_is e ErrTaskNotOwnedRunning then (Ok false, s') else (Err (VerifyStore e), s')
    | (Ok _, s') =>
        match insert_event (orch_event planID taskID "worker.verified_done" (PayloadJSON "{}")) s' with
        | (Err e, s'') => (Err (VerifyStore e), s'')
        | (Ok _, s'') => (Ok true, s'')
        end
    end.

(** Whose report it is: the named reporter's, else the session that owned the
    task when it was loaded, else the orchestrator's own. *)
Definition reporting_session (reportingSession : string) (task : Task) (uuid startTime : string) : SM Verifier StoreError string :=
  if negb (bool_decide (reportingSession = "")) then sret reportingSession
  else if negb (bool_decide (coalesce (t_claimed_by_session task) = "")) then sret (coalesce (t_claimed_by_session task))
  else ensureOrchSession uuid startTime.

(** [VerifyAndCompleteAs]. The acceptance check takes its time: [meanwhile] is
    what everyone else does to the database while it runs, heartbeats included,
    and [before_mark] what they do between the containment check and the mark;
    [expired]: the verification budget ran out first. *)
Definition VerifyAndCompleteAs (meanwhile before_mark : DB → DB) (expired : bool) (uuid startTime : string)
    (planID taskID reportingSession : string) (ev : Evidence) : SM Verifier VerifyError bool := λ v,
  match (GetTask planID taskID (vf_db v)).1, projectDirFor planID (vf_db v) with
  | Err e, _ => (Err (VerifyStore e), v)
  | Ok _, Err e => (Err (VerifyStore e), v)
  | Ok task, Ok dir =>
      let check := mechanicalAcceptanceCheck dir (coalesce (t_acceptance task)) ev in
      let v1 := map_db meanwhile v in
      if expired then (Err VerifyBudget, v1)
      else match check with
      | Err e => (Err (VerifyCheck e), v1)
      | Ok (ok, reason) =>
          match (if ok then verifyTaskOutputContainment planID taskID dir (vf_db v1) else Some "") with
          | None => (Err VerifyFuel, v1)
          | Some escaped =>
              let accepted := ok && bool_decide (escaped = "") in
              let reason := if decide (escaped = "") then reason else escaped in
              match reporting_session reportingSession task uuid startTime (map_db before_mark v1) with
              | (Err e, v2) => (Err (VerifyStore e), v2)
              | (Ok sessionID, v2) =>
                  let '(r, s') := record_verdict planID taskID sessionID accepted reason ev (vf_db v2) in
                  (r, mkVerifier s' (vf_orch_session v2))
              end
          end
      end
  end.

(** [CanStopAs]: the Stop hook's gate reads, and marks nothing. *)
Definition CanStopAs (meanwhile : DB → DB) (expired : bool) (planID taskID reportingSession : string) (s : DB)
    : result VerifyError bool :=
  match (GetTask planID taskID s).1 with
  | Err e => Err (VerifyStore e)
  | Ok task =>
      if bool_decide (reportingSession = "") || negb (bool_decide (coalesce (t_claimed_by_session task) = reportingSession))
      then Ok false
      else match projectDirFor planID s with
      | Err e => Err (VerifyStore e)
      | Ok dir =>
          if expired then Err VerifyBudget
          else match mechanicalAcceptanceCheck dir (coalesce (t_acceptance task)) no_evidence with
          | Err e => Err (VerifyCheck e)
          | Ok (false, _) => Ok false
          | Ok (true, _) =>
              match verifyTaskOutputContainment planID taskID dir (meanwhile s) with
              | None => Err VerifyFuel
              | Some escaped => Ok (bool_decide (escaped = ""))
              end
          end
      end
  end.
End Verify.
