(* ===== verification/OrchVerifyProps.v ===== *)
(** * Properties of verification

    A task is done only when the orchestrator's own check said so, for the
    session that still owned it. *)
From S2P Require Import Prelude GoLib FilePath StoreModel StoreSql StoreTasks StoreWorkers StoreGraph StoreSpec StoreTrace StoreProps StoreProjects StoreProjectsProps PlanModel PlanImport PlanParse PlanParseProps OrchPaths OrchPathsProps OrchVerify.

Section Acceptance.
Context `{World} `{PlanCodec}.

Lemma blank_text_true s : blank_text s = true ↔ TrimSpace s = "".
Proof. apply bool_decide_eq_true. Qed.

(** What the predicates of an acceptance say of the project directory. *)
Definition holds_in (dir : string) (acc : Acceptance) : Prop :=
  let checkDir := if decide (ac_dir acc = "") then dir else ac_dir acc in
  (ac_file_exists acc ≠ "" → (checkFileExists checkDir (ac_file_exists acc)).1 = true) ∧
  (ac_command acc ≠ "" → (run_shell checkDir (ac_command acc)).1 = None).

(** When a turn is accepted: by its acceptance when it has one, and by having
    output when it has none. *)
Definition accepted (dir acceptanceJSON : string) (ev : Evidence) : Prop :=
  if blank_text acceptanceJSON then TrimSpace (ev_output ev) ≠ ""
  else ∃ acc, unmarshal_acceptance acceptanceJSON = Some acc ∧
         (TrimSpace (ac_command acc) ≠ "" ∨ TrimSpace (ac_file_exists acc) ≠ "") ∧ holds_in dir acc.

Lemma checkCommandExitsZero_true dir command :
  (checkCommandExitsZero dir command).1 = true ↔ (run_shell dir command).1 = None.
Proof. unfold checkCommandExitsZero. by destruct (run_shell dir command) as [[]]. Qed.

Lemma check_passes dir acceptanceJSON ev :
  (∃ reason, mechanicalAcceptanceCheck dir acceptanceJSON ev = Ok (true, reason)) ↔ accepted dir acceptanceJSON ev.
Proof.
  unfold mechanicalAcceptanceCheck, accepted. destruct (blank_text acceptanceJSON).
  { destruct (blank_text (ev_output ev)) eqn:E.
    - apply blank_text_true in E. split; [by intros [? ?]|by intros []].
    - split; [intros _ Hb%blank_text_true; congruence|by eexists]. }
  destruct (unmarshal_acceptance acceptanceJSON) as [acc|]; [|naive_solver].
  destruct (blank_text (ac_command acc) && blank_text (ac_file_exists acc)) eqn:Eb.
  { apply andb_true_iff in Eb as [Ec%blank_text_true Ef%blank_text_true]. naive_solver. }
  assert (TrimSpace (ac_command acc) ≠ "" ∨ TrimSpace (ac_file_exists acc) ≠ "").
  { apply andb_false_iff in Eb as [Eb|Eb]; [left|right]; intros Ht%blank_text_true; congruence. }
  unfold holds_in. set (checkDir := if decide (ac_dir acc = "") then dir else ac_dir acc).
  assert (Hfile : (if decide (ac_file_exists acc = "") then (true, "") else checkFileExists checkDir (ac_file_exists acc)).1 = true ↔
                  (ac_file_exists acc ≠ "" → (checkFileExists checkDir (ac_file_exists acc)).1 = true)).
  { destruct (decide (ac_file_exists acc = "")); naive_solver. }
  destruct (if decide (ac_file_exists acc = "") then _ else _) as [ok reason]; simpl in Hfile |- *.
  destruct ok; simpl.
  - destruct (decide (ac_command acc = "")) as [Hc|Hc].
    + split; [|by eexists]. intros _. exists acc. split_and!; [done..|by apply Hfile|done].
    + split.
      * intros [r Hr]. exists acc. split; [done|]. split; [done|]. split; [by apply Hfile|].
        intros _. apply checkCommandExitsZero_true.
        injection Hr as Hr. apply (f_equal fst) in Hr. exact Hr.
      * intros (acc' & [= <-] & _ & _ & Hcmd). specialize (Hcmd Hc). apply checkCommandExitsZero_true in Hcmd.
        eexists. f_equal. rewrite <-Hcmd. apply surjective_pairing.
  - split; [by intros [? ?]|]. intros (acc' & [= <-] & _ & Hf & _). apply Hfile in Hf. done.
Qed.

(** With a criterion, the evidence plays no part. *)
Lemma check_ignores_evidence dir acceptanceJSON ev ev' :
  blank_text acceptanceJSON = false →
  mechanicalAcceptanceCheck dir acceptanceJSON ev = mechanicalAcceptanceCheck dir acceptanceJSON ev'.
Proof. unfold mechanicalAcceptanceCheck. by intros ->. Qed.

Lemma mechanical_has_predicate dir acceptanceJSON ev reason :
  blank_text acceptanceJSON = false →
  mechanicalAcceptanceCheck dir acceptanceJSON ev = Ok (true, reason) → hasMechanicalAcceptance acceptanceJSON = true.
Proof.
  unfold mechanicalAcceptanceCheck, hasMechanicalAcceptance. intros ->. destruct (unmarshal_acceptance _) as [acc|]; [|done].
  by destruct (blank_text (ac_command acc)), (blank_text (ac_file_exists acc)).
Qed.

(** The check itself fails only when the acceptance does not decode. *)
Lemma check_error dir acceptanceJSON ev e :
  mechanicalAcceptanceCheck dir acceptanceJSON ev = Err e →
  e = "orch: unmarshal acceptance" ∧ blank_text acceptanceJSON = false ∧ unmarshal_acceptance acceptanceJSON = None.
Proof.
  unfold mechanicalAcceptanceCheck. destruct (blank_text acceptanceJSON); [by destruct (blank_text _)|].
  destruct (unmarshal_acceptance acceptanceJSON) as [acc|]; [|naive_solver].
  destruct (blank_text _ && blank_text _); [done|]. by repeat case_match.
Qed.
End Acceptance.

(** the acceptance check never trusts the worker. A task with an acceptance
    criterion passes exactly when the criterion decodes, states a predicate, its
    file exists and its command exits with zero, run by the orchestrator in the
    project directory or the one the criterion names; nothing the worker
    reported, exit code included, changes the outcome or its reason. Without a
    criterion, all that counts is that there is output. *)
Theorem acceptance_is_rechecked `{World} `{PlanCodec} dir acceptanceJSON ev :
  ((∃ reason, mechanicalAcceptanceCheck dir acceptanceJSON ev = Ok (true, reason)) ↔ accepted dir acceptanceJSON ev) ∧
  (blank_text acceptanceJSON = false → ∀ ev', mechanicalAcceptanceCheck dir acceptanceJSON ev' =
                                              mechanicalAcceptanceCheck dir acceptanceJSON ev) ∧
  (blank_text acceptanceJSON = true → ∀ ev', ev_output ev' = ev_output ev →
     mechanicalAcceptanceCheck dir acceptanceJSON ev' = mechanicalAcceptanceCheck dir acceptanceJSON ev).
Proof.
  split_and!; [apply check_passes|..]; unfold mechanicalAcceptanceCheck; intros ->; [done|]. by intros ev' ->.
Qed.

(** ** The verdict *)

Section Verdict.
Context `{SqlEngine} `{World} `{PlanCodec} `{Json} `{Markdown} `{FileSystem} `{!CleanEval} `{CostOps}.
Context (registry : Registry).

(** A declared output resolves to a path of the project, resolves outside it, or
    cannot be resolved at all. *)
Definition resolves (dir out : string) : Prop := ∃ path, secureProjectPath dir out = Some (Ok path).
Definition escapes (dir out : string) : Prop := ∃ what, secureProjectPath dir out = Some (Err (ErrTaskPathEscapesProject what)).
Definition unresolvable (dir out : string) : Prop := ¬ resolves dir out ∧ ¬ escapes dir out.

Definition contained (dir : string) (outputs : list string) : Prop := Forall (λ out, ¬ escapes dir out) outputs.

(** The check sees nothing: an output that cannot be resolved comes before any that
    escapes, and the check ends there. *)
Definition blind (dir : string) (outputs : list string) : Prop :=
  ∃ before out after, outputs = before ++ out :: after ∧ Forall (resolves dir) before ∧ unresolvable dir out.

(** The declared outputs of the step a task was materialised from. *)
Definition declared_outputs (planID taskID : string) (s : DB) : list string :=
  match stepForTask planID taskID s with
  | Some (Some step) => fd_outputs (declFromMetadata step)
  | _ => []
  end.

Lemma blind_resolved dir out outputs : resolves dir out → blind dir (out :: outputs) ↔ blind dir outputs.
Proof.
  intros Hr. split.
  - intros ([|o before] & bad & after & Heq & Hb & Hbad); simplify_eq/=; [by destruct Hbad|].
    apply Forall_cons_1 in Hb as [_ Hb]. by exists before, bad, after.
  - intros (before & bad & after & -> & Hb & Hbad). exists (out :: before), bad, after. split; [done|]. split; [by constructor|done].
Qed.

Lemma escape_seen dir out outputs : escapes dir out → ¬ contained dir (out :: outputs) ∧ ¬ blind dir (out :: outputs).
Proof.
  intros [what He]. split; [by intros [[] _]%Forall_cons_1; exists what|].
  intros ([|o before] & bad & after & Heq & Hb & Hbad); simplify_eq/=; [by destruct Hbad as [_ []]; exists what|].
  apply Forall_cons_1 in Hb as [[p Hp] _]. congruence.
Qed.

Lemma escaped_output_spec dir outputs :
  HasPrefix dir "/" = true →
  ∃ reason, escaped_output dir outputs = Some reason ∧ (reason = "" ↔ contained dir outputs ∨ blind dir outputs).
Proof.
  intros Hdir. induction outputs as [|out outputs (reason & IH & Hiff)]; simpl.
  { exists "". split; [done|]. split; [|done]. intros _. left. constructor. }
  destruct (secureProjectPath dir out) as [[path|e]|] eqn:Hs; [| |by destruct (secure_total dir out)].
  - assert (resolves dir out) as Hr by by exists path. exists reason. split; [done|].
    rewrite Hiff, blind_resolved by done. unfold contained. rewrite Forall_cons.
    assert (¬ escapes dir out) by (intros [what Hw]; congruence). tauto.
  - assert ((∃ what, e = ErrTaskPathEscapesProject what) ∨ ¬ ∃ what, e = ErrTaskPathEscapesProject what) as [[what ->]|Hno]
      by (destruct e; first [by left; eexists|right; by intros [? ?]]).
    + eexists. split; [done|]. destruct (escape_seen dir out outputs) as [Hc Hb]; [by exists what|]. split; [done|tauto].
    + exists "". split; [destruct e; try done; destruct Hno; by eexists|]. split; [|done]. intros _. right. exists [], out, outputs.
      split; [done|]. split; [constructor|]. split; [intros [p Hp]; congruence|]. intros [what Hw]. apply Hno. exists what. congruence.
Qed.

Lemma containment_spec planID taskID dir s :
  HasPrefix dir "/" = true →
  ∃ reason, verifyTaskOutputContainment planID taskID dir s = Some reason ∧
            (reason = "" ↔ contained dir (declared_outputs planID taskID s) ∨ blind dir (declared_outputs planID taskID s)).
Proof.
  intros Hdir. unfold verifyTaskOutputContainment, declared_outputs.
  destruct (stepForTask planID taskID s) as [[step|]|] eqn:Hst.
  - by apply escaped_output_spec.
  - exists "". split; [done|]. destruct (escaped_output_spec dir [] Hdir) as (r & [= <-] & Hr). done.
  - exfalso. revert Hst. unfold stepForTask. destruct (GetPlan planID s).1 as [p|]; [|done].
    destruct (decide _); [done|]. pose proof (Parse_wf (coalesce (p_source p))) as Hwf.
    by destruct (Parse (coalesce (p_source p))) as [[]|].
Qed.

(** What a verdict does to the row it is for, and what it announces. *)
Definition verified_state (planID taskID x : string) (ev : Evidence) (t : Task) (s : DB) : DB :=
  set_events (λ es, es ++ [orch_event planID taskID "worker.verified_done" (PayloadJSON "{}")])
    (reported (planID, taskID) (release_to TaskStatusDone t)
       (plain_event planID taskID "worker.completed" x "worker" (PayloadJSON (MarshalEvidence ev))) s).
Definition rejected_state (planID taskID x reason : string) (t : Task) (s : DB) : DB :=
  let retry := (t_retry_count t + 1 <=? 3)%Z in
  set_events (λ es, es ++ [orch_event planID taskID "worker.verification_failed" (PayloadStruct (reason_payload reason))])
    (reported (planID, taskID) (if retry then retry_task t else fail_task "" t)
       (plain_event planID taskID (if retry then "task.failed" else "task.failed_terminal") x "worker"
          (PayloadStruct (rejection reason))) s).

Lemma record_verdict_run planID taskID x ok reason ev s :
  record_verdict planID taskID x ok reason ev s =
  match reporter s (planID, taskID) x with
  | None => (Ok false, s)
  | Some t => if ok then (Ok true, verified_state planID taskID x ev t s)
              else (Ok false, rejected_state planID taskID x reason t s)
  end.
Proof.
  unfold record_verdict. destruct ok; cbn [negb].
  - rewrite MarkDone_run. by destruct (reporter s (planID, taskID) x).
  - rewrite MarkFailed_run. destruct (reporter s (planID, taskID) x) as [t|]; [|done].
    unfold rejected_state. by destruct (t_retry_count t + 1 <=? 3)%Z.
Qed.

Lemma check_verdict dir acceptanceJSON ev ok reason :
  mechanicalAcceptanceCheck dir acceptanceJSON ev = Ok (ok, reason) → (ok = true ↔ accepted dir acceptanceJSON ev).
Proof. intros Hc. rewrite <-check_passes, Hc. destruct ok; naive_solver. Qed.

(** The whole call, for a named reporter: the outcome, and the state it leaves. *)
Lemma VerifyAndCompleteAs_run meanwhile before_mark uuid start p i x ev v task dir :
  HasPrefix dir "/" = true → x ≠ "" →
  (GetTask p i (vf_db v)).1 = Ok task → projectDirFor registry p (vf_db v) = Ok dir →
  VerifyAndCompleteAs registry meanwhile before_mark false uuid start p i x ev v =
  let v2 := mkVerifier (before_mark (meanwhile (vf_db v))) (vf_orch_session v) in
  match mechanicalAcceptanceCheck dir (coalesce (t_acceptance task)) ev with
  | Err e => (Err (VerifyCheck e), map_db meanwhile v)
  | Ok (ok, reason) =>
      let escaped := if ok then default "" (verifyTaskOutputContainment p i dir (meanwhile (vf_db v))) else "" in
      let '(r, s') := record_verdict p i x (ok && bool_decide (escaped = ""))
                        (if decide (escaped = "") then reason else escaped) ev (vf_db v2) in
      (r, mkVerifier s' (vf_orch_session v2))
  end.
Proof.
  intros Hdir Hx Ht Hp. unfold VerifyAndCompleteAs. rewrite Ht, Hp.
  destruct (mechanicalAcceptanceCheck dir (coalesce (t_acceptance task)) ev) as [[ok reason]|]; [|done].
  unfold reporting_session. rewrite bool_decide_eq_false_2 by done. cbn [negb].
  destruct ok; [|done]. destruct (containment_spec p i dir (vf_db (map_db meanwhile v)) Hdir) as (escaped & He & _).
  cbn [vf_db map_db] in He |- *. by rewrite He.
Qed.
End Verdict.

(** C24: a verdict is exactly the check's, recorded for the session that
    reported, if it still owns the running task when the verdict is written;
    whatever happened to the database while the check ran. The call says done
    exactly when the budget of the check had not run out, the acceptance held, the
    containment check passed and the reporter still owned the row, and then the row
    is done, its dependents are released and both announcements are there, and
    nothing else changed. The containment check passes when no declared output
    escapes the project, and also, escapes or not, when one of them cannot be
    resolved and every output declared before it was: there the check stops, so an
    escape behind a fault goes unseen. The call says not done without a trace when
    the row was lost, and otherwise charges one retry of a budget of three; only a
    spent budget and an acceptance that does not decode are errors, and record
    nothing. *)
Theorem verdict_is_exact `{SqlEngine} `{World} `{PlanCodec} `{Json} `{Markdown} `{FileSystem} `{!CleanEval} `{CostOps}
    registry meanwhile before_mark expired uuid start p i x ev v task dir :
  HasPrefix dir "/" = true → x ≠ "" →
  (GetTask p i (vf_db v)).1 = Ok task → projectDirFor registry p (vf_db v) = Ok dir →
  let held := accepted dir (coalesce (t_acceptance task)) ev in
  let outputs := declared_outputs p i (meanwhile (vf_db v)) in
  let s2 := before_mark (meanwhile (vf_db v)) in
  let '(r, v') := VerifyAndCompleteAs registry meanwhile before_mark expired uuid start p i x ev v in
  vf_orch_session v' = vf_orch_session v ∧
  match r with
  | Ok true => expired = false ∧ held ∧ (contained dir outputs ∨ blind dir outputs) ∧
               ∃ t, reporter s2 (p, i) x = Some t ∧ vf_db v' = verified_state p i x ev t s2
  | Ok false => expired = false ∧
                match reporter s2 (p, i) x with
                | None => vf_db v' = s2
                | Some t => (¬ held ∨ ¬ contained dir outputs ∧ ¬ blind dir outputs) ∧
                            ∃ reason, vf_db v' = rejected_state p i x reason t s2
                end
  | Err e => vf_db v' = meanwhile (vf_db v) ∧
             if expired then e = VerifyBudget
             else e = VerifyCheck "orch: unmarshal acceptance" ∧
                  unmarshal_acceptance (coalesce (t_acceptance task)) = None ∧ ¬ held
  end.
Proof.
  intros Hdir Hx Ht Hp held outputs s2. destruct expired.
  { unfold VerifyAndCompleteAs. by rewrite Ht, Hp. }
  rewrite (VerifyAndCompleteAs_run registry _ _ _ _ _ _ _ _ _ task dir) by done.
  destruct (mechanicalAcceptanceCheck dir (coalesce (t_acceptance task)) ev) as [[ok reason]|e] eqn:Hc; cycle 1.
  { apply check_error in Hc as (-> & Hbl & Hn). split; [done|]. split_and!; [done..|].
    subst held. unfold accepted. rewrite Hbl. naive_solver. }
  apply check_verdict in Hc. destruct (containment_spec p i dir (meanwhile (vf_db v)) Hdir) as (escaped & He & Hiff).
  cbv zeta. rewrite He, record_verdict_run. change (default "" (Some escaped)) with escaped.
  cbn [vf_db vf_orch_session]. fold s2. fold outputs in Hiff. fold held in Hc.
  assert (ok && bool_decide ((if ok then escaped else "") = "") = true ↔ held ∧ (contained dir outputs ∨ blind dir outputs)) as Hearned.
  { rewrite andb_true_iff, bool_decide_eq_true, <-Hc, <-Hiff. destruct ok; naive_solver. }
  destruct (reporter s2 (p, i) x) as [t|] eqn:Hr; [|done].
  destruct (ok && bool_decide ((if ok then escaped else "") = "")) eqn:Hok; simpl; (split; [done|]).
  - destruct (proj1 Hearned eq_refl). split_and!; [done..|]. by exists t.
  - split; [done|]. split; [|by eexists]. destruct ok; [|left; intros Hh; by apply Hc in Hh].
    right. simpl in Hok. apply bool_decide_eq_false in Hok. rewrite Hiff in Hok. tauto.
Qed.

(** the Stop hook's gate never lets a worker go whose turn would be refused.
    When it answers yes, the reporter held the task's claim, the acceptance is a
    mechanical one, and the verification that follows, with whatever evidence
    the worker then hands in, marks the task done, as long as the acceptance
    still runs the same, the plan's outputs still resolve and the claim is still
    the reporter's when the mark is written. *)
Theorem stop_gate_is_sound `{SqlEngine} `{World} `{PlanCodec} `{Json} `{Markdown} `{FileSystem} `{!CleanEval} `{CostOps}
    registry meanwhile before_mark expired uuid start p i x ev v task dir :
  HasPrefix dir "/" = true →
  (GetTask p i (vf_db v)).1 = Ok task → projectDirFor registry p (vf_db v) = Ok dir →
  CanStopAs registry meanwhile expired p i x (vf_db v) = Ok true →
  t_claimed_by_session task = Some x ∧ expired = false ∧ hasMechanicalAcceptance (coalesce (t_acceptance task)) = true ∧
  let s2 := before_mark (meanwhile (vf_db v)) in
  let out := VerifyAndCompleteAs registry meanwhile before_mark false uuid start p i x ev v in
  match reporter s2 (p, i) x with
  | Some t => out = (Ok true, mkVerifier (verified_state p i x ev t s2) (vf_orch_session v))
  | None => out = (Ok false, mkVerifier s2 (vf_orch_session v))
  end.
Proof.
  intros Hdir Ht Hp. unfold CanStopAs. rewrite Ht, Hp.
  destruct (bool_decide_reflect (x = "")) as [|Hx]; [done|].
  destruct (bool_decide_reflect (coalesce (t_claimed_by_session task) = x)) as [Hclaim|]; [|done]. cbn [negb orb].
  destruct expired; [done|].
  destruct (mechanicalAcceptanceCheck dir (coalesce (t_acceptance task)) no_evidence) as [[[] reason]|] eqn:Hc; [|done..].
  destruct (containment_spec p i dir (meanwhile (vf_db v)) Hdir) as (escaped & He & _). rewrite He.
  destruct (bool_decide_reflect (escaped = "")) as [->|]; [|done]. intros _.
  assert (blank_text (coalesce (t_acceptance task)) = false) as Hbl.
  { destruct (blank_text _) eqn:Hb; [|done]. unfold mechanicalAcceptanceCheck in Hc. by rewrite Hb in Hc. }
  split; [destruct (t_claimed_by_session task); simplify_eq/=; done|]. split; [done|].
  split; [by eapply mechanical_has_predicate|]. cbv zeta.
  rewrite (VerifyAndCompleteAs_run registry _ _ _ _ _ _ _ _ _ task dir) by done.
  rewrite (check_ignores_evidence dir _ ev no_evidence), Hc by done. cbv zeta. rewrite He, record_verdict_run.
  cbn [vf_db vf_orch_session].
  by destruct (reporter (before_mark (meanwhile (vf_db v))) (p, i) x).
Qed.

(** ** On a concrete run *)

Definition demo_world : World := {|
  stat p := if decide (p = "/proj/src/a") then Ok tt else Err FsNotExist;
  fs_error_text e := "no such file";
  run_shell dir cmd := if decide (dir = "/proj" ∧ cmd = "make test") then (None, "ok") else (Some "exit status 1", "");
  finding_paths out := []; quoted s := s; MarshalEvidence := ev_output |}.

Definition demo_checked : DB :=
  exec_all (H:=merge_engine) (empty_db 0) (demo_setup ++
    [OpCreatePlanGraph "v" (mkCreatePlanOpts "proj" "checked" "Checked" "" "")
       [mkGraphTaskSpec (mkCreateTaskOpts "" "t" "build" None None (toy_marshal (mkAcceptance "make test" "src/a" "")) "" false)
          [] "g" "g" "" [] []] true;
     OpClaimTask "v" "t" "s1" "w1"]).
Definition demo_proj : Registry (H:=toy_costs) := demo_registry (5 * second) [abs_row "proj" "/proj" 1].
#[local] Notation demo_done :=
  (VerifyAndCompleteAs (H:=merge_engine) (H0:=demo_world) (H1:=toy_codec) (H2:=toy_json) (H3:=toy_markdown) (H4:=demo_fs)
    (H5:=toy_costs) demo_proj id id false "u" "now" "v" "t" "s1" no_evidence (mkVerifier demo_checked "")).

Lemma demo_task_loaded : ∃ task, (GetTask "v" "t" demo_checked).1 = Ok task.
Proof. eexists. vm_compute. reflexivity. Qed.

Lemma verdict_is_exact_witness :
  ∃ t, db_tasks (vf_db demo_done.2) !! ("v", "t") = Some t ∧ t_status t = TaskStatusDone.
Proof.
  destruct demo_task_loaded as [task Ht].
  assert (projectDirFor (H5:=toy_costs) demo_proj "v" demo_checked = Ok "/proj") as Hp by (vm_compute; reflexivity).
  assert (demo_done.1 = Ok true) as Hd by (vm_compute; reflexivity).
  pose proof (verdict_is_exact (H:=merge_engine) (H0:=demo_world) (H1:=toy_codec) (H2:=toy_json) (H3:=toy_markdown) (H4:=demo_fs)
      (H6:=toy_costs) demo_proj id id false "u" "now" "v" "t" "s1" no_evidence (mkVerifier demo_checked "") task "/proj" eq_refl
      ltac:(done) Ht Hp) as Hv.
  revert Hv Hd. generalize demo_checked. intros d.
  clear Ht Hp. destruct (VerifyAndCompleteAs _ _ _ _ _ _ _ _ _ _ _) as [r v']. simpl. intros Hv ->.
  destruct Hv as (_ & _ & _ & _ & t & _ & ->). exists (release_to TaskStatusDone t). split; [apply lookup_insert_eq|done].
Defined.

Lemma stop_gate_is_sound_witness : demo_done.1 = Ok true.
Proof.
  destruct demo_task_loaded as [task Ht].
  assert (projectDirFor (H5:=toy_costs) demo_proj "v" demo_checked = Ok "/proj") as Hp by (vm_compute; reflexivity).
  assert (CanStopAs (H0:=demo_world) (H1:=toy_codec) (H2:=toy_json) (H3:=toy_markdown) (H4:=demo_fs) (H5:=toy_costs)
            demo_proj id false "v" "t" "s1" demo_checked = Ok true) as Hc by (vm_compute; reflexivity).
  assert (reporter (id (id (vf_db (mkVerifier demo_checked "")))) ("v", "t") "s1" ≠ None) as Hr by (vm_compute; discriminate).
  pose proof (stop_gate_is_sound (H:=merge_engine) (H0:=demo_world) (H1:=toy_codec) (H2:=toy_json) (H3:=toy_markdown) (H4:=demo_fs)
      (H6:=toy_costs) demo_proj id id false "u" "now" "v" "t" "s1" no_evidence (mkVerifier demo_checked "") task "/proj" eq_refl
      Ht Hp Hc) as Hv.
  revert Hv Hr. generalize demo_checked. intros d (_ & _ & _ & Hv) Hr. cbv zeta in Hv.
  clear Ht Hp Hc. destruct (reporter _ ("v", "t") "s1") as [t|]; [exact (f_equal fst Hv)|done].
Defined.

(** An escape is found, unless a fault on an output declared before it ended the
    check first. *)
Example escape_is_found :
  escaped_output (H0:=demo_world) (H4:=demo_fs) "/proj" ["in/x"; "etc/passwd"] ≠ Some "".
Proof. by vm_compute. Qed.

(** A file system with a link that loops: no path through it resolves. *)
Definition looping_fs : FileSystem := toy_fs
  {[ ["proj"] := FDir; ["proj"; "loop"] := FLink ["proj"; "loop"]; ["proj"; "etc"] := FLink ["etc"]; ["etc"] := FDir ]}.

(** An escape declared behind an output that cannot be resolved is not found. *)
Example escape_behind_a_fault_is_missed :
  escapes (H4:=looping_fs) "/proj" "etc/passwd" ∧ unresolvable (H4:=looping_fs) "/proj" "loop/x" ∧
  escaped_output (H0:=demo_world) (H4:=looping_fs) "/proj" ["loop/x"; "etc/passwd"] = Some "".
Proof.
  split; [eexists; vm_compute; reflexivity|].
  assert (∃ what, secureProjectPath (H:=looping_fs) "/proj" "loop/x" = Some (Err (ErrTaskPathUnresolvable what))) as [what Hw]
    by (eexists; vm_compute; reflexivity).
  split; [|vm_compute; reflexivity]. split; [intros [p Hp]|intros [y Hy]]; congruence.
Qed.
