(* ===== verification/StoreCalibrations.v ===== *)
(** * Provider calibrations: [internal/store/calibrations.go]

    What a configured alias was measured to be, under a content address, and the
    attempts that measured it. The two tables stand beside the database whose
    tasks the attempts belong to. *)
From S2P Require Import Prelude GoLib StoreModel StoreSql StoreTasks.
From stdpp Require Import sorting.

(** ** Data *)

Record ProviderCalibration := mkCalibration {
  cb_id : string; cb_alias : string; cb_provider : string; cb_model : string; cb_effort : string;
  cb_binary_path : string; cb_binary_version : string; cb_binary_sha256 : string;
  cb_invocation_hash : string; cb_inference_domain : string; cb_control_domain : string;
  cb_independence_domain : string; cb_model_digest : string;
  cb_capabilities : string; cb_evidence : string }.

(** The fields the address is taken over, in the order they are marshalled;
    evidence and capabilities are not among them. *)
Definition cb_identity (c : ProviderCalibration) : list string :=
  [cb_alias c; cb_provider c; cb_model c; cb_effort c; cb_binary_path c; cb_binary_version c;
   cb_binary_sha256 c; cb_invocation_hash c; cb_inference_domain c; cb_control_domain c;
   cb_independence_domain c; cb_model_digest c].

(** SHA-256, in hex, of the JSON of those fields. *)
Class CalibrationHash := { identity_sha256 : list string → string }.

Record CalibrationAttempt := mkAttempt {
  at_plan : string; at_task : string; at_sequence : Z; at_repetition : Z;
  at_alias : string; at_provider : string; at_model : string; at_effort : string;
  at_session : string; at_provider_session : string; at_output_sha256 : string }.
Definition at_key (a : CalibrationAttempt) : string * string * (Z * Z) :=
  (at_plan a, at_task a, (at_sequence a, at_repetition a)).

(** The rows of [provider_calibrations] in order of insertion, and the attempts
    by primary key. *)
Record Calibrated := mkCalibrated {
  ca_db : DB; ca_rows : list ProviderCalibration;
  ca_attempts : gmap (string * string * (Z * Z)) CalibrationAttempt }.

Inductive CalibrationError :=
| ErrCalibrationArguments
| ErrCalibrationNotFound (alias : string)
| ErrCalibrationConflict (alias existing requested : string)
| ErrCalibrationUnique (alias : string)
| ErrAttemptArguments
| ErrCalibrationAttemptNoOutput
| ErrAttemptNotOwned (plan task : string)
| ErrAttemptUnique.

(** ** Calibrations *)

Section Calibrations.
Context `{CalibrationHash}.

Definition contentAddress (c : ProviderCalibration) : string := identity_sha256 (cb_identity c).

Definition with_id (id : string) (c : ProviderCalibration) : ProviderCalibration :=
  mkCalibration id (cb_alias c) (cb_provider c) (cb_model c) (cb_effort c) (cb_binary_path c)
    (cb_binary_version c) (cb_binary_sha256 c) (cb_invocation_hash c) (cb_inference_domain c)
    (cb_control_domain c) (cb_independence_domain c) (cb_model_digest c) (cb_capabilities c) (cb_evidence c).

Definition by_alias (alias : string) (rows : list ProviderCalibration) : option ProviderCalibration :=
  snd <$> list_find (λ c, cb_alias c = alias) rows.

Definition GetCalibrationByAlias (alias : string) (s : Calibrated) : result CalibrationError ProviderCalibration :=
  match by_alias alias (ca_rows s) with Some c => Ok c | None => Err (ErrCalibrationNotFound alias) end.

Definition prefix12 (id : string) : string := of_chars (take 12 (chars id)).

(** The two unique keys, the id and the alias. *)
Definition row_taken (c : ProviderCalibration) (rows : list ProviderCalibration) : bool :=
  existsb (λ r, bool_decide (cb_id r = cb_id c) || bool_decide (cb_alias r = cb_alias c)) rows.

(** What another writer commits between the read and the insert is [race]. *)
Definition RecordCalibration (race : Calibrated → Calibrated) (c : ProviderCalibration)
    : SM Calibrated CalibrationError ProviderCalibration := λ s,
  if decide (cb_alias c = "" ∨ cb_provider c = "" ∨ cb_invocation_hash c = "") then (Err ErrCalibrationArguments, s)
  else
    let id := contentAddress c in
    let c := with_id id c in
    let conflict existing := ErrCalibrationConflict (cb_alias c) (prefix12 (cb_id existing)) (prefix12 id) in
    match by_alias (cb_alias c) (ca_rows s) with
    | Some existing => if decide (cb_id existing = id) then (Ok existing, s) else (Err (conflict existing), s)
    | None =>
        let s := race s in
        if row_taken c (ca_rows s) then
          match GetCalibrationByAlias (cb_alias c) s with
          | Err _ => (Err (ErrCalibrationUnique (cb_alias c)), s)
          | Ok existing => if decide (cb_id existing = id) then (Ok existing, s) else (Err (conflict existing), s)
          end
        else (Ok c, mkCalibrated (ca_db s) (ca_rows s ++ [c]) (ca_attempts s))
    end.

(** [ORDER BY alias]. *)
Definition ListCalibrations (s : Calibrated) : list ProviderCalibration :=
  merge_sort (λ a b, String.le (cb_alias a) (cb_alias b)) (ca_rows s).

(** ** Attempts *)

Definition RecordCalibrationAttempt (a : CalibrationAttempt) : SM Calibrated CalibrationError unit := λ s,
  if decide (at_plan a = "" ∨ at_task a = "") then (Err ErrAttemptArguments, s)
  else if ((at_sequence a <=? 0) || (at_repetition a <=? 0))%Z then (Err ErrAttemptArguments, s)
  else if decide (at_output_sha256 a = "") then (Err ErrCalibrationAttemptNoOutput, s)
  else match db_tasks (ca_db s) !! (at_plan a, at_task a) with
  | None => (Err (ErrAttemptNotOwned (at_plan a) (at_task a)), s)
  | Some t =>
      if negb (bool_decide (t_status t = TaskStatusRunning)) || negb (bool_decide (coalesce (t_claimed_by_session t) = at_session a))
      then (Err (ErrAttemptNotOwned (at_plan a) (at_task a)), s)
      else match ca_attempts s !! at_key a with
      | Some _ => (Err ErrAttemptUnique, s)
      | None => (Ok tt, mkCalibrated (ca_db s) (ca_rows s) (<[at_key a := a]> (ca_attempts s)))
      end
  end.

Definition attempt_le (a b : CalibrationAttempt) : Prop :=
  (at_sequence a < at_sequence b)%Z ∨ (at_sequence a = at_sequence b ∧ (at_repetition a ≤ at_repetition b)%Z).
#[export] Instance attempt_le_dec : RelDecision attempt_le.
Proof. intros a b. unfold attempt_le. apply _. Defined.

(** [ORDER BY attempt_sequence, repetition]. *)
Definition ListCalibrationAttempts (planID taskID : string) (s : Calibrated) : list CalibrationAttempt :=
  merge_sort attempt_le
    (snd <$> filter (λ kv, kv.1.1 = (planID, taskID)) (map_to_list (ca_attempts s))).
End Calibrations.
