(* ===== verification/StoreCalibrationsProps.v ===== *)
(** * Properties of calibrations: measured once, never rewritten *)
From S2P Require Import Prelude GoLib StoreModel StoreSql StoreTasks StoreWorkers Dfs StoreGraph StoreMeta StoreInv StoreSpec StoreTrace StoreCalibrations.
From stdpp Require Import sorting relations.

Section Calibrations.
Context `{CalibrationHash}.

(** ** What writers do to the tables *)

(** Anyone records a calibration or an attempt, or changes the tasks. *)
Inductive cal_step (s : Calibrated) : Calibrated → Prop :=
| cal_record c : cal_step s (RecordCalibration id c s).2
| cal_attempt a : cal_step s (RecordCalibrationAttempt a s).2
| cal_tasks d : cal_step s (mkCalibrated d (ca_rows s) (ca_attempts s)).

Lemma by_alias_find a rows c :
  by_alias a rows = Some c ↔ ∃ before after, rows = before ++ c :: after ∧ cb_alias c = a ∧ ∀ r, r ∈ before → cb_alias r ≠ a.
Proof.
  unfold by_alias. split.
  - intros ([i c'] & Hf & [= ->])%fmap_Some. apply list_find_Some in Hf as (Hl & Ha & Hb).
    exists (take i rows), (drop (S i) rows). split_and!; [by rewrite take_drop_middle|done|].
    intros r (j & Hj)%list_elem_of_lookup. apply lookup_take_Some in Hj as [Hj Hlt]. by apply (Hb j r).
  - intros (before & after & -> & Ha & Hb). apply fmap_Some. exists (length before, c). split; [|done].
    apply list_find_Some. split_and!; [by apply list_lookup_middle|done|].
    intros j y Hy Hlt. rewrite lookup_app_l in Hy by done. apply Hb. by eapply list_elem_of_lookup_2.
Qed.

Lemma by_alias_None a rows : by_alias a rows = None ↔ ∀ r, r ∈ rows → cb_alias r ≠ a.
Proof.
  unfold by_alias. rewrite fmap_None, list_find_None, Forall_forall. done.
Qed.

Lemma by_alias_app a rows new c : by_alias a rows = Some c → by_alias a (rows ++ new) = Some c.
Proof.
  intros (before & after & -> & Ha & Hb)%by_alias_find. apply by_alias_find.
  exists before, (after ++ new). by rewrite <-app_assoc.
Qed.

Lemma by_alias_snoc a rows c : by_alias a rows = None → cb_alias c = a → by_alias a (rows ++ [c]) = Some c.
Proof.
  intros Hn Ha. apply by_alias_find. exists rows, []. split_and!; [done..|]. by apply by_alias_None.
Qed.

Lemma row_taken_spec c rows :
  row_taken c rows = true ↔ ∃ r, r ∈ rows ∧ (cb_id r = cb_id c ∨ cb_alias r = cb_alias c).
Proof.
  unfold row_taken. rewrite existsb_exists. split; intros (r & Hr & Hc); exists r;
    (split; [by apply list_elem_of_In|]); rewrite orb_true_iff, !bool_decide_eq_true in *; done.
Qed.

(** Rows are only ever appended, and never changed. *)
Lemma record_rows race c s :
  ∃ new, ca_rows (RecordCalibration race c s).2 = ca_rows (match by_alias (cb_alias c) (ca_rows s) with
      | None => if decide (cb_alias c = "" ∨ cb_provider c = "" ∨ cb_invocation_hash c = "") then s else race s
      | Some _ => s end) ++ new.
Proof.
  unfold RecordCalibration. destruct (decide _) as [|]; [exists []; rewrite app_nil_r; by destruct (by_alias _ _)|].
  cbn [cb_alias with_id]. destruct (by_alias (cb_alias c) (ca_rows s)) as [e|].
  { exists []. rewrite app_nil_r. by destruct (decide _). }
  cbv zeta. destruct (row_taken _ _).
  - exists []. rewrite app_nil_r. destruct (GetCalibrationByAlias _ _); [by destruct (decide _)|done].
  - by eexists.
Qed.

Lemma cal_step_rows s s' : cal_step s s' → ca_rows s `prefix_of` ca_rows s'.
Proof.
  intros [c|a|d]; [| |done].
  - destruct (record_rows id c s) as [new ->]. exists new. f_equal. by destruct (by_alias _ _); [|destruct (decide _)].
  - exists []. rewrite app_nil_r. unfold RecordCalibrationAttempt. repeat case_match; done.
Qed.

Lemma cal_run_rows s s' : rtc cal_step s s' → ca_rows s `prefix_of` ca_rows s'.
Proof. induction 1 as [|s1 s2 s3 Hs _ IH]; [done|]. etrans; [by apply cal_step_rows|done]. Qed.

Lemma by_alias_kept a rows rows' c : rows `prefix_of` rows' → by_alias a rows = Some c → by_alias a rows' = Some c.
Proof. intros [new ->]. apply by_alias_app. Qed.

(** an alias's calibration is written once. Whatever other writers commit
    before, between the read and the insert, and afterwards: if the alias was
    recorded by then, the call answers with that row when it has the same
    content address and refuses with a conflict when it has not; otherwise the
    row is recorded under its content address; and the alias names that row ever
    after. *)
Theorem calibration_is_write_once race c s out s1 s2 :
  cb_alias c ≠ "" → cb_provider c ≠ "" → cb_invocation_hash c ≠ "" → rtc cal_step s (race s) →
  RecordCalibration race c s = (out, s1) → rtc cal_step s1 s2 →
  let id := contentAddress c in
  match by_alias (cb_alias c) (ca_rows (race s)) with
  | Some e =>
      out = (if decide (cb_id e = id) then Ok e else Err (ErrCalibrationConflict (cb_alias c) (prefix12 (cb_id e)) (prefix12 id))) ∧
      by_alias (cb_alias c) (ca_rows s2) = Some e
  | None =>
      (∀ r, r ∈ ca_rows (race s) → cb_id r ≠ id) →
      out = Ok (with_id id c) ∧ by_alias (cb_alias c) (ca_rows s2) = Some (with_id id c)
  end.
Proof.
  intros Ha Hp Hi Hrace%cal_run_rows Hrec Hrun%cal_run_rows. cbv zeta. unfold RecordCalibration in Hrec.
  rewrite decide_False in Hrec by tauto. cbn [cb_alias with_id] in Hrec. cbv zeta in Hrec.
  destruct (by_alias (cb_alias c) (ca_rows s)) as [e|] eqn:Hs.
  - rewrite (by_alias_kept _ _ _ _ Hrace Hs).
    destruct (decide (cb_id e = contentAddress c)); injection Hrec as <- <-; (split; [done|]);
      exact (by_alias_kept _ _ _ _ Hrun Hs).
  - clear Hs. destruct (by_alias (cb_alias c) (ca_rows (race s))) as [e|] eqn:Hr.
    + assert (row_taken (with_id (contentAddress c) c) (ca_rows (race s)) = true) as Ht.
      { apply by_alias_find in Hr as (before & after & Heq & Hal & _). apply row_taken_spec. exists e.
        split; [rewrite Heq; set_solver|by right]. }
      rewrite Ht in Hrec. unfold GetCalibrationByAlias in Hrec. rewrite Hr in Hrec.
      destruct (decide (cb_id e = contentAddress c)); injection Hrec as <- <-; (split; [done|]);
        exact (by_alias_kept _ _ _ _ Hrun Hr).
    + intros Hfresh. destruct (row_taken _ _) eqn:Ht.
      { exfalso. apply row_taken_spec in Ht as (r & Hin & [Hid|Hal]); [by apply (Hfresh r Hin)|].
        by apply (proj1 (by_alias_None _ _) Hr r Hin). }
      injection Hrec as <- <-. split; [done|]. eapply by_alias_kept; [exact Hrun|]. by apply by_alias_snoc.
Qed.

(** ** Attempts *)

Lemma attempt_kept s s' k a : cal_step s s' → ca_attempts s !! k = Some a → ca_attempts s' !! k = Some a.
Proof.
  intros [c|b|d] Hk; [| |done].
  - unfold RecordCalibration. repeat case_match; done.
  - unfold RecordCalibrationAttempt. repeat case_match; try done. cbn [snd ca_attempts].
    rewrite lookup_insert_ne; [done|]. intros Heq. congruence.
Qed.

Lemma attempts_kept s s' k a : rtc cal_step s s' → ca_attempts s !! k = Some a → ca_attempts s' !! k = Some a.
Proof. induction 1; [done|]. eauto using attempt_kept. Qed.

#[local] Instance attempt_le_total : Total attempt_le.
Proof. intros a b. unfold attempt_le. lia. Qed.
#[local] Instance attempt_le_trans : Transitive attempt_le.
Proof. intros a b c. unfold attempt_le. lia. Qed.

(** attempts are evidence of the session that held the task. An attempt is
    accepted exactly when it is numbered from one, has an output, its task is
    running in the session it names, and its number is not taken; from then on,
    whatever is recorded later, it is never rewritten and the task's listing,
    which is in order of sequence and repetition, has it. *)
Theorem attempts_are_owned_and_kept a s s1 s2 :
  RecordCalibrationAttempt a s = (Ok tt, s1) → rtc cal_step s1 s2 →
  (at_plan a ≠ "" ∧ at_task a ≠ "" ∧ (0 < at_sequence a)%Z ∧ (0 < at_repetition a)%Z ∧ at_output_sha256 a ≠ "" ∧
   (∃ t, db_tasks (ca_db s) !! (at_plan a, at_task a) = Some t ∧ t_status t = TaskStatusRunning ∧
      coalesce (t_claimed_by_session t) = at_session a) ∧
   ca_attempts s !! at_key a = None) ∧
  ca_attempts s2 !! at_key a = Some a ∧
  a ∈ ListCalibrationAttempts (at_plan a) (at_task a) s2 ∧
  StronglySorted attempt_le (ListCalibrationAttempts (at_plan a) (at_task a) s2).
Proof.
  intros Hrec Hrun. unfold RecordCalibrationAttempt in Hrec.
  destruct (decide (at_plan a = "" ∨ at_task a = "")) as [|Hids]; [done|].
  destruct ((at_sequence a <=? 0) || (at_repetition a <=? 0))%Z eqn:Hn; [done|].
  destruct (decide (at_output_sha256 a = "")) as [|Ho]; [done|].
  destruct (db_tasks (ca_db s) !! (at_plan a, at_task a)) as [t|] eqn:Ht; [|done].
  destruct (decide (t_status t = TaskStatusRunning)) as [Hst|Hst];
    [|rewrite (bool_decide_eq_false_2 _ Hst) in Hrec; discriminate Hrec].
  destruct (decide (coalesce (t_claimed_by_session t) = at_session a)) as [Hcl|Hcl];
    [|rewrite (bool_decide_eq_false_2 _ Hcl), orb_true_r in Hrec; discriminate Hrec].
  rewrite (bool_decide_eq_true_2 _ Hst), (bool_decide_eq_true_2 _ Hcl) in Hrec. cbn [negb orb] in Hrec.
  destruct (ca_attempts s !! at_key a) eqn:Hk; [done|]. injection Hrec as <-.
  apply orb_false_iff in Hn as [Hn1%Z.leb_gt Hn2%Z.leb_gt].
  assert (ca_attempts s2 !! at_key a = Some a) as Hkept by (eapply attempts_kept; [exact Hrun|apply lookup_insert_eq]).
  split; [split_and!; [tauto|tauto|done..|by exists t|done]|]. split; [done|]. unfold ListCalibrationAttempts. split.
  - rewrite merge_sort_Permutation. apply list_elem_of_fmap. exists (at_key a, a). split; [done|].
    apply list_elem_of_filter. split; [done|]. by apply elem_of_map_to_list.
  - apply StronglySorted_merge_sort; apply _.
Qed.

(** A calibration differs from another in what is addressed; the address does
    not depend on evidence or capabilities. *)
Lemma address_identity c1 c2 : cb_identity c1 = cb_identity c2 → contentAddress c1 = contentAddress c2.
Proof. unfold contentAddress. by intros ->. Qed.
End Calibrations.

Definition toy_hash : CalibrationHash := {| identity_sha256 := foldr String.append "" |}.
Definition demo_calibration (model : string) : ProviderCalibration :=
  mkCalibration "" "fast" "codex" model "" "" "" "" "h" "" "" "lab" "" "" "".
Definition demo_before : Calibrated := mkCalibrated (empty_db 0) [] ∅.

(** Another writer commits the alias between the read and the insert. *)
Lemma calibration_is_write_once_witness :
  (RecordCalibration (H:=toy_hash) (λ s, (RecordCalibration (H:=toy_hash) id (demo_calibration "m1") s).2) (demo_calibration "m2") demo_before).1 =
  Err (ErrCalibrationConflict "fast" (prefix12 (contentAddress (H:=toy_hash) (demo_calibration "m1"))) (prefix12 (contentAddress (H:=toy_hash) (demo_calibration "m2")))).
Proof.
  set (race := λ s, (RecordCalibration (H:=toy_hash) id (demo_calibration "m1") s).2).
  pose proof (calibration_is_write_once (H:=toy_hash) race (demo_calibration "m2") demo_before _ _ _
    ltac:(discriminate) ltac:(discriminate) ltac:(discriminate) (rtc_once _ _ (cal_record _ _)) (surjective_pairing _) (rtc_refl _ _)) as Hw.
  exact (proj1 Hw).
Defined.

Definition demo_attempt : CalibrationAttempt := mkAttempt "v" "t" 1 1 "fast" "codex" "m" "" "s1" "" "d".
Definition demo_owned_task : Calibrated :=
  mkCalibrated (set_tasks <[("v", "t") := mkTask "build" TaskStatusRunning None None None (Some "s1") None 0 0 None 0 None]> (empty_db 0)) [] ∅.

Lemma attempts_are_owned_and_kept_witness :
  demo_attempt ∈ ListCalibrationAttempts "v" "t" (RecordCalibrationAttempt demo_attempt demo_owned_task).2.
Proof.
  refine (proj1 (proj2 (proj2 (attempts_are_owned_and_kept (H:=toy_hash) demo_attempt demo_owned_task _ _ _ (rtc_refl _ _))))).
  rewrite (surjective_pairing (RecordCalibrationAttempt demo_attempt demo_owned_task)) at 1. f_equal.
Defined.
