(* ===== verification/OrchBinding.v ===== *)
(** * Choosing the binding a step runs on: [internal/orch/orchestrator.go]

    A task's metadata can restrict the providers it may run on, pin a provider
    type and demand independence from the tasks it names; the resolver is asked
    again until a binding fits. *)
From S2P Require Import Prelude GoLib StoreModel StoreSql StoreTasks StoreGraph StoreMeta StoreCalibrations PlanModel Provider CmdResolver.

Definition PinnedProviderType (m : option TaskMetadata) : string :=
  match m with None => "" | Some m => TrimSpace (tb_provider (md_binding m)) end.

Inductive BindingChoiceError :=
| ChoiceResolver (what : string)
| ChoiceNotAllowed (allowed : list string)
| ChoiceNotPinned (type_ : string)
| ChoicePeerNotRun (peer : string)
| ChoicePeerUncalibrated (peer : string)
| ChoiceNotIndependent (allowed peers : list string)
| ChoiceNotConfined (name type_ : string).

Definition maxProviderRotations : nat := 16.

(** [WithBindingResolver]: a project, whether the group is parallel, and the
    purpose; the resolver keeps its own state. *)
Class BindingResolver := {
  ResolverState : Type;
  resolveBinding : string → bool → Purpose → SM ResolverState string Binding }.

(** The loop the three choices share, written once: up to [n] candidates, of
    which the first is given; a name seen twice ends the rotation. *)
Section Rotation.
Context `{BindingResolver} (projectID : string) (parallel : bool).

Fixpoint rotate_until (accept : Binding → bool) (refusal : BindingChoiceError) (n : nat) (seen : gset string) (candidate : Binding)
    : SM ResolverState BindingChoiceError Binding := λ r,
  match n with
  | O => (Err refusal, r)
  | S n' =>
      if accept candidate then (Ok candidate, r)
      else if decide (bd_name candidate ∈ seen) then (Err refusal, r)
      else match resolveBinding projectID parallel BindingDispatch r with
      | (Err e, r') => (Err (ChoiceResolver e), r')
      | (Ok next, r') => rotate_until accept refusal n' ({[bd_name candidate]} ∪ seen) next r'
      end
  end.

Definition allows (allowed : list string) (b : Binding) : bool :=
  match CheckAllowedProviders b allowed with None => true | Some _ => false end.

Definition resolveAllowedBinding (allowed : list string) (first : Binding) : SM ResolverState BindingChoiceError Binding :=
  rotate_until (allows allowed) (ChoiceNotAllowed allowed) (S maxProviderRotations) ∅ first.

(** The type alone decides; the alias is not consulted. *)
Definition resolvePinnedBinding (pinned : string) (first : Binding) : SM ResolverState BindingChoiceError Binding :=
  rotate_until (λ b, bool_decide (bc_type (bd_config b) = pinned)) (ChoiceNotPinned pinned) (S maxProviderRotations) ∅ first.
End Rotation.

(** ** Independence *)

Section Independence.
Context `{BindingResolver} `{InvocationHash}.

(** [""]: the binding is not calibrated, or not as it would now be invoked. *)
Definition bindingDomain (s : Calibrated) (b : Binding) : string :=
  match GetCalibrationByAlias (bd_name b) s with
  | Err _ => ""
  | Ok cal =>
      match ResolveInvocation b zero_request with
      | Err _ => ""
      | Ok invocation =>
          if decide (cb_invocation_hash cal = InvocationConfigHash b (iv_model invocation) (iv_effort invocation))
          then cb_independence_domain cal else ""
      end
  end.

(** What the peers ran on. *)
Fixpoint peer_domains (planID : string) (peers : list string) (s : DB) : result BindingChoiceError (gset string) :=
  match peers with
  | [] => Ok ∅
  | peer :: peers' =>
      match (GetTaskExecutionMetadata planID peer s).1 with
      | Err _ => Err (ChoicePeerNotRun peer)
      | Ok meta =>
          if decide (coalesce (m_assigned_domain meta) = "") then Err (ChoicePeerUncalibrated peer)
          else try domains := peer_domains planID peers' s in
               Ok ({[coalesce (m_assigned_domain meta)]} ∪ domains)
      end
  end.

Definition allowedHere (allowed : list string) (b : Binding) : bool :=
  match allowed with [] => true | _ => allows allowed b end.

Definition independent (s : Calibrated) (allowed : list string) (peerDomains : gset string) (b : Binding) : bool :=
  let domain := bindingDomain s b in
  negb (bool_decide (domain = "")) && allowedHere allowed b && bool_decide (domain ∉ peerDomains).

Definition resolveIndependentBinding (projectID planID : string) (parallel : bool) (s : Calibrated)
    (allowed peers : list string) (first : Binding) : SM ResolverState BindingChoiceError Binding := λ r,
  match peer_domains planID peers (ca_db s) with
  | Err e => (Err e, r)
  | Ok peerDomains =>
      rotate_until projectID parallel (independent s allowed peerDomains) (ChoiceNotIndependent allowed peers)
        (S maxProviderRotations) ∅ first r
  end.
End Independence.

(** ** Containment *)

(** [containmentRootFor]: the project's own setting, where there is a resolver
    of it, decides; else the orchestrator's. *)
Definition containmentRootFor (containmentResolver : option (string → bool)) (containProviderWrites : bool)
    (projectID projectDir : string) : option string :=
  match containmentResolver with
  | Some resolve => if resolve projectID then Some projectDir else None
  | None => if containProviderWrites then Some projectDir else None
  end.

Definition resolveContainment (containmentResolver : option (string → bool)) (containProviderWrites : bool)
    (projectID projectDir : string) (b : Binding) : result BindingChoiceError string :=
  match containmentRootFor containmentResolver containProviderWrites projectID projectDir with
  | None => Ok ""
  | Some root =>
      if BindingSupportsContainment b then Ok root
      else Err (ChoiceNotConfined (bd_name b) (bc_type (bd_config b)))
  end.

(** ** One step's binding

    The choices of [dispatchReadyStep], in its order. *)
Section Choose.
Context `{BindingResolver} `{InvocationHash}.

(** The refusals that put a step off, and whether they are announced with the
    task's id; and the first resolution's own error. *)
Inductive Choice := Chosen (b : Binding) | Refused (named : bool) (e : BindingChoiceError) | Failed (what : string).

Definition choose_binding (containmentResolver : option (string → bool)) (containProviderWrites : bool)
    (projectID projectDir planID : string) (parallel : bool) (step : Step) (s : Calibrated) (r : ResolverState)
    : Choice * ResolverState :=
  let meta := st_metadata step in
  match resolveBinding projectID parallel BindingDispatch r with
  | (Err e, r) => (Failed e, r)
  | (Ok binding, r) =>
      match (match AllowedProviders meta with
             | [] => (Ok binding, r)
             | allowed => resolveAllowedBinding projectID parallel allowed binding r
             end) with
      | (Err e, r) => (Refused false e, r)
      | (Ok binding, r) =>
          match (if decide (PinnedProviderType meta = "") then (Ok binding, r)
                 else resolvePinnedBinding projectID parallel (PinnedProviderType meta) binding r) with
          | (Err e, r) => (Refused false e, r)
          | (Ok binding, r) =>
              match (match IndependencePeers meta with
                     | [] => (Ok binding, r)
                     | peers => resolveIndependentBinding projectID planID parallel s (AllowedProviders meta) peers binding r
                     end) with
              | (Err e, r) => (Refused true e, r)
              | (Ok binding, r) =>
                  match resolveContainment containmentResolver containProviderWrites projectID projectDir binding with
                  | Err e => (Refused true e, r)
                  | Ok _ => (Chosen binding, r)
                  end
              end
          end
      end
  end.
End Choose.
