(* ===== verification/OrchBindingProps.v ===== *)
(** * Properties of the choice of a binding

    What a chosen binding honours and where it does not, and that the rotation finds a fitting pool
    member when there is one. *)
From S2P Require Import Prelude GoLib StoreModel StoreSql StoreTasks StoreGraph StoreMeta StoreInv StoreSpec StoreTrace StoreCalibrations PlanModel Provider ProviderProps CmdResolver OrchBinding.

(** ** The rotation *)

Section Rotation.
Context `{BindingResolver} (projectID : string) (parallel : bool).

(** Consecutive dispatch resolutions, all of which answered. *)
Inductive served : ResolverState → list Binding → ResolverState → Prop :=
| served_nil r : served r [] r
| served_cons r r1 r2 b bs :
    resolveBinding projectID parallel BindingDispatch r = (Ok b, r1) → served r1 bs r2 → served r (b :: bs) r2.

Lemma rotate_sound accept refusal n seen first r b r' :
  rotate_until projectID parallel accept refusal n seen first r = (Ok b, r') → accept b = true.
Proof.
  revert seen first r. induction n as [|n IH]; intros seen first r; simpl; [done|].
  destruct (accept first) eqn:Ha; [by intros [= <- _]|]. destruct (decide _); [done|].
  destruct (resolveBinding projectID parallel BindingDispatch r) as [[next|e] r1]; [apply IH|done].
Qed.

(** The first acceptable candidate before a repeated name is the one chosen. *)
Lemma rotate_finds accept refusal n seen first bs r r2 i b :
  served r bs r2 → (first :: bs) !! i = Some b → accept b = true →
  (∀ j c, j < i → (first :: bs) !! j = Some c → accept c = false) →
  NoDup (bd_name <$> take i (first :: bs)) → (∀ c, c ∈ take i (first :: bs) → bd_name c ∉ seen) → i < n →
  ∃ r', rotate_until projectID parallel accept refusal n seen first r = (Ok b, r').
Proof.
  intros Hs. revert n seen first i. induction Hs as [r|r r1 r2 b1 bs Hr Hs IH]; intros n seen first i Hi Ha Hb Hnd Hseen Hn.
  - destruct i as [|i]; [|done]. injection Hi as ->. destruct n; [lia|]. exists r. simpl. by rewrite Ha.
  - destruct n as [|n]; [lia|]. destruct i as [|i]; [injection Hi as ->; exists r; simpl; by rewrite Ha|].
    simpl. rewrite (Hb 0 first) by (done || lia). rewrite decide_False by (apply Hseen; simpl; by left).
    rewrite Hr. simpl in Hnd. apply NoDup_cons in Hnd as [Hnew Hnd].
    apply (IH n ({[bd_name first]} ∪ seen) b1 i Hi Ha); [|done| |lia].
    + intros j c Hj Hc. apply (Hb (S j)); [lia|done].
    + intros c Hc. assert (bd_name c ≠ bd_name first).
      { intros He. apply Hnew. rewrite <-He. by apply list_elem_of_fmap_2. }
      specialize (Hseen c). simpl in Hseen. set_solver.
Qed.

Lemma rotate_result accept refusal n seen first bs r r2 b r' :
  served r bs r2 → n ≤ length bs →
  rotate_until projectID parallel accept refusal n seen first r = (Ok b, r') → b ∈ first :: bs.
Proof.
  intros Hs. revert n seen first. induction Hs as [r|r r1 r2 b1 bs Hr Hs IH]; intros n seen first Hn; simpl in Hn.
  - by assert (n = 0) as -> by lia.
  - destruct n as [|n]; [done|]. simpl. destruct (accept first); [intros [= -> _]; by left|].
    destruct (decide _); [done|]. rewrite Hr. intros Hrot. right. eapply IH; [|done]. lia.
Qed.

(** When nothing served is acceptable, the rotation ends with its refusal. *)
Lemma rotate_refuses accept refusal n seen first bs r r2 :
  served r bs r2 → n ≤ length bs → (∀ b, b ∈ first :: bs → accept b = false) →
  ∃ r', rotate_until projectID parallel accept refusal n seen first r = (Err refusal, r').
Proof.
  intros Hs. revert n seen first. induction Hs as [r|r r1 r2 b1 bs Hr Hs IH]; intros n seen first Hn Hb; simpl in Hn.
  - assert (n = 0) as -> by lia. by exists r.
  - destruct n as [|n]; [by exists r|]. simpl. rewrite Hb by (by left). destruct (decide _); [by eexists|].
    rewrite Hr. apply IH; [lia|]. intros b Hin. apply Hb. by right.
Qed.
End Rotation.

Section Sound.
Context `{BindingResolver} `{InvocationHash}.

Lemma peer_domains_spec planID peers s :
  match peer_domains planID peers s with
  | Ok domains => (∀ d, d ∈ domains ↔ ∃ peer meta, peer ∈ peers ∧ db_metadata s !! (planID, peer) = Some meta ∧
                          coalesce (m_assigned_domain meta) = d) ∧ "" ∉ domains ∧
                  ∀ peer, peer ∈ peers → is_Some (db_metadata s !! (planID, peer))
  | Err _ => ∃ peer, peer ∈ peers ∧
               ∀ meta, db_metadata s !! (planID, peer) = Some meta → coalesce (m_assigned_domain meta) = ""
  end.
Proof.
  induction peers as [|peer peers IH]; simpl; [set_solver|]. unfold GetTaskExecutionMetadata.
  destruct (db_metadata s !! (planID, peer)) as [meta|] eqn:Hm; simpl; [|exists peer; split; [by left|congruence]].
  destruct (decide (coalesce (m_assigned_domain meta) = "")) as [Hd|Hd].
  { exists peer. split; [by left|congruence]. }
  destruct (peer_domains planID peers s) as [domains|e]; simpl.
  - destruct IH as (Hiff & Hne & Hall). split_and!.
    + intros d. rewrite elem_of_union, elem_of_singleton, Hiff. split.
      * intros [->|(p & m & Hp & Hm' & <-)]; [by exists peer, meta; split; [left|]|by exists p, m; split; [right|]].
      * intros (p & m & [->|Hp]%elem_of_cons & Hm' & <-); [left; congruence|right; by exists p, m].
    + set_solver.
    + intros p [->|Hp]%elem_of_cons; [by eexists|by apply Hall].
  - destruct IH as (p & Hp & Hm'). exists p. split; [by right|done].
Qed.
End Sound.

(** ** The restrictions of a step

    Each as the step declares it, and nothing if it declares none. *)
Section Restrictions.
Context `{InvocationHash}.

Definition within_providers (meta : option TaskMetadata) (b : Binding) : Prop :=
  AllowedProviders meta ≠ [] → CheckAllowedProviders b (AllowedProviders meta) = None.
Definition of_pinned_type (meta : option TaskMetadata) (b : Binding) : Prop :=
  PinnedProviderType meta ≠ "" → bc_type (bd_config b) = PinnedProviderType meta.
(** Every named peer ran in a recorded domain, and the binding has a calibrated one
    that is none of theirs. *)
Definition independent_of_peers (planID : string) (meta : option TaskMetadata) (s : Calibrated) (b : Binding) : Prop :=
  IndependencePeers meta ≠ [] →
  bindingDomain s b ≠ "" ∧
  ∀ peer, peer ∈ IndependencePeers meta → ∃ m, db_metadata (ca_db s) !! (planID, peer) = Some m ∧
    coalesce (m_assigned_domain m) ≠ "" ∧ coalesce (m_assigned_domain m) ≠ bindingDomain s b.
Definition confinable (root : option string) (b : Binding) : Prop := root ≠ None → BindingSupportsContainment b = true.

Lemma allowedHere_true meta b : allowedHere (AllowedProviders meta) b = true ↔ within_providers meta b.
Proof.
  unfold allowedHere, allows, within_providers. destruct (AllowedProviders meta) as [|x l]; [naive_solver|].
  destruct (CheckAllowedProviders b (x :: l)); naive_solver.
Qed.

Lemma resolveContainment_ok resolver confine projectID projectDir b :
  (∃ root, resolveContainment resolver confine projectID projectDir b = Ok root) ↔
  confinable (containmentRootFor resolver confine projectID projectDir) b.
Proof.
  unfold resolveContainment, confinable. destruct (containmentRootFor _ _ _ _) as [root|]; [|naive_solver].
  destruct (BindingSupportsContainment b); naive_solver.
Qed.

Lemma independent_true planID meta s domains b :
  IndependencePeers meta ≠ [] → peer_domains planID (IndependencePeers meta) (ca_db s) = Ok domains →
  independent s (AllowedProviders meta) domains b = true ↔ within_providers meta b ∧ independent_of_peers planID meta s b.
Proof.
  intros Hne Hd. pose proof (peer_domains_spec planID (IndependencePeers meta) (ca_db s)) as Hp. rewrite Hd in Hp.
  destruct Hp as (Hiff & Hempty & Hall). unfold independent, independent_of_peers.
  rewrite !andb_true_iff, negb_true_iff, bool_decide_eq_false, bool_decide_eq_true, allowedHere_true. split.
  - intros [[Hdom Hal] Hnd]. split; [done|]. intros _. split; [done|]. intros p Hin. destruct (Hall p Hin) as [m Hm]. exists m. split; [done|].
    assert (coalesce (m_assigned_domain m) ∈ domains) as Hdm by (apply Hiff; by exists p, m).
    split; intros He; by rewrite He in Hdm.
  - intros [Hal Hi]. destruct (Hi Hne) as [Hdom Hpeers]. split_and!; [done..|]. intros (p & m & Hp & Hm & He)%Hiff.
    destruct (Hpeers p Hp) as (m' & Hm' & _ & Hno). congruence.
Qed.

Lemma peer_domains_known planID meta s b :
  IndependencePeers meta ≠ [] → independent_of_peers planID meta s b → ∃ domains, peer_domains planID (IndependencePeers meta) (ca_db s) = Ok domains.
Proof.
  intros Hne Hi. pose proof (peer_domains_spec planID (IndependencePeers meta) (ca_db s)) as Hp.
  destruct (peer_domains _ _ _) as [domains|e]; [by eexists|]. destruct Hp as (p & Hp & Hno).
  destruct (Hi Hne) as [_ Hpeers]. destruct (Hpeers p Hp) as (m & Hm & Hd & _). by rewrite (Hno m Hm) in Hd.
Qed.
End Restrictions.

Lemma rotate_keeps `{BindingResolver} projectID parallel accept refusal n b r :
  accept b = true → rotate_until projectID parallel accept refusal (S n) ∅ b r = (Ok b, r).
Proof. simpl. by intros ->. Qed.

(** C39: what a chosen binding is known to honour. A project that confines its writes
    gets only a provider that can be confined; a step that names peers only a
    binding whose calibrated domain is none of the recorded domains of the peers,
    all of which are recorded; a step that restricts its providers one of these,
    when it pins no type or names peers; and a step that pins a type a provider of
    that type, when it names no peers. The two exceptions are gaps of the code,
    which decides each restriction on its own rotation: a pinned type is looked for
    outside the providers, and peers' independence outside the pinned type. The
    first binding resolved, when it honours all four, is the one chosen. *)
Theorem chosen_binding_honours `{BindingResolver} `{InvocationHash}
    resolver confine projectID projectDir planID parallel step s r :
  let meta := st_metadata step in
  let root := containmentRootFor resolver confine projectID projectDir in
  let choice := choose_binding resolver confine projectID projectDir planID parallel step s r in
  (∀ b r', choice = (Chosen b, r') →
     confinable root b ∧ independent_of_peers planID meta s b ∧
     (PinnedProviderType meta = "" ∨ IndependencePeers meta ≠ [] → within_providers meta b) ∧
     (IndependencePeers meta = [] → of_pinned_type meta b)) ∧
  (∀ b r', resolveBinding projectID parallel BindingDispatch r = (Ok b, r') →
     confinable root b → independent_of_peers planID meta s b → within_providers meta b → of_pinned_type meta b →
     choice = (Chosen b, r')).
Proof.
  cbv zeta. unfold choose_binding. set (meta := st_metadata step). split.
  - intros b r'. destruct (resolveBinding projectID parallel BindingDispatch r) as [[b0|] r0]; [|done].
    destruct (match AllowedProviders meta with [] => _ | _ => _ end) as [[b1|] r1] eqn:Ha; [|done].
    destruct (if decide (PinnedProviderType meta = "") then _ else _) as [[b2|] r2] eqn:Hp; [|done].
    destruct (match IndependencePeers meta with [] => _ | _ => _ end) as [[b3|] r3] eqn:Hi; [|done].
    destruct (resolveContainment _ _ _ _ b3) as [root|] eqn:Hc; [|done]. intros [= -> ->].
    split; [apply resolveContainment_ok; by exists root|].
    assert (within_providers meta b1) as Hallow.
    { unfold within_providers. destruct (AllowedProviders meta); [done|]. intros _. apply rotate_sound in Ha. unfold allows in Ha.
      by destruct (CheckAllowedProviders _ _). }
    assert (of_pinned_type meta b2 ∧ (PinnedProviderType meta = "" → b2 = b1)) as [Hpin Hsame].
    { destruct (decide (PinnedProviderType meta = "")) as [He|He]; [injection Hp as -> _; split; [by intros Hn|done]|]. apply rotate_sound, bool_decide_eq_true in Hp. split; [by intros _|done]. }
    destruct (IndependencePeers meta) as [|peer peers] eqn:Hpeers.
    + injection Hi as -> _. split; [unfold independent_of_peers; by rewrite Hpeers|]. split; [|done]. intros [He|He]; [by rewrite Hsame|done].
    + unfold resolveIndependentBinding in Hi. rewrite <-Hpeers in Hi. destruct (peer_domains planID (IndependencePeers meta) (ca_db s)) as [domains|] eqn:Hd; [|done].
      apply rotate_sound, (independent_true planID) in Hi as [? ?]; [done|by rewrite Hpeers|done].
  - intros b r' -> Hconf Hind Hwithin Hpin.
    assert ((match AllowedProviders meta with [] => (Ok b, r') | allowed => resolveAllowedBinding projectID parallel allowed b r' end) = (Ok b, r')) as ->.
    { apply allowedHere_true in Hwithin. destruct (AllowedProviders meta); [done|]. by apply rotate_keeps. }
    assert ((if decide (PinnedProviderType meta = "") then (Ok b, r') else resolvePinnedBinding projectID parallel (PinnedProviderType meta) b r') = (Ok b, r')) as ->.
    { destruct (decide _) as [|He]; [done|]. apply rotate_keeps, bool_decide_eq_true, Hpin, He. }
    assert ((match IndependencePeers meta with [] => (Ok b, r') | peers =>
      resolveIndependentBinding projectID planID parallel s (AllowedProviders meta) peers b r' end) = (Ok b, r')) as ->.
    { destruct (decide (IndependencePeers meta = [])) as [Hnil|Hne]; [by rewrite Hnil|].
      destruct (peer_domains_known planID meta s b Hne Hind) as [domains Hd]. unfold resolveIndependentBinding.
      destruct (IndependencePeers meta) as [|peer peers] eqn:Hpeers; [done|]. rewrite Hd. apply rotate_keeps.
      rewrite <-Hpeers in Hd, Hne. by apply (independent_true planID). }
    apply resolveContainment_ok in Hconf as [root ->]. done.
Qed.

(** ** Over the project's provider pool *)

Section Pool.
Context `{MapRange} `{Durations} (now : Z) (l : Layers) (error_text : SelectError → string).

(** The resolver the program is given: [storeBindingResolver] of [cmd]. *)
Definition pool_resolver : BindingResolver := {|
  ResolverState := Resolver;
  resolveBinding projectID _ purpose r :=
    match storeBindingResolver now l projectID purpose r with
    | (Ok b, r') => (Ok b, r')
    | (Err e, r') => (Err (error_text e), r')
    end |}.
#[local] Existing Instance pool_resolver.

Lemma resolutions_served projectID parallel m r bs r' :
  resolutions now l projectID (repeat BindingDispatch m) r = (Ok <$> bs, r') → served projectID parallel r bs r'.
Proof.
  revert r bs. induction m as [|m IH]; intros r bs; cbn [repeat resolutions].
  { intros [= Hbs ->]. destruct bs; [constructor|done]. }
  destruct (storeBindingResolver now l projectID BindingDispatch r) as [b r1] eqn:Hb.
  destruct (resolutions now l projectID (repeat BindingDispatch m) r1) as [bs' r2] eqn:Hr.
  intros [= Hbs ->]. destruct bs as [|b0 bs]; [done|]. injection Hbs as -> ->.
  econstructor; [simpl; by rewrite Hb|]. by apply IH.
Qed.

(** A round of the pool: each member's binding, in rotation order. *)
Definition fits (names : list string) (accept : Binding → bool) (n : string) : Prop :=
  ∃ b, resolved_binding l n (1 <? length names) = Ok b ∧ accept b = true.

Lemma served_names names m r bs r' projectID k :
  resolveProviderNames l = Ok names → names ≠ [] → Active now (rv_cooldowns r) = ∅ →
  cursor r projectID = k → (0 ≤ k)%Z → (k + Z.of_nat m < 2 ^ 64)%Z →
  resolutions now l projectID (repeat BindingDispatch m) r = (Ok <$> bs, r') →
  Forall (λ b, resolved_binding l (bd_name b) (1 <? length names) = Ok b) bs.
Proof.
  intros Hn Hne. revert r k bs. induction m as [|m IH]; intros r k bs Ha Hc Hk Hm; cbn [repeat resolutions].
  { intros [= Hbs ->]. by destruct bs. }
  rewrite (resolver_step now l projectID BindingDispatch r names Hn Hne Ha).
  destruct (resolutions now l projectID (repeat BindingDispatch m) (advance projectID BindingDispatch r)) as [bs' r2] eqn:Hr.
  intros [= Hbs ->]. destruct bs as [|b bs]; [done|]. injection Hbs as Hb ->. constructor.
  - pose proof Hb as Hname. apply resolved_binding_ok in Hname as (Hname & _). unfold or_else in Hname.
    rewrite decide_False in Hname; [by rewrite Hname|].
    pose proof (proj1 (Forall_forall _ _) (resolveProviderNames_nonempty _ _ Hn)) as Hnm. by apply Hnm, pick_elem.
  - apply (IH (advance projectID BindingDispatch r) (k + 1)%Z); [done|apply advance_cursor; [done|lia]|lia|lia|done].
Qed.

(** The candidates of a rotation over the pool: the first round of them is the
    pool, rotated. *)
Lemma pool_candidates projectID parallel names r first r1 :
  resolveProviderNames l = Ok names → names ≠ [] → length names ≤ S maxProviderRotations →
  Active now (rv_cooldowns r) = ∅ → (0 ≤ cursor r projectID)%Z → (cursor r projectID + 18 < 2 ^ 64)%Z →
  (∀ n, n ∈ names → ∃ b, resolved_binding l n (1 <? length names) = Ok b) →
  storeBindingResolver now l projectID BindingDispatch r = (Ok first, r1) →
  ∃ bs r2, served projectID parallel r1 bs r2 ∧ length bs = S maxProviderRotations ∧
    Forall (λ b, bd_name b ∈ names ∧ resolved_binding l (bd_name b) (1 <? length names) = Ok b) (first :: bs) ∧
    take (length names) (bd_name <$> first :: bs) ≡ₚ names.
Proof.
  intros Hn Hne Hlen Ha Hk Hm Hall Hfirst.
  destruct (dispatches_pick now l projectID names 18 r (cursor r projectID)) as (cs & r' & Hr & Hcs & _); [done..|].
  pose proof (served_names names 18 r cs r' projectID _ Hn Hne Ha eq_refl Hk Hm Hr) as Hres.
  apply (resolutions_served _ parallel) in Hr. inversion Hr as [|? r1' ? b bs Hb Hs]; subst; [by apply (f_equal length) in Hcs|].
  simpl in Hb. rewrite Hfirst in Hb. injection Hb as <- <-. exists bs, r'. split; [done|].
  pose proof Hcs as Hl. apply (f_equal length) in Hl. rewrite length_fmap in Hl. simpl in Hl. split; [unfold maxProviderRotations; lia|]. split.
  - apply Forall_forall. intros b Hb. split; [|by apply (proj1 (Forall_forall _ _) Hres)].
    apply (list_elem_of_fmap_2 bd_name) in Hb. rewrite Hcs in Hb. apply list_elem_of_fmap in Hb as (i & -> & _). by apply pick_elem.
  - rewrite Hcs, <-fmap_take, take_seq, Nat.min_l by (unfold maxProviderRotations in Hlen; lia).
    rewrite picks_rotation by done. apply rotation_perm.
Qed.
End Pool.

(** a step is refused for its restriction only when no provider of the
    project's pool satisfies it. For a pool of at most seventeen distinct
    providers, none of them cooling down, the rotation that starts from the
    dispatch resolver's next binding ends on the binding of a pool member that
    is acceptable, if there is one, whatever the cursor, and refuses otherwise. *)
Theorem rotation_is_complete `{MapRange} `{Durations} now l error_text projectID parallel accept refusal names r first r1 :
  resolveProviderNames l = Ok names → NoDup names → names ≠ [] → length names ≤ S maxProviderRotations →
  Active now (rv_cooldowns r) = ∅ → (0 ≤ cursor r projectID)%Z → (cursor r projectID + 18 < 2 ^ 64)%Z →
  (∀ n, n ∈ names → ∃ b, resolved_binding l n (1 <? length names) = Ok b) →
  storeBindingResolver now l projectID BindingDispatch r = (Ok first, r1) →
  match (rotate_until (H:=pool_resolver now l error_text) projectID parallel accept refusal (S maxProviderRotations) ∅ first r1).1 with
  | Ok b => accept b = true ∧ bd_name b ∈ names ∧ resolved_binding l (bd_name b) (1 <? length names) = Ok b
  | Err e => e = refusal ∧ ∀ n, n ∈ names → ¬ fits l names accept n
  end.
Proof.
  intros Hn Hnd Hne Hlen Ha Hk Hm Hall Hfirst.
  destruct (pool_candidates now l error_text projectID parallel names r first r1) as (bs & r2 & Hs & Hl & Hres & Hperm); [done..|].
  destruct (list_find (λ b, accept b = true) (first :: bs)) as [[i b]|] eqn:Hf.
  - apply list_find_Some in Hf as (Hi & Hacc & Hbefore).
    assert (∀ n, n ∈ names → ∃ j c, j < length names ∧ (first :: bs) !! j = Some c ∧ bd_name c = n) as Hround.
    { intros n Hin. rewrite <-Hperm in Hin. apply list_elem_of_lookup in Hin as [j Hj].
      apply lookup_take_Some in Hj as [Hj Hlt]. apply list_lookup_fmap_Some in Hj as (c & -> & Hj). by exists j, c. }
    assert (i < length names) as Hilt.
    { pose proof (proj1 (Forall_lookup _ _) Hres i b Hi) as [Hin Hrb]. destruct (Hround _ Hin) as (j & c & Hj & Hc & Hcb).
      destruct (decide (j < i)) as [Hji|]; [|lia]. exfalso. apply (Hbefore j c Hc Hji).
      pose proof (proj1 (Forall_lookup _ _) Hres j c Hc) as [_ Hrc]. rewrite Hcb, Hrb in Hrc. by injection Hrc as <-. }
    destruct (rotate_finds (H:=pool_resolver now l error_text) projectID parallel accept refusal (S maxProviderRotations) ∅ first bs r1 r2 i b)
      as [r' Hrot]; [done..| | | |lia|].
    + intros j c Hj Hc. apply not_true_is_false. by apply (Hbefore j c).
    + rewrite fmap_take. apply (sublist_NoDup _ (take (length names) (bd_name <$> first :: bs))); [by rewrite Hperm|].
      replace (take i (bd_name <$> first :: bs)) with (take i (take (length names) (bd_name <$> first :: bs)))
        by (rewrite take_take; f_equal; lia). apply sublist_take.
    + set_solver.
    + rewrite Hrot. simpl. split; [done|]. by apply (proj1 (Forall_lookup _ _) Hres i).
  - apply list_find_None in Hf.
    destruct (rotate_refuses (H:=pool_resolver now l error_text) projectID parallel accept refusal (S maxProviderRotations) ∅ first bs r1 r2)
      as [r' Hrot]; [done|lia| |].
    + intros b Hb. apply not_true_is_false. by apply (proj1 (Forall_forall _ _) Hf).
    + rewrite Hrot. simpl. split; [done|]. intros n Hin (b & Hb & Hacc).
      rewrite <-Hperm in Hin. apply (subseteq_take (length names) (bd_name <$> first :: bs)) in Hin.
      apply list_elem_of_fmap in Hin as (c & -> & Hc). apply (proj1 (Forall_forall _ _) Hf c Hc).
      pose proof (proj1 (Forall_forall _ _) Hres c Hc) as [_ Hrc]. rewrite Hb in Hrc. by injection Hrc as <-.
Qed.

(** ** On a concrete pool *)

#[local] Notation demo_pool := (@pool_resolver list_range toy_durations 0 demo_layers (λ _, "unresolved")).
Definition toy_invocation_hash : InvocationHash := {| InvocationConfigHash b model effort := bd_name b +:+ ":" +:+ model +:+ ":" +:+ effort |}.

(** [opencode] is calibrated as it would be invoked; the task [peer] ran
    somewhere else. *)
Definition demo_invocation_hash : string :=
  match @resolved_binding toy_durations demo_layers "opencode" true with
  | Ok b => match ResolveInvocation b zero_request with
            | Ok i => @InvocationConfigHash toy_invocation_hash b (iv_model i) (iv_effort i)
            | Err _ => ""
            end
  | Err _ => ""
  end.
Definition demo_calibrated : Calibrated := mkCalibrated
  (set_metadata <[("p", "peer") := bind_execution "claude" "claude" "m" "" "lab-a" "s" (mkTaskMeta "" "" "" None None None None None None None None None None None)]> (empty_db 0))
  [mkCalibration "c1" "opencode" "opencode" "" "" "" "" "" demo_invocation_hash "" "" "lab-b" "" "" ""] ∅.

Definition restricted_step (providers : list string) (pin : string) (peers : list string) : Step :=
  mkStep "work" "" false
    (Some (mkTaskMetadata "w" None "" (mkTaskBinding "" "" pin "" "" "" 0 "") [] providers peers [] [])).
Definition demo_choice (step : Step) (r : Resolver) : Choice :=
  (@choose_binding demo_pool toy_invocation_hash None true "p" "/proj" "p" false step demo_calibrated r).1.

Definition is_opencode (b : Binding) : bool := bool_decide (bd_name b = "opencode").
Definition demo_first : result SelectError Binding * Resolver :=
  storeBindingResolver (H:=list_range) (H0:=toy_durations) 0 demo_layers "p" BindingDispatch (mkResolver ∅ ∅).
Definition demo_rotation (first : Binding) : result BindingChoiceError Binding :=
  (@rotate_until demo_pool "p" false is_opencode (ChoiceNotPinned "opencode") (S maxProviderRotations) ∅ first demo_first.2).1.

Lemma demo_resolved n : n ∈ ["codex"; "opencode"] → ∃ b, resolved_binding (H0:=toy_durations) demo_layers n (1 <? 2) = Ok b.
Proof. intros [->|[->|[]%elem_of_nil]%elem_of_cons]%elem_of_cons; eexists; vm_compute; reflexivity. Qed.

Lemma rotation_is_complete_witness : ∃ first b, demo_first.1 = Ok first ∧ demo_rotation first = Ok b ∧ bd_name b = "opencode".
Proof.
  assert (∃ first, demo_first.1 = Ok first) as [first Hf] by (eexists; vm_compute; reflexivity). exists first.
  assert (fits (H0:=toy_durations) demo_layers ["codex"; "opencode"] is_opencode "opencode") as Hfits
    by (eexists; split; vm_compute; reflexivity).
  pose proof (@rotation_is_complete list_range toy_durations 0 demo_layers (λ _, "unresolved") "p" false
    is_opencode (ChoiceNotPinned "opencode") ["codex"; "opencode"] (mkResolver ∅ ∅) first demo_first.2 demo_names) as Hc.
  fold (demo_rotation first) in Hc. destruct (demo_rotation first) as [b|e].
  - exists b. destruct Hc as [Hacc _]; [|done|vm_compute; lia|vm_compute; reflexivity|done|done|exact demo_resolved| |].
    + apply NoDup_cons. split; [set_solver|]. apply NoDup_singleton.
    + change (demo_first = (Ok first, demo_first.2)). rewrite <-Hf. apply surjective_pairing.
    + split_and!; [done..|]. by apply bool_decide_eq_true in Hacc.
  - exfalso. destruct Hc as [_ Hnone]; [|done|vm_compute; lia|vm_compute; reflexivity|done|done|exact demo_resolved| |].
    + apply NoDup_cons. split; [set_solver|]. apply NoDup_singleton.
    + change (demo_first = (Ok first, demo_first.2)). rewrite <-Hf. apply surjective_pairing.
    + apply (Hnone "opencode"); [set_solver|done].
Defined.

Lemma chosen_binding_honours_witness :
  ∃ b, demo_choice (restricted_step [] "" ["peer"]) (mkResolver ∅ ∅) = Chosen b ∧ bd_name b = "opencode" ∧
       @bindingDomain toy_invocation_hash demo_calibrated b ≠ "".
Proof.
  destruct (@choose_binding demo_pool toy_invocation_hash None true "p" "/proj" "p" false
              (restricted_step [] "" ["peer"]) demo_calibrated (mkResolver ∅ ∅)) as [[b|named e|e] r'] eqn:E; [|by vm_compute in E..].
  destruct (@chosen_binding_honours demo_pool toy_invocation_hash None true "p" "/proj" "p" false
              (restricted_step [] "" ["peer"]) demo_calibrated (mkResolver ∅ ∅)) as [Hh _].
  destruct (Hh _ _ E) as (_ & Hind & _). destruct Hind as [Hd _]; [done|].
  exists b. unfold demo_choice. rewrite E. split; [done|]. split; [by vm_compute in E; injection E as <- _|exact Hd].
Defined.

(** Two restrictions a later choice drops: a provider restriction, when the task
    also pins a type; a pinned type, when the task also names peers. *)
Example pin_drops_the_restriction :
  match demo_choice (restricted_step ["codex"] "opencode" []) (mkResolver ∅ ∅) with
  | Chosen b => CheckAllowedProviders b ["codex"] ≠ None
  | _ => False
  end.
Proof. by vm_compute. Qed.

Example independence_drops_the_pin :
  match demo_choice (restricted_step [] "codex" ["peer"]) (mkResolver ∅ ∅) with
  | Chosen b => bc_type (bd_config b) ≠ "codex"
  | _ => False
  end.
Proof. by vm_compute. Qed.
