(* ===== verification/OrchDispatch.v ===== *)
(** * The dispatch pass: [internal/orch/orchestrator.go]

    From a plan's ready wave to launched turns: the gates of a step, the slot and
    the spend reservation a launch holds, the claim, and the fan-out of a whole
    group to one worker. A launched turn is a [Flight]; what becomes of it is
    [OrchTurn]. *)
From S2P Require Import Prelude GoLib StoreModel StoreSql StoreTasks StoreWorkers StoreGraph StoreMeta StoreProjects StoreCalibrations PlanModel PlanImport PlanParse Provider CmdResolver OrchSpend OrchPaths OrchVerify OrchBinding.

(** A goroutine that runs a provider turn, by what it holds. *)
Record Flight := mkFlight {
  ft_project : string; ft_plan : string; ft_session : string; ft_worker : string;
  ft_tasks : list string; ft_binding : Binding }.

(** The texts the program prints of its errors, for events. *)
Class Texts `{CostOps} := {
  choice_text : BindingChoiceError → string;
  spend_text : SpendError → string;
  decl_text : DeclError → string;
  capability_text : CapabilityError → string }.

Inductive DispatchError :=
| DispatchStore (e : StoreError)
| DispatchNoSource (planID : string)
| DispatchParse (e : MetaError)
| DispatchWave (e : WaveError)
| DispatchResolve (what : string)
| DispatchPaths (e : DeclError)
| DispatchCapability (e : CapabilityError)
| DispatchBindingChanged
| DispatchFuel.

(** [WithMaxParallel], zero or less for no bound; and the two ways containment
    is configured. *)
Record Config := mkConfig {
  cf_max_parallel : Z; cf_containment : option (string → bool); cf_confine : bool }.

Section Dispatch.
Context `{SqlEngine} `{PlanCodec} `{BindingCodec} `{Json} `{Markdown} `{FileSystem} `{CostOps} `{!Texts}
  `{BindingResolver} `{InvocationHash}.

(** The identifiers the generator gives, in order, and the start time written
    for a session. *)
Context (uuid : nat → string) (start_time : string) (cf : Config).

(** ** State *)

Record Orch := mkOrch {
  oc_cal : Calibrated; oc_spending : Spending; oc_resolver : ResolverState;
  oc_slots : nat; oc_saturated : gset string; oc_uuids : nat; oc_flights : list Flight }.

Definition oc_db (o : Orch) : DB := ca_db (oc_cal o).
Definition set_db (s : DB) (o : Orch) : Orch :=
  mkOrch (mkCalibrated s (ca_rows (oc_cal o)) (ca_attempts (oc_cal o))) (oc_spending o) (oc_resolver o)
    (oc_slots o) (oc_saturated o) (oc_uuids o) (oc_flights o).
Definition set_spending (sp : Spending) (o : Orch) : Orch :=
  mkOrch (oc_cal o) sp (oc_resolver o) (oc_slots o) (oc_saturated o) (oc_uuids o) (oc_flights o).
Definition set_resolver (r : ResolverState) (o : Orch) : Orch :=
  mkOrch (oc_cal o) (oc_spending o) r (oc_slots o) (oc_saturated o) (oc_uuids o) (oc_flights o).
Definition set_slots (n : nat) (sat : gset string) (o : Orch) : Orch :=
  mkOrch (oc_cal o) (oc_spending o) (oc_resolver o) n sat (oc_uuids o) (oc_flights o).
Definition next_uuid (o : Orch) : Orch :=
  mkOrch (oc_cal o) (oc_spending o) (oc_resolver o) (oc_slots o) (oc_saturated o) (S (oc_uuids o)) (oc_flights o).
Definition launch (f : Flight) (o : Orch) : Orch :=
  mkOrch (oc_cal o) (oc_spending o) (oc_resolver o) (oc_slots o) (oc_saturated o) (oc_uuids o) (f :: oc_flights o).

Abbreviation Pass := (SM Orch DispatchError).

Definition run_store {A} (m : Store A) : SM Orch StoreError A := λ o,
  let '(r, s') := m (oc_db o) in (r, set_db s' o).
Definition on_store {A} (m : Store A) : Pass A := λ o,
  match run_store m o with (Ok a, o') => (Ok a, o') | (Err e, o') => (Err (DispatchStore e), o') end.

(** [_ = o.store.Emit(...)]: its error is dropped. *)
Definition emit (e : Event) (o : Orch) : Orch := (run_store (insert_event e) o).2.

Definition orc_event (projectID planID : string) (taskID : option string) (kind reason : string) : Event :=
  mkEvent (Some projectID) (Some planID) taskID kind (Some "service") None (PayloadStruct (reason_payload reason)).
Definition refuse (projectID planID : string) (taskID : option string) (reason : string) (o : Orch) : Orch :=
  emit (orc_event projectID planID taskID "worker.admission_refused" reason) o.

(** ** Slots *)

Definition bounded : bool := (0 <? cf_max_parallel cf)%Z.

Definition acquireDispatchSlot (o : Orch) : bool * Orch :=
  if negb bounded then (true, o)
  else if (Z.of_nat (oc_slots o) <? cf_max_parallel cf)%Z
  then (true, set_slots (S (oc_slots o)) (oc_saturated o) o) else (false, o).

(** The receive would block on an empty channel. *)
Definition releaseDispatchSlot (o : Orch) : Orch :=
  if negb bounded then o else set_slots (Nat.pred (oc_slots o)) ∅ o.

Definition reportSaturation (projectID planID : string) (waiting : nat) (o : Orch) : Orch :=
  if decide (planID ∈ oc_saturated o) then o
  else emit (orc_event projectID planID None "dispatch.saturated"
               ("dispatch pipeline full; " +:+ Itoa (Z.of_nat waiting) +:+ " candidate(s) left unexamined this pass"))
            (set_slots (oc_slots o) ({[planID]} ∪ oc_saturated o) o).

Definition release_spend (projectID provider : string) (o : Orch) : Orch :=
  set_spending (releaseSpendReservation projectID provider (oc_spending o)) o.

(** ** Rows *)

Definition spawnWorkerRows (b : Binding) : Pass (string * string) := λ o,
  match on_store (CreateSession (uuid (oc_uuids o)) (mkSessionOpts "" "worker" 1 start_time "")) (next_uuid o) with
  | (Err e, o1) => (Err e, o1)
  | (Ok sessionID, o1) =>
      match on_store (CreateWorker (uuid (oc_uuids o1))
              (mkWorkerOpts sessionID (bd_name b) "" (bc_native_fanout (bd_config b)) 1 start_time)) (next_uuid o1) with
      | (Err e, o2) => (Err e, o2)
      | (Ok workerID, o2) => (Ok (sessionID, workerID), o2)
      end
  end.

Definition materializeStepMetadata (planID taskID : string) (ref : StepRef) (step : Step) : Store unit := λ s,
  let metadataJSON := match st_metadata step with None => "" | Some m => marshal_metadata m end in
  let teamPath := match st_metadata step with None => "" | Some m => md_team m end in
  match putTaskMetadataOn planID taskID (GroupID ref) teamPath metadataJSON s with
  | (Err ErrDuplicateTaskMetadata, s') => (Ok tt, s')
  | out => out
  end.

Definition materializeStepTask (planID : string) (ref : StepRef) (step : Step) : Store Task := λ s,
  let taskID := stepTaskID ref step in
  match GetTask planID taskID s with
  | (Ok existing, s) =>
      match materializeStepMetadata planID taskID ref step s with
      | (Err e, s') => (Err e, s')
      | (Ok _, s') => (Ok existing, s')
      end
  | (Err _, s) =>
      let created := createTaskOn (mkCreateTaskOpts planID taskID (st_text step) None None
                       (defaultAcceptanceJSON step) "" (st_requires_approval step)) s in
      match created with
      | (Err e, s') =>
          if errors_is e ErrDuplicateTask then
            match materializeStepMetadata planID taskID ref step s' with
            | (Err e, s'') => (Err e, s'')
            | (Ok _, s'') => GetTask planID taskID s''
            end
          else (Err e, s')
      | (Ok _, s') =>
          match materializeStepMetadata planID taskID ref step s' with
          | (Err e, s'') => (Err e, s'')
          | (Ok _, s'') => GetTask planID taskID s''
          end
      end
  end.

(** [None]: somebody else has the task, or its outputs. *)
Definition claimStepTask (planID : string) (ref : StepRef) (step : Step) (sessionID workerID : string)
    : Store (option Task) := λ s,
  match materializeStepTask planID ref step s with
  | (Err e, s') => (Err e, s')
  | (Ok _, s') =>
      match claimTaskOnce planID (stepTaskID ref step) sessionID workerID s' with
      | (Ok claimed, s'') => (Ok (Some claimed), s'')
      | (Err e, s'') =>
          if errors_is e ErrNoReadyTask || match e with ErrOutputReserved _ => true | _ => false end
          then (Ok None, s'') else (Err e, s'')
      end
  end.

(** ** Gates *)

Definition escapes_project (e : DeclError) : bool :=
  match e with
  | DeclaredInput _ (ErrTaskPathEscapesProject _) | DeclaredOutput _ (ErrTaskPathEscapesProject _) => true
  | _ => false
  end.

Definition pathGateBlocks (planID taskID : string) (step : Step) : Pass bool := λ o,
  let decl := declFromMetadata step in
  if bool_decide (fd_inputs decl = []) && bool_decide (fd_outputs decl = []) then (Ok false, o)
  else match projectDirFor (so_registry (oc_spending o)) planID (oc_db o) with
  | Err e => (Err (DispatchStore e), o)
  | Ok projectDir =>
      match validateTaskFilesystem projectDir decl with
      | None => (Err DispatchFuel, o)
      | Some (Ok _) => (Ok false, o)
      | Some (Err e) =>
          if negb (escapes_project e) then (Err (DispatchPaths e), o)
          else match on_store (MarkBlockedInput planID taskID (decl_text e)) o with
          | (Err e, o') => (Err e, o')
          | (Ok transitioned, o') =>
              (Ok true, if transitioned : bool
                        then emit (mkEvent None (Some planID) (Some taskID) "task.blocked_input" (Some "service") None (PayloadJSON "{}")) o'
                        else o')
          end
      end
  end.

Definition step_requires (step : Step) : list string :=
  match st_metadata step with None => [] | Some m => md_requires m end.

Definition capabilityGateBlocks (planID projectID : string) (parallel : bool) (taskID : string) (step : Step) : Pass bool := λ o,
  match step_requires step with
  | [] => (Ok false, o)
  | requires =>
      match resolveBinding projectID parallel BindingProbe (oc_resolver o) with
      | (Err e, r) => (Err (DispatchResolve e), set_resolver r o)
      | (Ok binding, r) =>
          let o := set_resolver r o in
          match CheckRequirements binding requires with
          | None =>
              match on_store (ClearTaskBlock planID taskID TaskStatusBlockedCapability) o with
              | (Err e, o') => (Err e, o')
              | (Ok cleared, o') =>
                  (Ok false, if cleared : bool
                             then emit (mkEvent (Some projectID) (Some planID) (Some taskID) "task.unblocked_capability"
                                          (Some "service") None (PayloadJSON "{}")) o'
                             else o')
              end
          | Some e =>
              match on_store (MarkBlockedCapability planID taskID (capability_text e)) o with
              | (Err e, o') => (Err e, o')
              | (Ok _, o') => (Ok true, o')
              end
          end
      end
  end.

Definition stepGateBlocks (planID projectID : string) (parallel : bool) (ref : StepRef) (step : Step) : Pass bool := λ o,
  match on_store (materializeStepTask planID ref step) o with
  | (Err e, o1) => (Err e, o1)
  | (Ok task, o1) =>
      if decide (t_status task = TaskStatusReadyPendingApproval) then (Ok true, o1)
      else match pathGateBlocks planID (stepTaskID ref step) step o1 with
      | (Err e, o2) => (Err e, o2)
      | (Ok true, o2) => (Ok true, o2)
      | (Ok false, o2) => capabilityGateBlocks planID projectID parallel (stepTaskID ref step) step o2
      end
  end.

(** ** One step *)

Definition clear_worker (workerID status : string) (o : Orch) : Orch := (run_store (ClearWorkerTask workerID status) o).2.

(** [release]: the slot, and the reservation once there is one, of a provider
    with a name. *)
Definition release_all (projectID provider : string) (o : Orch) : Orch :=
  let o := releaseDispatchSlot o in
  if decide (provider = "") then o else release_spend projectID provider o.

(** What the releases rely on: a provider has a name, without a NUL. *)
Definition provider_name (name : string) : Prop := name ≠ "" ∧ no_char Ascii.zero name.

(** [dispatchReadyStep]: called with a slot held. *)
Definition dispatchReadyStep (projectID projectDir planID : string) (parallel : bool) (ref : StepRef) (step : Step)
    : Pass bool := λ o,
  match choose_binding (cf_containment cf) (cf_confine cf) projectID projectDir planID parallel step (oc_cal o) (oc_resolver o) with
  | (Failed e, r) => (Err (DispatchResolve e), releaseDispatchSlot (set_resolver r o))
  | (Refused named e, r) =>
      (Ok false, refuse projectID planID (if named then Some (stepTaskID ref step) else None) (choice_text e)
                   (releaseDispatchSlot (set_resolver r o)))
  | (Chosen binding, r) =>
      let o := set_resolver r o in
      match checkSpendCap projectID (bd_name binding) (oc_spending o) with
      | (Err e, sp) =>
          (Ok false, refuse projectID planID None (spend_text e) (releaseDispatchSlot (set_spending sp o)))
      | (Ok _, sp) =>
          let release := release_all projectID (bd_name binding) in
          match spawnWorkerRows binding (set_spending sp o) with
          | (Err e, o1) => (Err e, release o1)
          | (Ok (sessionID, workerID), o1) =>
              match on_store (claimStepTask planID ref step sessionID workerID) o1 with
              | (Err e, o2) => (Err e, clear_worker workerID "crashed" (release o2))
              | (Ok None, o2) => (Ok false, clear_worker workerID "idle" (release o2))
              | (Ok (Some _), o2) =>
                  match on_store (SetWorkerTask workerID planID (stepTaskID ref step)) o2 with
                  | (Err e, o3) => (Err e, release o3)
                  | (Ok _, o3) =>
                      (Ok true, launch (mkFlight projectID planID sessionID workerID [stepTaskID ref step] binding) o3)
                  end
              end
          end
      end
  end.

(** ** Fan-out *)

(** Only steps that restrict no binding share a worker. *)
Definition unrestricted (step : Step) : bool :=
  let meta := st_metadata step in
  bool_decide (IndependencePeers meta = []) && bool_decide (AllowedProviders meta = []) &&
  bool_decide (PinnedProviderType meta = "").

Fixpoint coalescableSteps (planID projectID : string) (parallel : bool) (steps : list (StepRef * Step))
    : Pass (list (StepRef * Step)) := λ o,
  match steps with
  | [] => (Ok [], o)
  | (ref, step) :: steps' =>
      if negb (unrestricted step) then coalescableSteps planID projectID parallel steps' o
      else match stepGateBlocks planID projectID parallel ref step o with
      | (Err e, o1) => (Err e, o1)
      | (Ok gated, o1) =>
          match coalescableSteps planID projectID parallel steps' o1 with
          | (Err e, o2) => (Err e, o2)
          | (Ok rest, o2) => (Ok (if gated : bool then rest else (ref, step) :: rest), o2)
          end
      end
  end.

(** The claims of a group, and what had been claimed when one failed. *)
Fixpoint claim_group (planID sessionID workerID : string) (steps : list (StepRef * Step)) (o : Orch)
    : list string * option DispatchError * Orch :=
  match steps with
  | [] => ([], None, o)
  | (ref, step) :: steps' =>
      match on_store (claimStepTask planID ref step sessionID workerID) o with
      | (Err e, o1) => ([], Some e, o1)
      | (Ok None, o1) => claim_group planID sessionID workerID steps' o1
      | (Ok (Some _), o1) =>
          let '(claimed, err, o2) := claim_group planID sessionID workerID steps' o1 in
          (stepTaskID ref step :: claimed, err, o2)
      end
  end.

Definition releaseClaimedTasks (planID sessionID : string) (claimed : list string) (o : Orch) : Orch :=
  foldl (λ o taskID, (run_store (ReleaseClaim planID taskID sessionID "released: fan-out group claim aborted") o).2) o claimed.

Definition dispatchFanoutGroup (projectID planID : string) (binding : Binding) (steps : list (StepRef * Step)) : Pass nat := λ o,
  match checkSpendCap projectID (bd_name binding) (oc_spending o) with
  | (Err e, sp) => (Ok 0, refuse projectID planID None (spend_text e) (releaseDispatchSlot (set_spending sp o)))
  | (Ok _, sp) =>
      let release := release_all projectID (bd_name binding) in
      match spawnWorkerRows binding (set_spending sp o) with
      | (Err e, o1) => (Err e, release o1)
      | (Ok (sessionID, workerID), o1) =>
          match claim_group planID sessionID workerID steps o1 with
          | (claimed, Some e, o2) =>
              (Err e, clear_worker workerID "crashed" (releaseClaimedTasks planID sessionID claimed (release o2)))
          | ([], None, o2) => (Ok 0, clear_worker workerID "idle" (release o2))
          | ((taskID :: _) as claimed, None, o2) =>
              match on_store (SetWorkerTask workerID planID taskID) o2 with
              | (Err e, o3) =>
                  (Err e, clear_worker workerID "crashed" (releaseClaimedTasks planID sessionID claimed (release o3)))
              | (Ok _, o3) =>
                  (Ok (length claimed), launch (mkFlight projectID planID sessionID workerID claimed binding) o3)
              end
          end
      end
  end.

(** ** A group *)

(** Go returns its counts with its error: the tasks dispatched, the workers
    admitted, and the error if there is one. *)
Abbreviation Counted := (nat * nat * option DispatchError * Orch)%type.

Definition cap_reached (workers : nat) : bool := bounded && (cf_max_parallel cf <=? Z.of_nat workers)%Z.

(** The loop over the ready steps, one worker each. *)
Fixpoint dispatch_steps (projectID projectDir planID : string) (parallel : bool) (alreadyAdmitted : nat)
    (steps : list (StepRef * Step)) (dispatched admitted : nat) (o : Orch) : Counted :=
  match steps with
  | [] => (dispatched, admitted, None, o)
  | (ref, step) :: steps' =>
      if cap_reached (alreadyAdmitted + admitted) then (dispatched, admitted, None, o)
      else match stepGateBlocks planID projectID parallel ref step o with
      | (Err e, o1) => (dispatched, admitted, Some e, o1)
      | (Ok true, o1) =>
          if parallel then dispatch_steps projectID projectDir planID parallel alreadyAdmitted steps' dispatched admitted o1
          else (dispatched, admitted, None, o1)
      | (Ok false, o1) =>
          match acquireDispatchSlot o1 with
          | (false, o2) => (dispatched, admitted, None, reportSaturation projectID planID (length steps) o2)
          | (true, o2) =>
              match dispatchReadyStep projectID projectDir planID parallel ref step o2 with
              | (Err e, o3) => (dispatched, admitted, Some e, o3)
              | (Ok launched, o3) =>
                  let n := if launched : bool then 1 else 0 in
                  dispatch_steps projectID projectDir planID parallel alreadyAdmitted steps' (dispatched + n) (admitted + n) o3
              end
          end
      end
  end.

(** The fan-out of a group to one worker, once its steps are known. *)
Definition dispatch_fanout (projectID projectDir planID : string) (parallel : bool) (eligible : list (StepRef * Step)) (o : Orch) : Counted :=
  match acquireDispatchSlot o with
  | (false, o1) => (0, 0, None, reportSaturation projectID planID (length eligible) o1)
  | (true, o1) =>
      match resolveBinding projectID parallel BindingDispatch (oc_resolver o1) with
      | (Err e, r) => (0, 0, Some (DispatchResolve e), releaseDispatchSlot (set_resolver r o1))
      | (Ok binding, r) =>
          let o2 := set_resolver r o1 in
          if negb (bc_native_fanout (bd_config binding)) then (0, 0, Some DispatchBindingChanged, releaseDispatchSlot o2)
          else match resolveContainment (cf_containment cf) (cf_confine cf) projectID projectDir binding with
          | Err e => (0, 0, None, refuse projectID planID None (choice_text e) (releaseDispatchSlot o2))
          | Ok _ =>
              match dispatchFanoutGroup projectID planID binding eligible o2 with
              | (Err e, o3) => (0, 0, Some e, o3)
              | (Ok n, o3) => (n, 1, None, o3)
              end
          end
      end
  end.

Definition dispatchReadyGroup (projectID projectDir planID : string) (group : readyGroup) (alreadyAdmitted : nat) (o : Orch) : Counted :=
  let parallel := wg_parallel group in
  let steps := zip (wg_refs group) (wg_steps group) in
  let one_by_one := dispatch_steps projectID projectDir planID parallel alreadyAdmitted steps 0 0 in
  if parallel && (1 <? length steps) then
    match resolveBinding projectID parallel BindingProbe (oc_resolver o) with
    | (Err e, r) => (0, 0, Some (DispatchResolve e), set_resolver r o)
    | (Ok binding, r) =>
        let o := set_resolver r o in
        if bc_native_fanout (bd_config binding) then
          match coalescableSteps planID projectID parallel steps o with
          | (Err e, o1) => (0, 0, Some e, o1)
          | (Ok [], o1) => one_by_one o1
          | (Ok eligible, o1) => dispatch_fanout projectID projectDir planID parallel eligible o1
          end
        else one_by_one o
    end
  else one_by_one o.

(** ** The pass *)

Fixpoint dispatch_groups (projectID projectDir planID : string) (groups : list readyGroup) (dispatched workers : nat) (o : Orch)
    : nat * option DispatchError * Orch :=
  match groups with
  | [] => (dispatched, None, o)
  | group :: groups' =>
      if cap_reached workers then (dispatched, None, o)
      else match dispatchReadyGroup projectID projectDir planID group workers o with
      | (tasks, _, Some e, o1) => (dispatched + tasks, Some e, o1)
      | (tasks, admitted, None, o1) =>
          dispatch_groups projectID projectDir planID groups' (dispatched + tasks) (workers + admitted) o1
      end
  end.

(** [DispatchNext]: one pass over a plan. *)
Definition DispatchNext (projectID planID : string) (o : Orch) : nat * option DispatchError * Orch :=
  match (GetPlan planID (oc_db o)).1 with
  | Err e => (0, Some (DispatchStore e), o)
  | Ok storedPlan =>
      if decide (coalesce (p_source storedPlan) = "") then (0, Some (DispatchNoSource planID), o)
      else match Parse (coalesce (p_source storedPlan)) with
      | None => (0, Some DispatchFuel, o)
      | Some (Err e) => (0, Some (DispatchParse e), o)
      | Some (Ok parsedPlan) =>
          match loadReadyWave planID parsedPlan (oc_db o) with
          | (Err e, s') => (0, Some (DispatchWave e), set_db s' o)
          | (Ok [], s') => (0, None, set_db s' o)
          | (Ok wave, s') =>
              let o := set_db s' o in
              match projectDirFor (so_registry (oc_spending o)) planID (oc_db o) with
              | Err e => (0, Some (DispatchStore e), o)
              | Ok projectDir => dispatch_groups projectID projectDir planID wave 0 0 o
              end
          end
      end
  end.
End Dispatch.
