(* ===== verification/OrchPass.v ===== *)
(** * What holds across a dispatch pass

    A pass is a sequence of gates, refusals, launches and fan-outs. Any relation
    between its states that is reflexive and transitive, and that each of those
    respects, holds between the start of the pass and its end; the relation also
    counts the tasks launched. *)
From S2P Require Import Prelude GoLib StoreModel StoreSql StoreTasks StoreWorkers StoreGraph StoreMeta StoreProjects StoreCalibrations PlanModel PlanImport PlanParse Provider CmdResolver OrchSpend OrchPaths OrchVerify OrchBinding OrchDispatch.

Section Pass.
Context `{SqlEngine} `{PlanCodec} `{BindingCodec} `{Json} `{Markdown} `{FileSystem} `{CostOps} `{!Texts}
  `{BindingResolver} `{InvocationHash}.
Context (uuid : nat → string) (start_time : string) (cf : Config).
Context (projectID planID : string).

(** The store calls of the gates. *)
Inductive gate_call : ∀ {A}, Store A → Prop :=
| gate_materialize ref step : gate_call (materializeStepTask planID ref step)
| gate_block_input i reason : gate_call (MarkBlockedInput planID i reason)
| gate_block_capability i reason : gate_call (MarkBlockedCapability planID i reason)
| gate_clear i : gate_call (ClearTaskBlock planID i TaskStatusBlockedCapability)
| gate_event e : gate_call (insert_event e).

Context (R : nat → Orch → Orch → Prop).
Context (R_refl : ∀ o, R 0 o o)
  (R_trans : ∀ m n o1 o2 o3, R m o1 o2 → R n o2 o3 → R (m + n) o1 o3)
  (R_store : ∀ A (m : Store A) o, gate_call m → R 0 o (run_store m o).2)
  (R_resolver : ∀ r o, R 0 o (set_resolver r o))
  (R_saturated : ∀ sat o, R 0 o (set_slots (oc_slots o) sat o)).

Lemma R_trans0 o1 o2 o3 n : R 0 o1 o2 → R n o2 o3 → R n o1 o3.
Proof. apply (R_trans 0 n). Qed.

Lemma on_store_state {A} (m : Store A) o : (on_store m o).2 = (run_store m o).2.
Proof. unfold on_store. by destruct (run_store m o) as [[] ?]. Qed.

Lemma R_on_store {A} (m : Store A) o r o' : gate_call m → on_store m o = (r, o') → R 0 o o'.
Proof. intros Hm Ho. replace o' with (run_store m o).2 by (by rewrite <-on_store_state, Ho). by apply R_store. Qed.

Lemma R_emit e o : R 0 o (emit e o).
Proof. apply R_store, gate_event. Qed.

Lemma R_saturation p i n o : R 0 o (reportSaturation p i n o).
Proof.
  unfold reportSaturation. destruct (decide _); [apply R_refl|]. eapply R_trans0; [apply R_saturated|apply R_emit].
Qed.

(** ** Gates *)

Lemma R_path i step o r o' : pathGateBlocks planID i step o = (r, o') → R 0 o o'.
Proof.
  unfold pathGateBlocks. destruct (bool_decide _ && bool_decide _); [by intros [= _ <-]|].
  destruct (projectDirFor _ _ _) as [dir|]; [|by intros [= _ <-]].
  destruct (validateTaskFilesystem dir _) as [[[]|e]|]; [by intros [= _ <-]| |by intros [= _ <-]].
  destruct (negb _); [by intros [= _ <-]|].
  destruct (on_store _ o) as [[tr|] o1] eqn:Ho; intros [= _ <-].
  - apply R_on_store in Ho; [|constructor]. destruct tr; [|done]. eapply R_trans0; [done|apply R_emit].
  - apply R_on_store in Ho; [done|constructor].
Qed.

Lemma R_capability parallel i step o r o' : capabilityGateBlocks planID projectID parallel i step o = (r, o') → R 0 o o'.
Proof.
  unfold capabilityGateBlocks. destruct (step_requires step) as [|k ks]; [by intros [= _ <-]|].
  destruct (resolveBinding projectID parallel BindingProbe (oc_resolver o)) as [[b|] rs]; [|by intros [= _ <-]].
  destruct (CheckRequirements b (k :: ks)).
  - destruct (on_store _ _) as [[tr|] o1] eqn:Ho; intros [= _ <-];
      (eapply R_trans0; [apply R_resolver|]; apply R_on_store in Ho; [done|constructor]).
  - destruct (on_store _ _) as [[tr|] o1] eqn:Ho; intros [= _ <-];
      (eapply R_trans0; [apply R_resolver|]; apply R_on_store in Ho; [|constructor]); [|done].
    destruct tr; [|done]. eapply R_trans0; [done|apply R_emit].
Qed.

Lemma R_gate parallel ref step o r o' : stepGateBlocks planID projectID parallel ref step o = (r, o') → R 0 o o'.
Proof.
  unfold stepGateBlocks. destruct (on_store _ o) as [[task|] o1] eqn:Ho;
    (apply R_on_store in Ho; [|constructor]); [|by intros [= _ <-]].
  destruct (decide _); [by intros [= _ <-]|].
  destruct (pathGateBlocks planID (stepTaskID ref step) step o1) as [[[]|] o2] eqn:Hp; apply R_path in Hp.
  - intros [= _ <-]. by eapply R_trans0.
  - intros Hc. apply R_capability in Hc. eapply R_trans0; [done|]. by eapply R_trans0.
  - intros [= _ <-]. by eapply R_trans0.
Qed.

Lemma R_coalescable parallel steps o r o' : coalescableSteps planID projectID parallel steps o = (r, o') → R 0 o o'.
Proof.
  revert r o o'. induction steps as [|[ref step] steps IH]; intros r o o'; simpl; [by intros [= _ <-]|].
  destruct (negb _); [apply IH|].
  destruct (stepGateBlocks planID projectID parallel ref step o) as [[g|] o1] eqn:Hg; apply R_gate in Hg; [|by intros [= _ <-]].
  destruct (coalescableSteps planID projectID parallel steps o1) as [[rest|] o2] eqn:Hc; apply IH in Hc;
    intros [= _ <-]; by eapply R_trans0.
Qed.

Lemma coalescable_unrestricted parallel steps o eligible o' :
  coalescableSteps planID projectID parallel steps o = (Ok eligible, o') →
  eligible ⊆ steps ∧ ∀ x, x ∈ eligible → unrestricted x.2 = true.
Proof.
  revert eligible o o'. induction steps as [|[ref step] steps IH]; intros eligible o o'; simpl; [intros [= <- <-]; set_solver|].
  destruct (unrestricted step) eqn:Hu; simpl.
  - destruct (stepGateBlocks planID projectID parallel ref step o) as [[g|] o1]; [|done].
    destruct (coalescableSteps planID projectID parallel steps o1) as [[rest|] o2] eqn:Hc; [|done].
    apply IH in Hc as [Hsub Hun]. intros [= <- <-]. destruct g; set_solver.
  - intros Hc. apply IH in Hc. set_solver.
Qed.

(** ** The pass *)

Context (R_wave : ∀ parsed o, R 0 o (set_db (loadReadyWave planID parsed (oc_db o)).2 o))
  (R_step : ∀ projectDir parallel ref step o o1 r o2,
     acquireDispatchSlot cf o = (true, o1) →
     dispatchReadyStep uuid start_time cf projectID projectDir planID parallel ref step o1 = (r, o2) →
     R (match r with Ok true => 1 | _ => 0 end) o o2)
  (R_fanout : ∀ projectDir parallel eligible o n a e o1,
     (∀ x, x ∈ eligible → unrestricted x.2 = true) →
     dispatch_fanout uuid start_time cf projectID projectDir planID parallel eligible o = (n, a, e, o1) → R n o o1).

Lemma R_steps projectDir parallel already steps d a o d' a' e o' :
  dispatch_steps uuid start_time cf projectID projectDir planID parallel already steps d a o = (d', a', e, o') →
  ∃ n, d' = d + n ∧ R n o o'.
Proof.
  revert d a o. induction steps as [|[ref step] steps IH]; intros d a o; cbn [dispatch_steps].
  { intros [= <- <- <- <-]. exists 0. split; [lia|apply R_refl]. }
  destruct (cap_reached cf (already + a)); [intros [= <- <- <- <-]; exists 0; split; [lia|apply R_refl]|].
  destruct (stepGateBlocks planID projectID parallel ref step o) as [[g|] o1] eqn:Hg; apply R_gate in Hg;
    [|intros [= <- <- <- <-]; exists 0; split; [lia|done]].
  destruct g.
  { destruct parallel; [|intros [= <- <- <- <-]; exists 0; split; [lia|done]].
    intros Hs. apply IH in Hs as (n & -> & Hn). exists n. split; [done|]. by eapply R_trans0. }
  destruct (acquireDispatchSlot cf o1) as [[] o2] eqn:Ha.
  - destruct (dispatchReadyStep uuid start_time cf projectID projectDir planID parallel ref step o2) as [r o3] eqn:Hd.
    pose proof (R_step _ _ _ _ _ _ _ _ Ha Hd) as Hr. destruct r as [launched|e1].
    + intros Hs. apply IH in Hs as (n & -> & Hn). destruct launched.
      * exists (S n). split; [lia|]. eapply R_trans0; [done|]. by apply (R_trans 1 n _ o3).
      * exists n. split; [lia|]. eapply R_trans0; [done|]. by apply (R_trans 0 n _ o3).
    + intros [= <- <- <- <-]. exists 0. split; [lia|]. by eapply R_trans0.
  - intros [= <- <- <- <-]. exists 0. split; [lia|]. eapply R_trans0; [done|].
    assert (o2 = o1) as ->; [|apply R_saturation].
    revert Ha. unfold acquireDispatchSlot. destruct (negb _); [done|]. destruct (_ <? _)%Z; [done|]. by intros [= <-].
Qed.

Lemma R_group projectDir group already o d a e o' :
  dispatchReadyGroup uuid start_time cf projectID projectDir planID group already o = (d, a, e, o') → R d o o'.
Proof.
  unfold dispatchReadyGroup. set (steps := zip (wg_refs group) (wg_steps group)).
  assert (∀ o d a e o', dispatch_steps uuid start_time cf projectID projectDir planID (wg_parallel group) already steps 0 0 o =
    (d, a, e, o') → R d o o') as Hone by (intros * Hs; by apply R_steps in Hs as (n & -> & Hn)).
  destruct (wg_parallel group && (1 <? length steps)); [|by apply Hone].
  destruct (resolveBinding projectID (wg_parallel group) BindingProbe (oc_resolver o)) as [[b|] rs];
    [|intros [= <- <- <- <-]; apply R_resolver].
  intros Hr. eapply R_trans0; [apply (R_resolver rs)|].
  destruct (bc_native_fanout (bd_config b)); [|by apply Hone in Hr].
  destruct (coalescableSteps planID projectID (wg_parallel group) steps (set_resolver rs o)) as [[eligible|] o1] eqn:Hc.
  - pose proof (proj2 (coalescable_unrestricted _ _ _ _ _ Hc)) as Hun. apply R_coalescable in Hc.
    eapply R_trans0; [done|]. destruct eligible as [|x eligible]; [by apply Hone in Hr|by eapply R_fanout].
  - apply R_coalescable in Hc. by injection Hr as <- <- <- <-.
Qed.

Lemma R_groups projectDir groups d w o d' e o' :
  dispatch_groups uuid start_time cf projectID projectDir planID groups d w o = (d', e, o') →
  ∃ n, d' = d + n ∧ R n o o'.
Proof.
  revert d w o. induction groups as [|g groups IH]; intros d w o; cbn [dispatch_groups].
  { intros [= <- <- <-]. exists 0. split; [lia|apply R_refl]. }
  destruct (cap_reached cf w); [intros [= <- <- <-]; exists 0; split; [lia|apply R_refl]|].
  destruct (dispatchReadyGroup uuid start_time cf projectID projectDir planID g w o) as [[[t a] er] o1] eqn:Hg.
  apply R_group in Hg. destruct er as [er|].
  - intros [= <- <- <-]. by exists t.
  - intros Hs. apply IH in Hs as (n & -> & Hn). exists (t + n). split; [lia|]. by eapply R_trans.
Qed.

Lemma R_pass o n e o' : DispatchNext uuid start_time cf projectID planID o = (n, e, o') → R n o o'.
Proof.
  unfold DispatchNext. destruct (GetPlan planID (oc_db o)).1 as [plan|]; [|intros [= <- <- <-]; apply R_refl].
  destruct (decide _); [intros [= <- <- <-]; apply R_refl|].
  destruct (Parse _) as [[parsed|]|]; [|intros [= <- <- <-]; apply R_refl..].
  pose proof (R_wave parsed o) as Hw. destruct (loadReadyWave planID parsed (oc_db o)) as [[[|g wave]|] s'] eqn:Hl; simpl in Hw;
    [by intros [= <- <- <-]| |by intros [= <- <- <-]].
  destruct (projectDirFor _ _ _) as [dir|]; [|by intros [= <- <- <-]].
  intros Hg. apply R_groups in Hg as (m & -> & Hm). eapply R_trans0; [done|]. done.
Qed.
End Pass.
