(* ===== verification/OrchDispatchProps.v ===== *)
(** * Properties of the dispatch pass

    What a pass holds at its end: a slot and a spend reservation for each turn it
    launched, and nothing else. *)
From S2P Require Import Prelude GoLib StoreModel StoreSql StoreTasks StoreWorkers StoreGraph StoreMeta StoreInv StoreProjects StoreCalibrations PlanModel PlanImport PlanParse Provider CmdResolver OrchSpend OrchSpendProps OrchPaths OrchVerify OrchBinding OrchBindingProps OrchDispatch OrchPass.
From stdpp Require Import relations.

(** ** Bindings come from the resolver *)

Section Origin.
Context `{BindingResolver} `{InvocationHash} (projectID : string) (parallel : bool) (P : Binding → Prop).
Context (HP : ∀ purpose r b r', resolveBinding projectID parallel purpose r = (Ok b, r') → P b).

Lemma rotate_origin accept refusal n seen first r b r' :
  P first → rotate_until projectID parallel accept refusal n seen first r = (Ok b, r') → P b.
Proof.
  revert seen first r. induction n as [|n IH]; intros seen first r Hf; simpl; [done|].
  destruct (accept first); [by intros [= <- _]|]. destruct (decide _); [done|].
  destruct (resolveBinding projectID parallel BindingDispatch r) as [[next|e] r1] eqn:Hr; [|done]. apply IH. by eapply HP.
Qed.

Lemma chosen_origin resolver confine projectDir planID step s r b r' :
  choose_binding resolver confine projectID projectDir planID parallel step s r = (Chosen b, r') → P b.
Proof.
  unfold choose_binding.
  destruct (resolveBinding projectID parallel BindingDispatch r) as [[b0|] r0] eqn:Hb0; [|done]. apply HP in Hb0.
  destruct (match AllowedProviders (st_metadata step) with [] => _ | _ => _ end) as [[b1|] r1] eqn:Ha; [|done].
  assert (P b1) as Hb1.
  { destruct (AllowedProviders (st_metadata step)); [by injection Ha as -> ->|]. by eapply rotate_origin. }
  destruct (if decide (PinnedProviderType (st_metadata step) = "") then _ else _) as [[b2|] r2] eqn:Hp; [|done].
  assert (P b2) as Hb2.
  { destruct (decide _); [by injection Hp as -> ->|]. by eapply rotate_origin. }
  destruct (match IndependencePeers (st_metadata step) with [] => _ | _ => _ end) as [[b3|] r3] eqn:Hi; [|done].
  assert (P b3) as Hb3.
  { destruct (IndependencePeers (st_metadata step)); [by injection Hi as -> ->|].
    unfold resolveIndependentBinding in Hi. destruct (peer_domains _ _ _); [|done]. by eapply rotate_origin. }
  destruct (resolveContainment _ _ _ _ b3); [|done]. by intros [= <- _].
Qed.
End Origin.

(** ** What a pass holds *)

Section Holdings.
Context `{SqlEngine} `{PlanCodec} `{BindingCodec} `{Json} `{Markdown} `{FileSystem} `{CostOps} `{!Texts}
  `{BindingResolver} `{InvocationHash}.
Context (uuid : nat → string) (start_time : string) (cf : Config) (projectID planID : string).

Definition turn_of (f : Flight) : Turn := mkTurn (ft_project f) (bd_name (ft_binding f)).
Definition spending_of (o : Orch) : Dispatch := mkDispatch (oc_spending o) (turn_of <$> oc_flights o).

(** The tasks of the turns launched between two states. *)
Definition task_count (fs : list Flight) : nat := sum_list_with (length ∘ ft_tasks) fs.

(** Between two states of a pass that launched [n] tasks: every new turn holds a
    slot, none is lost, and the spend protocol was followed. *)
Definition accounts (n : nat) (o o' : Orch) : Prop :=
  ∃ new, oc_flights o' = new ++ oc_flights o ∧ task_count new = n ∧
    (bounded cf = true → oc_slots o' = oc_slots o + length new ∧
       ((Z.of_nat (oc_slots o) ≤ cf_max_parallel cf)%Z → (Z.of_nat (oc_slots o') ≤ cf_max_parallel cf)%Z)) ∧
    rtc spend_step (spending_of o) (spending_of o').

Definition same_holdings (o o' : Orch) : Prop :=
  oc_flights o' = oc_flights o ∧ oc_spending o' = oc_spending o ∧ oc_slots o' = oc_slots o.

Lemma same_holdings_trans o1 o2 o3 : same_holdings o1 o2 → same_holdings o2 o3 → same_holdings o1 o3.
Proof. intros (? & ? & ?) (? & ? & ?). split_and!; congruence. Qed.

Lemma store_holds {A} (m : Store A) o : same_holdings o (run_store m o).2.
Proof. unfold run_store. by destruct (m (oc_db o)). Qed.

Lemma emit_holds e o : same_holdings o (emit e o).
Proof. apply store_holds. Qed.

Lemma on_store_holds {A} (m : Store A) o r o' : on_store m o = (r, o') → same_holdings o o'.
Proof. intros Ho. replace o' with (on_store m o).2 by by rewrite Ho. rewrite on_store_state. apply store_holds. Qed.

Lemma accounts_same o o' : same_holdings o o' → accounts 0 o o'.
Proof.
  intros (Hf & Hs & Hn). exists []. split; [done|]. split; [done|]. split; [intros _; rewrite Hn; split; [simpl; lia|done]|].
  unfold spending_of. by rewrite Hf, Hs.
Qed.

Lemma accounts_trans m n o1 o2 o3 : accounts m o1 o2 → accounts n o2 o3 → accounts (m + n) o1 o3.
Proof.
  intros (new1 & Hf1 & Hc1 & Hs1 & Hr1) (new2 & Hf2 & Hc2 & Hs2 & Hr2). exists (new2 ++ new1).
  split; [by rewrite Hf2, Hf1, app_assoc|]. split.
  { unfold task_count in *. rewrite sum_list_with_app. lia. }
  split; [|by etrans].
  intros Hb. specialize (Hs1 Hb) as [Hn1 Hle1]. specialize (Hs2 Hb) as [Hn2 Hle2]. rewrite length_app. split; [lia|]. auto.
Qed.

(** ** Launches *)

Context (Hproject : no_char Ascii.zero projectID).
Context (Hnames : ∀ parallel purpose r b r', resolveBinding projectID parallel purpose r = (Ok b, r') → provider_name (bd_name b)).

Lemma spawn_holds b o r o' : spawnWorkerRows uuid start_time b o = (r, o') → same_holdings o o'.
Proof.
  unfold spawnWorkerRows. destruct (on_store _ (next_uuid o)) as [[sid|] o1] eqn:Hsid; apply on_store_holds in Hsid;
    [|by intros [= _ <-]].
  destruct (on_store _ (next_uuid o1)) as [[wid|] o2] eqn:Hwid; apply on_store_holds in Hwid; intros [= _ <-];
    (eapply same_holdings_trans; [exact Hsid|exact Hwid]).
Qed.

Lemma release_claimed_holds session claimed o : same_holdings o (releaseClaimedTasks planID session claimed o).
Proof.
  unfold releaseClaimedTasks. revert o. induction claimed as [|i claimed IH]; intros o; simpl; [done|].
  eapply same_holdings_trans; [|apply IH]. apply store_holds.
Qed.

Lemma claim_group_holds session worker steps o claimed e o' :
  claim_group planID session worker steps o = (claimed, e, o') → same_holdings o o'.
Proof.
  revert o claimed e o'. induction steps as [|[ref step] steps IH]; intros o claimed e o'; cbn [claim_group]; [by intros [= _ _ <-]|].
  destruct (on_store _ o) as [[[t|]|] o1] eqn:Ho; apply on_store_holds in Ho.
  - destruct (claim_group planID session worker steps o1) as [[cl er] o2] eqn:Hc. apply IH in Hc. intros [= _ _ <-].
    by eapply same_holdings_trans.
  - intros Hc. apply IH in Hc. by eapply same_holdings_trans.
  - by intros [= _ _ <-].
Qed.

(** A slot taken and given back. *)
Lemma slot_returned o o1 o2 :
  acquireDispatchSlot cf o = (true, o1) → same_holdings o1 o2 → same_holdings o (releaseDispatchSlot cf o2).
Proof.
  unfold acquireDispatchSlot, releaseDispatchSlot. destruct (negb (bounded cf)); [by intros [= <-]|].
  destruct (_ <? _)%Z; [|done]. intros [= <-] (Hf & Hs & Hn). unfold same_holdings. simpl in *. by rewrite Hf, Hs, Hn.
Qed.

(** Taking a slot stays within the bound. *)
Lemma slot_taken o o1 :
  acquireDispatchSlot cf o = (true, o1) →
  oc_flights o1 = oc_flights o ∧ oc_spending o1 = oc_spending o ∧
  (bounded cf = true → oc_slots o1 = S (oc_slots o) ∧ (Z.of_nat (oc_slots o1) ≤ cf_max_parallel cf)%Z).
Proof.
  unfold acquireDispatchSlot. destruct (bounded cf); simpl; [|by intros [= <-]].
  destruct (Z.ltb_spec (Z.of_nat (oc_slots o)) (cf_max_parallel cf)); [|done]. intros [= <-]. simpl. split_and!; [done..|lia].
Qed.

(** A launch refused by the cap, or given up before it began. *)
Lemma refused_spend a o e sp turns :
  checkSpendCap projectID a o = (Err e, sp) → rtc spend_step (mkDispatch o turns) (mkDispatch sp turns).
Proof. intros Hc. apply rtc_once. by econstructor. Qed.

Lemma abandoned_spend a o sp turns :
  no_char Ascii.zero a → checkSpendCap projectID a o = (Ok tt, sp) →
  rtc spend_step (mkDispatch o turns) (mkDispatch (releaseSpendReservation projectID a sp) turns).
Proof.
  intros Ha Hc. apply rtc_l with (mkDispatch sp (mkTurn projectID a :: turns)); [by constructor|]. apply rtc_once. apply (step_abandon sp [] turns).
Qed.

(** What giving everything up leaves. *)
Lemma abandoned o o1 o2 a sp :
  acquireDispatchSlot cf o = (true, o1) → provider_name a → checkSpendCap projectID a (oc_spending o) = (Ok tt, sp) →
  oc_flights o2 = oc_flights o1 → oc_spending o2 = sp → oc_slots o2 = oc_slots o1 →
  accounts 0 o (release_all cf projectID a o2).
Proof.
  intros Hacq [Hne Ha] Hc Hf Hs Hn. apply slot_taken in Hacq as (Hf1 & Hs1 & Hn1).
  assert (release_all cf projectID a o2 = release_spend projectID a (releaseDispatchSlot cf o2)) as -> by (unfold release_all; by rewrite decide_False).
  assert (oc_flights (release_spend projectID a (releaseDispatchSlot cf o2)) = oc_flights o) as Hfl.
  { unfold releaseDispatchSlot. destruct (negb (bounded cf)); simpl; congruence. }
  assert (oc_spending (release_spend projectID a (releaseDispatchSlot cf o2)) = releaseSpendReservation projectID a sp) as Hsp.
  { unfold releaseDispatchSlot. destruct (negb (bounded cf)); simpl; congruence. }
  exists []. split; [done|]. split; [done|]. split.
  - intros Hb. destruct (Hn1 Hb) as [Hn1' Hle]. unfold releaseDispatchSlot. rewrite Hb. simpl.
    rewrite Hn, Hn1'. simpl. lia.
  - unfold spending_of. rewrite Hfl, Hsp. by apply abandoned_spend.
Qed.

Lemma accounts_then_same n o o1 o2 : accounts n o o1 → same_holdings o1 o2 → accounts n o o2.
Proof.
  intros Ha Hs. replace n with (n + 0) by lia. eapply accounts_trans; [done|]. by apply accounts_same.
Qed.

(** A turn launched with the slot and the reservation it was admitted with. *)
Lemma launched o o1 o2 f sp :
  acquireDispatchSlot cf o = (true, o1) → ft_project f = projectID → provider_name (bd_name (ft_binding f)) →
  checkSpendCap projectID (bd_name (ft_binding f)) (oc_spending o) = (Ok tt, sp) →
  oc_flights o2 = oc_flights o1 → oc_spending o2 = sp → oc_slots o2 = oc_slots o1 →
  accounts (length (ft_tasks f)) o (launch f o2).
Proof.
  intros Hacq Hp [_ Ha] Hc Hf Hs Hn. apply slot_taken in Hacq as (Hf1 & Hs1 & Hn1). exists [f].
  split; [simpl; congruence|]. split; [unfold task_count; simpl; lia|]. split.
  - intros Hb. destruct (Hn1 Hb) as [Hn1' Hle]. simpl. rewrite Hn. lia.
  - apply rtc_once. unfold spending_of. simpl. rewrite Hf, Hf1, Hs. unfold turn_of at 2. rewrite Hp. by constructor.
Qed.

(** A launch the cap refused. *)
Lemma refused o o1 o2 a e sp :
  acquireDispatchSlot cf o = (true, o1) → checkSpendCap projectID a (oc_spending o) = (Err e, sp) →
  oc_flights o2 = oc_flights o1 → oc_spending o2 = sp → oc_slots o2 = oc_slots o1 →
  accounts 0 o (releaseDispatchSlot cf o2).
Proof.
  intros Hacq Hc Hf Hs Hn. apply slot_taken in Hacq as (Hf1 & Hs1 & Hn1).
  assert (oc_flights (releaseDispatchSlot cf o2) = oc_flights o) as Hfl.
  { unfold releaseDispatchSlot. destruct (negb (bounded cf)); simpl; congruence. }
  assert (oc_spending (releaseDispatchSlot cf o2) = sp) as Hsp.
  { unfold releaseDispatchSlot. destruct (negb (bounded cf)); simpl; congruence. }
  exists []. split; [done|]. split; [done|]. split.
  - intros Hb. destruct (Hn1 Hb) as [Hn1' Hle]. unfold releaseDispatchSlot. rewrite Hb. simpl. rewrite Hn, Hn1'. simpl. lia.
  - unfold spending_of. rewrite Hfl, Hsp. by eapply refused_spend.
Qed.

Lemma not_acquired o o1 : acquireDispatchSlot cf o = (false, o1) → o1 = o.
Proof. unfold acquireDispatchSlot. destruct (negb _); [done|]. destruct (_ <? _)%Z; [done|]. by intros [= <-]. Qed.

Lemma step_accounts projectDir parallel ref step o o1 r o2 :
  acquireDispatchSlot cf o = (true, o1) →
  dispatchReadyStep uuid start_time cf projectID projectDir planID parallel ref step o1 = (r, o2) →
  accounts (match r with Ok true => 1 | _ => 0 end) o o2.
Proof.
  intros Hacq. pose proof (slot_taken _ _ Hacq) as (Hf1 & Hs1 & _). unfold dispatchReadyStep.
  destruct (choose_binding _ _ _ _ _ _ _ _ _) as [[b|named e|e] rs] eqn:Hch; cycle 1.
  { intros [= <- <-]. apply accounts_same. eapply same_holdings_trans; [|apply emit_holds]. eapply slot_returned; [done|by split_and!]. }
  { intros [= <- <-]. apply accounts_same. eapply slot_returned; [done|by split_and!]. }
  assert (provider_name (bd_name b)) as Hb by (eapply (chosen_origin _ _ (λ b, provider_name (bd_name b))); [|done]; intros; by eapply Hnames).
  cbn [set_resolver oc_spending]. rewrite Hs1.
  destruct (checkSpendCap projectID (bd_name b) (oc_spending o)) as [[[]|e] sp] eqn:Hcap; cycle 1.
  { intros [= <- <-]. eapply accounts_then_same; [|apply emit_holds]. by eapply (refused o o1). }
  destruct (spawnWorkerRows _ _ b _) as [[[sid wid]|e] o3] eqn:Hsp; apply spawn_holds in Hsp as (Hf3 & Hs3 & Hn3); simpl in *; cycle 1.
  { intros [= <- <-]. by eapply (abandoned o o1). }
  destruct (on_store (claimStepTask planID ref step sid wid) o3) as [[[t|]|e] o4] eqn:Hcl;
    apply on_store_holds in Hcl as (Hf4 & Hs4 & Hn4); cycle 1.
  { intros [= <- <-]. eapply accounts_then_same; [|apply store_holds]. apply (abandoned o o1 _ (bd_name b) sp); done || congruence. }
  { intros [= <- <-]. eapply accounts_then_same; [|apply store_holds]. apply (abandoned o o1 _ (bd_name b) sp); done || congruence. }
  destruct (on_store (SetWorkerTask _ _ _) o4) as [[u|e] o5] eqn:Hset; apply on_store_holds in Hset as (Hf5 & Hs5 & Hn5);
    intros [= <- <-].
  - apply (launched o o1 o5 (mkFlight projectID planID sid wid [stepTaskID ref step] b) sp); done || congruence.
  - apply (abandoned o o1 _ (bd_name b) sp); done || congruence.
Qed.

Lemma fanout_accounts projectDir parallel eligible o n a e o1 :
  dispatch_fanout uuid start_time cf projectID projectDir planID parallel eligible o = (n, a, e, o1) → accounts n o o1.
Proof.
  unfold dispatch_fanout. destruct (acquireDispatchSlot cf o) as [[] o0] eqn:Hacq; cycle 1.
  { intros [= <- _ _ <-]. apply accounts_same. apply not_acquired in Hacq as ->.
    unfold reportSaturation. destruct (decide _); [done|]. eapply same_holdings_trans; [|apply emit_holds]. by split_and!. }
  pose proof (slot_taken _ _ Hacq) as (Hf1 & Hs1 & _).
  destruct (resolveBinding projectID parallel BindingDispatch (oc_resolver o0)) as [[b|] rs] eqn:Hr; cycle 1.
  { intros [= <- _ _ <-]. apply accounts_same. eapply slot_returned; [done|by split_and!]. }
  apply Hnames in Hr. destruct (negb (bc_native_fanout (bd_config b))).
  { intros [= <- _ _ <-]. apply accounts_same. eapply slot_returned; [done|by split_and!]. }
  destruct (resolveContainment _ _ _ _ b); cycle 1.
  { intros [= <- _ _ <-]. apply accounts_same. eapply same_holdings_trans; [|apply emit_holds]. eapply slot_returned; [done|by split_and!]. }
  unfold dispatchFanoutGroup. cbn [set_resolver oc_spending]. rewrite Hs1.
  destruct (checkSpendCap projectID (bd_name b) (oc_spending o)) as [[[]|e'] sp] eqn:Hcap; cycle 1.
  { intros [= <- _ _ <-]. eapply accounts_then_same; [|apply emit_holds]. by eapply (refused o o0). }
  destruct (spawnWorkerRows _ _ b _) as [[[sid wid]|e'] o3] eqn:Hsp; apply spawn_holds in Hsp as (Hf3 & Hs3 & Hn3); simpl in *; cycle 1.
  { intros [= <- _ _ <-]. by eapply (abandoned o o0). }
  destruct (claim_group planID sid wid eligible o3) as [[claimed er] o4] eqn:Hcl.
  apply claim_group_holds in Hcl as (Hf4 & Hs4 & Hn4). destruct er as [er|].
  { pose proof (release_claimed_holds sid claimed (release_all cf projectID (bd_name b) o4)) as Hrel.
    set (o5 := releaseClaimedTasks _ _ _ _) in *. clearbody o5.
    destruct claimed; intros [= <- _ _ <-]; (eapply accounts_then_same; [|apply store_holds]);
      (eapply accounts_then_same; [|exact Hrel]); apply (abandoned o o0 _ (bd_name b) sp); done || congruence. }
  destruct claimed as [|i claimed].
  { intros [= <- _ _ <-]. eapply accounts_then_same; [|apply store_holds]. apply (abandoned o o0 _ (bd_name b) sp); done || congruence. }
  destruct (on_store (SetWorkerTask _ _ _) o4) as [[u|e'] o5] eqn:Hset; apply on_store_holds in Hset as (Hf5 & Hs5 & Hn5).
  - intros [= <- _ _ <-].
    exact (launched o o0 o5 (mkFlight projectID planID sid wid (i :: claimed) b) sp Hacq eq_refl Hr Hcap
             ltac:(congruence) ltac:(congruence) ltac:(congruence)).
  - pose proof (release_claimed_holds sid (i :: claimed) (release_all cf projectID (bd_name b) o5)) as Hrel.
    set (o6 := releaseClaimedTasks _ _ _ _) in *. clearbody o6. intros [= <- _ _ <-].
    eapply accounts_then_same; [|apply store_holds]. eapply accounts_then_same; [|exact Hrel].
    apply (abandoned o o0 _ (bd_name b) sp); done || congruence.
Qed.

Lemma pass_accounts o n e o' : DispatchNext uuid start_time cf projectID planID o = (n, e, o') → accounts n o o'.
Proof.
  apply (R_pass uuid start_time cf projectID planID accounts).
  - intros o0. apply accounts_same. by split_and!.
  - intros. by eapply accounts_trans.
  - intros. apply accounts_same, store_holds.
  - intros. apply accounts_same. by split_and!.
  - intros. apply accounts_same. by split_and!.
  - intros. apply accounts_same. by split_and!.
  - intros. by eapply step_accounts.
  - intros. by eapply fanout_accounts.
Qed.
End Holdings.
