(* ===== verification/OrchClaims.v ===== *)
(** * Claims across a dispatch pass

    A pass as a run of the store's own operations; the rows it sets running are
    those of the turns it launches, and each turn holds the claims it was given. *)
From S2P Require Import Prelude GoLib StoreModel StoreSql StoreTasks StoreWorkers Dfs StoreGraph StoreMeta StoreInv StoreSpec StoreTrace StoreProjects StoreCalibrations PlanModel PlanImport PlanParse Provider CmdResolver OrchSpend OrchPaths OrchVerify OrchBinding OrchDispatch OrchPass.

(** ** Operations that set nothing running *)

Section Calm.
Context `{SqlEngine}.

(** The rows that run are the same rows. *)
Definition same_running (s s' : DB) : Prop :=
  ∀ k t, running t → (db_tasks s !! k = Some t ↔ db_tasks s' !! k = Some t).

Definition calm (op : Op) : Prop :=
  match op with
  | OpCreateSession _ _ | OpCreateWorker _ _ | OpSetWorkerTask _ _ _ | OpClearWorkerTask _ _ | OpCreateTask _
  | OpMaterializePlanGraph _ _ | OpPutTaskMetadata _ _ _ _ _ | OpMarkBlockedCapability _ _ _
  | OpMarkBlockedInput _ _ _ | OpClearTaskBlock _ _ _ | OpEmit _ => True
  | _ => False
  end.

Lemma calm_touches op k t t' : calm op → touches op k t t' → ¬ running t ∧ ¬ running t'.
Proof.
  destruct op; simpl; try done; intros _.
  - intros (_ & Hd & ->). split; [by apply dispatchable_idle|done].
  - intros (_ & Hd & ->). split; [by apply dispatchable_idle|done].
  - intros (_ & Hb & Hor & ->). split; [|done]. unfold running. destruct Hor; congruence.
Qed.

Lemma calm_running op s : wf s → calm op → same_running s (exec op s).
Proof.
  intros Hwf Hc k t Hr.
  assert (∀ p, op ≠ OpDeletePlan p) as Hop by (intros p ->; done).
  pose proof (exec_rows op s Hwf Hop k) as Hev.
  destruct (db_tasks s !! k) as [t0|] eqn:Hk, (db_tasks (exec op s) !! k) as [t1|] eqn:Hk'; [| |destruct Hev as (Hst & _)|].
  - destruct Hev as [->|Ht]; [done|]. apply calm_touches in Ht as [Hn Hn']; [|done].
    split; intros [= ->]; done.
  - done.
  - split; [done|]. intros [= ->]. unfold running in Hr. destruct Hst; congruence.
  - done.
Qed.

Lemma same_running_refl s : same_running s s.
Proof. done. Qed.
Lemma same_running_trans s1 s2 s3 : same_running s1 s2 → same_running s2 s3 → same_running s1 s3.
Proof. intros H1 H2 k t Hr. by rewrite (H1 k t Hr), (H2 k t Hr). Qed.

(** A run of calm operations. *)
Definition calm_run (s s' : DB) : Prop :=
  ∃ ops, Forall calm ops ∧ run_from s ops s'.

Lemma calm_pre op s : calm op → op_pre s op.
Proof. by destruct op. Qed.

Lemma calm_run_refl s : calm_run s s.
Proof. exists []. split; [done|constructor]. Qed.
Lemma calm_run_trans s1 s2 s3 : calm_run s1 s2 → calm_run s2 s3 → calm_run s1 s3.
Proof.
  intros (ops1 & Hc1 & Hr1) (ops2 & Hc2 & Hr2). exists (ops1 ++ ops2).
  split; [by apply Forall_app|by eapply run_from_app].
Qed.
Lemma calm_run_one op s : calm op → calm_run s (exec op s).
Proof. intros Hc. exists [op]. split; [by constructor|]. by apply run_one, calm_pre. Qed.

Lemma calm_run_running s s' : wf s → calm_run s s' → same_running s s'.
Proof.
  intros Hwf (ops & Hc & Hr). induction Hr as [|ops op s' Hr IH Hp]; [apply same_running_refl|].
  assert (wf s') as Hwf' by by eapply run_wf.
  apply Forall_app in Hc as [Hc [Hop _]%Forall_cons].
  exact (same_running_trans _ _ _ (IH Hc) (calm_running op s' Hwf' Hop)).
Qed.

Lemma calm_run_ops s s' : calm_run s s' → ∃ ops, run_from s ops s'.
Proof. intros (ops & _ & Hr). by exists ops. Qed.

(** ** The store calls of a pass *)

Lemma wave_calm `{PlanCodec} `{BindingCodec} planID parsed s : calm_run s (loadReadyWave planID parsed s).2.
Proof.
  assert (calm_run s (ensurePlanGraph planID parsed s).2) as Hg.
  { unfold ensurePlanGraph. destruct (ListTasks planID [] s); [|apply calm_run_refl].
    destruct (graphSpecs parsed) as [specs|]; [|apply calm_run_refl].
    pose proof (calm_run_one (OpMaterializePlanGraph planID specs) s I) as Hm. simpl in Hm.
    by destruct (MaterializePlanGraph planID specs s) as [[] s']. }
  unfold loadReadyWave, sbind. by destruct (ensurePlanGraph planID parsed s) as [[] s'].
Qed.

(** Operations that leave sessions and workers alone keep a claim's worker. *)
Definition same_workers (s s' : DB) : Prop := db_workers s' = db_workers s ∧ db_sessions s' = db_sessions s.

Lemma metadata_calm `{PlanCodec} planID taskID ref step s :
  calm_run s (materializeStepMetadata planID taskID ref step s).2 ∧
  same_workers s (materializeStepMetadata planID taskID ref step s).2.
Proof.
  unfold materializeStepMetadata. set (j := match st_metadata step with None => _ | Some m => marshal_metadata m end).
  set (tm := match st_metadata step with None => _ | Some m => md_team m end).
  pose proof (calm_run_one (OpPutTaskMetadata planID taskID (GroupID ref) tm j) s I) as Hm. simpl in Hm.
  assert (same_workers s (putTaskMetadataOn planID taskID (GroupID ref) tm j s).2) as Hw.
  { unfold putTaskMetadataOn, sfail. by repeat case_match. }
  destruct (putTaskMetadataOn planID taskID (GroupID ref) tm j s) as [[[]|e] s'] eqn:Hp; [done|].
  by destruct e.
Qed.

Lemma materialize_calm `{PlanCodec} planID ref step s :
  calm_run s (materializeStepTask planID ref step s).2 ∧ same_workers s (materializeStepTask planID ref step s).2.
Proof.
  unfold materializeStepTask, GetTask. destruct (db_tasks s !! (planID, stepTaskID ref step)) as [t|] eqn:Hk.
  { pose proof (metadata_calm planID (stepTaskID ref step) ref step s) as Hm.
    by destruct (materializeStepMetadata planID (stepTaskID ref step) ref step s) as [[] s']. }
  set (o := mkCreateTaskOpts _ _ _ _ _ _ _ _).
  pose proof (calm_run_one (OpCreateTask o) s I) as Hc. simpl in Hc.
  assert (same_workers s (createTaskOn o s).2) as Hw by (unfold createTaskOn, sfail; by repeat case_match).
  assert (∀ s1, calm_run s s1 → same_workers s s1 →
    let out := match materializeStepMetadata planID (stepTaskID ref step) ref step s1 with
               | (Err e, s'') => (Err e, s'')
               | (Ok _, s'') => GetTask planID (stepTaskID ref step) s''
               end in calm_run s out.2 ∧ same_workers s out.2) as Hmeta.
  { intros s1 Hr1 [Hw1 Hs1]. pose proof (metadata_calm planID (stepTaskID ref step) ref step s1) as [Hm [Hw2 Hs2]].
    destruct (materializeStepMetadata planID (stepTaskID ref step) ref step s1) as [[] s2]; simpl in *.
    - assert ((GetTask planID (stepTaskID ref step) s2).2 = s2) as -> by (unfold GetTask; by destruct (db_tasks s2 !! (planID, stepTaskID ref step))).
      split; [by eapply calm_run_trans|split; congruence].
    - split; [by eapply calm_run_trans|split; congruence]. }
  destruct (createTaskOn o s) as [[[]|e] s1]; simpl in Hc, Hw; [exact (Hmeta s1 Hc Hw)|].
  destruct (errors_is e ErrDuplicateTask); [exact (Hmeta s1 Hc Hw)|done].
Qed.
End Calm.

(** ** Claims *)

Section Claims.
Context `{SqlEngine}.

Definition held_for (x w : string) (t : Task) : Prop :=
  running t ∧ t_claimed_by_session t = Some x ∧ t_claimed_by_worker t = Some w.

(** Between two states: the plan's tasks [ids] were claimed for a worker, and
    nothing else was set running or lost. *)
Record claims_of (p x w : string) (ids : list string) (s s' : DB) : Prop := {
  co_run : ∃ ops, run_from s ops s';
  co_keep : ∀ k t, running t → db_tasks s !! k = Some t → db_tasks s' !! k = Some t;
  co_new : ∀ k t, running t → db_tasks s' !! k = Some t →
    db_tasks s !! k = Some t ∨ (k.1 = p ∧ k.2 ∈ ids ∧ held_for x w t);
  co_held : ∀ i, i ∈ ids → ∃ t, db_tasks s' !! (p, i) = Some t ∧ held_for x w t;
  co_workers : same_workers s s' }.

Lemma claims_calm p x w s s' : wf s → calm_run s s' → same_workers s s' → claims_of p x w [] s s'.
Proof.
  intros Hwf Hc Hw. pose proof (calm_run_running _ _ Hwf Hc) as Hr. constructor; [by apply calm_run_ops| | |set_solver|done].
  - intros k t Hrun. by apply (Hr k t Hrun).
  - intros k t Hrun Hk. left. by apply (Hr k t Hrun).
Qed.

Lemma claims_trans p x w ids1 ids2 s1 s2 s3 :
  claims_of p x w ids1 s1 s2 → claims_of p x w ids2 s2 s3 → claims_of p x w (ids1 ++ ids2) s1 s3.
Proof.
  intros [(ops1 & Hr1) Hk1 Hn1 Hh1 [Hw1 Hs1]] [(ops2 & Hr2) Hk2 Hn2 Hh2 [Hw2 Hs2]]. constructor.
  - exists (ops1 ++ ops2). by eapply run_from_app.
  - auto.
  - intros k t Hrun Hk. destruct (Hn2 k t Hrun Hk) as [Hk'|(? & ? & ?)]; [|right; set_solver].
    destruct (Hn1 k t Hrun Hk') as [|(? & ? & ?)]; [by left|right; set_solver].
  - intros i [Hi|Hi]%elem_of_app; [|by apply Hh2]. destruct (Hh1 i Hi) as (t & Ht & Hheld).
    exists t. split; [|done]. apply Hk2; [apply Hheld|done].
  - split; congruence.
Qed.

Lemma claims_of_wf p x w ids s s' : wf s → claims_of p x w ids s s' → wf s'.
Proof. intros Hwf [(ops & Hr) _ _ _ _]. by eapply run_wf. Qed.

Lemma claimTaskOnce_claims p i x w s r s' :
  worker_of s x w → claimTaskOnce p i x w s = (r, s') →
  claims_of p x w (match r with Ok _ => [i] | Err _ => [] end) s s'.
Proof.
  intros Hw Hc. assert (claims_of p x w [] s s) as Hnone.
  { constructor; [exists []; constructor|done|by left|set_solver|done]. }
  pose proof (run_one s (OpClaimTask p i x w) Hw) as Hrun. simpl in Hrun. rewrite Hc in Hrun. revert Hc.
  rewrite claimTaskOnce_run. destruct (db_tasks s !! (p, i)) as [t|] eqn:Hk; [|by intros [= <- <-]].
  destruct (claimable (t_status t) && deps_satisfied s p i) eqn:Hcl; [|by intros [= <- <-]].
  destruct (decide _); [|by intros [= <- <-]]. destruct (has x _ && has w _); [|by intros [= <- <-]].
  apply andb_true_iff in Hcl as [Hcl _]. apply claimable_idle in Hcl. intros [= <- <-]. simpl in Hrun.
  constructor; simpl.
  - by eexists.
  - intros k t' Hr Hk'. rewrite lookup_insert_ne; [done|]. intros <-. congruence.
  - intros k t' Hr. destruct (decide (k = (p, i))) as [->|Hne]; [rewrite lookup_insert_eq|rewrite lookup_insert_ne by done; by left].
    intros [= <-]. right. simpl. split_and!; [done|set_solver|done].
  - intros j ->%list_elem_of_singleton. exists (claim_task x w t). by rewrite lookup_insert_eq.
  - done.
Qed.

Lemma claimStepTask_claims `{PlanCodec} p ref step x w s r s' :
  wf s → worker_of s x w → claimStepTask p ref step x w s = (r, s') →
  claims_of p x w (match r with Ok (Some _) => [stepTaskID ref step] | _ => [] end) s s'.
Proof.
  intros Hwf Hw. unfold claimStepTask. pose proof (materialize_calm p ref step s) as [Hm Hmw].
  destruct (materializeStepTask p ref step s) as [[t|e] s1]; simpl in Hm, Hmw;
    [|intros [= <- <-]; by apply claims_calm].
  apply (claims_calm p x w) in Hm; [|done..].
  assert (worker_of s1 x w) as Hw1 by (unfold worker_of in *; by rewrite (proj1 Hmw)).
  destruct (claimTaskOnce p (stepTaskID ref step) x w s1) as [r2 s2] eqn:Hc.
  apply claimTaskOnce_claims in Hc; [|done]. pose proof (claims_trans _ _ _ _ _ _ _ _ Hm Hc) as Ht. simpl in Ht.
  destruct r2 as [t'|e]; [by intros [= <- <-]|]. destruct (_ || _); by intros [= <- <-].
Qed.

(** Giving the claims of a session back. *)
Definition released_from (p x : string) (ids : list string) (s s' : DB) : Prop :=
  (∃ ops, run_from s ops s') ∧
  (∀ k t, running t → t_claimed_by_session t ≠ Some x → db_tasks s !! k = Some t → db_tasks s' !! k = Some t) ∧
  (∀ k t, running t → db_tasks s' !! k = Some t →
     db_tasks s !! k = Some t ∧ ¬ (k.1 = p ∧ k.2 ∈ ids ∧ t_claimed_by_session t = Some x)).

Lemma release_one p x i reason s :
  released_from p x [i] s (ReleaseClaim p i x reason s).2.
Proof.
  split; [exists [OpReleaseClaim p i x reason]; by apply (run_one s (OpReleaseClaim p i x reason))|].
  rewrite ReleaseClaim_run. destruct (reporter s (p, i) x) as [t0|] eqn:Hr; simpl.
  - apply reporter_some in Hr as (Hk0 & Hrun0 & Hx0). split; intros k t Hrun.
    + intros Hx Hk. rewrite lookup_insert_ne; [done|]. intros <-. congruence.
    + destruct (decide (k = (p, i))) as [->|Hne].
      * rewrite lookup_insert_eq. intros [= <-]. done.
      * rewrite lookup_insert_ne by done. intros Hk. split; [done|]. destruct k as [p' i']. simpl. intros (-> & ->%list_elem_of_singleton & _). done.
  - split; intros k t Hrun; [done|]. intros Hk. split; [done|].
    destruct k as [p' i']. simpl. intros (-> & ->%list_elem_of_singleton & Hx).
    assert (reporter s (p, i) x = Some t) by by apply reporter_some. congruence.
Qed.

Lemma release_trans p x ids1 ids2 s1 s2 s3 :
  released_from p x ids1 s1 s2 → released_from p x ids2 s2 s3 → released_from p x (ids1 ++ ids2) s1 s3.
Proof.
  intros ((ops1 & Hr1) & Hk1 & Hn1) ((ops2 & Hr2) & Hk2 & Hn2). split; [exists (ops1 ++ ops2); by eapply run_from_app|].
  split; [auto|]. intros k t Hrun Hk. destruct (Hn2 k t Hrun Hk) as [Hk' Hno2], (Hn1 k t Hrun Hk') as [Hk'' Hno1].
  split; [done|]. rewrite elem_of_app. tauto.
Qed.

(** ** Turns *)

Definition holds_claims (s : DB) (f : Flight) : Prop :=
  ∀ i, i ∈ ft_tasks f → ∃ t, db_tasks s !! (ft_plan f, i) = Some t ∧ held_for (ft_session f) (ft_worker f) t.

(** Between two states the turns [new] were launched: a run of store operations
    that kept every running row, after which a row runs only if it did before or
    is a task of one of the turns, and each turn holds the claims of its tasks. *)
Record turns_claim (new : list Flight) (s s' : DB) : Prop := {
  tc_run : ∃ ops, run_from s ops s';
  tc_keep : ∀ k t, running t → db_tasks s !! k = Some t → db_tasks s' !! k = Some t;
  tc_new : ∀ k t, running t → db_tasks s' !! k = Some t →
    db_tasks s !! k = Some t ∨ ∃ f, f ∈ new ∧ k.1 = ft_plan f ∧ k.2 ∈ ft_tasks f;
  tc_held : Forall (holds_claims s') new }.

Lemma turns_calm s s' : wf s → calm_run s s' → turns_claim [] s s'.
Proof.
  intros Hwf Hc. pose proof (calm_run_running _ _ Hwf Hc) as Hr. constructor; [by apply calm_run_ops| | |done].
  - intros k t Hrun. by apply (Hr k t Hrun).
  - intros k t Hrun Hk. left. by apply (Hr k t Hrun).
Qed.

Lemma turns_wf new s s' : wf s → turns_claim new s s' → wf s'.
Proof. intros Hwf [(ops & Hr) _ _ _]. by eapply run_wf. Qed.

Lemma holds_keep s s' f :
  (∀ k t, running t → db_tasks s !! k = Some t → db_tasks s' !! k = Some t) → holds_claims s f → holds_claims s' f.
Proof. intros Hk Hf i Hi. destruct (Hf i Hi) as (t & Ht & Hh). exists t. split; [apply Hk; [apply Hh|done]|done]. Qed.

Lemma turns_trans new1 new2 s1 s2 s3 :
  turns_claim new1 s1 s2 → turns_claim new2 s2 s3 → turns_claim (new2 ++ new1) s1 s3.
Proof.
  intros [(ops1 & Hr1) Hk1 Hn1 Hh1] [(ops2 & Hr2) Hk2 Hn2 Hh2]. constructor.
  - exists (ops1 ++ ops2). by eapply run_from_app.
  - auto.
  - intros k t Hrun Hk. destruct (Hn2 k t Hrun Hk) as [Hk'|(f & ? & ?)]; [|right; exists f; set_solver].
    destruct (Hn1 k t Hrun Hk') as [|(f & ? & ?)]; [by left|right; exists f; set_solver].
  - apply Forall_app. split; [done|]. eapply Forall_impl; [done|]. intros f. by apply holds_keep.
Qed.

Lemma turns_launched p x w ids pr b s s' :
  claims_of p x w ids s s' → turns_claim [mkFlight pr p x w ids b] s s'.
Proof.
  intros [Hr Hk Hn Hh _]. constructor; [done..| |].
  - intros k t Hrun Hk'. destruct (Hn k t Hrun Hk') as [|(? & ? & _)]; [by left|right].
    eexists. split; [by apply list_elem_of_singleton|done].
  - constructor; [|done]. intros i Hi. by apply Hh.
Qed.

Lemma turns_none p x w s s' : claims_of p x w [] s s' → turns_claim [] s s'.
Proof.
  intros [Hr Hk Hn _ _]. constructor; [done..| |done]. intros k t Hrun Hk'.
  destruct (Hn k t Hrun Hk') as [|(_ & Hi & _)]; [by left|by apply elem_of_nil in Hi].
Qed.

Definition unclaimed (x : string) (s : DB) : Prop :=
  ∀ k t, db_tasks s !! k = Some t → t_claimed_by_session t ≠ Some x.

(** Claimed for a session that had nothing, and given back: as before. *)
Lemma turns_given_back p x w ids s s1 s2 :
  unclaimed x s → claims_of p x w ids s s1 → released_from p x ids s1 s2 → turns_claim [] s s2.
Proof.
  intros Hfresh [(ops1 & Hr1) Hk1 Hn1 Hh1 _] ((ops2 & Hr2) & Hk2 & Hn2). constructor.
  - exists (ops1 ++ ops2). by eapply run_from_app.
  - intros k t Hrun Hk. apply Hk2; [done|by eapply Hfresh|by apply Hk1].
  - intros k t Hrun Hk. destruct (Hn2 k t Hrun Hk) as [Hk' Hno]. destruct (Hn1 k t Hrun Hk') as [|(Hp & Hi & Hh)]; [by left|].
    destruct Hno. split_and!; [done..|]. apply Hh.
  - done.
Qed.
End Claims.

(** ** The pass *)

Section Pass.
Context `{SqlEngine} `{PlanCodec} `{BindingCodec} `{Json} `{Markdown} `{FileSystem} `{CostOps} `{!Texts}
  `{BindingResolver} `{InvocationHash}.
Context (uuid : nat → string) (start_time : string) (cf : Config) (projectID planID : string).

Definition pass_claims (n : nat) (o o' : Orch) : Prop :=
  wf (oc_db o) → ∃ new, oc_flights o' = new ++ oc_flights o ∧ turns_claim new (oc_db o) (oc_db o').

Lemma run_store_db {A} (m : Store A) o : oc_db (run_store m o).2 = (m (oc_db o)).2.
Proof. unfold run_store. by destruct (m (oc_db o)). Qed.
Lemma run_store_flights {A} (m : Store A) o : oc_flights (run_store m o).2 = oc_flights o.
Proof. unfold run_store. by destruct (m (oc_db o)). Qed.
Lemma release_slot_db o : oc_db (releaseDispatchSlot cf o) = oc_db o.
Proof. unfold releaseDispatchSlot. by destruct (negb _). Qed.
Lemma release_slot_flights o : oc_flights (releaseDispatchSlot cf o) = oc_flights o.
Proof. unfold releaseDispatchSlot. by destruct (negb _). Qed.
Lemma acquire_same o b o1 :
  acquireDispatchSlot cf o = (b, o1) → oc_cal o1 = oc_cal o ∧ oc_flights o1 = oc_flights o.
Proof. unfold acquireDispatchSlot. destruct (negb _); [by intros [= _ <-]|]. by destruct (_ <? _)%Z; intros [= _ <-]. Qed.

(** [on_store], by what the call did. *)
Lemma on_store_inv {A} (m : Store A) o r o' :
  on_store m o = (r, o') →
  oc_flights o' = oc_flights o ∧ ∃ r0, m (oc_db o) = (r0, oc_db o') ∧
    match r0, r with Ok a, Ok b => a = b | Err _, Err _ => True | _, _ => False end.
Proof.
  unfold on_store, run_store. destruct (m (oc_db o)) as [r0 s'] eqn:Hm. destruct r0; intros [= <- <-]; (split; [done|]); by eexists.
Qed.

Lemma spawn_claims b o r o' :
  wf (oc_db o) → spawnWorkerRows uuid start_time b o = (r, o') →
  oc_flights o' = oc_flights o ∧ calm_run (oc_db o) (oc_db o') ∧
  match r with Ok (x, w) => worker_of (oc_db o') x w ∧ unclaimed x (oc_db o') | Err _ => True end.
Proof.
  intros Hwf. unfold spawnWorkerRows.
  set (so := mkSessionOpts _ _ _ _ _). destruct (on_store (CreateSession _ so) _) as [r1 o1] eqn:Hs.
  apply on_store_inv in Hs as (Hf1 & r1' & Hs & Hr1). 
  pose proof (calm_run_one (OpCreateSession (uuid (oc_uuids o)) so) (oc_db o) I) as Hc1. simpl in Hc1.
  change (oc_db (next_uuid o)) with (oc_db o) in Hs. rewrite Hs in Hc1. simpl in Hc1.
  destruct r1 as [x|e]; [|intros [= <- <-]; done]. destruct r1' as [x'|]; [|done]. subst x'.
  assert (x = uuid (oc_uuids o) ∧ db_sessions (oc_db o) !! x = None ∧ db_tasks (oc_db o1) = db_tasks (oc_db o)) as (-> & Hnew & Htasks).
  { revert Hs. unfold CreateSession. simpl. destruct (has (uuid (oc_uuids o)) (db_sessions (oc_db o))) eqn:Hh; [done|].
    intros [= <- <-]. apply bool_decide_eq_false in Hh. by rewrite <-eq_None_not_Some in Hh. }
  set (wo := mkWorkerOpts _ _ _ _ _ _). destruct (on_store (CreateWorker _ wo) _) as [r2 o2] eqn:Hw.
  apply on_store_inv in Hw as (Hf2 & r2' & Hw & Hr2).
  pose proof (calm_run_one (OpCreateWorker (uuid (oc_uuids o1)) wo) (oc_db o1) I) as Hc2. simpl in Hc2.
  change (oc_db (next_uuid o1)) with (oc_db o1) in Hw. rewrite Hw in Hc2. simpl in Hc2, Hf1, Hf2.
  destruct r2 as [w|e]; intros [= <- <-]; (split; [congruence|]); (split; [by eapply calm_run_trans|]); [|done].
  destruct r2' as [w'|]; [|done]. subst w'. revert Hw. unfold CreateWorker, sfail. destruct (bool_decide _); [done|].
  destruct (has _ (db_workers (oc_db o1))); [done|]. destruct (negb _); [done|]. intros [= <- Hdb]. rewrite <-Hdb. split.
  - eexists. split; [apply lookup_insert_eq|done].
  - intros k t. simpl. rewrite Htasks. intros Hk Hx. destruct (wf_claim _ Hwf k t Hk) as [_ Hsess _ _].
    destruct (Hsess _ Hx). congruence.
Qed.

Lemma pass_calm n o o' : oc_flights o' = oc_flights o → calm_run (oc_db o) (oc_db o') → pass_claims n o o'.
Proof. intros Hf Hc Hwf. exists []. split; [done|]. by apply turns_calm. Qed.

Lemma store_calm op {A} (m : Store A) o :
  calm op → (∀ s, exec op s = (m s).2) → calm_run (oc_db o) (oc_db (run_store m o).2).
Proof. intros Hc He. rewrite run_store_db, <-He. by apply calm_run_one. Qed.

Lemma emit_calm e o : calm_run (oc_db o) (oc_db (emit e o)).
Proof. by apply (store_calm (OpEmit e)). Qed.
Lemma emit_flights e o : oc_flights (emit e o) = oc_flights o.
Proof. apply run_store_flights. Qed.
Lemma clear_calm w st o : calm_run (oc_db o) (oc_db (clear_worker w st o)).
Proof. by apply (store_calm (OpClearWorkerTask w st)). Qed.
Lemma clear_flights w st o : oc_flights (clear_worker w st o) = oc_flights o.
Proof. apply run_store_flights. Qed.

Lemma release_all_same a o :
  oc_db (release_all cf projectID a o) = oc_db o ∧ oc_flights (release_all cf projectID a o) = oc_flights o.
Proof. unfold release_all. case_decide; (split; [apply release_slot_db|apply release_slot_flights]). Qed.

(** A claimed task has a row, so its worker can be assigned it. *)
Lemma SetWorkerTask_held w i s :
  is_Some (db_tasks s !! (planID, i)) → ∃ s', SetWorkerTask w planID i s = (Ok tt, s').
Proof.
  intros Hk. unfold SetWorkerTask, worker_fk_ok, nullIfEmpty.
  assert (has (planID, i) (db_tasks s) = true) as Hh by (by apply bool_decide_eq_true).
  destruct (decide (planID = "")), (decide (i = "")); simpl; rewrite ?andb_false_r, ?Hh; simpl; rewrite ?andb_false_r; eauto.
Qed.

(** The end of a launch that claimed its tasks. *)
Lemma assign_launched o o1 o2 x w i ids b r :
  wf (oc_db o) → i ∈ ids → claims_of planID x w ids (oc_db o) (oc_db o1) →
  on_store (SetWorkerTask w planID i) o1 = (r, o2) →
  r = Ok tt ∧ oc_flights o2 = oc_flights o1 ∧ turns_claim [mkFlight projectID planID x w ids b] (oc_db o) (oc_db o2).
Proof.
  intros Hwf Hi Hc Hset. destruct (co_held _ _ _ _ _ _ Hc i Hi) as (t & Ht & _).
  apply on_store_inv in Hset as (Hf & r0 & Hset & Hr).
  destruct (SetWorkerTask_held w i (oc_db o1)) as [s' Hok]; [by eexists|]. rewrite Hok in Hset. injection Hset as <- ->.
  destruct r as [[]|]; [|done]. split; [done|]. split; [done|].
  assert (calm_run (oc_db o1) (oc_db o2)) as Hcalm.
  { pose proof (calm_run_one (OpSetWorkerTask w planID i) (oc_db o1) I) as Hcr. simpl in Hcr. by rewrite Hok in Hcr. }
  apply (turns_trans [_] [] _ (oc_db o1)); [by apply turns_launched|]. apply turns_calm; [|done]. by eapply claims_of_wf.
Qed.

Lemma turns_then_calm new s1 s2 s3 : wf s1 → turns_claim new s1 s2 → calm_run s2 s3 → turns_claim new s1 s3.
Proof. intros Hwf Ht Hc. apply (turns_trans new [] _ s2); [done|]. apply turns_calm; [by eapply turns_wf|done]. Qed.

Lemma step_claims projectDir parallel ref step o o1 r o2 n :
  acquireDispatchSlot cf o = (true, o1) →
  dispatchReadyStep uuid start_time cf projectID projectDir planID parallel ref step o1 = (r, o2) →
  pass_claims n o o2.
Proof.
  intros Hacq. apply acquire_same in Hacq as [Hcal Hfl]. assert (oc_db o1 = oc_db o) as Hdb by (unfold oc_db; by rewrite Hcal).
  unfold dispatchReadyStep. destruct (choose_binding _ _ _ _ _ _ _ _ _) as [[b|named e|e] rs]; cycle 1.
  { intros [= <- <-]. unfold refuse. apply pass_calm; [by rewrite emit_flights, release_slot_flights|].
    rewrite <-Hdb. rewrite <-(release_slot_db (set_resolver rs o1)) at 1. apply emit_calm. }
  { intros [= <- <-]. apply pass_calm; [by rewrite release_slot_flights|]. rewrite release_slot_db, <-Hdb. apply calm_run_refl. }
  destruct (checkSpendCap projectID (bd_name b) _) as [[[]|e] sp]; cycle 1.
  { intros [= <- <-]. unfold refuse. apply pass_calm; [by rewrite emit_flights, release_slot_flights|].
    rewrite <-Hdb. rewrite <-(release_slot_db (set_spending sp (set_resolver rs o1))) at 1. apply emit_calm. }
  intros Hrun Hwf. rewrite <-Hdb in Hwf |- *. rewrite <-Hfl.
  destruct (spawnWorkerRows _ _ b _) as [[[x w]|e] o3] eqn:Hsp; apply spawn_claims in Hsp as (Hf3 & Hc3 & Hx); try exact Hwf; cycle 1.
  { injection Hrun as <- <-. destruct (release_all_same (bd_name b) o3) as [Hd Hf]. exists []. split; [simpl in *; congruence|]. rewrite Hd. by apply turns_calm. }
  simpl in Hf3, Hc3. destruct Hx as [Hwk _].
  assert (turns_claim [] (oc_db o1) (oc_db o3)) as Ht3 by by apply turns_calm. pose proof (turns_wf _ _ _ Hwf Ht3) as Hwf3.
  destruct (on_store (claimStepTask planID ref step x w) o3) as [r4 o4] eqn:Hcl.
  apply on_store_inv in Hcl as (Hf4 & r4' & Hcl & Hr4). apply claimStepTask_claims in Hcl; [|done..].
  destruct (release_all_same (bd_name b) o4) as [Hd Hf].
  assert (∀ st, r4' = Ok None ∨ is_ok r4' = false → ∃ new,
    oc_flights (clear_worker w st (release_all cf projectID (bd_name b) o4)) = new ++ oc_flights o1 ∧
    turns_claim new (oc_db o1) (oc_db (clear_worker w st (release_all cf projectID (bd_name b) o4)))) as Hnone.
  { intros st Hr. exists []. split; [rewrite clear_flights, Hf, Hf4; exact Hf3|].
    eapply turns_then_calm; [done| |apply clear_calm]. rewrite Hd. apply (turns_trans [] [] _ (oc_db o3)); [done|].
    apply (turns_none planID x w). destruct Hr as [->|Hr]; [done|]. by destruct r4'. }
  destruct r4 as [[t|]|e], r4' as [t'|e']; try done; subst.
  - destruct (on_store (SetWorkerTask _ _ _) o4) as [r5 o5] eqn:Hset.
    apply (assign_launched o3 o4 o5 x w _ [stepTaskID ref step] b) in Hset as (-> & Hf5 & Ht5); [|done|set_solver|done].
    injection Hrun as <- <-. exists [mkFlight projectID planID x w [stepTaskID ref step] b].
    split; [simpl; by rewrite Hf5, Hf4, Hf3|]. exact (turns_trans [] _ _ _ _ Ht3 Ht5).
  - injection Hrun as <- <-. apply Hnone. by left.
  - injection Hrun as <- <-. apply Hnone. by right.
Qed.

Lemma claim_group_claims x w steps o claimed e o' :
  wf (oc_db o) → worker_of (oc_db o) x w → claim_group planID x w steps o = (claimed, e, o') →
  oc_flights o' = oc_flights o ∧ claims_of planID x w claimed (oc_db o) (oc_db o').
Proof.
  revert o claimed e o'. induction steps as [|[ref step] steps IH]; intros o claimed e o' Hwf Hw; cbn [claim_group].
  { intros [= <- _ <-]. split; [done|]. apply claims_calm; [done|apply calm_run_refl|done]. }
  destruct (on_store (claimStepTask planID ref step x w) o) as [r o1] eqn:Hcl.
  apply on_store_inv in Hcl as (Hf1 & r1 & Hcl & Hr1). apply claimStepTask_claims in Hcl; [|done..].
  assert (wf (oc_db o1)) as Hwf1 by by eapply claims_of_wf.
  assert (worker_of (oc_db o1) x w) as Hw1.
  { destruct (co_workers _ _ _ _ _ _ Hcl) as [Hws _]. unfold worker_of in *. by rewrite Hws. }
  destruct r as [[t|]|e1], r1 as [t1|e2]; try done; subst.
  - destruct (claim_group planID x w steps o1) as [[cl er] o2] eqn:Hg. apply IH in Hg as [Hf2 Hc2]; [|done..].
    intros [= <- _ <-]. split; [congruence|]. exact (claims_trans _ _ _ [_] _ _ _ _ Hcl Hc2).
  - intros Hg. apply IH in Hg as [Hf2 Hc2]; [|done..]. split; [congruence|]. exact (claims_trans _ _ _ [] _ _ _ _ Hcl Hc2).
  - intros [= <- _ <-]. done.
Qed.

Lemma release_claimed_released x ids o :
  oc_flights (releaseClaimedTasks planID x ids o) = oc_flights o ∧
  released_from planID x ids (oc_db o) (oc_db (releaseClaimedTasks planID x ids o)).
Proof.
  revert o. induction ids as [|i ids IH]; intros o.
  - split; [done|]. split; [exists []; constructor|]. split; [done|]. intros k t _ Hk. split; [done|]. by intros (_ & []%elem_of_nil & _).
  - change (releaseClaimedTasks planID x (i :: ids) o) with
      (releaseClaimedTasks planID x ids (run_store (ReleaseClaim planID i x "released: fan-out group claim aborted") o).2).
    destruct (IH (run_store (ReleaseClaim planID i x "released: fan-out group claim aborted") o).2) as [Hf Hr].
    split; [by rewrite Hf, run_store_flights|]. rewrite run_store_db in Hr.
    exact (release_trans _ _ [i] _ _ _ _ (release_one _ _ _ _ _) Hr).
Qed.

Lemma fanout_claims projectDir parallel eligible o n a e o' :
  dispatch_fanout uuid start_time cf projectID projectDir planID parallel eligible o = (n, a, e, o') → pass_claims n o o'.
Proof.
  unfold dispatch_fanout. destruct (acquireDispatchSlot cf o) as [[] o1] eqn:Hacq; apply acquire_same in Hacq as [Hcal Hfl];
    (assert (oc_db o1 = oc_db o) as Hdb by (unfold oc_db; by rewrite Hcal)); cycle 1.
  { intros [= _ _ _ <-]. unfold reportSaturation. destruct (decide _); apply pass_calm; rewrite ?emit_flights; try done.
    - rewrite Hdb. apply calm_run_refl.
    - rewrite <-Hdb. apply (emit_calm _ (set_slots (oc_slots o1) _ o1)). }
  destruct (resolveBinding projectID parallel BindingDispatch (oc_resolver o1)) as [[b|] rs]; cycle 1.
  { intros [= _ _ _ <-]. apply pass_calm; rewrite ?release_slot_flights, ?release_slot_db; [done|]. rewrite <-Hdb. apply calm_run_refl. }
  destruct (negb _).
  { intros [= _ _ _ <-]. apply pass_calm; rewrite ?release_slot_flights, ?release_slot_db; [done|]. rewrite <-Hdb. apply calm_run_refl. }
  destruct (resolveContainment _ _ _ _ b); cycle 1.
  { intros [= _ _ _ <-]. unfold refuse. apply pass_calm; [by rewrite emit_flights, release_slot_flights|].
    rewrite <-Hdb. rewrite <-(release_slot_db (set_resolver rs o1)) at 1. apply emit_calm. }
  unfold dispatchFanoutGroup. destruct (checkSpendCap projectID (bd_name b) _) as [[[]|e'] sp]; cycle 1.
  { intros [= _ _ _ <-]. unfold refuse. apply pass_calm; [by rewrite emit_flights, release_slot_flights|].
    rewrite <-Hdb. rewrite <-(release_slot_db (set_spending sp (set_resolver rs o1))) at 1. apply emit_calm. }
  intros Hrun Hwf. rewrite <-Hdb in Hwf |- *. rewrite <-Hfl.
  destruct (spawnWorkerRows _ _ b _) as [[[x w]|e'] o3] eqn:Hsp; apply spawn_claims in Hsp as (Hf3 & Hc3 & Hx); try exact Hwf; cycle 1.
  { injection Hrun as _ _ _ <-. destruct (release_all_same (bd_name b) o3) as [Hd Hf]. exists []. split; [rewrite Hf; exact Hf3|]. rewrite Hd. by apply turns_calm. }
  simpl in Hf3, Hc3. destruct Hx as [Hwk Hun].
  assert (turns_claim [] (oc_db o1) (oc_db o3)) as Ht3 by by apply turns_calm. pose proof (turns_wf _ _ _ Hwf Ht3) as Hwf3.
  destruct (claim_group planID x w eligible o3) as [[claimed er] o4] eqn:Hcl. apply claim_group_claims in Hcl as [Hf4 Hc4]; [|done..].
  destruct (release_all_same (bd_name b) o4) as [Hd Hf].
  assert (∃ new, oc_flights (clear_worker w "crashed" (releaseClaimedTasks planID x claimed (release_all cf projectID (bd_name b) o4))) = new ++ oc_flights o1 ∧
    turns_claim new (oc_db o1) (oc_db (clear_worker w "crashed" (releaseClaimedTasks planID x claimed (release_all cf projectID (bd_name b) o4))))) as Haborted.
  { destruct (release_claimed_released x claimed (release_all cf projectID (bd_name b) o4)) as [Hfr Hrel]. rewrite Hd in Hrel.
    exists []. split; [rewrite clear_flights, Hfr, Hf, Hf4; exact Hf3|]. eapply turns_then_calm; [done| |apply clear_calm].
    exact (turns_trans [] [] _ _ _ Ht3 (turns_given_back _ _ _ _ _ _ _ Hun Hc4 Hrel)). }
  set (aborted := clear_worker w "crashed" (releaseClaimedTasks planID x claimed (release_all cf projectID (bd_name b) o4))) in *.
  destruct er as [er|].
  { assert (o' = aborted) as -> by (by destruct claimed; injection Hrun as _ _ _ <-). done. }
  clear Haborted. clearbody aborted. clear aborted. destruct claimed as [|i claimed].
  { injection Hrun as _ _ _ <-. exists []. split; [rewrite clear_flights, Hf, Hf4; exact Hf3|].
    eapply turns_then_calm; [done| |apply clear_calm]. rewrite Hd. exact (turns_trans [] [] _ _ _ Ht3 (turns_none _ _ _ _ _ Hc4)). }
  destruct (on_store (SetWorkerTask _ _ _) o4) as [r5 o5] eqn:Hset.
  apply (assign_launched o3 o4 o5 x w i (i :: claimed) b) in Hset as (-> & Hf5 & Ht5); [|done|by left|done].
  injection Hrun as _ _ _ <-. eexists [_]. split; [simpl; by rewrite Hf5, Hf4, Hf3|]. exact (turns_trans [] _ _ _ _ Ht3 Ht5).
Qed.

Lemma pass_run_claims o n e o' : DispatchNext uuid start_time cf projectID planID o = (n, e, o') → pass_claims n o o'.
Proof.
  apply (R_pass uuid start_time cf projectID planID pass_claims).
  - intros o0. apply pass_calm; [done|apply calm_run_refl].
  - intros m1 m2 o1 o2 o3 H12 H23 Hwf. destruct (H12 Hwf) as (new1 & Hf1 & Ht1).
    destruct (H23 (turns_wf _ _ _ Hwf Ht1)) as (new2 & Hf2 & Ht2). exists (new2 ++ new1).
    split; [by rewrite Hf2, Hf1, app_assoc|by eapply turns_trans].
  - intros A m o0 Hg. apply pass_calm; [apply run_store_flights|]. rewrite run_store_db. destruct Hg.
    + apply materialize_calm.
    + by apply (calm_run_one (OpMarkBlockedInput planID i reason)).
    + by apply (calm_run_one (OpMarkBlockedCapability planID i reason)).
    + by apply (calm_run_one (OpClearTaskBlock planID i TaskStatusBlockedCapability)).
    + by apply (calm_run_one (OpEmit e0)).
  - intros r o0. apply pass_calm; [done|apply calm_run_refl].
  - intros sat o0. apply pass_calm; [done|apply calm_run_refl].
  - intros parsed o0. apply pass_calm; [done|]. apply wave_calm.
  - intros. by eapply step_claims.
  - intros. by eapply fanout_claims.
Qed.
End Pass.
