(* ===== verification/OrchTurn.v ===== *)
(** * A provider turn, from launch to verdict: [internal/orch/orchestrator.go]

    What a launched goroutine does: [dispatchWorker] for one task,
    [runFanoutGroup] for a group, the deferred releases, and the cleanup of a
    turn that panicked. The provider's run is an input: what it returned, and
    what everyone else did to the database meanwhile. *)
From S2P Require Import Prelude GoLib StoreModel StoreSql StoreTasks StoreWorkers StoreGraph StoreMeta StoreProjects StoreCalibrations PlanModel PlanImport PlanParse Provider CmdResolver OrchSpend OrchPaths OrchVerify OrchBinding OrchDispatch.

Definition maxAuthoritativeResultBytes : Z := 16 * 2 ^ 20.
Definition defaultTurnRetries : Z := 3.

(** [len(output)]: a Go string's bytes. *)
Definition ValidateEvidenceBounds (output : string) : option TurnError :=
  if (maxAuthoritativeResultBytes <? Z.of_nat (length (chars output)))%Z
  then Some (mkTurnError [ErrAuthoritativeResultTooLarge] None) else None.

(** A row of [a2a_messages]. *)
Record A2AMessage := mkMessage {
  am_worker : option string; am_plan : string; am_task : string; am_role : string; am_content : string }.

(** The serialised evidence message; the texts of the failures that reach an
    event. *)
Class TurnTexts `{CostOps} := {
  evidence_message : string → string → Evidence → string;
  evidence_message_nonempty : ∀ task plan ev, evidence_message task plan ev ≠ "";
  invocation_text : InvocationError → string;
  calibration_text : CalibrationError → string;
  store_text : StoreError → string }.

(** What a run of the provider came to. *)
Record Outcome `{CostOps} := mkOutcome {
  ou_output : string; ou_usage : Usage; ou_error : option TurnError }.

(** The world of one turn: whether a runner could be made, the run and what
    happened during it, and what happens around the verdict of each task. *)
Record TurnWorld `{CostOps} := mkTurnWorld {
  tw_runner : bool; tw_outcome : Outcome; tw_during : DB → DB;
  tw_meanwhile : DB → DB; tw_before_mark : DB → DB; tw_expired : bool }.

Inductive TurnFail :=
| TurnNoRunner
| TurnNotConfined (e : BindingChoiceError)
| TurnTimeouts (e : TimeoutError)
| TurnUsage (e : StoreError)
| TurnMessage (e : StoreError)
| TurnMark (e : StoreError)
| TurnVerify (e : VerifyError).

Section Turn.
Context `{SqlEngine} `{PlanCodec} `{BindingCodec} `{Json} `{Markdown} `{FileSystem} `{CostOps} `{!Texts} `{!TurnTexts}
  `{BindingResolver} `{InvocationHash} `{World} `{Durations}.
Context (uuid : nat → string) (start_time : string) (cf : Config).

(** The limits the orchestrator was configured with; zero for none. *)
Context (turn_timeout stall_timeout : Z).

(** The orchestrator and what a turn leaves behind besides: the session it made
    for itself, the messages, the calls of the failure callback and the
    workers' decision logs. *)
Record Runtime := mkRuntime {
  rt_orch : Orch; rt_session : string; rt_messages : list A2AMessage;
  rt_callbacks : list (Binding * option Failure); rt_logs : gmap string string }.

Definition set_orch (o : Orch) (t : Runtime) : Runtime :=
  mkRuntime o (rt_session t) (rt_messages t) (rt_callbacks t) (rt_logs t).
Definition rt_db (t : Runtime) : DB := oc_db (rt_orch t).
Definition with_db (s : DB) (t : Runtime) : Runtime := set_orch (set_db s (rt_orch t)) t.
Definition emit_in (e : Event) (t : Runtime) : Runtime := set_orch (emit e (rt_orch t)) t.
Definition clear_in (workerID status : string) (t : Runtime) : Runtime := set_orch (clear_worker workerID status (rt_orch t)) t.
Definition callback (b : Binding) (f : option Failure) (t : Runtime) : Runtime :=
  mkRuntime (rt_orch t) (rt_session t) (rt_messages t) (rt_callbacks t ++ [(b, f)]) (rt_logs t).

(** ** Provenance *)

Definition provenance_event (f : Flight) (taskID kind reason : string) : Event :=
  mkEvent (Some (ft_project f)) (Some (ft_plan f)) (Some taskID) kind (Some "service") None
    (PayloadStruct (mkPayload "" reason [] "" false [] false (bd_name (ft_binding f)) "" "" "")).

(** The independence domain to record, and the event that explains its absence. *)
Definition provenance_domain (f : Flight) (taskID : string) (model effort : string) (t : Runtime) : string * Runtime :=
  match GetCalibrationByAlias (bd_name (ft_binding f)) (oc_cal (rt_orch t)) with
  | Ok cal =>
      if decide (cb_invocation_hash cal = InvocationConfigHash (ft_binding f) model effort)
      then (cb_independence_domain cal, t)
      else ("", emit_in (provenance_event f taskID "task.calibration_stale"
                  ("calibration " +:+ cb_id cal +:+ " measured a different invocation; independence domain not reused")) t)
  | Err (ErrCalibrationNotFound _) => ("", t)
  | Err e => ("", emit_in (provenance_event f taskID "task.provenance_calibration_error" (calibration_text e)) t)
  end.

Definition recordExecutionProvenance (f : Flight) (taskID : string) (t : Runtime) : Runtime :=
  let b := ft_binding f in
  let '(model, effort, t) :=
    match ResolveInvocation b zero_request with
    | Ok invocation => (iv_model invocation, iv_effort invocation, t)
    | Err e => ("", "", emit_in (provenance_event f taskID "task.provenance_invocation_error" (invocation_text e)) t)
    end in
  let '(domain, t) := provenance_domain f taskID model effort t in
  match run_store (RecordTaskExecution (ft_plan f) taskID (bd_name b) (bc_type (bd_config b)) model effort domain (ft_session f)) (rt_orch t) with
  | (Ok _, o) => set_orch o t
  | (Err e, o) => emit_in (provenance_event f taskID "task.provenance_write_failed" (store_text e)) (set_orch o t)
  end.

(** ** Records of the turn *)

(** [AppendMessage] of [internal/store/a2a.go], and its foreign keys. *)
Definition AppendMessage (m : A2AMessage) (t : Runtime) : result StoreError unit * Runtime :=
  if decide (am_plan m = "" ∨ am_task m = "" ∨ am_role m = "" ∨ am_content m = "")
  then (Err (ErrArguments "PlanID, TaskID, Role, and ContentJSON required"), t)
  else if negb (has (am_plan m, am_task m) (db_tasks (rt_db t))) || negb (fk_ok (am_worker m) (db_workers (rt_db t)))
  then (Err (ErrForeignKey "a2a_messages"), t)
  else (Ok tt, mkRuntime (rt_orch t) (rt_session t) (rt_messages t ++ [m]) (rt_callbacks t) (rt_logs t)).

(** The registry's copy of the workers table is brought up to date first. *)
Definition record_usage (f : Flight) (usage : Usage) (t : Runtime) : result StoreError unit * Runtime :=
  let '(r, sp) := recordUsage (ft_project f) (ft_worker f) (bd_name (ft_binding f)) "" usage
                    (see_workers (dom (db_workers (rt_db t))) (oc_spending (rt_orch t))) in
  (r, set_orch (set_spending sp (rt_orch t)) t).

Definition failureDecisionLine (category summary : string) (runningWorkers : nat) : string :=
  let load := if decide (runningWorkers = 1) then "1 worker running"
              else Itoa (Z.of_nat runningWorkers) +:+ " workers running" in
  "turn ended " +:+ category +:+ " (" +:+ load +:+ "): " +:+ summary.

Definition WriteWorkerDecision (workerID decision : string) (t : Runtime) : Runtime :=
  mkRuntime (rt_orch t) (rt_session t) (rt_messages t) (rt_callbacks t)
    (<[workerID := default "" (rt_logs t !! workerID) +:+ "- " +:+ decision +:+ String newline ""]> (rt_logs t)).

(** An absent or empty log is nothing to absorb. *)
Definition AbsorbDecisionLog (f : Flight) (taskID : string) (t : Runtime) : Runtime :=
  match rt_logs t !! ft_worker f with
  | None | Some EmptyString => t
  | Some raw =>
      emit_in (mkEvent (Some (ft_project f)) (Some (ft_plan f)) (Some taskID) "worker.decision_log" (Some "orch") (Some (ft_worker f))
                (PayloadStruct (mkPayload raw "" [] "" false [] false "" "" "" ""))) t
  end.

(** The failure of a turn, and the evidence that says so. *)
Definition turn_failure (output : string) (err : option TurnError) : option Failure :=
  match err with
  | Some e => Some (ClassifyFailure (Some e))
  | None => match ValidateEvidenceBounds output with Some e => Some (ClassifyFailure (Some e)) | None => None end
  end.
Definition turn_evidence (ran output : string) (failure : option Failure) : Evidence :=
  match failure with
  | None => mkEvidence ran 0 output "" "" []
  | Some fa => mkEvidence ran 1 (fa_summary fa) (category_text (fa_category fa)) "" []
  end.

Definition failed_payload (fa : Failure) : EventPayload :=
  mkPayload "" (fa_summary fa) [] "" false [] false "" "" (category_text (fa_category fa)) "".

(** The failed turn's mark on a task; a lost claim is no error. *)
Definition mark_turn_failed (f : Flight) (fa : Failure) (taskID : string) (t : Runtime) : result TurnFail unit * Runtime :=
  match run_store (MarkFailedWithPayload (ft_plan f) taskID (ft_session f) (failed_payload fa) (RetryBudget fa defaultTurnRetries)) (rt_orch t) with
  | (Err e, o) => if errors_is e ErrTaskNotOwnedRunning then (Ok tt, set_orch o t) else (Err (TurnMark e), set_orch o t)
  | (Ok _, o) => (Ok tt, set_orch o t)
  end.

Fixpoint mark_all_failed (f : Flight) (fa : Failure) (tasks : list string) (t : Runtime) : result TurnFail unit * Runtime :=
  match tasks with
  | [] => (Ok tt, t)
  | i :: tasks' =>
      match mark_turn_failed f fa i t with
      | (Err e, t') => (Err e, t')
      | (Ok _, t') => mark_all_failed f fa tasks' t'
      end
  end.

Definition verify_task (w : TurnWorld) (f : Flight) (ev : Evidence) (taskID : string) (t : Runtime) : result VerifyError bool * Runtime :=
  let '(r, v) := VerifyAndCompleteAs (so_registry (oc_spending (rt_orch t))) (tw_meanwhile w) (tw_before_mark w) (tw_expired w)
                   (uuid (oc_uuids (rt_orch t))) start_time (ft_plan f) taskID (ft_session f) ev
                   (mkVerifier (rt_db t) (rt_session t)) in
  (r, mkRuntime (set_db (vf_db v) (rt_orch t)) (vf_orch_session v) (rt_messages t) (rt_callbacks t) (rt_logs t)).

(** What both kinds of turn do before the provider runs: the runner, the
    containment once more, and the limits. *)
Definition turn_request : Request := mkRequest "" "" false turn_timeout stall_timeout.

Definition prepare_turn (w : TurnWorld) (projectDir : string) (f : Flight) : result TurnFail TurnLimits :=
  if negb (tw_runner w) then Err TurnNoRunner
  else match resolveContainment (cf_containment cf) (cf_confine cf) (ft_project f) projectDir (ft_binding f) with
  | Err e => Err (TurnNotConfined e)
  | Ok _ =>
      match ResolveTurnLimits (ft_binding f) turn_request with
      | Err e => Err (TurnTimeouts e)
      | Ok limits => Ok limits
      end
  end.

(** The run itself, its provenance before it and its usage after. *)
Definition run_provider (w : TurnWorld) (f : Flight) (t : Runtime) : result TurnFail (option Failure) * Runtime :=
  let t := foldl (λ t i, recordExecutionProvenance f i t) t (ft_tasks f) in
  let t := with_db (tw_during w (rt_db t)) t in
  match record_usage f (ou_usage (tw_outcome w)) t with
  | (Err e, t') => (Err (TurnUsage e), t')
  | (Ok _, t') => (Ok (turn_failure (ou_output (tw_outcome w)) (ou_error (tw_outcome w))), t')
  end.

Definition log_failure (f : Flight) (fa : Failure) (t : Runtime) : Runtime :=
  WriteWorkerDecision (ft_worker f)
    (failureDecisionLine (category_text (fa_category fa)) (fa_summary fa) (CountRunningWorkers (rt_db t))) t.

Definition message_of (f : Flight) (ev : Evidence) (taskID : string) : A2AMessage :=
  mkMessage (nullIfEmpty (ft_worker f)) (ft_plan f) taskID "ROLE_AGENT" (evidence_message taskID (ft_plan f) ev).

(** ** One task *)

(** The first task of a flight. *)
Definition first_task (f : Flight) : string := match ft_tasks f with [] => "" | i :: _ => i end.

Definition finish_failed (f : Flight) (fa : Failure) (t : Runtime) : result TurnFail unit * Runtime :=
  match mark_all_failed f fa (ft_tasks f) t with
  | (Err e, t') => (Err e, t')
  | (Ok _, t') => (Ok tt, clear_in (ft_worker f) "crashed" (AbsorbDecisionLog f (first_task f) t'))
  end.

(** [dispatchWorker], of a flight with one task whose description is [ran]. *)
Definition dispatchWorker (w : TurnWorld) (projectDir ran : string) (f : Flight) (t : Runtime) : result TurnFail unit * Runtime :=
  match prepare_turn w projectDir f with
  | Err e => (Err e, t)
  | Ok _ =>
      match run_provider w f t with
      | (Err e, t1) => (Err e, t1)
      | (Ok failure, t1) =>
          let ev := turn_evidence ran (ou_output (tw_outcome w)) failure in
          let t1 := match failure with Some fa => log_failure f fa t1 | None => t1 end in
          match AppendMessage (message_of f ev (first_task f)) t1 with
          | (Err e, t2) => (Err (TurnMessage e), t2)
          | (Ok _, t2) =>
              match failure with
              | Some fa => finish_failed f fa (callback (ft_binding f) (Some fa) t2)
              | None =>
                  let '(r, t3) := verify_task w f ev (first_task f) t2 in
                  let t3 := match r with Ok _ => callback (ft_binding f) None t3 | Err _ => t3 end in
                  let t4 := clear_in (ft_worker f) "idle" (AbsorbDecisionLog f (first_task f) t3) in
                  (match r with Ok _ => Ok tt | Err e => Err (TurnVerify e) end, t4)
              end
          end
      end
  end.

(** ** A group *)

Fixpoint append_all (f : Flight) (ev : Evidence) (tasks : list string) (t : Runtime) : result TurnFail unit * Runtime :=
  match tasks with
  | [] => (Ok tt, t)
  | i :: tasks' =>
      match AppendMessage (message_of f ev i) t with
      | (Err e, t') => (Err (TurnMessage e), t')
      | (Ok _, t') => append_all f ev tasks' t'
      end
  end.

(** Every task is verified, whatever becomes of the others; the first error is
    the turn's. *)
Fixpoint verify_all (w : TurnWorld) (f : Flight) (ev : Evidence) (tasks : list string) (t : Runtime) : option VerifyError * Runtime :=
  match tasks with
  | [] => (None, t)
  | i :: tasks' =>
      let '(r, t1) := verify_task w f ev i t in
      let '(rest, t2) := verify_all w f ev tasks' t1 in
      (match r with Err e => Some e | Ok _ => rest end, t2)
  end.

(** The refusal of containment fails the tasks at once, where [dispatchWorker]
    leaves its task to the reaper. *)
Definition containment_failure : Failure := ClassifyFailure (Some (mkTurnError [] None)).

Definition runFanoutGroup (w : TurnWorld) (projectDir heading : string) (f : Flight) (t : Runtime) : result TurnFail unit * Runtime :=
  match prepare_turn w projectDir f with
  | Err (TurnNotConfined e) =>
      match mark_all_failed f containment_failure (ft_tasks f) t with
      | (Err e', t') => (Err e', t')
      | (Ok _, t') => (Err (TurnNotConfined e), clear_in (ft_worker f) "idle" t')
      end
  | Err e => (Err e, t)
  | Ok _ =>
      match run_provider w f t with
      | (Err e, t1) => (Err e, t1)
      | (Ok failure, t1) =>
          let ran := "fan-out group " +:+ quoted heading +:+ " (" +:+ Itoa (Z.of_nat (length (ft_tasks f))) +:+ " steps)" in
          let ev := turn_evidence ran (ou_output (tw_outcome w)) failure in
          let t1 := match failure with Some fa => log_failure f fa (callback (ft_binding f) (Some fa) t1) | None => t1 end in
          match append_all f ev (ft_tasks f) t1 with
          | (Err e, t2) => (Err e, t2)
          | (Ok _, t2) =>
              match failure with
              | Some fa => finish_failed f fa t2
              | None =>
                  let '(err, t3) := verify_all w f ev (ft_tasks f) t2 in
                  let t4 := clear_in (ft_worker f) "idle" (AbsorbDecisionLog f (first_task f) t3) in
                  match err with
                  | None => (Ok tt, callback (ft_binding f) None t4)
                  | Some e => (Err (TurnVerify e), t4)
                  end
              end
          end
      end
  end.

(** ** The goroutine *)

(** [recoverDispatchPanic], of a turn that did panic. *)
Definition recoverDispatchPanic (f : Flight) (panic : string) (t : Runtime) : Runtime :=
  let t := emit_in (orc_event (ft_project f) (ft_plan f) None "worker.dispatch_panic" panic) t in
  let t := foldl (λ t i,
    match run_store (ReleaseClaim (ft_plan f) i (ft_session f) "dispatch goroutine panicked") (rt_orch t) with
    | (Err e, o) =>
        if errors_is e ErrTaskNotOwnedRunning then set_orch o t
        else emit_in (orc_event (ft_project f) (ft_plan f) None "worker.dispatch_error"
               ("release claim after panic on " +:+ i +:+ ": " +:+ store_text e)) (set_orch o t)
    | (Ok _, o) => set_orch o t
    end) t (ft_tasks f) in
  if decide (ft_worker f = "") then t else clear_in (ft_worker f) "crashed" t.

(** How a turn ends. *)
Inductive TurnEnd := TurnReturned (r : result TurnFail unit) | TurnPanicked (panic : string).

(** The goroutine after its turn, [fail_text] the text of its error, and the
    deferred calls in their order: the recovery, the reservation, the slot. The
    flight is over. *)
Definition land (fail_text : TurnFail → string) (f : Flight) (rest : list Flight) (ended : TurnEnd) (t : Runtime) : Runtime :=
  let t := match ended with
           | TurnReturned (Ok _) => t
           | TurnReturned (Err e) => emit_in (orc_event (ft_project f) (ft_plan f) None "worker.dispatch_error" (fail_text e)) t
           | TurnPanicked panic => recoverDispatchPanic f panic t
           end in
  let o := releaseDispatchSlot cf (release_spend (ft_project f) (bd_name (ft_binding f)) (rt_orch t)) in
  set_orch (mkOrch (oc_cal o) (oc_spending o) (oc_resolver o) (oc_slots o) (oc_saturated o) (oc_uuids o) rest) t.
End Turn.
