(* ===== verification/OrchTurnProps.v ===== *)
(** * Properties of provider turns

    A turn gives back what its launch took, however it ends; and a turn that
    returns without an error has settled every task it still owned. *)
From S2P Require Import Prelude GoLib StoreModel StoreSql StoreTasks StoreWorkers Dfs StoreGraph StoreMeta StoreInv StoreSpec StoreTrace StoreProjects StoreProjectsProps StoreCalibrations PlanModel PlanImport PlanParse PlanParseProps Provider CmdResolver OrchSpend OrchSpendProps OrchPaths OrchPathsProps OrchVerify OrchVerifyProps OrchBinding OrchBindingProps OrchDispatch OrchPass OrchDispatchProps OrchClaims OrchTurn.
From stdpp Require Import relations.

Section Books.
Context `{SqlEngine} `{PlanCodec} `{BindingCodec} `{Json} `{Markdown} `{FileSystem} `{CostOps} `{!Texts} `{!TurnTexts}
  `{BindingResolver} `{InvocationHash} `{World} `{Durations}.
Context (uuid : nat → string) (start_time : string) (cf : Config) (turn_timeout stall_timeout : Z).

(** ** What a turn does to the books: nothing but record its usage *)

Definition same_books (t t' : Runtime) : Prop := same_holdings (rt_orch t) (rt_orch t').

Lemma same_books_trans t1 t2 t3 : same_books t1 t2 → same_books t2 t3 → same_books t1 t3.
Proof. apply same_holdings_trans. Qed.
Lemma same_books_refl t : same_books t t.
Proof. by split_and!. Qed.

Lemma books_store {A} (m : Store A) t r o : run_store m (rt_orch t) = (r, o) → same_books t (set_orch o t).
Proof. intros Hm. unfold same_books. simpl. replace o with (run_store m (rt_orch t)).2 by by rewrite Hm. apply store_holds. Qed.
Lemma books_emit e t : same_books t (emit_in e t).
Proof. apply emit_holds. Qed.
Lemma books_clear w st t : same_books t (clear_in w st t).
Proof. apply store_holds. Qed.
Lemma books_callback b f t : same_books t (callback b f t).
Proof. by split_and!. Qed.
Lemma books_absorb f i t : same_books t (AbsorbDecisionLog f i t).
Proof.
  unfold AbsorbDecisionLog. destruct (rt_logs t !! ft_worker f) as [[|c raw]|]; [apply same_books_refl|apply books_emit|apply same_books_refl].
Qed.

Lemma books_provenance f i t : same_books t (recordExecutionProvenance f i t).
Proof.
  unfold recordExecutionProvenance.
  set (m := match ResolveInvocation _ _ with Ok invocation => _ | Err e => _ end).
  assert (same_books t m.2) as Hm.
  { subst m. destruct (ResolveInvocation _ _); [apply same_books_refl|apply books_emit]. }
  destruct m as [[model effort] t1]. simpl in Hm.
  assert (same_books t1 (provenance_domain f i model effort t1).2) as Hd.
  { unfold provenance_domain. destruct (GetCalibrationByAlias _ _) as [cal|e].
    - destruct (decide _); [apply same_books_refl|apply books_emit].
    - destruct e; try apply books_emit. apply same_books_refl. }
  destruct (provenance_domain f i model effort t1) as [domain t2]. simpl in Hd.
  destruct (run_store _ (rt_orch t2)) as [r o] eqn:Hr. apply books_store in Hr.
  eapply same_books_trans; [exact Hm|]. eapply same_books_trans; [exact Hd|].
  destruct r; [done|]. eapply same_books_trans; [done|apply books_emit].
Qed.

Lemma books_foldl {A} (f : Runtime → A → Runtime) l t :
  (∀ t a, same_books t (f t a)) → same_books t (foldl f t l).
Proof.
  intros Hf. revert t. induction l as [|a l IH]; intros t; simpl; [apply same_books_refl|].
  eapply same_books_trans; [apply Hf|apply IH].
Qed.

Lemma books_mark f fa i t r t' : mark_turn_failed f fa i t = (r, t') → same_books t t'.
Proof.
  unfold mark_turn_failed. destruct (run_store _ (rt_orch t)) as [[b|e] o] eqn:Hr; apply books_store in Hr.
  - by intros [= _ <-].
  - destruct (errors_is _ _); by intros [= _ <-].
Qed.

Lemma books_mark_all f fa tasks t r t' : mark_all_failed f fa tasks t = (r, t') → same_books t t'.
Proof.
  revert t. induction tasks as [|i tasks IH]; intros t; simpl; [intros [= _ <-]; apply same_books_refl|].
  destruct (mark_turn_failed f fa i t) as [[u|e] t1] eqn:Hm; apply books_mark in Hm; [|by intros [= _ <-]].
  intros Ha. apply IH in Ha. by eapply same_books_trans.
Qed.

Lemma books_finish f fa t r t' : finish_failed f fa t = (r, t') → same_books t t'.
Proof.
  unfold finish_failed. destruct (mark_all_failed f fa (ft_tasks f) t) as [[u|e] t1] eqn:Hm; apply books_mark_all in Hm;
    intros [= _ <-]; [|done].
  eapply same_books_trans; [done|]. eapply same_books_trans; [apply books_absorb|apply books_clear].
Qed.

Lemma books_append m t r t' : AppendMessage m t = (r, t') → same_books t t'.
Proof. unfold AppendMessage. destruct (decide _); [by intros [= _ <-]|]. by destruct (_ || _); intros [= _ <-]. Qed.
Lemma books_append_all f ev tasks t r t' : append_all f ev tasks t = (r, t') → same_books t t'.
Proof.
  revert t. induction tasks as [|i tasks IH]; intros t; cbn [append_all]; [intros [= _ <-]; apply same_books_refl|].
  destruct (AppendMessage _ t) as [[u|e] t1] eqn:Hm; apply books_append in Hm; [|by intros [= _ <-]].
  intros Ha. apply IH in Ha. by eapply same_books_trans.
Qed.

Lemma books_verify w f ev i t r t' : verify_task uuid start_time w f ev i t = (r, t') → same_books t t'.
Proof. unfold verify_task. destruct (VerifyAndCompleteAs _ _ _ _ _ _ _ _ _ _ _). by intros [= _ <-]. Qed.
Lemma books_verify_all w f ev tasks t r t' : verify_all uuid start_time w f ev tasks t = (r, t') → same_books t t'.
Proof.
  revert t r t'. induction tasks as [|i tasks IH]; intros t r t'; cbn [verify_all]; [intros [= _ <-]; apply same_books_refl|].
  destruct (verify_task uuid start_time w f ev i t) as [r1 t1] eqn:Hv. apply books_verify in Hv.
  destruct (verify_all uuid start_time w f ev tasks t1) as [r2 t2] eqn:Ha. apply IH in Ha.
  intros [= _ <-]. by eapply same_books_trans.
Qed.

(** A turn's books at its end: as at its launch, its usage recorded or not. *)
Definition turn_books (f : Flight) (t t' : Runtime) : Prop :=
  oc_flights (rt_orch t') = oc_flights (rt_orch t) ∧ oc_slots (rt_orch t') = oc_slots (rt_orch t) ∧
  (oc_spending (rt_orch t') = oc_spending (rt_orch t) ∨
   ∃ ws usage r, recordUsage (ft_project f) (ft_worker f) (bd_name (ft_binding f)) "" usage (see_workers ws (oc_spending (rt_orch t))) =
              (r, oc_spending (rt_orch t'))).

Lemma turn_books_same f t t' : same_books t t' → turn_books f t t'.
Proof. intros (? & ? & ?). split_and!; [done..|by left]. Qed.
Lemma turn_books_trans f t1 t2 t3 : turn_books f t1 t2 → same_books t2 t3 → turn_books f t1 t3.
Proof.
  intros (Hf & Hs & Hsp) (Hf' & Hsp' & Hs'). split_and!; [congruence..|].
  destruct Hsp as [Hsp|(ws & u & r & Hsp)]; [left; congruence|right; exists ws, u, r; by rewrite Hsp'].
Qed.

Lemma run_provider_books w f t r t' : run_provider w f t = (r, t') → turn_books f t t'.
Proof.
  unfold run_provider. set (t1 := foldl _ t (ft_tasks f)).
  assert (same_books t t1) as (Hf & Hsp & Hs) by (apply books_foldl; intros; apply books_provenance).
  unfold record_usage. simpl.
  destruct (recordUsage _ _ _ _ _ (see_workers _ (oc_spending (rt_orch t1)))) as [r1 sp] eqn:Hu. rewrite Hsp in Hu.
  assert (∀ r0 : result StoreError unit, turn_books f t (set_orch (set_spending sp (rt_orch (with_db (tw_during w (rt_db t1)) t1))) (with_db (tw_during w (rt_db t1)) t1))) as Hb.
  { intros _. split_and!; [done..|]. right. by eexists _, _, _. }
  specialize (Hb (Ok tt)). destruct r1; by intros [= _ <-].
Qed.

Lemma dispatchWorker_books w dir ran f t r t' :
  dispatchWorker uuid start_time cf turn_timeout stall_timeout w dir ran f t = (r, t') → turn_books f t t'.
Proof.
  unfold dispatchWorker. destruct (prepare_turn _ _ _ w dir f); [|intros [= _ <-]; apply turn_books_same, same_books_refl].
  destruct (run_provider w f t) as [[failure|e] t1] eqn:Hrun; apply run_provider_books in Hrun; [|by intros [= _ <-]].
  set (ev := turn_evidence ran _ failure).
  set (t2 := match failure with Some fa => log_failure f fa t1 | None => t1 end).
  assert (same_books t1 t2) as Ht12 by (subst t2; destruct failure; by split_and!).
  assert (turn_books f t t2) as Ht2 by by eapply turn_books_trans. clearbody t2.
  destruct (AppendMessage _ t2) as [[u|e] t3] eqn:Ha; apply books_append in Ha; [|intros [= _ <-]; by eapply turn_books_trans].
  assert (turn_books f t t3) as Ht3 by by eapply turn_books_trans. destruct failure as [fa|].
  - intros Hf. apply books_finish in Hf. eapply turn_books_trans; [exact Ht3|]. by eapply same_books_trans; [apply books_callback|].
  - destruct (verify_task uuid start_time w f ev (first_task f) t3) as [rv t4] eqn:Hv. apply books_verify in Hv.
    intros [= _ <-]. eapply turn_books_trans; [exact Ht3|]. eapply same_books_trans; [exact Hv|].
    eapply same_books_trans; [|eapply same_books_trans; [apply books_absorb|apply books_clear]].
    destruct rv; [apply books_callback|apply same_books_refl].
Qed.

Lemma runFanoutGroup_books w dir heading f t r t' :
  runFanoutGroup uuid start_time cf turn_timeout stall_timeout w dir heading f t = (r, t') → turn_books f t t'.
Proof.
  unfold runFanoutGroup. destruct (prepare_turn _ _ _ w dir f) as [limits|fail]; cycle 1.
  { assert ((Err fail, t) = (r, t') → turn_books f t t') as Hdone by (intros [= _ <-]; apply turn_books_same, same_books_refl).
    destruct fail; try done. destruct (mark_all_failed _ _ _ t) as [[u|e'] t1] eqn:Hm; apply books_mark_all in Hm;
      intros [= _ <-]; apply turn_books_same; [|done]. eapply same_books_trans; [done|apply books_clear]. }
  destruct (run_provider w f t) as [[failure|e] t1] eqn:Hrun; apply run_provider_books in Hrun; [|by intros [= _ <-]].
  set (ev := turn_evidence _ _ failure).
  set (t2 := match failure with Some fa => log_failure f fa _ | None => t1 end).
  assert (same_books t1 t2) as Ht12 by (subst t2; destruct failure; by split_and!).
  assert (turn_books f t t2) as Ht2 by by eapply turn_books_trans. clearbody t2.
  destruct (append_all f ev (ft_tasks f) t2) as [[u|e] t3] eqn:Ha; apply books_append_all in Ha; [|intros [= _ <-]; by eapply turn_books_trans].
  assert (turn_books f t t3) as Ht3 by by eapply turn_books_trans. destruct failure as [fa|].
  - intros Hf. apply books_finish in Hf. by eapply turn_books_trans.
  - destruct (verify_all uuid start_time w f ev (ft_tasks f) t3) as [rv t4] eqn:Hv. apply books_verify_all in Hv.
    assert (turn_books f t (clear_in (ft_worker f) "idle" (AbsorbDecisionLog f (first_task f) t4))) as Hend.
    { eapply turn_books_trans; [exact Ht3|]. eapply same_books_trans; [exact Hv|].
      eapply same_books_trans; [apply books_absorb|apply books_clear]. }
    destruct rv; intros [= _ <-]; [done|]. eapply turn_books_trans; [exact Hend|apply books_callback].
Qed.

Lemma recover_books f panic t : same_books t (recoverDispatchPanic f panic t).
Proof.
  unfold recoverDispatchPanic. set (t1 := foldl _ _ (ft_tasks f)).
  assert (same_books t t1) as Ht1.
  { eapply same_books_trans; [apply books_emit|]. apply books_foldl. intros t0 i.
    destruct (run_store _ (rt_orch t0)) as [[u|e] o] eqn:Hr; apply books_store in Hr; [done|].
    destruct (errors_is _ _); [done|]. eapply same_books_trans; [done|apply books_emit]. }
  destruct (decide _); [done|]. eapply same_books_trans; [done|apply books_clear].
Qed.

(** ** The orchestrator over time

    Passes of any plans, turns that end in any order and any way, and whatever
    anyone else does to the database. A panic strikes anywhere in a turn: before
    its usage was recorded or after. *)
Context (fail_text : TurnFail → string).
Context (Hnames : ∀ project parallel purpose r b r', resolveBinding project parallel purpose r = (Ok b, r') → provider_name (bd_name b)).

Inductive orch_step : Runtime → Runtime → Prop :=
| os_pass t projectID planID n e o' :
    no_char Ascii.zero projectID → DispatchNext uuid start_time cf projectID planID (rt_orch t) = (n, e, o') →
    orch_step t (set_orch o' t)
| os_worker t f1 f f2 w dir ran r t' :
    oc_flights (rt_orch t) = f1 ++ f :: f2 →
    dispatchWorker uuid start_time cf turn_timeout stall_timeout w dir ran f t = (r, t') →
    orch_step t (land cf fail_text f (f1 ++ f2) (TurnReturned r) t')
| os_group t f1 f f2 w dir heading r t' :
    oc_flights (rt_orch t) = f1 ++ f :: f2 →
    runFanoutGroup uuid start_time cf turn_timeout stall_timeout w dir heading f t = (r, t') →
    orch_step t (land cf fail_text f (f1 ++ f2) (TurnReturned r) t')
| os_panic t f1 f f2 panic t' :
    oc_flights (rt_orch t) = f1 ++ f :: f2 → turn_books f t t' →
    orch_step t (land cf fail_text f (f1 ++ f2) (TurnPanicked panic) t')
| os_other t s : orch_step t (with_db s t).

(** The books of a state. *)
Definition balanced (o : Orch) : Prop :=
  bounded cf = true → oc_slots o = length (oc_flights o) ∧ (Z.of_nat (oc_slots o) ≤ cf_max_parallel cf)%Z.

Lemma land_books f f1 f2 ended t t' :
  oc_flights (rt_orch t) = f1 ++ f :: f2 → turn_books f t t' → balanced (rt_orch t) →
  let t'' := land cf fail_text f (f1 ++ f2) ended t' in
  balanced (rt_orch t'') ∧ rtc spend_step (spending_of (rt_orch t)) (spending_of (rt_orch t'')).
Proof.
  intros Hf Hb Hbal. unfold land.
  set (t1 := match ended with TurnReturned (Ok _) => t' | TurnReturned (Err e) => _ | TurnPanicked panic => _ end).
  assert (same_books t' t1) as Ht1.
  { subst t1. destruct ended as [[u|e]|panic]; [apply same_books_refl|apply books_emit|apply recover_books]. }
  clearbody t1. assert (turn_books f t t1) as (Hf1 & Hs1 & Hsp1) by by eapply turn_books_trans. cbv zeta. split.
  - intros Hbd. specialize (Hbal Hbd). simpl. unfold releaseDispatchSlot. rewrite Hbd. simpl. rewrite Hs1.
    rewrite Hf, !length_app in *. simpl in *. lia.
  - unfold spending_of. simpl. rewrite !fmap_app, Hf, fmap_app, fmap_cons.
    assert (oc_spending (releaseDispatchSlot cf (release_spend (ft_project f) (bd_name (ft_binding f)) (rt_orch t1))) =
      releaseSpendReservation (ft_project f) (bd_name (ft_binding f)) (oc_spending (rt_orch t1))) as ->
      by (unfold releaseDispatchSlot; by destruct (negb _)).
    destruct Hsp1 as [->|(ws & usage & r & Hu)]; [by apply rtc_once, step_abandon|].
    eapply rtc_l; [apply (step_workers _ _ ws)|]. by eapply rtc_once, step_settle.
Qed.

Lemma orch_step_books t t' :
  orch_step t t' → balanced (rt_orch t) →
  balanced (rt_orch t') ∧ rtc spend_step (spending_of (rt_orch t)) (spending_of (rt_orch t')).
Proof.
  intros Hstep Hbal. destruct Hstep as [t p q n e o' Hp Hd|t f1 f f2 w dir ran r t' Hf Hd|t f1 f f2 w dir heading r t' Hf Hd|t f1 f f2 panic t' Hf Hd|t s].
  - apply pass_accounts in Hd as (new & Hfl & _ & Hsl & Hspend); [|done|intros; by eapply Hnames].
    split; [|done]. intros Hbd. destruct (Hbal Hbd) as [Hn Hle], (Hsl Hbd) as [Hn' Hle']. simpl. rewrite Hfl, length_app. split; [lia|]. by apply Hle'.
  - apply dispatchWorker_books in Hd. by eapply land_books.
  - apply runFanoutGroup_books in Hd. by eapply land_books.
  - by eapply land_books.
  - done.
Qed.

Lemma orch_run_books t t' :
  rtc orch_step t t' → balanced (rt_orch t) →
  balanced (rt_orch t') ∧ rtc spend_step (spending_of (rt_orch t)) (spending_of (rt_orch t')).
Proof.
  induction 1 as [t|t1 t2 t3 Hs Hr IH]; intros Hbal; [done|].
  apply orch_step_books in Hs as [Hb Hsp]; [|done]. destruct (IH Hb) as [Hb' Hsp']. split; [done|by etrans].
Qed.

End Books.

(** ** Settled tasks *)

Section Settled.
Context `{SqlEngine} `{PlanCodec} `{BindingCodec} `{Json} `{Markdown} `{FileSystem} `{CostOps} `{!Texts} `{!TurnTexts}
  `{BindingResolver} `{InvocationHash} `{World} `{Durations}.
Context (uuid : nat → string) (start_time : string) (cf : Config) (turn_timeout stall_timeout : Z).

Lemma reporter_tasks s s' k x : db_tasks s' = db_tasks s → reporter s' k x = reporter s k x.
Proof. unfold reporter. by intros ->. Qed.

Lemma absorb_tasks f i t : db_tasks (rt_db (AbsorbDecisionLog f i t)) = db_tasks (rt_db t).
Proof.
  unfold AbsorbDecisionLog. assert (∀ e, db_tasks (rt_db (emit_in e t)) = db_tasks (rt_db t)) as He.
  { intros e. change (db_tasks (oc_db (run_store (insert_event e) (rt_orch t)).2) = db_tasks (rt_db t)).
    rewrite run_store_db. apply keeps_tasks_run. intros T. apply keeps_event. }
  by destruct (rt_logs t !! ft_worker f) as [[|c raw]|].
Qed.
Lemma clear_tasks w st t : db_tasks (rt_db (clear_in w st t)) = db_tasks (rt_db t).
Proof.
  change (db_tasks (oc_db (run_store (ClearWorkerTask w st) (rt_orch t)).2) = db_tasks (rt_db t)). by rewrite run_store_db.
Qed.

Lemma settled_row s k x t set_ e : settles set_ → reporter (reported k (set_ t) e s) k x = None.
Proof.
  intros Hset. destruct (Hset t) as (Hst & Hx & _). unfold reporter, reported, owned_running, sql_eq. simpl. rewrite lookup_insert_eq.
  rewrite Hx, (bool_decide_eq_false_2 (None = Some x)) by done. by rewrite andb_false_r.
Qed.

(** A failed turn's mark leaves the task to others. *)
Lemma mark_failed_settles f fa i t r t' :
  mark_turn_failed f fa i t = (r, t') →
  r = Ok tt ∧ reporter (rt_db t') (ft_plan f, i) (ft_session f) = None ∧
  ∀ j, j ≠ i → reporter (rt_db t') (ft_plan f, j) (ft_session f) = reporter (rt_db t) (ft_plan f, j) (ft_session f).
Proof.
  unfold mark_turn_failed, run_store. rewrite MarkFailed_run. unfold rt_db. set (s := oc_db (rt_orch t)).
  destruct (reporter s (ft_plan f, i) (ft_session f)) as [t0|] eqn:Hr; cycle 1.
  { intros [= <- <-]. split; [done|]. split; [exact Hr|done]. }
  assert (∀ row e j, j ≠ i → reporter (reported (ft_plan f, i) row e s) (ft_plan f, j) (ft_session f) =
    reporter s (ft_plan f, j) (ft_session f)) as Hother.
  { intros row e j Hj. unfold reporter, reported. simpl. by rewrite lookup_insert_ne by congruence. }
  destruct (_ <=? _)%Z; intros [= <- <-]; (split; [done|]); (split; [|intros j Hj; by apply Hother]).
  - apply (settled_row s _ _ t0 retry_task), settles_retry.
  - apply (settled_row s _ _ t0 (fail_task _)), settles_fail.
Qed.

Lemma mark_all_settles f fa tasks t r t' :
  mark_all_failed f fa tasks t = (r, t') →
  r = Ok tt ∧ (∀ i, i ∈ tasks → reporter (rt_db t') (ft_plan f, i) (ft_session f) = None) ∧
  (∀ i, reporter (rt_db t) (ft_plan f, i) (ft_session f) = None → reporter (rt_db t') (ft_plan f, i) (ft_session f) = None).
Proof.
  revert t. induction tasks as [|i tasks IH]; intros t; simpl; [intros [= <- <-]; split_and!; [done|set_solver|done]|].
  destruct (mark_turn_failed f fa i t) as [r1 t1] eqn:Hm. apply mark_failed_settles in Hm as (-> & Hi & Hother).
  intros Ha. apply IH in Ha as (-> & Hall & Hkeep). split; [done|]. split.
  - intros j [->|Hj]%elem_of_cons; [by apply Hkeep|by apply Hall].
  - intros j Hj. apply Hkeep. destruct (decide (j = i)) as [->|Hne]; [done|]. by rewrite Hother.
Qed.

Lemma finish_settles f fa t r t' :
  finish_failed f fa t = (r, t') → ∀ i, i ∈ ft_tasks f → reporter (rt_db t') (ft_plan f, i) (ft_session f) = None.
Proof.
  unfold finish_failed. destruct (mark_all_failed f fa (ft_tasks f) t) as [r1 t1] eqn:Hm.
  apply mark_all_settles in Hm as (-> & Hall & _). intros [= _ <-] i Hi.
  rewrite (reporter_tasks (rt_db t1)); [by apply Hall|]. by rewrite clear_tasks, absorb_tasks.
Qed.

(** A verdict, whichever, ends the reporter's hold on the task. *)
Lemma verdict_settles p i x ok reason ev s b s' :
  record_verdict p i x ok reason ev s = (Ok b, s') →
  reporter s' (p, i) x = None ∧ ∀ j, j ≠ i → reporter s' (p, j) x = reporter s (p, j) x.
Proof.
  rewrite record_verdict_run. destruct (reporter s (p, i) x) as [t|] eqn:Hr; [|by intros [= _ <-]].
  assert (∀ row e es j, j ≠ i → reporter (set_events es (reported (p, i) row e s)) (p, j) x = reporter s (p, j) x) as Hother.
  { intros row e es j Hj. unfold reporter, reported. simpl. by rewrite lookup_insert_ne by congruence. }
  assert (∀ set_ e es, settles set_ → reporter (set_events es (reported (p, i) (set_ t) e s)) (p, i) x = None) as Hset.
  { intros set_ e es Hs. exact (settled_row s (p, i) x t set_ e Hs). }
  destruct ok; intros [= _ <-]; (split; [|intros j Hj; by apply Hother]).
  - by apply Hset, settles_release.
  - unfold rejected_state. destruct (_ <=? _)%Z; [apply Hset, settles_retry|apply (Hset (fail_task "")), settles_fail].
Qed.

(** What others do while a task is verified does not hand this session a claim. *)
Definition no_grant (f : Flight) (h : DB → DB) : Prop :=
  ∀ s i, reporter s (ft_plan f, i) (ft_session f) = None → reporter (h s) (ft_plan f, i) (ft_session f) = None.

Lemma verify_settles w f ev i t b t' :
  ft_session f ≠ "" → verify_task uuid start_time w f ev i t = (Ok b, t') →
  reporter (rt_db t') (ft_plan f, i) (ft_session f) = None.
Proof.
  intros Hx. unfold verify_task, VerifyAndCompleteAs. simpl.
  destruct (GetTask _ _ _).1 as [task|]; [|done]. destruct (projectDirFor _ _ _) as [dir|]; [|done].
  destruct (tw_expired w); [done|]. destruct (mechanicalAcceptanceCheck _ _ _) as [[ok reason]|]; [|done].
  destruct (if ok then _ else _) as [escaped|]; [|done].
  unfold reporting_session. rewrite bool_decide_eq_false_2 by done. cbn [negb sret].
  destruct (record_verdict _ _ _ _ _ _ _) as [r s'] eqn:Hv. intros [= -> <-]. by apply verdict_settles in Hv as [Hn _].
Qed.

Lemma verify_keeps w f ev i t r t' j :
  ft_session f ≠ "" → no_grant f (tw_meanwhile w) → no_grant f (tw_before_mark w) →
  verify_task uuid start_time w f ev i t = (r, t') →
  reporter (rt_db t) (ft_plan f, j) (ft_session f) = None → reporter (rt_db t') (ft_plan f, j) (ft_session f) = None.
Proof.
  intros Hx Hm Hb. unfold verify_task, VerifyAndCompleteAs. simpl. intros Hv Hj.
  assert (reporter (tw_meanwhile w (rt_db t)) (ft_plan f, j) (ft_session f) = None) as Hj1 by by apply Hm.
  assert (reporter (tw_before_mark w (tw_meanwhile w (rt_db t))) (ft_plan f, j) (ft_session f) = None) as Hj2 by by apply Hb.
  destruct (GetTask _ _ _).1 as [task|]; [|by injection Hv as _ <-].
  destruct (projectDirFor _ _ _) as [dir|]; [|by injection Hv as _ <-].
  destruct (tw_expired w); [by injection Hv as _ <-|].
  destruct (mechanicalAcceptanceCheck _ _ _) as [[ok reason]|]; [|by injection Hv as _ <-].
  destruct (if ok then _ else _) as [escaped|]; [|by injection Hv as _ <-].
  unfold reporting_session in Hv. rewrite bool_decide_eq_false_2 in Hv by done. cbn [negb sret] in Hv. simpl in Hv.
  rewrite record_verdict_run in Hv.
  destruct (reporter _ (ft_plan f, i) (ft_session f)) as [t0|] eqn:Hr; [|by injection Hv as _ <-].
  assert (j ≠ i) by congruence.
  assert (∀ row e es, reporter (set_events es (reported (ft_plan f, i) row e (tw_before_mark w (tw_meanwhile w (rt_db t))))) (ft_plan f, j) (ft_session f) = None) as Hother.
  { intros row e es. unfold reporter, reported. simpl. rewrite lookup_insert_ne by congruence. exact Hj2. }
  destruct (_ && _); injection Hv as _ <-; apply Hother.
Qed.

Lemma verify_all_settles w f ev tasks t t' :
  ft_session f ≠ "" → no_grant f (tw_meanwhile w) → no_grant f (tw_before_mark w) →
  verify_all uuid start_time w f ev tasks t = (None, t') →
  (∀ i, i ∈ tasks → reporter (rt_db t') (ft_plan f, i) (ft_session f) = None) ∧
  (∀ i, reporter (rt_db t) (ft_plan f, i) (ft_session f) = None → reporter (rt_db t') (ft_plan f, i) (ft_session f) = None).
Proof.
  intros Hx Hm Hb. revert t. induction tasks as [|i tasks IH]; intros t; cbn [verify_all].
  { intros [= <-]. split; [set_solver|done]. }
  destruct (verify_task uuid start_time w f ev i t) as [r1 t1] eqn:Hv.
  destruct (verify_all uuid start_time w f ev tasks t1) as [r2 t2] eqn:Ha. destruct r1 as [b|]; [|done]. intros [= -> <-].
  destruct (IH t1 Ha) as [Hall Hkeep]. split.
  - intros j [->|Hj]%elem_of_cons; [|by apply Hall]. apply Hkeep. by eapply verify_settles.
  - intros j Hj. apply Hkeep. by eapply verify_keeps.
Qed.

Lemma worker_settles w dir ran f i t t' :
  ft_session f ≠ "" → ft_tasks f = [i] →
  dispatchWorker uuid start_time cf turn_timeout stall_timeout w dir ran f t = (Ok tt, t') →
  reporter (rt_db t') (ft_plan f, i) (ft_session f) = None.
Proof.
  intros Hx Htasks. unfold dispatchWorker, first_task. rewrite Htasks. destruct (prepare_turn _ _ _ w dir f); [|done].
  destruct (run_provider w f t) as [[failure|e] t1]; [|done]. destruct (AppendMessage _ _) as [[u|e] t2]; [|done].
  destruct failure as [fa|].
  - intros Hf. eapply finish_settles; [exact Hf|]. rewrite Htasks. set_solver.
  - destruct (verify_task uuid start_time w f _ i t2) as [[b|e] t3] eqn:Hv; [|done].
    apply verify_settles in Hv; [|done]. intros [= <-].
    rewrite (reporter_tasks (rt_db t3)); [done|]. by rewrite clear_tasks, absorb_tasks.
Qed.

Lemma group_settles w dir heading f t t' :
  ft_session f ≠ "" → no_grant f (tw_meanwhile w) → no_grant f (tw_before_mark w) →
  runFanoutGroup uuid start_time cf turn_timeout stall_timeout w dir heading f t = (Ok tt, t') →
  ∀ i, i ∈ ft_tasks f → reporter (rt_db t') (ft_plan f, i) (ft_session f) = None.
Proof.
  intros Hx Hm Hb. unfold runFanoutGroup. destruct (prepare_turn _ _ _ w dir f) as [limits|fail].
  2: { destruct fail; try done. by destruct (mark_all_failed _ _ _ t) as [[u|e'] t1]. }
  destruct (run_provider w f t) as [[failure|e] t1]; [|done]. destruct (append_all _ _ _ _) as [[u|e] t2]; [|done].
  destruct failure as [fa|].
  - intros Hf. by eapply finish_settles.
  - destruct (verify_all uuid start_time w f _ (ft_tasks f) t2) as [[e|] t3] eqn:Hv; [done|].
    apply verify_all_settles in Hv as [Hall _]; [|done..]. intros [= <-] i Hi.
    rewrite (reporter_tasks (rt_db t3)); [by apply Hall|]. etrans; [exact (clear_tasks (ft_worker f) "idle" (AbsorbDecisionLog f (first_task f) t3))|exact (absorb_tasks f (first_task f) t3)].
Qed.

Lemma panic_settles f panic t :
  ∀ i, i ∈ ft_tasks f → reporter (rt_db (recoverDispatchPanic f panic t)) (ft_plan f, i) (ft_session f) = None.
Proof.
  intros i Hi. unfold recoverDispatchPanic. set (step := λ (t : Runtime) (i : string), _).
  assert (∀ l t0, (∀ j, j ∈ l → reporter (rt_db (foldl step t0 l)) (ft_plan f, j) (ft_session f) = None) ∧
    (∀ j, reporter (rt_db t0) (ft_plan f, j) (ft_session f) = None → reporter (rt_db (foldl step t0 l)) (ft_plan f, j) (ft_session f) = None)) as Hfold.
  { induction l as [|k l IH]; intros t0; simpl; [split; [set_solver|done]|].
    destruct (IH (step t0 k)) as [Hall Hkeep].
    assert (reporter (rt_db (step t0 k)) (ft_plan f, k) (ft_session f) = None ∧
      ∀ j, reporter (rt_db t0) (ft_plan f, j) (ft_session f) = None → reporter (rt_db (step t0 k)) (ft_plan f, j) (ft_session f) = None) as [Hk Hj].
    { subst step. simpl. unfold run_store. rewrite ReleaseClaim_run. unfold rt_db.
      destruct (reporter (oc_db (rt_orch t0)) (ft_plan f, k) (ft_session f)) as [row|] eqn:Hr; simpl; [|split; [exact Hr|done]].
      split; [by apply (settled_row _ _ _ row (release_to TaskStatusPending)), settles_release|].
      intros j Hj. unfold reporter, reported in *. simpl. destruct (decide (j = k)) as [->|Hne]; [congruence|].
      rewrite lookup_insert_ne by congruence. exact Hj. }
    split; [intros j [->|Hin]%elem_of_cons; [by apply Hkeep|by apply Hall]|]. intros j Hn. by apply Hkeep, Hj. }
  set (t1 := emit_in _ t). destruct (Hfold (ft_tasks f) t1) as [Hall _]. specialize (Hall i Hi).
  destruct (decide (ft_worker f = "")); [exact Hall|]. by rewrite (reporter_tasks (rt_db (foldl step t1 (ft_tasks f)))) by apply clear_tasks.
Qed.
End Settled.
