(* ===== verification/OrchRunProps.v ===== *)
(** * The orchestrator over time

    What passes and turns come to together: the claims a pass makes, the books
    any run of passes and turns keeps, and what a turn that ends leaves of its
    tasks; each on a plan dispatched to one worker as a group. *)
From S2P Require Import Prelude GoLib StoreModel StoreSql StoreTasks StoreWorkers Dfs StoreGraph StoreMeta StoreInv StoreSpec StoreTrace StoreProps StoreProjects StoreProjectsProps StoreCalibrations PlanModel PlanImport PlanParse PlanParseProps Provider ProviderProps CmdResolver OrchSpend OrchSpendProps OrchPaths OrchPathsProps OrchVerify OrchVerifyProps OrchBinding OrchBindingProps OrchDispatch OrchPass OrchDispatchProps OrchClaims OrchTurn OrchTurnProps.
From stdpp Require Import relations.

Section Run.
Context `{SqlEngine} `{PlanCodec} `{BindingCodec} `{Json} `{Markdown} `{FileSystem} `{CostOps} `{!Texts} `{!TurnTexts}
  `{BindingResolver} `{InvocationHash} `{World} `{Durations}.
Context (uuid : nat → string) (start_time : string) (cf : Config) (turn_timeout stall_timeout : Z).

(** C7: a dispatch pass claims exactly what it launches. On a well-formed
    database, whatever the pass returns, its effect on the store is a run of
    store operations; every row that was running still runs unchanged; a row
    that runs now and did not before is a task of a turn the pass launched; and
    every turn launched holds the claim of each of its tasks, by its own session
    and worker. A claim taken on the way to a launch that failed is given back. *)
Theorem pass_claims_what_it_launches projectID planID o n e o' :
  wf (oc_db o) → DispatchNext uuid start_time cf projectID planID o = (n, e, o') →
  ∃ new, oc_flights o' = new ++ oc_flights o ∧
    (∃ ops, run_from (oc_db o) ops (oc_db o')) ∧
    (∀ k t, running t → db_tasks (oc_db o) !! k = Some t → db_tasks (oc_db o') !! k = Some t) ∧
    (∀ k t, running t → db_tasks (oc_db o') !! k = Some t →
       db_tasks (oc_db o) !! k = Some t ∨ ∃ f, f ∈ new ∧ k.1 = ft_plan f ∧ k.2 ∈ ft_tasks f) ∧
    (∀ f i, f ∈ new → i ∈ ft_tasks f → ∃ t, db_tasks (oc_db o') !! (ft_plan f, i) = Some t ∧
       running t ∧ t_claimed_by_session t = Some (ft_session f) ∧ t_claimed_by_worker t = Some (ft_worker f)).
Proof.
  intros Hwf Hd. apply pass_run_claims in Hd. destruct (Hd Hwf) as (new & Hf & [Hrun Hk Hn Hh]). exists new.
  split_and!; [done..|]. intros f i Hf' Hi. rewrite Forall_forall in Hh. destruct (Hh f Hf' i Hi) as (t & Ht & ? & ? & ?).
  by exists t.
Qed.

(** C8: a dispatch pass pays for what it launches. The count it returns is the
    number of tasks of the turns it launched, on every path, errors included;
    under a bound each of those turns holds one slot and no slot is lost or
    taken beyond the bound; and the reservations moved by the spend protocol
    alone. This is for a resolver whose providers have a name (the reservation
    of a nameless provider would not be released by a launch given up), and for
    names and projects without a NUL, the separator of the reservation's key. *)
Theorem pass_balances projectID planID o n e o' :
  no_char Ascii.zero projectID →
  (∀ parallel purpose r b r', resolveBinding projectID parallel purpose r = (Ok b, r') → provider_name (bd_name b)) →
  DispatchNext uuid start_time cf projectID planID o = (n, e, o') →
  ∃ new, oc_flights o' = new ++ oc_flights o ∧ n = sum_list_with (length ∘ ft_tasks) new ∧
    (bounded cf = true → oc_slots o' = oc_slots o + length new ∧
       ((Z.of_nat (oc_slots o) ≤ cf_max_parallel cf)%Z → (Z.of_nat (oc_slots o') ≤ cf_max_parallel cf)%Z)) ∧
    rtc spend_step (spending_of o) (spending_of o').
Proof.
  intros Hp Hnames Hd. apply pass_accounts in Hd as (new & Hf & <- & Hs & Hr); [|done..]. exists new. by split_and!.
Qed.

(** C9: the orchestrator's books hold at every moment. From idle, after any
    passes over any plans, with turns ending in any order and any way (verified,
    failed, on an error, in a panic) and whatever others do to the database
    meanwhile, a bounded orchestrator has as many slots taken as turns under way
    and never more than its bound; and for every capped provider and project the
    reservation counts the turns under way, at most one, which was admitted
    below the cap, so that each cost was added to a balance below the cap. The
    resolver's providers have a name without a NUL, and so have the projects. *)
Theorem orchestrator_books fail_text caps g0 t0 t :
  (∀ project parallel purpose r b r', resolveBinding project parallel purpose r = (Ok b, r') → provider_name (bd_name b)) →
  oc_flights (rt_orch t0) = [] → oc_slots (rt_orch t0) = 0 → oc_spending (rt_orch t0) = mkSpending caps ∅ g0 →
  (0 ≤ cf_max_parallel cf)%Z →
  rtc (orch_step uuid start_time cf turn_timeout stall_timeout fail_text) t0 t →
  let o := rt_orch t in
  (bounded cf = true → oc_slots o = length (oc_flights o) ∧ (Z.of_nat (length (oc_flights o)) ≤ cf_max_parallel cf)%Z) ∧
  ∀ p a cap, no_char Ascii.zero p → cap_of (oc_spending o) a = Some cap →
    let turns := running_turns p a (turn_of <$> oc_flights o) in
    inflight (oc_spending o) (spendKey p a) = Z.of_nat turns ∧ turns ≤ 1 ∧
    (turns = 1 → cost_geb (spent_of (provider_costs p a (so_registry (oc_spending o)))) cap = false) ∧
    under_cap cap (provider_costs p a g0) (provider_costs p a (so_registry (oc_spending o))).
Proof.
  intros Hnames Hf Hs Hsp Hbound Hrun. apply orch_run_books in Hrun as [Hb Hspend]; [|done|intros _; rewrite Hf, Hs; done].
  split; [intros Hbd; destruct (Hb Hbd) as [<- Hle]; split; [done|exact Hle]|].
  unfold spending_of in Hspend. rewrite Hf, Hsp in Hspend. apply spend_run in Hspend as [_ _ Hturns Hcosts].
  intros p a cap Hp Hc. destruct (Hturns p a cap Hp Hc) as (? & ? & ?). split_and!; [done..|]. by apply Hcosts.
Qed.

(** The ways a turn ends without an error: a worker's, a group's, or a panic
    that was recovered. *)
Inductive ended_well (w : TurnWorld) (dir text : string) (f : Flight) (t : Runtime) : Runtime → Prop :=
| worker_done i t' :
    ft_tasks f = [i] → dispatchWorker uuid start_time cf turn_timeout stall_timeout w dir text f t = (Ok tt, t') →
    ended_well w dir text f t t'
| group_done t' :
    no_grant f (tw_meanwhile w) → no_grant f (tw_before_mark w) →
    runFanoutGroup uuid start_time cf turn_timeout stall_timeout w dir text f t = (Ok tt, t') →
    ended_well w dir text f t t'
| panic_recovered panic : ended_well w dir text f t (recoverDispatchPanic f panic t).

(** C10: a turn that ends settles its tasks. When the goroutine of a worker or of
    a fan-out group returns without an error, or panics, every task of its
    flight has left the flight's session: none is still running in its name, so
    none waits for the reaper. For a group this supposes that nobody hands the
    session new claims while the group is verified. *)
Theorem turn_settles_its_tasks w dir text f t t' i x :
  ft_session f ≠ "" → ended_well w dir text f t t' → i ∈ ft_tasks f →
  db_tasks (rt_db t') !! (ft_plan f, i) = Some x → ¬ (running x ∧ t_claimed_by_session x = Some (ft_session f)).
Proof.
  intros Hx Hend Hi Ht [Hrun Hc].
  assert (reporter (rt_db t') (ft_plan f, i) (ft_session f) = None) as Hr.
  { destruct Hend as [j t' Htasks Hd|t' Hm Hb Hd|panic].
    - rewrite Htasks in Hi. apply list_elem_of_singleton in Hi as ->. by eapply worker_settles.
    - by eapply group_settles.
    - by apply panic_settles. }
  assert (owned_running (ft_session f) x = true) as Ho by (apply andb_true_iff; split; apply bool_decide_eq_true_2; [exact Hrun|exact Hc]).
  unfold reporter in Hr. by rewrite Ht, Ho in Hr.
Qed.

(** A refusal of containment discovered when the turn starts: the group's tasks
    are failed at once, the worker's stays running until it is reaped. *)
Lemma refused_worker_keeps_its_task w dir ran f t e :
  tw_runner w = true → resolveContainment (cf_containment cf) (cf_confine cf) (ft_project f) dir (ft_binding f) = Err e →
  dispatchWorker uuid start_time cf turn_timeout stall_timeout w dir ran f t = (Err (TurnNotConfined e), t).
Proof. intros Hw He. unfold dispatchWorker, prepare_turn. by rewrite Hw, He. Qed.

Lemma refused_group_settles w dir heading f t e :
  tw_runner w = true → resolveContainment (cf_containment cf) (cf_confine cf) (ft_project f) dir (ft_binding f) = Err e →
  ∃ t', runFanoutGroup uuid start_time cf turn_timeout stall_timeout w dir heading f t = (Err (TurnNotConfined e), t') ∧
    ∀ i, i ∈ ft_tasks f → reporter (rt_db t') (ft_plan f, i) (ft_session f) = None.
Proof.
  intros Hw He. unfold runFanoutGroup, prepare_turn. rewrite Hw, He. simpl.
  destruct (mark_all_failed f containment_failure (ft_tasks f) t) as [r t1] eqn:Hm.
  apply mark_all_settles in Hm as (-> & Hall & _). eexists. split; [done|]. intros i Hi.
  rewrite (reporter_tasks (rt_db t1)); [by apply Hall|]. exact (clear_tasks (ft_worker f) "idle" t1).
Qed.
End Run.

(** ** A group dispatched, run and landed *)

Definition toy_texts : Texts (H:=toy_costs) := {|
  choice_text e := "choice"; spend_text e := "spend"; decl_text e := "decl"; capability_text e := "capability" |}.
Definition toy_turn_texts : TurnTexts (H:=toy_costs).
Proof.
  refine {| evidence_message task plan ev := "m" +:+ task; evidence_message_nonempty := _;
    invocation_text e := "invocation"; calibration_text e := "calibration"; store_text e := "store" |}.
  done.
Defined.

(** A provider whose own turn fans out. *)
Definition fanout_binding : Binding :=
  mkBinding "claude" (mkBindingConfig "claude" "" "claude" [] "" "10m" "" 0 "" "" "m" "m" "" "" "" "" None None true None []) false.
Definition toy_resolver : BindingResolver := {| ResolverState := unit; resolveBinding _ _ _ r := (Ok fanout_binding, r) |}.
#[local] Existing Instance merge_engine.
#[local] Existing Instance toy_codec.
#[local] Existing Instance toy_binding_codec.
#[local] Existing Instance toy_json.
#[local] Existing Instance toy_markdown.
#[local] Existing Instance demo_fs.
#[local] Existing Instance toy_costs.
#[local] Existing Instance toy_texts.
#[local] Existing Instance toy_turn_texts.
#[local] Existing Instance toy_resolver.
#[local] Existing Instance toy_invocation_hash.
#[local] Existing Instance demo_world.
#[local] Existing Instance toy_durations.

Definition demo_uuid (n : nat) : string := "u" +:+ Itoa (Z.of_nat n).
Definition demo_cf : Config := mkConfig 2 None false.
Definition fan_source : string := GoLib.Join (char_str newline) ["# Fan"; "- unit"; "- e2e"].
Definition demo_fan : DB :=
  exec_all (empty_db 0) [Tick 5000000000; AddProject "proj"; OpCreatePlanGraph "v" (mkCreatePlanOpts "proj" "s" "T" fan_source "") [] false].
Lemma demo_fan_reachable : reachable demo_fan.
Proof. apply (reachable_run 0 [Tick 5000000000; AddProject "proj"; OpCreatePlanGraph "v" (mkCreatePlanOpts "proj" "s" "T" fan_source "") [] false]). vm_compute. reflexivity. Qed.
Definition fan_registry : Registry :=
  mkRegistry (5 * second) {["proj" := mkProject None 0 0 None]} [abs_row "proj" "/proj" 1] ∅ ∅ [].
Definition demo_orch : Orch :=
  mkOrch (mkCalibrated demo_fan [] ∅) (mkSpending {["claude" := 10%Z]} ∅ fan_registry) tt 0 ∅ 0 [].
Definition demo_pass := DispatchNext demo_uuid "now" demo_cf "proj" "v" demo_orch.
Definition demo_flight : Flight := mkFlight "proj" "v" "u0" "u1" ["0.1"; "0.0"] fanout_binding.
Definition demo_turn : TurnWorld := mkTurnWorld _ true (mkOutcome _ "done" demo_usage None) id id id false.
Definition demo_runtime : Runtime := mkRuntime demo_orch "" [] [] ∅.
Definition demo_started : Runtime := set_orch demo_pass.2 demo_runtime.
#[local] Notation demo_group := (runFanoutGroup demo_uuid "now" demo_cf 0 0 demo_turn "/proj" "Fan" demo_flight demo_started).
#[local] Notation demo_landed := (land demo_cf (λ _, "failed") demo_flight ([] ++ []) (TurnReturned demo_group.1) demo_group.2).

Lemma demo_pass_spec : demo_pass = (demo_pass.1.1, demo_pass.1.2, demo_pass.2).
Proof. by rewrite <-!surjective_pairing. Qed.
Lemma demo_names_ok : ∀ (project : string) parallel purpose r b r',
  resolveBinding project parallel purpose r = (Ok b, r') → provider_name (bd_name b).
Proof. intros p q r s b s' [= <- _]. split; [discriminate|]. apply (bool_decide_unpack _). vm_compute. exact I. Qed.
Lemma demo_group_ok : demo_group = (Ok tt, demo_group.2).
Proof. assert (demo_group.1 = Ok tt) as Hg by (vm_compute; reflexivity). rewrite <-Hg. apply surjective_pairing. Qed.

Lemma pass_claims_what_it_launches_witness :
  ∃ new, oc_flights demo_pass.2 = new ++ [] ∧
    ∀ f i, f ∈ new → i ∈ ft_tasks f → ∃ t, db_tasks (oc_db demo_pass.2) !! (ft_plan f, i) = Some t ∧ running t.
Proof.
  destruct (pass_claims_what_it_launches demo_uuid "now" demo_cf "proj" "v" demo_orch _ _ _
    (reachable_wf _ demo_fan_reachable) demo_pass_spec) as (new & Hf & _ & _ & _ & Hh).
  exists new. split; [exact Hf|]. intros f i Hf' Hi. destruct (Hh f i Hf' Hi) as (t & Ht & Hr & _). exact (ex_intro _ t (conj Ht Hr)).
Defined.

Lemma pass_balances_witness :
  ∃ new, oc_flights demo_pass.2 = new ++ [] ∧ 2 = sum_list_with (length ∘ ft_tasks) new ∧ oc_slots demo_pass.2 = length new.
Proof.
  assert (no_char Ascii.zero "proj") as Hp by (apply (bool_decide_unpack _); vm_compute; exact I).
  destruct (pass_balances demo_uuid "now" demo_cf "proj" "v" demo_orch _ _ _ Hp
    (demo_names_ok "proj") demo_pass_spec) as (new & Hf & Hn & Hs & _).
  exists new. split; [exact Hf|]. split; [|exact (proj1 (Hs eq_refl))].
  rewrite <-Hn. vm_compute. reflexivity.
Defined.

Lemma orchestrator_books_witness :
  oc_slots (rt_orch demo_landed) = 0 ∧ inflight (oc_spending (rt_orch demo_landed)) (spendKey "proj" "claude") = 0%Z ∧
  provider_costs "proj" "claude" (so_registry (oc_spending (rt_orch demo_landed))) = [12%Z : Cost].
Proof.
  assert (no_char Ascii.zero "proj") as Hp by (apply (bool_decide_unpack _); vm_compute; exact I).
  assert (rtc (orch_step demo_uuid "now" demo_cf 0 0 (λ _, "failed")) demo_runtime demo_landed) as Hrun.
  { eapply rtc_l; [exact (os_pass demo_uuid "now" demo_cf 0 0 _ demo_runtime "proj" "v" _ _ _ Hp demo_pass_spec)|].
    apply rtc_once. refine (os_group demo_uuid "now" demo_cf 0 0 _ demo_started [] demo_flight [] demo_turn "/proj" "Fan"
      demo_group.1 demo_group.2 _ (surjective_pairing demo_group)).
    vm_compute. reflexivity. }
  destruct (orchestrator_books demo_uuid "now" demo_cf 0 0 _ _ fan_registry demo_runtime demo_landed demo_names_ok eq_refl eq_refl eq_refl
    ltac:(vm_compute; discriminate) Hrun) as [Hslots Hcaps].
  assert (cap_of (oc_spending (rt_orch demo_landed)) "claude" = Some (10%Z : Cost)) as Hc by (vm_compute; reflexivity).
  destruct (Hslots eq_refl) as [Hs _]. destruct (Hcaps "proj" "claude" _ Hp Hc) as [Hi _].
  split; [rewrite Hs; vm_compute; reflexivity|]. split; [rewrite Hi; vm_compute; reflexivity|vm_compute; reflexivity].
Defined.

Lemma turn_settles_its_tasks_witness :
  ∃ x, db_tasks (rt_db demo_group.2) !! ("v", "0.1") = Some x ∧ ¬ (running x ∧ t_claimed_by_session x = Some "u0").
Proof.
  assert (∃ x, db_tasks (rt_db demo_group.2) !! ("v", "0.1") = Some x) as [x Hx] by (eexists; vm_compute; reflexivity).
  exists x. split; [exact Hx|].
  refine (turn_settles_its_tasks demo_uuid "now" demo_cf 0 0 demo_turn "/proj" "Fan" demo_flight demo_started demo_group.2 "0.1" x _ _ _ Hx).
  - intros Hn. vm_compute in Hn. discriminate Hn.
  - exact (group_done demo_uuid "now" demo_cf 0 0 demo_turn "/proj" "Fan" demo_flight demo_started demo_group.2
      (λ s j Hj, Hj) (λ s j Hj, Hj) demo_group_ok).
  - by left.
Defined.
