(* ===== verification/SupDispatch.v ===== *)
(** * The supervisor's loop: [internal/supervisor/supervisor.go]

    The periodic tick and the enqueue command drive the same dispatch pass over
    the active plans, at most fifty of them, from a cursor that rotates. The pass
    runs under [dispatchMu]; what others do to the store between two plans is
    [between]. *)
From S2P Require Import Prelude GoLib StoreModel StoreSql StoreTasks StoreWorkers StoreGraph StoreMeta StoreProjects StoreProjectsProps StoreInv StoreTrace StoreProps PlanModel PlanImport PlanParse PlanParseProps OrchSpend OrchSpendProps OrchPaths OrchPathsProps Provider ProviderProps CmdResolver OrchVerify OrchVerifyProps StoreCalibrations OrchBinding OrchBindingProps OrchDispatch OrchPass OrchDispatchProps OrchRunProps.

Definition maxEnqueueDispatchPlans : nat := 50.
Definition staleAfter : Z := 90 * second.

Record EnqueueArgs := mkEnqueueArgs { ea_task : string; ea_description : string }.
Record EnqueueReply := mkEnqueueReply { er_task : string; er_inserted : bool }.

(** ** Status *)

(** [StatusReply], without the wire version and the uptime. *)
Record StatusReply := mkStatusReply { sr_active_workers : nat; sr_workers : list RunningWorker; sr_counts : StatusCounts }.
Definition HandleStatus `{SqlEngine} (s : DB) : StatusReply :=
  let running := ListRunningWorkers s in
  mkStatusReply (length running) running (StatusCountsOf s).

(** ** The rotation *)

(** [plans[(start+i)%len(plans)]] for [i] below the limit. *)
Definition window {A} (plans : list A) (start limit : nat) : list A :=
  omap (λ i, plans !! ((start + i) mod length plans)) (seq 0 limit).
Definition pass_limit {A} (plans : list A) : nat := Nat.min (length plans) maxEnqueueDispatchPlans.
Definition pass_start {A} (plans : list A) (cursor : nat) : nat :=
  match plans with [] => 0 | _ => cursor mod length plans end.
(** The plans of one pass, and the cursor it leaves. *)
Definition pass_window {A} (plans : list A) (cursor : nat) : list A := window plans (pass_start plans cursor) (pass_limit plans).
Definition next_cursor {A} (plans : list A) (cursor : nat) : nat :=
  match plans with
  | [] => cursor
  | _ => (pass_start plans cursor + pass_limit plans) mod length plans
  end.

Section Supervisor.
Context `{SqlEngine} `{PlanCodec} `{BindingCodec} `{Json} `{Markdown} `{FileSystem} `{CostOps} `{!Texts}
  `{BindingResolver} `{InvocationHash}.
Context (uuid : nat → string) (start_time : string) (cf : Config) (between : Orch → Orch).

Record Supervisor := mkSupervisor { sv_orch : Orch; sv_session : string; dispatchCursor : nat }.
Definition with_orch (o : Orch) (v : Supervisor) : Supervisor := mkSupervisor o (sv_session v) (dispatchCursor v).

Definition active_plans (s : DB) : list (string * Plan) := ListPlans "" [PlanStatusActive] s.

(** A plan whose pass fails is logged and skipped; what it dispatched before it
    failed does not count. *)
Fixpoint dispatch_plans (plans : list (string * Plan)) (total : nat) (o : Orch) : nat * Orch :=
  match plans with
  | [] => (total, o)
  | (id, p) :: plans' =>
      let '(n, err, o') := DispatchNext uuid start_time cf (p_project p) id (between o) in
      match err with
      | Some _ => dispatch_plans plans' total o'
      | None => dispatch_plans plans' (total + n) o'
      end
  end.

Definition dispatchActivePlans (v : Supervisor) : nat * Supervisor :=
  let plans := active_plans (oc_db (sv_orch v)) in
  let '(total, o) := dispatch_plans (pass_window plans (dispatchCursor v)) 0 (sv_orch v) in
  (total, mkSupervisor o (sv_session v) (next_cursor plans (dispatchCursor v))).

(** [tick]: the errors of the reaper and the heartbeat are logged. *)
Definition tick (v : Supervisor) : Supervisor :=
  let v := with_orch (run_store (ReclaimStale staleAfter) (sv_orch v)).2 v in
  let v := with_orch (run_store (HeartbeatSession (sv_session v)) (sv_orch v)).2 v in
  (dispatchActivePlans v).2.

Definition HandleEnqueue (args : EnqueueArgs) (v : Supervisor) : EnqueueReply * Supervisor :=
  let '(total, v) := dispatchActivePlans v in
  let taskID := if decide (ea_task args = "") then "dispatched=" +:+ Itoa (Z.of_nat total) else ea_task args in
  (mkEnqueueReply taskID (0 <? total), v).
End Supervisor.

(** * Properties of the supervisor's loop

    The rotation reaches every active plan, and a pass launches turns of active
    plans only. *)

(** ** The rotation *)

Section Rotation.
Context {A : Type}.

Lemma window_lookup (plans : list A) start limit j x :
  plans !! j = Some x → 0 < limit → limit ≤ length plans →
  (j + length plans - start mod length plans) mod length plans < limit → x ∈ window plans start limit.
Proof.
  intros Hj Hpos Hle Hd. set (n := length plans) in *. pose proof (lookup_lt_Some _ _ _ Hj) as Hn. fold n in Hn.
  set (i := (j + n - start mod n) mod n) in *. unfold window. apply list_elem_of_omap. exists i. split; [apply elem_of_seq; lia|].
  fold n. replace ((start + i) mod n) with j; [done|].
  pose proof (Nat.mod_upper_bound start n ltac:(lia)) as Hs. unfold i.
  rewrite (Nat.Div0.add_mod_idemp_r start), <-(Nat.Div0.add_mod_idemp_l start).
  replace (start mod n + (j + n - start mod n)) with (j + 1 * n) by lia. rewrite Nat.Div0.mod_add, Nat.mod_small; lia.
Qed.

Lemma window_fmap {B} (f : A → B) plans start limit : f <$> window plans start limit = window (f <$> plans) start limit.
Proof.
  unfold window. rewrite length_fmap. induction (seq 0 limit) as [|i l IH]; [done|]. cbn [omap list_omap].
  rewrite list_lookup_fmap. destruct (plans !! _); simpl; [f_equal|]; exact IH.
Qed.
Lemma pass_window_fmap {B} (f : A → B) plans cursor : f <$> pass_window plans cursor = pass_window (f <$> plans) cursor.
Proof. unfold pass_window. rewrite window_fmap. unfold pass_limit, pass_start. rewrite length_fmap. by destruct plans. Qed.
Lemma next_cursor_fmap {B} (f : A → B) plans cursor : next_cursor (f <$> plans) cursor = next_cursor plans cursor.
Proof. unfold next_cursor, pass_limit, pass_start. rewrite length_fmap. by destruct plans. Qed.

(** No plan comes twice in one pass. *)
Lemma window_NoDup (plans : list A) start limit : NoDup plans → limit ≤ length plans → NoDup (window plans start limit).
Proof.
  intros Hnd Hle. destruct plans as [|x0 rest]; [simpl in Hle; by replace limit with 0 by lia; apply NoDup_nil_2|].
  set (plans := x0 :: rest) in *. set (n := length plans) in *. assert (0 < n) as Hn by (unfold n, plans; simpl; lia).
  unfold window. fold n. clearbody n. assert (∀ l, NoDup l → (∀ i, i ∈ l → i < n) → NoDup (omap (λ i, plans !! ((start + i) mod n)) l)) as Hl.
  { induction l as [|i l IH]; intros Hl Hb; [apply NoDup_nil_2|]. apply NoDup_cons in Hl as [Hi Hl]. cbn [omap list_omap].
    destruct (plans !! ((start + i) mod n)) as [x|] eqn:Hx; [|apply IH; [done|set_solver]].
    apply NoDup_cons. split; [|apply IH; [done|set_solver]]. intros (k & Hk & Hkx)%list_elem_of_omap.
    pose proof (NoDup_lookup _ _ _ _ Hnd Hx Hkx) as Heq.
    pose proof (Hb i ltac:(set_solver)). pose proof (Hb k ltac:(set_solver)).
    assert (i = k) as ->; [|done]. pose proof (Nat.div_mod_eq (start + i) n) as Hdi. pose proof (Nat.div_mod_eq (start + k) n) as Hdk.
    rewrite Heq in Hdi. set (p := (start + i) / n) in *. set (q := (start + k) / n) in *. set (r := (start + k) mod n) in *.
    destruct (Nat.lt_trichotomy p q) as [Hpq|[->|Hpq]]; [|lia|].
    - assert (n * p + n ≤ n * q) by (rewrite <-Nat.mul_succ_r; by apply Nat.mul_le_mono_l). lia.
    - assert (n * q + n ≤ n * p) by (rewrite <-Nat.mul_succ_r; by apply Nat.mul_le_mono_l). lia. }
  apply Hl; [apply NoDup_seq|]. intros i Hi%elem_of_seq. lia.
Qed.
End Rotation.

(** The cursors of successive passes over one list. *)
Fixpoint cursor_after {A} (plans : list A) (c i : nat) : nat :=
  match i with 0 => c | S i' => next_cursor plans (cursor_after plans c i') end.

Lemma cursor_after_mod {A} (plans : list A) c i :
  plans ≠ [] → pass_start plans (cursor_after plans c i) = (c + i * pass_limit plans) mod length plans.
Proof.
  intros Hne. assert (length plans ≠ 0) as Hn by (by destruct plans).
  induction i as [|i IH]; [simpl; rewrite Nat.add_0_r; by destruct plans|].
  cbn [cursor_after]. set (d := cursor_after plans c i) in *.
  assert (next_cursor plans d = (pass_start plans d + pass_limit plans) mod length plans) as Hnx by (by destruct plans).
  assert (∀ m, pass_start plans m = m mod length plans) as Hps by (by destruct plans).
  rewrite Hps, Hnx, IH, Nat.Div0.mod_mod, Nat.Div0.add_mod_idemp_l. f_equal. lia.
Qed.

Lemma rotation_covers {A} (plans : list A) c k x :
  x ∈ plans → length plans ≤ k * maxEnqueueDispatchPlans → ∃ i, i < k ∧ x ∈ pass_window plans (cursor_after plans c i).
Proof.
  intros (j & Hj)%list_elem_of_lookup Hk. pose proof (lookup_lt_Some _ _ _ Hj) as Hlt.
  set (n := length plans) in *. set (L := pass_limit plans).
  assert (0 < L ∧ L ≤ n ∧ n ≤ k * L) as (HL & HLn & HkL).
  { unfold L, pass_limit, maxEnqueueDispatchPlans in *. fold n. assert (1 ≤ k) by (destruct k; lia).
    destruct (Nat.min_spec n 50) as [[? ->]|[? ->]]; [|lia].
    split; [lia|]. split; [lia|]. rewrite <-(Nat.mul_1_l n) at 1. by apply Nat.mul_le_mono_r. }
  assert (plans ≠ []) as Hne by (by intros ->).
  set (d := (j + n - c mod n) mod n). assert (d < n) as Hd by (apply Nat.mod_upper_bound; lia).
  exists (d / L). split; [apply Nat.Div0.div_lt_upper_bound; lia|].
  unfold pass_window. apply (window_lookup _ _ _ j); [done|lia|done|]. fold n L. rewrite cursor_after_mod by done. fold n L.
  rewrite Nat.Div0.mod_mod. pose proof (Nat.mod_upper_bound c n ltac:(lia)) as Hc.
  pose proof (Nat.div_mod_eq d L) as Hdl. pose proof (Nat.mod_upper_bound d L ltac:(lia)) as Hr.
  rewrite <-(Nat.Div0.add_mod_idemp_l c). set (q := d / L) in *. set (r := d mod L) in *. set (c' := c mod n) in *.
  assert (c' + d = j ∨ c' + d = j + n) as Hj'.
  { unfold d. destruct (decide (c' ≤ j)) as [Hle|Hgt].
    - left. replace (j + n - c') with (j - c' + 1 * n) by lia. rewrite Nat.Div0.mod_add, Nat.mod_small; lia.
    - right. rewrite Nat.mod_small; lia. }
  assert (∀ s, s < n → c' + q * L = s ∨ c' + q * L = s + n → (c' + q * L) mod n = s) as Hmod.
  { intros s Hs [->| ->]; [by apply Nat.mod_small|]. replace (s + n) with (s + 1 * n) by lia. rewrite Nat.Div0.mod_add. by apply Nat.mod_small. }
  assert ((j + n - (c' + q * L) mod n) mod n = r) as ->; [|done].
  destruct (decide (j < r)) as [Hjr|Hjr].
  - rewrite (Hmod (j + n - r)) by lia. replace (j + n - (j + n - r)) with r by lia. apply Nat.mod_small. lia.
  - rewrite (Hmod (j - r)) by lia. replace (j + n - (j - r)) with (r + 1 * n) by lia. rewrite Nat.Div0.mod_add. apply Nat.mod_small. lia.
Qed.

(** ** Whose turns a pass launches *)

Section Owned.
Context `{SqlEngine} `{PlanCodec} `{BindingCodec} `{Json} `{Markdown} `{FileSystem} `{CostOps} `{!Texts}
  `{BindingResolver} `{InvocationHash}.
Context (uuid : nat → string) (start_time : string) (cf : Config) (projectID planID : string).

(** Every turn launched between the two states is of the plan and the project,
    and [n] counts their tasks. *)
Definition owns (n : nat) (o o' : Orch) : Prop :=
  ∃ new, oc_flights o' = new ++ oc_flights o ∧ task_count new = n ∧ Forall (λ f, ft_plan f = planID ∧ ft_project f = projectID) new.

Lemma owns_same o o' : oc_flights o' = oc_flights o → owns 0 o o'.
Proof. intros Hf. by exists []. Qed.
Lemma owns_launch o o' f :
  oc_flights o' = oc_flights o → ft_plan f = planID → ft_project f = projectID → owns (length (ft_tasks f)) o (launch f o').
Proof. intros Hf Hp Hq. exists [f]. simpl. rewrite Hf. split; [done|]. split; [unfold task_count; simpl; lia|]. by repeat constructor. Qed.
Lemma owns_trans m n o1 o2 o3 : owns m o1 o2 → owns n o2 o3 → owns (m + n) o1 o3.
Proof.
  intros (new1 & Hf1 & <- & Ho1) (new2 & Hf2 & <- & Ho2). exists (new2 ++ new1). rewrite Hf2, Hf1, (assoc_L (++)).
  split; [done|]. split; [unfold task_count; rewrite sum_list_with_app; lia|by apply Forall_app].
Qed.

Lemma acquire_flights o b o' : acquireDispatchSlot cf o = (b, o') → oc_flights o' = oc_flights o.
Proof. unfold acquireDispatchSlot. destruct (negb _); [by intros [= _ <-]|]. by destruct (_ <? _)%Z; intros [= _ <-]. Qed.
Lemma release_flights o : oc_flights (releaseDispatchSlot cf o) = oc_flights o.
Proof. unfold releaseDispatchSlot. by destruct (negb _). Qed.
Lemma release_all_flights a o : oc_flights (release_all cf projectID a o) = oc_flights o.
Proof. unfold release_all. case_decide; apply release_flights. Qed.
Lemma store_flights {A} (m : Store A) o : oc_flights (run_store m o).2 = oc_flights o.
Proof. apply store_holds. Qed.
Lemma on_store_flights {A} (m : Store A) o r o' : on_store m o = (r, o') → oc_flights o' = oc_flights o.
Proof. intros Ho. by apply on_store_holds in Ho as [? _]. Qed.

Lemma owns_step projectDir parallel ref step o o1 r o2 :
  acquireDispatchSlot cf o = (true, o1) →
  dispatchReadyStep uuid start_time cf projectID projectDir planID parallel ref step o1 = (r, o2) →
  owns (match r with Ok true => 1 | _ => 0 end) o o2.
Proof.
  intros Hacq%acquire_flights. unfold dispatchReadyStep.
  destruct (choose_binding _ _ _ _ _ _ _ _ _) as [[b|named e|e] rs]; cycle 1.
  { intros [= <- <-]. apply owns_same. unfold refuse, emit. by rewrite store_flights, release_flights. }
  { intros [= <- <-]. apply owns_same. by rewrite release_flights. }
  destruct (checkSpendCap _ _ _) as [[[]|e] sp]; cycle 1.
  { intros [= <- <-]. apply owns_same. unfold refuse, emit. by rewrite store_flights, release_flights. }
  destruct (spawnWorkerRows _ _ b _) as [[[sid wid]|e] o3] eqn:Hsp; apply spawn_holds in Hsp as [Hf3 _]; simpl in *; cycle 1.
  { intros [= <- <-]. apply owns_same. rewrite release_all_flights. congruence. }
  destruct (on_store (claimStepTask planID ref step sid wid) o3) as [[[t|]|e] o4] eqn:Hcl; apply on_store_flights in Hcl; cycle 1.
  { intros [= <- <-]. apply owns_same. unfold clear_worker. rewrite store_flights, release_all_flights. congruence. }
  { intros [= <- <-]. apply owns_same. unfold clear_worker. rewrite store_flights, release_all_flights. congruence. }
  destruct (on_store (SetWorkerTask _ _ _) o4) as [[u|e] o5] eqn:Hset; apply on_store_flights in Hset; intros [= <- <-].
  - apply (owns_launch o o5 (mkFlight projectID planID sid wid [stepTaskID ref step] b)); try done. congruence.
  - apply owns_same. unfold clear_worker. rewrite ?store_flights, ?release_all_flights. congruence.
Qed.

Lemma owns_fanout projectDir parallel eligible o n a e o1 :
  dispatch_fanout uuid start_time cf projectID projectDir planID parallel eligible o = (n, a, e, o1) → owns n o o1.
Proof.
  unfold dispatch_fanout. destruct (acquireDispatchSlot cf o) as [[] o0] eqn:Hacq; apply acquire_flights in Hacq; cycle 1.
  { intros [= <- _ _ <-]. apply owns_same. unfold reportSaturation. destruct (decide _); [done|]. unfold emit. by rewrite store_flights. }
  destruct (resolveBinding projectID parallel BindingDispatch (oc_resolver o0)) as [[b|] rs]; cycle 1.
  { intros [= <- _ _ <-]. apply owns_same. by rewrite release_flights. }
  destruct (negb (bc_native_fanout (bd_config b))).
  { intros [= <- _ _ <-]. apply owns_same. by rewrite release_flights. }
  destruct (resolveContainment _ _ _ _ b); cycle 1.
  { intros [= <- _ _ <-]. apply owns_same. unfold refuse, emit. by rewrite store_flights, release_flights. }
  unfold dispatchFanoutGroup. destruct (checkSpendCap _ _ _) as [[[]|e'] sp]; cycle 1.
  { intros [= <- _ _ <-]. apply owns_same. unfold refuse, emit. by rewrite store_flights, release_flights. }
  destruct (spawnWorkerRows _ _ b _) as [[[sid wid]|e'] o3] eqn:Hsp; apply spawn_holds in Hsp as [Hf3 _]; simpl in *; cycle 1.
  { intros [= <- _ _ <-]. apply owns_same. rewrite release_all_flights. congruence. }
  destruct (claim_group planID sid wid eligible o3) as [[claimed er] o4] eqn:Hcl. apply claim_group_holds in Hcl as [Hf4 _].
  assert (∀ c o5, oc_flights (clear_worker wid "crashed" (releaseClaimedTasks planID sid c (release_all cf projectID (bd_name b) o5))) = oc_flights o5) as Hback.
  { intros c o5. unfold clear_worker. rewrite store_flights, (proj1 (release_claimed_holds _ _ _ _)). apply release_all_flights. }
  destruct er as [er|].
  { destruct claimed as [|i claimed]; intros [= <- _ _ <-]; apply owns_same.
    - refine (eq_trans (Hback [] o4) _). congruence.
    - refine (eq_trans (Hback (i :: claimed) o4) _). congruence. }
  destruct claimed as [|i claimed].
  { intros [= <- _ _ <-]. apply owns_same. unfold clear_worker. rewrite store_flights, release_all_flights. congruence. }
  destruct (on_store (SetWorkerTask _ _ _) o4) as [[u|e'] o5] eqn:Hset; apply on_store_flights in Hset; intros [= <- _ _ <-].
  - apply (owns_launch o o5 (mkFlight projectID planID sid wid (i :: claimed) b)); try done. congruence.
  - apply owns_same. refine (eq_trans (Hback (i :: claimed) o5) _). congruence.
Qed.

Lemma pass_owns o n e o' : DispatchNext uuid start_time cf projectID planID o = (n, e, o') → owns n o o'.
Proof.
  apply (R_pass uuid start_time cf projectID planID owns).
  - intros o0. by apply owns_same.
  - intros. by eapply owns_trans.
  - intros. by apply owns_same, store_flights.
  - intros. by apply owns_same.
  - intros. by apply owns_same.
  - intros. by apply owns_same.
  - intros. by eapply owns_step.
  - intros. by eapply owns_fanout.
Qed.
End Owned.

(** ** The theorems *)

Section Supervision.
Context `{SqlEngine} `{PlanCodec} `{BindingCodec} `{Json} `{Markdown} `{FileSystem} `{CostOps} `{!Texts}
  `{BindingResolver} `{InvocationHash}.
Context (uuid : nat → string) (start_time : string) (cf : Config).

(** The calls of [DispatchNext] a pass makes: the plan, and the state it finds. *)
Fixpoint dispatch_calls (between : Orch → Orch) (plans : list (string * Plan)) (o : Orch) : list (string * Orch) :=
  match plans with
  | [] => []
  | (id, p) :: plans' =>
      (id, between o) :: dispatch_calls between plans' (DispatchNext uuid start_time cf (p_project p) id (between o)).2
  end.
Definition calls_of (between : Orch → Orch) (v : Supervisor) : list (string * Orch) :=
  dispatch_calls between (pass_window (active_plans (oc_db (sv_orch v))) (dispatchCursor v)) (sv_orch v).

Lemma calls_plans between plans o : fst <$> dispatch_calls between plans o = fst <$> plans.
Proof. revert o. induction plans as [|[id p] plans IH]; intros o; simpl; [done|]. by rewrite IH. Qed.

Lemma active_plans_perm s :
  active_plans s ≡ₚ filter (λ r, p_status r.2 ∈ [PlanStatusActive] ∧ ("" = "" ∨ p_project r.2 = "")) (map_to_list (db_plans s)).
Proof. unfold active_plans, ListPlans. by rewrite <-Permutation_rev, order_by_perm. Qed.
Lemma active_plans_spec s id p : (id, p) ∈ active_plans s ↔ db_plans s !! id = Some p ∧ p_status p = PlanStatusActive.
Proof. rewrite active_plans_perm, list_elem_of_filter, elem_of_map_to_list, list_elem_of_singleton. simpl. naive_solver. Qed.
Lemma active_plans_NoDup s : NoDup (fst <$> active_plans s).
Proof.
  rewrite active_plans_perm. apply NoDup_fmap_2_strong; [|by apply NoDup_filter, NoDup_map_to_list].
  intros [i p] [j q] [_ Hi]%list_elem_of_filter [_ Hj]%list_elem_of_filter. simpl. intros ->.
  apply elem_of_map_to_list in Hi, Hj. congruence.
Qed.

(** C26: no active plan starves. However the dispatch passes of the tick and of
    enqueue commands fall, as long as the supervisor lists the same active plans
    in the same order, [n] of them are all handed to [DispatchNext] within
    [n / 50] passes, rounded up; and no pass hands over a plan twice. *)
Theorem every_active_plan_is_dispatched (between : nat → Orch → Orch) (vs : nat → Supervisor) ids k :
  (∀ i, i < k → fst <$> active_plans (oc_db (sv_orch (vs i))) = ids) →
  (∀ i, S i < k → dispatchCursor (vs (S i)) = dispatchCursor (dispatchActivePlans uuid start_time cf (between i) (vs i)).2) →
  length ids ≤ k * maxEnqueueDispatchPlans →
  (∀ id, id ∈ ids → ∃ i, i < k ∧ id ∈ fst <$> calls_of (between i) (vs i)) ∧
  ∀ i, i < k → NoDup (fst <$> calls_of (between i) (vs i)).
Proof.
  intros Hids Hcur Hk. unfold calls_of. split.
  - intros id Hid. destruct (rotation_covers ids (dispatchCursor (vs 0)) k id Hid Hk) as (i & Hi & Hin).
    exists i. split; [done|]. rewrite calls_plans, pass_window_fmap, Hids by done.
    replace (dispatchCursor (vs i)) with (cursor_after ids (dispatchCursor (vs 0)) i); [done|].
    clear Hin. induction i as [|i IH]; [done|]. rewrite Hcur by done. unfold dispatchActivePlans.
    destruct (dispatch_plans _ _ _ _ _ _ _) as [t o]. cbn [snd dispatchCursor cursor_after].
    rewrite IH by lia. rewrite <-(Hids i) by lia. by rewrite next_cursor_fmap.
  - intros i Hi. rewrite calls_plans, pass_window_fmap. apply window_NoDup; [apply active_plans_NoDup|].
    unfold pass_limit. lia.
Qed.

Lemma dispatch_plans_owned between plans total o total' o' :
  (∀ o, oc_flights (between o) ⊆ oc_flights o) → dispatch_plans uuid start_time cf between plans total o = (total', o') →
  ∀ f, f ∈ oc_flights o' → f ∈ oc_flights o ∨ ∃ p, (ft_plan f, p) ∈ plans ∧ ft_project f = p_project p.
Proof.
  intros Hb. revert total o. induction plans as [|[id p] plans IH]; intros total o; simpl; [intros [= _ ->]; auto|].
  destruct (DispatchNext _ _ _ _ _ _) as [[n e] o1] eqn:Hd. apply pass_owns in Hd as (new & Hf & _ & Hnew). rewrite Forall_forall in Hnew.
  intros Hp f Hin. assert (f ∈ oc_flights o1 ∨ ∃ p, (ft_plan f, p) ∈ plans ∧ ft_project f = p_project p) as [Ho|(q & Hq & Hpq)]
    by (destruct e; by eapply IH).
  - rewrite Hf in Ho. apply elem_of_app in Ho as [Ho|Ho]; [|left; by apply Hb]. apply Hnew in Ho as [<- ?].
    right. exists p. split; [by left|done].
  - right. exists q. split; [by right|done].
Qed.

Lemma window_elem {A} (plans : list A) start limit x : x ∈ window plans start limit → x ∈ plans.
Proof. intros (i & _ & Hi)%list_elem_of_omap. by eapply list_elem_of_lookup_2. Qed.

(** only active plans run. A turn under way after a pass of the supervisor
    was under way before it, or is of a plan that was active when the pass began,
    for that plan's project; so a paused plan gets no new turn, and the plans a
    pass leaves out get none in it. Others may end turns meanwhile. *)
Theorem only_active_plans_run between v total v' f :
  (∀ o, oc_flights (between o) ⊆ oc_flights o) → dispatchActivePlans uuid start_time cf between v = (total, v') →
  f ∈ oc_flights (sv_orch v') →
  f ∈ oc_flights (sv_orch v) ∨ ∃ p, db_plans (oc_db (sv_orch v)) !! ft_plan f = Some p ∧ p_status p = PlanStatusActive ∧ ft_project f = p_project p.
Proof.
  intros Hb. unfold dispatchActivePlans. destruct (dispatch_plans _ _ _ _ _ _ _) as [t o] eqn:Hd. intros [= <- <-] Hf. simpl in Hf.
  apply (dispatch_plans_owned _ _ _ _ _ _ Hb Hd) in Hf as [Hf|(p & Hp & Hq)]; [by left|right]. exists p.
  apply window_elem, active_plans_spec in Hp as [??]. done.
Qed.

(** What the count of a pass says: no more than the tasks it launched, and all of
    them when no plan's pass failed. *)
Lemma dispatch_plans_counts plans total o total' o' :
  dispatch_plans uuid start_time cf id plans total o = (total', o') →
  ∃ new, oc_flights o' = new ++ oc_flights o ∧ total' ≤ total + task_count new.
Proof.
  revert total o. induction plans as [|[pid p] plans IH]; intros total o; simpl; [intros [= <- <-]; exists []; split; [done|simpl; lia]|].
  destruct (DispatchNext _ _ _ _ _ _) as [[n e] o1] eqn:Hd. apply pass_owns in Hd as (new & Hf & Hn & _). simpl in Hf.
  intros Hp. assert (∃ new1, oc_flights o' = new1 ++ oc_flights o1 ∧ total' ≤ total + n + task_count new1) as (new1 & Hf1 & Hle).
  { destruct e; apply IH in Hp as (new1 & ? & ?); exists new1; (split; [done|lia]). }
  exists (new1 ++ new). rewrite Hf1, Hf, (assoc_L (++)). split; [done|]. unfold task_count in *. rewrite sum_list_with_app. lia.
Qed.
End Supervision.

(** ** On a concrete store *)

Section Demo2SupDispatch.
#[local] Existing Instance merge_engine.
#[local] Existing Instance toy_codec.
#[local] Existing Instance toy_binding_codec.
#[local] Existing Instance toy_json.
#[local] Existing Instance toy_markdown.
#[local] Existing Instance demo_fs.
#[local] Existing Instance toy_costs.
#[local] Existing Instance toy_texts.
#[local] Existing Instance toy_invocation_hash.

(** A provider that takes one task at a time, and a generator that fails the
    third row it names. *)
Definition solo_resolver : BindingResolver := {| ResolverState := unit;
  resolveBinding _ _ _ r := (Ok (mkBinding "claude" (mkBindingConfig "claude" "" "claude" [] "" "10m" "" 0 "" "" "m" "m" "" "" "" "" None None false None []) false), r) |}.
#[local] Existing Instance solo_resolver.
Definition failing_uuid (n : nat) : string := if n <? 2 then demo_uuid n else "u0".
Definition active_fan : DB := exec_all demo_fan [OpSetPlanStatus "v" PlanStatusActive].
Definition solo_orch : Orch := mkOrch (mkCalibrated active_fan [] ∅) (mkSpending ∅ ∅ fan_registry) tt 0 ∅ 0 [].
Definition demo_supervisor : Supervisor := mkSupervisor solo_orch "sup" 7.
Lemma demo_pass_moves : dispatchActivePlans failing_uuid "now" demo_cf id demo_supervisor =
  ((dispatchActivePlans failing_uuid "now" demo_cf id demo_supervisor).1, (dispatchActivePlans failing_uuid "now" demo_cf id demo_supervisor).2).
Proof. apply surjective_pairing. Qed.
#[local] Notation demo_after := (dispatchActivePlans failing_uuid "now" demo_cf id demo_supervisor).2.

Lemma demo_active : fst <$> active_plans (oc_db (sv_orch demo_supervisor)) = ["v"].
Proof. vm_compute. reflexivity. Qed.

Lemma one_pass : ∀ i, S i < 1 →
  dispatchCursor demo_supervisor = dispatchCursor (dispatchActivePlans failing_uuid "now" demo_cf id demo_supervisor).2.
Proof. intros i Hi. lia. Qed.
Lemma one_enough : length ["v"] ≤ 1 * maxEnqueueDispatchPlans.
Proof. unfold maxEnqueueDispatchPlans. simpl. lia. Qed.

Lemma every_active_plan_is_dispatched_witness :
  ∃ i, i < 1 ∧ "v" ∈ fst <$> calls_of failing_uuid "now" demo_cf id demo_supervisor.
Proof.
  destruct (every_active_plan_is_dispatched failing_uuid "now" demo_cf (λ _, id) (λ _, demo_supervisor) ["v"] 1
    (λ i _, demo_active) one_pass one_enough) as [Hall _].
  exact (Hall "v" (list_elem_of_here "v" [])).
Defined.

Lemma demo_flown : ∃ f, oc_flights (sv_orch demo_after) = [f].
Proof. eexists. vm_compute. reflexivity. Qed.

Lemma demo_idle : oc_flights (sv_orch demo_supervisor) = [].
Proof. reflexivity. Qed.
Lemma id_keeps : ∀ o : Orch, oc_flights (id o) ⊆ oc_flights o.
Proof. by intros o f. Qed.

Lemma only_active_plans_run_witness : ∃ f p, db_plans (oc_db (sv_orch demo_supervisor)) !! ft_plan f = Some p ∧ p_status p = PlanStatusActive.
Proof.
  destruct demo_flown as [f Hf]. assert (f ∈ oc_flights (sv_orch demo_after)) as Hin by (rewrite Hf; apply list_elem_of_here).
  pose proof (only_active_plans_run failing_uuid "now" demo_cf id demo_supervisor
    (dispatchActivePlans failing_uuid "now" demo_cf id demo_supervisor).1 demo_after f id_keeps demo_pass_moves Hin) as Hq.
  rewrite demo_idle in Hq. destruct Hq as [Hold|(p & Hp & Hs & _)]; [apply elem_of_nil in Hold; destruct Hold|].
  exists f, p. split; [exact Hp|exact Hs].
Defined.

(** A pass that launched a turn and then failed is not counted: the reply says
    that nothing was dispatched. *)
Example enqueue_forgets_a_failed_pass :
  let '(reply, v') := HandleEnqueue failing_uuid "now" demo_cf id (mkEnqueueArgs "" "") demo_supervisor in
  reply = mkEnqueueReply "dispatched=0" false ∧ length (oc_flights (sv_orch v')) = 1.
Proof. vm_compute. done. Qed.
End Demo2SupDispatch.
