(* ===== verification/SupDrive.v ===== *)
(** * The commands a client drives the supervisor with:
    [internal/supervisor/drive.go], [project.go], [config.go], [calibration.go],
    [hooks.go] apart

    Each handler checks its arguments, calls the orchestrator or the store and
    codes the error; with [ImportPlan] ([internal/orch/plan_import.go]) and the
    title of a plan ([internal/plan/meta.go]). A handler that makes several store
    calls takes what others do between them. *)
From S2P Require Import Prelude GoLib StoreModel StoreSql StoreTasks StoreWorkers StoreGraph StoreProjects StoreCalibrations PlanModel PlanImport PlanParse PlanValidate.

(** ** Titles *)

(** [\s] of a regular expression, and the greedy run of it. *)
Definition re_blank (c : Ascii.ascii) : bool :=
  bool_decide (c ∈ ["009"; "010"; "012"; "013"; " "]%char).
Fixpoint skip_blank (l : list Ascii.ascii) : list Ascii.ascii :=
  match l with c :: l' => if re_blank c then skip_blank l' else l | [] => [] end.
Fixpoint until_newline (l : list Ascii.ascii) : list Ascii.ascii :=
  match l with c :: l' => if decide (c = newline) then [] else c :: until_newline l' | [] => [] end.

(** A match of [^#\s+(.+?)\s*$] at the start of a line, as its group: the blank
    run may cross lines; the group ends before the blanks that end its line. A
    run that reaches the end of the text leaves a group of blanks. *)
Definition heading_at (l : list Ascii.ascii) : option (list Ascii.ascii) :=
  match l with
  | c :: rest =>
      if decide (c = "#"%char) then
        match rest with
        | b :: _ => if re_blank b then Some (rev (skip_blank (rev (until_newline (skip_blank rest))))) else None
        | [] => None
        end
      else None
  | [] => None
  end.

(** The leftmost match. *)
Fixpoint find_heading (line_start : bool) (l : list Ascii.ascii) : option (list Ascii.ascii) :=
  match (if line_start then heading_at l else None), l with
  | Some group, _ => Some group
  | None, c :: l' => find_heading (bool_decide (c = newline)) l'
  | None, [] => None
  end.

Definition Title (markdown fallback : string) : string :=
  match find_heading true (chars markdown) with
  | Some group => let t := TrimSpace (of_chars group) in if decide (t = "") then fallback else t
  | None => fallback
  end.

(** ** Importing a plan *)

Record ImportPlanOpts := mkImportOpts { io_project : string; io_slug : string; io_title : string; io_markdown : string }.

Inductive ImportPlanError :=
| ImportArguments
| ImportRefused (e : GateError)
| ImportUnparsed (e : MetaError)
| ImportNoGraph (e : ImportError)
| ImportStore (e : StoreError)
| ImportFuel.

(** The codes of [internal/ipc]; [Internal] is an error without one. *)
Inductive DriveError := InvalidArgs (what : string) | NotFound | Conflict | Internal.

Section Importing.
Context `{SqlEngine} `{PlanCodec} `{Json} `{Markdown}.

(** [strings.ToLower]. *)
Context (ToLower : string → string).

Definition ImportPlan (uuid : string) (o : ImportPlanOpts) : SM DB ImportPlanError string := λ s,
  if decide (io_project o = "" ∨ io_slug o = "" ∨ io_title o = "") then (Err ImportArguments, s)
  else match ValidateForImport (io_markdown o) with
  | None => (Err ImportFuel, s)
  | Some (Some e) => (Err (ImportRefused e), s)
  | Some None =>
      match Parse (io_markdown o) with
      | None => (Err ImportFuel, s)
      | Some (Err e) => (Err (ImportUnparsed e), s)
      | Some (Ok parsed) =>
          match graphSpecs parsed with
          | Err e => (Err (ImportNoGraph e), s)
          | Ok specs =>
              match CreatePlanGraph uuid (mkCreatePlanOpts (io_project o) (io_slug o) (io_title o) (io_markdown o) "") specs true s with
              | (Ok planID, s') => (Ok planID, s')
              | (Err e, s') => (Err (ImportStore e), s')
              end
          end
      end
  end.

Record PlanImportArgs := mkImportArgs { pa_markdown : string; pa_slug : string; pa_title : string; pa_project : string }.
Record PlanImportReply := mkImportReply { pr_plan : string; pr_slug : string; pr_title : string }.

Definition isDuplicateSlug (e : ImportPlanError) : bool :=
  match e with ImportStore e => errors_is e ErrDuplicateSlug | _ => false end.

Definition HandlePlanImport (uuid : string) (args : PlanImportArgs) : SM DB DriveError PlanImportReply := λ s,
  if decide (pa_project args = "") then (Err (InvalidArgs "plan-import: project id required"), s)
  else if decide (pa_markdown args = "") then (Err (InvalidArgs "plan-import: markdown required"), s)
  else match ValidateForImport (pa_markdown args) with
  | None => (Err Internal, s)
  | Some (Some _) => (Err (InvalidArgs "plan-import: invalid markdown"), s)
  | Some None =>
      let title := if decide (pa_title args = "") then Title (pa_markdown args) "plan" else pa_title args in
      let slug := if decide (pa_slug args = "") then Slug (ToLower title) else pa_slug args in
      match ImportPlan uuid (mkImportOpts (pa_project args) slug title (pa_markdown args)) s with
      | (Err e, s') => (Err (if isDuplicateSlug e then Conflict else Internal), s')
      | (Ok planID, s') => (Ok (mkImportReply planID slug title), s')
      end
  end.
End Importing.

(** ** Plans, tasks and workers *)

(** [allowedPlanStatuses]. *)
Definition allowedPlanStatuses (status : string) : option PlanStatus :=
  if decide (status = "paused") then Some PlanStatusPaused
  else if decide (status = "active") then Some PlanStatusActive
  else if decide (status = "abandoned") then Some PlanStatusAbandoned
  else None.

Definition code_plan_error (e : StoreError) : DriveError := if errors_is e ErrPlanNotFound then NotFound else Internal.

(** The reply echoes the plan and the status asked for. *)
Definition HandlePlanSetStatus (planID status : string) : SM DB DriveError (string * string) := λ s,
  if decide (planID = "") then (Err (InvalidArgs "plan-set-status: plan_id required"), s)
  else match allowedPlanStatuses status with
  | None => (Err (InvalidArgs "plan-set-status: not an allowed status"), s)
  | Some target =>
      match setPlanStatusOn planID target s with
      | (Err e, s') => (Err (code_plan_error e), s')
      | (Ok _, s') => (Ok (planID, status), s')
      end
  end.

Definition HandleTaskApprove (planID taskID : string) : SM DB DriveError unit := λ s,
  if decide (planID = "") then (Err (InvalidArgs "task-approve: plan_id required"), s)
  else if decide (taskID = "") then (Err (InvalidArgs "task-approve: task_id required"), s)
  else match ApproveTask planID taskID s with
  | (Err _, s') => (Err Internal, s')
  | (Ok (found, _), s') => if found then (Ok tt, s') else (Err NotFound, s')
  end.

(** The database, and the orchestrator's [runningWorkers] with the cancellations
    it has asked for. *)
Record Driven := mkDriven { dr_db : DB; dr_running : gset string; dr_cancelled : gset string }.
Definition on_db (f : DB → DB) (d : Driven) : Driven := mkDriven (f (dr_db d)) (dr_running d) (dr_cancelled d).

Definition KillWorker (workerID : string) (d : Driven) : bool * Driven :=
  if bool_decide (workerID ∈ dr_running d) then (true, mkDriven (dr_db d) (dr_running d) ({[workerID]} ∪ dr_cancelled d))
  else (false, d).

Section Kill.
Context `{SqlEngine}.

(** [meanwhile]: what others do between the listing, the cancellations and the
    deletion. [fault]: the listing failed. *)
Definition HandlePlanDelete (fault : bool) (meanwhile : DB → DB) (planID : string) : SM Driven DriveError string := λ d,
  if decide (planID = "") then (Err (InvalidArgs "plan-delete: plan_id required"), d)
  else if fault then (Err Internal, d)
  else
    let d := foldl (λ d w, if decide (rw_plan w = planID) then (KillWorker (rw_id w) d).2 else d) d (ListRunningWorkers (dr_db d)) in
    let d := on_db meanwhile d in
    match DeletePlan planID (dr_db d) with
    | (Err e, s') => (Err (code_plan_error e), on_db (λ _, s') d)
    | (Ok _, s') => (Ok planID, on_db (λ _, s') d)
    end.

Definition HandleWorkerKill (meanwhile : DB → DB) (workerID : string) : SM Driven DriveError unit := λ d,
  if decide (workerID = "") then (Err (InvalidArgs "worker-kill: worker_id required"), d)
  else
    let d := on_db meanwhile (KillWorker workerID d).2 in
    match ReclaimWorker workerID (dr_db d) with
    | (Err _, s') => (Err Internal, on_db (λ _, s') d)
    | (Ok found, s') => (if found then Ok tt else Err NotFound, on_db (λ _, s') d)
    end.
End Kill.

(** ** Projects and their configuration *)

Section Projects.
Context `{CostOps}.

Record ProjectEnsureArgs := mkEnsureArgs { pe_fingerprints : list Fingerprint; pe_display_name : string; pe_resolve_only : bool }.
Record ProjectEnsureReply := mkEnsureReply { en_project : string; en_created : bool }.

(** [resolved] and [accumulated]: what others do after the resolve and after the
    fingerprints are added. *)
Definition HandleProjectEnsure (resolved accumulated : Registry → Registry) (uuid : string) (args : ProjectEnsureArgs)
    : SM Registry DriveError ProjectEnsureReply := λ g,
  if decide (pe_fingerprints args = []) then (Err (InvalidArgs "project-ensure: at least one fingerprint required"), g)
  else if existsb blank (pe_fingerprints args) then (Err (InvalidArgs "project-ensure: fingerprint kind and value required"), g)
  else
    let found := ResolveProject (pe_fingerprints args) g in
    let g := resolved g in
    match found, pe_resolve_only args with
    | Some id, true => (Ok (mkEnsureReply id false), g)
    | None, true => (Ok (mkEnsureReply "" false), g)
    | Some id, false =>
        match AddProjectIdentifiers id (pe_fingerprints args) g with
        | (Err _, g) => (Err Internal, g)
        | (Ok _, g) =>
            match TouchProjectLastSeen id (accumulated g) with
            | (Err _, g) => (Err Internal, g)
            | (Ok _, g) => (Ok (mkEnsureReply id false), g)
            end
        end
    | None, false =>
        if decide (pe_display_name args = "")
        then (Err (InvalidArgs "project-ensure: display_name required to create a project"), g)
        else match CreateProject uuid (pe_display_name args) (pe_fingerprints args) g with
        | (Err _, g) => (Err Internal, g)
        | (Ok id, g) => (Ok (mkEnsureReply id true), g)
        end
    end.

(** The project behind the user's own configuration ([internal/vconfig]). *)
Definition userScopeFingerprint : Fingerprint := mkFingerprint FingerprintKindAbsPath "vconfig://user-scope".
Definition userScopeProjectDisplayName : string := "__vconfig_user_scope__".
Definition UserScopeProjectID (resolved : Registry → Registry) (uuid : string) : SM Registry StoreError string := λ g,
  match ResolveProject [userScopeFingerprint] g with
  | Some id => (Ok id, resolved g)
  | None => CreateProject uuid userScopeProjectDisplayName [userScopeFingerprint] (resolved g)
  end.

Definition resolveConfigProject (resolved : Registry → Registry) (uuid projectID : string) (userScope : bool)
    : SM Registry DriveError string := λ g,
  if userScope then
    if negb (bool_decide (projectID = "")) then (Err (InvalidArgs "project config: user_scope and an explicit project id are mutually exclusive"), g)
    else match UserScopeProjectID resolved uuid g with
    | (Err _, g) => (Err Internal, g)
    | (Ok id, g) => (Ok id, g)
    end
  else if decide (projectID = "") then (Err (InvalidArgs "project config: project id required"), g)
  else (Ok projectID, g).

Definition HandleProjectConfigGet (resolved : Registry → Registry) (uuid projectID : string) (userScope : bool)
    : SM Registry DriveError (gmap string string * string) := λ g,
  match resolveConfigProject resolved uuid projectID userScope g with
  | (Err e, g) => (Err e, g)
  | (Ok id, g) => (Ok (GetProjectConfig id g, id), g)
  end.

Definition HandleProjectConfigApply (resolved : Registry → Registry) (uuid projectID : string) (userScope : bool)
    (upserts : gmap string string) (deleteKeys : list string) : SM Registry DriveError unit := λ g,
  if bool_decide (upserts = ∅) && bool_decide (deleteKeys = []) then (Err (InvalidArgs "project-config-apply: nothing to apply"), g)
  else match resolveConfigProject resolved uuid projectID userScope g with
  | (Err e, g) => (Err e, g)
  | (Ok id, g) =>
      match ApplyProjectConfig id upserts deleteKeys g with
      | (Err _, g) => (Err Internal, g)
      | (Ok _, g) => (Ok tt, g)
      end
  end.
End Projects.

(** ** Calibrations *)

Section Calibration.
Context `{CalibrationHash}.

(** The wire record carries no id; the store derives it. *)
Definition calibrationFromWire (record : ProviderCalibration) : ProviderCalibration := with_id "" record.

Definition HandleCalibrationPut (race : Calibrated → Calibrated) (record : ProviderCalibration) : SM Calibrated DriveError string := λ s,
  if decide (cb_alias record = "") then (Err (InvalidArgs "calibration-put: alias required"), s)
  else if decide (cb_provider record = "") then (Err (InvalidArgs "calibration-put: provider required"), s)
  else if decide (cb_invocation_hash record = "") then (Err (InvalidArgs "calibration-put: invocation hash required"), s)
  else match RecordCalibration race (calibrationFromWire record) s with
  | (Err (ErrCalibrationConflict _ _ _), s') => (Err Conflict, s')
  | (Err _, s') => (Err Internal, s')
  | (Ok recorded, s') => (Ok (cb_id recorded), s')
  end.

Definition calibrationToWire (value : ProviderCalibration) : ProviderCalibration := with_id "" value.
Definition HandleCalibrationList (s : Calibrated) : list ProviderCalibration := calibrationToWire <$> ListCalibrations s.
End Calibration.
