(* ===== verification/SupDriveProps.v ===== *)
(** * Properties of the drive commands

    What an operator's import, kill and delete come to, and the identity of a
    project under repeated and concurrent requests. *)
From S2P Require Import Prelude GoLib StoreModel StoreSql StoreTasks StoreWorkers StoreGraph StoreInv StoreSpec StoreTrace StoreProps StoreProjects StoreProjectsProps StoreCalibrations PlanModel PlanFacts PlanImport PlanEdges PlanProps PlanParse PlanParseProps PlanValidate SupDrive.

(** ** Import, end to end *)

Section Importing.
Context `{SqlEngine} `{PlanCodec} `{Json} `{Markdown} (ToLower : string → string).

(** What a client's markdown becomes in the store. *)
Definition imported (uuid : string) (args : PlanImportArgs) (rep : PlanImportReply) (s s' : DB) : Prop :=
  ∃ parsed, Parse (pa_markdown args) = Some (Ok parsed) ∧
  let nodes := walk (pl_groups parsed) [] in
  let ids := node_id <$> nodes in
  nodes ≠ [] ∧ NoDup ids ∧
  (∃ row, db_plans s' !! uuid = Some row ∧ p_project row = pa_project args ∧ p_slug row = pr_slug rep ∧ p_title row = pr_title rep ∧
     p_source row = Some (pa_markdown args) ∧ p_status row = PlanStatusActive) ∧
  (∀ i n, nodes !! i = Some n → ∃ t, db_tasks s' !! (uuid, node_id n) = Some t ∧ t_description t = st_text (nd_step n) ∧
     t_status t = (if st_requires_approval (nd_step n) then TaskStatusReadyPendingApproval else TaskStatusPending) ∧
     ∀ d, d ∈ (let '(explicit, stated) := DependsOn (st_metadata (nd_step n)) in
               if stated then explicit else default [] (documentOrderEdges parsed ids !! i)) →
          d ∈ ids ∧ (uuid, node_id n, d) ∈ db_deps s').

(** C27: importing a plan builds it or leaves the store alone. When the command
    fails the database is exactly as it was. When it answers, the markdown passed
    validation and parsed; the plan did not exist before and is now active, under
    the slug and title replied, with its source; every step of the document has
    its own task, waiting for approval exactly when the step asks for it, with an
    edge to each task the step names, or, if it names none, to each task the
    document's order puts before it; and nothing that was in the store is lost. *)
Theorem plan_import_builds_the_plan uuid args s r s' :
  HandlePlanImport ToLower uuid args s = (r, s') →
  match r with
  | Err _ => s' = s
  | Ok rep => pr_plan rep = uuid ∧ ValidateForImport (pa_markdown args) = Some None ∧ db_plans s !! uuid = None ∧
      imported uuid args rep s s' ∧ extends s s'
  end.
Proof.
  unfold HandlePlanImport. destruct (decide _); [by intros [= <- <-]|]. destruct (decide _) as [|Hmd]; [by intros [= <- <-]|].
  destruct (ValidateForImport (pa_markdown args)) as [[e|]|] eqn:Hv; [by intros [= <- <-]| |by intros [= <- <-]].
  set (title := if decide (pa_title args = "") then _ else _). set (slug := if decide (pa_slug args = "") then _ else _). clearbody slug title.
  unfold ImportPlan. cbn [io_project io_slug io_title io_markdown]. rewrite Hv.
  destruct (decide _); [cbn beta iota; by intros [= <- <-]|]. destruct (Parse (pa_markdown args)) as [[parsed|e]|] eqn:Hp; [|cbn beta iota; by intros [= <- <-]..].
  destruct (graphSpecs parsed) as [specs|e] eqn:Hg; [|cbn beta iota; by intros [= <- <-]].
  destruct (CreatePlanGraph _ _ _ _ s) as [[planID|e] s1] eqn:Hc; apply CreatePlanGraph_atomic in Hc; [|cbn beta iota; by intros [= <- <-]].
  cbn beta iota. intros [= <- <-]. destruct Hc as (-> & Hnone & (row & Hrow & Hpr & Hsl & Hti & Hsrc & Hst) & Hw & Hext). simpl in *.
  pose proof (graphSpecs_builds_the_graph parsed specs Hg) as (Hne & Hnd & Hids & Hall & Hdeps).
  split; [done|]. split; [done|]. split; [done|]. split; [|done]. exists parsed. split; [done|]. split; [done|]. split; [done|]. split.
  { exists row. split_and!; try done. by rewrite Hsrc; unfold nullIfEmpty; rewrite decide_False. }
  intros i nd Hn. assert (is_Some (specs !! i)) as [g Hgi].
  { apply lookup_lt_is_Some. apply lookup_lt_Some in Hn. rewrite <-(length_fmap (λ g, o_id (g_task g)) specs), Hids. by rewrite length_fmap. }
  destruct (Hall i nd g Hn Hgi) as (Hd & Ha & _ & Hdep).
  assert (o_id (g_task g) = node_id nd) as Hid.
  { pose proof (f_equal (λ l, l !! i) Hids) as Hi. simpl in Hi. rewrite !list_lookup_fmap, Hn, Hgi in Hi. simpl in Hi. by simplify_eq. }
  assert (g ∈ specs) as Hin by (by eapply list_elem_of_lookup_2). destruct (Hw g Hin) as [[Ht _ _ _] He]. rewrite Hid in Ht, He.
  exists (new_task (with_plan_id uuid (g_task g)) (db_now s)). split; [done|]. split; [done|]. split; [simpl; by rewrite Ha|].
  intros d Hd'. assert (d ∈ g_depends_on g) as Hdg.
  { destruct (DependsOn _) as [explicit stated]. destruct stated; [by rewrite Hdep|]. by rewrite Hdep in Hd'. }
  split; [by eapply Hdeps|by apply He].
Qed.
End Importing.

(** ** The identity of a project *)

Section Ensure.
Context `{CostOps}.

Lemma resolve_none fps g : ResolveProject fps g = None → ∀ fp, fp ∈ fps → blank fp = false → owner fp (rg_idents g) = None.
Proof.
  induction fps as [|f fps IH]; simpl; [set_solver|]. intros Hr fp [->|Hin]%elem_of_cons Hb.
  - rewrite Hb in Hr. by destruct (owner f _).
  - destruct (blank f); [auto|]. destruct (owner f _); [done|auto].
Qed.

(** What one claims for a project that owns the first of them resolves to it. *)
Lemma claims_resolve p fps g g' :
  fps ≠ [] → existsb blank fps = false → claims_idents p fps (rg_idents g) (rg_idents g') →
  (∀ fp, fp ∈ fps → blank fp = false → is_Some (owner fp (rg_idents g'))) →
  ResolveProject fps g = None ∨ ResolveProject fps g = Some p → ResolveProject fps g' = Some p.
Proof.
  intros Hne Hbl [_ Hkeep Hnew] Hall Hr. assert (∀ fp, fp ∈ fps → blank fp = false) as Hblank.
  { intros fp Hin. apply not_true_is_false. intros Hb. apply not_true_iff_false in Hbl. apply Hbl, existsb_exists. exists fp.
    split; [by apply list_elem_of_In|done]. }
  destruct fps as [|fp fps]; [done|]. simpl. rewrite (Hblank fp) by (by left).
  destruct (Hall fp) as [q Hq]; [by left|by apply Hblank; left|]. rewrite Hq. f_equal.
  destruct (owner fp (rg_idents g)) as [q'|] eqn:Ho.
  - rewrite (Hkeep _ _ Ho) in Hq. simplify_eq. simpl in Hr. rewrite (Hblank fp), Ho in Hr by (by left). by destruct Hr as [|[= ->]].
  - by apply (Hnew fp).
Qed.

(** Nothing is refused that is already owned. *)
Lemma insert_owned p fps t g :
  (∀ fp, fp ∈ fps → blank fp = false → is_Some (owner fp (rg_idents g))) → ∃ g', insertIdentifiers p fps t g = (Ok tt, g').
Proof.
  unfold insertIdentifiers. revert g. induction fps as [|fp fps IH]; intros g Hall; cbn [sfor]; [by eexists|].
  unfold sbind at 1. destruct (blank fp) eqn:Hb; [simpl; apply IH; set_solver|].
  destruct (Hall fp) as [q Hq]; [by left|done|]. unfold sbind, sget. cbn beta iota. rewrite Hq, (bool_decide_true (is_Some _)), orb_true_r by done.
  simpl. apply IH. intros f Hf Hbf. simpl. rewrite owner_upsert. case_decide; [by subst; rewrite Hq|]. apply Hall; [by right|done].
Qed.

Lemma create_project_run uuid name fps g id g' :
  CreateProject uuid name fps g = (Ok id, g') →
  id = uuid ∧ claims_idents uuid fps (rg_idents g) (rg_idents g') ∧
  ∀ fp, fp ∈ fps → blank fp = false → is_Some (owner fp (rg_idents g')).
Proof.
  unfold CreateProject. intros Hr%(proj1 (atomically_ok _ _ _ _)). apply sbind_ok in Hr as (now & s1 & [= <- <-] & Hr).
  apply sbind_ok in Hr as (taken & s1 & [= <- <-] & Hr). destruct (has uuid _); [done|].
  apply sbind_ok in Hr as ([] & s1 & [= <-] & Hr). apply sbind_ok in Hr as ([] & s2 & Hi & [= <- <-]).
  match type of Hi with insertIdentifiers _ _ ?t ?g1 = _ => pose proof (insertIdentifiers_run uuid fps t g1) as Hrun end.
  rewrite Hi in Hrun. destruct Hrun as (Hc & Hall & _). split; [done|]. split; [exact Hc|]. by apply Hall.
Qed.
Lemma add_identifiers_run p fps g g' :
  AddProjectIdentifiers p fps g = (Ok tt, g') →
  p ≠ "" ∧ claims_idents p fps (rg_idents g) (rg_idents g') ∧ ∀ fp, fp ∈ fps → blank fp = false → is_Some (owner fp (rg_idents g')).
Proof.
  unfold AddProjectIdentifiers. case_decide as Hp; [done|]. intros Hr%(proj1 (atomically_ok _ _ _ _)).
  apply sbind_ok in Hr as (now & s1 & [= <- <-] & Hi). pose proof (insertIdentifiers_run p fps (rg_now g) g) as Hrun.
  rewrite Hi in Hrun. destruct Hrun as (Hc & Hall & _). split; [done|]. split; [exact Hc|]. by apply Hall.
Qed.

Lemma ensured_again uuid p args g g1 :
  pe_resolve_only args = false → pe_fingerprints args ≠ [] → existsb blank (pe_fingerprints args) = false → p ≠ "" →
  claims_idents p (pe_fingerprints args) (rg_idents g) (rg_idents g1) →
  (∀ fp, fp ∈ pe_fingerprints args → blank fp = false → is_Some (owner fp (rg_idents g1))) →
  ResolveProject (pe_fingerprints args) g = None ∨ ResolveProject (pe_fingerprints args) g = Some p →
  ResolveProject (pe_fingerprints args) g1 = Some p ∧
  ∃ g2, HandleProjectEnsure id id uuid args g1 = (Ok (mkEnsureReply p false), g2).
Proof.
  intros Honly Hne Hbl Hp Hc Hall Hr. assert (ResolveProject (pe_fingerprints args) g1 = Some p) as Hr1 by by eapply claims_resolve.
  split; [done|]. unfold HandleProjectEnsure. rewrite decide_False, Hbl, Honly, Hr1 by done. cbn [id].
  destruct (insert_owned p (pe_fingerprints args) (rg_now g1) g1 Hall) as [g2 Hi].
  unfold AddProjectIdentifiers. rewrite decide_False by done. unfold atomically, sbind, sget. rewrite Hi. by eexists.
Qed.

(** a directory keeps its project. Left alone, the ensure command answers the
    project its fingerprints resolve to, and creates one exactly when they
    resolve to none; from then on they all resolve, to the project answered,
    nothing that had an owner changes it, and the same command again answers the
    same project without creating one. *)
Theorem ensured_project_stays uuid uuid' args g rep g1 :
  uuid ≠ "" → pe_resolve_only args = false → HandleProjectEnsure id id uuid args g = (Ok rep, g1) →
  ResolveProject (pe_fingerprints args) g1 = Some (en_project rep) ∧
  (en_created rep = true ↔ ResolveProject (pe_fingerprints args) g = None) ∧
  (∀ fp q, owner fp (rg_idents g) = Some q → owner fp (rg_idents g1) = Some q) ∧
  ∃ g2, HandleProjectEnsure id id uuid' args g1 = (Ok (mkEnsureReply (en_project rep) false), g2).
Proof.
  intros Hu Honly Hh. unfold HandleProjectEnsure in Hh. rewrite Honly in Hh. cbn [id] in Hh.
  destruct (decide _) as [|Hne]; [done|]. destruct (existsb blank _) eqn:Hbl; [done|].
  destruct (ResolveProject (pe_fingerprints args) g) as [p|] eqn:Hr.
  - destruct (AddProjectIdentifiers p _ g) as [[[]|] g'] eqn:Ha; [|done]. apply add_identifiers_run in Ha as (Hp & Hc & Hall).
    unfold TouchProjectLastSeen, sbind, sget, smod in Hh. cbn beta iota in Hh. injection Hh as <- <-.
    match goal with |- ResolveProject _ ?g1 = _ ∧ _ => destruct (ensured_again uuid' p args g g1) as [H1 H2]; try done; [by right|] end. simpl.
    split; [done|]. split; [done|]. split; [apply Hc|done].
  - destruct (decide _); [done|]. destruct (CreateProject uuid _ _ g) as [[p|] g'] eqn:Hcr; [|done].
    apply create_project_run in Hcr as (-> & Hc & Hall). simplify_eq.
    destruct (ensured_again uuid' uuid args g g1) as [H1 H2]; try done; [by left|]. simpl.
    split; [done|]. split; [done|]. split; [apply Hc|done].
Qed.
End Ensure.

(** ** Killing a worker, deleting a plan *)

Section Kills.
Context `{SqlEngine}.

(** a killed worker is stopped and its tasks come back. The provider run
    registered for the worker is cancelled before the store is touched; then the
    worker's row is terminated and holds no task, and exactly the running tasks
    it held are pending and unclaimed. Without such a row the command answers
    not-found and changes nothing; it has no other error. *)
Theorem killed_worker_is_stopped meanwhile w d r d' :
  w ≠ "" → HandleWorkerKill meanwhile w d = (r, d') →
  let s := meanwhile (dr_db d) in
  (w ∈ dr_running d → w ∈ dr_cancelled d') ∧
  match r with
  | Ok _ =>
      (∃ row, db_workers (dr_db d') !! w = Some row ∧ w_status row = "terminated" ∧ w_plan row = None ∧ w_task row = None) ∧
      ∀ k, db_tasks (dr_db d') !! k = (λ t, if held_by w t then release_to TaskStatusPending t else t) <$> db_tasks s !! k
  | Err e => e = NotFound ∧ db_workers s !! w = None ∧ dr_db d' = s
  end.
Proof.
  intros Hw Hk s. unfold HandleWorkerKill in Hk. rewrite decide_False in Hk by done.
  assert (w ∈ dr_running d → w ∈ dr_cancelled (KillWorker w d).2) as Hc.
  { intros Hin. unfold KillWorker. rewrite bool_decide_true by done. simpl. set_solver. }
  assert (dr_db (KillWorker w d).2 = dr_db d) as Hdb by (unfold KillWorker; by case_bool_decide).
  cbn [on_db dr_db] in Hk. rewrite Hdb in Hk. fold s in Hk.
  destruct (ReclaimWorker w s) as [[found|e] s'] eqn:Hr; unfold ReclaimWorker, atomically, sbind, sget, smod, sret in Hr; simpl in Hr.
  - destruct (has w (db_workers s)) eqn:Hh; simpl in Hr; injection Hr as <- <-; injection Hk as <- <-; simpl.
    + split; [done|]. apply has_true in Hh as [row Hrow]. split.
      * exists (assign_worker None None "terminated" (db_now s) row). rewrite lookup_alter_eq, Hrow. done.
      * intros k. rewrite map_lookup_imap. by destruct (db_tasks s !! k).
    + split; [done|]. split; [done|]. split; [|done]. apply bool_decide_eq_false in Hh. by apply eq_None_not_Some.
  - destruct (negb _); simpl in Hr; discriminate Hr.
Qed.

Lemma cancel_fold p ws d :
  let d' := foldl (λ d w, if decide (rw_plan w = p) then (KillWorker (rw_id w) d).2 else d) d ws in
  dr_db d' = dr_db d ∧ dr_running d' = dr_running d ∧ dr_cancelled d ⊆ dr_cancelled d' ∧
  ∀ w, w ∈ ws → rw_plan w = p → rw_id w ∈ dr_running d → rw_id w ∈ dr_cancelled d'.
Proof.
  revert d. induction ws as [|w ws IH]; intros d; simpl; [split_and!; set_solver|].
  set (d1 := if decide (rw_plan w = p) then _ else _). destruct (IH d1) as (Hdb & Hr & Hsub & Hall). cbv zeta in *.
  assert (dr_db d1 = dr_db d ∧ dr_running d1 = dr_running d ∧ dr_cancelled d ⊆ dr_cancelled d1 ∧
    (rw_plan w = p → rw_id w ∈ dr_running d → rw_id w ∈ dr_cancelled d1)) as (Hdb1 & Hr1 & Hsub1 & Hw).
  { unfold d1, KillWorker. case_decide; [|split_and!; [done..|set_solver|done]]. case_bool_decide; simpl; split_and!; set_solver. }
  split; [congruence|]. split; [congruence|]. split; [set_solver|].
  intros w' [->|Hin]%elem_of_cons Hp Hrun; [by apply Hsub, Hw|]. apply Hall; [done|done|]. by rewrite Hr1.
Qed.

(** a deleted plan leaves nothing running. The provider run of every worker
    that was on the plan when the workers were listed is cancelled before the
    plan goes; when the command answers, neither the plan nor a task, edge,
    metadata row, reservation or hook verdict of it is left; an unknown plan is
    answered as not found, with nothing deleted. When the listing fails nothing
    is touched. *)
Theorem deleted_plan_is_stopped fault meanwhile p d r d' :
  p ≠ "" → HandlePlanDelete fault meanwhile p d = (r, d') →
  if fault then d' = d ∧ r = Err Internal else
  let s := meanwhile (dr_db d) in
  (∀ w row, db_workers (dr_db d) !! w = Some row → w_status row = "running" → w_plan row = Some p → w ∈ dr_running d → w ∈ dr_cancelled d') ∧
  match r with
  | Ok _ => is_Some (db_plans s !! p) ∧ db_plans (dr_db d') = delete p (db_plans s) ∧
      (∀ i, db_tasks (dr_db d') !! (p, i) = None ∧ db_metadata (dr_db d') !! (p, i) = None) ∧
      (∀ a b, (p, a, b) ∉ db_deps (dr_db d') ∧ (p, a, b) ∉ db_outputs (dr_db d') ∧ db_inputs (dr_db d') !! (p, a, b) = None) ∧
      (∀ x i, db_hooks (dr_db d') !! (x, p, i) = None) ∧
      (∀ k t, k.1 ≠ p → db_tasks s !! k = Some t → db_tasks (dr_db d') !! k = Some t)
  | Err e => e = NotFound ∧ db_plans s !! p = None ∧ dr_db d' = s
  end.
Proof.
  intros Hp Hh. unfold HandlePlanDelete in Hh. rewrite decide_False in Hh by done. destruct fault; [by injection Hh as <- <-|]. intros s.
  pose proof (cancel_fold p (ListRunningWorkers (dr_db d)) d) as Hfold. cbv zeta in Hfold.
  set (d1 := foldl _ d _) in *. clearbody d1. destruct Hfold as (Hdb & _ & _ & Hall). cbn [on_db dr_db] in Hh. rewrite Hdb in Hh. fold s in Hh.
  assert (dr_cancelled d' = dr_cancelled d1) as Hcan by (destruct (DeletePlan p s) as [[]?]; by simplify_eq).
  split.
  { intros w row Hrow Hst Hpl Hrun. rewrite Hcan.
    refine (Hall (mkRunningWorker w (w_provider row) (coalesce (w_plan row)) (coalesce (w_task row))) _ _ Hrun); [|by rewrite Hpl].
    unfold ListRunningWorkers. apply list_elem_of_fmap. exists (w, row). split; [done|]. rewrite order_by_perm. unfold running_workers.
    apply list_elem_of_filter. split; [done|]. by apply elem_of_map_to_list. }
  unfold DeletePlan, atomically, sbind, sget, smod, sfail in Hh. simpl in Hh.
  destruct (has p (db_plans s)) eqn:Hhas; simpl in Hh; injection Hh as <- <-; simpl.
  - apply has_true in Hhas. split; [done|]. split; [done|]. split_and!.
    + intros i. split; apply map_lookup_filter_None_2; right; simpl; auto.
    + intros a b. split; [set_solver|]. split; [set_solver|]. apply map_lookup_filter_None_2. right. simpl. auto.
    + intros x i. apply map_lookup_filter_None_2. right. simpl. auto.
    + intros k t Hk Ht. by apply map_lookup_filter_Some_2.
  - split; [done|]. apply bool_decide_eq_false in Hhas. split; [by apply eq_None_not_Some|done].
Qed.
End Kills.

(** ** On concrete stores *)

Definition notes_md : string := Join (char_str newline) ["# Build"; "1. compile"; "1. link"; "twice"; "# Check"; "## Fan"; "- unit"].
#[local] Notation demo_import := (HandlePlanImport (H:=merge_engine) (H0:=toy_codec) (H1:=toy_json) (H2:=toy_markdown) id "n"
  (mkImportArgs notes_md "notes" "" "proj") StoreProps.demo_db).

(** The title is the first heading; a step the document puts second waits for
    the first. *)
Lemma demo_imported_reply : demo_import.1 = Ok (mkImportReply "n" "notes" "Build").
Proof. vm_compute. reflexivity. Qed.
Lemma demo_import_runs : demo_import = (Ok (mkImportReply "n" "notes" "Build"), demo_import.2).
Proof. rewrite <-demo_imported_reply. apply surjective_pairing. Qed.

Lemma plan_import_builds_the_plan_witness :
  ValidateForImport (H:=toy_json) (H0:=toy_markdown) notes_md = Some None ∧ db_plans StoreProps.demo_db !! "n" = None ∧
  extends StoreProps.demo_db demo_import.2.
Proof.
  pose proof (plan_import_builds_the_plan (H:=merge_engine) (H0:=toy_codec) (H1:=toy_json) (H2:=toy_markdown) id "n"
    (mkImportArgs notes_md "notes" "" "proj") StoreProps.demo_db _ _ demo_import_runs) as (_ & Hv & Hn & _ & He).
  exact (conj Hv (conj Hn He)).
Defined.

(** A heading left blank takes the next line of text for its title. *)
Example blank_heading_takes_the_next_line :
  Title (Join (char_str newline) ["#"; "some text"]) "plan" = "some text" ∧
  Title (Join (char_str newline) ["# Build #"; "text"]) "plan" = "Build #" ∧
  Title "text # no heading" "plan" = "plan".
Proof. vm_compute. done. Qed.

Definition ensure_args (paths : list string) : ProjectEnsureArgs := mkEnsureArgs (abs <$> paths) "demo" false.
#[local] Notation demo_ensure := (HandleProjectEnsure (H:=toy_costs) id id "uA" (ensure_args ["/x"; "/a"]) demo_owned).

(** [/a] is already [q]'s: the command answers [q] and gives it [/x] as well. *)
Lemma demo_ensured : demo_ensure = (Ok (mkEnsureReply "q" false), demo_ensure.2).
Proof. vm_compute. reflexivity. Qed.

Lemma ensured_project_stays_witness :
  ResolveProject [abs "/x"; abs "/a"] demo_ensure.2 = Some "q" ∧ ResolveProject [abs "/x"; abs "/a"] demo_owned ≠ None.
Proof.
  assert ("uA" ≠ "") as Hu by discriminate.
  pose proof (ensured_project_stays (H:=toy_costs) "uA" "uB" (ensure_args ["/x"; "/a"]) demo_owned _ _ Hu eq_refl demo_ensured)
    as (Hr & Hc & _). exact (conj Hr (λ H, ltac:(discriminate (proj2 Hc H)))).
Defined.

(** Two clients that ask for one new directory at the same time: the second
    command runs between the first one's resolve and its create. Both answer a
    project they created; the fingerprints are the second one's, and the first
    one's project can be found by none. *)
Definition other_client : Registry → Registry := λ g, (HandleProjectEnsure (H:=toy_costs) id id "uB" (ensure_args ["/new"]) g).2.
Example concurrent_ensure_creates_an_orphan :
  let '(reply, g) := HandleProjectEnsure (H:=toy_costs) other_client id "uA" (ensure_args ["/new"]) demo_owned in
  reply = Ok (mkEnsureReply "uA" true) ∧ ResolveProject [abs "/new"] g = Some "uB" ∧
  is_Some (rg_projects g !! "uA") ∧ filter (λ i, i_project i = "uA") (rg_idents g) = [].
Proof. vm_compute. split_and!; [done..|by eexists|done]. Qed.

Definition demo_driven : Driven := mkDriven (exec_all (H:=merge_engine) StoreProps.demo_running [OpSetWorkerTask "w1" "p" "a"]) {["w1"]} ∅.
#[local] Notation demo_kill := (HandleWorkerKill id "w1" demo_driven).
Lemma demo_killed : demo_kill = (Ok tt, demo_kill.2).
Proof. vm_compute. reflexivity. Qed.

Lemma killed_worker_is_stopped_witness : "w1" ∈ dr_cancelled demo_kill.2.
Proof.
  assert ("w1" ≠ "") as Hw by discriminate.
  exact (proj1 (killed_worker_is_stopped id "w1" demo_driven (Ok tt) demo_kill.2 Hw demo_killed) (proj2 (elem_of_singleton "w1" "w1") eq_refl)).
Defined.

#[local] Notation demo_delete := (HandlePlanDelete (H:=merge_engine) false id "p" demo_driven).
Lemma demo_deleted : demo_delete = (Ok "p", demo_delete.2).
Proof. vm_compute. reflexivity. Qed.
Lemma demo_on_plan : ∃ row, db_workers (dr_db demo_driven) !! "w1" = Some row ∧ w_status row = "running" ∧ w_plan row = Some "p".
Proof. eexists. vm_compute. split_and!; reflexivity. Qed.

Lemma deleted_plan_is_stopped_witness :
  "w1" ∈ dr_cancelled demo_delete.2 ∧ db_plans (dr_db demo_delete.2) = delete "p" (db_plans (dr_db demo_driven)).
Proof.
  assert ("p" ≠ "") as Hp by discriminate.
  pose proof (deleted_plan_is_stopped (H:=merge_engine) false id "p" demo_driven (Ok "p") demo_delete.2 Hp demo_deleted) as (Hc & _ & Hd & _).
  destruct demo_on_plan as (row & Hrow & Hs & Hpl).
  exact (conj (Hc "w1" row Hrow Hs Hpl (proj2 (elem_of_singleton "w1" "w1") eq_refl)) Hd).
Defined.
