(* ===== verification/SupHooks.v ===== *)
(** * Managed hooks: [internal/supervisor/hooks.go]

    [HandleHookEvent] is cut where it touches what others share: each phase ends
    in one call of the store or one claim under [hookRunsMu]. The handlers of
    different sessions, the verifications they start ([orch.VerifyStopAsync]) and
    the rest of the store's clients interleave between phases ([hook_step]). *)
From S2P Require Import Prelude GoLib StoreModel StoreSql StoreTasks StoreWorkers StoreGraph StoreMeta StoreTrace StoreProjects PlanImport PlanParse OrchPaths OrchVerify.

(** ** Events, replies and shared state *)

Definition hookAdapters : list string := ["claude"; "codex"; "opencode"].
Definition HookEventPostToolUse : string := "PostToolUse".
Definition HookEventStop : string := "Stop".

Record HookEventArgs := mkHookArgs { ha_adapter : string; ha_event : string; ha_session : string }.
Record HookEventReply := mkHookReply { hr_allow : bool; hr_reason : string }.
Definition refuse (reason : string) : HookEventReply := mkHookReply false reason.

(** [hookRunKey]. *)
Record hookRunKey := mkHookKey { hk_session : string; hk_plan : string; hk_task : string }.
#[export] Instance hookRunKey_eq_dec : EqDecision hookRunKey.
Proof. solve_decision. Defined.
#[export] Instance hookRunKey_countable : Countable hookRunKey.
Proof.
  refine (inj_countable' (λ k, (hk_session k, hk_plan k, hk_task k)) (λ t, mkHookKey t.1.1 t.1.2 t.2) _).
  by intros [].
Defined.

(** FNV-1a, and the lock of a session among the 32. *)
Definition fnv_byte (h : Z) (c : Ascii.ascii) : Z :=
  (Z.lxor h (Z.of_N (Ascii.N_of_ascii c)) * 16777619) mod 2 ^ 32.
Definition Sum32 (s : string) : Z := foldl fnv_byte 2166136261%Z (chars s).
Definition hookEventLock (sessionID : string) : Z := (Sum32 sessionID mod 32)%Z.

(** What the handlers share: the store and [hookRuns]. *)
Record Hooks := mkHooks { hs_db : DB; hs_runs : gset hookRunKey }.

(** A call of the store. [fault]: the database could not be reached. The handler
    looks at no error beyond its being one. *)
Definition attempt {A} (fault : bool) (m : Store A) (s : Hooks) : option A * Hooks :=
  if fault then (None, s)
  else match m (hs_db s) with
       | (Ok a, db) => (Some a, mkHooks db (hs_runs s))
       | (Err _, db) => (None, mkHooks db (hs_runs s))
       end.

Definition claimHookRun (key : hookRunKey) (s : Hooks) : bool * Hooks :=
  if bool_decide (key ∈ hs_runs s) then (false, s) else (true, mkHooks (hs_db s) ({[key]} ∪ hs_runs s)).
Definition releaseHookRun (key : hookRunKey) (s : Hooks) : Hooks := mkHooks (hs_db s) (hs_runs s ∖ {[key]}).

(** ** The handler *)

(** The loop's [allPassed], [started], [pending] and [failed]. *)
Record Tally := mkTally { ty_allPassed : bool; ty_started : bool; ty_pending : bool; ty_failed : bool }.
Definition tally0 : Tally := mkTally true false false false.
Definition tally_started (t : Tally) : Tally := mkTally (ty_allPassed t) true (ty_pending t) (ty_failed t).
Definition tally_pending (t : Tally) : Tally := mkTally false (ty_started t) true (ty_failed t).
Definition tally_failed (t : Tally) : Tally := mkTally false (ty_started t) (ty_pending t) true.
Definition tally_open (t : Tally) : Tally := mkTally false (ty_started t) (ty_pending t) (ty_failed t).

Definition States := gmap (string * string) HookState.

(** Where a handler is. Each phase but the last names the call it makes next;
    [AtReply] still holds the session's lock. *)
Inductive Phase :=
| AtTasks
| AtInvalidate (tasks : list HookTask)
| AtBeat (seen : gset string) (tasks : list HookTask)
| AtStates (tasks : list HookTask)
| AtTask (all : list HookTask) (states : States) (tasks : list HookTask) (t : Tally)
| AtPending (all : list HookTask) (states : States) (task : HookTask) (tasks : list HookTask) (t : Tally)
| AtReply (reply : HookEventReply).

(** The checks before the lock. *)
Definition valid_event (args : HookEventArgs) : bool :=
  bool_decide (ha_adapter args ∈ hookAdapters) &&
  (bool_decide (ha_event args = HookEventPostToolUse) || bool_decide (ha_event args = HookEventStop)) &&
  negb (bool_decide (ha_session args = "")).

Definition after_lookup (args : HookEventArgs) (tasks : option (list HookTask)) : Phase :=
  match tasks with
  | None => AtReply (refuse "internal_error")
  | Some [] => AtReply (refuse "not_managed")
  | Some tasks =>
      if negb (forallb (λ t, bool_decide (ht_provider t = ha_adapter args)) tasks)
      then AtReply (refuse "adapter_mismatch")
      else if bool_decide (ha_event args = HookEventPostToolUse) then AtInvalidate tasks
      else AtStates tasks
  end.

(** The head of the heartbeat loop, up to its next call. *)
Fixpoint beat_from (seen : gset string) (tasks : list HookTask) : Phase :=
  match tasks with
  | [] => AtReply (mkHookReply true "progress_recorded")
  | task :: rest =>
      if bool_decide (ht_worker task = "") then AtReply (refuse "worker_missing")
      else if bool_decide (ht_worker task ∈ seen) then beat_from seen rest
      else AtBeat seen tasks
  end.

(** What follows the loop over the verdicts. *)
Definition stop_reply (t : Tally) : HookEventReply :=
  if ty_allPassed t then mkHookReply true "acceptance_passed"
  else if ty_started t then refuse "verification_started"
  else if ty_pending t then refuse "verification_pending"
  else if ty_failed t then refuse "verification_failed"
  else refuse "verification_required".

Definition key_of (args : HookEventArgs) (task : HookTask) : hookRunKey :=
  mkHookKey (ha_session args) (ht_plan task) (ht_task task).

(** The head of the verdict loop, up to its next claim. *)
Fixpoint stop_from (all : list HookTask) (states : States) (tasks : list HookTask) (t : Tally) : Phase :=
  match tasks with
  | [] => AtReply (stop_reply t)
  | task :: rest =>
      match states !! (ht_plan task, ht_task task) with
      | Some HookVerificationPassed => stop_from all states rest t
      | Some HookVerificationFailed => stop_from all states rest (tally_failed t)
      | _ => AtTask all states tasks t
      end
  end.

(** One phase. The flag says that the verification of a claimed task starts. *)
Definition handle_phase `{SqlEngine} (fault : bool) (args : HookEventArgs) (ph : Phase) (s : Hooks)
    : Phase * option hookRunKey * Hooks :=
  match ph with
  | AtTasks =>
      let '(tasks, s') := attempt fault (RunningHookTasks (ha_session args)) s in
      (after_lookup args tasks, None, s')
  | AtInvalidate tasks =>
      match attempt fault (InvalidateHookVerifications (ha_session args)) s with
      | (None, s') => (AtReply (refuse "internal_error"), None, s')
      | (Some _, s') => (beat_from ∅ tasks, None, s')
      end
  | AtBeat seen [] => (beat_from seen [], None, s)
  | AtBeat seen (task :: rest) =>
      match attempt fault (HeartbeatWorkerAndSession (ht_worker task)) s with
      | (None, s') => (AtReply (refuse "internal_error"), None, s')
      | (Some _, s') => (beat_from ({[ht_worker task]} ∪ seen) rest, None, s')
      end
  | AtStates tasks =>
      match attempt fault (sget (HookVerificationStates (ha_session args))) s with
      | (None, s') => (AtReply (refuse "internal_error"), None, s')
      | (Some states, s') => (stop_from tasks states tasks tally0, None, s')
      end
  | AtTask all states [] t => (stop_from all states [] t, None, s)
  | AtTask all states (task :: rest) t =>
      match claimHookRun (key_of args task) s with
      | (false, s') => (stop_from all states rest (tally_pending t), None, s')
      | (true, s') => (AtPending all states task rest (tally_open t), None, s')
      end
  | AtPending all states task rest t =>
      match attempt fault (SetHookVerificationPending (ha_session args) (ht_plan task) (ht_task task)) s with
      | (None, s') => (AtReply (refuse "internal_error"), None, releaseHookRun (key_of args task) s')
      | (Some false, s') => (AtReply (refuse "ownership_changed"), None, releaseHookRun (key_of args task) s')
      | (Some true, s') => (stop_from all states rest (tally_started t), Some (key_of args task), s')
      end
  | AtReply reply => (AtReply reply, None, s)
  end.

(** A handler on its own, [env i] being what others do before its phase [i]. *)
Fixpoint drive `{SqlEngine} (fuel : nat) (faults : nat → bool) (env : nat → Hooks → Hooks) (args : HookEventArgs)
    (ph : Phase) (s : Hooks) : option HookEventReply * Hooks :=
  match ph, fuel with
  | AtReply reply, _ => (Some reply, s)
  | _, 0 => (None, s)
  | _, S fuel' =>
      let '(ph', _, s') := handle_phase (faults fuel) args ph (env fuel s) in
      drive fuel' faults env args ph' s'
  end.

(** [HandleHookEvent]; a refused event takes no lock. *)
Definition HandleHookEvent `{SqlEngine} (fuel : nat) (faults : nat → bool) (env : nat → Hooks → Hooks) (args : HookEventArgs)
    (s : Hooks) : option HookEventReply * Hooks :=
  if negb (valid_event args) then (Some (refuse "invalid_event"), s)
  else drive fuel faults env args AtTasks s.

(** ** The verifications and the machine *)

(** A verification's goroutine: not begun, its task loaded, its outcome known
    ([None] when there is none: an error or a panic), its outcome written. *)
Inductive Stage := Queued | Loaded (s1 : DB) | Verified (outcome : option bool) | Recorded.
Record Check := mkCheck { ck_key : hookRunKey; ck_stage : Stage }.

(** The callback's write. *)
Definition write_outcome (fault : bool) (key : hookRunKey) (outcome : option bool) (s : Hooks) : Hooks :=
  (attempt fault
     match outcome with
     | None => ClearHookVerification (hk_session key) (hk_plan key) (hk_task key)
     | Some passed => SetHookVerificationResult (hk_session key) (hk_plan key) (hk_task key) passed
     end s).2.

(** History, newest first: the lookups of running tasks, the tool uses recorded,
    the verifications that loaded their task and those that passed, with the
    databases they read, and the stops allowed. *)
Inductive Obs :=
| SawTasks (session : string) (db : DB)
| ToolUsed (session : string)
| CheckLoaded (key : hookRunKey) (s1 : DB)
| CheckPassed (key : hookRunKey) (s1 s2 : DB)
| StopAllowed (session : string) (tasks : list HookTask).

Record Machine := mkMachine {
  mc_hooks : Hooks;
  mc_handlers : list (HookEventArgs * Phase);
  mc_checks : list Check;
  mc_log : list Obs }.

(** What a phase shows. *)
Definition stop_tasks (ph : Phase) : option (list HookTask) :=
  match ph with
  | AtStates all | AtTask all _ _ _ | AtPending all _ _ _ _ => Some all
  | _ => None
  end.
Definition observe (fault : bool) (args : HookEventArgs) (ph ph' : Phase) (s : Hooks) : list Obs :=
  match ph, stop_tasks ph, ph' with
  | AtTasks, _, _ => [SawTasks (ha_session args) (hs_db s)]
  | AtInvalidate _, _, _ => if fault then [] else [ToolUsed (ha_session args)]
  | _, Some all, AtReply reply => if hr_allow reply then [StopAllowed (ha_session args) all] else []
  | _, _, _ => []
  end.

Definition running_phase (ph : Phase) : Prop := match ph with AtReply _ => False | _ => True end.

(** The operations on hook verdicts, which only the supervisor runs. *)
Definition hook_op (op : Op) : bool :=
  match op with OpHookPending _ _ _ | OpHookResult _ _ _ _ | OpInvalidateHooks _ | OpClearHook _ _ _ => true | _ => false end.

Section Machine.
Context `{SqlEngine} `{PlanCodec} `{Json} `{Markdown} `{CostOps}.
Variable registry : Registry.

(** What the check of a key answers: its task loaded from [s1], the plan's
    outputs from [s2], the files and the shell as they are then. *)
Definition check_outcome (W : World) (F : FileSystem) (expired : bool) (key : hookRunKey) (s1 s2 : DB) : option bool :=
  match CanStopAs (H0:=W) (H4:=F) registry (λ _, s2) expired (hk_plan key) (hk_task key) (hk_session key) s1 with
  | Ok allowed => Some allowed
  | Err _ => None
  end.

Inductive hook_step : Machine → Machine → Prop :=
| step_arrive args s hs cs log :
    valid_event args = true →
    hookEventLock (ha_session args) ∉ (λ h, hookEventLock (ha_session h.1)) <$> hs →
    hook_step (mkMachine s hs cs log) (mkMachine s (hs ++ [(args, AtTasks)]) cs log)
| step_phase fault args ph s l r cs log ph' spawned s' :
    running_phase ph → handle_phase fault args ph s = (ph', spawned, s') →
    hook_step (mkMachine s (l ++ (args, ph) :: r) cs log)
      (mkMachine s' (l ++ (args, ph') :: r) (cs ++ match spawned with Some key => [mkCheck key Queued] | None => [] end)
         (observe fault args ph ph' s ++ log))
| step_return args reply s l r cs log :
    hook_step (mkMachine s (l ++ (args, AtReply reply) :: r) cs log) (mkMachine s (l ++ r) cs log)
| step_load key s hs l r log :
    hook_step (mkMachine s hs (l ++ mkCheck key Queued :: r) log)
      (mkMachine s hs (l ++ mkCheck key (Loaded (hs_db s)) :: r) (CheckLoaded key (hs_db s) :: log))
| step_verify W F expired key s1 s hs l r log :
    let outcome := check_outcome W F expired key s1 (hs_db s) in
    hook_step (mkMachine s hs (l ++ mkCheck key (Loaded s1) :: r) log)
      (mkMachine s hs (l ++ mkCheck key (Verified outcome) :: r)
         (if bool_decide (outcome = Some true) then CheckPassed key s1 (hs_db s) :: log else log))
| step_panic key st s hs l r log :
    (st = Queued ∨ ∃ s1, st = Loaded s1) →
    hook_step (mkMachine s hs (l ++ mkCheck key st :: r) log) (mkMachine s hs (l ++ mkCheck key (Verified None) :: r) log)
| step_record fault key outcome s hs l r log :
    hook_step (mkMachine s hs (l ++ mkCheck key (Verified outcome) :: r) log)
      (mkMachine (write_outcome fault key outcome s) hs (l ++ mkCheck key Recorded :: r) log)
| step_release key s hs l r log :
    hook_step (mkMachine s hs (l ++ mkCheck key Recorded :: r) log) (mkMachine (releaseHookRun key s) hs (l ++ r) log)
| step_store op s hs cs log :
    hook_op op = false →
    hook_step (mkMachine s hs cs log) (mkMachine (mkHooks (exec op (hs_db s)) (hs_runs s)) hs cs log).

(** A supervisor starts with no verification under way, on a database that holds
    no passing verdict. *)
Definition hook_initial (m : Machine) : Prop :=
  hs_runs (mc_hooks m) = ∅ ∧ mc_handlers m = [] ∧ mc_checks m = [] ∧ mc_log m = [] ∧
  ∀ k at_, db_hooks (hs_db (mc_hooks m)) !! k ≠ Some (HookVerificationPassed, at_).

Inductive hook_reachable : Machine → Prop :=
| hooks_start m : hook_initial m → hook_reachable m
| hooks_next m m' : hook_reachable m → hook_step m m' → hook_reachable m'.
End Machine.
