(* ===== verification/SupHooksProps.v ===== *)
(** * Properties of the managed hooks

    An allowed stop is fresh, the handler always answers, and only a
    verification under way holds a hook run. *)
From S2P Require Import Prelude GoLib StoreModel StoreSql StoreTasks StoreWorkers Dfs StoreGraph StoreMeta StoreInv StoreSpec StoreTrace StoreProps StoreProjects StoreProjectsProps PlanImport PlanParse PlanParseProps OrchPaths OrchPathsProps OrchVerify OrchVerifyProps SupHooks.

(** ** What the store's operations leave of the verdicts *)

Definition hooks_within (T : gmap (string * string * string) (HookState * Z)) (s : DB) : Prop := db_hooks s ⊆ T.

Section Within.
Context (T : gmap (string * string * string) (HookState * Z)).

Lemma within_statement {A} (m : Store A) : (∀ s, db_hooks (m s).2 = db_hooks s) → preserves (hooks_within T) m.
Proof. intros Hm s Hs. unfold hooks_within. by rewrite Hm. Qed.
Lemma within_mod (f : DB → DB) : (∀ s, db_hooks (f s) ⊆ db_hooks s) → preserves (hooks_within T) (smod (E:=StoreError) f).
Proof. intros Hf. apply preserves_mod. intros s Hs. unfold hooks_within in *. exact (transitivity (Hf s) Hs). Qed.
Lemma within_event e : preserves (hooks_within T) (insert_event e).
Proof. apply within_statement. intros s. unfold insert_event, sbind, sget, smod, sfail. by repeat case_match; simplify_eq/=. Qed.
Lemma within_update_task k where_ set_ : preserves (hooks_within T) (update_task k where_ set_).
Proof. apply within_statement. intros s. unfold update_task. by repeat case_match. Qed.
Lemma within_update_metadata k where_ set_ : preserves (hooks_within T) (update_metadata k where_ set_).
Proof. apply within_statement. intros s. unfold update_metadata. by repeat case_match. Qed.
Lemma within_lookup p i : preserves (hooks_within T) (GetTask p i).
Proof. apply within_statement. intros s. unfold GetTask. by repeat case_match. Qed.
End Within.
#[export] Hint Resolve within_event within_update_task within_update_metadata within_lookup : preserve.

(** One statement that does not touch the verdicts. *)
Ltac same_hooks :=
  apply within_statement; intros; unfold sfail, smod, sget; repeat (simplify_eq/=; try done; case_match).

Section Ops.
Context `{SqlEngine} (T : gmap (string * string * string) (HookState * Z)).

Lemma worker_ops_within :
  (∀ uuid o, preserves (hooks_within T) (CreateSession uuid o)) ∧ (∀ x, preserves (hooks_within T) (CloseSession x)) ∧
  (∀ uuid o, preserves (hooks_within T) (CreateWorker uuid o)) ∧ (∀ w p i, preserves (hooks_within T) (SetWorkerTask w p i)) ∧
  (∀ w, preserves (hooks_within T) (ReclaimWorker w)) ∧ (∀ d, preserves (hooks_within T) (ReclaimStale d)).
Proof.
  split_and!; intros.
  - unfold CreateSession. same_hooks.
  - apply within_mod. intros s. apply map_filter_subseteq.
  - unfold CreateWorker. same_hooks.
  - unfold SetWorkerTask. same_hooks.
  - unfold ReclaimWorker. preserve; by apply within_mod.
  - unfold ReclaimStale. preserve; apply within_mod; try done. intros s. apply map_filter_subseteq.
Qed.

Lemma task_ops_within p i x :
  (∀ w, preserves (hooks_within T) (claimTaskOnce p i x w)) ∧ (∀ w, preserves (hooks_within T) (ClaimNextReady p x w)) ∧
  (∀ ev, preserves (hooks_within T) (MarkDone p i x ev)) ∧ (∀ pl max, preserves (hooks_within T) (MarkFailedWithPayload p i x pl max)) ∧
  (∀ r, preserves (hooks_within T) (ReleaseClaim p i x r)) ∧ (∀ pl, preserves (hooks_within T) (MarkBlocked p i x pl)) ∧
  preserves (hooks_within T) (ApproveTask p i).
Proof.
  split_and!; intros.
  - unfold claimTaskOnce. preserve.
  - unfold ClaimNextReady. preserve.
  - unfold MarkDone. preserve.
  - unfold MarkFailedWithPayload. preserve.
  - unfold ReleaseClaim. preserve.
  - unfold MarkBlocked. preserve.
  - unfold ApproveTask. preserve.
Qed.

Lemma metadata_ops_within p i :
  (∀ id caps, preserves (hooks_within T) (BindTaskCalibration p i id caps)) ∧
  (∀ a pr m e d x, preserves (hooks_within T) (RecordTaskExecution p i a pr m e d x)) ∧
  (∀ x id, preserves (hooks_within T) (RecordTaskProviderSession p i x id)) ∧
  (∀ r, preserves (hooks_within T) (MarkBlockedCapability p i r)) ∧
  (∀ r, preserves (hooks_within T) (MarkBlockedInput p i r)) ∧
  (∀ b, preserves (hooks_within T) (ClearTaskBlock p i b)).
Proof.
  split_and!; intros.
  - unfold BindTaskCalibration. preserve.
  - unfold RecordTaskExecution. preserve.
  - unfold RecordTaskProviderSession. preserve.
  - unfold MarkBlockedCapability, markMetadataBlocked. preserve.
  - unfold MarkBlockedInput, markMetadataBlocked. preserve.
  - unfold ClearTaskBlock. preserve.
Qed.

Lemma row_ops_within :
  (∀ uuid o, preserves (hooks_within T) (createPlanOn uuid o)) ∧ (∀ id st, preserves (hooks_within T) (setPlanStatusOn id st)) ∧
  (∀ o, preserves (hooks_within T) (createTaskOn o)) ∧ (∀ p a b, preserves (hooks_within T) (addDepOn p a b)) ∧
  (∀ p i path sha, preserves (hooks_within T) (reserveTaskInputOn p i path sha)) ∧
  (∀ p i path mode, preserves (hooks_within T) (reserveTaskOutputOn p i path mode)) ∧
  (∀ p i g t j, preserves (hooks_within T) (putTaskMetadataOn p i g t j)).
Proof.
  split_and!; intros.
  - unfold createPlanOn. same_hooks.
  - unfold setPlanStatusOn. same_hooks.
  - unfold createTaskOn. same_hooks.
  - unfold addDepOn. same_hooks.
  - unfold reserveTaskInputOn. same_hooks.
  - unfold reserveTaskOutputOn. same_hooks.
  - unfold putTaskMetadataOn. same_hooks.
Qed.

Lemma graph_ops_within :
  (∀ uuid o ts act, preserves (hooks_within T) (CreatePlanGraph uuid o ts act)) ∧
  (∀ p ts, preserves (hooks_within T) (MaterializePlanGraph p ts)) ∧ (∀ p, preserves (hooks_within T) (DeletePlan p)).
Proof.
  pose proof row_ops_within as (Hp & Hst & Ht & Hd & Hi & Ho & Hm).
  assert (∀ p ts, preserves (hooks_within T) (writeGraphTasksOn p ts)) as Hw.
  { intros p ts. unfold writeGraphTasksOn, write_graph_node. preserve; auto. }
  split_and!; intros.
  - unfold CreatePlanGraph. preserve; auto.
  - unfold MaterializePlanGraph. preserve; auto.
  - unfold DeletePlan. preserve; apply within_mod; [done|]. intros s. apply map_filter_subseteq.
Qed.
End Ops.

(** Only the operations on verdicts add or change one; the others leave a part
    of them. *)
Lemma exec_within `{SqlEngine} op s : hook_op op = false → db_hooks (exec op s) ⊆ db_hooks s.
Proof.
  intros Hop. set (T := db_hooks s). assert (hooks_within T s) as Hs by (unfold hooks_within; done). change (hooks_within T (exec op s)).
  destruct op; try discriminate Hop; simpl exec;
    first [ exact Hs | by apply (worker_ops_within T) | by apply (row_ops_within T) | by apply (graph_ops_within T)
          | by apply (task_ops_within T p i x) | by apply (task_ops_within T p "" x) | by apply (task_ops_within T p i "")
          | by apply (metadata_ops_within T p i) | by apply within_event | by case_match ].
Qed.

(** ** Evidence in the history *)

Definition row_key (k : hookRunKey) : string * string * string := (hk_session k, hk_plan k, hk_task k).
Definition verdict (s : DB) (k : hookRunKey) : option HookState := fst <$> db_hooks s !! row_key k.

Section History.
Context `{SqlEngine} `{PlanCodec} `{Json} `{Markdown} `{CostOps}.
Variable registry : Registry.

Definition passes (k : hookRunKey) (s1 s2 : DB) : Prop :=
  ∃ W F expired, check_outcome registry W F expired k s1 s2 = Some true.

(** No tool use of the session is recorded in this part of the history. *)
Definition quiet (session : string) (l : list Obs) : Prop := ToolUsed session ∉ l.

(** The last tool use recorded is older than the moment a verification loaded
    the task, than the whole of a verification that passed, than the lookup that
    found these tasks. *)
Definition loaded (log : list Obs) (k : hookRunKey) (s1 : DB) : Prop :=
  ∃ newer older, log = newer ++ CheckLoaded k s1 :: older ∧ quiet (hk_session k) newer.
Definition fresh (log : list Obs) (k : hookRunKey) : Prop :=
  ∃ newer s1 s2 older, log = newer ++ CheckPassed k s1 s2 :: older ∧ quiet (hk_session k) newer ∧
    loaded older k s1 ∧ passes k s1 s2.
Definition saw (log : list Obs) (session : string) (tasks : list HookTask) : Prop :=
  ∃ newer db older, log = newer ++ SawTasks session db :: older ∧ quiet session newer ∧
    (RunningHookTasks session db).1 = Ok tasks ∧ tasks ≠ [].

Definition stop_ok (log : list Obs) (session : string) (tasks : list HookTask) : Prop :=
  saw log session tasks ∧ ∀ t, t ∈ tasks → fresh log (mkHookKey session (ht_plan t) (ht_task t)).

Lemma quiet_app x l1 l2 : quiet x l1 → quiet x l2 → quiet x (l1 ++ l2).
Proof. unfold quiet. set_solver. Qed.
Lemma loaded_app new log k s1 : quiet (hk_session k) new → loaded log k s1 → loaded (new ++ log) k s1.
Proof. intros Hq (newer & older & -> & Hn). exists (new ++ newer), older. rewrite <-app_assoc. split; [done|by apply quiet_app]. Qed.
Lemma fresh_app new log k : quiet (hk_session k) new → fresh log k → fresh (new ++ log) k.
Proof.
  intros Hq (newer & s1 & s2 & older & -> & Hn & Hl). exists (new ++ newer), s1, s2, older. rewrite <-app_assoc.
  split; [done|]. split; [by apply quiet_app|done].
Qed.
Lemma saw_app new log x tasks : quiet x new → saw log x tasks → saw (new ++ log) x tasks.
Proof.
  intros Hq (newer & db & older & -> & Hn & Hr). exists (new ++ newer), db, older. rewrite <-app_assoc.
  split; [done|]. split; [by apply quiet_app|done].
Qed.

(** ** What a handler knows *)

Definition states_fresh (log : list Obs) (session : string) (states : States) : Prop :=
  ∀ p i, states !! (p, i) = Some HookVerificationPassed → fresh log (mkHookKey session p i).
Definition passed_in (states : States) (t : HookTask) : Prop :=
  states !! (ht_plan t, ht_task t) = Some HookVerificationPassed.
Definition tallied (states : States) (all tasks : list HookTask) (t : Tally) : Prop :=
  ∃ done_, all = done_ ++ tasks ∧ (ty_allPassed t = true → Forall (passed_in states) done_).

Definition phase_ok (log : list Obs) (args : HookEventArgs) (ph : Phase) : Prop :=
  match ph with
  | AtStates all => saw log (ha_session args) all
  | AtTask all states tasks t =>
      saw log (ha_session args) all ∧ states_fresh log (ha_session args) states ∧ tallied states all tasks t
  | AtPending all states task rest t =>
      saw log (ha_session args) all ∧ states_fresh log (ha_session args) states ∧
      tallied states all rest t ∧ ty_allPassed t = false
  | _ => True
  end.

Lemma phase_ok_app new log args ph : quiet (ha_session args) new → phase_ok log args ph → phase_ok (new ++ log) args ph.
Proof.
  intros Hq. destruct ph; simpl; try done; [by apply saw_app|..]; intros (Hs & Hf & Ht);
    (split; [by apply saw_app|]); (split; [|done]); intros p i Hp; by apply fresh_app, Hf.
Qed.

Lemma tallied_step states all task rest t t' :
  tallied states all (task :: rest) t → (ty_allPassed t' = true → ty_allPassed t = true ∧ passed_in states task) →
  tallied states all rest t'.
Proof.
  intros (dn & -> & Hd) Hp. exists (dn ++ [task]). rewrite <-app_assoc. split; [done|].
  intros [? ?]%Hp. apply Forall_app. auto.
Qed.

(** The loop stops at a claim or with its reply; it allows only when every task
    passed. *)
Lemma stop_from_spec log args all states tasks t :
  saw log (ha_session args) all → states_fresh log (ha_session args) states → tallied states all tasks t →
  let ph := stop_from all states tasks t in
  phase_ok log args ph ∧ (∀ r, ph = AtReply r → hr_allow r = true → stop_ok log (ha_session args) all).
Proof.
  intros Hs Hf. revert t. induction tasks as [|task rest IH]; intros t Ht; simpl.
  - split; [done|]. intros r [= <-]. destruct Ht as (dn & -> & Hd). rewrite app_nil_r in *. unfold stop_reply.
    destruct (ty_allPassed t); [|by repeat case_match]. intros _. split; [done|].
    intros x Hx. apply Hf. by eapply (proj1 (Forall_forall _ _) (Hd eq_refl)).
  - destruct (states !! _) as [[]|] eqn:Hst; try (simpl; by split; [split_and!|]).
    + apply IH. by eapply tallied_step.
    + apply IH. by eapply tallied_step.
Qed.
End History.

(** ** Who holds a hook run *)

Definition held (h : HookEventArgs * Phase) : option hookRunKey :=
  match h.2 with AtPending _ _ task _ _ => Some (key_of h.1 task) | _ => None end.
Definition holders (hs : list (HookEventArgs * Phase)) (cs : list Check) : list hookRunKey := omap held hs ++ (ck_key <$> cs).
Definition books (runs : gset hookRunKey) (l : list hookRunKey) : Prop := NoDup l ∧ ∀ k, k ∈ runs ↔ k ∈ l.

Lemma books_perm runs l l' : l' ≡ₚ l → books runs l → books runs l'.
Proof. intros Hp [Hn Hk]. split; [by rewrite Hp|]. intros k. by rewrite Hk, Hp. Qed.
Lemma books_add runs l l' k : l' ≡ₚ k :: l → k ∉ runs → books runs l → books ({[k]} ∪ runs) l'.
Proof.
  intros Hp Hnk [Hn Hk]. apply (books_perm _ (k :: l)); [done|]. split.
  - apply NoDup_cons. by rewrite <-Hk.
  - intros j. rewrite elem_of_union, elem_of_singleton, elem_of_cons, Hk. done.
Qed.
Lemma books_remove runs l l' k : l ≡ₚ k :: l' → books runs l → books (runs ∖ {[k]}) l'.
Proof.
  intros Hp [Hn Hk]. rewrite Hp in Hn. apply NoDup_cons in Hn as [Hnk Hn]. split; [done|].
  intros j. rewrite elem_of_difference, elem_of_singleton, Hk, Hp, elem_of_cons. naive_solver.
Qed.

(** A handler and a verification seen from the rest. *)
Lemma holders_handler l h r cs :
  holders (l ++ h :: r) cs ≡ₚ option_list (held h) ++ holders (l ++ r) cs.
Proof.
  unfold holders. rewrite !omap_app. simpl. destruct (held h); simpl; [|done]. rewrite <-!app_assoc. simpl. symmetry. apply (Permutation_middle (omap held l) _ h0).
Qed.
Lemma holders_check hs l c r : holders hs (l ++ c :: r) ≡ₚ ck_key c :: holders hs (l ++ r).
Proof. unfold holders. rewrite !fmap_app, fmap_cons. rewrite !(assoc_L (++)). symmetry. apply Permutation_middle. Qed.
Lemma holders_spawn hs cs c : holders hs (cs ++ [c]) ≡ₚ ck_key c :: holders hs cs.
Proof. rewrite holders_check, app_nil_r. done. Qed.

Lemma held_after_lookup args o : held (args, after_lookup args o) = None.
Proof. unfold after_lookup. by repeat case_match. Qed.
Lemma held_beat_from args seen tasks : held (args, beat_from seen tasks) = None.
Proof. revert seen. induction tasks as [|t tasks IH]; intros seen; [done|]. cbn [beat_from]. case_bool_decide; [done|]. case_bool_decide; [apply IH|done]. Qed.
Lemma held_stop_from args all states tasks t : held (args, stop_from all states tasks t) = None.
Proof. revert t. induction tasks as [|x tasks IH]; intros t; [done|]. cbn [stop_from]. destruct (states !! _) as [[]|]; try done; apply IH. Qed.

(** How a phase moves the books. *)
Lemma phase_books `{SqlEngine} fault args ph s ph' spawned s' l r cs :
  handle_phase fault args ph s = (ph', spawned, s') →
  books (hs_runs s) (holders (l ++ (args, ph) :: r) cs) →
  books (hs_runs s') (holders (l ++ (args, ph') :: r) (cs ++ match spawned with Some key => [mkCheck key Queued] | None => [] end)).
Proof.
  intros Hh. pose proof (λ h cs, holders_handler l h r cs) as Hp.
  assert (∀ ph1 ph2, held (args, ph1) = None → held (args, ph2) = None → books (hs_runs s) (holders (l ++ (args, ph1) :: r) cs) →
    books (hs_runs s) (holders (l ++ (args, ph2) :: r) (cs ++ []))) as Hsame.
  { intros ph1 ph2 H1 H2. apply books_perm. by rewrite app_nil_r, !Hp, H1, H2. }
  assert (∀ A (m : Store A) o s1, attempt fault m s = (o, s1) → hs_runs s1 = hs_runs s) as Hat.
  { intros A m o s1. unfold attempt. intros. by repeat case_match; simplify_eq. }
  destruct ph as [| |seen [|task rest]| |all states [|task rest] t|all states task rest t|reply]; simpl in Hh.
  - destruct (attempt _ _ _) as [o s1] eqn:Ha. simplify_eq. rewrite (Hat _ _ _ _ Ha). apply Hsame; [done|apply held_after_lookup].
  - destruct (attempt _ _ _) as [[o|] s1] eqn:Ha; simplify_eq; rewrite (Hat _ _ _ _ Ha); apply Hsame; try done; apply held_beat_from.
  - simplify_eq. by apply Hsame.
  - destruct (attempt _ _ _) as [[o|] s1] eqn:Ha; simplify_eq; rewrite (Hat _ _ _ _ Ha); apply Hsame; try done; apply held_beat_from.
  - destruct (attempt _ _ _) as [[o|] s1] eqn:Ha; simplify_eq; rewrite (Hat _ _ _ _ Ha); apply Hsame; try done; apply held_stop_from.
  - simplify_eq. apply Hsame; try done.
  - unfold claimHookRun in Hh. case_bool_decide; simplify_eq; [apply Hsame; [done|apply held_stop_from]|].
    simpl. apply books_add; [|done]. by rewrite app_nil_r, !Hp.
  - destruct (attempt _ _ _) as [[[]|] s1] eqn:Ha; simplify_eq; simpl; rewrite (Hat _ _ _ _ Ha).
    + apply books_perm. rewrite holders_spawn, !Hp, held_stop_from. done.
    + apply books_remove. by rewrite app_nil_r, !Hp.
    + apply books_remove. by rewrite app_nil_r, !Hp.
  - simplify_eq. by apply Hsame.
Qed.

(** ** How a phase moves the verdicts *)

Lemma row_key_inj k1 k2 : row_key k1 = row_key k2 → k1 = k2.
Proof. destruct k1, k2. unfold row_key. simpl. congruence. Qed.

Lemma verdict_pending s x p i s' b k :
  SetHookVerificationPending x p i s = (b, s') →
  verdict s' k = verdict s k ∨ (verdict s' k = Some HookVerificationPending ∧ k = mkHookKey x p i).
Proof.
  unfold SetHookVerificationPending. intros. repeat case_match; simplify_eq; auto.
  unfold verdict. simpl. destruct (decide (k = mkHookKey x p i)) as [->|Hk].
  - right. by rewrite lookup_insert_eq.
  - left. rewrite lookup_insert_ne; [done|]. by intros Hr%(row_key_inj (mkHookKey x p i)).
Qed.

Lemma verdict_invalidate x s k :
  verdict (InvalidateHookVerifications x s).2 k = if decide (hk_session k = x) then None else verdict s k.
Proof.
  unfold verdict. simpl. case_decide as Hx; [rewrite map_lookup_filter_None_2; [done|]|].
  - right. intros v _. simpl. naive_solver.
  - rewrite (map_lookup_filter (λ kv, kv.1.1.1 ≠ x)). simpl. destruct (db_hooks s !! row_key k); simpl; [|done]. by case_guard.
Qed.

Lemma verdict_heartbeat w s k : verdict (HeartbeatWorkerAndSession w s).2 k = verdict s k.
Proof. unfold HeartbeatWorkerAndSession, atomically, sbind, smod. simpl. by case_match. Qed.

Definition clears (x : string) (s : DB) : Prop := ∀ k, hk_session k = x → verdict s k = None.

Lemma attempt_db {A} fault (m : Store A) s o s' :
  attempt fault m s = (o, s') → hs_db s' = hs_db s ∨ hs_db s' = (m (hs_db s)).2.
Proof. unfold attempt. intros. destruct fault; simplify_eq; [by left|]. right. destruct (m _) as [[]?]; by simplify_eq. Qed.

Lemma phase_verdicts `{SqlEngine} fault args ph s ph' spawned s' k :
  handle_phase fault args ph s = (ph', spawned, s') →
  verdict (hs_db s') k = verdict (hs_db s) k ∨ verdict (hs_db s') k = None ∨
  (verdict (hs_db s') k = Some HookVerificationPending ∧ held (args, ph) = Some k).
Proof.
  intros Hh. destruct ph as [| |seen [|task rest]| |all states [|task rest] t|all states task rest t|reply]; simpl in Hh;
    try (simplify_eq; by left).
  - destruct (attempt _ _ _) as [o s1] eqn:Ha. simplify_eq. left. apply attempt_db in Ha as [->| ->]; [done|].
    unfold RunningHookTasks. by case_decide.
  - destruct (attempt _ _ _) as [o s1] eqn:Ha. assert (s' = s1) as -> by (destruct o; by simplify_eq).
    apply attempt_db in Ha as [->| ->]; [by left|]. rewrite verdict_invalidate. case_decide; auto.
  - destruct (attempt _ _ _) as [o s1] eqn:Ha. assert (s' = s1) as -> by (destruct o; by simplify_eq).
    apply attempt_db in Ha as [->| ->]; [by left|]. left. apply verdict_heartbeat.
  - destruct (attempt _ _ _) as [o s1] eqn:Ha. assert (s' = s1) as -> by (destruct o; by simplify_eq).
    by apply attempt_db in Ha as [->| ->]; left.
  - unfold claimHookRun in Hh. case_bool_decide; simplify_eq; by left.
  - destruct (attempt _ _ _) as [o s1] eqn:Ha. assert (hs_db s' = hs_db s1) as -> by (destruct o as [[]|]; by simplify_eq).
    apply attempt_db in Ha as [->| ->]; [by left|].
    destruct (SetHookVerificationPending _ _ _ _) as [b s2] eqn:Hp. eapply (verdict_pending _ _ _ _ _ _ k) in Hp as [Hp|[Hp ->]]; auto.
Qed.

Lemma observe_quiet `{SqlEngine} fault args ph s ph' spawned s' x :
  handle_phase fault args ph s = (ph', spawned, s') →
  quiet x (observe fault args ph ph' s) ∨ (x = ha_session args ∧ clears x (hs_db s')).
Proof.
  intros Hh. unfold quiet, observe.
  destruct ph; simpl; try (left; set_solver); try (left; destruct ph'; simpl; try case_match; set_solver).
  destruct fault eqn:Hfault; [left; set_solver|]. destruct (decide (x = ha_session args)) as [->|]; [|left; set_solver].
  right. split; [done|]. simpl in Hh. simplify_eq. intros k Hk. simpl.
  rewrite (verdict_invalidate (ha_session args) (hs_db s)). by rewrite decide_True.
Qed.

Lemma states_verdict x s p i v : HookVerificationStates x s !! (p, i) = Some v → verdict s (mkHookKey x p i) = Some v.
Proof.
  intros ([[[a b] c] [v' at_]] & Heq & [Hx Hin]%list_elem_of_filter)%elem_of_list_to_map_2%list_elem_of_fmap.
  simpl in *. simplify_eq. apply elem_of_map_to_list in Hin. unfold verdict, row_key. simpl. by rewrite Hin.
Qed.

Section Knows.
Context `{SqlEngine} `{PlanCodec} `{Json} `{Markdown} `{CostOps}.
Variable registry : Registry.

Lemma after_lookup_ok log args s o s' fault :
  attempt fault (RunningHookTasks (ha_session args)) s = (o, s') →
  phase_ok registry ([SawTasks (ha_session args) (hs_db s)] ++ log) args (after_lookup args o).
Proof.
  intros Ha. destruct o as [[|task rest]|]; simpl; [done| |done]. repeat case_match; try done.
  exists [], (hs_db s), log. split; [done|]. split; [unfold quiet; set_solver|]. split; [|done].
  unfold attempt in Ha. destruct fault; [done|]. by destruct (RunningHookTasks _ _) as [[]?]; simplify_eq/=.
Qed.

Lemma beat_from_ok log args seen tasks : phase_ok registry log args (beat_from seen tasks).
Proof. revert seen. induction tasks as [|t tasks IH]; intros seen; [done|]. cbn [beat_from]. case_bool_decide; [done|]. case_bool_decide; [apply IH|done]. Qed.

(** What a phase adds to the history is what the stop it allows rests on. *)
Definition stops_ok (new log : list Obs) : Prop := ∀ x all, StopAllowed x all ∈ new → stop_ok registry log x all.

Lemma stopped log args ph all ph' s fault :
  stop_tasks ph = Some all → ph ≠ AtTasks →
  phase_ok registry log args ph' → (∀ r, ph' = AtReply r → hr_allow r = true → stop_ok registry log (ha_session args) all) →
  phase_ok registry (observe fault args ph ph' s ++ log) args ph' ∧ stops_ok (observe fault args ph ph' s) log.
Proof.
  intros Hst Hne Hok Hr. assert (quiet (ha_session args) (observe fault args ph ph' s)) as Hq.
  { unfold quiet, observe. destruct ph; try done; simpl; (destruct ph' as [| | | | | |reply]; try (intros Hin; by apply elem_of_nil in Hin));
      (destruct (hr_allow reply); intros Hin; [apply list_elem_of_singleton in Hin; discriminate Hin|by apply elem_of_nil in Hin]). }
  split; [by apply phase_ok_app|]. intros x all' Hin. unfold observe in Hin.
  destruct ph; try done; simpl in Hst; simplify_eq; simpl in Hin; (destruct ph' as [| | | | | |reply]; try (by apply elem_of_nil in Hin));
    (destruct (hr_allow reply) eqn:Ha; [|by apply elem_of_nil in Hin]); apply list_elem_of_singleton in Hin; simplify_eq; by eapply Hr.
Qed.

Lemma phase_knows fault args ph s ph' spawned s' log :
  phase_ok registry log args ph → (∀ k, verdict (hs_db s) k = Some HookVerificationPassed → fresh registry log k) →
  handle_phase fault args ph s = (ph', spawned, s') →
  phase_ok registry (observe fault args ph ph' s ++ log) args ph' ∧ stops_ok (observe fault args ph ph' s) log.
Proof.
  intros Hok Hrows Hh.
  destruct ph as [| |seen [|task rest]|tasks|all states [|task rest] t|all states task rest t|reply]; simpl in Hh.
  - destruct (attempt _ _ _) as [o s1] eqn:Ha. simplify_eq. split; [by eapply after_lookup_ok|]. intros x all Hin. simpl in Hin. set_solver.
  - destruct (attempt _ _ _) as [o s1] eqn:Ha. split; [destruct o; simplify_eq; [apply beat_from_ok|done]|].
    intros x all Hin. simpl in Hin. destruct fault; set_solver.
  - simplify_eq. split; [done|]. intros x all Hin. simpl in Hin. set_solver.
  - destruct (attempt _ _ _) as [o s1] eqn:Ha. split; [destruct o; simplify_eq; [apply beat_from_ok|done]|].
    intros x all Hin. simpl in Hin. destruct ph'; set_solver.
  - eapply stopped; [done..| |]; destruct (attempt _ _ _) as [[states|] s1] eqn:Ha; simplify_eq; try done.
    all: try (intros r [= <-]; done).
    all: assert (states = HookVerificationStates (ha_session args) (hs_db s)) as ->
      by (unfold attempt, sget in Ha; destruct fault; by simplify_eq).
    all: apply (stop_from_spec registry log args); [done| |by exists []].
    all: intros p i Hp; by apply Hrows, states_verdict.
  - destruct Hok as (Hs & Hf & Ht). simplify_eq. eapply stopped; try done.
    intros r [= <-] Ha. eapply (stop_from_spec registry log args _ states []); done.
  - destruct Hok as (Hs & Hf & Ht). destruct (claimHookRun _ _) as [[] s1] eqn:Hc; simplify_eq.
    + eapply stopped; try done. simpl. split_and!; [done..|by eapply tallied_step|done].
    + eapply stopped; try done; apply stop_from_spec; try done; by eapply tallied_step.
  - destruct Hok as (Hs & Hf & Ht & Hall).
    assert (tallied states all rest (tally_started t)) as Ht' by (destruct Ht as (dn & -> & Hd); by exists dn).
    destruct (attempt _ _ _) as [[[]|] s1] eqn:Ha; simplify_eq; (eapply stopped; [done..| |]); try done; try (intros r [= <-]; done).
    all: apply stop_from_spec; done.
  - simplify_eq. split; [done|]. intros x all Hin. simpl in Hin. set_solver.
Qed.
End Knows.

(** ** The invariant *)

Section Invariant.
Context `{SqlEngine} `{PlanCodec} `{Json} `{Markdown} `{CostOps}.
Variable registry : Registry.

Definition check_ok (s : DB) (log : list Obs) (c : Check) : Prop :=
  match ck_stage c with
  | Loaded s1 => verdict s (ck_key c) = None ∨ loaded log (ck_key c) s1
  | Verified (Some true) => verdict s (ck_key c) = None ∨ fresh registry log (ck_key c)
  | _ => True
  end.

Definition locks (hs : list (HookEventArgs * Phase)) : list Z := (λ h, hookEventLock (ha_session h.1)) <$> hs.

Record hook_inv (m : Machine) : Prop := {
  hi_locks : NoDup (locks (mc_handlers m));
  hi_books : books (hs_runs (mc_hooks m)) (holders (mc_handlers m) (mc_checks m));
  hi_rows : ∀ k, verdict (hs_db (mc_hooks m)) k = Some HookVerificationPassed → fresh registry (mc_log m) k;
  hi_checks : ∀ c, c ∈ mc_checks m → check_ok (hs_db (mc_hooks m)) (mc_log m) c;
  hi_phases : ∀ h, h ∈ mc_handlers m → phase_ok registry (mc_log m) h.1 h.2;
  hi_stops : ∀ newer x all older, mc_log m = newer ++ StopAllowed x all :: older → stop_ok registry older x all }.

Lemma check_ok_app s s' new log c :
  check_ok s log c → (verdict s (ck_key c) = None → verdict s' (ck_key c) = None) → quiet (hk_session (ck_key c)) new →
  check_ok s' (new ++ log) c.
Proof.
  unfold check_ok. destruct (ck_stage c) as [|s1|[[]|]|]; try done; intros [Hn|Hf] Hv Hq; auto; right; [by apply loaded_app|by apply fresh_app].
Qed.
Lemma check_ok_cleared s log c : verdict s (ck_key c) = None → check_ok s log c.
Proof. unfold check_ok. intros Hn. repeat case_match; auto. Qed.

(** The stops already in the history keep what they rest on. *)
Lemma stops_app new log :
  (∀ newer x all older, log = newer ++ StopAllowed x all :: older → stop_ok registry older x all) →
  length new ≤ 1 → stops_ok registry new log →
  ∀ newer x all older, new ++ log = newer ++ StopAllowed x all :: older → stop_ok registry older x all.
Proof.
  intros Hlog Hlen Hnew newer x all older Heq. destruct new as [|o [|]]; [by eapply Hlog| |simpl in Hlen; lia].
  destruct newer as [|o' newer]; simplify_eq/=; [apply Hnew; set_solver|by eapply Hlog].
Qed.

Lemma lock_other l r args ph h :
  NoDup (locks (l ++ (args, ph) :: r)) → h ∈ l ++ r → ha_session h.1 ≠ ha_session args.
Proof.
  unfold locks. rewrite fmap_app, fmap_cons. rewrite <-Permutation_middle. intros [Hn _]%NoDup_cons Hin Heq. apply Hn.
  rewrite <-fmap_app. apply list_elem_of_fmap. exists h. simpl. by rewrite Heq.
Qed.

Lemma inv_phase fault args ph s l r cs log ph' spawned s' :
  hook_inv (mkMachine s (l ++ (args, ph) :: r) cs log) → handle_phase fault args ph s = (ph', spawned, s') →
  hook_inv (mkMachine s' (l ++ (args, ph') :: r) (cs ++ match spawned with Some key => [mkCheck key Queued] | None => [] end)
              (observe fault args ph ph' s ++ log)).
Proof.
  intros [Hl Hb Hr Hc Hp Hs] Hh. simpl in *. set (new := observe fault args ph ph' s).
  assert (∀ x, quiet x new ∨ (x = ha_session args ∧ clears x (hs_db s'))) as Hq by (intros; by eapply observe_quiet).
  assert (∀ k, _) as Hv by exact (λ k, phase_verdicts fault args ph s ph' spawned s' k Hh).
  destruct (phase_knows registry fault args ph s ph' spawned s' log) as [Hok Hst]; [by apply (Hp (args, ph)); set_solver|done|done|].
  constructor; simpl.
  - unfold locks in *. rewrite fmap_app, fmap_cons in *. done.
  - by eapply phase_books.
  - intros k Hk. destruct (Hv k) as [Heq|[Heq|[Heq _]]]; try congruence. rewrite Heq in Hk.
    destruct (Hq (hk_session k)) as [Hqk|[_ Hcl]]; [by apply fresh_app, Hr|]. rewrite (Hcl k eq_refl) in Heq. congruence.
  - intros c [Hin|Hin]%elem_of_app; [|destruct spawned; [by apply list_elem_of_singleton in Hin as ->|set_solver]].
    destruct (Hq (hk_session (ck_key c))) as [Hqk|[_ Hcl]]; [|by apply check_ok_cleared, Hcl].
    apply (check_ok_app (hs_db s)); [by apply Hc| |done]. intros Hn.
    destruct (Hv (ck_key c)) as [->|[->|[_ Heq]]]; [done..|]. exfalso.
    destruct Hb as [Hnd _]. rewrite holders_handler, Heq in Hnd. apply NoDup_cons in Hnd as [Hnd _]. apply Hnd.
    unfold holders. apply elem_of_app. right. apply list_elem_of_fmap. eauto.
  - intros h Hin. assert (h = (args, ph') ∨ h ∈ l ++ r) as [->|Ho] by set_solver; [done|].
    apply phase_ok_app; [|apply Hp; set_solver]. destruct (Hq (ha_session h.1)) as [?|[Hx _]]; [done|].
    by apply (lock_other l r args ph) in Hx.
  - apply stops_app; [done| |done]. unfold new, observe. destruct ph; simpl; repeat case_match; simpl; lia.
Qed.

(** A verification's step: its handler-side effects are nil, and no new verdict
    row appears. *)
Lemma inv_check c c' s s' hs l r log new :
  hook_inv (mkMachine s hs (l ++ c :: r) log) →
  ck_key c' = ck_key c → hs_runs s' = hs_runs s → (∀ x, quiet x new) → length new ≤ 1 → stops_ok registry new log →
  (∀ k, verdict (hs_db s) k = None → verdict (hs_db s') k = None) →
  (∀ k, verdict (hs_db s') k = Some HookVerificationPassed →
     verdict (hs_db s) k = Some HookVerificationPassed ∨ fresh registry (new ++ log) k) →
  check_ok (hs_db s') (new ++ log) c' →
  hook_inv (mkMachine s' hs (l ++ c' :: r) (new ++ log)).
Proof.
  intros [Hl Hb Hr Hc Hp Hs] Hk Hruns Hq Hlen Hst Hn Hv Hc'. simpl in *. constructor; simpl.
  - done.
  - rewrite Hruns. revert Hb. apply books_perm. by rewrite !holders_check, Hk.
  - intros k [Hk'|Hf]%Hv; [|done]. by apply fresh_app, Hr.
  - intros d Hin. assert (d = c' ∨ d ∈ l ++ r) as [->|Ho] by set_solver; [done|].
    apply (check_ok_app (hs_db s)); auto. apply Hc. set_solver.
  - intros h Hin. by apply phase_ok_app, Hp.
  - by apply stops_app.
Qed.

Lemma write_outcome_runs fault key outcome s : hs_runs (write_outcome fault key outcome s) = hs_runs s.
Proof. unfold write_outcome, attempt. by repeat case_match. Qed.

Lemma write_outcome_verdict fault key outcome s k :
  (verdict (hs_db s) k = None → verdict (hs_db (write_outcome fault key outcome s)) k = None) ∧
  (verdict (hs_db (write_outcome fault key outcome s)) k = Some HookVerificationPassed →
     verdict (hs_db s) k = Some HookVerificationPassed ∨ (k = key ∧ outcome = Some true ∧ verdict (hs_db s) k ≠ None)).
Proof.
  unfold write_outcome. destruct (attempt _ _ _) as [o s'] eqn:Ha. apply attempt_db in Ha. simpl. destruct Ha as [->| ->]; [auto|].
  destruct outcome as [passed|]; simpl.
  - unfold SetHookVerificationResult, smod. simpl. case_match; [|auto]. unfold verdict. simpl.
    destruct (decide (k = key)) as [->|Hne].
    + change (hk_session key, hk_plan key, hk_task key) with (row_key key). rewrite lookup_alter_eq.
      destruct (db_hooks (hs_db s) !! row_key key); simpl; [|done]. destruct passed; simpl; naive_solver.
    + rewrite lookup_alter_ne; [auto|]. by intros Hr%(row_key_inj key).
  - unfold ClearHookVerification, smod. simpl. unfold verdict. simpl.
    change (hk_session key, hk_plan key, hk_task key) with (row_key key).
    destruct (decide (row_key key = row_key k)) as [Heq|Hne]; [rewrite Heq, lookup_delete_eq; done|]. by rewrite lookup_delete_ne; auto.
Qed.

Lemma hook_step_inv m m' : hook_inv m → hook_step registry m m' → hook_inv m'.
Proof.
  intros Hi Hst. destruct Hst as [args s hs cs log Hv Hlk|fault args ph s l r cs log ph' spawned s' Hrun Hh|args reply s l r cs log
    |key s hs l r log|W F expired key s1 s hs l r log outcome|key st s hs l r log Hst|fault key outcome s hs l r log|key s hs l r log
    |op s hs cs log Hop].
  - destruct Hi as [Hl Hb Hr Hc Hp Hs]. constructor; simpl in *; try done.
    + unfold locks in *. rewrite fmap_app. apply NoDup_app. split; [done|]. split; [|apply NoDup_singleton].
      intros x Hx ->%list_elem_of_singleton. done.
    + revert Hb. apply books_perm. by rewrite holders_handler, app_nil_r.
    + intros h [Hin|Hin%list_elem_of_singleton]%elem_of_app; [by apply Hp|by subst].
  - by eapply inv_phase.
  - destruct Hi as [Hl Hb Hr Hc Hp Hs]. constructor; simpl in *; try done.
    + unfold locks in *. rewrite fmap_app, fmap_cons in Hl. rewrite fmap_app. rewrite <-Permutation_middle in Hl. by apply NoDup_cons in Hl as [_ ?].
    + revert Hb. apply books_perm. by rewrite holders_handler.
    + intros h Hin. apply Hp. set_solver.
  - apply (inv_check _ (mkCheck key (Loaded (hs_db s))) s s _ _ _ log [CheckLoaded key (hs_db s)]) in Hi; auto.
    + intros x. unfold quiet. set_solver.
    + intros x all Hin. set_solver.
    + right. exists [], log. split; [done|]. unfold quiet. set_solver.
  - assert (check_ok (hs_db s) log (mkCheck key (Loaded s1))) as Hck by (apply (hi_checks _ Hi); set_solver).
    apply (inv_check _ (mkCheck key (Verified outcome)) s s _ _ _ log (if bool_decide (outcome = Some true) then [CheckPassed key s1 (hs_db s)] else [])) in Hi; auto.
    + by case_bool_decide.
    + intros x. unfold quiet. case_bool_decide; set_solver.
    + case_bool_decide; simpl; lia.
    + intros x all Hin. case_bool_decide; set_solver.
    + unfold check_ok. simpl. destruct outcome as [[]|] eqn:Ho; try done. destruct Hck as [?|Hld]; [by left|right].
      rewrite bool_decide_true by done. exists [], s1, (hs_db s), log. split; [done|]. split; [unfold quiet; set_solver|]. split; [done|].
      by exists W, F, expired.
  - apply (inv_check _ (mkCheck key (Verified None)) s s _ _ _ log []) in Hi; auto.
    + intros x. unfold quiet. set_solver.
    + intros x all Hin. set_solver.
    + done.
  - assert (check_ok (hs_db s) log (mkCheck key (Verified outcome))) as Hck by (apply (hi_checks _ Hi); set_solver).
    apply (inv_check _ (mkCheck key Recorded) s (write_outcome fault key outcome s) _ _ _ log []) in Hi; auto.
    + apply write_outcome_runs.
    + intros x. unfold quiet. set_solver.
    + intros x all Hin. set_solver.
    + intros k. apply write_outcome_verdict.
    + intros k [?|(-> & -> & Hne)]%write_outcome_verdict; [by left|right]. by destruct Hck.
    + done.
  - destruct Hi as [Hl Hb Hr Hc Hp Hs]. constructor; simpl in *; try done.
    + revert Hb. apply books_remove. by rewrite holders_check.
    + intros c Hin. apply Hc. set_solver.
  - destruct Hi as [Hl Hb Hr Hc Hp Hs]. simpl in *. pose proof (exec_within op (hs_db s) Hop) as Hw.
    assert (∀ k v, verdict (exec op (hs_db s)) k = Some v → verdict (hs_db s) k = Some v) as Hold.
    { intros k v. unfold verdict. rewrite !fmap_Some. intros (y & Hy & ->). exists y. split; [|done]. by eapply lookup_weaken. }
    constructor; simpl; try done.
    + intros k Hk%Hold. by apply Hr.
    + intros c Hin. apply (check_ok_app (hs_db s) _ []); [by apply Hc| |unfold quiet; set_solver]. intros Hn.
      destruct (verdict (exec op (hs_db s)) (ck_key c)) as [v|] eqn:He; [|done]. apply Hold in He. congruence.
Qed.

Lemma hook_reachable_inv m : hook_reachable registry m → hook_inv m.
Proof.
  induction 1 as [[s hs cs log] (Hr & Hh & Hc & Hl & Hn)|m m' Hre IH Hst]; [|by eapply hook_step_inv].
  simpl in *. subst. constructor; simpl; try done; try set_solver.
  - apply NoDup_nil_2.
  - rewrite Hr. split; [apply NoDup_nil_2|]. intros k. simpl. set_solver.
  - intros k (v & Hk & Hv)%fmap_Some. destruct v as [st at_]. simpl in Hv. subst. by apply Hn in Hk.
  - intros [|] ? ? ?; discriminate.
Qed.
End Invariant.

(** ** The handler answers *)

(** How many calls a handler is from its reply, once it knows its tasks. *)
Definition rank (ph : Phase) : nat :=
  match ph with
  | AtTasks | AtReply _ => 0
  | AtInvalidate tasks => 2 + length tasks
  | AtBeat _ tasks => 1 + length tasks
  | AtStates tasks => 2 + 2 * length tasks
  | AtTask _ _ tasks _ => 1 + 2 * length tasks
  | AtPending _ _ _ rest _ => 2 + 2 * length rest
  end.

Lemma rank_beat_from seen tasks : rank (beat_from seen tasks) ≤ 1 + length tasks ∧ beat_from seen tasks ≠ AtTasks.
Proof.
  revert seen. induction tasks as [|t tasks IH]; intros seen; [simpl; split; [lia|done]|]. cbn [beat_from].
  case_bool_decide; [simpl; split; [lia|done]|]. case_bool_decide; [|simpl; split; [lia|done]].
  destruct (IH seen). split; [simpl in *; lia|done].
Qed.
Lemma rank_stop_from all states tasks t : rank (stop_from all states tasks t) ≤ 1 + 2 * length tasks ∧ stop_from all states tasks t ≠ AtTasks.
Proof.
  revert t. induction tasks as [|x tasks IH]; intros t; [simpl; split; [lia|done]|]. cbn [stop_from].
  destruct (states !! _) as [[]|]; try (simpl; split; [lia|done]);
    match goal with |- context [stop_from _ _ _ ?t'] => destruct (IH t') end; (split; [cbn [length]; lia|done]).
Qed.

Section Answers.
Context `{SqlEngine}.

Lemma rank_phase fault args ph s ph' spawned s' :
  ph ≠ AtTasks → running_phase ph → handle_phase fault args ph s = (ph', spawned, s') → rank ph' < rank ph ∧ ph' ≠ AtTasks.
Proof.
  intros Hne Hrun Hh. destruct ph as [| |seen [|task rest]|tasks|all states [|task rest] t|all states task rest t|reply]; try done; simpl in Hh.
  - destruct (attempt _ _ _) as [[o|] s1]; simplify_eq; [|simpl; split; [lia|done]]. pose proof (rank_beat_from ∅ tasks). simpl. split; [lia|tauto].
  - simplify_eq. simpl. split; [lia|done].
  - destruct (attempt _ _ _) as [[o|] s1]; simplify_eq; [|simpl; split; [lia|done]].
    pose proof (rank_beat_from ({[ht_worker task]} ∪ seen) rest). simpl. split; [lia|tauto].
  - destruct (attempt _ _ _) as [[o|] s1]; simplify_eq; [|simpl; split; [lia|done]].
    pose proof (rank_stop_from tasks o tasks tally0). simpl in *. split; [lia|tauto].
  - simplify_eq. simpl. split; [lia|done].
  - destruct (claimHookRun _ _) as [[] s1]; simplify_eq; [simpl; split; [lia|done]|].
    pose proof (rank_stop_from all states rest (tally_pending t)). simpl in *. split; [lia|tauto].
  - destruct (attempt _ _ _) as [[[]|] s1]; simplify_eq; try (simpl; split; [lia|done]).
    pose proof (rank_stop_from all states rest (tally_started t)). simpl in *. split; [lia|tauto].
Qed.

Lemma drive_answers fuel faults env args ph s :
  ph ≠ AtTasks → rank ph ≤ fuel → ∃ reply s', drive fuel faults env args ph s = (Some reply, s').
Proof.
  revert ph s. induction fuel as [|fuel IH]; intros ph s Hne Hr.
  - destruct ph; simpl in Hr; try lia; try done. by eexists _, _.
  - assert ((∃ r, ph = AtReply r) ∨ running_phase ph) as [[r ->]|Hrun] by (destruct ph; simpl; eauto). { by eexists _, _. }
    assert (drive (S fuel) faults env args ph s =
      let '(ph', _, s') := handle_phase (faults (S fuel)) args ph (env (S fuel) s) in drive fuel faults env args ph' s') as ->
      by (by destruct ph).
    destruct (handle_phase _ _ _ _) as [[ph' sp] s'] eqn:Hh. apply rank_phase in Hh as [Hlt Hne']; [|done..].
    apply IH; [done|lia].
Qed.
End Answers.

Section Alone.
Context `{SqlEngine}.

Lemma states_exact x s p i : HookVerificationStates x s !! (p, i) = verdict s (mkHookKey x p i).
Proof.
  destruct (verdict s (mkHookKey x p i)) as [v|] eqn:Hv.
  - unfold verdict in Hv. apply fmap_Some in Hv as ([v' at_] & Hv & ->). unfold HookVerificationStates.
    apply elem_of_list_to_map_1.
    + rewrite <-list_fmap_compose. apply NoDup_fmap_2_strong; [|by apply NoDup_filter, NoDup_map_to_list].
      intros [[[a b] c] y] [[[a' b'] c'] y'] [Ha Hy]%list_elem_of_filter [Ha' Hy']%list_elem_of_filter Heq. simpl in *. simplify_eq.
      apply elem_of_map_to_list in Hy, Hy'. by simplify_eq.
    + apply list_elem_of_fmap. exists ((x, p, i), (v', at_)). split; [done|]. apply list_elem_of_filter. split; [done|].
      by apply elem_of_map_to_list.
  - destruct (HookVerificationStates x s !! (p, i)) as [v|] eqn:Hs; [|done]. apply states_verdict in Hs. congruence.
Qed.

(** After a task that has not passed no stop is allowed. *)
Definition open (ph : Phase) : Prop :=
  match ph with
  | AtTask _ _ _ t => True | AtPending _ _ _ _ t => ty_allPassed t = false | AtReply r => hr_allow r = false | _ => False
  end.
Lemma open_stop_from all states tasks t : ty_allPassed t = false → open (stop_from all states tasks t).
Proof.
  revert t. induction tasks as [|x tasks IH]; intros t Ht; simpl.
  - unfold stop_reply. rewrite Ht. by repeat case_match.
  - destruct (states !! _) as [[]|]; simpl; auto.
Qed.
Lemma open_phase fault args ph s ph' spawned s' :
  (∀ all states t, ph ≠ AtTask all states [] t) → open ph → handle_phase fault args ph s = (ph', spawned, s') → open ph'.
Proof.
  intros Hn Ho Hh. destruct ph as [| |seen tasks|tasks|all states [|task rest] t|all states task rest t|reply]; try done; simpl in Hh.
  - by destruct (Hn all states t).
  - destruct (claimHookRun _ _) as [[] s1]; simplify_eq; [done|]. by apply open_stop_from.
  - destruct (attempt _ _ _) as [[[]|] s1]; simplify_eq; try done. by apply open_stop_from.
  - by simplify_eq.
Qed.
Lemma stop_from_task all states tasks t all' states' t' : stop_from all states tasks t ≠ AtTask all' states' [] t'.
Proof. revert t. induction tasks as [|x tasks IH]; intros t; simpl; [done|]. destruct (states !! _) as [[]|]; try done; apply IH. Qed.
Lemma phase_task fault args ph s ph' spawned s' :
  handle_phase fault args ph s = (ph', spawned, s') → open ph → ∀ all states t, ph' ≠ AtTask all states [] t.
Proof.
  intros Hh Ho all' states' t'. destruct ph as [| |seen tasks|tasks|all states [|task rest] t|all states task rest t|reply]; try done; simpl in Hh.
  - by simplify_eq.
  - destruct (claimHookRun _ _) as [[] s1]; simplify_eq; [done|apply stop_from_task].
  - destruct (attempt _ _ _) as [[[]|] s1]; simplify_eq; try done. apply stop_from_task.
  - by simplify_eq.
Qed.

Lemma drive_open fuel faults env args ph s reply s' :
  (∀ all states t, ph ≠ AtTask all states [] t) → open ph → drive fuel faults env args ph s = (Some reply, s') → hr_allow reply = false.
Proof.
  revert ph s. induction fuel as [|fuel IH]; intros ph s Hn Ho Hd.
  - destruct ph; simpl in *; simplify_eq; done.
  - assert ((∃ r, ph = AtReply r) ∨ running_phase ph) as [[r ->]|Hrun] by (destruct ph; simpl; eauto). { simpl in *. by simplify_eq. }
    assert (drive (S fuel) faults env args ph s =
      let '(ph', _, s') := handle_phase (faults (S fuel)) args ph (env (S fuel) s) in drive fuel faults env args ph' s') as Heq by (by destruct ph).
    rewrite Heq in Hd. destruct (handle_phase _ _ _ _) as [[ph' sp] s1] eqn:Hh.
    eapply IH; [|by eapply open_phase|exact Hd]. by eapply phase_task.
Qed.

Lemma stop_from_passed all states tasks t :
  Forall (passed_in states) tasks → stop_from all states tasks t = AtReply (stop_reply t).
Proof. induction 1 as [|x tasks Hx _ IH]; simpl; [done|]. by rewrite Hx. Qed.
Lemma stop_from_unpassed all states tasks t :
  ¬ Forall (passed_in states) tasks → open (stop_from all states tasks t).
Proof.
  revert t. induction tasks as [|x tasks IH]; intros t Hn; simpl; [by destruct Hn|].
  destruct (states !! _) as [[]|] eqn:Hs; try done.
  - apply IH. intros Hf. apply Hn. by constructor.
  - by apply open_stop_from.
Qed.
End Alone.

Lemma forallb_decide {A} (P : A → Prop) `{∀ x, Decision (P x)} (l : list A) : forallb (λ x, bool_decide (P x)) l = true ↔ Forall P l.
Proof. rewrite <-Is_true_true, forallb_True. apply Forall_iff. intros x. apply bool_decide_spec. Qed.

(** ** The theorems *)

(** C25: an allowed stop is fresh. Whatever sessions, verifications and other
    clients of the store do in between, when the supervisor allows the stop of a
    session it had looked up the session's running tasks, and each of them has a
    verification that loaded the task, ran its acceptance and answered yes, all
    after the last tool use recorded for the session. No passing verdict stands in
    the store when the supervisor starts. *)
Theorem allowed_stop_is_fresh `{SqlEngine} `{PlanCodec} `{Json} `{Markdown} `{CostOps} registry m newer session tasks older :
  hook_reachable registry m → mc_log m = newer ++ StopAllowed session tasks :: older → stop_ok registry older session tasks.
Proof. intros Hm. by apply hi_stops, hook_reachable_inv. Qed.

(** one verification at a time. In every reachable state the keys in
    [hookRuns] are exactly those of the verifications under way and of the
    handlers about to start one, each held once; so a task is not reported as
    pending for a verification that has ended. One handler at a time runs for a
    session. *)
Theorem hook_runs_are_held `{SqlEngine} `{PlanCodec} `{Json} `{Markdown} `{CostOps} registry m :
  hook_reachable registry m →
  NoDup (holders (mc_handlers m) (mc_checks m)) ∧
  (∀ k, k ∈ hs_runs (mc_hooks m) ↔ k ∈ holders (mc_handlers m) (mc_checks m)) ∧
  NoDup ((λ h, ha_session h.1) <$> mc_handlers m).
Proof.
  intros Hm%hook_reachable_inv. destruct (hi_books _ _ Hm) as [Hn Hk]. split; [done|]. split; [done|].
  pose proof (hi_locks _ _ Hm) as Hl. unfold locks in Hl.
  apply (NoDup_fmap_1 hookEventLock). by rewrite <-list_fmap_compose.
Qed.

(** every hook event is answered. With [n] running tasks the handler replies
    after at most [2n + 3] calls, whatever others do between them and whichever
    calls fail; and it allows nothing but a well-formed event of a session that
    has running tasks, all of them of the reporting adapter. *)
Theorem hook_event_is_answered `{SqlEngine} fuel faults env args s tasks :
  ha_session args ≠ "" → (RunningHookTasks (ha_session args) (hs_db (env fuel s))).1 = Ok tasks → 2 * length tasks + 3 ≤ fuel →
  ∃ reply s', HandleHookEvent fuel faults env args s = (Some reply, s') ∧
  (hr_allow reply = true → valid_event args = true ∧ tasks ≠ [] ∧ Forall (λ t, ht_provider t = ha_adapter args) tasks).
Proof.
  intros Hx Ht Hf. unfold HandleHookEvent. destruct (valid_event args); simpl; [|by eexists _, _].
  destruct fuel as [|fuel]; [lia|]. cbn [drive handle_phase]. set (s1 := env (S fuel) s) in *.
  assert (∃ o, attempt (faults (S fuel)) (RunningHookTasks (ha_session args)) s1 = (o, s1) ∧ (o = None ∨ o = Some tasks)) as (o & -> & Ho).
  { unfold attempt. destruct (faults (S fuel)); [eauto|]. unfold RunningHookTasks in *. rewrite decide_False in * by done.
    unfold sget in *. simpl in *. simplify_eq. destruct s1. eauto. }
  assert (after_lookup args o ≠ AtTasks ∧ rank (after_lookup args o) ≤ 2 * length tasks + 2) as [Hne Hr].
  { destruct Ho as [->| ->]; simpl; [split; [done|lia]|]. destruct tasks; [simpl; split; [done|lia]|].
    repeat case_match; simpl; (split; [done|lia]). }
  destruct (drive_answers fuel faults env args (after_lookup args o) s1) as (reply & s' & Hd); [done|lia|].
  rewrite Hd. exists reply, s'. split; [done|]. intros Ha. split; [done|].
  assert (∀ r, after_lookup args o = AtReply r → hr_allow r = true) as Hnot.
  { intros r Hr'. rewrite Hr' in Hd. destruct fuel; simpl in Hd; by simplify_eq. }
  destruct Ho as [->| ->]; [by specialize (Hnot _ eq_refl)|]. destruct tasks as [|task rest]; [by specialize (Hnot _ eq_refl)|].
  split; [done|]. unfold after_lookup in Hnot. destruct (forallb _ _) eqn:Hp; [|by specialize (Hnot _ eq_refl)].
  by apply (forallb_decide _) in Hp.
Qed.

(** a stop nobody disturbs is allowed exactly when the session has running
    tasks, all of the reporting adapter, and the last verification of each of
    them passed. *)
Theorem undisturbed_stop_is_exact `{SqlEngine} fuel args s tasks :
  valid_event args = true → ha_event args = HookEventStop →
  (RunningHookTasks (ha_session args) (hs_db s)).1 = Ok tasks → 2 * length tasks + 3 ≤ fuel →
  ∃ reply s', HandleHookEvent fuel (λ _, false) (λ _, id) args s = (Some reply, s') ∧
  (hr_allow reply = true ↔
   tasks ≠ [] ∧ ∀ t, t ∈ tasks → ht_provider t = ha_adapter args ∧ verdict (hs_db s) (key_of args t) = Some HookVerificationPassed).
Proof.
  intros Hval Hstop Ht Hf.
  assert (ha_session args ≠ "") as Hx.
  { intros Hx. unfold valid_event in Hval. rewrite (bool_decide_true (ha_session args = "")), andb_false_r in Hval; done. }
  unfold HandleHookEvent. rewrite Hval. destruct fuel as [|[|fuel]]; [lia..|]. cbn [negb drive handle_phase id].
  assert (attempt false (RunningHookTasks (ha_session args)) s = (Some tasks, s)) as ->.
  { unfold attempt, RunningHookTasks in *. rewrite decide_False in * by done. unfold sget in *. simpl in *. simplify_eq. by destruct s. }
  destruct (decide (Forall (λ t, ht_provider t = ha_adapter args) tasks)) as [Hall|Hall]; cycle 1.
  { assert (∃ r, after_lookup args (Some tasks) = AtReply r ∧ hr_allow r = false) as (r & -> & Hr).
    { unfold after_lookup. destruct tasks; [by eexists|]. destruct (forallb _ _) eqn:Hp; [|by eexists]. destruct Hall.
      by apply (forallb_decide _) in Hp. }
    exists r, s. split; [done|]. rewrite Hr. split; [done|]. intros [_ Hp]. destruct Hall. apply Forall_forall. intros t. apply Hp. }
  destruct (decide (tasks = [])) as [->|Hne]. { eexists _, s. split; [done|]. split; [done|]. by intros []. }
  assert (after_lookup args (Some tasks) = AtStates tasks) as ->.
  { unfold after_lookup. destruct tasks as [|task rest]; [done|]. rewrite (proj2 (forallb_decide _ _) Hall).
    by rewrite Hstop. }
  cbn [drive handle_phase id attempt sget]. set (states := HookVerificationStates (ha_session args) (hs_db s)).
  replace (mkHooks (hs_db s) (hs_runs s)) with s by (by destruct s).
  assert (∀ t, passed_in states t ↔ verdict (hs_db s) (key_of args t) = Some HookVerificationPassed) as Hst.
  { intros t. unfold passed_in, states. by rewrite states_exact. }
  assert (∀ t, Decision (passed_in states t)) as Hdec by (intros t; unfold passed_in; apply _).
  destruct (decide (Forall (passed_in states) tasks)) as [Hp|Hp].
  - rewrite stop_from_passed by done. exists (stop_reply tally0), s. split; [by destruct fuel|]. split; [|done]. intros _. split; [done|].
    intros t Hin. rewrite <-Hst. split; [by eapply (proj1 (Forall_forall _ _) Hall)|by eapply (proj1 (Forall_forall _ _) Hp)].
  - destruct (rank_stop_from tasks states tasks tally0) as [Hr Hn].
    destruct (drive_answers fuel (λ _, false) (λ _, id) args (stop_from tasks states tasks tally0) s) as (reply & s' & Hd); [done|lia|].
    exists reply, s'. split; [exact Hd|]. rewrite (drive_open _ _ _ _ _ _ _ _ ltac:(intros; apply stop_from_task) (stop_from_unpassed _ _ _ _ Hp) Hd).
    split; [done|]. intros [_ Hq]. destruct Hp. apply Forall_forall. intros t Hin. apply Hst. by apply Hq.
Qed.

(** ** On a concrete run *)

(** The steps, of the first handler and the first verification, as functions. *)
Inductive Move :=
| Arrive (args : HookEventArgs) | Advance | Return | Load | Verify (W : World) (F : FileSystem) (expired : bool) | Record_ | Release.

Section Moves.
Context `{SqlEngine} `{PlanCodec} `{Json} `{Markdown} `{CostOps}.
Variable registry : Registry.

Definition move (v : Move) (m : Machine) : option Machine :=
  let '(mkMachine s hs cs log) := m in
  match v, hs, cs with
  | Arrive args, _, _ =>
      if valid_event args && bool_decide (hookEventLock (ha_session args) ∉ locks hs)
      then Some (mkMachine s (hs ++ [(args, AtTasks)]) cs log) else None
  | Advance, (args, AtReply _) :: _, _ => None
  | Advance, (args, ph) :: r, _ =>
      let '(ph', spawned, s') := handle_phase false args ph s in
      Some (mkMachine s' ((args, ph') :: r) (cs ++ match spawned with Some key => [mkCheck key Queued] | None => [] end)
              (observe false args ph ph' s ++ log))
  | Return, (args, AtReply _) :: r, _ => Some (mkMachine s r cs log)
  | Load, _, mkCheck key Queued :: r => Some (mkMachine s hs (mkCheck key (Loaded (hs_db s)) :: r) (CheckLoaded key (hs_db s) :: log))
  | Verify W F expired, _, mkCheck key (Loaded s1) :: r =>
      let outcome := check_outcome registry W F expired key s1 (hs_db s) in
      Some (mkMachine s hs (mkCheck key (Verified outcome) :: r)
              (if bool_decide (outcome = Some true) then CheckPassed key s1 (hs_db s) :: log else log))
  | Record_, _, mkCheck key (Verified outcome) :: r =>
      Some (mkMachine (write_outcome false key outcome s) hs (mkCheck key Recorded :: r) log)
  | Release, _, mkCheck key Recorded :: r => Some (mkMachine (releaseHookRun key s) hs r log)
  | _, _, _ => None
  end.

Lemma move_step v m m' : move v m = Some m' → hook_step registry m m'.
Proof.
  destruct m as [s hs cs log]. intros Hm. destruct v; simpl in Hm.
  - destruct (valid_event args) eqn:Hv; [|done]. case_bool_decide; simplify_eq/=. by constructor.
  - destruct hs as [|[args ph] r]; [done|]. destruct (handle_phase false args ph s) as [[ph' sp] s'] eqn:Hh.
    assert (running_phase ph ∧ m' = mkMachine s' ((args, ph') :: r) (cs ++ match sp with Some key => [mkCheck key Queued] | None => [] end)
              (observe false args ph ph' s ++ log)) as [Hr ->] by (destruct ph; simplify_eq; done).
    by apply (step_phase registry false args ph s []).
  - destruct hs as [|[args []] r]; simplify_eq. apply (step_return registry args reply s []).
  - destruct cs as [|[key []] r]; simplify_eq. apply (step_load registry key s hs []).
  - destruct cs as [|[key []] r]; simplify_eq. apply (step_verify registry W F expired key s1 s hs []).
  - destruct cs as [|[key []] r]; simplify_eq. apply (step_record registry false key outcome s hs []).
  - destruct cs as [|[key []] r]; simplify_eq. apply (step_release registry key s hs []).
Qed.

Fixpoint moves (vs : list Move) (m : Machine) : option Machine :=
  match vs with [] => Some m | v :: vs' => move v m ≫= moves vs' end.
Lemma moves_reachable vs m m' : hook_reachable registry m → moves vs m = Some m' → hook_reachable registry m'.
Proof.
  revert m. induction vs as [|v vs IH]; intros m Hm Hv; simpl in Hv; [by simplify_eq|].
  apply bind_Some in Hv as (m1 & Hm1 & Hm2). eapply IH; [|exact Hm2]. eapply hooks_next; [exact Hm|by eapply move_step].
Qed.
End Moves.

(** A session working for claude uses a tool, asks to stop, is verified, and asks
    again. *)
Definition hook_db : DB := exec_all (H:=merge_engine) demo_checked [OpRecordTaskExecution "v" "t" "a" "claude" "m" "e" "d" "s1"].
Definition hook_start : Machine := mkMachine (mkHooks hook_db ∅) [] [] [].
Definition use_tool : HookEventArgs := mkHookArgs "claude" HookEventPostToolUse "s1".
Definition ask_stop : HookEventArgs := mkHookArgs "claude" HookEventStop "s1".
Definition hook_script : list Move :=
  [Arrive use_tool; Advance; Advance; Advance; Return;
   Arrive ask_stop; Advance; Advance; Advance; Advance; Return; Load; Verify demo_world demo_fs false; Record_; Release;
   Arrive ask_stop; Advance; Advance].
#[local] Notation hook_run :=
  (moves (H:=merge_engine) (H0:=toy_codec) (H1:=toy_json) (H2:=toy_markdown) (H3:=toy_costs) demo_proj hook_script hook_start).

Definition head_stop (m : Machine) : option (string * list HookTask) :=
  match mc_log m with StopAllowed x tasks :: _ => Some (x, tasks) | _ => None end.

Lemma hook_start_reachable : hook_reachable (H:=merge_engine) (H0:=toy_codec) (H1:=toy_json) (H2:=toy_markdown) (H3:=toy_costs) demo_proj hook_start.
Proof.
  apply hooks_start. split; [done|]. split; [done|]. split; [done|]. split; [done|]. intros k at_.
  assert (db_hooks hook_db = ∅) as Hn by (vm_compute; reflexivity). unfold hook_start. cbn [mc_hooks hs_db]. by rewrite Hn.
Qed.

Lemma hook_run_stops : ∃ m older tasks,
  hook_reachable (H:=merge_engine) (H0:=toy_codec) (H1:=toy_json) (H2:=toy_markdown) (H3:=toy_costs) demo_proj m ∧
  mc_log m = StopAllowed "s1" tasks :: older ∧ length tasks = 1.
Proof.
  assert ((λ m, prod_map id length <$> head_stop m) <$> hook_run = Some (Some ("s1", 1))) as Hrun by (vm_compute; reflexivity).
  pose proof hook_start_reachable as Hstart. revert Hrun Hstart. generalize hook_start. intros m0 Hrun Hstart.
  destruct (moves demo_proj hook_script m0) as [m|] eqn:Hm; [|discriminate Hrun].
  apply (moves_reachable demo_proj _ _ _ Hstart) in Hm. cbn in Hrun. injection Hrun as Hrun. unfold head_stop in Hrun.
  destruct (mc_log m) as [|[| | | |x tasks] older] eqn:Hlog; try discriminate Hrun. cbn in Hrun. injection Hrun as -> Hlen.
  by exists m, older, tasks.
Qed.

Lemma allowed_stop_is_fresh_witness : ∃ older tasks, length tasks = 1 ∧
  stop_ok (H:=merge_engine) (H0:=toy_codec) (H1:=toy_json) (H2:=toy_markdown) (H3:=toy_costs) demo_proj older "s1" tasks.
Proof.
  destruct hook_run_stops as (m & older & tasks & Hm & Hlog & Hlen). exists older, tasks. split; [exact Hlen|].
  exact (allowed_stop_is_fresh demo_proj m [] "s1" tasks older Hm Hlog).
Defined.

Lemma hook_run_checks : ∃ m,
  hook_reachable (H:=merge_engine) (H0:=toy_codec) (H1:=toy_json) (H2:=toy_markdown) (H3:=toy_costs) demo_proj m ∧
  hs_runs (mc_hooks m) = {[mkHookKey "s1" "v" "t"]}.
Proof.
  assert ((λ m, hs_runs (mc_hooks m)) <$> moves (H:=merge_engine) (H0:=toy_codec) (H1:=toy_json) (H2:=toy_markdown) (H3:=toy_costs) demo_proj
    (take 12 hook_script) hook_start = Some {[mkHookKey "s1" "v" "t"]}) as Hrun by (vm_compute; reflexivity).
  pose proof hook_start_reachable as Hstart. revert Hrun Hstart. generalize hook_start. intros m0 Hrun Hstart.
  destruct (moves demo_proj (take 12 hook_script) m0) as [m|] eqn:Hm; [|discriminate Hrun].
  apply (moves_reachable demo_proj _ _ _ Hstart) in Hm. cbn [fmap option_fmap option_map] in Hrun. injection Hrun as Hrun.
  by exists m.
Qed.

Lemma hook_runs_are_held_witness : ∃ m : Machine, mkHookKey "s1" "v" "t" ∈ holders (mc_handlers m) (mc_checks m).
Proof.
  destruct hook_run_checks as (m & Hm & Hrun). exists m. apply (hook_runs_are_held demo_proj m Hm). rewrite Hrun. by apply elem_of_singleton.
Defined.

Definition hook_tasks : list HookTask := [mkHookTask "v" "t" "w1" "claude"].
Lemma hook_db_tasks : (RunningHookTasks (H:=merge_engine) "s1" hook_db).1 = Ok hook_tasks.
Proof. vm_compute. reflexivity. Qed.

Lemma hook_event_is_answered_witness : ∃ reply s',
  HandleHookEvent (H:=merge_engine) 5 (λ n, bool_decide (n = 4)) (λ _, id) use_tool (mkHooks hook_db ∅) = (Some reply, s').
Proof.
  destruct (hook_event_is_answered (H:=merge_engine) 5 (λ n, bool_decide (n = 4)) (λ _, id) use_tool (mkHooks hook_db ∅) hook_tasks
    ltac:(done) hook_db_tasks ltac:(simpl; lia)) as (reply & s' & Hd & _). exists reply, s'. exact Hd.
Defined.

Lemma hook_db_unverified : verdict (hs_db (mkHooks hook_db ∅)) (key_of ask_stop (mkHookTask "v" "t" "w1" "claude")) = None.
Proof. vm_compute. reflexivity. Qed.

Lemma undisturbed_stop_is_exact_witness : ∃ reply s',
  HandleHookEvent (H:=merge_engine) 5 (λ _, false) (λ _, id) ask_stop (mkHooks hook_db ∅) = (Some reply, s') ∧ hr_allow reply = false.
Proof.
  destruct (undisturbed_stop_is_exact (H:=merge_engine) 5 ask_stop (mkHooks hook_db ∅) hook_tasks
    ltac:(vm_compute; reflexivity) eq_refl hook_db_tasks ltac:(simpl; lia)) as (reply & s' & Hd & Ha). exists reply, s'. split; [exact Hd|].
  apply not_true_is_false. intros Ht. apply Ha in Ht as [_ Ht]. destruct (Ht (mkHookTask "v" "t" "w1" "claude")) as [_ Hv]; [by apply list_elem_of_here|].
  rewrite hook_db_unverified in Hv. discriminate Hv.
Defined.
