(* ===== verification/StoreDeps.v ===== *)
(** * Dependency edges over the life of a store

    Edges enter with the new tasks of a graph and leave with their plan. While no
    edge is added on its own, a task that has started has all it depends on
    settled ([edges_first]), so what waits for a failed task never starts. *)
From stdpp Require Import relations.
From S2P Require Import Prelude GoLib StoreModel StoreSql StoreTasks StoreWorkers StoreGraph StoreMeta StoreInv StoreSpec StoreTrace StoreProps.

(** ** What each operation does to the edges *)

Abbreviation keeps_deps m := (∀ D, preserves (λ s, db_deps s = D) m).

Lemma keeps_deps_run {A} (m : Store A) s : keeps_deps m → db_deps (m s).2 = db_deps s.
Proof. intros Hm. by apply (Hm (db_deps s)). Qed.
Lemma deps_event e D : preserves (λ s, db_deps s = D) (insert_event e).
Proof. intros s Hs. unfold insert_event, sbind, sget, smod, sfail. by repeat case_match; simplify_eq/=. Qed.
Lemma deps_update k where_ set_ D : preserves (λ s, db_deps s = D) (update_task k where_ set_).
Proof. intros s Hs. unfold update_task. by repeat case_match. Qed.
Lemma deps_metadata k where_ set_ D : preserves (λ s, db_deps s = D) (update_metadata k where_ set_).
Proof. intros s Hs. unfold update_metadata. by repeat case_match. Qed.
Lemma deps_mod D (f : DB → DB) : (∀ s, db_deps (f s) = db_deps s) → preserves (λ s, db_deps s = D) (smod (E:=StoreError) f).
Proof. intros Hf. apply preserves_mod. intros s <-. apply Hf. Qed.
#[export] Hint Resolve deps_event deps_update deps_metadata : preserve.
#[export] Hint Extern 2 (preserves (λ s, db_deps s = _) (smod _)) => (apply deps_mod; intros ?; reflexivity) : preserve.

(** The operations that neither add nor remove an edge. *)
Definition edge_op (op : Op) : bool :=
  match op with OpAddDep _ _ _ | OpCreatePlanGraph _ _ _ _ | OpMaterializePlanGraph _ _ | OpDeletePlan _ => true | _ => false end.

Section Deps.
Context `{SqlEngine}.

Lemma deps_get p i D : preserves (λ s, db_deps s = D) (GetTask p i).
Proof. intros s Hs. unfold GetTask. by case_match. Qed.
#[local] Hint Resolve deps_get : preserve.

Lemma reservations_deps s :
  (∀ p i path sha, db_deps (reserveTaskInputOn p i path sha s).2 = db_deps s) ∧
  (∀ p i path mode, db_deps (reserveTaskOutputOn p i path mode s).2 = db_deps s) ∧
  (∀ p i g t j, db_deps (putTaskMetadataOn p i g t j s).2 = db_deps s) ∧
  (∀ o, db_deps (createTaskOn o s).2 = db_deps s) ∧
  (∀ uuid o, db_deps (createPlanOn uuid o s).2 = db_deps s) ∧
  (∀ id st, db_deps (setPlanStatusOn id st s).2 = db_deps s).
Proof.
  split_and!; intros.
  - unfold reserveTaskInputOn, sfail. generalize (canonicalReservationPath path). intros c. by repeat case_match.
  - unfold reserveTaskOutputOn, sfail. generalize (canonicalReservationPath path). intros c.
    generalize (if decide (mode = "") then "exclusive" else mode). intros md. by repeat case_match.
  - unfold putTaskMetadataOn, sfail. by repeat case_match.
  - unfold createTaskOn, sfail. by repeat case_match.
  - unfold createPlanOn, sfail. by repeat case_match.
  - unfold setPlanStatusOn. by repeat case_match.
Qed.

Lemma small_ops_deps s :
  (∀ uuid o, db_deps (CreateSession uuid o s).2 = db_deps s) ∧
  (∀ uuid o, db_deps (CreateWorker uuid o s).2 = db_deps s) ∧
  (∀ w p i, db_deps (SetWorkerTask w p i s).2 = db_deps s) ∧
  (∀ w, db_deps (HeartbeatWorkerAndSession w s).2 = db_deps s) ∧
  (∀ x p i, db_deps (SetHookVerificationPending x p i s).2 = db_deps s) ∧
  (∀ x p i b, db_deps (SetHookVerificationResult x p i b s).2 = db_deps s).
Proof.
  split_and!; intros.
  - unfold CreateSession, sfail. by repeat case_match.
  - unfold CreateWorker, sfail. by repeat case_match.
  - unfold SetWorkerTask. by repeat case_match.
  - unfold HeartbeatWorkerAndSession, atomically, sbind, smod. simpl. by case_match.
  - unfold SetHookVerificationPending. by repeat case_match.
  - unfold SetHookVerificationResult, smod. simpl. by case_match.
Qed.

Lemma claim_row_deps p i x w D : preserves (λ s, db_deps s = D) (claim_row p i x w).
Proof. unfold claim_row. preserve. Qed.
#[local] Hint Resolve claim_row_deps : preserve.

Lemma metadata_ops_deps s :
  (∀ p i id caps, db_deps (BindTaskCalibration p i id caps s).2 = db_deps s) ∧
  (∀ p i b, db_deps (ClearTaskBlock p i b s).2 = db_deps s).
Proof.
  split; intros; apply keeps_deps_run; intros D.
  - unfold BindTaskCalibration. preserve.
  - unfold ClearTaskBlock. preserve.
Qed.

Lemma deps_kept op s : edge_op op = false → db_deps (exec op s) = db_deps s.
Proof.
  pose proof (reservations_deps s) as (? & ? & ? & ? & ? & ?). pose proof (small_ops_deps s) as (? & ? & ? & ? & ? & ?). pose proof (metadata_ops_deps s) as (? & ?).
  intros Hop. destruct op; try discriminate Hop; unfold exec; try reflexivity; try solve [auto];
    apply keeps_deps_run; intros D;
    first [ unfold ReclaimWorker | unfold ReclaimStale | unfold MarkDone | unfold MarkFailedWithPayload | unfold ReleaseClaim
          | unfold MarkBlocked | unfold ApproveTask | unfold claimTaskOnce | unfold ClaimNextReady | unfold BindTaskCalibration
          | unfold RecordTaskExecution | unfold RecordTaskProviderSession | unfold MarkBlockedCapability, markMetadataBlocked
          | unfold MarkBlockedInput, markMetadataBlocked | unfold ClearTaskBlock | idtac ]; try solve [preserve].
Qed.
(** A graph's edges start at its own tasks, which are new. *)
Lemma write_nodes_new p ts s s' :
  sfor ts (write_graph_node p) s = (Ok tt, s') →
  db_deps s' = db_deps s ∧ db_tasks s ⊆ db_tasks s' ∧ ∀ g, g ∈ ts → db_tasks s !! (p, o_id (g_task g)) = None.
Proof.
  revert s. induction ts as [|g ts IH]; intros s; cbn [sfor]; [intros [= <-]; split_and!; [done..|set_solver]|].
  intros ([] & s1 & Hg & Hrest)%sbind_ok. destruct (IH _ Hrest) as (Hd & Ht & Hnew).
  assert (db_deps s1 = db_deps s ∧ db_tasks s !! (p, o_id (g_task g)) = None) as [Hd1 Hfresh].
  { unfold write_graph_node in Hg. cbv zeta in Hg. apply sbind_ok in Hg as ([] & s2 & (Hk & _ & _ & _ & _ & ->)%createTaskOn_ok & Hg).
    split; [|done]. assert (∀ {A} (m : Store A) a b r, keeps_deps m → m a = (Ok r, b) → db_deps b = db_deps a) as Hkeep.
    { intros A m a b r Hm Heq. change b with (Ok r : result StoreError A, b).2. rewrite <-Heq. by apply keeps_deps_run. }
    refine (Hkeep _ _ _ _ _ _ Hg). intros D. apply preserves_bind.
    - case_decide; [auto with preserve|]. intros x <-. by apply (reservations_deps x).
    - intros []. apply preserves_bind; [|intros []]; apply preserves_for; intros x y <-; by apply (reservations_deps y). }
  apply write_node_written in Hg as [[Ht1 _ _ _ _ _] _]. split; [congruence|]. split; [by etrans|].
  intros g' [->|Hin]%elem_of_cons; [done|]. destruct (db_tasks s !! (p, o_id (g_task g'))) eqn:Hs; [|done].
  eapply lookup_weaken in Hs; [|exact Ht1]. by rewrite Hnew in Hs.
Qed.
Lemma write_graph_new p ts s s' q a b :
  writeGraphTasksOn p ts s = (Ok tt, s') → (q, a, b) ∈ db_deps s' → (q, a, b) ∈ db_deps s ∨ db_tasks s !! (q, a) = None.
Proof.
  unfold writeGraphTasksOn. intros ([] & s1 & Hnodes & Hdeps)%sbind_ok. apply write_nodes_new in Hnodes as (Hd & _ & Hnew).
  assert (∀ q a b, (q, a, b) ∈ db_deps s' → (q, a, b) ∈ db_deps s1 ∨ db_tasks s !! (q, a) = None) as Hall; [|by intros []%Hall; [left; congruence|right]].
  set (I := λ x, ∀ q a b, (q, a, b) ∈ db_deps x → (q, a, b) ∈ db_deps s1 ∨ db_tasks s !! (q, a) = None).
  assert (triple I (sfor ts (λ g, sfor (g_depends_on g) (addDepOn p (o_id (g_task g))))) (λ _, I)) as Ht.
  { apply triple_for. intros g Hg. apply triple_for. intros d _ x [] y Hx (_ & _ & _ & _ & _ & ->)%addDepOn_ok.
    intros q' a' b'. simpl. intros [[= -> -> ->]%elem_of_singleton|Hin]%elem_of_union; [right; by apply Hnew|by apply Hx]. }
  refine (Ht _ _ _ _ Hdeps). intros ???. by left.
Qed.

Lemma create_graph_new uuid o ts act s q a b :
  (q, a, b) ∈ db_deps (CreatePlanGraph uuid o ts act s).2 → (q, a, b) ∈ db_deps s ∨ db_tasks s !! (q, a) = None.
Proof.
  destruct (CreatePlanGraph uuid o ts act s) as [[id|e] s'] eqn:Hc; simpl.
  - apply (proj1 (atomically_ok _ _ _ _)) in Hc. apply sbind_ok in Hc as (p & s1 & Hp & Hc).
    apply sbind_ok in Hc as ([] & s2 & Hw & Hc). apply sbind_ok in Hc as ([] & s3 & Ha & [= _ <-]).
    assert (db_deps s3 = db_deps s2) as ->.
    { destruct act; [|by injection Ha as <-]. change s3 with (Ok tt : result StoreError unit, s3).2. rewrite <-Ha. by apply reservations_deps. }
    assert (db_deps s1 = db_deps s ∧ db_tasks s1 = db_tasks s) as [Hd Ht].
    { split; [|by eapply createPlan_tasks]. change s1 with (Ok p : result StoreError string, s1).2. rewrite <-Hp. by apply reservations_deps. }
    rewrite <-Hd, <-Ht. by apply write_graph_new with p ts.
  - apply atomically_err in Hc as ->. by left.
Qed.
Lemma materialize_new p ts s q a b :
  (q, a, b) ∈ db_deps (MaterializePlanGraph p ts s).2 → (q, a, b) ∈ db_deps s ∨ db_tasks s !! (q, a) = None.
Proof.
  destruct (MaterializePlanGraph p ts s) as [[[]|e] s'] eqn:Hc; simpl.
  - apply (proj1 (atomically_ok _ _ _ _)) in Hc. by eapply write_graph_new.
  - apply atomically_err in Hc as ->. by left.
Qed.

Lemma delete_plan_run p s :
  db_deps (DeletePlan p s).2 ⊆ db_deps s ∧ db_tasks (DeletePlan p s).2 ⊆ db_tasks s ∧
  (∀ q a b, q ≠ p → (q, a, b) ∈ db_deps s → (q, a, b) ∈ db_deps (DeletePlan p s).2) ∧
  (∀ k, k.1 ≠ p → db_tasks (DeletePlan p s).2 !! k = db_tasks s !! k).
Proof.
  unfold DeletePlan, atomically, sbind, smod, sget, sfail. simpl. destruct (has p (db_plans s)); simpl; [|split_and!; done].
  split_and!; [set_solver|apply map_filter_subseteq|set_solver|]. intros k Hk. rewrite map_lookup_filter.
  destruct (db_tasks s !! k); simpl; [|done]. by case_guard.
Qed.

Lemma new_edges op s q a b :
  (∀ p x y, op ≠ OpAddDep p x y) → (q, a, b) ∈ db_deps (exec op s) → (q, a, b) ∈ db_deps s ∨ db_tasks s !! (q, a) = None.
Proof.
  intros Hadd Hin. destruct (edge_op op) eqn:He; [|rewrite deps_kept in Hin by done; by left].
  destruct op; try discriminate He; simpl in Hin.
  - left. by apply (delete_plan_run id s).
  - by destruct (Hadd p a0 b0).
  - by eapply create_graph_new.
  - by eapply materialize_new.
Qed.

Lemma old_edges op s p a b : op ≠ OpDeletePlan p → (p, a, b) ∈ db_deps s → (p, a, b) ∈ db_deps (exec op s).
Proof.
  intros Hop Hin. destruct (edge_op op) eqn:He; [|by rewrite deps_kept]. destruct op; try discriminate He; simpl.
  - apply delete_plan_run; [congruence|done].
  - unfold addDepOn, sfail. case_decide; [done|]. repeat case_match; simpl; set_solver.
  - destruct (CreatePlanGraph uuid o ts activate s) as [[id|e] s'] eqn:Hc; simpl; [|by apply atomically_err in Hc as ->].
    apply CreatePlanGraph_atomic in Hc. destruct Hc as (_ & _ & _ & _ & Hext). by apply (ext_deps _ _ Hext).
  - destruct (MaterializePlanGraph p0 ts s) as [[[]|e] s'] eqn:Hc; simpl; [|by apply atomically_err in Hc as ->].
    apply (proj1 (atomically_ok _ _ _ _)), write_graph_written in Hc as [Hext _]. by apply (ext_deps _ _ Hext).
Qed.

(** ** Edges before work *)

Definition started (t : Task) : Prop := t_status t = TaskStatusRunning ∨ satisfied (t_status t) = true.

Definition edges_first (s : DB) : Prop := ∀ p a b t,
  (p, a, b) ∈ db_deps s → db_tasks s !! (p, a) = Some t → started t →
  ∃ t', db_tasks s !! (p, b) = Some t' ∧ satisfied (t_status t') = true.

Lemma satisfied_final st : satisfied st = true → final st = true.
Proof. by destruct st. Qed.

(** A settled row is still there, as it was, while its plan is. *)
Lemma final_kept op s k t :
  wf s → op ≠ OpDeletePlan k.1 → db_tasks s !! k = Some t → final (t_status t) = true → db_tasks (exec op s) !! k = Some t.
Proof.
  intros Hwf Hop Hk Hf. assert ((∃ p, op = OpDeletePlan p) ∨ ∀ p, op ≠ OpDeletePlan p) as [[p ->]|Hno].
  { destruct op; try (by right); left; by eexists. }
  - simpl. destruct (delete_plan_run p s) as (_ & _ & _ & ->); [done|]. intros Heq. by rewrite Heq in Hop.
  - pose proof (exec_rows op s Hwf Hno k) as Hev. rewrite Hk in Hev. destruct (db_tasks (exec op s) !! k) as [t'|]; [|done].
    destruct Hev as [->|Ht]; [done|]. by apply final_untouched in Ht.
Qed.

(** Only a claim starts a task, and it looks at what the task depends on. *)
Lemma step_starts op s k t t' :
  wf s → db_tasks s !! k = Some t → db_tasks (exec op s) !! k = Some t' → started t' →
  started t ∨ deps_satisfied s k.1 k.2 = true.
Proof.
  intros Hwf Hk Hk' Hst. destruct (exec_row op s k t t' Hwf Hk Hk') as [->|Ht]; [by left|].
  assert (∀ x, owned_running x t = true → started t) as Hown.
  { intros x. unfold owned_running. intros [Hr%bool_decide_eq_true _]%andb_true_iff. by left. }
  assert (∀ w, held_by w t = true → started t) as Hheld.
  { intros x. unfold held_by. intros [_ Hr%bool_decide_eq_true]%andb_true_iff. by left. }
  destruct op; simpl in Ht; try (destruct Ht; fail);
    try first
      [ destruct Ht as (_ & Ho & _); left; exact (Hown _ Ho)
      | destruct Ht as [Ho _]; left; exact (Hheld _ Ho)
      | destruct Ht as [Ho _]; left; left; exact Ho
      | destruct Ht as (_ & _ & ->); destruct Hst; discriminate
      | destruct Ht as (_ & _ & _ & ->); destruct Hst; discriminate ].
  - destruct Ht as (-> & Hc & ->). right. simpl in *. rewrite claimTaskOnce_run, Hk, Hc in Hk'.
    destruct (deps_satisfied s p i); [done|]. simpl in Hk'. rewrite Hk in Hk'. injection Hk' as Heq.
    exfalso. apply (f_equal t_status) in Heq. simpl in Heq. by rewrite Heq in Hc.
  - destruct Ht as (<- & Hc & ->). right. simpl in *.
    assert (∀ sx, db_tasks sx = db_tasks s → db_tasks sx !! k = Some (claim_task x w t) → False) as Hsame.
    { intros sx -> Hsx. rewrite Hk in Hsx. injection Hsx as Heq. apply (f_equal t_status) in Heq. simpl in Heq. by rewrite Heq in Hc. }
    destruct (ClaimNextReady k.1 x w s) as [[u|e] s'] eqn:Hr; simpl in Hk'.
    + apply ClaimNextReady_ok in Hr as (i & t0 & Hk0 & _ & Hready & _ & _ & _ & _ & ->).
      destruct (decide (k = (k.1, i))) as [Heq|Hne]; [|exfalso; apply (Hsame (claimed k.1 i x w t0 s)); [|done]].
      * unfold ready_row in Hready. apply andb_true_iff in Hready as [_ Hd]. rewrite Heq. exact Hd.
      * exfalso. simpl in Hk'. rewrite lookup_insert_ne in Hk' by congruence. by apply (Hsame s).
    + exfalso. destruct (ClaimNextReady_err _ _ _ _ _ _ Hr) as [Heq| ->]; [by apply (Hsame s')|].
      unfold ClaimNextReady in Hr. apply sbind_err in Hr as [Hr|(i & s1 & Hr & Hg)]; [by apply atomically_err in Hr as ->; apply (Hsame s)|].
      apply (proj1 (atomically_ok _ _ _ _)) in Hr. unfold sbind at 1, sget in Hr.
      destruct (next_ready k.1 s) as [|[[q j'] t0] rows] eqn:Hn; [by unfold sfail in Hr|].
      apply sbind_ok in Hr as ([] & s2 & Hcl & Hret). unfold sret in Hret. simplify_eq/=.
      apply claim_row_ok in Hcl as (t1 & _ & _ & _ & _ & ->). unfold GetTask in Hg. simpl in Hg. by rewrite lookup_insert_eq in Hg.
Qed.

Lemma delete_own_plan s p a : wf s → db_tasks (DeletePlan p s).2 !! (p, a) = None.
Proof.
  intros Hwf. unfold DeletePlan, atomically, sbind, smod, sget, sfail. simpl. destruct (has p (db_plans s)) eqn:Hp; simpl.
  - apply map_lookup_filter_None_2. right. intros t _. simpl. by intros [].
  - destruct (db_tasks s !! (p, a)) as [t|] eqn:Hk; [|done]. apply (wf_plan _ Hwf) in Hk. simpl in Hk.
    apply bool_decide_eq_false in Hp. done.
Qed.

Lemma edges_first_step op s :
  wf s → (∀ p x y, op ≠ OpAddDep p x y) → edges_first s → edges_first (exec op s).
Proof.
  intros Hwf Hadd Hef p a b t Hin Ht Hst. destruct (new_edges op s p a b Hadd Hin) as [Hold|Hnew].
  - destruct (wf_dep _ Hwf _ _ _ Hold) as [[t0 Ht0] [tb Htb]].
    assert (satisfied (t_status tb) = true) as Hsat.
    { destruct (step_starts op s (p, a) t0 t Hwf Ht0 Ht Hst) as [Hs0|Hd].
      - destruct (Hef p a b t0 Hold Ht0 Hs0) as (t' & Ht' & Hs). congruence.
      - eapply deps_satisfied_true; [exact Hd|exact Hold|exact Htb]. }
    exists tb. split; [|done]. apply final_kept; [done| |done|by apply satisfied_final].
    intros ->. simpl in Ht. by rewrite delete_own_plan in Ht.
  - pose proof (exec_row_new op s (p, a) t Hwf Hnew Ht) as [[Hf|Hf] _]; destruct Hst as [Hst|Hst]; rewrite Hf in Hst; discriminate.
Qed.

(** The program never adds an edge on its own: [AddDep] has no caller. *)
Definition calm (ops : list Op) : Prop := ∀ p x y, OpAddDep p x y ∉ ops.

Lemma run_edges_first clock ops s : run_from (empty_db clock) ops s → calm ops → edges_first s.
Proof.
  intros Hrun. induction Hrun as [|ops op s Hrun IH Hpre]; intros Hcalm; [intros p a b t Hin; simpl in Hin; set_solver|].
  apply edges_first_step; [by eapply run_wf, Hrun; apply empty_wf| |].
  - intros p x y ->. apply (Hcalm p x y). set_solver.
  - apply IH. intros p x y Hin. apply (Hcalm p x y). set_solver.
Qed.

(** ** Waiting for a failed task *)

Definition failed_row (s : DB) (p r : string) : Prop := ∃ t, db_tasks s !! (p, r) = Some t ∧ t_status t = TaskStatusFailed.
Definition dead (s : DB) (p a : string) : Prop := ∃ r, tc (dep_edge s p) a r ∧ failed_row s p r.

Lemma dead_not_started s p a :
  wf s → edges_first s → dead s p a → ∃ t, db_tasks s !! (p, a) = Some t ∧ ¬ started t.
Proof.
  intros Hwf Hef (r & Hpath & tr & Htr & Hfail). revert tr Htr Hfail.
  assert (∀ x y, dep_edge s p x y → (∀ t, db_tasks s !! (p, y) = Some t → satisfied (t_status t) = false) →
    ∃ t, db_tasks s !! (p, x) = Some t ∧ ¬ started t) as Hback.
  { intros x y Hxy Hy. destruct (wf_dep _ Hwf _ _ _ Hxy) as [[t Ht] _]. exists t. split; [done|]. intros Hs.
    destruct (Hef p x y t Hxy Ht Hs) as (t' & Ht' & Hsat). by rewrite (Hy _ Ht') in Hsat. }
  induction Hpath as [x y Hxy|x y z Hxy _ IH]; intros tr Htr Hfail.
  - apply (Hback x y Hxy). intros t' Ht'. rewrite Htr in Ht'. injection Ht' as <-. by rewrite Hfail.
  - destruct (IH tr Htr Hfail) as (ty & Hty & Hns). apply (Hback x y Hxy). intros t Ht. rewrite Hty in Ht. injection Ht as <-.
    destruct (satisfied (t_status ty)) eqn:Hsat; [|done]. exfalso. apply Hns. by right.
Qed.

Lemma run_dead s ops s' p a :
  wf s → run_from s ops s' → OpDeletePlan p ∉ ops → dead s p a → dead s' p a.
Proof.
  intros Hwf Hrun. induction Hrun as [|ops op s' Hrun IH Hpre]; intros Hnot Hd; [done|].
  assert (op ≠ OpDeletePlan p) as Hop by set_solver.
  destruct (IH ltac:(set_solver) Hd) as (r & Hpath & t & Ht & Hf). assert (wf s') as Hwf' by by eapply run_wf.
  exists r. split.
  - eapply (tc_congruence id); [|exact Hpath]. intros x y. by apply old_edges.
  - exists t. split; [|done]. apply final_kept; [done|done|done|by rewrite Hf].
Qed.
End Deps.
