(* ===== verification/StoreOperator.v ===== *)
(** * What an operator sees: [internal/store/operator_snapshot.go],
    [operator_messages.go], [operator_task_detail.go], [timeutil.go]

    Bounded read-only projections of one project: counts, pages of plans, tasks
    and events by keyset cursors, the complete list of its running workers, and
    the metadata of messages. A [View] is what one read transaction sees. *)
From S2P Require Import Prelude GoLib GoTime StoreModel StoreSql StoreTasks StoreGraph StoreProjects StoreEvents.

(** ** Bounds and errors *)

Definition DefaultOperatorPageLimit : Z := 50.
Definition MaxOperatorPageLimit : Z := 200.
Definition DefaultOperatorEventLimit : Z := 20.
Definition MaxOperatorEventLimit : Z := 100.
Definition MaxOperatorActiveWorkers : nat := 256.
Definition MaxOperatorActiveClaims : nat := 2048.
Definition maxOperatorStatusKinds : nat := 32.
Definition DefaultOperatorMessageLimit : Z := 100.
Definition MaxOperatorMessageLimit : Z := 500.
#[global] Arguments MaxOperatorActiveWorkers : simpl never.
#[global] Arguments MaxOperatorActiveClaims : simpl never.

Inductive OperatorError :=
| ErrOperatorInvalidQuery (what : string)
| ErrOperatorProjectNotFound
| ErrOperatorPlanNotFound
| ErrOperatorTaskNotFound
| ErrOperatorInvalidCursor (what : string)
| ErrOperatorSnapshotTooLarge
| ErrOperatorTaskDetailNotFound
| ErrOperatorTimestamp (field : string).
#[export] Instance OperatorError_eq_dec : EqDecision OperatorError.
Proof. solve_decision. Defined.

(** ** Timestamps *)

Definition no_zone (l : list Ascii.ascii) : option (Z * list Ascii.ascii) := Some (0%Z, l).
(** [-07:00]. *)
Definition read_num_offset (l : list Ascii.ascii) : option (Z * list Ascii.ascii) :=
  match l with c :: _ => if decide (c = "Z"%char) then None else read_offset l | [] => None end.

(** The four layouts; the fourth reads what the first does. *)
Definition db_layouts : list (list Ascii.ascii → option Z) :=
  [parse_time; parse_layout " " no_zone; parse_layout " " read_num_offset; parse_time].
Fixpoint first_layout (layouts : list (list Ascii.ascii → option Z)) (l : list Ascii.ascii) : option Z :=
  match layouts with
  | [] => None
  | p :: ps => match p l with Some t => Some t | None => first_layout ps l end
  end.

(** Go's zero time, the first of January of the year one. *)
Definition zero_time : Z := (-62135596800 * second_ns)%Z.
Definition parseDBTimestamp (raw : string) : Z := default zero_time (first_layout db_layouts (chars raw)).

Definition parseOperatorTimestamp (field raw : string) : result OperatorError Z :=
  let t := parseDBTimestamp raw in
  if decide (t = zero_time) then Err (ErrOperatorTimestamp field) else Ok t.

(** A column of whole seconds holds their RFC 3339 text. *)
Definition second_text (s : Z) : string := FormatRFC3339Nano (s * second_ns).

(** ** The tables of one read transaction *)

(** A row of [a2a_messages]. *)
Record MessageRow := mkMessageRow {
  mr_id : Z; mr_worker : option string; mr_plan : string; mr_task : string; mr_role : string; mr_content : string; mr_occurred : string }.

(** [vw_updated]: the column [tasks.updated_at]. *)
Record View := mkView {
  vw_db : DB;
  vw_projects : gmap string Project;
  vw_updated : string * string → string;
  vw_log : EventLog;
  vw_messages : list MessageRow }.

(** [json_extract] on the text of a payload that the store did not write; the
    hash behind a partition's ordinal, [hex(sha256(...)[:8])]. *)
Class OperatorCodec := {
  json_string : string → string → option string;
  json_number : string → string → option Z;
  partition_hash : string → string }.

(** ** Scopes *)

(** [JOIN plans p ON p.id = plan_id ... WHERE p.project_id = ?]. *)
Definition in_project (s : DB) (project planID : string) : bool :=
  match db_plans s !! planID with Some p => bool_decide (p_project p = project) | None => false end.
(** [? = '' OR col = ?]. *)
Definition optionally (wanted col : string) : bool := bool_decide (wanted = "") || bool_decide (col = wanted).
(** The binary collation's [a < b]. *)
Definition text_lt (a b : string) : bool := String.leb a b && negb (bool_decide (a = b)).

(** ** Pages *)

Record Page (A C : Type) := mkPage { pg_items : list A; pg_has_more : bool; pg_next : C }.
Arguments mkPage {A C}.
Arguments pg_items {A C}.
Arguments pg_has_more {A C}.
Arguments pg_next {A C}.

(** One row more than the limit was read; it only tells that there are more. *)
Definition cut_page {A C} (limit : nat) (none : C) (cursor : A → C) (items : list A) : Page A C :=
  if limit <? length items then
    let shown := take limit items in
    mkPage shown true (match last shown with Some item => cursor item | None => none end)
  else mkPage items false none.

(** [for rows.Next() { ... }] with a scan that may fail. *)
Fixpoint scan_rows {E A B} (f : A → result E B) (rows : list A) : result E (list B) :=
  match rows with
  | [] => Ok []
  | row :: rows' => try item := f row in try items := scan_rows f rows' in Ok (item :: items)
  end.

Definition normalizeOperatorLimit (name : string) (value default_ max : Z) : result OperatorError nat :=
  if (value =? 0)%Z then Ok (Z.to_nat default_)
  else if (value <? 0)%Z || (max <? value)%Z then Err (ErrOperatorInvalidQuery name)
  else Ok (Z.to_nat value).

(** ** The snapshot's parts *)

Record OperatorTaskCursor := mkTaskCursor { tc_plan : string; tc_task : string }.
Definition no_task_cursor : OperatorTaskCursor := mkTaskCursor "" "".

Record OperatorSnapshotQuery := mkSnapshotQuery {
  sq_project : string; sq_plan : string; sq_task : string;
  sq_plan_limit : Z; sq_plan_after : string;
  sq_task_limit : Z; sq_task_after : OperatorTaskCursor;
  sq_event_limit : Z; sq_event_before : Z }.

Record OperatorProject := mkOperatorProject {
  oj_id : string; oj_name : string; oj_created : Z; oj_updated : Z; oj_seen : option Z }.
Record OperatorStatusCount := mkStatusCount { on_status : string; on_count : nat }.
Record OperatorPlan := mkOperatorPlan {
  ol_id : string; ol_slug : string; ol_title : string; ol_status : PlanStatus;
  ol_task_done : nat; ol_no_runnable_work : bool; ol_task_total : nat; ol_created : Z; ol_updated : Z }.
Record OperatorTask := mkOperatorTask {
  ot_plan : string; ot_id : string; ot_status : TaskStatus;
  ot_parallel : option Z; ot_sequence : option Z; ot_retry : Z; ot_reclaim : Z;
  ot_parent : string; ot_worker : string;
  ot_alias : string; ot_provider : string; ot_model : string; ot_effort : string; ot_domain : string;
  ot_partition : string; ot_blocked_by : string; ot_failure_category : string;
  ot_reclaim_reason : string; ot_reclaim_claims : Z;
  ot_created : Z; ot_updated : Z }.
Record OperatorWorkerClaim := mkWorkerClaim { oc_plan : string; oc_task : string; oc_status : TaskStatus }.
Record OperatorWorker := mkOperatorWorker {
  ow_id : string; ow_provider : string; ow_model : string; ow_native_fanout : bool; ow_status : string;
  ow_started : Z; ow_heartbeat : Z; ow_claims : list OperatorWorkerClaim }.
Record OperatorEvent := mkOperatorEvent {
  oe_id : Z; oe_plan : string; oe_task : string; oe_kind : string; oe_stream : string; oe_occurred : Z;
  oe_failure_category : string }.
Record OperatorSnapshot := mkOperatorSnapshot {
  os_captured : Z; os_project : OperatorProject;
  os_plan_counts : list OperatorStatusCount; os_task_counts : list OperatorStatusCount;
  os_plans : Page OperatorPlan string; os_tasks : Page OperatorTask (option OperatorTaskCursor);
  os_active_workers : nat; os_workers : list OperatorWorker;
  os_event_cursor : Z; os_events : Page OperatorEvent Z }.

Definition plan_status_text (st : PlanStatus) : string :=
  match st with
  | PlanStatusDraft => "draft" | PlanStatusActive => "active" | PlanStatusPaused => "paused"
  | PlanStatusDone => "done" | PlanStatusFailedPartial => "failed_partial"
  | PlanStatusArchived => "archived" | PlanStatusAbandoned => "abandoned"
  end.

(** ** Validation *)

Definition validateOperatorSnapshotQuery (q : OperatorSnapshotQuery) : result OperatorError (nat * nat * nat) :=
  let after := sq_task_after q in
  if decide (sq_project q = "") then Err (ErrOperatorInvalidQuery "project_id is required")
  else if (sq_event_before q <? 0)%Z then Err (ErrOperatorInvalidQuery "event_before_id must be non-negative")
  else if decide (sq_task q ≠ "" ∧ sq_plan q = "") then Err (ErrOperatorInvalidQuery "task_id requires plan_id")
  else if decide (sq_plan q ≠ "" ∧ sq_plan_after q ≠ "") then Err (ErrOperatorInvalidQuery "plan_after_id cannot be combined with plan_id")
  else if negb (eqb (bool_decide (tc_plan after = "")) (bool_decide (tc_task after = "")))
  then Err (ErrOperatorInvalidQuery "task_after requires both plan_id and task_id")
  else if decide (sq_task q ≠ "" ∧ tc_plan after ≠ "") then Err (ErrOperatorInvalidQuery "task_after cannot be combined with task_id")
  else if decide (sq_plan q ≠ "" ∧ tc_plan after ≠ "" ∧ tc_plan after ≠ sq_plan q)
  then Err (ErrOperatorInvalidCursor "task cursor is outside plan scope")
  else
    try planLimit := normalizeOperatorLimit "plan_limit" (sq_plan_limit q) DefaultOperatorPageLimit MaxOperatorPageLimit in
    try taskLimit := normalizeOperatorLimit "task_limit" (sq_task_limit q) DefaultOperatorPageLimit MaxOperatorPageLimit in
    try eventLimit := normalizeOperatorLimit "event_limit" (sq_event_limit q) DefaultOperatorEventLimit MaxOperatorEventLimit in
    Ok (planLimit, taskLimit, eventLimit).

(** A check that passes when its scope is not asked for. *)
Definition unless {E} (asked holds : bool) (e : E) : result E unit := if asked && negb holds then Err e else Ok tt.

Definition event_in (l : EventLog) (project planID taskID : string) (r : LogRow) : bool :=
  in_scope l project (lr_event r) && (bool_decide (planID = "") || sql_eq (e_plan (lr_event r)) planID) &&
  (bool_decide (taskID = "") || sql_eq (e_task (lr_event r)) taskID).

Definition validateOperatorSnapshotScopeAndCursors (v : View) (q : OperatorSnapshotQuery) : result OperatorError unit :=
  let s := vw_db v in
  let after := sq_task_after q in
  try _ := unless (negb (bool_decide (sq_plan q = ""))) (in_project s (sq_project q) (sq_plan q)) ErrOperatorPlanNotFound in
  try _ := unless (negb (bool_decide (sq_task q = ""))) (has (sq_plan q, sq_task q) (db_tasks s)) ErrOperatorTaskNotFound in
  try _ := unless (negb (bool_decide (sq_plan_after q = ""))) (in_project s (sq_project q) (sq_plan_after q)) (ErrOperatorInvalidCursor "plan cursor") in
  try _ := unless (negb (bool_decide (tc_plan after = "")))
             (in_project s (sq_project q) (tc_plan after) && has (tc_plan after, tc_task after) (db_tasks s)) (ErrOperatorInvalidCursor "task cursor") in
  unless (0 <? sq_event_before q)%Z
    (existsb (λ r, (lr_id r =? sq_event_before q)%Z && event_in (vw_log v) (sq_project q) (sq_plan q) (sq_task q) r) (lg_rows (vw_log v)))
    (ErrOperatorInvalidCursor "event cursor").

(** ** What cannot run any more

    The recursive queries. [WITH RECURSIVE ... UNION] over pairs only adds rows
    until none is new; over rows that carry their depth it makes one more level
    from each until a level is empty, which on a cycle never comes. *)

Definition failed_task (s : DB) (k : string * string) : bool :=
  match db_tasks s !! k with Some t => bool_decide (t_status t = TaskStatusFailed) | None => false end.

(** The edges of the base case. *)
Definition failed_edges (s : DB) : list (string * string * string) :=
  filter (λ d, failed_task s (d.1.1, d.2) = true) (elements (db_deps s)).

Definition blocked_step (s : DB) (known : gset (string * string)) : gset (string * string) :=
  known ∪ list_to_set (fst <$> filter (λ d, (d.1.1, d.2) ∈ known) (elements (db_deps s))).
Definition blocked_tasks (s : DB) : gset (string * string) :=
  Nat.iter (size (db_deps s)) (blocked_step s) (list_to_set (fst <$> failed_edges s)).

(** A level: the rows [(plan_id, task_id, root_id)] of one depth. *)
Abbreviation Level := (gset (string * string * string)).
Definition first_level (s : DB) : Level := list_to_set (failed_edges s).
Definition next_level (s : DB) (level : Level) : Level :=
  list_to_set (concat ((λ d, (λ r, (d.1, r.2)) <$> filter (λ r, r.1 = (d.1.1, d.2)) (elements level)) <$> elements (db_deps s))).
Fixpoint blocked_levels (fuel : nat) (s : DB) (level : Level) : option (list Level) :=
  if decide (level = ∅) then Some []
  else match fuel with
  | 0 => None
  | S fuel' => cons level <$> blocked_levels fuel' s (next_level s level)
  end.
(** One level deeper than there are edges. *)
Definition blocked (s : DB) : option (list Level) := blocked_levels (S (size (db_deps s))) s (first_level s).

Section Queries.
Context `{SqlEngine} `{BindingCodec} `{OperatorCodec}.

(** [blocked_best] keeps the rows of the least depth; of several the bare column
    of its [GROUP BY] is the one the engine comes to. *)
Fixpoint blocked_by (levels : list Level) (k : string * string) : string :=
  match levels with
  | [] => ""
  | level :: levels' =>
      match order_by (λ _, []) (filter (λ r, r.1 = k) (elements level)) with
      | r :: _ => r.2
      | [] => blocked_by levels' k
      end
  end.

(** ** Project and counts *)

Definition readOperatorProject (v : View) (projectID : string) : result OperatorError OperatorProject :=
  match vw_projects v !! projectID with
  | None => Err ErrOperatorProjectNotFound
  | Some p =>
      try created := parseOperatorTimestamp "project.created_at" (second_text (pj_created p)) in
      try updated := parseOperatorTimestamp "project.updated_at" (second_text (pj_updated p)) in
      match pj_seen p with
      | None => Ok (mkOperatorProject projectID (coalesce (pj_name p)) created updated None)
      | Some at_ =>
          try seen := parseOperatorTimestamp "project.last_seen_at" (second_text at_) in
          Ok (mkOperatorProject projectID (coalesce (pj_name p)) created updated (Some seen))
      end
  end.

(** [SELECT status, COUNT( * ) ... GROUP BY status ORDER BY status]. *)
Definition status_groups (statuses : list string) : list OperatorStatusCount :=
  (λ st, mkStatusCount st (length (filter (eq st) statuses))) <$> order_by (λ st, [KText st]) (remove_dups statuses).
Definition scanOperatorStatusCounts (rows : list OperatorStatusCount) : result OperatorError (list OperatorStatusCount) :=
  if maxOperatorStatusKinds <? length rows then Err ErrOperatorSnapshotTooLarge else Ok rows.

Definition project_plans (s : DB) (project : string) : list (string * Plan) :=
  filter (λ r, p_project r.2 = project) (map_to_list (db_plans s)).
Definition project_tasks (s : DB) (project : string) : list TaskRow := task_rows s (λ r, in_project s project r.1.1).

Definition readOperatorPlanCounts (s : DB) (project : string) : result OperatorError (list OperatorStatusCount) :=
  scanOperatorStatusCounts (status_groups ((λ r, plan_status_text (p_status r.2)) <$> project_plans s project)).
Definition readOperatorTaskCounts (s : DB) (project : string) : result OperatorError (list OperatorStatusCount) :=
  scanOperatorStatusCounts (status_groups ((λ r, task_status_text (t_status r.2)) <$> project_tasks s project)).

(** ** Plans *)

Definition count_of {A} (f : A → bool) (l : list A) : nat := length (filter (λ x, f x = true) l).
Definition plan_tasks (s : DB) (planID : string) : list TaskRow := task_rows s (λ r, bool_decide (r.1.1 = planID)).

(** The two [CASE]s. *)
Definition runnable_row (dead : gset (string * string)) (r : TaskRow) : bool :=
  negb (satisfied (t_status r.2)) && negb (bool_decide (t_status r.2 = TaskStatusFailed)) && negb (bool_decide (r.1 ∈ dead)).
Definition stuck_row (dead : gset (string * string)) (r : TaskRow) : bool :=
  bool_decide (t_status r.2 = TaskStatusFailed) || bool_decide (r.1 ∈ dead).

(** A plan without tasks is one row of NULLs to the LEFT JOIN, and counts as
    runnable. *)
Definition scan_plan (s : DB) (r : string * Plan) : result OperatorError OperatorPlan :=
  let '(id, p) := r in
  let tasks := plan_tasks s id in
  let dead := blocked_tasks s in
  let done_ := count_of (λ r, satisfied (t_status r.2)) tasks in
  let runnable := match tasks with [] => 1 | _ => count_of (runnable_row dead) tasks end in
  let stuck := count_of (stuck_row dead) tasks in
  try created := parseOperatorTimestamp "plan.created_at" (second_text (p_created_at p)) in
  try updated := parseOperatorTimestamp "plan.updated_at" (p_updated_at p) in
  Ok (mkOperatorPlan id (p_slug p) (p_title p) (p_status p) done_
        ((0 <? length tasks) && (runnable =? 0) && (0 <? stuck)) (length tasks) created updated).

Definition readOperatorPlans (s : DB) (project planID afterID : string) (limit : nat) : result OperatorError (Page OperatorPlan string) :=
  let rows := order_by (λ r, [KText r.1])
    (filter (λ r, optionally planID r.1 = true ∧ (afterID = "" ∨ text_lt afterID r.1 = true)) (project_plans s project)) in
  try items := scan_rows (scan_plan s) (take (limit + 1) rows) in
  Ok (cut_page limit "" ol_id items).

(** ** Tasks *)

Definition after_cursor (after : OperatorTaskCursor) (k : string * string) : bool :=
  bool_decide (tc_plan after = "") || text_lt (tc_plan after) k.1 ||
  (bool_decide (k.1 = tc_plan after) && text_lt (tc_task after) k.2).

(** [COALESCE(json_extract(payload_json, ...), ...)]. *)
Definition payload_reason (p : Payload) : string :=
  match p with
  | PayloadStruct p => pl_reason p
  | PayloadReclaim reason _ _ => reason
  | PayloadJSON raw => coalesce (json_string raw "reason")
  end.
Definition payload_claims (p : Payload) : Z :=
  match p with PayloadReclaim _ _ n => n | PayloadStruct _ => 0 | PayloadJSON raw => default 0%Z (json_number raw "concurrent_claims") end.
Definition payload_category (p : Payload) : string :=
  match p with
  | PayloadStruct p => pl_failure_category p
  | PayloadReclaim _ _ _ => ""
  | PayloadJSON raw => coalesce (json_string raw "failure_category")
  end.

(** [last_reclaim]. *)
Definition reclaims_of (l : EventLog) (k : string * string) : list LogRow :=
  filter (λ r, e_kind (lr_event r) = "task.reclaimed" ∧ e_plan (lr_event r) = Some k.1 ∧ e_task (lr_event r) = Some k.2) (lg_rows l).
Definition last_reclaim (l : EventLog) (k : string * string) : option Payload :=
  let newest := foldr Z.max 0%Z (lr_id <$> reclaims_of l k) in
  (λ r, e_payload (lr_event r)) <$> head (filter (λ r, lr_id r = newest) (reclaims_of l k)).

(** [readyPartitionOrdinal]. *)
Definition partition_text (groupPath bindingKey : string) : string :=
  nat_text (String.length groupPath) +:+ ":" +:+ groupPath +:+ nat_text (String.length bindingKey) +:+ ":" +:+ bindingKey.
Definition readyPartitionOrdinal (groupPath bindingKey : string) : string := partition_hash (partition_text groupPath bindingKey).

Definition partitioned (s : DB) (k : string * string) (t : Task) : bool :=
  bool_decide (t_status t = TaskStatusRunning) || (dispatchable (t_status t) && deps_satisfied s k.1 k.2).

(** The columns of the LEFT JOIN with [task_metadata]. *)
Definition meta_text (s : DB) (k : string * string) (col : TaskMeta → option string) : string := coalesce (db_metadata s !! k ≫= col).

Definition scan_task (v : View) (levels : list Level) (r : TaskRow) : result OperatorError OperatorTask :=
  let s := vw_db v in
  let '(k, t) := r in
  let reclaim := last_reclaim (vw_log v) k in
  try created := parseOperatorTimestamp "task.created_at" (second_text (t_created_at t)) in
  try updated := parseOperatorTimestamp "task.updated_at" (vw_updated v k) in
  Ok (mkOperatorTask k.1 k.2 (t_status t) (t_parallel_group t) (t_sequence_ordinal t) (t_retry_count t) (t_reclaim_count t)
        (coalesce (t_parent t)) (coalesce (t_claimed_by_worker t))
        (meta_text s k m_assigned_alias) (meta_text s k m_assigned_provider) (meta_text s k m_assigned_model)
        (meta_text s k m_assigned_effort) (meta_text s k m_assigned_domain)
        (if partitioned s k t then readyPartitionOrdinal (row_group s k) (declaredBindingKey (row_metadata s k)) else "")
        (blocked_by levels k) (coalesce (t_failure_category t))
        (match reclaim with Some p => payload_reason p | None => "" end)
        (match reclaim with Some p => payload_claims p | None => 0 end)
        created updated).

Definition task_key (k : string * string) : list Cell := [KText k.1; KText k.2].
Definition task_page_rows (s : DB) (project planID taskID : string) (after : OperatorTaskCursor) : list TaskRow :=
  order_by (λ r, task_key r.1)
    (filter (λ r, optionally planID r.1.1 = true ∧ optionally taskID r.1.2 = true ∧ after_cursor after r.1 = true) (project_tasks s project)).
Definition task_cursor (t : OperatorTask) : option OperatorTaskCursor := Some (mkTaskCursor (ot_plan t) (ot_id t)).

Definition readOperatorTasks (v : View) (levels : list Level) (project planID taskID : string) (after : OperatorTaskCursor) (limit : nat)
    : result OperatorError (Page OperatorTask (option OperatorTaskCursor)) :=
  try items := scan_rows (scan_task v levels) (take (limit + 1) (task_page_rows (vw_db v) project planID taskID after)) in
  Ok (cut_page limit None task_cursor items).

(** ** Workers *)

Definition project_claims (s : DB) (project : string) : list TaskRow :=
  task_rows s (λ r, in_project s project r.1.1 && bool_decide (is_Some (t_claimed_by_worker r.2))).
Definition claims_of (w : string) (claims : list TaskRow) : list TaskRow := filter (λ r, t_claimed_by_worker r.2 = Some w) claims.

(** [project_worker_ids] joined back to [workers]. *)
Definition on_project (s : DB) (project : string) (w : string * Worker) : bool :=
  bool_decide (w_status w.2 = "running") &&
  (match w_plan w.2 with Some p => in_project s project p | None => false end ||
   negb (bool_decide (claims_of w.1 (project_claims s project) = []))).
Definition project_workers (s : DB) (project : string) : list (string * Worker) :=
  filter (λ w, on_project s project w = true) (map_to_list (db_workers s)).

Definition with_claims (s : DB) (project : string) (w : string * Worker) : list ((string * Worker) * option TaskRow) :=
  match claims_of w.1 (project_claims s project) with [] => [(w, None)] | cs => (λ c, (w, Some c)) <$> cs end.
Definition worker_row_key (r : (string * Worker) * option TaskRow) : list Cell :=
  KInt (w_started_at r.1.2) :: KText r.1.1 :: match r.2 with None => [] | Some c => task_key c.1 end.
Definition max_worker_rows : nat := MaxOperatorActiveWorkers + MaxOperatorActiveClaims + 1.
Definition worker_rows (s : DB) (project : string) : list ((string * Worker) * option TaskRow) :=
  take max_worker_rows (order_by worker_row_key (concat (with_claims s project <$> project_workers s project))).

Definition add_claim (id : string) (c : TaskRow) (o : OperatorWorker) : OperatorWorker :=
  if decide (ow_id o = id) then
    mkOperatorWorker (ow_id o) (ow_provider o) (ow_model o) (ow_native_fanout o) (ow_status o) (ow_started o) (ow_heartbeat o)
      (ow_claims o ++ [mkWorkerClaim c.1.1 c.1.2 (t_status c.2)])
  else o.

Definition new_operator_worker (id : string) (w : Worker) : result OperatorError OperatorWorker :=
  try started := parseOperatorTimestamp "worker.started_at" (second_text (w_started_at w)) in
  try beat := parseOperatorTimestamp "worker.last_heartbeat" (second_text (w_heartbeat w)) in
  Ok (mkOperatorWorker id (w_provider w) (coalesce (w_model w)) (w_native_fanout w) (w_status w) started beat []).

(** The row loop; the index by worker id is a search of the list. *)
Fixpoint scan_workers (rows : list ((string * Worker) * option TaskRow)) (workers : list OperatorWorker) (claims : nat)
    : result OperatorError (list OperatorWorker) :=
  match rows with
  | [] => Ok workers
  | ((id, w), c) :: rows' =>
      try workers := (if bool_decide (id ∈ ow_id <$> workers) then Ok workers
                      else if length workers =? MaxOperatorActiveWorkers then Err ErrOperatorSnapshotTooLarge
                      else try o := new_operator_worker id w in Ok (workers ++ [o])) in
      match c with
      | None => scan_workers rows' workers claims
      | Some c =>
          if claims =? MaxOperatorActiveClaims then Err ErrOperatorSnapshotTooLarge
          else scan_workers rows' (add_claim id c <$> workers) (S claims)
      end
  end.

Definition readOperatorWorkers (s : DB) (project : string) : result OperatorError (list OperatorWorker) :=
  let rows := worker_rows s project in
  try workers := scan_workers rows [] 0 in
  if length rows =? max_worker_rows then Err ErrOperatorSnapshotTooLarge else Ok workers.

(** ** Events *)

Definition scan_event (l : EventLog) (project : string) (r : LogRow) : result OperatorError OperatorEvent :=
  let e := lr_event r in
  let mine := match e_plan e with Some plan => sql_eq (lg_plans l !! plan) project | None => false end in
  try occurred := parseOperatorTimestamp "event.occurred_at" (second_text (lr_occurred r)) in
  Ok (mkOperatorEvent (lr_id r) (if mine then coalesce (e_plan e) else "") (if mine then coalesce (e_task e) else "")
        (e_kind e) (coalesce (e_stream e)) occurred (payload_category (e_payload e))).

Definition event_page_rows (l : EventLog) (project planID taskID : string) (beforeID : Z) : list LogRow :=
  order_by (λ r, [KInt (- lr_id r)])
    (filter (λ r, event_in l project planID taskID r = true ∧ (beforeID = 0%Z ∨ (lr_id r < beforeID)%Z)) (lg_rows l)).
Definition readOperatorEvents (l : EventLog) (project planID taskID : string) (beforeID : Z) (limit : nat)
    : result OperatorError (Page OperatorEvent Z) :=
  try items := scan_rows (scan_event l project) (take (limit + 1) (event_page_rows l project planID taskID beforeID)) in
  Ok (cut_page limit 0%Z oe_id items).

Definition readOperatorEventCursor (l : EventLog) (project : string) : Z := MaxEventID project l.

(** ** The snapshot *)

(** [None]: the engine never comes to the end of the recursive query. *)
Definition ReadOperatorSnapshot (v : View) (q : OperatorSnapshotQuery) : option (result OperatorError OperatorSnapshot) :=
  let s := vw_db v in
  match validateOperatorSnapshotQuery q with
  | Err e => Some (Err e)
  | Ok (planLimit, taskLimit, eventLimit) =>
      match
        (try project := readOperatorProject v (sq_project q) in
         try _ := validateOperatorSnapshotScopeAndCursors v q in
         try planCounts := readOperatorPlanCounts s (sq_project q) in
         try taskCounts := readOperatorTaskCounts s (sq_project q) in
         try plans := readOperatorPlans s (sq_project q) (sq_plan q) (sq_plan_after q) planLimit in
         Ok (project, planCounts, taskCounts, plans))
      with
      | Err e => Some (Err e)
      | Ok (project, planCounts, taskCounts, plans) =>
          (λ levels,
             try tasks := readOperatorTasks v levels (sq_project q) (sq_plan q) (sq_task q) (sq_task_after q) taskLimit in
             try workers := readOperatorWorkers s (sq_project q) in
             try events := readOperatorEvents (vw_log v) (sq_project q) (sq_plan q) (sq_task q) (sq_event_before q) eventLimit in
             Ok (mkOperatorSnapshot (db_clock s) project planCounts taskCounts plans tasks (length workers) workers
                   (readOperatorEventCursor (vw_log v) (sq_project q)) events)) <$> blocked s
      end
  end.

(** ** Messages *)

Record OperatorMessageQuery := mkMessageQuery {
  mq_project : string; mq_plan : string; mq_task : string; mq_after : Z; mq_limit : Z }.
Record OperatorMessageMetadata := mkMessageMetadata {
  om_id : Z; om_worker : string; om_plan : string; om_task : string; om_role : string; om_occurred : Z }.

Definition validateOperatorMessageQuery (q : OperatorMessageQuery) : result OperatorError nat :=
  if decide (mq_project q = "") then Err (ErrOperatorInvalidQuery "project_id is required")
  else if decide (mq_task q ≠ "" ∧ mq_plan q = "") then Err (ErrOperatorInvalidQuery "task_id requires plan_id")
  else if (mq_after q <? 0)%Z then Err (ErrOperatorInvalidQuery "after_id must be non-negative")
  else normalizeOperatorLimit "limit" (mq_limit q) DefaultOperatorMessageLimit MaxOperatorMessageLimit.

Definition validateOperatorMessageScope (s : DB) (q : OperatorMessageQuery) : result OperatorError unit :=
  if decide (mq_plan q = "") then Ok tt
  else if negb (in_project s (mq_project q) (mq_plan q)) then Err ErrOperatorPlanNotFound
  else if decide (mq_task q = "") then Ok tt
  else if has (mq_plan q, mq_task q) (db_tasks s) then Ok tt else Err ErrOperatorTaskNotFound.

Definition message_in (s : DB) (q : OperatorMessageQuery) (m : MessageRow) : bool :=
  in_project s (mq_project q) (mr_plan m) && optionally (mq_plan q) (mr_plan m) && optionally (mq_task q) (mr_task m).
Definition validateOperatorMessageCursor (v : View) (q : OperatorMessageQuery) : result OperatorError unit :=
  if (mq_after q =? 0)%Z then Ok tt
  else if existsb (λ m, (mr_id m =? mq_after q)%Z && message_in (vw_db v) q m) (vw_messages v) then Ok tt
  else Err (ErrOperatorInvalidCursor "a2a message cursor").

Definition scanOperatorMessages (m : MessageRow) : result OperatorError OperatorMessageMetadata :=
  try occurred := parseOperatorTimestamp "a2a_message.occurred_at" (mr_occurred m) in
  Ok (mkMessageMetadata (mr_id m) (coalesce (mr_worker m)) (mr_plan m) (mr_task m) (mr_role m) occurred).

Definition message_page_rows (v : View) (q : OperatorMessageQuery) : list MessageRow :=
  order_by (λ m, [KInt (mr_id m)]) (filter (λ m, message_in (vw_db v) q m = true ∧ (mq_after q < mr_id m)%Z) (vw_messages v)).

Definition ListOperatorMessages (v : View) (q : OperatorMessageQuery) : result OperatorError (Page OperatorMessageMetadata Z) :=
  try limit := validateOperatorMessageQuery q in
  try _ := readOperatorProject v (mq_project q) in
  try _ := validateOperatorMessageScope (vw_db v) q in
  try _ := validateOperatorMessageCursor v q in
  try items := scan_rows scanOperatorMessages (take (limit + 1) (message_page_rows v q)) in
  Ok (cut_page limit 0%Z om_id items).

(** ** Descriptions *)

Record OperatorTaskDetail := mkTaskDetail { od_plan : string; od_id : string; od_description : string }.

Definition ListOperatorTaskDescriptions (s : DB) (projectID planID : string) (taskIDs : list string)
    : result OperatorError (gmap string string) :=
  if decide (projectID = "" ∨ planID = "") then Err (ErrOperatorInvalidQuery "operator task descriptions require project and plan ids")
  else if decide (taskIDs = []) then Ok ∅
  else if (MaxOperatorPageLimit <? Z.of_nat (length taskIDs))%Z then Err (ErrOperatorInvalidQuery "ids exceed the page limit")
  else Ok (list_to_map ((λ r, (r.1.2, t_description r.2)) <$>
         task_rows s (λ r, in_project s projectID planID && bool_decide (r.1.1 = planID) && bool_decide (r.1.2 ∈ taskIDs)))).

Definition ReadOperatorTaskDetail (s : DB) (projectID planID taskID : string) : result OperatorError OperatorTaskDetail :=
  if decide (projectID = "" ∨ planID = "" ∨ taskID = "") then Err (ErrOperatorInvalidQuery "operator task detail requires project, plan, and task ids")
  else match (if in_project s projectID planID then db_tasks s !! (planID, taskID) else None) with
  | Some t => Ok (mkTaskDetail planID taskID (t_description t))
  | None => Err ErrOperatorTaskDetailNotFound
  end.
End Queries.
