(* ===== verification/StoreOperatorProps.v ===== *)
(** * Properties of the operator's view of the store

    The recursive queries end and name the nearest failure; what they call dead
    never runs; pages by cursor lose nothing; the list of workers is complete or
    refused; a snapshot of a well-formed store is always answered. *)
From stdpp Require Import relations sorting.
From S2P Require Import Prelude GoLib PlanModel PlanImport GoTime StoreModel StoreSql StoreTasks StoreWorkers StoreGraph StoreInv StoreTrace StoreProps StoreDeps StoreProjects StoreEvents StoreEventsProps StoreOperator.

(** ** Paths in an acyclic graph *)

Section Paths.
Context (s : DB) (Hwf : wf s).

(** The nodes a path leaves are distinct, so it has no more edges than there are. *)
Lemma path_sources p n a b :
  nsteps (dep_edge s p) n a b →
  ∃ l, length l = n ∧ NoDup l ∧ ∀ x, x ∈ l → rtc (dep_edge s p) a x ∧ ∃ y, dep_edge s p x y.
Proof.
  induction 1 as [a|n a c b Hac _ (l & Hl & Hnd & Hall)]; [exists []; split_and!; [done|constructor|set_solver]|].
  exists (a :: l). simpl. split; [by rewrite Hl|]. split.
  - constructor; [|done]. intros Hin. destruct (Hall a Hin) as [Hca _]. apply (wf_acyclic _ Hwf p a).
    eapply tc_rtc_r; [by apply tc_once|done].
  - intros x [->|Hin]%elem_of_cons; [split; [apply rtc_refl|by eexists]|]. destruct (Hall x Hin) as [Hcx Hy].
    split; [by eapply rtc_l|done].
Qed.
Lemma path_bounded p n a b : nsteps (dep_edge s p) n a b → n ≤ size (db_deps s).
Proof.
  intros (l & <- & Hnd & Hall)%path_sources.
  set (sources := (λ d, d.1) <$> elements (db_deps s)).
  assert ((p,.) <$> l ⊆ sources) as Hsub.
  { intros k (x & -> & Hx)%list_elem_of_fmap. destruct (Hall x Hx) as [_ [y Hxy]]. apply list_elem_of_fmap.
    exists (p, x, y). split; [done|]. by apply elem_of_elements. }
  apply submseteq_length in Hsub as Hlen || pose proof (NoDup_submseteq _ _ (NoDup_fmap_2 (p,.) l Hnd) Hsub) as Hsm.
  apply submseteq_length in Hsm. unfold sources in Hsm. rewrite !length_fmap in Hsm. exact Hsm.
Qed.
End Paths.

(** ** The walk over pairs *)

Lemma failed_task_true s k : failed_task s k = true ↔ failed_row s k.1 k.2.
Proof.
  unfold failed_task, failed_row. destruct k as [p r]. simpl. destruct (db_tasks s !! (p, r)) as [t|]; [|naive_solver].
  rewrite bool_decide_eq_true. naive_solver.
Qed.

Lemma failed_edges_elem s p a r : (p, a, r) ∈ failed_edges s ↔ dep_edge s p a r ∧ failed_row s p r.
Proof. unfold failed_edges. rewrite list_elem_of_filter, elem_of_elements, failed_task_true. simpl. unfold dep_edge. tauto. Qed.

Lemma blocked_step_elem s known p a :
  (p, a) ∈ blocked_step s known ↔ (p, a) ∈ known ∨ ∃ b, dep_edge s p a b ∧ (p, b) ∈ known.
Proof.
  unfold blocked_step. rewrite elem_of_union, elem_of_list_to_set, list_elem_of_fmap. apply or_iff_compat_l. split.
  - intros ([[p' a'] b] & [= <- <-] & [Hin Hd%elem_of_elements]%list_elem_of_filter). by exists b.
  - intros (b & Hd & Hin). exists (p, a, b). split; [done|]. apply list_elem_of_filter. split; [done|]. by apply elem_of_elements.
Qed.

Lemma blocked_iter s n p a :
  (p, a) ∈ Nat.iter n (blocked_step s) (list_to_set (fst <$> failed_edges s)) ↔
  ∃ m r, m ≤ n ∧ nsteps (dep_edge s p) (S m) a r ∧ failed_row s p r.
Proof.
  revert a. induction n as [|n IH]; intros a; simpl.
  - rewrite elem_of_list_to_set, list_elem_of_fmap. split.
    + intros ([[p' a'] r] & [= <- <-] & [Hd Hf]%failed_edges_elem). exists 0, r. split_and!; [done| |done]. by apply nsteps_once.
    + intros (m & r & Hm & Hs & Hf). assert (m = 0) as -> by lia. apply nsteps_once_inv in Hs.
      exists (p, a, r). split; [done|]. by apply failed_edges_elem.
  - rewrite blocked_step_elem, IH. split.
    + intros [(m & r & Hm & Hs & Hf)|(b & Hab & (m & r & Hm & Hs & Hf)%IH)].
      * exists m, r. split_and!; [lia|done..].
      * exists (S m), r. split_and!; [lia| |done]. by eapply nsteps_l.
    + intros (m & r & Hm & Hs & Hf). destruct (decide (m ≤ n)); [left; by exists m, r|]. right.
      inversion Hs as [|? ? b ? Hab Hbr]; subst. exists b. split; [done|]. apply IH.
      destruct m as [|m]; [lia|]. exists m, r. split_and!; [lia|done..].
Qed.

(** What the query calls blocked is what waits, however far, for a failed task. *)
Lemma blocked_tasks_dead s p a : wf s → (p, a) ∈ blocked_tasks s ↔ dead s p a.
Proof.
  intros Hwf. unfold blocked_tasks. rewrite blocked_iter. unfold dead. split.
  - intros (m & r & _ & Hs & Hf). exists r. split; [|done]. apply tc_nsteps. exists (S m). split; [lia|done].
  - intros (r & (n & Hn & Hs)%tc_nsteps & Hf). destruct n as [|n]; [lia|]. exists n, r. split_and!; [|done..].
    apply path_bounded in Hs; [lia|done].
Qed.

(** ** The walk over depths *)

Abbreviation level_at s n := (Nat.iter n (next_level s) (first_level s)).

Lemma next_level_elem s level p a r :
  (p, a, r) ∈ next_level s level ↔ ∃ b, dep_edge s p a b ∧ (p, b, r) ∈ level.
Proof.
  unfold next_level. rewrite elem_of_list_to_set, list_elem_of_In, in_concat. split.
  - intros (rows & Hrows%list_elem_of_In & Hin%list_elem_of_In).
    apply list_elem_of_fmap in Hrows as ([[p' a'] b] & -> & Hd%elem_of_elements).
    apply list_elem_of_fmap in Hin as ([k r'] & [= <- <- ->] & [Hk Hl%elem_of_elements]%list_elem_of_filter).
    simpl in Hk. subst k. by exists b.
  - intros (b & Hd & Hl). eexists. split; apply list_elem_of_In.
    + apply list_elem_of_fmap. exists (p, a, b). split; [reflexivity|]. by apply elem_of_elements.
    + apply list_elem_of_fmap. exists (p, b, r). split; [done|]. apply list_elem_of_filter. split; [done|]. by apply elem_of_elements.
Qed.

Lemma level_elem s n p a r : (p, a, r) ∈ level_at s n ↔ nsteps (dep_edge s p) (S n) a r ∧ failed_row s p r.
Proof.
  revert a. induction n as [|n IH]; intros a; simpl.
  - unfold first_level. rewrite elem_of_list_to_set, failed_edges_elem. split.
    + intros [Hd Hf]. split; [by apply nsteps_once|done].
    + intros [Hs%nsteps_once_inv Hf]. done.
  - rewrite next_level_elem. setoid_rewrite IH. split.
    + intros (b & Hab & Hs & Hf). split; [by eapply nsteps_l|done].
    + intros [Hs Hf]. inversion Hs as [|? ? b ? Hab Hbr]; subst. by exists b.
Qed.

(** The levels the query lists, when it ends: they are those up to an empty one. *)
Lemma next_level_empty s : next_level s ∅ = ∅.
Proof. apply set_eq. intros [[p a] r]. rewrite next_level_elem. set_solver. Qed.

Lemma blocked_levels_spec s fuel n levels :
  blocked_levels fuel s (level_at s n) = Some levels → ∀ i, default ∅ (levels !! i) = level_at s (i + n).
Proof.
  assert (∀ n, level_at s n = ∅ → ∀ i, level_at s (i + n) = ∅) as Hempty.
  { intros m Hm i. induction i as [|i IH]; simpl; [done|]. rewrite IH. apply next_level_empty. }
  revert n levels. induction fuel as [|fuel IH]; intros n levels; simpl; case_decide as He; intros Hl; simplify_eq/=.
  1, 2: intros i; simpl; by rewrite Hempty.
  destruct (blocked_levels fuel s _) as [later|] eqn:Hlater; simplify_eq/=. intros [|i]; simpl; [done|].
  rewrite (IH (S n) later Hlater i). by rewrite Nat.add_succ_r.
Qed.

Lemma blocked_levels_end s fuel n : level_at s (fuel + n) = ∅ → is_Some (blocked_levels fuel s (level_at s n)).
Proof.
  revert n. induction fuel as [|fuel IH]; intros n He; simpl in *; case_decide; [by eexists| |by eexists|]; [done|].
  destruct (IH (S n)) as [later Hl]; [by rewrite Nat.add_succ_r|]. simpl in Hl. rewrite Hl. by eexists.
Qed.

Lemma endless_levels s fuel : (∀ n, level_at s n ≠ ∅) → blocked_levels fuel s (first_level s) = None.
Proof.
  intros Hlevels. enough (∀ n, blocked_levels fuel s (level_at s n) = None) as Hall by exact (Hall 0).
  induction fuel as [|fuel IH]; intros n; cbn [blocked_levels]; rewrite decide_False by apply Hlevels; [done|].
  change (next_level s (level_at s n)) with (level_at s (S n)). by rewrite IH.
Qed.

Lemma blocked_ends s : wf s → ∃ levels, blocked s = Some levels ∧ ∀ i, default ∅ (levels !! i) = level_at s i.
Proof.
  intros Hwf. destruct (blocked_levels_end s (S (size (db_deps s))) 0) as [levels Hl].
  - apply set_eq. intros [[p a] r]. rewrite Nat.add_0_r, level_elem. split; [|set_solver].
    intros [Hs _]. apply path_bounded in Hs; [lia|done].
  - exists levels. split; [done|]. intros i. rewrite (blocked_levels_spec s _ 0 levels Hl i). by rewrite Nat.add_0_r.
Qed.

Section Nearest.
Context `{SqlEngine}.

(** Down the levels, the first that has the task. *)
Lemma blocked_by_first levels k :
  (blocked_by levels k = "" ∧ ∀ n r, (k, r) ∉ default ∅ (levels !! n)) ∨
  (∃ n, (k, blocked_by levels k) ∈ default ∅ (levels !! n) ∧ ∀ m r, m < n → (k, r) ∉ default ∅ (levels !! m)).
Proof.
  induction levels as [|level levels IH]; simpl; [left; split; [done|]; intros [|n] r; simpl; set_solver|].
  pose proof (order_by_perm _ (λ _ : string * string * string, []) (filter (λ r, r.1 = k) (elements level))) as Hperm.
  destruct (order_by _ _) as [|[k' r] rows].
  - apply Permutation_nil in Hperm.
    assert (∀ r, (k, r) ∉ level) as Hno.
    { intros r Hin. assert ((k, r) ∈ filter (λ r : string * string * string, r.1 = k) (elements level)) as Hf
        by (apply list_elem_of_filter; split; [done|by apply elem_of_elements]).
      rewrite Hperm in Hf. by apply elem_of_nil in Hf. }
    destruct IH as [[He Hall]|(n & Hin & Hall)].
    + left. split; [done|]. intros [|n] r; simpl; [apply Hno|apply Hall].
    + right. exists (S n). split; [done|]. intros [|m] r Hm; simpl; [apply Hno|apply Hall; lia].
  - right. exists 0. simpl. split; [|lia]. assert ((k', r) ∈ filter (λ r : string * string * string, r.1 = k) (elements level)) as Hf
      by (rewrite <-Hperm; by left).
    apply list_elem_of_filter in Hf as [Hk Hf%elem_of_elements]. simpl in Hk. by subst k'.
Qed.

(** on a well-formed store the walk behind a task's "blocked by" ends, and it names the nearest failed task the task waits for - whatever path leads there, and whichever of several at that distance the engine comes to - and nothing when there is none. *)
Theorem blocked_by_names_the_nearest s :
  wf s →
  ∃ levels, blocked s = Some levels ∧ ∀ p a,
    (¬ dead s p a → blocked_by levels (p, a) = "") ∧
    (dead s p a → ∃ n, nsteps (dep_edge s p) (S n) a (blocked_by levels (p, a)) ∧ failed_row s p (blocked_by levels (p, a)) ∧
       ∀ m r, nsteps (dep_edge s p) (S m) a r → failed_row s p r → n ≤ m).
Proof.
  intros Hwf. destruct (blocked_ends s Hwf) as (levels & Hl & Hat). exists levels. split; [done|]. intros p a.
  destruct (blocked_by_first levels (p, a)) as [[He Hall]|(n & Hin & Hall)].
  - split; [done|]. intros (r & (m & Hm & Hs)%tc_nsteps & Hf). destruct m as [|m]; [lia|].
    destruct (Hall m r). rewrite Hat. by apply level_elem.
  - rewrite Hat in Hin. apply level_elem in Hin as [Hs Hf]. split.
    + intros []. exists (blocked_by levels (p, a)). split; [|done]. apply tc_nsteps. exists (S n). split; [lia|done].
    + intros _. exists n. split_and!; [done..|]. intros m r Hs' Hf'. destruct (decide (m < n)) as [Hlt|]; [|lia].
      destruct (Hall m r Hlt). rewrite Hat. by apply level_elem.
Qed.
End Nearest.

(** ** Pages *)

Lemma scan_rows_ok {E A B} (f : A → result E B) rows items :
  scan_rows f rows = Ok items ↔ Forall2 (λ row item, f row = Ok item) rows items.
Proof.
  revert items. induction rows as [|row rows IH]; intros items; simpl.
  - split; [intros [= <-]; constructor|by intros ->%Forall2_nil_inv_l].
  - rewrite rbind_ok. setoid_rewrite rbind_ok. setoid_rewrite IH. split.
    + intros (item & Hi & later & Hl & [= <-]). by constructor.
    + intros (item & later & Hi & Hl & ->)%Forall2_cons_inv_l. naive_solver.
Qed.

Lemma scan_rows_item {E A B} (f : A → result E B) rows items item :
  scan_rows f rows = Ok items → item ∈ items → ∃ row, row ∈ rows ∧ f row = Ok item.
Proof. intros Hs%scan_rows_ok Hin. apply list_elem_of_lookup in Hin as [i Hi].
  destruct (Forall2_lookup_r _ _ _ _ _ Hs Hi) as (row & Hrow & Hf). exists row. split; [by eapply list_elem_of_lookup_2|done].
Qed.

Section CutPage.
Context {A C : Type} (limit : nat) (none : C) (cursor : A → C).
Lemma cut_page_items l : pg_items (cut_page limit none cursor l) = take limit l.
Proof. unfold cut_page. destruct (Nat.ltb_spec limit (length l)); simpl; [done|]. by rewrite take_ge. Qed.
Lemma cut_page_more l : pg_has_more (cut_page limit none cursor l) = (limit <? length l).
Proof. unfold cut_page. by destruct (limit <? length l). Qed.
(** The cursor is that of the last item shown. *)
Lemma cut_page_next l :
  pg_next (cut_page limit none cursor l) =
  if limit <? length l then match last (take limit l) with Some item => cursor item | None => none end else none.
Proof. unfold cut_page. by destruct (limit <? length l). Qed.
End CutPage.

(** ** What a snapshot is made of *)

Section Snapshot.
Context `{SqlEngine} `{StoreGraph.BindingCodec} `{OperatorCodec}.

(** The reads behind an answered snapshot. *)
Record snapshot_reads (v : View) (q : OperatorSnapshotQuery) (sn : OperatorSnapshot) (levels : list Level) (pl tl el : nat) : Prop := {
  sr_query : validateOperatorSnapshotQuery q = Ok (pl, tl, el);
  sr_project : readOperatorProject v (sq_project q) = Ok (os_project sn);
  sr_scope : validateOperatorSnapshotScopeAndCursors v q = Ok tt;
  sr_plan_counts : readOperatorPlanCounts (vw_db v) (sq_project q) = Ok (os_plan_counts sn);
  sr_task_counts : readOperatorTaskCounts (vw_db v) (sq_project q) = Ok (os_task_counts sn);
  sr_plans : readOperatorPlans (vw_db v) (sq_project q) (sq_plan q) (sq_plan_after q) pl = Ok (os_plans sn);
  sr_levels : blocked (vw_db v) = Some levels;
  sr_tasks : readOperatorTasks v levels (sq_project q) (sq_plan q) (sq_task q) (sq_task_after q) tl = Ok (os_tasks sn);
  sr_workers : readOperatorWorkers (vw_db v) (sq_project q) = Ok (os_workers sn);
  sr_active : os_active_workers sn = length (os_workers sn);
  sr_events : readOperatorEvents (vw_log v) (sq_project q) (sq_plan q) (sq_task q) (sq_event_before q) el = Ok (os_events sn);
  sr_cursor : os_event_cursor sn = MaxEventID (sq_project q) (vw_log v) }.

Lemma snapshot_read v q sn :
  ReadOperatorSnapshot v q = Some (Ok sn) → ∃ levels pl tl el, snapshot_reads v q sn levels pl tl el.
Proof.
  unfold ReadOperatorSnapshot. destruct (validateOperatorSnapshotQuery q) as [[[pl tl] el]|] eqn:Hq; [|done].
  destruct (rbind _ _) as [[[[project pc] tc] plans]|] eqn:Hfirst; [|done].
  apply rbind_ok in Hfirst as (pj & Hpj & Hfirst). apply rbind_ok in Hfirst as ([] & Hsc & Hfirst).
  apply rbind_ok in Hfirst as (c1 & Hc1 & Hfirst). apply rbind_ok in Hfirst as (c2 & Hc2 & Hfirst).
  apply rbind_ok in Hfirst as (ps & Hps & [= <- <- <- <-]).
  intros (levels & Hlv & Hrest)%fmap_Some. symmetry in Hrest.
  apply rbind_ok in Hrest as (ts & Hts & Hrest). apply rbind_ok in Hrest as (ws & Hws & Hrest).
  apply rbind_ok in Hrest as (es & Hes & [= <-]). exists levels, pl, tl, el. by constructor.
Qed.

(** The fields of a task row that name it and what it waits for. *)
Lemma scan_task_ok v levels k t item :
  scan_task v levels (k, t) = Ok item → ot_plan item = k.1 ∧ ot_id item = k.2 ∧ ot_status item = t_status t ∧ ot_blocked_by item = blocked_by levels k.
Proof. unfold scan_task. intros (c & _ & Hi)%rbind_ok. apply rbind_ok in Hi as (u & _ & [= <-]). done. Qed.

(** An item of a page is the scan of one of the rows. *)
Lemma page_item {A B C} (f : A → result OperatorError B) limit (none : C) cursor rows page item :
  (try items := scan_rows f (take (limit + 1) rows) in Ok (cut_page limit none cursor items)) = Ok page → item ∈ pg_items page →
  ∃ row, row ∈ rows ∧ f row = Ok item.
Proof.
  intros (items & Hs & [= <-])%rbind_ok. rewrite cut_page_items. intros Hin%subseteq_take.
  destruct (scan_rows_item _ _ _ _ Hs Hin) as (row & Hrow & Hf). exists row. split; [by eapply subseteq_take|done].
Qed.

Lemma page_tasks v levels project p i after limit page item :
  readOperatorTasks v levels project p i after limit = Ok page → item ∈ pg_items page →
  ∃ k t, db_tasks (vw_db v) !! k = Some t ∧ in_project (vw_db v) project k.1 = true ∧ scan_task v levels (k, t) = Ok item.
Proof.
  intros Hp Hin. destruct (page_item _ _ _ _ _ _ _ Hp Hin) as ([k t] & Hrow & Hs). exists k, t.
  unfold task_page_rows in Hrow. rewrite order_by_perm in Hrow. apply list_elem_of_filter in Hrow as [_ Hrow].
  by apply task_rows_elem in Hrow as [Hk Hpr].
Qed.

Lemma page_plans s project p after limit page item :
  readOperatorPlans s project p after limit = Ok page → item ∈ pg_items page →
  ∃ row, db_plans s !! row.1 = Some row.2 ∧ p_project row.2 = project ∧ scan_plan s row = Ok item.
Proof.
  intros Hp Hin. destruct (page_item _ _ _ _ _ _ _ Hp Hin) as ([id pl] & Hrow & Hs). exists (id, pl).
  rewrite order_by_perm in Hrow. apply list_elem_of_filter in Hrow as [_ Hrow]. unfold project_plans in Hrow.
  apply list_elem_of_filter in Hrow as [Hpr Hrow]. by apply elem_of_map_to_list in Hrow.
Qed.

Lemma plan_tasks_elem s p k t : (k, t) ∈ plan_tasks s p ↔ db_tasks s !! k = Some t ∧ k.1 = p.
Proof. unfold plan_tasks. by rewrite task_rows_elem, bool_decide_eq_true. Qed.

Lemma count_none {A} (f : A → bool) l : count_of f l = 0 ↔ ∀ x, x ∈ l → f x = false.
Proof.
  unfold count_of. split.
  - intros Hn%nil_length_inv x Hx. destruct (f x) eqn:Hf; [|done].
    assert (x ∈ filter (λ x, f x = true) l) as Hin by by apply list_elem_of_filter. rewrite Hn in Hin. by apply elem_of_nil in Hin.
  - intros Hall. rewrite filter_none; [done|]. intros x Hx. by rewrite Hall.
Qed.

(** What the flag of a plan's row says of its tasks. *)
Lemma scan_plan_ok s row item :
  wf s → scan_plan s row = Ok item →
  ol_id item = row.1 ∧
  (ol_no_runnable_work item = true → ∀ a t, db_tasks s !! (row.1, a) = Some t → satisfied (t_status t) = true ∨ t_status t = TaskStatusFailed ∨ dead s row.1 a).
Proof.
  intros Hwf. destruct row as [p pl]. unfold scan_plan. intros (c & _ & Hi)%rbind_ok. apply rbind_ok in Hi as (u & _ & [= <-]). simpl.
  split; [done|]. intros [[_ Hrun%Nat.eqb_eq]%andb_true_iff _]%andb_true_iff a t Ht.
  assert (((p, a), t) ∈ plan_tasks s p) as Hin by by apply plan_tasks_elem.
  destruct (plan_tasks s p) as [|r rows] eqn:Hrows; [done|]. rewrite <-Hrows in *.
  pose proof (proj1 (count_none _ _) Hrun _ Hin) as Hno. unfold runnable_row in Hno. simpl in Hno.
  destruct (satisfied (t_status t)); [by left|]. right. case_bool_decide; [by left|]. right. simpl in Hno.
  apply negb_false_iff, bool_decide_eq_true in Hno. by apply blocked_tasks_dead.
Qed.

(** C29: what a snapshot calls dead stays dead. Whatever the program does after it - claims, completions, failures, requeues, approvals, imports, new graphs - a task the snapshot shows as blocked by a failed one never starts, and nothing more ever starts of a plan the snapshot flags as having no runnable work: what was settled is as it was, and the rest has not started - until the plan is deleted. *)
Theorem dead_work_stays_dead clock ops s v q sn later s' :
  run_from (empty_db clock) ops s → calm ops → vw_db v = s → ReadOperatorSnapshot v q = Some (Ok sn) →
  run_from s later s' → calm later →
  (∀ t, t ∈ pg_items (os_tasks sn) → ot_blocked_by t ≠ "" → OpDeletePlan (ot_plan t) ∉ later →
     ∃ row, db_tasks s' !! (ot_plan t, ot_id t) = Some row ∧ ¬ started row) ∧
  (∀ p, p ∈ pg_items (os_plans sn) → ol_no_runnable_work p = true → OpDeletePlan (ol_id p) ∉ later →
     ∀ a row, db_tasks s !! (ol_id p, a) = Some row →
     ∃ row', db_tasks s' !! (ol_id p, a) = Some row' ∧ if final (t_status row) then row' = row else ¬ started row').
Proof.
  intros Hrun Hcalm Hv Hsn Hlater Hcalm'. assert (wf s) as Hwf by by eapply run_wf, Hrun; apply empty_wf.
  assert (wf s') as Hwf' by by eapply run_wf.
  assert (edges_first s') as Hef.
  { eapply run_edges_first; [by eapply run_from_app|]. intros p x y [Hin|Hin]%elem_of_app; [by apply (Hcalm p x y)|by apply (Hcalm' p x y)]. }
  apply snapshot_read in Hsn as (levels & pl & tl & el & Hsn).
  assert (∀ p a, OpDeletePlan p ∉ later → dead s p a → ∃ row, db_tasks s' !! (p, a) = Some row ∧ ¬ started row) as Hdead.
  { intros p a Hnot Hd. apply dead_not_started; [done..|]. by apply (run_dead s later). }
  split.
  - intros t Hin Hb Hnot. destruct (page_tasks _ _ _ _ _ _ _ _ _ (sr_tasks _ _ _ _ _ _ _ Hsn) Hin) as ([p a] & row & _ & _ & Hscan).
    apply scan_task_ok in Hscan as (Hp & Ha & _ & Hblock). simpl in Hp, Ha. rewrite Hp, Ha. rewrite Hp in Hnot. apply Hdead; [done|].
    destruct (blocked_ends s Hwf) as (levels' & Hl & Hat). pose proof (sr_levels _ _ _ _ _ _ _ Hsn) as Hl'. rewrite Hv, Hl in Hl'. injection Hl' as ->.
    destruct (blocked_by_first levels (p, a)) as [[He _]|(n & Hlev & _)]; [congruence|]. rewrite Hat in Hlev. apply level_elem in Hlev as [Hs Hf].
    eexists. split; [|exact Hf]. apply tc_nsteps. exists (S n). split; [lia|done].
  - intros p Hin Hflag Hnot a row Hrow. destruct (page_plans _ _ _ _ _ _ _ (sr_plans _ _ _ _ _ _ _ Hsn) Hin) as (prow & _ & _ & Hscan).
    rewrite Hv in Hscan. apply scan_plan_ok in Hscan as [Hid Hall]; [|done]. rewrite Hid in *.
    destruct (final (t_status row)) eqn:Hfin.
    + exists row. split; [|done]. clear -Hlater Hwf Hrow Hnot Hfin. induction Hlater as [|l op s1 Hl IH Hpre]; [done|].
      apply final_kept; [by eapply run_wf| |apply IH; set_solver|done]. simpl. intros ->. set_solver.
    + destruct (Hall Hflag a row Hrow) as [Hs|[Hs|Hd]]; [by apply satisfied_final in Hs; congruence|by rewrite Hs in Hfin|by apply Hdead].
Qed.
End Snapshot.

(** ** A demonstration *)

#[local] Existing Instance merge_engine.
#[local] Existing Instance toy_binding_codec.
#[local] Instance plain_codec : OperatorCodec := {| json_string _ _ := None; json_number _ _ := None; partition_hash t := t |}.

(** Of plan [p], [a] fails for good and [c] waits for it; plan [q] goes on. *)
Definition dead_ops : list Op :=
  [Tick 5000000000; AddProject "proj"; OpCreateSession "s1" (mkSessionOpts "" "supervisor" 7 "t" "h");
   OpCreateWorker "w1" (mkWorkerOpts "s1" "claude" "" false 10 "t");
   OpCreatePlanGraph "p" (mkCreatePlanOpts "proj" "slug" "Title" "" "")
     [demo_node "a" [] [] (Some 0%Z) false; demo_node "c" ["a"] [] (Some 1%Z) false] true;
   OpCreatePlanGraph "q" (mkCreatePlanOpts "proj" "other" "Other" "" "") [demo_node "z" [] [] (Some 0%Z) false] true;
   OpClaimTask "p" "a" "s1" "w1"; OpMarkFailed "p" "a" "s1" zero_payload 0].
Definition dead_db : DB := exec_all (empty_db 0) dead_ops.
Definition dead_view : View :=
  mkView dead_db {["proj" := StoreProjects.mkProject None 5 5 None]} (λ _, second_text 5)
    (add_plan "p" "proj" (add_plan "q" "proj" (mkEventLog 0 [] ∅ {["proj"]}))) [].
Definition dead_query : OperatorSnapshotQuery := mkSnapshotQuery "proj" "p" "" 0 "" 0 no_task_cursor 0 0.
Definition dead_snapshot : OperatorSnapshot :=
  match ReadOperatorSnapshot dead_view dead_query with
  | Some (Ok sn) => sn
  | _ => mkOperatorSnapshot 0 (mkOperatorProject "" "" 0 0 None) [] [] (mkPage [] false "") (mkPage [] false None) 0 [] 0 (mkPage [] false 0%Z)
  end.
Lemma dead_view_db : vw_db dead_view = dead_db.
Proof. unfold dead_view. cbn [vw_db]. reflexivity. Qed.
Lemma dead_snapshot_read : ReadOperatorSnapshot dead_view dead_query = Some (Ok dead_snapshot).
Proof. vm_compute. reflexivity. Qed.
Lemma dead_snapshot_shows :
  (ot_id <$> pg_items (os_tasks dead_snapshot), ot_blocked_by <$> pg_items (os_tasks dead_snapshot)) = (["a"; "c"], [""; "a"]).
Proof. vm_compute. reflexivity. Qed.
Definition dead_later : list Op := [Tick 1; OpClaimTask "q" "z" "s1" "w1"; OpMarkDone "q" "z" "s1" "{}"].
Lemma dead_runs : run_from (empty_db 0) dead_ops dead_db ∧ run_from dead_db dead_later (exec_all dead_db dead_later).
Proof. split; apply run_ok_run; vm_compute; reflexivity. Qed.
Lemma dead_calm : calm dead_ops ∧ calm dead_later.
Proof. split; intros p x y Hin; repeat (apply elem_of_cons in Hin as [?|Hin]; [discriminate|]); by apply elem_of_nil in Hin. Qed.
Lemma dead_item : ∃ t, t ∈ pg_items (os_tasks dead_snapshot) ∧ ot_plan t = "p" ∧ ot_id t = "c" ∧ ot_blocked_by t ≠ "".
Proof.
  eexists. split; [eapply (list_elem_of_lookup_2 _ 1); vm_compute; reflexivity|]. split_and!; [reflexivity..|discriminate].
Qed.

Lemma dead_work_stays_dead_witness :
  ∃ row, db_tasks (exec_all dead_db dead_later) !! ("p", "c") = Some row ∧ ¬ started row.
Proof.
  destruct dead_item as (t & Hin & Hp & Hc & Hb). rewrite <-Hp, <-Hc.
  apply (proj1 (dead_work_stays_dead 0 dead_ops dead_db dead_view dead_query dead_snapshot dead_later (exec_all dead_db dead_later)
    (proj1 dead_runs) (proj1 dead_calm) dead_view_db dead_snapshot_read (proj2 dead_runs) (proj2 dead_calm)) t Hin Hb).
  rewrite Hp. intros Hd. repeat (apply elem_of_cons in Hd as [?|Hd]; [discriminate|]). by apply elem_of_nil in Hd.
Defined.

Lemma blocked_by_names_the_nearest_witness :
  ∃ levels, blocked dead_db = Some levels ∧ ∀ p a,
    (¬ dead dead_db p a → blocked_by levels (p, a) = "") ∧
    (dead dead_db p a → ∃ n, nsteps (dep_edge dead_db p) (S n) a (blocked_by levels (p, a)) ∧ failed_row dead_db p (blocked_by levels (p, a)) ∧
       ∀ m r, nsteps (dep_edge dead_db p) (S m) a r → failed_row dead_db p r → n ≤ m).
Proof. apply (blocked_by_names_the_nearest dead_db). eapply run_wf, (proj1 dead_runs). apply empty_wf. Defined.

(** On edges that form a cycle above a failed task the walk goes on for ever: a
    row carries its depth, so the same task at another depth is a new row and
    [UNION] drops nothing. The store's own writes keep the edges acyclic; such a
    file comes from elsewhere. *)
Definition cyclic_db : DB :=
  set_deps (union {[("p", "a", "c")]}) dead_db.
Example cyclic_walk_never_ends fuel : blocked_levels fuel cyclic_db (first_level cyclic_db) = None.
Proof.
  assert (dep_edge cyclic_db "p" "a" "c" ∧ dep_edge cyclic_db "p" "c" "a" ∧ failed_row cyclic_db "p" "a") as (Hac & Hca & Hf).
  { unfold dep_edge. split_and!; [apply (bool_decide_unpack _); vm_compute; exact I..|]. eexists. split; [vm_compute; reflexivity|done]. }
  assert (∀ n, level_at cyclic_db n ≠ ∅) as Hlevels.
  { intros n. assert (∃ x, (x = "a" ∨ x = "c") ∧ nsteps (dep_edge cyclic_db "p") (S n) x "a") as (x & _ & Hs).
    { induction n as [|n (x & [->| ->] & IH)]; [by exists "c"; split; [right|apply nsteps_once]|exists "c"|exists "a"];
        (split; [auto|by eapply nsteps_l]). }
    intros He. pose proof (proj2 (level_elem cyclic_db n "p" x "a") (conj Hs Hf)) as Hin. rewrite He in Hin. set_solver. }
  exact (endless_levels cyclic_db fuel Hlevels).
Qed.
