(* ===== verification/OperatorReadProps.v ===== *)
(** * The operator's list of running workers

    [readOperatorWorkers] is complete or refused: within the two bounds it lists
    exactly the running workers of the project, each with exactly the claims it
    holds there; beyond them it fails, whatever rows the engine returned first. *)
From stdpp Require Import sorting.
From S2P Require Import Prelude GoLib GoTime StoreModel StoreSql StoreTasks StoreEvents StoreEventsProps StoreProjects StoreInv StoreTrace StoreProps StoreOperator StoreOperatorProps.

(** ** Stamps of whole seconds *)

Definition good_second (n : Z) : Prop := four_digit_year (n * second_ns) ∧ (n * second_ns ≠ zero_time)%Z.

Lemma parse_second field n : good_second n → parseOperatorTimestamp field (second_text n) = Ok (n * second_ns)%Z.
Proof.
  intros [Hy Hz]. unfold parseOperatorTimestamp, parseDBTimestamp, second_text, FormatRFC3339Nano.
  rewrite chars_of_chars. unfold db_layouts. cbn [first_layout]. rewrite parse_format by done. simpl. by rewrite decide_False.
Qed.

(** ** The row loop without its bounds *)

Abbreviation WorkerRow := ((string * Worker) * option TaskRow)%type.

(** The worker [w] as it is listed with the claims [cs]. *)
Definition claim_of (c : TaskRow) : OperatorWorkerClaim := mkWorkerClaim c.1.1 c.1.2 (t_status c.2).
Definition listed (w : string * Worker) (cs : list TaskRow) : OperatorWorker :=
  mkOperatorWorker w.1 (w_provider w.2) (coalesce (w_model w.2)) (w_native_fanout w.2) (w_status w.2)
    (w_started_at w.2 * second_ns) (w_heartbeat w.2 * second_ns) (claim_of <$> cs).
Definition absorb (ws : list OperatorWorker) (r : WorkerRow) : list OperatorWorker :=
  let ws' := if bool_decide (r.1.1 ∈ ow_id <$> ws) then ws else ws ++ [listed r.1 []] in
  match r.2 with None => ws' | Some c => add_claim r.1.1 c <$> ws' end.
Definition good_row (r : WorkerRow) : Prop := good_second (w_started_at r.1.2) ∧ good_second (w_heartbeat r.1.2).

Lemma absorb_length ws r : length ws ≤ length (absorb ws r).
Proof. unfold absorb. case_bool_decide; destruct (r.2); rewrite ?length_fmap, ?length_app; lia. Qed.
Lemma absorbs_length rows ws : length ws ≤ length (foldl absorb ws rows).
Proof. revert ws. induction rows as [|r rows IH]; intros ws; simpl; [done|]. etrans; [apply absorb_length|apply IH]. Qed.

Definition within (ws : list OperatorWorker) (claims : nat) : bool :=
  (length ws <=? MaxOperatorActiveWorkers) && (claims <=? MaxOperatorActiveClaims).

(** The bounds cut the loop exactly when its result would exceed them. *)
Lemma scan_workers_bounds rows ws n :
  Forall good_row rows → length ws ≤ MaxOperatorActiveWorkers → n ≤ MaxOperatorActiveClaims →
  scan_workers rows ws n =
  let all := foldl absorb ws rows in if within all (n + length (omap snd rows)) then Ok all else Err ErrOperatorSnapshotTooLarge.
Proof.
  unfold within. cbv zeta. revert ws n. induction rows as [|[[id w] c] rows IH]; intros ws n Hgood Hws Hn.
  { simpl. by rewrite (proj2 (Nat.leb_le _ _) Hws), (proj2 (Nat.leb_le _ _)) by lia. }
  apply Forall_cons in Hgood as [[Hst Hhb] Hgood]. simpl in Hst, Hhb.
  assert (new_operator_worker id w = Ok (listed (id, w) [])) as Hnew by (unfold new_operator_worker; by rewrite !parse_second).
  cbn [foldl scan_workers]. unfold absorb at 2 4. cbn [fst snd].
  remember (if bool_decide (id ∈ ow_id <$> ws) then ws else ws ++ [listed (id, w) []]) as ws1 eqn:Hws1.
  assert ((if bool_decide (id ∈ ow_id <$> ws) then Ok ws
           else if length ws =? MaxOperatorActiveWorkers then Err ErrOperatorSnapshotTooLarge
           else try o := new_operator_worker id w in Ok (ws ++ [o]))
          = if length ws1 <=? MaxOperatorActiveWorkers then Ok ws1 else Err ErrOperatorSnapshotTooLarge) as ->.
  { subst ws1. case_bool_decide; [by rewrite (proj2 (Nat.leb_le _ _) Hws)|]. rewrite Hnew, length_app. simpl.
    destruct (Nat.eqb_spec (length ws) MaxOperatorActiveWorkers), (Nat.leb_spec (length ws + 1) MaxOperatorActiveWorkers); done || lia. }
  clear Hws1. destruct (Nat.leb_spec (length ws1) MaxOperatorActiveWorkers) as [Hle|Hgt]; cbn [rbind].
  - destruct c as [c|]; [|by apply IH]. change (length (omap snd ((id, w, Some c) :: rows))) with (S (length (omap snd rows))).
    destruct (Nat.eqb_spec n MaxOperatorActiveClaims).
    + by rewrite (proj2 (Nat.leb_gt (n + S _) _)), andb_false_r by lia.
    + rewrite IH by (rewrite ?length_fmap; first [done|lia]). by rewrite Nat.add_succ_r.
  - pose proof (absorbs_length rows (match c with Some c => add_claim id c <$> ws1 | None => ws1 end)) as Ha.
    rewrite (proj2 (Nat.leb_gt (length (foldl absorb _ _)) _)); [done|]. destruct c; rewrite ?length_fmap in Ha; lia.
Qed.

(** The claims the rows give a worker. *)
Definition row_claims (id : string) (rows : list WorkerRow) : list TaskRow :=
  omap (λ r, if decide (r.1.1 = id) then r.2 else None) rows.

Lemma row_claims_app id l1 l2 : row_claims id (l1 ++ l2) = row_claims id l1 ++ row_claims id l2.
Proof. apply omap_app. Qed.
Lemma row_claims_same id l : (∀ r, r ∈ l → r.1.1 = id) → row_claims id l = omap snd l.
Proof.
  induction l as [|[[i w] c] l IH]; intros Hall; [done|]. unfold row_claims in *. simpl.
  rewrite decide_True by apply (Hall (i, w, c) (list_elem_of_here _ _)). destruct c; [f_equal|]; apply IH; set_solver.
Qed.
Lemma row_claims_other id l : (∀ r, r ∈ l → r.1.1 ≠ id) → row_claims id l = [].
Proof.
  induction l as [|[[i w] c] l IH]; intros Hall; [done|]. unfold row_claims in *. simpl.
  rewrite decide_False by apply (Hall (i, w, c) (list_elem_of_here _ _)). apply IH. set_solver.
Qed.

Section Absorbed.
Context (db : gmap string Worker).

Record absorbed (rows : list WorkerRow) (ws : list OperatorWorker) : Prop := {
  ab_nodup : NoDup (ow_id <$> ws);
  ab_covers : ∀ r, r ∈ rows → r.1.1 ∈ ow_id <$> ws;
  ab_exact : ∀ o, o ∈ ws → ∃ w, db !! ow_id o = Some w ∧ ow_id o ∈ (λ r, r.1.1) <$> rows ∧ o = listed (ow_id o, w) (row_claims (ow_id o) rows) }.

Lemma add_claim_id id c o : ow_id (add_claim id c o) = ow_id o.
Proof. unfold add_claim. by case_decide. Qed.

Lemma absorb_ids ws r : ow_id <$> absorb ws r = if bool_decide (r.1.1 ∈ ow_id <$> ws) then ow_id <$> ws else (ow_id <$> ws) ++ [r.1.1].
Proof.
  assert (∀ id c (l : list OperatorWorker), ow_id <$> (add_claim id c <$> l) = ow_id <$> l) as Hadd.
  { intros id c l. rewrite <-list_fmap_compose. apply list_fmap_ext. intros i x _. apply add_claim_id. }
  unfold absorb. case_bool_decide; destruct (r.2); rewrite ?Hadd, ?fmap_app; done.
Qed.

Lemma row_claims_snoc id rows r :
  row_claims id (rows ++ [r]) = row_claims id rows ++ (if decide (r.1.1 = id) then match r.2 with Some c => [c] | None => [] end else []).
Proof. rewrite row_claims_app. f_equal. unfold row_claims. simpl. case_decide; [|done]. by destruct (r.2). Qed.

Lemma absorbed_step rows ws r : db !! r.1.1 = Some r.1.2 → absorbed rows ws → absorbed (rows ++ [r]) (absorb ws r).
Proof.
  intros Hr [Hnd Hcov Hex]. constructor.
  - rewrite absorb_ids. case_bool_decide; [done|]. apply NoDup_app. split_and!; [done|set_solver|apply NoDup_singleton].
  - rewrite absorb_ids. intros x [Hx| ->%list_elem_of_singleton]%elem_of_app; case_bool_decide; set_solver.
  - set (ws1 := if bool_decide (r.1.1 ∈ ow_id <$> ws) then ws else ws ++ [listed r.1 []]).
    assert (∀ o, o ∈ ws1 → ∃ w, db !! ow_id o = Some w ∧ ow_id o ∈ (λ r, r.1.1) <$> (rows ++ [r]) ∧ o = listed (ow_id o, w) (row_claims (ow_id o) rows)) as Hws1.
    { intros o Ho. rewrite fmap_app. unfold ws1 in Ho. case_bool_decide as Hin; [|apply elem_of_app in Ho as [Ho|Ho]].
      1, 2: destruct (Hex o Ho) as (w & Hw & Hid & Heq); exists w; split_and!; [done|set_solver|done].
      apply list_elem_of_singleton in Ho as ->. exists r.1.2. simpl. split_and!; [done|set_solver|].
      destruct r as [[id w] c]. simpl in *. rewrite row_claims_other; [done|]. intros x Hx <-. by apply Hin, Hcov. }
    intros o Ho. assert (∃ o1, o1 ∈ ws1 ∧ o = match r.2 with Some c => add_claim r.1.1 c o1 | None => o1 end) as (o1 & Ho1 & ->).
    { unfold absorb in Ho. fold ws1 in Ho. destruct (r.2); [|by exists o]. apply list_elem_of_fmap in Ho as (o1 & -> & Ho1). by exists o1. }
    destruct (Hws1 o1 Ho1) as (w & Hw & Hid & Heq). exists w.
    assert (ow_id (match r.2 with Some c => add_claim r.1.1 c o1 | None => o1 end) = ow_id o1) as Hsame by (destruct (r.2); [apply add_claim_id|done]).
    rewrite Hsame. split_and!; [done..|]. rewrite row_claims_snoc. destruct (r.2) as [c|].
    + unfold add_claim. rewrite (decide_ext (ow_id o1 = r.1.1) (r.1.1 = ow_id o1)) by done. case_decide; [|by rewrite app_nil_r].
      rewrite Heq at 1 2 3 4 5 6 7 8. unfold listed. simpl. by rewrite fmap_app.
    + by destruct (decide _); rewrite app_nil_r.
Qed.

Lemma absorbed_all rows : (∀ r, r ∈ rows → db !! r.1.1 = Some r.1.2) → absorbed rows (foldl absorb [] rows).
Proof.
  induction rows as [|r rows IH] using rev_ind; intros Hrows.
  - constructor; [constructor|set_solver|set_solver].
  - rewrite foldl_snoc. apply absorbed_step; [apply Hrows; set_solver|]. apply IH. intros x Hx. apply Hrows. set_solver.
Qed.
End Absorbed.

(** ** The query's rows *)

Lemma map_in_row s project w : w ∈ project_workers s project → db_workers s !! w.1 = Some w.2.
Proof. unfold project_workers. intros [_ Hw]%list_elem_of_filter. destruct w as [id w]. by apply elem_of_map_to_list in Hw. Qed.

Lemma project_workers_ids s project : NoDup ((project_workers s project).*1).
Proof.
  apply NoDup_fmap_2_strong; [|apply NoDup_filter, NoDup_map_to_list].
  intros [i1 w1] [i2 w2] H1%map_in_row H2%map_in_row. simpl in *. intros ->. congruence.
Qed.

Section Rows.
Context (claims : string → list TaskRow).

(** [with_claims] over a list of workers. *)
Definition joined (w : string * Worker) : list WorkerRow := match claims w.1 with [] => [(w, None)] | cs => (λ c, (w, Some c)) <$> cs end.

Lemma joined_worker w r : r ∈ joined w → r.1 = w.
Proof. unfold joined. destruct (claims w.1) as [|c cs]; [by intros ->%list_elem_of_singleton|]. by intros (x & -> & _)%list_elem_of_fmap. Qed.
Lemma joined_some w : ∃ r, r ∈ joined w.
Proof. unfold joined. destruct (claims w.1) as [|c cs]; eexists; [by apply list_elem_of_singleton|]. by left. Qed.
Lemma joined_claims w : omap snd (joined w) = claims w.1.
Proof.
  unfold joined. destruct (claims w.1) as [|c cs] eqn:Hc; [done|]. clear. generalize (c :: cs). intros l.
  induction l as [|x l IH]; [done|]. simpl. f_equal. exact IH.
Qed.
Lemma joined_size w : length (joined w) ≤ 1 + length (claims w.1).
Proof. unfold joined. destruct (claims w.1); [done|]. rewrite length_fmap. lia. Qed.

Lemma rows_of ws :
  (∀ r, r ∈ concat (joined <$> ws) → r.1 ∈ ws) ∧ (∀ w, w ∈ ws → ∃ r, r ∈ concat (joined <$> ws) ∧ r.1 = w) ∧
  length (omap snd (concat (joined <$> ws))) = sum_list ((λ w, length (claims w.1)) <$> ws) ∧
  length (concat (joined <$> ws)) ≤ length ws + sum_list ((λ w, length (claims w.1)) <$> ws).
Proof.
  induction ws as [|w ws (Hin & Hcov & Hsum & Hlen)]; simpl; [split_and!; [set_solver..|done|done]|]. split_and!.
  - intros r [->%joined_worker|Hr]%elem_of_app; [by left|]. right. by apply Hin.
  - intros x [->|Hx]%elem_of_cons.
    + destruct (joined_some w) as [r Hr]. exists r. split; [set_solver|by apply joined_worker].
    + destruct (Hcov x Hx) as (r & Hr & <-). exists r. split; [set_solver|done].
  - change (length (omap snd (joined w ++ concat (joined <$> ws))) = length (claims w.1) + sum_list ((λ w, length (claims w.1)) <$> ws)).
    by rewrite omap_app, length_app, joined_claims, <-Hsum.
  - rewrite length_app. pose proof (joined_size w).
    unfold fmap in Hlen. lia.
Qed.

Lemma rows_claims ws w : NoDup (ws.*1) → w ∈ ws → row_claims w.1 (concat (joined <$> ws)) = claims w.1.
Proof.
  induction ws as [|x ws IH]; cbn [fmap list_fmap concat]; [set_solver|]. intros [Hx Hnd]%NoDup_cons Hw.
  rewrite row_claims_app. apply elem_of_cons in Hw as [->|Hw].
  - rewrite row_claims_same by (by intros r ->%joined_worker). rewrite joined_claims, row_claims_other; [by rewrite app_nil_r|].
    intros r Hr Heq. apply rows_of in Hr. apply Hx. rewrite <-Heq. by apply list_elem_of_fmap_2.
  - rewrite row_claims_other; [by apply IH|]. intros r ->%joined_worker Heq. apply Hx. rewrite Heq. by apply list_elem_of_fmap_2.
Qed.
End Rows.

(** ** Complete or refused *)

Section Workers.
Context `{SqlEngine}.

Abbreviation held s project w := (claims_of w.1 (project_claims s project)).
Definition held_claims (s : DB) (project : string) : nat :=
  sum_list ((λ w, length (held s project w)) <$> project_workers s project).
Definition fits (s : DB) (project : string) : bool :=
  (length (project_workers s project) <=? MaxOperatorActiveWorkers) && (held_claims s project <=? MaxOperatorActiveClaims).

Lemma all_rows s project :
  let rows := order_by worker_row_key (concat (with_claims s project <$> project_workers s project)) in
  let all := foldl absorb [] rows in
  all ≡ₚ (λ w, listed w (row_claims w.1 rows)) <$> project_workers s project ∧
  (∀ w, w ∈ project_workers s project → row_claims w.1 rows ≡ₚ held s project w) ∧
  length (omap snd rows) = held_claims s project ∧
  length rows ≤ length (project_workers s project) + held_claims s project ∧
  ∀ r, r ∈ rows → r.1 ∈ project_workers s project.
Proof.
  cbv zeta. change (with_claims s project) with (joined (λ id, claims_of id (project_claims s project))).
  set (W := project_workers s project). set (base := concat _).
  pose proof (order_by_perm _ worker_row_key base) as Hperm. set (rows := order_by _ base) in *.
  destruct (rows_of (λ id, claims_of id (project_claims s project)) W) as (Hin & Hcov & Hsum & Hlen). fold base in Hin, Hcov, Hsum, Hlen.
  assert (∀ r, r ∈ rows → r.1 ∈ W) as Hrows by (intros r; rewrite Hperm; apply Hin).
  assert (∀ w, w ∈ W → row_claims w.1 rows ≡ₚ held s project w) as Hclaims.
  { intros w Hw. etrans; [by apply omap_Permutation|]. fold (row_claims w.1 base). unfold base.
    by rewrite (rows_claims (λ id, claims_of id (project_claims s project))) by (done || apply project_workers_ids). }
  split_and!; [|done|by rewrite Hperm|by rewrite Hperm|done].
  destruct (absorbed_all (db_workers s) rows) as [Hnd Hab Hex]; [by intros r Hr%Hrows%map_in_row|].
  apply NoDup_Permutation.
  - by apply NoDup_fmap_1 in Hnd.
  - apply (NoDup_fmap_1 ow_id). rewrite <-list_fmap_compose. apply project_workers_ids.
  - intros o. rewrite list_elem_of_fmap. split.
    + intros Ho. destruct (Hex o Ho) as (w & Hw & (r & Hid & Hr)%list_elem_of_fmap & Heq). exists r.1.
      pose proof (map_in_row _ _ _ (Hrows r Hr)) as Hdb. split; [|by apply Hrows]. destruct r as [[id w'] c]. simpl in *. subst id. congruence.
    + intros (w & -> & Hw). destruct (Hcov w Hw) as (r & Hr & Hrw). rewrite <-Hperm in Hr. fold rows in Hr.
      apply Hab in Hr. rewrite Hrw in Hr. apply list_elem_of_fmap in Hr as (o & Hid & Ho).
      destruct (Hex o Ho) as (w' & Hw' & _ & Heq). pose proof (map_in_row _ _ _ Hw) as Hdb. rewrite <-Hid, Hdb in Hw'. injection Hw' as <-.
      assert (listed w (row_claims w.1 rows) = o) as ->; [|done]. rewrite Heq, <-Hid. by destruct w.
Qed.

Lemma workers_run s project :
  (∀ w, w ∈ project_workers s project → good_second (w_started_at w.2) ∧ good_second (w_heartbeat w.2)) →
  readOperatorWorkers s project =
  if fits s project then Ok (foldl absorb [] (order_by worker_row_key (concat (with_claims s project <$> project_workers s project))))
  else Err ErrOperatorSnapshotTooLarge.
Proof.
  intros Hgood. unfold readOperatorWorkers, worker_rows.
  destruct (all_rows s project) as (Hall & Hclaims & Hsum & Hlen & Hin). set (rows := order_by _ _) in *. clearbody rows.
  pose proof (scan_workers_bounds (take max_worker_rows rows) [] 0) as Hscan. cbv zeta in Hscan.
  rewrite Hscan; [clear Hscan|apply Forall_forall; intros r Hr%subseteq_take; by apply Hgood, Hin|simpl; lia|lia].
  unfold fits. destruct (decide (length rows < max_worker_rows)) as [Hfew|Hmany].
  - rewrite take_ge by lia. rewrite (proj2 (Nat.eqb_neq _ _)) by lia. unfold within. rewrite Hsum.
    assert (length (foldl absorb [] rows) = length (project_workers s project)) as -> by (rewrite Hall; by rewrite length_fmap).
    simpl. by destruct (_ && _).
  - rewrite length_take. rewrite (proj2 (Nat.eqb_eq _ _)) by lia.
    destruct (Nat.leb_spec (length (project_workers s project)) MaxOperatorActiveWorkers), (Nat.leb_spec (held_claims s project) MaxOperatorActiveClaims);
      simpl; [unfold max_worker_rows in Hmany; lia|by destruct (within _ _)..].
Qed.

(** the list of running workers is complete or refused. Within the two bounds it has each running worker assigned to the project or holding one of its tasks exactly once, with exactly the claims it holds there; one worker or one claim more and the snapshot fails as too large - it is never cut short, however the engine orders the rows. *)
Theorem workers_are_complete_or_refused s project :
  (∀ w, w ∈ project_workers s project → good_second (w_started_at w.2) ∧ good_second (w_heartbeat w.2)) →
  if fits s project
  then ∃ ws order, readOperatorWorkers s project = Ok ws ∧ ws ≡ₚ (λ w, listed w (order w)) <$> project_workers s project ∧
    ∀ w, w ∈ project_workers s project → order w ≡ₚ claims_of w.1 (project_claims s project)
  else readOperatorWorkers s project = Err ErrOperatorSnapshotTooLarge.
Proof.
  intros Hgood. pose proof (workers_run s project Hgood) as Hrun. destruct (fits s project); [|done].
  destruct (all_rows s project) as (Hall & Hclaims & _). eexists _, _. split; [exact Hrun|]. by split; [exact Hall|].
Qed.
End Workers.

(** ** A demonstration *)

Lemma workers_are_complete_or_refused_witness :
  ∃ ws order, readOperatorWorkers (H:=merge_engine) demo_running "proj" = Ok ws ∧
    ws ≡ₚ (λ w, listed w (order w)) <$> project_workers demo_running "proj" ∧
    ∀ w, w ∈ project_workers demo_running "proj" → order w ≡ₚ claims_of w.1 (project_claims demo_running "proj").
Proof.
  assert (fits demo_running "proj" = true) as Hfits by (vm_compute; reflexivity).
  pose proof (workers_are_complete_or_refused (H:=merge_engine) demo_running "proj") as Hok. rewrite Hfits in Hok. apply Hok.
  assert (forallb (λ w, bool_decide (w_started_at w.2 = 5 ∧ w_heartbeat w.2 = 5)%Z) (project_workers demo_running "proj") = true) as Hall
    by (vm_compute; reflexivity).
  rewrite forallb_forall in Hall. intros w Hw. apply list_elem_of_In, Hall, bool_decide_eq_true in Hw as [Hst Hhb]. rewrite Hst, Hhb.
  split; (split; [split; [discriminate|reflexivity]|discriminate]).
Defined.

(** * Reading a sound store

    What the operator's queries need of a store to answer ([view_ok]), that they
    then answer or refuse for a reason the request gave, and the shape of what
    they answer. *)

(** ** A sound store *)

Definition readable (text : string) : Prop := parseDBTimestamp text ≠ zero_time.

(** The store's invariant, the log's, the one [plans] table behind both, ids that
    no client can leave empty, and columns that hold times. *)
Record view_ok (v : View) : Prop := {
  vo_wf : wf (vw_db v);
  vo_log : log_ok (vw_log v);
  vo_plans : ∀ p, lg_plans (vw_log v) !! p = p_project <$> db_plans (vw_db v) !! p;
  vo_plan_ids : db_plans (vw_db v) !! "" = None;
  vo_task_ids : ∀ p, db_tasks (vw_db v) !! (p, "") = None;
  vo_worker_ids : db_workers (vw_db v) !! "" = None;
  vo_project_times : ∀ id p, vw_projects v !! id = Some p →
    good_second (pj_created p) ∧ good_second (pj_updated p) ∧ ∀ at_, pj_seen p = Some at_ → good_second at_;
  vo_plan_times : ∀ id p, db_plans (vw_db v) !! id = Some p → good_second (p_created_at p) ∧ readable (p_updated_at p);
  vo_task_times : ∀ k t, db_tasks (vw_db v) !! k = Some t → good_second (t_created_at t) ∧ readable (vw_updated v k);
  vo_worker_times : ∀ id w, db_workers (vw_db v) !! id = Some w → good_second (w_started_at w) ∧ good_second (w_heartbeat w);
  vo_event_times : ∀ r, r ∈ lg_rows (vw_log v) → good_second (lr_occurred r) }.

(** Looking at every row decides it for a given store, its invariants apart. *)
#[export] Instance good_second_dec n : Decision (good_second n).
Proof. unfold good_second, four_digit_year. apply _. Defined.
#[export] Instance readable_dec text : Decision (readable text).
Proof. unfold readable. apply _. Defined.
Definition rows_ok (v : View) : bool :=
  let s := vw_db v in
  bool_decide (db_plans s !! "" = None) && bool_decide (map_Forall (λ k _, k.2 ≠ "") (db_tasks s)) && bool_decide (db_workers s !! "" = None) &&
  bool_decide (map_Forall (λ _ p, good_second (pj_created p) ∧ good_second (pj_updated p) ∧ good_second (default 0%Z (pj_seen p))) (vw_projects v)) &&
  bool_decide (map_Forall (λ _ p, good_second (p_created_at p) ∧ readable (p_updated_at p)) (db_plans s)) &&
  bool_decide (map_Forall (λ k t, good_second (t_created_at t) ∧ readable (vw_updated v k)) (db_tasks s)) &&
  bool_decide (map_Forall (λ _ w, good_second (w_started_at w) ∧ good_second (w_heartbeat w)) (db_workers s)) &&
  bool_decide (Forall (λ r, good_second (lr_occurred r)) (lg_rows (vw_log v))) && bool_decide (lg_plans (vw_log v) = p_project <$> db_plans s).
Lemma view_checked v : wf (vw_db v) → log_ok (vw_log v) → rows_ok v = true → view_ok v.
Proof.
  unfold rows_ok. cbv zeta. rewrite !andb_true_iff, !bool_decide_eq_true, Forall_forall.
  intros Hwf Hlog ((((((((Hpl & Htk) & Hwk) & Hpj) & Hpt) & Htt) & Hwt) & Het) & Hlg). constructor; try done.
  - intros p. by rewrite Hlg, lookup_fmap.
  - intros p. destruct (db_tasks (vw_db v) !! (p, "")) as [t|] eqn:Hk; [|done]. by destruct (Htk _ _ Hk).
  - intros id p Hp. destruct (Hpj id p Hp) as (Hc & Hu & Hs). split_and!; [done..|]. by intros at_ Hat; rewrite Hat in Hs.
Qed.

(** The errors a request gives the reason for. *)
Definition query_error (e : OperatorError) : bool :=
  match e with
  | ErrOperatorInvalidQuery _ | ErrOperatorInvalidCursor _ | ErrOperatorProjectNotFound | ErrOperatorPlanNotFound | ErrOperatorTaskNotFound => true
  | _ => false
  end.
Definition only_query_errors {A} (r : result OperatorError A) : Prop := ∀ e, r = Err e → query_error e = true.

Lemma queries_bind {A B} (r : result OperatorError A) (f : A → result OperatorError B) :
  only_query_errors r → (∀ a, only_query_errors (f a)) → only_query_errors (rbind r f).
Proof. intros Hr Hf. destruct r as [a|e]; simpl; [apply Hf|]. intros e' [= <-]. by apply Hr. Qed.
Lemma queries_unless asked holds e : query_error e = true → only_query_errors (unless asked holds e).
Proof. intros He e'. unfold unless. by destruct (asked && negb holds); intros [= <-]. Qed.
Lemma queries_limit name value d m : only_query_errors (normalizeOperatorLimit name value d m).
Proof. intros e. unfold normalizeOperatorLimit. repeat case_match; by intros [= <-]. Qed.
#[local] Hint Resolve queries_limit : core.

Lemma validate_query_errors q : only_query_errors (validateOperatorSnapshotQuery q).
Proof.
  unfold validateOperatorSnapshotQuery. cbv zeta. repeat (case_decide; [by intros e [= <-]|] || (case_match; [by intros e [= <-]|])).
  do 3 (apply queries_bind; [done|intros ?]). by intros e.
Qed.
Lemma validate_scope_errors v q : only_query_errors (validateOperatorSnapshotScopeAndCursors v q).
Proof.
  unfold validateOperatorSnapshotScopeAndCursors. cbv zeta.
  do 4 (apply queries_bind; [by apply queries_unless|intros _]). by apply queries_unless.
Qed.

(** ** The reads answer *)

Lemma scan_rows_answers {E A B} (f : A → result E B) rows :
  (∀ row, row ∈ rows → ∃ item, f row = Ok item) → ∃ items, scan_rows f rows = Ok items.
Proof.
  induction rows as [|row rows IH]; intros Hall; [by eexists|]. simpl.
  destruct (Hall row) as [item ->]; [by left|]. destruct IH as [items ->]; [|by eexists]. intros x Hx. apply Hall. by right.
Qed.

Lemma parse_readable field text : readable text → ∃ t, parseOperatorTimestamp field text = Ok t.
Proof. intros Hr. unfold parseOperatorTimestamp. rewrite decide_False by done. by eexists. Qed.

Section Reads.
Context `{SqlEngine} `{StoreGraph.BindingCodec} `{OperatorCodec}.

Lemma read_project v id : view_ok v → only_query_errors (readOperatorProject v id).
Proof.
  intros Hv. unfold readOperatorProject. destruct (vw_projects v !! id) as [p|] eqn:Hp; [|by intros e [= <-]].
  destruct (vo_project_times v Hv id p Hp) as (Hc & Hu & Hs). rewrite !parse_second by done. cbn [rbind].
  destruct (pj_seen p) as [at_|]; [|done]. rewrite parse_second by by apply Hs. done.
Qed.
Lemma project_found v id p : readOperatorProject v id = Ok p → oj_id p = id.
Proof.
  unfold readOperatorProject. destruct (vw_projects v !! id); [|done].
  intros (c & _ & Hr)%rbind_ok. apply rbind_ok in Hr as (u & _ & Hr). destruct (pj_seen _); [|by injection Hr as <-].
  by apply rbind_ok in Hr as (s & _ & [= <-]).
Qed.

(** No status column has more values than there are statuses. *)
Lemma groups_bounded names statuses :
  (∀ st, st ∈ statuses → st ∈ names) → length names ≤ maxOperatorStatusKinds → scanOperatorStatusCounts (status_groups statuses) = Ok (status_groups statuses).
Proof.
  intros Hin Hlen. unfold scanOperatorStatusCounts. rewrite (proj2 (Nat.ltb_ge _ _)); [done|]. unfold status_groups.
  rewrite length_fmap. rewrite (Permutation_length (order_by_perm _ _ _)). etrans; [|exact Hlen].
  apply submseteq_length, NoDup_submseteq; [apply NoDup_remove_dups|]. intros st Hst. apply Hin. exact (proj1 (elem_of_remove_dups _ _) Hst).
Qed.
Lemma plan_counts_read s project : ∃ cs, readOperatorPlanCounts s project = Ok cs.
Proof.
  eexists. apply groups_bounded with (plan_status_text <$> [PlanStatusDraft; PlanStatusActive; PlanStatusPaused; PlanStatusDone;
    PlanStatusFailedPartial; PlanStatusArchived; PlanStatusAbandoned]); [|by vm_compute; lia].
  intros st (r & -> & _)%list_elem_of_fmap. apply list_elem_of_fmap_2. destruct (p_status r.2); set_solver.
Qed.
Lemma task_counts_read s project : ∃ cs, readOperatorTaskCounts s project = Ok cs.
Proof.
  eexists. apply groups_bounded with (task_status_text <$> [TaskStatusPending; TaskStatusReady; TaskStatusReadyPendingApproval; TaskStatusBlocked;
    TaskStatusRunning; TaskStatusDone; TaskStatusFailed; TaskStatusSkipped; TaskStatusDecomposed; TaskStatusBlockedCapability; TaskStatusBlockedInput]); [|by vm_compute; lia].
  intros st (r & -> & _)%list_elem_of_fmap. apply list_elem_of_fmap_2. destruct (t_status r.2); set_solver.
Qed.

(** The rows a page is cut from. *)
Lemma plan_row_in s project p after limit row :
  row ∈ take limit (order_by (λ r : string * Plan, [KText r.1]) (filter (λ r, optionally p r.1 = true ∧ (after = "" ∨ text_lt after r.1 = true)) (project_plans s project))) →
  db_plans s !! row.1 = Some row.2 ∧ optionally p row.1 = true.
Proof.
  intros Hrow%subseteq_take. rewrite order_by_perm in Hrow. apply list_elem_of_filter in Hrow as [[Ho _] Hrow].
  unfold project_plans in Hrow. apply list_elem_of_filter in Hrow as [_ Hrow]. destruct row. by apply elem_of_map_to_list in Hrow.
Qed.
Lemma task_row_in s project p i after limit row :
  row ∈ take limit (task_page_rows s project p i after) →
  db_tasks s !! row.1 = Some row.2 ∧ optionally p row.1.1 = true ∧ optionally i row.1.2 = true.
Proof.
  intros Hrow%subseteq_take. unfold task_page_rows in Hrow. rewrite order_by_perm in Hrow.
  apply list_elem_of_filter in Hrow as [(Hp & Hi & _) Hrow]. destruct row. by apply task_rows_elem in Hrow as [Hk _].
Qed.
Lemma event_row_in l project p i before limit r :
  r ∈ take limit (event_page_rows l project p i before) → r ∈ lg_rows l ∧ event_in l project p i r = true.
Proof.
  intros Hr%subseteq_take. unfold event_page_rows in Hr. rewrite order_by_perm in Hr. by apply list_elem_of_filter in Hr as [[Hin _] Hr].
Qed.

Lemma plans_read v project p after limit : view_ok v → ∃ page, readOperatorPlans (vw_db v) project p after limit = Ok page.
Proof.
  intros Hv. unfold readOperatorPlans. edestruct (scan_rows_answers (scan_plan (vw_db v))) as [items Hi]; [|rewrite Hi; by eexists].
  intros [id pl] [Hpl _]%plan_row_in. simpl in Hpl. destruct (vo_plan_times v Hv id pl Hpl) as [Hc Hu].
  unfold scan_plan. rewrite parse_second by done. cbn [rbind]. destruct (parse_readable "plan.updated_at" _ Hu) as [u ->]. by eexists.
Qed.
Lemma tasks_read v levels project p i after limit : view_ok v → ∃ page, readOperatorTasks v levels project p i after limit = Ok page.
Proof.
  intros Hv. unfold readOperatorTasks. edestruct (scan_rows_answers (scan_task v levels)) as [items Hi]; [|rewrite Hi; by eexists].
  intros [k t] [Hk _]%task_row_in. simpl in Hk. destruct (vo_task_times v Hv k t Hk) as [Hc Hu].
  unfold scan_task. rewrite parse_second by done. cbn [rbind]. destruct (parse_readable "task.updated_at" _ Hu) as [u ->]. by eexists.
Qed.
Lemma events_read v project p i before limit : view_ok v → ∃ page, readOperatorEvents (vw_log v) project p i before limit = Ok page.
Proof.
  intros Hv. unfold readOperatorEvents. edestruct (scan_rows_answers (scan_event (vw_log v) project)) as [items Hi]; [|rewrite Hi; by eexists].
  intros r [Hr _]%event_row_in. unfold scan_event. rewrite parse_second by by apply (vo_event_times v Hv). by eexists.
Qed.
Lemma workers_read v project : view_ok v →
  readOperatorWorkers (vw_db v) project =
  if fits (vw_db v) project then Ok (foldl absorb [] (order_by worker_row_key (concat (with_claims (vw_db v) project <$> project_workers (vw_db v) project))))
  else Err ErrOperatorSnapshotTooLarge.
Proof. intros Hv. apply workers_run. intros w Hw%map_in_row. by eapply vo_worker_times. Qed.

(** A sound store answers every request, or refuses it for a reason of the
    request's own, or because the project has more running than a list holds. *)
Lemma snapshot_answered v q :
  view_ok v → ∃ r, ReadOperatorSnapshot v q = Some r ∧
    ∀ e, r = Err e → query_error e = true ∨ e = ErrOperatorSnapshotTooLarge ∧ fits (vw_db v) (sq_project q) = false.
Proof.
  intros Hv. unfold ReadOperatorSnapshot. pose proof (validate_query_errors q) as Hq.
  destruct (validateOperatorSnapshotQuery q) as [[[pl tl] el]|e]; [|eexists; split; [done|]; intros ? [= <-]; left; by apply Hq].
  pose proof (read_project v (sq_project q) Hv) as Hp. destruct (readOperatorProject v (sq_project q)) as [pj|e]; cbn [rbind];
    [|eexists; split; [done|]; intros ? [= <-]; left; by apply Hp].
  pose proof (validate_scope_errors v q) as Hs. destruct (validateOperatorSnapshotScopeAndCursors v q) as [[]|e]; cbn [rbind];
    [|eexists; split; [done|]; intros ? [= <-]; left; by apply Hs].
  destruct (plan_counts_read (vw_db v) (sq_project q)) as [pc ->], (task_counts_read (vw_db v) (sq_project q)) as [tc ->]. cbn [rbind].
  destruct (plans_read v (sq_project q) (sq_plan q) (sq_plan_after q) pl Hv) as [plans ->]. cbn [rbind].
  destruct (blocked_ends (vw_db v) (vo_wf v Hv)) as (levels & -> & _). cbn [fmap option_fmap option_map].
  destruct (tasks_read v levels (sq_project q) (sq_plan q) (sq_task q) (sq_task_after q) tl Hv) as [tasks ->]. cbn [rbind].
  rewrite workers_read by done. destruct (fits (vw_db v) (sq_project q)) eqn:Hf; cbn [rbind].
  - destruct (events_read v (sq_project q) (sq_plan q) (sq_task q) (sq_event_before q) el Hv) as [events ->]. by eexists.
  - eexists. split; [done|]. intros e [= <-]. by right.
Qed.
(** ** What the answer promises

    The contract between the store and what presents its answers. *)
Record sound_answer (raw : OperatorSnapshot) (q : OperatorSnapshotQuery) : Prop := {
  sa_scope : sq_project q ≠ "" ∧ (sq_task q ≠ "" → sq_plan q ≠ "") ∧ (sq_plan q ≠ "" → sq_plan_after q = "") ∧
    (sq_task q ≠ "" → tc_plan (sq_task_after q) = "" ∧ tc_task (sq_task_after q) = "");
  sa_project : oj_id (os_project raw) = sq_project q;
  sa_plans_page : (Z.of_nat (length (pg_items (os_plans raw))) ≤ MaxOperatorPageLimit)%Z ∧
    (if pg_has_more (os_plans raw) then pg_next (os_plans raw) ≠ "" ∧ sq_plan q = "" else pg_next (os_plans raw) = "");
  sa_plans : ∀ p, p ∈ pg_items (os_plans raw) → ol_id p ≠ "" ∧ ol_task_done p ≤ ol_task_total p ∧ (sq_plan q ≠ "" → ol_id p = sq_plan q);
  sa_tasks_page : (Z.of_nat (length (pg_items (os_tasks raw))) ≤ MaxOperatorPageLimit)%Z ∧
    (if pg_has_more (os_tasks raw) then (∃ c, pg_next (os_tasks raw) = Some c ∧ tc_plan c ≠ "" ∧ tc_task c ≠ "") ∧ sq_task q = ""
     else pg_next (os_tasks raw) = None);
  sa_tasks : ∀ t, t ∈ pg_items (os_tasks raw) → ot_plan t ≠ "" ∧ ot_id t ≠ "" ∧
    (sq_plan q ≠ "" → ot_plan t = sq_plan q) ∧ (sq_task q ≠ "" → ot_id t = sq_task q);
  sa_workers : os_active_workers raw = length (os_workers raw) ∧ length (os_workers raw) ≤ MaxOperatorActiveWorkers ∧
    sum_list ((λ w, length (ow_claims w)) <$> os_workers raw) ≤ MaxOperatorActiveClaims;
  sa_worker : ∀ w, w ∈ os_workers raw → ow_id w ≠ "" ∧ ∀ c, c ∈ ow_claims w → oc_plan c ≠ "" ∧ oc_task c ≠ "";
  sa_events_page : (Z.of_nat (length (pg_items (os_events raw))) ≤ MaxOperatorEventLimit)%Z ∧
    (if pg_has_more (os_events raw) then (0 < pg_next (os_events raw))%Z else pg_next (os_events raw) = 0%Z);
  sa_events : ∀ e, e ∈ pg_items (os_events raw) → (0 < oe_id e ≤ os_event_cursor raw)%Z ∧
    (sq_plan q ≠ "" → oe_plan e = sq_plan q) ∧ (sq_task q ≠ "" → oe_task e = sq_task q);
  sa_newest_first : StronglySorted (λ a b, (oe_id b < oe_id a)%Z) (pg_items (os_events raw));
  sa_cursor : (0 ≤ os_event_cursor raw)%Z }.

Lemma limit_bounds name value d m n :
  (0 < d ≤ m)%Z → normalizeOperatorLimit name value d m = Ok n → 1 ≤ n ∧ (Z.of_nat n ≤ m)%Z.
Proof.
  intros Hd. unfold normalizeOperatorLimit. destruct (Z.eqb_spec value 0); [intros [= <-]; lia|].
  destruct (Z.ltb_spec value 0), (Z.ltb_spec m value); simpl; try done. intros [= <-]. lia.
Qed.

Lemma query_ok q pl tl el :
  validateOperatorSnapshotQuery q = Ok (pl, tl, el) →
  (sq_project q ≠ "" ∧ (sq_task q ≠ "" → sq_plan q ≠ "") ∧ (sq_plan q ≠ "" → sq_plan_after q = "") ∧
    (sq_task q ≠ "" → tc_plan (sq_task_after q) = "" ∧ tc_task (sq_task_after q) = "")) ∧
  (1 ≤ pl ∧ (Z.of_nat pl ≤ MaxOperatorPageLimit)%Z) ∧ (1 ≤ tl ∧ (Z.of_nat tl ≤ MaxOperatorPageLimit)%Z) ∧
  (1 ≤ el ∧ (Z.of_nat el ≤ MaxOperatorEventLimit)%Z).
Proof.
  unfold validateOperatorSnapshotQuery. cbv zeta. case_decide; [done|]. case_match; [done|]. case_decide as Htask; [done|].
  case_decide as Hafter; [done|]. destruct (negb _) eqn:Hboth; [done|].
  destruct (decide (sq_task q ≠ "" ∧ tc_plan (sq_task_after q) ≠ "")) as [|Hexact]; [done|].
  destruct (decide (_ ∧ _ ∧ _)); [done|].
  intros (pn & Hp%limit_bounds & Hr)%rbind_ok; [|done]. apply rbind_ok in Hr as (tn & Ht%limit_bounds & Hr); [|done].
  apply rbind_ok in Hr as (en & He%limit_bounds & [= <- <- <-]); [|done]. split; [|done].
  apply negb_false_iff, eqb_prop in Hboth. split_and!; [done|tauto| |].
  - intros Hplan. destruct (decide (sq_plan_after q = "")); [done|]. by destruct Hafter.
  - intros Ht'. destruct (decide (tc_plan (sq_task_after q) = "")) as [Hn|Hn]; [|by destruct Hexact]. split; [done|].
    rewrite bool_decide_true in Hboth by done. symmetry in Hboth. by apply bool_decide_eq_true in Hboth.
Qed.

Lemma query_limits q pl tl el :
  validateOperatorSnapshotQuery q = Ok (pl, tl, el) →
  normalizeOperatorLimit "plan_limit" (sq_plan_limit q) DefaultOperatorPageLimit MaxOperatorPageLimit = Ok pl ∧
  normalizeOperatorLimit "event_limit" (sq_event_limit q) DefaultOperatorEventLimit MaxOperatorEventLimit = Ok el.
Proof.
  unfold validateOperatorSnapshotQuery. cbv zeta. repeat (case_decide; [done|] || (case_match; [done|])).
  intros (pn & Hp & Hr)%rbind_ok. apply rbind_ok in Hr as (tn & _ & Hr). by apply rbind_ok in Hr as (en & He & [= <- <- <-]).
Qed.

Lemma page_shape {A B C} (f : A → result OperatorError B) limit (none : C) cursor rows page :
  (try items := scan_rows f (take (limit + 1) rows) in Ok (cut_page limit none cursor items)) = Ok page → 1 ≤ limit →
  length (pg_items page) ≤ limit ∧ pg_has_more page = (limit <? length rows) ∧
  if pg_has_more page then ∃ item, item ∈ pg_items page ∧ pg_next page = cursor item else pg_next page = none.
Proof.
  intros (items & Hs & [= <-])%rbind_ok Hlim. rewrite cut_page_items, cut_page_more, cut_page_next, length_take.
  apply scan_rows_ok, Forall2_length in Hs as Hlen. rewrite length_take in Hlen.
  split; [lia|]. destruct (Nat.ltb_spec limit (length items)) as [Hlt|Hge]; (split; [symmetry; by first [apply Nat.ltb_lt; lia|apply Nat.ltb_ge; lia]|]); [|done].
  destruct (last (take limit items)) as [item|] eqn:Hl; [exists item; split; [by apply last_Some_elem_of|done]|].
  apply last_None, (f_equal length) in Hl. rewrite length_take in Hl. simpl in Hl. lia.
Qed.

Lemma at_most_one {A} (l : list A) : NoDup l → (∀ x y, x ∈ l → y ∈ l → x = y) → length l ≤ 1.
Proof.
  intros Hnd Hall. destruct l as [|x [|y l]]; simpl; [lia..|]. apply NoDup_cons in Hnd as [Hx _]. destruct Hx.
  rewrite (Hall x y) by set_solver. by left.
Qed.
Lemma optionally_true wanted col : optionally wanted col = true → wanted ≠ "" → col = wanted.
Proof. unfold optionally. intros [Hw%bool_decide_eq_true|Hc%bool_decide_eq_true]%orb_true_iff; done. Qed.

Lemma count_of_le {A} (f : A → bool) l : count_of f l ≤ length l.
Proof. apply length_filter. Qed.

(** *** Plans *)

Lemma scan_plan_fields s row item :
  scan_plan s row = Ok item → ol_id item = row.1 ∧ ol_task_done item ≤ ol_task_total item.
Proof.
  destruct row as [id p]. unfold scan_plan. intros (c & _ & Hr)%rbind_ok. apply rbind_ok in Hr as (u & _ & [= <-]). simpl.
  split; [done|]. apply count_of_le.
Qed.

Lemma answer_plans v project p after limit page :
  view_ok v → readOperatorPlans (vw_db v) project p after limit = Ok page → 1 ≤ limit →
  length (pg_items page) ≤ limit ∧
  (if pg_has_more page then pg_next page ≠ "" ∧ p = "" else pg_next page = "") ∧
  ∀ item, item ∈ pg_items page → ol_id item ≠ "" ∧ ol_task_done item ≤ ol_task_total item ∧ (p ≠ "" → ol_id item = p).
Proof.
  intros Hv Hp Hlim. pose proof (page_shape _ _ _ _ _ _ Hp Hlim) as (Hlen & Hmore & Hnext).
  assert (∀ item, item ∈ pg_items page → ol_id item ≠ "" ∧ ol_task_done item ≤ ol_task_total item ∧ (p ≠ "" → ol_id item = p)) as Hitems.
  { intros item Hin. destruct (page_item _ _ _ _ _ _ _ Hp Hin) as (row & Hrow & [Hid Hle]%scan_plan_fields).
    assert (row ∈ take (length (order_by (λ r : string * Plan, [KText r.1]) (filter (λ r, optionally p r.1 = true ∧ (after = "" ∨ text_lt after r.1 = true)) (project_plans (vw_db v) project))))
      (order_by (λ r : string * Plan, [KText r.1]) (filter (λ r, optionally p r.1 = true ∧ (after = "" ∨ text_lt after r.1 = true)) (project_plans (vw_db v) project)))) as Htake
      by (by rewrite take_ge).
    apply plan_row_in in Htake as [Hk Ho]. split_and!; [|done|].
    - intros He. rewrite Hid in He. rewrite He in Hk. rewrite (vo_plan_ids v Hv) in Hk. done.
    - intros Hne. rewrite Hid. by apply optionally_true. }
  split_and!; [done| |done]. destruct (pg_has_more page) eqn:Hm; [|done]. destruct Hnext as (item & Hin & Heq). split; [rewrite Heq; by apply Hitems|].
  destruct (decide (p = "")) as [|Hne]; [done|]. exfalso. symmetry in Hmore. apply Nat.ltb_lt in Hmore. revert Hmore. apply Nat.le_ngt. etrans; [|exact Hlim].
  rewrite (Permutation_length (order_by_perm _ _ _)). apply at_most_one.
  - apply NoDup_filter. unfold project_plans. apply NoDup_filter, NoDup_map_to_list.
  - assert (∀ x, x ∈ filter (λ r : string * Plan, optionally p r.1 = true ∧ (after = "" ∨ text_lt after r.1 = true)) (project_plans (vw_db v) project) →
      x.1 = p ∧ db_plans (vw_db v) !! x.1 = Some x.2) as Hx.
    { intros x [[Ho _] Hx]%list_elem_of_filter. unfold project_plans in Hx. apply list_elem_of_filter in Hx as [_ Hx]. destruct x.
      apply elem_of_map_to_list in Hx. split; [by apply optionally_true|done]. }
    intros [x1 x2] [y1 y2] [? ?]%Hx [? ?]%Hx. simpl in *. subst. congruence.
Qed.

(** *** Tasks *)

Lemma answer_tasks v levels project p i after limit page :
  view_ok v → readOperatorTasks v levels project p i after limit = Ok page → 1 ≤ limit → (i ≠ "" → p ≠ "") →
  length (pg_items page) ≤ limit ∧
  (if pg_has_more page then (∃ c, pg_next page = Some c ∧ tc_plan c ≠ "" ∧ tc_task c ≠ "") ∧ i = "" else pg_next page = None) ∧
  ∀ t, t ∈ pg_items page → ot_plan t ≠ "" ∧ ot_id t ≠ "" ∧ (p ≠ "" → ot_plan t = p) ∧ (i ≠ "" → ot_id t = i).
Proof.
  intros Hv Hp Hlim Hscope. pose proof (page_shape _ _ _ _ _ _ Hp Hlim) as (Hlen & Hmore & Hnext).
  assert (∀ t, t ∈ pg_items page → ot_plan t ≠ "" ∧ ot_id t ≠ "" ∧ (p ≠ "" → ot_plan t = p) ∧ (i ≠ "" → ot_id t = i)) as Hitems.
  { intros t Hin. destruct (page_item _ _ _ _ _ _ _ Hp Hin) as ([[kp ki] row] & Hrow & (Hpl & Hid & _ & _)%scan_task_ok). simpl in Hpl, Hid.
    assert (((kp, ki), row) ∈ take (length (task_page_rows (vw_db v) project p i after)) (task_page_rows (vw_db v) project p i after)) as Htake
      by (by rewrite take_ge).
    apply task_row_in in Htake as (Hk & Ho & Hoi). simpl in Hk, Ho, Hoi. rewrite Hpl, Hid. split_and!; [| |by intros; apply optionally_true..].
    - intros ->. apply (wf_plan _ (vo_wf v Hv)) in Hk. simpl in Hk. rewrite (vo_plan_ids v Hv) in Hk. by destruct Hk.
    - intros ->. by rewrite (vo_task_ids v Hv) in Hk. }
  split_and!; [done| |done]. destruct (pg_has_more page) eqn:Hm; [|done]. destruct Hnext as (t & Hin & Heq). split.
  { exists (mkTaskCursor (ot_plan t) (ot_id t)). split; [done|]. simpl. by destruct (Hitems t Hin) as (? & ? & _). }
  destruct (decide (i = "")) as [|Hne]; [done|]. exfalso. symmetry in Hmore. apply Nat.ltb_lt in Hmore. revert Hmore. apply Nat.le_ngt. etrans; [|exact Hlim].
  assert (∀ x, x ∈ task_page_rows (vw_db v) project p i after → x.1 = (p, i) ∧ db_tasks (vw_db v) !! x.1 = Some x.2) as Hx.
  { intros [[xp xi] xt] Hx. rewrite <-(take_ge _ _ (le_n _)) in Hx. apply task_row_in in Hx as (Hk & Ho & Hoi). simpl in *.
    apply optionally_true in Ho; [|by apply Hscope]. apply optionally_true in Hoi; [|done]. by subst. }
  apply at_most_one.
  - unfold task_page_rows. rewrite order_by_perm. apply NoDup_filter. unfold project_tasks, task_rows. apply NoDup_filter, NoDup_map_to_list.
  - intros [x1 x2] [y1 y2] [? ?]%Hx [? ?]%Hx. simpl in *. subst. congruence.
Qed.
(** *** Workers *)

Lemma sum_perm (l l' : list nat) : l ≡ₚ l' → sum_list l = sum_list l'.
Proof. induction 1; simpl; lia. Qed.

Lemma answer_workers v project ws :
  view_ok v → readOperatorWorkers (vw_db v) project = Ok ws →
  length ws ≤ MaxOperatorActiveWorkers ∧ sum_list ((λ w, length (ow_claims w)) <$> ws) ≤ MaxOperatorActiveClaims ∧
  ∀ w, w ∈ ws → ow_id w ≠ "" ∧ ∀ c, c ∈ ow_claims w → oc_plan c ≠ "" ∧ oc_task c ≠ "".
Proof.
  intros Hv. rewrite workers_read by done. destruct (fits (vw_db v) project) eqn:Hf; [|done]. intros [= <-].
  destruct (all_rows (vw_db v) project) as (Hall & Hclaims & _). set (rows := order_by _ _) in *. clearbody rows.
  unfold fits in Hf. apply andb_true_iff in Hf as [Hfw%Nat.leb_le Hfc%Nat.leb_le]. split_and!.
  - rewrite Hall. by rewrite length_fmap.
  - etrans; [|exact Hfc]. apply Nat.eq_le_incl. rewrite (sum_perm _ _ (fmap_Permutation _ _ _ Hall)), <-list_fmap_compose.
    unfold held_claims. f_equal. apply list_fmap_ext. intros n w Hw%list_elem_of_lookup_2. unfold listed. simpl. rewrite length_fmap.
    by rewrite (Hclaims w Hw).
  - intros o. rewrite Hall. intros (w & -> & Hw)%list_elem_of_fmap. simpl. split.
    + intros Hid. pose proof (map_in_row _ _ _ Hw) as Hk. rewrite Hid in Hk. by rewrite (vo_worker_ids v Hv) in Hk.
    + intros c (row & -> & Hrow)%list_elem_of_fmap. rewrite (Hclaims w Hw) in Hrow. unfold claims_of in Hrow. apply list_elem_of_filter in Hrow as [_ Hrow].
      destruct row as [[kp ki] t]. apply task_rows_elem in Hrow as [Hk _]. simpl. split.
      * intros ->. apply (wf_plan _ (vo_wf v Hv)) in Hk. simpl in Hk. rewrite (vo_plan_ids v Hv) in Hk. by destruct Hk.
      * intros ->. by rewrite (vo_task_ids v Hv) in Hk.
Qed.

(** *** Events *)

Lemma scan_event_fields l project r e :
  scan_event l project r = Ok e →
  oe_id e = lr_id r ∧ oe_kind e = e_kind (lr_event r) ∧
  (sql_eq (match e_plan (lr_event r) with Some p => lg_plans l !! p | None => None end) project = true →
    oe_plan e = coalesce (e_plan (lr_event r)) ∧ oe_task e = coalesce (e_task (lr_event r))).
Proof.
  unfold scan_event. cbv zeta. intros (o & _ & [= <-])%rbind_ok. simpl. split; [done|]. split; [done|].
  destruct (e_plan (lr_event r)); [|done]. by intros ->.
Qed.

Lemma StronglySorted_take {A} (R : relation A) n l : StronglySorted R l → StronglySorted R (take n l).
Proof. intros Hl. rewrite <-(take_drop n l) in Hl. by apply StronglySorted_app_1_l in Hl. Qed.

Lemma newest_rows_sorted l rows :
  log_ok l → NoDup rows → (∀ r, r ∈ rows → r ∈ lg_rows l) →
  StronglySorted (λ a b, (lr_id b < lr_id a)%Z) (order_by (λ r, [KInt (- lr_id r)]) rows).
Proof.
  intros [Hsorted _] Hnd Hin. pose proof (order_by_perm _ (λ r, [KInt (- lr_id r)]) rows) as Hperm.
  pose proof (order_by_sorted _ (λ r, [KInt (- lr_id r)]) rows) as Hs. rewrite <-Hperm in Hnd.
  assert (∀ r, r ∈ order_by (λ r, [KInt (- lr_id r)]) rows → r ∈ lg_rows l) as Hin' by (intros r; rewrite Hperm; apply Hin).
  revert Hnd Hin' Hs. generalize (order_by (λ r, [KInt (- lr_id r)]) rows). clear -Hsorted. intros rows.
  induction rows as [|r rows IH]; intros Hnd Hin Hs; [constructor|]. apply NoDup_cons in Hnd as [Hr Hnd].
  apply StronglySorted_inv in Hs as [Hs Hall]. constructor; [apply IH; [done|set_solver|done]|].
  rewrite Forall_forall in *. intros x Hx. specialize (Hall x Hx). unfold key_order, key_leb in Hall. case_decide as Heq; simpl in *.
  - injection Heq as Heq. destruct Hr. assert (r = x) as ->; [|done]. apply (ids_unique (lg_rows l)); [done|set_solver|set_solver|lia].
  - apply Is_true_true, Z.leb_le in Hall. assert (lr_id r ≠ lr_id x) by congruence. lia.
Qed.
Lemma log_rows_nodup l : log_ok l → NoDup (lg_rows l).
Proof.
  intros [Hs _]. induction Hs as [|r rows _ IH Hall]; constructor; [|done]. intros Hin. rewrite Forall_forall in Hall.
  specialize (Hall r Hin). unfold id_lt in Hall. lia.
Qed.

Lemma max_id_above project l r : r ∈ lg_rows l → in_scope l project (lr_event r) = true → (lr_id r ≤ MaxEventID project l)%Z.
Proof.
  intros Hr Hs. unfold MaxEventID. assert (r ∈ filter (λ r, in_scope l project (lr_event r) = true) (lg_rows l)) as Hin by by apply list_elem_of_filter.
  revert Hin. generalize (filter (λ r, in_scope l project (lr_event r) = true) (lg_rows l)). intros rows. induction rows as [|x rows IH]; [by intros ?%elem_of_nil|].
  intros [->|Hin]%elem_of_cons; cbn [fmap list_fmap foldr]; [lia|]. etrans; [by apply IH|apply Z.le_max_r].
Qed.
Lemma max_id_nonneg project l : (0 ≤ MaxEventID project l)%Z.
Proof. unfold MaxEventID. generalize (filter (λ r, in_scope l project (lr_event r) = true) (lg_rows l)). intros rows. induction rows as [|x rows IH]; [done|]. etrans; [exact IH|apply Z.le_max_r]. Qed.

Lemma answer_events v project p i before limit page :
  view_ok v → readOperatorEvents (vw_log v) project p i before limit = Ok page → 1 ≤ limit →
  (p ≠ "" → in_project (vw_db v) project p = true) → (i ≠ "" → p ≠ "") →
  length (pg_items page) ≤ limit ∧ (if pg_has_more page then (0 < pg_next page)%Z else pg_next page = 0%Z) ∧
  StronglySorted (λ a b, (oe_id b < oe_id a)%Z) (pg_items page) ∧
  ∀ e, e ∈ pg_items page → (0 < oe_id e ≤ MaxEventID project (vw_log v))%Z ∧ (p ≠ "" → oe_plan e = p) ∧ (i ≠ "" → oe_task e = i).
Proof.
  intros Hv Hp Hlim Hplan Htask. pose proof (page_shape _ _ _ _ _ _ Hp Hlim) as (Hlen & Hmore & Hnext).
  destruct (vo_log v Hv) as (Hlsort & Hids & _). rewrite Forall_forall in Hids.
  assert (∀ e, e ∈ pg_items page → (0 < oe_id e ≤ MaxEventID project (vw_log v))%Z ∧ (p ≠ "" → oe_plan e = p) ∧ (i ≠ "" → oe_task e = i)) as Hitems.
  { intros e Hin. destruct (page_item _ _ _ _ _ _ _ Hp Hin) as (r & Hrow & (Hid & _ & Hmine)%scan_event_fields).
    unfold event_page_rows in Hrow. rewrite order_by_perm in Hrow. apply list_elem_of_filter in Hrow as [[Hev _] Hrow].
    unfold event_in in Hev. apply andb_true_iff in Hev as [[Hscope Hep]%andb_true_iff Het].
    assert (p ≠ "" → e_plan (lr_event r) = Some p) as Hpl.
    { intros Hne. apply orb_true_iff in Hep as [Hep%bool_decide_eq_true|Hep]; [done|]. unfold sql_eq in Hep.
      by apply bool_decide_eq_true in Hep. }
    assert (p ≠ "" → oe_plan e = coalesce (e_plan (lr_event r)) ∧ oe_task e = coalesce (e_task (lr_event r))) as Hown.
    { intros Hne. apply Hmine. rewrite (Hpl Hne), (vo_plans v Hv p). specialize (Hplan Hne). unfold in_project in Hplan.
      destruct (db_plans (vw_db v) !! p) as [pl|]; [|done]. apply bool_decide_eq_true in Hplan. simpl. unfold sql_eq. by rewrite Hplan, bool_decide_true. }
    split; [rewrite Hid; split; [by apply Hids|by apply max_id_above]|]. split.
    - intros Hne. destruct (Hown Hne) as [-> _]. by rewrite (Hpl Hne).
    - intros Hne. destruct (Hown (Htask Hne)) as [_ ->]. apply orb_true_iff in Het as [Het%bool_decide_eq_true|Het]; [done|]. unfold sql_eq in Het.
      by apply bool_decide_eq_true in Het as ->. }
  split_and!; [done| | |done].
  - destruct (pg_has_more page); [|done]. destruct Hnext as (e & He & ->). by apply Hitems.
  - unfold readOperatorEvents in Hp. apply rbind_ok in Hp as (items & Hs & [= <-]). rewrite cut_page_items.
    assert (StronglySorted (λ a b, (lr_id b < lr_id a)%Z) (event_page_rows (vw_log v) project p i before)) as Hsort.
    { apply (newest_rows_sorted (vw_log v)); [apply (vo_log v Hv)|apply NoDup_filter, log_rows_nodup, (vo_log v Hv)|].
      by intros r [_ Hr]%list_elem_of_filter. }
    apply scan_rows_ok in Hs. revert Hsort Hs. generalize (event_page_rows (vw_log v) project p i before). intros rows Hsort Hs.
    assert (StronglySorted (λ a b, (oe_id b < oe_id a)%Z) items) as Hitemsort; [|by apply StronglySorted_take].
    assert (StronglySorted (λ a b, (lr_id b < lr_id a)%Z) (take (limit + 1) rows)) as Htake by by apply StronglySorted_take.
    clear -Hs Htake. induction Hs as [|r e rs es He Hs IH]; [constructor|]. apply StronglySorted_inv in Htake as [Ht Hall]. constructor; [by apply IH|].
    rewrite Forall_forall in Hall. apply Forall_forall. intros x Hx. apply list_elem_of_lookup in Hx as [n Hn]. destruct (Forall2_lookup_r _ _ _ _ _ Hs Hn) as (rx & Hrx & Hxe).
    apply scan_event_fields in He as [-> _], Hxe as [-> _]. apply Hall. by eapply list_elem_of_lookup_2.
Qed.

(** The store keeps its promise. *)
Lemma answer_sound v q raw : view_ok v → ReadOperatorSnapshot v q = Some (Ok raw) → sound_answer raw q.
Proof.
  intros Hv (levels & pl & tl & el & Hr)%snapshot_read. destruct (query_ok _ _ _ _ (sr_query _ _ _ _ _ _ _ Hr)) as (Hscope & [Hpl Hplm] & [Htl Htlm] & [Hel Helm]).
  assert (sq_plan q ≠ "" → in_project (vw_db v) (sq_project q) (sq_plan q) = true) as Hin.
  { intros Hne. pose proof (sr_scope _ _ _ _ _ _ _ Hr) as Hs. unfold validateOperatorSnapshotScopeAndCursors in Hs. apply rbind_ok in Hs as ([] & Hs & _).
    unfold unless in Hs. rewrite bool_decide_false in Hs by done. simpl in Hs. by destruct (in_project _ _ _). }
  destruct (answer_plans _ _ _ _ _ _ Hv (sr_plans _ _ _ _ _ _ _ Hr) Hpl) as (Hp1 & Hp2 & Hp3).
  destruct (answer_tasks _ _ _ _ _ _ _ _ Hv (sr_tasks _ _ _ _ _ _ _ Hr) Htl) as (Ht1 & Ht2 & Ht3); [by apply Hscope|].
  destruct (answer_workers _ _ _ Hv (sr_workers _ _ _ _ _ _ _ Hr)) as (Hw1 & Hw2 & Hw3).
  destruct (answer_events _ _ _ _ _ _ _ Hv (sr_events _ _ _ _ _ _ _ Hr) Hel Hin) as (He1 & He2 & He3 & He4); [by apply Hscope|].
  pose proof (sr_cursor _ _ _ _ _ _ _ Hr) as Hc. constructor; try done.
  - by eapply project_found, (sr_project _ _ _ _ _ _ _ Hr).
  - split; [lia|done].
  - split; [lia|done].
  - split_and!; [apply (sr_active _ _ _ _ _ _ _ Hr)|done|done].
  - split; [lia|done].
  - intros e He. rewrite Hc. by apply He4.
  - rewrite Hc. apply max_id_nonneg.
Qed.
End Reads.

(** ** A demonstration *)

Lemma dead_log_ok : log_ok (vw_log dead_view).
Proof. unfold dead_view. cbn [vw_log]. split_and!; [constructor|constructor|done]. Qed.
Lemma dead_rows_ok : rows_ok dead_view = true.
Proof. vm_compute. reflexivity. Qed.
Lemma dead_view_ok : view_ok dead_view.
Proof.
  apply view_checked; [|exact dead_log_ok|exact dead_rows_ok]. rewrite dead_view_db.
  exact (run_wf _ _ _ (empty_wf true 0) (proj1 dead_runs)).
Qed.
