(* ===== verification/Observe.v ===== *)
(** * The operator's responses: [internal/observe/snapshot.go],
    [task_detail.go], and [internal/supervisor/observe.go]

    The service that turns the store's read model into the versioned response,
    the check a client makes of a decoded one, the closed vocabulary of states,
    blocks and failures, and the markers of the task list. A slice is an [option]
    of a list: nil is [None]. *)
From S2P Require Import Prelude GoLib StoreModel StoreSql StoreOperator.

Definition SchemaVersion : Z := 1.
Definition MaxPageLimit : Z := MaxOperatorPageLimit.
Definition MaxEventLimit : Z := MaxOperatorEventLimit.

Inductive ObserveError :=
| ErrReaderRequired
| ErrInvalidReadModel (what : string)
| ErrInvalidResponse (what : string)
| ErrIncompatibleSchema (version : Z)
| ErrUnknownTaskStatus (status : string)
| ErrUnknownMessageRole (role : string)
| ErrProjectionLimitBreach (what : string)
| ErrRead (e : OperatorError).
#[export] Instance ObserveError_eq_dec : EqDecision ObserveError.
Proof. solve_decision. Defined.

(** [if bad { return fmt.Errorf(...) }]. *)
Definition refuse_if {E} (bad : bool) (e : E) : result E unit := if bad then Err e else Ok tt.
(** A loop whose body only checks. *)
Fixpoint check_each {E A} (f : A → result E unit) (l : list A) : result E unit :=
  match l with [] => Ok tt | x :: l' => try _ := f x in check_each f l' end.
Definition is_empty (s : string) : bool := bool_decide (s = "").
Definition over (n : nat) (max : Z) : bool := (max <? Z.of_nat n)%Z.

(** ** The response *)

Abbreviation Slice A := (option (list A)).
Definition items {A} (l : Slice A) : list A := default [] l.
Definition is_nil {A} (l : Slice A) : bool := match l with None => true | Some _ => false end.

Record WirePage (A C : Type) := mkWire { wp_items : Slice A; wp_has_more : bool; wp_next : C }.
Arguments mkWire {A C}.
Arguments wp_items {A C}.
Arguments wp_has_more {A C}.
Arguments wp_next {A C}.

Record Project := mkProject { po_id : string; po_name : string; po_created : Z; po_updated : Z; po_seen : option Z }.
Record StatusCount := mkStatusCount { st_status : string; st_count : nat }.
Record Summary := mkSummary {
  su_plan_total : nat; su_task_total : nat; su_active_workers : Z; su_zero_active : bool;
  su_plan_counts : list StatusCount; su_task_counts : list StatusCount }.
Record Plan := mkPlan {
  pn_id : string; pn_slug : string; pn_title : string; pn_status : string; pn_done : Z; pn_total : Z;
  pn_no_runnable_work : bool; pn_created : Z; pn_updated : Z }.

(** The states of the A2A library. *)
Inductive TaskState :=
| TaskStateUnspecified | TaskStateSubmitted | TaskStateWorking | TaskStateInputRequired
| TaskStateCompleted | TaskStateFailed | TaskStateCanceled.
Record A2ATask := mkA2ATask {
  aa_id : string; aa_context : string; aa_state : TaskState; aa_timestamp : Z;
  aa_plan : string; aa_task : string; aa_status : string; aa_retry : Z; aa_reclaim : Z; aa_attempts : Z }.

Inductive BlockedCategory := BlockedCapability | BlockedInput | BlockedApproval.
Record BlockedSummary := mkBlocked { bl_category : BlockedCategory; bl_summary : string }.

Record Task := mkTask {
  tk_plan : string; tk_id : string; tk_canonical : string; tk_status : string;
  tk_parallel : option Z; tk_sequence : option Z; tk_retry : Z; tk_reclaim : Z; tk_parent : string; tk_worker : string;
  tk_alias : string; tk_provider : string; tk_model : string; tk_effort : string; tk_domain : string;
  tk_partition : string; tk_blocked_by : string; tk_failure_category : string; tk_reclaim_reason : string; tk_reclaim_claims : Z;
  tk_blocked : option BlockedSummary; tk_created : Z; tk_updated : Z; tk_a2a : A2ATask }.
Record TaskCursor := mkCursor { cu_plan : string; cu_task : string }.
Record WorkerClaim := mkClaim { wc_plan : string; wc_task : string; wc_status : string }.
Record Worker := mkWorker {
  wk_id : string; wk_provider : string; wk_model : string; wk_native_fanout : bool; wk_status : string;
  wk_started : Z; wk_heartbeat : Z; wk_claims : Slice WorkerClaim }.

Inductive FailureCategory :=
| FailureTaskAttempt | FailureTaskTerminal
| FailureInteractivePromptPermission | FailureInteractivePromptConfirm | FailureInteractivePromptClarification
| FailureProviderAuth | FailureProviderThrottled | FailureProviderUnavailable
| FailureVerification | FailureDispatch | FailureAdmission.
Record FailureSummary := mkFailure { fs_category : FailureCategory; fs_summary : string; fs_retryable : bool }.
Record Event := mkEvent {
  en_id : Z; en_plan : string; en_task : string; en_kind : string; en_stream : string; en_occurred : Z; en_failure : option FailureSummary }.

Record Snapshot := mkSnapshot {
  sn_schema : Z; sn_captured : Z; sn_project : Project; sn_summary : Summary;
  sn_plans : WirePage Plan string; sn_tasks : WirePage Task (option TaskCursor); sn_workers : Slice Worker;
  sn_event_cursor : Z; sn_events : WirePage Event Z }.

(** ** The client's check *)

Definition validateSnapshotQueryAndProject (sn : Snapshot) (q : OperatorSnapshotQuery) : result ObserveError unit :=
  let after := sq_task_after q in
  try _ := refuse_if (is_empty (sq_project q) || (negb (is_empty (sq_task q)) && is_empty (sq_plan q)) ||
      (negb (is_empty (sq_plan q)) && negb (is_empty (sq_plan_after q))) ||
      (negb (is_empty (sq_task q)) && (negb (is_empty (tc_plan after)) || negb (is_empty (tc_task after)))))
    (ErrInvalidResponse "invalid query scope") in
  refuse_if (is_empty (po_id (sn_project sn)) || negb (bool_decide (po_id (sn_project sn) = sq_project q)))
    (ErrInvalidResponse "project mismatch").

Definition validateSnapshotPages (sn : Snapshot) (q : OperatorSnapshotQuery) : result ObserveError unit :=
  let plans := sn_plans sn in let tasks := sn_tasks sn in let events := sn_events sn in
  try _ := refuse_if (is_nil (wp_items plans) || is_nil (wp_items tasks) || is_nil (sn_workers sn) || is_nil (wp_items events))
    (ErrInvalidResponse "nil collection") in
  try _ := refuse_if (over (length (items (wp_items plans))) MaxPageLimit || over (length (items (wp_items tasks))) MaxPageLimit ||
      over (length (items (wp_items events))) MaxEventLimit) (ErrInvalidResponse "response exceeds client bounds") in
  try _ := refuse_if (negb (eqb (wp_has_more plans) (negb (is_empty (wp_next plans))))) (ErrInvalidResponse "invalid plan page cursor") in
  try _ := refuse_if (match wp_next tasks with
      | None => wp_has_more tasks
      | Some c => negb (wp_has_more tasks) || is_empty (cu_plan c) || is_empty (cu_task c)
      end) (ErrInvalidResponse "invalid task page cursor") in
  try _ := refuse_if (negb (eqb (wp_has_more events) (0 <? wp_next events)%Z)) (ErrInvalidResponse "invalid event page cursor") in
  try _ := refuse_if (negb (is_empty (sq_plan q)) && wp_has_more plans) (ErrInvalidResponse "exact plan scope is truncated") in
  refuse_if (negb (is_empty (sq_task q)) && wp_has_more tasks) (ErrInvalidResponse "exact task scope is truncated").

(** The two loops over workers and their claims, with the running count. *)
Fixpoint count_claims (claims : list WorkerClaim) (n : nat) : result ObserveError nat :=
  match claims with
  | [] => Ok n
  | c :: claims' =>
      try _ := refuse_if (is_empty (wc_plan c) || is_empty (wc_task c)) (ErrInvalidResponse "invalid worker claim") in
      try _ := refuse_if (MaxOperatorActiveClaims <? S n) (ErrInvalidResponse "too many worker claims") in
      count_claims claims' (S n)
  end.
Fixpoint count_worker_claims (workers : list Worker) (n : nat) : result ObserveError nat :=
  match workers with
  | [] => Ok n
  | w :: workers' =>
      try _ := refuse_if (is_empty (wk_id w) || is_nil (wk_claims w)) (ErrInvalidResponse "invalid worker identity or claims") in
      try n := count_claims (items (wk_claims w)) n in
      count_worker_claims workers' n
  end.
Definition validateSnapshotSummary (sn : Snapshot) : result ObserveError unit :=
  let workers := items (sn_workers sn) in
  try _ := refuse_if (negb (su_active_workers (sn_summary sn) =? Z.of_nat (length workers))%Z) (ErrInvalidResponse "active worker count differs from rows") in
  try _ := refuse_if (MaxOperatorActiveWorkers <? length workers) (ErrInvalidResponse "too many active workers") in
  try _ := count_worker_claims workers 0 in
  try _ := refuse_if (negb (eqb (su_zero_active (sn_summary sn)) (su_active_workers (sn_summary sn) =? 0)%Z))
    (ErrInvalidResponse "inconsistent zero-worker assertion") in
  refuse_if (sn_event_cursor sn <? 0)%Z (ErrInvalidResponse "negative event cursor").

(** [scope != "" && value != scope]. *)
Definition outside (scope value : string) : bool := negb (is_empty scope) && negb (bool_decide (value = scope)).

Definition validateSnapshotPlans (plans : list Plan) (q : OperatorSnapshotQuery) : result ObserveError unit :=
  check_each (λ p,
    try _ := refuse_if (is_empty (pn_id p) || (pn_done p <? 0)%Z || (pn_total p <? 0)%Z || (pn_total p <? pn_done p)%Z)
      (ErrInvalidResponse "invalid progress for plan") in
    refuse_if (outside (sq_plan q) (pn_id p)) (ErrInvalidResponse "plan outside scope")) plans.

Definition validateSnapshotTasks (tasks : list Task) (q : OperatorSnapshotQuery) : result ObserveError unit :=
  check_each (λ t,
    try _ := refuse_if (is_empty (tk_plan t) || is_empty (tk_id t)) (ErrInvalidResponse "task has empty identity") in
    try _ := refuse_if (outside (sq_plan q) (tk_plan t)) (ErrInvalidResponse "task outside plan scope") in
    refuse_if (outside (sq_task q) (tk_id t)) (ErrInvalidResponse "task outside task scope")) tasks.

(** [previous]: the id of the event before, if any. *)
Fixpoint validateSnapshotEvents (events : list Event) (previous : option Z) (cursor : Z) (q : OperatorSnapshotQuery)
    : result ObserveError unit :=
  match events with
  | [] => Ok tt
  | e :: events' =>
      try _ := refuse_if ((en_id e <=? 0)%Z || (cursor <? en_id e)%Z) (ErrInvalidResponse "event exceeds cursor") in
      try _ := refuse_if (outside (sq_plan q) (en_plan e)) (ErrInvalidResponse "event outside plan scope") in
      try _ := refuse_if (outside (sq_task q) (en_task e)) (ErrInvalidResponse "event outside task scope") in
      try _ := refuse_if (match previous with Some id => (id <=? en_id e)%Z | None => false end) (ErrInvalidResponse "events are not newest-first") in
      validateSnapshotEvents events' (Some (en_id e)) cursor q
  end.

Definition ValidateSnapshotResponse (snapshot : option Snapshot) (q : OperatorSnapshotQuery) : result ObserveError unit :=
  match snapshot with
  | None => Err (ErrInvalidResponse "nil snapshot")
  | Some sn =>
      try _ := refuse_if (negb (sn_schema sn =? SchemaVersion)%Z) (ErrIncompatibleSchema (sn_schema sn)) in
      try _ := validateSnapshotQueryAndProject sn q in
      try _ := validateSnapshotPages sn q in
      try _ := validateSnapshotSummary sn in
      try _ := validateSnapshotPlans (items (wp_items (sn_plans sn))) q in
      try _ := validateSnapshotTasks (items (wp_items (sn_tasks sn))) q in
      validateSnapshotEvents (items (wp_items (sn_events sn))) None (sn_event_cursor sn) q
  end.

(** ** Messages *)

Inductive MessageRole := MessageRoleAgent | MessageRoleUser.
#[export] Instance MessageRole_eq_dec : EqDecision MessageRole.
Proof. solve_decision. Defined.
Definition role_text (r : MessageRole) : string := match r with MessageRoleAgent => "ROLE_AGENT" | MessageRoleUser => "ROLE_USER" end.
Definition messageRole (role : string) : result ObserveError MessageRole :=
  if decide (role = role_text MessageRoleAgent) then Ok MessageRoleAgent
  else if decide (role = role_text MessageRoleUser) then Ok MessageRoleUser
  else Err (ErrUnknownMessageRole role).

Definition canonicalTaskID (planID taskID : string) : string := planID +:+ ":" +:+ taskID.

(** [md_role]: the text on the wire. *)
Record MessageMetadata := mkMetadata {
  md_id : Z; md_worker : string; md_plan : string; md_task : string; md_canonical : string; md_context : string;
  md_role : string; md_occurred : Z }.
Record MessagePage := mkMessagePage { mp_schema : Z; mp_items : Slice MessageMetadata; mp_has_more : bool; mp_next : Z }.

Fixpoint validate_messages (items : list MessageMetadata) (previous : option Z) : result ObserveError unit :=
  match items with
  | [] => Ok tt
  | m :: items' =>
      try _ := refuse_if ((md_id m <=? 0)%Z || is_empty (md_plan m) || is_empty (md_task m) ||
          negb (bool_decide (md_canonical m = canonicalTaskID (md_plan m) (md_task m))) ||
          negb (bool_decide (md_context m = md_plan m))) (ErrInvalidResponse "invalid message identity") in
      try _ := match messageRole (md_role m) with Ok _ => Ok tt | Err _ => Err (ErrInvalidResponse "invalid message role") end in
      try _ := refuse_if (match previous with Some id => (md_id m <=? id)%Z | None => false end) (ErrInvalidResponse "messages are not oldest-first") in
      validate_messages items' (Some (md_id m))
  end.
Definition ValidateMessageResponse (page : option MessagePage) : result ObserveError unit :=
  match page with
  | None => Err (ErrInvalidResponse "nil message page")
  | Some p =>
      try _ := refuse_if (negb (mp_schema p =? SchemaVersion)%Z) (ErrIncompatibleSchema (mp_schema p)) in
      try _ := refuse_if (is_nil (mp_items p)) (ErrInvalidResponse "nil message collection") in
      try _ := refuse_if (over (length (items (mp_items p))) MaxOperatorMessageLimit) (ErrInvalidResponse "too many messages") in
      try _ := refuse_if (negb (eqb (mp_has_more p) (0 <? mp_next p)%Z)) (ErrInvalidResponse "invalid message page cursor") in
      validate_messages (items (mp_items p)) None
  end.

(** ** The closed vocabulary *)

(** [StateForTask], on the status as text: an unknown one fails the projection. *)
Definition StateForTask (status : string) : result ObserveError TaskState :=
  if decide (status ∈ ["pending"; "ready"]) then Ok TaskStateSubmitted
  else if decide (status = "running") then Ok TaskStateWorking
  else if decide (status ∈ ["blocked"; "ready_pending_approval"; "blocked_capability"; "blocked_input"]) then Ok TaskStateInputRequired
  else if decide (status ∈ ["done"; "decomposed"]) then Ok TaskStateCompleted
  else if decide (status = "failed") then Ok TaskStateFailed
  else if decide (status = "skipped") then Ok TaskStateCanceled
  else Err (ErrUnknownTaskStatus status).

Definition blockedSummaryFor (status : TaskStatus) : option BlockedSummary :=
  match status with
  | TaskStatusBlockedCapability => Some (mkBlocked BlockedCapability
      "the bound provider does not satisfy this task's requirements; bind a provider that does")
  | TaskStatusBlockedInput => Some (mkBlocked BlockedInput
      "a declared input no longer matches its pinned digest; fix the plan or the file")
  | TaskStatusReadyPendingApproval => Some (mkBlocked BlockedApproval "held for approval before it may run")
  | _ => None
  end.

Definition providerFailureSummary (category : string) : option FailureSummary :=
  if decide (category = "interactive_prompt_permission") then Some (mkFailure FailureInteractivePromptPermission
    "provider asked to be allowed to act; usually a write-path or binding grant, not a keystroke" false)
  else if decide (category = "interactive_prompt_confirm") then Some (mkFailure FailureInteractivePromptConfirm
    "provider asked to confirm an action it already intended; usually suppressible with a flag" false)
  else if decide (category = "interactive_prompt_clarification") then Some (mkFailure FailureInteractivePromptClarification
    "provider asked a question about the task; the step's scoped context was insufficient" false)
  else if decide (category = "provider_auth") then Some (mkFailure FailureProviderAuth
    "provider authentication or model access was denied" false)
  else if decide (category = "provider_throttled") then Some (mkFailure FailureProviderThrottled
    "provider rate limited the turn; it will be retried" true)
  else if decide (category = "provider_unavailable") then Some (mkFailure FailureProviderUnavailable
    "provider service was unavailable; it will be retried" true)
  else None.

Definition failureForEvent (kind providerCategory : string) : option FailureSummary :=
  if decide (kind = "task.failed") then
    match providerFailureSummary providerCategory with
    | Some summary => Some summary
    | None => Some (mkFailure FailureTaskAttempt "task attempt failed and was requeued" true)
    end
  else if decide (kind = "task.failed_terminal") then Some (mkFailure FailureTaskTerminal "task retry budget was exhausted" false)
  else if decide (kind = "worker.verification_failed") then Some (mkFailure FailureVerification "completion evidence failed verification" true)
  else if decide (kind = "worker.dispatch_error") then Some (mkFailure FailureDispatch "worker dispatch failed" true)
  else if decide (kind = "worker.dispatch_panic") then Some (mkFailure FailureDispatch "worker dispatch failed unexpectedly" true)
  else if decide (kind = "worker.admission_refused") then Some (mkFailure FailureAdmission "worker admission was refused" false)
  else None.

(** ** The service *)

(** The boundary to the durable store. A call may not come back ([None]), fail,
    or answer a nil pointer. *)
Record Reader := mkReader {
  rd_snapshot : OperatorSnapshotQuery → option (result OperatorError (option OperatorSnapshot));
  rd_messages : OperatorMessageQuery → result OperatorError (option (Page OperatorMessageMetadata Z));
  rd_descriptions : string → string → list string → result OperatorError (gmap string string) }.

Definition validateSnapshotReadModel (raw : OperatorSnapshot) (projectID : string) : result ObserveError unit :=
  let plans := os_plans raw in let tasks := os_tasks raw in let events := os_events raw in
  try _ := refuse_if (is_empty (oj_id (os_project raw)) || negb (bool_decide (oj_id (os_project raw) = projectID)))
    (ErrInvalidReadModel "project mismatch") in
  try _ := refuse_if (negb (os_active_workers raw =? length (os_workers raw))) (ErrInvalidReadModel "active worker count differs from rows") in
  try _ := refuse_if (over (length (pg_items plans)) MaxOperatorPageLimit) (ErrProjectionLimitBreach "plans") in
  try _ := refuse_if (over (length (pg_items tasks)) MaxOperatorPageLimit) (ErrProjectionLimitBreach "tasks") in
  try _ := refuse_if (over (length (pg_items events)) MaxOperatorEventLimit) (ErrProjectionLimitBreach "events") in
  try _ := refuse_if (MaxOperatorActiveWorkers <? length (os_workers raw)) (ErrProjectionLimitBreach "active workers") in
  try _ := refuse_if (pg_has_more plans && is_empty (pg_next plans)) (ErrInvalidReadModel "plan page has_more without cursor") in
  try _ := refuse_if (negb (pg_has_more plans) && negb (is_empty (pg_next plans))) (ErrInvalidReadModel "terminal plan page has cursor") in
  try _ := refuse_if (pg_has_more tasks && match pg_next tasks with None => true | Some c => is_empty (tc_plan c) || is_empty (tc_task c) end)
    (ErrInvalidReadModel "task page has_more without complete cursor") in
  try _ := refuse_if (negb (pg_has_more tasks) && bool_decide (is_Some (pg_next tasks))) (ErrInvalidReadModel "terminal task page has cursor") in
  try _ := refuse_if (pg_has_more events && (pg_next events <=? 0)%Z) (ErrInvalidReadModel "event page has_more without cursor") in
  try _ := refuse_if (negb (pg_has_more events) && negb (pg_next events =? 0)%Z) (ErrInvalidReadModel "terminal event page has cursor") in
  refuse_if (MaxOperatorActiveClaims <? foldl (λ n w, n + length (ow_claims w)) 0 (os_workers raw)) (ErrProjectionLimitBreach "worker claims").

Definition projectFromStore (p : OperatorProject) : Project := mkProject (oj_id p) (oj_name p) (oj_created p) (oj_updated p) (oj_seen p).
Definition statusCountsFromStore (counts : list OperatorStatusCount) : list StatusCount :=
  (λ c, mkStatusCount (on_status c) (on_count c)) <$> counts.
Definition totalCount (counts : list StatusCount) : nat := foldl (λ n c, n + st_count c) 0 counts.

Definition plansFromStore (page : StoreOperator.Page OperatorPlan string) : WirePage Plan string :=
  mkWire (Some ((λ p, mkPlan (ol_id p) (ol_slug p) (ol_title p) (plan_status_text (ol_status p)) (Z.of_nat (ol_task_done p))
      (Z.of_nat (ol_task_total p)) (ol_no_runnable_work p) (ol_created p) (ol_updated p)) <$> pg_items page)) (pg_has_more page) (pg_next page).

Definition taskFromStore (item : OperatorTask) : result ObserveError Task :=
  try _ := refuse_if (is_empty (ot_plan item) || is_empty (ot_id item)) (ErrInvalidReadModel "task has empty identity") in
  let status := task_status_text (ot_status item) in
  try state := StateForTask status in
  let canonical := canonicalTaskID (ot_plan item) (ot_id item) in
  Ok (mkTask (ot_plan item) (ot_id item) canonical status (ot_parallel item) (ot_sequence item) (ot_retry item) (ot_reclaim item)
        (ot_parent item) (ot_worker item) (ot_alias item) (ot_provider item) (ot_model item) (ot_effort item) (ot_domain item)
        (ot_partition item) (ot_blocked_by item) (ot_failure_category item) (ot_reclaim_reason item) (ot_reclaim_claims item)
        (blockedSummaryFor (ot_status item)) (ot_created item) (ot_updated item)
        (mkA2ATask canonical (ot_plan item) state (ot_updated item) (ot_plan item) (ot_id item) status (ot_retry item) (ot_reclaim item)
           (ot_retry item + ot_reclaim item + 1))).
Definition tasksFromStore (page : StoreOperator.Page OperatorTask (option OperatorTaskCursor)) : result ObserveError (WirePage Task (option TaskCursor)) :=
  try tasks := scan_rows taskFromStore (pg_items page) in
  Ok (mkWire (Some tasks) (pg_has_more page) ((λ c, mkCursor (tc_plan c) (tc_task c)) <$> pg_next page)).

Definition workersFromStore (workers : list OperatorWorker) : list Worker :=
  (λ w, mkWorker (ow_id w) (ow_provider w) (ow_model w) (ow_native_fanout w) (ow_status w) (ow_started w) (ow_heartbeat w)
     (Some ((λ c, mkClaim (oc_plan c) (oc_task c) (task_status_text (oc_status c))) <$> ow_claims w))) <$> workers.

Definition EventFromMetadata (item : OperatorEvent) : Event :=
  mkEvent (oe_id item) (oe_plan item) (oe_task item) (oe_kind item) (oe_stream item) (oe_occurred item)
    (failureForEvent (oe_kind item) (oe_failure_category item)).
Definition eventsFromStore (page : StoreOperator.Page OperatorEvent Z) : WirePage Event Z :=
  mkWire (Some (EventFromMetadata <$> pg_items page)) (pg_has_more page) (pg_next page).

(** [New]; a nil reader is [None]. *)
Definition New (reader : option Reader) : result ObserveError Reader :=
  match reader with Some r => Ok r | None => Err ErrReaderRequired end.

Definition project_snapshot (raw : OperatorSnapshot) (projectID : string) : result ObserveError Snapshot :=
  try _ := validateSnapshotReadModel raw projectID in
  let planCounts := statusCountsFromStore (os_plan_counts raw) in
  let taskCounts := statusCountsFromStore (os_task_counts raw) in
  try tasks := tasksFromStore (os_tasks raw) in
  Ok (mkSnapshot SchemaVersion (os_captured raw) (projectFromStore (os_project raw))
        (mkSummary (totalCount planCounts) (totalCount taskCounts) (Z.of_nat (os_active_workers raw)) (os_active_workers raw =? 0) planCounts taskCounts)
        (plansFromStore (os_plans raw)) tasks (Some (workersFromStore (os_workers raw))) (os_event_cursor raw) (eventsFromStore (os_events raw))).

Definition Service_Snapshot (reader : option Reader) (q : OperatorSnapshotQuery) : option (result ObserveError Snapshot) :=
  match New reader with
  | Err e => Some (Err e)
  | Ok r =>
      (λ answer, match answer with
         | Err e => Err (ErrRead e)
         | Ok None => Err (ErrInvalidReadModel "nil snapshot")
         | Ok (Some raw) => project_snapshot raw (sq_project q)
         end) <$> rd_snapshot r q
  end.

Definition message_from_store (item : OperatorMessageMetadata) : result ObserveError MessageMetadata :=
  try role := messageRole (om_role item) in
  try _ := refuse_if (is_empty (om_plan item) || is_empty (om_task item)) (ErrInvalidReadModel "message has empty task identity") in
  Ok (mkMetadata (om_id item) (om_worker item) (om_plan item) (om_task item) (canonicalTaskID (om_plan item) (om_task item))
        (om_plan item) (role_text role) (om_occurred item)).

Definition Service_Messages (reader : option Reader) (q : OperatorMessageQuery) : result ObserveError MessagePage :=
  try r := New reader in
  match rd_messages r q with
  | Err e => Err (ErrRead e)
  | Ok None => Err (ErrInvalidReadModel "nil message page")
  | Ok (Some raw) =>
      try _ := refuse_if (over (length (pg_items raw)) MaxOperatorMessageLimit) (ErrProjectionLimitBreach "messages") in
      try _ := refuse_if (pg_has_more raw && (pg_next raw <=? 0)%Z) (ErrInvalidReadModel "message page has_more without cursor") in
      try _ := refuse_if (negb (pg_has_more raw) && negb (pg_next raw =? 0)%Z) (ErrInvalidReadModel "terminal message page has cursor") in
      try messages := scan_rows message_from_store (pg_items raw) in
      Ok (mkMessagePage SchemaVersion (Some messages) (pg_has_more raw) (pg_next raw))
  end.

Record TaskDescriptions := mkTaskDescriptions { td_plan : string; td_by_task : gmap string string }.
Definition Service_TaskDescriptions (reader : Reader) (projectID planID : string) (taskIDs : list string) : result ObserveError TaskDescriptions :=
  match rd_descriptions reader projectID planID taskIDs with
  | Err e => Err (ErrRead e)
  | Ok byTask => Ok (mkTaskDescriptions planID byTask)
  end.

(** ** Markers of the task list *)

Definition AttemptLabel (t : Task) : string :=
  let lost := (tk_retry t + tk_reclaim t)%Z in
  if (lost =? 0)%Z then ""
  else if decide (tk_status t ∈ ["running"; "done"; "failed"]) then Itoa (lost + 1) +:+ " attempts"
  else Itoa lost +:+ " attempts".

(** How many tasks name an ordinal; the empty one is never counted. *)
Definition partition_size (tasks : list Task) (ordinal : string) : nat :=
  length (filter (λ t, tk_partition t = ordinal ∧ ordinal ≠ "") tasks).
Definition label_step (tasks : list Task) (labels : gmap string string) (t : Task) : gmap string string :=
  if partition_size tasks (tk_partition t) <? 2 then labels
  else match labels !! tk_partition t with
  | Some _ => labels
  | None => <[tk_partition t := "p" +:+ Itoa (Z.of_nat (size labels) + 1)]> labels
  end.
Definition PartitionLabels (tasks : list Task) : gmap string string := foldl (label_step tasks) ∅ tasks.

Definition ProvenanceLabel (t : Task) : string := if is_empty (tk_alias t) then tk_provider t else tk_alias t.

(** ** The store as a reader, and the supervisor's handlers *)

Section Handlers.
Context `{SqlEngine} `{StoreGraph.BindingCodec} `{OperatorCodec}.

Definition store_reader (v : View) : Reader := mkReader
  (λ q, (λ r, match r with Ok sn => Ok (Some sn) | Err e => Err e end) <$> ReadOperatorSnapshot v q)
  (λ q, match ListOperatorMessages v q with Ok p => Ok (Some p) | Err e => Err e end)
  (λ project plan ids, ListOperatorTaskDescriptions (vw_db v) project plan ids).

(** The codes of [internal/ipc]; an error without one is internal. *)
Inductive ObserveCode := CodeInvalidArgs | CodeNotFound | Uncoded.
Definition codeObserveError (e : ObserveError) : ObserveCode :=
  match e with
  | ErrRead (ErrOperatorInvalidQuery _) | ErrRead (ErrOperatorInvalidCursor _) => CodeInvalidArgs
  | ErrRead ErrOperatorProjectNotFound | ErrRead ErrOperatorPlanNotFound | ErrRead ErrOperatorTaskNotFound
  | ErrRead ErrOperatorTaskDetailNotFound => CodeNotFound
  | _ => Uncoded
  end.

Definition code_reply {A} (r : result ObserveError A) : result (ObserveCode * ObserveError) A :=
  match r with Ok a => Ok a | Err e => Err (codeObserveError e, e) end.
Definition HandleObserveSnapshot (v : View) (q : OperatorSnapshotQuery) : option (result (ObserveCode * ObserveError) Snapshot) :=
  code_reply <$> Service_Snapshot (Some (store_reader v)) q.
Definition HandleObserveMessages (v : View) (q : OperatorMessageQuery) : result (ObserveCode * ObserveError) MessagePage :=
  code_reply (Service_Messages (Some (store_reader v)) q).
Definition HandleObserveTaskDescriptions (v : View) (projectID planID : string) (taskIDs : list string)
    : result (ObserveCode * ObserveError) TaskDescriptions :=
  code_reply (Service_TaskDescriptions (store_reader v) projectID planID taskIDs).

(** ** The commands that read them ([cmd/radioactive_ralph]) *)

Inductive CommandError := CommandRemote (e : ObserveCode * ObserveError) | CommandInvalid (e : ObserveError) | CommandActiveWorkers (n : Z) | CommandArgument.

(** [runStatusQueryWith] of [query_cmd.go], up to what it prints. *)
Definition runStatusQueryWith (v : View) (q : OperatorSnapshotQuery) (requireZeroWorkers : bool) : option (result CommandError Snapshot) :=
  (λ reply, match reply with
     | Err e => Err (CommandRemote e)
     | Ok sn =>
         match ValidateSnapshotResponse (Some sn) q with
         | Err e => Err (CommandInvalid e)
         | Ok _ =>
             if requireZeroWorkers && negb (su_active_workers (sn_summary sn) =? 0)%Z
             then Err (CommandActiveWorkers (su_active_workers (sn_summary sn))) else Ok sn
         end
     end) <$> HandleObserveSnapshot v q.

(** [liveEventSource.Backlog] of [events_cmd.go]: the events to print, oldest
    first, and the cursor the live tail starts from. *)
Definition backlog_query (projectID : string) (n : Z) : OperatorSnapshotQuery :=
  mkSnapshotQuery projectID "" "" 1 "" 1 no_task_cursor (if (n =? 0)%Z then 1 else n) 0.
Definition Backlog (v : View) (projectID : string) (n : Z) : option (result CommandError (list Event * Z)) :=
  if (n <? 0)%Z then Some (Err CommandArgument)
  else (λ reply, match reply with
    | Err e => Err (CommandRemote e)
    | Ok sn =>
        match ValidateSnapshotResponse (Some sn) (backlog_query projectID n) with
        | Err e => Err (CommandInvalid e)
        | Ok _ => Ok (if (n =? 0)%Z then [] else rev (items (wp_items (sn_events sn))), sn_event_cursor sn)
        end
    end) <$> HandleObserveSnapshot v (backlog_query projectID n).

(** [collectPlanPages] of [plan_cmd.go], one view for each page it fetches; the
    outer [None]: more pages than views, or a read that does not return. *)
Definition plan_query (projectID afterID : string) : OperatorSnapshotQuery :=
  mkSnapshotQuery projectID "" "" MaxPageLimit afterID 0 no_task_cursor 0 0.
Fixpoint plan_pages (views : list View) (projectID afterID : string) : option (result CommandError (list Plan)) :=
  match views with
  | [] => None
  | v :: views' =>
      match HandleObserveSnapshot v (plan_query projectID afterID) with
      | None => None
      | Some (Err e) => Some (Err (CommandRemote e))
      | Some (Ok sn) =>
          let page := sn_plans sn in
          if negb (wp_has_more page) || is_empty (wp_next page) then Some (Ok (items (wp_items page)))
          else (λ rest, try later := rest in Ok (items (wp_items page) ++ later)) <$> plan_pages views' projectID (wp_next page)
      end
  end.
Definition shown (all : bool) (p : Plan) : bool := all || bool_decide (pn_status p = "active") || bool_decide (pn_status p = "paused").
(** [sort.SliceStable] by [UpdatedAt], the latest first. *)
Fixpoint insert_plan (p : Plan) (l : list Plan) : list Plan :=
  match l with
  | [] => [p]
  | p' :: l' => if (pn_updated p' <? pn_updated p)%Z then p :: l else p' :: insert_plan p l'
  end.
Definition by_updated (l : list Plan) : list Plan := foldl (λ acc p, insert_plan p acc) [] l.
Definition collectPlanPages (views : list View) (projectID : string) (all : bool) : option (result CommandError (list Plan)) :=
  (λ r, try items := r in Ok (by_updated (filter (λ p, shown all p = true) items))) <$> plan_pages views projectID "".
End Handlers.
