(* ===== verification/ObserveProps.v ===== *)
(** * Properties of the operator's responses

    Whatever the store promises, the service projects and the client accepts; a
    passing zero-worker check means no running worker; a collected list of plans
    is complete; the printed backlog continues into the live tail. *)
From stdpp Require Import sorting.
From S2P Require Import Prelude GoLib GoTime StoreModel StoreSql StoreTasks StoreEvents StoreEventsProps StoreProjects StoreInv StoreSpec StoreProps PlanModel PlanImport Provider ProviderProps StoreOperator StoreOperatorProps OperatorReadProps Observe.

(** ** The projection and the client's check *)

Lemma each_check_passes {E A} (f : A → result E unit) l : (∀ x, x ∈ l → f x = Ok tt) → check_each f l = Ok tt.
Proof. induction l as [|x l IH]; intros Hall; [done|]. simpl. rewrite Hall by by left. apply IH. intros y Hy. apply Hall. by right. Qed.

Lemma not_over n max : (Z.of_nat n ≤ max)%Z → over n max = false.
Proof. intros Hn. unfold over. apply Z.ltb_ge. lia. Qed.
Lemma not_empty s : s ≠ "" → is_empty s = false.
Proof. intros Hs. unfold is_empty. by apply bool_decide_eq_false. Qed.
Lemma not_outside scope value : (scope ≠ "" → value = scope) → outside scope value = false.
Proof.
  intros Hs. unfold outside, is_empty. case_bool_decide as He; [done|]. simpl. by rewrite bool_decide_true by auto.
Qed.

(** Every status the store knows has a state. *)
Lemma state_known st : ∃ state, StateForTask (task_status_text st) = Ok state.
Proof. destruct st; by eexists. Qed.

Section Accepted.
Context (raw : OperatorSnapshot) (q : OperatorSnapshotQuery) (Hsa : sound_answer raw q).

Lemma claims_sum ws n : foldl (λ n w, n + length (ow_claims w)) n ws = n + sum_list ((λ w, length (ow_claims w)) <$> ws).
Proof. revert n. induction ws as [|w ws IH]; intros n; cbn [foldl fmap list_fmap]; [simpl; lia|]. rewrite IH. simpl. unfold fmap. lia. Qed.

Lemma read_model_ok : validateSnapshotReadModel raw (sq_project q) = Ok tt.
Proof using Hsa.
  unfold validateSnapshotReadModel. cbv zeta. destruct (sa_scope _ _ Hsa) as [Hpr _]. pose proof (sa_project _ _ Hsa) as Hid.
  destruct (sa_plans_page _ _ Hsa) as [Hpl Hpn], (sa_tasks_page _ _ Hsa) as [Htl Htn], (sa_events_page _ _ Hsa) as [Hel Hen].
  destruct (sa_workers _ _ Hsa) as (Hac & Hwl & Hcl).
  rewrite Hid, not_empty, bool_decide_true by done. rewrite Hac, Nat.eqb_refl.
  rewrite !not_over by done. rewrite (proj2 (Nat.ltb_ge _ _) Hwl). simpl. unfold refuse_if.
  rewrite claims_sum. rewrite (proj2 (Nat.ltb_ge _ (0 + _))) by done.
  assert (pg_has_more (os_plans raw) && is_empty (pg_next (os_plans raw)) = false ∧ negb (pg_has_more (os_plans raw)) && negb (is_empty (pg_next (os_plans raw))) = false) as [-> ->].
  { destruct (pg_has_more (os_plans raw)); [destruct Hpn as [Hpn _]; by rewrite not_empty|by rewrite Hpn]. }
  assert (pg_has_more (os_tasks raw) && match pg_next (os_tasks raw) with None => true | Some c => is_empty (tc_plan c) || is_empty (tc_task c) end = false ∧
    negb (pg_has_more (os_tasks raw)) && bool_decide (is_Some (pg_next (os_tasks raw))) = false) as [-> ->].
  { destruct (pg_has_more (os_tasks raw)); [destruct Htn as [(c & -> & Hc1 & Hc2) _]; by rewrite !not_empty|by rewrite Htn]. }
  assert (pg_has_more (os_events raw) && (pg_next (os_events raw) <=? 0)%Z = false ∧ negb (pg_has_more (os_events raw)) && negb (pg_next (os_events raw) =? 0)%Z = false) as [-> ->].
  { destruct (pg_has_more (os_events raw)); [split; [|done]; apply Z.leb_gt; lia|by rewrite Hen]. }
  done.
Qed.

Lemma task_projected t : t ∈ pg_items (os_tasks raw) → ∃ tk, taskFromStore t = Ok tk.
Proof using Hsa.
  intros Hin. destruct (sa_tasks _ _ Hsa t Hin) as (Hp & Hi & _). unfold taskFromStore. rewrite !not_empty by done. simpl.
  destruct (state_known (ot_status t)) as [state ->]. by eexists.
Qed.
Lemma task_projection t tk : taskFromStore t = Ok tk → tk_plan tk = ot_plan t ∧ tk_id tk = ot_id t.
Proof. unfold taskFromStore. intros ([] & _ & Hr)%rbind_ok. by apply rbind_ok in Hr as (state & _ & [= <-]). Qed.

Lemma tasks_projected : ∃ page, tasksFromStore (os_tasks raw) = Ok page ∧
  wp_has_more page = pg_has_more (os_tasks raw) ∧ wp_next page = (λ c, mkCursor (tc_plan c) (tc_task c)) <$> pg_next (os_tasks raw) ∧
  ∃ l, wp_items page = Some l ∧ Forall2 (λ t tk, taskFromStore t = Ok tk) (pg_items (os_tasks raw)) l.
Proof using Hsa.
  unfold tasksFromStore. destruct (scan_rows_answers taskFromStore (pg_items (os_tasks raw))) as [l Hl]; [apply task_projected|].
  rewrite Hl. simpl. eexists. split_and!; [done..|]. simpl. exists l. split; [done|]. by apply scan_rows_ok.
Qed.

Lemma count_claims_ok claims n :
  (∀ c, c ∈ claims → wc_plan c ≠ "" ∧ wc_task c ≠ "") → n + length claims ≤ MaxOperatorActiveClaims → count_claims claims n = Ok (n + length claims).
Proof.
  revert n. induction claims as [|c claims IH]; intros n Hc Hn; simpl in *; [by rewrite Nat.add_0_r|].
  destruct (Hc c) as [Hp Ht]; [by left|]. rewrite !not_empty by done. simpl. unfold refuse_if.
  assert (MaxOperatorActiveClaims <? S n = false) as -> by (apply Nat.ltb_ge; lia). simpl.
  rewrite IH; [by rewrite Nat.add_succ_r|intros x Hx; apply Hc; by right|lia].
Qed.
Lemma count_worker_claims_ok ws n :
  (∀ w, w ∈ ws → ow_id w ≠ "" ∧ ∀ c, c ∈ ow_claims w → oc_plan c ≠ "" ∧ oc_task c ≠ "") →
  n + sum_list ((λ w, length (ow_claims w)) <$> ws) ≤ MaxOperatorActiveClaims → ∃ m, count_worker_claims (workersFromStore ws) n = Ok m.
Proof.
  revert n. induction ws as [|w ws IH]; intros n Hw Hn; [by eexists|]. destruct (Hw w) as [Hid Hc]; [by left|].
  assert (n + (length (ow_claims w) + sum_list ((λ w, length (ow_claims w)) <$> ws)) ≤ MaxOperatorActiveClaims) as Hsum by exact Hn. clear Hn.
  cbn [workersFromStore fmap list_fmap count_worker_claims wk_id wk_claims]. rewrite not_empty by done. cbn [is_nil orb refuse_if rbind items default].
  assert (length ((λ c, mkClaim (oc_plan c) (oc_task c) (task_status_text (oc_status c))) <$> ow_claims w) = length (ow_claims w)) as Hlen by by rewrite length_fmap.
  rewrite count_claims_ok; [|by intros c (c' & -> & Hin)%list_elem_of_fmap; apply Hc|unfold id; rewrite Hlen; lia].
  unfold id. rewrite Hlen. apply IH; [intros x Hx; apply Hw; by right|lia].
Qed.

Lemma events_ok cursor l previous :
  (∀ e, e ∈ l → (0 < oe_id e ≤ cursor)%Z ∧ (sq_plan q ≠ "" → oe_plan e = sq_plan q) ∧ (sq_task q ≠ "" → oe_task e = sq_task q)) →
  StronglySorted (λ a b, (oe_id b < oe_id a)%Z) l → (∀ id e, previous = Some id → e ∈ l → (oe_id e < id)%Z) →
  validateSnapshotEvents (EventFromMetadata <$> l) previous cursor q = Ok tt.
Proof.
  revert previous. induction l as [|e l IH]; intros previous Hall Hsort Hprev; [done|].
  destruct (Hall e) as (Hid & Hp & Ht); [by left|]. apply StronglySorted_inv in Hsort as [Hsort He]. rewrite Forall_forall in He.
  cbn [fmap list_fmap validateSnapshotEvents]. unfold EventFromMetadata at 1 2 3 4 5 6 7. cbn [en_id en_plan en_task].
  assert ((oe_id e <=? 0)%Z || (cursor <? oe_id e)%Z = false) as ->
    by (apply orb_false_iff; split; [apply Z.leb_gt|apply Z.ltb_ge]; lia).
  rewrite !not_outside by done.
  assert (match previous with Some id => (id <=? oe_id e)%Z | None => false end = false) as ->.
  { destruct previous as [id|]; [|done]. apply Z.leb_gt. apply Hprev; [done|by left]. }
  simpl. apply IH; [intros x Hx; apply Hall; by right|done|]. intros id x [= <-] Hx. by apply He.
Qed.

Lemma pages_ok tasks counts1 counts2 captured :
  wp_has_more tasks = pg_has_more (os_tasks raw) → wp_next tasks = (λ c, mkCursor (tc_plan c) (tc_task c)) <$> pg_next (os_tasks raw) →
  (∃ l, wp_items tasks = Some l ∧ Forall2 (λ t tk, taskFromStore t = Ok tk) (pg_items (os_tasks raw)) l) →
  let sn := mkSnapshot SchemaVersion captured (projectFromStore (os_project raw))
    (mkSummary (totalCount counts1) (totalCount counts2) (Z.of_nat (os_active_workers raw)) (os_active_workers raw =? 0) counts1 counts2)
    (plansFromStore (os_plans raw)) tasks (Some (workersFromStore (os_workers raw))) (os_event_cursor raw) (eventsFromStore (os_events raw)) in
  ValidateSnapshotResponse (Some sn) q = Ok tt.
Proof using Hsa.
  intros Hmore Hnext (l & Hitems & Hl). cbv zeta. destruct (sa_scope _ _ Hsa) as (Hpr & Htp & Hpa & Hta).
  destruct (sa_plans_page _ _ Hsa) as [Hpl Hpn], (sa_tasks_page _ _ Hsa) as [Htl Htn], (sa_events_page _ _ Hsa) as [Hel Hen].
  destruct (sa_workers _ _ Hsa) as (Hac & Hwl & Hcl). unfold ValidateSnapshotResponse. cbn [sn_schema]. rewrite Z.eqb_refl. cbn [negb refuse_if rbind].
  assert (∀ A B (f : A → B) (xs : list A), length (f <$> xs) = length xs) as Hfl by (intros; apply length_fmap).
  unfold validateSnapshotQueryAndProject, validateSnapshotPages, validateSnapshotSummary.
  cbn [sn_project projectFromStore po_id sn_plans sn_tasks sn_workers sn_events sn_summary sn_event_cursor plansFromStore eventsFromStore wp_items wp_has_more wp_next is_nil items default su_active_workers su_zero_active orb].
  rewrite (sa_project _ _ Hsa), Hitems, Hmore, Hnext. rewrite (not_empty _ Hpr), bool_decide_true by done.
  assert ((false || negb (is_empty (sq_task q)) && is_empty (sq_plan q)) || negb (is_empty (sq_plan q)) && negb (is_empty (sq_plan_after q)) ||
    negb (is_empty (sq_task q)) && (negb (is_empty (tc_plan (sq_task_after q))) || negb (is_empty (tc_task (sq_task_after q)))) = false) as ->.
  { unfold is_empty. repeat case_bool_decide; try done; naive_solver. }
  cbn [negb orb refuse_if rbind is_nil items default].
  unfold id. pose proof (Forall2_length _ _ _ Hl) as Hll. rewrite !Hfl, <-Hll, !not_over by done.
  assert (eqb (pg_has_more (os_plans raw)) (negb (is_empty (pg_next (os_plans raw)))) = true ∧ negb (is_empty (sq_plan q)) && pg_has_more (os_plans raw) = false) as [-> ->].
  { destruct (pg_has_more (os_plans raw)); [destruct Hpn as [Hpn ->]; by rewrite (not_empty _ Hpn)|rewrite Hpn; by rewrite andb_false_r]. }
  assert (match (λ c, mkCursor (tc_plan c) (tc_task c)) <$> pg_next (os_tasks raw) with
    | None => pg_has_more (os_tasks raw) | Some c => negb (pg_has_more (os_tasks raw)) || is_empty (cu_plan c) || is_empty (cu_task c) end = false ∧
    negb (is_empty (sq_task q)) && pg_has_more (os_tasks raw) = false) as [-> ->].
  { destruct (pg_has_more (os_tasks raw)); [destruct Htn as [(c & -> & Hc1 & Hc2) ->]; simpl; by rewrite !not_empty|rewrite Htn; by rewrite andb_false_r]. }
  assert (eqb (pg_has_more (os_events raw)) (0 <? pg_next (os_events raw))%Z = true) as ->.
  { destruct (pg_has_more (os_events raw)); [by rewrite (proj2 (Z.ltb_lt _ _) Hen)|by rewrite Hen]. }
  cbn [negb orb refuse_if rbind]. unfold workersFromStore at 1 2. rewrite Hfl, Hac, Z.eqb_refl, (proj2 (Nat.ltb_ge _ _) Hwl). cbn [negb refuse_if rbind].
  destruct (count_worker_claims_ok (os_workers raw) 0) as [m ->]; [apply (sa_worker _ _ Hsa)|done|]. cbn [rbind].
  assert (eqb (length (os_workers raw) =? 0) (Z.of_nat (length (os_workers raw)) =? 0)%Z = true) as -> by (by destruct (os_workers raw)).
  rewrite (proj2 (Z.ltb_ge _ _) (sa_cursor _ _ Hsa)). cbn [negb refuse_if rbind].
  assert (validateSnapshotPlans ((λ p, mkPlan (ol_id p) (ol_slug p) (ol_title p) (plan_status_text (ol_status p)) (Z.of_nat (ol_task_done p))
      (Z.of_nat (ol_task_total p)) (ol_no_runnable_work p) (ol_created p) (ol_updated p)) <$> pg_items (os_plans raw)) q = Ok tt) as ->.
  { apply each_check_passes. intros x (p & -> & Hp)%list_elem_of_fmap. cbn [pn_id pn_done pn_total]. destruct (sa_plans _ _ Hsa p Hp) as (Hid & Hle & Hs).
    rewrite not_empty, not_outside by done. rewrite !(proj2 (Z.ltb_ge _ _)) by lia. done. }
  cbn [rbind]. assert (validateSnapshotTasks l q = Ok tt) as ->.
  { apply each_check_passes. intros tk Htk. apply list_elem_of_lookup in Htk as [n Hn]. destruct (Forall2_lookup_r _ _ _ _ _ Hl Hn) as (t & Ht & [-> ->]%task_projection).
    destruct (sa_tasks _ _ Hsa t) as (? & ? & ? & ?); [by eapply list_elem_of_lookup_2|]. by rewrite !not_empty, !not_outside. }
  cbn [rbind]. apply events_ok; [apply (sa_events _ _ Hsa)|apply (sa_newest_first _ _ Hsa)|done].
Qed.

(** A promised answer is projected, and its projection accepted. *)
Lemma answer_accepted : ∃ sn, project_snapshot raw (sq_project q) = Ok sn ∧ ValidateSnapshotResponse (Some sn) q = Ok tt.
Proof using Hsa.
  unfold project_snapshot. rewrite read_model_ok. cbn [rbind]. destruct tasks_projected as (page & -> & Hm & Hn & Hl). cbn [rbind].
  eexists. split; [reflexivity|]. by apply pages_ok.
Qed.
End Accepted.

(** ** The whole request *)

Section Requests.
Context `{SqlEngine} `{StoreGraph.BindingCodec} `{OperatorCodec}.

Lemma snapshot_workers_count raw sn project : project_snapshot raw project = Ok sn → su_active_workers (sn_summary sn) = Z.of_nat (os_active_workers raw).
Proof. unfold project_snapshot. intros ([] & _ & Hr)%rbind_ok. by apply rbind_ok in Hr as (ts & _ & [= <-]). Qed.

(** What is behind a reply. *)
Lemma handled_reads v q sn :
  HandleObserveSnapshot v q = Some (Ok sn) →
  ∃ raw levels pl tl el, snapshot_reads v q raw levels pl tl el ∧ project_snapshot raw (sq_project q) = Ok sn.
Proof.
  unfold HandleObserveSnapshot, Service_Snapshot. cbn [New store_reader rd_snapshot].
  destruct (ReadOperatorSnapshot v q) as [[raw|e]|] eqn:Hr; [|done..]. cbn [fmap option_fmap option_map code_reply].
  destruct (snapshot_read _ _ _ Hr) as (levels & pl & tl & el & Hreads).
  destruct (project_snapshot raw (sq_project q)) as [sn'|e] eqn:Hp; cbn [code_reply]; [|by intros [=]].
  intros [= <-]. by exists raw, levels, pl, tl, el.
Qed.
Lemma projection_parts raw project sn :
  project_snapshot raw project = Ok sn →
  sn_plans sn = plansFromStore (os_plans raw) ∧ sn_event_cursor sn = os_event_cursor raw ∧ sn_events sn = eventsFromStore (os_events raw).
Proof. unfold project_snapshot. intros ([] & _ & Hp)%rbind_ok. by apply rbind_ok in Hp as (ts & _ & [= <-]). Qed.

(** A sound store's reply to a request. *)
Definition coded_reply (v : View) (q : OperatorSnapshotQuery) (e : ObserveCode * ObserveError) : Prop :=
  e.1 ≠ Uncoded ∨ e.2 = ErrRead ErrOperatorSnapshotTooLarge ∧ fits (vw_db v) (sq_project q) = false.

Lemma handled v q :
  view_ok v → ∃ r, HandleObserveSnapshot v q = Some r ∧
  match r with
  | Ok sn => ValidateSnapshotResponse (Some sn) q = Ok tt ∧ su_active_workers (sn_summary sn) = Z.of_nat (length (project_workers (vw_db v) (sq_project q)))
  | Err e => coded_reply v q e
  end.
Proof.
  intros Hv. destruct (snapshot_answered v q Hv) as (r & Hr & Herr). unfold HandleObserveSnapshot, Service_Snapshot. cbn [New store_reader rd_snapshot].
  rewrite Hr. cbn [fmap option_fmap option_map]. eexists. split; [reflexivity|]. destruct r as [raw|e].
  - destruct (answer_accepted raw q (answer_sound _ _ _ Hv Hr)) as (sn & Hsn & Hval). rewrite Hsn. cbn [code_reply]. split; [done|].
    rewrite (snapshot_workers_count _ _ _ Hsn). f_equal. destruct (snapshot_read _ _ _ Hr) as (levels & pl & tl & el & Hreads).
    rewrite (sr_active _ _ _ _ _ _ _ Hreads). pose proof (sr_workers _ _ _ _ _ _ _ Hreads) as Hw. rewrite workers_read in Hw by done.
    destruct (fits _ _); [|done]. injection Hw as <-. destruct (all_rows (vw_db v) (sq_project q)) as (Hall & _). rewrite Hall. by rewrite length_fmap.
  - unfold coded_reply, code_reply. simpl. destruct (Herr e eq_refl) as [Hq|[-> Hf]]; [|by right]. left. by destruct e.
Qed.

(** C30: the operator's status request is decided, and its gate is exact. On a sound store the request always comes back: either with a response the client's own check accepts, whose count of active workers is the number of running workers on the project, or with an error the request accounts for (invalid, not found) or the one that says the project has more running than a list may hold. With [--require-zero-workers] it passes exactly when no worker is running on the project, and otherwise reports how many are. *)
Theorem status_gate_is_exact v q require :
  view_ok v → ∃ r, runStatusQueryWith v q require = Some r ∧
  let workers := project_workers (vw_db v) (sq_project q) in
  match r with
  | Ok sn => ValidateSnapshotResponse (Some sn) q = Ok tt ∧ su_active_workers (sn_summary sn) = Z.of_nat (length workers) ∧ (require = true → workers = [])
  | Err (CommandActiveWorkers n) => require = true ∧ n = Z.of_nat (length workers) ∧ workers ≠ []
  | Err (CommandRemote e) => coded_reply v q e
  | Err _ => False
  end.
Proof.
  intros Hv. destruct (handled v q Hv) as (r & Hr & Hok). unfold runStatusQueryWith. rewrite Hr. cbn [fmap option_fmap option_map].
  eexists. split; [reflexivity|]. cbv zeta. destruct r as [sn|e]; [|done]. destruct Hok as [Hval Hn]. rewrite Hval.
  destruct require; cbn [andb]; [|by rewrite Hn].
  destruct (Z.eqb_spec (su_active_workers (sn_summary sn)) 0) as [Hz|Hz]; cbn [negb].
  - split_and!; [done..|]. intros _. destruct (project_workers _ _); [done|]. simpl in Hn. lia.
  - split_and!; [done..|]. intros He. rewrite He in Hn. simpl in Hn. lia.
Qed.
End Requests.

(** ** A demonstration *)

Section Demonstration.
#[local] Existing Instance merge_engine.
#[local] Existing Instance toy_binding_codec.
#[local] Existing Instance plain_codec.

Lemma status_gate_is_exact_witness :
  ∃ r, runStatusQueryWith dead_view dead_query true = Some r ∧
  let workers := project_workers (vw_db dead_view) (sq_project dead_query) in
  match r with
  | Ok sn => ValidateSnapshotResponse (Some sn) dead_query = Ok tt ∧ su_active_workers (sn_summary sn) = Z.of_nat (length workers) ∧ (true = true → workers = [])
  | Err (CommandActiveWorkers n) => true = true ∧ n = Z.of_nat (length workers) ∧ workers ≠ []
  | Err (CommandRemote e) => coded_reply dead_view dead_query e
  | Err _ => False
  end.
Proof. exact (status_gate_is_exact dead_view dead_query true dead_view_ok). Defined.
End Demonstration.

(** * Collecting every page of plans

    [collectPlanPages] asks page after page by keyset cursor while the store
    changes: what it collects is complete, free of duplicates and sorted. *)

(** ** The order of ids *)

Lemma text_lt_spec a b : text_lt a b = true ↔ String.leb a b = true ∧ a ≠ b.
Proof. unfold text_lt. rewrite andb_true_iff, negb_true_iff, bool_decide_eq_false. done. Qed.
Lemma text_lt_trans a b c : text_lt a b = true → text_lt b c = true → text_lt a c = true.
Proof.
  rewrite !text_lt_spec. intros [Hab Hne1] [Hbc Hne2]. split.
  - apply Is_true_true. eapply (transitivity (R:=String.le)); by apply Is_true_true.
  - intros <-. apply Hne1. by apply String.leb_antisym.
Qed.
Lemma text_lt_irrefl a : text_lt a a = false.
Proof. unfold text_lt. by rewrite (bool_decide_true (a = a)), andb_false_r. Qed.
Lemma text_lt_total a b : text_lt a b = true ∨ a = b ∨ text_lt b a = true.
Proof. rewrite !text_lt_spec. destruct (decide (a = b)); [by right; left|]. destruct (String.leb_total a b); naive_solver. Qed.

(** ** One page *)

Section Pages.
Context `{SqlEngine}.

Abbreviation past after id := (after = "" ∨ text_lt after id = true).

(** The rows behind a page that starts after [after]. *)
Definition rows_past (s : DB) (project after : string) : list (string * StoreModel.Plan) :=
  order_by (λ r, [KText r.1]) (filter (λ r, optionally "" r.1 = true ∧ past after r.1) (project_plans s project)).

Lemma rows_past_elem s project after id pl :
  (id, pl) ∈ rows_past s project after ↔ db_plans s !! id = Some pl ∧ p_project pl = project ∧ past after id.
Proof.
  unfold rows_past. rewrite order_by_perm, list_elem_of_filter. unfold project_plans. rewrite list_elem_of_filter, elem_of_map_to_list. simpl.
  assert (optionally "" id = true) by done. tauto.
Qed.

Lemma rows_past_sorted s project after : StronglySorted (λ a b, text_lt a b = true) ((rows_past s project after).*1).
Proof.
  assert (NoDup (rows_past s project after)) as Hnd.
  { unfold rows_past. rewrite order_by_perm. apply NoDup_filter. unfold project_plans. apply NoDup_filter, NoDup_map_to_list. }
  assert (∀ id p1 p2, (id, p1) ∈ rows_past s project after → (id, p2) ∈ rows_past s project after → p1 = p2) as Hkey.
  { intros id p1 p2 [H1 _]%rows_past_elem [H2 _]%rows_past_elem. congruence. }
  pose proof (order_by_sorted _ (λ r : string * StoreModel.Plan, [KText r.1]) (filter (λ r, optionally "" r.1 = true ∧ past after r.1) (project_plans s project))) as Hs.
  fold (rows_past s project after) in Hs. revert Hnd Hkey Hs. generalize (rows_past s project after). intros rows.
  induction rows as [|[id pl] rows IH]; intros Hnd Hkey Hs; [constructor|]. apply NoDup_cons in Hnd as [Hr Hnd].
  apply StronglySorted_inv in Hs as [Hs Hall]. rewrite Forall_forall in Hall. constructor; [apply IH; [done|set_solver|done]|].
  apply Forall_forall. intros x ([id' pl'] & -> & Hx)%list_elem_of_fmap. specialize (Hall _ Hx). unfold key_order, key_leb in Hall.
  cbn [fst] in *. case_decide as Heq.
  - injection Heq as ->. destruct Hr. assert (pl = pl') as ->; [|done]. apply (Hkey id'); [by left|by right].
  - apply text_lt_spec. split; [by apply Is_true_true in Hall|congruence].
Qed.

(** A page lists the first ids past its cursor; what it leaves out lies past the
    cursor it hands on. *)
Lemma plans_page s project after limit page :
  readOperatorPlans s project "" after limit = Ok page → 1 ≤ limit →
  let ids := ol_id <$> pg_items page in
  StronglySorted (λ a b, text_lt a b = true) ids ∧
  (∀ item, item ∈ pg_items page → ∃ row, db_plans s !! ol_id item = Some row ∧ p_project row = project ∧ past after (ol_id item) ∧ ol_status item = p_status row) ∧
  (∀ id row, db_plans s !! id = Some row → p_project row = project → past after id →
     id ∈ ids ∨ pg_has_more page = true ∧ text_lt (pg_next page) id = true) ∧
  (pg_has_more page = true → pg_next page ∈ ids ∧ ∀ id, id ∈ ids → id = pg_next page ∨ text_lt id (pg_next page) = true).
Proof.
  intros Hp Hlim. pose proof (page_shape _ _ _ _ _ _ Hp Hlim) as (Hlen & Hmore & _).
  unfold readOperatorPlans in Hp. fold (rows_past s project after) in Hp, Hmore. pose proof (rows_past_sorted s project after) as Hsort.
  apply rbind_ok in Hp as (items & Hs & [= Hpage]). apply scan_rows_ok in Hs.
  assert (ol_id <$> items = (take (limit + 1) (rows_past s project after)).*1) as Hids.
  { clear -Hs. revert Hs. generalize (take (limit + 1) (rows_past s project after)). intros rows Hs. induction Hs as [|row item rows items Hri _ IH]; [done|].
    cbn [fmap list_fmap]. apply scan_plan_fields in Hri as [-> _]. f_equal. exact IH. }
  assert (ol_id <$> pg_items page = take limit ((rows_past s project after).*1)) as Hshown.
  { rewrite <-Hpage, cut_page_items, fmap_take, Hids, <-!fmap_take, take_take. do 2 f_equal. lia. }
  cbv zeta. rewrite Hshown. split_and!.
  - by apply StronglySorted_take.
  - intros item Hin. rewrite <-Hpage, cut_page_items in Hin. apply subseteq_take, list_elem_of_lookup in Hin as [n Hn].
    destruct (Forall2_lookup_r _ _ _ _ _ Hs Hn) as ([id pl] & Hrow & Hscan). apply list_elem_of_lookup_2, subseteq_take, rows_past_elem in Hrow as (Hk & Hpr & Hpast).
    pose proof (scan_plan_fields _ _ _ Hscan) as [Hid _]. simpl in Hid. rewrite Hid. exists pl. split_and!; [done..|].
    unfold scan_plan in Hscan. apply rbind_ok in Hscan as (c & _ & Hscan). by apply rbind_ok in Hscan as (u & _ & [= <-]).
  - intros id row Hk Hpr Hpast. assert (id ∈ (rows_past s project after).*1) as Hin.
    { apply list_elem_of_fmap. exists (id, row). split; [done|]. by apply rows_past_elem. }
    rewrite <-(take_drop limit ((rows_past s project after).*1)) in Hin. apply elem_of_app in Hin as [Hin|Hin]; [by left|right].
    assert (limit < length (rows_past s project after)) as Hlt.
    { apply list_elem_of_lookup in Hin as [n Hn]. rewrite lookup_drop in Hn. apply lookup_lt_Some in Hn. rewrite length_fmap in Hn. lia. }
    split; [rewrite Hmore; by apply Nat.ltb_lt|]. rewrite <-Hpage, cut_page_next.
    assert (limit <? length items = true) as Hmi by (apply Nat.ltb_lt; apply Forall2_length in Hs; rewrite length_take in Hs; lia). rewrite Hmi.
    destruct (last (take limit items)) as [item|] eqn:Hl; [|apply last_None, (f_equal length) in Hl; rewrite length_take in Hl; simpl in Hl; apply Nat.ltb_lt in Hmi; lia].
    apply last_Some_elem_of in Hl. assert (ol_id item ∈ take limit ((rows_past s project after).*1)) as Hi.
    { rewrite <-Hshown, <-Hpage, cut_page_items. by apply list_elem_of_fmap_2. }
    rewrite <-(take_drop limit ((rows_past s project after).*1)) in Hsort. by apply (StronglySorted_app_1_elem_of _ _ _ _ _ Hsort).
  - intros Hm. rewrite <-Hpage, cut_page_next. rewrite <-Hpage, cut_page_more in Hm. rewrite Hm.
    destruct (last (take limit items)) as [item|] eqn:Hl; [|apply last_None, (f_equal length) in Hl; rewrite length_take in Hl; simpl in Hl; apply Nat.ltb_lt in Hm; lia].
    assert (last (take limit ((rows_past s project after).*1)) = Some (ol_id item)) as Hlast.
    { rewrite <-Hshown, <-Hpage, cut_page_items, fmap_last, Hl. done. }
    split; [by apply last_Some_elem_of|]. apply (StronglySorted_take _ limit) in Hsort. revert Hsort Hlast. generalize (take limit ((rows_past s project after).*1)).
    intros l Hsort Hlast id Hid. apply last_Some in Hlast as [l' ->]. apply elem_of_app in Hid as [Hid| ->%list_elem_of_singleton]; [right|by left].
    apply (StronglySorted_app_1_elem_of _ _ _ _ _ Hsort); [done|by left].
Qed.
End Pages.

(** ** Page after page *)

Section Collect.
Context `{SqlEngine} `{StoreGraph.BindingCodec} `{OperatorCodec}.
Abbreviation past after id := (after = "" ∨ text_lt after id = true).
Abbreviation plan_at v project id row := (db_plans (vw_db v) !! id = Some row ∧ p_project row = project).

Lemma snapshot_page v project after sn :
  HandleObserveSnapshot v (plan_query project after) = Some (Ok sn) →
  ∃ page, readOperatorPlans (vw_db v) project "" after 200 = Ok page ∧ sn_plans sn = plansFromStore page.
Proof.
  intros (raw & levels & pl & tl & el & Hreads & (Hp & _ & _)%projection_parts)%handled_reads. exists (os_plans raw). split; [|done].
  assert (pl = 200) as ->; [|exact (sr_plans _ _ _ _ _ _ _ Hreads)].
  pose proof (query_limits _ _ _ _ (sr_query _ _ _ _ _ _ _ Hreads)) as (Hq & _). by injection Hq as <-.
Qed.

Lemma plan_item_projection page p :
  p ∈ items (wp_items (plansFromStore page)) → ∃ item, item ∈ pg_items page ∧ pn_id p = ol_id item ∧ pn_status p = plan_status_text (ol_status item).
Proof. simpl. intros (item & -> & Hin)%list_elem_of_fmap. by exists item. Qed.
Lemma plan_ids_projection page : pn_id <$> items (wp_items (plansFromStore page)) = ol_id <$> pg_items page.
Proof. simpl. by rewrite <-list_fmap_compose. Qed.

Lemma plan_pages_ok views project after l :
  (∀ v, v ∈ views → db_plans (vw_db v) !! "" = None) → plan_pages views project after = Some (Ok l) →
  StronglySorted (λ a b, text_lt a b = true) (pn_id <$> l) ∧
  (∀ p, p ∈ l → past after (pn_id p) ∧ ∃ v row, v ∈ views ∧ plan_at v project (pn_id p) row ∧ pn_status p = plan_status_text (p_status row)) ∧
  (∀ id, (∀ v, v ∈ views → ∃ row, plan_at v project id row) → past after id → id ∈ pn_id <$> l).
Proof.
  revert after l. induction views as [|v views IH]; intros after l Hids; [done|]. cbn [plan_pages].
  destruct (HandleObserveSnapshot v (plan_query project after)) as [[sn|e]|] eqn:Hh; [|done..].
  destruct (snapshot_page _ _ _ _ Hh) as (page & Hp & Hsn). rewrite Hsn. cbv zeta.
  destruct (plans_page _ _ _ _ _ Hp ltac:(lia)) as (Hsort & Hitems & Hall & Hnext).
  rewrite <-(plan_ids_projection page) in Hsort, Hall, Hnext.
  assert (∀ p, p ∈ items (wp_items (plansFromStore page)) → past after (pn_id p) ∧ ∃ v' row, v' ∈ v :: views ∧ plan_at v' project (pn_id p) row ∧ pn_status p = plan_status_text (p_status row)) as Hfrom.
  { intros p (item & Hin & -> & ->)%plan_item_projection. destruct (Hitems item Hin) as (row & Hk & Hpr & Hpast & ->). split; [done|].
    exists v, row. split_and!; [by left|done..]. }
  assert (pg_has_more page = true → pg_next page ≠ "") as Hcursor.
  { intros Hm He. destruct (Hnext Hm) as [Hin _]. rewrite He, plan_ids_projection in Hin. apply list_elem_of_fmap in Hin as (item & Hid & Hin).
    destruct (Hitems item Hin) as (row & Hk & _). rewrite <-Hid in Hk. rewrite (Hids v) in Hk by by left. done. }
  cbn [plansFromStore wp_has_more wp_next] in *. set (shown := items (wp_items (plansFromStore page))) in *. change (items (wp_items (mkWire _ _ _))) with shown.
  destruct (negb (pg_has_more page) || is_empty (pg_next page)) eqn:Hstop.
  - intros [= <-]. split_and!; [done|done|]. intros id Hid Hpast. destruct (Hid v) as (row & Hk & Hpr); [by left|].
    destruct (Hall id row Hk Hpr Hpast) as [|[Hm Hlt]]; [done|]. rewrite Hm, (not_empty _ (Hcursor Hm)) in Hstop. done.
  - apply orb_false_iff in Hstop as [Hm%negb_false_iff _]. destruct (Hnext Hm) as [Hnin Hle].
    intros (rest & Hrest & Hl)%fmap_Some. destruct rest as [later|]; [|done]. injection Hl as ->.
    destruct (IH _ _ (λ v' Hin, Hids v' (list_elem_of_further _ _ _ Hin)) Hrest) as (Hsort' & Hfrom' & Hall').
    rewrite fmap_app. assert (∀ id, id ∈ pn_id <$> later → text_lt (pg_next page) id = true) as Hlater.
    { intros id (p & -> & Hin)%list_elem_of_fmap. destruct (Hfrom' p Hin) as [[He|] _]; [|done]. by destruct (Hcursor Hm). }
    split_and!.
    + apply StronglySorted_app_2; [|done|done]. intros a b Ha Hb. apply Hlater in Hb. destruct (Hle a Ha) as [->|Hlt]; [done|by eapply text_lt_trans].
    + intros p [Hin|Hin]%elem_of_app; [by apply Hfrom|]. destruct (Hfrom' p Hin) as (_ & v' & row & Hv & Hrow). split; [|exists v', row; split; [by right|done]].
      assert (text_lt (pg_next page) (pn_id p) = true) as Hlt by by apply Hlater, list_elem_of_fmap_2.
      apply list_elem_of_fmap in Hnin as (p0 & Heq & Hp0). destruct (Hfrom p0 Hp0) as [[He|Hlt0] _]; [by left|right]. rewrite <-Heq in Hlt0. by eapply text_lt_trans.
    + intros id Hid Hpast. rewrite elem_of_app. destruct (Hid v) as (row & Hk & Hpr); [by left|].
      destruct (Hall id row Hk Hpr Hpast) as [|[_ Hlt]]; [by left|right]. apply Hall'; [|by right]. intros v' Hv'. apply Hid. by right.
Qed.

(** Each page moves the cursor past a plan. *)
Lemma rows_past_nodup s project after : NoDup (rows_past s project after).
Proof. unfold rows_past. rewrite order_by_perm. apply NoDup_filter. unfold project_plans. apply NoDup_filter, NoDup_map_to_list. Qed.

Lemma plan_pages_end v project after n :
  view_ok v → length (rows_past (vw_db v) project after) < n → is_Some (plan_pages (replicate n v) project after).
Proof.
  intros Hv. revert after. induction n as [|n IH]; intros after Hn; [lia|]. cbn [replicate plan_pages].
  destruct (handled v (plan_query project after) Hv) as (r & Hh & _). rewrite Hh. destruct r as [sn|e]; [|by eexists].
  destruct (snapshot_page _ _ _ _ Hh) as (page & Hp & ->). cbv zeta. cbn [plansFromStore wp_has_more wp_next].
  destruct (negb (pg_has_more page) || is_empty (pg_next page)) eqn:Hstop; [by eexists|].
  apply orb_false_iff in Hstop as [Hm%negb_false_iff Hne]. destruct (plans_page _ _ _ _ _ Hp ltac:(lia)) as (_ & Hitems & _ & Hnext).
  destruct (Hnext Hm) as [Hin _]. apply list_elem_of_fmap in Hin as (item & Hid & Hin). destruct (Hitems item Hin) as (row & Hk & Hpr & Hpast & _). rewrite <-Hid in Hk, Hpast.
  destruct (IH (pg_next page)) as [rest Hrest]; [|rewrite Hrest; by eexists].
  assert ((pg_next page, row) :: rows_past (vw_db v) project (pg_next page) ⊆+ rows_past (vw_db v) project after) as Hsub.
  { apply NoDup_submseteq.
    - apply NoDup_cons. split; [|apply rows_past_nodup]. intros (_ & _ & [He|Hlt])%rows_past_elem; [by rewrite He in Hne|]. by rewrite text_lt_irrefl in Hlt.
    - intros [id pl] [[= -> ->]|(Hk' & Hpr' & Hlt)%rows_past_elem]%elem_of_cons; apply rows_past_elem; split_and!; [done..|].
      destruct Hlt as [He|Hlt]; [by rewrite He in Hne|]. destruct Hpast as [|Hpast]; [by left|right]. by eapply text_lt_trans. }
  apply submseteq_length in Hsub. simpl in Hsub. lia.
Qed.

(** [sort.SliceStable]. *)
Lemma insert_plan_perm p l : insert_plan p l ≡ₚ p :: l.
Proof. induction l as [|x l IH]; simpl; [done|]. destruct (pn_updated x <? pn_updated p)%Z; [done|]. by rewrite IH, Permutation_swap. Qed.
Abbreviation latest_first := (StronglySorted (λ a b, (pn_updated b ≤ pn_updated a)%Z)).
Lemma insert_plan_sorted p l : latest_first l → latest_first (insert_plan p l).
Proof.
  induction 1 as [|x l Hl IH Hx]; simpl; [repeat constructor|]. rewrite Forall_forall in Hx. destruct (Z.ltb_spec (pn_updated x) (pn_updated p)) as [Hlt|Hge].
  - constructor; [by constructor; [|apply Forall_forall]|]. apply Forall_forall. intros y [->|Hy]%elem_of_cons; [lia|]. specialize (Hx y Hy). lia.
  - constructor; [done|]. apply Forall_forall. intros y. rewrite insert_plan_perm. intros [->|Hy]%elem_of_cons; [done|by apply Hx].
Qed.
Lemma by_updated_spec l : by_updated l ≡ₚ l ∧ latest_first (by_updated l).
Proof.
  unfold by_updated. assert (∀ acc, latest_first acc → foldl (λ acc p, insert_plan p acc) acc l ≡ₚ l ++ acc ∧ latest_first (foldl (λ acc p, insert_plan p acc) acc l)) as Hall.
  { induction l as [|p l IH]; intros acc Hacc; simpl; [done|]. destruct (IH (insert_plan p acc)) as [Hp Hs]; [by apply insert_plan_sorted|]. split; [|done].
    rewrite Hp, insert_plan_perm. by rewrite Permutation_middle. }
  destruct (Hall []) as [Hp Hs]; [constructor|]. by rewrite app_nil_r in Hp.
Qed.

Lemma shown_status all p st : pn_status p = plan_status_text st → shown all p = true ↔ all = true ∨ st = PlanStatusActive ∨ st = PlanStatusPaused.
Proof. intros Hst. unfold shown. rewrite Hst, !orb_true_iff, !bool_decide_eq_true. destruct st; simpl; naive_solver. Qed.

(** [plan ls] shows every plan. It asks for page after page while the plans change between its requests; when it answers, no plan is shown twice, the most recently updated come first, each plan shown was the project's at one of its requests, with the status it had then, and every plan that was the project's through all of them, active or paused (or whatever its status, with [--all]), is shown. And it does answer: on a store that stays as it is, after at most one request more than the project has plans. *)
Theorem plan_ls_shows_every_plan project all :
  (∀ views l, (∀ v, v ∈ views → db_plans (vw_db v) !! "" = None) → collectPlanPages views project all = Some (Ok l) →
     NoDup (pn_id <$> l) ∧ StronglySorted (λ a b, (pn_updated b ≤ pn_updated a)%Z) l ∧
     (∀ p, p ∈ l → ∃ v row, v ∈ views ∧ db_plans (vw_db v) !! pn_id p = Some row ∧ p_project row = project ∧ pn_status p = plan_status_text (p_status row)) ∧
     ∀ id, (∀ v, v ∈ views → ∃ row, db_plans (vw_db v) !! id = Some row ∧ p_project row = project ∧
              (all = true ∨ p_status row = PlanStatusActive ∨ p_status row = PlanStatusPaused)) → id ∈ pn_id <$> l) ∧
  (∀ v n, view_ok v → length (project_plans (vw_db v) project) < n → is_Some (collectPlanPages (replicate n v) project all)).
Proof.
  split.
  - intros views l Hids. unfold collectPlanPages. intros (r & Hr & Hl)%fmap_Some. destruct r as [found|]; [|done]. injection Hl as ->.
    destruct (plan_pages_ok _ _ _ _ Hids Hr) as (Hsort & Hfrom & Hall). destruct (by_updated_spec (filter (λ p, shown all p = true) found)) as [Hperm Hlatest].
    assert (NoDup (pn_id <$> found)) as Hnd.
    { clear -Hsort. induction Hsort as [|id ids _ IH Hid]; constructor; [|done]. intros Hin. rewrite Forall_forall in Hid. specialize (Hid _ Hin). by rewrite text_lt_irrefl in Hid. }
    split_and!; [|done| |].
    + rewrite Hperm. clear -Hnd. induction found as [|p found IH]; [constructor|]. apply NoDup_cons in Hnd as [Hp Hnd]. rewrite filter_cons. case_decide; [|by apply IH].
      cbn [fmap list_fmap]. apply NoDup_cons. split; [|by apply IH]. intros (x & Heq & [_ Hx]%list_elem_of_filter)%list_elem_of_fmap. apply Hp. rewrite Heq. by apply list_elem_of_fmap_2.
    + intros p. rewrite Hperm. intros [_ Hin]%list_elem_of_filter. destruct (Hfrom p Hin) as (_ & v & row & Hv & [Hk Hpr] & Hst). by exists v, row.
    + intros id Hid. destruct (decide (id = "")) as [->|Hne].
      { destruct views as [|v views]; [done|]. destruct (Hid v) as (row & Hk & _); [by left|]. by rewrite (Hids v) in Hk by by left. }
      assert (id ∈ pn_id <$> found) as (p & -> & Hin)%list_elem_of_fmap.
      { apply Hall; [|by left]. intros v Hv. destruct (Hid v Hv) as (row & Hk & Hpr & _). by exists row. }
      apply list_elem_of_fmap. exists p. split; [done|]. rewrite Hperm. apply list_elem_of_filter. split; [|done].
      destruct (Hfrom p Hin) as (_ & v & row & Hv & [Hk Hpr] & Hst). apply (shown_status _ _ _ Hst). destruct (Hid v Hv) as (row' & Hk' & _ & Hs). congruence.
  - intros v n Hv Hn. unfold collectPlanPages. destruct (plan_pages_end v project "" n Hv) as [r ->]; [|by eexists].
    eapply Nat.le_lt_trans; [|exact Hn]. unfold rows_past. rewrite (Permutation_length (order_by_perm _ _ _)). apply length_filter.
Qed.
End Collect.

(** ** A demonstration *)

Section Demonstration.
#[local] Existing Instance merge_engine.
#[local] Existing Instance toy_binding_codec.
#[local] Existing Instance plain_codec.

Definition dead_plans : list Plan :=
  match collectPlanPages [dead_view] "proj" false with Some (Ok l) => l | _ => [] end.
Lemma dead_plans_collected : collectPlanPages [dead_view] "proj" false = Some (Ok dead_plans).
Proof. vm_compute. reflexivity. Qed.
Lemma dead_plan_q : ∃ row, db_plans (vw_db dead_view) !! "q" = Some row ∧ p_project row = "proj" ∧
  (false = true ∨ p_status row = PlanStatusActive ∨ p_status row = PlanStatusPaused).
Proof. eexists. split; [vm_compute; reflexivity|]. split; [reflexivity|]. right. left. reflexivity. Qed.

Lemma plan_ls_shows_every_plan_witness :
  "q" ∈ pn_id <$> dead_plans ∧ is_Some (collectPlanPages (replicate 3 dead_view) "proj" false).
Proof.
  destruct (plan_ls_shows_every_plan "proj" false) as [Hall Hend]. split; [|apply Hend; [exact dead_view_ok|]].
  - destruct (Hall [dead_view] dead_plans) as (_ & _ & _ & Hq).
    + intros v ->%list_elem_of_singleton. exact (vo_plan_ids _ dead_view_ok).
    + exact dead_plans_collected.
    + apply Hq. intros v ->%list_elem_of_singleton. exact dead_plan_q.
  - assert (length (project_plans (vw_db dead_view) "proj") = 2) as -> by (vm_compute; reflexivity). lia.
Defined.
End Demonstration.

(** * What an operator is told of events

    The printed backlog continues into the live tail; what an event says of a
    failed turn agrees with what the store did about it. *)

(** ** Lists *)

Lemma filter_agree {A} (P Q : A → Prop) `{∀ x, Decision (P x), ∀ x, Decision (Q x)} (l : list A) : (∀ x, x ∈ l → P x ↔ Q x) → filter P l = filter Q l.
Proof.
  induction l as [|x l IH]; intros Hall; [done|]. rewrite !filter_cons, IH by (intros; apply Hall; by right).
  specialize (Hall x (list_elem_of_here _ _)). by destruct (decide (P x)), (decide (Q x)); try naive_solver.
Qed.
Lemma fmap_rev {A B} (f : A → B) (l : list A) : f <$> rev l = rev (f <$> l).
Proof. induction l as [|x l IH]; [done|]. simpl. by rewrite fmap_app, IH. Qed.

(** ** The backlog *)

Section Backlog.
Context `{SqlEngine} `{StoreGraph.BindingCodec} `{OperatorCodec}.

(** The newest rows first are those of the tail, reversed. *)
Lemma page_rows_scoped l project :
  log_ok l → event_page_rows l project "" "" 0 = rev (scoped_rows l project 0).
Proof.
  intros Hl. pose proof Hl as (Hs & Hids & _). rewrite Forall_forall in Hids.
  assert (filter (λ r, event_in l project "" "" r = true ∧ (0%Z = 0%Z ∨ (lr_id r < 0)%Z)) (lg_rows l) = scoped_rows l project 0) as Hrows.
  { apply filter_agree. intros r Hr%Hids. assert (event_in l project "" "" r = in_scope l project (lr_event r)) as -> by (unfold event_in; simpl; by rewrite !andb_true_r).
    split; [intros [Hsc _]; split; [lia|done]|intros [_ Hsc]; split; [done|by left]]. }
  unfold event_page_rows. rewrite Hrows. apply (StronglySorted_unique_strong (λ a b, (lr_id b < lr_id a)%Z)).
  - intros; lia.
  - apply (newest_rows_sorted l); [done| |by intros r [_ Hr]%list_elem_of_filter]. apply NoDup_filter. by apply log_rows_nodup.
  - assert (StronglySorted id_lt (scoped_rows l project 0)) as Hsc by by apply scoped_sorted. revert Hsc. generalize (scoped_rows l project 0). intros rows Hsc.
    induction Hsc as [|r rows _ IH Hr]; [constructor|]. simpl. apply StronglySorted_app_2; [|done|repeat constructor].
    intros x y Hx%list_elem_of_In%in_rev%list_elem_of_In ->%list_elem_of_singleton. rewrite Forall_forall in Hr. by apply Hr.
  - rewrite order_by_perm. apply Permutation_rev.
Qed.

Lemma max_id_scope project l : MaxEventID project l = 0%Z ∨ ∃ r, r ∈ lg_rows l ∧ in_scope l project (lr_event r) = true ∧ lr_id r = MaxEventID project l.
Proof.
  unfold MaxEventID. assert (∀ r, r ∈ filter (λ r, in_scope l project (lr_event r) = true) (lg_rows l) → r ∈ lg_rows l ∧ in_scope l project (lr_event r) = true) as Hin
    by by intros r [? ?]%list_elem_of_filter.
  revert Hin. generalize (filter (λ r, in_scope l project (lr_event r) = true) (lg_rows l)). intros rows Hin.
  induction rows as [|r rows IH]; [by left|]. cbn [fmap list_fmap foldr]. destruct (Z.max_spec (lr_id r) (foldr Z.max 0%Z (lr_id <$> rows))) as [[_ Hm]|[_ Hm]]; rewrite Hm.
  - apply IH. set_solver.
  - right. exists r. split_and!; [apply Hin; by left..|done].
Qed.

(** the backlog meets the tail. [events -n] prints the newest [n] events of the project that the log holds, oldest first, and hands the live tail a cursor at which nothing is lost and nothing repeated: no event the read saw lies past it, and in any later log the project's events are those the read saw followed by exactly those past the cursor. *)
Theorem backlog_meets_the_tail v project n es cursor :
  view_ok v → (0 < n)%Z → Backlog v project n = Some (Ok (es, cursor)) →
  let ids := lr_id <$> scoped_rows (vw_log v) project 0 in
  en_id <$> es = drop (length ids - Z.to_nat n) ids ∧ scoped_rows (vw_log v) project cursor = [] ∧
  ∀ l' rows, log_ok l' → lg_rows l' = lg_rows (vw_log v) ++ rows →
    (∀ r, r ∈ lg_rows (vw_log v) → in_scope l' project (lr_event r) = in_scope (vw_log v) project (lr_event r)) →
    scoped_rows l' project 0 = scoped_rows (vw_log v) project 0 ++ scoped_rows l' project cursor.
Proof.
  intros Hv Hn. unfold Backlog. rewrite (proj2 (Z.ltb_ge n 0)) by lia. intros (r & Hr & Hb)%fmap_Some.
  destruct r as [sn|e]; [|done]. destruct (ValidateSnapshotResponse (Some sn) (backlog_query project n)); [|done]. rewrite (proj2 (Z.eqb_neq n 0)) in Hb by lia. injection Hb as -> ->.
  destruct (handled_reads _ _ _ Hr) as (raw & levels & pl & tl & el & Hreads & Hsn). set (l := vw_log v).
  assert (sn_event_cursor sn = MaxEventID project l) as Hc.
  { destruct (projection_parts _ _ _ Hsn) as (_ & -> & _). exact (sr_cursor _ _ _ _ _ _ _ Hreads). }
  assert (0 < el ∧ el = Z.to_nat n) as [Hel Heln].
  { pose proof (sr_query _ _ _ _ _ _ _ Hreads) as Hq. destruct (query_ok _ _ _ _ Hq) as (_ & _ & _ & [He _]). split; [lia|].
    apply query_limits in Hq as [_ Hq]. unfold backlog_query in Hq. simpl in Hq. rewrite (proj2 (Z.eqb_neq n 0)) in Hq by lia. unfold normalizeOperatorLimit in Hq.
    rewrite (proj2 (Z.eqb_neq n 0)) in Hq by lia. destruct ((n <? 0)%Z || _); [done|]. by injection Hq as <-. }
  pose proof (vo_log v Hv) as Hlog. fold l in Hlog. cbv zeta. rewrite Hc.
  assert (∀ r, r ∈ scoped_rows l project 0 → (lr_id r ≤ MaxEventID project l)%Z) as Hle.
  { unfold scoped_rows. intros r [[_ Hs] Hin]%list_elem_of_filter. by apply max_id_above. }
  split_and!.
  - pose proof (sr_events _ _ _ _ _ _ _ Hreads) as He. unfold readOperatorEvents in He. simpl in He. fold l in He. rewrite page_rows_scoped in He by done.
    apply rbind_ok in He as (items & Hs & [= Hpage]). apply scan_rows_ok in Hs.
    assert (oe_id <$> items = lr_id <$> take (el + 1) (rev (scoped_rows l project 0))) as Hids.
    { clear -Hs. induction Hs as [|row item rows items Hri _ IH]; [done|]. cbn [fmap list_fmap]. apply scan_event_fields in Hri as [-> _]. f_equal. exact IH. }
    destruct (projection_parts _ _ _ Hsn) as (_ & _ & ->). simpl. rewrite fmap_rev, <-list_fmap_compose, <-Hpage, cut_page_items.
    change (en_id ∘ EventFromMetadata) with oe_id. rewrite fmap_take, Hids, <-fmap_take, take_take, Nat.min_l by lia.
    rewrite fmap_take, fmap_rev, Heln. rewrite firstn_rev, rev_involutive. done.
  - apply filter_none. intros r Hr' [Hlt Hs]. pose proof (max_id_above project l r Hr' Hs). lia.
  - intros l' rows Hl' Hrows Hscope. unfold scoped_rows at 1 3. rewrite Hrows, !filter_app.
    rewrite (filter_none (λ r, (MaxEventID project l < lr_id r)%Z ∧ in_scope l' project (lr_event r) = true) (lg_rows l)); [|intros r Hin [Hlt Hs]; rewrite Hscope in Hs by done; pose proof (max_id_above project l r Hin Hs); lia].
    f_equal.
    + apply filter_agree. intros r Hin. by rewrite Hscope.
    + destruct Hl' as (Hsort & Hpos & _). rewrite Hrows in Hsort, Hpos. rewrite Forall_forall in Hpos.
      apply filter_agree. intros r Hin. apply and_iff_compat_r. split; [|pose proof (max_id_nonneg project l); lia]. intros _.
      destruct (max_id_scope project l) as [->|(r0 & Hr0 & _ & <-)]; [apply Hpos; set_solver|]. exact (StronglySorted_app_1_elem_of _ _ _ _ _ Hsort Hr0 Hin).
Qed.
End Backlog.

(** ** Failures *)

Section Failures.
Context `{OperatorCodec}.

(** What the operator's event of a store row says. *)
Definition told (e : StoreModel.Event) : option FailureSummary := failureForEvent (e_kind e) (payload_category (e_payload e)).

(** an operator is told the truth about a retry. When a worker reports a classified provider failure the store requeues the task, if the category allows it and the budget lasts, or fails it for good; the event it writes is shown as a failure marked retryable in the first case only, with the provider's own summary for a throttled or unavailable provider. A task failed for good is always shown as out of retry budget - also when it was the category, such as a refused credential, that forbade the retry, although that summary exists - and its category is only on the task's row. *)
Theorem failures_are_told_truly e p i x budget s t :
  let f := ClassifyFailure (Some e) in
  reporter s (p, i) x = Some t → (0 ≤ t_retry_count t)%Z →
  ∃ requeued t' ev summary,
    MarkFailedWithPayload p i x (failed_turn f) (RetryBudget f budget) s = (Ok requeued, reported (p, i) t' ev s) ∧
    requeued = Retryable f && bool_decide (t_retry_count t < budget)%Z ∧ told ev = Some summary ∧ fs_retryable summary = requeued ∧
    (if requeued then fs_category summary = match fa_category f with
       | Provider.FailureProviderThrottled => FailureProviderThrottled
       | Provider.FailureProviderUnavailable => FailureProviderUnavailable
       | _ => FailureTaskAttempt end
     else summary = mkFailure FailureTaskTerminal "task retry budget was exhausted" false ∧
       t_failure_category t' = Some (category_text (fa_category f))).
Proof.
  intros f Hr Hn. rewrite MarkFailed_run, Hr.
  assert (fa_category f ≠ FailureNone) as Hcat.
  { unfold f, ClassifyFailure. destruct (te_blocked e) as [[[] []]|]; repeat (destruct (is_one_of _ _); [done|]); done. }
  assert (nullIfEmpty (category_text (fa_category f)) = Some (category_text (fa_category f))) as Htext by (by destruct (fa_category f)).
  clearbody f. destruct (Z.leb_spec (t_retry_count t + 1) (RetryBudget f budget)) as [Hle|Hgt].
  - assert (Retryable f = true) as Hret by (unfold RetryBudget in Hle; destruct (Retryable f); [done|lia]).
    assert (∃ summary, failureForEvent "task.failed" (category_text (fa_category f)) = Some summary ∧ fs_retryable summary = true ∧
      fs_category summary = match fa_category f with
       | Provider.FailureProviderThrottled => FailureProviderThrottled
       | Provider.FailureProviderUnavailable => FailureProviderUnavailable
       | _ => FailureTaskAttempt end) as (summary & Ht & Hs & Hc)
      by (unfold Retryable in Hret; destruct (fa_category f); try done; (eexists; split; [vm_compute; reflexivity|done])).
    exists true; eexists _, _, summary. split; [done|]. split; [|done]. rewrite Hret. symmetry. apply bool_decide_eq_true.
    unfold RetryBudget in Hle. rewrite Hret in Hle. lia.
  - eexists false, _, _, _. split; [reflexivity|]. split.
    { unfold RetryBudget in Hgt. destruct (Retryable f); [|done]. symmetry. apply bool_decide_eq_false. lia. }
    split; [reflexivity|]. split; [reflexivity|]. split; [reflexivity|]. exact Htext.
Qed.
End Failures.

(** A refused credential is not retried, and not told. *)
Example refused_credential_reads_as_exhausted `{OperatorCodec} :
  let f := ClassifyFailure (Some demo_error) in
  category_text (fa_category f) = "provider_auth" ∧ RetryBudget f 3 = 0%Z ∧
  providerFailureSummary (category_text (fa_category f)) =
    Some (mkFailure FailureProviderAuth "provider authentication or model access was denied" false) ∧
  failureForEvent "task.failed_terminal" (category_text (fa_category f)) = Some (mkFailure FailureTaskTerminal "task retry budget was exhausted" false).
Proof. by vm_compute. Qed.

(** ** Witnesses *)

Section Demonstration.
#[local] Existing Instance merge_engine.
#[local] Existing Instance toy_binding_codec.
#[local] Existing Instance plain_codec.

Lemma failures_are_told_truly_witness :
  ∃ requeued t' ev summary,
    MarkFailedWithPayload "plan" "t" "s1" (failed_turn demo_failure) (RetryBudget demo_failure 3) demo_failed_db =
      (Ok requeued, reported ("plan", "t") t' ev demo_failed_db) ∧
    requeued = Retryable demo_failure && bool_decide (t_retry_count demo_failed_task < 3)%Z ∧ told ev = Some summary ∧ fs_retryable summary = requeued ∧
    (if requeued then fs_category summary = match fa_category demo_failure with
       | Provider.FailureProviderThrottled => FailureProviderThrottled
       | Provider.FailureProviderUnavailable => FailureProviderUnavailable
       | _ => FailureTaskAttempt end
     else summary = mkFailure FailureTaskTerminal "task retry budget was exhausted" false ∧
       t_failure_category t' = Some (category_text (fa_category demo_failure))).
Proof.
  assert (reporter demo_failed_db ("plan", "t") "s1" = Some demo_failed_task) as Hr by (vm_compute; reflexivity).
  exact (failures_are_told_truly demo_error "plan" "t" "s1" 3 demo_failed_db demo_failed_task Hr ltac:(by vm_compute)).
Defined.

(** A log of three events, the last of another project. *)
Definition busy_log : EventLog :=
  let event project kind := StoreModel.mkEvent (Some project) None None kind None None (PayloadJSON "{}") in
  foldl (λ l e, append_event e 5 l) (vw_log dead_view) [event "proj" "one"; event "proj" "two"; event "else" "three"].
Definition busy_view : View := mkView dead_db (vw_projects dead_view) (vw_updated dead_view) busy_log [].
Lemma busy_log_ok : log_ok busy_log.
Proof. unfold busy_log. cbn [foldl]. repeat apply log_ok_append. exact dead_log_ok. Qed.
Lemma busy_view_db : vw_db busy_view = dead_db.
Proof. unfold busy_view. cbn [vw_db]. reflexivity. Qed.
Lemma busy_rows_ok : rows_ok busy_view = true.
Proof. vm_compute. reflexivity. Qed.
Lemma busy_view_ok : view_ok busy_view.
Proof.
  apply view_checked; [|exact busy_log_ok|exact busy_rows_ok]. rewrite busy_view_db, <-dead_view_db. exact (vo_wf _ dead_view_ok).
Qed.
Definition busy_backlog : list Event * Z :=
  match Backlog busy_view "proj" 1 with Some (Ok r) => r | _ => ([], 0%Z) end.
Lemma busy_backlog_read : Backlog busy_view "proj" 1 = Some (Ok (busy_backlog.1, busy_backlog.2)).
Proof. vm_compute. reflexivity. Qed.

Lemma backlog_meets_the_tail_witness : en_id <$> busy_backlog.1 = [2%Z] ∧ scoped_rows busy_log "proj" busy_backlog.2 = [].
Proof.
  destruct (backlog_meets_the_tail busy_view "proj" 1 _ _ busy_view_ok ltac:(lia) busy_backlog_read) as (Hids & Hnone & _). split; [|exact Hnone].
  rewrite Hids. vm_compute. reflexivity.
Defined.
End Demonstration.
