(* ===== verification/GoJson.v ===== *)
(** * The part of [encoding/json] the program reads foreign text with

    [json.Valid] as an executable recogniser of the grammar of Go's scanner that
    returns the tree of the value: numbers and literals as their text, strings
    as the undecoded bytes between the quotes, objects with every member in
    order, duplicates included. Nesting deeper than [maxNestingDepth] is refused
    as the scanner refuses it. [unquote] is the decoding of a string to runes,
    surrogate pairs and invalid UTF-8 included. *)
From S2P Require Import Prelude GoLib.

Abbreviation Bytes := (list Ascii.ascii).

Definition QUOTE : Ascii.ascii := "034"%char.
Definition BACKSLASH : Ascii.ascii := "092"%char.
Definition maxNestingDepth : N := 10000.

Definition byte_val (c : Ascii.ascii) : Z := Z.of_N (N_of_ascii c).
Definition runes_of (s : string) : list Z := byte_val <$> chars s.

(** ** The grammar *)

Definition isSpace (c : Ascii.ascii) : bool :=
  (c =? " ")%char || (c =? "009")%char || (c =? "013")%char || (c =? "010")%char.

Fixpoint skip_ws (l : Bytes) : Bytes :=
  match l with
  | c :: r => if isSpace c then skip_ws r else l
  | [] => []
  end.

(** The rest of a text that starts with [c]. *)
Definition expect (c : Ascii.ascii) (l : Bytes) : option Bytes :=
  match l with
  | x :: r => if (x =? c)%char then Some r else None
  | [] => None
  end.

Definition is_hex (c : Ascii.ascii) : bool :=
  let v := byte_val c in ((48 <=? v) && (v <=? 57) || (97 <=? v) && (v <=? 102) || (65 <=? v) && (v <=? 70))%Z.

Definition simple_escape (c : Ascii.ascii) : bool :=
  existsb (Ascii.eqb c) [QUOTE; BACKSLASH; "/"; "b"; "f"; "n"; "r"; "t"]%char.

(** After an opening quote: the bytes of the string and what follows it. *)
Fixpoint scan_string (l : Bytes) : option (Bytes * Bytes) :=
  match l with
  | [] => None
  | c :: r =>
      if (c =? QUOTE)%char then Some ([], r)
      else if (c =? BACKSLASH)%char then
        match r with
        | [] => None
        | e :: r1 =>
            if simple_escape e then '(b, rest) ← scan_string r1; Some (c :: e :: b, rest)
            else if (e =? "u")%char then
              match r1 with
              | h1 :: h2 :: h3 :: h4 :: r2 =>
                  if forallb is_hex [h1; h2; h3; h4]
                  then '(b, rest) ← scan_string r2; Some (c :: e :: h1 :: h2 :: h3 :: h4 :: b, rest)
                  else None
              | _ => None
              end
            else None
        end
      else if (byte_val c <? 32)%Z then None
      else '(b, rest) ← scan_string r; Some (c :: b, rest)
  end.

Definition is_dec (c : Ascii.ascii) : bool := let v := byte_val c in ((48 <=? v) && (v <=? 57))%Z.

Fixpoint digits (l : Bytes) : Bytes * Bytes :=
  match l with
  | c :: r => if is_dec c then let '(d, rest) := digits r in (c :: d, rest) else ([], l)
  | [] => ([], [])
  end.

(** At least one digit. *)
Definition digits1 (l : Bytes) : option (Bytes * Bytes) :=
  match digits l with ([], _) => None | dr => Some dr end.

Definition number_int (l : Bytes) : option (Bytes * Bytes) :=
  match l with
  | c :: r => if (c =? "0")%char then Some ([c], r) else digits1 l
  | [] => None
  end.

Definition number_frac (l : Bytes) : option (Bytes * Bytes) :=
  match expect "." l with
  | Some r => '(d, rest) ← digits1 r; Some ("."%char :: d, rest)
  | None => Some ([], l)
  end.

Definition number_sign (l : Bytes) : Bytes * Bytes :=
  match l with
  | c :: r => if (c =? "+")%char || (c =? "-")%char then ([c], r) else ([], l)
  | [] => ([], [])
  end.

Definition number_exp (l : Bytes) : option (Bytes * Bytes) :=
  match l with
  | c :: r =>
      if (c =? "e")%char || (c =? "E")%char then
        let '(s, r1) := number_sign r in
        '(d, rest) ← digits1 r1; Some (c :: s ++ d, rest)
      else Some ([], l)
  | [] => Some ([], [])
  end.

Definition scan_number (l : Bytes) : option (Bytes * Bytes) :=
  let '(m, r0) := match expect "-" l with Some r => (["-"%char], r) | None => ([], l) end in
  '(i, r1) ← number_int r0; '(f, r2) ← number_frac r1; '(e, r3) ← number_exp r2;
  Some (m ++ i ++ f ++ e, r3).

Definition literal (s : string) (l : Bytes) : option (Bytes * Bytes) :=
  rest ← strip_prefix (chars s) l; Some (chars s, rest).

Inductive jtree :=
| JAtom (raw : Bytes)
| JStr (body : Bytes)
| JArr (items : list jtree)
| JObj (members : list (Bytes * jtree)).

Definition scan_atom (l : Bytes) : option (jtree * Bytes) :=
  let found :=
    match literal "true" l with
    | Some r => Some r
    | None => match literal "false" l with
              | Some r => Some r
              | None => match literal "null" l with Some r => Some r | None => scan_number l end
              end
    end in
  '(raw, rest) ← found; Some (JAtom raw, rest).

(** A value after optional white space; [fuel] bounds the recursion ([json_tree]
    gives twice the length, which is enough: [json_tree_fuel]), [d] is the
    nesting still allowed. [jmembers] stands after [{] or [,], [jitems] after
    [[] or [,]. *)
Fixpoint jvalue (fuel : nat) (d : N) (l : Bytes) {struct fuel} : option (jtree * Bytes) :=
  match fuel with
  | 0 => None
  | S n =>
      match skip_ws l with
      | [] => None
      | c :: r =>
          if (c =? QUOTE)%char then '(b, rest) ← scan_string r; Some (JStr b, rest)
          else if (c =? "{")%char then
            if (d =? 0)%N then None
            else match expect "}" (skip_ws r) with
                 | Some rest => Some (JObj [], rest)
                 | None => '(ms, rest) ← jmembers n (d - 1) r; Some (JObj ms, rest)
                 end
          else if (c =? "[")%char then
            if (d =? 0)%N then None
            else match expect "]" (skip_ws r) with
                 | Some rest => Some (JArr [], rest)
                 | None => '(vs, rest) ← jitems n (d - 1) r; Some (JArr vs, rest)
                 end
          else scan_atom (c :: r)
      end
  end
with jmembers (fuel : nat) (d : N) (l : Bytes) {struct fuel} : option (list (Bytes * jtree) * Bytes) :=
  match fuel with
  | 0 => None
  | S n =>
      r ← expect QUOTE (skip_ws l);
      '(k, r1) ← scan_string r;
      r2 ← expect ":" (skip_ws r1);
      '(v, r3) ← jvalue n d r2;
      match expect "}" (skip_ws r3) with
      | Some rest => Some ([(k, v)], rest)
      | None =>
          r4 ← expect "," (skip_ws r3);
          '(ms, rest) ← jmembers n d r4; Some ((k, v) :: ms, rest)
      end
  end
with jitems (fuel : nat) (d : N) (l : Bytes) {struct fuel} : option (list jtree * Bytes) :=
  match fuel with
  | 0 => None
  | S n =>
      '(v, r3) ← jvalue n d l;
      match expect "]" (skip_ws r3) with
      | Some rest => Some ([v], rest)
      | None =>
          r4 ← expect "," (skip_ws r3);
          '(vs, rest) ← jitems n d r4; Some (v :: vs, rest)
      end
  end.

Definition json_tree (frame : Bytes) : option jtree :=
  '(t, rest) ← jvalue (S (2 * length frame)) maxNestingDepth frame;
  match skip_ws rest with [] => Some t | _ => None end.

(** [json.Valid]. *)
Definition json_valid (frame : Bytes) : bool := match json_tree frame with Some _ => true | None => false end.

(** ** Strings as runes *)

Definition RuneError : Z := 65533.

Definition hex_val (c : Ascii.ascii) : Z :=
  let v := byte_val c in (if v <=? 57 then v - 48 else if 97 <=? v then v - 97 + 10 else v - 65 + 10)%Z.
Definition hex4 (h1 h2 h3 h4 : Ascii.ascii) : Z :=
  (hex_val h1 * 4096 + hex_val h2 * 256 + hex_val h3 * 16 + hex_val h4)%Z.

Definition is_surrogate (r : Z) : bool := ((55296 <=? r) && (r <? 57344))%Z.
(** [utf16.DecodeRune], [RuneError] when the two are not a pair. *)
Definition DecodeRune16 (r1 r2 : Z) : Z :=
  (if (55296 <=? r1) && (r1 <? 56320) && (56320 <=? r2) && (r2 <? 57344)
   then (r1 - 55296) * 1024 + (r2 - 56320) + 65536 else RuneError)%Z.

Definition escape_val (c : Ascii.ascii) : Z :=
  (if (c =? "b")%char then 8 else if (c =? "f")%char then 12 else if (c =? "n")%char then 10
   else if (c =? "r")%char then 13 else if (c =? "t")%char then 9 else byte_val c)%Z.

Definition in_range (lo hi : Z) (c : Ascii.ascii) : bool := ((lo <=? byte_val c) && (byte_val c <=? hi))%Z.
Definition cont (c : Ascii.ascii) : bool := in_range 128 191 c.
(** The second byte a lead byte accepts. *)
Definition second_ok (c c1 : Ascii.ascii) : bool :=
  if in_range 224 224 c then in_range 160 191 c1
  else if in_range 237 237 c then in_range 128 159 c1
  else if in_range 240 240 c then in_range 144 191 c1
  else if in_range 244 244 c then in_range 128 143 c1
  else cont c1.
Definition low6 (c : Ascii.ascii) : Z := (byte_val c - 128)%Z.

(** [utf8.DecodeRune] of a sequence that does not start with ASCII: the rune and
    the bytes taken. *)
Definition DecodeRune (c : Ascii.ascii) (r : Bytes) : Z * nat :=
  if in_range 194 223 c then
    match r with
    | c1 :: _ => if cont c1 then (((byte_val c - 192) * 64 + low6 c1)%Z, 2) else (RuneError, 1)
    | [] => (RuneError, 1)
    end
  else if in_range 224 239 c then
    match r with
    | c1 :: c2 :: _ =>
        if second_ok c c1 && cont c2 then (((byte_val c - 224) * 4096 + low6 c1 * 64 + low6 c2)%Z, 3) else (RuneError, 1)
    | _ => (RuneError, 1)
    end
  else if in_range 240 244 c then
    match r with
    | c1 :: c2 :: c3 :: _ =>
        if second_ok c c1 && cont c2 && cont c3
        then (((byte_val c - 240) * 262144 + low6 c1 * 4096 + low6 c2 * 64 + low6 c3)%Z, 4) else (RuneError, 1)
    | _ => (RuneError, 1)
    end
  else (RuneError, 1).

(** [getu4]: a [\uXXXX] at the head of a text. *)
Definition getu4 (l : Bytes) : option Z :=
  match l with
  | b :: u :: h1 :: h2 :: h3 :: h4 :: _ =>
      if (b =? BACKSLASH)%char && (u =? "u")%char && forallb is_hex [h1; h2; h3; h4] then Some (hex4 h1 h2 h3 h4) else None
  | _ => None
  end.

(** One rune of the bytes of a string, and the bytes it takes. *)
Definition unquote_rune (c : Ascii.ascii) (r : Bytes) : Z * nat :=
  if (c =? BACKSLASH)%char then
    match r with
    | e :: r1 =>
        if (e =? "u")%char then
          match getu4 (c :: r) with
          | Some rr =>
              if is_surrogate rr then
                match getu4 (drop 4 r1) with
                | Some rr1 => let dec := DecodeRune16 rr rr1 in if (dec =? RuneError)%Z then (RuneError, 6) else (dec, 12)
                | None => (RuneError, 6)
                end
              else (rr, 6)
          | None => (RuneError, 1)
          end
        else (escape_val e, 2)
    | [] => (RuneError, 1)
    end
  else if (byte_val c <? 128)%Z then (byte_val c, 1)
  else DecodeRune c r.

Fixpoint unquote_n (fuel : nat) (l : Bytes) : list Z :=
  match fuel with
  | 0 => []
  | S n => match l with
           | [] => []
           | c :: r => let '(rune, k) := unquote_rune c r in rune :: unquote_n n (drop k l)
           end
  end.

(** The runes of a string's bytes. Every rune takes at least one byte, so the
    length is fuel enough ([unquote_n_fuel]). *)
Definition unquote (l : Bytes) : list Z := unquote_n (length l) l.

(** ** Storing values *)

(** [foldName] of [encoding/json] on the runes that fold to ASCII. *)
Definition fold_rune (r : Z) : Z :=
  (if (97 <=? r) && (r <=? 122) then r - 32 else if r =? 383 then 83 else if r =? 8490 then 75 else r)%Z.
Definition names (key : Bytes) (field : string) : bool :=
  bool_decide (fold_rune <$> unquote key = fold_rune <$> runes_of field).

Definition is_null (raw : Bytes) : bool := bool_decide (raw = chars "null").

(** Storing a value in a string field: a string sets it, [null] leaves it, any
    other value is a type error. *)
Definition set_string (t : jtree) (old : list Z) : list Z * bool :=
  match t with
  | JStr body => (unquote body, true)
  | JAtom raw => (old, is_null raw)
  | _ => (old, false)
  end.

(** A number token in an [int] field: an integer literal that fits 64 bits. *)
Definition json_int (raw : Bytes) : option Z :=
  let '(sign, l) := match expect "-" raw with Some r => ((-1)%Z, r) | None => (1%Z, raw) end in
  match digits1 l with
  | Some (d, []) =>
      let v := (sign * foldl (λ acc c, acc * 10 + (byte_val c - 48)) 0 d)%Z in
      if ((- 2 ^ 63 <=? v) && (v <? 2 ^ 63))%Z then Some v else None
  | _ => None
  end.

(** ** Facts *)

Lemma unquote_rune_takes c r : 1 ≤ (unquote_rune c r).2.
Proof.
  unfold unquote_rune, DecodeRune.
  repeat (case_match; simpl; try lia; simplify_eq).
Qed.

Lemma unquote_n_fuel n m l : length l ≤ n → length l ≤ m → unquote_n n l = unquote_n m l.
Proof.
  revert m l. induction n as [|n IH]; intros [|m] [|c r]; simpl; try done; try lia.
  intros Hn Hm. pose proof (unquote_rune_takes c r) as Hk. destruct (unquote_rune c r) as [rune k]. simpl in Hk.
  f_equal. destruct k as [|k]; [lia|]. simpl. apply IH; rewrite length_drop; lia.
Qed.

Lemma unquote_cons c r :
  unquote (c :: r) = (unquote_rune c r).1 :: unquote (drop (unquote_rune c r).2 (c :: r)).
Proof.
  unfold unquote at 1. cbn [length unquote_n]. pose proof (unquote_rune_takes c r) as Hk.
  destruct (unquote_rune c r) as [rune k]. cbn [fst snd] in *. f_equal. unfold unquote.
  destruct k as [|k]; [lia|]. cbn [drop]. apply unquote_n_fuel; rewrite ?length_drop; lia.
Qed.

Lemma byte_val_range c : (0 ≤ byte_val c < 256)%Z.
Proof. unfold byte_val. destruct c as [[] [] [] [] [] [] [] []]; vm_compute; split; congruence. Qed.

Lemma byte_val_inj c1 c2 : byte_val c1 = byte_val c2 → c1 = c2.
Proof.
  unfold byte_val. intros H%N2Z.inj. rewrite <- (ascii_N_embedding c1), <- (ascii_N_embedding c2). congruence.
Qed.
