(* ===== verification/CodexDiag.v ===== *)
(** * Codex failure diagnostics: [internal/provider/codex_diagnostics.go]

    What a Codex turn's JSONL stream tells of a failure: the top-level type of a
    record read off its syntax bytes, a bounded collector of fixed failure
    categories, the authoritative [turn.failed] flag, and the classification of
    provider prose by whole phrases. A position of the source in a frame is the
    suffix of the frame that starts there; [unicode]'s tables are a class. *)
From S2P Require Import Prelude GoLib GoJson Provider.

(** ** Limits and categories *)

Definition maxCodexDiagnosticBytes : Z := 4096.
Definition maxCodexDiagnosticFrames : Z := 64.
Definition maxCodexDiagnosticInspectedBytes : Z := 262144.
Definition maxCodexDiagnosticFrameBytes : Z := 65536.

(** [codexFailureCategory] is a [uint8]; the constants count from zero. *)
Abbreviation codexFailureCategory := N.
Definition codexFailureGeneric : codexFailureCategory := 0%N.
Definition codexFailureAuthentication : codexFailureCategory := 1%N.
Definition codexFailureModelAccess : codexFailureCategory := 2%N.
Definition codexFailureQuota : codexFailureCategory := 3%N.
Definition codexFailureRateLimit : codexFailureCategory := 4%N.
Definition codexFailureNetwork : codexFailureCategory := 5%N.
Definition codexFailureService : codexFailureCategory := 6%N.
Definition codexFailureInvalidRequest : codexFailureCategory := 7%N.
Definition codexFailureCategoryCount : codexFailureCategory := 8%N.

Definition category_String (c : codexFailureCategory) : string :=
  match c with
  | 1 => "provider authentication rejected"
  | 2 => "provider model unavailable or access denied"
  | 3 => "provider quota exhausted"
  | 4 => "provider rate limited"
  | 5 => "provider network or timeout failure"
  | 6 => "provider service unavailable"
  | 7 => "provider invalid request"
  | _ => "provider failure"
  end%N.

(** ** The bytes of a frame *)

Definition codexFrameWithoutRecordDelimiter (line : Bytes) : Bytes :=
  if decide (last line = Some "010"%char) then removelast line else line.

(** [firstNonJSONWhitespace], with [isJSONWhitespace] as [isSpace]: the suffix at
    the first byte that is not white space, if there is one. *)
Definition firstNonJSONWhitespace (value : Bytes) : option Bytes :=
  match skip_ws value with [] => None | l => Some l end.

Definition jsonHexValue (value : Ascii.ascii) : option Z :=
  let v := byte_val value in
  (if (48 <=? v) && (v <=? 57) then Some (v - 48)
   else if (97 <=? v) && (v <=? 102) then Some (v - 97 + 10)
   else if (65 <=? v) && (v <=? 70) then Some (v - 65 + 10)
   else None)%Z.

(** The loop over the four digits of an escape. *)
Fixpoint hex_code (ds : Bytes) (code : Z) : option Z :=
  match ds with
  | [] => Some code
  | d :: ds' => value ← jsonHexValue d; hex_code ds' (Z.lor (Z.shiftl code 4) value)
  end.

(** How far the token that starts a frame's suffix with its quote reaches: the
    distance from [start] to the returned position. *)
Fixpoint string_end_from (l : Bytes) : nat :=
  match l with
  | [] => 0
  | c :: r =>
      if (c =? BACKSLASH)%char then match r with [] => 1 | _ :: r' => S (S (string_end_from r')) end
      else if (c =? QUOTE)%char then 1
      else S (string_end_from r)
  end.
Definition jsonStringEnd (l : Bytes) : nat :=
  match l with [] => 0 | _ :: r => S (string_end_from r) end.

(** The loop of [jsonStringEqualASCII] over [encoded[1:len-1]]; [want] is what is
    left to match. [unicode.MaxASCII] is 0x7F. *)
Fixpoint equal_from (body want : Bytes) : bool :=
  match body with
  | [] => match want with [] => true | _ => false end
  | c :: r =>
      if negb (c =? BACKSLASH)%char then
        if (127 <=? byte_val c)%Z then false
        else match want with [] => false | w :: want' => if (c =? w)%char then equal_from r want' else false end
      else
        match r with
        | [] => false
        | e :: r1 =>
            let simple (decoded : Ascii.ascii) :=
              match want with [] => false | w :: want' => if (decoded =? w)%char then equal_from r1 want' else false end in
            if (e =? QUOTE)%char || (e =? BACKSLASH)%char || (e =? "/")%char then simple e
            else if (e =? "b")%char then simple "008"%char
            else if (e =? "f")%char then simple "012"%char
            else if (e =? "n")%char then simple "010"%char
            else if (e =? "r")%char then simple "013"%char
            else if (e =? "t")%char then simple "009"%char
            else if (e =? "u")%char then
              match r1 with
              | h1 :: h2 :: h3 :: h4 :: r2 =>
                  match hex_code [h1; h2; h3; h4] 0 with
                  | Some code =>
                      if (127 <=? code)%Z then false
                      else match want with
                           | [] => false
                           | w :: want' => if (ascii_of_N (Z.to_N code) =? w)%char then equal_from r2 want' else false
                           end
                  | None => false
                  end
              | _ => false
              end
            else false
        end
  end.

Definition jsonStringEqualASCII (encoded : Bytes) (want : string) : bool :=
  if length encoded <? 2 then false
  else if negb (bool_decide (head encoded = Some QUOTE)) || negb (bool_decide (last encoded = Some QUOTE)) then false
  else equal_from (removelast (tail encoded)) (chars want).

(** ** The type of a complete record *)

Record codexTopLevelTypeInspection := mkInspection {
  ti_kind : string;
  ti_typeKeys : nat;
  ti_duplicate : bool }.
Definition no_inspection : codexTopLevelTypeInspection := mkInspection "" 0 false.

(** [l] is [frame[keyEnd:]]. *)
Definition codexTopLevelStringValue (l : Bytes) : string :=
  match expect ":" (skip_ws l) with
  | None => ""
  | Some r =>
      match skip_ws r with
      | [] => ""
      | c :: r' =>
          if (c =? QUOTE)%char then
            let value := take (jsonStringEnd (c :: r')) (c :: r') in
            if jsonStringEqualASCII value "turn.failed" then "turn.failed"
            else if jsonStringEqualASCII value "error" then "error"
            else ""
          else ""
      end
  end.

(** A top-level key [token] followed by [rest]. *)
Definition inspect_key (token rest : Bytes) (insp : codexTopLevelTypeInspection) : codexTopLevelTypeInspection :=
  if jsonStringEqualASCII token "type" then
    let typeKeys := S (ti_typeKeys insp) in
    if 1 <? typeKeys then mkInspection (ti_kind insp) typeKeys true
    else mkInspection (codexTopLevelStringValue rest) typeKeys (ti_duplicate insp)
  else insp.

(** The loop over the frame; every step moves on at least one byte, so the length
    is fuel enough. *)
Fixpoint walk (fuel : nat) (l : Bytes) (depth : nat) (expectKey : bool) (insp : codexTopLevelTypeInspection)
    : codexTopLevelTypeInspection :=
  match fuel with
  | 0 => insp
  | S n =>
      if depth =? 0 then insp
      else match l with
      | [] => insp
      | c :: r =>
          if (c =? QUOTE)%char then
            let end_ := jsonStringEnd l in
            if (depth =? 1) && expectKey
            then walk n (drop end_ l) depth false (inspect_key (take end_ l) (drop end_ l) insp)
            else walk n (drop end_ l) depth expectKey insp
          else if (c =? "{")%char || (c =? "[")%char then walk n r (S depth) expectKey insp
          else if (c =? "}")%char || (c =? "]")%char then walk n r (pred depth) expectKey insp
          else if (c =? ",")%char then walk n r depth (if depth =? 1 then true else expectKey) insp
          else walk n r depth expectKey insp
      end
  end.

Definition inspectCodexTopLevelType (frame : Bytes) : codexTopLevelTypeInspection :=
  match firstNonJSONWhitespace frame with
  | Some (c :: r) =>
      if negb (c =? "{")%char then no_inspection
      else if negb (json_valid frame) then no_inspection
      else walk (length r) r 1 true no_inspection
  | _ => no_inspection
  end.

(** ** The type of a discarded prefix *)

Record prefix_type := mkPrefixType { pt_kind : list Z; pt_object : bool; pt_typeFirst : bool }.

(** The first tokens of [json.Decoder]: the delimiter, a key, and a value; a
    token that fails and a value that is no string end alike. *)
Definition codexTopLevelTypeFromPrefix (prefix : Bytes) : prefix_type :=
  match firstNonJSONWhitespace prefix with
  | None => mkPrefixType [] true false
  | Some l =>
      match expect "{" l with
      | None => mkPrefixType [] false false
      | Some r =>
          match expect QUOTE (skip_ws r) ≫= scan_string with
          | None => mkPrefixType [] true false
          | Some (key, r1) =>
              if negb (bool_decide (unquote key = runes_of "type")) then mkPrefixType [] true false
              else
                match expect ":" (skip_ws r1) ≫= λ r2, expect QUOTE (skip_ws r2) ≫= scan_string with
                | None => mkPrefixType [] true false
                | Some (value, _) => mkPrefixType (unquote value) true true
                end
          end
      end
  end.

(** ** The event a record carries *)

Record codexDiagnosticEvent := mkEvent { ev_Type : list Z; ev_Message : list Z; ev_Error_Message : list Z }.
Definition zero_event : codexDiagnosticEvent := mkEvent [] [] [].

Definition set_error_member (st : list Z * bool) (m : Bytes * jtree) : list Z * bool :=
  let '(message, ok) := st in
  if names m.1 "message" then let '(message', ok') := set_string m.2 message in (message', ok && ok') else st.

Definition set_error (t : jtree) (old : list Z) : list Z * bool :=
  match t with
  | JObj members => foldl set_error_member (old, true) members
  | JAtom raw => (old, is_null raw)
  | _ => (old, false)
  end.

Definition set_member (st : codexDiagnosticEvent * bool) (m : Bytes * jtree) : codexDiagnosticEvent * bool :=
  let '(ev, ok) := st in
  if names m.1 "type" then
    let '(v, ok') := set_string m.2 (ev_Type ev) in (mkEvent v (ev_Message ev) (ev_Error_Message ev), ok && ok')
  else if names m.1 "message" then
    let '(v, ok') := set_string m.2 (ev_Message ev) in (mkEvent (ev_Type ev) v (ev_Error_Message ev), ok && ok')
  else if names m.1 "error" then
    let '(v, ok') := set_error m.2 (ev_Error_Message ev) in (mkEvent (ev_Type ev) (ev_Message ev) v, ok && ok')
  else st.

(** [json.Unmarshal(frame, &event)]; a type error anywhere is an error of the
    whole. *)
Definition Unmarshal (frame : Bytes) : option codexDiagnosticEvent :=
  t ← json_tree frame;
  match t with
  | JObj members => let '(ev, ok) := foldl set_member (zero_event, true) members in if ok : bool then Some ev else None
  | JAtom raw => if is_null raw then Some zero_event else None
  | _ => None
  end.

(** ** Classification of prose *)

(** [unicode.ToLower], [unicode.IsLetter] and [unicode.IsDigit]: no letter and no
    digit is white space. *)
Class UnicodeTables := {
  ToLower : Z → Z;
  IsLetter : Z → bool;
  IsDigit : Z → bool }.

Definition unicode_space (r : Z) : bool :=
  ((9 <=? r) && (r <=? 13) || (r =? 32) || (r =? 133) || (r =? 160) || (r =? 5760) ||
   (8192 <=? r) && (r <=? 8202) || (r =? 8232) || (r =? 8233) || (r =? 8239) || (r =? 8287) || (r =? 12288))%Z.

Class UnicodeLaws `{UnicodeTables} : Prop := {
  letter_not_space r : IsLetter r = true → unicode_space r = false;
  digit_not_space r : IsDigit r = true → unicode_space r = false }.

Fixpoint drop_spaces (l : list Z) : list Z :=
  match l with r :: l' => if unicode_space r then drop_spaces l' else l | [] => [] end.
(** [strings.TrimSpace] on runes. *)
Definition trim_runes (l : list Z) : list Z := rev (drop_spaces (rev (drop_spaces l))).

Fixpoint has_prefix (p l : list Z) : bool :=
  match p, l with
  | [], _ => true
  | a :: p', b :: l' => (a =? b)%Z && has_prefix p' l'
  | _, [] => false
  end.
(** [strings.Contains]. *)
Fixpoint contains (l p : list Z) : bool :=
  has_prefix p l || match l with [] => false | _ :: l' => contains l' p end.

Section Classification.
Context `{UnicodeTables}.

Definition word_rune (r : Z) : bool := IsLetter r || IsDigit r.

Fixpoint normalize_from (l : list Z) (separated : bool) : list Z :=
  match l with
  | [] => if separated then [] else [32%Z]
  | r :: l' =>
      if word_rune r then r :: normalize_from l' false
      else if separated then normalize_from l' true
      else 32%Z :: normalize_from l' true
  end.
Definition normalizeCodexDiagnostic (message : list Z) : list Z :=
  32%Z :: normalize_from (ToLower <$> message) true.

Definition containsAnyDiagnosticPhrase (message : list Z) (phrases : list string) : bool :=
  existsb (λ phrase,
    let normalizedPhrase := trim_runes (normalizeCodexDiagnostic (runes_of phrase)) in
    negb (bool_decide (normalizedPhrase = [])) && contains message (32%Z :: normalizedPhrase ++ [32%Z])) phrases.

Definition authentication_phrases : list string :=
  ["authentication"; "unauthorized"; "not authenticated"; "not logged in"; "log in"; "login"; "log out";
   "sign in again"; "api key"; "api_key"; "credential"; "access token could not be refreshed";
   "refresh token has expired"; "401"].
Definition rate_limit_phrases : list string := ["rate limit"; "rate_limit"; "too many requests"; "429"].
Definition quota_phrases : list string :=
  ["quota"; "insufficient_quota"; "billing limit"; "usage limit"; "credits exhausted"; "out of credits"; "spend cap"].
Definition context_phrases : list string := ["context window"; "ran out of room"].
Definition service_phrases : list string :=
  ["service unavailable"; "temporarily unavailable"; "internal server error"; "overloaded"; "at capacity";
   "high demand"; "temporary errors"; "bad gateway"; "gateway timeout"; "500"; "502"; "503"; "504"].
Definition model_phrases : list string := ["model"; "access denied"; "permission denied"; "forbidden"; "403"].
Definition network_phrases : list string :=
  ["network"; "timeout"; "timed out"; "connection"; "dns"; "tls"; "socket"; "unreachable"].
Definition invalid_phrases : list string :=
  ["invalid request"; "bad request"; "malformed"; "validation"; "input too large"; "unsupported"; "400"].

Definition classifyCodexFailure (message : list Z) : codexFailureCategory :=
  let message := normalizeCodexDiagnostic message in
  if containsAnyDiagnosticPhrase message authentication_phrases then codexFailureAuthentication
  else if containsAnyDiagnosticPhrase message rate_limit_phrases then codexFailureRateLimit
  else if containsAnyDiagnosticPhrase message quota_phrases then codexFailureQuota
  else if containsAnyDiagnosticPhrase message context_phrases then codexFailureInvalidRequest
  else if containsAnyDiagnosticPhrase message service_phrases then codexFailureService
  else if containsAnyDiagnosticPhrase message model_phrases then codexFailureModelAccess
  else if containsAnyDiagnosticPhrase message network_phrases then codexFailureNetwork
  else if containsAnyDiagnosticPhrase message invalid_phrases then codexFailureInvalidRequest
  else codexFailureGeneric.
End Classification.

(** ** The collector *)

(** [cd_seen] is nil and empty alike. *)
Record codexDiagnosticCollector := mkCollector {
  cd_categories : list codexFailureCategory;
  cd_seen : gset codexFailureCategory;
  cd_framesInspected : Z;
  cd_bytesInspected : Z;
  cd_full : bool;
  cd_exhausted : bool;
  cd_turnFailed : bool;
  cd_oversizeSchema : bool }.
Definition new_collector : codexDiagnosticCollector := mkCollector [] ∅ 0 0 false false false false.

Definition with_categories (cats : list codexFailureCategory) (seen : gset codexFailureCategory) (full : bool)
    (c : codexDiagnosticCollector) : codexDiagnosticCollector :=
  mkCollector cats seen (cd_framesInspected c) (cd_bytesInspected c) full (cd_exhausted c) (cd_turnFailed c) (cd_oversizeSchema c).
Definition with_turnFailed (c : codexDiagnosticCollector) : codexDiagnosticCollector :=
  mkCollector (cd_categories c) (cd_seen c) (cd_framesInspected c) (cd_bytesInspected c) (cd_full c) (cd_exhausted c)
    true (cd_oversizeSchema c).
Definition with_oversizeSchema (c : codexDiagnosticCollector) : codexDiagnosticCollector :=
  mkCollector (cd_categories c) (cd_seen c) (cd_framesInspected c) (cd_bytesInspected c) (cd_full c) (cd_exhausted c)
    (cd_turnFailed c) true.
Definition count_frame (n : Z) (c : codexDiagnosticCollector) : codexDiagnosticCollector :=
  mkCollector (cd_categories c) (cd_seen c) (cd_framesInspected c + 1) (cd_bytesInspected c + n) (cd_full c)
    (cd_exhausted c) (cd_turnFailed c) (cd_oversizeSchema c).

Definition add (category : codexFailureCategory) (c : codexDiagnosticCollector) : codexDiagnosticCollector :=
  if cd_full c then c
  else
    let category := if (codexFailureCategoryCount <=? category)%N then codexFailureGeneric else category in
    if bool_decide (category ∈ cd_seen c) then c
    else
      let seen := {[ category ]} ∪ cd_seen c in
      with_categories (cd_categories c ++ [category]) seen (size seen =? N.to_nat codexFailureCategoryCount) c.

Definition failClosed (c : codexDiagnosticCollector) : codexDiagnosticCollector :=
  mkCollector [codexFailureGeneric] {[ codexFailureGeneric ]} (cd_framesInspected c) (cd_bytesInspected c) true true
    (cd_turnFailed c) (cd_oversizeSchema c).

(** What supervision hands over: a retained line, or the prefix of a discarded
    one. *)
Inductive Input := Line (line : Bytes) | Prefix (prefix : Bytes).

Section Collector.
Context `{UnicodeTables}.

(** The message an event is classified by, if its type has one. *)
Definition event_message (event : codexDiagnosticEvent) : list Z :=
  if bool_decide (ev_Type event = runes_of "error") then ev_Message event
  else if bool_decide (ev_Type event = runes_of "turn.failed") then ev_Error_Message event
  else [].

Definition consume (line : Bytes) (c : codexDiagnosticCollector) : codexDiagnosticCollector :=
  let frame := codexFrameWithoutRecordDelimiter line in
  let inspection := inspectCodexTopLevelType frame in
  let size := Z.of_nat (length frame) in
  if ti_duplicate inspection then failClosed (with_oversizeSchema c)
  else
    let c := if bool_decide (ti_kind inspection = "turn.failed") then with_turnFailed c else c in
    if (maxCodexDiagnosticFrameBytes <? size)%Z then
      if negb (cd_full c) && (bool_decide (ti_kind inspection = "error") || cd_turnFailed c) then failClosed c else c
    else
      match Unmarshal frame with
      | None => c
      | Some event =>
          if cd_full c then c
          else if ((maxCodexDiagnosticFrames <=? cd_framesInspected c) ||
                   (maxCodexDiagnosticInspectedBytes - cd_bytesInspected c <? size))%Z then failClosed c
          else
            let c := count_frame size c in
            if bool_decide (event_message event = []) then c
            else add (classifyCodexFailure (event_message event)) c
      end.

Definition consumeDiscardedPrefix (prefix : Bytes) (c : codexDiagnosticCollector) : bool * codexDiagnosticCollector :=
  let '(mkPrefixType kind object typeFirst) := codexTopLevelTypeFromPrefix prefix in
  if negb object then (false, c)
  else if typeFirst && bool_decide (kind = runes_of "turn.failed") then (true, failClosed (with_turnFailed c))
  else (true, failClosed (with_oversizeSchema c)).
End Collector.

Definition failure (c : codexDiagnosticCollector) : option Sentinel :=
  if cd_turnFailed c then Some ErrCodexTurnFailed
  else if cd_oversizeSchema c then Some ErrCodexOversizeSchema
  else None.

Definition failed (c : codexDiagnosticCollector) : bool := match failure c with Some _ => true | None => false end.

Definition collector_String (c : codexDiagnosticCollector) : string :=
  match cd_categories c with
  | [] => category_String codexFailureGeneric
  | cats =>
      let diagnostic := Join "; " (category_String <$> cats) in
      if (maxCodexDiagnosticBytes <? Z.of_nat (String.length diagnostic))%Z then category_String codexFailureGeneric
      else diagnostic
  end.
