(* ===== verification/CodexDiagProps.v ===== *)
(** * Codex diagnostics, proved

    The scan of a frame's syntax bytes agrees with the tree of the whole record,
    the authoritative flags are exactly what the records say, the collector stays
    inside its bounds, and prose is matched by whole words. *)
From S2P Require Import Prelude GoLib Provider GoJson CodexDiag.

(** ** Bytes between quotes *)

(** What may stand between the quotes of a string. *)
Inductive sbody : Bytes → Prop :=
| sb_nil : sbody []
| sb_simple e b : simple_escape e = true → sbody b → sbody (BACKSLASH :: e :: b)
| sb_hex h1 h2 h3 h4 b :
    forallb is_hex [h1; h2; h3; h4] = true → sbody b → sbody (BACKSLASH :: "u"%char :: h1 :: h2 :: h3 :: h4 :: b)
| sb_raw c b : c ≠ QUOTE → c ≠ BACKSLASH → sbody b → sbody (c :: b).

Lemma option_bind_some {A B} (o : option A) (f : A → option B) b :
  (x ← o; f x) = Some b → ∃ a, o = Some a ∧ f a = Some b.
Proof. destruct o; naive_solver. Qed.

Lemma expect_some c l r : expect c l = Some r → l = c :: r.
Proof. destruct l as [|x l]; simpl; [done|]. destruct (Ascii.eqb_spec x c); naive_solver. Qed.

Lemma scan_string_body l b rest : scan_string l = Some (b, rest) → sbody b ∧ l = b ++ QUOTE :: rest.
Proof.
  remember (length l) as n eqn:Hn. revert l b rest Hn.
  induction n as [n IH] using lt_wf_ind; intros [|c r] b rest -> Hs; [done|]. cbn [scan_string] in Hs.
  destruct (Ascii.eqb_spec c QUOTE) as [->|Hq]; [simplify_eq; split; [constructor|done]|].
  destruct (Ascii.eqb_spec c BACKSLASH) as [->|Hb].
  - destruct r as [|e r1]; [done|]. destruct (simple_escape e) eqn:He.
    + apply option_bind_some in Hs as ([b1 rest1] & Hs & Heq). simplify_eq.
      apply (IH (length r1)) in Hs as [? ->]; [|simpl; lia|done]. split; [by constructor|done].
    + destruct (Ascii.eqb_spec e "u"%char) as [->|]; [|done].
      destruct r1 as [|h1 [|h2 [|h3 [|h4 r2]]]]; try done.
      destruct (forallb is_hex [h1; h2; h3; h4]) eqn:Hh; [|done].
      apply option_bind_some in Hs as ([b1 rest1] & Hs & Heq). simplify_eq.
      apply (IH (length r2)) in Hs as [? ->]; [|simpl; lia|done]. split; [by constructor|done].
  - destruct (byte_val c <? 32)%Z; [done|].
    apply option_bind_some in Hs as ([b1 rest1] & Hs & Heq). simplify_eq.
    apply (IH (length r)) in Hs as [? ->]; [|simpl; lia|done]. split; [by constructor|done].
Qed.

Lemma simple_escape_plain e : simple_escape e = true →
  e ∈ [QUOTE; BACKSLASH; "/"; "b"; "f"; "n"; "r"; "t"]%char.
Proof.
  unfold simple_escape. intros (x & Hin & Heq)%existsb_exists. apply Ascii.eqb_eq in Heq as ->.
  by apply list_elem_of_In.
Qed.

(** One goal for each of the eight simple escapes. *)
Ltac each_escape He :=
  repeat (apply elem_of_cons in He as [->|He]); [..|by apply elem_of_nil in He].

Lemma string_end_body b rest : sbody b → string_end_from (b ++ QUOTE :: rest) = S (length b).
Proof.
  induction 1 as [|e b He Hb IH|h1 h2 h3 h4 b Hh Hb IH|c b Hq Hc Hb IH]; cbn [app string_end_from]; [done|..].
  - rewrite IH. done.
  - cbn [Ascii.eqb]. cbn [forallb] in Hh. repeat rewrite andb_true_iff in Hh. destruct Hh as (? & ? & ? & ? & _).
    assert (Hne : ∀ h, is_hex h = true → h ≠ QUOTE ∧ h ≠ BACKSLASH) by (intros h Hh; split; intros ->; done).
    repeat match goal with H : is_hex ?h = true |- _ => destruct (Hne h H); clear H end.
    replace (BACKSLASH =? BACKSLASH)%char with true by done.
    repeat (rewrite (proj2 (Ascii.eqb_neq _ _)) by done). by rewrite IH.
  - rewrite !(proj2 (Ascii.eqb_neq _ _)) by done. by rewrite IH.
Qed.

Lemma jsonStringEnd_body b rest : sbody b → jsonStringEnd (QUOTE :: b ++ QUOTE :: rest) = length (QUOTE :: b ++ [QUOTE]).
Proof. intros Hb. simpl. rewrite string_end_body by done. rewrite length_app. simpl. lia. Qed.

Lemma token_split b rest : sbody b →
  take (jsonStringEnd (QUOTE :: b ++ QUOTE :: rest)) (QUOTE :: b ++ QUOTE :: rest) = QUOTE :: b ++ [QUOTE] ∧
  drop (jsonStringEnd (QUOTE :: b ++ QUOTE :: rest)) (QUOTE :: b ++ QUOTE :: rest) = rest.
Proof.
  intros Hb. rewrite jsonStringEnd_body by done.
  replace (QUOTE :: b ++ QUOTE :: rest) with ((QUOTE :: b ++ [QUOTE]) ++ rest) by (simpl; by rewrite <- app_assoc).
  by rewrite take_app_length, drop_app_length.
Qed.

(** ** A string compared without decoding it *)

Definition ascii_text (want : Bytes) : Prop := Forall (λ w, (byte_val w < 127)%Z) want.

Lemma hex_value h : is_hex h = true → jsonHexValue h = Some (hex_val h) ∧ (0 ≤ hex_val h < 16)%Z.
Proof. destruct h as [[] [] [] [] [] [] [] []]; vm_compute; intros ?; split; try done; split; congruence. Qed.

Lemma shift_in_digit code v : (0 ≤ code)%Z → (0 ≤ v < 16)%Z → Z.lor (Z.shiftl code 4) v = (code * 16 + v)%Z.
Proof.
  intros Hc Hv. rewrite Z.shiftl_mul_pow2 by lia. change (2 ^ 4)%Z with 16%Z.
  rewrite <- Z.add_lor_land. replace (Z.land (code * 16) v) with 0%Z; [lia|].
  symmetry. apply Z.bits_inj'. intros n Hn. rewrite Z.land_spec, Z.bits_0.
  destruct (decide (n < 4)%Z).
  - change 16%Z with (2 ^ 4)%Z. rewrite Z.mul_pow2_bits_low by lia. done.
  - replace (Z.testbit v n) with false; [apply andb_false_r|]. symmetry.
    destruct (decide (v = 0)%Z) as [->|]; [by rewrite Z.bits_0|].
    apply Z.bits_above_log2; [lia|]. apply Z.log2_lt_pow2; [lia|].
    apply (Z.lt_le_trans _ (2 ^ 4)); [lia|]. apply Z.pow_le_mono_r; lia.
Qed.

Lemma hex_code_value h1 h2 h3 h4 : forallb is_hex [h1; h2; h3; h4] = true →
  hex_code [h1; h2; h3; h4] 0 = Some (hex4 h1 h2 h3 h4) ∧ (0 ≤ hex4 h1 h2 h3 h4)%Z.
Proof.
  cbn [forallb]. repeat rewrite andb_true_iff. intros (Ha & Hb & Hc & Hd & _).
  apply hex_value in Ha as [Ea ?], Hb as [Eb ?], Hc as [Ec ?], Hd as [Ed ?].
  cbn [hex_code]. rewrite Ea. cbn [mbind option_bind]. rewrite Eb. cbn [mbind option_bind]. rewrite Ec. cbn [mbind option_bind].
  rewrite Ed. cbn [mbind option_bind].
  rewrite (shift_in_digit 0), (shift_in_digit (_ + hex_val h1)), (shift_in_digit (_ + hex_val h2)), (shift_in_digit (_ + hex_val h3)) by lia.
  unfold hex4. split; [f_equal; lia|lia].
Qed.

Lemma getu4_hex h1 h2 h3 h4 b : forallb is_hex [h1; h2; h3; h4] = true →
  getu4 (BACKSLASH :: "u"%char :: h1 :: h2 :: h3 :: h4 :: b) = Some (hex4 h1 h2 h3 h4).
Proof. intros Hh. unfold getu4. rewrite Hh. done. Qed.

Lemma multibyte_rune c r : (128 ≤ byte_val c)%Z → (128 ≤ (DecodeRune c r).1)%Z.
Proof.
  intros Hc. unfold DecodeRune, second_ok, cont, in_range, low6, RuneError.
  repeat (case_match; cbn [fst]; try lia).
Qed.

Lemma DecodeRune16_big r1 r2 : (127 ≤ DecodeRune16 r1 r2)%Z.
Proof. unfold DecodeRune16, RuneError. case_match; lia. Qed.

Lemma surrogate_rune rr o :
  (127 ≤ (match o with
          | Some rr1 => let dec := DecodeRune16 rr rr1 in if (dec =? RuneError)%Z then (RuneError, 6%nat) else (dec, 12%nat)
          | None => (RuneError, 6%nat)
          end).1)%Z.
Proof.
  destruct o as [rr1|]; cbn zeta; [|by vm_compute]. pose proof (DecodeRune16_big rr rr1). by case_match; [vm_compute|].
Qed.

Lemma unquote_nil : unquote [] = [].
Proof. done. Qed.

(** Heads decide: a big rune matches no ASCII text. *)
Lemma big_head_differs x l want : (127 ≤ x)%Z → ascii_text want → bool_decide (x :: l = byte_val <$> want) = false.
Proof.
  intros Hx Hw. apply bool_decide_eq_false. destruct want as [|w want]; [done|].
  apply Forall_cons in Hw as [? _]. cbn [fmap list_fmap]. intros Heq. simplify_eq. lia.
Qed.

Lemma equal_head (d : Ascii.ascii) x l want k : byte_val d = x →
  k = bool_decide (l = byte_val <$> tail want) →
  match want with [] => false | w :: want' => if (d =? w)%char then k else false end =
  bool_decide (x :: l = byte_val <$> want).
Proof.
  intros <- ->. destruct want as [|w want]; [by rewrite bool_decide_eq_false_2|]. cbn [tail fmap list_fmap].
  destruct (Ascii.eqb_spec d w) as [->|Hne].
  - apply bool_decide_ext. split; [by intros ->|by intros [=]].
  - symmetry. apply bool_decide_eq_false. intros [= Hb _]. by apply byte_val_inj in Hb.
Qed.

Lemma ascii_text_tail want : ascii_text want → ascii_text (tail want).
Proof. destruct 1; simpl; [constructor|done]. Qed.

Lemma match_tail {A} (want : Bytes) (d : Ascii.ascii) (k : Bytes → A) (z : A) :
  match want with [] => z | w :: want' => if (d =? w)%char then k want' else z end =
  match want with [] => z | w :: _ => if (d =? w)%char then k (tail want) else z end.
Proof. by destruct want. Qed.

Lemma equal_from_correct b want : sbody b → ascii_text want →
  equal_from b want = bool_decide (unquote b = byte_val <$> want).
Proof.
  intros Hb. revert want. induction Hb as [|e b He Hb IH|h1 h2 h3 h4 b Hh Hb IH|c b Hq Hc Hb IH]; intros want Hw.
  - destruct want as [|w want]; [by rewrite bool_decide_eq_true_2|by rewrite bool_decide_eq_false_2].
  - assert (Hk := IH (tail want) (ascii_text_tail _ Hw)).
    assert (Hu : unquote (BACKSLASH :: e :: b) = escape_val e :: unquote b).
    { rewrite unquote_cons. apply simple_escape_plain in He. each_escape He; reflexivity. }
    rewrite Hu. apply simple_escape_plain in He.
    assert (He' : equal_from (BACKSLASH :: e :: b) want =
      match want with [] => false | w :: want' =>
        if (ascii_of_N (Z.to_N (escape_val e)) =? w)%char then equal_from b want' else false end).
    { each_escape He; reflexivity. }
    rewrite He', match_tail. apply equal_head; [|done].
    each_escape He; reflexivity.
  - assert (Hk := IH (tail want) (ascii_text_tail _ Hw)).
    destruct (hex_code_value h1 h2 h3 h4 Hh) as [Hcode Hnn].
    rewrite unquote_cons. cbn [equal_from]. unfold unquote_rune.
    rewrite (getu4_hex h1 h2 h3 h4 b Hh).
    replace (BACKSLASH =? BACKSLASH)%char with true by done. cbn [negb].
    replace ("u" =? "u")%char with true by done.
    change ("u" =? QUOTE)%char with false. change ("u" =? BACKSLASH)%char with false. cbn [orb].
    change ("u" =? "/")%char with false. change ("u" =? "b")%char with false. change ("u" =? "f")%char with false.
    change ("u" =? "n")%char with false. change ("u" =? "r")%char with false. change ("u" =? "t")%char with false.
    cbn iota. rewrite Hcode.
    destruct (Z.leb_spec 127 (hex4 h1 h2 h3 h4)) as [Hbig|Hsmall].
    + symmetry. apply big_head_differs; [|done].
      destruct (is_surrogate (hex4 h1 h2 h3 h4)); [apply surrogate_rune|done].
    + assert (Hs : is_surrogate (hex4 h1 h2 h3 h4) = false) by (unfold is_surrogate; lia).
      rewrite Hs. cbn [fst snd drop]. rewrite match_tail. apply equal_head; [|done].
      unfold byte_val. rewrite N_ascii_embedding by lia. lia.
  - assert (Hk := IH (tail want) (ascii_text_tail _ Hw)).
    cbn [equal_from]. rewrite unquote_cons. unfold unquote_rune.
    rewrite (proj2 (Ascii.eqb_neq _ _)) by done. cbn [negb].
    destruct (Z.leb_spec 127 (byte_val c)) as [Hbig|Hsmall].
    + symmetry. apply big_head_differs; [|done]. destruct (Z.ltb_spec (byte_val c) 128); cbn [fst]; [done|].
      pose proof (multibyte_rune c b). lia.
    + destruct (Z.ltb_spec (byte_val c) 128) as [_|]; [|lia]. cbn [fst snd drop]. rewrite match_tail. by apply equal_head.
Qed.

Lemma jsonStringEqualASCII_correct b want : sbody b → ascii_text (chars want) →
  jsonStringEqualASCII (QUOTE :: b ++ [QUOTE]) want = bool_decide (unquote b = runes_of want).
Proof.
  intros Hb Hw. unfold jsonStringEqualASCII.
  replace (length (QUOTE :: b ++ [QUOTE]) <? 2) with false.
  2: { symmetry. apply Nat.ltb_ge. cbn [length]. rewrite length_app. simpl. lia. }
  rewrite (bool_decide_eq_true_2 (head _ = _)) by done.
  rewrite (bool_decide_eq_true_2 (last _ = _)) by (change (QUOTE :: b ++ [QUOTE]) with ((QUOTE :: b) ++ [QUOTE]); by rewrite last_snoc).
  cbn [negb orb tail]. rewrite removelast_last. by apply equal_from_correct.
Qed.

(** ** The walk over a frame *)

(** Bytes the walk steps over. *)
Definition plain_byte (c : Ascii.ascii) : bool :=
  negb (existsb (Ascii.eqb c) [QUOTE; "{"; "["; "}"; "]"; ","]%char).

Lemma plain_byte_not c x : plain_byte c = true → x ∈ [QUOTE; "{"; "["; "}"; "]"; ","]%char → (c =? x)%char = false.
Proof.
  intros Hp Hx. apply Ascii.eqb_neq. intros ->. unfold plain_byte in Hp. apply negb_true_iff in Hp.
  rewrite (proj2 (existsb_exists _ _)) in Hp; [done|]. exists x. split; [by apply list_elem_of_In|by apply Ascii.eqb_eq].
Qed.

Lemma string_end_le l : string_end_from l ≤ length l.
Proof.
  remember (length l) as n eqn:Hn. revert l Hn. induction n as [n IH] using lt_wf_ind; intros [|c r] ->; cbn [string_end_from length]; [done|].
  destruct (c =? BACKSLASH)%char; [|destruct (c =? QUOTE)%char; [lia|]].
  - destruct r as [|e r]; cbn [length]; [done|]. pose proof (IH (length r) ltac:(simpl; lia) r eq_refl). lia.
  - pose proof (IH (length r) ltac:(simpl; lia) r eq_refl). lia.
Qed.

Lemma walk_fuel n m l k e i : length l ≤ n → length l ≤ m → walk n l k e i = walk m l k e i.
Proof.
  revert m l k e i. induction n as [|n IH]; intros [|m] [|c r] k e i Hn Hm; simpl in Hn, Hm; try lia; try done;
    cbn [walk]; try (by destruct (k =? 0)).
  destruct (k =? 0); [done|].
  assert (Hd : length (drop (jsonStringEnd (c :: r)) (c :: r)) ≤ length r).
  { cbn [jsonStringEnd drop]. rewrite length_drop. lia. }
  repeat case_match; (apply IH; [lia|lia]).
Qed.

(** The walk with the fuel it needs. *)
Definition walk_all (l : Bytes) (k : nat) (e : bool) (i : codexTopLevelTypeInspection) := walk (length l) l k e i.

Lemma walk_all_done l e i : walk_all l 0 e i = i.
Proof. unfold walk_all. by destruct l. Qed.

Lemma walk_all_string b rest k e i : sbody b → k ≠ 0 →
  walk_all (QUOTE :: b ++ QUOTE :: rest) k e i =
  if (k =? 1) && e then walk_all rest k false (inspect_key (QUOTE :: b ++ [QUOTE]) rest i) else walk_all rest k e i.
Proof.
  intros Hb Hk. unfold walk_all. cbn [length walk]. rewrite (proj2 (Nat.eqb_neq k 0)) by done.
  replace (QUOTE =? QUOTE)%char with true by done. destruct (token_split b rest Hb) as [Ht Hd].
  rewrite Ht, Hd. destruct ((k =? 1) && e); apply walk_fuel; rewrite ?length_app; simpl; lia.
Qed.

Lemma walk_all_plain c r k e i : plain_byte c = true → walk_all (c :: r) k e i = walk_all r k e i.
Proof.
  intros Hc. destruct (decide (k = 0)) as [->|Hk]; [by rewrite !walk_all_done|].
  unfold walk_all. cbn [length walk]. rewrite (proj2 (Nat.eqb_neq k 0)) by done.
  rewrite (plain_byte_not c QUOTE), (plain_byte_not c "{"), (plain_byte_not c "["), (plain_byte_not c "}"),
    (plain_byte_not c "]"), (plain_byte_not c ",") by (done || set_solver). done.
Qed.

Lemma walk_all_plains w r k e i : Forall (λ c, plain_byte c = true) w → walk_all (w ++ r) k e i = walk_all r k e i.
Proof. induction 1 as [|c w Hc _ IH]; [done|]. rewrite <- app_comm_cons, walk_all_plain by done. done. Qed.

Lemma walk_all_ws l k e i : walk_all l k e i = walk_all (skip_ws l) k e i.
Proof.
  induction l as [|c l IH]; [done|]. cbn [skip_ws]. destruct (isSpace c) eqn:Hs; [|done].
  rewrite walk_all_plain; [done|]. revert Hs. unfold isSpace. by destruct c as [[] [] [] [] [] [] [] []].
Qed.

Lemma walk_all_open c r k e i : c = "{"%char ∨ c = "["%char → k ≠ 0 → walk_all (c :: r) k e i = walk_all r (S k) e i.
Proof.
  intros Hc Hk. unfold walk_all. cbn [length walk]. rewrite (proj2 (Nat.eqb_neq k 0)) by done. by destruct Hc as [-> | ->].
Qed.
Lemma walk_all_close c r k e i : c = "}"%char ∨ c = "]"%char → k ≠ 0 → walk_all (c :: r) k e i = walk_all r (pred k) e i.
Proof.
  intros Hc Hk. unfold walk_all. cbn [length walk]. rewrite (proj2 (Nat.eqb_neq k 0)) by done. by destruct Hc as [-> | ->].
Qed.
Lemma walk_all_comma r k e i : k ≠ 0 →
  walk_all (","%char :: r) k e i = walk_all r k (if k =? 1 then true else e) i.
Proof. intros Hk. unfold walk_all. cbn [length walk]. by rewrite (proj2 (Nat.eqb_neq k 0)). Qed.

(** ** Atoms are plain *)

Lemma digits_plain l d rest : digits l = (d, rest) → Forall (λ c, plain_byte c = true) d ∧ l = d ++ rest.
Proof.
  revert d rest. induction l as [|c l IH]; intros d rest; cbn [digits]; [by intros [= <- <-]|].
  destruct (is_dec c) eqn:Hc; [|by intros [= <- <-]]. destruct (digits l) as [d1 rest1]. intros [= <- <-].
  destruct (IH _ _ eq_refl) as [? ->]. split; [|done]. constructor; [|done].
  revert Hc. by destruct c as [[] [] [] [] [] [] [] []].
Qed.

Lemma digits1_plain l d rest : digits1 l = Some (d, rest) → Forall (λ c, plain_byte c = true) d ∧ l = d ++ rest.
Proof. unfold digits1. destruct (digits l) as [[|x d'] r'] eqn:Hd; [done|]. intros [= <- <-]. by apply digits_plain. Qed.

Lemma strip_prefix_some p l rest : strip_prefix p l = Some rest → l = p ++ rest.
Proof.
  revert l. induction p as [|a p IH]; intros [|b l]; simpl; try naive_solver.
  intros Hs. repeat case_match; try done; naive_solver.
Qed.

Lemma number_int_plain l d rest : number_int l = Some (d, rest) → Forall (λ c, plain_byte c = true) d ∧ l = d ++ rest.
Proof.
  destruct l as [|c l]; [done|]. unfold number_int. destruct (Ascii.eqb_spec c "0"%char) as [->|]; [|apply digits1_plain].
  intros [= <- <-]. split; [by repeat constructor|done].
Qed.

Lemma number_frac_plain l d rest : number_frac l = Some (d, rest) → Forall (λ c, plain_byte c = true) d ∧ l = d ++ rest.
Proof.
  unfold number_frac. destruct (expect "." l) as [r|] eqn:He; [|by intros [= <- <-]].
  apply expect_some in He as ->. intros ([d1 rest1] & Hd & [= <- <-])%option_bind_some.
  apply digits1_plain in Hd as [? ->]. split; [by constructor|done].
Qed.

Lemma number_exp_plain l d rest : number_exp l = Some (d, rest) → Forall (λ c, plain_byte c = true) d ∧ l = d ++ rest.
Proof.
  destruct l as [|c l]; [by intros [= <- <-]|]. unfold number_exp.
  destruct ((c =? "e")%char || (c =? "E")%char) eqn:Hc; [|by intros [= <- <-]].
  assert (Hp : plain_byte c = true) by (apply orb_prop in Hc as [->%Ascii.eqb_eq| ->%Ascii.eqb_eq]; done).
  destruct (number_sign l) as [s r1] eqn:Hs. intros ([d1 rest1] & Hd & [= <- <-])%option_bind_some.
  apply digits1_plain in Hd as [? ->].
  assert (Hl : Forall (λ c, plain_byte c = true) s ∧ l = s ++ d1 ++ rest1).
  { unfold number_sign in Hs. destruct l as [|x l]; [naive_solver|].
    destruct ((x =? "+")%char || (x =? "-")%char) eqn:Hx; [|naive_solver]. injection Hs as <- Hs. split; [|by rewrite Hs].
    apply orb_prop in Hx as [->%Ascii.eqb_eq| ->%Ascii.eqb_eq]; by repeat constructor. }
  destruct Hl as [? ->]. split; [constructor; [done|by apply Forall_app_2]|]. simpl. by rewrite <- app_assoc.
Qed.

Lemma scan_number_plain l d rest : scan_number l = Some (d, rest) → Forall (λ c, plain_byte c = true) d ∧ l = d ++ rest.
Proof.
  unfold scan_number. destruct (match expect "-" l with Some r => (["-"%char], r) | None => ([], l) end) as [m r0] eqn:Hm.
  assert (Hl : Forall (λ c, plain_byte c = true) m ∧ l = m ++ r0).
  { destruct (expect "-" l) as [r|] eqn:He; simplify_eq; [|done]. apply expect_some in He as ->. split; [by repeat constructor|done]. }
  destruct Hl as [Hpm ->]. clear Hm.
  intros ([i r1] & Hi & Hrest)%option_bind_some.
  apply option_bind_some in Hrest as ([f r2] & Hf & Hrest). apply option_bind_some in Hrest as ([e r3] & He & [= <- <-]).
  apply number_int_plain in Hi as [? ->]. apply number_frac_plain in Hf as [? ->]. apply number_exp_plain in He as [? ->].
  split; [repeat apply Forall_app_2; done|]. by rewrite <- !app_assoc.
Qed.

Lemma literal_plain s l raw rest : forallb plain_byte (chars s) = true → literal s l = Some (raw, rest) →
  Forall (λ c, plain_byte c = true) raw ∧ l = raw ++ rest.
Proof.
  intros Hs (r & Hr & [= <- <-])%option_bind_some. apply strip_prefix_some in Hr. split; [|done].
  apply Forall_forall. intros x Hx. rewrite forallb_forall in Hs. apply Hs. by apply list_elem_of_In.
Qed.

Lemma scan_atom_plain l t rest : scan_atom l = Some (t, rest) →
  ∃ raw, t = JAtom raw ∧ Forall (λ c, plain_byte c = true) raw ∧ l = raw ++ rest.
Proof.
  unfold scan_atom. intros ([raw r] & Hf & [= <- <-])%option_bind_some. exists raw. split; [done|].
  destruct (literal "true" l) as [[]|] eqn:Ht; [simplify_eq; by apply (literal_plain "true")|].
  destruct (literal "false" l) as [[]|] eqn:Hfl; [simplify_eq; by apply (literal_plain "false")|].
  destruct (literal "null" l) as [[]|] eqn:Hn; [simplify_eq; by apply (literal_plain "null")|].
  by apply scan_number_plain.
Qed.

(** ** The walk and the tree *)

(** What the walk reads of a value: the two types it knows. *)
Definition kind_of (v : jtree) : string :=
  match v with
  | JStr body =>
      if bool_decide (unquote body = runes_of "turn.failed") then "turn.failed"
      else if bool_decide (unquote body = runes_of "error") then "error" else ""
  | _ => ""
  end.

Definition is_type (m : Bytes * jtree) : bool := bool_decide (unquote m.1 = runes_of "type").

Definition inspect_member (i : codexTopLevelTypeInspection) (m : Bytes * jtree) : codexTopLevelTypeInspection :=
  if is_type m then
    if 1 <? S (ti_typeKeys i) then mkInspection (ti_kind i) (S (ti_typeKeys i)) true
    else mkInspection (kind_of m.2) (S (ti_typeKeys i)) (ti_duplicate i)
  else i.

Lemma ascii_text_compute s : forallb (λ w, byte_val w <? 127)%Z (chars s) = true → ascii_text (chars s).
Proof.
  intros Hs. apply Forall_forall. intros w Hw. rewrite forallb_forall in Hs.
  apply Z.ltb_lt, (Hs w). by apply list_elem_of_In.
Qed.

Lemma skip_ws_idem l : skip_ws (skip_ws l) = skip_ws l.
Proof. induction l as [|c l IH]; [done|]. simpl. destruct (isSpace c) eqn:Hc; [done|]. simpl. by rewrite Hc. Qed.

Lemma string_value_kind n d l v rest : jvalue n d l = Some (v, rest) →
  codexTopLevelStringValue (":"%char :: l) = kind_of v.
Proof.
  intros Hv. unfold codexTopLevelStringValue. cbn [skip_ws isSpace expect].
  change (isSpace ":"%char) with false. cbn [expect]. rewrite Ascii.eqb_refl.
  destruct n as [|n]; [done|]. cbn [jvalue] in Hv. destruct (skip_ws l) as [|c r]; [done|].
  destruct (Ascii.eqb_spec c QUOTE) as [->|Hq].
  - apply option_bind_some in Hv as ([b r1] & Hs & [= <- <-]). apply scan_string_body in Hs as [Hb ->].
    destruct (token_split b r1 Hb) as [-> _]. cbn [kind_of].
    rewrite !jsonStringEqualASCII_correct by first [done | by apply ascii_text_compute]. by repeat case_bool_decide.
  - assert (Hk : kind_of v = ""); [|by rewrite Hk].
    destruct (c =? "{")%char; [|destruct (c =? "[")%char].
    + destruct (d =? 0)%N; [done|]. destruct (expect "}" (skip_ws r)); [by simplify_eq|].
      by apply option_bind_some in Hv as ([ms r1] & _ & [= <- <-]).
    + destruct (d =? 0)%N; [done|]. destruct (expect "]" (skip_ws r)); [by simplify_eq|].
      by apply option_bind_some in Hv as ([ms r1] & _ & [= <- <-]).
    + by apply scan_atom_plain in Hv as (raw & -> & _).
Qed.

(** Values and what follows a delimiter inside an object or an array leave the
    walk as they found it, at a depth where keys are not read. *)
Lemma walk_values n :
  (∀ d l v rest k e i, jvalue n d l = Some (v, rest) → k ≠ 0 → (k = 1 → e = false) →
     walk_all l k e i = walk_all rest k e i) ∧
  (∀ d l ms rest k e i, jmembers n d l = Some (ms, rest) → 2 ≤ k → walk_all l k e i = walk_all rest (pred k) e i) ∧
  (∀ d l vs rest k e i, jitems n d l = Some (vs, rest) → 2 ≤ k → walk_all l k e i = walk_all rest (pred k) e i).
Proof.
  induction n as [|n (IHv & IHm & IHi)]; [done|]. split_and!.
  - intros d l v rest k e i Hv Hk He. rewrite walk_all_ws. cbn [jvalue] in Hv. destruct (skip_ws l) as [|c r]; [done|].
    destruct (Ascii.eqb_spec c QUOTE) as [->|Hq]; [|destruct (Ascii.eqb_spec c "{"%char) as [->|]; [|destruct (Ascii.eqb_spec c "["%char) as [->|]]].
    + apply option_bind_some in Hv as ([b r1] & Hs & [= <- <-]). apply scan_string_body in Hs as [Hb ->].
      rewrite walk_all_string by done. destruct (Nat.eqb_spec k 1); [by rewrite He|done].
    + destruct (d =? 0)%N; [done|]. rewrite walk_all_open by auto. destruct (expect "}" (skip_ws r)) as [r1|] eqn:Hx.
      * simplify_eq. apply expect_some in Hx. by rewrite walk_all_ws, Hx, walk_all_close by auto.
      * apply option_bind_some in Hv as ([ms r1] & Hm & [= <- <-]). by rewrite (IHm _ _ _ _ _ _ _ Hm) by lia.
    + destruct (d =? 0)%N; [done|]. rewrite walk_all_open by auto. destruct (expect "]" (skip_ws r)) as [r1|] eqn:Hx.
      * simplify_eq. apply expect_some in Hx. by rewrite walk_all_ws, Hx, walk_all_close by auto.
      * apply option_bind_some in Hv as ([ms r1] & Hm & [= <- <-]). by rewrite (IHi _ _ _ _ _ _ _ Hm) by lia.
    + apply scan_atom_plain in Hv as (raw & -> & Hp & ->). by rewrite walk_all_plains.
  - intros d l ms rest k e i Hm Hk. cbn [jmembers] in Hm.
    apply option_bind_some in Hm as (r & Hx & Hm). apply expect_some in Hx.
    apply option_bind_some in Hm as ([key r1] & Hs & Hm). apply scan_string_body in Hs as [Hb ->].
    apply option_bind_some in Hm as (r2 & Hc & Hm). apply expect_some in Hc.
    apply option_bind_some in Hm as ([v r3] & Hv & Hm).
    rewrite walk_all_ws, Hx, walk_all_string by (done || lia). rewrite (proj2 (Nat.eqb_neq k 1)) by lia. cbn [andb].
    rewrite walk_all_ws, Hc, walk_all_plain by done. rewrite (IHv _ _ _ _ _ _ _ Hv) by lia. rewrite walk_all_ws.
    destruct (expect "}" (skip_ws r3)) as [r4|] eqn:Hx2.
    + simplify_eq. apply expect_some in Hx2. rewrite Hx2. by rewrite walk_all_close by (auto || lia).
    + apply option_bind_some in Hm as (r4 & Hx3 & Hm). apply expect_some in Hx3. rewrite Hx3.
      apply option_bind_some in Hm as ([ms' r5] & Hm & [= <- <-]).
      rewrite walk_all_comma by lia. rewrite (proj2 (Nat.eqb_neq k 1)) by lia. by rewrite (IHm _ _ _ _ _ _ _ Hm) by lia.
  - intros d l vs rest k e i Hm Hk. cbn [jitems] in Hm.
    apply option_bind_some in Hm as ([v r3] & Hv & Hm).
    rewrite (IHv _ _ _ _ _ _ _ Hv) by lia. rewrite walk_all_ws. destruct (expect "]" (skip_ws r3)) as [r4|] eqn:Hx2.
    + simplify_eq. apply expect_some in Hx2. rewrite Hx2. by rewrite walk_all_close by (auto || lia).
    + apply option_bind_some in Hm as (r4 & Hx3 & Hm). apply expect_some in Hx3. rewrite Hx3.
      apply option_bind_some in Hm as ([ms' r5] & Hm & [= <- <-]).
      rewrite walk_all_comma by lia. rewrite (proj2 (Nat.eqb_neq k 1)) by lia. by rewrite (IHi _ _ _ _ _ _ _ Hm) by lia.
Qed.

(** The members of the outermost object are read one by one. *)
Lemma walk_members n d l ms rest i : jmembers n d l = Some (ms, rest) →
  walk_all l 1 true i = foldl inspect_member i ms.
Proof.
  revert l ms i. induction n as [|n IH]; [done|]. intros l ms i Hm. cbn [jmembers] in Hm.
  apply option_bind_some in Hm as (r & Hx & Hm). apply expect_some in Hx.
  apply option_bind_some in Hm as ([key r1] & Hs & Hm). apply scan_string_body in Hs as [Hb ->].
  apply option_bind_some in Hm as (r2 & Hc & Hm). apply expect_some in Hc.
  apply option_bind_some in Hm as ([v r3] & Hv & Hm).
  rewrite walk_all_ws, Hx, walk_all_string by done. cbn [andb Nat.eqb].
  assert (Hi : inspect_key (QUOTE :: key ++ [QUOTE]) r1 i = inspect_member i (key, v)).
  { unfold inspect_key, inspect_member, is_type. rewrite jsonStringEqualASCII_correct by first [done | by apply ascii_text_compute].
    cbn [fst snd]. case_bool_decide; [|done]. rewrite <- (string_value_kind _ _ _ _ _ Hv), <- Hc.
    unfold codexTopLevelStringValue. by rewrite skip_ws_idem. }
  rewrite Hi. rewrite walk_all_ws, Hc, walk_all_plain by done.
  rewrite (proj1 (walk_values n) _ _ _ _ _ _ _ Hv) by done. rewrite walk_all_ws.
  destruct (expect "}" (skip_ws r3)) as [r4|] eqn:Hx2.
  + simplify_eq. apply expect_some in Hx2. rewrite Hx2. rewrite walk_all_close by auto. by rewrite walk_all_done.
  + apply option_bind_some in Hm as (r4 & Hx3 & Hm). apply expect_some in Hx3. rewrite Hx3.
    apply option_bind_some in Hm as ([ms' r5] & Hm & [= <- <-]).
    rewrite walk_all_comma by lia. cbn [Nat.eqb foldl]. by apply IH.
Qed.

(** ** The reference: count the members called type *)

Definition type_members (ms : list (Bytes * jtree)) : list (Bytes * jtree) := base.filter (λ m, is_type m = true) ms.

(** What the tree of a record says of its type. *)
Definition tree_inspection (t : option jtree) : codexTopLevelTypeInspection :=
  match t with
  | Some (JObj ms) =>
      match type_members ms with
      | [] => no_inspection
      | m :: more => mkInspection (kind_of m.2) (S (length more)) (1 <? S (length more))
      end
  | _ => no_inspection
  end.

Lemma inspect_members_more ms i : 1 ≤ ti_typeKeys i → ti_duplicate i = (1 <? ti_typeKeys i) →
  foldl inspect_member i ms =
  mkInspection (ti_kind i) (ti_typeKeys i + length (type_members ms)) (1 <? ti_typeKeys i + length (type_members ms)).
Proof.
  revert i. induction ms as [|m ms IH]; intros i Hi Hd; cbn [foldl].
  - unfold type_members. rewrite filter_nil. cbn [length]. rewrite Nat.add_0_r, <- Hd. by destruct i.
  - unfold type_members in *. unfold inspect_member at 2. destruct (is_type m) eqn:Hm.
    + rewrite filter_cons_True by done. rewrite (proj2 (Nat.ltb_lt 1 (S _))) by lia.
      rewrite IH; cbn [ti_typeKeys ti_kind ti_duplicate length]; [|lia|symmetry; apply Nat.ltb_lt; lia].
      by rewrite Nat.add_succ_r.
    + rewrite filter_cons_False by (by rewrite Hm). by apply IH.
Qed.

Lemma inspect_members ms : foldl inspect_member no_inspection ms = tree_inspection (Some (JObj ms)).
Proof.
  unfold tree_inspection. induction ms as [|m ms IH]; [done|]. unfold type_members in *.
  cbn [foldl]. unfold inspect_member at 2. destruct (is_type m) eqn:Hm.
  - rewrite filter_cons_True by done. cbn [ti_typeKeys no_inspection]. rewrite inspect_members_more by done. done.
  - rewrite filter_cons_False by (by rewrite Hm). done.
Qed.

Lemma tree_head frame t : json_tree frame = Some t →
  ∃ c r, skip_ws frame = c :: r ∧ (c =? "{")%char = (match t with JObj _ => true | _ => false end) ∧
         ∀ ms, t = JObj ms → walk_all r 1 true no_inspection = foldl inspect_member no_inspection ms.
Proof.
  intros ([v rest] & Hv & Hr)%option_bind_some. destruct (skip_ws rest); [|done]. injection Hr as <-.
  cbn [jvalue] in Hv. destruct (skip_ws frame) as [|c r]; [done|]. exists c, r. split; [done|].
  destruct (Ascii.eqb_spec c QUOTE) as [->|Hq]; [|destruct (Ascii.eqb_spec c "{"%char) as [->|]; [|destruct (Ascii.eqb_spec c "["%char) as [->|]]].
  + by apply option_bind_some in Hv as ([b r1] & _ & [= <- <-]).
  + change (maxNestingDepth =? 0)%N with false in Hv. cbn iota in Hv. destruct (expect "}" (skip_ws r)) as [r1|] eqn:Hx.
    * simplify_eq. split; [done|]. intros ms [= <-]. apply expect_some in Hx.
      rewrite walk_all_ws, Hx, walk_all_close by auto. by rewrite walk_all_done.
    * apply option_bind_some in Hv as ([ms r1] & Hm & [= <- <-]). split; [done|]. intros ? [= <-]. by eapply walk_members.
  + change (maxNestingDepth =? 0)%N with false in Hv. cbn iota in Hv. destruct (expect "]" (skip_ws r)); [by simplify_eq|].
    by apply option_bind_some in Hv as ([ms r1] & Hm & [= <- <-]).
  + by apply scan_atom_plain in Hv as (raw & -> & _).
Qed.

Lemma inspect_tree frame : inspectCodexTopLevelType frame = tree_inspection (json_tree frame).
Proof.
  unfold inspectCodexTopLevelType, firstNonJSONWhitespace, json_valid. destruct (json_tree frame) as [t|] eqn:Ht.
  - destruct (tree_head _ _ Ht) as (c & r & -> & Hc & Hw). destruct t; rewrite Hc; cbn [negb]; try done.
    fold (walk_all r 1 true no_inspection). rewrite (Hw _ eq_refl). apply inspect_members.
  - destruct (skip_ws frame); [done|]. by destruct (_ =? _)%char.
Qed.

(** The type of a Codex record read off its syntax bytes, without decoding
    anything, is the one the tree of the whole record gives, for every byte
    sequence: nothing when the frame is no valid object; otherwise the first
    member whose key decodes to "type" (escapes included) decides the kind, the
    members so called are counted, and two of them are a duplicate, whatever is
    nested below. *)
Theorem inspection_agrees_with_tree frame :
  inspectCodexTopLevelType frame = tree_inspection (json_tree frame).
Proof. apply inspect_tree. Qed.

(** ** The collector *)

(** A record that says the turn failed: a whole record of that type and no
    other, or the prefix of one whose first member says so. *)
Definition says_turn_failed (i : Input) : bool :=
  match i with
  | Line line =>
      let t := tree_inspection (json_tree (codexFrameWithoutRecordDelimiter line)) in
      negb (ti_duplicate t) && bool_decide (ti_kind t = "turn.failed")
  | Prefix prefix =>
      let p := codexTopLevelTypeFromPrefix prefix in
      pt_object p && pt_typeFirst p && bool_decide (pt_kind p = runes_of "turn.failed")
  end.

(** A record nobody can tell the type of: two types, or a prefix that may be an
    object and does not say first that the turn failed. *)
Definition cannot_be_told (i : Input) : bool :=
  match i with
  | Line line => ti_duplicate (tree_inspection (json_tree (codexFrameWithoutRecordDelimiter line)))
  | Prefix prefix => pt_object (codexTopLevelTypeFromPrefix prefix) && negb (says_turn_failed (Prefix prefix))
  end.

Record collector_ok (c : codexDiagnosticCollector) : Prop := {
  co_seen : cd_seen c = list_to_set (cd_categories c);
  co_nodup : NoDup (cd_categories c);
  co_known : Forall (λ k, k < codexFailureCategoryCount)%N (cd_categories c);
  co_frames : (0 ≤ cd_framesInspected c ≤ maxCodexDiagnosticFrames)%Z;
  co_bytes : (0 ≤ cd_bytesInspected c ≤ maxCodexDiagnosticInspectedBytes)%Z;
  co_exhausted : cd_exhausted c = true → cd_full c = true ∧ cd_categories c = [codexFailureGeneric] }.

Lemma collector_ok_new : collector_ok new_collector.
Proof. split; [reflexivity|constructor|constructor|vm_compute; split; congruence..|discriminate]. Qed.

Lemma collector_ok_failClosed c : collector_ok c → collector_ok (failClosed c).
Proof.
  intros []. split; cbn [failClosed cd_categories cd_seen cd_framesInspected cd_bytesInspected cd_full cd_exhausted];
    [set_solver|apply NoDup_singleton|by repeat constructor|assumption..|by intros _].
Qed.
Lemma collector_ok_turnFailed c : collector_ok c → collector_ok (with_turnFailed c).
Proof. by intros []. Qed.
Lemma collector_ok_oversize c : collector_ok c → collector_ok (with_oversizeSchema c).
Proof. by intros []. Qed.
Lemma collector_ok_count n c : (0 ≤ n)%Z → (cd_framesInspected c < maxCodexDiagnosticFrames)%Z →
  (n ≤ maxCodexDiagnosticInspectedBytes - cd_bytesInspected c)%Z → collector_ok c → collector_ok (count_frame n c).
Proof.
  intros ??? []. split; cbn [count_frame cd_categories cd_seen cd_framesInspected cd_bytesInspected cd_full cd_exhausted];
    [assumption..|lia|lia|assumption].
Qed.
Lemma collector_ok_add k c : collector_ok c → collector_ok (add k c).
Proof.
  intros Hc. unfold add. destruct (cd_full c) eqn:Hf; [done|].
  set (k' := if (codexFailureCategoryCount <=? k)%N then codexFailureGeneric else k).
  case_bool_decide as Hin; [done|]. destruct Hc. split;
    cbn [with_categories cd_categories cd_seen cd_framesInspected cd_bytesInspected cd_full cd_exhausted]; try assumption.
  - rewrite list_to_set_app_L. set_solver.
  - apply NoDup_app. split_and!; [done| |apply NoDup_singleton].
    intros x Hx ->%list_elem_of_singleton. apply Hin. rewrite co_seen0. by apply elem_of_list_to_set.
  - apply Forall_app_2; [done|]. repeat constructor. unfold k'. destruct (N.leb_spec codexFailureCategoryCount k); [done|lia].
  - intros He. destruct (co_exhausted0 He). congruence.
Qed.

Section Feed.
Context `{UnicodeTables}.

Definition feed (c : codexDiagnosticCollector) (i : Input) : codexDiagnosticCollector :=
  match i with Line line => consume line c | Prefix prefix => (consumeDiscardedPrefix prefix c).2 end.

Lemma add_flags k c : cd_turnFailed (add k c) = cd_turnFailed c ∧ cd_oversizeSchema (add k c) = cd_oversizeSchema c.
Proof. unfold add. by repeat case_match. Qed.

Lemma feed_flags c i :
  cd_turnFailed (feed c i) = cd_turnFailed c || says_turn_failed i ∧
  cd_oversizeSchema (feed c i) = cd_oversizeSchema c || cannot_be_told i.
Proof.
  destruct i as [line|prefix]; cbn [feed].
  - unfold consume, says_turn_failed, cannot_be_told. rewrite inspect_tree.
    set (t := tree_inspection _). destruct (ti_duplicate t); [simpl; by rewrite orb_false_r, orb_true_r|].
    cbn [negb andb]. rewrite orb_false_r.
    assert (Hc : ∀ c', cd_turnFailed c' = cd_turnFailed c || bool_decide (ti_kind t = "turn.failed") →
                       cd_oversizeSchema c' = cd_oversizeSchema c →
                       cd_turnFailed (if bool_decide (ti_kind t = "turn.failed") then with_turnFailed c else c) =
                       cd_turnFailed c' ∧ cd_oversizeSchema c' =
                       cd_oversizeSchema (if bool_decide (ti_kind t = "turn.failed") then with_turnFailed c else c)).
    { intros c' -> ->. destruct (bool_decide _); simpl; by rewrite ?orb_true_r, ?orb_false_r. }
    set (c1 := if bool_decide (ti_kind t = "turn.failed") then with_turnFailed c else c) in *.
    assert (H1 : cd_turnFailed c1 = cd_turnFailed c || bool_decide (ti_kind t = "turn.failed") ∧
                 cd_oversizeSchema c1 = cd_oversizeSchema c).
    { unfold c1. destruct (bool_decide _); simpl; by rewrite ?orb_true_r, ?orb_false_r. }
    clearbody c1. clear Hc. destruct H1 as [<- <-].
    repeat case_match; try done; apply (add_flags _ (count_frame _ c1)).
  - unfold consumeDiscardedPrefix, cannot_be_told, says_turn_failed.
    destruct (codexTopLevelTypeFromPrefix prefix) as [kind [] []]; cbn [pt_object pt_typeFirst pt_kind negb andb]; simpl;
      try (case_bool_decide; simpl); by rewrite ?orb_true_r, ?orb_false_r.
Qed.

Lemma feed_ok c i : collector_ok c → collector_ok (feed c i).
Proof.
  intros Hc. destruct i as [line|prefix]; cbn [feed].
  - unfold consume. set (insp := inspectCodexTopLevelType _). destruct (ti_duplicate insp).
    { by apply collector_ok_failClosed, collector_ok_oversize. }
    set (c1 := if bool_decide (ti_kind insp = "turn.failed") then with_turnFailed c else c).
    assert (H1 : collector_ok c1) by (unfold c1; case_bool_decide; [by apply collector_ok_turnFailed|done]).
    clearbody c1. set (n := Z.of_nat (length _)). case_match; [by case_match; [apply collector_ok_failClosed|]|].
    destruct (Unmarshal _); [|done]. destruct (cd_full c1) eqn:Hfull; [done|].
    destruct (_ || _) eqn:Hb; [by apply collector_ok_failClosed|].
    apply orb_false_iff in Hb as [Hb1%Z.leb_gt Hb2%Z.ltb_ge].
    assert (collector_ok (count_frame n c1)) by (apply collector_ok_count; [lia|lia|lia|done]).
    case_bool_decide; [done|by apply collector_ok_add].
  - unfold consumeDiscardedPrefix. destruct (codexTopLevelTypeFromPrefix prefix) as [kind object typeFirst].
    repeat case_match; simplify_eq/=; try done; apply collector_ok_failClosed;
      by first [apply collector_ok_turnFailed | apply collector_ok_oversize].
Qed.

Lemma feeds_ok inputs c : collector_ok c → collector_ok (foldl feed c inputs).
Proof. revert c. induction inputs as [|i inputs IH]; intros c Hc; [done|]. by apply IH, feed_ok. Qed.

Lemma feeds_flags inputs c :
  cd_turnFailed (foldl feed c inputs) = cd_turnFailed c || existsb says_turn_failed inputs ∧
  cd_oversizeSchema (foldl feed c inputs) = cd_oversizeSchema c || existsb cannot_be_told inputs.
Proof.
  revert c. induction inputs as [|i inputs IH]; intros c; cbn [foldl existsb]; [by rewrite !orb_false_r|].
  destruct (IH (feed c i)) as [-> ->]. destruct (feed_flags c i) as [-> ->]. by rewrite !orb_assoc.
Qed.
End Feed.

(** ** What the diagnostic may be *)

Lemma category_text_short k : String.length (category_String k) ≤ 43.
Proof. unfold category_String. repeat case_match; vm_compute; lia. Qed.

Lemma Join_short sep l n : Forall (λ s, String.length s ≤ n) l →
  String.length (Join sep l) ≤ length l * (String.length sep + n).
Proof.
  assert (Happ : ∀ a b, String.length (a +:+ b) = String.length a + String.length b).
  { intros a b. induction a as [|x a IH]; simpl; [done|]. by f_equal. }
  induction 1 as [|s l Hs Hl IH]; [done|]. destruct l as [|s2 l]; [simpl; lia|].
  change (Join sep (s :: s2 :: l)) with (s +:+ sep +:+ Join sep (s2 :: l)). rewrite !Happ. cbn [length] in *. lia.
Qed.

Lemma known_categories_few l : NoDup l → Forall (λ k, k < codexFailureCategoryCount)%N l → length l ≤ 8.
Proof.
  intros Hnd Hk. transitivity (size (list_to_set (C:=gset N) [0; 1; 2; 3; 4; 5; 6; 7]%N)); [|done].
  rewrite <- (size_list_to_set (C:=gset N) l) by done. apply subseteq_size. intros x Hx%elem_of_list_to_set.
  rewrite Forall_forall in Hk. apply Hk in Hx. apply elem_of_list_to_set. unfold codexFailureCategoryCount in Hx.
  assert (Hx' : x = 0%N ∨ x = 1%N ∨ x = 2%N ∨ x = 3%N ∨ x = 4%N ∨ x = 5%N ∨ x = 6%N ∨ x = 7%N) by lia.
  destruct_or! Hx'; subst; set_solver.
Qed.

Lemma collector_text c : collector_ok c →
  collector_String c = Join "; " (category_String <$> (match cd_categories c with [] => [codexFailureGeneric] | l => l end)) ∧
  (Z.of_nat (String.length (collector_String c)) ≤ maxCodexDiagnosticBytes)%Z.
Proof.
  intros [_ Hnd Hk _ _ _]. unfold collector_String. pose proof (known_categories_few _ Hnd Hk) as Hlen.
  destruct (cd_categories c) as [|k l]; [split; [done|by vm_compute]|].
  set (text := Join "; " (category_String <$> k :: l)).
  assert (Ht : String.length text ≤ 8 * 45).
  { etransitivity; [apply (Join_short _ _ 43)|].
    - apply Forall_fmap, Forall_true. intros x. apply category_text_short.
    - rewrite length_fmap. cbn [String.length]. nia. }
  unfold maxCodexDiagnosticBytes. rewrite (proj2 (Z.ltb_ge _ _)) by lia. split; [done|lia].
Qed.

(** C31: Whatever a Codex run prints, the collector's verdict is exact and the
    collector stays small: after any sequence of records and discarded prefixes
    the failure is [ErrCodexTurnFailed] when one of them says the turn failed -
    also past every diagnostic limit -, otherwise the schema error when one of
    them cannot be told apart, otherwise none; no more than 64 frames and 256 KiB
    are counted; the diagnostic is a "; " list of the fixed category constants,
    each at most once and never cut, and a collector that ran out says only
    "provider failure". *)
Theorem codex_failures_are_exact `{UnicodeTables} inputs :
  let c := foldl feed new_collector inputs in
  failure c = (if existsb says_turn_failed inputs then Some ErrCodexTurnFailed
               else if existsb cannot_be_told inputs then Some ErrCodexOversizeSchema else None) ∧
  (cd_framesInspected c ≤ maxCodexDiagnosticFrames)%Z ∧
  (cd_bytesInspected c ≤ maxCodexDiagnosticInspectedBytes)%Z ∧
  (∃ cats, cats ≠ [] ∧ NoDup cats ∧ Forall (λ k, k < codexFailureCategoryCount)%N cats ∧
     collector_String c = Join "; " (category_String <$> cats) ∧
     (Z.of_nat (String.length (collector_String c)) ≤ maxCodexDiagnosticBytes)%Z) ∧
  (cd_exhausted c = true → collector_String c = "provider failure").
Proof.
  intros c. assert (Hok : collector_ok c) by apply feeds_ok, collector_ok_new.
  destruct (feeds_flags inputs new_collector) as [Ht Ho]. fold c in Ht, Ho. cbn [cd_turnFailed cd_oversizeSchema new_collector orb] in Ht, Ho.
  destruct (collector_text c Hok) as [Htext Hlen]. pose proof Hok as [_ Hnd Hk Hfr Hby Hex]. split_and!.
  - unfold failure. by rewrite Ht, Ho.
  - lia.
  - lia.
  - exists (match cd_categories c with [] => [codexFailureGeneric] | l => l end).
    destruct (cd_categories c); split_and!; try done; [apply NoDup_singleton|by repeat constructor].
  - intros He. destruct (Hex He) as [_ Hcats]. unfold collector_String. by rewrite Hcats.
Qed.

(** * The JSON grammar never runs out of fuel

    Every value, member list and item list ends strictly further on, so twice
    the length of a frame is fuel enough, whatever it is. *)

Lemma skip_ws_length l : length (skip_ws l) ≤ length l.
Proof. induction l as [|c l IH]; simpl; [done|]. case_match; simpl; lia. Qed.

Lemma expect_length c l r : expect c l = Some r → length r < length l.
Proof. intros ->%expect_some. simpl. lia. Qed.

Lemma expect_ws_length c l r : expect c (skip_ws l) = Some r → length r < length l.
Proof. intros Hr%expect_length. pose proof (skip_ws_length l). lia. Qed.

Lemma scan_string_length l b rest : scan_string l = Some (b, rest) → length rest < length l.
Proof. intros [_ ->]%scan_string_body. rewrite length_app. simpl. lia. Qed.

Lemma digits1_length l d rest : digits1 l = Some (d, rest) → length rest < length l.
Proof.
  intros Hd. pose proof Hd as Hd'. apply digits1_plain in Hd as [_ ->]. unfold digits1 in Hd'.
  destruct d as [|x d]; [|rewrite length_app; simpl; lia]. destruct (digits ([] ++ rest)) as [[|y d'] r']; simplify_eq.
Qed.

Lemma scan_atom_length l t rest : scan_atom l = Some (t, rest) → length rest < length l.
Proof.
  unfold scan_atom. intros ([raw r] & Hf & [= <- <-])%option_bind_some.
  assert (Hlit : ∀ s, s ≠ "" → literal s l = Some (raw, r) → length r < length l).
  { intros s Hs (r' & Hp & [= <- <-])%option_bind_some. apply strip_prefix_some in Hp as ->. rewrite length_app.
    destruct s; [done|]. simpl. lia. }
  destruct (literal "true" l) eqn:Ht; [simplify_eq; by eapply (Hlit "true")|].
  destruct (literal "false" l) eqn:Hfl; [simplify_eq; by eapply (Hlit "false")|].
  destruct (literal "null" l) eqn:Hn; [simplify_eq; by eapply (Hlit "null")|].
  unfold scan_number in Hf.
  destruct (match expect "-" l with Some r => (["-"%char], r) | None => ([], l) end) as [m r0] eqn:Hm.
  assert (Hr0 : length r0 ≤ length l).
  { destruct (expect "-" l) as [r1|] eqn:He; simplify_eq; [|done]. apply expect_length in He. lia. }
  apply option_bind_some in Hf as ([i r1] & Hi & Hf). apply option_bind_some in Hf as ([f r2] & Hfr & Hf).
  apply option_bind_some in Hf as ([e r3] & He & [= _ <-]).
  apply number_frac_plain in Hfr as [_ ->]. apply number_exp_plain in He as [_ ->].
  assert (Hlt : length (f ++ e ++ r3) < length r0).
  { destruct r0 as [|c r0]; [done|]. unfold number_int in Hi. destruct (c =? "0")%char; [simplify_eq; simpl; lia|]. by apply digits1_length in Hi. }
  rewrite !length_app in Hlt. lia.
Qed.

Lemma values_shrink n :
  (∀ d l v rest, jvalue n d l = Some (v, rest) → length rest < length l) ∧
  (∀ d l ms rest, jmembers n d l = Some (ms, rest) → length rest < length l) ∧
  (∀ d l vs rest, jitems n d l = Some (vs, rest) → length rest < length l).
Proof.
  induction n as [|n (IHv & IHm & IHi)]; [done|]. split_and!.
  - intros d l v rest Hv. cbn [jvalue] in Hv. pose proof (skip_ws_length l) as Hws.
    destruct (skip_ws l) as [|c r]; [done|]. cbn [length] in Hws.
    destruct (c =? QUOTE)%char; [|destruct (c =? "{")%char; [|destruct (c =? "[")%char]].
    + apply option_bind_some in Hv as ([b r1] & Hs%scan_string_length & [= _ <-]). lia.
    + destruct (d =? 0)%N; [done|]. destruct (expect "}" (skip_ws r)) eqn:Hx.
      * simplify_eq. apply expect_ws_length in Hx. lia.
      * apply option_bind_some in Hv as ([ms r1] & Hm%IHm & [= _ <-]). lia.
    + destruct (d =? 0)%N; [done|]. destruct (expect "]" (skip_ws r)) eqn:Hx.
      * simplify_eq. apply expect_ws_length in Hx. lia.
      * apply option_bind_some in Hv as ([ms r1] & Hm%IHi & [= _ <-]). lia.
    + apply scan_atom_length in Hv. simpl in Hv. lia.
  - intros d l ms rest Hm. cbn [jmembers] in Hm.
    apply option_bind_some in Hm as (r & Hx%expect_ws_length & Hm).
    apply option_bind_some in Hm as ([k r1] & Hs%scan_string_length & Hm).
    apply option_bind_some in Hm as (r2 & Hc%expect_ws_length & Hm).
    apply option_bind_some in Hm as ([v r3] & Hv%IHv & Hm).
    destruct (expect "}" (skip_ws r3)) eqn:Hx2; [simplify_eq; apply expect_ws_length in Hx2; lia|].
    apply option_bind_some in Hm as (r4 & Hx3%expect_ws_length & Hm).
    apply option_bind_some in Hm as ([ms' r5] & Hm%IHm & [= _ <-]). lia.
  - intros d l vs rest Hm. cbn [jitems] in Hm. apply option_bind_some in Hm as ([v r3] & Hv%IHv & Hm).
    destruct (expect "]" (skip_ws r3)) eqn:Hx2; [simplify_eq; apply expect_ws_length in Hx2; lia|].
    apply option_bind_some in Hm as (r4 & Hx3%expect_ws_length & Hm).
    apply option_bind_some in Hm as ([ms' r5] & Hm%IHi & [= _ <-]). lia.
Qed.

Lemma option_bind_ext_in {A B} (o : option A) (f g : A → option B) :
  (∀ a, o = Some a → f a = g a) → (x ← o; f x) = (x ← o; g x).
Proof. destruct o; simpl; auto. Qed.

(** Fuel beyond twice the length of the text makes no difference. *)
Lemma grammar_fuel n :
  (∀ m d l, 2 * length l < n → 2 * length l < m → jvalue n d l = jvalue m d l) ∧
  (∀ m d l, S (2 * length l) < n → S (2 * length l) < m → jmembers n d l = jmembers m d l) ∧
  (∀ m d l, S (2 * length l) < n → S (2 * length l) < m → jitems n d l = jitems m d l).
Proof.
  induction n as [|n (IHv & IHm & IHi)]; [by split_and!; intros; lia|].
  split_and!; intros [|m] d l Hn Hm; try lia.
  - cbn [jvalue]. pose proof (skip_ws_length l) as Hws. destruct (skip_ws l) as [|c r]; [done|]. cbn [length] in Hws.
    by rewrite (IHm m (d - 1)%N r), (IHi m (d - 1)%N r) by lia.
  - cbn [jmembers]. apply option_bind_ext_in. intros r Hr%expect_ws_length.
    apply option_bind_ext_in. intros [k r1] Hs%scan_string_length. apply option_bind_ext_in. intros r2 Hc%expect_ws_length.
    rewrite (IHv m d r2) by lia. apply option_bind_ext_in. intros [v r3] Hv%values_shrink.
    destruct (expect "}" (skip_ws r3)); [done|]. apply option_bind_ext_in. intros r4 Hx%expect_ws_length. by rewrite (IHm m d r4) by lia.
  - cbn [jitems]. rewrite (IHv m d l) by lia. apply option_bind_ext_in. intros [v r3] Hv%values_shrink.
    destruct (expect "]" (skip_ws r3)); [done|]. apply option_bind_ext_in. intros r4 Hx%expect_ws_length. by rewrite (IHi m d r4) by lia.
Qed.

(** A frame the recogniser refuses is refused with any amount of fuel. *)
Lemma json_tree_fuel n frame : 2 * length frame < n →
  json_tree frame = ('(t, rest) ← jvalue n maxNestingDepth frame; match skip_ws rest with [] => Some t | _ => None end).
Proof. intros Hn. unfold json_tree. by rewrite (proj1 (grammar_fuel (S (2 * length frame))) n) by lia. Qed.

(** * Codex diagnostics: prose is matched by whole words

    [normalizeCodexDiagnostic] and the padded substring test of
    [containsAnyDiagnosticPhrase] against a reference on lists of words, and the
    classification as the first row of its table that the words mention. *)

Abbreviation space := 32%Z.

(** ** Words *)

(** Each word with the space behind it. *)
Definition flat (ws : list (list Z)) : list Z := concat ((λ w, w ++ [space]) <$> ws).

Lemma flat_cons w ws : flat (w :: ws) = w ++ space :: flat ws.
Proof. unfold flat. cbn [fmap list_fmap concat]. by rewrite <- app_assoc. Qed.

Lemma flat_app ws1 ws2 : flat (ws1 ++ ws2) = flat ws1 ++ flat ws2.
Proof. unfold flat. by rewrite fmap_app, concat_app. Qed.

Definition spaceless (ws : list (list Z)) : Prop := Forall (λ w, space ∉ w) ws.

(** A space splits a text at one place only. *)
Lemma split_at_space w1 w2 r1 r2 : space ∉ w1 → space ∉ w2 → w1 ++ space :: r1 = w2 ++ space :: r2 → w1 = w2 ∧ r1 = r2.
Proof.
  revert w2. induction w1 as [|x w1 IH]; intros [|y w2] H1 H2 Heq; simplify_eq/=.
  - done.
  - set_solver.
  - set_solver.
  - destruct (IH w2) as [-> ->]; [set_solver|set_solver|done|done].
Qed.

Lemma space_past_word w r u x : space ∉ w → w ++ space :: r = u ++ space :: x →
  ∃ u', u = w ++ u' ∧ space :: r = u' ++ space :: x.
Proof.
  revert u. induction w as [|a w IH]; intros u Hw Heq; [by exists u|].
  destruct u as [|b u]; simplify_eq/=; [set_solver|].
  destruct (IH u) as (u' & -> & ?); [set_solver|done|]. by exists u'.
Qed.

(** A padded text starts words only where a space stands. *)
Lemma flat_split ws u x : spaceless ws → space :: flat ws = u ++ space :: x → ∃ a b, ws = a ++ b ∧ x = flat b.
Proof.
  intros Hws. revert u x. induction Hws as [|w ws Hw Hws IH]; intros u x Heq.
  - exists [], []. destruct u as [|? u]; simplify_eq/=; [done|]. by destruct u.
  - destruct u as [|? u]; simplify_eq/=; [by exists [], (w :: ws)|].
    match goal with E : flat (w :: ws) = _ |- _ => rewrite flat_cons in E; rename E into Hflat end.
    apply space_past_word in Hflat as (u' & -> & Hflat); [|done].
    destruct (IH _ _ Hflat) as (a & b & -> & ->). by exists (w :: a), b.
Qed.

Lemma flat_prefix ps b v : spaceless ps → spaceless b → flat b = flat ps ++ v → ∃ c, b = ps ++ c.
Proof.
  intros Hps. revert b. induction Hps as [|p ps Hp Hps IH]; intros b Hb Heq; [by exists b|].
  rewrite flat_cons, <- app_assoc in Heq. destruct Hb as [|w b Hw Hb]; [by destruct p|].
  rewrite flat_cons in Heq. apply split_at_space in Heq as [-> Heq]; [|done..].
  destruct (IH b Hb Heq) as [c ->]. by exists c.
Qed.

Lemma has_prefix_spec p l : has_prefix p l = true ↔ ∃ v, l = p ++ v.
Proof.
  revert l. induction p as [|a p IH]; intros l; simpl; [split; [by exists l|done]|].
  destruct l as [|b l]; [split; [done|by intros []]|]. rewrite andb_true_iff, Z.eqb_eq, IH. naive_solver.
Qed.

Lemma contains_spec l p : contains l p = true ↔ ∃ u v, l = u ++ p ++ v.
Proof.
  induction l as [|x l IH]; simpl; rewrite orb_true_iff, has_prefix_spec.
  - split; [intros [[v Hv]|?]; [by exists [], v|done]|]. intros (u & v & Hl). left. destruct u; [by exists v|done].
  - rewrite IH. split.
    + intros [[v ->]|(u & v & ->)]; [by exists [], v|by exists (x :: u), v].
    + intros (u & v & Hl). destruct u as [|y u]; simplify_eq/=; [left; by exists v|right; by exists u, v].
Qed.

Lemma contains_words ws ps : spaceless ws → spaceless ps →
  contains (space :: flat ws) (space :: flat ps) = true ↔ ∃ a b, ws = a ++ ps ++ b.
Proof.
  intros Hws Hps. rewrite contains_spec. split.
  - intros (u & v & Heq). rewrite <- app_comm_cons in Heq. apply flat_split in Heq as (a & b & -> & Hb); [|done].
    apply Forall_app in Hws as [_ Hws]. symmetry in Hb. destruct (flat_prefix ps b v Hps Hws Hb) as [c ->]. by exists a, c.
  - intros (a & b & ->). destruct (decide (a = [])) as [->|Ha]; [exists [], (flat b); cbn [app]; by rewrite flat_app|].
    destruct (exists_last Ha) as (a' & w & ->). exists (space :: flat a' ++ w), (flat b).
    rewrite !flat_app, flat_cons. cbn. by rewrite <- !app_assoc.
Qed.

(** ** Normalisation writes words *)

Section Words.
Context `{UnicodeTables}.

(** The maximal runs of letters and digits, [cur] being one under way. *)
Fixpoint words_from (l cur : list Z) : list (list Z) :=
  match l with
  | [] => match cur with [] => [] | _ => [cur] end
  | r :: l' =>
      if word_rune r then words_from l' (cur ++ [r])
      else match cur with [] => words_from l' [] | _ => cur :: words_from l' [] end
  end.
Definition words (message : list Z) : list (list Z) := words_from (ToLower <$> message) [].

Lemma normalize_from_words l :
  normalize_from l true = flat (words_from l []) ∧
  ∀ cur, cur ≠ [] → cur ++ normalize_from l false = flat (words_from l cur).
Proof.
  induction l as [|r l [IH1 IH2]]; cbn [normalize_from words_from].
  - split; [done|]. intros [|x cur] Hc; [done|]. by rewrite flat_cons.
  - split.
    + destruct (word_rune r); [|done]. rewrite <- (IH2 ([] ++ [r])) by done. done.
    + intros cur Hc. destruct (word_rune r).
      * rewrite <- IH2 by (by destruct cur). by rewrite <- app_assoc.
      * destruct cur as [|x cur]; [done|]. by rewrite flat_cons, IH1.
Qed.

Lemma normalize_words message : normalizeCodexDiagnostic message = space :: flat (words message).
Proof. unfold normalizeCodexDiagnostic, words. by rewrite (proj1 (normalize_from_words _)). Qed.

Context `{!UnicodeLaws}.

Lemma word_rune_solid r : word_rune r = true → unicode_space r = false.
Proof. intros [?|?]%orb_prop; [by apply letter_not_space|by apply digit_not_space]. Qed.

Definition solid_word (w : list Z) : Prop := w ≠ [] ∧ Forall (λ r, unicode_space r = false) w.

Lemma words_from_solid l cur : Forall (λ r, unicode_space r = false) cur → Forall solid_word (words_from l cur).
Proof.
  revert cur. induction l as [|r l IH]; intros cur Hc; cbn [words_from].
  - destruct cur; [constructor|]. apply Forall_singleton. by split.
  - destruct (word_rune r) eqn:Hr.
    + apply IH, Forall_app_2; [done|]. repeat constructor. by apply word_rune_solid.
    + destruct cur; [by apply IH|]. constructor; [by split|by apply IH].
Qed.

Lemma solid_spaceless ws : Forall solid_word ws → spaceless ws.
Proof.
  intros Hws. apply (Forall_impl _ _ _ Hws). intros w [_ Hw] Hin. rewrite Forall_forall in Hw. by specialize (Hw _ Hin).
Qed.

Lemma drop_spaces_solid r l : unicode_space r = false → drop_spaces (r :: l) = r :: l.
Proof. intros Hr. cbn [drop_spaces]. by rewrite Hr. Qed.

(** Trimming the normalised phrase takes the outer spaces and no more. *)
Lemma trim_normalized ps : Forall solid_word ps → ps ≠ [] →
  trim_runes (space :: flat ps) ≠ [] ∧ trim_runes (space :: flat ps) ++ [space] = flat ps.
Proof.
  intros Hps Hne. destruct ps as [|w ps]; [done|]. pose proof Hps as Hps'.
  inversion Hps as [|? ? [Hw Hws] _]; subst. destruct w as [|r w]; [done|]. apply Forall_cons in Hws as [Hr _].
  unfold trim_runes.
  assert (Hd : drop_spaces (space :: flat ((r :: w) :: ps)) = flat ((r :: w) :: ps)).
  { rewrite flat_cons. change (drop_spaces (space :: ?l)) with (drop_spaces l). by rewrite <- app_comm_cons, drop_spaces_solid. }
  rewrite Hd. destruct (@exists_last _ ((r :: w) :: ps)) as (ps1 & w1 & Heq); [done|]. rewrite Heq in *.
  apply Forall_app in Hps' as [_ Hl]. inversion Hl as [|? ? [Hw1 Hs1] _]; subst.
  destruct (exists_last Hw1) as (w2 & r2 & ->). apply Forall_app in Hs1 as [_ Hs1]. apply Forall_cons in Hs1 as [Hr2 _].
  rewrite flat_app, flat_cons. change (flat []) with (@nil Z).
  rewrite !app_assoc, rev_app_distr. cbn [rev app]. change (drop_spaces (space :: ?l)) with (drop_spaces l).
  rewrite rev_app_distr. cbn [rev app]. rewrite drop_spaces_solid by done. cbn [rev]. rewrite rev_involutive.
  split; [by intros []%app_eq_nil|done].
Qed.

(** The words of one of the phrases stand in the message one after the other. *)
Definition mentions (message : list Z) (phrases : list string) : Prop :=
  ∃ p a b, p ∈ phrases ∧ words (runes_of p) ≠ [] ∧ words message = a ++ words (runes_of p) ++ b.

Lemma phrase_matches_words message phrases :
  containsAnyDiagnosticPhrase (normalizeCodexDiagnostic message) phrases = true ↔ mentions message phrases.
Proof.
  unfold containsAnyDiagnosticPhrase, mentions. rewrite existsb_exists.
  assert (Hs : ∀ m, Forall solid_word (words m)) by (intros m; by apply words_from_solid).
  assert (Hone : ∀ p, (negb (bool_decide (trim_runes (normalizeCodexDiagnostic (runes_of p)) = [])) &&
      contains (normalizeCodexDiagnostic message) (space :: trim_runes (normalizeCodexDiagnostic (runes_of p)) ++ [space])) = true ↔
      words (runes_of p) ≠ [] ∧ ∃ a b, words message = a ++ words (runes_of p) ++ b).
  { intros p. rewrite !normalize_words. destruct (decide (words (runes_of p) = [])) as [->|Hne].
    - split; [done|by intros [? _]].
    - destruct (trim_normalized _ (Hs (runes_of p)) Hne) as [Ht Htr]. rewrite Htr, bool_decide_eq_false_2 by done.
      cbn [negb andb]. rewrite contains_words by apply solid_spaceless, Hs. naive_solver. }
  split.
  - intros (p & Hin%list_elem_of_In & Hp). apply Hone in Hp as (? & a & b & ?). by exists p, a, b.
  - intros (p & a & b & Hin & Hne & Heq). exists p. split; [by apply list_elem_of_In|]. apply Hone. eauto.
Qed.

Definition classification_table : list (list string * codexFailureCategory) :=
  [(authentication_phrases, codexFailureAuthentication); (rate_limit_phrases, codexFailureRateLimit);
   (quota_phrases, codexFailureQuota); (context_phrases, codexFailureInvalidRequest);
   (service_phrases, codexFailureService); (model_phrases, codexFailureModelAccess);
   (network_phrases, codexFailureNetwork); (invalid_phrases, codexFailureInvalidRequest)].

(** Provider prose is classified by whole words: a message is given the
    category of the first row of the table one of whose phrases it mentions - the
    phrase's words standing in it one after the other, case, punctuation and
    spacing apart, never a fragment of a longer word or number - and is generic
    when it mentions none. *)
Theorem prose_is_matched_by_words message :
  (∀ k phrases category, classification_table !! k = Some (phrases, category) → mentions message phrases →
     (∀ j row, j < k → classification_table !! j = Some row → ¬ mentions message row.1) →
     classifyCodexFailure message = category) ∧
  ((∀ row, row ∈ classification_table → ¬ mentions message row.1) → classifyCodexFailure message = codexFailureGeneric).
Proof.
  assert (Hno : ∀ ps, ¬ mentions message ps → containsAnyDiagnosticPhrase (normalizeCodexDiagnostic message) ps = false).
  { intros ps Hps. apply not_true_is_false. by rewrite phrase_matches_words. }
  split.
  - intros k phrases category Hk Hm%phrase_matches_words Hbefore. unfold classifyCodexFailure.
    assert (Hb : ∀ j ps c, j < k → classification_table !! j = Some (ps, c) →
        containsAnyDiagnosticPhrase (normalizeCodexDiagnostic message) ps = false).
    { intros j ps c Hj Hrow. apply Hno. exact (Hbefore j (ps, c) Hj Hrow). }
    do 8 (destruct k as [|k]; [injection Hk as <- <-;
      rewrite ?(Hb 0 _ _ ltac:(lia) eq_refl), ?(Hb 1 _ _ ltac:(lia) eq_refl), ?(Hb 2 _ _ ltac:(lia) eq_refl),
        ?(Hb 3 _ _ ltac:(lia) eq_refl), ?(Hb 4 _ _ ltac:(lia) eq_refl), ?(Hb 5 _ _ ltac:(lia) eq_refl),
        ?(Hb 6 _ _ ltac:(lia) eq_refl), Hm; reflexivity|]).
    done.
  - intros Hall. unfold classifyCodexFailure.
    assert (Hrow : ∀ k ps c, classification_table !! k = Some (ps, c) →
        containsAnyDiagnosticPhrase (normalizeCodexDiagnostic message) ps = false).
    { intros k ps c Hk. apply Hno, (Hall (ps, c)). by eapply list_elem_of_lookup_2. }
    by rewrite (Hrow 0 _ _ eq_refl), (Hrow 1 _ _ eq_refl), (Hrow 2 _ _ eq_refl), (Hrow 3 _ _ eq_refl),
      (Hrow 4 _ _ eq_refl), (Hrow 5 _ _ eq_refl), (Hrow 6 _ _ eq_refl), (Hrow 7 _ _ eq_refl).
Qed.
End Words.

(** ** A concrete message *)

(** The ASCII part of the tables. *)
Definition ascii_tables : UnicodeTables :=
  {| ToLower r := if (65 <=? r)%Z && (r <=? 90)%Z then (r + 32)%Z else r;
     IsLetter r := (97 <=? r)%Z && (r <=? 122)%Z || (65 <=? r)%Z && (r <=? 90)%Z;
     IsDigit r := (48 <=? r)%Z && (r <=? 57)%Z |}.
Section Demonstration.
#[local] Existing Instance ascii_tables.

#[local] Instance ascii_laws : UnicodeLaws.
Proof. split; unfold IsLetter, IsDigit, unicode_space; simpl; lia. Qed.

Definition demo_message : list Z := runes_of "upstream 4290 ms: HTTP-503, socket TIMEOUT".

Lemma demo_message_rows : (λ row, containsAnyDiagnosticPhrase (normalizeCodexDiagnostic demo_message) row.1) <$> classification_table =
  [false; false; false; false; true; false; true; false].
Proof. by vm_compute. Qed.

Lemma demo_not_before j row : j < 4 → classification_table !! j = Some row → ¬ mentions demo_message row.1.
Proof.
  intros Hj Hrow Hm%phrase_matches_words. pose proof (f_equal (.!! j) demo_message_rows) as Hrows. cbn beta in Hrows.
  rewrite list_lookup_fmap, Hrow in Hrows. cbn [fmap option_fmap option_map] in Hrows. rewrite Hm in Hrows.
  by do 4 (destruct j as [|j]; [done|]); lia.
Qed.

Lemma demo_mentions_service : mentions demo_message service_phrases.
Proof. apply phrase_matches_words. by vm_compute. Qed.

Lemma prose_is_matched_by_words_witness : classifyCodexFailure demo_message = codexFailureService.
Proof.
  exact (proj1 (prose_is_matched_by_words demo_message) 4 _ _ eq_refl demo_mentions_service demo_not_before).
Defined.

(** A record with its type behind an escape and a nested decoy, and one with two
    types. *)
Example escaped_type : inspectCodexTopLevelType (chars (of_chars (["{"; QUOTE; "a"; QUOTE; ":"; "["; "{"; QUOTE; "t"; "y"; "p"; "e"; QUOTE; ":"; "1"; "}"; "]"; ","; QUOTE; BACKSLASH; "u"; "0"; "0"; "7"; "4"; "y"; "p"; "e"; QUOTE; ":"; QUOTE; "e"; "r"; "r"; "o"; "r"; QUOTE; "}"]%char))) = mkInspection "error" 1 false.
Proof. by vm_compute. Qed.

Definition quoted (s : string) : Bytes := QUOTE :: chars s ++ [QUOTE].

(** The record of another type with a key [TYPE] in its payload. *)
Definition folded_record : Bytes :=
  ["{"%char] ++ quoted "type" ++ [":"%char] ++ quoted "item.completed" ++ [","%char] ++ quoted "TYPE" ++ [":"%char] ++ quoted "error" ++
  [","%char] ++ quoted "message" ++ [":"%char] ++ quoted "401" ++ ["}"%char].

(** The scan compares keys exactly, the decoding of the event folds their case
    and lets the last one win: the record is no error to the first and one to the
    second. *)
Lemma case_variant_type_is_classified :
  ti_kind (inspectCodexTopLevelType folded_record) = "" ∧ ti_duplicate (inspectCodexTopLevelType folded_record) = false ∧
  cd_categories (consume folded_record new_collector) = [codexFailureAuthentication].
Proof. split_and!; by vm_compute. Qed.
End Demonstration.
