(* ===== verification/AgentLifecycle.v ===== *)
(** * The life of a provider process: [internal/agent/lifecycle.go], [agent.go]

    [processLifecycle] decides under one mutex who may signal, reap or probe the
    child; an [Agent] runs an exit observer, a context watcher and an output
    reader beside any number of callers of [Kill], [TerminateAndWait] and [Wait].
    Each of these is a program counter, and a step is one critical section, one
    channel operation or one system call of one of them; the child may die
    between any two. The answers of the kernel are the step's to choose. *)
From S2P Require Import Prelude.

(** ** Errors *)

Inductive AgentError :=
| ErrProcessExitObservation | ErrProcessTreeCleanup | ErrProcessTermination | ErrOutput
| ErrObservationStopped
| ErrRaw (n : nat).

#[export] Instance AgentError_eq_dec : EqDecision AgentError.
Proof. solve_decision. Defined.

(** An [error]: nil is the empty list, [errors.Join] concatenates. *)
Abbreviation Errors := (list AgentError).

(** ** processLifecycle *)

Inductive lifecyclePhase := lifecycleRunning | lifecycleReaping | lifecycleFinished | lifecycleFailed.

#[export] Instance lifecyclePhase_eq_dec : EqDecision lifecyclePhase.
Proof. solve_decision. Defined.

Record terminationOutcome := mkOutcome { to_alreadyExited : bool; to_cleanupErr : Errors; to_terminationErr : Errors }.

Record terminationClaim := mkClaim {
  tc_claimed : bool;
  tc_natural : bool;
  tc_observationErr : Errors;
  tc_cleanupErr : Errors;
  tc_terminationErr : Errors }.
Definition no_claim : terminationClaim := mkClaim false false [] [] [].

Record processLifecycle := mkLifecycle { lc_phase : lifecyclePhase; lc_forced : bool; lc_exitErr : Errors }.
Definition new_lifecycle : processLifecycle := mkLifecycle lifecycleRunning false [].

Definition set_phase (p : lifecyclePhase) (l : processLifecycle) : processLifecycle :=
  mkLifecycle p (lc_forced l) (lc_exitErr l).
Definition running (l : processLifecycle) : bool := bool_decide (lc_phase l = lifecycleRunning).

Definition maxTerminationAttempts : nat := 3.

(** A probe's answer, [(exited, err)]. *)
Abbreviation Answer := (bool * Errors)%type.
Definition says_exited (a : Answer) : bool := a.1 && bool_decide (a.2 = []).

(** The loop of [claimTermination]: each attempt with the outcome of [terminate]
    and the probe that follows it; [terminationErr] is the last attempt's. *)
Fixpoint claim_attempts (attempts : list (terminationOutcome * Answer)) (observationErr cleanupErr terminationErr : Errors)
    (l : processLifecycle) : terminationClaim * processLifecycle :=
  match attempts with
  | [] => (mkClaim false false observationErr cleanupErr terminationErr, set_phase lifecycleFailed l)
  | (outcome, probe) :: attempts' =>
      let cleanupErr := cleanupErr ++ to_cleanupErr outcome in
      let terminationErr := to_terminationErr outcome in
      if to_alreadyExited outcome then (mkClaim false true observationErr cleanupErr [], l)
      else if bool_decide (terminationErr = [])
      then (mkClaim true false observationErr cleanupErr [], mkLifecycle lifecycleReaping true (lc_exitErr l))
      else
        let observationErr := observationErr ++ probe.2 in
        if says_exited probe then (mkClaim false true observationErr cleanupErr [], l)
        else claim_attempts attempts' observationErr cleanupErr terminationErr l
  end.

(** [observe] and [terminate] answer the [n]-th call. *)
Definition claimTermination (observe : nat → Answer) (terminate : nat → terminationOutcome) (l : processLifecycle)
    : terminationClaim * processLifecycle :=
  if negb (running l) then (no_claim, l)
  else if says_exited (observe 0) then (mkClaim false true [] [] [], l)
  else claim_attempts ((λ n, (terminate n, observe (S n))) <$> seq 0 maxTerminationAttempts) (observe 0).2 [] [] l.

(** [processLifecycle.observe]. *)
Definition observe (probe : Answer) (l : processLifecycle) : Answer :=
  if negb (running l) then (false, [ErrObservationStopped]) else probe.

Definition claimNatural (cleanup : Errors) (l : processLifecycle) : (bool * Errors) * processLifecycle :=
  if negb (running l) then ((false, []), l) else ((true, cleanup), set_phase lifecycleReaping l).

(** [processWaitWasForced] reads the platform's exit status. *)
Class WaitStatus := { processWaitWasForced : Errors → bool → bool }.

Section Lifecycle.
Context `{WaitStatus}.

Definition finish (err : Errors) (l : processLifecycle) : processLifecycle :=
  if bool_decide (lc_phase l = lifecycleReaping)
  then mkLifecycle lifecycleFinished (processWaitWasForced err (lc_forced l)) err else l.

Definition exitError (l : processLifecycle) : Errors :=
  if negb (bool_decide (lc_phase l = lifecycleFinished)) || lc_forced l then [] else lc_exitErr l.

Definition snapshot (l : processLifecycle) : lifecyclePhase * bool * Errors := (lc_phase l, lc_forced l, lc_exitErr l).

(** [process] is the pid of a non-nil handle. *)
Definition pid (process : option Z) (l : processLifecycle) : Z := if negb (running l) then 0 else default 0%Z process.
End Lifecycle.

(** ** The agent *)

(** The direct child: alive, sent a signal it cannot survive, dead and waitable,
    or taken by [cmd.Wait]. *)
Inductive Child := Alive | Doomed | Exited | Reaped.

#[export] Instance Child_eq_dec : EqDecision Child.
Proof. solve_decision. Defined.

(** What its kernel may do to the child meanwhile. *)
Definition child_later (c c' : Child) : Prop := c' = c ∨ (c = Alive ∨ c = Doomed) ∧ c' = Exited.

(** What follows [terminateProcess]: the end of its goroutine or of [Kill], the
    reader's error handling, or the rest of [TerminateAndWait]. *)
Inductive Cont := KEnd | KReader | KWait.

Inductive pc :=
| ObserverProbe                                     (* waitProcessExited: probe() *)
| ObserverSelect                                    (* its select on stop and the ticker *)
| ObserverFailed (err : Errors)                     (* addControlError of the observer *)
| AwaitCancel                                       (* cancelOnContext's select *)
| Reading                                           (* readLoop *)
| ReaderEnd                                         (* its deferred <-a.terminal *)
| Terminate (k : Cont)                              (* lifecycle.claimTermination *)
| Claimed (c : terminationClaim) (k : Cont)         (* what terminateProcess does with the claim *)
| ReapNatural (k : Cont)                            (* lifecycle.claimNatural *)
| AwaitTerminal (k : Cont)                          (* <-a.terminal *)
| InWait (k : Cont)                                 (* cmd.Wait *)
| Finishing (err : Errors) (k : Cont)               (* lifecycle.finish *)
| Publishing (k : Cont)                             (* publishTerminal *)
| Abandon                                           (* Wait: close(abandonOutput) *)
| AwaitDone                                         (* <-a.done *)
| Joining                                           (* a.goroutines.Wait() *)
| Returned (err : Errors)                           (* Wait's value *)
| Ended.

(** The fields of [Agent] that matter for control; [ag_threads] holds the
    observer, the context watcher, the reader and then the callers, in order. *)
Record Agent := mkAgent {
  ag_lifecycle : processLifecycle;
  ag_terminal : bool;
  ag_done : bool;
  ag_killed : bool;
  ag_abandoned : bool;
  ag_controlErr : Errors;
  ag_outputErr : Errors;
  ag_child : Child;
  ag_waits : nat;
  ag_threads : list pc }.

Definition Start : Agent :=
  mkAgent new_lifecycle false false false false [] [] Alive 0 [ObserverProbe; AwaitCancel; Reading].

Definition set_lifecycle (l : processLifecycle) (a : Agent) : Agent :=
  mkAgent l (ag_terminal a) (ag_done a) (ag_killed a) (ag_abandoned a) (ag_controlErr a) (ag_outputErr a) (ag_child a) (ag_waits a) (ag_threads a).
Definition set_child (c : Child) (a : Agent) : Agent :=
  mkAgent (ag_lifecycle a) (ag_terminal a) (ag_done a) (ag_killed a) (ag_abandoned a) (ag_controlErr a) (ag_outputErr a) c (ag_waits a) (ag_threads a).
Definition begin_wait (a : Agent) : Agent :=
  mkAgent (ag_lifecycle a) (ag_terminal a) (ag_done a) (ag_killed a) (ag_abandoned a) (ag_controlErr a) (ag_outputErr a) (ag_child a) (S (ag_waits a)) (ag_threads a).
Definition publishTerminal (a : Agent) : Agent :=
  mkAgent (ag_lifecycle a) true (ag_done a) (ag_killed a) (ag_abandoned a) (ag_controlErr a) (ag_outputErr a) (ag_child a) (ag_waits a) (ag_threads a).
Definition close_done (a : Agent) : Agent :=
  mkAgent (ag_lifecycle a) (ag_terminal a) true (ag_killed a) (ag_abandoned a) (ag_controlErr a) (ag_outputErr a) (ag_child a) (ag_waits a) (ag_threads a).
Definition releaseOutput (a : Agent) : Agent :=
  mkAgent (ag_lifecycle a) (ag_terminal a) (ag_done a) true (ag_abandoned a) (ag_controlErr a) (ag_outputErr a) (ag_child a) (ag_waits a) (ag_threads a).
Definition abandon (a : Agent) : Agent :=
  mkAgent (ag_lifecycle a) (ag_terminal a) (ag_done a) (ag_killed a) true (ag_controlErr a) (ag_outputErr a) (ag_child a) (ag_waits a) (ag_threads a).
Definition addControlError (err : Errors) (a : Agent) : Agent :=
  mkAgent (ag_lifecycle a) (ag_terminal a) (ag_done a) (ag_killed a) (ag_abandoned a) (ag_controlErr a ++ err) (ag_outputErr a) (ag_child a) (ag_waits a) (ag_threads a).
Definition addOutputError (err : Errors) (a : Agent) : Agent :=
  mkAgent (ag_lifecycle a) (ag_terminal a) (ag_done a) (ag_killed a) (ag_abandoned a) (ag_controlErr a) (ag_outputErr a ++ err) (ag_child a) (ag_waits a) (ag_threads a).
Definition goto (i : nat) (p : pc) (a : Agent) : Agent :=
  mkAgent (ag_lifecycle a) (ag_terminal a) (ag_done a) (ag_killed a) (ag_abandoned a) (ag_controlErr a) (ag_outputErr a) (ag_child a) (ag_waits a)
    (<[i := p]> (ag_threads a)).
Definition spawn (p : pc) (a : Agent) : Agent :=
  mkAgent (ag_lifecycle a) (ag_terminal a) (ag_done a) (ag_killed a) (ag_abandoned a) (ag_controlErr a) (ag_outputErr a) (ag_child a) (ag_waits a)
    (ag_threads a ++ [p]).

(** Where a goroutine goes when [terminateProcess] returns; the reader first
    joins the returned control error to its own. *)
Definition after (k : Cont) : pc := match k with KEnd => Ended | KReader => ReaderEnd | KWait => Abandon end.
Definition terminated (k : Cont) (i : nat) (a : Agent) : Agent :=
  goto i (after k) (match k with KReader => addOutputError (ag_controlErr a) a | _ => a end).

Definition wrap (e : AgentError) (err : Errors) : Errors := match err with [] => [] | _ => e :: err end.

(** What [terminateProcess] does with its claim. *)
Definition settle_claim (c : terminationClaim) (k : Cont) (i : nat) (a : Agent) : Agent :=
  let a := addControlError (wrap ErrProcessExitObservation (tc_observationErr c)) a in
  let a := addControlError (tc_cleanupErr c) a in
  if tc_natural c then goto i (ReapNatural k) a
  else if negb (bool_decide (tc_terminationErr c = []))
  then goto i (Publishing k) (releaseOutput (addControlError (tc_terminationErr c) a))
  else if negb (tc_claimed c) then goto i (AwaitTerminal k) a
  else goto i (InWait k) (begin_wait (releaseOutput a)).

(** A claim agrees with the kernel: the child is dead when it is said to have
    exited by itself, and past saving when it was signalled. *)
Definition claim_honest (c : terminationClaim) (child : Child) : Prop :=
  (tc_natural c = true → child = Exited) ∧ (tc_claimed c = true → child = Doomed ∨ child = Exited).

(** The child a claim leaves, from the one it found. *)
Definition child_after (a : Agent) (child : Child) : Prop :=
  child_later (ag_child a) child ∨ ag_child a = Alive ∧ child = Doomed.

(** A call or a goroutine is over. *)
Definition joined (p : pc) : bool := match p with Ended => true | _ => false end.

Section Steps.
Context `{WaitStatus}.

Inductive agent_step : Agent → Agent → Prop :=
(** The child dies. *)
| StepExit a : child_later (ag_child a) Exited → ag_child a ≠ Exited → agent_step a (set_child Exited a)
(** Someone calls [Kill], [TerminateAndWait] or [Wait]. *)
| StepKill a : agent_step a (spawn (Terminate KEnd) a)
| StepTerminateAndWait a : agent_step a (spawn (Terminate KWait) a)
| StepWait a : agent_step a (spawn Abandon a)
(** The observer probes under the lifecycle's lock. *)
| StepProbe a i probe exited err :
    ag_threads a !! i = Some ObserverProbe →
    (running (ag_lifecycle a) = true → says_exited probe = true → ag_child a = Exited) →
    observe probe (ag_lifecycle a) = (exited, err) →
    agent_step a
      (goto i (if bool_decide (err = []) then (if exited then ReapNatural KEnd else ObserverSelect)
               else if bool_decide (ErrObservationStopped ∈ err) then Ended else ObserverFailed err) a)
| StepTick a i : ag_threads a !! i = Some ObserverSelect → agent_step a (goto i ObserverProbe a)
| StepStop a i : ag_threads a !! i = Some ObserverSelect → ag_terminal a = true → agent_step a (goto i Ended a)
| StepObserverFailed a i err :
    ag_threads a !! i = Some (ObserverFailed err) →
    agent_step a (goto i (Terminate KEnd) (addControlError (wrap ErrProcessExitObservation err) a))
(** The context watcher. *)
| StepCancelled a i : ag_threads a !! i = Some AwaitCancel → agent_step a (goto i (Terminate KEnd) a)
| StepNotCancelled a i : ag_threads a !! i = Some AwaitCancel → ag_terminal a = true → agent_step a (goto i Ended a)
(** The reader ends at end of file or when stopped, or fails. *)
| StepReaderEOF a i : ag_threads a !! i = Some Reading → agent_step a (goto i ReaderEnd a)
| StepReaderFailed a i :
    ag_threads a !! i = Some Reading → ag_killed a = false →
    agent_step a (goto i (Terminate KReader) (addOutputError [ErrOutput] a))
| StepReaderDone a i :
    ag_threads a !! i = Some ReaderEnd → ag_terminal a = true → agent_step a (goto i Ended (close_done a))
(** [terminateProcess]. *)
| StepTerminate a i k obs term child c l :
    ag_threads a !! i = Some (Terminate k) →
    claimTermination obs term (ag_lifecycle a) = (c, l) →
    child_after a child → claim_honest c child → (running (ag_lifecycle a) = false → child = ag_child a) →
    agent_step a (goto i (Claimed c k) (set_lifecycle l (set_child child a)))
| StepClaimed a i c k : ag_threads a !! i = Some (Claimed c k) → agent_step a (settle_claim c k i a)
| StepAwaitTerminal a i k :
    ag_threads a !! i = Some (AwaitTerminal k) → ag_terminal a = true → agent_step a (terminated k i a)
| StepReapNatural a i k cleanup claimed cleanupErr l :
    ag_threads a !! i = Some (ReapNatural k) →
    claimNatural cleanup (ag_lifecycle a) = ((claimed, cleanupErr), l) →
    agent_step a
      (if claimed
       then goto i (InWait k) (begin_wait (addControlError (wrap ErrProcessTreeCleanup cleanupErr) (set_lifecycle l a)))
       else goto i (AwaitTerminal k) a)
(** [cmd.Wait] returns when the child is dead, and takes it. *)
| StepWaited a i k err :
    ag_threads a !! i = Some (InWait k) → ag_child a = Exited →
    agent_step a (goto i (Finishing err k) (set_child Reaped a))
| StepFinish a i k err :
    ag_threads a !! i = Some (Finishing err k) →
    agent_step a (goto i (Publishing k) (set_lifecycle (finish err (ag_lifecycle a)) a))
| StepPublish a i k : ag_threads a !! i = Some (Publishing k) → agent_step a (terminated k i (publishTerminal a))
(** [Wait]. *)
| StepAbandon a i : ag_threads a !! i = Some Abandon → agent_step a (goto i AwaitDone (abandon a))
| StepAwaitDone a i : ag_threads a !! i = Some AwaitDone → ag_done a = true → agent_step a (goto i Joining a)
| StepJoined a i :
    ag_threads a !! i = Some Joining → forallb joined (take 3 (ag_threads a)) = true →
    agent_step a (goto i (Returned (ag_controlErr a ++ ag_outputErr a)) a).

Definition reachable (a : Agent) : Prop := rtc agent_step Start a.
End Steps.

(** * The life of a provider process, proved

    An invariant of every interleaving of the agent's goroutines, its callers and
    the child's death; what it says of reaping and of a clean return; and that no
    waiter is abandoned. *)

(** ** Claims *)

Lemma running_phase l : running l = true ↔ lc_phase l = lifecycleRunning.
Proof. apply bool_decide_eq_true. Qed.
Lemma not_running_phase l : running l = false ↔ lc_phase l ≠ lifecycleRunning.
Proof. apply bool_decide_eq_false. Qed.

(** What a termination claim may come to, with the lifecycle it leaves. *)
Inductive claim_result (l : processLifecycle) : terminationClaim * processLifecycle → Prop :=
| cr_taken : running l = false → claim_result l (no_claim, l)
| cr_natural o e : running l = true → claim_result l (mkClaim false true o e [], l)
| cr_forced o e : running l = true →
    claim_result l (mkClaim true false o e [], mkLifecycle lifecycleReaping true (lc_exitErr l))
| cr_failed o e t : running l = true → t ≠ [] →
    claim_result l (mkClaim false false o e t, set_phase lifecycleFailed l).

Lemma claim_attempts_result attempts o e t l : running l = true → (attempts = [] → t ≠ []) →
  claim_result l (claim_attempts attempts o e t l).
Proof.
  intros Hl. revert o e t. induction attempts as [|[outcome probe] attempts IH]; intros o e t Ht; cbn [claim_attempts].
  - constructor; auto.
  - destruct (to_alreadyExited outcome); [by constructor|]. case_bool_decide as Hn; [by constructor|].
    destruct (says_exited probe); [by constructor|]. by apply IH.
Qed.

Lemma claimTermination_result obs term l : claim_result l (claimTermination obs term l).
Proof.
  unfold claimTermination. destruct (running l) eqn:Hl; [|by constructor]. cbn [negb].
  destruct (says_exited (obs 0)); [by constructor|]. by apply claim_attempts_result.
Qed.

(** ** The invariant *)

Definition dead (c : Child) : Prop := c = Exited ∨ c = Reaped.
Definition leaving (c : Child) : Prop := c = Doomed ∨ c = Exited.

(** The goroutine that will publish the terminal result. *)
Definition owner (p : pc) : bool :=
  match p with
  | Claimed c _ => tc_claimed c || negb (bool_decide (tc_terminationErr c = []))
  | InWait _ | Finishing _ _ | Publishing _ => true
  | _ => false
  end.

Definition reclaimed (a : Agent) : Prop :=
  lc_phase (ag_lifecycle a) = lifecycleFinished ∧ ag_waits a = 1 ∧ ag_child a = Reaped.
Definition gave_up (a : Agent) : Prop := lc_phase (ag_lifecycle a) = lifecycleFailed ∧ ag_controlErr a ≠ [].

Definition claimed_ok (a : Agent) (c : terminationClaim) : Prop :=
  match tc_natural c, tc_claimed c, tc_terminationErr c with
  | true, false, [] => dead (ag_child a)
  | false, true, [] => lc_phase (ag_lifecycle a) = lifecycleReaping ∧ ag_waits a = 0 ∧ leaving (ag_child a)
  | false, false, [] => lc_phase (ag_lifecycle a) ≠ lifecycleRunning
  | false, false, _ => lc_phase (ag_lifecycle a) = lifecycleFailed ∧ ag_terminal a = false
  | _, _, _ => False
  end.

Definition pc_ok (a : Agent) (p : pc) : Prop :=
  match p with
  | Claimed c _ => claimed_ok a c
  | ReapNatural _ => dead (ag_child a)
  | AwaitTerminal _ => lc_phase (ag_lifecycle a) ≠ lifecycleRunning
  | InWait _ => lc_phase (ag_lifecycle a) = lifecycleReaping ∧ ag_waits a = 1 ∧ leaving (ag_child a)
  | Finishing _ _ => lc_phase (ag_lifecycle a) = lifecycleReaping ∧ ag_waits a = 1 ∧ ag_child a = Reaped
  | Publishing _ => ag_terminal a = false ∧ (reclaimed a ∨ gave_up a)
  | Joining => ag_done a = true
  | Returned err => err = [] → reclaimed a
  | _ => True
  end.

Record agent_inv (a : Agent) : Prop := {
  ai_pc i p : ag_threads a !! i = Some p → pc_ok a p;
  ai_owner i j p q : ag_threads a !! i = Some p → ag_threads a !! j = Some q → owner p = true → owner q = true → i = j;
  ai_running : lc_phase (ag_lifecycle a) = lifecycleRunning →
    ag_terminal a = false ∧ ag_waits a = 0 ∧ ag_child a ≠ Reaped ∧ ∀ i p, ag_threads a !! i = Some p → owner p = false;
  ai_failed : lc_phase (ag_lifecycle a) = lifecycleFailed → ag_waits a = 0 ∧ ag_child a ≠ Reaped;
  ai_waits : ag_waits a ≤ 1 ∧ (ag_child a = Reaped → ag_waits a = 1);
  ai_terminal : ag_terminal a = true → reclaimed a ∨ gave_up a;
  ai_pending : lc_phase (ag_lifecycle a) ≠ lifecycleRunning → ag_terminal a = false →
    ∃ i p, ag_threads a !! i = Some p ∧ owner p = true;
  ai_done : ag_done a = true → ag_terminal a = true;
  ai_joined i err : ag_threads a !! i = Some (Returned err) → forallb joined (take 3 (ag_threads a)) = true }.

(** What no step takes back. *)
Record later (a a' : Agent) : Prop := {
  lt_dead : dead (ag_child a) → dead (ag_child a');
  lt_phase : lc_phase (ag_lifecycle a) ≠ lifecycleRunning → lc_phase (ag_lifecycle a') ≠ lifecycleRunning;
  lt_done : ag_done a = true → ag_done a' = true;
  lt_reclaimed : reclaimed a → reclaimed a' }.

Lemma pc_ok_later a a' p : later a a' → owner p = false → pc_ok a p → pc_ok a' p.
Proof.
  intros [Hd Hp Hdn Hr] Ho. destruct p; simpl in *; try done; try (by auto).
  unfold claimed_ok in *. destruct c as [[] [] o e [|t ts]]; simpl in *; try done; auto.
Qed.

(** The fields owners look at. *)
Definition same_control (a a' : Agent) : Prop :=
  ag_lifecycle a' = ag_lifecycle a ∧ ag_terminal a' = ag_terminal a ∧ ag_waits a' = ag_waits a ∧
  (ag_child a' = ag_child a ∨ leaving (ag_child a) ∧ ag_child a' = Exited ∨ ag_child a = Alive ∧ leaving (ag_child a')) ∧
  (ag_controlErr a ≠ [] → ag_controlErr a' ≠ []) ∧ (ag_done a = true → ag_done a' = true).

Lemma child_reaped a a' : ag_child a' = ag_child a ∨ leaving (ag_child a) ∧ ag_child a' = Exited ∨ ag_child a = Alive ∧ leaving (ag_child a') →
  (ag_child a = Reaped ↔ ag_child a' = Reaped) ∧ (leaving (ag_child a) → leaving (ag_child a')).
Proof. unfold leaving. destruct (ag_child a), (ag_child a'); intuition congruence. Qed.

Lemma same_control_later a a' : same_control a a' → later a a'.
Proof.
  intros (Hl & Ht & Hw & Hc & _ & Hdn). split; unfold reclaimed, dead, leaving in *; rewrite ?Hl, ?Hw; try done.
  - destruct Hc as [->|[[? ->]|[-> ?]]]; naive_solver.
  - intros (? & ? & Hr). split_and!; [done..|]. by apply (child_reaped a).
Qed.

Lemma pc_ok_same a a' p : same_control a a' → pc_ok a p → pc_ok a' p.
Proof.
  intros Hs Hp. destruct (owner p) eqn:Ho; [|by apply (pc_ok_later a); [apply same_control_later|..]].
  pose proof (same_control_later _ _ Hs) as [Hd Hph Hdn Hr]. destruct Hs as (Hl & Ht & Hw & Hc & Hce & _).
  destruct (child_reaped a a' Hc) as [Hrp Hlv].
  destruct p; try done; cbn [pc_ok] in *.
  - unfold claimed_ok in *. rewrite Hl, Ht, Hw.
    destruct (tc_natural c), (tc_claimed c), (tc_terminationErr c); try done; [by auto|].
    destruct Hp as (? & ? & ?). by auto.
  - rewrite Hl, Hw. destruct Hp as (? & ? & ?). by auto.
  - rewrite Hl, Hw. destruct Hp as (? & ? & ?%Hrp). by auto.
  - rewrite Ht. destruct Hp as (? & [?|[? ?]]); split; [done|by left; apply Hr|done|right]. split; [by rewrite Hl|by auto].
Qed.

(** *** One goroutine moves *)

Lemma goto_lookup a i p j q : ag_threads (goto i p a) !! j = Some q →
  (j = i ∧ q = p) ∨ (j ≠ i ∧ ag_threads a !! j = Some q).
Proof. intros [(-> & -> & _)|[? ?]]%list_lookup_insert_Some; [left|right]; done. Qed.

Lemma goto_joined a i p q : ag_threads a !! i = Some q → joined q = false →
  forallb joined (take 3 (ag_threads a)) = true → forallb joined (take 3 (ag_threads (goto i p a))) = true.
Proof.
  intros Hi Hq Hj. destruct (decide (i < 3)) as [Hlt|Hge].
  - rewrite forallb_forall in Hj. rewrite (Hj q) in Hq; [done|].
    apply list_elem_of_In. apply (list_elem_of_lookup_2 _ i). by rewrite lookup_take_lt.
  - cbn [ag_threads goto]. by rewrite take_insert_ge by lia.
Qed.

(** A goroutine that owns nothing, before and after, moves, and the control
    fields stay. *)
Lemma inv_goto_quiet a a' i p p' : agent_inv a → same_control a a' → ag_threads a' = ag_threads a →
  (ag_done a' = true → ag_terminal a = true) →
  ag_threads a !! i = Some p → joined p = false → owner p = owner p' → pc_ok (goto i p' a') p' →
  (∀ err, p' = Returned err → forallb joined (take 3 (ag_threads a)) = true) →
  agent_inv (goto i p' a').
Proof.
  intros Hinv Hs Hth Hdone Hi Hj Ho Hp' Hret. destruct Hinv as [Hpc How Hrun Hfail Hw Hterm Hpend Hdn Hjoin].
  assert (Hi' : ag_threads a' !! i = Some p) by (by rewrite Hth).
  assert (Hlk : ∀ j q, ag_threads (goto i p' a') !! j = Some q →
             ∃ q0, ag_threads a !! j = Some q0 ∧ owner q0 = owner q ∧ ((j = i ∧ q = p') ∨ q = q0)).
  { intros j q [[-> ->]|[Hne Hq]]%goto_lookup; [exists p; by auto|]. rewrite Hth in Hq. exists q. by auto. }
  assert (Hs' : same_control a (goto i p' a')) by exact Hs.
  pose proof (same_control_later _ _ Hs') as [Hl1 Hl2 Hl3 Hl4]. destruct Hs as (Hl & Ht & Hwt & Hc & Hce & _).
  cbn [goto ag_lifecycle ag_terminal ag_waits ag_child ag_controlErr] in *.
  assert (Hre : ag_child a' = Reaped → ag_child a = Reaped) by apply (child_reaped a a' Hc).
  split; cbn [goto ag_lifecycle ag_terminal ag_waits ag_child ag_controlErr ag_done]; rewrite ?Hl, ?Ht, ?Hwt.
  - intros j q Hq. pose proof (Hlk _ _ Hq) as (q0 & Hq0 & _ & [[-> ->]| ->]); [done|].
    exact (pc_ok_same _ _ _ Hs' (Hpc _ _ Hq0)).
  - intros j k q r Hq Hr Hoq Hor. pose proof (Hlk _ _ Hq) as (q0 & Hq0 & Hoq0 & _). pose proof (Hlk _ _ Hr) as (r0 & Hr0 & Hor0 & _).
    rewrite <- Hoq0 in Hoq. rewrite <- Hor0 in Hor. exact (How _ _ _ _ Hq0 Hr0 Hoq Hor).
  - intros Hph. destruct (Hrun Hph) as (? & ? & ? & Hno). split_and!; [done|done|by auto|].
    intros j q Hq. pose proof (Hlk _ _ Hq) as (q0 & Hq0 & <- & _). by eapply Hno.
  - intros Hph. destruct (Hfail Hph). split; [done|by auto].
  - destruct Hw as [? Hw]. split; [done|by auto].
  - intros Hte. destruct (Hterm Hte) as [Hr|[Hf1 Hf2]]; [left; by apply Hl4|right]. split; cbn; [by rewrite Hl|by auto].
  - intros Hph Hte. destruct (Hpend Hph Hte) as (j & q & Hq & Hoq). destruct (decide (j = i)) as [->|Hne].
    + exists i, p'. split; [by apply list_lookup_insert_eq, (lookup_lt_Some _ _ p)|]. rewrite <- Ho. by rewrite Hi in Hq; simplify_eq.
    + exists j, q. split; [|done]. cbn. rewrite list_lookup_insert_ne by done. by rewrite Hth.
  - intros Hd. by apply Hdone.
  - intros j err Hq. rewrite <- Hth in *. apply goto_lookup in Hq as [[-> Hq]|[Hne Hq]].
    + by apply (goto_joined _ _ _ p Hi' Hj), (Hret err).
    + by apply (goto_joined _ _ _ p Hi' Hj), (Hjoin j err).
Qed.

(** The one goroutine that may change who owns the end of the process. *)
Lemma inv_goto_owner a a' i p p' : agent_inv a → later a a' → ag_threads a' = ag_threads a →
  ag_threads a !! i = Some p → joined p = false →
  (∀ j q, j ≠ i → ag_threads a !! j = Some q → owner q = false) →
  pc_ok (goto i p' a') p' → (∀ err, p' ≠ Returned err) →
  lc_phase (ag_lifecycle a') ≠ lifecycleRunning →
  (lc_phase (ag_lifecycle a') = lifecycleFailed → ag_waits a' = 0 ∧ ag_child a' ≠ Reaped) →
  (ag_waits a' ≤ 1 ∧ (ag_child a' = Reaped → ag_waits a' = 1)) →
  (ag_terminal a' = true → reclaimed a' ∨ gave_up a') →
  owner p' = true ∨ ag_terminal a' = true →
  (ag_done a' = true → ag_terminal a' = true) →
  agent_inv (goto i p' a').
Proof.
  intros Hinv Hlater Hth Hi Hj Hothers Hp' Hret Hrun Hfail Hw Hterm Hown Hdone.
  assert (Hi' : ag_threads a' !! i = Some p) by (by rewrite Hth).
  assert (Hlk : ∀ j q, ag_threads (goto i p' a') !! j = Some q →
             (j = i ∧ q = p') ∨ (j ≠ i ∧ ag_threads a !! j = Some q ∧ owner q = false)).
  { intros j q [?|[Hne Hq]]%goto_lookup; [by left|]. rewrite Hth in Hq. right. eauto. }
  assert (Hlater' : later a (goto i p' a')) by (destruct Hlater; by split).
  destruct Hinv as [Hpc _ _ _ _ _ _ _ Hjoin].
  split; cbn [goto ag_lifecycle ag_terminal ag_waits ag_child ag_controlErr ag_done].
  - intros j q Hq. apply Hlk in Hq as [[-> ->]|(Hne & Hq & Hoq)]; [done|]. exact (pc_ok_later _ _ _ Hlater' Hoq (Hpc _ _ Hq)).
  - intros j k q r Hq Hr Hoq Hor. apply Hlk in Hq as [[-> ->]|(? & _ & ?)]; [|congruence].
    apply Hlk in Hr as [[-> ->]|(? & _ & ?)]; [done|congruence].
  - done.
  - done.
  - done.
  - done.
  - intros _ Ht. exists i, p'. split; [by apply list_lookup_insert_eq, (lookup_lt_Some _ _ p)|]. destruct Hown; [done|congruence].
  - done.
  - intros j err Hq. apply Hlk in Hq as [[-> Hq]|(Hne & Hq & _)]; [by destruct (Hret err)|].
    apply (goto_joined _ _ _ p Hi' Hj). rewrite Hth. by apply (Hjoin j err).
Qed.

(** Nobody moves, or someone new arrives who owns nothing. *)
Lemma inv_arrive a a' new : agent_inv a → same_control a a' → ag_threads a' = ag_threads a ++ new →
  (ag_done a' = true → ag_done a = true) →
  (∀ p, p ∈ new → owner p = false ∧ (∀ a0, pc_ok a0 p) ∧ ∀ err, p ≠ Returned err) →
  3 ≤ length (ag_threads a) → agent_inv a'.
Proof.
  intros [Hpc How Hrun Hfail Hw Hterm Hpend Hdn Hjoin] Hs Hth Hdone Hnew Hlen.
  assert (Hlk : ∀ j q, ag_threads a' !! j = Some q → ag_threads a !! j = Some q ∨
             (owner q = false ∧ (∀ a0, pc_ok a0 q) ∧ ∀ err, q ≠ Returned err)).
  { intros j q. rewrite Hth, lookup_app_Some. intros [?|[_ Hq]]; [by left|right]. by apply Hnew, (list_elem_of_lookup_2 _ _ _ Hq). }
  pose proof (same_control_later _ _ Hs) as [Hl1 Hl2 Hl3 Hl4]. pose proof Hs as (Hl & Ht & Hwt & Hc & Hce & _).
  destruct (child_reaped a a' Hc) as [Hre _].
  split; rewrite ?Hl, ?Ht, ?Hwt.
  - intros j q Hq. destruct (Hlk _ _ Hq) as [Hq0|(_ & Hok & _)]; [exact (pc_ok_same _ _ _ Hs (Hpc _ _ Hq0))|apply Hok].
  - intros j k q r Hq Hr Hoq Hor. destruct (Hlk _ _ Hq) as [Hq0|(? & _)]; [|congruence].
    destruct (Hlk _ _ Hr) as [Hr0|(? & _)]; [exact (How _ _ _ _ Hq0 Hr0 Hoq Hor)|congruence].
  - intros Hph. destruct (Hrun Hph) as (? & ? & ? & Hno). split_and!; [done|done|by intros ?%Hre|].
    intros j q Hq. destruct (Hlk _ _ Hq) as [Hq0|(? & _)]; [by eapply Hno|done].
  - intros Hph. destruct (Hfail Hph). split; [done|by intros ?%Hre].
  - destruct Hw as [? Hw]. split; [done|]. intros ?%Hre. by apply Hw.
  - intros Hte. destruct (Hterm Hte) as [Hr|[Hf1 Hf2]]; [left; by apply Hl4|right]. split; [by rewrite Hl|by auto].
  - intros Hph Hte. destruct (Hpend Hph Hte) as (j & q & Hq & Hoq). exists j, q. split; [|done].
    rewrite Hth. by apply lookup_app_l_Some.
  - intros Hd. apply Hdn, Hdone, Hd.
  - intros j err Hq. destruct (Hlk _ _ Hq) as [Hq0|(_ & _ & Hne)]; [|by destruct (Hne err)].
    rewrite Hth, take_app_le by lia. by apply (Hjoin j err).
Qed.

(** Steps that touch none of the control fields. *)
Ltac same_fields := split_and!; try done; by left.

Lemma agent_inv_start : agent_inv Start.
Proof.
  assert (Hth : ∀ i p, ag_threads Start !! i = Some p → p = ObserverProbe ∨ p = AwaitCancel ∨ p = Reading).
  { intros [|[|[|i]]] p [=]; subst; auto. }
  split; cbn [Start ag_lifecycle ag_terminal ag_waits ag_child ag_done new_lifecycle lc_phase]; try done.
  - intros i p Hp. by destruct (Hth _ _ Hp) as [-> |[-> | ->]].
  - intros i j p q Hp _ Ho. by destruct (Hth _ _ Hp) as [-> |[-> | ->]].
  - intros _. split_and!; try done. intros i p Hp. by destruct (Hth _ _ Hp) as [-> |[-> | ->]].
  - split; [lia|done].
  - intros i err Hp. by destruct (Hth _ _ Hp) as [? |[? | ?]].
Qed.

Section Steps.
Context `{WaitStatus}.

Lemma others_quiet a i p : agent_inv a → ag_threads a !! i = Some p →
  lc_phase (ag_lifecycle a) = lifecycleRunning ∨ owner p = true →
  ∀ j q, j ≠ i → ag_threads a !! j = Some q → owner q = false.
Proof.
  intros [_ How Hrun _ _ _ _ _ _] Hi [Hph|Ho] j q Hne Hq.
  - destruct (Hrun Hph) as (_ & _ & _ & Hno). by eapply Hno.
  - destruct (owner q) eqn:Hoq; [|done]. destruct Hne. by eapply How.
Qed.

Lemma finish_phase err l : lc_phase l = lifecycleReaping → lc_phase (finish err l) = lifecycleFinished.
Proof. intros Hl. unfold finish. by rewrite bool_decide_eq_true_2. Qed.

Lemma later_running a a' : lc_phase (ag_lifecycle a) = lifecycleRunning → ag_done a' = ag_done a →
  (dead (ag_child a) → dead (ag_child a')) → later a a'.
Proof. intros Hph Hd Hc. split; [done|done|by rewrite Hd|]. intros [Hr _]. congruence. Qed.

Lemma child_after_facts a child : child_after a child →
  (dead (ag_child a) → dead child) ∧ (ag_child a ≠ Reaped → child ≠ Reaped).
Proof. unfold child_after, child_later, dead. destruct (ag_child a), child; intuition congruence. Qed.

(** [claimTermination] with what it does to the child. *)
Lemma inv_terminate a i k c l child : agent_inv a → ag_threads a !! i = Some (Terminate k) →
  claim_result (ag_lifecycle a) (c, l) → child_after a child → claim_honest c child →
  (running (ag_lifecycle a) = false → child = ag_child a) →
  agent_inv (goto i (Claimed c k) (set_lifecycle l (set_child child a))).
Proof.
  intros Hinv Hi Hcl Hchild [Hn Hc] Hsame.
  assert (Hdn : ag_done a = true → ag_terminal a = true) by apply Hinv.
  inversion Hcl as [Hl|o e Hl|o e Hl|o e t Hl Ht]; subst.
  - assert (Hl' := Hl). apply not_running_phase in Hl'. rewrite (Hsame Hl).
    apply (inv_goto_quiet a _ i (Terminate k)); try done. same_fields.
  - specialize (Hn eq_refl) as ->. apply running_phase in Hl. destruct (ai_running a Hinv Hl) as (? & ? & Hch & _).
    apply (inv_goto_quiet a _ i (Terminate k)); try done; [|by left].
    split_and!; try done. cbn. unfold child_after, child_later, leaving in *. destruct (ag_child a); intuition congruence.
  - specialize (Hc eq_refl). apply running_phase in Hl. destruct (ai_running a Hinv Hl) as (Hte & Hw & Hch & _).
    assert (Hchild' : child ≠ Reaped) by (by destruct Hc as [-> | ->]).
    apply (inv_goto_owner a _ i (Terminate k)); try done; cbn.
    + by apply later_running; [..|apply child_after_facts].
    + apply (others_quiet a i _ Hinv Hi). by left.
    + split; [lia|done].
    + congruence.
    + by left.
  - apply running_phase in Hl. destruct (ai_running a Hinv Hl) as (Hte & Hw & Hch & _).
    assert (Hchild' : child ≠ Reaped) by (by apply (child_after_facts a)).
    apply (inv_goto_owner a _ i (Terminate k)); try done; cbn.
    + by apply later_running; [..|apply child_after_facts].
    + apply (others_quiet a i _ Hinv Hi). by left.
    + unfold claimed_ok. cbn. by destruct t.
    + split; [lia|done].
    + congruence.
    + left. by rewrite bool_decide_eq_false_2.
Qed.

(** Joining errors to the agent's changes nothing else. *)
Lemma same_add_control e a : same_control a (addControlError e a).
Proof.
  split_and!; try done; [by left|]. cbn. by intros Hne [? _]%app_eq_nil.
Qed.

Lemma inv_control_errors e a : agent_inv a → 3 ≤ length (ag_threads a) → agent_inv (addControlError e a).
Proof.
  intros Hinv Hlen. apply (inv_arrive a _ []); try done; [apply same_add_control|by rewrite app_nil_r|].
  by intros p ?%elem_of_nil.
Qed.

Lemma inv_claimed a i c k : agent_inv a → 3 ≤ length (ag_threads a) → ag_threads a !! i = Some (Claimed c k) →
  agent_inv (settle_claim c k i a).
Proof.
  intros Hinv0 Hlen Hi0. unfold settle_claim.
  set (b := addControlError _ (addControlError _ a)).
  assert (Hinv : agent_inv b) by (unfold b; repeat apply inv_control_errors; done).
  assert (Hi : ag_threads b !! i = Some (Claimed c k)) by done. clearbody b. clear Hinv0 Hi0 Hlen.
  assert (Hdn : ag_done b = true → ag_terminal b = true) by apply Hinv.
  pose proof (ai_pc b Hinv i _ Hi) as Hok. cbn [pc_ok] in Hok. unfold claimed_ok in Hok.
  destruct c as [cl nat o e t]. cbn [tc_claimed tc_natural tc_terminationErr] in *.
  destruct nat.
  - destruct cl; [done|]. destruct t; [|done].
    apply (inv_goto_quiet b _ i (Claimed (mkClaim false true o e []) k)); try done. same_fields.
  - destruct cl.
    + destruct t; [|done]. destruct Hok as (Hph & Hw & Hlv). cbn [negb].
      assert (Hch : ag_child b ≠ Reaped) by (by destruct Hlv as [-> | ->]).
      assert (Hte : ag_terminal b = false) by (destruct (ag_terminal b) eqn:Ht; [|done]; destruct (ai_terminal b Hinv Ht) as [[? _]|[? _]]; congruence).
      eapply (inv_goto_owner b); [done| |done|exact Hi|done|apply (others_quiet b i _ Hinv Hi); by right|..]; cbn; try done.
      * split; cbn; try done. intros [? _]. cbn in *. congruence.
      * by rewrite Hw.
      * congruence.
      * congruence.
      * rewrite Hw. split; [lia|done].
      * congruence.
      * by left.
    + destruct t as [|t ts]; cbn [bool_decide negb].
      * apply (inv_goto_quiet b _ i (Claimed (mkClaim false false o e []) k)); try done. same_fields.
      * destruct Hok as (Hph & Hte). destruct (ai_failed b Hinv Hph) as [Hw Hch].
        assert (Hgave : ag_controlErr b ++ t :: ts ≠ []) by (by intros [_ ?]%app_eq_nil).
        eapply (inv_goto_owner b); [done| |done|exact Hi|done|apply (others_quiet b i _ Hinv Hi); by right|..]; cbn; try done.
        -- split; [done|]. right. by split.
        -- congruence.
        -- split; [lia|done].
        -- congruence.
        -- by left.
Qed.

Lemma inv_reap_natural a i k cleanup claimed cleanupErr l : agent_inv a → ag_threads a !! i = Some (ReapNatural k) →
  claimNatural cleanup (ag_lifecycle a) = ((claimed, cleanupErr), l) →
  agent_inv (if claimed : bool
       then goto i (InWait k) (begin_wait (addControlError (wrap ErrProcessTreeCleanup cleanupErr) (set_lifecycle l a)))
       else goto i (AwaitTerminal k) a).
Proof.
  intros Hinv Hi Hc. assert (Hdn : ag_done a = true → ag_terminal a = true) by apply Hinv.
  pose proof (ai_pc a Hinv i _ Hi) as Hdead. cbn [pc_ok] in Hdead.
  unfold claimNatural in Hc. destruct (running (ag_lifecycle a)) eqn:Hr; cbn [negb] in Hc; simplify_eq.
  - apply running_phase in Hr. destruct (ai_running a Hinv Hr) as (Hte & Hw & Hch & _).
    assert (Hlv : leaving (ag_child a)) by (destruct Hdead; [by right|done]).
    apply (inv_goto_owner a _ i (ReapNatural k)); try done; cbn.
    + by apply later_running.
    + apply (others_quiet a i _ Hinv Hi). by left.
    + by rewrite Hw.
    + rewrite Hw. split; [lia|done].
    + congruence.
    + by left.
  - apply (inv_goto_quiet a _ i (ReapNatural k)); try done; [same_fields|]. by apply not_running_phase.
Qed.

Lemma inv_waited a i k err : agent_inv a → ag_threads a !! i = Some (InWait k) → ag_child a = Exited →
  agent_inv (goto i (Finishing err k) (set_child Reaped a)).
Proof.
  intros Hinv Hi Hch. assert (Hdn : ag_done a = true → ag_terminal a = true) by apply Hinv.
  destruct (ai_pc a Hinv i _ Hi) as (Hph & Hw & _).
  apply (inv_goto_owner a _ i (InWait k)); try done; cbn.
  - split; cbn; try done; [by right|]. intros [? _]. congruence.
  - apply (others_quiet a i _ Hinv Hi). by right.
  - congruence.
  - congruence.
  - split; [lia|done].
  - intros Ht. destruct (ai_terminal a Hinv Ht) as [[? _]|[? _]]; congruence.
  - by left.
Qed.

Lemma inv_finish a i k err : agent_inv a → ag_threads a !! i = Some (Finishing err k) →
  agent_inv (goto i (Publishing k) (set_lifecycle (finish err (ag_lifecycle a)) a)).
Proof.
  intros Hinv Hi. assert (Hdn : ag_done a = true → ag_terminal a = true) by apply Hinv.
  destruct (ai_pc a Hinv i _ Hi) as (Hph & Hw & Hch). pose proof (finish_phase err _ Hph) as Hfin.
  assert (Hte : ag_terminal a = false).
  { destruct (ag_terminal a) eqn:Ht; [|done]. destruct (ai_terminal a Hinv Ht) as [[? _]|[? _]]; congruence. }
  apply (inv_goto_owner a _ i (Finishing err k)); try done; cbn.
  - split; cbn; try done; try congruence.
  - apply (others_quiet a i _ Hinv Hi). by right.
  - split; [done|]. left. by split_and!.
  - congruence.
  - congruence.
  - split; [lia|done].
  - congruence.
  - by left.
Qed.

Lemma inv_publish a i k : agent_inv a → ag_threads a !! i = Some (Publishing k) →
  agent_inv (terminated k i (publishTerminal a)).
Proof.
  intros Hinv Hi. assert (Hdn : ag_done a = true → ag_terminal a = true) by apply Hinv.
  destruct (ai_pc a Hinv i _ Hi) as (Hte & Hend).
  assert (Hph : lc_phase (ag_lifecycle a) ≠ lifecycleRunning) by (destruct Hend as [[? _]|[? _]]; congruence).
  assert (Hq : ∀ j q, j ≠ i → ag_threads a !! j = Some q → owner q = false) by (apply (others_quiet a i _ Hinv Hi); by right).
  pose proof (ai_failed a Hinv) as Hfail. pose proof (ai_waits a Hinv) as Hw.
  unfold terminated. destruct k; (eapply (inv_goto_owner a); [done|by split|done|exact Hi|done|exact Hq|..]; cbn; try done; by right).
Qed.

Lemma threads_length a a' : agent_step a a' → length (ag_threads a) ≤ length (ag_threads a').
Proof.
  destruct 1; unfold settle_claim, terminated; repeat case_match; cbn; rewrite ?length_insert, ?length_app; lia.
Qed.

Lemma agent_inv_step a a' : agent_inv a → 3 ≤ length (ag_threads a) → agent_step a a' → agent_inv a'.
Proof.
  intros Hinv Hlen Hstep. assert (Hdn : ag_done a = true → ag_terminal a = true) by apply Hinv.
  pose proof (ai_pc a Hinv) as Hpc.
  inversion Hstep as [? Hlater Hne| | | |? i probe exited err Hi Hsnd Hobs|? i Hi|? i Hi Ht|? i err Hi|? i Hi|? i Hi Ht|? i Hi|? i Hi Hk|
    ? i Hi Ht|? i k obs term child c l Hi Hc Hch Hhon Hsame|? i c k Hi|? i k Hi Ht|? i k cleanup claimed cleanupErr l Hi Hc|? i k err Hi Hch|
    ? i k err Hi|? i k Hi|? i Hi|? i Hi Hd|? i Hi Hj]; subst; clear Hstep.
  - apply (inv_arrive a _ []); try done; [|by rewrite app_nil_r|by intros p ?%elem_of_nil].
    split_and!; try done. right. unfold child_later, leaving in *. cbn. destruct (ag_child a); intuition congruence.
  - apply (inv_arrive a _ [Terminate KEnd]); try done; [split_and!; try done; by left|]. by intros p ->%list_elem_of_singleton.
  - apply (inv_arrive a _ [Terminate KWait]); try done; [split_and!; try done; by left|]. by intros p ->%list_elem_of_singleton.
  - apply (inv_arrive a _ [Abandon]); try done; [split_and!; try done; by left|]. by intros p ->%list_elem_of_singleton.
  - apply (inv_goto_quiet a _ i ObserverProbe); try done; [same_fields|repeat case_match; done| |by intros; repeat case_match].
    case_bool_decide as He; [|by case_match]. destruct exited; [|done]. cbn. unfold observe in Hobs.
    destruct (running (ag_lifecycle a)); cbn [negb] in Hobs; simplify_eq. left. by apply Hsnd.
  - apply (inv_goto_quiet a _ i ObserverSelect); try done. same_fields.
  - apply (inv_goto_quiet a _ i ObserverSelect); try done. same_fields.
  - apply (inv_goto_quiet a _ i (ObserverFailed err)); try done. apply same_add_control.
  - apply (inv_goto_quiet a _ i AwaitCancel); try done. same_fields.
  - apply (inv_goto_quiet a _ i AwaitCancel); try done. same_fields.
  - apply (inv_goto_quiet a _ i Reading); try done. same_fields.
  - apply (inv_goto_quiet a _ i Reading); try done. same_fields.
  - apply (inv_goto_quiet a _ i ReaderEnd); try done. same_fields.
  - apply inv_terminate; try done. rewrite <- Hc. apply claimTermination_result.
  - by apply inv_claimed.
  - unfold terminated. destruct k; (eapply (inv_goto_quiet a); [done| |done|..]; [|done|exact Hi|..]; try done; same_fields).
  - by eapply inv_reap_natural.
  - by apply inv_waited.
  - by apply inv_finish.
  - by apply inv_publish.
  - apply (inv_goto_quiet a _ i Abandon); try done. same_fields.
  - apply (inv_goto_quiet a _ i AwaitDone); try done. same_fields.
  - apply (inv_goto_quiet a _ i Joining); try done; [same_fields|].
    intros [Hce _]%app_eq_nil. assert (Hdone : ag_done a = true) by exact (Hpc _ _ Hi).
    destruct (ai_terminal a Hinv (Hdn Hdone)) as [?|[_ ?]]; done.
Qed.

Lemma agent_reachable_inv a : reachable a → agent_inv a ∧ 3 ≤ length (ag_threads a).
Proof.
  intros Hr. unfold reachable in Hr. revert a Hr. apply rtc_ind_r.
  - split; [apply agent_inv_start|done].
  - intros b c _ Hstep [Hinv Hlen]. split; [by eapply agent_inv_step|]. pose proof (threads_length _ _ Hstep). lia.
Qed.

(** ** The end of the process is always told *)

Lemma threads_goto a i p q : ag_threads a !! i = Some p → ag_threads (goto i q a) !! i = Some q.
Proof. intros Hi. by apply list_lookup_insert_eq, (lookup_lt_Some _ _ p). Qed.

Definition can_publish (a : Agent) : Prop := ∃ a', rtc agent_step a a' ∧ ag_terminal a' = true.

Lemma publishing_publishes a i k : ag_threads a !! i = Some (Publishing k) → can_publish a.
Proof. intros Hi. eexists. split; [by apply rtc_once, StepPublish|]. unfold terminated. by destruct k. Qed.

Lemma finishing_publishes a i k err : ag_threads a !! i = Some (Finishing err k) → can_publish a.
Proof.
  intros Hi. destruct (publishing_publishes _ i k (threads_goto _ _ _ (Publishing k) Hi :
    ag_threads (goto i (Publishing k) (set_lifecycle (finish err (ag_lifecycle a)) a)) !! i = _)) as (a' & Hr & Ht).
  exists a'. split; [|done]. eapply rtc_l; [by apply StepFinish|done].
Qed.

Lemma waiting_publishes a i k : ag_threads a !! i = Some (InWait k) → leaving (ag_child a) → can_publish a.
Proof.
  intros Hi Hlv.
  assert (Hex : ∀ b, ag_threads b !! i = Some (InWait k) → ag_child b = Exited → can_publish b).
  { intros b Hb Hch. destruct (finishing_publishes _ i k [] (threads_goto _ _ _ (Finishing [] k) Hb :
      ag_threads (goto i (Finishing [] k) (set_child Reaped b)) !! i = _)) as (a' & Hr & Ht).
    exists a'. split; [|done]. eapply rtc_l; [by apply StepWaited|done]. }
  destruct Hlv as [Hd|He]; [|by apply Hex].
  destruct (Hex (set_child Exited a) Hi eq_refl) as (a' & Hr & Ht). exists a'. split; [|done].
  eapply rtc_l; [apply StepExit|done]; rewrite Hd; [|done]. right. by split; [right|].
Qed.

Lemma owner_publishes a i p : agent_inv a → 3 ≤ length (ag_threads a) →
  ag_threads a !! i = Some p → owner p = true → can_publish a.
Proof.
  intros Hinv Hlen Hi Ho. destruct p; try done.
  - pose proof (ai_pc a Hinv i _ Hi) as Hok. cbn [pc_ok] in Hok. unfold claimed_ok in Hok.
    destruct c as [cl nat o e t]. cbn [owner tc_claimed tc_natural tc_terminationErr] in *.
    assert (Hnext : can_publish (settle_claim (mkClaim cl nat o e t) k i a)).
    { unfold settle_claim. cbn [tc_claimed tc_natural tc_terminationErr]. destruct nat, cl, t as [|t ts]; try done.
      - apply (waiting_publishes _ i k); [by eapply (threads_goto _ i)|]. by destruct Hok as (_ & _ & ?).
      - apply (publishing_publishes _ i k). by eapply (threads_goto _ i). }
    destruct Hnext as (a' & Hr & Ht). exists a'. split; [|done]. eapply rtc_l; [by apply StepClaimed|done].
  - apply (waiting_publishes a i k Hi). by destruct (ai_pc a Hinv i _ Hi) as (_ & _ & ?).
  - by eapply finishing_publishes.
  - by eapply publishing_publishes.
Qed.

(** C11: In every interleaving of the exit observer, the context watcher, the
    output reader and any number of callers of [Kill], [TerminateAndWait] and
    [Wait], whatever the kernel answers: the child is waited for at most once,
    nobody probes, signals or reports it after that began, the terminal result is
    published only when it was reaped or when every attempt to kill it failed and
    that is on record, and a [Wait] or [TerminateAndWait] that returns nil returns
    after the child was reaped and the three goroutines ended. A goroutine that
    waits for the terminal result is never abandoned: while it is unpublished
    someone holds it and can still publish it. *)
Theorem agent_is_reaped_once a : reachable a →
  (ag_waits a ≤ 1 ∧ (ag_child a = Reaped → ag_waits a = 1)) ∧
  (ag_waits a = 1 ∨ ag_child a = Reaped → ∀ probe obs term cleanup process,
     observe probe (ag_lifecycle a) = (false, [ErrObservationStopped]) ∧
     claimTermination obs term (ag_lifecycle a) = (no_claim, ag_lifecycle a) ∧
     claimNatural cleanup (ag_lifecycle a) = ((false, []), ag_lifecycle a) ∧
     pid process (ag_lifecycle a) = 0%Z) ∧
  (ag_terminal a = true → reclaimed a ∨ gave_up a) ∧
  (∀ i, ag_threads a !! i = Some (Returned []) → reclaimed a ∧ forallb joined (take 3 (ag_threads a)) = true) ∧
  (∀ i k, ag_threads a !! i = Some (AwaitTerminal k) → ag_terminal a = false → can_publish a).
Proof.
  intros Hr. destruct (agent_reachable_inv a Hr) as [Hinv Hlen]. split_and!; try apply Hinv.
  - intros Hw probe obs term cleanup process.
    assert (Hph : running (ag_lifecycle a) = false).
    { apply not_running_phase. intros Hph. destruct (ai_running a Hinv Hph) as (_ & ? & ? & _). destruct Hw; [lia|done]. }
    unfold observe, claimTermination, claimNatural, pid. by rewrite Hph.
  - intros i Hi. split; [by apply (ai_pc a Hinv i _ Hi)|by eapply (ai_joined a Hinv)].
  - intros i k Hi Ht. destruct (ai_pending a Hinv) as (j & p & Hj & Ho); [exact (ai_pc a Hinv i _ Hi)|done|].
    by eapply owner_publishes.
Qed.
End Steps.

(** ** A run *)

Definition plain_wait : WaitStatus := {| processWaitWasForced _ forced := forced |}.
Section Demo2AgentLifecycle.
#[local] Existing Instance plain_wait.

(** [TerminateAndWait] kills a running child and returns nil. *)
Definition stopped_agent : Agent :=
  mkAgent (mkLifecycle lifecycleFinished true []) true true true true [] [] Reaped 1 [Ended; Ended; Ended; Returned []].

Definition killing (n : nat) : terminationOutcome := mkOutcome false [] [].
Definition still_running (n : nat) : Answer := (false, []).

Lemma stopped_agent_reachable : reachable stopped_agent.
Proof.
  unfold reachable, Start.
  eapply rtc_l; [apply StepTerminateAndWait|cbn].
  eapply rtc_l; [apply (StepTerminate _ 3 KWait still_running killing Doomed); [done|done|by right|by split; [|left]|done]|cbn].
  eapply rtc_l; [by apply (StepClaimed _ 3)|cbn].
  eapply rtc_l; [apply StepExit; [right; by split; [right|]|done]|cbn].
  eapply rtc_l; [by apply (StepWaited _ 3 KWait [])|cbn].
  eapply rtc_l; [by apply (StepFinish _ 3)|cbn].
  eapply rtc_l; [by apply (StepPublish _ 3)|cbn].
  eapply rtc_l; [by apply (StepProbe _ 0 (false, []) false [ErrObservationStopped])|cbn].
  eapply rtc_l; [by apply (StepNotCancelled _ 1)|cbn].
  eapply rtc_l; [by apply (StepReaderEOF _ 2)|cbn].
  eapply rtc_l; [by apply (StepReaderDone _ 2)|cbn].
  eapply rtc_l; [by apply (StepAbandon _ 3)|cbn].
  eapply rtc_l; [by apply (StepAwaitDone _ 3)|cbn].
  eapply rtc_l; [by apply (StepJoined _ 3)|cbn]. apply rtc_refl.
Qed.

Lemma agent_is_reaped_once_witness : reachable stopped_agent ∧ reclaimed stopped_agent.
Proof.
  split; [exact stopped_agent_reachable|].
  destruct (agent_is_reaped_once stopped_agent stopped_agent_reachable) as (_ & _ & _ & Hret & _).
  exact (proj1 (Hret 3 eq_refl)).
Defined.
End Demo2AgentLifecycle.
