(* ===== verification/Watchdog.v ===== *)
(** * The watchdog and the supervision of a turn: [internal/agent/watchdog.go],
    [internal/provider/watchdog.go]

    [Watch] turns an agent's output, activity and silence into signals over an
    unbuffered channel; [superviseAgentWithCallbacks] receives them, hands lines to
    the runner's callbacks and converges the agent before it returns. The two
    goroutines, the caller's cancellation, the clock and the agent's channels are one
    transition system whose [select]s choose freely among what is ready. *)
From S2P Require Import Prelude GoLib Provider GoJson.

(** ** Signals and configuration *)

Inductive SignalKind := Progress | Stall | Prompt | Exited.

Record Signal := mkSignal { sg_Kind : SignalKind; sg_Line : Bytes; sg_PromptKind : string; sg_Discarded : bool }.

(** A prompt pattern is what its regular expression matches. *)
Record WatchdogConfig := mkWatchdogConfig {
  wc_StallTimeout : Z;
  wc_PromptPatterns : list (Bytes → bool);
  wc_ClassifyPrompt : option (Bytes → string);
  wc_SkipPromptMatchOnJSONLines : bool }.

Definition promptKind (c : WatchdogConfig) (line : Bytes) : string :=
  match wc_ClassifyPrompt c with None => "" | Some classify => classify line end.

(** The loop over the patterns. *)
Definition is_prompt (c : WatchdogConfig) (line : Bytes) : bool :=
  negb (wc_SkipPromptMatchOnJSONLines c && json_valid line) && existsb (λ re, re line) (wc_PromptPatterns c).

Definition exited_signal : Signal := mkSignal Exited [] "" false.
Definition stall_signal : Signal := mkSignal Stall [] "" false.

(** [handleLine] of a line: the one signal it emits. *)
Definition line_signal (c : WatchdogConfig) (line : Bytes) : Signal :=
  if is_prompt c line then mkSignal Prompt [] (promptKind c line) false else mkSignal Progress line "" false.
(** [handleDiscarded] of a prefix. *)
Definition discarded_signal (prefix : Bytes) : Signal := mkSignal Progress prefix "" true.

Section Configs.
(** The caller's regular expressions and classifier. *)
Context (DefaultPromptPatterns : list (Bytes → bool)) (classifyPromptLine : Bytes → string).

Definition DefaultWatchdogConfig : WatchdogConfig :=
  mkWatchdogConfig DefaultStallTimeout DefaultPromptPatterns (Some classifyPromptLine) false.
Definition StreamJSONWatchdogConfig : WatchdogConfig :=
  mkWatchdogConfig DefaultStallTimeout DefaultPromptPatterns (Some classifyPromptLine) true.
Definition streamJSONWatchdogConfigWithStall (stall : Z) : WatchdogConfig :=
  mkWatchdogConfig stall DefaultPromptPatterns (Some classifyPromptLine) true.
End Configs.

(** ** Supervision's errors *)

(** [errors.Join] of these; nil is the empty list. *)
Inductive SuperviseError :=
| Blocked (reason : option BlockReason) (kind : string)
| ContextError
| ConvergenceError (n : nat).

#[export] Instance BlockReason_eq_dec : EqDecision BlockReason.
Proof. solve_decision. Defined.
#[export] Instance SuperviseError_eq_dec : EqDecision SuperviseError.
Proof. solve_decision. Defined.

Abbreviation Errors := (list SuperviseError).

Definition blockReason (s : Signal) : option BlockReason :=
  match sg_Kind s with Prompt => Some BlockReasonPrompt | Stall => Some BlockReasonStall | _ => None end.

Inductive Convergence := terminateAndWait | wait.

#[export] Instance Convergence_eq_dec : EqDecision Convergence.
Proof. solve_decision. Defined.

(** ** The two goroutines *)

(** [Watch]: at its outer select, inside [emit] with what comes after it, or
    returned with its channel closed. *)
Inductive watch_pc := Selecting | Emitting (s : Signal) (returns : bool) | Closed.

(** The supervisor: at its select, with a value received ([None]: the channel is
    closed), back from a callback, converging, or returned. *)
Inductive supervise_pc :=
| Receiving
| Received (s : option Signal)
| CalledBack (done : bool)
| Converging (how : Convergence) (primary : Errors)
| Returned (how : Convergence) (primary : Errors) (converged : list nat) (cancelled : bool) (err : Errors).

(** What a channel of the agent has for [Watch]. *)
Inductive Ready := ReadyContext | ReadyDiscarded (prefix : option Bytes) | ReadyLine (line : option Bytes).

(** The fields below the line are history: what [Watch] read, the activity it
    observed, whether the output ended, what the clock said when it declared a
    stall, the calls of the callbacks with their answers and the convergences. *)
Record Turn := mkTurn {
  tu_cancelled : bool;
  tu_clock : Z;
  tu_watch : watch_pc;
  tu_lastActivity : Z;
  tu_discardedOpen : bool;
  tu_supervisor : supervise_pc;
  (* history *)
  tu_read : list (Bytes * bool);
  tu_observed : list Z;
  tu_ended : bool;
  tu_stalled : option Z;
  tu_calls : list (Bytes * bool * bool);
  tu_converged : nat }.

Section Watch.
Context (cfg : WatchdogConfig) (onLine onDiscarded : bool).

(** [cfg.StallTimeout <= 0] is the default here. *)
Definition effective_stall (cfg : WatchdogConfig) : Z :=
  if (wc_StallTimeout cfg <=? 0)%Z then DefaultStallTimeout else wc_StallTimeout cfg.

Definition start_turn (now : Z) : Turn := mkTurn false now Selecting now true Receiving [] [] false None [] 0.

(** The context of [Watch] is a child of the caller's that the supervisor cancels
    when it returns. *)
Definition returned (t : Turn) : bool := match tu_supervisor t with Returned _ _ _ _ _ => true | _ => false end.
Definition watch_cancelled (t : Turn) : bool := tu_cancelled t || returned t.

Definition advance (ns : Z) (t : Turn) : Turn :=
  mkTurn (tu_cancelled t) (tu_clock t + ns)%Z (tu_watch t) (tu_lastActivity t) (tu_discardedOpen t) (tu_supervisor t) (tu_read t) (tu_observed t) (tu_ended t) (tu_stalled t) (tu_calls t) (tu_converged t).
Definition cancel (t : Turn) : Turn :=
  mkTurn true (tu_clock t) (tu_watch t) (tu_lastActivity t) (tu_discardedOpen t) (tu_supervisor t) (tu_read t) (tu_observed t) (tu_ended t) (tu_stalled t) (tu_calls t) (tu_converged t).
Definition set_watch (w : watch_pc) (t : Turn) : Turn :=
  mkTurn (tu_cancelled t) (tu_clock t) w (tu_lastActivity t) (tu_discardedOpen t) (tu_supervisor t) (tu_read t) (tu_observed t) (tu_ended t) (tu_stalled t) (tu_calls t) (tu_converged t).
Definition set_supervisor (s : supervise_pc) (t : Turn) : Turn :=
  mkTurn (tu_cancelled t) (tu_clock t) (tu_watch t) (tu_lastActivity t) (tu_discardedOpen t) s (tu_read t) (tu_observed t) (tu_ended t) (tu_stalled t) (tu_calls t) (tu_converged t).
(** [observeActivity]. *)
Definition observeActivity (at_ : Z) (t : Turn) : Turn :=
  mkTurn (tu_cancelled t) (tu_clock t) (tu_watch t) (if (tu_lastActivity t <? at_)%Z then at_ else tu_lastActivity t) (tu_discardedOpen t)
    (tu_supervisor t) (tu_read t) (at_ :: tu_observed t) (tu_ended t) (tu_stalled t) (tu_calls t) (tu_converged t).
Definition close_discarded (t : Turn) : Turn :=
  mkTurn (tu_cancelled t) (tu_clock t) (tu_watch t) (tu_lastActivity t) false (tu_supervisor t) (tu_read t) (tu_observed t) (tu_ended t) (tu_stalled t) (tu_calls t) (tu_converged t).
Definition note_read (r : Bytes * bool) (t : Turn) : Turn :=
  mkTurn (tu_cancelled t) (tu_clock t) (tu_watch t) (tu_lastActivity t) (tu_discardedOpen t) (tu_supervisor t) (tu_read t ++ [r]) (tu_observed t) (tu_ended t) (tu_stalled t) (tu_calls t) (tu_converged t).
Definition note_end (t : Turn) : Turn :=
  mkTurn (tu_cancelled t) (tu_clock t) (tu_watch t) (tu_lastActivity t) (tu_discardedOpen t) (tu_supervisor t) (tu_read t) (tu_observed t) true (tu_stalled t) (tu_calls t) (tu_converged t).
Definition note_stall (t : Turn) : Turn :=
  mkTurn (tu_cancelled t) (tu_clock t) (tu_watch t) (tu_lastActivity t) (tu_discardedOpen t) (tu_supervisor t) (tu_read t) (tu_observed t) (tu_ended t) (Some (tu_clock t)) (tu_calls t) (tu_converged t).
Definition note_call (c : Bytes * bool * bool) (t : Turn) : Turn :=
  mkTurn (tu_cancelled t) (tu_clock t) (tu_watch t) (tu_lastActivity t) (tu_discardedOpen t) (tu_supervisor t) (tu_read t) (tu_observed t) (tu_ended t) (tu_stalled t) (tu_calls t ++ [c]) (tu_converged t).
Definition note_convergence (t : Turn) : Turn :=
  mkTurn (tu_cancelled t) (tu_clock t) (tu_watch t) (tu_lastActivity t) (tu_discardedOpen t) (tu_supervisor t) (tu_read t) (tu_observed t) (tu_ended t) (tu_stalled t) (tu_calls t) (S (tu_converged t)).

(** What a channel may have: a nil [discardedOutput] is never ready. *)
Definition is_ready (r : Ready) (t : Turn) : Prop :=
  match r with
  | ReadyContext => watch_cancelled t = true
  | ReadyDiscarded _ => tu_discardedOpen t = true
  | ReadyLine _ => True
  end.

(** One of the three channel cases of [Watch]'s selects. *)
Definition take_ready (r : Ready) (t : Turn) : Turn :=
  match r with
  | ReadyContext => set_watch Closed t
  | ReadyDiscarded None => close_discarded t
  | ReadyDiscarded (Some prefix) => set_watch (Emitting (discarded_signal prefix) false) (note_read (prefix, true) t)
  | ReadyLine None => set_watch (Emitting exited_signal true) (note_end t)
  | ReadyLine (Some line) => set_watch (Emitting (line_signal cfg line) false) (note_read (line, false) t)
  end.

(** The timer's case: the queued activity is drained, the deadline judged by the
    clock, and what is ready has one last admission before the stall. *)
Definition timer_fired (queued : list Z) (r : option Ready) (t : Turn) : Turn :=
  let t := foldl (λ t at_, observeActivity at_ t) t queued in
  if (tu_clock t <? tu_lastActivity t + effective_stall cfg)%Z then t
  else match r with
       | Some r => take_ready r t
       | None => set_watch (Emitting stall_signal true) (note_stall t)
       end.

Definition callback_of (s : Signal) : bool := if sg_Discarded s then onDiscarded else onLine.

(** A signal received with the caller's context alive; [done] is the callback's
    answer if it is called. *)
Definition handle_signal (s : Signal) (done : bool) (t : Turn) : Turn :=
  match sg_Kind s with
  | Prompt | Stall => set_supervisor (Converging terminateAndWait [Blocked (blockReason s) (sg_PromptKind s)]) t
  | Progress =>
      if callback_of s && negb (bool_decide (sg_Line s = []))
      then set_supervisor (CalledBack done) (note_call (sg_Line s, sg_Discarded s, done) t)
      else set_supervisor Receiving t
  | Exited => set_supervisor (Converging wait []) t
  end.

(** [errors.Join(primary, convergenceErr, contextErr)], what the convergence returned
    being none of the other errors, the context error only
    when [primary] is not already it. *)
Definition convergence_result (primary : Errors) (converged : list nat) (cancelled : bool) : Errors :=
  primary ++ (ConvergenceError <$> converged) ++ (if cancelled && negb (bool_decide (ContextError ∈ primary)) then [ContextError] else []).

Definition ctx_alive_or (t : Turn) (k : Turn) : Turn :=
  if tu_cancelled t then set_supervisor (Converging terminateAndWait [ContextError]) t else k.

Inductive turn_step : Turn → Turn → Prop :=
| StepCancel t : turn_step t (cancel t)
| StepTime t ns : (0 ≤ ns)%Z → turn_step t (advance ns t)
(** [Watch]. *)
| StepActivity t at_ : tu_watch t = Selecting → turn_step t (observeActivity at_ t)
| StepReady t r : tu_watch t = Selecting → is_ready r t → turn_step t (take_ready r t)
| StepTimer t queued r :
    tu_watch t = Selecting → (∀ r', r = Some r' → is_ready r' t) → turn_step t (timer_fired queued r t)
| StepDropped t s returns :
    tu_watch t = Emitting s returns → watch_cancelled t = true →
    turn_step t (set_watch (if returns : bool then Closed else Selecting) t)
(** The hand-over of a signal. *)
| StepSignal t s returns :
    tu_watch t = Emitting s returns → tu_supervisor t = Receiving →
    turn_step t (set_supervisor (Received (Some s)) (set_watch (if returns : bool then Closed else Selecting) t))
| StepClosed t : tu_watch t = Closed → tu_supervisor t = Receiving → turn_step t (set_supervisor (Received None) t)
(** The supervisor. *)
| StepContext t :
    tu_supervisor t = Receiving → tu_cancelled t = true →
    turn_step t (set_supervisor (Converging terminateAndWait [ContextError]) t)
| StepHandle t s done :
    tu_supervisor t = Received s →
    turn_step t (ctx_alive_or t
      (match s with
       | None => set_supervisor (Converging wait []) t
       | Some s => handle_signal s done t
       end))
| StepCalledBack t done :
    tu_supervisor t = CalledBack done →
    turn_step t (ctx_alive_or t
      (set_supervisor (if done : bool then Converging terminateAndWait [] else Receiving) t))
| StepConverged t how primary converged :
    tu_supervisor t = Converging how primary →
    turn_step t (set_supervisor
      (Returned how primary converged (tu_cancelled t) (convergence_result primary converged (tu_cancelled t))) (note_convergence t)).

Definition turn_reachable (now : Z) (t : Turn) : Prop := rtc turn_step (start_turn now) t.
End Watch.

(** * The supervision of a turn, proved

    An invariant of every interleaving of the watchdog, the supervisor and the
    caller's cancellation, and what it says of the callbacks and of the error the
    supervisor returns. *)

Section Turn.
Context (cfg : WatchdogConfig) (onLine onDiscarded : bool) (now0 : Z).

Abbreviation step := (turn_step cfg onLine onDiscarded).

(** ** What the callbacks are owed *)

(** A record some callback is to see: not empty, not a prompt, and of a kind the
    runner listens to. *)
Definition deliverable (r : Bytes * bool) : bool :=
  (if r.2 then onDiscarded else onLine && negb (is_prompt cfg r.1)) && negb (bool_decide (r.1 = [])).

Definition forwarded (l : list (Bytes * bool)) : list (Bytes * bool) := base.filter (λ r, deliverable r = true) l.

(** The call a signal under way still stands for. *)
Definition signal_calls (s : Signal) : list (Bytes * bool) :=
  match sg_Kind s with
  | Progress => if callback_of onLine onDiscarded s && negb (bool_decide (sg_Line s = [])) then [(sg_Line s, sg_Discarded s)] else []
  | _ => []
  end.

Definition in_flight (t : Turn) : list (Bytes * bool) :=
  (match tu_supervisor t with Received (Some s) => signal_calls s | _ => [] end) ++
  (match tu_watch t with Emitting s _ => signal_calls s | _ => [] end).

Lemma forwarded_snoc l r : forwarded (l ++ [r]) = forwarded l ++ (if deliverable r then [r] else []).
Proof.
  unfold forwarded. rewrite filter_app. f_equal. destruct (deliverable r) eqn:Hd.
  - by rewrite filter_cons_True, filter_nil.
  - by rewrite filter_cons_False, filter_nil by (by rewrite Hd).
Qed.

Lemma line_signal_calls line : signal_calls (line_signal cfg line) = if deliverable (line, false) then [(line, false)] else [].
Proof. unfold line_signal, deliverable, signal_calls, callback_of. cbn [fst snd]. destruct (is_prompt cfg line); simpl; by rewrite ?andb_false_r, ?andb_true_r. Qed.

Lemma discarded_signal_calls prefix : signal_calls (discarded_signal prefix) = if deliverable (prefix, true) then [(prefix, true)] else [].
Proof. done. Qed.

(** ** The invariant *)

Definition prompt_seen (t : Turn) (kind : string) : Prop :=
  ∃ line, (line, false) ∈ tu_read t ∧ is_prompt cfg line = true ∧ kind = promptKind cfg line.

(** What a signal says is so, and whether [Watch] returns after it. *)
Definition signal_ok (t : Turn) (s : Signal) : Prop :=
  match sg_Kind s with
  | Progress => True
  | Prompt => prompt_seen t (sg_PromptKind s)
  | Stall => tu_stalled t ≠ None ∧ sg_PromptKind s = ""
  | Exited => tu_ended t = true
  end.

Definition last_signal (s : Signal) : bool := match sg_Kind s with Stall | Exited => true | _ => false end.

(** The last callback accepted its record. *)
Definition accepted (t : Turn) : Prop := ∃ r, last (tu_calls t) = Some (r, true).

Definition primary_ok (t : Turn) (how : Convergence) (primary : Errors) : Prop :=
  (how = wait ∧ primary = [] ∧ tu_ended t = true) ∨
  how = terminateAndWait ∧
  (primary = [] ∧ accepted t ∨
   primary = [ContextError] ∧ tu_cancelled t = true ∨
   (∃ kind, primary = [Blocked (Some BlockReasonPrompt) kind] ∧ prompt_seen t kind) ∨
   primary = [Blocked (Some BlockReasonStall) ""] ∧ tu_stalled t ≠ None).

Definition supervisor_ok (t : Turn) : Prop :=
  match tu_supervisor t with
  | Receiving => True
  | Received None => tu_cancelled t = true
  | Received (Some s) => signal_ok t s
  | CalledBack answer => ∃ r, last (tu_calls t) = Some (r, answer)
  | Converging how primary => primary_ok t how primary
  | Returned how primary converged cancelled err =>
      primary_ok t how primary ∧ err = convergence_result primary converged cancelled ∧
      (cancelled = true → tu_cancelled t = true)
  end.

(** The supervisor will not go back to its select. *)
Definition leaving (t : Turn) : bool :=
  match tu_supervisor t with
  | Received (Some s) => last_signal s
  | Converging _ _ | Returned _ _ _ _ _ => true
  | _ => false
  end.

Definition watch_ok (t : Turn) : Prop :=
  match tu_watch t with
  | Selecting => tu_stalled t = None
  | Emitting s returns => signal_ok t s ∧ returns = last_signal s ∧ (tu_stalled t ≠ None → returns = true)
  | Closed => watch_cancelled t = true ∨ leaving t = true
  end.

(** The records the callbacks were called with, and a supervisor no callback has
    told to stop. *)
Definition records (t : Turn) : list (Bytes * bool) := fst <$> tu_calls t.
Definition listening (t : Turn) : bool :=
  match tu_supervisor t with Receiving | Received _ | CalledBack false => true | _ => false end.

Record turn_inv (t : Turn) : Prop := {
  ti_prefix : records t `prefix_of` forwarded (tu_read t);
  ti_exact : watch_cancelled t = false → forwarded (tu_read t) = records t ++ in_flight t;
  ti_answers : Forall (λ c, c.2 = false) (removelast (tu_calls t)) ∧
               (listening t = true → Forall (λ c, c.2 = false) (tu_calls t));
  ti_converged : tu_converged t = if returned t then 1 else 0;
  ti_observed : Forall (λ o, o ≤ tu_lastActivity t)%Z (now0 :: tu_observed t);
  ti_stalled at_ : tu_stalled t = Some at_ → (tu_lastActivity t + effective_stall cfg ≤ at_)%Z;
  ti_watch : watch_ok t;
  ti_supervisor : supervisor_ok t }.

Lemma turn_inv_start : turn_inv (start_turn now0).
Proof. split; try done. constructor; [cbn; lia|constructor]. Qed.

Lemma inv_cancel t : turn_inv t → turn_inv (cancel t).
Proof.
  intros [Hp He Hans Hc Ho Hs Hw Hsup]. split; try done.
  - unfold watch_ok in *. cbn [cancel tu_watch] in *. destruct (tu_watch t); try done. by left.
  - unfold supervisor_ok in *. cbn [cancel tu_supervisor] in *. destruct (tu_supervisor t) as [|[s|]|done_|how primary|how primary conv c err]; try done.
    + unfold primary_ok in *. cbn. naive_solver.
    + destruct Hsup as (Hpr & ? & ?). split_and!; [|done|done]. unfold primary_ok in *. cbn. naive_solver.
Qed.

(** Steps of [Watch] alone: the supervisor's claims stay true. *)
Lemma supervisor_ok_later t t' : tu_supervisor t' = tu_supervisor t →
  (tu_cancelled t = true → tu_cancelled t' = true) → (∀ r, r ∈ tu_read t → r ∈ tu_read t') →
  (tu_ended t = true → tu_ended t' = true) → (tu_stalled t ≠ None → tu_stalled t' ≠ None) → tu_calls t' = tu_calls t →
  supervisor_ok t → supervisor_ok t'.
Proof.
  intros Hsup Hc Hr He Hst Hcalls Hok. unfold supervisor_ok in *. rewrite Hsup.
  assert (Hps : ∀ k, prompt_seen t k → prompt_seen t' k) by (intros k (l & ? & ? & ?); exists l; auto).
  assert (Hpr : ∀ how primary, primary_ok t how primary → primary_ok t' how primary).
  { intros how primary [?|[? [?|[?|[(k & ? & ?)|?]]]]]; [left|right; split; [done|]..].
    - naive_solver.
    - left. unfold accepted in *. by rewrite Hcalls.
    - right; left. naive_solver.
    - do 2 right. left. eauto.
    - do 3 right. naive_solver. }
  destruct (tu_supervisor t) as [|[s|]|done_|how primary|how primary conv c err]; auto.
  - unfold signal_ok in *. destruct (sg_Kind s); naive_solver.
  - by rewrite Hcalls.
  - destruct Hok as (? & ? & ?). split_and!; auto.
Qed.

Lemma inv_activity at_ t : turn_inv t → tu_watch t = Selecting → turn_inv (observeActivity at_ t).
Proof.
  intros [Hp He Hans Hc Ho Hs Hw Hsup] Hsel. split; try done.
  - cbn [observeActivity tu_lastActivity tu_observed]. apply Forall_cons in Ho as [Hn Ho].
    assert (Hle : ∀ o, (o ≤ tu_lastActivity t)%Z → (o ≤ if (tu_lastActivity t <? at_)%Z then at_ else tu_lastActivity t)%Z)
      by (intros o ?; destruct (Z.ltb_spec (tu_lastActivity t) at_); lia).
    constructor; [by apply Hle|]. constructor; [destruct (Z.ltb_spec (tu_lastActivity t) at_); lia|]. eapply Forall_impl; [done|]. intros o. apply Hle.
  - cbn [observeActivity tu_stalled]. unfold watch_ok in Hw. rewrite Hsel in Hw. rewrite Hw. done.
Qed.

Lemma activities_inv queued t : turn_inv t → tu_watch t = Selecting →
  turn_inv (foldl (λ t at_, observeActivity at_ t) t queued) ∧
  tu_watch (foldl (λ t at_, observeActivity at_ t) t queued) = Selecting ∧
  ∀ r, is_ready r t → is_ready r (foldl (λ t at_, observeActivity at_ t) t queued).
Proof.
  revert t. induction queued as [|at_ queued IH]; intros t Hinv Hsel; [done|]. cbn [foldl].
  destruct (IH (observeActivity at_ t)) as (? & ? & Hr); [by apply inv_activity|done|].
  split_and!; [done|done|]. intros r Hready. apply Hr. by destruct r.
Qed.

Lemma inv_ready r t : turn_inv t → tu_watch t = Selecting → is_ready r t → turn_inv (take_ready cfg r t).
Proof.
  intros Hinv Hsel Hr. pose proof Hinv as [Hp He Hans Hc Ho Hs Hw Hsup]. unfold watch_ok in Hw. rewrite Hsel in Hw.
  assert (Hflight : watch_cancelled t = false → ∀ x s, in_flight (set_watch (Emitting s false) (note_read x t)) = in_flight t ++ signal_calls s).
  { intros _ x s. unfold in_flight. cbn. rewrite Hsel. by rewrite app_nil_r. }
  destruct r as [|[prefix|]|[line|]]; cbn [take_ready].
  - split; try done.
    + intros Hcan. cbn in *. unfold is_ready in Hr. unfold watch_cancelled in *. cbn in Hcan. unfold returned in *. cbn in Hcan. congruence.
    + by left.
  - split; try done.
    + cbn. rewrite forwarded_snoc. by apply prefix_app_r.
    + intros Hcan. unfold records in *. cbn [tu_read set_watch note_read tu_calls]. rewrite forwarded_snoc, (Hflight Hcan), discarded_signal_calls, app_assoc.
      by rewrite <- He.
    + eapply (supervisor_ok_later t); try done. intros x Hx. cbn. apply elem_of_app. by left.
  - split; try done. unfold watch_ok. cbn. by rewrite Hsel.
  - split; try done.
    + cbn. rewrite forwarded_snoc. by apply prefix_app_r.
    + intros Hcan. unfold records in *. cbn [tu_read set_watch note_read tu_calls]. rewrite forwarded_snoc, (Hflight Hcan), line_signal_calls, app_assoc.
      by rewrite <- He.
    + unfold watch_ok. cbn [tu_watch set_watch tu_stalled note_read]. split_and!; [| |by rewrite Hw].
      * unfold signal_ok, line_signal. destruct (is_prompt cfg line) eqn:Hpr; [|done]. cbn. exists line. split_and!; [|done..].
        cbn. apply elem_of_app. right. by apply list_elem_of_singleton.
      * unfold line_signal. by destruct (is_prompt cfg line).
    + eapply (supervisor_ok_later t); try done. intros x Hx. cbn. apply elem_of_app. by left.
  - split; try done.
    + intros Hcan. unfold records in *. cbn [tu_read set_watch note_end tu_calls]. rewrite (He Hcan). unfold in_flight. cbn. by rewrite Hsel.
    + by eapply (supervisor_ok_later t).
Qed.

Lemma inv_stall t : turn_inv t → tu_watch t = Selecting → (tu_lastActivity t + effective_stall cfg ≤ tu_clock t)%Z →
  turn_inv (set_watch (Emitting stall_signal true) (note_stall t)).
Proof.
  intros [Hp He Hans Hc Ho Hs Hw Hsup] Hsel Hle. unfold watch_ok in Hw. rewrite Hsel in Hw. split; try done.
  - intros Hcan. unfold records in *. cbn [tu_read set_watch note_stall tu_calls]. rewrite (He Hcan). unfold in_flight. cbn. by rewrite Hsel.
  - intros at' [= <-]. done.
  - by eapply (supervisor_ok_later t).
Qed.

Lemma inv_timer queued r t : turn_inv t → tu_watch t = Selecting → (∀ r', r = Some r' → is_ready r' t) →
  turn_inv (timer_fired cfg queued r t).
Proof.
  intros Hinv Hsel Hr. destruct (activities_inv queued t Hinv Hsel) as (Hinv' & Hsel' & Hready). unfold timer_fired. cbn zeta.
  set (u := foldl _ t queued) in *. clearbody u. destruct (Z.ltb_spec (tu_clock u) (tu_lastActivity u + effective_stall cfg)); [done|].
  destruct r as [r|]; [apply inv_ready; auto|by apply inv_stall].
Qed.

(** The watch moves past a signal. *)
Definition next_watch (returns : bool) : watch_pc := if returns then Closed else Selecting.

Lemma next_watch_ok t s returns : watch_ok t → tu_watch t = Emitting s returns →
  returns = false → tu_stalled t = None.
Proof. unfold watch_ok. intros Hw Hem. rewrite Hem in Hw. destruct Hw as (_ & _ & Hst). intros ->. by destruct (tu_stalled t); [discriminate Hst|]. Qed.

Lemma inv_dropped t s returns : turn_inv t → tu_watch t = Emitting s returns → watch_cancelled t = true →
  turn_inv (set_watch (next_watch returns) t).
Proof.
  intros [Hp He Hans Hc Ho Hs Hw Hsup] Hem Hcan. split; try done.
  - intros Hnot. change (watch_cancelled t = false) in Hnot. congruence.
  - unfold watch_ok. cbn. destruct returns; cbn; [by left|]. by eapply next_watch_ok.
Qed.

Lemma inv_signal t s returns : turn_inv t → tu_watch t = Emitting s returns → tu_supervisor t = Receiving →
  turn_inv (set_supervisor (Received (Some s)) (set_watch (next_watch returns) t)).
Proof.
  intros [Hp He Hans Hc Ho Hs Hw Hsup] Hem Hrec. pose proof (next_watch_ok t s returns Hw Hem) as Hnext.
  unfold watch_ok in Hw. rewrite Hem in Hw. destruct Hw as (Hsig & Hret & _).
  assert (Hnr : returned t = false) by (unfold returned; by rewrite Hrec).
  split; try done.
  - intros Hcan. unfold records in *. cbn [tu_read set_supervisor set_watch tu_calls]. rewrite He by (unfold watch_cancelled in *; rewrite Hnr; exact Hcan).
    f_equal. unfold in_flight. rewrite Hrec, Hem. cbn. destruct returns; cbn; by rewrite app_nil_r.
  - destruct Hans as [? Hno]. split; [done|]. intros _. apply Hno. unfold listening. by rewrite Hrec.
  - cbn. by rewrite Hc, Hnr.
  - unfold watch_ok. cbn. destruct returns; cbn; [right; by rewrite <- Hret|by apply Hnext].
Qed.

(** ** Steps of the supervisor *)

(** The supervisor moves without calling back; [t'] is at [s']. *)
Lemma inv_supervise t s' : turn_inv t → returned t = false → supervisor_ok (set_supervisor s' t) →
  (watch_cancelled t = false → in_flight (set_supervisor s' t) = in_flight t) →
  (leaving t = true → leaving (set_supervisor s' t) = true) →
  (listening (set_supervisor s' t) = true → listening t = true) →
  returned (set_supervisor s' t) = false → turn_inv (set_supervisor s' t).
Proof.
  intros [Hp He Hans Hc Ho Hs Hw Hsup] Hnr Hok Hfl Hlv Hls Hnr'.
  assert (Hcan : watch_cancelled (set_supervisor s' t) = watch_cancelled t) by (unfold watch_cancelled; by rewrite Hnr, Hnr').
  split; try done.
  - rewrite Hcan. intros Hnot. rewrite Hfl by done. by apply He.
  - destruct Hans as [? Hno]. split; [done|]. intros Hl. by apply Hno, Hls.
  - cbn [tu_converged set_supervisor]. by rewrite Hc, Hnr, Hnr'.
  - unfold watch_ok in *. cbn [tu_watch set_supervisor]. destruct (tu_watch t); try done. rewrite Hcan. naive_solver.
Qed.

Lemma inv_context t : turn_inv t → returned t = false → tu_cancelled t = true →
  turn_inv (set_supervisor (Converging terminateAndWait [ContextError]) t).
Proof.
  intros Hinv Hnr Hcan. apply inv_supervise; try done.
  - right. split; [done|]. right. by left.
  - intros Hnot. unfold watch_cancelled in Hnot. by rewrite Hcan in Hnot.
Qed.

Lemma signal_calls_none s : sg_Kind s ≠ Progress → signal_calls s = [].
Proof. unfold signal_calls. by destruct (sg_Kind s). Qed.

Lemma inv_handle_signal t s done_ : turn_inv t → tu_supervisor t = Received (Some s) → tu_cancelled t = false →
  turn_inv (handle_signal onLine onDiscarded s done_ t).
Proof.
  intros Hinv Hrec Hcan. pose proof Hinv as [Hp He Hans Hc Ho Hs Hw Hsup]. unfold supervisor_ok in Hsup. rewrite Hrec in Hsup.
  assert (Hnr : returned t = false) by (unfold returned; by rewrite Hrec).
  assert (Hlive : watch_cancelled t = false) by (unfold watch_cancelled; by rewrite Hcan, Hnr).
  assert (Hfl : in_flight t = signal_calls s ++ (match tu_watch t with Emitting s' _ => signal_calls s' | _ => [] end))
    by (unfold in_flight; by rewrite Hrec).
  unfold handle_signal, signal_ok in *. destruct (sg_Kind s) eqn:Hk.
  - assert (Hlv : leaving t = false) by (unfold leaving, last_signal; by rewrite Hrec, Hk).
    destruct (callback_of onLine onDiscarded s && negb (bool_decide (sg_Line s = []))) eqn:Hcb.
    + assert (Hsc : signal_calls s = [(sg_Line s, sg_Discarded s)]) by (unfold signal_calls; by rewrite Hk, Hcb).
      assert (Hex : forwarded (tu_read t) = (records t ++ [(sg_Line s, sg_Discarded s)]) ++
                    (match tu_watch t with Emitting s' _ => signal_calls s' | _ => [] end))
        by (by rewrite (He Hlive), Hfl, Hsc, app_assoc).
      split; try done.
      * unfold records. cbn [tu_read tu_calls set_supervisor note_call]. rewrite fmap_app, Hex. by exists (match tu_watch t with Emitting s' _ => signal_calls s' | _ => [] end).
      * intros _. unfold records. cbn [tu_read tu_calls set_supervisor note_call]. by rewrite fmap_app, Hex.
      * cbn [tu_calls set_supervisor note_call]. rewrite removelast_last. destruct Hans as [_ Hans].
        assert (Hno : Forall (λ c, c.2 = false) (tu_calls t)) by (apply Hans; unfold listening; by rewrite Hrec).
        split; [done|]. destruct done_; [done|]. intros _. apply Forall_app. by split; [|constructor].
      * cbn. by rewrite Hc, Hnr.
      * unfold watch_ok in *. cbn. destruct (tu_watch t); try done. left. rewrite Hlive, Hlv in Hw. by destruct Hw.
      * unfold supervisor_ok. cbn. rewrite last_snoc. by eexists.
    + apply inv_supervise; try done; [|by rewrite Hlv|by unfold listening; rewrite Hrec].
      intros _. unfold in_flight. cbn. rewrite Hrec. unfold signal_calls at 2. by rewrite Hk, Hcb.
  - apply inv_supervise; try done.
    + right. split; [done|]. do 3 right. destruct Hsup as [? ->]. unfold blockReason. by rewrite Hk.
    + intros _. rewrite Hfl, signal_calls_none by (by rewrite Hk). done.
  - apply inv_supervise; try done.
    + right. split; [done|]. do 2 right. left. unfold blockReason. rewrite Hk. by eexists.
    + intros _. rewrite Hfl, signal_calls_none by (by rewrite Hk). done.
  - apply inv_supervise; try done; [by left|]. intros _. rewrite Hfl, signal_calls_none by (by rewrite Hk). done.
Qed.

Lemma inv_converged t how primary converged : turn_inv t → tu_supervisor t = Converging how primary →
  turn_inv (set_supervisor (Returned how primary converged (tu_cancelled t) (convergence_result primary converged (tu_cancelled t)))
              (note_convergence t)).
Proof.
  intros [Hp He Hans Hc Ho Hs Hw Hsup] Hcon. unfold supervisor_ok in Hsup. rewrite Hcon in Hsup.
  assert (Hnr : returned t = false) by (unfold returned; by rewrite Hcon). rewrite Hnr in Hc.
  split; try done.
  - unfold watch_cancelled. cbn. by rewrite orb_true_r.
  - split; [by destruct Hans|done].
  - cbn. by rewrite Hc.
  - unfold watch_ok in *. cbn. destruct (tu_watch t); try done. by right.
Qed.

Lemma turn_inv_step t t' : turn_inv t → step t t' → turn_inv t'.
Proof.
  intros Hinv Hstep. destruct Hstep as [t|t ns Hns|t at_ Hsel|t r Hsel Hr|t queued r Hsel Hr|t s returns Hem Hcan|t s returns Hem Hrec|
    t Hcl Hrec|t Hrec Hcan|t s done_ Hrec|t done_ Hcb|t how primary converged Hcon].
  - by apply inv_cancel.
  - by destruct Hinv.
  - by apply inv_activity.
  - by apply inv_ready.
  - by apply inv_timer.
  - by eapply (inv_dropped t s).
  - by apply inv_signal.
  - assert (Hnr : returned t = false) by (unfold returned; by rewrite Hrec).
    apply inv_supervise; try done.
    + pose proof (ti_watch t Hinv) as Hw. unfold watch_ok in Hw. rewrite Hcl in Hw. unfold supervisor_ok. cbn.
      unfold watch_cancelled, leaving in Hw. rewrite Hnr, Hrec, orb_false_r in Hw. by destruct Hw.
    + intros _. unfold in_flight. cbn. by rewrite Hrec.
    + unfold leaving. by rewrite Hrec.
    + unfold listening. by rewrite Hrec.
  - apply inv_context; [done|unfold returned; by rewrite Hrec|done].
  - assert (Hnr : returned t = false) by (unfold returned; by rewrite Hrec).
    unfold ctx_alive_or. destruct (tu_cancelled t) eqn:Hcan; [by apply inv_context|].
    destruct s as [s|]; [by apply inv_handle_signal|]. exfalso.
    pose proof (ti_supervisor t Hinv) as Hs. unfold supervisor_ok in Hs. rewrite Hrec in Hs. congruence.
  - assert (Hnr : returned t = false) by (unfold returned; by rewrite Hcb).
    unfold ctx_alive_or. destruct (tu_cancelled t) eqn:Hcan; [by apply inv_context|].
    pose proof (ti_supervisor t Hinv) as Hs. unfold supervisor_ok in Hs. rewrite Hcb in Hs.
    apply inv_supervise; try done; [|intros _; unfold in_flight; cbn; rewrite Hcb; by destruct done_|
      unfold leaving; by rewrite Hcb|unfold listening; rewrite Hcb; by destruct done_|by destruct done_].
    destruct done_; [|done]. right. split; [done|]. by left.
  - by apply inv_converged.
Qed.

Lemma turn_reachable_inv t : turn_reachable cfg onLine onDiscarded now0 t → turn_inv t.
Proof. revert t. apply rtc_ind_r; [apply turn_inv_start|]. intros t t' _ Hstep Hinv. by eapply turn_inv_step. Qed.

(** ** What supervision promises *)

(** A stall was declared, when the timeout had passed since the start of the turn
    and since every activity observed. *)
Definition stalled_for (t : Turn) : Prop :=
  ∃ at_, tu_stalled t = Some at_ ∧ Forall (λ o, o + effective_stall cfg ≤ at_)%Z (now0 :: tu_observed t).

Lemma stall_evidence t : turn_inv t → tu_stalled t ≠ None → stalled_for t.
Proof.
  intros Hinv Hst. destruct (tu_stalled t) as [at_|] eqn:Heq; [|done]. exists at_. split; [done|].
  pose proof (ti_stalled t Hinv at_ Heq). eapply Forall_impl; [apply (ti_observed t Hinv)|]. intros o ?. cbn in *. lia.
Qed.

(** Within two of its own steps the supervisor of a cancelled turn has returned. *)
Lemma cancelled_returns t : tu_cancelled t = true → ∃ n t', n ≤ 2 ∧ nsteps step n t t' ∧ returned t' = true.
Proof.
  intros Hcan.
  assert (Hconv : ∀ u how primary, tu_supervisor u = Converging how primary → ∃ u', step u u' ∧ returned u' = true).
  { intros u how primary Hu. eexists. split; [by apply (StepConverged _ _ _ u how primary [])|done]. }
  assert (Htwo : ∀ u how primary, step t u → tu_supervisor u = Converging how primary → ∃ n t', n ≤ 2 ∧ nsteps step n t t' ∧ returned t' = true).
  { intros u how primary Hs Hu. destruct (Hconv u how primary Hu) as (u' & ? & ?). exists 2, u'.
    split_and!; [done| |done]. eapply nsteps_l; [done|]. by apply nsteps_once. }
  destruct (tu_supervisor t) as [|s|done_|how primary|how primary conv c err] eqn:Hsup.
  - eapply Htwo; [by apply StepContext|done].
  - eapply Htwo; [by apply (StepHandle _ _ _ t s true)|]. unfold ctx_alive_or. by rewrite Hcan.
  - eapply Htwo; [by apply (StepCalledBack _ _ _ t done_)|]. unfold ctx_alive_or. by rewrite Hcan.
  - destruct (Hconv t how primary Hsup) as (u' & ? & ?). exists 1, u'. split_and!; [lia|by apply nsteps_once|done].
  - exists 0, t. split_and!; [lia|constructor|unfold returned; by rewrite Hsup].
Qed.

(** C12: However the watchdog, the supervisor, the agent's channels, the clock and
    the caller's cancellation interleave: the callbacks have been called, in order
    and once each, with the non-empty records of their kind that the watchdog read,
    prompts left out, none of them after one accepted its record, and while the
    turn is alive nothing of them is lost beyond what is in flight; the agent is
    converged exactly once and before the supervisor returns; it returns nil only
    when the convergence succeeded, the caller had not cancelled and either the
    agent's output ended or the last callback accepted its record; it reports a
    prompt only for a line that is one, of the kind the line was given, and a stall
    only when the watchdog declared one and the clock then stood at least the
    timeout after the start of the turn and after every activity observed; and a
    cancelled turn is two steps from its end. *)
Theorem supervision_converges t : turn_reachable cfg onLine onDiscarded now0 t →
  records t `prefix_of` forwarded (tu_read t) ∧
  Forall (λ c, c.2 = false) (removelast (tu_calls t)) ∧
  (watch_cancelled t = false → forwarded (tu_read t) = records t ++ in_flight t) ∧
  tu_converged t = (if returned t then 1 else 0) ∧
  (∀ how primary converged cancelled err, tu_supervisor t = Returned how primary converged cancelled err →
     (err = [] → converged = [] ∧ cancelled = false ∧
        (how = wait ∧ tu_ended t = true ∨ how = terminateAndWait ∧ accepted t)) ∧
     (ContextError ∈ err → tu_cancelled t = true) ∧
     (∀ kind, Blocked (Some BlockReasonPrompt) kind ∈ err → how = terminateAndWait ∧ prompt_seen t kind) ∧
     (∀ kind, Blocked (Some BlockReasonStall) kind ∈ err → how = terminateAndWait ∧ stalled_for t)) ∧
  (tu_cancelled t = true → ∃ n t', n ≤ 2 ∧ nsteps step n t t' ∧ returned t' = true).
Proof.
  intros Hreach. pose proof (turn_reachable_inv t Hreach) as Hinv. pose proof (stall_evidence t Hinv) as Hstall.
  destruct Hinv as [Hp He Hans Hc Ho Hs Hw Hsup]. destruct Hans. split_and!; [done..| |apply cancelled_returns].
  intros how primary converged cancelled err Hret. unfold supervisor_ok in Hsup. rewrite Hret in Hsup.
  destruct Hsup as (Hpr & -> & Hcan). unfold convergence_result, primary_ok in *.
  assert (Hno : ∀ b k, Blocked b k ∈ primary ++ (ConvergenceError <$> converged) ++
                 (if cancelled && negb (bool_decide (ContextError ∈ primary)) then [ContextError] else []) → Blocked b k ∈ primary).
  { intros b k. rewrite !elem_of_app. intros [?|[(? & ? & _)%list_elem_of_fmap|Hx]]; [done|done|].
    destruct (cancelled && _); set_unfold in Hx; [by destruct_or? Hx|done]. }
  split_and!.
  - intros [-> [Hconv Hctx]%app_eq_nil]%app_eq_nil. apply fmap_nil_inv in Hconv as ->.
    rewrite bool_decide_eq_false_2 in Hctx by (apply not_elem_of_nil). destruct cancelled; [done|].
    split_and!; [done..|]. destruct Hpr as [(? & _ & ?)|[? [[_ ?]|[[? _]|[(k & ? & _)|[? _]]]]]]; naive_solver.
  - rewrite !elem_of_app. intros [Hx|[(? & ? & _)%list_elem_of_fmap|Hx]]; [|done|].
    + destruct Hpr as [(_ & -> & _)|[_ [[-> _]|[[-> ?]|[(k & -> & _)|[-> _]]]]]]; set_unfold in Hx; naive_solver.
    + apply Hcan. destruct cancelled; [done|]. by apply elem_of_nil in Hx.
  - intros k Hx%Hno. destruct Hpr as [(_ & -> & _)|[? [[-> _]|[[-> ?]|[(k' & -> & ?)|[-> _]]]]]]; set_unfold in Hx; naive_solver.
  - intros k Hx%Hno. destruct Hpr as [(_ & -> & _)|[? [[-> _]|[[-> ?]|[(k' & -> & ?)|[-> ?]]]]]]; set_unfold in Hx; naive_solver.
Qed.
End Turn.

(** ** A turn that ends by itself *)

Definition question_config : WatchdogConfig :=
  mkWatchdogConfig 0 [λ line, bool_decide ("?"%char ∈ line)] None true.

Definition finished_turn : Turn :=
  mkTurn false 5 Closed 5 true (Returned wait [] [] false []) [(chars "ok", false)] [] true None [(chars "ok", false, false)] 1.

Lemma finished_turn_reachable : turn_reachable question_config true false 5 finished_turn.
Proof.
  unfold turn_reachable, start_turn.
  eapply rtc_l; [by apply (StepReady _ _ _ _ (ReadyLine (Some (chars "ok"))))|].
  eapply rtc_l; [by apply (StepSignal _ _ _ _ (mkSignal Progress (chars "ok") "" false) false)|cbn].
  eapply rtc_l; [by apply (StepHandle _ _ _ _ (Some (mkSignal Progress (chars "ok") "" false)) false)|cbn].
  eapply rtc_l; [by apply (StepCalledBack _ _ _ _ false)|cbn].
  eapply rtc_l; [by apply (StepReady _ _ _ _ (ReadyLine None))|cbn].
  eapply rtc_l; [by apply (StepSignal _ _ _ _ exited_signal true)|cbn].
  eapply rtc_l; [by apply (StepHandle _ _ _ _ (Some exited_signal) false)|cbn].
  eapply rtc_l; [by apply (StepConverged _ _ _ _ wait [] [])|cbn]. apply rtc_refl.
Qed.

(** A turn that never says anything. *)
Definition silent : Errors := [Blocked (Some BlockReasonStall) ""].
Definition stalled_turn : Turn :=
  mkTurn false (5 + DefaultStallTimeout) Closed 5 true (Returned terminateAndWait silent [] false silent) [] [] false
    (Some (5 + DefaultStallTimeout)%Z) [] 1.

Lemma stalled_turn_reachable : turn_reachable question_config true false 5 stalled_turn.
Proof.
  unfold turn_reachable, start_turn.
  eapply rtc_l; [by apply (StepTime _ _ _ _ DefaultStallTimeout)|cbn].
  eapply rtc_l; [by apply (StepTimer _ _ _ _ [] None)|].
  eapply rtc_l; [by apply (StepSignal _ _ _ _ stall_signal true)|cbn].
  eapply rtc_l; [by apply (StepHandle _ _ _ _ (Some stall_signal) false)|cbn].
  eapply rtc_l; [by apply (StepConverged _ _ _ _ terminateAndWait silent [])|cbn]. apply rtc_refl.
Qed.

Lemma supervision_converges_witness :
  records finished_turn `prefix_of` forwarded question_config true false (tu_read finished_turn) ∧
  stalled_for question_config 5 stalled_turn.
Proof.
  split; [exact (proj1 (supervision_converges question_config true false 5 finished_turn finished_turn_reachable))|].
  destruct (supervision_converges question_config true false 5 stalled_turn stalled_turn_reachable) as (_ & _ & _ & _ & Hret & _).
  destruct (Hret _ _ _ _ _ eq_refl) as (_ & _ & _ & Hstall).
  destruct (Hstall "") as [_ Hs]; [by left|exact Hs].
Defined.
