(* ===== verification/IpcServer.v ===== *)
(** * One request of the control plane: [internal/ipc/server.go], [protocol.go]

    A connection carries one JSON line; the server reads it under a size limit,
    checks the protocol version, routes the command to the part of the handler
    that implements it, and writes stream events and one response. The handler and
    the decoding of a command's own arguments are interfaces; errors keep their
    class, not their wording. *)
From S2P Require Import Prelude GoLib GoJson.

(** ** The protocol *)

Definition ProtoVersion : Z := 5.
Definition QueryProtoVersion : Z := 3.
Definition HookProtoVersion : Z := 5.
Definition maxRequestBytes : N := 33554432.

Inductive Command :=
| CmdStatus | CmdAttach | CmdEnqueue | CmdStop | CmdReloadConfig
| CmdPlanImport | CmdPlanSetStatus | CmdPlanDelete | CmdTaskApprove | CmdWorkerKill | CmdProjectEnsure
| CmdProjectConfigGet | CmdProjectConfigApply
| CmdObserveSnapshot | CmdObserveMessages | CmdObserveTaskDescriptions
| CmdCalibrationPut | CmdCalibrationList
| CmdHookEvent.

#[export] Instance Command_eq_dec : EqDecision Command.
Proof. solve_decision. Defined.

Definition Cmd_text (c : Command) : string :=
  match c with
  | CmdStatus => "status" | CmdAttach => "attach" | CmdEnqueue => "enqueue" | CmdStop => "stop"
  | CmdReloadConfig => "reload-config"
  | CmdPlanImport => "plan-import" | CmdPlanSetStatus => "plan-set-status" | CmdPlanDelete => "plan-delete"
  | CmdTaskApprove => "task-approve" | CmdWorkerKill => "worker-kill" | CmdProjectEnsure => "project-ensure"
  | CmdProjectConfigGet => "project-config-get" | CmdProjectConfigApply => "project-config-apply"
  | CmdObserveSnapshot => "observe-snapshot" | CmdObserveMessages => "observe-messages"
  | CmdObserveTaskDescriptions => "observe-task-descriptions"
  | CmdCalibrationPut => "calibration-put" | CmdCalibrationList => "calibration-list"
  | CmdHookEvent => "hook-event"
  end.

Definition commands : list Command :=
  [CmdStatus; CmdAttach; CmdEnqueue; CmdStop; CmdReloadConfig; CmdPlanImport; CmdPlanSetStatus; CmdPlanDelete;
   CmdTaskApprove; CmdWorkerKill; CmdProjectEnsure; CmdProjectConfigGet; CmdProjectConfigApply; CmdObserveSnapshot;
   CmdObserveMessages; CmdObserveTaskDescriptions; CmdCalibrationPut; CmdCalibrationList; CmdHookEvent].

(** The case of the switch a command's text selects. *)
Definition command_of (cmd : list Z) : option Command :=
  find (λ c, bool_decide (cmd = runes_of (Cmd_text c))) commands.

(** [Request]; absent [args] are empty. *)
Record Request := mkRequest { rq_Cmd : list Z; rq_Args : option jtree; rq_ProtoVersion : Z }.
Definition zero_request : Request := mkRequest [] None 0.

Definition set_int (t : jtree) (old : Z) : Z * bool :=
  match t with
  | JAtom raw => if is_null raw then (old, true) else match json_int raw with Some v => (v, true) | None => (old, false) end
  | _ => (old, false)
  end.

Definition set_request_member (st : Request * bool) (m : Bytes * jtree) : Request * bool :=
  let '(r, ok) := st in
  if names m.1 "cmd" then let '(v, ok') := set_string m.2 (rq_Cmd r) in (mkRequest v (rq_Args r) (rq_ProtoVersion r), ok && ok')
  else if names m.1 "args" then (mkRequest (rq_Cmd r) (Some m.2) (rq_ProtoVersion r), ok)
  else if names m.1 "proto_version" then
    let '(v, ok') := set_int m.2 (rq_ProtoVersion r) in (mkRequest (rq_Cmd r) (rq_Args r) v, ok && ok')
  else st.

(** [json.Unmarshal(line, &req)]. *)
Definition UnmarshalRequest (line : Bytes) : option Request :=
  t ← json_tree line;
  match t with
  | JObj members => let '(r, ok) := foldl set_request_member (zero_request, true) members in if ok : bool then Some r else None
  | JAtom raw => if is_null raw then Some zero_request else None
  | _ => None
  end.

Definition CodeUnsupportedCommand : string := "unsupported_command".
Definition CodeInvalidArgs : string := "invalid_args".

(** What an error of a response is about. *)
Inductive Problem :=
| MalformedRequest
| VersionNotSupported (version : Z)
| RequiresVersion (version : Z)
| NotSupported (c : Command)
| BadArgs (c : Command)
| UnknownCommand (cmd : list Z)
| HandlerFailed (text : string)
| MarshalFailed.

Record Response := mkResponse { rs_Ok : bool; rs_Data : option Bytes; rs_Error : option Problem; rs_Code : string }.

Inductive Frame := StreamEvent (event : Bytes) | Final (r : Response).

(** ** The handler *)

(** A handler's error with the stable class it carries, if it is [Coded]. *)
Record HandlerError := mkHandlerError { he_text : string; he_code : option string }.

Section Server.
Context {Args Reply H : Type}.

(** [encoding/json] on the arguments and replies of the commands: decoding into a
    command's struct, its zero value, decoding without unknown fields, and
    encoding. *)
Class Codec := {
  DecodeArgs : Command → jtree → option Args;
  ZeroArgs : Command → Args;
  DecodeStrict : jtree → option Args;
  Marshal : Reply → option Bytes;
  OKReply : Reply }.

(** [Handler], with the optional interfaces it implements; the commands without a
    reply of their own answer with an error or none, [HandleAttach] with the
    events it emitted before it. *)
Record Handler := mkHandler {
  hd_reply : Command → Args → H → result HandlerError Reply * H;
  hd_act : Command → Args → H → option HandlerError * H;
  hd_attach : Args → H → (list Bytes * option HandlerError) * H;
  hd_DriveHandler : bool;
  hd_QueryHandler : bool;
  hd_CalibrationHandler : bool;
  hd_HookHandler : bool }.

Context `{Codec} (handler : Handler).

(** What a connection did: the frames written, the handler calls made. *)
Record Outcome := mkOutcome { oc_frames : list Frame; oc_calls : list (Command * Args); oc_state : H }.

Definition refuse (p : Problem) (code : string) (h : H) : Outcome :=
  mkOutcome [Final (mkResponse false None (Some p) code)] [] h.

(** ** Responses *)

Definition errorResponse (e : HandlerError) : Response :=
  mkResponse false None (Some (HandlerFailed (he_text e))) (default "" (he_code e)).

Definition writeResult (r : result HandlerError Reply) : Response :=
  match r with
  | Err e => errorResponse e
  | Ok reply =>
      match Marshal reply with
      | None => mkResponse false None (Some MarshalFailed) ""
      | Some raw => mkResponse true (Some raw) None ""
      end
  end.

(** [Response{Ok: err == nil, Error: errString(err)}]. *)
Definition plainResponse (e : option HandlerError) : Response :=
  mkResponse (match e with None => true | _ => false end) None (HandlerFailed ∘ he_text <$> e) "".

Definition call_reply (c : Command) (a : Args) (h : H) : Outcome :=
  let '(r, h') := hd_reply handler c a h in mkOutcome [Final (writeResult r)] [(c, a)] h'.
(** The commands answered with [OKReply]. *)
Definition call_ok (c : Command) (a : Args) (h : H) : Outcome :=
  let '(e, h') := hd_act handler c a h in
  mkOutcome [Final (writeResult (match e with Some e => Err e | None => Ok OKReply end))] [(c, a)] h'.
Definition call_plain (c : Command) (a : Args) (h : H) : Outcome :=
  let '(e, h') := hd_act handler c a h in mkOutcome [Final (plainResponse e)] [(c, a)] h'.
Definition call_attach (a : Args) (h : H) : Outcome :=
  let '((events, e), h') := hd_attach handler a h in
  mkOutcome ((StreamEvent <$> events) ++ [Final (plainResponse e)]) [(CmdAttach, a)] h'.

(** ** Dispatch *)

(** [decodeArgs]: empty arguments are the zero value. *)
Definition decodeArgs (c : Command) (raw : option jtree) : option Args :=
  match raw with None => Some (ZeroArgs c) | Some t => DecodeArgs c t end.

Definition with_args (c : Command) (req : Request) (code : string) (h : H) (k : Args → H → Outcome) : Outcome :=
  match decodeArgs c (rq_Args req) with
  | None => refuse (BadArgs c) code h
  | Some a => k a h
  end.

Definition dispatchHook (req : Request) (h : H) : Outcome :=
  if (rq_ProtoVersion req <? HookProtoVersion)%Z then refuse (RequiresVersion HookProtoVersion) CodeUnsupportedCommand h
  else if negb (hd_HookHandler handler) then refuse (NotSupported CmdHookEvent) CodeUnsupportedCommand h
  else match rq_Args req ≫= DecodeStrict with
       | None => refuse (BadArgs CmdHookEvent) CodeInvalidArgs h
       | Some a => call_reply CmdHookEvent a h
       end.

Definition dispatchQuery (c : Command) (req : Request) (h : H) : Outcome :=
  if (rq_ProtoVersion req <? QueryProtoVersion)%Z then refuse (RequiresVersion QueryProtoVersion) CodeUnsupportedCommand h
  else if negb (hd_QueryHandler handler) then refuse (NotSupported c) CodeUnsupportedCommand h
  else with_args c req CodeInvalidArgs h (call_reply c).

Definition dispatchCalibration (c : Command) (req : Request) (h : H) : Outcome :=
  if (ProtoVersion <? rq_ProtoVersion req)%Z then refuse (VersionNotSupported (rq_ProtoVersion req)) CodeUnsupportedCommand h
  else if negb (hd_CalibrationHandler handler) then refuse (NotSupported c) CodeUnsupportedCommand h
  else match c with
       | CmdCalibrationPut => with_args c req CodeInvalidArgs h (call_reply c)
       | _ => call_reply c (ZeroArgs c) h
       end.

Definition dispatchDrive (c : Command) (req : Request) (h : H) : Outcome :=
  if (ProtoVersion <? rq_ProtoVersion req)%Z then refuse (VersionNotSupported (rq_ProtoVersion req)) CodeUnsupportedCommand h
  else if negb (hd_DriveHandler handler) then refuse (NotSupported c) CodeUnsupportedCommand h
  else match c with
       | CmdTaskApprove | CmdProjectConfigApply | CmdWorkerKill => with_args c req CodeInvalidArgs h (call_ok c)
       | _ => with_args c req CodeInvalidArgs h (call_reply c)
       end.

(** The switch of [handleConn]. *)
Definition dispatch (req : Request) (h : H) : Outcome :=
  match command_of (rq_Cmd req) with
  | None => refuse (UnknownCommand (rq_Cmd req)) CodeUnsupportedCommand h
  | Some c =>
      match c with
      | CmdStatus => call_reply c (ZeroArgs c) h
      | CmdEnqueue => with_args c req "" h (call_reply c)
      | CmdStop => with_args c req "" h (call_plain c)
      | CmdReloadConfig => call_plain c (ZeroArgs c) h
      | CmdAttach => with_args c req CodeInvalidArgs h call_attach
      | CmdPlanImport | CmdPlanSetStatus | CmdPlanDelete | CmdTaskApprove | CmdWorkerKill | CmdProjectEnsure
      | CmdProjectConfigGet | CmdProjectConfigApply => dispatchDrive c req h
      | CmdObserveSnapshot | CmdObserveMessages | CmdObserveTaskDescriptions => dispatchQuery c req h
      | CmdCalibrationPut | CmdCalibrationList => dispatchCalibration c req h
      | CmdHookEvent => dispatchHook req h
      end
  end.

(** The line [ReadBytes('\n')] returns of what the limited reader lets through,
    the delimiter included. *)
Fixpoint read_line (limit : N) (l : Bytes) : option Bytes :=
  match l with
  | [] => None
  | c :: r =>
      if (limit =? 0)%N then None
      else if (c =? "010")%char then Some [c]
      else cons c <$> read_line (limit - 1) r
  end.

(** [handleConn] on what the client sends; a tracked connection is assumed. *)
Definition handleConn (sent : Bytes) (h : H) : Outcome :=
  match read_line maxRequestBytes sent with
  | None => mkOutcome [] [] h
  | Some line =>
      match UnmarshalRequest line with
      | None => refuse MalformedRequest "" h
      | Some req =>
          if (ProtoVersion <? rq_ProtoVersion req)%Z
          then refuse (VersionNotSupported (rq_ProtoVersion req)) CodeUnsupportedCommand h
          else dispatch req h
      end
  end.
End Server.
Arguments Codec : clear implicits.
Arguments Handler : clear implicits.
Arguments Outcome : clear implicits.

(** * The connections of the control plane and its shutdown: [internal/ipc/server.go]

    The accept loop, the heartbeat, one handler per connection and [Stop] as one
    transition system; a step is a critical section of [connsMu], a channel
    operation or an operation on a socket. What a handler does between reading its
    request and leaving is [IpcServer]'s; here it is only a request to stop or
    not. *)

(** ** State *)

(** [handleConn]: started, registered, serving [CmdStop] with its connection
    marked, returning (the deferred [untrackConn], then the deferred [Close]),
    over. *)
Inductive handler_pc := Spawned | Serving | ServingStop | Leaving | Untracked | Gone.

(** [acceptLoop]: in [Accept], with a connection in hand, over. *)
Inductive accept_pc := Accepting | Got (c : nat) | AcceptDone.

(** [Stop]: not called, retiring the accept loop, about to [closeConns], waiting for
    the goroutines, returned. *)
Inductive stop_pc := Running | Retiring | ClosingConns | Waiting | Stopped.

#[export] Instance handler_pc_eq_dec : EqDecision handler_pc.
Proof. solve_decision. Defined.
#[export] Instance stop_pc_eq_dec : EqDecision stop_pc.
Proof. solve_decision. Defined.

(** Connections are numbered in the order of [Accept]; [sv_open] is the server's
    end, [sv_handlers] the goroutines spawned. [sv_kept] is history: the connection
    [closeConns] spared. *)
Record Server := mkServer {
  sv_stopCh : bool;
  sv_conns : gset nat;
  sv_stopConn : option nat;
  sv_open : gset nat;
  sv_next : nat;
  sv_handlers : gmap nat handler_pc;
  sv_accept : accept_pc;
  sv_heartbeat : bool;
  sv_stop : stop_pc;
  sv_kept : option nat }.

(** [NewServer] and [Start]. *)
Definition Start : Server := mkServer false ∅ None ∅ 0 ∅ Accepting true Running None.

Definition with_accept (p : accept_pc) (s : Server) : Server :=
  mkServer (sv_stopCh s) (sv_conns s) (sv_stopConn s) (sv_open s) (sv_next s) (sv_handlers s) p (sv_heartbeat s) (sv_stop s) (sv_kept s).
Definition with_handler (c : nat) (p : handler_pc) (s : Server) : Server :=
  mkServer (sv_stopCh s) (sv_conns s) (sv_stopConn s) (sv_open s) (sv_next s) (<[c := p]> (sv_handlers s)) (sv_accept s) (sv_heartbeat s) (sv_stop s) (sv_kept s).
Definition with_conns (l : gset nat) (s : Server) : Server :=
  mkServer (sv_stopCh s) l (sv_stopConn s) (sv_open s) (sv_next s) (sv_handlers s) (sv_accept s) (sv_heartbeat s) (sv_stop s) (sv_kept s).
Definition with_open (o : gset nat) (s : Server) : Server :=
  mkServer (sv_stopCh s) (sv_conns s) (sv_stopConn s) o (sv_next s) (sv_handlers s) (sv_accept s) (sv_heartbeat s) (sv_stop s) (sv_kept s).
Definition with_stop (p : stop_pc) (s : Server) : Server :=
  mkServer (sv_stopCh s) (sv_conns s) (sv_stopConn s) (sv_open s) (sv_next s) (sv_handlers s) (sv_accept s) (sv_heartbeat s) p (sv_kept s).

(** ** Operations *)

(** [trackConn]. *)
Definition trackConn (c : nat) (s : Server) : bool * Server :=
  if sv_stopCh s then (false, s) else (true, with_conns ({[ c ]} ∪ sv_conns s) s).
Definition untrackConn (c : nat) (s : Server) : Server := with_conns (sv_conns s ∖ {[ c ]}) s.
Definition markStopConn (c : nat) (s : Server) : Server :=
  mkServer (sv_stopCh s) (sv_conns s) (Some c) (sv_open s) (sv_next s) (sv_handlers s) (sv_accept s) (sv_heartbeat s) (sv_stop s) (sv_kept s).
Definition close_conn (c : nat) (s : Server) : Server := with_open (sv_open s ∖ {[ c ]}) s.

Definition spared (s : Server) : gset nat := match sv_stopConn s with Some c => {[ c ]} | None => ∅ end.

(** [closeConns]: every tracked connection but the stop requester's. *)
Definition closeConns (s : Server) : Server :=
  mkServer (sv_stopCh s) (sv_conns s) (sv_stopConn s) (sv_open s ∖ (sv_conns s ∖ spared s)) (sv_next s) (sv_handlers s)
    (sv_accept s) (sv_heartbeat s) (sv_stop s) (sv_stopConn s).

(** [Accept] returns a connection. *)
Definition accepted (s : Server) : Server :=
  mkServer (sv_stopCh s) (sv_conns s) (sv_stopConn s) ({[ sv_next s ]} ∪ sv_open s) (S (sv_next s)) (sv_handlers s)
    (Got (sv_next s)) (sv_heartbeat s) (sv_stop s) (sv_kept s).
(** What the loop does with it. *)
Definition serve_accepted (c : nat) (s : Server) : Server :=
  if sv_stopCh s then with_accept AcceptDone (close_conn c s)
  else with_accept Accepting (with_handler c Spawned s).

(** The head of [handleConn]. *)
Definition register (c : nat) (s : Server) : Server :=
  let '(tracked, s') := trackConn c s in
  if tracked then with_handler c Serving s' else with_handler c Gone (close_conn c s').

Definition close_stopCh (s : Server) : Server :=
  mkServer true (sv_conns s) (sv_stopConn s) (sv_open s) (sv_next s) (sv_handlers s) (sv_accept s) (sv_heartbeat s) Retiring (sv_kept s).
Definition heartbeat_ends (s : Server) : Server :=
  mkServer (sv_stopCh s) (sv_conns s) (sv_stopConn s) (sv_open s) (sv_next s) (sv_handlers s) (sv_accept s) false (sv_stop s) (sv_kept s).

(** The goroutines [wg] counts are over. *)
Definition joined (s : Server) : Prop :=
  sv_accept s = AcceptDone ∧ sv_heartbeat s = false ∧ ∀ c p, sv_handlers s !! c = Some p → p = Gone.

Inductive server_step : Server → Server → Prop :=
| StepAccept s : sv_accept s = Accepting → server_step s (accepted s)
(** [Accept] fails for good, or the loop finds the server stopping. *)
| StepAcceptFails s : sv_accept s = Accepting → sv_stopCh s = true → server_step s (with_accept AcceptDone s)
| StepServe s c : sv_accept s = Got c → server_step s (serve_accepted c s)
| StepRegister s c : sv_handlers s !! c = Some Spawned → server_step s (register c s)
| StepMarkStop s c : sv_handlers s !! c = Some Serving → server_step s (with_handler c ServingStop (markStopConn c s))
| StepServed s c p : sv_handlers s !! c = Some p → p = Serving ∨ p = ServingStop → server_step s (with_handler c Leaving s)
| StepUntrack s c : sv_handlers s !! c = Some Leaving → server_step s (with_handler c Untracked (untrackConn c s))
| StepClose s c : sv_handlers s !! c = Some Untracked → server_step s (with_handler c Gone (close_conn c s))
| StepHeartbeat s : sv_stopCh s = true → server_step s (heartbeat_ends s)
| StepStop s : sv_stop s = Running → server_step s (close_stopCh s)
(** The accept loop has retired, or the wait for it timed out. *)
| StepRetired s : sv_stop s = Retiring → server_step s (with_stop ClosingConns s)
| StepCloseConns s : sv_stop s = ClosingConns → server_step s (with_stop Waiting (closeConns s))
| StepStopped s : sv_stop s = Waiting → joined s → server_step s (with_stop Stopped s).

Definition reachable (s : Server) : Prop := rtc server_step Start s.
