(* ===== verification/IpcServerProps.v ===== *)
(** * One request of the control plane, proved

    Every line a client sends is answered by exactly one final frame, and reaches
    the handler at most once and only when version, capability and arguments
    admit it. *)
From S2P Require Import Prelude GoLib GoJson IpcServer.

Lemma command_of_text c : command_of (runes_of (Cmd_text c)) = Some c.
Proof. by destruct c; vm_compute. Qed.

(** ** The reference: who is let in *)

(** The least version that may use a command, when the server checks one. *)
Definition floor (c : Command) : option Z :=
  match c with
  | CmdObserveSnapshot | CmdObserveMessages | CmdObserveTaskDescriptions => Some QueryProtoVersion
  | CmdHookEvent => Some HookProtoVersion
  | _ => None
  end.

Definition version_ok (c : Command) (v : Z) : bool :=
  (v <=? ProtoVersion)%Z && match floor c with Some f => (f <=? v)%Z | None => true end.

Section Server.
Context {Args Reply H : Type} `{Codec Args Reply} (handler : Handler Args Reply H).

(** The optional interface a command belongs to is implemented. *)
Definition capable (c : Command) : bool :=
  match c with
  | CmdPlanImport | CmdPlanSetStatus | CmdPlanDelete | CmdTaskApprove | CmdWorkerKill | CmdProjectEnsure
  | CmdProjectConfigGet | CmdProjectConfigApply => hd_DriveHandler handler
  | CmdObserveSnapshot | CmdObserveMessages | CmdObserveTaskDescriptions => hd_QueryHandler handler
  | CmdCalibrationPut | CmdCalibrationList => hd_CalibrationHandler handler
  | CmdHookEvent => hd_HookHandler handler
  | _ => true
  end.

(** The arguments a command runs with: some take none whatever is sent, the hook
    needs them and no field more. *)
Definition args_of (c : Command) (raw : option jtree) : option Args :=
  match c with
  | CmdStatus | CmdReloadConfig | CmdCalibrationList => Some (ZeroArgs c)
  | CmdHookEvent => raw ≫= DecodeStrict
  | _ => decodeArgs c raw
  end.

Definition admitted (req : Request) : option (Command * Args) :=
  c ← command_of (rq_Cmd req);
  if version_ok c (rq_ProtoVersion req) && capable c then a ← args_of c (rq_Args req); Some (c, a) else None.

(** The handler's part in a command's answer: it succeeded, and what is left of
    its state. *)
Definition succeeds (c : Command) (a : Args) (h : H) : Prop :=
  match c with
  | CmdAttach => (hd_attach handler a h).1.2 = None
  | CmdStop | CmdReloadConfig => (hd_act handler c a h).1 = None
  | CmdTaskApprove | CmdProjectConfigApply | CmdWorkerKill => (hd_act handler c a h).1 = None ∧ Marshal OKReply ≠ None
  | _ => ∃ reply, (hd_reply handler c a h).1 = Ok reply ∧ Marshal reply ≠ None
  end.

Definition state_after (c : Command) (a : Args) (h : H) : H :=
  match c with
  | CmdAttach => (hd_attach handler a h).2
  | CmdStop | CmdReloadConfig | CmdTaskApprove | CmdProjectConfigApply | CmdWorkerKill => (hd_act handler c a h).2
  | _ => (hd_reply handler c a h).2
  end.

Definition events_of (c : Command) (a : Args) (h : H) : list Bytes :=
  match c with CmdAttach => (hd_attach handler a h).1.1 | _ => [] end.

(** The answer to an admitted command. *)
Definition answered (c : Command) (a : Args) (h : H) (o : Outcome Args H) : Prop :=
  ∃ resp, oc_frames o = (StreamEvent <$> events_of c a h) ++ [Final resp] ∧ oc_calls o = [(c, a)] ∧
    oc_state o = state_after c a h ∧ (rs_Ok resp = true ↔ succeeds c a h) ∧ (rs_Ok resp = true ↔ rs_Error resp = None).

(** A refusal: nothing was called. *)
Definition refused (h : H) (o : Outcome Args H) : Prop :=
  ∃ p code, o = refuse p code h.

Lemma writeResult_ok r : (rs_Ok (writeResult r) = true ↔ ∃ reply, r = Ok reply ∧ Marshal reply ≠ None) ∧
  (rs_Ok (writeResult r) = true ↔ rs_Error (writeResult r) = None).
Proof. destruct r as [reply|e]; simpl; [destruct (Marshal reply) eqn:Hm|]; naive_solver. Qed.

Lemma plainResponse_ok e : (rs_Ok (plainResponse e) = true ↔ e = None) ∧
  (rs_Ok (plainResponse e) = true ↔ rs_Error (plainResponse e) = None).
Proof. destruct e; naive_solver. Qed.

Lemma answered_reply c a h :
  events_of c a h = [] → state_after c a h = (hd_reply handler c a h).2 →
  (succeeds c a h ↔ ∃ reply, (hd_reply handler c a h).1 = Ok reply ∧ Marshal reply ≠ None) →
  answered c a h (call_reply handler c a h).
Proof.
  intros He Hs Hok. unfold answered, call_reply. rewrite He, Hs. destruct (hd_reply handler c a h) as [r h'].
  exists (writeResult r). rewrite Hok. split_and!; try done; apply writeResult_ok.
Qed.

Lemma answered_ok c a h :
  events_of c a h = [] → state_after c a h = (hd_act handler c a h).2 →
  (succeeds c a h ↔ (hd_act handler c a h).1 = None ∧ Marshal OKReply ≠ None) →
  answered c a h (call_ok handler c a h).
Proof.
  intros He Hs Hok. unfold answered, call_ok. rewrite He, Hs. destruct (hd_act handler c a h) as [e h'].
  eexists. rewrite Hok. split_and!; [done|done|done| |apply writeResult_ok]. rewrite (proj1 (writeResult_ok _)). destruct e; naive_solver.
Qed.

Lemma answered_plain c a h :
  events_of c a h = [] → state_after c a h = (hd_act handler c a h).2 →
  (succeeds c a h ↔ (hd_act handler c a h).1 = None) →
  answered c a h (call_plain handler c a h).
Proof.
  intros He Hs Hok. unfold answered, call_plain. rewrite He, Hs. destruct (hd_act handler c a h) as [e h'].
  exists (plainResponse e). rewrite Hok. split_and!; try done; apply plainResponse_ok.
Qed.

Lemma answered_attach a h : answered CmdAttach a h (call_attach handler a h).
Proof.
  unfold answered, call_attach, events_of, state_after, succeeds. destruct (hd_attach handler a h) as [[events e] h'].
  exists (plainResponse e). split_and!; try done; apply plainResponse_ok.
Qed.

(** What dispatch owes a request: the answer of the admitted command, or a
    refusal. *)
Definition owed (req : Request) (h : H) (o : Outcome Args H) : Prop :=
  match admitted req with Some (c, a) => answered c a h o | None => refused h o end.

Lemma with_args_owed c req code h k a0 : args_of c (rq_Args req) = a0 → decodeArgs c (rq_Args req) = a0 →
  (∀ a, answered c a h (k a h)) →
  match a0 with Some a => answered c a h (with_args c req code h k) | None => refused h (with_args c req code h k) end.
Proof. intros <- Hd Hk. unfold with_args. rewrite Hd. destruct (args_of c (rq_Args req)); [apply Hk|]. by eexists _, _. Qed.

Lemma dispatch_owed req h : (rq_ProtoVersion req <=? ProtoVersion)%Z = true → owed req h (dispatch handler req h).
Proof.
  intros Hv. unfold owed, admitted, dispatch. destruct (command_of (rq_Cmd req)) as [c|]; cbn [mbind option_bind]; [|by eexists _, _].
  assert (Hnot : (ProtoVersion <? rq_ProtoVersion req)%Z = false) by (apply Z.leb_le in Hv; by apply Z.ltb_ge).
  assert (Hlow : ∀ f, (rq_ProtoVersion req <? f)%Z = negb (f <=? rq_ProtoVersion req)%Z) by (intros f; by rewrite Z.leb_antisym, negb_involutive).
  unfold version_ok. rewrite Hv. cbn [andb].
  destruct c; cbn [floor capable andb]; unfold dispatchDrive, dispatchQuery, dispatchCalibration, dispatchHook; rewrite ?Hnot, ?Hlow;
    repeat match goal with |- context [if negb ?b then _ else _] => destruct b; cbn [negb andb] end;
    try (by eexists _, _); cbn [args_of mbind option_bind].
  all: try (by apply answered_reply); try (by apply answered_plain).
  all: try (unfold with_args; destruct (decodeArgs _ (rq_Args req)); cbn [option_bind]; [|by eexists _, _];
            first [apply answered_attach | by apply answered_reply | by apply answered_ok | by apply answered_plain]).
  destruct (rq_Args req) as [t|]; cbn [option_bind mbind]; [|by eexists _, _].
  destruct (DecodeStrict t); [by apply answered_reply|by eexists _, _].
Qed.

(** C13: Whatever a client sends, the control plane answers a complete line with
    exactly one final frame and anything less with none; only an attach has stream
    events before it. The handler is called for at most one command, and exactly
    when the request decodes, its version is one the server speaks and not below
    the command's floor, the handler implements the command's interface and the
    arguments decode; then the response is ok exactly when the handler succeeded
    and its reply encodes, otherwise the handler's state is untouched and the
    response is an error. *)
Theorem request_is_answered_once (sent : Bytes) (h : H) :
  let o := handleConn handler sent h in
  match read_line maxRequestBytes sent with
  | None => oc_frames o = [] ∧ oc_calls o = [] ∧ oc_state o = h
  | Some line =>
      match UnmarshalRequest line ≫= admitted with
      | Some (c, a) => answered c a h o
      | None => ∃ p code, oc_frames o = [Final (mkResponse false None (Some p) code)] ∧ oc_calls o = [] ∧ oc_state o = h
      end
  end.
Proof.
  cbn zeta. unfold handleConn. destruct (read_line maxRequestBytes sent) as [line|]; [|done].
  destruct (UnmarshalRequest line) as [req|]; cbn [mbind option_bind]; [|by eexists _, _].
  destruct (Z.ltb_spec ProtoVersion (rq_ProtoVersion req)) as [Hnew|Hold].
  - assert (Hno : admitted req = None).
    { unfold admitted. destruct (command_of _); [|done]. cbn [mbind option_bind]. unfold version_ok.
      by rewrite (proj2 (Z.leb_gt _ _)) by done. }
    rewrite Hno. by eexists _, _.
  - pose proof (dispatch_owed req h (proj2 (Z.leb_le _ _) Hold)) as Ho. unfold owed in Ho.
    destruct (admitted req) as [[c a]|]; [done|]. destruct Ho as (p & code & ->). by exists p, code.
Qed.

(** Unreadable arguments of these two commands are refused without the class the
    other commands answer with. *)
Lemma enqueue_and_stop_refuse_without_code req t h c :
  c = CmdEnqueue ∨ c = CmdStop → rq_Cmd req = runes_of (Cmd_text c) → rq_Args req = Some t → DecodeArgs c t = None →
  dispatch handler req h = refuse (BadArgs c) "" h.
Proof.
  intros Hc Hcmd Ht Hd. unfold dispatch, with_args, decodeArgs. rewrite Hcmd, command_of_text, Ht.
  by destruct Hc as [-> | ->]; rewrite Hd.
Qed.
End Server.

(** * Shutdown of the control plane, proved *)

(** ** The invariant *)

(** A handler whose connection is registered. *)
Definition registered (p : handler_pc) : bool :=
  match p with Serving | ServingStop | Leaving => true | _ => false end.

(** [closeConns] has run. *)
Definition swept (s : Server) : bool := match sv_stop s with Waiting | Stopped => true | _ => false end.

Record server_inv (s : Server) : Prop := {
  iv_fresh c : c ∈ sv_open s ∨ is_Some (sv_handlers s !! c) → c < sv_next s;
  iv_got c : sv_accept s = Got c → c < sv_next s ∧ sv_handlers s !! c = None ∧ c ∈ sv_open s;
  iv_conns c : c ∈ sv_conns s ↔ ∃ p, sv_handlers s !! c = Some p ∧ registered p = true;
  iv_gone c : sv_handlers s !! c = Some Gone → c ∉ sv_open s;
  iv_opened c : c ∈ sv_open s → sv_accept s = Got c ∨ ∃ p, sv_handlers s !! c = Some p ∧ p ≠ Gone;
  iv_stopCh : sv_stopCh s = true ↔ sv_stop s ≠ Running;
  iv_marked c : sv_stopConn s = Some c ∨ sv_kept s = Some c →
    ∃ p, sv_handlers s !! c = Some p ∧ p ≠ Spawned ∧ p ≠ Serving;
  iv_before c p : swept s = false → sv_handlers s !! c = Some p → p ≠ Gone → c ∈ sv_open s;
  iv_after c : swept s = true → c ∈ sv_conns s → c ∈ sv_open s → sv_kept s = Some c;
  iv_kept c p : swept s = true → sv_kept s = Some c → sv_handlers s !! c = Some p → p ≠ Gone → c ∈ sv_open s;
  iv_unswept : swept s = false → sv_kept s = None;
  iv_stopped : sv_stop s = Stopped → joined s }.

Lemma server_inv_start : server_inv Start.
Proof.
  split; cbn; try done.
  - intros c [Hc|[? Hc]]; [set_solver|]. by rewrite lookup_empty in Hc.
  - intros c. split; [set_solver|]. intros (p & Hp & _). by rewrite lookup_empty in Hp.
  - by intros c [?|?].
Qed.

(** The cases of a lookup after one handler moved. *)
Ltac moved Hp :=
  rewrite lookup_insert in Hp; case_decide; simplify_eq.

(** A handler moves on, and the rest of what the invariant reads is given. *)
Lemma inv_move s s' c p p' : server_inv s → sv_handlers s !! c = Some p →
  sv_handlers s' = <[c := p']> (sv_handlers s) →
  sv_stopCh s' = sv_stopCh s → sv_next s' = sv_next s → sv_accept s' = sv_accept s → sv_stop s' = sv_stop s → sv_kept s' = sv_kept s →
  sv_stop s ≠ Stopped →
  (∀ d, d ∈ sv_conns s' ↔ (d = c ∧ registered p' = true) ∨ (d ≠ c ∧ d ∈ sv_conns s)) →
  (∀ d, d ∈ sv_open s' ↔ d ∈ sv_open s ∧ (d = c → p' ≠ Gone)) →
  (sv_stopConn s' = sv_stopConn s ∨ sv_stopConn s' = Some c) →
  (p = Gone → p' = Gone) → p' ≠ Spawned → (p' = Serving → p = Spawned ∧ sv_stopConn s' = sv_stopConn s) →
  (swept s = true → registered p' = true → registered p = true) →
  server_inv s'.
Proof.
  intros [Hfresh Hgot Hconns Hgone Hopened Hch Hmark Hbef Haft Hkept Hun Hst] Hc Hh Hch' Hn Ha Hs Hk Hns Hco Hop Hsc HpG HnS HpS Hreg.
  assert (Hsw : swept s' = swept s) by (unfold swept; by rewrite Hs).
  split; rewrite ?Hch', ?Hn, ?Ha, ?Hs, ?Hk, ?Hsw.
  - intros d [Hd|[q Hd]]; [apply Hop in Hd as [Hd _]; apply Hfresh; by left|]. rewrite Hh in Hd.
    apply Hfresh. right. moved Hd; by eauto.
  - intros d Hd. destruct (Hgot d Hd) as (? & Hnone & Ho). assert (c ≠ d) by congruence.
    split_and!; [done|by rewrite Hh, lookup_insert_ne|]. apply Hop. split; [done|congruence].
  - intros d. rewrite Hco, Hh. split.
    + intros [[-> Hr]|[Hne Hd]]; [exists p'; by rewrite lookup_insert_eq|]. rewrite lookup_insert_ne by done. by apply Hconns.
    + intros (q & Hq & Hr). moved Hq; [by left|right]. split; [congruence|]. apply Hconns. eauto.
  - intros d Hd. rewrite Hh in Hd. rewrite Hop. moved Hd; [naive_solver|]. intros [Ho _]. by eapply Hgone.
  - intros d [Hd Hdc]%Hop. rewrite Hh. destruct (decide (d = c)) as [->|Hne].
    + right. exists p'. rewrite lookup_insert_eq. auto.
    + rewrite lookup_insert_ne by done. auto.
  - done.
  - intros d Hd. rewrite Hh. destruct (decide (d = c)) as [->|Hne].
    + exists p'. rewrite lookup_insert_eq. split_and!; [done|done|]. intros Hser. destruct (HpS Hser) as [-> Heq]. rewrite Heq in Hd.
      destruct (Hmark c Hd) as (q & Hq & ? & _). congruence.
    + rewrite lookup_insert_ne by done. apply Hmark. destruct Hd as [Hd|Hd]; [|by right]. destruct Hsc as [Heq|Heq]; [left; congruence|].
      congruence.
  - intros d q Hsf Hq Hng. rewrite Hop. rewrite Hh in Hq. moved Hq.
    + split; [|done]. apply (Hbef d p); auto.
    + split; [by eapply Hbef|]. congruence.
  - intros d Hst' Hd [Ho Hdc]%Hop. apply Hco in Hd as [[-> Hr]|[_ Hd]]; [|by apply Haft]. apply Haft; [done| |done].
    apply Hconns. exists p. split; [done|]. by apply Hreg.
  - intros d q Hst' Hkd Hq Hng. rewrite Hop. rewrite Hh in Hq. moved Hq.
    + split; [|done]. apply (Hkept d p); auto.
    + split; [by eapply Hkept|]. congruence.
  - done.
  - done.
Qed.

Lemma handler_not_stopped s c p : server_inv s → sv_handlers s !! c = Some p → p ≠ Gone → sv_stop s ≠ Stopped.
Proof. intros Hinv Hc Hp Hst. destruct (iv_stopped s Hinv Hst) as (_ & _ & Hall). by apply Hp, (Hall c). Qed.

Lemma inv_register s c : server_inv s → sv_handlers s !! c = Some Spawned → server_inv (register c s).
Proof.
  intros Hinv Hc. pose proof (handler_not_stopped s c _ Hinv Hc ltac:(done)) as Hns.
  assert (Hnc : c ∉ sv_conns s) by (intros (p & Hp & Hr)%(iv_conns s Hinv); simplify_eq).
  unfold register, trackConn. destruct (sv_stopCh s) eqn:Hch.
  - apply (inv_move s _ c Spawned Gone Hinv Hc); cbn; try done; [|set_solver|by left].
    intros d. split; [intros Hd; right; split; [congruence|done]|]. naive_solver.
  - assert (Hrun : sv_stop s = Running).
    { destruct (decide (sv_stop s = Running)); [done|]. assert (sv_stopCh s = true) by (by apply (iv_stopCh s Hinv)). congruence. }
    apply (inv_move s _ c Spawned Serving Hinv Hc); cbn; try done; [|set_solver|by left|unfold swept; by rewrite Hrun].
    intros d. rewrite elem_of_union, elem_of_singleton. destruct (decide (d = c)); naive_solver.
Qed.

Lemma inv_serve s c : server_inv s → sv_accept s = Got c → server_inv (serve_accepted c s).
Proof.
  intros Hinv Hac. pose proof (iv_got s Hinv c Hac) as (Hlt & Hnone & Hopen).
  assert (Hns : sv_stop s ≠ Stopped) by (intros Hst; destruct (iv_stopped s Hinv Hst) as (? & _); congruence).
  destruct Hinv as [Hfresh Hgot Hconns Hgone Hopened Hch Hmark Hbef Haft Hkept Hun Hst].
  assert (Hnc : c ∉ sv_conns s) by (intros (p & Hp & _)%Hconns; congruence).
  unfold serve_accepted. destruct (sv_stopCh s) eqn:Hstop; split; cbn; try done.
  - intros d [Hd|Hd]; apply Hfresh; [left; set_solver|by right].
  - intros d Hd Ho. apply (Hgone d Hd). set_solver.
  - intros d Hd. right. destruct (Hopened d) as [Heq|?]; [set_solver| |done]. assert (d = c) by congruence. set_solver.
  - by rewrite Hstop.
  - intros d p ? Hp ?. apply elem_of_difference. split; [by eapply Hbef|]. intros ->%elem_of_singleton. congruence.
  - intros d ? Hd Ho. apply Haft; [done|done|set_solver].
  - intros d p ? ? Hp ?. apply elem_of_difference. split; [by eapply Hkept|]. intros ->%elem_of_singleton. congruence.
  - intros d [Hd|[q Hd]]; [apply Hfresh; by left|]. moved Hd; [done|]. apply Hfresh. right. by eexists.
  - intros d. rewrite Hconns. split.
    + intros (p & Hp & ?). exists p. rewrite lookup_insert_ne by congruence. done.
    + intros (p & Hp & ?). moved Hp. eauto.
  - intros d Hd. moved Hd. by apply Hgone.
  - intros d Hd. right. destruct (decide (d = c)) as [->|Hne]; [exists Spawned; by rewrite lookup_insert_eq|].
    rewrite lookup_insert_ne by done. destruct (Hopened d Hd) as [?|?]; [congruence|done].
  - by rewrite Hstop.
  - intros d Hd. destruct (Hmark d Hd) as (p & Hp & ?). exists p. rewrite lookup_insert_ne by congruence. done.
  - intros d p ? Hp ?. moved Hp; [|by eapply Hbef]. done.
  - intros d p ? ? Hp ?. moved Hp; [|by eapply Hkept]. destruct (Hmark d) as (q & Hq & _); [by right|congruence].
Qed.

Lemma not_stopped_accepting s : server_inv s → sv_accept s ≠ AcceptDone → sv_stop s ≠ Stopped.
Proof. intros Hinv Ha Hst. destruct (iv_stopped s Hinv Hst) as (? & _). congruence. Qed.

Lemma inv_accept s : server_inv s → sv_accept s = Accepting → server_inv (accepted s).
Proof.
  intros Hinv Hac. pose proof (not_stopped_accepting s Hinv ltac:(congruence)) as Hns.
  destruct Hinv as [Hfresh Hgot Hconns Hgone Hopened Hch Hmark Hbef Haft Hkept Hun Hst].
  assert (Hnew : ∀ p, sv_handlers s !! sv_next s = Some p → False).
  { intros p Hp. assert (sv_next s < sv_next s); [|lia]. apply Hfresh. right. by eexists. }
  split; cbn; try done.
  - intros c [Hc|Hc].
    + apply elem_of_union in Hc as [->%elem_of_singleton|Hc]; [lia|]. assert (c < sv_next s) by (apply Hfresh; by left). lia.
    + assert (c < sv_next s) by (apply Hfresh; by right). lia.
  - intros c [= <-]. split_and!; [lia| |set_solver]. apply eq_None_not_Some. intros [p Hp]. exact (Hnew p Hp).
  - intros c Hc [->%elem_of_singleton|Ho]%elem_of_union; [exact (Hnew _ Hc)|exact (Hgone c Hc Ho)].
  - intros c [->%elem_of_singleton|Ho]%elem_of_union; [by left|right]. destruct (Hopened c Ho) as [?|?]; [congruence|done].
  - intros c p ? Hp ?. apply elem_of_union. right. by eapply Hbef.
  - intros c ? Hc [->%elem_of_singleton|Ho]%elem_of_union; [|by apply Haft].
    apply Hconns in Hc as (p & Hp & _). by destruct (Hnew p).
  - intros c p ? ? Hp ?. apply elem_of_union. right. by eapply Hkept.
Qed.

Lemma inv_accept_fails s : server_inv s → sv_accept s = Accepting → server_inv (with_accept AcceptDone s).
Proof.
  intros Hinv Hac. pose proof (not_stopped_accepting s Hinv ltac:(congruence)) as Hns.
  destruct Hinv as [Hfresh Hgot Hconns Hgone Hopened Hch Hmark Hbef Haft Hkept Hun Hst].
  split; cbn; try done. intros c Hc. right. destruct (Hopened c Hc) as [?|?]; [congruence|done].
Qed.

Lemma inv_mark_stop s c : server_inv s → sv_handlers s !! c = Some Serving →
  server_inv (with_handler c ServingStop (markStopConn c s)).
Proof.
  intros Hinv Hc. pose proof (handler_not_stopped s c _ Hinv Hc ltac:(done)) as Hns.
  apply (inv_move s _ c Serving ServingStop Hinv Hc); cbn; try done; [|set_solver|by right].
  intros d. assert (c ∈ sv_conns s) by (apply (iv_conns s Hinv); eauto). destruct (decide (d = c)); naive_solver.
Qed.

Lemma inv_served s c p : server_inv s → sv_handlers s !! c = Some p → p = Serving ∨ p = ServingStop →
  server_inv (with_handler c Leaving s).
Proof.
  intros Hinv Hc Hp. assert (Hreg : registered p = true) by (by destruct Hp; subst).
  pose proof (handler_not_stopped s c _ Hinv Hc ltac:(by intros ->)) as Hns.
  apply (inv_move s _ c p Leaving Hinv Hc); cbn; try done; [|set_solver|by left|by intros ->].
  intros d. assert (c ∈ sv_conns s) by (apply (iv_conns s Hinv); eauto). destruct (decide (d = c)); naive_solver.
Qed.

Lemma inv_untrack s c : server_inv s → sv_handlers s !! c = Some Leaving →
  server_inv (with_handler c Untracked (untrackConn c s)).
Proof.
  intros Hinv Hc. pose proof (handler_not_stopped s c _ Hinv Hc ltac:(done)) as Hns.
  apply (inv_move s _ c Leaving Untracked Hinv Hc); cbn; try done; [|set_solver|by left]. intros d. set_solver.
Qed.

Lemma inv_close s c : server_inv s → sv_handlers s !! c = Some Untracked →
  server_inv (with_handler c Gone (close_conn c s)).
Proof.
  intros Hinv Hc. pose proof (handler_not_stopped s c _ Hinv Hc ltac:(done)) as Hns.
  assert (Hnc : c ∉ sv_conns s) by (intros (p & Hp & Hr)%(iv_conns s Hinv); simplify_eq).
  apply (inv_move s _ c Untracked Gone Hinv Hc); cbn; try done; [|set_solver|by left].
  intros d. split; [intros Hd; right; split; [congruence|done]|]. naive_solver.
Qed.

Lemma inv_close_conns s : server_inv s → sv_stop s = ClosingConns → server_inv (with_stop Waiting (closeConns s)).
Proof.
  intros [Hfresh Hgot Hconns Hgone Hopened Hch Hmark Hbef Haft Hkept Hun Hst] Hs.
  assert (Hsw : swept s = false) by (unfold swept; by rewrite Hs).
  split; cbn; try done.
  - intros c [Hc|Hc]; apply Hfresh; [left; set_solver|by right].
  - intros c Hc. destruct (Hgot c Hc) as (? & Hnone & ?). split_and!; [done|done|]. apply elem_of_difference. split; [done|].
    intros [(p & Hp & _)%Hconns _]%elem_of_difference. congruence.
  - intros c Hc Ho. apply (Hgone c Hc). set_solver.
  - intros c Hc. apply Hopened. set_solver.
  - rewrite Hch, Hs. naive_solver.
  - intros c Hc. apply Hmark. left. by destruct Hc.
  - intros c _ Hc Ho. apply elem_of_difference in Ho as [_ Ho]. unfold spared in Ho. destruct (sv_stopConn s) as [k|]; [|set_solver].
    destruct (decide (c = k)) as [->|]; [done|]. set_solver.
  - intros c p _ Hk Hp Hng. apply elem_of_difference. split; [by eapply Hbef|]. unfold spared. rewrite Hk. set_solver.
Qed.

(** [Stop]'s other steps touch no connection. *)
Lemma inv_stop_pc s s' : server_inv s → swept s' = swept s → sv_conns s' = sv_conns s → sv_stopConn s' = sv_stopConn s →
  sv_open s' = sv_open s → sv_next s' = sv_next s → sv_handlers s' = sv_handlers s → sv_accept s' = sv_accept s →
  sv_kept s' = sv_kept s → (sv_stopCh s' = true ↔ sv_stop s' ≠ Running) → (sv_stop s' = Stopped → joined s') → server_inv s'.
Proof.
  intros [Hfresh Hgot Hconns Hgone Hopened Hch Hmark Hbef Haft Hkept Hun Hst] Hsw Hc Hsc Ho Hn Hh Ha Hk Hch' Hst'.
  split; rewrite ?Hsw, ?Hc, ?Hsc, ?Ho, ?Hn, ?Hh, ?Ha, ?Hk; done.
Qed.

Lemma server_inv_step s s' : server_inv s → server_step s s' → server_inv s'.
Proof.
  intros Hinv Hstep. destruct Hstep as [s Ha|s Ha Hch|s c Ha|s c Hc|s c Hc|s c p Hc Hp|s c Hc|s c Hc|s Hch|s Hs|s Hs|s Hs|s Hs Hj].
  - by apply inv_accept.
  - by apply inv_accept_fails.
  - by apply inv_serve.
  - by apply inv_register.
  - by apply inv_mark_stop.
  - by eapply inv_served.
  - by apply inv_untrack.
  - by apply inv_close.
  - apply (inv_stop_pc s); try done; [apply (iv_stopCh s Hinv)|]. intros Hst. destruct (iv_stopped s Hinv Hst) as (? & ? & ?). by split_and!.
  - apply (inv_stop_pc s); try done. unfold swept. by rewrite Hs.
  - apply (inv_stop_pc s); try done; [unfold swept; by rewrite Hs|]. cbn. split; [done|]. intros _. apply (iv_stopCh s Hinv). by rewrite Hs.
  - by apply inv_close_conns.
  - apply (inv_stop_pc s); try done; [unfold swept; by rewrite Hs|]. cbn. split; [done|]. intros _. apply (iv_stopCh s Hinv). by rewrite Hs.
Qed.

Lemma server_reachable_inv s : reachable s → server_inv s.
Proof. revert s. apply rtc_ind_r; [apply server_inv_start|]. intros s s' _ Hstep Hinv. by eapply server_inv_step. Qed.

(** ** What shutdown promises *)

(** C14: However accepting, serving and [Stop] interleave: once [Stop] has begun no
    connection is registered any more; after [closeConns] every connection still
    registered is closed except the one whose stop request it spared, and that one
    stays open until its own handler lets it go, so its response can be written;
    and when [Stop] returns the accept loop, the heartbeat and every handler are
    over, no connection is registered and none is open. *)
Theorem stop_drains_connections s : reachable s →
  (∀ s', sv_stopCh s = true → server_step s s' → sv_conns s' ⊆ sv_conns s) ∧
  (swept s = true → ∀ c, c ∈ sv_conns s → c ∈ sv_open s → sv_kept s = Some c) ∧
  (∀ c p, sv_kept s = Some c → sv_handlers s !! c = Some p → p ≠ Gone → c ∈ sv_open s) ∧
  (sv_stop s = Stopped → joined s ∧ sv_conns s = ∅ ∧ sv_open s = ∅).
Proof.
  intros Hr. pose proof (server_reachable_inv s Hr) as Hinv. split_and!.
  - intros s' Hch Hstep. destruct Hstep; cbn; try done; unfold serve_accepted, register, trackConn; rewrite ?Hch; cbn; set_solver.
  - intros Hsw c. by apply (iv_after s Hinv).
  - intros c p Hk. destruct (swept s) eqn:Hsw; [by apply (iv_kept s Hinv)|]. by rewrite (iv_unswept s Hinv Hsw) in Hk.
  - intros Hst. pose proof (iv_stopped s Hinv Hst) as Hj. split_and!; [done|..]; apply set_eq; intros c; split; try set_solver; intros Hc; exfalso.
    + apply (iv_conns s Hinv) in Hc as (p & Hp & Hreg). destruct Hj as (_ & _ & Hall). by rewrite (Hall c p Hp) in Hreg.
    + destruct Hj as (Ha & _ & Hall). destruct (iv_opened s Hinv c Hc) as [?|(p & Hp & Hng)]; [congruence|]. by apply Hng, (Hall c).
Qed.

(** ** A shutdown asked for over a connection *)

Definition stopping_server : Server :=
  mkServer true {[ 0; 1 ]} (Some 1) {[ 1 ]} 2 {[ 0 := Serving; 1 := ServingStop ]} AcceptDone true Waiting (Some 1).

Lemma stopping_server_reachable : reachable stopping_server.
Proof.
  assert (Hr : ∃ s, reachable s ∧ s = stopping_server); [|by destruct Hr as (? & ? & <-)].
  eexists. split.
  - unfold reachable, Start.
    eapply rtc_l; [by apply StepAccept|]. eapply rtc_l; [by apply (StepServe _ 0)|].
    eapply rtc_l; [by apply (StepRegister _ 0)|]. eapply rtc_l; [by apply StepAccept|].
    eapply rtc_l; [by apply (StepServe _ 1)|]. eapply rtc_l; [by apply (StepRegister _ 1)|].
    eapply rtc_l; [by apply (StepMarkStop _ 1)|]. eapply rtc_l; [by apply StepStop|].
    eapply rtc_l; [by apply StepAcceptFails|]. eapply rtc_l; [by apply StepRetired|].
    eapply rtc_l; [by apply StepCloseConns|]. apply rtc_refl.
  - by vm_compute.
Qed.

Lemma stop_drains_connections_witness : reachable stopping_server ∧ 1 ∈ sv_open stopping_server.
Proof.
  split; [exact stopping_server_reachable|].
  destruct (stop_drains_connections stopping_server stopping_server_reachable) as (_ & _ & Hkept & _).
  exact (Hkept 1 ServingStop eq_refl eq_refl ltac:(discriminate)).
Defined.
