(* ===== verification/Declarative.v ===== *)
(** * Declarative providers: [internal/provider/declarative.go], [exec.go]

    A provider described by configuration alone: the trust in its binary, the
    argument templates and their tokens, the attempts of a turn and the bounded
    reading of a stream of JSON records. Commands, temporary files, regular
    expressions and the search path are the environment's. *)
From S2P Require Import Prelude GoLib Provider GoJson.

Definition declarativePlainStdout : string := "plain-stdout".
Definition declarativeLastMessageFile : string := "last-message-file".
Definition declarativeStreamJSON : string := "stream-json".
Definition maxStructuredEvidenceBytes : Z := 16777216.
Definition maxAuthoritativeResultBytes : Z := 16777216.

Definition declarativeTokens : list string :=
  ["allowed_tools"; "effort"; "model"; "output_file"; "prompt"; "prompt_file"; "schema_file"; "system_prompt";
   "user_prompt"; "working_dir"].

(** ** Argument templates *)

Inductive TemplateError := ErrUnterminatedToken (input : Bytes) | ErrUnknownToken (token : string).

(** What [strings.Index] of one byte splits: the text before it and behind it. *)
Fixpoint split_at (c : Ascii.ascii) (l : Bytes) : option (Bytes * Bytes) :=
  match l with
  | [] => None
  | x :: r => if (x =? c)%char then Some ([], r) else '(a, b) ← split_at c r; Some (x :: a, b)
  end.

Definition OPEN : Ascii.ascii := "{"%char.
Definition CLOSE : Ascii.ascii := "}"%char.

(** [validateArgTemplate]: every round drops the text up to a closing brace, so the
    length is fuel enough ([validate_fuel]). *)
Fixpoint validate_from (fuel : nat) (input : Bytes) : option TemplateError :=
  match fuel with
  | 0 => None
  | S n =>
      match split_at OPEN input with
      | None => None
      | Some (_, rest) =>
          match split_at CLOSE rest with
          | None => Some (ErrUnterminatedToken input)
          | Some (token, rest') =>
              if bool_decide (of_chars token ∈ declarativeTokens) then validate_from n rest'
              else Some (ErrUnknownToken (of_chars token))
          end
      end
  end.
Definition validateArgTemplate (input : string) : option TemplateError :=
  validate_from (S (String.length input)) (chars input).

(** The loop of [renderArgTemplate]; an absent token is the empty string. *)
Fixpoint render_from (fuel : nat) (input : Bytes) (tokens : gmap string string) : Bytes :=
  match fuel with
  | 0 => []
  | S n =>
      match split_at OPEN input with
      | None => input
      | Some (before, rest) =>
          match split_at CLOSE rest with
          | None => before
          | Some (token, rest') => before ++ chars (default "" (tokens !! of_chars token)) ++ render_from n rest' tokens
          end
      end
  end.
Definition renderArgTemplate (input : string) (tokens : gmap string string) : result TemplateError string :=
  match validateArgTemplate input with
  | Some e => Err e
  | None => Ok (of_chars (render_from (S (String.length input)) (chars input) tokens))
  end.

Fixpoint renderArgTemplates (args : list string) (tokens : gmap string string) : result TemplateError (list string) :=
  match args with
  | [] => Ok []
  | arg :: args' =>
      try rendered := renderArgTemplate arg tokens in
      try out := renderArgTemplates args' tokens in
      Ok (rendered :: out)
  end.

(** ** Prompts and tokens *)

(** The fields of [Request] the runner renders. *)
Record Prompting := mkPrompting {
  pg_SystemPrompt : string; pg_UserPrompt : string; pg_Effort : string; pg_AllowedTools : list string; pg_WorkingDir : string }.

Definition newline : string := char_str "010"%char.

Definition combinePrompt (req : Prompting) : string :=
  let system := if decide (pg_SystemPrompt req = "") then ""
                else "SYSTEM INSTRUCTIONS:" +:+ newline +:+ pg_SystemPrompt req +:+ newline +:+ newline in
  let effort := if decide (pg_Effort req = "") then ""
                else "REASONING EFFORT TARGET: " +:+ pg_Effort req +:+ newline +:+ newline in
  TrimSpace (system +:+ effort +:+ "USER TASK:" +:+ newline +:+ pg_UserPrompt req).

Definition declarativeTokenValues (req : Prompting) (invocation : Invocation) (promptPath schemaPath outputPath : string)
    : gmap string string :=
  list_to_map
    [("allowed_tools", Join "," (pg_AllowedTools req)); ("effort", iv_effort invocation); ("model", iv_model invocation);
     ("output_file", outputPath); ("prompt", combinePrompt req); ("prompt_file", promptPath); ("schema_file", schemaPath);
     ("system_prompt", pg_SystemPrompt req); ("user_prompt", pg_UserPrompt req); ("working_dir", pg_WorkingDir req)].

(** The output path and the argument vector of an attempt; [tempOutput] is the file
    made when the binding names none. *)
Definition attempt_command (binding : Binding) (req : Prompting) (invocation : Invocation) (promptPath schemaPath tempOutput : string)
    : result TemplateError (string * list string) :=
  let cfg := bd_config binding in
  let outputPath := if decide (bc_type cfg = declarativeLastMessageFile) then or_else (bc_output_file cfg) tempOutput else "" in
  let tokens := declarativeTokenValues req invocation promptPath schemaPath outputPath in
  try located := (if decide (outputPath = "") then Ok (outputPath, tokens)
                  else try rendered := renderArgTemplate outputPath tokens in
                       Ok (rendered, <["output_file" := rendered]> tokens)) in
  try args := renderArgTemplates (bc_args cfg) located.2 in
  Ok (located.1, match args with [] => [combinePrompt req] | _ => args end).

(** ** Validation of a binding *)

Definition shippedProviderBinaries : gset string := {[ "claude"; "codex"; "opencode"; "copilot" ]}.

(** [regexp.Compile] and [exec.LookPath] succeed. *)
Class Environment := { regexp_compiles : string → bool; on_path : string → bool }.

Inductive BindingProblem :=
| ErrUntrustedBinary (bin : string)
| ErrUnsupportedType (type_ : string)
| ErrBinaryRequired
| ErrTemplate (e : TemplateError)
| ErrNoOutputFile
| ErrSessionRegex
| ErrNotOnPath (bin : string)
| ErrTurnLimits (e : TimeoutError).

Definition validateBinaryTrust (binding : Binding) : option BindingProblem :=
  let bin := bc_binary (bd_config binding) in
  if bool_decide (bin = "") || bd_from_local binding then None
  else if bool_decide (bin ∈ shippedProviderBinaries) then None
  else Some (ErrUntrustedBinary bin).

Fixpoint first_template_error (args : list string) : option TemplateError :=
  match args with
  | [] => None
  | arg :: args' => match validateArgTemplate arg with Some e => Some e | None => first_template_error args' end
  end.

(** [strings.Contains]. *)
Fixpoint Contains (s sub : string) : bool :=
  HasPrefix s sub || match s with EmptyString => false | String _ s' => Contains s' sub end.

Section Validate.
Context `{Durations, Environment}.

Definition ValidateBinding (binding : Binding) : option BindingProblem :=
  let cfg := bd_config binding in
  match validateBinaryTrust binding with
  | Some e => Some e
  | None =>
      if bool_decide (bc_type cfg ∈ [""; "claude"; "codex"]) then None
      else if negb (bool_decide (bc_type cfg ∈ [declarativePlainStdout; declarativeLastMessageFile; declarativeStreamJSON]))
      then Some (ErrUnsupportedType (bc_type cfg))
      else if bool_decide (bc_binary cfg = "") then Some ErrBinaryRequired
      else match first_template_error (bc_args cfg) with
      | Some e => Some (ErrTemplate e)
      | None =>
          match (if bool_decide (bc_output_file cfg = "") then None else validateArgTemplate (bc_output_file cfg)) with
          | Some e => Some (ErrTemplate e)
          | None =>
              if bool_decide (bc_type cfg = declarativeLastMessageFile) && bool_decide (bc_output_file cfg = "") &&
                 negb (existsb (λ arg, Contains arg "{output_file}") (bc_args cfg))
              then Some ErrNoOutputFile
              else if negb (bool_decide (bc_session_id_regex cfg = "")) && negb (regexp_compiles (bc_session_id_regex cfg))
              then Some ErrSessionRegex
              else if negb (on_path (bc_binary cfg)) then Some (ErrNotOnPath (bc_binary cfg))
              else match ResolveTurnLimits binding zero_request with
                   | Err e => Some (ErrTurnLimits e)
                   | Ok _ => None
                   end
          end
      end
  end.
End Validate.

(** ** The attempts of a turn *)

Section Attempts.
Context {Result Error : Type}.
(** The [n]-th attempt's outcome, and whether the turn's context is done behind
    it. *)
Context (attempt : nat → result Error Result) (ctx_done : nat → bool).

(** [max(1, MaxRetries+1)], with the wrap of [int]. *)
Definition attempts_of (maxRetries : Z) : Z := Z.max 1 (wrap64 (maxRetries + 1)).

(** The loop from attempt [n] with [left] attempts to go; the answer is the result
    with the number of attempts made. *)
Fixpoint run_attempts (left n : nat) (lastErr : Error) : result Error Result * nat :=
  match left with
  | 0 => (Err lastErr, n)
  | S left' =>
      match attempt n with
      | Ok result => (Ok result, S n)
      | Err e => if ctx_done n then (Err e, S n) else run_attempts left' (S n) e
      end
  end.

(** [Run] behind [ValidateBinding] and [ResolveTurnLimits]. *)
Definition Run (maxRetries : Z) (noError : Error) : result Error Result * nat :=
  run_attempts (Z.to_nat (attempts_of maxRetries)) 0 noError.
End Attempts.

(** ** A stream of JSON records *)

(** [extractAssistantText]: the text blocks of a message's content; [None] is a type
    error anywhere. *)
Record Block := mkBlock { bk_Type : list Z; bk_Text : list Z }.

Definition set_block_member (st : Block * bool) (m : Bytes * jtree) : Block * bool :=
  let '(b, ok) := st in
  if names m.1 "type" then let '(v, ok') := set_string m.2 (bk_Type b) in (mkBlock v (bk_Text b), ok && ok')
  else if names m.1 "text" then let '(v, ok') := set_string m.2 (bk_Text b) in (mkBlock (bk_Type b) v, ok && ok')
  else st.

(** An element decoded over what the slice held there. *)
Definition set_block (t : jtree) (old : Block) : Block * bool :=
  match t with
  | JObj members => foldl set_block_member (old, true) members
  | JAtom raw => (old, is_null raw)
  | _ => (old, false)
  end.

Definition zero_block : Block := mkBlock [] [].

(** Elements of an array over the elements of an earlier [content] member. *)
Fixpoint set_blocks (items : list jtree) (old : list Block) : list Block * bool :=
  match items with
  | [] => ([], true)
  | t :: items' =>
      let '(b, ok) := set_block t (hd zero_block old) in
      let '(bs, ok') := set_blocks items' (tl old) in (b :: bs, ok && ok')
  end.

Definition set_content (t : jtree) (old : list Block) : list Block * bool :=
  match t with
  | JArr items => set_blocks items old
  | JAtom raw => if is_null raw then ([], true) else (old, false)
  | _ => (old, false)
  end.

Definition set_message_member (st : list Block * bool) (m : Bytes * jtree) : list Block * bool :=
  let '(bs, ok) := st in
  if names m.1 "content" then let '(v, ok') := set_content m.2 bs in (v, ok && ok') else st.

Definition block_text (b : Block) : list Z := if bool_decide (bk_Type b = runes_of "text") then bk_Text b else [].

Definition extractAssistantText (raw : option jtree) : list Z :=
  match raw with
  | Some (JObj members) =>
      let '(bs, ok) := foldl set_message_member ([], true) members in
      if ok : bool then concat (block_text <$> bs) else []
  | _ => []
  end.

Record AssistantFrame := mkAssistantFrame { af_Type : list Z; af_Text : list Z; af_Content : list Z; af_Message : option jtree }.

Definition set_frame_member (st : AssistantFrame * bool) (m : Bytes * jtree) : AssistantFrame * bool :=
  let '(f, ok) := st in
  if names m.1 "type" then let '(v, ok') := set_string m.2 (af_Type f) in (mkAssistantFrame v (af_Text f) (af_Content f) (af_Message f), ok && ok')
  else if names m.1 "text" then let '(v, ok') := set_string m.2 (af_Text f) in (mkAssistantFrame (af_Type f) v (af_Content f) (af_Message f), ok && ok')
  else if names m.1 "content" then let '(v, ok') := set_string m.2 (af_Content f) in (mkAssistantFrame (af_Type f) (af_Text f) v (af_Message f), ok && ok')
  else if names m.1 "message" then (mkAssistantFrame (af_Type f) (af_Text f) (af_Content f) (Some m.2), ok)
  else st.

Definition extractDeclarativeAssistantText (raw : Bytes) : list Z :=
  match json_tree raw with
  | Some (JObj members) =>
      let '(f, ok) := foldl set_frame_member (mkAssistantFrame [] [] [] None, true) members in
      if negb ok || negb (bool_decide (af_Type f = runes_of "assistant")) then []
      else
        let text := extractAssistantText (af_Message f) in
        if negb (bool_decide (text = [])) then text
        else if negb (bool_decide (af_Text f = [])) then af_Text f
        else af_Content f
  | _ => []
  end.

(** The size of a text in UTF-8. *)
Definition rune_len (r : Z) : Z := (if r <? 128 then 1 else if r <? 2048 then 2 else if r <? 65536 then 3 else 4)%Z.
Definition utf8_len (text : list Z) : Z := foldr (λ r acc, rune_len r + acc)%Z 0%Z text.

(** The loop over the scanned lines: the assistant's text and the evidence, or
    nothing when an aggregate overflows. *)
Fixpoint stream_lines (lines : list Bytes) (assistant : list Z) (raw : Bytes) : option (list Z * Bytes) :=
  match lines with
  | [] => Some (assistant, raw)
  | line :: lines' =>
      if (maxStructuredEvidenceBytes <? Z.of_nat (length raw) + Z.of_nat (length line) + 1)%Z ||
         (maxAuthoritativeResultBytes <? utf8_len assistant)%Z
      then None
      else stream_lines lines' (assistant ++ extractDeclarativeAssistantText line) (raw ++ line ++ ["010"%char])
  end.

(** * Declarative providers, proved *)

(** ** Templates as pieces *)

Inductive piece := Lit (text : Bytes) | Tok (name : string).

Definition piece_ok (p : piece) : Prop :=
  match p with Lit text => OPEN ∉ text | Tok name => name ∈ declarativeTokens end.
Definition unparse (p : piece) : Bytes :=
  match p with Lit text => text | Tok name => OPEN :: chars name ++ [CLOSE] end.
Definition expand (tokens : gmap string string) (p : piece) : Bytes :=
  match p with Lit text => text | Tok name => chars (default "" (tokens !! name)) end.

Definition template (ps : list piece) : Bytes := concat (unparse <$> ps).

Lemma split_at_none c l : split_at c l = None ↔ c ∉ l.
Proof.
  induction l as [|x l IH]; cbn [split_at]; [split; [intros _; apply not_elem_of_nil|done]|].
  rewrite not_elem_of_cons. destruct (Ascii.eqb_spec x c) as [->|Hne]; [naive_solver|].
  destruct (split_at c l) as [[a b]|]; cbn [mbind option_bind]; naive_solver.
Qed.

Lemma split_at_some c l a b : split_at c l = Some (a, b) ↔ c ∉ a ∧ l = a ++ c :: b.
Proof.
  revert a. induction l as [|x l IH]; intros a; cbn [split_at].
  - split; [done|]. intros [_ Hl]. by destruct a.
  - destruct (Ascii.eqb_spec x c) as [->|Hne].
    + split; [intros [= <- <-]; split; [apply not_elem_of_nil|done]|]. intros [Hc Hl]. destruct a as [|y a]; simplify_eq/=; [done|]. set_solver.
    + destruct (split_at c l) as [[a1 b1]|] eqn:Hs; cbn [mbind option_bind].
      * split.
        -- intros [= <- <-]. destruct (proj1 (IH a1) eq_refl) as [Hc ->]. split; [|done]. apply not_elem_of_cons. split; [congruence|done].
        -- intros [Hc Hl]. destruct a as [|y a]; simplify_eq/=. apply not_elem_of_cons in Hc as [_ Hc].
           pose proof (proj2 (IH a) (conj Hc eq_refl)). congruence.
      * split; [done|]. intros [Hc Hl]. destruct a as [|y a]; simplify_eq/=. apply not_elem_of_cons in Hc as [_ Hc].
        pose proof (proj2 (IH a) (conj Hc eq_refl)). congruence.
Qed.

Lemma split_at_app c l r : c ∉ l → split_at c (l ++ r) = match split_at c r with Some (a, b) => Some (l ++ a, b) | None => None end.
Proof.
  intros Hl. destruct (split_at c r) as [[a b]|] eqn:Hs.
  - apply split_at_some in Hs as [Ha ->]. apply split_at_some. rewrite <- app_assoc. split; [|done]. rewrite elem_of_app. naive_solver.
  - apply split_at_none in Hs. apply split_at_none. rewrite elem_of_app. naive_solver.
Qed.

Lemma token_closed name : name ∈ declarativeTokens → CLOSE ∉ chars name.
Proof.
  assert (Hall : forallb (λ n, bool_decide (CLOSE ∉ chars n)) declarativeTokens = true) by by vm_compute.
  intros Hin%list_elem_of_In. rewrite forallb_forall in Hall. exact (bool_decide_eq_true_1 _ (Hall name Hin)).
Qed.

(** ** The two loops on pieces *)

Lemma validate_pieces fuel ps : Forall piece_ok ps → length (template ps) < fuel → validate_from fuel (template ps) = None.
Proof.
  intros Hps. revert fuel. induction Hps as [|p ps Hp Hps IH]; intros fuel Hf; [by destruct fuel|].
  unfold template in *. cbn [fmap list_fmap concat] in *. rewrite length_app in Hf.
  destruct fuel as [|fuel]; [lia|]. destruct p as [text|name]; cbn [unparse piece_ok] in *.
  - specialize (IH (S fuel) ltac:(lia)). cbn [validate_from] in IH |- *. rewrite split_at_app by done.
    destruct (split_at OPEN (concat (unparse <$> ps))) as [[a b]|] eqn:Hs; [|done].
    destruct (split_at CLOSE b) as [[t r]|]; [done|discriminate].
  - cbn [validate_from app]. cbn [split_at]. replace (OPEN =? OPEN)%char with true by done.
    rewrite <- app_assoc. cbn [app]. rewrite split_at_app by (by apply token_closed). cbn [split_at].
    replace (CLOSE =? CLOSE)%char with true by done. rewrite app_nil_r, of_chars_chars, bool_decide_eq_true_2 by done.
    apply IH. cbn [length] in Hf. rewrite length_app in Hf. lia.
Qed.

Lemma render_pieces fuel ps tokens : Forall piece_ok ps → length (template ps) < fuel →
  render_from fuel (template ps) tokens = concat (expand tokens <$> ps).
Proof.
  intros Hps. revert fuel. induction Hps as [|p ps Hp Hps IH]; intros fuel Hf; [by destruct fuel|].
  unfold template in *. cbn [fmap list_fmap concat] in *. rewrite length_app in Hf.
  destruct fuel as [|fuel]; [lia|]. destruct p as [text|name]; cbn [unparse piece_ok expand] in *.
  - specialize (IH (S fuel) ltac:(lia)). rewrite <- IH. cbn [render_from]. rewrite split_at_app by done.
    destruct (split_at OPEN (concat (unparse <$> ps))) as [[a b]|] eqn:Hs; [|done].
    destruct (split_at CLOSE b) as [[t r]|]; [by rewrite <- app_assoc|done].
  - cbn [render_from app]. cbn [split_at]. replace (OPEN =? OPEN)%char with true by done.
    rewrite <- app_assoc. cbn [app]. rewrite split_at_app by (by apply token_closed). cbn [split_at].
    replace (CLOSE =? CLOSE)%char with true by done. rewrite app_nil_r, of_chars_chars. f_equal.
    apply IH. cbn [length] in Hf. rewrite length_app in Hf. lia.
Qed.

Lemma validated_pieces fuel input : length input < fuel → validate_from fuel input = None →
  ∃ ps, Forall piece_ok ps ∧ input = template ps.
Proof.
  revert input. induction fuel as [|fuel IH]; intros input Hf Hv; [lia|]. cbn [validate_from] in Hv.
  destruct (split_at OPEN input) as [[before rest]|] eqn:Ho.
  2: { exists [Lit input]. split; [by apply Forall_singleton, split_at_none|]. unfold template. cbn. by rewrite app_nil_r. }
  destruct (split_at CLOSE rest) as [[token rest']|] eqn:Hc; [|done]. case_bool_decide as Hin; [|done].
  apply split_at_some in Ho as [Hb ->], Hc as [Ht ->].
  destruct (IH rest') as (ps & Hps & ->); [|done|].
  { rewrite !length_app in Hf. cbn [length] in Hf. rewrite length_app in Hf. cbn [length] in Hf. lia. }
  exists (Lit before :: Tok (of_chars token) :: ps). split; [repeat (apply Forall_cons; split); done|].
  unfold template. cbn [fmap list_fmap concat unparse]. rewrite chars_of_chars. cbn [app]. by rewrite <- (app_assoc token).
Qed.

Lemma length_chars s : length (chars s) = String.length s.
Proof. induction s as [|c s IH]; simpl; [done|]. by f_equal. Qed.

(** An argument template is rendered exactly when it is a sequence of text
    without an opening brace and of known tokens in braces, and then each token is
    replaced by its value once, in order: a value that contains braces or the name
    of another token is never expanded again, and nothing else changes. *)
Theorem template_rendering_is_exact input tokens out :
  renderArgTemplate input tokens = Ok out ↔
  ∃ ps, Forall piece_ok ps ∧ chars input = concat (unparse <$> ps) ∧ chars out = concat (expand tokens <$> ps).
Proof.
  unfold renderArgTemplate, validateArgTemplate. rewrite <- length_chars. split.
  - destruct (validate_from _ (chars input)) eqn:Hv; [done|]. intros Hout.
    assert (out = of_chars (render_from (S (length (chars input))) (chars input) tokens)) as -> by congruence. clear Hout.
    destruct (validated_pieces _ _ (Nat.lt_succ_diag_r _) Hv) as (ps & Hps & Heq). exists ps.
    split_and!; [done|done|]. by rewrite chars_of_chars, Heq, render_pieces by (done || lia).
  - intros (ps & Hps & Hin & Hout). rewrite Hin. fold (template ps). rewrite validate_pieces by (done || lia).
    rewrite render_pieces by (done || lia). by rewrite <- Hout, of_chars_chars.
Qed.

(** ** A validated binding *)

Lemma render_validated input tokens : validateArgTemplate input = None → ∃ out, renderArgTemplate input tokens = Ok out.
Proof. unfold renderArgTemplate. intros ->. eauto. Qed.

Lemma validated_literal s : OPEN ∉ chars s → validateArgTemplate s = None.
Proof.
  intros Hs. unfold validateArgTemplate. rewrite <- length_chars.
  assert (Heq : chars s = template [Lit (chars s)]) by (unfold template; cbn; by rewrite app_nil_r).
  rewrite Heq at 2. apply validate_pieces; [by repeat constructor|]. rewrite <- Heq. lia.
Qed.

Lemma render_all args tokens : first_template_error args = None →
  ∃ out, renderArgTemplates args tokens = Ok out ∧ length out = length args.
Proof.
  induction args as [|arg args IH]; cbn [first_template_error renderArgTemplates]; [by exists []|].
  destruct (validateArgTemplate arg) eqn:Hv; [done|]. intros Hargs.
  destruct (render_validated arg tokens Hv) as [r ->]. destruct (IH Hargs) as (out & -> & Hlen).
  exists (r :: out). split; [done|]. cbn. lia.
Qed.

(** A declarative binding that passes validation cannot fail on its templates:
    its binary is one of the shipped names unless the operator's local file named
    it, and for every request every attempt has an argument vector, never empty,
    with one argument for each configured one (or the whole prompt when there is
    none) and, for the file-based type, an output path - provided the temporary
    path made when the binding names none has no opening brace. *)
Theorem validated_binding_renders `{Durations, Environment} binding req invocation promptPath schemaPath tempOutput :
  ValidateBinding binding = None →
  bc_type (bd_config binding) ∈ [declarativePlainStdout; declarativeLastMessageFile; declarativeStreamJSON] →
  OPEN ∉ chars tempOutput →
  (bd_from_local binding = true ∨ bc_binary (bd_config binding) ∈ shippedProviderBinaries) ∧
  ∃ path args, attempt_command binding req invocation promptPath schemaPath tempOutput = Ok (path, args) ∧
    args ≠ [] ∧ length args = Nat.max 1 (length (bc_args (bd_config binding))).
Proof.
  intros Hv Htype Htemp. unfold ValidateBinding in Hv. destruct (validateBinaryTrust binding) eqn:Htrust; [done|].
  rewrite bool_decide_eq_false_2 in Hv.
  2: { intros Hin. apply (bool_decide_eq_true_2 _) in Hin. clear -Htype Hin.
       repeat (apply elem_of_cons in Htype as [Ht|Htype]; [rewrite Ht in Hin; by vm_compute in Hin|]). by apply elem_of_nil in Htype. }
  rewrite (bool_decide_eq_true_2 (_ ∈ [declarativePlainStdout; _; _])) in Hv by done. cbn [negb] in Hv.
  case_bool_decide as Hbin; [done|].
  destruct (first_template_error (bc_args (bd_config binding))) eqn:Hargs; [done|].
  destruct (if bool_decide (bc_output_file (bd_config binding) = "") then None else validateArgTemplate (bc_output_file (bd_config binding))) eqn:Hof; [done|].
  clear Hv. split.
  - unfold validateBinaryTrust in Htrust. rewrite (bool_decide_eq_false_2 (_ = "")) in Htrust by done. cbn [orb] in Htrust.
    destruct (bd_from_local binding); [by left|right].
    destruct (decide (bc_binary (bd_config binding) ∈ shippedProviderBinaries)) as [Hin|Hout]; [exact Hin|].
    rewrite bool_decide_eq_false_2 in Htrust by exact Hout. discriminate Htrust.
  - unfold attempt_command. set (cfg := bd_config binding) in *.
    assert (Hpath : validateArgTemplate (if decide (bc_type cfg = declarativeLastMessageFile) then or_else (bc_output_file cfg) tempOutput else "") = None).
    { destruct (decide (bc_type cfg = declarativeLastMessageFile)); [|done]. unfold or_else.
      destruct (decide (bc_output_file cfg = "")) as [He|He]; [by apply validated_literal|]. by rewrite bool_decide_eq_false_2 in Hof. }
    set (path := if decide (bc_type cfg = declarativeLastMessageFile) then _ else _) in *. clearbody path.
    set (tokens := declarativeTokenValues _ _ _ _ _). clearbody tokens.
    assert (Hloc : ∃ p toks, (if decide (path = "") then Ok (path, tokens)
                  else try rendered := renderArgTemplate path tokens in
                       Ok (rendered, <["output_file" := rendered]> tokens)) = (Ok (p, toks) : result TemplateError _)).
    { destruct (decide (path = "")); [eauto|]. destruct (render_validated path tokens Hpath) as [r ->]. cbn. eauto. }
    destruct Hloc as (p & toks & ->). cbn [rbind fst snd].
    destruct (render_all (bc_args cfg) toks Hargs) as (out & -> & Hlen). cbn [rbind].
    exists p, (match out with [] => [combinePrompt req] | _ => out end). split; [done|]. destruct out; cbn in *; split; try done; lia.
Qed.

(** ** The attempts of a turn and the stream *)

Section Attempts.
Context {Result Error : Type} (attempt : nat → result Error Result) (ctx_done : nat → bool).

Lemma run_attempts_spec left n e :
  left ≠ 0 →
  let '(r, k) := run_attempts attempt ctx_done left n e in
  n < k ≤ n + left ∧ r = attempt (pred k) ∧
  (∀ j, n ≤ j < pred k → (∃ e', attempt j = Err e') ∧ ctx_done j = false) ∧
  (k < n + left → is_ok r = true ∨ ctx_done (pred k) = true).
Proof.
  revert n e. induction left as [|left IH]; intros n e Hl; [done|]. cbn [run_attempts].
  destruct (attempt n) as [x|e'] eqn:Ha.
  - cbn. rewrite Ha. split_and!; try done; try lia; by left.
  - destruct (ctx_done n) eqn:Hd.
    + cbn. rewrite Ha. split_and!; try done; try lia; by right.
    + destruct left as [|left].
      { cbn. rewrite Ha. split_and!; try done; lia. }
      specialize (IH (S n) e' ltac:(done)). destruct (run_attempts attempt ctx_done (S left) (S n) e') as [r k].
      destruct IH as (Hk & Hr & Hj & Hlast). split_and!; [lia|lia|done| |].
      * intros j Hjr. destruct (decide (j = n)) as [->|]; [split; [by exists e'|done]|]. apply Hj. lia.
      * intros Hlt. apply Hlast. lia.
Qed.
End Attempts.

Lemma stream_lines_spec lines assistant raw a r :
  (Z.of_nat (length raw) ≤ maxStructuredEvidenceBytes)%Z →
  stream_lines lines assistant raw = Some (a, r) →
  a = assistant ++ concat (extractDeclarativeAssistantText <$> lines) ∧
  r = raw ++ concat ((λ l, l ++ ["010"%char]) <$> lines) ∧
  (Z.of_nat (length r) ≤ maxStructuredEvidenceBytes)%Z.
Proof.
  revert assistant raw. induction lines as [|l lines IH]; intros assistant raw Hraw; cbn [stream_lines fmap list_fmap concat].
  - intros [= <- <-]. by rewrite !app_nil_r.
  - destruct (_ || _) eqn:Hb; [done|]. apply orb_false_iff in Hb as [Hb%Z.ltb_ge _]. intros Hs.
    apply IH in Hs as (-> & -> & Hr); [|rewrite !length_app; cbn [length]; lia].
    split_and!; [by rewrite <- app_assoc|by rewrite <- (app_assoc raw)|done].
Qed.

(** A declarative turn is bounded: it makes at least one and at most
    [max(1, MaxRetries+1)] attempts, returns the outcome of the last one it made,
    and goes on only past a failure with its context alive; and what a stream of
    records hands on is every line read, with the assistant's text of every
    record in order, in no more than 16 MiB of evidence - or nothing. *)
Theorem declarative_turn_is_bounded {Result Error : Type} (attempt : nat → result Error Result) ctx_done maxRetries noError lines :
  (let '(r, k) := Run attempt ctx_done maxRetries noError in
   1 ≤ k ∧ (Z.of_nat k ≤ Z.max 1 (wrap64 (maxRetries + 1)))%Z ∧ r = attempt (pred k) ∧
   (∀ j, j < pred k → (∃ e, attempt j = Err e) ∧ ctx_done j = false) ∧
   ((Z.of_nat k < Z.max 1 (wrap64 (maxRetries + 1)))%Z → is_ok r = true ∨ ctx_done (pred k) = true)) ∧
  (match stream_lines lines [] [] with
   | Some (a, r) => a = concat (extractDeclarativeAssistantText <$> lines) ∧
                    r = concat ((λ l, l ++ ["010"%char]) <$> lines) ∧
                    (Z.of_nat (length r) ≤ maxStructuredEvidenceBytes)%Z
   | None => True
   end).
Proof.
  split.
  - unfold Run, attempts_of. set (m := Z.max 1 (wrap64 (maxRetries + 1))). assert (Hm : (1 ≤ m)%Z) by lia. clearbody m.
    pose proof (run_attempts_spec attempt ctx_done (Z.to_nat m) 0 noError ltac:(lia)) as Hs.
    destruct (run_attempts attempt ctx_done (Z.to_nat m) 0 noError) as [r k]. destruct Hs as (? & ? & Hj & Hl).
    split_and!; try done; try lia; [intros j ?; apply Hj; lia|]. intros ?. apply Hl. lia.
  - destruct (stream_lines lines [] []) as [[a r]|] eqn:Hs; [|done]. by apply stream_lines_spec in Hs.
Qed.

(** ** A binding *)

Definition no_durations : Durations := {| ParseDuration _ := None |}.
Definition open_environment : Environment := {| regexp_compiles _ := true; on_path _ := true |}.
Section Demo2Declarative.
#[local] Existing Instances no_durations open_environment.

Definition demo_binding : Binding :=
  mkBinding "local" (mkBindingConfig "stream-json" "" "mycli" ["--model={model}"; "{prompt}"] "" "" "" 1 "" "" "" "" "" "" "" "" None None false None []) true.

Lemma validated_binding_renders_witness :
  ValidateBinding demo_binding = None ∧
  ∃ path args, attempt_command demo_binding (mkPrompting "" "say {model}" "" [] "/w") (mkInvocation "local" "stream-json" "m1" "") "p" "s" "o" = Ok (path, args) ∧
    length args = 2.
Proof.
  split; [by vm_compute|].
  destruct (validated_binding_renders demo_binding (mkPrompting "" "say {model}" "" [] "/w")
    (mkInvocation "local" "stream-json" "m1" "") "p" "s" "o" ltac:(by vm_compute) ltac:(set_solver) ltac:(set_solver))
    as (_ & path & args & He & _ & Hl).
  exists path, args. split; [exact He|exact Hl].
Defined.
End Demo2Declarative.
