(* ===== verification/RunnerIo.v ===== *)
(** * What the runners share: [internal/provider/result_limits.go], [exec.go],
    [progress.go], [hook_environment.go], and the argument vectors

    The ceilings on what a provider may say, the reading of an authoritative
    result file, the normalisation of its text, the prompt as a line of JSON, the
    environment of a managed turn and the command lines of the four built-in
    runners. Files and processes are the environment's. *)
From S2P Require Import Prelude GoLib GoJson Provider Declarative.

(** ** UTF-8 *)

Definition byte_of (z : Z) : Ascii.ascii := ascii_of_N (Z.to_N z).

(** [utf8.AppendRune]. *)
Definition encode_rune (r : Z) : Bytes :=
  let r := if is_surrogate r || (1114111 <? r)%Z || (r <? 0)%Z then RuneError else r in
  (if r <? 128 then [byte_of r]
   else if r <? 2048 then [byte_of (192 + r / 64); byte_of (128 + r mod 64)]
   else if r <? 65536 then [byte_of (224 + r / 4096); byte_of (128 + r / 64 mod 64); byte_of (128 + r mod 64)]
   else [byte_of (240 + r / 262144); byte_of (128 + r / 4096 mod 64); byte_of (128 + r / 64 mod 64); byte_of (128 + r mod 64)])%Z.
Definition utf8 (text : list Z) : Bytes := concat (encode_rune <$> text).

(** The rune at the head of a text and its width. *)
Definition rune_at (c : Ascii.ascii) (r : Bytes) : Z * nat :=
  if (byte_val c <? 128)%Z then (byte_val c, 1) else DecodeRune c r.

(** What [range] over a string yields; a rune takes at least a byte, so the length
    is fuel enough. *)
Fixpoint decode_n (fuel : nat) (l : Bytes) : list (Z * Bytes) :=
  match fuel with
  | 0 => []
  | S n => match l with
           | [] => []
           | c :: r => let '(rune, k) := rune_at c r in (rune, take k l) :: decode_n n (drop k l)
           end
  end.
Definition decode (l : Bytes) : list (Z * Bytes) := decode_n (length l) l.
Definition runes (l : Bytes) : list Z := fst <$> decode l.

(** ** Bounded results *)

(** Errors of a turn: the classifier's own, those it does not know, and what
    supervision and the process's exit carry. *)
Inductive RunnerError :=
| ErrSentinel (s : Sentinel)
| ErrWriteEvidence
| ErrShortWrite
| ErrCloseEvidence
| ErrCopilotTurnFailed
| ErrResultUnsafe
| ErrReadResult
| ErrSupervision (e : TurnError)
| ErrExited (e : TurnError)
| ErrDiagnosed (s : Sentinel) (diagnostic : string).

(** The tree of [errors.Join]; nil is the empty list. *)
Definition error_tree (e : RunnerError) : TurnError :=
  match e with
  | ErrSentinel s | ErrDiagnosed s _ => mkTurnError [s] None
  | ErrSupervision e | ErrExited e => e
  | _ => mkTurnError [] None
  end.
Definition join_tree (a b : TurnError) : TurnError :=
  mkTurnError (te_tree a ++ te_tree b) (match te_blocked a with Some x => Some x | None => te_blocked b end).
Definition turn_error (es : list RunnerError) : option TurnError :=
  match es with
  | [] => None
  | _ => Some (foldr (λ e acc, join_tree (error_tree e) acc) (mkTurnError [] None) es)
  end.

Record boundedResultBuffer := mkBuffer { rb_buf : Bytes; rb_n : Z }.
Definition new_buffer : boundedResultBuffer := mkBuffer [] 0.

Definition len (b : Bytes) : Z := Z.of_nat (length b).

Definition writeStringReserved (value : Bytes) (reserved : Z) (b : boundedResultBuffer)
    : result Sentinel boundedResultBuffer :=
  if ((reserved <? 0) || (maxAuthoritativeResultBytes - rb_n b <? reserved) ||
      (maxAuthoritativeResultBytes - rb_n b - reserved <? len value))%Z
  then Err ErrAuthoritativeResultTooLarge
  else Ok (mkBuffer (rb_buf b ++ value) (rb_n b + len value)).
Definition writeString (value : Bytes) (b : boundedResultBuffer) : result Sentinel boundedResultBuffer :=
  writeStringReserved value 0 b.

Definition ValidateEvidenceBounds (output : Bytes) : result Sentinel unit :=
  if (maxAuthoritativeResultBytes <? len output)%Z then Err ErrAuthoritativeResultTooLarge else Ok tt.

(** The bytes of the file and the count of [f.n]. *)
Record boundedEvidenceFile := mkEvidence { ef_file : Bytes; ef_n : Z }.
Definition new_evidence : boundedEvidenceFile := mkEvidence [] 0.

(** [disk pos frame] is what a write at [pos] does: the bytes taken, and whether it
    fails. *)
Definition writeFrame (disk : Z → Bytes → nat * bool) (frame : Bytes) (f : boundedEvidenceFile)
    : option RunnerError * boundedEvidenceFile :=
  if (maxStructuredEvidenceBytes - ef_n f <? len frame)%Z then (Some (ErrSentinel ErrStructuredEvidenceTooLarge), f)
  else
    let '(n, failed) := disk (ef_n f) frame in
    let f := mkEvidence (ef_file f ++ take n frame) (ef_n f + Z.of_nat n) in
    if failed : bool then (Some ErrWriteEvidence, f)
    else if negb (n =? length frame) then (Some ErrShortWrite, f)
    else (None, f).

(** ** Reading an authoritative result file *)

Record FileInfo := mkFileInfo { fi_regular : bool; fi_size : Z; fi_identity : Z * Z }.

(** [before]: the snapshot of the path; [opened]: the opened file's own state and
    what reading it yields, if it opens; [None] for a call that fails. *)
Definition readBoundedAuthoritativeResult (before : option FileInfo)
    (opened : option (option FileInfo * option Bytes)) : result RunnerError Bytes :=
  match before with
  | None => Err ErrResultUnsafe
  | Some pathInfo =>
      if negb (fi_regular pathInfo) then Err ErrResultUnsafe
      else if (maxAuthoritativeResultBytes <? fi_size pathInfo)%Z then Err (ErrSentinel ErrAuthoritativeResultTooLarge)
      else match opened with
      | None | Some (None, _) => Err ErrResultUnsafe
      | Some (Some info, content) =>
          if negb (fi_regular info) || negb (bool_decide (fi_identity pathInfo = fi_identity info)) then Err ErrResultUnsafe
          else if (maxAuthoritativeResultBytes <? fi_size info)%Z then Err (ErrSentinel ErrAuthoritativeResultTooLarge)
          else match content with
          | None => Err ErrReadResult
          | Some file =>
              let raw := take (Z.to_nat (maxAuthoritativeResultBytes + 1)) file in
              if (maxAuthoritativeResultBytes <? len raw)%Z then Err (ErrSentinel ErrAuthoritativeResultTooLarge)
              else Ok raw
          end
      end
  end.

(** ** Output that streams *)

(** [progressWriter.Write] over a sink that takes everything: the bytes accepted,
    the error, whether the lease was renewed, and the running total. *)
Definition progress_write (limit n : Z) (p : Bytes) : Z * option Sentinel * bool * Z :=
  let remaining := (limit - n)%Z in
  if (0 <? limit)%Z && (remaining <=? 0)%Z then (0%Z, Some ErrProviderOutputTooLarge, false, n)
  else if (0 <? limit)%Z && (remaining <? len p)%Z
  then (remaining, Some ErrProviderOutputTooLarge, false, (n + remaining)%Z)
  else (len p, None, (0 <? len p)%Z, (n + len p)%Z).

(** What [runCommandWithStallContained] makes of a finished command: [cause] is the
    cause of a done context, [stdout] the captured text. *)
Inductive CommandError := OutputTooLarge | Cancelled (cause : TurnError) | CommandFailed (message : string).
Definition command_result (failed : bool) (stdoutN stderrN : Z) (cause : option TurnError) (stdout stderr : string)
    : result CommandError string :=
  if failed then
    if ((maxAuthoritativeResultBytes <=? stdoutN) || (maxAuthoritativeResultBytes <=? stderrN))%Z then Err OutputTooLarge
    else match cause with
         | Some e => Err (Cancelled e)
         | None =>
             let msg := TrimSpace stderr in
             Err (CommandFailed (if decide (msg = "") then TrimSpace stdout else msg))
         end
  else Ok (TrimSpace stdout).

(** ** Structured output *)

(** [strings.Index] and [strings.LastIndex] of one byte. *)
Fixpoint index_of (c : Ascii.ascii) (l : Bytes) : option nat :=
  match l with
  | [] => None
  | x :: r => if (x =? c)%char then Some 0 else S <$> index_of c r
  end.
Fixpoint last_index_of (c : Ascii.ascii) (l : Bytes) : option nat :=
  match l with
  | [] => None
  | x :: r => match last_index_of c r with Some i => Some (S i) | None => if (x =? c)%char then Some 0 else None end
  end.

Definition fence : string := "```".

Definition normalizeStructuredOutput (raw outputSchema : string) : string :=
  let raw := TrimSpace raw in
  if decide (raw = "") then raw
  else if bool_decide (outputSchema = "") && negb (Contains raw fence) then raw
  else match index_of OPEN (chars raw), last_index_of CLOSE (chars raw) with
       | Some openIdx, Some closeIdx =>
           if closeIdx <? openIdx then raw
           else TrimSpace (of_chars (take (S closeIdx - openIdx) (drop openIdx (chars raw))))
       | _, _ => raw
       end.

(** ** The prompt as a line of JSON *)

Definition hex_digit (v : Z) : Ascii.ascii := byte_of (if v <? 10 then 48 + v else 87 + v)%Z.

(** One byte below 0x80 as [encoding/json] writes it, HTML escaping on. *)
Definition json_byte (c : Ascii.ascii) : Bytes :=
  let v := byte_val c in
  if (c =? QUOTE)%char || (c =? BACKSLASH)%char then [BACKSLASH; c]
  else (if v =? 8 then [BACKSLASH; "b"%char]
        else if v =? 12 then [BACKSLASH; "f"%char]
        else if v =? 10 then [BACKSLASH; "n"%char]
        else if v =? 13 then [BACKSLASH; "r"%char]
        else if v =? 9 then [BACKSLASH; "t"%char]
        else if (v <? 32) || (v =? 60) || (v =? 62) || (v =? 38)
        then [BACKSLASH; "u"%char; "0"%char; "0"%char; hex_digit (v / 16); hex_digit (v mod 16)]
        else [c])%Z.
Definition json_rune (rune : Z) (bytes : Bytes) : Bytes :=
  match bytes with
  | [c] => if (byte_val c <? 128)%Z then json_byte c else BACKSLASH :: chars "ufffd"
  | _ => if (rune =? 8232)%Z || (rune =? 8233)%Z then BACKSLASH :: chars "u202" ++ [hex_digit (rune - 8224)] else bytes
  end.
Definition json_escape (s : string) : Bytes := concat ((λ d, json_rune d.1 d.2) <$> decode (chars s)).

Definition json_string (s : string) : Bytes := QUOTE :: json_escape s ++ [QUOTE].
Definition json_member (key : string) (value : Bytes) : Bytes := QUOTE :: chars key ++ QUOTE :: ":"%char :: value.
Definition json_object (members : list Bytes) : Bytes :=
  OPEN :: match members with [] => [] | m :: ms => m ++ concat (cons ","%char <$> ms) end ++ [CLOSE].

Definition streamJSONInput (userPrompt : string) : Bytes :=
  json_object
    [json_member "type" (json_string "user");
     json_member "message" (json_object
       [json_member "role" (json_string "user");
        json_member "content" ("["%char :: json_object
          [json_member "type" (json_string "text"); json_member "text" (json_string userPrompt)] ++ ["]"%char])])]
  ++ ["010"%char].

(** ** The environment of a managed turn *)

Definition ManagedSessionEnv : string := "RALPH_MANAGED_SESSION_ID".
Definition HookEndpointEnv : string := "RALPH_HOOK_ENDPOINT".

(** [strings.EqualFold] with an ASCII text. *)
Definition EqualFold (s ascii : string) : bool :=
  bool_decide (fold_rune <$> runes (chars s) = fold_rune <$> runes_of ascii).

(** What [strings.Cut] leaves before the first [=]. *)
Definition env_key (entry : string) : string :=
  match split_at "=" (chars entry) with Some (key, _) => of_chars key | None => entry end.

Definition managed_key (windows : bool) (key : string) : bool :=
  if windows then EqualFold key ManagedSessionEnv || EqualFold key HookEndpointEnv
  else bool_decide (key = ManagedSessionEnv) || bool_decide (key = HookEndpointEnv).

(** [Err tt]: only one coordinate is configured; [Ok None]: inherit exactly. *)
Definition managedHookEnvironmentFromGOOS (session endpoint : string) (inherited : list string) (windows : bool)
    : result unit (option (list string)) :=
  if negb (eqb (bool_decide (session = "")) (bool_decide (endpoint = ""))) then Err tt
  else
    let env := base.filter (λ entry, managed_key windows (env_key entry) = false) inherited in
    let removed := existsb (λ entry, managed_key windows (env_key entry)) inherited in
    if bool_decide (session = "") || bool_decide (endpoint = "")
    then Ok (if removed then Some env else None)
    else Ok (Some (env ++ [ManagedSessionEnv +:+ "=" +:+ session; HookEndpointEnv +:+ "=" +:+ endpoint])).

(** ** Argument vectors *)

(** [args] with [flag value] behind them unless the value is empty. *)
Definition when_set (flag value : string) : list string := if decide (value = "") then [] else [flag; value].
(** An effort that is not the provider's own lane. *)
Definition own_lane (effort : string) : string := if decide (effort = "default") then "" else effort.

Definition claudeArgs (binding : Binding) (req : Prompting) (sessionID model effort : string) : list string :=
  ["-p"; "--input-format"; "stream-json"; "--output-format"; "stream-json"; "--verbose"; "--session-id"; sessionID;
   "--no-chrome"] ++
  when_set "--append-system-prompt" (pg_SystemPrompt req) ++
  when_set "--model" model ++
  when_set "--effort" effort ++
  concat ((λ t, ["--allowed-tools"; t]) <$> pg_AllowedTools req) ++
  bc_args (bd_config binding).

Definition copilotArgs (binding : Binding) (req : Prompting) (invocation : Invocation) : list string :=
  ["-p"; combinePrompt req; "--output-format"; "json"; "-s"; "--no-color"; "--allow-all-tools"] ++
  when_set "-C" (pg_WorkingDir req) ++
  when_set "--model" (iv_model invocation) ++
  when_set "--effort" (own_lane (iv_effort invocation)) ++
  bc_args (bd_config binding).

Definition opencodeArgs (binding : Binding) (req : Prompting) (invocation : Invocation) (managed : bool) : list string :=
  ["run"; combinePrompt req; "--format"; "json"] ++
  (if managed then [] else ["--pure"]) ++
  when_set "--dir" (pg_WorkingDir req) ++
  when_set "--model" (iv_model invocation) ++
  when_set "--variant" (iv_effort invocation) ++
  bc_args (bd_config binding).

(** [strconv.Quote], with [strconv.IsPrint] as a parameter. *)
Class Printable := { IsPrint : Z → bool }.

Definition quote_rune `{Printable} (rune : Z) (bytes : Bytes) : Bytes :=
  let invalid := match bytes with [c] => (128 <=? byte_val c)%Z | _ => false end in
  let hex (v : Z) : Bytes := [hex_digit (v / 16 mod 16)%Z; hex_digit (v mod 16)%Z] in
  if invalid then BACKSLASH :: "x"%char :: concat ((λ c, hex (byte_val c)) <$> bytes)
  else if (rune =? byte_val QUOTE)%Z || (rune =? byte_val BACKSLASH)%Z then BACKSLASH :: bytes
  else if IsPrint rune then bytes
  else (if rune =? 7 then [BACKSLASH; "a"%char]
        else if rune =? 8 then [BACKSLASH; "b"%char]
        else if rune =? 12 then [BACKSLASH; "f"%char]
        else if rune =? 10 then [BACKSLASH; "n"%char]
        else if rune =? 13 then [BACKSLASH; "r"%char]
        else if rune =? 9 then [BACKSLASH; "t"%char]
        else if rune =? 11 then [BACKSLASH; "v"%char]
        else if (rune <? 32) || (rune =? 127) then BACKSLASH :: "x"%char :: hex rune
        else if rune <? 65536 then BACKSLASH :: "u"%char :: hex (rune / 256) ++ hex rune
        else BACKSLASH :: "U"%char :: hex (rune / 16777216) ++ hex (rune / 65536) ++ hex (rune / 256) ++ hex rune)%Z.
Definition Quote `{Printable} (s : string) : string :=
  of_chars (QUOTE :: concat ((λ d, quote_rune d.1 d.2) <$> decode (chars s)) ++ [QUOTE]).

Definition codexArgs `{Printable} (binding : Binding) (req : Prompting) (invocation : Invocation)
    (outPath schemaPath : string) : list string :=
  ["exec"; "--json"; "--color"; "never"; "--skip-git-repo-check"; "--dangerously-bypass-approvals-and-sandbox";
   "-C"; pg_WorkingDir req; "--output-last-message"; outPath] ++
  when_set "-m" (iv_model invocation) ++
  (if decide (own_lane (iv_effort invocation) = "") then []
   else ["-c"; "model_reasoning_effort=" +:+ Quote (iv_effort invocation)]) ++
  when_set "--output-schema" schemaPath ++
  bc_args (bd_config binding).

(** ** The launch of a managed opencode turn *)

Definition minOpenCodeVerificationProgressInterval : Z := 100000000.

Inductive IntervalError := ErrStallNotPositive | ErrStallTooShort.

Definition opencodeVerificationProgressInterval (stallTimeout : Z) : result IntervalError Z :=
  if (stallTimeout <=? 0)%Z then Err ErrStallNotPositive
  else
    let interval := Z.quot stallTimeout 3 in
    if (interval <? minOpenCodeVerificationProgressInterval)%Z then Err ErrStallTooShort else Ok interval.
