(* ===== verification/Runners.v ===== *)
(** * The built-in runners: [internal/provider/claude.go], [opencode.go],
    [copilot.go], [codex.go]

    What each runner makes of the lines its command prints - frames, assistant
    text, usage, the early stop - and of the way supervision and the process
    ended: one function from the lines to the state of the ingestion, one from
    that state to the result or the error of the turn. *)
From Stdlib Require Import SpecFloat.
From S2P Require Import Prelude GoLib GoJson Provider CodexDiag Declarative RunnerIo.

(** ** float64 *)

Abbreviation float64 := spec_float.
Definition float_zero : float64 := S754_zero false.
Definition float_add : float64 → float64 → float64 := SFadd 53 1024.
Definition float_sub : float64 → float64 → float64 := SFsub 53 1024.
Definition MaxFloat64 : float64 := S754_finite false 9007199254740991 971.
Definition IsInf (f : float64) : bool := match f with S754_infinity _ => true | _ => false end.
Definition IsNaN (f : float64) : bool := match f with S754_nan => true | _ => false end.

Definition digits_val (d : Bytes) : Z := foldl (λ acc c, acc * 10 + (byte_val c - 48))%Z 0%Z d.

(** [m * 10 ^ e], rounded to the nearest even. *)
Definition round_decimal (negative : bool) (m e : Z) : float64 :=
  if (m =? 0)%Z then S754_zero negative
  else if (0 <=? e)%Z then binary_normalize 53 1024 ((if negative then -1 else 1) * (m * 10 ^ e))%Z 0 negative
  else let '(q, e', l) := SFdiv_core_binary 53 1024 m 0 (10 ^ (- e)) 0 in binary_round_aux 53 1024 negative q e' l.

(** [strconv.ParseFloat] of a JSON number; out of range is an error. *)
Definition json_float (raw : Bytes) : option float64 :=
  let '(negative, l) := match expect "-" raw with Some r => (true, r) | None => (false, raw) end in
  '(i, l1) ← digits1 l;
  let '(f, l2) := match expect "." l1 with Some r => digits r | None => ([], l1) end in
  e ← match l2 with
      | [] => Some 0%Z
      | c :: r =>
          if (c =? "e")%char || (c =? "E")%char then
            let '(s, r1) := number_sign r in
            Some ((if bool_decide (s = ["-"%char]) then -1 else 1) * digits_val (digits r1).1)%Z
          else None
      end;
  let v := round_decimal negative (digits_val (i ++ f)) (e - Z.of_nat (length f)) in
  if IsInf v then None else Some v.

(** ** Decoding into fields

    A setter of one field answers what the field holds behind a member and whether
    the member fits its type; decoding goes on behind a member that does not. *)
Definition set_int (t : jtree) (old : Z) : Z * bool :=
  match t with
  | JAtom raw => if is_null raw then (old, true) else match json_int raw with Some v => (v, true) | None => (old, false) end
  | _ => (old, false)
  end.
Definition set_bool (t : jtree) (old : bool) : bool * bool :=
  match t with
  | JAtom raw => if is_null raw then (old, true)
                 else if decide (raw = chars "true") then (true, true)
                 else if decide (raw = chars "false") then (false, true)
                 else (old, false)
  | _ => (old, false)
  end.
Definition set_float (t : jtree) (old : float64) : float64 * bool :=
  match t with
  | JAtom raw => if is_null raw then (old, true) else match json_float raw with Some v => (v, true) | None => (old, false) end
  | _ => (old, false)
  end.
(** A pointer to an int: [null] makes it nil. *)
Definition set_int_ptr (t : jtree) (old : option Z) : option Z * bool :=
  match t with
  | JAtom raw => if is_null raw then (None, true) else match json_int raw with Some v => (Some v, true) | None => (Some (default 0%Z old), false) end
  | _ => (Some (default 0%Z old), false)
  end.

Section Struct.
Context {S : Type} (set : Bytes → jtree → S → S * bool).

Definition set_field (st : S * bool) (m : Bytes * jtree) : S * bool :=
  let '(v, ok) := set m.1 m.2 st.1 in (v, st.2 && ok).

Definition set_struct (t : jtree) (old : S) : S * bool :=
  match t with
  | JObj members => foldl set_field (old, true) members
  | JAtom raw => (old, is_null raw)
  | _ => (old, false)
  end.

(** [json.Unmarshal] into a zero value: what it holds then, and whether there was
    no error. *)
Definition Unmarshal (zero : S) (line : Bytes) : S * bool :=
  match json_tree line with Some t => set_struct t zero | None => (zero, false) end.
End Struct.

(** [f <- field], for a setter's member. *)
Definition into {S A} (make : A → S) (r : A * bool) : S * bool := (make r.1, r.2).

(** ** Results *)

Record Usage := mkUsage { us_InputTokens : Z; us_OutputTokens : Z; us_CachedInputTokens : Z; us_CostUSD : float64 }.
Definition zero_usage : Usage := mkUsage 0 0 0 float_zero.

Record Result := mkResult {
  rs_SessionID : string; rs_AssistantOutput : string; rs_Usage : Usage; rs_Invocation : Invocation }.

(** How the turn ended around the ingestion: what supervision answered, closing
    the evidence, and the process's exit. *)
Record Ending := mkEnding { en_run : option TurnError; en_closeFails : bool; en_exit : option TurnError }.

Definition opt_err {A} (mk : A → RunnerError) (o : option A) : list RunnerError :=
  match o with Some a => [mk a] | None => [] end.

Definition close_errors (e : Ending) : list RunnerError := if en_closeFails e then [ErrCloseEvidence] else [].
Definition exit_errors (e : Ending) : list RunnerError := opt_err ErrExited (en_exit e).
(** A stream provider's supervision error keeps the evidence ceiling's sentinel. *)
Definition stream_run_errors (e : Ending) : list RunnerError :=
  match en_run e with
  | None => []
  | Some err => ErrSupervision err ::
      (if is_one_of err [SnObservedOutputTooLarge] then [ErrSentinel ErrStructuredEvidenceTooLarge] else [])
  end.

(** Lines handed to [onLine] until it says it is done. *)
Section Lines.
Context {L S : Type} (onLine : L → S → bool * S).
Fixpoint ingest (lines : list L) (s : S) : bool * S :=
  match lines with
  | [] => (false, s)
  | line :: lines' => let '(done, s') := onLine line s in if done : bool then (true, s') else ingest lines' s'
  end.
End Lines.

(** ** Claude *)
Record claudeResultFrame := mkClaudeFrame {
  cf_TotalCostUSD : float64; cf_Subtype : list Z; cf_IsError : bool; cf_APIErrorStatus : Z; cf_TerminalReason : list Z;
  cf_InputTokens : Z; cf_OutputTokens : Z; cf_CacheReadInputTokens : Z; cf_CacheCreationInputTokens : Z }.
Definition claude_zero_frame : claudeResultFrame := mkClaudeFrame float_zero [] false 0 [] 0 0 0 0.

Definition claude_set_usage (key : Bytes) (t : jtree) (f : claudeResultFrame) : claudeResultFrame * bool :=
  let with_tokens i o r c := mkClaudeFrame (cf_TotalCostUSD f) (cf_Subtype f) (cf_IsError f) (cf_APIErrorStatus f) (cf_TerminalReason f) i o r c in
  let i := cf_InputTokens f in let o := cf_OutputTokens f in
  let r := cf_CacheReadInputTokens f in let c := cf_CacheCreationInputTokens f in
  if names key "input_tokens" then into (λ v, with_tokens v o r c) (set_int t i)
  else if names key "output_tokens" then into (λ v, with_tokens i v r c) (set_int t o)
  else if names key "cache_read_input_tokens" then into (λ v, with_tokens i o v c) (set_int t r)
  else if names key "cache_creation_input_tokens" then into (λ v, with_tokens i o r v) (set_int t c)
  else (f, true).

Definition claude_set_frame (key : Bytes) (t : jtree) (f : claudeResultFrame) : claudeResultFrame * bool :=
  let build cost sub err status reason :=
    mkClaudeFrame cost sub err status reason (cf_InputTokens f) (cf_OutputTokens f) (cf_CacheReadInputTokens f) (cf_CacheCreationInputTokens f) in
  let cost := cf_TotalCostUSD f in let sub := cf_Subtype f in let err := cf_IsError f in
  let status := cf_APIErrorStatus f in let reason := cf_TerminalReason f in
  if names key "total_cost_usd" then into (λ v, build v sub err status reason) (set_float t cost)
  else if names key "subtype" then into (λ v, build cost v err status reason) (set_string t sub)
  else if names key "is_error" then into (λ v, build cost sub v status reason) (set_bool t err)
  else if names key "api_error_status" then into (λ v, build cost sub err v reason) (set_int t status)
  else if names key "terminal_reason" then into (λ v, build cost sub err status v) (set_string t reason)
  else if names key "usage" then set_struct claude_set_usage t f
  else (f, true).

Definition claudeTerminalAPIError : string := "api_error".

Definition claudeFailureForStatus (status : Z) : option Sentinel :=
  (if status =? 401 then Some ErrClaudeAuthentication
   else if status =? 403 then Some ErrClaudeModelAccess
   else if status =? 429 then Some ErrClaudeRateLimit
   else if status =? 400 then Some ErrClaudeInvalidRequest
   else if (500 <=? status) && (status <=? 599) then Some ErrClaudeServiceUnavailable
   else None)%Z.

Definition frame_failure (f : claudeResultFrame) : option Sentinel :=
  if negb (cf_IsError f) && bool_decide (cf_Subtype f = runes_of "success") then None
  else if bool_decide (cf_Subtype f = runes_of "error_max_turns") then Some ErrClaudeMaximumTurns
  else match claudeFailureForStatus (cf_APIErrorStatus f) with
       | Some category => Some category
       | None => if bool_decide (cf_TerminalReason f = runes_of claudeTerminalAPIError)
                 then Some ErrClaudeAPIFailure else Some ErrClaudeResultFailed
       end.

Definition frame_usage (f : claudeResultFrame) : Usage :=
  mkUsage (cf_InputTokens f) (cf_OutputTokens f) (wrap64 (cf_CacheReadInputTokens f + cf_CacheCreationInputTokens f)) (cf_TotalCostUSD f).

(** The envelope: its type and its undecoded message. *)
Definition claude_set_envelope (key : Bytes) (t : jtree) (e : list Z * option jtree) : (list Z * option jtree) * bool :=
  if names key "type" then into (λ v, (v, e.2)) (set_string t e.1)
  else if names key "message" then ((e.1, Some t), true)
  else (e, true).

Inductive Parsed := Noise | Other | Assistant (text : Bytes) | ResultFrame (f : claudeResultFrame).

(** A result frame keeps what could be decoded of it. *)
Definition parseClaudeStreamLine (line : Bytes) : Parsed :=
  let '((kind, message), ok) := Unmarshal claude_set_envelope ([], None) line in
  if negb ok || bool_decide (kind = []) then Noise
  else if bool_decide (kind = runes_of "assistant") then Assistant (utf8 (extractAssistantText message))
  else if bool_decide (kind = runes_of "result") then ResultFrame (Unmarshal claude_set_frame claude_zero_frame line).1
  else Other.

Definition parseClaudeUsage (raw : Bytes) : Usage :=
  if decide (raw = []) then zero_usage
  else let '(f, ok) := Unmarshal claude_set_frame claude_zero_frame raw in if ok : bool then frame_usage f else zero_usage.

(** [sawResult] and [frame] are one option. *)
Record ClaudeTurn := mkClaudeTurn {
  ct_evidence : boundedEvidenceFile;
  ct_assistant : boundedResultBuffer;
  ct_frame : option claudeResultFrame;
  ct_ingestErr : option RunnerError;
  ct_resultErr : option Sentinel }.
Definition claude_start : ClaudeTurn := mkClaudeTurn new_evidence new_buffer None None None.

Definition claude_set_evidence f (t : ClaudeTurn) : ClaudeTurn := mkClaudeTurn f (ct_assistant t) (ct_frame t) (ct_ingestErr t) (ct_resultErr t).
Definition claude_set_assistant b (t : ClaudeTurn) : ClaudeTurn := mkClaudeTurn (ct_evidence t) b (ct_frame t) (ct_ingestErr t) (ct_resultErr t).
Definition claude_set_ingestErr e (t : ClaudeTurn) : ClaudeTurn := mkClaudeTurn (ct_evidence t) (ct_assistant t) (ct_frame t) (Some e) (ct_resultErr t).
Definition claude_set_result f (t : ClaudeTurn) : ClaudeTurn :=
  mkClaudeTurn (ct_evidence t) (ct_assistant t) (Some f) (ct_ingestErr t) (frame_failure f).

Section claude_Run.
Context (disk : Z → Bytes → nat * bool).

Definition claude_onLine (line : Bytes) (t : ClaudeTurn) : bool * ClaudeTurn :=
  match parseClaudeStreamLine line with
  | Noise => (false, t)
  | parsed =>
      let '(werr, evidence) := writeFrame disk line (ct_evidence t) in
      let t := claude_set_evidence evidence t in
      match werr with
      | Some e => (true, claude_set_ingestErr e t)
      | None =>
          match parsed with
          | Assistant text =>
              if decide (text = []) then (false, t)
              else match writeString text (ct_assistant t) with
                   | Err e => (true, claude_set_ingestErr (ErrSentinel e) t)
                   | Ok b => (false, claude_set_assistant b t)
                   end
          | ResultFrame f => (match frame_failure f with Some _ => true | None => false end, claude_set_result f t)
          | _ => (false, t)
          end
      end
  end.

Definition claude_outcome (sessionID outputSchema : string) (invocation : Invocation) (e : Ending) (t : ClaudeTurn)
    : result (list RunnerError) Result :=
  let runErr := stream_run_errors e in
  let closeErr := close_errors e in
  let own := opt_err id (ct_ingestErr t) ++ opt_err ErrSentinel (ct_resultErr t) in
  match own, runErr ++ closeErr with
  | _ :: _, supervised => Err (own ++ supervised)
  | [], _ :: _ => Err (runErr ++ closeErr)
  | [], [] =>
      match en_exit e with
      | Some exitErr => Err [ErrExited exitErr]
      | None =>
          match ct_frame t with
          | None => Err [ErrSentinel ErrClaudeMissingResult]
          | Some frame =>
              Ok (mkResult sessionID (normalizeStructuredOutput (of_chars (rb_buf (ct_assistant t))) outputSchema)
                    (frame_usage frame) invocation)
          end
      end
  end.

Definition claude_Run (sessionID outputSchema : string) (invocation : Invocation) (lines : list Bytes) (e : Ending)
    : result (list RunnerError) Result :=
  claude_outcome sessionID outputSchema invocation e (ingest claude_onLine lines claude_start).2.
End claude_Run.

(** ** opencode *)
Record opencodePart := mkOpencodePart {
  op_Text : list Z; op_Reason : list Z;
  op_Total : Z; op_Input : Z; op_Output : Z; op_Reasoning : Z; op_CacheWrite : Z; op_CacheRead : Z;
  op_Cost : float64 }.
Definition opencode_zero_part : opencodePart := mkOpencodePart [] [] 0 0 0 0 0 0 float_zero.

Record opencodeEvent := mkOpencodeEvent { oe_Type : list Z; oe_SessionID : list Z; oe_Part : opencodePart }.
Definition opencode_zero_event : opencodeEvent := mkOpencodeEvent [] [] opencode_zero_part.

Definition opencode_set_cache (key : Bytes) (t : jtree) (p : opencodePart) : opencodePart * bool :=
  let build w r := mkOpencodePart (op_Text p) (op_Reason p) (op_Total p) (op_Input p) (op_Output p) (op_Reasoning p) w r (op_Cost p) in
  if names key "write" then into (λ v, build v (op_CacheRead p)) (set_int t (op_CacheWrite p))
  else if names key "read" then into (λ v, build (op_CacheWrite p) v) (set_int t (op_CacheRead p))
  else (p, true).

Definition opencode_set_tokens (key : Bytes) (t : jtree) (p : opencodePart) : opencodePart * bool :=
  let build total i o r := mkOpencodePart (op_Text p) (op_Reason p) total i o r (op_CacheWrite p) (op_CacheRead p) (op_Cost p) in
  let total := op_Total p in let i := op_Input p in let o := op_Output p in let r := op_Reasoning p in
  if names key "total" then into (λ v, build v i o r) (set_int t total)
  else if names key "input" then into (λ v, build total v o r) (set_int t i)
  else if names key "output" then into (λ v, build total i v r) (set_int t o)
  else if names key "reasoning" then into (λ v, build total i o v) (set_int t r)
  else if names key "cache" then set_struct opencode_set_cache t p
  else (p, true).

Definition opencode_set_part (key : Bytes) (t : jtree) (p : opencodePart) : opencodePart * bool :=
  let build text reason cost :=
    mkOpencodePart text reason (op_Total p) (op_Input p) (op_Output p) (op_Reasoning p) (op_CacheWrite p) (op_CacheRead p) cost in
  if names key "text" then into (λ v, build v (op_Reason p) (op_Cost p)) (set_string t (op_Text p))
  else if names key "reason" then into (λ v, build (op_Text p) v (op_Cost p)) (set_string t (op_Reason p))
  else if names key "tokens" then set_struct opencode_set_tokens t p
  else if names key "cost" then into (λ v, build (op_Text p) (op_Reason p) v) (set_float t (op_Cost p))
  else (p, true).

Definition opencode_set_event (key : Bytes) (t : jtree) (e : opencodeEvent) : opencodeEvent * bool :=
  if names key "type" then into (λ v, mkOpencodeEvent v (oe_SessionID e) (oe_Part e)) (set_string t (oe_Type e))
  else if names key "sessionID" then into (λ v, mkOpencodeEvent (oe_Type e) v (oe_Part e)) (set_string t (oe_SessionID e))
  else if names key "part" then into (λ v, mkOpencodeEvent (oe_Type e) (oe_SessionID e) v) (set_struct opencode_set_part t (oe_Part e))
  else (e, true).

Definition opencode_usage (p : opencodePart) : Usage := mkUsage (op_Input p) (op_Output p) (op_CacheRead p) (op_Cost p).

Definition maxInt : Z := 9223372036854775807.

(** [None]: [ErrOpencodeInvalidUsage], the total untouched. *)
Definition addOpencodeUsage (total step : Usage) : option Usage :=
  if ((us_InputTokens step <? 0) || (us_OutputTokens step <? 0) || (us_CachedInputTokens step <? 0))%Z ||
     SFltb (us_CostUSD step) float_zero || IsNaN (us_CostUSD step) || IsInf (us_CostUSD step)
  then None
  else if ((wrap64 (maxInt - us_InputTokens total) <? us_InputTokens step) ||
           (wrap64 (maxInt - us_OutputTokens total) <? us_OutputTokens step) ||
           (wrap64 (maxInt - us_CachedInputTokens total) <? us_CachedInputTokens step))%Z ||
          SFltb (float_sub MaxFloat64 (us_CostUSD step)) (us_CostUSD total)
  then None
  else Some (mkUsage (wrap64 (us_InputTokens total + us_InputTokens step)) (wrap64 (us_OutputTokens total + us_OutputTokens step))
               (wrap64 (us_CachedInputTokens total + us_CachedInputTokens step)) (float_add (us_CostUSD total) (us_CostUSD step))).

Definition parseOpencodeEvent (line : Bytes) : option opencodeEvent :=
  let trimmed := chars (TrimSpace (of_chars line)) in
  if decide (trimmed = []) then None
  else let '(ev, ok) := Unmarshal opencode_set_event opencode_zero_event trimmed in
       if negb ok || bool_decide (oe_Type ev = []) then None else Some ev.

(** [sawFinish] and [finalReason] are one option. *)
Record OpencodeTurn := mkOpencodeTurn {
  ot_evidence : boundedEvidenceFile;
  ot_assistant : boundedResultBuffer;
  ot_sessionID : Bytes;
  ot_usage : Usage;
  ot_finish : option (list Z);
  ot_sawError : bool;
  ot_ingestErr : option RunnerError }.
Definition opencode_start : OpencodeTurn := mkOpencodeTurn new_evidence new_buffer [] zero_usage None false None.

Definition opencode_set_evidence f (t : OpencodeTurn) : OpencodeTurn :=
  mkOpencodeTurn f (ot_assistant t) (ot_sessionID t) (ot_usage t) (ot_finish t) (ot_sawError t) (ot_ingestErr t).
Definition opencode_set_assistant b (t : OpencodeTurn) : OpencodeTurn :=
  mkOpencodeTurn (ot_evidence t) b (ot_sessionID t) (ot_usage t) (ot_finish t) (ot_sawError t) (ot_ingestErr t).
Definition opencode_set_sessionID s (t : OpencodeTurn) : OpencodeTurn :=
  mkOpencodeTurn (ot_evidence t) (ot_assistant t) s (ot_usage t) (ot_finish t) (ot_sawError t) (ot_ingestErr t).
Definition opencode_set_finish u reason (t : OpencodeTurn) : OpencodeTurn :=
  mkOpencodeTurn (ot_evidence t) (ot_assistant t) (ot_sessionID t) u (Some reason) (ot_sawError t) (ot_ingestErr t).
Definition opencode_set_sawError (t : OpencodeTurn) : OpencodeTurn :=
  mkOpencodeTurn (ot_evidence t) (ot_assistant t) (ot_sessionID t) (ot_usage t) (ot_finish t) true (ot_ingestErr t).
Definition opencode_set_ingestErr e (t : OpencodeTurn) : OpencodeTurn :=
  mkOpencodeTurn (ot_evidence t) (ot_assistant t) (ot_sessionID t) (ot_usage t) (ot_finish t) (ot_sawError t) (Some e).

(** The switch over the event's type. *)
Definition on_event (ev : opencodeEvent) (t : OpencodeTurn) : bool * OpencodeTurn :=
  if bool_decide (oe_Type ev = runes_of "text") then
    match writeStringReserved (utf8 (op_Text (oe_Part ev))) (len (ot_sessionID t)) (ot_assistant t) with
    | Err e => (true, opencode_set_ingestErr (ErrSentinel e) t)
    | Ok b => (false, opencode_set_assistant b t)
    end
  else if bool_decide (oe_Type ev = runes_of "step_finish") then
    match addOpencodeUsage (ot_usage t) (opencode_usage (oe_Part ev)) with
    | None => (true, opencode_set_ingestErr (ErrSentinel ErrOpencodeInvalidUsage) t)
    | Some u => (false, opencode_set_finish u (op_Reason (oe_Part ev)) t)
    end
  else if bool_decide (oe_Type ev = runes_of "error") then (true, opencode_set_sawError t)
  else (false, t).

Section opencode_Run.
Context (disk : Z → Bytes → nat * bool).

Definition opencode_onLine (line : Bytes) (t : OpencodeTurn) : bool * OpencodeTurn :=
  match parseOpencodeEvent line with
  | None => (false, t)
  | Some ev =>
      let '(werr, evidence) := writeFrame disk line (ot_evidence t) in
      let t := opencode_set_evidence evidence t in
      match werr with
      | Some e => (true, opencode_set_ingestErr e t)
      | None =>
          let session := utf8 (oe_SessionID ev) in
          if negb (bool_decide (session = [])) && (maxAuthoritativeResultBytes - rb_n (ot_assistant t) <? len session)%Z
          then (true, opencode_set_ingestErr (ErrSentinel ErrAuthoritativeResultTooLarge) t)
          else on_event ev (if decide (session = []) then t else opencode_set_sessionID session t)
      end
  end.

Definition opencode_outcome (outputSchema : string) (invocation : Invocation) (e : Ending) (t : OpencodeTurn)
    : result (list RunnerError) Result :=
  match opt_err id (ot_ingestErr t) ++ stream_run_errors e ++ close_errors e with
  | _ :: _ as errs => Err errs
  | [] =>
      match (if ot_sawError t then [ErrSentinel ErrOpencodeReportedError] else []) ++ exit_errors e with
      | _ :: _ as errs => Err errs
      | [] =>
          match ot_finish t with
          | None => Err [ErrSentinel ErrOpencodeMissingFinish]
          | Some reason =>
              if negb (bool_decide (reason = runes_of "stop")) && negb (bool_decide (reason = runes_of "length"))
              then Err [ErrSentinel ErrOpencodeFinalReason]
              else Ok (mkResult (of_chars (ot_sessionID t))
                         (normalizeStructuredOutput (of_chars (rb_buf (ot_assistant t))) outputSchema) (ot_usage t) invocation)
          end
      end
  end.

Definition opencode_Run (outputSchema : string) (invocation : Invocation) (lines : list Bytes) (e : Ending)
    : result (list RunnerError) Result :=
  opencode_outcome outputSchema invocation e (ingest opencode_onLine lines opencode_start).2.
End opencode_Run.

(** ** Copilot *)
Record copilotResultCollector := mkCopilotCollector {
  pc_assistantText : list Z; pc_sessionID : list Z; pc_resultSeen : bool; pc_exitCode : Z }.
Definition new_copilot_collector : copilotResultCollector := mkCopilotCollector [] [] false 0.

Record copilotFrame := mkCopilotFrame { pf_Type : list Z; pf_Data : option jtree; pf_SessionID : list Z; pf_ExitCode : option Z }.
Definition copilot_zero_frame : copilotFrame := mkCopilotFrame [] None [] None.

Definition copilot_set_frame (key : Bytes) (t : jtree) (f : copilotFrame) : copilotFrame * bool :=
  if names key "type" then into (λ v, mkCopilotFrame v (pf_Data f) (pf_SessionID f) (pf_ExitCode f)) (set_string t (pf_Type f))
  else if names key "data" then (mkCopilotFrame (pf_Type f) (Some t) (pf_SessionID f) (pf_ExitCode f), true)
  else if names key "sessionId" then into (λ v, mkCopilotFrame (pf_Type f) (pf_Data f) v (pf_ExitCode f)) (set_string t (pf_SessionID f))
  else if names key "exitCode" then into (λ v, mkCopilotFrame (pf_Type f) (pf_Data f) (pf_SessionID f) v) (set_int_ptr t (pf_ExitCode f))
  else (f, true).

(** The content of an [assistant.message]'s data; absent data is no JSON. *)
Definition copilot_set_data (key : Bytes) (t : jtree) (content : list Z) : list Z * bool :=
  if names key "content" then set_string t content else (content, true).
Definition message_content (data : option jtree) : option (list Z) :=
  match data with
  | None => None
  | Some t => let '(content, ok) := set_struct copilot_set_data t [] in if ok : bool then Some content else None
  end.

Definition copilot_consume (line : Bytes) (c : copilotResultCollector) : copilotResultCollector :=
  let '(f, ok) := Unmarshal copilot_set_frame copilot_zero_frame line in
  if negb ok then c
  else if bool_decide (pf_Type f = runes_of "assistant.message") then
    match message_content (pf_Data f) with
    | Some content => mkCopilotCollector content (pc_sessionID c) (pc_resultSeen c) (pc_exitCode c)
    | None => c
    end
  else if bool_decide (pf_Type f = runes_of "result") then
    mkCopilotCollector (pc_assistantText c) (pf_SessionID f) true (default (pc_exitCode c) (pf_ExitCode f))
  else c.

Definition copilot_failed (c : copilotResultCollector) : bool := pc_resultSeen c && negb (pc_exitCode c =? 0)%Z.
Definition copilot_succeeded (c : copilotResultCollector) : bool := pc_resultSeen c && (pc_exitCode c =? 0)%Z.

Definition copilot_onLine (line : Bytes) (c : copilotResultCollector) : bool * copilotResultCollector :=
  let c := copilot_consume line c in (copilot_failed c, c).

Definition copilot_outcome (outputSchema : string) (invocation : Invocation) (e : Ending) (c : copilotResultCollector)
    : result (list RunnerError) Result :=
  match en_run e with
  | Some err => Err [ErrSupervision err]
  | None =>
      if negb (copilot_succeeded c) then Err (ErrCopilotTurnFailed :: exit_errors e)
      else match en_exit e with
           | Some err => Err [ErrExited err]
           | None => Ok (mkResult (of_chars (utf8 (pc_sessionID c)))
                           (normalizeStructuredOutput (of_chars (utf8 (pc_assistantText c))) outputSchema) zero_usage invocation)
           end
  end.

Definition copilot_Run (outputSchema : string) (invocation : Invocation) (lines : list Bytes) (e : Ending)
    : result (list RunnerError) Result :=
  copilot_outcome outputSchema invocation e (ingest copilot_onLine lines new_copilot_collector).2.

(** ** Codex *)
Section Codex.
Context `{UnicodeTables}.

Definition codex_onInput (i : Input) (c : codexDiagnosticCollector) : bool * codexDiagnosticCollector :=
  match i with
  | Line line => let c := consume line c in (failed c, c)
  | Prefix prefix => consumeDiscardedPrefix prefix c
  end.

(** [file] is the authoritative result as it is read. *)
Definition codex_outcome (outputSchema : string) (invocation : Invocation) (e : Ending) (file : result RunnerError Bytes)
    (c : codexDiagnosticCollector) : result (list RunnerError) Result :=
  match en_run e with
  | Some err => Err [ErrSupervision err]
  | None =>
      match failure c, en_exit e with
      | Some diagnosticErr, exitErr => Err (ErrDiagnosed diagnosticErr (collector_String c) :: opt_err ErrExited exitErr)
      | None, Some exitErr => Err [ErrExited exitErr]
      | None, None =>
          match file with
          | Err err => Err [err]
          | Ok raw => Ok (mkResult "" (normalizeStructuredOutput (of_chars raw) outputSchema) zero_usage invocation)
          end
      end
  end.

Definition codex_Run (outputSchema : string) (invocation : Invocation) (inputs : list Input) (e : Ending)
    (file : result RunnerError Bytes) : result (list RunnerError) Result :=
  codex_outcome outputSchema invocation e file (ingest codex_onInput inputs new_collector).2.
End Codex.
