(* ===== verification/RunnersProps.v ===== *)
(** * The built-in runners, proved

    A turn succeeds exactly when its frames say so, its text and evidence stay
    inside their ceilings, and the process ended cleanly; what the operator is told
    of a refusal follows from the provider's status; the prompt reaches the
    command byte for byte. *)
From Stdlib Require Import SpecFloat.
From S2P Require Import Prelude GoLib GoJson Provider CodexDiag CodexDiagProps Declarative RunnerIo Runners.

(** ** Common facts *)

#[local] Instance Ok_inj {E A} : Inj (=) (=) (@Ok E A).
Proof. intros a b H. congruence. Qed.

Lemma len_app a b : len (a ++ b) = (len a + len b)%Z.
Proof. unfold len. rewrite length_app. lia. Qed.
Lemma len_nonneg a : (0 ≤ len a)%Z.
Proof. unfold len. lia. Qed.

(** The disk takes a frame whole at its position; and a series of them, each behind
    the last. *)
Definition stores (disk : Z → Bytes → nat * bool) (pos : Z) (frame : Bytes) : Prop := disk pos frame = (length frame, false).
Fixpoint stored (disk : Z → Bytes → nat * bool) (pos : Z) (frames : list Bytes) : Prop :=
  match frames with
  | [] => True
  | frame :: frames' => stores disk pos frame ∧ stored disk (pos + len frame) frames'
  end.

#[export] Instance stores_dec disk pos frame : Decision (stores disk pos frame).
Proof. unfold stores. apply _. Defined.

Definition total (parts : list Bytes) : Z := len (concat parts).

Lemma total_cons p parts : total (p :: parts) = (len p + total parts)%Z.
Proof. apply len_app. Qed.
Lemma total_nonneg parts : (0 ≤ total parts)%Z.
Proof. apply len_nonneg. Qed.

Lemma total_app a b : total (a ++ b) = (total a + total b)%Z.
Proof. unfold total. by rewrite concat_app, len_app. Qed.

Lemma stored_app disk pos a b : stored disk pos (a ++ b) ↔ stored disk pos a ∧ stored disk (pos + total a) b.
Proof.
  revert pos. induction a as [|x a IH]; intros pos; [unfold total, len; simpl; rewrite Z.add_0_r; tauto|].
  cbn [app stored]. rewrite IH, total_cons, Z.add_assoc. tauto.
Qed.

Lemma writeFrame_stores disk frame f : stores disk (ef_n f) frame →
  writeFrame disk frame f =
    if (maxStructuredEvidenceBytes - ef_n f <? len frame)%Z then (Some (ErrSentinel ErrStructuredEvidenceTooLarge), f)
    else (None, mkEvidence (ef_file f ++ frame) (ef_n f + len frame)).
Proof.
  intros Hd. unfold writeFrame. case_match; [done|]. rewrite Hd, firstn_all. by rewrite Nat.eqb_refl.
Qed.

Lemma writeFrame_fails disk frame f : ¬ stores disk (ef_n f) frame → ∃ e f', writeFrame disk frame f = (Some e, f').
Proof.
  intros Hd. unfold writeFrame, stores in *. case_match; [by eexists _, _|]. destruct (disk (ef_n f) frame) as [n b].
  destruct b; [by eexists _, _|]. destruct (Nat.eqb_spec n (length frame)) as [->|]; [done|by eexists _, _].
Qed.

Lemma writeString_spec value b :
  writeString value b = if (maxAuthoritativeResultBytes - rb_n b <? len value)%Z then Err ErrAuthoritativeResultTooLarge
                        else Ok (mkBuffer (rb_buf b ++ value) (rb_n b + len value)).
Proof.
  unfold writeString, writeStringReserved. rewrite Z.sub_0_r. pose proof (len_nonneg value).
  destruct (maxAuthoritativeResultBytes - rb_n b <? 0)%Z eqn:He; simpl; [|done].
  apply Z.ltb_lt in He. by rewrite (proj2 (Z.ltb_lt _ _)) by lia.
Qed.

(** ** The prompt as a line of JSON *)
Module Prompt.

(** What [decode] yields: a rune and the bytes it was read from. *)
Definition piece (rune : Z) (bytes : Bytes) : Prop :=
  (∃ c, bytes = [c] ∧ (byte_val c < 128)%Z ∧ rune = byte_val c) ∨
  (∃ c, bytes = [c] ∧ (128 ≤ byte_val c)%Z ∧ rune = RuneError) ∨
  (∃ c b, bytes = c :: b ∧ b ≠ [] ∧ Forall (λ x, 128 ≤ byte_val x)%Z bytes ∧ ∀ l, DecodeRune c (b ++ l) = (rune, length bytes)).

Lemma in_range_ge lo hi c : in_range lo hi c = true → (lo ≤ byte_val c)%Z.
Proof. unfold in_range. intros [Hlo _]%andb_true_iff. by apply Z.leb_le in Hlo. Qed.
Lemma cont_ge x : cont x = true → (128 ≤ byte_val x)%Z.
Proof. apply in_range_ge. Qed.
Lemma second_ge c x : second_ok c x = true → (128 ≤ byte_val x)%Z.
Proof. unfold second_ok, cont. repeat case_match; intros Hr%in_range_ge; lia. Qed.

Lemma DecodeRune_local c r : (128 ≤ byte_val c)%Z →
  DecodeRune c r = (RuneError, 1) ∨
  ∃ rune b l, r = b ++ l ∧ b ≠ [] ∧ Forall (λ x, 128 ≤ byte_val x)%Z b ∧ ∀ l', DecodeRune c (b ++ l') = (rune, S (length b)).
Proof.
  intros Hc. unfold DecodeRune. destruct (in_range 194 223 c).
  { destruct r as [|c1 l]; [by left|]. destruct (cont c1) eqn:H1; [right|by left].
    eexists _, [c1], l. split_and!; [done|done|constructor; [by apply cont_ge|constructor]|]. intros l'. cbn [app]. by rewrite H1. }
  destruct (in_range 224 239 c).
  { destruct r as [|c1 [|c2 l]]; [by left..|]. destruct (second_ok c c1 && cont c2) eqn:H1; [right|by left].
    eexists _, [c1; c2], l. pose proof H1 as [Ha Hb]%andb_true_iff. split_and!; [done|done| |intros l'; cbn [app]; by rewrite H1].
    repeat constructor; [by eapply second_ge|by apply cont_ge]. }
  destruct (in_range 240 244 c); [|by left].
  destruct r as [|c1 [|c2 [|c3 l]]]; [by left..|]. destruct (second_ok c c1 && cont c2 && cont c3) eqn:H1; [right|by left].
  eexists _, [c1; c2; c3], l. pose proof H1 as [[Ha Hb]%andb_true_iff Hd]%andb_true_iff.
  split_and!; [done|done| |intros l'; cbn [app]; by rewrite H1]. repeat constructor; [by eapply second_ge|by apply cont_ge..].
Qed.

Lemma rune_at_piece c r : piece (rune_at c r).1 (take (rune_at c r).2 (c :: r)).
Proof.
  unfold rune_at. destruct (byte_val c <? 128)%Z eqn:Hc.
  { apply Z.ltb_lt in Hc. left. exists c. cbn. by rewrite take_0. }
  apply Z.ltb_ge in Hc. right. destruct (DecodeRune_local c r Hc) as [->|(rune & b & l & -> & Hb & Hall & Hl)].
  - left. exists c. cbn. by rewrite take_0.
  - right. exists c, b. rewrite Hl. cbn [fst snd firstn]. rewrite take_app_length. split_and!; [done|done|by constructor|exact Hl].
Qed.

Lemma decode_pieces l : Forall (λ d, piece d.1 d.2) (decode l).
Proof.
  unfold decode. generalize (length l) as n. intros n. revert l. induction n as [|n IH]; intros [|c r]; cbn [decode_n]; try constructor.
  pose proof (rune_at_piece c r) as Hp. destruct (rune_at c r) as [rune k]. constructor; [exact Hp|apply IH].
Qed.

(** The three forms of a byte of ASCII. *)
Lemma json_byte_forms c : (byte_val c < 128)%Z →
  (json_byte c = [c] ∧ (c =? QUOTE)%char = false ∧ (c =? BACKSLASH)%char = false ∧ (32 ≤ byte_val c)%Z) ∨
  (∃ e, json_byte c = [BACKSLASH; e] ∧ simple_escape e = true ∧ (e =? "u")%char = false ∧ escape_val e = byte_val c) ∨
  (∃ h1 h2 h3 h4, json_byte c = [BACKSLASH; "u"%char; h1; h2; h3; h4] ∧ forallb is_hex [h1; h2; h3; h4] = true ∧
     hex4 h1 h2 h3 h4 = byte_val c ∧ is_surrogate (hex4 h1 h2 h3 h4) = false).
Proof.
  intros Hc.
  destruct c as [[] [] [] [] [] [] [] []];
    first [ left; split_and!; first [by vm_compute | vm_compute; congruence]
          | right; left; eexists; split; [vm_compute; reflexivity|by vm_compute]
          | right; right; do 4 eexists; split; [vm_compute; reflexivity|by vm_compute]
          | exfalso; vm_compute in Hc; congruence ].
Qed.

(** What of a text comes back through the string grammar and the decoding. *)
Definition comes_back (text : Bytes) (rune : Z) : Prop :=
  ∀ l, unquote (text ++ l) = rune :: unquote l ∧
       ∀ b rest, scan_string l = Some (b, rest) → scan_string (text ++ l) = Some (text ++ b, rest).

Lemma escape_back e : simple_escape e = true → (e =? "u")%char = false → comes_back [BACKSLASH; e] (escape_val e).
Proof.
  intros He Hu l. split.
  - cbn [app]. rewrite unquote_cons. unfold unquote_rune. cbn [Ascii.eqb]. rewrite Hu. done.
  - intros b rest Hl. cbn [app scan_string]. rewrite He, Hl. done.
Qed.
Lemma hex_back h1 h2 h3 h4 : forallb is_hex [h1; h2; h3; h4] = true → is_surrogate (hex4 h1 h2 h3 h4) = false →
  comes_back [BACKSLASH; "u"%char; h1; h2; h3; h4] (hex4 h1 h2 h3 h4).
Proof.
  intros Hh Hs l. split.
  - cbn [app]. rewrite unquote_cons. unfold unquote_rune.
    change (BACKSLASH =? BACKSLASH)%char with true. change ("u" =? "u")%char with true. cbv iota.
    rewrite getu4_hex, Hs by done. done.
  - intros b rest Hl. cbn [app scan_string]. rewrite Hh, Hl. done.
Qed.
Lemma plain_byte_scan c l b rest : (c =? QUOTE)%char = false → (c =? BACKSLASH)%char = false → (32 ≤ byte_val c)%Z →
  scan_string l = Some (b, rest) → scan_string (c :: l) = Some (c :: b, rest).
Proof. intros Hq Hb Hc Hl. cbn [scan_string]. rewrite Hq, Hb, (proj2 (Z.ltb_ge _ _) Hc), Hl. done. Qed.

Lemma high_byte c : (128 ≤ byte_val c)%Z → (c =? QUOTE)%char = false ∧ (c =? BACKSLASH)%char = false.
Proof. intros Hc. split; apply Ascii.eqb_neq; intros ->; vm_compute in Hc; congruence. Qed.

Lemma json_rune_back rune bytes : piece rune bytes → comes_back (json_rune rune bytes) rune.
Proof.
  intros [(c & -> & Hc & ->)|[(c & -> & Hc & ->)|(c & b & -> & Hb & Hall & Hd)]]; unfold json_rune.
  - rewrite (proj2 (Z.ltb_lt _ _) Hc).
    destruct (json_byte_forms c Hc) as [(-> & Hq & Hbs & H32)|[(e & -> & He & Hu & <-)|(h1 & h2 & h3 & h4 & -> & Hh & <- & Hs)]].
    + intros l. split; [|intros b rest; by apply plain_byte_scan]. cbn [app]. rewrite unquote_cons. unfold unquote_rune.
      by rewrite Hbs, (proj2 (Z.ltb_lt _ _) Hc).
    + by apply escape_back.
    + by apply hex_back.
  - rewrite (proj2 (Z.ltb_ge _ _) Hc). by apply (hex_back "f" "f" "f" "d").
  - destruct b as [|c2 b]; [done|].
    destruct (rune =? 8232)%Z eqn:H1; [apply Z.eqb_eq in H1; subst rune; by apply (hex_back "2" "0" "2" "8")|].
    destruct (rune =? 8233)%Z eqn:H2; [apply Z.eqb_eq in H2; subst rune; by apply (hex_back "2" "0" "2" "9")|]. cbn [orb].
    set (b' := c2 :: b) in *. intros l. split.
    + cbn [app]. rewrite unquote_cons. unfold unquote_rune. apply Forall_cons in Hall as [Hc Hall].
      destruct (high_byte c Hc) as [_ ->]. rewrite (proj2 (Z.ltb_ge _ _) Hc), Hd. cbn [fst snd length skipn]. by rewrite drop_app_length.
    + intros r rest Hl. clear Hd H1 H2. clearbody b'. revert Hall. generalize (c :: b'). intros text Hall.
      induction Hall as [|x text Hx Hall IH]; [done|]. cbn [app]. destruct (high_byte x Hx). apply plain_byte_scan; [done|done|lia|done].
Qed.

Lemma json_escape_back s : unquote (json_escape s) = runes (chars s) ∧
  ∀ rest, scan_string (json_escape s ++ QUOTE :: rest) = Some (json_escape s, rest).
Proof.
  unfold json_escape, runes. pose proof (decode_pieces (chars s)) as Hp. induction Hp as [|[rune bytes] ds Hd Hds [IH1 IH2]]; [done|].
  cbn [fst snd] in Hd. rewrite !fmap_cons. cbn [concat fst snd]. apply json_rune_back in Hd. split.
  - rewrite (proj1 (Hd _)). by rewrite IH1.
  - intros rest. rewrite <- app_assoc. by apply Hd.
Qed.
(** Printed values are read back, with enough fuel, whatever follows. *)
Definition prints (m : nat) (d : N) (text : Bytes) (t : jtree) : Prop :=
  ∀ n rest, m ≤ n → jvalue n d (text ++ rest) = Some (t, rest).

Lemma prints_string d s : prints 1 d (json_string s) (JStr (json_escape s)).
Proof.
  intros [|n] rest Hn; [lia|]. unfold json_string. cbn [app]. rewrite <- app_assoc. cbn [app jvalue].
  change (skip_ws (QUOTE :: ?l)) with (QUOTE :: l). cbn iota. change (QUOTE =? QUOTE)%char with true. cbn iota.
  by rewrite (proj2 (json_escape_back s)).
Qed.

Definition plain_key (key : string) : Prop := ∀ rest, scan_string (chars key ++ QUOTE :: rest) = Some (chars key, rest).

(** Members, each with its key, its text and its tree. *)
Definition member_text (m : string * Bytes * jtree) : Bytes := json_member m.1.1 m.1.2.
Definition member_tree (m : string * Bytes * jtree) : Bytes * jtree := (chars m.1.1, m.2).
Definition member_prints (k : nat) (d : N) (m : string * Bytes * jtree) : Prop := plain_key m.1.1 ∧ prints k d m.1.2 m.2.

Lemma jmembers_back k d m ms : member_prints k d m → Forall (member_prints k d) ms →
  ∀ n rest, k + length ms < n →
  jmembers n d (member_text m ++ concat (cons ","%char <$> (member_text <$> ms)) ++ CLOSE :: rest) =
    Some (member_tree m :: (member_tree <$> ms), rest).
Proof.
  intros Hm Hms. revert m Hm. induction Hms as [|m' ms Hm' Hms IH]; intros [[key text] tree] [Hkey Htext] [|n] rest Hn; try lia;
    cbn [fst snd] in *; unfold member_text at 1, json_member; cbn [fst snd app jmembers]; rewrite <- !app_assoc; cbn [app].
  - change (expect QUOTE (skip_ws (QUOTE :: ?l))) with (Some l). cbn [mbind option_bind]. rewrite Hkey. cbn [mbind option_bind].
    change (expect ":" (skip_ws (":"%char :: ?l))) with (Some l). cbn [mbind option_bind].
    cbn [fmap list_fmap concat app]. rewrite Htext by (cbn in Hn; lia). cbn [mbind option_bind].
    change (expect "}" (skip_ws (CLOSE :: rest))) with (Some rest). done.
  - change (expect QUOTE (skip_ws (QUOTE :: ?l))) with (Some l). cbn [mbind option_bind]. rewrite Hkey. cbn [mbind option_bind].
    change (expect ":" (skip_ws (":"%char :: ?l))) with (Some l). cbn [mbind option_bind].
    rewrite !fmap_cons. cbn [concat app]. rewrite Htext by (cbn in Hn; lia). cbn [mbind option_bind].
    change (expect "}" (skip_ws (","%char :: ?l))) with (@None Bytes). cbn iota.
    change (expect "," (skip_ws (","%char :: ?l))) with (Some l). cbn [mbind option_bind].
    rewrite <- app_assoc. rewrite IH by (done || (cbn in Hn; lia)). done.
Qed.

Lemma prints_object k d m ms : (d ≠ 0)%N → member_prints k (d - 1) m → Forall (member_prints k (d - 1)) ms →
  prints (k + length ms + 2) d (json_object (member_text <$> m :: ms)) (JObj (member_tree <$> m :: ms)).
Proof.
  intros Hd Hm Hms [|n] rest Hn; [lia|]. unfold json_object. rewrite fmap_cons. cbn [app]. rewrite <- !app_assoc. cbn [app jvalue].
  change (skip_ws (OPEN :: ?l)) with (OPEN :: l). cbn iota. change (OPEN =? QUOTE)%char with false. change (OPEN =? "{")%char with true. cbn iota.
  rewrite (proj2 (N.eqb_neq _ _) Hd).
  assert (He : ∀ l, expect "}" (skip_ws (member_text m ++ l)) = None) by done. rewrite He.
  rewrite (jmembers_back k) by (done || lia). done.
Qed.

Lemma prints_array k d text t : (d ≠ 0)%N → prints k (d - 1) text t → head text ≠ None →
  (∀ rest, expect "]" (skip_ws (text ++ rest)) = None) → prints (k + 2) d ("["%char :: text ++ ["]"%char]) (JArr [t]).
Proof.
  intros Hd Ht _ He [|[|n]] rest Hn; [lia..|]. cbn [app]. rewrite <- app_assoc. cbn [app]. remember (S n) as n1. cbn [jvalue].
  change (skip_ws ("["%char :: ?l)) with ("["%char :: l). cbn iota.
  change ("[" =? QUOTE)%char with false. change ("[" =? "{")%char with false. change ("[" =? "[")%char with true. cbn iota.
  rewrite (proj2 (N.eqb_neq _ _) Hd), He. subst n1. cbn [jitems]. rewrite Ht by lia. cbn [mbind option_bind].
  change (expect "]" (skip_ws ("]"%char :: rest))) with (Some rest). done.
Qed.
Lemma prints_frame k line t : prints k maxNestingDepth line t → json_tree (line ++ ["010"%char]) = Some t.
Proof.
  intros Hp. rewrite (json_tree_fuel (S (2 * length (line ++ ["010"%char])) + k)) by lia.
  rewrite Hp by lia. done.
Qed.

Lemma key_plain key : forallb (λ c, negb (c =? QUOTE)%char && negb (c =? BACKSLASH)%char && (32 <=? byte_val c)%Z) (chars key) = true →
  plain_key key.
Proof.
  unfold plain_key. intros Hk rest. induction (chars key) as [|c l IH]; [done|]. cbn [forallb] in Hk.
  apply andb_true_iff in Hk as [[[Hq Hb]%andb_true_iff H32]%andb_true_iff Hl].
  cbn [app]. apply plain_byte_scan; [by apply negb_true_iff|by apply negb_true_iff|by apply Z.leb_le|by apply IH].
Qed.

Lemma scan_no_newline l b rest : scan_string l = Some (b, rest) → "010"%char ∉ b.
Proof.
  remember (length l) as n eqn:Hn. revert l b rest Hn.
  induction n as [n IH] using lt_wf_ind; intros [|c r] b rest -> Hs; [done|]. cbn [scan_string] in Hs.
  destruct (c =? QUOTE)%char; [simplify_eq; apply not_elem_of_nil|].
  destruct (Ascii.eqb_spec c BACKSLASH) as [->|Hb].
  - destruct r as [|e r1]; [done|]. destruct (simple_escape e) eqn:He.
    + apply option_bind_some in Hs as ([b1 rest1] & Hs & Heq). simplify_eq.
      apply (IH (length r1)) in Hs; [|simpl; lia|done]. rewrite !not_elem_of_cons. split_and!; [done|by intros <-|done].
    + destruct (Ascii.eqb_spec e "u"%char) as [->|]; [|done].
      destruct r1 as [|h1 [|h2 [|h3 [|h4 r2]]]]; try done.
      destruct (forallb is_hex [h1; h2; h3; h4]) eqn:Hh; [|done].
      apply option_bind_some in Hs as ([b1 rest1] & Hs & Heq). simplify_eq.
      apply (IH (length r2)) in Hs; [|simpl; lia|done]. cbn [forallb] in Hh. rewrite !andb_true_iff in Hh.
      rewrite !not_elem_of_cons. split_and!; try done; intros <-; by destruct_and! Hh.
  - destruct (byte_val c <? 32)%Z eqn:H32; [done|].
    apply option_bind_some in Hs as ([b1 rest1] & Hs & Heq). simplify_eq.
    apply (IH (length r)) in Hs; [|simpl; lia|done]. rewrite not_elem_of_cons. split; [|done]. by intros <-.
Qed.

(** C23: The prompt reaches Claude byte for byte: whatever the user's text, the input
    is one line - a newline at its end and none inside -, and read back as JSON it
    is the user message of the protocol whose only content is a text that decodes
    to the runes of the prompt, quotes, control bytes, markup and broken UTF-8
    included. *)
Theorem claude_prompt_arrives prompt :
  (∃ line, streamJSONInput prompt = line ++ ["010"%char] ∧ "010"%char ∉ line) ∧
  ∃ text, unquote text = runes (chars prompt) ∧
  json_tree (streamJSONInput prompt) = Some (JObj
    [(chars "type", JStr (chars "user"));
     (chars "message", JObj
       [(chars "role", JStr (chars "user"));
        (chars "content", JArr [JObj [(chars "type", JStr (chars "text")); (chars "text", JStr text)]])])]).
Proof.
  split.
  - eexists. split; [unfold streamJSONInput; reflexivity|].
    assert (Hn : ∀ s, "010"%char ∉ json_escape s) by (intros s; exact (scan_no_newline _ _ _ (proj2 (json_escape_back s) []))).
    unfold json_string, json_member, json_object. cbn [fmap list_fmap concat app chars].
    repeat match goal with
    | |- _ ∉ _ ++ _ => apply not_elem_of_app; split
    | |- _ ∉ _ :: _ => apply not_elem_of_cons; split
    | |- _ ∉ [] => apply not_elem_of_nil
    | |- _ ∉ json_escape _ => apply Hn
    | |- _ ≠ _ => discriminate
    end.
  - exists (json_escape prompt). split; [apply json_escape_back|].
    unfold streamJSONInput.
    set (item := json_object [json_member "type" (json_string "text"); json_member "text" (json_string prompt)]).
    set (content := "["%char :: item ++ ["]"%char]).
    set (message := json_object [json_member "role" (json_string "user"); json_member "content" content]).
    assert (Hitem : prints 4 9997 item (JObj [(chars "type", JStr (chars "text")); (chars "text", JStr (json_escape prompt))])).
    { apply (prints_object 1 9997 ("type", json_string "text", JStr (json_escape "text")) [("text", json_string prompt, JStr (json_escape prompt))]);
        [done|split; [by apply key_plain|apply prints_string]|apply Forall_singleton; split; [by apply key_plain|apply prints_string]]. }
    assert (Hcontent : prints 6 9998 content (JArr [JObj [(chars "type", JStr (chars "text")); (chars "text", JStr (json_escape prompt))]])).
    { apply (prints_array 4 9998); done. }
    assert (Hmsg : prints 9 9999 message (JObj [(chars "role", JStr (chars "user"));
        (chars "content", JArr [JObj [(chars "type", JStr (chars "text")); (chars "text", JStr (json_escape prompt))]])])).
    { apply (prints_object 6 9999 ("role", json_string "user", JStr (json_escape "user")) [("content", content, _)]);
        [done|split; [by apply key_plain|]|apply Forall_singleton; split; [by apply key_plain|exact Hcontent]].
      intros n rest Hle. apply prints_string. lia. }
    apply (prints_frame 12). apply (prints_object 9 10000 ("type", json_string "user", JStr (json_escape "user")) [("message", message, _)]);
      [done|split; [by apply key_plain|]|apply Forall_singleton; split; [by apply key_plain|exact Hmsg]].
    intros n rest Hle. apply prints_string. lia.
Qed.
End Prompt.

(** ** Claude *)
Module ClaudeRun.

Definition is_frame (line : Bytes) : bool := match parseClaudeStreamLine line with Noise => false | _ => true end.
Definition structured (lines : list Bytes) : list Bytes := base.filter (λ line, is_frame line = true) lines.
Definition text_of (line : Bytes) : Bytes := match parseClaudeStreamLine line with Assistant text => text | _ => [] end.
Definition result_of (line : Bytes) : option claudeResultFrame :=
  match parseClaudeStreamLine line with ResultFrame f => Some f | _ => None end.
Definition results (lines : list Bytes) : list claudeResultFrame := omap result_of lines.

(** What may still come, with [n] bytes of evidence and [m] of text behind. *)
Definition fits (disk : Z → Bytes → nat * bool) (n m : Z) (lines : list Bytes) : Prop :=
  stored disk n (structured lines) ∧
  (n + total (structured lines) ≤ maxStructuredEvidenceBytes)%Z ∧
  (m + total (text_of <$> lines) ≤ maxAuthoritativeResultBytes)%Z ∧
  Forall (λ f, frame_failure f = None) (results lines).

Definition clean (t : ClaudeTurn) : Prop := ct_ingestErr t = None ∧ ct_resultErr t = None.

(** The state behind lines that fit. *)
Definition after (lines : list Bytes) (t : ClaudeTurn) : ClaudeTurn :=
  mkClaudeTurn (mkEvidence (ef_file (ct_evidence t) ++ concat (structured lines)) (ef_n (ct_evidence t) + total (structured lines)))
    (mkBuffer (rb_buf (ct_assistant t) ++ concat (text_of <$> lines)) (rb_n (ct_assistant t) + total (text_of <$> lines)))
    (match last (results lines) with Some f => Some f | None => ct_frame t end) None None.

Lemma fits_cons disk n m line lines :
  fits disk n m (line :: lines) ↔
  (is_frame line = true → stores disk n line) ∧
  (is_frame line = true → n + len line ≤ maxStructuredEvidenceBytes)%Z ∧
  (m + len (text_of line) ≤ maxAuthoritativeResultBytes)%Z ∧
  (∀ f, result_of line = Some f → frame_failure f = None) ∧
  fits disk (n + (if is_frame line then len line else 0)) (m + len (text_of line)) lines ∧
  (n ≤ maxStructuredEvidenceBytes)%Z.
Proof.
  unfold fits, structured, results. rewrite filter_cons, fmap_cons, total_cons. cbn [omap list_omap].
  pose proof (total_nonneg (base.filter (λ line, is_frame line = true) lines)). pose proof (total_nonneg (text_of <$> lines)).
  pose proof (len_nonneg line).
  destruct (is_frame line); [rewrite decide_True, total_cons by done|rewrite decide_False by done];
    destruct (result_of line) as [f|]; rewrite ?Forall_cons; cbn [stored]; rewrite ?Z.add_0_r; naive_solver lia.
Qed.

Definition sized (t : ClaudeTurn) : Prop :=
  (ef_n (ct_evidence t) ≤ maxStructuredEvidenceBytes)%Z ∧ (rb_n (ct_assistant t) ≤ maxAuthoritativeResultBytes)%Z.

(** One line, taken or refused. *)
Definition takes (disk : Z → Bytes → nat * bool) (line : Bytes) (t : ClaudeTurn) : Prop :=
  (is_frame line = true → stores disk (ef_n (ct_evidence t)) line) ∧
  (is_frame line = true → ef_n (ct_evidence t) + len line ≤ maxStructuredEvidenceBytes)%Z ∧
  (rb_n (ct_assistant t) + len (text_of line) ≤ maxAuthoritativeResultBytes)%Z ∧
  (∀ f, result_of line = Some f → frame_failure f = None).

Section Ingest.
Context (disk : Z → Bytes → nat * bool).

Lemma onLine_spec line t : clean t → sized t →
  (takes disk line t ∧ claude_onLine disk line t = (false, after [line] t)) ∨
  (¬ takes disk line t ∧ ∃ t', claude_onLine disk line t = (true, t') ∧ ¬ clean t').
Proof.
  intros [Hi Hr] [Hn Hm]. unfold takes, claude_onLine, after, text_of, result_of, is_frame, results, structured, text_of, result_of, is_frame, total.
  rewrite filter_cons, filter_nil. cbn [omap list_omap fmap list_fmap concat].
  unfold result_of, is_frame, text_of. destruct t as [[file n] [buf m] frame ie re]. cbn [ct_evidence ct_assistant ct_frame ct_ingestErr ct_resultErr ef_n ef_file rb_n rb_buf] in *. subst ie re.
  destruct (parseClaudeStreamLine line) as [| |text|f] eqn:Hp.
  { left. rewrite decide_False by done. cbn [concat app last]. rewrite !app_nil_r. unfold len. cbn [length]. rewrite !Z.add_0_r.
    split; [|done]. split_and!; [done|done|lia|done]. }
  (* a frame that the evidence cannot take ends the ingestion *)
  all: destruct (decide (stores disk n line)) as [Hst|Hst];
    [|destruct (writeFrame_fails disk line (mkEvidence file n) Hst) as (e & f' & ->); right;
      split; [by intros (Hs & _); specialize (Hs eq_refl)|eexists; split; [done|by intros [? _]]]].
  all: rewrite decide_True, writeFrame_stores by done; cbn [ef_n ef_file concat app last];
    destruct (maxStructuredEvidenceBytes - n <? len line)%Z eqn:Hw;
      [apply Z.ltb_lt in Hw; right; split; [intros (_ & H1 & _); specialize (H1 eq_refl); lia|eexists; split; [done|by intros [? _]]]|];
    apply Z.ltb_ge in Hw; cbn [claude_set_evidence ct_evidence ct_assistant ct_frame ct_ingestErr ct_resultErr];
    rewrite !app_nil_r; change (len []) with 0%Z.
  - left. rewrite !Z.add_0_r. split; [|done]. split_and!; [done|lia|lia|done].
  - case_decide as Ht.
    + subst text. left. change (len []) with 0%Z. rewrite app_nil_r, !Z.add_0_r. split; [|done]. split_and!; [done|lia|lia|done].
    + rewrite writeString_spec. cbn [rb_n rb_buf]. destruct (maxAuthoritativeResultBytes - m <? len text)%Z eqn:Hx.
      * right. apply Z.ltb_lt in Hx. split; [intros (_ & _ & H2 & _); lia|]. eexists. split; [done|]. by intros [? _].
      * left. apply Z.ltb_ge in Hx. split; [|done]. split_and!; [done|lia|lia|done].
  - rewrite !Z.add_0_r. unfold claude_set_result. cbn [ct_evidence ct_assistant ct_frame ct_ingestErr ct_resultErr].
    destruct (frame_failure f) as [s|] eqn:Hf.
    + right. split; [intros (_ & _ & _ & H3); specialize (H3 f eq_refl); congruence|]. eexists. split; [done|]. by intros [_ Hre].
    + left. split; [|done]. split_and!; [done|lia|lia|congruence].
Qed.

Lemma after_counts line t :
  ef_n (ct_evidence (after [line] t)) = (ef_n (ct_evidence t) + (if is_frame line then len line else 0))%Z ∧
  rb_n (ct_assistant (after [line] t)) = (rb_n (ct_assistant t) + len (text_of line))%Z.
Proof.
  unfold after, structured, total. rewrite filter_cons, filter_nil. cbn [ct_evidence ct_assistant ef_n rb_n fmap list_fmap concat].
  rewrite app_nil_r. split; [|reflexivity].
  destruct (is_frame line); [rewrite decide_True by done; cbn [concat]; by rewrite app_nil_r|by rewrite decide_False by done].
Qed.

Lemma after_sized line t : sized t → takes disk line t → sized (after [line] t).
Proof.
  intros [Hn Hm] (_ & H1 & H2 & _). unfold sized. destruct (after_counts line t) as [-> ->]. split; [|exact H2].
  destruct (is_frame line); [exact (H1 eq_refl)|lia].
Qed.

Lemma after_cons line lines t : after lines (after [line] t) = after (line :: lines) t.
Proof.
  assert (Hs : structured (line :: lines) = structured [line] ++ structured lines) by (unfold structured; by rewrite <- filter_app).
  assert (Hr : results (line :: lines) = results [line] ++ results lines) by (unfold results; by rewrite <- omap_app).
  unfold after. rewrite Hs, Hr, concat_app, total_app, last_app. change (text_of <$> line :: lines) with ((text_of <$> [line]) ++ (text_of <$> lines)).
  rewrite concat_app, total_app. cbn [ct_evidence ct_assistant ct_frame ef_n ef_file rb_n rb_buf].
  rewrite !app_assoc, !Z.add_assoc. f_equal. by destruct (last (results lines)).
Qed.

Lemma ingest_spec lines t : clean t → sized t →
  (fits disk (ef_n (ct_evidence t)) (rb_n (ct_assistant t)) lines ∧ ingest (claude_onLine disk) lines t = (false, after lines t)) ∨
  (¬ fits disk (ef_n (ct_evidence t)) (rb_n (ct_assistant t)) lines ∧ ¬ clean (ingest (claude_onLine disk) lines t).2).
Proof.
  revert t. induction lines as [|line lines IH]; intros t Hc Hs.
  - left. destruct Hs as [Hn Hm]. unfold fits, after. change (total (structured [])) with 0%Z. change (total (text_of <$> [])) with 0%Z.
    split; [split_and!; [done|lia|lia|constructor]|]. cbn [ingest results omap list_omap last concat structured fmap list_fmap].
    destruct t as [[file n] [buf m] frame ie re], Hc as [Hi Hr]; cbn in *. subst. by rewrite !app_nil_r, !Z.add_0_r.
  - rewrite fits_cons. cbn [ingest]. destruct (onLine_spec line t Hc Hs) as [[Ht ->]|(Ht & t' & -> & Hbad)].
    + destruct (IH (after [line] t)) as [[Hf ->]|[Hf Hbad]]; [done|by apply after_sized| |].
      all: destruct (after_counts line t) as [Hn Hm]; rewrite Hn, Hm in Hf; destruct Hs as [Hs _].
      * left. rewrite after_cons. split; [|reflexivity]. destruct Ht as (? & ? & ? & ?). split_and!; assumption.
      * right. split; [|exact Hbad]. intros (_ & _ & _ & _ & H & _). exact (Hf H).
    + right. split; [|exact Hbad]. intros (H1 & H2 & H3 & H4 & _). apply Ht. split_and!; assumption.
Qed.

Lemma ingest_past lines rest t t' : ingest (claude_onLine disk) lines t = (false, t') →
  ingest (claude_onLine disk) (lines ++ rest) t = ingest (claude_onLine disk) rest t'.
Proof.
  revert t. induction lines as [|line lines IH]; intros t Hd; cbn [ingest app] in *; [by simplify_eq|].
  destruct (claude_onLine disk line t) as [[] t1]; [done|]. by apply IH.
Qed.
End Ingest.

(** C21: A Claude turn succeeds exactly when it earned it: supervision, the evidence
    file and the process ended without an error, every frame was written to the
    evidence file in full, one behind the other and without an error, every result
    frame among the lines is a success and there is one, and the frames and the text
    stay inside their 16 MiB; the result then carries the whole text in order,
    normalised, and the usage of the last result frame. Banner lines and noise
    change nothing. *)
Theorem claude_success_is_earned disk sessionID schema invocation lines e r :
  claude_Run disk sessionID schema invocation lines e = Ok r ↔
  en_run e = None ∧ en_closeFails e = false ∧ en_exit e = None ∧
  stored disk 0 (structured lines) ∧
  (total (structured lines) ≤ maxStructuredEvidenceBytes)%Z ∧
  (total (text_of <$> lines) ≤ maxAuthoritativeResultBytes)%Z ∧
  Forall (λ f, frame_failure f = None) (results lines) ∧
  ∃ f, last (results lines) = Some f ∧
       r = mkResult sessionID (normalizeStructuredOutput (of_chars (concat (text_of <$> lines))) schema) (frame_usage f) invocation.
Proof.
  unfold claude_Run. destruct (ingest_spec disk lines claude_start) as [[Hf ->]|[Hf Hbad]]; [done|split; vm_compute; congruence| |].
  - destruct Hf as (Hst & Hn & Hm & Hr). cbn [claude_start ct_evidence ct_assistant ef_n rb_n new_evidence new_buffer] in Hst, Hn, Hm. rewrite Z.add_0_l in Hn, Hm.
    unfold claude_outcome, after, stream_run_errors, close_errors. cbn [snd claude_start ct_ingestErr ct_resultErr ct_frame ct_assistant rb_buf opt_err app].
    destruct (en_run e); [naive_solver|]. destruct (en_closeFails e); [naive_solver|]. cbn [app].
    destruct (en_exit e); [naive_solver|]. destruct (last (results lines)) as [f|]; [|naive_solver].
    split; [intros [= <-]; by eauto 10|]. intros (_ & _ & _ & _ & _ & _ & _ & f' & [= <-] & ->). done.
  - split.
    + unfold claude_outcome. intros Ho. destruct Hbad. unfold clean.
      destruct (ct_ingestErr _); [done|]. by destruct (ct_resultErr _).
    + intros (_ & _ & _ & Hst & Hn & Hm & Hr & _). destruct Hf. unfold fits. cbn. rewrite !Z.add_0_l. done.
Qed.

(** What the operator is told of a failing result frame. *)
Definition told (f : claudeResultFrame) : FailureCategory :=
  if bool_decide (cf_Subtype f = runes_of "error_max_turns") then FailureProviderRejected
  else (if (cf_APIErrorStatus f =? 401) || (cf_APIErrorStatus f =? 403) then FailureProviderAuth
        else if cf_APIErrorStatus f =? 429 then FailureProviderThrottled
        else if (500 <=? cf_APIErrorStatus f) && (cf_APIErrorStatus f <=? 599) then FailureProviderUnavailable
        else FailureProviderRejected)%Z.
Definition transient (c : FailureCategory) : bool :=
  match c with FailureProviderThrottled | FailureProviderUnavailable => true | _ => false end.

(** A Claude turn that a result frame fails - the first that does, behind lines
    that fit - fails with that frame's category whatever the command prints
    afterwards and however it exits, when supervision and the evidence are clean:
    a maximum of turns is a rejection, else 401 and 403 are authentication, 429
    is throttling, 5xx unavailability, anything else a rejection, also when the
    subtype says success; and only throttling and unavailability leave a retry
    budget. *)
Theorem claude_refusal_is_told disk sessionID schema invocation before line rest f e budget :
  fits disk 0 0 before → stored disk 0 (structured (before ++ [line])) → (total (structured (before ++ [line])) ≤ maxStructuredEvidenceBytes)%Z →
  result_of line = Some f → frame_failure f ≠ None →
  en_run e = None → en_closeFails e = false →
  ∃ s, claude_Run disk sessionID schema invocation (before ++ line :: rest) e = Err [ErrSentinel s] ∧
       let failure := ClassifyFailure (turn_error [ErrSentinel s]) in
       fa_category failure = told f ∧ RetryBudget failure budget = (if transient (told f) then budget else 0%Z).
Proof.
  intros Hfit Hst Hn Hres Hfail Hrun Hclose.
  assert (Hf : is_frame line = true) by (unfold is_frame, result_of in *; by destruct (parseClaudeStreamLine line)).
  destruct (frame_failure f) as [s|] eqn:Hs; [|done]. clear Hfail. exists s. split.
  - unfold claude_Run. destruct (ingest_spec disk before claude_start) as [[_ Hi]|[Hnot _]]; [done|split; vm_compute; congruence| |done].
    rewrite (ingest_past disk _ _ _ _ Hi). cbn [ingest]. unfold claude_onLine, result_of in *.
    destruct (parseClaudeStreamLine line) as [| | |f'] eqn:Hp; [done..|]. injection Hres as ->.
    unfold structured in Hn, Hst. rewrite filter_app, total_app in Hn. rewrite filter_app, stored_app in Hst.
    rewrite filter_cons, filter_nil, decide_True in Hst by done. destruct Hst as (_ & Hst & _). rewrite Z.add_0_l in Hst.
    rewrite writeFrame_stores by (unfold after; cbn [ct_evidence ef_n claude_start new_evidence]; by rewrite Z.add_0_l).
    rewrite filter_cons, filter_nil, decide_True in Hn by done. unfold after. cbn [ct_evidence ef_n claude_start new_evidence].
    rewrite Z.add_0_l. rewrite (proj2 (Z.ltb_ge _ _)).
    2: { rewrite total_cons in Hn. change (total []) with 0%Z in Hn. unfold structured. lia. }
    rewrite Hs. unfold claude_outcome, claude_set_result, stream_run_errors, close_errors. rewrite Hs, Hrun, Hclose. done.
  - unfold frame_failure in Hs. unfold told. case_match; [done|].
    case_bool_decide; [by simplify_eq|]. unfold claudeFailureForStatus in Hs.
    repeat (case_match; simplify_eq/=; try done; try lia).
Qed.
End ClaudeRun.

(** ** opencode *)
Module OpencodeRun.

Definition is_type (name : string) (ev : opencodeEvent) : bool := bool_decide (oe_Type ev = runes_of name).
Definition events (lines : list Bytes) : list opencodeEvent := omap parseOpencodeEvent lines.
Definition frames (lines : list Bytes) : list Bytes := base.filter (λ line, is_Some (parseOpencodeEvent line)) lines.

Definition text_of (ev : opencodeEvent) : Bytes := if is_type "text" ev then utf8 (op_Text (oe_Part ev)) else [].
Definition text (evs : list opencodeEvent) : Bytes := concat (text_of <$> evs).
Definition steps (evs : list opencodeEvent) : list opencodePart := oe_Part <$> base.filter (λ ev, is_type "step_finish" ev = true) evs.
(** The last session id an event names. *)
Definition session (evs : list opencodeEvent) : Bytes :=
  foldl (λ s ev, if decide (utf8 (oe_SessionID ev) = []) then s else utf8 (oe_SessionID ev)) [] evs.
Definition sum (f : Usage → Z) (parts : list opencodePart) : Z := foldr (λ p acc, f (opencode_usage p) + acc)%Z 0%Z parts.
Definition cost (parts : list opencodePart) : float64 := foldl (λ acc p, float_add acc (op_Cost p)) float_zero parts.

(** One count of the total is the exact sum of what the steps say. *)
Definition counted (f : Usage → Z) (u : Usage) (parts : list opencodePart) : Prop :=
  f u = sum f parts ∧ (f u ≤ maxInt)%Z ∧ Forall (λ p, 0 ≤ f (opencode_usage p))%Z parts.

Record tells (lines : list Bytes) (t : OpencodeTurn) : Prop := {
  tl_fine : ot_ingestErr t = None ∧ ot_sawError t = false;
  tl_no_error : Forall (λ ev, is_type "error" ev = false) (events lines);
  tl_text : rb_buf (ot_assistant t) = text (events lines) ∧ rb_n (ot_assistant t) = len (text (events lines));
  tl_session : ot_sessionID t = session (events lines);
  tl_room : (len (text (events lines)) + len (session (events lines)) ≤ maxAuthoritativeResultBytes)%Z;
  tl_finish : ot_finish t = op_Reason <$> last (steps (events lines));
  tl_input : counted us_InputTokens (ot_usage t) (steps (events lines));
  tl_output : counted us_OutputTokens (ot_usage t) (steps (events lines));
  tl_cached : counted us_CachedInputTokens (ot_usage t) (steps (events lines));
  tl_cost : us_CostUSD (ot_usage t) = cost (steps (events lines));
  tl_evidence : ef_file (ot_evidence t) = concat (frames lines) ∧ ef_n (ot_evidence t) = total (frames lines);
  tl_bounded : (total (frames lines) ≤ maxStructuredEvidenceBytes)%Z }.

Definition failed (t : OpencodeTurn) : Prop := ot_ingestErr t ≠ None ∨ ot_sawError t = true.

Lemma tells_start : tells [] opencode_start.
Proof. split; try (by vm_compute); try (split; [done|split; [vm_compute; congruence|constructor]]); try constructor; vm_compute; congruence. Qed.

Lemma sum_snoc f parts p : sum f (parts ++ [p]) = (sum f parts + f (opencode_usage p))%Z.
Proof. induction parts as [|q parts IH]; cbn; [lia|]. unfold sum in IH. lia. Qed.
Lemma counted_nonneg f u parts : counted f u parts → (0 ≤ f u)%Z.
Proof. intros (-> & _ & Hall). induction Hall; cbn; [lia|]. unfold sum in *. lia. Qed.

Lemma add_counted total_ p u parts : addOpencodeUsage total_ (opencode_usage p) = Some u →
  (∀ f, In f [us_InputTokens; us_OutputTokens; us_CachedInputTokens] → counted f total_ parts → counted f u (parts ++ [p])) ∧
  us_CostUSD u = float_add (us_CostUSD total_) (op_Cost p).
Proof.
  unfold addOpencodeUsage. case_match eqn:H1; [done|]. case_match eqn:H2; [done|]. intros Hu. apply (inj Some) in Hu. subst u.
  repeat match goal with H : _ || _ = false |- _ => apply orb_false_iff in H as [H ?] end.
  repeat match goal with H : (_ <? _)%Z = false |- _ => apply Z.ltb_ge in H end. split; [|done].
  intros f Hf Hc. pose proof (counted_nonneg _ _ _ Hc) as Hpos. destruct Hc as (Hs & Hle & Hall). unfold counted. rewrite sum_snoc, Forall_app, Forall_singleton.
  assert (Hm : (0 ≤ f (opencode_usage p) ∧ f (opencode_usage p) ≤ wrap64 (maxInt - f total_))%Z).
  { destruct Hf as [<-|[<-|[<-|[]]]]; intuition. }
  rewrite wrap64_id in Hm by (unfold maxInt in *; lia). rewrite <- Hs.
  assert (Hw : wrap64 (f total_ + f (opencode_usage p)) = (f total_ + f (opencode_usage p))%Z) by (apply wrap64_id; unfold maxInt in *; lia).
  destruct Hf as [<-|[<-|[<-|[]]]]; cbn [us_InputTokens us_OutputTokens us_CachedInputTokens] in *; rewrite Hw; (split; [done|split; [lia|by split]]).
Qed.

Lemma events_snoc lines line : events (lines ++ [line]) = events lines ++ option_list (parseOpencodeEvent line).
Proof. unfold events. rewrite omap_app. by destruct (parseOpencodeEvent line) eqn:H; cbn; rewrite H. Qed.
Lemma frames_snoc lines line ev : parseOpencodeEvent line = Some ev → frames (lines ++ [line]) = frames lines ++ [line].
Proof. intros H. unfold frames. rewrite filter_app, filter_cons, filter_nil, decide_True by (rewrite H; by eexists). done. Qed.
Lemma text_snoc evs ev : text (evs ++ [ev]) = text evs ++ text_of ev.
Proof. unfold text. rewrite fmap_app, concat_app. cbn. by rewrite app_nil_r. Qed.
Lemma steps_snoc evs ev : steps (evs ++ [ev]) = steps evs ++ (if is_type "step_finish" ev then [oe_Part ev] else []).
Proof. unfold steps. rewrite filter_app, fmap_app, filter_cons, filter_nil. by destruct (is_type _ ev). Qed.
Lemma session_snoc evs ev :
  session (evs ++ [ev]) = if decide (utf8 (oe_SessionID ev) = []) then session evs else utf8 (oe_SessionID ev).
Proof. unfold session. by rewrite foldl_app. Qed.
Lemma types_differ a b ev : a ≠ b → runes_of a ≠ runes_of b → is_type a ev = true → is_type b ev = false.
Proof. unfold is_type. intros _ Hab ->%bool_decide_eq_true. by apply bool_decide_eq_false. Qed.

(** An event taken into a state that has the line's evidence and session already. *)
Lemma on_event_tells lines line ev t t2 : tells lines t → parseOpencodeEvent line = Some ev →
  ot_evidence t2 = mkEvidence (ef_file (ot_evidence t) ++ line) (ef_n (ot_evidence t) + len line) →
  (ef_n (ot_evidence t) + len line ≤ maxStructuredEvidenceBytes)%Z →
  ot_assistant t2 = ot_assistant t → ot_sessionID t2 = session (events lines ++ [ev]) → ot_usage t2 = ot_usage t →
  ot_finish t2 = ot_finish t → ot_sawError t2 = false → ot_ingestErr t2 = None →
  (len (text (events lines)) + len (session (events lines ++ [ev])) ≤ maxAuthoritativeResultBytes)%Z →
  match on_event ev t2 with
  | (false, t') => tells (lines ++ [line]) t'
  | (true, t') => failed t'
  end.
Proof.
  intros [[Hi Hx] Hne [Hb Hbn] Hs Hroom Hfin Hin Hout Hca Hco [Hef Hen] Hbd] Hp E1 Hw E2 E3 E4 E5 E6 E7 Hroom'.
  pose proof (frames_snoc lines line ev Hp) as Hf. pose proof (events_snoc lines line) as He. rewrite Hp in He. change (option_list (Some ev)) with [ev] in He.
  assert (Hev : ef_file (ot_evidence t2) = concat (frames (lines ++ [line])) ∧ ef_n (ot_evidence t2) = total (frames (lines ++ [line]))).
  { rewrite E1, Hf, concat_app, total_app, Hef, Hen, total_cons. change (total []) with 0%Z. cbn [concat ef_file ef_n].
    rewrite app_nil_r. split; [done|lia]. }
  assert (Hev2 : (total (frames (lines ++ [line])) ≤ maxStructuredEvidenceBytes)%Z) by (rewrite <- (proj2 Hev), E1; exact Hw).
  unfold on_event.
  destruct (bool_decide (oe_Type ev = runes_of "text")) eqn:T1; [|destruct (bool_decide (oe_Type ev = runes_of "step_finish")) eqn:T2;
    [|destruct (bool_decide (oe_Type ev = runes_of "error")) eqn:T3]].
  - apply bool_decide_eq_true in T1. assert (N2 : is_type "step_finish" ev = false) by (unfold is_type; by rewrite T1).
    assert (N3 : is_type "error" ev = false) by (unfold is_type; by rewrite T1).
    assert (Htext : text_of ev = utf8 (op_Text (oe_Part ev))) by (unfold text_of, is_type; by rewrite T1).
    unfold writeStringReserved. destruct (_ || _) eqn:Hr; [by left|]. apply orb_false_iff in Hr as [_ Hr]. apply Z.ltb_ge in Hr.
    rewrite E2, E3, Hbn in Hr. rewrite <- Htext in Hr |- *.
    constructor; rewrite ?He, ?text_snoc, ?steps_snoc, ?N2, ?app_nil_r, ?len_app; cbn [ot_ingestErr ot_sawError ot_assistant ot_sessionID ot_usage ot_finish ot_evidence opencode_set_assistant rb_buf rb_n];
      rewrite ?E2, ?E4, ?E5, ?Hb, ?Hbn; auto.
    + rewrite Forall_app, Forall_singleton. by split.
    + lia.
  - assert (N1 : is_type "text" ev = false) by exact T1. apply bool_decide_eq_true in T2.
    assert (N3 : is_type "error" ev = false) by (unfold is_type; by rewrite T2).
    assert (N2 : is_type "step_finish" ev = true) by (unfold is_type; by rewrite T2).
    assert (Htext : text_of ev = []) by (unfold text_of; by rewrite N1).
    destruct (addOpencodeUsage _ _) as [u|] eqn:Hu; [|by left]. rewrite E4 in Hu. destruct (add_counted _ _ _ (steps (events lines)) Hu) as [Hsum Hcost].
    constructor; rewrite ?He, ?text_snoc, ?steps_snoc, ?N2, ?Htext, ?app_nil_r; cbn [ot_ingestErr ot_sawError ot_assistant ot_sessionID ot_usage ot_finish ot_evidence opencode_set_finish];
      rewrite ?E2; auto.
    + rewrite Forall_app, Forall_singleton. by split.
    + by rewrite last_snoc.
    + apply Hsum; [by left|done].
    + apply Hsum; [by right; left|done].
    + apply Hsum; [by right; right; left|done].
    + rewrite Hcost, Hco. unfold cost. by rewrite foldl_app.
  - by right.
  - constructor; rewrite ?He, ?text_snoc, ?steps_snoc; unfold text_of, is_type; rewrite ?T1, ?T2; rewrite ?app_nil_r; rewrite ?E2, ?E4, ?E5; auto.
    rewrite Forall_app, Forall_singleton. by split.
Qed.

Section opencode_Run.
Context (disk : Z → Bytes → nat * bool).

Lemma onLine_tells lines line t : tells lines t →
  match opencode_onLine disk line t with
  | (false, t') => tells (lines ++ [line]) t'
  | (true, t') => failed t'
  end.
Proof.
  intros [[Hi Hx] Hne [Hb Hbn] Hs Hroom Hfin Hin Hout Hca Hco [Hef Hen] Hbd]. unfold opencode_onLine.
  destruct (parseOpencodeEvent line) as [ev|] eqn:Hp.
  2: { assert (Hf : frames (lines ++ [line]) = frames lines).
       { unfold frames. rewrite filter_app, filter_cons, filter_nil, decide_False by (rewrite Hp; by intros [? ?]). by rewrite app_nil_r. }
       constructor; rewrite ?events_snoc, ?Hp, ?Hf; cbn [option_list]; rewrite ?app_nil_r; auto. }
  pose proof (frames_snoc lines line ev Hp) as Hf. pose proof (events_snoc lines line) as He. rewrite Hp in He. change (option_list (Some ev)) with [ev] in He.
  unfold writeFrame. destruct (_ <? len line)%Z eqn:Hw; [by left|]. apply Z.ltb_ge in Hw.
  destruct (disk _ line) as [n bad]. destruct bad; [by left|]. destruct (negb _) eqn:Hn; [by left|].
  apply negb_false_iff, Nat.eqb_eq in Hn. subst n. rewrite firstn_all.
  set (t1 := opencode_set_evidence _ t). set (t2 := if decide (utf8 (oe_SessionID ev) = []) then t1 else opencode_set_sessionID (utf8 (oe_SessionID ev)) t1).
  assert (Ht2 : ot_evidence t2 = mkEvidence (ef_file (ot_evidence t) ++ line) (ef_n (ot_evidence t) + len line) ∧
    ot_assistant t2 = ot_assistant t ∧ ot_sessionID t2 = session (events (lines ++ [line])) ∧ ot_usage t2 = ot_usage t ∧
    ot_finish t2 = ot_finish t ∧ ot_sawError t2 = false ∧ ot_ingestErr t2 = None).
  { rewrite He, session_snoc. unfold t2. case_decide; by split_and!. }
  change (rb_n (ot_assistant t1)) with (rb_n (ot_assistant t)). rewrite Hbn.
  destruct (negb _ && _) eqn:Hc; [by left|]. clearbody t2. clear t1. destruct Ht2 as (E1 & E2 & E3 & E4 & E5 & E6 & E7).
  assert (Hroom' : (len (text (events lines)) + len (session (events lines ++ [ev])) ≤ maxAuthoritativeResultBytes)%Z).
  { rewrite session_snoc. case_decide as Hd; [done|]. rewrite bool_decide_eq_false_2 in Hc by done. apply Z.ltb_ge in Hc. lia. }
  rewrite He in E3. apply (on_event_tells lines line ev t t2); try assumption; [by constructor|lia].
Qed.

Lemma ingest_tells before lines t : tells before t →
  match ingest (opencode_onLine disk) lines t with
  | (false, t') => tells (before ++ lines) t'
  | (true, t') => failed t'
  end.
Proof.
  revert before t. induction lines as [|line lines IH]; intros before t Ht; cbn [ingest]; [by rewrite app_nil_r|].
  pose proof (onLine_tells before line t Ht) as H1. destruct (opencode_onLine disk line t) as [[] t1]; [done|].
  specialize (IH _ _ H1). by rewrite <- app_assoc in IH.
Qed.
End opencode_Run.

(** C22: An opencode turn that succeeds tells the truth about what it ran: nothing
    failed around it, no event of the stream is an error and the last step ends
    with stop or length; the text is that of all text events in order,
    normalised, the session the last one named, together within 16 MiB; every
    token count is the exact sum of the steps' counts, none of them negative and
    no sum beyond an int; and the evidence is every event's line, in order,
    within its own 16 MiB. *)
Theorem opencode_success_is_exact disk schema invocation lines e r :
  opencode_Run disk schema invocation lines e = Ok r →
  let evs := events lines in
  en_run e = None ∧ en_closeFails e = false ∧ en_exit e = None ∧
  Forall (λ ev, is_type "error" ev = false) evs ∧
  (∃ step, last (steps evs) = Some step ∧ (op_Reason step = runes_of "stop" ∨ op_Reason step = runes_of "length")) ∧
  rs_AssistantOutput r = normalizeStructuredOutput (of_chars (text evs)) schema ∧
  rs_SessionID r = of_chars (session evs) ∧
  (len (text evs) + len (session evs) ≤ maxAuthoritativeResultBytes)%Z ∧
  counted us_InputTokens (rs_Usage r) (steps evs) ∧
  counted us_OutputTokens (rs_Usage r) (steps evs) ∧
  counted us_CachedInputTokens (rs_Usage r) (steps evs) ∧
  us_CostUSD (rs_Usage r) = cost (steps evs) ∧
  ef_file (ot_evidence (ingest (opencode_onLine disk) lines opencode_start).2) = concat (frames lines) ∧
  (total (frames lines) ≤ maxStructuredEvidenceBytes)%Z.
Proof.
  intros Hr. cbv zeta. unfold opencode_Run, opencode_outcome in Hr. pose proof (ingest_tells disk [] lines opencode_start tells_start) as Ht. cbn [app] in Ht.
  destruct (ingest (opencode_onLine disk) lines opencode_start) as [[] t]; cbn [snd] in *.
  { unfold stream_run_errors, close_errors in Hr. destruct Ht as [Hi|Hx]; [destruct (ot_ingestErr t); done|]. rewrite Hx in Hr.
    destruct (opt_err id _ ++ _ ++ _); done. }
  destruct Ht as [[Hi Hx] Hne [Hb Hbn] Hs Hroom Hfin Hin Hout Hca Hco [Hef Hen] Hbd].
  rewrite Hi, Hx, Hfin in Hr. unfold stream_run_errors, close_errors, exit_errors in Hr.
  destruct (en_run e); [done|]. destruct (en_closeFails e); [done|]. destruct (en_exit e); [done|]. cbn [opt_err app] in Hr.
  destruct (last (steps (events lines))) as [step|]; [|done]. cbn [fmap option_fmap option_map] in Hr.
  destruct (negb _ && negb _) eqn:Hreason; [done|].
  assert (Hr' : r = mkResult (of_chars (ot_sessionID t)) (normalizeStructuredOutput (of_chars (rb_buf (ot_assistant t))) schema) (ot_usage t) invocation) by congruence.
  subst r. cbn [rs_AssistantOutput rs_SessionID rs_Usage]. rewrite Hb, Hs. split_and!; try assumption; try reflexivity.
  exists step. split; [reflexivity|]. apply andb_false_iff in Hreason as [H|H]; apply negb_false_iff, bool_decide_eq_true in H; auto.
Qed.
End OpencodeRun.

(** ** Copilot *)
Module CopilotRun.

Definition frame_of (line : Bytes) : option copilotFrame :=
  let '(f, ok) := Unmarshal copilot_set_frame copilot_zero_frame line in if ok : bool then Some f else None.
Definition frames (lines : list Bytes) : list copilotFrame := omap frame_of lines.
Definition is_type (name : string) (f : copilotFrame) : bool := bool_decide (pf_Type f = runes_of name).
(** The contents of the final answers, and the result frames. *)
Definition message_of (f : copilotFrame) : option (list Z) :=
  if is_type "assistant.message" f then message_content (pf_Data f) else None.
Definition answers (fs : list copilotFrame) : list (list Z) := omap message_of fs.
Definition results (fs : list copilotFrame) : list copilotFrame := base.filter (λ f, is_type "result" f = true) fs.
Definition exits_zero (f : copilotFrame) : Prop := default 0%Z (pf_ExitCode f) = 0%Z.

Definition view (fs : list copilotFrame) : copilotResultCollector :=
  mkCopilotCollector (default [] (last (answers fs))) (default [] (pf_SessionID <$> last (results fs))) (bool_decide (results fs ≠ [])) 0.

Lemma answers_snoc fs f : answers (fs ++ [f]) = answers fs ++ option_list (message_of f).
Proof. unfold answers. rewrite omap_app. cbn. by destruct (message_of f). Qed.
Lemma results_snoc fs f : results (fs ++ [f]) = results fs ++ (if is_type "result" f then [f] else []).
Proof. unfold results. rewrite filter_app, filter_cons, filter_nil. by destruct (is_type _ f). Qed.

Lemma onLine_view fs line :
  match frame_of line with
  | None => copilot_onLine line (view fs) = (false, view fs)
  | Some f =>
      if decide (is_type "result" f = true ∧ ¬ exits_zero f)
      then (copilot_onLine line (view fs)).1 = true ∧ copilot_succeeded (copilot_onLine line (view fs)).2 = false
      else copilot_onLine line (view fs) = (false, view (fs ++ [f]))
  end.
Proof.
  unfold copilot_onLine, copilot_consume, frame_of. destruct (Unmarshal copilot_set_frame copilot_zero_frame line) as [f []]; cbn [negb].
  2: { unfold copilot_failed, view. cbn. by rewrite andb_false_r. }
  destruct (bool_decide (pf_Type f = runes_of "assistant.message")) eqn:T1.
  - assert (N : is_type "result" f = false) by (apply bool_decide_eq_true in T1; unfold is_type; by rewrite T1).
    rewrite decide_False by (intros [? _]; congruence). unfold view. rewrite answers_snoc, results_snoc, N, app_nil_r.
    unfold message_of, is_type. rewrite T1. destruct (message_content (pf_Data f)) as [content|].
    + change (option_list (Some content)) with [content]. rewrite last_snoc. unfold copilot_failed. cbn. by rewrite andb_false_r.
    + cbn [option_list]. rewrite app_nil_r. unfold copilot_failed. cbn. by rewrite andb_false_r.
  - destruct (bool_decide (pf_Type f = runes_of "result")) eqn:T2.
    + destruct (decide (is_type "result" f = true ∧ ¬ exits_zero f)) as [Hd|Hd].
      * destruct Hd as [_ Hz]. unfold copilot_failed, copilot_succeeded, exits_zero in *. cbn [fst snd pc_resultSeen pc_exitCode view andb].
        rewrite (proj2 (Z.eqb_neq _ _) Hz). done.
      * assert (Hz : default 0%Z (pf_ExitCode f) = 0%Z) by (destruct (decide (exits_zero f)); [done|]; destruct Hd; by split).
        unfold copilot_failed. cbn [view pc_resultSeen pc_exitCode pc_assistantText]. rewrite Hz. cbn [andb negb Z.eqb].
        unfold view. rewrite answers_snoc, results_snoc. unfold message_of, is_type. rewrite T1, T2. cbn [option_list].
        rewrite app_nil_r, last_snoc. f_equal. f_equal. symmetry. apply bool_decide_eq_true. by destruct (results fs).
    + rewrite decide_False by (unfold is_type; intros [? _]; congruence). unfold view. rewrite answers_snoc, results_snoc.
      unfold message_of, is_type. rewrite T1, T2. cbn [option_list]. rewrite !app_nil_r. unfold copilot_failed. cbn. by rewrite andb_false_r.
Qed.

Lemma ingest_view fs lines :
  (Forall exits_zero (results (frames lines)) ∧ ingest copilot_onLine lines (view fs) = (false, view (fs ++ frames lines))) ∨
  (¬ Forall exits_zero (results (frames lines)) ∧ copilot_succeeded (ingest copilot_onLine lines (view fs)).2 = false).
Proof.
  revert fs. induction lines as [|line lines IH]; intros fs; [left; split; [constructor|]; by rewrite app_nil_r|].
  cbn [ingest]. pose proof (onLine_view fs line) as H1. unfold frames. cbn [omap list_omap]. fold (frames lines).
  destruct (frame_of line) as [f|]; [|by rewrite H1; apply IH].
  assert (Hres : results (f :: frames lines) = (if is_type "result" f then [f] else []) ++ results (frames lines)).
  { unfold results. rewrite filter_cons. by destruct (is_type _ f). }
  rewrite Hres, Forall_app. case_decide as Hd.
  - right. destruct Hd as [Ht Hz], H1 as [H1 H2]. rewrite Ht, Forall_singleton. split; [by intros [? _]|].
    destruct (copilot_onLine line (view fs)) as [d c]. cbn [fst snd] in *. by rewrite H1.
  - rewrite H1. assert (Hf : Forall exits_zero (if is_type "result" f then [f] else [])).
    { destruct (is_type "result" f); [|constructor]. apply Forall_singleton. destruct (decide (exits_zero f)); [done|]. by destruct Hd. }
    destruct (IH (fs ++ [f])) as [[Ha ->]|[Ha Hb]].
    + left. split; [by split|]. by rewrite <- app_assoc.
    + right. split; [by intros [_ ?]|done].
Qed.

(** A Copilot turn succeeds exactly when supervision and the process ended
    cleanly and the stream has a result frame and none that names an exit code
    other than zero; it then carries the last final answer, normalised, and the
    session of the last result frame, whatever else the command printed. *)
Theorem copilot_success_is_earned schema invocation lines e r :
  copilot_Run schema invocation lines e = Ok r ↔
  en_run e = None ∧ en_exit e = None ∧ Forall exits_zero (results (frames lines)) ∧
  ∃ f, last (results (frames lines)) = Some f ∧
       r = mkResult (of_chars (utf8 (pf_SessionID f)))
             (normalizeStructuredOutput (of_chars (utf8 (default [] (last (answers (frames lines)))))) schema) zero_usage invocation.
Proof.
  unfold copilot_Run, copilot_outcome. change new_copilot_collector with (view []).
  destruct (en_run e); [split; [done|by intros [? _]]|].
  destruct (ingest_view [] lines) as [[Ha ->]|[Ha Hb]]; cbn [snd app].
  - unfold copilot_succeeded. cbn [view pc_resultSeen pc_exitCode pc_assistantText pc_sessionID]. rewrite andb_true_r.
    destruct (last (results (frames lines))) as [f|] eqn:Hl.
    + rewrite bool_decide_eq_true_2 by (intros He; by rewrite He in Hl). cbn [negb fmap option_fmap option_map default from_option].
      destruct (en_exit e); [split; [done|by intros (_ & ? & _)]|]. split.
      * intros Hr. apply (inj Ok) in Hr. subst r. split_and!; try done. by exists f.
      * intros (_ & _ & _ & f' & Hf & ->). apply (inj Some) in Hf. by subst f'.
    + assert (He : results (frames lines) = []) by (by apply last_None). rewrite He. cbn.
      split; [done|]. intros (_ & _ & _ & f' & Hf & _). discriminate Hf.
  - rewrite Hb. cbn [negb]. split; [done|]. intros (_ & _ & ? & _). done.
Qed.

(** The classifier does not know Copilot's own failure. *)
Lemma copilot_failure_is_a_runtime_failure e :
  en_run e = None → en_exit e = None →
  ClassifyFailure (turn_error (ErrCopilotTurnFailed :: exit_errors e)) = mkFailure FailureRuntime "provider execution failed" ∧
  Retryable (ClassifyFailure (turn_error (ErrCopilotTurnFailed :: exit_errors e))) = true.
Proof. intros _ He. unfold exit_errors. rewrite He. done. Qed.
End CopilotRun.

(** ** Codex *)
Module CodexRun.
Section CodexRun.
Context `{UnicodeTables}.

Definition bad (i : Input) : bool := says_turn_failed i || cannot_be_told i.

Lemma failed_flags c : failed c = cd_turnFailed c || cd_oversizeSchema c.
Proof. unfold failed, failure. by destruct (cd_turnFailed c), (cd_oversizeSchema c). Qed.

Lemma feed_failed c i : failed (feed c i) = failed c || bad i.
Proof.
  rewrite !failed_flags. destruct (feed_flags c i) as [-> ->]. unfold bad.
  destruct (cd_turnFailed c), (cd_oversizeSchema c), (says_turn_failed i); done.
Qed.

Lemma onInput_feed c i : failed c = false → codex_onInput i c = (bad i, feed c i).
Proof.
  intros Hc. destruct i as [line|prefix]; cbn [codex_onInput feed].
  - change (consume line c) with (feed c (Line line)). by rewrite feed_failed, Hc.
  - assert (Hb : (consumeDiscardedPrefix prefix c).1 = bad (Prefix prefix)).
    { unfold consumeDiscardedPrefix, bad, cannot_be_told, says_turn_failed.
      destruct (codexTopLevelTypeFromPrefix prefix) as [kind [] []]; cbn; by try destruct (bool_decide _). }
    rewrite <- Hb. by destruct (consumeDiscardedPrefix prefix c).
Qed.

Lemma ingest_feed inputs c : failed c = false → failed (ingest codex_onInput inputs c).2 = existsb bad inputs.
Proof.
  revert c. induction inputs as [|i inputs IH]; intros c Hc; [done|]. cbn [ingest existsb]. rewrite onInput_feed by done.
  destruct (bad i) eqn:Hb; cbn [snd orb].
  - by rewrite feed_failed, Hc, Hb.
  - apply IH. by rewrite feed_failed, Hc, Hb.
Qed.

(** A Codex turn succeeds exactly when supervision and the process ended
    cleanly, no record of the stream, retained or discarded, says that the turn
    failed or cannot be told apart from one that does, and the last-message file
    was read; the stream contributes nothing to the result. *)
Theorem codex_success_is_earned schema invocation inputs e file r :
  codex_Run schema invocation inputs e file = Ok r ↔
  en_run e = None ∧ en_exit e = None ∧ existsb says_turn_failed inputs = false ∧ existsb cannot_be_told inputs = false ∧
  ∃ raw, file = Ok raw ∧ r = mkResult "" (normalizeStructuredOutput (of_chars raw) schema) zero_usage invocation.
Proof.
  unfold codex_Run, codex_outcome. destruct (en_run e); [split; [done|by intros [? _]]|].
  assert (Hb : failed (ingest codex_onInput inputs new_collector).2 = existsb says_turn_failed inputs || existsb cannot_be_told inputs).
  { rewrite ingest_feed by done. induction inputs as [|i inputs IH]; [done|]. cbn [existsb]. rewrite IH. unfold bad.
    destruct (says_turn_failed i), (cannot_be_told i), (existsb says_turn_failed inputs); done. }
  unfold failed in Hb. destruct (failure _) as [s|].
  - split; [done|]. intros (_ & _ & H1 & H2 & _). rewrite H1, H2 in Hb. done.
  - symmetry in Hb. apply orb_false_iff in Hb as [H1 H2]. destruct (en_exit e); [split; [done|by intros (_ & ? & _)]|].
    destruct file as [raw|err].
    2: { split; [done|]. by intros (_ & _ & _ & _ & raw & ? & _). }
    split; [intros Hr; apply (inj Ok) in Hr; subst r; by eauto 10|]. intros (_ & _ & _ & _ & raw' & Hr & ->). apply (inj Ok) in Hr. by subst raw'.
Qed.
End CodexRun.
End CodexRun.

(** ** Ceilings and the environment *)

(** An accepted result is the whole content of the file that was named, a regular
    one before and after it was opened, within 16 MiB. *)
Lemma accepted_result_is_whole before opened raw : readBoundedAuthoritativeResult before opened = Ok raw →
  (len raw ≤ maxAuthoritativeResultBytes)%Z ∧
  ∃ pathInfo info, before = Some pathInfo ∧ opened = Some (Some info, Some raw) ∧ fi_regular pathInfo = true ∧
                   fi_regular info = true ∧ fi_identity pathInfo = fi_identity info.
Proof.
  unfold readBoundedAuthoritativeResult. destruct before as [pathInfo|]; [|done].
  destruct (fi_regular pathInfo) eqn:H1; [|done]. cbn [negb]. destruct (_ <? fi_size pathInfo)%Z; [done|].
  destruct opened as [[[info|] content]|]; [|done..]. destruct (fi_regular info) eqn:H2; [|done]. cbn [negb orb].
  destruct (bool_decide _) eqn:H3; [|done]. cbn [negb]. apply bool_decide_eq_true in H3.
  destruct (_ <? fi_size info)%Z; [done|]. destruct content as [file|]; [|done].
  set (cut := take _ file). destruct (_ <? len cut)%Z eqn:H4; [done|]. apply Z.ltb_ge in H4. intros Hr. apply (inj Ok) in Hr. subst raw.
  split; [done|]. exists pathInfo, info. split_and!; try done. do 3 f_equal. unfold cut in *. symmetry. apply take_ge.
  unfold len in H4. rewrite length_take in H4. unfold maxAuthoritativeResultBytes in *. lia.
Qed.

(** A stream takes no byte beyond its ceiling, and refuses at the first one. *)
Lemma stream_stays_below limit n p accepted err renewed n' :
  (0 < limit)%Z → (0 ≤ n ≤ limit)%Z → progress_write limit n p = (accepted, err, renewed, n') →
  n' = (n + accepted)%Z ∧ (0 ≤ n' ≤ limit)%Z ∧ (err = None ↔ (n < limit ∧ n + len p ≤ limit)%Z) ∧ (renewed = true → err = None).
Proof.
  intros Hl Hn. unfold progress_write. rewrite (proj2 (Z.ltb_lt _ _) Hl). cbn [andb]. pose proof (len_nonneg p).
  destruct (limit - n <=? 0)%Z eqn:H1; [|destruct (limit - n <? len p)%Z eqn:H2]; intros Heq; simplify_eq.
  - split_and!; [lia|lia|lia| |done]. split; [done|lia].
  - split_and!; [lia|lia|lia| |done]. split; [done|lia].
  - split_and!; [done|lia|lia| |done]. split; [lia|done].
Qed.

(** No stale coordinate of another session is inherited, and nothing else is lost. *)
Definition hook_entries (windows : bool) (env : list string) : list string :=
  base.filter (λ entry, managed_key windows (env_key entry) = true) env.
Definition other_entries (windows : bool) (env : list string) : list string :=
  base.filter (λ entry, managed_key windows (env_key entry) = false) env.

Lemma hook_entries_other windows env : hook_entries windows (other_entries windows env) = [].
Proof.
  unfold hook_entries, other_entries. induction env as [|entry env IH]; [done|]. rewrite filter_cons.
  case_decide as H1; [|done]. rewrite filter_cons, decide_False by congruence. done.
Qed.
Lemma other_entries_idem windows env : other_entries windows (other_entries windows env) = other_entries windows env.
Proof.
  unfold other_entries. induction env as [|entry env IH]; [done|]. rewrite filter_cons.
  case_decide as H1; [|done]. rewrite filter_cons, decide_True by done. by rewrite IH.
Qed.

Lemma hook_environment_is_exclusive session endpoint inherited windows env :
  managedHookEnvironmentFromGOOS session endpoint inherited windows = Ok (Some env) →
  other_entries windows env = other_entries windows inherited ∧
  hook_entries windows env =
    (if decide (session = "") then [] else [ManagedSessionEnv +:+ "=" +:+ session; HookEndpointEnv +:+ "=" +:+ endpoint]).
Proof.
  unfold managedHookEnvironmentFromGOOS. fold (other_entries windows inherited).
  destruct (negb _) eqn:Hboth; [done|]. apply negb_false_iff, eqb_prop in Hboth. rewrite <- Hboth, orb_diag.
  case_bool_decide as Hs; [rewrite decide_True by done|rewrite decide_False by done].
  - case_match; [|done]. intros He. apply (inj Ok) in He. apply (inj Some) in He. subst env.
    by rewrite other_entries_idem, hook_entries_other.
  - intros He. apply (inj Ok) in He. apply (inj Some) in He. subst env.
    assert (H1 : env_key (ManagedSessionEnv +:+ "=" +:+ session) = ManagedSessionEnv) by done.
    assert (H2 : env_key (HookEndpointEnv +:+ "=" +:+ endpoint) = HookEndpointEnv) by done.
    assert (H3 : managed_key windows ManagedSessionEnv = true ∧ managed_key windows HookEndpointEnv = true) by (by destruct windows).
    destruct H3 as [H3 H4]. unfold other_entries at 1, hook_entries at 1. rewrite !filter_app, !filter_cons, H1, H2, H3, H4, !filter_nil.
    fold (other_entries windows (other_entries windows inherited)). fold (hook_entries windows (other_entries windows inherited)).
    rewrite other_entries_idem, hook_entries_other. cbn. by rewrite app_nil_r.
Qed.

(** ** Witnesses *)

Definition q (s : string) : Bytes := (λ c, if (c =? "'")%char then QUOTE else c) <$> chars s.
Definition demo_disk : Z → Bytes → nat * bool := λ _ frame, (length frame, false).
Definition demo_invocation : Invocation := mkInvocation "opus" "claude" "claude-opus" "high".
Definition demo_ending : Ending := mkEnding None false None.

Definition demo_claude : list Bytes :=
  [q "Welcome!";
   q "{'type':'assistant','message':{'content':[{'type':'text','text':'all '},{'type':'text','text':'done'}]}}";
   q "{'type':'result','subtype':'success','total_cost_usd':0.25,'usage':{'input_tokens':7,'cache_read_input_tokens':2}}"].

Definition demo_claude_result : Result :=
  mkResult "s1" "all done" (mkUsage 7 0 2 (S754_finite false 4503599627370496 (-54))) demo_invocation.

Lemma claude_success_is_earned_witness : claude_Run demo_disk "s1" "" demo_invocation demo_claude demo_ending = Ok demo_claude_result.
Proof.
  apply (ClaudeRun.claude_success_is_earned demo_disk "s1" "" demo_invocation demo_claude demo_ending demo_claude_result).
  split_and!; [reflexivity|reflexivity|reflexivity|by vm_compute|by vm_compute|by vm_compute|by repeat constructor|].
  eexists. split; [vm_compute; reflexivity|by vm_compute].
Defined.

Definition demo_refused : Bytes :=
  q "{'type':'result','subtype':'success','is_error':true,'api_error_status':429,'result':'slow down'}".

Lemma claude_refusal_is_told_witness :
  ∃ s, claude_Run demo_disk "s1" "" demo_invocation (take 2 demo_claude ++ demo_refused :: [q "bye"]) demo_ending = Err [ErrSentinel s] ∧
       RetryBudget (ClassifyFailure (turn_error [ErrSentinel s])) 3 = 3%Z.
Proof.
  destruct (ClaudeRun.claude_refusal_is_told demo_disk "s1" "" demo_invocation (take 2 demo_claude) demo_refused [q "bye"]
              (match ClaudeRun.result_of demo_refused with Some f => f | None => claude_zero_frame end) demo_ending 3)
    as (s & Hs & _ & Hb).
  - split_and!; [by vm_compute|by vm_compute|by vm_compute|by repeat constructor].
  - by vm_compute.
  - by vm_compute.
  - by vm_compute.
  - by vm_compute.
  - reflexivity.
  - reflexivity.
  - exists s. split; [exact Hs|]. rewrite Hb. by vm_compute.
Defined.

Definition demo_opencode : list Bytes :=
  [q "{'type':'step_start','sessionID':'ses_1'}";
   q "{'type':'text','sessionID':'ses_1','part':{'text':'ok'}}";
   q "{'type':'step_finish','part':{'reason':'tool-calls','tokens':{'input':5,'cache':{'read':2}},'cost':0.25}}";
   q "{'type':'step_finish','part':{'reason':'stop','tokens':{'input':4,'output':1},'cost':0.25}}"].

Definition demo_opencode_result : Result :=
  mkResult "ses_1" "ok" (mkUsage 9 1 2 (S754_finite false 4503599627370496 (-53))) demo_invocation.

Lemma opencode_success_is_exact_witness :
  opencode_Run demo_disk "" demo_invocation demo_opencode demo_ending = Ok demo_opencode_result ∧
  us_InputTokens (rs_Usage demo_opencode_result) = OpencodeRun.sum us_InputTokens (OpencodeRun.steps (OpencodeRun.events demo_opencode)).
Proof.
  assert (H : opencode_Run demo_disk "" demo_invocation demo_opencode demo_ending = Ok demo_opencode_result) by (by vm_compute).
  split; [exact H|].
  destruct (OpencodeRun.opencode_success_is_exact demo_disk "" demo_invocation demo_opencode demo_ending demo_opencode_result H)
    as (_ & _ & _ & _ & _ & _ & _ & _ & Hin & _).
  exact (proj1 Hin).
Defined.
