(* ===== verification/TuiModel.v ===== *)
(** * The terminal front end: [internal/tui/model.go], [meso.go], [micro.go]

    The model that a terminal program updates message by message - drill level,
    cursor, snapshot, live stream - as a pure function to the next model and the
    commands it issues, and the program around it: commands under way whose
    results come back as messages in any order. Rendering is left out but for the
    orders and windows it shows. *)
From stdpp Require Import relations sorting.
From S2P Require Import Prelude GoLib GoTime StoreOperator Observe.

(** ** Data *)

Inductive level := levelMacro | levelMeso | levelMicro.
#[export] Instance level_eq_dec : EqDecision level.
Proof. solve_decision. Defined.

Record Progress := mkProgress { pr_done : Z; pr_total : Z }.
Record liveLogLine := mkLiveLine { ll_at : Z; ll_text : string }.

(** nil and empty slices are told apart where the merge of a refresh does. *)
Record Snap := mkSnap {
  sp_capturedAt : Z;
  sp_summary : option Summary;
  sp_plans : Slice Plan; sp_plansHasMore : bool;
  sp_progress : option (gmap string Progress);
  sp_planEvent : Slice Event;
  sp_tasks : Slice Task; sp_tasksHasMore : bool;
  sp_descriptions : option (gmap string string);
  sp_taskEvent : Slice Event;
  sp_eventsHasMore : bool;
  sp_eventCursor : Z;
  sp_live : list liveLogLine }.

Record AttachEvent := mkAttachEvent {
  ae_ID : Z; ae_Kind : string; ae_Stream : string; ae_PlanID : string; ae_TaskID : string; ae_OccurredAt : Z;
  ae_Failure : option FailureSummary }.

(** Where the operator is. A selection that was never made is [None]. *)
Record Nav := mkNav {
  nv_lvl : level;
  nv_cursor : Z;
  nv_plan : option Plan;
  nv_task : option Task;
  nv_offset : Z }.

(** The live subscription: [attachFrames] is set, its epoch and the resume
    cursor. *)
Record Stream := mkStream {
  at_open : bool;
  at_cancelable : bool;
  at_epoch : N;
  at_lastEventID : Z;
  at_seeded : bool }.

Record Model {Error : Type} := mkModel {
  md_project : string;
  md_nav : Nav;
  md_snap : Snap;
  md_stream : Stream;
  md_size : Z * Z;
  md_err : option Error;
  md_liveDone : gset string;
  md_fetching : bool;
  md_quitting : bool }.
Arguments Model : clear implicits.
Arguments mkModel {Error}.

Definition empty_snap : Snap := mkSnap 0 None None false (Some ∅) None None false None None false 0 [].
Definition NewModel {Error} (projectID : string) : Model Error :=
  mkModel projectID (mkNav levelMacro 0 None None 0) empty_snap (mkStream false false 0 0 false) (0, 0)%Z None ∅ false false.

(** What a gather captured when it was launched. *)
Record Gather := mkGather { ga_lvl : level; ga_project : string; ga_plan : string; ga_task : string }.

Inductive Cmd := TickCmd | FetchCmd (g : Gather) | AttachCmd (epoch : N) | StartAttach (afterID : Z) (epoch : N) | CancelAttach | QuitCmd.

Inductive Msg (Error : Type) :=
| KeyMsg (key : string)
| WindowSizeMsg (width height : Z)
| RefreshMsg
| FetchedMsg (r : result Error Snap)
(** [raw] is the undecoded event of the seam beside [event]: absent, or what it
    decodes to. *)
| LiveFrameMsg (event : AttachEvent) (raw : option (option AttachEvent)) (epoch : N)
| AttachEndedMsg (epoch : N).
Arguments KeyMsg {Error}.
Arguments WindowSizeMsg {Error}.
Arguments RefreshMsg {Error}.
Arguments FetchedMsg {Error}.
Arguments LiveFrameMsg {Error}.
Arguments AttachEndedMsg {Error}.

(** ** The order of the rows *)

(** The groups of [groupTasks]: the tasks of no group, then each group where it was
    first seen. *)
Definition group_order (tasks : list Task) : list Z :=
  foldl (λ order t, match tk_parallel t with
                    | Some g => if bool_decide (g ∈ order) then order else order ++ [g]
                    | None => order
                    end) [] tasks.
Definition in_group (g : option Z) (t : Task) : bool := bool_decide (tk_parallel t = g).
Definition groupTasks (tasks : list Task) : list (option Z * list Task) :=
  (match base.filter (λ t, in_group None t = true) tasks with [] => [] | ungrouped => [(None, ungrouped)] end) ++
  ((λ g, (Some g, base.filter (λ t, in_group (Some g) t = true) tasks)) <$> group_order tasks).
Definition flattenGroupedTasks (tasks : list Task) : list Task := concat (snd <$> groupTasks tasks).

(** [windowLines] of the micro view. *)
Definition windowLines {A} (lines : list A) (offset height : Z) : list A * bool * bool :=
  match lines with
  | [] => ([], false, false)
  | _ =>
      let n := Z.of_nat (length lines) in
      let offset := Z.max 0 offset in
      let end_ := Z.min n (Z.max 0 (n - offset)) in
      let start := Z.max 0 (end_ - height) in
      (take (Z.to_nat (end_ - start)) (drop (Z.to_nat start) lines), (0 <? start)%Z, (0 <? offset)%Z)
  end.

(** ** Live events *)

Definition taskDeltaStatus (kind : string) : string :=
  if bool_decide (kind = "task.claimed") then "running"
  else if bool_decide (kind ∈ ["task.done"; "worker.completed"; "worker.verified_done"]) then "done"
  else if bool_decide (kind ∈ ["task.failed"; "task.failed_terminal"; "worker.verification_failed"]) then "failed"
  else if bool_decide (kind = "task.released") then "ready"
  else if bool_decide (kind = "task.reclaimed") then "pending"
  else if bool_decide (kind ∈ ["task.blocked"; "task.context_requested"]) then "blocked"
  else "".

Definition macroEventCap : nat := 10.

(** [now] is what [time.Now] answers. *)
Definition event_time (now : Z) (ev : AttachEvent) : Z :=
  if bool_decide (ae_OccurredAt ev = zero_time) then now else ae_OccurredAt ev.

Definition prependEvent (now : Z) (tail : Slice Event) (ev : AttachEvent) : Slice Event :=
  if negb (ae_ID ev =? 0)%Z && existsb (λ e, (en_id e =? ae_ID ev)%Z) (items tail) then tail
  else Some (take macroEventCap
         (Observe.mkEvent (ae_ID ev) (ae_PlanID ev) (ae_TaskID ev) (ae_Kind ev) (ae_Stream ev) (event_time now ev) (ae_Failure ev) :: items tail)).

(** The two-list loop and its two tails, in the order they pick. *)
Fixpoint merge_desc (live : list Event) : list Event → list Event :=
  fix merge_poll (poll : list Event) : list Event :=
    match live, poll with
    | [], _ => poll
    | _, [] => live
    | l :: live', p :: poll' =>
        if (en_id p <=? en_id l)%Z then l :: merge_desc live' poll else p :: merge_poll poll'
    end.
(** [take], threading [seen]. *)
Fixpoint take_new (seen : gset Z) (l : list Event) : list Event :=
  match l with
  | [] => []
  | ev :: l' =>
      if (en_id ev =? 0)%Z then ev :: take_new seen l'
      else if bool_decide (en_id ev ∈ seen) then take_new seen l'
      else ev :: take_new ({[ en_id ev ]} ∪ seen) l'
  end.
Definition mergeEventTail (live poll : list Event) : list Event :=
  take macroEventCap (take_new ∅ (merge_desc live poll)).

Definition set_status (status : string) (reclaimed : bool) (t : Task) : Task :=
  Observe.mkTask (tk_plan t) (tk_id t) (tk_canonical t) status (tk_parallel t) (tk_sequence t) (tk_retry t) (tk_reclaim t) (tk_parent t)
    (if reclaimed then "" else tk_worker t) (tk_alias t) (tk_provider t) (tk_model t) (tk_effort t) (tk_domain t) (tk_partition t)
    (tk_blocked_by t) (tk_failure_category t) (tk_reclaim_reason t) (tk_reclaim_claims t) (tk_blocked t) (tk_created t) (tk_updated t) (tk_a2a t).

(** The loop of [applyEvent], up to its break. *)
Fixpoint apply_first (id status : string) (reclaimed : bool) (tasks : list Task) : list Task :=
  match tasks with
  | [] => []
  | t :: tasks' => if bool_decide (tk_id t = id) then set_status status reclaimed t :: tasks'
                   else t :: apply_first id status reclaimed tasks'
  end.

Definition set_tasks (tasks : Slice Task) (s : Snap) : Snap :=
  mkSnap (sp_capturedAt s) (sp_summary s) (sp_plans s) (sp_plansHasMore s) (sp_progress s) (sp_planEvent s) tasks (sp_tasksHasMore s)
    (sp_descriptions s) (sp_taskEvent s) (sp_eventsHasMore s) (sp_eventCursor s) (sp_live s).
Definition set_progress (p : option (gmap string Progress)) (s : Snap) : Snap :=
  mkSnap (sp_capturedAt s) (sp_summary s) (sp_plans s) (sp_plansHasMore s) p (sp_planEvent s) (sp_tasks s) (sp_tasksHasMore s)
    (sp_descriptions s) (sp_taskEvent s) (sp_eventsHasMore s) (sp_eventCursor s) (sp_live s).
Definition set_planEvent (e : Slice Event) (s : Snap) : Snap :=
  mkSnap (sp_capturedAt s) (sp_summary s) (sp_plans s) (sp_plansHasMore s) (sp_progress s) e (sp_tasks s) (sp_tasksHasMore s)
    (sp_descriptions s) (sp_taskEvent s) (sp_eventsHasMore s) (sp_eventCursor s) (sp_live s).
Definition set_live (l : list liveLogLine) (s : Snap) : Snap :=
  mkSnap (sp_capturedAt s) (sp_summary s) (sp_plans s) (sp_plansHasMore s) (sp_progress s) (sp_planEvent s) (sp_tasks s) (sp_tasksHasMore s)
    (sp_descriptions s) (sp_taskEvent s) (sp_eventsHasMore s) (sp_eventCursor s) l.

Definition applyEvent (snap : Snap) (ev : AttachEvent) : Snap :=
  let status := taskDeltaStatus (ae_Kind ev) in
  if bool_decide (status = "") || bool_decide (ae_TaskID ev = "") then snap
  else set_tasks (apply_first (ae_TaskID ev) status (bool_decide (ae_Kind ev = "task.reclaimed")) <$> sp_tasks snap) snap.

(** [bumpLiveProgress] on the progress map and the set of counted tasks. *)
Definition bump (ev : AttachEvent) (p : gmap string Progress) (liveDone : gset string) : gmap string Progress * gset string :=
  if negb (bool_decide (taskDeltaStatus (ae_Kind ev) = "done")) || bool_decide (ae_TaskID ev = "") || bool_decide (ae_PlanID ev = "")
  then (p, liveDone)
  else if bool_decide (ae_TaskID ev ∈ liveDone) then (p, liveDone)
  else match p !! ae_PlanID ev with
       | None => (p, liveDone)
       | Some prog =>
           ((if (pr_done prog <? pr_total prog)%Z then <[ae_PlanID ev := mkProgress (pr_done prog + 1) (pr_total prog)]> p else p),
            {[ ae_TaskID ev ]} ∪ liveDone)
       end.

Definition category_text (c : FailureCategory) : string :=
  match c with
  | FailureTaskAttempt => "task_attempt"
  | FailureTaskTerminal => "task_terminal"
  | FailureInteractivePromptPermission => "interactive_prompt_permission"
  | FailureInteractivePromptConfirm => "interactive_prompt_confirm"
  | FailureInteractivePromptClarification => "interactive_prompt_clarification"
  | FailureProviderAuth => "provider_auth"
  | FailureProviderThrottled => "provider_throttled"
  | FailureProviderUnavailable => "provider_unavailable"
  | FailureVerification => "verification"
  | FailureDispatch => "dispatch"
  | FailureAdmission => "admission"
  end.
Definition renderEvent (ev : AttachEvent) : string :=
  ae_Kind ev +:+ (if decide (ae_TaskID ev = "") then "" else " task=" +:+ ae_TaskID ev) +:+
  (match ae_Failure ev with None => "" | Some f => " failure=" +:+ category_text (fs_category f) end).

(** ** Gathers *)

Definition plan_id (p : option Plan) : string := match p with Some p => pn_id p | None => "" end.
Definition task_id (t : option Task) : string := match t with Some t => tk_id t | None => "" end.

Definition gather_query (g : Gather) : OperatorSnapshotQuery :=
  let query plan task planLimit taskLimit eventLimit :=
    mkSnapshotQuery (ga_project g) plan task planLimit "" taskLimit no_task_cursor eventLimit 0 in
  match ga_lvl g with
  | levelMacro => query "" "" MaxPageLimit 1%Z 10%Z
  | levelMeso => query (ga_plan g) "" 1%Z MaxPageLimit 1%Z
  | levelMicro => query (ga_plan g) (ga_task g) 1%Z 1%Z 50%Z
  end.

Definition taskIDsOf (tasks : list Task) : list string := base.filter (λ id, id ≠ "") (tk_id <$> tasks).

(** [describe] is the data source's answer for a plan's tasks, [None] for an error
    and a nil map. *)
Definition fetchDescriptions (describe : string → list string → option (gmap string string)) (planID : string) (taskIDs : list string)
    : option (gmap string string) :=
  if bool_decide (planID = "") || bool_decide (taskIDs = []) then None else describe planID taskIDs.

Section Fetch.
Context {Error : Type}.

(** The command of a gather, with the source's answers and the progress map the
    closure holds, as it is when it is read. *)
Definition fetch (g : Gather) (prevProgress : gmap string Progress) (reply : result Error Snapshot)
    (describe : string → list string → option (gmap string string)) : Msg Error :=
  FetchedMsg (
    try reply := reply in
    let progress := foldl (λ acc plan, <[pn_id plan := mkProgress (pn_done plan) (pn_total plan)]> acc) prevProgress (items (wp_items (sn_plans reply))) in
    let snap plans plansMore planEvent tasks tasksMore descriptions taskEvent eventsMore :=
      mkSnap (sn_captured reply) (Some (sn_summary reply)) plans plansMore (Some progress) planEvent tasks tasksMore descriptions taskEvent eventsMore
        (sn_event_cursor reply) [] in
    Ok (match ga_lvl g with
        | levelMacro => snap (wp_items (sn_plans reply)) (wp_has_more (sn_plans reply)) (wp_items (sn_events reply)) None false None None (wp_has_more (sn_events reply))
        | levelMeso => snap None false None (wp_items (sn_tasks reply)) (wp_has_more (sn_tasks reply))
                         (fetchDescriptions describe (ga_plan g) (taskIDsOf (items (wp_items (sn_tasks reply))))) None false
        | levelMicro => snap None false None None false (fetchDescriptions describe (ga_plan g) [ga_task g])
                         (wp_items (sn_events reply)) (wp_has_more (sn_events reply))
        end)).

(** ** Updating the model *)

Definition set_nav (n : Nav) (m : Model Error) : Model Error :=
  mkModel (md_project m) n (md_snap m) (md_stream m) (md_size m) (md_err m) (md_liveDone m) (md_fetching m) (md_quitting m).
Definition set_snap (s : Snap) (m : Model Error) : Model Error :=
  mkModel (md_project m) (md_nav m) s (md_stream m) (md_size m) (md_err m) (md_liveDone m) (md_fetching m) (md_quitting m).
Definition set_stream (s : Stream) (m : Model Error) : Model Error :=
  mkModel (md_project m) (md_nav m) (md_snap m) s (md_size m) (md_err m) (md_liveDone m) (md_fetching m) (md_quitting m).
Definition set_size (s : Z * Z) (m : Model Error) : Model Error :=
  mkModel (md_project m) (md_nav m) (md_snap m) (md_stream m) s (md_err m) (md_liveDone m) (md_fetching m) (md_quitting m).
Definition set_err (e : option Error) (m : Model Error) : Model Error :=
  mkModel (md_project m) (md_nav m) (md_snap m) (md_stream m) (md_size m) e (md_liveDone m) (md_fetching m) (md_quitting m).
Definition set_liveDone (d : gset string) (m : Model Error) : Model Error :=
  mkModel (md_project m) (md_nav m) (md_snap m) (md_stream m) (md_size m) (md_err m) d (md_fetching m) (md_quitting m).
Definition set_fetching (b : bool) (m : Model Error) : Model Error :=
  mkModel (md_project m) (md_nav m) (md_snap m) (md_stream m) (md_size m) (md_err m) (md_liveDone m) b (md_quitting m).
Definition set_quitting (m : Model Error) : Model Error :=
  mkModel (md_project m) (md_nav m) (md_snap m) (md_stream m) (md_size m) (md_err m) (md_liveDone m) (md_fetching m) true.

Definition set_cursor (c : Z) (n : Nav) : Nav := mkNav (nv_lvl n) c (nv_plan n) (nv_task n) (nv_offset n).
Definition set_offset (o : Z) (n : Nav) : Nav := mkNav (nv_lvl n) (nv_cursor n) (nv_plan n) (nv_task n) o.
Definition set_level (l : level) (n : Nav) : Nav := mkNav l 0 (nv_plan n) (nv_task n) (nv_offset n).

(** [startFetch], with what [fetchCmd] captures. *)
Definition startFetch (m : Model Error) : Model Error * list Cmd :=
  (set_fetching true m,
   [FetchCmd (mkGather (nv_lvl (md_nav m)) (md_project m) (plan_id (nv_plan (md_nav m))) (task_id (nv_task (md_nav m))))]).
Definition drillFetch (m : Model Error) : Model Error * list Cmd := if md_fetching m then (m, []) else startFetch m.

Definition ensureAttach (m : Model Error) : Model Error * list Cmd :=
  let s := md_stream m in
  if at_open s then (m, [])
  else
    let last := if at_seeded s then at_lastEventID s else sp_eventCursor (md_snap m) in
    let epoch := (at_epoch s + 1)%N in
    (set_stream (mkStream true true epoch last true) m, [StartAttach last epoch; AttachCmd epoch]).

Definition currentListLen (m : Model Error) : Z :=
  match nv_lvl (md_nav m) with
  | levelMacro => Z.of_nat (length (items (sp_plans (md_snap m))))
  | levelMeso => Z.of_nat (length (items (sp_tasks (md_snap m))))
  | levelMicro => 0
  end.

Definition selectableIDs (m : Model Error) : list string :=
  match nv_lvl (md_nav m) with
  | levelMacro => pn_id <$> items (sp_plans (md_snap m))
  | levelMeso => tk_id <$> flattenGroupedTasks (items (sp_tasks (md_snap m)))
  | levelMicro => []
  end.

Definition selectedRowID (m : Model Error) : string :=
  let ids := selectableIDs m in
  let c := nv_cursor (md_nav m) in
  if ((c <? 0) || (Z.of_nat (length ids) <=? c))%Z then "" else default "" (ids !! Z.to_nat c).

Fixpoint position (id : string) (ids : list string) : option nat :=
  match ids with
  | [] => None
  | x :: ids' => if decide (x = id) then Some 0 else S <$> position id ids'
  end.

Definition reconcileCursor (wantID : string) (m : Model Error) : Model Error :=
  let ids := selectableIDs m in
  let n := Z.of_nat (length ids) in
  let to c := set_nav (set_cursor c (md_nav m)) m in
  if (n =? 0)%Z then to 0%Z
  else match (if decide (wantID = "") then None else position wantID ids) with
       | Some i => to (Z.of_nat i)
       | None =>
           let c := nv_cursor (md_nav m) in
           let c := if (n <=? c)%Z then (n - 1)%Z else c in
           to (if c <? 0 then 0 else c)%Z
       end.

(** A row's item; an index below zero would be a panic, which the invariant rules
    out. *)
Definition row_at {A} (l : list A) (c : Z) : option A := if (c <? 0)%Z then None else l !! Z.to_nat c.

Definition drillIn (m : Model Error) : Model Error * list Cmd :=
  let n := md_nav m in
  match nv_lvl n with
  | levelMacro =>
      match row_at (items (sp_plans (md_snap m))) (nv_cursor n) with
      | None => (m, [])
      | Some plan => drillFetch (set_nav (mkNav levelMeso 0 (Some plan) (nv_task n) (nv_offset n)) m)
      end
  | levelMeso =>
      match row_at (flattenGroupedTasks (items (sp_tasks (md_snap m)))) (nv_cursor n) with
      | None => (m, [])
      | Some task =>
          drillFetch (set_snap (set_live [] (md_snap m)) (set_nav (mkNav levelMicro (nv_cursor n) (nv_plan n) (Some task) 0) m))
      end
  | levelMicro => (m, [])
  end.

Definition drillOut (m : Model Error) : Model Error * list Cmd :=
  match nv_lvl (md_nav m) with
  | levelMicro => drillFetch (set_nav (set_level levelMeso (md_nav m)) m)
  | levelMeso => drillFetch (set_nav (set_level levelMacro (md_nav m)) m)
  | levelMacro => (m, [])
  end.

Definition handleKey (key : string) (m : Model Error) : Model Error * list Cmd :=
  let n := md_nav m in
  if bool_decide (key ∈ ["q"; "ctrl+c"]) then
    (set_quitting m, (if at_cancelable (md_stream m) then [CancelAttach] else []) ++ [QuitCmd])
  else if bool_decide (key ∈ ["up"; "k"]) then
    (if decide (nv_lvl n = levelMicro) then set_nav (set_offset (nv_offset n + 1) n) m
     else if (0 <? nv_cursor n)%Z then set_nav (set_cursor (nv_cursor n - 1) n) m else m, [])
  else if bool_decide (key ∈ ["down"; "j"]) then
    (if decide (nv_lvl n = levelMicro) then
       (if (0 <? nv_offset n)%Z then set_nav (set_offset (nv_offset n - 1) n) m else m)
     else if (nv_cursor n <? currentListLen m - 1)%Z then set_nav (set_cursor (nv_cursor n + 1) n) m else m, [])
  else if bool_decide (key ∈ ["enter"; "right"; "l"]) then drillIn m
  else if bool_decide (key ∈ ["esc"; "backspace"; "left"; "h"]) then drillOut m
  else (m, []).

(** One plan's count behind a poll: the larger of what is shown and what it says. *)
Definition poll_progress (cur : gmap string Progress) (id : string) (poll : Progress) : Progress :=
  match cur !! id with
  | Some c => if (pr_done poll <? pr_done c)%Z then mkProgress (pr_done c) (pr_total poll) else poll
  | None => poll
  end.

(** [msg.snap] over the model's, field by field. *)
Definition merge_snap (old new : Snap) : Snap :=
  let or_old {A} (n o : option A) := match n with Some _ => n | None => o end in
  let has {A} (n : option A) (yes no : bool) := match n with Some _ => yes | None => no end in
  let events_more := has (sp_planEvent new) (sp_eventsHasMore new) (sp_eventsHasMore old) in
  mkSnap (sp_capturedAt new) (sp_summary new)
    (or_old (sp_plans new) (sp_plans old)) (has (sp_plans new) (sp_plansHasMore new) (sp_plansHasMore old))
    (match sp_progress new with
     | Some p => Some (map_imap (λ id poll, Some (poll_progress (default ∅ (sp_progress old)) id poll)) p)
     | None => sp_progress old
     end)
    (match sp_planEvent new with Some e => Some (mergeEventTail (items (sp_planEvent old)) e) | None => sp_planEvent old end)
    (or_old (sp_tasks new) (sp_tasks old)) (has (sp_tasks new) (sp_tasksHasMore new) (sp_tasksHasMore old))
    (or_old (sp_descriptions new) (sp_descriptions old))
    (or_old (sp_taskEvent new) (sp_taskEvent old))
    (has (sp_taskEvent new) (sp_eventsHasMore new) events_more)
    (sp_eventCursor new) (sp_live old).

Definition handleFetched (r : result Error Snap) (m : Model Error) : Model Error * list Cmd :=
  let m := set_fetching false m in
  match r with
  | Err e => (set_err (Some e) m, [])
  | Ok snap =>
      let selectedID := selectedRowID m in
      let m := set_snap (merge_snap (md_snap m) snap) (set_err None m) in
      let m := match sp_progress snap with Some _ => set_liveDone ∅ m | None => m end in
      ensureAttach (reconcileCursor selectedID m)
  end.

(** The frame's event, if it has one to apply. *)
Definition frame_event (event : AttachEvent) (raw : option (option AttachEvent)) : option AttachEvent :=
  if bool_decide (ae_Kind event = "") then match raw with Some decoded => decoded | None => Some event end else Some event.

Definition rearm (m : Model Error) : Model Error * list Cmd :=
  (m, if at_open (md_stream m) then [AttachCmd (at_epoch (md_stream m))] else []).

Definition liveCap : nat := 500.

(** The handling of a frame of the current subscription. *)
Definition apply_frame (now : Z) (ev : AttachEvent) (m : Model Error) : Model Error :=
  let s := md_stream m in
  let m := if (at_lastEventID s <? ae_ID ev)%Z
           then set_stream (mkStream (at_open s) (at_cancelable s) (at_epoch s) (ae_ID ev) (at_seeded s)) m else m in
  let m := set_snap (applyEvent (md_snap m) ev) m in
  let '(progress, liveDone) := bump ev (default ∅ (sp_progress (md_snap m))) (md_liveDone m) in
  let m := set_liveDone liveDone (set_snap (set_progress (match sp_progress (md_snap m) with Some _ => Some progress | None => None end) (md_snap m)) m) in
  let m := set_snap (set_planEvent (prependEvent now (sp_planEvent (md_snap m)) ev) (md_snap m)) m in
  if decide (nv_lvl (md_nav m) = levelMicro) then
    let selected := task_id (nv_task (md_nav m)) in
    if bool_decide (ae_TaskID ev = "") || bool_decide (selected = "") || bool_decide (ae_TaskID ev = selected) then
      let live := sp_live (md_snap m) ++ [mkLiveLine (event_time now ev) (renderEvent ev)] in
      set_snap (set_live (drop (length live - liveCap) live) (md_snap m)) m
    else m
  else m.

Definition Update (now : Z) (msg : Msg Error) (m : Model Error) : Model Error * list Cmd :=
  match msg with
  | WindowSizeMsg w h => (set_size (w, h) m, [])
  | KeyMsg key => handleKey key m
  | RefreshMsg =>
      if md_fetching m then (m, [TickCmd])
      else let '(m, cmds) := startFetch m in (m, cmds ++ [TickCmd])
  | FetchedMsg r => handleFetched r m
  | LiveFrameMsg event raw epoch =>
      if negb (epoch =? at_epoch (md_stream m))%N then (m, [])
      else match frame_event event raw with
           | None => rearm m
           | Some ev => rearm (apply_frame now ev m)
           end
  | AttachEndedMsg epoch =>
      if negb (epoch =? at_epoch (md_stream m))%N then (m, [])
      else let s := md_stream m in
           (set_stream (mkStream false (at_cancelable s) (at_epoch s) (at_lastEventID s) (at_seeded s)) m, [])
  end.

(** ** The program around the model *)

(** What the commands under way may answer. A gather is any answer of the source
    and any progress map. *)
Inductive answers : Cmd → Msg Error → Prop :=
| AnswerTick : answers TickCmd RefreshMsg
| AnswerFetch g prev reply describe : answers (FetchCmd g) (fetch g prev reply describe)
| AnswerFrame epoch event raw : answers (AttachCmd epoch) (LiveFrameMsg event raw epoch)
| AnswerEnd epoch : answers (AttachCmd epoch) (AttachEndedMsg epoch).

(** A command that runs until it answers. *)
Definition runs (c : Cmd) : bool := match c with TickCmd | FetchCmd _ | AttachCmd _ => true | _ => false end.

Record Program := mkProgram { pg_model : Model Error; pg_running : list Cmd }.

Definition after_update (r : Model Error * list Cmd) (running : list Cmd) : Program :=
  mkProgram r.1 (running ++ base.filter (λ c, runs c = true) r.2).

Inductive tui_step : Program → Program → Prop :=
| StepKey p now key : md_quitting (pg_model p) = false →
    tui_step p (after_update (Update now (KeyMsg key) (pg_model p)) (pg_running p))
| StepSize p now w h : md_quitting (pg_model p) = false →
    tui_step p (after_update (Update now (WindowSizeMsg w h) (pg_model p)) (pg_running p))
| StepAnswer m now before c after msg : md_quitting m = false → answers c msg →
    tui_step (mkProgram m (before ++ c :: after)) (after_update (Update now msg m) (before ++ after)).

(** [Init]. *)
Definition start_program (projectID : string) : Program := mkProgram (NewModel projectID) [TickCmd].
Definition tui_reachable (projectID : string) (p : Program) : Prop := rtc tui_step (start_program projectID) p.
End Fetch.

(** * The terminal front end, proved

    However keys, answers and frames interleave, the refresh loop never stops or
    doubles, one gather and one subscription are under way at most, and what is
    shown stays in bounds; a refresh keeps the selected row selected. *)

(** ** Rows *)

(** Tasks that differ only in what a live event changes. *)
Definition same_row (a b : Task) : Prop := tk_id a = tk_id b ∧ tk_parallel a = tk_parallel b.

Lemma apply_first_rows id status r tasks : Forall2 same_row tasks (apply_first id status r tasks).
Proof. induction tasks as [|t tasks IH]; cbn [apply_first]; [constructor|]. case_bool_decide; constructor; try done. by apply Forall_Forall2_diag, Forall_true. Qed.

Lemma filter_rows g l l' : Forall2 same_row l l' →
  Forall2 same_row (base.filter (λ t, in_group g t = true) l) (base.filter (λ t, in_group g t = true) l').
Proof.
  induction 1 as [|a b l l' [Hid Hp] _ IH]; [constructor|].
  assert (Hg : in_group g b = in_group g a) by (unfold in_group; by rewrite Hp).
  destruct (decide (in_group g a = true)).
  - rewrite !filter_cons_True by congruence. constructor; [by split|done].
  - by rewrite !filter_cons_False by congruence.
Qed.

Lemma group_order_rows l l' : Forall2 same_row l l' → group_order l = group_order l'.
Proof.
  unfold group_order. set (f := λ (order : list Z) (t : Task), _). intros Hl. generalize (@nil Z) as order.
  induction Hl as [|a b l l' [_ Hp] _ IH]; intros order; [done|]. cbn [foldl].
  assert (Hf : f order b = f order a) by (unfold f; by rewrite Hp). rewrite Hf. apply IH.
Qed.

Lemma flatten_rows l l' : Forall2 same_row l l' → tk_id <$> flattenGroupedTasks l = tk_id <$> flattenGroupedTasks l'.
Proof.
  intros Hl. unfold flattenGroupedTasks, groupTasks. rewrite <- (group_order_rows _ _ Hl), !fmap_app, !concat_app, !fmap_app.
  assert (Hids : ∀ a b, Forall2 same_row a b → tk_id <$> a = tk_id <$> b).
  { induction 1 as [|x y a b [Hid _] _ IH]; [done|]. cbn. by rewrite Hid, IH. }
  f_equal.
  - pose proof (filter_rows None _ _ Hl) as Hf. destruct Hf as [|x y ? ? Hxy Hf]; [done|]. cbn [fmap list_fmap concat snd]. rewrite !app_nil_r. apply (Hids (x :: _) (y :: _)). by constructor.
  - induction (group_order l) as [|g order IH]; [done|]. rewrite !fmap_cons. cbn [concat snd]. rewrite !fmap_app.
    f_equal; [apply Hids; by apply (filter_rows (Some g))|done].
Qed.

(** The grouped rows are the tasks. *)
Lemma group_order_spec tasks :
  NoDup (group_order tasks) ∧ ∀ g, g ∈ group_order tasks ↔ ∃ t, t ∈ tasks ∧ tk_parallel t = Some g.
Proof.
  unfold group_order. set (f := λ (order : list Z) (t : Task), _).
  induction tasks as [|t tasks IH] using rev_ind; [split; [constructor|intros g; split; [by intros ?%elem_of_nil|by intros (t & ?%elem_of_nil & _)]]|].
  rewrite foldl_app. cbn [foldl]. destruct IH as [Hnd Hin]. set (order := foldl f [] tasks) in *.
  assert (Hall : ∀ g, (∃ t', t' ∈ tasks ++ [t] ∧ tk_parallel t' = Some g) ↔ g ∈ order ∨ tk_parallel t = Some g).
  { intros g. rewrite Hin. split.
    - intros (t' & [Ht|Ht%list_elem_of_singleton]%elem_of_app & Hg); [left; by eauto|right; by subst].
    - intros [(t' & Ht & Hg)|Hg]; [exists t'; split; [by apply elem_of_app; left|done]|exists t; split; [apply elem_of_app; right; by left|done]]. }
  unfold f at 1 2. destruct (tk_parallel t) as [g0|].
  - case_bool_decide as Hg0.
    + split; [done|]. intros g. rewrite Hall. naive_solver.
    + split; [apply NoDup_app; split_and!; [done|set_solver|apply NoDup_singleton]|].
      intros g. rewrite Hall, elem_of_app, list_elem_of_singleton. naive_solver.
  - split; [done|]. intros g. rewrite Hall. naive_solver.
Qed.

Definition bucket (tasks : list Task) (g : option Z) : list Task := base.filter (λ t, in_group g t = true) tasks.

Lemma buckets_perm (ks : list (option Z)) tasks : NoDup ks → (∀ t, t ∈ tasks → tk_parallel t ∈ ks) →
  concat (bucket tasks <$> ks) ≡ₚ tasks.
Proof.
  intros Hnd. induction tasks as [|t tasks IH]; intros Hin.
  - clear. induction ks as [|k ks IH]; [done|]. cbn. exact IH.
  - rewrite <- IH at 2 by (intros; apply Hin; by right). assert (Ht : tk_parallel t ∈ ks) by (apply Hin; by left). clear IH Hin.
    induction ks as [|k ks IH]; [by apply elem_of_nil in Ht|]. apply NoDup_cons in Hnd as [Hk Hnd]. rewrite !fmap_cons. cbn [concat].
    destruct (decide (tk_parallel t = k)) as [Heq|Hne].
    + assert (Hrest : bucket (t :: tasks) <$> ks = bucket tasks <$> ks).
      { apply list_fmap_ext. intros i g Hg. unfold bucket. rewrite filter_cons_False; [done|].
        unfold in_group. rewrite bool_decide_eq_true. intros <-. apply Hk. rewrite <- Heq. by eapply list_elem_of_lookup_2. }
      rewrite Hrest. unfold bucket at 1. rewrite filter_cons_True by (unfold in_group; by apply bool_decide_eq_true). done.
    + assert (Hb : bucket (t :: tasks) k = bucket tasks k).
      { unfold bucket. rewrite filter_cons_False; [done|]. unfold in_group. by rewrite bool_decide_eq_true. }
      rewrite Hb, IH; [by rewrite Permutation_middle|done|]. apply elem_of_cons in Ht. naive_solver.
Qed.

Lemma flatten_perm tasks : flattenGroupedTasks tasks ≡ₚ tasks.
Proof.
  assert (Heq : flattenGroupedTasks tasks = concat (bucket tasks <$> None :: (Some <$> group_order tasks))).
  { unfold flattenGroupedTasks, groupTasks. rewrite fmap_cons. cbn [concat]. rewrite fmap_app, concat_app. unfold bucket at 1. f_equal.
    - destruct (base.filter _ tasks); [done|]. cbn. by rewrite app_nil_r.
    - f_equal. rewrite <- !list_fmap_compose. done. }
  rewrite Heq. destruct (group_order_spec tasks) as [Hnd Hin]. apply buckets_perm.
  - apply NoDup_cons. split; [by intros (? & ? & _)%list_elem_of_fmap|]. by apply NoDup_fmap; [apply _|].
  - intros t Ht. destruct (tk_parallel t) as [g|] eqn:Hg; [|by left]. right. apply list_elem_of_fmap. exists g. split; [done|].
    apply Hin. by exists t.
Qed.

(** ** The loops *)

Definition is_tick (c : Cmd) : bool := match c with TickCmd => true | _ => false end.
Definition is_fetch (c : Cmd) : bool := match c with FetchCmd _ => true | _ => false end.
Definition is_attach (c : Cmd) : bool := match c with AttachCmd _ => true | _ => false end.
Definition ticks (l : list Cmd) : list Cmd := base.filter (λ c, is_tick c = true) l.
Definition fetches (l : list Cmd) : list Cmd := base.filter (λ c, is_fetch c = true) l.
Definition attaches (l : list Cmd) : list Cmd := base.filter (λ c, is_attach c = true) l.

Section Program.
Context {Error : Type}.

(** One tick, a gather exactly while one is marked, and the pull of the current
    subscription exactly while it is open. *)
Record single (p : Program (Error:=Error)) : Prop := {
  sg_tick : ticks (pg_running p) = [TickCmd];
  sg_fetch : length (fetches (pg_running p)) = (if md_fetching (pg_model p) then 1 else 0);
  sg_attach : attaches (pg_running p) = (if at_open (md_stream (pg_model p)) then [AttachCmd (at_epoch (md_stream (pg_model p)))] else []) }.

(** What stays in bounds whatever happens. *)
Record bounded (m : Model Error) : Prop := {
  bd_cursor : (0 ≤ nv_cursor (md_nav m))%Z ∧
    (nv_lvl (md_nav m) ≠ levelMicro → nv_cursor (md_nav m) = 0%Z ∨ (nv_cursor (md_nav m) < Z.of_nat (length (selectableIDs m)))%Z);
  bd_offset : (0 ≤ nv_offset (md_nav m))%Z;
  bd_events : length (items (sp_planEvent (md_snap m))) ≤ macroEventCap;
  bd_live : length (sp_live (md_snap m)) ≤ liveCap }.

(** What [pull] of a model's subscription is under way. *)
Definition pull (m : Model Error) : list Cmd := if at_open (md_stream m) then [AttachCmd (at_epoch (md_stream m))] else [].
Definition gathering (m : Model Error) : nat := if md_fetching m then 1 else 0.

(** What a function of the model that is no answer of a loop does to the loops. *)
Definition keeps_loops (m : Model Error) (r : Model Error * list Cmd) : Prop :=
  ticks r.2 = [] ∧ gathering r.1 = gathering m + length (fetches r.2) ∧ pull r.1 = pull m ++ attaches r.2.

Lemma keeps_still m m' : md_fetching m' = md_fetching m → md_stream m' = md_stream m → keeps_loops m (m', []).
Proof. intros Hf Hs. unfold keeps_loops, gathering, pull. cbn [fst snd]. rewrite Hf, Hs. cbn. rewrite app_nil_r. split_and!; [done|lia|done]. Qed.

Lemma drillFetch_loops m m' : md_fetching m' = md_fetching m → md_stream m' = md_stream m → keeps_loops m (drillFetch m').
Proof.
  intros Hf Hs. unfold drillFetch. destruct (md_fetching m') eqn:He; [by apply keeps_still; congruence|].
  assert (Hm : md_fetching m = false) by congruence.
  unfold keeps_loops, startFetch, gathering, pull. cbn [fst snd set_fetching md_fetching md_stream]. rewrite Hm, Hs. cbn. by rewrite app_nil_r.
Qed.

Lemma handleKey_loops key m : keeps_loops m (handleKey key m).
Proof.
  unfold handleKey. case_bool_decide.
  { unfold keeps_loops, gathering, pull. cbn. destruct (at_cancelable _); cbn; rewrite app_nil_r; split_and!; done || lia. }
  case_bool_decide; [repeat case_match; by apply keeps_still|].
  case_bool_decide; [repeat case_match; by apply keeps_still|].
  case_bool_decide; [unfold drillIn; repeat case_match; (by apply keeps_still) || by apply drillFetch_loops|].
  case_bool_decide; [unfold drillOut; repeat case_match; (by apply keeps_still) || by apply drillFetch_loops|].
  by apply keeps_still.
Qed.

Lemma ensureAttach_loops m : keeps_loops m (ensureAttach m).
Proof.
  unfold ensureAttach. destruct (at_open (md_stream m)) eqn:Ho; [by apply keeps_still|].
  unfold keeps_loops, gathering, pull. rewrite Ho. cbn. split_and!; [done|by destruct (md_fetching m)|done].
Qed.

Lemma reconcileCursor_frame id (m : Model Error) : md_fetching (reconcileCursor id m) = md_fetching m ∧ md_stream (reconcileCursor id m) = md_stream m ∧
  md_snap (reconcileCursor id m) = md_snap m ∧ nv_lvl (md_nav (reconcileCursor id m)) = nv_lvl (md_nav m) ∧
  nv_offset (md_nav (reconcileCursor id m)) = nv_offset (md_nav m) ∧ md_quitting (reconcileCursor id m) = md_quitting m.
Proof. unfold reconcileCursor. repeat case_match; by split_and!. Qed.

Lemma apply_frame_frame now ev (m : Model Error) :
  md_fetching (apply_frame now ev m) = md_fetching m ∧ at_open (md_stream (apply_frame now ev m)) = at_open (md_stream m) ∧
  at_epoch (md_stream (apply_frame now ev m)) = at_epoch (md_stream m) ∧ md_nav (apply_frame now ev m) = md_nav m ∧
  md_quitting (apply_frame now ev m) = md_quitting m ∧
  at_lastEventID (md_stream (apply_frame now ev m)) = Z.max (at_lastEventID (md_stream m)) (ae_ID ev).
Proof.
  unfold apply_frame. destruct (at_lastEventID (md_stream m) <? ae_ID ev)%Z eqn:Hid.
  all: destruct (bump _ _ _) as [p d]; repeat case_match; cbn; split_and!; (done || lia).
Qed.

Lemma rearm_loops (m m' : Model Error) : md_fetching m' = md_fetching m → at_open (md_stream m') = at_open (md_stream m) →
  at_epoch (md_stream m') = at_epoch (md_stream m) → at_open (md_stream m) = true →
  ticks (rearm m').2 = [] ∧ gathering (rearm m').1 = gathering m + length (fetches (rearm m').2) ∧
  pull (rearm m').1 = [AttachCmd (at_epoch (md_stream m))] ∧ attaches (rearm m').2 = [AttachCmd (at_epoch (md_stream m))].
Proof.
  intros Hf Ho He Hop. unfold rearm, gathering, pull. cbn [fst snd]. rewrite Hf, Ho, He, Hop. cbn. split_and!; done || lia.
Qed.

Lemma handleFetched_loops r (m : Model Error) :
  let r' := handleFetched r m in
  ticks r'.2 = [] ∧ fetches r'.2 = [] ∧ md_fetching r'.1 = false ∧ pull r'.1 = pull m ++ attaches r'.2.
Proof.
  unfold handleFetched. destruct r as [snap|e]; cbn zeta.
  2: { unfold pull. cbn. by rewrite app_nil_r. }
  set (m1 := match sp_progress snap with Some _ => _ | None => _ end).
  assert (H1 : md_fetching m1 = false ∧ md_stream m1 = md_stream m) by (unfold m1; by destruct (sp_progress snap)).
  set (m2 := reconcileCursor _ m1). destruct (reconcileCursor_frame (selectedRowID (set_fetching false m)) m1) as (Hf & Hs & _). fold m2 in Hf, Hs. clearbody m2.
  destruct (ensureAttach_loops m2) as (Ht & Hg & Hp). unfold gathering in Hg. rewrite Hf, (proj1 H1) in Hg.
  assert (Hp2 : pull m2 = pull m) by (unfold pull; by rewrite Hs, (proj2 H1)). rewrite Hp2 in Hp.
  assert (Hfe : md_fetching (ensureAttach m2).1 = false) by (unfold ensureAttach; destruct (at_open (md_stream m2)); cbn; rewrite Hf; apply H1).
  rewrite Hfe in Hg. split_and!; [done| |done|done]. by apply nil_length_inv; lia.
Qed.

(** ** Bounds *)

Lemma ids_length (m : Model Error) : nv_lvl (md_nav m) ≠ levelMicro → Z.of_nat (length (selectableIDs m)) = currentListLen m.
Proof.
  unfold selectableIDs, currentListLen. destruct (nv_lvl (md_nav m)); intros Hl; [by rewrite length_fmap| |done].
  by rewrite length_fmap, flatten_perm.
Qed.

Lemma bounded_same (m m' : Model Error) : md_nav m' = md_nav m → md_snap m' = md_snap m → bounded m → bounded m'.
Proof.
  intros Hn Hs [Hc Ho He Hl]. assert (Hi : selectableIDs m' = selectableIDs m) by (unfold selectableIDs; by rewrite Hn, Hs).
  constructor; rewrite ?Hn, ?Hs, ?Hi; done.
Qed.

Lemma drillFetch_same (m : Model Error) : md_nav (drillFetch m).1 = md_nav m ∧ md_snap (drillFetch m).1 = md_snap m.
Proof. unfold drillFetch. by destruct (md_fetching m). Qed.

Lemma bounded_top (m : Model Error) n : nv_cursor n = 0%Z → (0 ≤ nv_offset n)%Z → bounded m → bounded (set_nav n m).
Proof.
  intros Hc Ho [_ _ He Hl]. constructor; [|done|done|done]. cbn [set_nav md_nav]. rewrite Hc. split; [lia|by left].
Qed.

Lemma handleKey_bounded key (m : Model Error) : bounded m → bounded (handleKey key m).1.
Proof.
  intros Hb. pose proof Hb as [[Hc0 Hc] Ho He Hl]. unfold handleKey. case_bool_decide; [by apply (bounded_same m)|].
  case_bool_decide.
  { cbn [fst]. case_decide as Hm.
    - constructor; [cbn; split; [done|by rewrite Hm]|cbn; lia|done|done].
    - destruct (0 <? _)%Z eqn:Hp; [|done]. apply Z.ltb_lt in Hp. constructor; [|done|done|done]. cbn [set_nav md_nav set_cursor nv_cursor nv_lvl].
      split; [lia|]. intros _. right. specialize (Hc Hm). change (selectableIDs (set_nav _ m)) with (selectableIDs m). lia. }
  case_bool_decide.
  { cbn [fst]. case_decide as Hm.
    - destruct (0 <? _)%Z eqn:Hp; [|done]. apply Z.ltb_lt in Hp. constructor; [cbn; split; [done|by rewrite Hm]|cbn; lia|done|done].
    - destruct (_ <? _)%Z eqn:Hp; [|done]. apply Z.ltb_lt in Hp. constructor; [|done|done|done]. cbn [set_nav md_nav set_cursor nv_cursor nv_lvl].
      split; [lia|]. intros _. right. change (selectableIDs (set_nav _ m)) with (selectableIDs m). rewrite ids_length by done. lia. }
  case_bool_decide.
  { unfold drillIn. destruct (nv_lvl (md_nav m)) eqn:Hlv; [| |done].
    - destruct (row_at _ _) as [plan|]; [|done]. set (m1 := set_nav _ m). destruct (drillFetch_same m1) as [Hn Hs].
      apply (bounded_same m1); [done|done|]. by apply bounded_top.
    - destruct (row_at _ _) as [task|]; [|done]. set (m1 := set_snap _ _). destruct (drillFetch_same m1) as [Hn Hs].
      apply (bounded_same m1); [done|done|]. constructor; [cbn; split; [done|by intros ?]|cbn; lia|done|cbn; lia]. }
  case_bool_decide; [|done].
  unfold drillOut. destruct (nv_lvl (md_nav m)); [done| |];
    match goal with |- bounded (drillFetch ?x).1 => destruct (drillFetch_same x) as [Hn Hs]; apply (bounded_same x); [done|done|by apply bounded_top] end.
Qed.

Lemma position_some id ids i : position id ids = Some i → ids !! i = Some id.
Proof.
  revert i. induction ids as [|x ids IH]; intros i; cbn [position]; [done|]. case_decide as Hx; [intros [= <-]; by subst|].
  destruct (position id ids) as [j|]; [|done]. intros [= <-]. by apply IH.
Qed.
Lemma position_in id ids : id ∈ ids → is_Some (position id ids).
Proof.
  induction ids as [|x ids IH]; [by intros ?%elem_of_nil|]. intros [->|Hin]%elem_of_cons; cbn [position]; [by rewrite decide_True|].
  case_decide; [done|]. destruct (IH Hin) as [i ->]. by eexists.
Qed.

Lemma reconcileCursor_in_bounds id (m : Model Error) :
  (0 ≤ nv_cursor (md_nav (reconcileCursor id m)))%Z ∧
  (nv_cursor (md_nav (reconcileCursor id m)) = 0 ∨
   nv_cursor (md_nav (reconcileCursor id m)) < Z.of_nat (length (selectableIDs (reconcileCursor id m))))%Z.
Proof.
  destruct (reconcileCursor_frame id m) as (_ & _ & Hs & Hl & _).
  assert (Hi : selectableIDs (reconcileCursor id m) = selectableIDs m) by (unfold selectableIDs; by rewrite Hs, Hl). rewrite Hi. clear Hs Hl Hi.
  unfold reconcileCursor. destruct (Z.of_nat _ =? 0)%Z eqn:H0; [cbn; lia|]. apply Z.eqb_neq in H0.
  destruct (if decide (id = "") then None else position id (selectableIDs m)) as [i|] eqn:Hp.
  - case_decide; [done|]. apply position_some, lookup_lt_Some in Hp. cbn. lia.
  - cbn [set_nav md_nav set_cursor nv_cursor]. destruct (Z.of_nat (length (selectableIDs m)) <=? nv_cursor (md_nav m))%Z eqn:H1;
      [|apply Z.leb_gt in H1]; destruct (_ <? 0)%Z eqn:H2; lia.
Qed.

Lemma merge_snap_bounds old new :
  length (items (sp_planEvent old)) ≤ macroEventCap → length (sp_live old) ≤ liveCap →
  length (items (sp_planEvent (merge_snap old new))) ≤ macroEventCap ∧ length (sp_live (merge_snap old new)) ≤ liveCap.
Proof.
  intros He Hl. unfold merge_snap. cbn [sp_planEvent sp_live]. split; [|done]. destruct (sp_planEvent new) as [l|]; [|done].
  change (length (take macroEventCap (take_new ∅ (merge_desc (items (sp_planEvent old)) l))) ≤ macroEventCap). rewrite length_take. lia.
Qed.

Lemma ensureAttach_same (m : Model Error) : md_nav (ensureAttach m).1 = md_nav m ∧ md_snap (ensureAttach m).1 = md_snap m.
Proof. unfold ensureAttach. by destruct (at_open _). Qed.

Lemma handleFetched_bounded r (m : Model Error) : bounded m → bounded (handleFetched r m).1.
Proof.
  intros Hb. unfold handleFetched. destruct r as [snap|e]; [|by apply (bounded_same m)]. cbn zeta.
  set (m1 := match sp_progress snap with Some _ => _ | None => _ end).
  assert (H1 : md_snap m1 = merge_snap (md_snap m) snap ∧ md_nav m1 = md_nav m) by (unfold m1; by destruct (sp_progress snap)).
  clearbody m1. set (id := selectedRowID _). clearbody id. destruct (ensureAttach_same (reconcileCursor id m1)) as [Hn Hs].
  apply (bounded_same (reconcileCursor id m1)); [done|done|].
  destruct (reconcileCursor_frame id m1) as (_ & _ & Hs1 & Hl1 & Ho1 & _), (reconcileCursor_in_bounds id m1) as [Hc0 Hc].
  destruct Hb as [_ Ho He Hl], (merge_snap_bounds (md_snap m) snap He Hl) as [He' Hl'].
  constructor; [by split|rewrite Ho1, (proj2 H1); done|rewrite Hs1, (proj1 H1); done|rewrite Hs1, (proj1 H1); done].
Qed.

Lemma prependEvent_bounded now tail ev : length (items tail) ≤ macroEventCap → length (items (prependEvent now tail ev)) ≤ macroEventCap.
Proof. unfold prependEvent. intros Hl. case_match; [done|].
  match goal with |- length (items (Some ?l)) ≤ _ => change (length l ≤ macroEventCap) end. rewrite length_take. lia.
Qed.

Lemma apply_frame_rows now ev (m : Model Error) : selectableIDs (apply_frame now ev m) = selectableIDs m.
Proof.
  destruct (apply_frame_frame now ev m) as (_ & _ & _ & Hn & _). unfold selectableIDs. rewrite Hn.
  assert (Ht : ∀ s, sp_tasks (applyEvent s ev) = sp_tasks s ∨
                    sp_tasks (applyEvent s ev) = apply_first (ae_TaskID ev) (taskDeltaStatus (ae_Kind ev)) (bool_decide (ae_Kind ev = "task.reclaimed")) <$> sp_tasks s).
  { intros s. unfold applyEvent. case_match; [by left|by right]. }
  assert (Hsp : sp_plans (md_snap (apply_frame now ev m)) = sp_plans (md_snap m) ∧
                sp_tasks (md_snap (apply_frame now ev m)) = sp_tasks (applyEvent (md_snap m) ev)).
  { unfold apply_frame. destruct (at_lastEventID _ <? _)%Z; cbn [md_snap set_stream]; destruct (bump _ _ _) as [p d]; repeat case_match; split; try reflexivity;
      unfold applyEvent; by case_match. }
  destruct Hsp as [-> ->]. destruct (nv_lvl (md_nav m)); [done| |done].
  destruct (Ht (md_snap m)) as [->| ->]; [done|]. destruct (sp_tasks (md_snap m)) as [tasks|]; [|done]. cbn [fmap option_fmap option_map items default from_option].
  symmetry. apply flatten_rows, apply_first_rows.
Qed.

Lemma apply_frame_bounded now ev (m : Model Error) : bounded m → bounded (apply_frame now ev m).
Proof.
  intros [Hc Ho He Hl]. pose proof (apply_frame_rows now ev m) as Hr. destruct (apply_frame_frame now ev m) as (_ & _ & _ & Hn & _).
  assert (Hs : sp_planEvent (md_snap (apply_frame now ev m)) = prependEvent now (sp_planEvent (md_snap m)) ev ∧
               length (sp_live (md_snap (apply_frame now ev m))) ≤ liveCap).
  { assert (Ha : ∀ s, sp_planEvent (applyEvent s ev) = sp_planEvent s ∧ sp_live (applyEvent s ev) = sp_live s) by (intros s; unfold applyEvent; by case_match).
    destruct (Ha (md_snap m)) as [Ha1 Ha2].
    unfold apply_frame. destruct (at_lastEventID _ <? _)%Z; cbn [md_snap set_stream]; destruct (bump _ _ _) as [p d];
      repeat case_match; cbn [md_snap set_snap set_live set_liveDone set_planEvent set_progress sp_planEvent sp_live];
      rewrite ?Ha1, ?Ha2; (split; [done|]); rewrite ?length_drop; (done || lia). }
  destruct Hs as [Hs1 Hs2]. constructor; rewrite ?Hn, ?Hr; [done|done| |done]. rewrite Hs1. by apply prependEvent_bounded.
Qed.

(** ** The invariant *)

Lemma ticks_app a b : ticks (a ++ b) = ticks a ++ ticks b.
Proof. apply filter_app. Qed.
Lemma fetches_app a b : fetches (a ++ b) = fetches a ++ fetches b.
Proof. apply filter_app. Qed.
Lemma attaches_app a b : attaches (a ++ b) = attaches a ++ attaches b.
Proof. apply filter_app. Qed.

Lemma filter_running (f : Cmd → bool) (l : list Cmd) : (∀ c, f c = true → runs c = true) →
  base.filter (λ c, f c = true) (base.filter (λ c, runs c = true) l) = base.filter (λ c, f c = true) l.
Proof.
  intros Hf. induction l as [|c l IH]; [done|]. rewrite (filter_cons _ c l). case_decide as Hc.
  - rewrite !(filter_cons (λ c, f c = true)). by rewrite IH.
  - rewrite filter_cons_False by (intros H; apply Hc, Hf, H). exact IH.
Qed.

Lemma running_kinds l :
  ticks (base.filter (λ c, runs c = true) l) = ticks l ∧ fetches (base.filter (λ c, runs c = true) l) = fetches l ∧
  attaches (base.filter (λ c, runs c = true) l) = attaches l.
Proof. split_and!; apply filter_running; by intros []. Qed.

Lemma keeps_single (p : Program (Error:=Error)) r : single p → keeps_loops (pg_model p) r → single (after_update r (pg_running p)).
Proof.
  intros [Ht Hf Ha] (Hrt & Hrf & Hra). destruct (running_kinds r.2) as (Hk1 & Hk2 & Hk3). constructor; cbn [after_update pg_running pg_model].
  - by rewrite ticks_app, Hk1, Ht, Hrt.
  - rewrite fetches_app, length_app, Hk2, Hf. symmetry. exact Hrf.
  - rewrite attaches_app, Hk3, Ha. symmetry. exact Hra.
Qed.

Lemma answer_single (m : Model Error) now before c after msg : answers c msg →
  single (mkProgram m (before ++ c :: after)) → single (after_update (Update now msg m) (before ++ after)).
Proof.
  intros Hans [Ht Hf Ha]. cbn [pg_model pg_running] in *.
  rewrite ticks_app in Ht. rewrite fetches_app, length_app in Hf. rewrite attaches_app in Ha.
  destruct (running_kinds (Update now msg m).2) as (Hk1 & Hk2 & Hk3).
  assert (Hgoal : ticks before ++ ticks after ++ ticks (Update now msg m).2 = [TickCmd] →
    length (fetches before) + length (fetches after) + length (fetches (Update now msg m).2) = gathering (Update now msg m).1 →
    attaches before ++ attaches after ++ attaches (Update now msg m).2 = pull (Update now msg m).1 →
    single (after_update (Update now msg m) (before ++ after))).
  { intros H1 H2 H3. constructor; cbn [after_update pg_running pg_model].
    - by rewrite !ticks_app, Hk1, <- app_assoc.
    - rewrite !fetches_app, !length_app, Hk2. exact H2.
    - by rewrite !attaches_app, Hk3, <- app_assoc. }
  clear Hk1 Hk2 Hk3. fold (gathering m) in Hf. fold (pull m) in Ha.
  destruct Hans as [|g prev reply describe|epoch event raw|epoch].
  - (* the tick *)
    change (ticks (TickCmd :: after)) with (TickCmd :: ticks after) in Ht. change (fetches (TickCmd :: after)) with (fetches after) in Hf.
    change (attaches (TickCmd :: after)) with (attaches after) in Ha.
    assert (Hb : ticks before = [] ∧ ticks after = []).
    { destruct (ticks before) as [|x [|]]; cbn in Ht; by simplify_eq. }
    destruct Hb as [Hb1 Hb2]. apply Hgoal; clear Hgoal; cbn [Update]; rewrite ?Hb1, ?Hb2; unfold gathering in *;
      destruct (md_fetching m) eqn:Hfe; cbn [fst snd startFetch]; try done.
    + rewrite Hfe. change (fetches [TickCmd]) with (@nil Cmd). cbn [length]. lia.
    + change (fetches ([FetchCmd _] ++ [TickCmd])) with [FetchCmd (mkGather (nv_lvl (md_nav m)) (md_project m) (plan_id (nv_plan (md_nav m))) (task_id (nv_task (md_nav m))))].
      cbn [length set_fetching md_fetching]. lia.
    + change (attaches [TickCmd]) with (@nil Cmd). by rewrite app_nil_r.
    + change (attaches ([FetchCmd _] ++ [TickCmd])) with (@nil Cmd). rewrite app_nil_r. exact Ha.
  - (* a gather *)
    change (ticks (FetchCmd g :: after)) with (ticks after) in Ht. change (attaches (FetchCmd g :: after)) with (attaches after) in Ha.
    change (fetches (FetchCmd g :: after)) with (FetchCmd g :: fetches after) in Hf. cbn [length] in Hf.
    unfold fetch in *. cbn [Update] in *. set (r := try _ := reply in _) in *. clearbody r.
    destruct (handleFetched_loops r m) as (H1 & H2 & H3 & H4). apply Hgoal; clear Hgoal.
    + by rewrite H1, app_nil_r.
    + rewrite H2. unfold gathering in *. rewrite H3. cbn [length]. destruct (md_fetching m); lia.
    + rewrite H4, app_assoc. by rewrite Ha.
  - (* a frame *)
    change (ticks (AttachCmd epoch :: after)) with (ticks after) in Ht. change (fetches (AttachCmd epoch :: after)) with (fetches after) in Hf.
    change (attaches (AttachCmd epoch :: after)) with (AttachCmd epoch :: attaches after) in Ha.
    unfold pull in Ha. destruct (at_open (md_stream m)) eqn:Hop; [|by destruct (attaches before)].
    assert (Hb : attaches before = [] ∧ attaches after = [] ∧ epoch = at_epoch (md_stream m)).
    { destruct (attaches before) as [|x [|]]; cbn in Ha; by simplify_eq. }
    destruct Hb as (Hb1 & Hb2 & ->). cbn [Update] in *. rewrite N.eqb_refl in *. cbn [negb] in *.
    set (m1 := match frame_event event raw with None => m | Some ev => apply_frame now ev m end).
    assert (H1 : md_fetching m1 = md_fetching m ∧ at_open (md_stream m1) = at_open (md_stream m) ∧ at_epoch (md_stream m1) = at_epoch (md_stream m)).
    { unfold m1. destruct (frame_event event raw) as [ev|]; [|done]. by destruct (apply_frame_frame now ev m) as (? & ? & ? & _). }
    assert (Hu : match frame_event event raw with None => rearm m | Some ev => rearm (apply_frame now ev m) end = rearm m1).
    { unfold m1. by destruct (frame_event event raw). }
    rewrite Hu in *. destruct H1 as (Hx & Hy & Hz). destruct (rearm_loops m m1 Hx Hy Hz Hop) as (R1 & R2 & R3 & R4). apply Hgoal.
    + by rewrite R1, app_nil_r.
    + rewrite R2. lia.
    + by rewrite R3, R4, Hb1, Hb2.
  - (* the end of the stream *)
    change (ticks (AttachCmd epoch :: after)) with (ticks after) in Ht. change (fetches (AttachCmd epoch :: after)) with (fetches after) in Hf.
    change (attaches (AttachCmd epoch :: after)) with (AttachCmd epoch :: attaches after) in Ha.
    unfold pull in Ha. destruct (at_open (md_stream m)) eqn:Hop; [|by destruct (attaches before)].
    assert (Hb : attaches before = [] ∧ attaches after = [] ∧ epoch = at_epoch (md_stream m)).
    { destruct (attaches before) as [|x [|]]; cbn in Ha; by simplify_eq. }
    destruct Hb as (Hb1 & Hb2 & ->). cbn [Update] in *. rewrite N.eqb_refl in *. cbn [negb] in *. apply Hgoal.
    + cbn. by rewrite app_nil_r.
    + cbn. unfold gathering in *. cbn. lia.
    + rewrite Hb1, Hb2. done.
Qed.

Lemma Update_bounded now msg (m : Model Error) : bounded m → bounded (Update now msg m).1.
Proof.
  intros Hb. destruct msg as [key|w h| |r|event raw epoch|epoch]; cbn [Update].
  - by apply handleKey_bounded.
  - by apply (bounded_same m).
  - destruct (md_fetching m); [done|]. by apply (bounded_same m).
  - by apply handleFetched_bounded.
  - destruct (negb _); [done|]. destruct (frame_event _ _); [|done]. by apply apply_frame_bounded.
  - destruct (negb _); [done|]. by apply (bounded_same m).
Qed.

(** C17: However keys, window changes, ticks, answers of the supervisor and frames of
    the stream interleave in a session: exactly one refresh tick is under way, so
    the refresh never stops and never doubles; a gather is under way exactly while
    one is marked in flight, and never two; the stream is being pulled exactly
    once while the subscription is open, by the current subscription; and the
    cursor stays on a row of the list, the scroll offset at or behind the newest
    line, the event pane within 10 rows and the live log within 500. *)
Theorem session_stays_single projectID (p : Program (Error:=Error)) : tui_reachable projectID p → single p ∧ bounded (pg_model p).
Proof.
  intros Hr. assert (Hstart : single (start_program (Error:=Error) projectID) ∧ bounded (pg_model (start_program (Error:=Error) projectID))).
  { split; constructor; try done; cbn; try lia. }
  revert Hstart. unfold tui_reachable in Hr. induction Hr as [p|p p1 p2 Hstep _ IH]; [done|]. intros [Hs Hb]. apply IH. clear IH p2.
  destruct Hstep as [p now key Hq|p now w h Hq|m now before c after msg Hq Hans].
  - split; [apply keeps_single; [done|apply handleKey_loops]|by apply Update_bounded].
  - split; [apply keeps_single; [done|by apply keeps_still]|by apply Update_bounded].
  - split; [by eapply answer_single|by apply Update_bounded].
Qed.
(** ** The selection *)

(** What a refresh makes of the rows and the selection. *)
Lemma handleFetched_shape snap (m : Model Error) : let m' := (handleFetched (Ok snap) m).1 in
  ∃ m1 : Model Error, md_nav m1 = md_nav m ∧ md_snap m1 = merge_snap (md_snap m) snap ∧
    md_nav m' = md_nav (reconcileCursor (selectedRowID m) m1) ∧ md_snap m' = md_snap m1.
Proof.
  unfold handleFetched. cbn zeta. set (m1 := match sp_progress snap with Some _ => _ | None => _ end). exists m1.
  destruct (ensureAttach_same (reconcileCursor (selectedRowID (set_fetching false m)) m1)) as [-> ->].
  destruct (reconcileCursor_frame (selectedRowID (set_fetching false m)) m1) as (_ & _ & -> & _).
  by unfold m1; destruct (sp_progress snap).
Qed.

Lemma selectedRowID_at (m : Model Error) (i : nat) : nv_cursor (md_nav m) = Z.of_nat i → i < length (selectableIDs m) →
  selectedRowID m = default "" (selectableIDs m !! i).
Proof.
  intros Hc Hi. unfold selectedRowID. rewrite Hc, Nat2Z.id.
  by rewrite (proj2 (Z.ltb_ge _ _)), (proj2 (Z.leb_gt _ _)) by lia.
Qed.

(** A refresh that still lists the selected row keeps it selected, wherever it
    moved; one that does not leaves the cursor on a row. *)
Theorem refresh_keeps_selection snap (m : Model Error) : let m' := (handleFetched (Ok snap) m).1 in
  nv_lvl (md_nav m') = nv_lvl (md_nav m) ∧
  (selectedRowID m ≠ "" → selectedRowID m ∈ selectableIDs m' → selectedRowID m' = selectedRowID m) ∧
  (selectableIDs m' ≠ [] → selectedRowID m' ∈ selectableIDs m').
Proof.
  destruct (handleFetched_shape snap m) as (m1 & Hn1 & Hs1 & Hn & Hs). cbn zeta in *. set (m' := (handleFetched (Ok snap) m).1) in *. clearbody m'.
  destruct (reconcileCursor_frame (selectedRowID m) m1) as (_ & _ & Hs2 & Hl & _).
  assert (Hi : selectableIDs m' = selectableIDs m1) by (unfold selectableIDs; by rewrite Hn, Hs, Hl).
  split; [congruence|]. rewrite Hi. split.
  - intros Hid Hin. assert (Hpos : position (selectedRowID m) (selectableIDs m1) ≠ None) by (destruct (position_in _ _ Hin) as [? ->]; done).
    destruct (position (selectedRowID m) (selectableIDs m1)) as [i|] eqn:Hp; [|done]. apply position_some in Hp as Hlk. pose proof (lookup_lt_Some _ _ _ Hlk) as Hlt.
    rewrite (selectedRowID_at m' i), Hi, Hlk; [done| |by rewrite Hi].
    rewrite Hn. unfold reconcileCursor. rewrite (proj2 (Z.eqb_neq _ _)) by lia. rewrite decide_False by done. by rewrite Hp.
  - intros Hne. assert (Hb : (0 ≤ nv_cursor (md_nav m') < Z.of_nat (length (selectableIDs m1)))%Z).
    { destruct (reconcileCursor_in_bounds (selectedRowID m) m1) as [H0 Hc]. rewrite <- Hn in H0, Hc.
      assert (Hr : selectableIDs (reconcileCursor (selectedRowID m) m1) = selectableIDs m1) by (unfold selectableIDs; by rewrite Hs2, Hl).
      rewrite Hr in Hc. destruct (selectableIDs m1); [done|]. cbn [length] in *. lia. }
    rewrite (selectedRowID_at m' (Z.to_nat (nv_cursor (md_nav m')))), Hi; [|lia|rewrite Hi; lia].
    destruct (lookup_lt_is_Some_2 (selectableIDs m1) (Z.to_nat (nv_cursor (md_nav m')))) as [x Hx]; [lia|]. rewrite Hx. by eapply list_elem_of_lookup_2.
Qed.

(** ** Progress *)

Definition shown (m : Model Error) (plan : string) : option Progress := default ∅ (sp_progress (md_snap m)) !! plan.

Lemma bump_mono ev p d plan c : p !! plan = Some c →
  ∃ c', (bump ev p d).1 !! plan = Some c' ∧ (pr_done c ≤ pr_done c')%Z ∧ pr_total c' = pr_total c.
Proof.
  intros Hp. unfold bump. destruct (_ || _); [by exists c|]. case_bool_decide; [by exists c|]. destruct (p !! ae_PlanID ev) as [prog|] eqn:Hpe; [|by exists c].
  cbn [fst]. destruct (_ <? _)%Z; [|by exists c]. destruct (decide (plan = ae_PlanID ev)) as [->|Hne].
  - rewrite lookup_insert_eq. rewrite Hp in Hpe. injection Hpe as <-. exists (mkProgress (pr_done c + 1) (pr_total c)). cbn. split_and!; [done|lia|done].
  - rewrite lookup_insert_ne by done. by exists c.
Qed.

Lemma apply_frame_shown now ev (m : Model Error) : is_Some (sp_progress (md_snap m)) →
  shown (apply_frame now ev m) = λ plan, (bump ev (default ∅ (sp_progress (md_snap m))) (md_liveDone m)).1 !! plan.
Proof.
  intros [p Hp]. unfold shown.
  assert (Ha : ∀ s, sp_progress (applyEvent s ev) = sp_progress s) by (intros s; unfold applyEvent; by case_match).
  enough (Hs : sp_progress (md_snap (apply_frame now ev m)) = Some (bump ev (default ∅ (sp_progress (md_snap m))) (md_liveDone m)).1) by (by rewrite Hs).
  unfold apply_frame. destruct (at_lastEventID _ <? _)%Z; cbn [md_snap set_stream set_snap md_liveDone]; rewrite Ha, Hp; cbn [default from_option id];
    destruct (bump ev p (md_liveDone m)) as [q d]; repeat case_match; cbn; by rewrite ?Ha, ?Hp.
Qed.

Lemma handleFetched_shown snap (m : Model Error) plan :
  shown (handleFetched (Ok snap) m).1 plan =
  match sp_progress snap with
  | Some p => poll_progress (default ∅ (sp_progress (md_snap m))) plan <$> p !! plan
  | None => shown m plan
  end.
Proof.
  destruct (handleFetched_shape snap m) as (m1 & _ & Hs1 & _ & Hs). unfold shown. rewrite Hs, Hs1. unfold merge_snap. cbn [sp_progress].
  destruct (sp_progress snap) as [p|]; [|done].
  change (default ∅ (Some (map_imap (λ id poll, Some (poll_progress (default ∅ (sp_progress (md_snap m))) id poll)) p)) !! plan = poll_progress (default ∅ (sp_progress (md_snap m))) plan <$> p !! plan).
  change (default ∅ (Some ?x)) with x. rewrite map_lookup_imap. by destruct (p !! plan).
Qed.

Lemma handleKey_progress key (m : Model Error) : sp_progress (md_snap (handleKey key m).1) = sp_progress (md_snap m).
Proof.
  unfold handleKey. case_bool_decide; [done|]. case_bool_decide; [by repeat case_match|]. case_bool_decide; [by repeat case_match|].
  case_bool_decide; [unfold drillIn, drillFetch; by repeat case_match|]. case_bool_decide; [unfold drillOut, drillFetch; by repeat case_match|done].
Qed.

Lemma same_progress (m m' : Model Error) plan c c' : sp_progress (md_snap m') = sp_progress (md_snap m) →
  shown m plan = Some c → shown m' plan = Some c' → (pr_done c ≤ pr_done c')%Z.
Proof. unfold shown. intros -> -> H. apply (inj Some) in H as ->. lia. Qed.

(** A plan's count of done tasks never falls, whatever arrives. *)
Theorem done_counts_never_fall now msg (m : Model Error) plan c c' :
  shown m plan = Some c → shown (Update now msg m).1 plan = Some c' → (pr_done c ≤ pr_done c')%Z.
Proof.
  intros Hc. destruct msg as [key|w h| |r|event raw epoch|epoch]; cbn [Update].
  - apply (same_progress m _ plan); [apply handleKey_progress|done].
  - by apply (same_progress m _ plan).
  - apply (same_progress m _ plan); [by destruct (md_fetching m)|done].
  - destruct r as [snap|e]; [|by apply (same_progress m _ plan)]. rewrite handleFetched_shown. destruct (sp_progress snap) as [p|]; [|intros H; rewrite Hc in H; by apply (inj Some) in H as ->].
    destruct (p !! plan) as [poll|]; [|done]. cbn [fmap option_fmap option_map]. intros H. apply (inj Some) in H as <-.
    unfold poll_progress. unfold shown in Hc. rewrite Hc. destruct (_ <? _)%Z eqn:Hlt; cbn [pr_done]; lia.
  - destruct (negb _); [by apply (same_progress m _ plan)|]. destruct (frame_event event raw) as [ev|]; [|by apply (same_progress m _ plan)].
    cbn [rearm fst]. assert (Hp : is_Some (sp_progress (md_snap m))).
    { unfold shown in Hc. destruct (sp_progress (md_snap m)); [by eexists|]. cbn in Hc. by rewrite lookup_empty in Hc. }
    rewrite apply_frame_shown by done. destruct (bump_mono ev (default ∅ (sp_progress (md_snap m))) (md_liveDone m) plan c Hc) as (c2 & -> & Hle & _).
    intros H. by apply (inj Some) in H as <-.
  - apply (same_progress m _ plan); [by destruct (negb _)|done].
Qed.

(** The count after a refresh that finds [d] done: never below what was shown. *)
Definition refreshed (m : Model Error) (plan : string) (d : Z) : Z :=
  match shown m plan with Some c => Z.max (pr_done c) d | None => d end.

(** C18: a completion whose live event arrives after a refresh is counted by both.
    Whatever the refresh counted and whatever was shown before, the plan then shows
    the larger of the two, and the late event of any of its tasks adds one to that
    unless it has reached the plan's total, even if the refresh counted that very
    task, because the refresh has cleared the set of tasks counted live: so when
    the refresh had counted it and was not behind what was shown, the plan shows
    one done task more than there is. No later refresh, whatever it says, takes the
    addition back. *)
Theorem late_frames_overcount now ev snap snap' (m : Model Error) p plan d t :
  sp_progress snap = Some p → p !! plan = Some (mkProgress d t) →
  taskDeltaStatus (ae_Kind ev) = "done" → ae_TaskID ev ≠ "" → ae_PlanID ev = plan → plan ≠ "" →
  let n := refreshed m plan d in
  let n' := (if decide (n < t) then n + 1 else n)%Z in
  let m2 := apply_frame now ev (handleFetched (Ok snap) m).1 in
  shown (handleFetched (Ok snap) m).1 plan = Some (mkProgress n t) ∧
  shown m2 plan = Some (mkProgress n' t) ∧
  (∀ c', shown (handleFetched (Ok snap') m2).1 plan = Some c' → (n' ≤ pr_done c')%Z).
Proof.
  intros Hs Hp Hk Ht Hpl Hne. cbn zeta. set (m1 := (handleFetched (Ok snap) m).1). set (n := refreshed m plan d).
  assert (H1 : shown m1 plan = Some (mkProgress n t)).
  { unfold m1. rewrite handleFetched_shown, Hs, Hp. cbn [fmap option_fmap option_map]. unfold poll_progress. change (default ∅ _ !! plan) with (shown m plan).
    unfold n, refreshed. destruct (shown m plan) as [c|]; [|done]. cbn [pr_done pr_total].
    destruct (Z.ltb_spec d (pr_done c)); by rewrite ?Z.max_l, ?Z.max_r by lia. }
  assert (Hl : md_liveDone m1 = ∅).
  { unfold m1, handleFetched, ensureAttach, reconcileCursor. cbn zeta. rewrite Hs. by repeat case_match. }
  assert (Hsome : is_Some (sp_progress (md_snap m1))).
  { unfold shown in H1. destruct (sp_progress (md_snap m1)); [by eexists|]. cbn in H1. by rewrite lookup_empty in H1. }
  assert (H2 : shown (apply_frame now ev m1) plan = Some (mkProgress (if decide (n < t)%Z then n + 1 else n) t)).
  { rewrite apply_frame_shown by done. rewrite Hl. unfold bump. rewrite Hk, Hpl.
    rewrite (bool_decide_true ("done" = "done")), (bool_decide_false (ae_TaskID ev = "")), (bool_decide_false (plan = "")) by done.
    cbn [negb orb]. rewrite bool_decide_false by apply not_elem_of_empty. unfold shown in H1. rewrite H1. cbn [pr_done pr_total fst].
    destruct (Z.ltb_spec n t); [rewrite decide_True by lia; by rewrite lookup_insert_eq|by rewrite decide_False by lia]. }
  split_and!; [done|done|]. intros c' Hc'. exact (done_counts_never_fall now (FetchedMsg (Ok snap')) _ plan _ c' H2 Hc').
Qed.
End Program.

(** ** The event pane *)

Definition ids (l : list Event) : list Z := en_id <$> l.

(** Newest first. *)
Definition newest_first (l : list Event) : Prop := StronglySorted Z.ge (ids l).

Lemma newest_first_cons e l : newest_first (e :: l) → newest_first l ∧ Forall (λ x, en_id x ≤ en_id e)%Z l.
Proof.
  unfold newest_first. change (ids (e :: l)) with (en_id e :: ids l). intros [Hs Hf]%StronglySorted_inv. unfold ids in Hf. rewrite Forall_fmap in Hf.
  split; [done|]. eapply Forall_impl; [exact Hf|]. cbn. intros. lia.
Qed.

Lemma merge_desc_perm live poll : merge_desc live poll ≡ₚ live ++ poll.
Proof.
  revert poll. induction live as [|l live IHl]; intros poll; [by destruct poll|]. induction poll as [|q poll IHp]; [by rewrite app_nil_r|].
  cbn [merge_desc]. destruct (_ <=? _)%Z.
  - by rewrite IHl.
  - change (q :: merge_desc (l :: live) poll ≡ₚ (l :: live) ++ q :: poll). rewrite IHp. by rewrite Permutation_middle.
Qed.

Lemma newest_first_add e l : newest_first l → (∀ x, x ∈ l → (en_id x ≤ en_id e)%Z) → newest_first (e :: l).
Proof.
  unfold newest_first. intros Hs Hl. change (ids (e :: l)) with (en_id e :: ids l). constructor; [done|]. unfold ids. rewrite Forall_fmap, Forall_forall.
  intros x Hx. specialize (Hl x Hx). cbn. lia.
Qed.

Lemma merge_desc_sorted live poll : newest_first live → newest_first poll → newest_first (merge_desc live poll).
Proof.
  revert poll. induction live as [|l live IHl]; intros poll Hl Hp; [by destruct poll|]. induction poll as [|q poll IHp]; [done|].
  destruct (newest_first_cons _ _ Hl) as [Hls Hlf], (newest_first_cons _ _ Hp) as [Hps Hpf]. rewrite Forall_forall in Hlf, Hpf.
  cbn [merge_desc]. destruct (_ <=? _)%Z eqn:Hle.
  - apply newest_first_add; [by apply IHl|]. intros x. rewrite merge_desc_perm, elem_of_app, elem_of_cons. intros [Hx|[->|Hx]]; [by apply Hlf|lia|].
    specialize (Hpf x Hx). lia.
  - change (newest_first (q :: merge_desc (l :: live) poll)). apply newest_first_add; [by apply IHp|]. intros x.
    rewrite merge_desc_perm, elem_of_app, elem_of_cons. intros [[->|Hx]|Hx]; [lia| |by apply Hpf]. specialize (Hlf x Hx). lia.
Qed.

Lemma take_new_spec seen l : Forall (λ e, en_id e ≠ 0%Z) l → newest_first l →
  StronglySorted Z.gt (ids (take_new seen l)) ∧ (∀ e, e ∈ take_new seen l → e ∈ l ∧ en_id e ∉ seen) ∧
  (∀ e, e ∈ l → en_id e ∉ seen → en_id e ∈ ids (take_new seen l)).
Proof.
  revert seen. induction l as [|e l IH]; intros seen Hz Hs; [split_and!; [constructor|by intros ? ?%elem_of_nil|by intros ? ?%elem_of_nil]|].
  apply Forall_cons in Hz as [Hz0 Hz]. apply newest_first_cons in Hs as [Hs Hf]. cbn [take_new]. rewrite (proj2 (Z.eqb_neq _ _) Hz0).
  case_bool_decide as Hin.
  - destruct (IH seen Hz Hs) as (H1 & H2 & H3). split_and!; [done| |].
    + intros x Hx. destruct (H2 x Hx). split; [by right|done].
    + intros x [->|Hx]%elem_of_cons Hn; [done|by apply H3].
  - destruct (IH ({[en_id e]} ∪ seen) Hz Hs) as (H1 & H2 & H3). split_and!.
    + unfold ids in *. rewrite fmap_cons. constructor; [done|]. rewrite Forall_fmap, Forall_forall. intros x Hx. destruct (H2 x Hx) as [Hxl Hxn]. cbn.
      assert (en_id x ≠ en_id e) by set_solver. rewrite Forall_forall in Hf. specialize (Hf x Hxl). cbn in Hf. lia.
    + intros x [->|Hx]%elem_of_cons; [split; [by left|done]|]. destruct (H2 x Hx). split; [by right|set_solver].
    + intros x [->|Hx]%elem_of_cons Hn; unfold ids; rewrite fmap_cons; [by left|]. destruct (decide (en_id x = en_id e)) as [->|Hne]; [by left|].
      right. apply H3; [done|set_solver].
Qed.

Lemma sorted_take_drop n (l : list Z) x y : StronglySorted Z.gt l → x ∈ take n l → y ∈ drop n l → (y < x)%Z.
Proof.
  intros Hs Hx Hy. rewrite <- (take_drop n l) in Hs. apply StronglySorted_app in Hs as (Hs & _). specialize (Hs x y Hx Hy). lia.
Qed.

(** The pane behind a refresh: strictly newest first, so no event twice, only events
    that were live or polled, and none of them missing but for ten newer ones. *)
Theorem event_tail_is_newest live poll :
  newest_first live → newest_first poll → Forall (λ e, en_id e ≠ 0%Z) (live ++ poll) →
  let out := mergeEventTail live poll in
  StronglySorted Z.gt (ids out) ∧ (∀ e, e ∈ out → e ∈ live ++ poll) ∧
  (∀ e, e ∈ live ++ poll → en_id e ∈ ids out ∨ length out = macroEventCap ∧ Forall (λ x, en_id e < x)%Z (ids out)).
Proof.
  intros Hl Hp Hz. cbn zeta. unfold mergeEventTail. pose proof (merge_desc_perm live poll) as Hperm.
  assert (Hz' : Forall (λ e, en_id e ≠ 0%Z) (merge_desc live poll)) by by rewrite Hperm.
  destruct (take_new_spec ∅ _ Hz' (merge_desc_sorted _ _ Hl Hp)) as (H1 & H2 & H3).
  set (all := take_new ∅ (merge_desc live poll)) in *. clearbody all. set (n := macroEventCap).
  assert (Hids : ids (take n all) = take n (ids all)) by apply fmap_take. split_and!.
  - rewrite Hids. rewrite <- (take_drop n (ids all)) in H1. by apply StronglySorted_app in H1 as (_ & H1 & _).
  - intros e He. assert (Hin : e ∈ all) by (rewrite <- (take_drop n all); apply elem_of_app; by left). destruct (H2 e Hin) as [Hm _]. by rewrite Hperm in Hm.
  - intros e He. rewrite Hids. specialize (H3 e). rewrite Hperm in H3. specialize (H3 He (not_elem_of_empty _)).
    rewrite <- (take_drop n (ids all)) in H3. apply elem_of_app in H3 as [H3|H3]; [by left|]. right. split.
    + rewrite length_take. apply list_elem_of_lookup in H3 as [k Hk]. apply lookup_lt_Some in Hk. rewrite length_drop in Hk. unfold ids in Hk. rewrite length_fmap in Hk. lia.
    + rewrite Forall_forall. intros x Hx. by eapply sorted_take_drop.
Qed.

(** ** Sessions *)

(** Drilling twice while the plan's own tasks have not arrived opens a row of the
    tasks loaded before, whatever plan they are of. *)
Theorem enter_opens_previous_rows {Error} (m : Model Error) plan t rest :
  nv_lvl (md_nav m) = levelMacro → row_at (items (sp_plans (md_snap m))) (nv_cursor (md_nav m)) = Some plan →
  flattenGroupedTasks (items (sp_tasks (md_snap m))) = t :: rest →
  let m' := (handleKey "enter" (handleKey "enter" m).1).1 in
  nv_lvl (md_nav m') = levelMicro ∧ nv_plan (md_nav m') = Some plan ∧ nv_task (md_nav m') = Some t.
Proof.
  intros Hl Hr Ht. cbn zeta. assert (Hk : ∀ m : Model Error, handleKey "enter" m = drillIn m) by done. rewrite !Hk. clear Hk.
  set (m1 := set_nav (mkNav levelMeso 0 (Some plan) (nv_task (md_nav m)) (nv_offset (md_nav m))) m).
  assert (H1 : drillIn m = drillFetch m1) by (unfold drillIn; by rewrite Hl, Hr). rewrite H1. destruct (drillFetch_same m1) as [Hn1 Hs1].
  set (m2 := (drillFetch m1).1) in *. clearbody m2. clear H1. unfold drillIn. rewrite Hn1, Hs1. cbn [m1 set_nav md_nav md_snap nv_lvl nv_cursor].
  rewrite Ht. change (row_at (t :: rest) 0) with (Some t). cbn match.
  match goal with |- context [drillFetch ?x] => destruct (drillFetch_same x) as [-> _] end. done.
Qed.

Lemma session_stays_single_witness :
  tui_reachable "p" (after_update (Update (Error:=string) 0 RefreshMsg (NewModel "p")) []) ∧
  single (after_update (Update (Error:=string) 0 RefreshMsg (NewModel "p")) []) ∧
  fetches (pg_running (after_update (Update (Error:=string) 0 RefreshMsg (NewModel "p")) [])) = [FetchCmd (mkGather levelMacro "p" "" "")].
Proof.
  assert (Hr : tui_reachable "p" (after_update (Update (Error:=string) 0 RefreshMsg (NewModel "p")) [])).
  { exact (rtc_once _ _ (StepAnswer (NewModel "p") 0 [] TickCmd [] RefreshMsg eq_refl AnswerTick)). }
  split; [exact Hr|]. split; [exact (proj1 (session_stays_single "p" _ Hr))|reflexivity].
Defined.

Definition one_of_three : Model string := set_snap (set_progress (Some {[ "P" := mkProgress 1 3 ]}) empty_snap) (NewModel "p").
Definition two_of_three : Snap := set_progress (Some {[ "P" := mkProgress 2 3 ]}) empty_snap.
Definition second_done : AttachEvent := mkAttachEvent 7 "worker.verified_done" "task" "P" "T" 0 None.

Lemma late_frames_overcount_witness :
  shown (handleFetched (Ok two_of_three) (apply_frame 0 second_done (handleFetched (Ok two_of_three) one_of_three).1)).1 "P" = Some (mkProgress 3 3) ∧
  shown (apply_frame 0 second_done (handleFetched (Ok two_of_three) one_of_three).1) "P" = Some (mkProgress 3 3).
Proof.
  split; [vm_compute; reflexivity|].
  refine (proj1 (proj2 (late_frames_overcount 0 second_done two_of_three two_of_three one_of_three {[ "P" := mkProgress 2 3 ]} "P" 2 3
    eq_refl eq_refl eq_refl _ eq_refl _))); discriminate.
Defined.

(** The window of the log is [offset] lines from its end, and the marks say what is
    left out on either side. *)
Theorem windowLines_spec {A} (lines : list A) offset height :
  lines ≠ [] → (0 ≤ offset ≤ Z.of_nat (length lines))%Z → (0 ≤ height)%Z →
  ∃ above view below, lines = above ++ view ++ below ∧
    windowLines lines offset height = (view, bool_decide (0 < length above), bool_decide (0 < length below)) ∧
    Z.of_nat (length below) = offset ∧ Z.of_nat (length view) = Z.min height (Z.of_nat (length lines) - offset).
Proof.
  intros Hne Ho Hh. unfold windowLines. destruct lines as [|x l] eqn:Hlines; [done|]. rewrite <- Hlines in *. clear Hlines Hne x l.
  set (n := Z.of_nat (length lines)) in *. cbn zeta. rewrite (Z.max_r 0 offset) by lia. rewrite (Z.max_r 0 (n - offset)) by lia. rewrite (Z.min_r n (n - offset)) by lia.
  set (start := Z.max 0 (n - offset - height)).
  exists (take (Z.to_nat start) lines), (take (Z.to_nat (n - offset - start)) (drop (Z.to_nat start) lines)), (drop (Z.to_nat (n - offset - start)) (drop (Z.to_nat start) lines)).
  rewrite !take_drop. rewrite !length_take, !length_drop. split_and!; [done| |lia|lia].
  f_equal; [f_equal|].
  - destruct (0 <? start)%Z eqn:Hs; [rewrite bool_decide_true by lia|rewrite bool_decide_false by lia]; done.
  - destruct (0 <? offset)%Z eqn:Hs; [rewrite bool_decide_true by lia|rewrite bool_decide_false by lia]; done.
Qed.
