(* ===== verification/StoreOpen.v ===== *)
(** * Opening the store: [internal/store/store.go], [migrate.go], [backup.go]

    The text of the DSN and of a backup's statement, the switch of the journal
    mode, and [Migrate] as several processes run it at once on one database: each
    attempt at a migration is one immediate transaction, hence one step, and what
    SQLite answers instead is the step's choice. *)
From stdpp Require Import relations sorting.
From S2P Require Import Prelude GoLib FilePath.

(** ** Texts *)

(** [strings.ReplaceAll] of one byte. *)
Definition replace_byte (c : Ascii.ascii) (by_ : string) (s : string) : string :=
  of_chars (concat ((λ x, if decide (x = c) then chars by_ else [x]) <$> chars s)).
Definition escapeDSNPath (p : string) : string :=
  replace_byte "#" "%23" (replace_byte "?" "%3F" (replace_byte "%" "%25" p)).
Definition DSN (dbPath : string) : string :=
  "file:" +:+ escapeDSNPath dbPath +:+ "?_txlock=immediate" +:+ "&_pragma=foreign_keys(1)" +:+ "&_pragma=busy_timeout(5000)" +:+
  "&_pragma=synchronous(NORMAL)".

Definition quote : Ascii.ascii := "'"%char.
Definition sqlStringLiteral (s : string) : string :=
  of_chars ([quote] ++ concat ((λ c, if decide (c = quote) then [quote; quote] else [c]) <$> chars s) ++ [quote]).

(** ** Errors of the engine *)

(** The result code when the error is SQLite's own, and its text. *)
Record SqlError := mkSqlError { se_code : option Z; se_text : string }.

(** [strings.ToLower] as far as a text of ASCII letters can tell: the Kelvin sign
    and the dotted capital I are lowered to ASCII letters too. *)
Definition lower_byte (c : Ascii.ascii) : Ascii.ascii :=
  if bool_decide (65 ≤ code c ≤ 90) then Ascii.ascii_of_nat (code c + 32) else c.
Fixpoint lower_chars (l : list Ascii.ascii) : list Ascii.ascii :=
  match l with
  | [] => []
  | a :: l1 =>
      let ascii_only := lower_byte a :: lower_chars l1 in
      match l1 with
      | b :: l2 =>
          if bool_decide (code a = 196 ∧ code b = 176) then "i"%char :: lower_chars l2
          else match l2 with
               | c :: l3 => if bool_decide (code a = 226 ∧ code b = 132 ∧ code c = 170) then "k"%char :: lower_chars l3 else ascii_only
               | [] => ascii_only
               end
      | [] => ascii_only
      end
  end.
Fixpoint contains (sub l : list Ascii.ascii) : bool :=
  match strip_prefix sub l with
  | Some _ => true
  | None => match l with [] => false | _ :: l' => contains sub l' end
  end.

Definition sqlite3BusyCode : Z := 5.
Definition sqlite3LockedCode : Z := 6.
Definition isSQLiteBusy (e : SqlError) : bool :=
  (match se_code e with
   | Some code => bool_decide (Z.land code 255 ∈ [sqlite3BusyCode; sqlite3LockedCode])
   | None => false
   end) ||
  contains (chars "database is locked") (lower_chars (chars (se_text e))) ||
  contains (chars "database table is locked") (lower_chars (chars (se_text e))).

(** ** The journal mode *)

Inductive WalAnswer := WalMode (mode : string) | WalFails (e : SqlError).
Inductive WalError := WalOtherMode (mode : string) | WalSet (e : SqlError) | WalCanceled | WalStillBusy (e : option SqlError).

Definition journalModeWALAttempts : nat := 3.

(** [EqualFold] with ["wal"], whose letters fold with no letter outside ASCII. *)
Definition is_wal (mode : string) : bool := bool_decide (lower_byte <$> chars mode = chars "wal").

(** What each attempt is answered, and whether the context ends in the wait behind
    it. *)
Fixpoint wal_loop (answer : nat → WalAnswer) (canceled : nat → bool) (left attempt : nat) (lastErr : option SqlError) : result WalError unit :=
  match left with
  | 0 => Err (WalStillBusy lastErr)
  | S left' =>
      match answer attempt with
      | WalMode mode => if is_wal mode then Ok tt else Err (WalOtherMode mode)
      | WalFails e =>
          if negb (isSQLiteBusy e) then Err (WalSet e)
          else if canceled attempt then Err WalCanceled
          else wal_loop answer canceled left' (S attempt) (Some e)
      end
  end.
Definition ensureJournalModeWAL (answer : nat → WalAnswer) (canceled : nat → bool) : result WalError unit :=
  wal_loop answer canceled journalModeWALAttempts 0 None.

Inductive OpenError := DSNRequired | OpenFails (e : SqlError) | PingFails (e : SqlError) | ForeignKeysFail (e : SqlError) | JournalMode (e : WalError).

(** [Open] up to [Migrate]. *)
Definition open_prologue (dsn : string) (open ping foreign_keys : option SqlError) (answer : nat → WalAnswer) (canceled : nat → bool)
    : result OpenError unit :=
  if decide (dsn = "") then Err DSNRequired
  else match open with Some e => Err (OpenFails e) | None =>
       match ping with Some e => Err (PingFails e) | None =>
       match foreign_keys with Some e => Err (ForeignKeysFail e) | None =>
       match ensureJournalModeWAL answer canceled with Err e => Err (JournalMode e) | Ok _ => Ok tt end end end end.

(** ** Migrations *)

Record migration := mkMigration { mi_version : Z; mi_name : string }.

Definition HasSuffix (s suffix : string) : bool :=
  bool_decide (strip_prefix (rev (chars suffix)) (rev (chars s)) ≠ None).
Fixpoint IndexByte (c : Ascii.ascii) (l : list Ascii.ascii) : option nat :=
  match l with
  | [] => None
  | x :: l' => if decide (x = c) then Some 0 else S <$> IndexByte c l'
  end.
(** An entry of the embedded directory: its name, and whether it is a directory. *)
Definition parse_migration (suffix : string) (e : string * bool) : option migration :=
  let '(name, is_dir) := e in
  if is_dir then None
  else if negb (HasSuffix name suffix) then None
  else match IndexByte "_" (chars name) with
       | None | Some 0 => None
       | Some under => v ← Atoi (of_chars (take under (chars name))); Some (mkMigration v name)
       end.

Definition older (a b : migration) : Prop := (mi_version a ≤ mi_version b)%Z.
#[export] Instance older_dec : RelDecision older.
Proof. intros a b. unfold older. apply _. Defined.

(** The versions shipped are distinct, so that the order [sort.Slice] leaves equal
    ones in plays no part. *)
Definition listMigrations (suffix : string) (entries : list (string * bool)) : list migration :=
  merge_sort older (omap (parse_migration suffix) entries).

Definition currentSchemaVersion : Z := 5.
Definition migrationBusyAttempts : nat := 3.

(** A binary: the schema version it supports, and the files embedded in it. The
    source is [this_binary]; others share a database with it. *)
Record Binary := mkBinary { bn_supports : Z; bn_files : list (string * bool); bn_read : string → option string }.
Definition schema_files : list (string * bool) :=
  (λ name, (name, false)) <$> ["0001_initial.up.sql"; "0002_a2a.up.sql"; "0003_plan_graph.up.sql"; "0004_task_failure_category.up.sql"; "0005_hook_verifications.up.sql"].
Definition this_binary (read : string → option string) : Binary := mkBinary currentSchemaVersion schema_files read.
Definition bn_migrations (b : Binary) : list migration := listMigrations ".up.sql" (bn_files b).

Inductive ApplyError := ApplySql (e : SqlError) | ApplyNewer (version : Z) | ApplyCanceled | ApplyStillBusy (e : SqlError).
Inductive MigrateError :=
| MigrateReadVersion (e : SqlError)
| MigrateNewer (version : Z)
| MigrateReadFile (name : string)
| MigrateApply (name : string) (e : ApplyError).

(** What a migration's statements make of the schema and the data. *)
Class Ddl (Schema : Type) := run_body : string → Schema → result SqlError Schema.

(** [PRAGMA user_version], and everything else the database holds. *)
Record Database (Schema : Type) := mkDatabase { dt_version : Z; dt_schema : Schema }.
Arguments mkDatabase {Schema}.
Arguments dt_version {Schema}.
Arguments dt_schema {Schema}.

Definition busy (e : ApplyError) : option SqlError :=
  match e with ApplySql e => if isSQLiteBusy e then Some e else None | _ => None end.

(** Where a process is in [Migrate]: before its first read, at a migration of its
    list with the version it read and the attempts it has made, or returned. *)
Inductive Phase := Reading | Applying (dbVersion : Z) (pending : list migration) (attempt : nat) | Ended (r : option MigrateError).

(** What the engine and the context answer the next statement of a process. *)
Record Choice := mkChoice { ch_fault : option SqlError; ch_canceled : bool; ch_canceled_waiting : bool }.

Section Migrate.
Context {Schema : Type} `{!Ddl Schema}.

(** The transaction. [fault] is an error of the engine at any of its statements,
    or at its commit, which undoes what it did. *)
Definition applyMigration (supports version : Z) (body : string) (fault : option SqlError) (db : Database Schema) : result ApplyError unit * Database Schema :=
  match fault with
  | Some e => (Err (ApplySql e), db)
  | None =>
      let current := dt_version db in
      if (supports <? current)%Z then (Err (ApplyNewer current), db)
      else if (version <=? current)%Z then (Ok tt, db)
      else match run_body body (dt_schema db) with
           | Err e => (Err (ApplySql e), db)
           | Ok schema => (Ok tt, mkDatabase version schema)
           end
  end.

(** The body of the loop of [applyMigrationWithRetry], [attempt] having failed
    before. *)
Definition attempt_migration (b : Binary) (ch : Choice) (dbVersion : Z) (m : migration) (rest : list migration) (attempt : nat) (db : Database Schema) : Phase * Database Schema :=
  match bn_read b (mi_name m) with
  | None => (Ended (Some (MigrateReadFile (mi_name m))), db)
  | Some body =>
      if ch_canceled ch then (Ended (Some (MigrateApply (mi_name m) ApplyCanceled)), db)
      else match applyMigration (bn_supports b) (mi_version m) body (ch_fault ch) db with
           | (Ok _, db') => (Applying dbVersion rest 0, db')
           | (Err e, db') =>
               (match busy e with
                | None => Ended (Some (MigrateApply (mi_name m) e))
                | Some sql =>
                    if ch_canceled_waiting ch then Ended (Some (MigrateApply (mi_name m) ApplyCanceled))
                    else if decide (S attempt < migrationBusyAttempts) then Applying dbVersion (m :: rest) (S attempt)
                    else Ended (Some (MigrateApply (mi_name m) (ApplyStillBusy sql)))
                end, db')
           end
  end.

(** [Migrate], one turn at a time: the read of the version, then for each migration
    the skip or an attempt. *)
Definition turn (b : Binary) (ch : Choice) (ph : Phase) (db : Database Schema) : Phase * Database Schema :=
  match ph with
  | Reading =>
      match ch_fault ch with
      | Some e => (Ended (Some (MigrateReadVersion e)), db)
      | None => if (bn_supports b <? dt_version db)%Z then (Ended (Some (MigrateNewer (dt_version db))), db)
                else (Applying (dt_version db) (bn_migrations b) 0, db)
      end
  | Applying _ [] _ => (Ended None, db)
  | Applying v (m :: rest) attempt =>
      if (mi_version m <=? v)%Z then (Applying v rest 0, db) else attempt_migration b ch v m rest attempt db
  | Ended r => (Ended r, db)
  end.

(** ** Several processes *)

Record Opening := mkOpening { op_openers : list (Binary * Phase); op_db : Database Schema }.

(** One of them takes its next turn, with an answer out of [P]. *)
Inductive open_step (P : Choice → Prop) : Opening → Opening → Prop :=
| TakeTurn before b ph after db ch : P ch →
    open_step P (mkOpening (before ++ (b, ph) :: after) db)
                (mkOpening (before ++ (b, (turn b ch ph db).1) :: after) (turn b ch ph db).2).

Definition start_opening (binaries : list Binary) (db : Database Schema) : Opening := mkOpening ((λ b, (b, Reading)) <$> binaries) db.
End Migrate.

(** ** Backup *)

Inductive BackupError := BackupNoDir | BackupMkdir | BackupExists (dest : string) | BackupVacuum.

(** [stamp] is the formatted time; the outcomes of the file system and of the
    statement are given. The answer has the statement that was executed. *)
Definition backup_statement (dest : string) : string := "VACUUM INTO " +:+ sqlStringLiteral dest.
Definition Backup (destDir stamp : string) (mkdir_ok : bool) (exists_ : string → bool) (exec : string → bool) : result BackupError string :=
  if decide (destDir = "") then Err BackupNoDir
  else if negb mkdir_ok then Err BackupMkdir
  else let dest := JoinPath [destDir; "store-" +:+ stamp +:+ ".db"] in
       if exists_ dest then Err (BackupExists dest)
       else if exec (backup_statement dest) then Ok dest else Err BackupVacuum.

(** ** The texts are read back as they were written *)

Lemma replace_byte_chars c by_ s : chars (replace_byte c by_ s) = concat ((λ x, if decide (x = c) then chars by_ else [x]) <$> chars s).
Proof. apply chars_of_chars. Qed.

Definition escape1 (x : Ascii.ascii) : list Ascii.ascii :=
  if decide (x = "%"%char) then chars "%25" else if decide (x = "?"%char) then chars "%3F" else if decide (x = "#"%char) then chars "%23" else [x].

Lemma concat_fmap_concat {A B C} (f : A → list B) (g : B → list C) l :
  concat (g <$> concat (f <$> l)) = concat ((λ x, concat (g <$> f x)) <$> l).
Proof. induction l as [|x l IH]; [done|]. rewrite !fmap_cons. cbn [concat]. by rewrite fmap_app, concat_app, IH. Qed.

(** The three replacements, as one. *)
Lemma escapeDSNPath_chars p : chars (escapeDSNPath p) = concat (escape1 <$> chars p).
Proof.
  unfold escapeDSNPath. rewrite !replace_byte_chars, !concat_fmap_concat. f_equal. apply list_fmap_ext. intros _ x _. unfold escape1.
  case_decide; [subst; vm_compute; done|]. rewrite fmap_cons. cbn [concat fmap list_fmap]. rewrite app_nil_r.
  case_decide; [subst; vm_compute; done|]. rewrite fmap_cons. cbn [concat fmap list_fmap]. by rewrite app_nil_r.
Qed.

(** Percent decoding as SQLite reads a path of a [file:] URI, up to the query or the
    fragment. *)
Definition hex_digit (c : Ascii.ascii) : option nat :=
  let n := code c in
  if bool_decide (48 ≤ n ≤ 57) then Some (n - 48) else if bool_decide (65 ≤ n ≤ 70) then Some (n - 55)
  else if bool_decide (97 ≤ n ≤ 102) then Some (n - 87) else None.
Fixpoint uri_path (l : list Ascii.ascii) : list Ascii.ascii * list Ascii.ascii :=
  match l with
  | [] => ([], [])
  | a :: l1 =>
      if bool_decide (a = "?"%char ∨ a = "#"%char) then ([], l)
      else let plain := let '(p, rest) := uri_path l1 in (a :: p, rest) in
           if decide (a = "%"%char) then
             match l1 with
             | h :: d :: l3 =>
                 match hex_digit h, hex_digit d with
                 | Some x, Some y => let '(p, rest) := uri_path l3 in (Ascii.ascii_of_nat (16 * x + y) :: p, rest)
                 | _, _ => plain
                 end
             | _ => plain
             end
           else plain
  end.

Lemma uri_path_escape1 c l : uri_path (escape1 c ++ l) = let '(p, rest) := uri_path l in (c :: p, rest).
Proof.
  unfold escape1. case_decide as H1; [subst; cbn; by destruct (uri_path l)|]. case_decide as H2; [subst; cbn; by destruct (uri_path l)|].
  case_decide as H3; [subst; cbn; by destruct (uri_path l)|]. cbn [app uri_path]. rewrite bool_decide_false by naive_solver. by rewrite decide_False.
Qed.

(** SQLite opens the path the DSN was built for, whatever bytes it has, with the
    pragmas as the query. *)
Theorem DSN_names_its_path dbPath : ∃ query,
  uri_path (drop 5 (chars (DSN dbPath))) = (chars dbPath, query) ∧
  query = chars "?_txlock=immediate&_pragma=foreign_keys(1)&_pragma=busy_timeout(5000)&_pragma=synchronous(NORMAL)".
Proof.
  eexists. split; [|reflexivity]. unfold DSN. set (q := "?_txlock=immediate" +:+ _). rewrite !chars_app. change (chars "file:") with ["f"; "i"; "l"; "e"; ":"]%char. cbn [app drop].
  rewrite drop_0, escapeDSNPath_chars. induction (chars dbPath) as [|c l IH]; [reflexivity|]. rewrite fmap_cons. cbn [concat].
  rewrite <- app_assoc, uri_path_escape1. by rewrite IH.
Qed.

(** A SQL string literal as SQLite reads it: up to the first quote that is not
    doubled. *)
Fixpoint read_literal (l : list Ascii.ascii) : option (list Ascii.ascii * list Ascii.ascii) :=
  match l with
  | [] => None
  | c :: l1 =>
      if decide (c = quote) then
        match l1 with
        | d :: l2 => if decide (d = quote) then (λ r, (quote :: r.1, r.2)) <$> read_literal l2 else Some ([], l1)
        | [] => Some ([], [])
        end
      else (λ r, (c :: r.1, r.2)) <$> read_literal l1
  end.

Theorem backup_statement_names_its_path dest : ∃ rest,
  chars (backup_statement dest) = chars "VACUUM INTO " ++ quote :: rest ∧ read_literal rest = Some (chars dest, []).
Proof.
  unfold backup_statement, sqlStringLiteral. eexists. rewrite chars_app, chars_of_chars. split; [reflexivity|].
  induction (chars dest) as [|c l IH]; [reflexivity|]. rewrite fmap_cons. cbn [concat]. rewrite <- app_assoc. case_decide as Hc.
  - subst c. cbn [app read_literal]. rewrite !decide_True by done. by rewrite IH.
  - cbn [app read_literal]. rewrite decide_False by done. by rewrite IH.
Qed.

(** ** The journal mode *)

Lemma wal_loop_ok answer canceled left attempt lastErr :
  wal_loop answer canceled left attempt lastErr = Ok tt ↔
  ∃ k mode, k < left ∧ answer (attempt + k) = WalMode mode ∧ is_wal mode = true ∧
    ∀ j, j < k → canceled (attempt + j) = false ∧ ∃ e, answer (attempt + j) = WalFails e ∧ isSQLiteBusy e = true.
Proof.
  revert attempt lastErr. induction left as [|left IH]; intros attempt lastErr; cbn [wal_loop]; [split; [done|intros (k & _ & Hk & _); lia]|].
  destruct (answer attempt) as [mode|e] eqn:Ha.
  - destruct (is_wal mode) eqn:Hw.
    + split; [|done]. intros _. exists 0, mode. rewrite Nat.add_0_r. split_and!; [lia|done|done|lia].
    + split; [done|]. intros ([|k] & mode' & _ & Hm & Hw' & Hj); [rewrite Nat.add_0_r in Hm; congruence|].
      destruct (Hj 0) as (_ & e & He & _); [lia|]. rewrite Nat.add_0_r in He. congruence.
  - destruct (isSQLiteBusy e) eqn:Hb; cbn [negb].
    2: { split; [done|]. intros ([|k] & mode' & _ & Hm & _ & Hj); [rewrite Nat.add_0_r in Hm; congruence|].
         destruct (Hj 0) as (_ & e' & He & Hb'); [lia|]. rewrite Nat.add_0_r in He. congruence. }
    destruct (canceled attempt) eqn:Hc.
    { split; [done|]. intros ([|k] & mode' & _ & Hm & _ & Hj); [rewrite Nat.add_0_r in Hm; congruence|].
      destruct (Hj 0) as (Hc' & _); [lia|]. rewrite Nat.add_0_r in Hc'. congruence. }
    rewrite IH. split.
    + intros (k & mode & Hk & Hm & Hw & Hj). exists (S k), mode. rewrite Nat.add_succ_r. split_and!; [lia|done|done|].
      intros [|j] Hjk; [rewrite Nat.add_0_r; eauto|]. rewrite Nat.add_succ_r. apply Hj. lia.
    + intros ([|k] & mode & Hk & Hm & Hw & Hj); [rewrite Nat.add_0_r in Hm; congruence|]. exists k, mode. rewrite <- Nat.add_succ_comm in Hm.
      split_and!; [lia|done|done|]. intros j Hjk. specialize (Hj (S j)). rewrite <- Nat.add_succ_comm in Hj. apply Hj. lia.
Qed.

(** The mode is taken for switched exactly when one of three attempts read WAL back,
    those before it having found the database busy. *)
Theorem ensureJournalModeWAL_exact answer canceled :
  ensureJournalModeWAL answer canceled = Ok tt ↔
  ∃ k mode, k < 3 ∧ answer k = WalMode mode ∧ is_wal mode = true ∧
    ∀ j, j < k → canceled j = false ∧ ∃ e, answer j = WalFails e ∧ isSQLiteBusy e = true.
Proof. apply wal_loop_ok. Qed.

(** ** Concurrent opening *)

(** The binaries that may share a database: each carries every migration up to the
    version it supports, and they agree on what a version is. *)
Definition bundled (body : Z → string) (b : Binary) : Prop :=
  (0 ≤ bn_supports b)%Z ∧ mi_version <$> bn_migrations b = seqZ 1 (bn_supports b) ∧
  Forall (λ m, bn_read b (mi_name m) = Some (body (mi_version m))) (bn_migrations b).

Lemma bundled_lookup body b k m : bundled body b → bn_migrations b !! k = Some m →
  mi_version m = (Z.of_nat k + 1)%Z ∧ (mi_version m ≤ bn_supports b)%Z ∧ bn_read b (mi_name m) = Some (body (mi_version m)).
Proof.
  intros (Hs & Hv & Hr) Hk. assert (Hl : (mi_version <$> bn_migrations b) !! k = Some (mi_version m)) by by rewrite list_lookup_fmap, Hk.
  rewrite Hv in Hl. apply lookup_seqZ in Hl as [-> Hlt]. split_and!; [lia|lia|].
  rewrite Forall_forall in Hr. assert (Hm := Hr m (list_elem_of_lookup_2 _ _ _ Hk)). rewrite Hm. do 2 f_equal.
  assert (Hl : (mi_version <$> bn_migrations b) !! k = Some (mi_version m)) by by rewrite list_lookup_fmap, Hk. rewrite Hv in Hl. apply lookup_seqZ in Hl as [-> _]. done.
Qed.

Lemma bundled_length body b : bundled body b → Z.of_nat (length (bn_migrations b)) = bn_supports b.
Proof. intros (Hs & Hv & _). rewrite <- (length_fmap mi_version), Hv, length_seqZ. lia. Qed.

Section Concurrent.
Context {Schema : Type} `{!Ddl Schema}.

(** The schema of a version: the migrations up to it, in order, once each. *)
Fixpoint build (body : Z → string) (s0 : Schema) (n : nat) : result SqlError Schema :=
  match n with
  | 0 => Ok s0
  | S n' => try s := build body s0 n' in run_body (body (Z.of_nat (S n'))) s
  end.

Lemma build_prefix body s0 n k s : build body s0 n = Ok s → k ≤ n → ∃ s', build body s0 k = Ok s'.
Proof.
  intros Hn Hk. revert s Hn. induction Hk as [|n Hk IH]; intros s Hn; [by eexists|]. cbn [build] in Hn. apply rbind_ok in Hn as (s1 & H1 & _). by eapply IH.
Qed.

(** The database is at some version with the schema of that version. *)
Definition built (body : Z → string) (s0 : Schema) (db : Database Schema) : Prop :=
  ∃ n, dt_version db = Z.of_nat n ∧ build body s0 n = Ok (dt_schema db).

(** What a process knows of the database. *)
Definition knows (b : Binary) (db : Database Schema) (ph : Phase) : Prop :=
  match ph with
  | Reading => True
  | Applying v pending _ => (v ≤ dt_version db)%Z ∧ ∃ k, pending = drop k (bn_migrations b) ∧ (Z.of_nat k ≤ dt_version db)%Z ∧ k ≤ length (bn_migrations b)
  | Ended (Some _) => True
  | Ended None => (bn_supports b ≤ dt_version db)%Z
  end.

Lemma knows_mono b db db' ph : (dt_version db ≤ dt_version db')%Z → knows b db ph → knows b db' ph.
Proof. intros Hle. destruct ph as [|v pending attempt|[e|]]; cbn; [done| |done|lia]. intros [Hv (k & -> & Hk & Hl)]. split; [lia|]. exists k. split_and!; [done|lia|done]. Qed.

Lemma applyMigration_keeps body s0 b k fault db e db' :
  built body s0 db → (Z.of_nat k ≤ dt_version db)%Z → (Z.of_nat k + 1 ≤ bn_supports b)%Z →
  applyMigration (bn_supports b) (Z.of_nat k + 1) (body (Z.of_nat k + 1)%Z) fault db = (e, db') →
  built body s0 db' ∧ (dt_version db ≤ dt_version db')%Z ∧ (e = Ok tt → (Z.of_nat k + 1 ≤ dt_version db')%Z).
Proof.
  intros Hb Hk Hs. unfold applyMigration. destruct fault as [err|]; [intros [= <- <-]; split_and!; [done|lia|done]|].
  destruct (bn_supports b <? dt_version db)%Z eqn:H1; [intros [= <- <-]; split_and!; [done|lia|done]|].
  destruct (Z.of_nat k + 1 <=? dt_version db)%Z eqn:H2; [intros [= <- <-]; split_and!; [done|lia|lia]|]. apply Z.leb_gt in H2.
  destruct (run_body _ _) as [schema|err] eqn:Hrun; intros Heq; apply pair_equal_spec in Heq as [<- <-]; [|split_and!; [done|lia|done]].
  destruct Hb as (n & Hn & Hbuild). assert (n = k) as -> by lia. cbn [dt_version]. split_and!; [|lia|lia].
  exists (S k). cbn [dt_version dt_schema build]. split; [lia|]. rewrite Hbuild. cbn [rbind]. rewrite <- Hrun. do 2 f_equal. lia.
Qed.

Lemma turn_keeps body s0 b ch ph db : bundled body b → built body s0 db → knows b db ph →
  let r := turn b ch ph db in built body s0 r.2 ∧ (dt_version db ≤ dt_version r.2)%Z ∧ knows b r.2 r.1.
Proof.
  intros Hb Hbuilt Hk. assert (Hstill : ∀ ph', knows b db ph' → built body s0 db ∧ (dt_version db ≤ dt_version db)%Z ∧ knows b db ph') by (intros; split_and!; [done|lia|done]).
  destruct ph as [|v [|m rest] attempt|r]; cbn [turn]; cbn zeta.
  - destruct (ch_fault ch); [by apply Hstill|]. destruct (_ <? _)%Z; [by apply Hstill|]. apply Hstill. cbn. split; [lia|]. exists 0. rewrite drop_0.
    destruct Hbuilt as (n & -> & _). split_and!; [done|lia|lia].
  - apply Hstill. cbn in *. destruct Hk as [_ (k & Hd & Hk & Hl)]. rewrite <- (bundled_length body b Hb).
    assert (length (drop k (bn_migrations b)) = 0) as H0 by by rewrite <- Hd. rewrite length_drop in H0. lia.
  - cbn in Hk. destruct Hk as [Hv (k & Hd & Hk & Hl)].
    assert (Hm : bn_migrations b !! k = Some m) by (rewrite <- (Nat.add_0_r k), <- lookup_drop, <- Hd; done).
    assert (Hrest : rest = drop (S k) (bn_migrations b)) by (by rewrite (drop_S _ m k Hm) in Hd; simplify_eq).
    pose proof (lookup_lt_Some _ _ _ Hm) as Hlt. destruct (bundled_lookup body b k m Hb Hm) as (Hver & Hsup & Hread).
    destruct (mi_version m <=? v)%Z eqn:Hskip.
    { apply Hstill. cbn. split; [lia|]. exists (S k). split_and!; [done|lia|lia]. }
    unfold attempt_migration. rewrite Hread. destruct (ch_canceled ch); [by apply Hstill|]. rewrite Hver in *.
    destruct (applyMigration _ _ _ _ db) as [e db'] eqn:Happ.
    destruct (applyMigration_keeps body s0 b k _ db e db' Hbuilt Hk Hsup Happ) as (H1 & H2 & H3). destruct e as [[]|e].
    + split_and!; [done|done|]. cbn. split; [lia|]. exists (S k). specialize (H3 eq_refl). split_and!; [done|lia|lia].
    + split_and!; [done|done|]. cbn [fst snd]. destruct (busy e); [|done]. destruct (ch_canceled_waiting ch); [done|]. case_decide; [|done].
      cbn. split; [lia|]. exists k. split_and!; [done|lia|lia].
  - by apply Hstill.
Qed.

(** What holds of every process and the database. *)
Definition consistent (body : Z → string) (s0 : Schema) (v0 : Z) (o : Opening) : Prop :=
  built body s0 (op_db o) ∧ (v0 ≤ dt_version (op_db o))%Z ∧ Forall (λ x, bundled body x.1 ∧ knows x.1 (op_db o) x.2) (op_openers o).

Lemma open_step_consistent P body s0 v0 o o' : open_step P o o' → consistent body s0 v0 o → consistent body s0 v0 o'.
Proof.
  intros Hstep. destruct Hstep as [before b ph after db ch _]. intros (Hb & Hv & Hall). cbn [op_db op_openers] in *.
  apply Forall_app in Hall as [Hbefore Hall]. apply Forall_cons in Hall as [[Hbn Hk] Hafter]. cbn [fst snd] in *.
  destruct (turn_keeps body s0 b ch ph db Hbn Hb Hk) as (H1 & H2 & H3). unfold consistent. cbn [op_db op_openers]. split_and!; [done|lia|].
  assert (Hmono : ∀ l, Forall (λ x : Binary * Phase, bundled body x.1 ∧ knows x.1 db x.2) l → Forall (λ x, bundled body x.1 ∧ knows x.1 (turn b ch ph db).2 x.2) l).
  { intros l Hl. eapply Forall_impl; [exact Hl|]. intros x [Hx1 Hx2]. split; [done|]. by eapply knows_mono. }
  apply Forall_app. split; [by apply Hmono|]. apply Forall_cons. split; [done|by apply Hmono].
Qed.

(** An answer without an error, and a context that stays. *)
Definition clean (ch : Choice) : Prop := ch_fault ch = None ∧ ch_canceled ch = false.

(** Processes of one version, a database not beyond it and migrations that run: no
    clean turn ends in an error. *)
Definition no_error (ph : Phase) : Prop := match ph with Ended (Some _) => False | _ => True end.

Lemma turn_clean body s0 N b ch ph db final : bundled body b → bn_supports b = N → build body s0 (Z.to_nat N) = Ok final →
  built body s0 db → knows b db ph → (dt_version db ≤ N)%Z → clean ch → no_error ph →
  no_error (turn b ch ph db).1 ∧ (dt_version (turn b ch ph db).2 ≤ N)%Z.
Proof.
  intros Hb HN Hfinal Hbuilt Hk Hdb [Hf Hc] Hne. destruct ph as [|v [|m rest] attempt|r]; cbn [turn].
  - rewrite Hf, HN, (proj2 (Z.ltb_ge _ _)) by lia. done.
  - done.
  - destruct (_ <=? _)%Z eqn:Hskip; [done|]. cbn in Hk. destruct Hk as [Hv (k & Hd & Hk & Hl)].
    assert (Hm : bn_migrations b !! k = Some m) by (rewrite <- (Nat.add_0_r k), <- lookup_drop, <- Hd; done).
    destruct (bundled_lookup body b k m Hb Hm) as (Hver & Hsup & Hread).
    unfold attempt_migration, applyMigration. rewrite Hread, Hc, Hf, HN, (proj2 (Z.ltb_ge _ _)) by lia. rewrite Hver.
    destruct (_ <=? dt_version db)%Z eqn:H2; [done|]. apply Z.leb_gt in H2. destruct Hbuilt as (n & Hn & Hbuild). assert (n = k) as -> by lia.
    destruct (build_prefix body s0 (Z.to_nat N) (S k) final Hfinal) as [s' Hs']; [lia|]. cbn [build] in Hs'. rewrite Hbuild in Hs'. cbn [rbind] in Hs'.
    replace (Z.of_nat k + 1)%Z with (Z.of_nat (S k)) by lia. rewrite Hs'. cbn. split; [done|lia].
  - done.
Qed.

(** C5: Any number of processes - of this or other versions of the program - open
    one database at once, their statements interleaved, failing busy or otherwise,
    their contexts canceled. The schema is always that of the version recorded:
    each migration ran once, whole, and in order; the version never falls; and a
    process that opened the store finds at least its own version there. When all
    are of one version, none of the statements fails and the database is not newer,
    no process fails to open it. *)
Theorem concurrent_opens_migrate_once P body s0 binaries db0 o :
  Forall (bundled body) binaries → built body s0 db0 → rtc (open_step P) (start_opening binaries db0) o →
  built body s0 (op_db o) ∧ (dt_version db0 ≤ dt_version (op_db o))%Z ∧
  (∀ b, (b, Ended None) ∈ op_openers o → (bn_supports b ≤ dt_version (op_db o))%Z) ∧
  (∀ N final, Forall (λ b, bn_supports b = N) binaries → (dt_version db0 ≤ N)%Z → build body s0 (Z.to_nat N) = Ok final → (∀ ch, P ch → clean ch) →
     ∀ b e, (b, Ended (Some e)) ∉ op_openers o).
Proof.
  intros Hbin Hdb Hr. assert (Hstart : consistent body s0 (dt_version db0) (start_opening binaries db0)).
  { unfold consistent. cbn. split_and!; [done|lia|]. rewrite Forall_fmap. eapply Forall_impl; [exact Hbin|]. by intros b Hb. }
  assert (Hcons : consistent body s0 (dt_version db0) o).
  { clear Hbin Hdb. induction Hr as [|x y z Hstep _ IH]; [done|]. apply IH. by eapply open_step_consistent. }
  destruct Hcons as (H1 & H2 & H3). split_and!; [done|done| |].
  { intros b Hb. rewrite Forall_forall in H3. by destruct (H3 _ Hb) as [_ Hk]. }
  intros N final HN Hle Hfinal HP b e Hin.
  assert (Hgood : Forall (λ x, bn_supports x.1 = N ∧ no_error x.2) (op_openers (start_opening binaries db0)) ∧ (dt_version (op_db (start_opening binaries db0)) ≤ N)%Z).
  { cbn. rewrite Forall_fmap. split; [|done]. eapply Forall_impl; [exact HN|]. by intros. }
  clear H1 H2 H3 Hbin Hdb HN Hle. revert Hstart Hgood. induction Hr as [x|x y z Hstep _ IH].
  - intros _ [Hg _]. rewrite Forall_forall in Hg. by destruct (Hg _ Hin) as [_ []].
  - intros Hc [Hg Hv]. apply (IH Hin); [by eapply open_step_consistent|]. clear IH. destruct Hstep as [before b' ph after db ch Hch].
    destruct Hc as (Hb & _ & Hall). cbn [op_db op_openers] in *.
    apply Forall_app in Hall as [_ Hall]. apply Forall_cons in Hall as [[Hbn Hk] _]. apply Forall_app in Hg as [Hg1 Hg]. apply Forall_cons in Hg as [[HbN Hne] Hg2].
    cbn [fst snd] in *. destruct (turn_clean body s0 N b' ch ph db final Hbn HbN Hfinal Hb Hk Hv (HP ch Hch) Hne) as [Hne' Hv'].
    split; [|done]. apply Forall_app. split; [done|]. apply Forall_cons. done.
Qed.

(** ** Opening ends *)

(** The turns a process can still take. *)
Definition turns_left (b : Binary) (ph : Phase) : nat :=
  match ph with
  | Reading => 2 + (migrationBusyAttempts + 1) * length (bn_migrations b)
  | Applying _ pending attempt => 1 + ((migrationBusyAttempts + 1) * length pending - attempt)
  | Ended _ => 0
  end.
Definition open_turns (b : Binary) : nat := turns_left b Reading.

Lemma turn_ends b ch ph (db : Database Schema) : (match ph with Applying _ pending attempt => attempt < migrationBusyAttempts | _ => True end) →
  (turns_left b (turn b ch ph db).1 ≤ turns_left b ph - 1) ∧
  (match (turn b ch ph db).1 with Applying _ pending attempt => attempt < migrationBusyAttempts | _ => True end).
Proof.
  unfold migrationBusyAttempts. intros Ha. destruct ph as [|v [|m rest] attempt|r]; cbn [turn].
  - destruct (ch_fault ch); [cbn; lia|]. destruct (_ <? _)%Z; cbn; lia.
  - cbn; lia.
  - destruct (_ <=? _)%Z; [cbn; lia|]. unfold attempt_migration. destruct (bn_read b _); [|cbn; lia]. destruct (ch_canceled ch); [cbn; lia|].
    destruct (applyMigration _ _ _ _ db) as [[[]|e] db']; [cbn; lia|]. cbn [fst]. destruct (busy e); [|cbn; lia].
    destruct (ch_canceled_waiting ch); [cbn; lia|]. case_decide; cbn in *; unfold migrationBusyAttempts in *; lia.
  - cbn; lia.
Qed.

(** Whatever the database has become at each of its turns and whatever is answered,
    a process has returned after [open_turns]. *)
Theorem opening_ends b (answers : list (Choice * Database Schema)) : open_turns b ≤ length answers →
  ∃ r, foldl (λ ph x, (turn b x.1 ph x.2).1) Reading answers = Ended r.
Proof.
  unfold open_turns. set (ok ph := match ph with Applying _ _ attempt => attempt < migrationBusyAttempts | _ => True end).
  assert (Hok : ok Reading) by done. generalize dependent Reading. induction answers as [|[ch db] answers IH]; intros ph Hok Hl; cbn [foldl].
  - destruct ph as [|v pending attempt|r]; [cbn in Hl; lia| |by exists r].
    change (attempt < 3) in Hok. change (1 + (4 * length pending - attempt) ≤ 0) in Hl. lia.
  - destruct (turn_ends b ch ph db Hok) as [Hle Hok']. apply IH; [done|]. cbn [length fst snd] in *. lia.
Qed.

(** A database newer than the binary is left alone by it. *)
Theorem newer_database_is_refused b ch ph (db : Database Schema) : (bn_supports b < dt_version db)%Z →
  (turn b ch ph db).2 = db ∧ ∀ v rest attempt, (turn b ch Reading db).1 ≠ Applying v rest attempt.
Proof.
  intros Hlt. split.
  - destruct ph as [|v [|m rest] attempt|r]; cbn [turn]; [repeat case_match; done|done| |done]. case_match; [done|].
    unfold attempt_migration, applyMigration. rewrite (proj2 (Z.ltb_lt _ _)) by done. by repeat case_match; simplify_eq.
  - intros v rest attempt. cbn [turn]. rewrite (proj2 (Z.ltb_lt _ _)) by done. by destruct (ch_fault ch).
Qed.
End Concurrent.

(** ** The binary at hand *)

Example shipped_migrations : mi_version <$> bn_migrations (this_binary (λ _, None)) = [1; 2; 3; 4; 5]%Z.
Proof. vm_compute. reflexivity. Qed.

(** A schema that records the statements run on it. *)
#[local] Instance log_ddl : Ddl (list string) := λ body schema, Ok (schema ++ [body]).
Definition demo_body (v : Z) : string := Itoa v.
Definition demo_read (name : string) : option string := Itoa <$> (u ← IndexByte "_" (chars name); Atoi (of_chars (take u (chars name)))).
Definition demo_binary : Binary := this_binary demo_read.

Lemma demo_bundled : bundled demo_body demo_binary.
Proof.
  assert (Hl : bn_migrations demo_binary = (λ x, mkMigration x.1 x.2) <$>
    [(1, "0001_initial.up.sql"); (2, "0002_a2a.up.sql"); (3, "0003_plan_graph.up.sql"); (4, "0004_task_failure_category.up.sql"); (5, "0005_hook_verifications.up.sql")]%Z)
    by (vm_compute; reflexivity).
  split_and!; [discriminate|rewrite Hl; reflexivity|]. rewrite Hl. cbn [fmap list_fmap]. repeat (constructor; [vm_compute; reflexivity|]). constructor.
Qed.

Definition demo_turn (i : nat) (o : Opening (Schema:=list string)) : Opening (Schema:=list string) :=
  match op_openers o !! i with
  | Some (b, ph) => let r := turn b (mkChoice None false false) ph (op_db o) in mkOpening (<[i := (b, r.1)]> (op_openers o)) r.2
  | None => o
  end.
Definition demo_opening : Opening (Schema:=list string) :=
  foldl (λ o i, demo_turn i o) (start_opening [demo_binary; demo_binary] (mkDatabase 0 [])) [0; 1; 1; 0; 0; 1; 0; 0; 1; 0; 0; 1; 1; 1].

Lemma demo_opening_reachable schedule o : rtc (open_step clean) (start_opening [demo_binary; demo_binary] (mkDatabase 0 [])) o →
  rtc (open_step clean) (start_opening [demo_binary; demo_binary] (mkDatabase 0 [])) (foldl (λ o i, demo_turn i o) o schedule).
Proof.
  revert o. induction schedule as [|i schedule IH]; intros o Ho; [done|]. cbn [foldl]. apply IH. unfold demo_turn.
  destruct (op_openers o !! i) as [[b ph]|] eqn:Hi; [|done]. apply (rtc_r _ _ _ Ho). destruct o as [openers db]. cbn [op_openers op_db] in *.
  rewrite <- (take_drop_middle openers i _ Hi) at 1. rewrite insert_take_drop by by eapply lookup_lt_Some. by apply TakeTurn.
Qed.

Lemma concurrent_opens_migrate_once_witness :
  op_db demo_opening = mkDatabase 5 ["1"; "2"; "3"; "4"; "5"] ∧ built demo_body [] (op_db demo_opening) ∧
  (∀ b e, (b, Ended (Some e)) ∉ op_openers demo_opening).
Proof.
  pose proof (concurrent_opens_migrate_once clean demo_body [] [demo_binary; demo_binary] (mkDatabase 0 []) demo_opening) as H.
  destruct H as (H1 & _ & _ & H2).
  - constructor; [exact demo_bundled|]. constructor; [exact demo_bundled|constructor].
  - exists 0. split; reflexivity.
  - apply demo_opening_reachable. apply rtc_refl.
  - split; [vm_compute; reflexivity|]. split; [exact H1|]. apply (H2 5%Z ["1"; "2"; "3"; "4"; "5"]).
    + repeat constructor.
    + vm_compute. discriminate.
    + vm_compute. reflexivity.
    + intros ch Hch. exact Hch.
Defined.
