(* ===== verification/SupLock.v ===== *)
(** * One supervisor at a time: [internal/supervisor/discovery.go], [flock.go],
    [pid.go], [internal/ipc/transport_unix.go]

    The runtime directory that processes share - the PID file by inode, the flock on
    it, the socket - and what each does to it from [Acquire] through the bind of the
    socket and [Stop] to [Release], one system call at a time. A process may crash
    anywhere: the kernel drops its lock and its sockets, the files stay. *)
From stdpp Require Import relations.
From S2P Require Import Prelude GoLib.

(** ** The PID file *)

(** What [readPIDFile] makes of a file's text, its first line up to a newline. *)
Fixpoint first_line (l : list Ascii.ascii) : list Ascii.ascii :=
  match l with
  | [] => []
  | c :: l' => if decide (c = "010"%char) then [] else c :: first_line l'
  end.
Definition readPIDFile (text : option string) : option Z :=
  match text with
  | None => Some 0%Z
  | Some text =>
      let line := TrimSpace (of_chars (first_line (chars text))) in
      if decide (line = "") then Some 0%Z else Atoi line
  end.
Definition pid_text (pid : Z) : string := Itoa pid +:+ String "010" "".

(** ** The directory *)

Record Inode := mkInode { in_text : string; in_holder : option nat }.

(** [wd_lock] is the inode the PID file's name stands for, [wd_socket] the process
    whose bind made the socket file; [wd_listening] those whose listening socket is
    open, whatever its name stands for now. *)
Record World := mkWorld {
  wd_lock : option nat;
  wd_inodes : gmap nat Inode;
  wd_next : nat;
  wd_socket : option nat;
  wd_listening : gset nat }.

(** Where a process is. [Acquire] runs from [StatSocket] to [Locked], with the inode
    it has open; [Start] to [Serving]; [shutdown] to [Finished]. *)
Inductive phase :=
| StatSocket | DialSocket | CheckPid | RemoveStale | OpenLock | TakeLock (i : nat) | Truncate (i : nat) | WritePid (i : nat)
| Locked (i : nat) | Bind (i : nat) | Serving (i : nat) | CleanEndpoint (i : nat)
| CloseLock (i : nat) | RemoveLock
| Finished | Refused | Crashed.
#[export] Instance phase_eq_dec : EqDecision phase.
Proof. solve_decision. Defined.

Record State := mkState { st_world : World; st_procs : gmap nat phase }.

Definition set_lock (l : option nat) (w : World) : World := mkWorld l (wd_inodes w) (wd_next w) (wd_socket w) (wd_listening w).
Definition set_socket (s : option nat) (w : World) : World := mkWorld (wd_lock w) (wd_inodes w) (wd_next w) s (wd_listening w).
Definition set_listening (l : gset nat) (w : World) : World := mkWorld (wd_lock w) (wd_inodes w) (wd_next w) (wd_socket w) l.
Definition set_inode (i : nat) (n : Inode) (w : World) : World := mkWorld (wd_lock w) (<[i := n]> (wd_inodes w)) (wd_next w) (wd_socket w) (wd_listening w).

Definition holder (w : World) (i : nat) : option nat := n ← wd_inodes w !! i; in_holder n.
Definition lock_text (w : World) : option string := i ← wd_lock w; in_text <$> wd_inodes w !! i.

(** The PID of a process of the model. *)
Definition pid_of (p : nat) : Z := Z.of_nat p + 1.
Definition gone (ph : phase) : bool := match ph with Finished | Refused | Crashed => true | _ => false end.
(** [pidAlive], [others] being what else runs on the host. *)
Definition pidAlive (others : gset Z) (procs : gmap nat phase) (pid : Z) : bool :=
  (0 <? pid)%Z && (bool_decide (pid ∈ others) ||
                   existsb (λ x, (pid_of x.1 =? pid)%Z && negb (gone x.2)) (map_to_list procs)).

(** [shouldReclaim]. *)
Definition shouldReclaim (others : gset Z) (s : State) : option bool :=
  pid ← readPIDFile (lock_text (st_world s));
  Some (if (pid =? 0)%Z then true else negb (pidAlive others (st_procs s) pid)).

Definition enter (p : nat) (ph : phase) (w : World) (s : State) : State := mkState w (<[p := ph]> (st_procs s)).

(** A listener is behind the socket file. *)
Definition answering (w : World) : bool := match wd_socket w with Some q => bool_decide (q ∈ wd_listening w) | None => false end.

Section Steps.
Context (others : gset Z).

Definition go (p : nat) (ph : phase) (w : World) (s : State) : option State := Some (enter p ph w s).

(** [Acquire], up to the lock; [answered] is whether the dial was answered, which
    takes a listener behind the socket file. *)
Definition step_acquire (p : nat) (answered : bool) (s : State) (ph : phase) : option State :=
  let w := st_world s in
  match ph with
  | StatSocket => match wd_socket w with Some _ => go p DialSocket w s | None => go p OpenLock w s end
  | DialSocket => if answered then (if answering w then go p Refused w s else None) else go p CheckPid w s
  | CheckPid => match shouldReclaim others s with Some true => go p RemoveStale w s | _ => go p Refused w s end
  | RemoveStale => go p OpenLock (set_socket None w) s
  | _ => None
  end.

(** [acquirePIDLock]. *)
Definition step_pid_lock (p : nat) (s : State) (ph : phase) : option State :=
  let w := st_world s in
  match ph with
  | OpenLock =>
      match wd_lock w with
      | Some i => go p (TakeLock i) w s
      | None => let i := wd_next w in
                go p (TakeLock i) (mkWorld (Some i) (<[i := mkInode "" None]> (wd_inodes w)) (S i) (wd_socket w) (wd_listening w)) s
      end
  | TakeLock i =>
      n ← wd_inodes w !! i;
      match in_holder n with None => go p (Truncate i) (set_inode i (mkInode (in_text n) (Some p)) w) s | Some _ => go p Refused w s end
  | Truncate i => n ← wd_inodes w !! i; go p (WritePid i) (set_inode i (mkInode "" (in_holder n)) w) s
  | WritePid i => n ← wd_inodes w !! i; go p (Locked i) (set_inode i (mkInode (pid_text (pid_of p)) (in_holder n)) w) s
  | _ => None
  end.

(** [Run] from there - [stored]: the store took the session, without which the lock
    is released - and [listenEndpoint]. *)
Definition step_listen (p : nat) (stored : bool) (s : State) (ph : phase) : option State :=
  let w := st_world s in
  match ph with
  | Locked i => if stored then go p (Bind i) (set_socket None w) s else go p (CloseLock i) w s
  | Bind i => match wd_socket w with
              | Some _ => go p (CloseLock i) w s
              | None => go p (Serving i) (set_listening ({[p]} ∪ wd_listening w) (set_socket (Some p) w)) s
              end
  | _ => None
  end.

(** [Stop]: closing a listener unlinks its path by name, and so does
    [cleanupEndpoint] after it. *)
Definition step_stop (p : nat) (s : State) (ph : phase) : option State :=
  let w := st_world s in
  match ph with
  | Serving i => go p (CleanEndpoint i) (set_listening (wd_listening w ∖ {[p]}) (set_socket None w)) s
  | CleanEndpoint i => go p (CloseLock i) (set_socket None w) s
  | _ => None
  end.

(** [Release]. *)
Definition step_release (p : nat) (s : State) (ph : phase) : option State :=
  let w := st_world s in
  match ph with
  | CloseLock i => n ← wd_inodes w !! i; go p RemoveLock (set_inode i (mkInode (in_text n) None) w) s
  | RemoveLock => go p Finished (set_lock None w) s
  | _ => None
  end.

(** The next system call of a process. *)
Definition advance (p : nat) (answered : bool) (s : State) : option State :=
  ph ← st_procs s !! p;
  match ph with
  | StatSocket | DialSocket | CheckPid | RemoveStale => step_acquire p answered s ph
  | OpenLock | TakeLock _ | Truncate _ | WritePid _ => step_pid_lock p s ph
  | Locked _ | Bind _ => step_listen p answered s ph
  | Serving _ | CleanEndpoint _ => step_stop p s ph
  | CloseLock _ | RemoveLock => step_release p s ph
  | Finished | Refused | Crashed => None
  end.

(** The kernel's part of a crash. *)
Definition crash (p : nat) (s : State) : option State :=
  ph ← st_procs s !! p;
  if gone ph then None
  else Some (enter p Crashed
    (set_listening (wd_listening (st_world s) ∖ {[p]})
      (mkWorld (wd_lock (st_world s))
        ((λ n, if decide (in_holder n = Some p) then mkInode (in_text n) None else n) <$> wd_inodes (st_world s))
        (wd_next (st_world s)) (wd_socket (st_world s)) (wd_listening (st_world s)))) s).

Inductive lock_step : State → State → Prop :=
| Begin s p : st_procs s !! p = None → lock_step s (enter p StatSocket (st_world s) s)
| Advance s s' p answered : advance p answered s = Some s' → lock_step s s'
| Crash s s' p : crash p s = Some s' → lock_step s s'.

Definition empty_world : World := mkWorld None ∅ 0 None ∅.
Definition lock_reachable (s : State) : Prop := rtc lock_step (mkState empty_world ∅) s.
End Steps.

(** The inode whose lock a process has. *)
Definition held (ph : phase) : option nat :=
  match ph with
  | Truncate i | WritePid i | Locked i | Bind i | Serving i | CleanEndpoint i | CloseLock i => Some i
  | _ => None
  end.


(** ** Who holds the lock *)

Section Holders.
Context (others : gset Z).

(** A lock is held by the process whose phase says so. *)
Record locks_agree (s : State) : Prop := {
  la_holder : ∀ p ph i, st_procs s !! p = Some ph → held ph = Some i → holder (st_world s) i = Some p;
  la_phase : ∀ p i, holder (st_world s) i = Some p → ∃ ph, st_procs s !! p = Some ph ∧ held ph = Some i;
  la_fresh : ∀ i n, wd_inodes (st_world s) !! i = Some n → i < wd_next (st_world s) }.

Definition fresh_inodes (w : World) : Prop := ∀ i n, wd_inodes w !! i = Some n → i < wd_next w.

Lemma holder_set i n w j : holder (set_inode i n w) j = if decide (j = i) then in_holder n else holder w j.
Proof. unfold holder. cbn [set_inode wd_inodes]. case_decide as H; [subst; by rewrite lookup_insert_eq|by rewrite lookup_insert_ne]. Qed.

(** A step that leaves the locks alone. *)
Lemma agree_same p ph ph' w' s : locks_agree s → st_procs s !! p = Some ph → held ph' = held ph →
  (∀ i, holder w' i = holder (st_world s) i) → fresh_inodes w' → locks_agree (enter p ph' w' s).
Proof.
  intros [Hh Hp _] Hph Hheld Hw Hf. constructor; cbn [enter st_world st_procs]; [| |done].
  - intros q phq i Hq Hi. rewrite Hw. destruct (decide (q = p)) as [->|Hne].
    + rewrite lookup_insert_eq in Hq. simplify_eq. apply (Hh _ _ _ Hph). congruence.
    + rewrite lookup_insert_ne in Hq by done. by eapply Hh.
  - intros q i. rewrite Hw. intros Hi. destruct (Hp q i Hi) as (phq & Hq & Hhq). destruct (decide (q = p)) as [->|Hne].
    + exists ph'. rewrite lookup_insert_eq. split; [done|]. congruence.
    + exists phq. by rewrite lookup_insert_ne.
Qed.

Lemma agree_take p ph ph' i w' s : locks_agree s → st_procs s !! p = Some ph → held ph = None → held ph' = Some i →
  holder (st_world s) i = None → (∀ j, holder w' j = if decide (j = i) then Some p else holder (st_world s) j) → fresh_inodes w' →
  locks_agree (enter p ph' w' s).
Proof.
  intros [Hh Hp _] Hph Hheld Hheld' Hnone Hw Hf. constructor; cbn [enter st_world st_procs]; [| |done].
  - intros q phq j Hq Hj. rewrite Hw. destruct (decide (q = p)) as [->|Hne].
    + rewrite lookup_insert_eq in Hq. simplify_eq. by rewrite decide_True.
    + rewrite lookup_insert_ne in Hq by done. pose proof (Hh _ _ _ Hq Hj). case_decide; [subst; congruence|done].
  - intros q j. rewrite Hw. case_decide as Hji.
    + intros [= <-]. exists ph'. rewrite lookup_insert_eq. by subst.
    + intros Hj. destruct (Hp q j Hj) as (phq & Hq & Hhq). exists phq. rewrite lookup_insert_ne; [done|]. intros ->. congruence.
Qed.

Lemma agree_drop p ph' w' s : locks_agree s → held ph' = None →
  (∀ j, holder w' j = if decide (holder (st_world s) j = Some p) then None else holder (st_world s) j) → fresh_inodes w' →
  locks_agree (enter p ph' w' s).
Proof.
  intros [Hh Hp _] Hheld Hw Hf. constructor; cbn [enter st_world st_procs]; [| |done].
  - intros q phq j Hq Hj. rewrite Hw. destruct (decide (q = p)) as [->|Hne].
    + rewrite lookup_insert_eq in Hq. by simplify_eq.
    + rewrite lookup_insert_ne in Hq by done. pose proof (Hh _ _ _ Hq Hj). rewrite decide_False; [done|congruence].
  - intros q j. rewrite Hw. case_decide as Hji; [done|]. intros Hj. destruct (Hp q j Hj) as (phq & Hq & Hhq). exists phq.
    rewrite lookup_insert_ne; [done|congruence].
Qed.

Lemma fresh_set i n w : fresh_inodes w → is_Some (wd_inodes w !! i) → fresh_inodes (set_inode i n w).
Proof.
  intros Hf [m Hm] j k. cbn [set_inode wd_inodes wd_next]. destruct (decide (j = i)) as [->|Hne]; [intros _; by eapply Hf|].
  rewrite lookup_insert_ne by done. apply Hf.
Qed.

Lemma advance_agree p answered s s' : advance others p answered s = Some s' → locks_agree s → locks_agree s'.
Proof.
  intros Hstep Hs. pose proof (la_fresh _ Hs) as Hf. fold (fresh_inodes (st_world s)) in Hf. unfold advance, step_acquire, step_pid_lock, step_listen, step_stop, step_release, go in Hstep.
  destruct (st_procs s !! p) as [ph|] eqn:Hph; [|done]. cbn [mbind option_bind] in Hstep.
  assert (Hsame : ∀ ph' w', held ph' = held ph → wd_inodes w' = wd_inodes (st_world s) → wd_next w' = wd_next (st_world s) → locks_agree (enter p ph' w' s)).
  { intros ph' w' Hh Hi Hn. apply (agree_same p ph); [done|done|done| |].
    - intros i. unfold holder. by rewrite Hi.
    - unfold fresh_inodes. by rewrite Hi, Hn. }
  assert (Htext : ∀ ph' i n t, wd_inodes (st_world s) !! i = Some n → held ph' = held ph →
                  locks_agree (enter p ph' (set_inode i (mkInode t (in_holder n)) (st_world s)) s)).
  { intros ph' i n t Hn Hh. apply (agree_same p ph); [done|done|done| |by apply fresh_set; [|by exists n]].
    intros j. rewrite holder_set. case_decide; [|done]. subst. unfold holder. by rewrite Hn. }
  destruct ph; cbn [held] in *;
    try (repeat case_match; simplify_eq; by apply Hsame).
  - (* opening the lock file *)
    destruct (wd_lock (st_world s)) as [i|]; simplify_eq; [by apply Hsame|]. apply (agree_same p OpenLock); [done|done|done| |].
    + intros i. unfold holder. cbn [wd_inodes]. destruct (decide (i = wd_next (st_world s))) as [->|Hne]; [|by rewrite lookup_insert_ne].
      rewrite lookup_insert_eq. destruct (wd_inodes (st_world s) !! wd_next (st_world s)) as [n|] eqn:Hn; [|done]. specialize (Hf _ _ Hn). lia.
    + intros i n. cbn [wd_inodes wd_next]. destruct (decide (i = wd_next (st_world s))) as [->|Hne]; [lia|]. rewrite lookup_insert_ne by done.
      intros Hi. specialize (Hf _ _ Hi). lia.
  - (* the flock *)
    destruct (wd_inodes (st_world s) !! i) as [n|] eqn:Hn; [|done]. cbn [mbind option_bind] in Hstep. destruct (in_holder n) as [q|] eqn:Hq; simplify_eq; [by apply Hsame|].
    apply (agree_take p (TakeLock i) (Truncate i) i); [done|done|done|done|unfold holder; by rewrite Hn| |apply fresh_set; [done|by exists n]].
    intros j. by rewrite holder_set.
  - destruct (wd_inodes (st_world s) !! i) as [n|] eqn:Hn; [|done]. cbn [mbind option_bind] in Hstep. simplify_eq. by apply Htext.
  - destruct (wd_inodes (st_world s) !! i) as [n|] eqn:Hn; [|done]. cbn [mbind option_bind] in Hstep. simplify_eq. by apply Htext.
  - (* the lock is closed *)
    destruct (wd_inodes (st_world s) !! i) as [n|] eqn:Hn; [|done]. cbn [mbind option_bind] in Hstep. simplify_eq.
    apply agree_drop; [done|done| |apply fresh_set; [done|by exists n]]. intros j. rewrite holder_set. cbn [in_holder].
    pose proof (la_holder _ Hs p _ i Hph eq_refl) as Hi. case_decide as Hj; [subst; by rewrite decide_True|]. rewrite decide_False; [done|].
    intros Hjp. destruct (la_phase _ Hs _ _ Hjp) as (ph & Hph' & Hheld). rewrite Hph in Hph'. simplify_eq. cbn in Hheld. congruence.
Qed.

Lemma lock_step_agree s s' : lock_step others s s' → locks_agree s → locks_agree s'.
Proof.
  intros Hstep Hs. pose proof (la_fresh _ Hs) as Hf. destruct Hstep as [s p Hp|s s' p answered Ha|s s' p Hc]; [|by eapply advance_agree|].
  - apply agree_drop; [done|done| |done]. intros j. rewrite decide_False; [done|]. intros Hj. destruct (la_phase _ Hs _ _ Hj) as (ph & Hph & _). congruence.
  - unfold crash in Hc. destruct (st_procs s !! p) as [ph|] eqn:Hph; [|done]. cbn [mbind option_bind] in Hc. destruct (gone ph); simplify_eq.
    apply agree_drop; [done|done| |].
    + intros j. unfold holder. cbn [set_listening wd_inodes]. rewrite lookup_fmap. destruct (wd_inodes (st_world s) !! j) as [n|]; cbn; [|done]. by repeat case_decide.
    + intros i n. cbn [set_listening wd_inodes wd_next]. rewrite lookup_fmap. destruct (wd_inodes (st_world s) !! i) as [m|] eqn:Hm; [|done]. intros _. by eapply Hf.
Qed.

Lemma start_agrees : locks_agree (mkState empty_world ∅).
Proof.
  constructor; cbn [st_procs st_world].
  - intros p ph i H. by rewrite lookup_empty in H.
  - intros p i. unfold holder. cbn. by rewrite lookup_empty.
  - intros i n. cbn. by rewrite lookup_empty.
Qed.

(** ** What the name stands for *)

Definition opened (ph : phase) : option nat := match ph with TakeLock i => Some i | _ => held ph end.
Definition unreleased (s : State) : Prop := ∀ p, st_procs s !! p ≠ Some Finished.
(** Every process has the inode open that the PID file's name stands for. *)
Definition named (s : State) : Prop := ∀ p ph i, st_procs s !! p = Some ph → opened ph = Some i → wd_lock (st_world s) = Some i.

Lemma named_enter p ph' w' s : named s → wd_lock w' = wd_lock (st_world s) →
  (∀ i, opened ph' = Some i → wd_lock w' = Some i) → named (enter p ph' w' s).
Proof.
  intros Hs Hw Hp q phq i. cbn [enter st_procs st_world]. destruct (decide (q = p)) as [->|Hne].
  - rewrite lookup_insert_eq. intros [= <-]. apply Hp.
  - rewrite lookup_insert_ne by done. rewrite Hw. apply Hs.
Qed.

Lemma unreleased_before s s' : lock_step others s s' → unreleased s' → unreleased s.
Proof.
  intros Hstep Hs' p Hp. apply (Hs' p). destruct Hstep as [s q Hq|s s' q answered Ha|s s' q Hc].
  - cbn [enter st_procs]. rewrite lookup_insert_ne; [done|congruence].
  - unfold advance, step_acquire, step_pid_lock, step_listen, step_stop, step_release, go in Ha. destruct (st_procs s !! q) as [ph|] eqn:Hph; [|done]. cbn [mbind option_bind] in Ha.
    assert (Hne : q ≠ p) by (intros ->; rewrite Hp in Hph; by simplify_eq).
    assert (Hgo : ∀ ph' w', st_procs (enter q ph' w' s) !! p = Some Finished) by (intros; cbn; by rewrite lookup_insert_ne).
    destruct ph; try match type of Ha with context [wd_inodes ?w !! ?i] => destruct (wd_inodes w !! i); [cbn [mbind option_bind] in Ha|done] end;
      repeat case_match; try discriminate; injection Ha as <-; by apply Hgo.
  - unfold crash in Hc. destruct (st_procs s !! q) as [ph|] eqn:Hph; [|done]. cbn [mbind option_bind] in Hc. destruct (gone ph) eqn:Hg; [done|]. simplify_eq.
    cbn [enter st_procs]. rewrite lookup_insert_ne; [done|]. intros ->. rewrite Hp in Hph. by simplify_eq.
Qed.

Lemma lock_step_named s s' : lock_step others s s' → unreleased s' → named s → named s'.
Proof.
  intros Hstep Hrel Hs. destruct Hstep as [s p Hp|s s' p answered Ha|s s' p Hc].
  - by apply named_enter.
  - unfold advance, step_acquire, step_pid_lock, step_listen, step_stop, step_release, go in Ha. destruct (st_procs s !! p) as [ph|] eqn:Hph; [|done]. cbn [mbind option_bind] in Ha.
    assert (Hgo : ∀ ph' w', wd_lock w' = wd_lock (st_world s) → (∀ i, opened ph' = Some i → opened ph = Some i) → named (enter p ph' w' s)).
    { intros ph' w' Hw Ho. apply named_enter; [done|done|]. intros i Hi. rewrite Hw. exact (Hs p ph i Hph (Ho i Hi)). }
    destruct ph;
      try (try match type of Ha with context [wd_inodes ?w !! ?i] => destruct (wd_inodes w !! i); [cbn [mbind option_bind] in Ha|done] end;
           repeat case_match; try discriminate; injection Ha as <-; (apply Hgo; [reflexivity|cbn; intros ? ?; first [done|congruence]])).
    + destruct (wd_lock (st_world s)) as [i|] eqn:Hl; simplify_eq; [apply named_enter; [done|done|cbn; congruence]|].
      intros q phq j. cbn [enter st_procs st_world wd_lock]. destruct (decide (q = p)) as [->|Hne].
      * rewrite lookup_insert_eq. intros [= <-]. done.
      * rewrite lookup_insert_ne by done. intros Hq Hj. specialize (Hs _ _ _ Hq Hj). congruence.
    + simplify_eq. exfalso. apply (Hrel p). cbn. by rewrite lookup_insert_eq.
  - unfold crash in Hc. destruct (st_procs s !! p) as [ph|] eqn:Hph; [|done]. cbn [mbind option_bind] in Hc. destruct (gone ph); simplify_eq. by apply named_enter.
Qed.

Lemma runs_unreleased s s' : rtc (lock_step others) s s' → unreleased s' → unreleased s.
Proof. induction 1 as [|x y z Hstep _ IH]; [done|]. intros Hz. eapply unreleased_before; [done|]. by apply IH. Qed.

Lemma runs_named s s' : rtc (lock_step others) s s' → unreleased s' → named s → named s'.
Proof.
  induction 1 as [|x y z Hstep Hrest IH]; [done|]. intros Hz Hx. apply IH; [done|]. eapply lock_step_named; [done| |done]. by eapply runs_unreleased.
Qed.

(** C15: However processes start, acquire the runtime directory, serve, stop and crash
    in it: two never hold the lock of one PID file, and as long as no process has
    released the directory - those before it having crashed, if any - at most one
    is past [Acquire], so that at most one serves. *)
Theorem one_supervisor_until_release s : lock_reachable others s →
  (∀ p q i php phq, st_procs s !! p = Some php → st_procs s !! q = Some phq → held php = Some i → held phq = Some i → p = q) ∧
  (unreleased s → ∀ p q i j php phq, st_procs s !! p = Some php → st_procs s !! q = Some phq → held php = Some i → held phq = Some j → p = q).
Proof.
  intros Hr. assert (Hagree : locks_agree s).
  { assert (H0 := start_agrees). unfold lock_reachable in Hr. induction Hr as [|x y z Hstep _ IH]; [done|]. apply IH. by eapply lock_step_agree. }
  assert (Hone : ∀ p q i php phq, st_procs s !! p = Some php → st_procs s !! q = Some phq → held php = Some i → held phq = Some i → p = q).
  { intros p q i php phq Hp Hq Hhp Hhq. pose proof (la_holder _ Hagree _ _ _ Hp Hhp). pose proof (la_holder _ Hagree _ _ _ Hq Hhq). congruence. }
  split; [exact Hone|]. intros Hrel p q i j php phq Hp Hq Hhp Hhq.
  assert (Hnamed : named s).
  { apply (runs_named _ _ Hr Hrel). intros p' ph i' H. cbn [st_procs] in H. by rewrite lookup_empty in H. }
  assert (Hop : ∀ ph k, held ph = Some k → opened ph = Some k) by (by intros []).
  pose proof (Hnamed _ _ _ Hp (Hop _ _ Hhp)). pose proof (Hnamed _ _ _ Hq (Hop _ _ Hhq)). assert (i = j) as -> by congruence. by eapply Hone.
Qed.
End Holders.

(** ** Runs *)

Inductive event := EBegin (p : nat) | EGo (p : nat) (answered : bool) | ECrash (p : nat).
Definition play1 (others : gset Z) (e : event) (s : State) : option State :=
  match e with
  | EBegin p => match st_procs s !! p with None => Some (enter p StatSocket (st_world s) s) | Some _ => None end
  | EGo p answered => advance others p answered s
  | ECrash p => crash p s
  end.
Fixpoint play (others : gset Z) (l : list event) (s : State) : option State :=
  match l with [] => Some s | e :: l' => s' ← play1 others e s; play others l' s' end.

Lemma play_runs others l s s' : play others l s = Some s' → rtc (lock_step others) s s'.
Proof.
  revert s. induction l as [|e l IH]; intros s; cbn [play]; [intros [= <-]; apply rtc_refl|]. intros (s1 & H1 & H2)%bind_Some.
  eapply rtc_l; [|by apply IH]. destruct e as [p|p answered|p]; cbn in H1.
  - destruct (st_procs s !! p) eqn:Hp; simplify_eq. by constructor.
  - by eapply Advance.
  - by eapply Crash.
Qed.

Definition gos (p n : nat) : list event := replicate n (EGo p true).
Definition start_state : State := mkState empty_world ∅.

(** Supervisor 0 stops. Between the close of its lock and the removal of the PID
    file, 1 takes the lock of that file; 2 then makes a new one and locks it. *)
Definition handover : list event :=
  EBegin 0 :: gos 0 7 ++ gos 0 3 ++ EBegin 1 :: gos 1 5 ++ gos 0 1 ++ EBegin 2 :: gos 2 5 ++ gos 1 2 ++ gos 2 2.
(** Supervisor 0 crashed; 1 and 2 both find its socket stale, and 2 is serving by the
    time 1 removes it. *)
Definition reclaim : list event :=
  EBegin 0 :: gos 0 7 ++ ECrash 0 :: EBegin 1 :: gos 1 1 ++ EGo 1 false :: gos 1 1 ++ EBegin 2 :: gos 2 1 ++ EGo 2 false :: gos 2 8 ++ gos 1 3.

(** What is running in a state, and the socket a client would dial. *)
Definition serving (s : State) : list nat :=
  omap (λ x, match x.2 with Serving _ => Some x.1 | _ => None end) (map_to_list (st_procs s)).
Definition busy_acquiring (s : State) : list nat :=
  omap (λ x, match x.2 with Serving _ => None | ph => if gone ph then None else Some x.1 end) (map_to_list (st_procs s)).

Lemma unreleased_if s : bool_decide (map_Forall (λ _ ph, ph ≠ Finished) (st_procs s)) = true → unreleased s.
Proof. rewrite bool_decide_eq_true. intros H p Hp. exact (H p Finished Hp eq_refl). Qed.

(** C16: The directory does not keep supervisors apart once one has stopped, nor
    discoverable once one has crashed: two can be serving at the same time, each
    with the lock of a PID file of its own; and the only one serving can have lost
    its socket to another's reclaim, so that every client finds none while every
    new supervisor is refused. *)
Theorem supervisors_can_collide :
  (∃ s, lock_reachable ∅ s ∧ serving s ≡ₚ [1; 2] ∧ wd_listening (st_world s) = {[1; 2]}) ∧
  (∃ s, lock_reachable ∅ s ∧ unreleased s ∧ serving s = [2] ∧ busy_acquiring s = [] ∧
        2 ∈ wd_listening (st_world s) ∧ wd_socket (st_world s) = None ∧
        ∃ i, wd_lock (st_world s) = Some i ∧ holder (st_world s) i = Some 2).
Proof.
  split.
  - destruct (play ∅ handover start_state) as [s|] eqn:Hs; [|vm_compute in Hs; discriminate]. exists s. split; [by eapply play_runs|].
    vm_compute in Hs. apply (inj Some) in Hs as <-. split; [|set_solver]. vm_compute. first [apply Permutation_swap|reflexivity].
  - destruct (play ∅ reclaim start_state) as [s|] eqn:Hs; [|vm_compute in Hs; discriminate]. exists s. split; [by eapply play_runs|].
    vm_compute in Hs. apply (inj Some) in Hs as <-. split_and!; [|vm_compute; reflexivity|vm_compute; reflexivity|set_solver|reflexivity|exists 0; split; reflexivity].
    apply unreleased_if. vm_compute. reflexivity.
Qed.

Lemma one_supervisor_until_release_witness :
  lock_reachable ∅ (default start_state (play ∅ reclaim start_state)) ∧
  (∀ p q i j php phq, st_procs (default start_state (play ∅ reclaim start_state)) !! p = Some php →
     st_procs (default start_state (play ∅ reclaim start_state)) !! q = Some phq → held php = Some i → held phq = Some j → p = q).
Proof.
  assert (Hr : lock_reachable ∅ (default start_state (play ∅ reclaim start_state))).
  { destruct (play ∅ reclaim start_state) as [s|] eqn:Hs; [by eapply play_runs|apply rtc_refl]. }
  split; [exact Hr|]. apply (proj2 (one_supervisor_until_release ∅ _ Hr)).
  apply unreleased_if. vm_compute. reflexivity.
Defined.
