(* ===== verification/IpcClient.v ===== *)
(** * The client of the control plane: [internal/ipc/client.go], [client_drive.go],
    [client_query.go]

    One request, one response; or an attached stream whose frames go to a callback.
    What the connection answers to each read is given, with the state of the
    context around it; the frames themselves are decoded as [encoding/json] does. *)
From S2P Require Import Prelude GoLib GoJson IpcServer.

(** ** Frames *)

(** [Response] as it arrives. *)
Record Reply := mkReply { rp_ok : bool; rp_data : option jtree; rp_error : list Z; rp_code : list Z }.
Definition zero_reply : Reply := mkReply false None [] [].

Definition set_bool (t : jtree) (old : bool) : bool * bool :=
  match t with
  | JAtom raw => if is_null raw then (old, true) else if bool_decide (raw = chars "true") then (true, true)
                 else if bool_decide (raw = chars "false") then (false, true) else (old, false)
  | _ => (old, false)
  end.
Definition set_reply_member (st : Reply * bool) (m : Bytes * jtree) : Reply * bool :=
  let '(r, ok) := st in
  if names m.1 "ok" then let '(v, ok') := set_bool m.2 (rp_ok r) in (mkReply v (rp_data r) (rp_error r) (rp_code r), ok && ok')
  else if names m.1 "data" then (mkReply (rp_ok r) (Some m.2) (rp_error r) (rp_code r), ok)
  else if names m.1 "error" then let '(v, ok') := set_string m.2 (rp_error r) in (mkReply (rp_ok r) (rp_data r) v (rp_code r), ok && ok')
  else if names m.1 "code" then let '(v, ok') := set_string m.2 (rp_code r) in (mkReply (rp_ok r) (rp_data r) (rp_error r) v, ok && ok')
  else st.

(** [json.Unmarshal(line, &resp)]. *)
Definition UnmarshalReply (line : Bytes) : option Reply :=
  t ← json_tree line;
  match t with
  | JObj members => let '(r, ok) := foldl set_reply_member (zero_reply, true) members in if ok : bool then Some r else None
  | JAtom raw => if is_null raw then Some zero_reply else None
  | _ => None
  end.

(** The line as a map of raw members, and its ["event"]: the last of that exact
    name. *)
Definition probe (line : Bytes) : option (list (Bytes * jtree)) :=
  t ← json_tree line;
  match t with
  | JObj members => Some members
  | JAtom raw => if is_null raw then Some [] else None
  | _ => None
  end.
Definition probe_event (members : list (Bytes * jtree)) : option jtree :=
  foldl (λ found m, if bool_decide (unquote m.1 = runes_of "event") then Some m.2 else found) None members.

(** ** Reads *)

(** What [ReadBytes] returns, with [ctx.Err()] before and after it. *)
Inductive ReadResult := ReadLine (line : Bytes) | ReadEOF | ReadFails.
Record Read := mkRead { rd_canceled_before : bool; rd_result : ReadResult; rd_canceled : bool }.

Inductive ClientError (E : Type) :=
| ClientMarshal | ClientWrite
| ClientContext | ErrClosed | ClientRead
| ClientDecodeFrame | ClientDecodeResponse | ClientDecodeReply
| ClientCallback (e : E)
(** [errors.New(resp.Error)], and [CodedError]. *)
| ClientRefused (message : list Z)
| ClientCoded (class message : list Z).
Arguments ClientMarshal {E}.
Arguments ClientWrite {E}.
Arguments ClientContext {E}.
Arguments ErrClosed {E}.
Arguments ClientRead {E}.
Arguments ClientDecodeFrame {E}.
Arguments ClientDecodeResponse {E}.
Arguments ClientDecodeReply {E}.
Arguments ClientCallback {E}.
Arguments ClientRefused {E}.
Arguments ClientCoded {E}.

Section Client.
Context {E : Type}.

Definition read_line_error (r : Read) : result (ClientError E) Bytes :=
  match rd_result r with
  | ReadLine line => Ok line
  | ReadEOF => if rd_canceled r then Err ClientContext else Err ErrClosed
  | ReadFails => if rd_canceled r then Err ClientContext else Err ClientRead
  end.

Definition readResponse (r : Read) : result (ClientError E) Reply :=
  try line := read_line_error r in
  match UnmarshalReply line with None => Err ClientDecodeResponse | Some resp => Ok resp end.

(** [send] and [readResponse] of a call: whether the arguments could be encoded and
    the request written, and the read. *)
Definition exchange (marshaled written : bool) (r : Read) : result (ClientError E) Reply :=
  if negb marshaled then Err ClientMarshal else if negb written then Err ClientWrite else readResponse r.

(** [Stop] and [ReloadConfig], then [Status] and [Enqueue], which decode the data
    they got, none at all included. *)
Definition plain_call (marshaled written : bool) (r : Read) : result (ClientError E) unit :=
  try resp := exchange marshaled written r in
  if rp_ok resp then Ok tt else Err (ClientRefused (rp_error resp)).
Definition plain_query {Out} (decode : jtree → option Out) (marshaled written : bool) (r : Read) : result (ClientError E) Out :=
  try resp := exchange marshaled written r in
  if rp_ok resp
  then match rp_data resp ≫= decode with Some out => Ok out | None => Err ClientDecodeReply end
  else Err (ClientRefused (rp_error resp)).

(** [versionedCall]: [out] is what the reply is decoded over, none when the command
    has none. *)
Definition versionedCall {Out} (decode : option (Out → jtree → option Out)) (out : Out) (marshaled written : bool) (r : Read)
    : result (ClientError E) Out :=
  try resp := exchange marshaled written r in
  if negb (rp_ok resp) then Err (ClientCoded (rp_code resp) (rp_error resp))
  else match decode, rp_data resp with
       | Some decode, Some data => match decode out data with Some out => Ok out | None => Err ClientDecodeReply end
       | _, _ => Ok out
       end.

(** [Attach] on the reads that have happened: [None] while the stream is open. *)
Fixpoint attach_loop {S} (fn : jtree → S → option E * S) (reads : list Read) (st : S) : option (result (ClientError E) unit * S) :=
  match reads with
  | [] => None
  | r :: reads' =>
      if rd_canceled_before r then Some (Err ClientContext, st)
      else match read_line_error r with
           | Err e => Some (Err e, st)
           | Ok line =>
               match probe line with
               | None => Some (Err ClientDecodeFrame, st)
               | Some members =>
                   match probe_event members with
                   | Some ev =>
                       match fn ev st with
                       | (Some e, st') => Some (Err (ClientCallback e), st')
                       | (None, st') => attach_loop fn reads' st'
                       end
                   | None =>
                       Some (match UnmarshalReply line with
                             | None => Err ClientDecodeResponse
                             | Some resp => if rp_ok resp then Ok tt else Err (ClientRefused (rp_error resp))
                             end, st)
                   end
               end
           end
  end.
Definition Attach {S} (fn : jtree → S → option E * S) (marshaled written : bool) (reads : list Read) (st : S)
    : option (result (ClientError E) unit * S) :=
  if negb marshaled then Some (Err ClientMarshal, st) else if negb written then Some (Err ClientWrite, st) else attach_loop fn reads st.

(** [AttachEvents]: a frame that is no event of the type ends the stream. *)
Definition AttachEvents {S Event} (decode : jtree → option Event) (undecodable : E) (fn : Event → S → option E * S) : jtree → S → option E * S :=
  λ raw st, match decode raw with None => (Some undecodable, st) | Some ev => fn ev st end.
End Client.

(** ** The version each call asks for *)

Definition DriveProtoVersion : Z := 2.
Definition AttachProtoVersion : Z := 3.
Definition ResolveOnlyProtoVersion : Z := 4.

Definition projectEnsureProtoVersion (resolveOnly : bool) : Z := if resolveOnly then ResolveOnlyProtoVersion else DriveProtoVersion.

(** The [Request] of the method for a command; [resolveOnly] is of [ProjectEnsure]'s
    arguments. Zero is the version omitted. *)
Definition call_version (c : Command) (resolveOnly : bool) : Z :=
  match c with
  | CmdStatus | CmdEnqueue | CmdStop | CmdReloadConfig => 0
  | CmdAttach => AttachProtoVersion
  | CmdPlanImport | CmdPlanSetStatus | CmdPlanDelete | CmdTaskApprove | CmdWorkerKill
  | CmdProjectConfigGet | CmdProjectConfigApply | CmdCalibrationPut | CmdCalibrationList => DriveProtoVersion
  | CmdProjectEnsure => projectEnsureProtoVersion resolveOnly
  | CmdObserveSnapshot | CmdObserveMessages | CmdObserveTaskDescriptions => QueryProtoVersion
  | CmdHookEvent => HookProtoVersion
  end.
Definition call_request (c : Command) (resolveOnly : bool) (args : option jtree) : Request :=
  mkRequest (runes_of (Cmd_text c)) args (call_version c resolveOnly).

(** ** Properties *)

(** A read that was not interrupted. *)
Definition arrived (line : Bytes) : Read := mkRead false (ReadLine line) false.

Section Stream.
Context {E S : Type} (fn : jtree → S → option E * S).

(** The callback over the events, up to its first error. *)
Fixpoint run_events (events : list jtree) (st : S) : option E * S :=
  match events with
  | [] => (None, st)
  | ev :: events' => match fn ev st with (Some e, st') => (Some e, st') | (None, st') => run_events events' st' end
  end.

Definition event_line (line : Bytes) (ev : jtree) : Prop := ∃ members, probe line = Some members ∧ probe_event members = Some ev.
Definition final_line (line : Bytes) (resp : Reply) : Prop :=
  (∃ members, probe line = Some members ∧ probe_event members = None) ∧ UnmarshalReply line = Some resp.

(** An attached stream gives every event to the callback, in order and once, and
    nothing else; it ends with the callback's first error, or as the server's last
    line says, and what follows that line is not read. *)
Theorem Attach_is_the_stream lines events final resp rest st :
  Forall2 event_line lines events → final_line final resp →
  Attach fn true true ((arrived <$> lines) ++ arrived final :: rest) st =
  Some (match run_events events st with
        | (Some e, st') => (Err (ClientCallback e), st')
        | (None, st') => (if rp_ok resp then Ok tt else Err (ClientRefused (rp_error resp)), st')
        end).
Proof.
  intros Hlines [(members & Hp & He) Hf]. unfold Attach. cbn [negb]. revert st. induction Hlines as [|line ev lines events (ms & Hpm & Hpe) _ IH]; intros st.
  - cbn [fmap list_fmap app attach_loop arrived rd_canceled_before rd_result read_line_error run_events]. rewrite Hp, He, Hf. by destruct (rp_ok resp).
  - cbn [fmap list_fmap app attach_loop arrived rd_canceled_before rd_result read_line_error run_events]. rewrite Hpm, Hpe.
    destruct (fn ev st) as [[e|] st']; [done|]. apply IH.
Qed.

(** A canceled context ends the stream without another call of the callback. *)
Theorem Attach_stops_when_canceled lines events r rest st :
  Forall2 event_line lines events → (rd_canceled_before r = true ∨ rd_canceled r = true ∧ ∀ line, rd_result r ≠ ReadLine line) →
  Attach fn true true ((arrived <$> lines) ++ r :: rest) st =
  Some (match run_events events st with (Some e, st') => (Err (ClientCallback e), st') | (None, st') => (Err ClientContext, st') end).
Proof.
  intros Hlines Hr. unfold Attach. cbn [negb]. revert st. induction Hlines as [|line ev lines events (ms & Hpm & Hpe) _ IH]; intros st.
  - cbn [fmap list_fmap app attach_loop run_events]. destruct r as [before res after]. cbn in *. destruct before; [done|].
    destruct Hr as [|[-> Hres]]; [done|]. destruct res as [line| |]; [by destruct (Hres line)|done|done].
  - cbn [fmap list_fmap app attach_loop arrived rd_canceled_before rd_result read_line_error run_events]. rewrite Hpm, Hpe.
    destruct (fn ev st) as [[e|] st']; [done|]. apply IH.
Qed.
End Stream.

(** What a refusal for its version looks like. *)
Definition refused_for_version (f : Frame) : bool :=
  match f with
  | Final r => match rs_Error r with Some (VersionNotSupported _) | Some (RequiresVersion _) => true | _ => false end
  | StreamEvent _ => false
  end.

Lemma client_command_of_text c : command_of (runes_of (Cmd_text c)) = Some c.
Proof. by destruct c; vm_compute. Qed.

(** Whatever the handler implements and answers, the server refuses no request of
    the client's methods for the version it asks for. *)
Theorem client_speaks_the_servers_version {Args Reply_ H} `{!Codec Args Reply_} (handler : Handler Args Reply_ H) c resolveOnly args h :
  (call_version c resolveOnly ≤ ProtoVersion)%Z ∧
  Forall (λ f, refused_for_version f = false) (oc_frames (dispatch handler (call_request c resolveOnly args) h)).
Proof.
  split; [by destruct c, resolveOnly|]. unfold dispatch. cbn [rq_Cmd call_request]. rewrite client_command_of_text.
  assert (Hattach : ∀ a h, Forall (λ f, refused_for_version f = false) (oc_frames (call_attach handler a h))).
  { intros a h'. unfold call_attach. destruct (hd_attach handler a h') as [[events e] h'']. cbn [oc_frames]. apply Forall_app. split; [|by destruct e; repeat constructor].
    rewrite Forall_fmap. by apply Forall_true. }
  assert (Hreply : ∀ c a h, Forall (λ f, refused_for_version f = false) (oc_frames (call_reply handler c a h))).
  { intros c' a h'. unfold call_reply. destruct (hd_reply handler c' a h') as [[r|e] h'']; cbn; unfold writeResult; repeat case_match; by repeat constructor. }
  assert (Hok : ∀ c a h, Forall (λ f, refused_for_version f = false) (oc_frames (call_ok handler c a h))).
  { intros c' a h'. unfold call_ok. destruct (hd_act handler c' a h') as [[e|] h'']; cbn; unfold writeResult; repeat case_match; by repeat constructor. }
  assert (Hplain : ∀ c a h, Forall (λ f, refused_for_version f = false) (oc_frames (call_plain handler c a h))).
  { intros c' a h'. unfold call_plain. destruct (hd_act handler c' a h') as [[e|] h'']; cbn; by repeat constructor. }
  assert (Hrefuse : ∀ p code (h : H), match p with VersionNotSupported _ | RequiresVersion _ => False | _ => True end →
    Forall (λ f, refused_for_version f = false) (oc_frames (refuse (Args:=Args) p code h))).
  { intros p code h' Hp. cbn. repeat constructor. by destruct p. }
  destruct c; unfold dispatchDrive, dispatchQuery, dispatchCalibration, dispatchHook, with_args; cbn [rq_ProtoVersion call_request call_version];
    try (destruct resolveOnly); cbn [projectEnsureProtoVersion Z.ltb Z.compare DriveProtoVersion ProtoVersion QueryProtoVersion HookProtoVersion ResolveOnlyProtoVersion];
    repeat case_match; first [by apply Hreply|by apply Hok|by apply Hplain|by apply Hattach|by apply Hrefuse|done].
Qed.

(** Two events and the end of the stream, from their bytes. *)
Definition json_text (s : string) : Bytes := (λ c, if decide (c = "'"%char) then QUOTE else c) <$> chars s.
Definition collect (ev : jtree) (seen : list jtree) : option unit * list jtree := (None, seen ++ [ev]).
Example two_events :
  Attach collect true true (arrived <$> [json_text "{'event':{'id':1}}"; json_text "{'event':{'id':2}}"; json_text "{'ok':true}"]) [] =
  Some (Ok tt, [JObj [(chars "id", JAtom (chars "1"))]; JObj [(chars "id", JAtom (chars "2"))]]).
Proof. vm_compute. reflexivity. Qed.
Example refused_stream :
  Attach collect true true [arrived (json_text "{'ok':false,'error':'no'}")] [] = Some (Err (ClientRefused (runes_of "no")), []).
Proof. vm_compute. reflexivity. Qed.
