(* ===== verification/Contain.v ===== *)
(** * The write boundary of a provider: [internal/contain]

    Which paths a policy may grant, how a command is wrapped - the argument vector of
    the Landlock helper and its parsing, the Seatbelt profile - and the helper, from
    the ruleset to the exec. The file system, the home directory and the system
    calls are given. *)
From S2P Require Import Prelude GoLib FilePath.

(** ** Policies *)

Record Policy := mkPolicy { po_Root : string; po_ExtraWritable : list string }.

Inductive ContainError :=
| ErrRootNotAbsolute (root : string) | RootUnresolved (root : string) | RootUnreadable (root : string) | ErrRootNotDirectory (root : string)
| ErrExtraPathNotAbsolute (path : string) | ErrExtraPathTooBroad (path : string)
| ErrContainmentUnavailable | SelfUnknown.

(** [EvalSymlinks], [Stat]'s [IsDir] and [UserHomeDir], none on an error. *)
Class Host := {
  EvalSymlinks : string → option string;
  StatIsDir : string → option bool;
  UserHomeDir : option string }.

Definition elems (path : string) : list string := base.filter (λ e, e ≠ "") (Split slash (Clean path)).
Fixpoint strip_common (base targ : list string) : list string * list string :=
  match base, targ with
  | b :: base', t :: targ' => if decide (b = t) then strip_common base' targ' else (base, targ)
  | _, _ => (base, targ)
  end.
(** [filepath.Rel] from an absolute path. *)
Definition Rel (base targ : string) : option string :=
  if decide (Clean base = Clean targ) then Some "."
  else if negb (IsAbs (Clean targ)) then None
  else let '(up, down) := strip_common (elems base) (elems targ) in Some (Join "/" (replicate (length up) ".." ++ down)).

(** [isAncestor]. *)
Definition isAncestor (dir target : string) : bool :=
  match Rel dir target with
  | None => false
  | Some rel => negb (bool_decide (rel = "..")) && negb (HasPrefix rel "../") && negb (bool_decide (rel = "."))
  end.

Section Policy.
Context `{Host}.

Definition resolvedHome (home : string) : string := default (Clean home) (EvalSymlinks home).

Definition checkExtraBreadth (path : string) : option ContainError :=
  let cleaned := Clean path in
  if decide (cleaned = "/") then Some (ErrExtraPathTooBroad path)
  else match UserHomeDir with
       | None => None
       | Some home =>
           if decide (home = "") then None
           else if bool_decide (cleaned = Clean home) || bool_decide (cleaned = resolvedHome home) || isAncestor cleaned (resolvedHome home)
           then Some (ErrExtraPathTooBroad path) else None
       end.

Definition resolveExtraWritable (raw : string) : result ContainError string :=
  if negb (IsAbs raw) then Err (ErrExtraPathNotAbsolute raw)
  else let cleaned := Clean raw in
       match checkExtraBreadth cleaned with
       | Some e => Err e
       | None =>
           match EvalSymlinks cleaned with
           | Some resolved => match checkExtraBreadth resolved with Some e => Err e | None => Ok resolved end
           | None => Ok cleaned
           end
       end.

Fixpoint resolve_extras (extra : list string) : result ContainError (list string) :=
  match extra with
  | [] => Ok []
  | raw :: extra' => try grant := resolveExtraWritable raw in try grants := resolve_extras extra' in Ok (grant :: grants)
  end.

Definition NewPolicy (root : string) (extra : list string) : result ContainError Policy :=
  if negb (IsAbs root) then Err (ErrRootNotAbsolute root)
  else match EvalSymlinks root with
       | None => Err (RootUnresolved root)
       | Some resolved =>
           match StatIsDir resolved with
           | None => Err (RootUnreadable resolved)
           | Some false => Err (ErrRootNotDirectory resolved)
           | Some true => try grants := resolve_extras extra in Ok (mkPolicy resolved grants)
           end
       end.
End Policy.

(** ** Wrapping: Linux *)

Definition helperFlag : string := "--radioactive-ralph-contain-exec".

(** The command and its arguments to start instead; [self] is [os.Executable]. *)
Definition wrapCommand_linux (available : bool) (self : option string) (p : Policy) (name : string) (args : list string)
    : result ContainError (string * list string) :=
  if negb available then Err ErrContainmentUnavailable
  else match self with
       | None => Err SelfUnknown
       | Some self => Ok (self, [helperFlag; po_Root p; Itoa (Z.of_nat (length (po_ExtraWritable p)))] ++ po_ExtraWritable p ++ [name] ++ args)
       end.

(** [Wrap] over a platform's [wrapCommand]. *)
Definition Wrap (wrap : Policy → string → list string → result ContainError (string * list string)) (p : Policy) (name : string) (args : list string)
    : result ContainError (string * list string) :=
  if decide (po_Root p = "") then Err (ErrRootNotAbsolute "") else wrap p name args.

(** What becomes of an argument vector; a slice out of range is a panic. *)
Inductive Invocation := NotHelper | Helper (root : string) (extra command : list string) | Panics.

Definition parseHelperInvocation (argv : list string) : Invocation :=
  let len := Z.of_nat (length argv) in
  match argv with
  | _ :: flag :: root :: count :: rest =>
      if (len <? 5)%Z || negb (bool_decide (flag = helperFlag)) then NotHelper
      else match Atoi count with
           | None => NotHelper
           | Some n =>
               if (n <? 0)%Z || (len <? wrap64 (wrap64 (4 + n) + 1))%Z then NotHelper
               else if (wrap64 (4 + n) <? 4)%Z || (len <? wrap64 (4 + n))%Z then Panics
               else match drop (Z.to_nat n) rest with
                    | [] => NotHelper
                    | command => Helper root (take (Z.to_nat n) rest) command
                    end
           end
  | _ => NotHelper
  end.

(** ** Wrapping: macOS *)

Definition dquote : string := String "034" "".
Definition newline : string := String "010" "".
(** The profile's lines, [denyWritesOutsideRoot]. *)
Definition denyWritesOutsideRoot : string :=
  "(version 1)" +:+ newline +:+ "(allow default)" +:+ newline +:+ "(deny file-write*)" +:+ newline +:+
  "(allow file-write* (subpath (param " +:+ dquote +:+ "ROOT" +:+ dquote +:+ ")))" +:+ newline +:+
  "(allow file-write-data (literal " +:+ dquote +:+ "/dev/null" +:+ dquote +:+ ") (literal " +:+ dquote +:+ "/dev/dtracehelper" +:+ dquote +:+ "))" +:+ newline +:+
  "(allow file-write* (regex #" +:+ dquote +:+ "^/dev/tty" +:+ dquote +:+ "))" +:+ newline.
Definition extra_key (i : nat) : string := "EXTRA_" +:+ Itoa (Z.of_nat i).
Definition extra_rule (i : nat) : string := "(allow file-write* (subpath (param " +:+ dquote +:+ extra_key i +:+ dquote +:+ ")))" +:+ newline.

Definition profile_of (extras : nat) : string := foldl (λ profile i, profile +:+ extra_rule i) denyWritesOutsideRoot (seq 0 extras).
Definition sandboxExec : string := "/usr/bin/sandbox-exec".
Definition wrapCommand_darwin (available : bool) (p : Policy) (name : string) (args : list string) : result ContainError (string * list string) :=
  if negb available then Err ErrContainmentUnavailable
  else Ok (sandboxExec,
           ["-p"; profile_of (length (po_ExtraWritable p)); "-D"; "ROOT=" +:+ po_Root p] ++
           concat (imap (λ i extra, ["-D"; extra_key i +:+ "=" +:+ extra]) (po_ExtraWritable p)) ++ ["--"; name] ++ args).

(** ** The Landlock helper *)

Definition bit (k : Z) : Z := Z.shiftl 1 k.
Definition fsExecute := bit 0.
Definition fsWriteFile := bit 1.
Definition fsReadFile := bit 2.
Definition fsReadDir := bit 3.
Definition fsRemoveDir := bit 4.
Definition fsRemoveFile := bit 5.
Definition fsMakeChar := bit 6.
Definition fsMakeDir := bit 7.
Definition fsMakeReg := bit 8.
Definition fsMakeSock := bit 9.
Definition fsMakeFifo := bit 10.
Definition fsMakeBlock := bit 11.
Definition fsMakeSym := bit 12.
Definition fsRefer := bit 13.
Definition fsTruncate := bit 14.
Definition fsIoctlDev := bit 15.
Definition fsWriteBits : Z :=
  foldr Z.lor 0%Z [fsWriteFile; fsRemoveDir; fsRemoveFile; fsMakeChar; fsMakeDir; fsMakeReg; fsMakeSock; fsMakeFifo; fsMakeBlock; fsMakeSym; fsRefer; fsTruncate].
Definition fsABI6Bits : Z := 65535.
Definition fsBitsThroughABI (abi : Z) : Z :=
  if (5 <=? abi)%Z then fsABI6Bits else if (abi =? 4)%Z then 32767 else if (abi =? 3)%Z then 32767 else if (abi =? 2)%Z then 16383 else 8191.

(** What the kernel answers the helper: the ABI, none without Landlock, and whether
    each call succeeds; an open answers a descriptor. *)
Record Kernel := mkKernel {
  kn_abi : option Z;
  kn_create : bool;
  kn_open : string → option Z;
  kn_add : string → Z → bool;
  kn_no_new_privs : bool;
  kn_restrict : bool;
  kn_exec : list string → bool }.

Inductive HelperError := HelperUnavailable | HelperCreate | HelperOpen (dir : string) | HelperDescriptor (dir : string) | HelperRule (dir : string)
| HelperPrivs | HelperEnforce | HelperNoCommand | HelperExec.

(** [available] on Linux. *)
Definition available (k : Kernel) : bool := match kn_abi k with Some abi => (1 <=? abi)%Z | None => false end.

(** [allowWritesBeneath]: the rule added. *)
Definition allowWritesBeneath (k : Kernel) (dir : string) (handled : Z) : result HelperError (string * Z) :=
  match kn_open k dir with
  | None => Err (HelperOpen dir)
  | Some fd => if (fd <? 0)%Z || (2147483647 <? fd)%Z then Err (HelperDescriptor dir)
               else if kn_add k dir handled then Ok (dir, handled) else Err (HelperRule dir)
  end.
Fixpoint allow_all (k : Kernel) (dirs : list string) (handled : Z) : result HelperError (list (string * Z)) :=
  match dirs with
  | [] => Ok []
  | dir :: dirs' => try rule := allowWritesBeneath k dir handled in try rules := allow_all k dirs' handled in Ok (rule :: rules)
  end.

(** The rights handled and the rules enforced. *)
Definition restrictSelfToRoot (k : Kernel) (root : string) (extra : list string) : result HelperError (Z * list (string * Z)) :=
  match kn_abi k with
  | None => Err HelperUnavailable
  | Some abi =>
      if (abi <? 1)%Z then Err HelperUnavailable
      else let handled := Z.land fsWriteBits (fsBitsThroughABI abi) in
           if negb (kn_create k) then Err HelperCreate
           else try rules := allow_all k (root :: extra) handled in
                try dev := allowWritesBeneath k "/dev" (Z.land fsWriteFile handled) in
                if negb (kn_no_new_privs k) then Err HelperPrivs
                else if negb (kn_restrict k) then Err HelperEnforce
                else Ok (handled, rules ++ [dev])
  end.

(** The process that goes on, if one does: the command it has become, and the ruleset
    it is under. *)
Definition RunHelperWithExtras (k : Kernel) (root : string) (extra command : list string) : result HelperError (list string * (Z * list (string * Z))) :=
  match command with
  | [] => Err HelperNoCommand
  | _ => try ruleset := restrictSelfToRoot k root extra in
         if kn_exec k command then Ok (command, ruleset) else Err HelperExec
  end.

(** [MaybeRunHelper] of a started process: none when it is no helper. *)
Definition MaybeRunHelper (k : Kernel) (argv : list string) : option (result HelperError (list string * (Z * list (string * Z)))) :=
  match parseHelperInvocation argv with
  | Helper root extra command => Some (RunHelperWithExtras k root extra command)
  | _ => None
  end.


(** ** The helper's arguments *)

(** The helper reads back the root, the grants and the command it was wrapped with,
    whatever text they are. *)
Theorem helper_argv_roundtrip self p name args program argv : (Z.of_nat (length (po_ExtraWritable p)) + Z.of_nat (length args) < 2 ^ 62)%Z →
  Wrap (wrapCommand_linux true (Some self)) p name args = Ok (program, argv) →
  program = self ∧ parseHelperInvocation (program :: argv) = Helper (po_Root p) (po_ExtraWritable p) (name :: args).
Proof.
  intros Hlen. unfold Wrap, wrapCommand_linux. case_decide as Hroot; [done|]. cbn [negb]. intros [= <- <-]. split; [done|].
  unfold parseHelperInvocation. cbn [app]. set (n := length (po_ExtraWritable p)) in *.
  rewrite Atoi_Itoa by lia.
  assert (Hl : Z.of_nat (length (self :: helperFlag :: po_Root p :: Itoa (Z.of_nat n) :: po_ExtraWritable p ++ name :: args)) = (5 + Z.of_nat n + Z.of_nat (length args))%Z).
  { cbn [length]. rewrite length_app. cbn [length]. fold n. lia. }
  rewrite Hl. rewrite bool_decide_true by done. cbn [negb orb].
  rewrite (proj2 (Z.ltb_ge _ 5)) by lia. rewrite (proj2 (Z.ltb_ge _ 0)) by lia. cbn [orb].
  rewrite (wrap64_id (4 + Z.of_nat n)) by lia. rewrite (wrap64_id (4 + Z.of_nat n + 1)) by lia.
  rewrite (proj2 (Z.ltb_ge _ (4 + Z.of_nat n + 1))) by lia. rewrite (proj2 (Z.ltb_ge _ 4)) by lia. rewrite (proj2 (Z.ltb_ge _ (4 + Z.of_nat n))) by lia. cbn [orb].
  rewrite Nat2Z.id. unfold n. rewrite drop_app_length, take_app_length. done.
Qed.

(** A count no slice can have makes the sum wrap around, and the helper panics. *)
Example huge_count_panics : parseHelperInvocation ["ralph"; helperFlag; "/root"; "9223372036854775807"; "x"] = Panics.
Proof. vm_compute. reflexivity. Qed.

(** ** The Seatbelt profile *)

(** The profile is the same whatever the paths are: they are parameters of it, one
    per grant, each bound to its path. *)
Theorem profile_is_independent_of_paths p q name args : length (po_ExtraWritable p) = length (po_ExtraWritable q) → ∃ profile,
  ∀ r, r ∈ [p; q] → ∃ params, wrapCommand_darwin true r name args = Ok (sandboxExec, ["-p"; profile; "-D"; "ROOT=" +:+ po_Root r] ++ params ++ ["--"; name] ++ args) ∧
    params = concat (imap (λ i extra, ["-D"; extra_key i +:+ "=" +:+ extra]) (po_ExtraWritable r)).
Proof.
  intros Hlen. exists (profile_of (length (po_ExtraWritable p))). intros r [->|[->|[]%elem_of_nil]%elem_of_cons]%elem_of_cons; eexists; (split; [|reflexivity]); unfold wrapCommand_darwin; cbn [negb];
    by rewrite ?Hlen.
Qed.

(** ** Breadth *)

Definition rooted (p : string) : Prop := IsAbs p = true.

Lemma elems_abs_path es : Forall plain es → elems (abs_path es) = es.
Proof.
  intros He. unfold elems. rewrite Clean_abs_path by done. rewrite Split_abs_path by done. rewrite filter_cons_False by (intros H; by apply H).
  destruct es as [|e es]; [done|]. apply filter_all. intros x Hx. rewrite Forall_forall in He. by destruct (He x Hx).
Qed.

Lemma Clean_elems p : rooted p → Forall plain (elems p) ∧ Clean p = abs_path (elems p).
Proof.
  intros Hp. destruct (Clean_rooted p Hp) as (es & He & Hc). assert (Hes : elems p = es).
  { transitivity (elems (abs_path es)); [|by apply elems_abs_path]. unfold elems. by rewrite Hc, Clean_abs_path. }
  by rewrite Hes.
Qed.

Lemma strip_common_spec base targ : ∃ common, base = common ++ (strip_common base targ).1 ∧ targ = common ++ (strip_common base targ).2 ∧
  (∀ b t, head (strip_common base targ).1 = Some b → head (strip_common base targ).2 = Some t → b ≠ t).
Proof.
  revert targ. induction base as [|b base IH]; intros targ; [exists []; cbn; split_and!; [done|by destruct targ|by destruct targ]|].
  destruct targ as [|t targ]; [exists []; cbn; by split_and!|]. cbn [strip_common]. case_decide as Hbt.
  - destruct (IH targ) as (common & H1 & H2 & H3). exists (b :: common). cbn. split_and!; [by f_equal|subst; by f_equal|done].
  - exists []. cbn. split_and!; [done|done|]. intros ? ? [= <-] [= <-]. done.
Qed.

Lemma Join_dots_prefix n es : 0 < n → Forall plain es →
  Join "/" (replicate n ".." ++ es) = ".." ∨ HasPrefix (Join "/" (replicate n ".." ++ es)) "../" = true.
Proof.
  intros Hn He. destruct n as [|n]; [lia|]. cbn [replicate app]. destruct (replicate n ".." ++ es) as [|x l]; [by left|]. right.
  rewrite Join_cons by done. by destruct (Join "/" (x :: l)).
Qed.

(** [isAncestor] on absolute paths: the directory's elements are a proper prefix of
    the target's. *)
Lemma isAncestor_spec dir target : rooted dir → rooted target →
  isAncestor dir target = true ↔ ∃ e rest, elems target = elems dir ++ e :: rest.
Proof.
  intros Hd Ht. destruct (Clean_elems dir Hd) as [Hpd Hcd], (Clean_elems target Ht) as [Hpt Hct]. unfold isAncestor, Rel.
  assert (Habs : IsAbs (Clean target) = true) by (rewrite Hct; apply abs_path_rooted). rewrite Habs. cbn [negb].
  case_decide as Heq.
  { rewrite Hcd, Hct in Heq. apply abs_path_inj in Heq; [|done|done]. rewrite bool_decide_false by done. cbn. split; [done|].
    intros (e & rest & H). rewrite <- Heq in H. apply (f_equal length) in H. rewrite length_app in H. cbn in H. lia. }
  destruct (strip_common_spec (elems dir) (elems target)) as (common & H1 & H2 & H3). destruct (strip_common _ _) as [up down]. cbn [fst snd] in *.
  assert (Hdown : Forall plain down) by (rewrite H2 in Hpt; by apply Forall_app in Hpt as [_ ?]).
  destruct up as [|u up].
  - rewrite app_nil_r in H1. cbn [length replicate app]. destruct down as [|d down].
    { rewrite app_nil_r in H2. exfalso. apply Heq. rewrite Hcd, Hct. congruence. }
    split; [|intros _].
    + intros _. exists d, down. by rewrite H2, H1.
    + apply Forall_cons in Hdown as [(Hd1 & Hd2 & Hd3 & Hd4) Hdown].
      assert (Hj : ∀ x, x ∈ [".."; "."] → Join "/" (d :: down) ≠ x).
      { intros x Hx Hj. destruct down as [|d' down]; [cbn in Hj; subst; set_solver|]. rewrite Join_cons in Hj by done.
        apply (f_equal (λ s, slash ∈ chars s)) in Hj. rewrite !chars_app in Hj. assert (Hin : slash ∈ chars d ++ chars "/" ++ chars (Join "/" (d' :: down))).
        { apply elem_of_app. right. apply elem_of_app. left. by left. }
        rewrite Hj in Hin. apply elem_of_cons in Hx as [->|Hx%list_elem_of_singleton]; [|subst]; cbn in Hin; set_solver. }
      rewrite !bool_decide_false by (apply Hj; set_solver). cbn [negb andb]. rewrite andb_true_r.
      destruct (HasPrefix (Join "/" (d :: down)) "../") eqn:Hp; [|done]. exfalso. apply HasPrefix_app in Hp as [t Hp].
      apply (f_equal (Split slash)) in Hp. rewrite Split_Join in Hp; [|done|].
      2: { constructor; [done|]. eapply Forall_impl; [exact Hdown|]. by intros x (_ & _ & _ & ?). }
      change (".." +:+ "/" +:+ t) with (".." +:+ "/" +:+ t) in Hp. change ("../" +:+ t) with (".." +:+ "/" +:+ t) in Hp. rewrite Split_cut in Hp.
      cbn in Hp. injection Hp as Hp _. done.
  - split.
    + destruct (Join_dots_prefix (length (u :: up)) down) as [Hj|Hj]; [cbn; lia|done| |]; rewrite Hj; [by rewrite bool_decide_true|by rewrite andb_false_r].
    + intros (e & rest & H). exfalso. rewrite H2, H1, <- app_assoc in H. apply app_inv_head in H. cbn in H. subst down. exact (H3 u u eq_refl eq_refl eq_refl).
Qed.

(** What [checkExtraBreadth] lets pass is not the root of the file system, not the
    home directory as it is spelled, and neither the directory home resolves to nor
    one it is in. *)
Lemma checkExtraBreadth_sound `{Host} path home : rooted path → checkExtraBreadth path = None → UserHomeDir = Some home → home ≠ "" →
  rooted (resolvedHome home) → Clean (resolvedHome home) = resolvedHome home →
  elems path ≠ [] ∧ Clean path ≠ Clean home ∧ ¬ elems path `prefix_of` elems (resolvedHome home).
Proof.
  intros Hp Hc Hh Hne Hr Hcr. unfold checkExtraBreadth in Hc. rewrite Hh in Hc. case_decide as Hroot; [done|]. rewrite decide_False in Hc by done.
  destruct (_ || _) eqn:Hb; [done|]. apply orb_false_iff in Hb as [[Hb1 Hb2]%orb_false_iff Hb3].
  apply bool_decide_eq_false in Hb1, Hb2. destruct (Clean_elems path Hp) as [Hpl Hcl], (Clean_elems _ Hr) as [_ Hcr']. split_and!; [|done|].
  - intros He. apply Hroot. by rewrite Hcl, He.
  - intros [[|e rest] Hk].
    + rewrite app_nil_r in Hk. apply Hb2. by rewrite Hcl, <- Hk, <- Hcr', Hcr.
    + assert (Hanc : isAncestor (Clean path) (resolvedHome home) = true); [|congruence].
      apply isAncestor_spec; [unfold rooted; rewrite Hcl; apply abs_path_rooted|done|]. exists e, rest. rewrite Hk. f_equal.
      rewrite Hcl. by rewrite elems_abs_path.
Qed.

(** A policy's root is a directory, and each grant is what its declaration resolves
    to, or its spelling where that does not resolve; no grant is the whole file system
    or has the home directory in it. [EvalSymlinks] answers clean paths, absolute ones
    for absolute ones. *)
Theorem grants_are_narrow `{Host} root extra p home :
  (∀ q r, rooted q → EvalSymlinks q = Some r → rooted r ∧ Clean r = r) → UserHomeDir = Some home → rooted home →
  NewPolicy root extra = Ok p →
  rooted (po_Root p) ∧ EvalSymlinks root = Some (po_Root p) ∧ StatIsDir (po_Root p) = Some true ∧
  Forall2 (λ raw grant, rooted raw ∧ rooted grant ∧ grant = default (Clean raw) (EvalSymlinks (Clean raw)) ∧
                        elems grant ≠ [] ∧ ¬ elems grant `prefix_of` elems (resolvedHome home)) extra (po_ExtraWritable p).
Proof.
  intros Heval Hh Habs Hn. unfold NewPolicy in Hn. destruct (IsAbs root) eqn:Hroot; [|done]. cbn [negb] in Hn.
  destruct (EvalSymlinks root) as [resolved|] eqn:He; [|done]. destruct (StatIsDir resolved) as [[]|] eqn:Hs; [|done|done].
  apply rbind_ok in Hn as (grants & Hg & [= <-]). cbn. split_and!; [by eapply Heval|done|done|].
  assert (Hne : home ≠ "") by (by intros ->).
  assert (Hclean : ∀ q, rooted q → rooted (Clean q)).
  { intros q Hq. unfold rooted. rewrite (proj2 (Clean_elems q Hq)). apply abs_path_rooted. }
  assert (Hhome : rooted (resolvedHome home) ∧ Clean (resolvedHome home) = resolvedHome home).
  { unfold resolvedHome. destruct (EvalSymlinks home) eqn:Hr; [exact (Heval _ _ Habs Hr)|]. cbn. split; [by apply Hclean|apply Clean_idem]. }
  destruct Hhome as [Hr1 Hr2]. revert grants Hg. induction extra as [|raw extra IH]; intros grants Hg; cbn in Hg; [by simplify_eq|].
  apply rbind_ok in Hg as (grant & Hg1 & (rest & Hg2 & [= <-])%rbind_ok). constructor; [|by apply IH].
  unfold resolveExtraWritable in Hg1. destruct (IsAbs raw) eqn:Hraw; [|done]. cbn [negb] in Hg1.
  destruct (checkExtraBreadth (Clean raw)) eqn:Hc; [done|]. destruct (EvalSymlinks (Clean raw)) as [r|] eqn:Her; cbn.
  - destruct (checkExtraBreadth r) eqn:Hcr; [done|]. injection Hg1 as <-. destruct (Heval _ _ (Hclean raw Hraw) Her) as [Hrr _].
    destruct (checkExtraBreadth_sound r home) as (H1 & _ & H2); [done..|]. by split_and!.
  - injection Hg1 as <-. destruct (checkExtraBreadth_sound (Clean raw) home) as (H1 & _ & H2); [by apply Hclean|done..|].
    split_and!; [done|by apply Hclean|done..].
Qed.

(** ** The boundary *)

(** The rights to change a file tree, as Landlock numbers them, and the last one an
    ABI has. *)
Definition write_rights : list Z := [1; 4; 5; 6; 7; 8; 9; 10; 11; 12; 13; 14]%Z.
Definition last_right (abi : Z) : Z := if (3 <=? abi)%Z then 14 else 11 + abi.

Lemma handled_rights abi i : (1 ≤ abi)%Z → (0 ≤ i)%Z →
  Z.testbit (Z.land fsWriteBits (fsBitsThroughABI abi)) i = bool_decide (i ∈ write_rights) && (i <=? last_right abi)%Z.
Proof.
  intros Habi Hi. destruct (decide (16 ≤ i)%Z) as [Hbig|Hsmall].
  - rewrite bool_decide_false by (unfold write_rights; rewrite !elem_of_cons, elem_of_nil; lia). rewrite Z.land_spec. cbn [andb].
    rewrite (Z.bits_above_log2 fsWriteBits); [done|done|]. change (Z.log2 fsWriteBits) with 14%Z. lia.
  - unfold fsBitsThroughABI, last_right. assert (Hc : i ∈ seqZ 0 16) by (apply elem_of_seqZ; lia).
    destruct (Z.leb_spec 5 abi); [rewrite (proj2 (Z.leb_le 3 abi)) by lia|].
    2: assert (abi = 1 ∨ abi = 2 ∨ abi = 3 ∨ abi = 4)%Z as [->|[->|[->| ->]]] by lia; cbn [Z.leb Z.eqb Z.compare Pos.compare Pos.compare_cont Pos.eqb].
    all: clear Hi Hsmall; revert i Hc; apply Forall_forall; vm_compute; repeat constructor.
Qed.

(** The kernel opens a directory and takes the rule on it. *)
Definition grantable (k : Kernel) (dir : string) (rights : Z) : Prop :=
  ∃ fd, kn_open k dir = Some fd ∧ (0 ≤ fd ≤ 2147483647)%Z ∧ kn_add k dir rights = true.

Lemma allowWritesBeneath_ok k dir rights rule :
  allowWritesBeneath k dir rights = Ok rule ↔ rule = (dir, rights) ∧ grantable k dir rights.
Proof.
  unfold allowWritesBeneath, grantable. destruct (kn_open k dir) as [fd|]; [|naive_solver].
  destruct (Z.ltb_spec fd 0), (Z.ltb_spec 2147483647 fd); cbn [orb]; [naive_solver lia..|]. destruct (kn_add k dir rights); [|naive_solver].
  split; [intros [= <-]; naive_solver lia|by intros [-> _]].
Qed.

Lemma allow_all_ok k dirs rights rules :
  allow_all k dirs rights = Ok rules ↔ rules = ((., rights) <$> dirs) ∧ Forall (λ dir, grantable k dir rights) dirs.
Proof.
  revert rules. induction dirs as [|dir dirs IH]; intros rules; cbn [allow_all]; [rewrite Forall_nil; naive_solver|].
  rewrite rbind_ok. rewrite Forall_cons, fmap_cons. setoid_rewrite rbind_ok. setoid_rewrite allowWritesBeneath_ok. setoid_rewrite IH. naive_solver.
Qed.

(** What it takes for a wrapped command to run: every call the helper makes succeeds. *)
Definition confinable (k : Kernel) (p : Policy) (abi : Z) (command : list string) : Prop :=
  let handled := Z.land fsWriteBits (fsBitsThroughABI abi) in
  kn_abi k = Some abi ∧ (1 ≤ abi)%Z ∧ kn_create k = true ∧
  Forall (λ dir, grantable k dir handled) (po_Root p :: po_ExtraWritable p) ∧ grantable k "/dev" (Z.land fsWriteFile handled) ∧
  kn_no_new_privs k = true ∧ kn_restrict k = true ∧ kn_exec k command = true.

Lemma RunHelper_ok k p name args x : RunHelperWithExtras k (po_Root p) (po_ExtraWritable p) (name :: args) = Ok x ↔
  ∃ abi, confinable k p abi (name :: args) ∧
    let handled := Z.land fsWriteBits (fsBitsThroughABI abi) in
    x = (name :: args, (handled, ((., handled) <$> po_Root p :: po_ExtraWritable p) ++ [("/dev", Z.land fsWriteFile handled)])).
Proof.
  unfold RunHelperWithExtras, restrictSelfToRoot, confinable. destruct (kn_abi k) as [abi|]; [|naive_solver].
  destruct (Z.ltb_spec abi 1); [naive_solver lia|]. cbn zeta. set (h := Z.land fsWriteBits _).
  assert (Habi : ∀ Q : Z → Prop, (∃ abi', Some abi = Some abi' ∧ Q abi') ↔ Q abi) by naive_solver.
  split.
  - intros (ruleset & Hr & Hx)%rbind_ok. destruct (kn_create k) eqn:Hcr; [|done]. cbn [negb] in Hr.
    apply rbind_ok in Hr as (rules & [-> Hall]%allow_all_ok & (dev & [-> Hdev]%allowWritesBeneath_ok & Hr)%rbind_ok).
    destruct (kn_no_new_privs k) eqn:Hp; [|done]. destruct (kn_restrict k) eqn:Hres; [|done]. injection Hr as <-.
    destruct (kn_exec k _) eqn:He; [|done]. injection Hx as <-. exists abi. by split_and!.
  - intros (abi' & ([= <-] & _ & Hcr & Hall & Hdev & Hp & Hres & He) & ->). fold h in Hall, Hdev |- *. rewrite Hcr, Hp, Hres. cbn [negb].
    rewrite (proj2 (allow_all_ok _ _ _ _) (conj eq_refl Hall)). cbn [rbind]. rewrite (proj2 (allowWritesBeneath_ok _ _ _ _) (conj eq_refl Hdev)). cbn [rbind].
    by rewrite He.
Qed.

(** C20: A command wrapped on Linux runs confined or not at all. The program started
    instead knows itself for the helper, whatever the command's own arguments are; it
    becomes the command, word for word, exactly when every call to the kernel
    succeeds; and then the ruleset it is under handles the rights to change a file tree
    that the kernel knows and no other, grants those beneath the root and each declared
    path, the writing of files alone beneath [/dev], and nothing anywhere else. *)
Theorem wrapped_command_is_confined k self p name args program argv : (Z.of_nat (length (po_ExtraWritable p)) + Z.of_nat (length args) < 2 ^ 62)%Z →
  Wrap (wrapCommand_linux (available k) (Some self)) p name args = Ok (program, argv) →
  program = self ∧
  ∃ outcome, MaybeRunHelper k (program :: argv) = Some outcome ∧ (is_ok outcome = true ↔ ∃ abi, confinable k p abi (name :: args)) ∧
    ∀ command handled rules, outcome = Ok (command, (handled, rules)) → command = name :: args ∧
      ∃ dev, rules = ((., handled) <$> po_Root p :: po_ExtraWritable p) ++ [("/dev", dev)] ∧
      ∀ right, (0 ≤ right)%Z → (Z.testbit handled right = true ↔ right ∈ write_rights ∧ ∀ abi, kn_abi k = Some abi → (right ≤ last_right abi)%Z) ∧
                               (Z.testbit dev right = true ↔ right = 1%Z).
Proof.
  intros Hlen Hw. assert (Hhelper : program = self ∧ parseHelperInvocation (program :: argv) = Helper (po_Root p) (po_ExtraWritable p) (name :: args)).
  { apply helper_argv_roundtrip; [done|]. unfold Wrap, wrapCommand_linux in *. case_decide; [done|]. by destruct (available k). }
  destruct Hhelper as [-> Hh]. split; [done|]. unfold MaybeRunHelper. rewrite Hh. eexists. split; [done|]. split.
  - destruct (RunHelperWithExtras _ _ _ _) as [x|e] eqn:Hrun; cbn; split; [intros _|done|done|].
    + apply RunHelper_ok in Hrun as (abi & Hc & _). by exists abi.
    + intros [abi Hc]. assert (Hok := proj2 (RunHelper_ok k p name args _) (ex_intro _ abi (conj Hc eq_refl))). congruence.
  - intros command handled rules (abi & (Habi & Hge & _) & [= -> -> ->])%RunHelper_ok. split; [done|]. eexists. split; [done|]. intros right Hright. split.
    + rewrite handled_rights by done. rewrite andb_true_iff, bool_decide_eq_true, Z.leb_le. rewrite Habi. naive_solver.
    + rewrite Z.land_spec, handled_rights by done. change fsWriteFile with (2 ^ 1)%Z. rewrite Z.pow2_bits_eqb by lia. destruct (Z.eqb_spec 1 right) as [<-|Hne]; cbn [andb].
      * rewrite bool_decide_true by (unfold write_rights; set_solver). rewrite (proj2 (Z.leb_le 1 (last_right abi))) by (unfold last_right; destruct (_ <=? _)%Z; lia). done.
      * split; [done|]. intros ->. done.
Qed.

Definition open_kernel : Kernel := mkKernel (Some 3%Z) true (λ _, Some 7%Z) (λ _ _, true) true true (λ _, true).
Theorem wrapped_command_is_confined_witness : let p := mkPolicy "/work/tree" ["/home/u/.codex"] in ∃ argv,
  Wrap (wrapCommand_linux (available open_kernel) (Some "/bin/ralph")) p "/bin/codex" [helperFlag; "9"] = Ok ("/bin/ralph", argv) ∧
  ∃ outcome, MaybeRunHelper open_kernel ("/bin/ralph" :: argv) = Some outcome ∧ (is_ok outcome = true ↔ ∃ abi, confinable open_kernel p abi ["/bin/codex"; helperFlag; "9"]).
Proof.
  eexists. split; [reflexivity|].
  destruct (wrapped_command_is_confined open_kernel "/bin/ralph" (mkPolicy "/work/tree" ["/home/u/.codex"]) "/bin/codex" [helperFlag; "9"] "/bin/ralph"
    [helperFlag; "/work/tree"; "1"; "/home/u/.codex"; "/bin/codex"; helperFlag; "9"]) as (_ & outcome & H1 & H2 & _); [cbn; lia|vm_compute; reflexivity|].
  by exists outcome.
Defined.

(** A grant that does not exist yet passes [NewPolicy], and then no command runs under
    the policy: the helper cannot open it. *)
Theorem missing_grant_stops_the_command k self p name args program argv missing : (Z.of_nat (length (po_ExtraWritable p)) + Z.of_nat (length args) < 2 ^ 62)%Z →
  missing ∈ po_ExtraWritable p → kn_open k missing = None →
  Wrap (wrapCommand_linux true (Some self)) p name args = Ok (program, argv) →
  ∃ e, MaybeRunHelper k (program :: argv) = Some (Err e).
Proof.
  intros Hlen Hm Ho Hw. unfold MaybeRunHelper. destruct (helper_argv_roundtrip self p name args program argv Hlen Hw) as [_ ->].
  destruct (RunHelperWithExtras _ _ _ _) as [x|e] eqn:Hrun; [|by exists e]. apply RunHelper_ok in Hrun as (abi & (_ & _ & _ & Hall & _) & _).
  rewrite Forall_forall in Hall. destruct (Hall missing) as (fd & H & _); [by right|congruence].
Qed.
