(* ===== verification/Adapters.v ===== *)
(** * The provider's side of a managed turn: [internal/adapters]

    A provider's hook asks the supervisor and tells the provider what it may do
    ([hook.go]); the launcher runs the managed OpenCode in an environment of its own,
    waits for every descendant, and exits with success only on the supervisor's word
    ([opencode_launcher.go]); the runtime directory it does this in
    ([opencode_runtime.go]). Files, processes and the supervisor's answers are given. *)
From stdpp Require Import sorting.
From S2P Require Import Prelude GoLib GoJson FilePath CodexDiagProps Declarative RunnerIo RunnersProps SupHooks Contain.

(** ** The hook *)

Definition println (text : Bytes) : Bytes := text ++ ["010"%char].

(** What [RunHook] leaves behind: whether it is [ErrBlocked], and what it printed. *)
Record HookOut := mkHookOut { ho_blocked : bool; ho_stdout : Bytes; ho_stderr : Bytes }.
Definition allowed : HookOut := mkHookOut false [] [].

Definition openCodeStatuses : list string :=
  ["invalid_event"; "internal_error"; "not_managed"; "adapter_mismatch"; "worker_missing"; "ownership_changed"; "verification_started";
   "verification_pending"; "verification_failed"; "verification_required"; "supervisor_unavailable"].
Definition finiteOpenCodeStatus (reason : string) : string :=
  if decide (reason ∈ openCodeStatuses) then reason else "supervisor_unavailable".

(** The message that carries a status, as [block] and [writeOpenCodeStatus] print it. *)
Definition status_message (status : string) : Bytes :=
  println (json_object [json_member "status" (json_string (finiteOpenCodeStatus status))]).

Definition blockReason : string := "Radioactive Ralph verification is not complete.".
Definition block (adapter reasonCode : string) : HookOut :=
  if decide (adapter = "claude") then mkHookOut true [] (println (chars blockReason))
  else if decide (adapter = "codex")
  then mkHookOut false (println (json_object [json_member "decision" (json_string "block"); json_member "reason" (json_string blockReason)])) []
  else if decide (adapter = "opencode") then mkHookOut true (status_message reasonCode) []
  else mkHookOut true [] (println (chars blockReason)).

Definition validAdapter (adapter : string) : bool := bool_decide (adapter ∈ ["claude"; "codex"; "opencode"]).

Definition maxHookInputBytes : Z := 2 ^ 20.
Definition set_event_member (st : list Z * bool) (m : Bytes * jtree) : list Z * bool :=
  if names m.1 "hook_event_name" then let '(v, ok) := set_string m.2 st.1 in (v, st.2 && ok) else st.
(** The input, none when reading fails; a byte over the limit is read, and refused. *)
Definition validPayload (input : option Bytes) (event : string) : bool :=
  match input with
  | None => false
  | Some raw =>
      if (len raw =? 0)%Z || (maxHookInputBytes <? len raw)%Z then false
      else match json_tree raw with
           | Some (JObj members) => let '(name, ok) := foldl set_event_member ([], true) members in ok && bool_decide (name = runes_of event)
           | Some (JAtom raw) => is_null raw && bool_decide (event = "")
           | _ => false
           end
  end.

(** What comes of the call at an endpoint. *)
Inductive HookAnswer := NoDial | CallFails | Answers (reply : HookEventReply).

Definition RunHook (supervisor : string → HookEventArgs → HookAnswer) (adapter event : string) (input : option Bytes)
    (getenv : string → string) : HookOut :=
  let sessionID := getenv ManagedSessionEnv in
  if decide (sessionID = "") then allowed
  else if negb (validAdapter adapter) || (negb (bool_decide (event = HookEventPostToolUse)) && negb (bool_decide (event = HookEventStop)))
  then block adapter "invalid_event"
  else
    let endpoint := getenv HookEndpointEnv in
    if bool_decide (endpoint = "") || negb (validPayload input event) then block adapter "invalid_event"
    else match supervisor endpoint (mkHookArgs adapter event sessionID) with
         | NoDial | CallFails => block adapter "supervisor_unavailable"
         | Answers reply =>
             if hr_allow reply then allowed
             else block adapter (if decide (hr_reason reply = "") then "supervisor_unavailable" else hr_reason reply)
         end.

(** ** Environments *)

Definition env_value (entry : string) : option string :=
  match split_at "=" (chars entry) with Some (_, value) => Some (of_chars value) | None => None end.
(** The last entry of a key counts; an entry without [=] is none. *)
Definition environmentLookup (env : list string) (key : string) : string :=
  foldl (λ found entry, match env_value entry with
                        | Some value => if decide (env_key entry = key) then value else found
                        | None => found
                        end) "" env.

Definition key_le (a b : string) : Prop := String.leb a b = true.
#[local] Instance key_le_dec : RelDecision key_le := λ a b, decide (String.leb a b = true).
Definition sorted_keys (m : gmap string string) : list string := merge_sort key_le (map_to_list m).*1.
Definition replaceEnvironment (env : list string) (replacements : gmap string string) (remove : list string) : list string :=
  base.filter (λ entry, replacements !! env_key entry = None ∧ env_key entry ∉ remove) env ++
  ((λ key, key +:+ "=" +:+ default "" (replacements !! key)) <$> sorted_keys replacements).

(** ** Files *)

Inductive FileKind := RegularFile (size : Z) | Directory | OtherFile.
Inductive StatAnswer := Found (k : FileKind) | NotExist | StatFails.

(** [Stat] and [Lstat]; the executable bit; the steps of a credential's copy: opened
    and the same regular file, the target's directory made, the target created, the
    bytes copied, synced and closed. *)
Class Files := {
  Stat : string → StatAnswer;
  Lstat : string → StatAnswer;
  regularExecutable : string → bool;
  OpenSame : string → bool;
  MkdirAll : string → bool;
  CreateExclusive : string → bool;
  CopyBytes : string → string → option Z;
  SyncAndClose : string → bool }.

Section Launch.
Context `{Files}.

Definition pathExistsOrUnknown (path : string) : bool := match Lstat path with NotExist => false | _ => true end.

Definition config_entry_points : list string :=
  ["config.json"; "opencode.json"; "opencode.jsonc"; "plugin"; "plugins"; "command"; "commands"; "agent"; "agents";
   "mode"; "modes"; "skill"; "skills"; "tool"; "tools"].
Definition home_entry_points : list string := [".opencode"; ".claude"; ".agents"].
Definition safeManagedOpenCodeDirectories (home config : string) : bool :=
  forallb (λ name, negb (pathExistsOrUnknown (JoinPath [config; name]))) config_entry_points &&
  forallb (λ name, negb (pathExistsOrUnknown (JoinPath [home; name]))) home_entry_points.

Definition maxOpenCodeAuthBytes : Z := 2 ^ 20.
(** Whether there was nothing to copy or it was copied. *)
Definition copyOpenCodeAuth (env : list string) (privateDataHome : string) : bool :=
  let data := environmentLookup env "XDG_DATA_HOME" in
  let home := environmentLookup env "HOME" in
  if bool_decide (data = "") && bool_decide (home = "") then true
  else
    let callerDataHome := if decide (data = "") then JoinPath [home; ".local"; "share"] else data in
    if negb (IsAbs callerDataHome) then false
    else
      let sourcePath := JoinPath [callerDataHome; "opencode"; "auth.json"] in
      match Lstat sourcePath with
      | NotExist => true
      | Found (RegularFile size) =>
          if (size <? 0)%Z || (maxOpenCodeAuthBytes <? size)%Z then false
          else if negb (OpenSame sourcePath) then false
          else
            let targetDir := JoinPath [privateDataHome; "opencode"] in
            let targetPath := JoinPath [targetDir; "auth.json"] in
            if negb (MkdirAll targetDir) || negb (CreateExclusive targetPath) then false
            else match CopyBytes sourcePath targetPath with
                 | Some copied => bool_decide (copied = size) && SyncAndClose targetPath
                 | None => false
                 end
      | _ => false
      end.

(** ** The URL of the plugin *)

(** [shouldEscape] in a path. *)
Definition path_byte (c : Ascii.ascii) : bool :=
  let v := byte_val c in
  ((97 <=? v) && (v <=? 122))%Z || ((65 <=? v) && (v <=? 90))%Z || ((48 <=? v) && (v <=? 57))%Z ||
  bool_decide (c ∈ chars "-_.~$&+,/:;=@").
Definition upper_hex (v : Z) : Ascii.ascii := byte_of (if v <? 10 then 48 + v else 55 + v)%Z.
Definition escape_path (path : string) : Bytes :=
  concat ((λ c, if path_byte c then [c] else ["%"%char; upper_hex (byte_val c / 16); upper_hex (byte_val c mod 16)]) <$> chars path).
Definition file_url (path : string) : string :=
  "file://" +:+ (if decide (path = "*") then "*" else of_chars (escape_path path)).

(** ** The environment of the provider *)

Record LaunchOptions := mkLaunch {
  lo_Binary : string; lo_Plugin : string; lo_Home : string; lo_ConfigDir : string;
  lo_Env : list string; lo_ProgressInterval : Z }.

Definition openCodeConfigContentEnv : string := "OPENCODE_CONFIG_CONTENT".
Definition openCodeConfigDirEnv : string := "OPENCODE_CONFIG_DIR".
Definition openCodeDisableProjectEnv : string := "OPENCODE_DISABLE_PROJECT_CONFIG".
Definition openCodePureEnv : string := "OPENCODE_PURE".
Definition openCodeProcessScopeEnv : string := "RADIOACTIVE_RALPH_PROCESS_SCOPE".

Definition plugin_config (plugin : string) : Bytes :=
  json_object [json_member "plugin" ("["%char :: json_string (file_url plugin) ++ ["]"%char])].

Definition isolation (opts : LaunchOptions) : gmap string string :=
  list_to_map
    [("HOME", lo_Home opts);
     ("XDG_CONFIG_HOME", lo_ConfigDir opts);
     ("XDG_DATA_HOME", JoinPath [lo_Home opts; ".local"; "share"]);
     ("XDG_CACHE_HOME", JoinPath [lo_Home opts; ".cache"]);
     ("XDG_STATE_HOME", JoinPath [lo_Home opts; ".local"; "state"]);
     (openCodeConfigContentEnv, of_chars (plugin_config (lo_Plugin opts)));
     (openCodeConfigDirEnv, lo_ConfigDir opts);
     (openCodeDisableProjectEnv, "1")].

Definition managedOpenCodeEnvironment (opts : LaunchOptions) : option (list string) :=
  if negb (forallb IsAbs [lo_Plugin opts; lo_Home opts; lo_ConfigDir opts]) then None
  else match Stat (lo_Plugin opts) with
       | Found (RegularFile _) =>
           if negb (forallb (λ path, match Stat path with Found Directory => true | _ => false end) [lo_Home opts; lo_ConfigDir opts]) then None
           else if negb (safeManagedOpenCodeDirectories (lo_Home opts) (lo_ConfigDir opts)) then None
           else if negb (copyOpenCodeAuth (lo_Env opts) (JoinPath [lo_Home opts; ".local"; "share"])) then None
           else Some (replaceEnvironment (lo_Env opts) (isolation opts) ["OPENCODE_CONFIG"; openCodePureEnv])
       | _ => None
       end.

(** ** The provider process *)

(** What a process ends with; all but [Exited 0] are errors of [Wait], and
    [WaitFails] is one that carries no status. *)
Inductive WaitResult := Exited (code : Z) | Signaled (signal : positive) | OtherStatus | WaitFails.
Definition succeeds (w : WaitResult) : bool := match w with Exited code => (code =? 0)%Z | _ => false end.

(** [providerExitCode], and one for an error that carries no status. *)
Definition providerExitCode (w : WaitResult) : Z :=
  match w with
  | Signaled signal => 128 + Z.pos signal
  | Exited code => if (0 <=? code)%Z then code else 1
  | OtherStatus | WaitFails => 1
  end.

(** What happens to a managed provider, step by step: the random scope and the pipes,
    the start, its exit observed without reaping it, every descendant reclaimed, the
    wait, and what the two copies of its output and the timer of their drain do. *)
Inductive Drain := Copied | CopyFails | DrainTimeout.
Record ProviderRun := mkRun {
  pr_scope : option string; pr_pipes : bool; pr_starts : bool; pr_observed : bool; pr_reclaimed : bool;
  pr_wait : WaitResult; pr_drain : Drain * Drain }.

(** [runManagedOpenCodeProvider]: the run's error, and whether control was kept. *)
Definition runManagedOpenCodeProvider (r : ProviderRun) : WaitResult * bool :=
  match pr_scope r with
  | None => (Exited 0, false)
  | Some _ =>
      if negb (pr_pipes r) then (Exited 0, false)
      else if negb (pr_starts r) then (WaitFails, true)
      else if negb (pr_observed r) then (pr_wait r, false)
      else if negb (pr_reclaimed r) then (pr_wait r, false)
      else match pr_drain r with
           | (Copied, Copied) => (pr_wait r, true)
           | _ => (pr_wait r, false)
           end
  end.
(** The environment it starts in, if it starts. *)
Definition scoped_environment (r : ProviderRun) (env : list string) : option (list string) :=
  match pr_scope r with
  | Some scope => if pr_pipes r && pr_starts r then Some (replaceEnvironment env {[openCodeProcessScopeEnv := scope]} []) else None
  | None => None
  end.

(** ** The final stop *)

Record openCodeStopPolling := mkPolling { pl_interval : Z; pl_progressInterval : Z; pl_attempts : Z; pl_timeout : Z }.
Definition openCodeStopPollInterval : Z := 2000000000.
Definition default_polling (progressInterval : Z) : openCodeStopPolling := mkPolling openCodeStopPollInterval progressInterval 360 720000000000.

Definition status_of (text : list Z) : option string := find (λ s, bool_decide (runes_of s = text)) openCodeStatuses.
Definition set_status_member (st : list Z * bool) (m : Bytes * jtree) : list Z * bool :=
  if names m.1 "status" then let '(v, ok) := set_string m.2 st.1 in (v, st.2 && ok) else (st.1, false).
Definition parseOpenCodeStatus (raw : Bytes) : string :=
  match json_tree raw with
  | Some (JObj members) =>
      let '(text, ok) := foldl set_status_member ([], true) members in
      if ok then default "supervisor_unavailable" (status_of text) else "supervisor_unavailable"
  | _ => "supervisor_unavailable"
  end.

(** The exit code, and the status written. [hook] is what [RunHook] leaves at an
    attempt, [canceled] whether the context ends the wait after it. *)
Fixpoint poll_attempts (hook : nat → HookOut) (canceled : nat → bool) (attempt remaining : nat) : Z * option string :=
  match remaining with
  | 0 => (2%Z, Some "supervisor_unavailable")
  | S remaining =>
      if negb (ho_blocked (hook attempt)) then (0%Z, None)
      else let status := parseOpenCodeStatus (ho_stdout (hook attempt)) in
           if negb (bool_decide (status = "verification_started")) && negb (bool_decide (status = "verification_pending"))
           then (2%Z, Some status)
           else if remaining =? 0 then (2%Z, Some "verification_pending")
           else if canceled attempt then (2%Z, Some "supervisor_unavailable")
           else poll_attempts hook canceled (S attempt) remaining
  end.
Definition pollOpenCodeStop (polling : openCodeStopPolling) (hook : nat → HookOut) (canceled : nat → bool) : Z * option string :=
  if (pl_attempts polling <=? 0)%Z || (pl_interval polling <? 0)%Z || (pl_progressInterval polling <=? 0)%Z || (pl_timeout polling <? 0)%Z
  then (2%Z, Some "supervisor_unavailable")
  else poll_attempts hook canceled 0 (Z.to_nat (pl_attempts polling)).

(** ** The launcher *)

(** Its exit code, the bytes it writes itself to its standard output, whether it
    writes the failure line to its standard error, and the environment the provider
    was started in, if it got that far. *)
Record Launched := mkLaunched { lx_exit : Z; lx_stdout : Bytes; lx_failure : bool; lx_env : option (list string) }.
Definition launch_fails (env : option (list string)) : Launched := mkLaunched 1 [] true env.

Definition stop_payload : Bytes := chars "{" ++ QUOTE :: chars "hook_event_name" ++ QUOTE :: chars ":" ++ QUOTE :: chars "Stop" ++ QUOTE :: chars "}".

(** [supported]: the platform; [supervisor] is what it answers at each attempt;
    [unmanaged] how the provider ends when it is not managed. *)
Definition runOpenCodeLauncher (supported : bool) (opts : LaunchOptions) (polling : openCodeStopPolling) (run : ProviderRun)
    (unmanaged : WaitResult) (supervisor : nat → string → HookEventArgs → HookAnswer) (canceled : nat → bool) : Launched :=
  let sessionID := environmentLookup (lo_Env opts) ManagedSessionEnv in
  let endpoint := environmentLookup (lo_Env opts) HookEndpointEnv in
  let managed := negb (bool_decide (sessionID = "")) && negb (bool_decide (endpoint = "")) in
  if negb (eqb (bool_decide (sessionID = "")) (bool_decide (endpoint = "")))
  then mkLaunched 2 (ho_stdout (block "opencode" "invalid_event")) false None
  else if managed && negb supported then launch_fails None
  else
    let progress := if (pl_progressInterval polling =? 0)%Z then openCodeStopPollInterval else pl_progressInterval polling in
    let polling := mkPolling (pl_interval polling) progress (pl_attempts polling) (pl_timeout polling) in
    if managed && (progress <? 0)%Z then launch_fails None
    else if negb (IsAbs (lo_Binary opts)) || negb (regularExecutable (lo_Binary opts)) then launch_fails None
    else if managed then
      match managedOpenCodeEnvironment opts with
      | None => launch_fails None
      | Some env =>
          let started := scoped_environment run env in
          match runManagedOpenCodeProvider run with
          | (_, false) => launch_fails started
          | (w, true) =>
              if succeeds w then
                let '(code, status) := pollOpenCodeStop polling
                  (λ attempt, RunHook (supervisor attempt) "opencode" "Stop" (Some stop_payload) (environmentLookup env)) canceled in
                mkLaunched code (default [] (status_message <$> status)) false started
              else mkLaunched (providerExitCode w) [] (match w with WaitFails => true | _ => false end) started
          end
      end
    else mkLaunched (providerExitCode unmanaged) [] (match unmanaged with WaitFails => true | _ => false end) (Some (lo_Env opts)).
End Launch.
Definition RunOpenCodeLauncher `{Files} (supported : bool) (opts : LaunchOptions) := runOpenCodeLauncher supported opts (default_polling (lo_ProgressInterval opts)).

(** ** The runtime directory *)

Definition openCodeRuntimePrefix : string := "launch-".
Definition isOpenCodeRuntimeChild (parent root : string) : bool :=
  match Rel parent root with
  | None => false
  | Some rel => negb (bool_decide (rel = ".")) && bool_decide (Dir rel = ".") &&
                (String.length openCodeRuntimePrefix <? String.length rel) && HasPrefix rel openCodeRuntimePrefix
  end.

(** [ResolveOpenCodeRuntime] on an absolute path: the runtime's home and its
    configuration; [private] is whether a directory's mode is 0700. *)
Definition ResolveOpenCodeRuntime `{Files} (private : string → bool) (parent root : string) : option (string * string) :=
  let root := Clean root in
  let home := JoinPath [root; "home"] in
  let config := JoinPath [root; "config"] in
  if negb (isOpenCodeRuntimeChild parent root) then None
  else if negb (forallb (λ path, match Lstat path with Found Directory => private path | _ => false end) [root; home; config]) then None
  else if negb (safeManagedOpenCodeDirectories home config) then None
  else Some (home, config).

(** ** Environments *)

Definition find_env (env : list string) (key : string) : option string :=
  foldl (λ found entry, match env_value entry with
                        | Some value => if decide (env_key entry = key) then Some value else found
                        | None => found
                        end) None env.

Lemma find_env_app a b key : find_env (a ++ b) key = match find_env b key with Some v => Some v | None => find_env a key end.
Proof.
  induction b as [|e b IH] using rev_ind; [by rewrite app_nil_r|]. rewrite app_assoc. unfold find_env in *.
  rewrite (foldl_snoc _ _ (a ++ b)), (foldl_snoc _ _ b), IH. destruct (env_value e); [|done]. by case_decide.
Qed.

Lemma find_env_cons e env key : find_env (e :: env) key = match find_env env key with Some v => Some v | None => find_env [e] key end.
Proof. exact (find_env_app [e] env key). Qed.

Lemma lookup_find env key : environmentLookup env key = default "" (find_env env key).
Proof.
  induction env as [|e env IH] using rev_ind; [done|]. unfold environmentLookup, find_env in *. rewrite !foldl_app. cbn [foldl]. rewrite IH.
  destruct (env_value e); [|done]. by case_decide.
Qed.

Lemma entry_key key value : no_char "=" key → env_key (key +:+ "=" +:+ value) = key ∧ env_value (key +:+ "=" +:+ value) = Some value.
Proof.
  intros Hk. unfold env_key, env_value. rewrite !chars_app.
  rewrite (proj2 (split_at_some "=" (chars key ++ chars "=" ++ chars value) (chars key) (chars value))) by done.
  by rewrite !of_chars_chars.
Qed.

Lemma find_entries (m : gmap string string) keys key : (∀ k, k ∈ keys → no_char "=" k) → (∀ k, k ∈ keys → is_Some (m !! k)) →
  find_env ((λ k, k +:+ "=" +:+ default "" (m !! k)) <$> keys) key = if decide (key ∈ keys) then m !! key else None.
Proof.
  induction keys as [|k keys IH]; intros Hk Hm; [done|]. rewrite fmap_cons.
  rewrite find_env_cons, IH by set_solver.
  destruct (entry_key k (default "" (m !! k))) as [He Hv]; [apply Hk; set_solver|].
  assert (Hone : find_env [k +:+ "=" +:+ default "" (m !! k)] key = if decide (k = key) then m !! key else None).
  { unfold find_env. cbn [foldl]. rewrite Hv, He. destruct (decide (k = key)) as [Heq|Heq]; [|done]. rewrite Heq. destruct (Hm key) as [v ->]; [set_solver|]. done. }
  rewrite Hone. destruct (decide (key ∈ keys)) as [Hin|Hin].
  - destruct (Hm key) as [v Hv']; [set_solver|]. rewrite Hv'. rewrite decide_True by set_solver. done.
  - destruct (decide (k = key)) as [->|Hne]; [by rewrite decide_True by set_solver|rewrite decide_False by set_solver; done].
Qed.

Lemma find_filter (P : string → Prop) `{∀ k, Decision (P k)} env key :
  find_env (base.filter (λ entry, P (env_key entry)) env) key = if decide (P key) then find_env env key else None.
Proof.
  induction env as [|e env IH]; [by case_decide|]. rewrite filter_cons, (find_env_cons e env).
  assert (Hone : find_env [e] key = match env_value e with Some v => if decide (env_key e = key) then Some v else None | None => None end) by done.
  destruct (decide (P (env_key e))) as [HP|HP].
  - rewrite find_env_cons, IH. destruct (decide (P key)) as [Hk|Hk]; [done|]. rewrite Hone. destruct (env_value e); [|done]. rewrite decide_False; [done|congruence].
  - rewrite IH. destruct (decide (P key)) as [Hk|Hk]; [|done]. rewrite Hone. destruct (find_env env key); [done|].
    destruct (env_value e); [|done]. rewrite decide_False; [done|congruence].
Qed.

Lemma elem_sorted_keys (m : gmap string string) key : key ∈ sorted_keys m ↔ is_Some (m !! key).
Proof.
  unfold sorted_keys. rewrite merge_sort_Permutation. rewrite list_elem_of_fmap. split.
  - intros ([k v] & -> & Hin). apply elem_of_map_to_list in Hin. by eexists.
  - intros [v Hv]. exists (key, v). split; [done|]. by apply elem_of_map_to_list.
Qed.

(** What a replaced environment says of every key. *)
Theorem replaceEnvironment_lookup env m remove key : (∀ k, is_Some (m !! k) → no_char "=" k) →
  environmentLookup (replaceEnvironment env m remove) key =
    match m !! key with Some value => value | None => if decide (key ∈ remove) then "" else environmentLookup env key end.
Proof.
  intros Hm. rewrite !lookup_find. unfold replaceEnvironment. rewrite find_env_app, find_entries by (intros k Hk%elem_sorted_keys; auto).
  assert (Hf : find_env (base.filter (λ entry, m !! env_key entry = None ∧ env_key entry ∉ remove) env) key =
    if decide (m !! key = None ∧ key ∉ remove) then find_env env key else None) by exact (find_filter (λ k, m !! k = None ∧ k ∉ remove) env key).
  rewrite Hf. destruct (m !! key) as [v|] eqn:Hk.
  - rewrite decide_True by (apply elem_sorted_keys; by eexists). done.
  - rewrite decide_False by (rewrite elem_sorted_keys, Hk; by intros []). destruct (decide (key ∈ remove)).
    + by rewrite decide_False by tauto.
    + by rewrite decide_True by tauto.
Qed.

(** ** The hook's verdict *)

(** The provider is held unless it is none of Ralph's, or its event is well formed
    and the supervisor allows it: held means blocked, and for Codex a decision to
    block on the standard output. *)
Theorem RunHook_holds supervisor adapter event input getenv :
  let out := RunHook supervisor adapter event input getenv in
  let session := getenv ManagedSessionEnv in let endpoint := getenv HookEndpointEnv in
  (out = allowed ↔ session = "" ∨
     adapter ∈ ["claude"; "codex"; "opencode"] ∧ event ∈ [HookEventPostToolUse; HookEventStop] ∧ endpoint ≠ "" ∧ validPayload input event = true ∧
     ∃ reply, supervisor endpoint (mkHookArgs adapter event session) = Answers reply ∧ hr_allow reply = true) ∧
  (out ≠ allowed → if decide (adapter = "codex") then ho_blocked out = false ∧ ho_stdout out = ho_stdout (block "codex" "") else ho_blocked out = true).
Proof.
  cbn zeta. assert (Hb : ∀ reason, block adapter reason ≠ allowed ∧
    if decide (adapter = "codex") then ho_blocked (block adapter reason) = false ∧ ho_stdout (block adapter reason) = ho_stdout (block "codex" "") else ho_blocked (block adapter reason) = true).
  { intros reason. unfold block, allowed. repeat (case_decide; simplify_eq); done. }
  unfold RunHook, validAdapter. destruct (decide (getenv ManagedSessionEnv = "")) as [Hs|Hs]; [by split; [tauto|done]|].
  destruct (negb (bool_decide (adapter ∈ _)) || _) eqn:Hv.
  { split; [|intros _; apply Hb]. split; [by intros ?%Hb|]. intros [?|(Ha & He & _)]; [done|]. rewrite bool_decide_true in Hv by done. cbn [negb orb] in Hv.
    apply andb_true_iff in Hv as [H1%negb_true_iff%bool_decide_eq_false H2%negb_true_iff%bool_decide_eq_false]. set_solver. }
  apply orb_false_iff in Hv as [Ha%negb_false_iff%bool_decide_eq_true He]. assert (Hev : event ∈ [HookEventPostToolUse; HookEventStop]).
  { apply andb_false_iff in He as [H%negb_false_iff%bool_decide_eq_true|H%negb_false_iff%bool_decide_eq_true]; set_solver. }
  destruct (bool_decide _ || negb _) eqn:Hp.
  { split; [|intros _; apply Hb]. split; [by intros ?%Hb|]. intros [?|(_ & _ & H1 & H2 & _)]; [done|]. rewrite bool_decide_false, H2 in Hp by done. done. }
  apply orb_false_iff in Hp as [Hend%bool_decide_eq_false Hpay%negb_false_iff].
  destruct (supervisor _ _) as [| |reply] eqn:Hsup.
  1,2: split; [|intros _; apply Hb]; (split; [by intros ?%Hb|]); intros [?|(_ & _ & _ & _ & reply & Hr & _)]; done.
  destruct (hr_allow reply) eqn:Hallow.
  - split; [|done]. split; [|done]. intros _. right. split_and!; [done..|]. by exists reply.
  - split; [|intros _; apply Hb]. split; [by intros ?%Hb|]. intros [?|(_ & _ & _ & _ & r & Hr & Hal)]; [done|congruence].
Qed.

(** ** Statuses *)

Lemma unavailable_status : "supervisor_unavailable" ∈ openCodeStatuses.
Proof. apply (bool_decide_eq_true_1 _). vm_compute. reflexivity. Qed.
Lemma pending_status : "verification_pending" ∈ openCodeStatuses.
Proof. apply (bool_decide_eq_true_1 _). vm_compute. reflexivity. Qed.
Lemma finite_status s : finiteOpenCodeStatus s ∈ openCodeStatuses.
Proof. unfold finiteOpenCodeStatus. case_decide; [done|apply unavailable_status]. Qed.

(** The status printed is the status read. *)
Lemma parse_status_message s : parseOpenCodeStatus (status_message s) = finiteOpenCodeStatus s.
Proof.
  unfold status_message. assert (H := finite_status s). revert H. generalize (finiteOpenCodeStatus s). intros t H. unfold openCodeStatuses in H.
  repeat (apply elem_of_cons in H as [->|H]; [vm_compute; reflexivity|]). by apply elem_of_nil in H.
Qed.

(** Nothing else is read as a status: whatever the bytes. *)
Lemma parse_status_finite raw : parseOpenCodeStatus raw ∈ openCodeStatuses.
Proof.
  assert (Hd := unavailable_status).
  unfold parseOpenCodeStatus. destruct (json_tree raw) as [[]|]; [done..| |done]. destruct (foldl _ _ _) as [text []]; [|done].
  unfold status_of. destruct (find _ _) as [s|] eqn:Hf; [|done]. cbn. apply find_some in Hf as [Hf _]. by apply list_elem_of_In.
Qed.

(** ** The polls *)

Definition pending (status : string) : Prop := status ∈ ["verification_started"; "verification_pending"].
(** The launcher asks again. *)
Definition waits (h : HookOut) : Prop := ho_blocked h = true ∧ pending (parseOpenCodeStatus (ho_stdout h)).

Lemma pending_test status : negb (bool_decide (status = "verification_started")) && negb (bool_decide (status = "verification_pending")) = false ↔ pending status.
Proof.
  unfold pending. rewrite andb_false_iff, !negb_false_iff, !bool_decide_eq_true. set_solver.
Qed.

Lemma poll_attempts_ends hook canceled attempt remaining :
  let '(code, status) := poll_attempts hook canceled attempt remaining in
  (code = 0%Z ↔ ∃ n, n < remaining ∧ ho_blocked (hook (attempt + n)) = false ∧ ∀ i, i < n → waits (hook (attempt + i)) ∧ canceled (attempt + i) = false) ∧
  match status with Some s => code = 2%Z ∧ s ∈ openCodeStatuses | None => code = 0%Z end.
Proof.
  revert attempt. induction remaining as [|remaining IH]; intros attempt; cbn [poll_attempts].
  { split; [|split; [done|apply unavailable_status]]. split; [done|]. intros (n & Hn & _). lia. }
  destruct (ho_blocked (hook attempt)) eqn:Hb; cbn [negb].
  2: { split; [|done]. split; [|done]. intros _. exists 0. rewrite Nat.add_0_r. split_and!; [lia|done|lia]. }
  assert (Hnot : ∀ n, ho_blocked (hook (attempt + n)) = false → n ≠ 0) by (intros n Hn ->; rewrite Nat.add_0_r in Hn; congruence).
  destruct (negb _ && negb _) eqn:Hp.
  { split; [|split; [done|apply parse_status_finite]]. split; [done|]. intros (n & _ & Hn & Hw). apply Hnot in Hn. destruct (Hw 0) as [[_ H] _]; [lia|].
    rewrite Nat.add_0_r in H. apply pending_test in H. congruence. }
  apply pending_test in Hp. destruct (Nat.eqb_spec remaining 0) as [->|Hr].
  { split; [|split; [done|apply pending_status]]. split; [done|]. intros (n & Hn & Hf & _). apply Hnot in Hf. lia. }
  destruct (canceled attempt) eqn:Hc.
  { split; [|split; [done|apply unavailable_status]]. split; [done|]. intros (n & _ & Hn & Hw). apply Hnot in Hn. destruct (Hw 0) as [_ H]; [lia|].
    rewrite Nat.add_0_r in H. congruence. }
  specialize (IH (S attempt)). destruct (poll_attempts _ _ _ _) as [code status]. destruct IH as [IH1 IH2]. split; [|done]. rewrite IH1. clear IH1 IH2. split.
  - intros (n & Hn & Hf & Hw). exists (S n). rewrite <- plus_n_Sm. split_and!; [lia|done|]. intros [|i] Hi; [by rewrite Nat.add_0_r|].
    rewrite <- plus_n_Sm. apply Hw. lia.
  - intros ([|n] & Hn & Hf & Hw); [by destruct (Hnot 0)|]. rewrite <- plus_n_Sm in Hf. exists n. split_and!; [lia|done|]. intros i Hi.
    specialize (Hw (S i)). rewrite <- plus_n_Sm in Hw. apply Hw. lia.
Qed.

(** ** A managed launch *)

Lemma isolation_keys opts key : is_Some (isolation opts !! key) →
  key ∈ ["HOME"; "XDG_CONFIG_HOME"; "XDG_DATA_HOME"; "XDG_CACHE_HOME"; "XDG_STATE_HOME"; openCodeConfigContentEnv; openCodeConfigDirEnv; openCodeDisableProjectEnv].
Proof. intros [v Hv]. apply elem_of_list_to_map_2, (list_elem_of_fmap_2 fst) in Hv. exact Hv. Qed.

Lemma isolation_no_equals opts key : is_Some (isolation opts !! key) → no_char "=" key.
Proof.
  intros Hk%isolation_keys. repeat (apply elem_of_cons in Hk as [->|Hk]; [apply (bool_decide_eq_true_1 _); vm_compute; reflexivity|]). by apply elem_of_nil in Hk.
Qed.

Lemma managed_environment_lookup `{Files} opts env key : managedOpenCodeEnvironment opts = Some env →
  environmentLookup env key = match isolation opts !! key with
                              | Some value => value
                              | None => if decide (key ∈ ["OPENCODE_CONFIG"; openCodePureEnv]) then "" else environmentLookup (lo_Env opts) key
                              end.
Proof.
  unfold managedOpenCodeEnvironment. destruct (negb _); [done|]. destruct (Stat _) as [[]| |]; [|done..]. repeat (destruct (negb _); [done|]).
  intros [= <-]. apply replaceEnvironment_lookup, isolation_no_equals.
Qed.

Lemma managed_environment_keeps `{Files} opts env key : managedOpenCodeEnvironment opts = Some env → key ∈ [ManagedSessionEnv; HookEndpointEnv] →
  environmentLookup env key = environmentLookup (lo_Env opts) key.
Proof.
  intros He Hk. rewrite (managed_environment_lookup opts env key He). destruct (isolation opts !! key) as [v|] eqn:Hi.
  - assert (Hin := isolation_keys opts key (ex_intro _ v Hi)). exfalso.
    repeat (apply elem_of_cons in Hk as [->|Hk]; [revert Hin; apply (bool_decide_eq_false_1 _); vm_compute; reflexivity|]). by apply elem_of_nil in Hk.
  - rewrite decide_False; [done|]. intros Hin.
    repeat (apply elem_of_cons in Hk as [->|Hk]; [revert Hin; apply (bool_decide_eq_false_1 _); vm_compute; reflexivity|]). by apply elem_of_nil in Hk.
Qed.

Lemma stop_hook supervisor getenv : getenv ManagedSessionEnv ≠ "" → getenv HookEndpointEnv ≠ "" →
  RunHook supervisor "opencode" "Stop" (Some stop_payload) getenv =
    match supervisor (getenv HookEndpointEnv) (mkHookArgs "opencode" "Stop" (getenv ManagedSessionEnv)) with
    | Answers reply => if hr_allow reply then allowed else block "opencode" (if decide (hr_reason reply = "") then "supervisor_unavailable" else hr_reason reply)
    | _ => block "opencode" "supervisor_unavailable"
    end.
Proof.
  intros Hs He. unfold RunHook. rewrite decide_False by done. change (negb (validAdapter "opencode") || _) with false. cbn iota.
  assert (Hp : validPayload (Some stop_payload) "Stop" = true) by (vm_compute; reflexivity).
  rewrite bool_decide_false by done. rewrite Hp. cbn [negb orb]. by destruct (supervisor _ _).
Qed.

Lemma pending_finite reason : pending (finiteOpenCodeStatus reason) ↔ pending reason.
Proof.
  unfold finiteOpenCodeStatus, pending. case_decide as Hin; [done|]. split; intros Hp; exfalso.
  - revert Hp. apply (bool_decide_eq_false_1 _). vm_compute. reflexivity.
  - apply Hin. apply elem_of_cons in Hp as [->|Hp%list_elem_of_singleton]; [apply (bool_decide_eq_true_1 _); vm_compute; reflexivity|subst; apply pending_status].
Qed.

Lemma stop_hook_ends supervisor getenv : getenv ManagedSessionEnv ≠ "" → getenv HookEndpointEnv ≠ "" →
  let answer := supervisor (getenv HookEndpointEnv) (mkHookArgs "opencode" "Stop" (getenv ManagedSessionEnv)) in
  let out := RunHook supervisor "opencode" "Stop" (Some stop_payload) getenv in
  (ho_blocked out = false ↔ ∃ reply, answer = Answers reply ∧ hr_allow reply = true) ∧
  (waits out ↔ ∃ reply, answer = Answers reply ∧ hr_allow reply = false ∧ pending (hr_reason reply)).
Proof.
  intros Hs He. cbn zeta. rewrite stop_hook by done.
  assert (Hblock : ∀ reason, ho_blocked (block "opencode" reason) = true ∧ parseOpenCodeStatus (ho_stdout (block "opencode" reason)) = finiteOpenCodeStatus reason).
  { intros reason. split; [done|]. apply parse_status_message. }
  assert (Hno : ¬ pending "supervisor_unavailable") by (apply (bool_decide_eq_false_1 _); vm_compute; reflexivity).
  unfold waits. destruct (supervisor _ _) as [| |reply].
  1,2: destruct (Hblock "supervisor_unavailable") as [-> ->]; (split; (split; [try done; intros [_ Hp]; by destruct (Hno Hp)|by intros (r & Hr & _)])).
  destruct (hr_allow reply) eqn:Ha.
  { split; split; [intros _; by exists reply|done|by intros [Hb _]|intros (r & [= <-] & Hr & _); congruence]. }
  set (reason := if decide (hr_reason reply = "") then "supervisor_unavailable" else hr_reason reply). destruct (Hblock reason) as [-> ->].
  rewrite pending_finite. assert (Hr : pending reason ↔ pending (hr_reason reply)).
  { unfold reason. case_decide as Hempty; [|done]. rewrite Hempty. split; intros Hp; exfalso; [done|]. revert Hp. apply (bool_decide_eq_false_1 _). vm_compute. reflexivity. }
  rewrite Hr. split; [split; [done|intros (r & [= <-] & Hr'); congruence]|]. split; [intros [_ Hp]; by exists reply|]. intros (r & [= <-] & _ & Hp). done.
Qed.

(** The provider was run to its end and nothing of it is left. *)
Definition clean_run (run : ProviderRun) : Prop :=
  is_Some (pr_scope run) ∧ pr_pipes run = true ∧ pr_starts run = true ∧ pr_observed run = true ∧ pr_reclaimed run = true ∧
  pr_drain run = (Copied, Copied).

Lemma run_controlled run w : runManagedOpenCodeProvider run = (w, true) → w = WaitFails ∧ pr_starts run = false ∨ w = pr_wait run ∧ clean_run run.
Proof.
  unfold runManagedOpenCodeProvider, clean_run. destruct (pr_scope run); [|done]. destruct (pr_pipes run); [|done]. cbn [negb].
  destruct (pr_starts run); cbn [negb]; [|intros [= <-]; by left]. destruct (pr_observed run); [|done]. destruct (pr_reclaimed run); [|done]. cbn [negb].
  destruct (pr_drain run) as [[] []]; try done. intros [= <-]. right. naive_solver.
Qed.

Lemma clean_run_controlled run : clean_run run → runManagedOpenCodeProvider run = (pr_wait run, true).
Proof. intros ([scope Hs] & Hp & Hst & Ho & Hr & Hd). unfold runManagedOpenCodeProvider. by rewrite Hs, Hp, Hst, Ho, Hr, Hd. Qed.

Lemma failure_code w : succeeds w = false → providerExitCode w ≠ 0%Z.
Proof. destruct w; cbn; [intros H%Z.eqb_neq|lia|lia|lia]. destruct (Z.leb_spec 0 code); lia. Qed.

Lemma pollOpenCodeStop_ends polling hook canceled : (0 < pl_progressInterval polling)%Z →
  let '(code, status) := pollOpenCodeStop polling hook canceled in
  (code = 0%Z ↔ (0 < pl_attempts polling ∧ 0 ≤ pl_interval polling ∧ 0 ≤ pl_timeout polling)%Z ∧
     ∃ n, n < Z.to_nat (pl_attempts polling) ∧ ho_blocked (hook n) = false ∧ ∀ i, i < n → waits (hook i) ∧ canceled i = false) ∧
  match status with Some s => code = 2%Z ∧ s ∈ openCodeStatuses | None => code = 0%Z end.
Proof.
  intros Hp. unfold pollOpenCodeStop. rewrite (proj2 (Z.leb_gt (pl_progressInterval polling) 0)) by lia. rewrite orb_false_r.
  destruct ((_ || _) || _) eqn:Hpoll.
  - split; [split; [done|]|split; [done|apply unavailable_status]]. intros [Hok _]. rewrite !orb_true_iff, Z.leb_le, !Z.ltb_lt in Hpoll. lia.
  - rewrite !orb_false_iff, Z.leb_gt, !Z.ltb_ge in Hpoll. pose proof (poll_attempts_ends hook canceled 0 (Z.to_nat (pl_attempts polling))) as H.
    destruct (poll_attempts _ _ _ _) as [code status]. destruct H as [H1 H2]. split; [|done]. rewrite H1. cbn [Nat.add]. split; [|tauto].
    intros Hn. split; [lia|done].
Qed.

(** The hooks of the launch ask for the session it was given. *)
Lemma launch_hook_ends `{Files} opts env supervisor :
  let session := environmentLookup (lo_Env opts) ManagedSessionEnv in let endpoint := environmentLookup (lo_Env opts) HookEndpointEnv in
  session ≠ "" → endpoint ≠ "" → managedOpenCodeEnvironment opts = Some env →
  let out := RunHook supervisor "opencode" "Stop" (Some stop_payload) (environmentLookup env) in
  let answer := supervisor endpoint (mkHookArgs "opencode" "Stop" session) in
  (ho_blocked out = false ↔ ∃ reply, answer = Answers reply ∧ hr_allow reply = true) ∧
  (waits out ↔ ∃ reply, answer = Answers reply ∧ hr_allow reply = false ∧ pending (hr_reason reply)).
Proof.
  intros session endpoint Hs He Henv. pose proof (stop_hook_ends supervisor (environmentLookup env)) as Hend.
  rewrite !(managed_environment_keeps opts env) in Hend by (done || set_solver). by apply Hend.
Qed.

(** C19: The launcher of a managed OpenCode exits with success exactly when everything
    before was in order - the platform, the binary, an isolated environment -, the
    provider was run to a clean exit with every descendant reclaimed and its output
    drained, and the supervisor then allowed the stop of this very session at one of
    the attempts, having called the verification started or pending at each one
    before. What it writes itself is nothing or, with exit code 2, one status of the
    fixed list; and a provider that failed under control has its exit code returned. *)
Theorem managed_success_is_earned `{Files} supported opts polling run unmanaged supervisor canceled :
  let session := environmentLookup (lo_Env opts) ManagedSessionEnv in let endpoint := environmentLookup (lo_Env opts) HookEndpointEnv in
  session ≠ "" → endpoint ≠ "" →
  let out := runOpenCodeLauncher supported opts polling run unmanaged supervisor canceled in
  let answers n := supervisor n endpoint (mkHookArgs "opencode" "Stop" session) in
  let launchable := supported = true ∧ (0 ≤ pl_progressInterval polling)%Z ∧ IsAbs (lo_Binary opts) = true ∧ regularExecutable (lo_Binary opts) = true ∧
                    is_Some (managedOpenCodeEnvironment opts) in
  (lx_exit out = 0%Z ↔ launchable ∧ clean_run run ∧ pr_wait run = Exited 0 ∧
     (0 < pl_attempts polling ∧ 0 ≤ pl_interval polling ∧ 0 ≤ pl_timeout polling)%Z ∧
     ∃ n reply, n < Z.to_nat (pl_attempts polling) ∧ answers n = Answers reply ∧ hr_allow reply = true ∧
       ∀ i, i < n → canceled i = false ∧ ∃ r, answers i = Answers r ∧ hr_allow r = false ∧ pending (hr_reason r)) ∧
  (lx_stdout out = [] ∨ lx_exit out = 2%Z ∧ ∃ s, s ∈ openCodeStatuses ∧ lx_stdout out = status_message s) ∧
  (launchable → clean_run run → pr_wait run ≠ Exited 0 → lx_exit out = providerExitCode (pr_wait run) ∧ lx_stdout out = []).
Proof.
  intros session endpoint Hs He out answers launchable.
  assert (Hout : out = runOpenCodeLauncher supported opts polling run unmanaged supervisor canceled) by done. clearbody out. revert Hout.
  unfold runOpenCodeLauncher. fold session endpoint. rewrite !bool_decide_false by done. cbn [negb andb eqb].
  assert (Hfail : ∀ env (Q R : Prop), ¬ launchable ∨ ¬ clean_run run → out = launch_fails env →
    (lx_exit out = 0%Z ↔ launchable ∧ clean_run run ∧ Q) ∧ (lx_stdout out = [] ∨ R) ∧
    (launchable → clean_run run → pr_wait run ≠ Exited 0 → lx_exit out = providerExitCode (pr_wait run) ∧ lx_stdout out = [])).
  { intros env Q R Hno ->. split; [split; [done|tauto]|]. split; [by left|tauto]. }
  unfold launchable in *. destruct supported; cbn [negb]; [|apply Hfail; left; by intros [? _]].
  set (progress := if (pl_progressInterval polling =? 0)%Z then _ else _).
  assert (Hprogress : (progress < 0 ↔ pl_progressInterval polling < 0)%Z ∧ progress ≠ 0%Z).
  { unfold progress, openCodeStopPollInterval. destruct (Z.eqb_spec (pl_progressInterval polling) 0); lia. }
  clearbody progress. destruct (Z.ltb_spec progress 0); [apply Hfail; left; intros (_ & Hp & _); lia|].
  destruct (IsAbs (lo_Binary opts)) eqn:Habs; [|apply Hfail; left; by intros (_ & _ & ? & _)]. destruct (regularExecutable (lo_Binary opts)) eqn:Hexe; [|apply Hfail; left; by intros (_ & _ & _ & ? & _)].
  cbn [negb orb]. destruct (managedOpenCodeEnvironment opts) as [env|] eqn:Henv; [|apply Hfail; left; intros (_ & _ & _ & _ & [? ?]); done].
  destruct (runManagedOpenCodeProvider run) as [w []] eqn:Hrun.
  2: { apply Hfail. right. intros Hc. rewrite (clean_run_controlled _ Hc) in Hrun. done. }
  assert (Hlaunch : launchable) by (unfold launchable; split_and!; [done|lia|done|done|by eexists]).
  destruct (succeeds w) eqn:Hw.
  2: { intros ->. cbn [lx_exit lx_stdout]. assert (Hcode := failure_code w Hw). split; [split; [done|]|split; [by left|]].
       - intros (_ & Hc & Hz & _). rewrite (clean_run_controlled _ Hc), Hz in Hrun. injection Hrun as <-. done.
       - intros _ Hc _. rewrite (clean_run_controlled _ Hc) in Hrun. by injection Hrun as <-. }
  apply run_controlled in Hrun as [[-> _]|[-> Hc]]; [done|]. assert (Hz : pr_wait run = Exited 0) by (destruct (pr_wait run); try done; cbn in Hw; by apply Z.eqb_eq in Hw as ->).
  assert (Hhook := λ n, launch_hook_ends opts env (supervisor n) Hs He Henv).
  set (hook := fun n => RunHook (supervisor n) _ _ _ _) in *. set (polling' := mkPolling _ _ _ _).
  pose proof (pollOpenCodeStop_ends polling' hook canceled) as Hpoll. cbn [polling' pl_attempts pl_interval pl_progressInterval pl_timeout] in Hpoll.
  specialize (Hpoll ltac:(lia)). clearbody polling'. destruct (pollOpenCodeStop polling' _ _) as [code status]. destruct Hpoll as [Hp1 Hp2].
  intros ->. cbn [lx_exit lx_stdout]. split; [|split; [|done]].
  - rewrite Hp1. split.
    + intros (Hok & n & Hn & [reply [Ha Hr]]%Hhook & Hwait). do 4 (split; [done|]). exists n, reply. split_and!; [done..|].
      intros i Hi. destruct (Hwait i Hi) as [Hwi Hci]. split; [done|]. by apply Hhook.
    + intros (_ & _ & _ & Hok & n & reply & Hn & Ha & Hr & Hwait). split; [done|]. exists n. split_and!; [done|apply Hhook; by exists reply|].
      intros i Hi. destruct (Hwait i Hi) as [Hci Hwi]. split; [|done]. by apply Hhook.
  - destruct status as [s|]; [|by left]. right. destruct Hp2 as [-> Hin]. split; [done|]. by exists s.
Qed.

(** ** The provider's world *)

(** Every variable of the environment a managed provider is started in: the scope its
    descendants are found by, its own directories and configuration, none of the two
    that would change them, and the caller's otherwise. *)
Theorem provider_world `{Files} supported opts polling run unmanaged supervisor canceled env key :
  environmentLookup (lo_Env opts) ManagedSessionEnv ≠ "" → environmentLookup (lo_Env opts) HookEndpointEnv ≠ "" →
  lx_env (runOpenCodeLauncher supported opts polling run unmanaged supervisor canceled) = Some env →
  environmentLookup env key =
    if decide (key = openCodeProcessScopeEnv) then default "" (pr_scope run)
    else match isolation opts !! key with
         | Some value => value
         | None => if decide (key ∈ ["OPENCODE_CONFIG"; openCodePureEnv]) then "" else environmentLookup (lo_Env opts) key
         end.
Proof.
  intros Hs He. unfold runOpenCodeLauncher. rewrite !bool_decide_false by done. cbn [negb andb eqb]. destruct (negb supported); [done|].
  destruct (_ <? 0)%Z; [done|]. destruct (negb (IsAbs _) || _); [done|].
  destruct (managedOpenCodeEnvironment opts) as [world|] eqn:Hw; [|done]. intros Hout.
  assert (Hscoped : scoped_environment run world = Some env).
  { destruct (runManagedOpenCodeProvider run) as [w []]; [|done]. destruct (succeeds w); [|done]. by destruct (pollOpenCodeStop _ _ _). }
  clear Hout. unfold scoped_environment in Hscoped. destruct (pr_scope run) as [scope|]; [|done]. destruct (_ && _); [|done]. injection Hscoped as <-.
  rewrite replaceEnvironment_lookup. 2: { intros k [v [<- _]%lookup_singleton_Some]. apply (bool_decide_eq_true_1 _). vm_compute. reflexivity. }
  cbn [default]. destruct (decide (key = openCodeProcessScopeEnv)) as [->|Hk]; [by rewrite lookup_singleton_eq|]. rewrite lookup_singleton_ne by done.
  rewrite decide_False by apply not_elem_of_nil. by apply managed_environment_lookup.
Qed.

(** [url.PathUnescape]. *)
Fixpoint unescape (l : Bytes) : option Bytes :=
  match l with
  | [] => Some []
  | c :: r =>
      if (c =? "%")%char
      then match r with
           | h1 :: h2 :: r' => if is_hex h1 && is_hex h2 then (byte_of (16 * hex_val h1 + hex_val h2) ::.) <$> unescape r' else None
           | _ => None
           end
      else (c ::.) <$> unescape r
  end.

Definition escapes_back (c : Ascii.ascii) : bool :=
  if path_byte c then negb (c =? "%")%char
  else let h1 := upper_hex (byte_val c / 16) in let h2 := upper_hex (byte_val c mod 16) in
       is_hex h1 && is_hex h2 && bool_decide (byte_of (16 * hex_val h1 + hex_val h2) = c).
Lemma every_byte_escapes_back c : escapes_back c = true.
Proof.
  assert (Hall : forallb escapes_back (List.map ascii_of_nat (seq 0 256)) = true) by (vm_compute; reflexivity).
  rewrite forallb_forall in Hall. apply Hall. rewrite <- (ascii_nat_embedding c). apply in_map, in_seq. assert (H := nat_ascii_bounded c). lia.
Qed.

Lemma escape_byte_back c rest :
  unescape ((if path_byte c then [c] else ["%"%char; upper_hex (byte_val c / 16); upper_hex (byte_val c mod 16)]) ++ rest) = (c ::.) <$> unescape rest.
Proof.
  assert (Hc := every_byte_escapes_back c). unfold escapes_back in Hc. destruct (path_byte c).
  - apply negb_true_iff in Hc. cbn [app unescape]. by rewrite Hc.
  - apply andb_true_iff in Hc as [Hh Hb%bool_decide_eq_true]. cbn [app unescape]. change ("%" =? "%")%char with true. cbn iota. by rewrite Hh, Hb.
Qed.

(** The URL names the plugin's path, whatever bytes it has. *)
Theorem escape_path_back path : unescape (escape_path path) = Some (chars path).
Proof. unfold escape_path. induction (chars path) as [|c l IH]; [done|]. cbn [fmap list_fmap concat]. by rewrite escape_byte_back, IH. Qed.

(** The configuration, read as JSON, has this one plugin and nothing else. *)
Theorem plugin_config_reads plugin : ∃ body,
  json_tree (plugin_config plugin) = Some (JObj [(chars "plugin", JArr [JStr body])]) ∧ unquote body = runes (chars (file_url plugin)).
Proof.
  exists (json_escape (file_url plugin)). split; [|apply Prompt.json_escape_back].
  assert (Hp : Prompt.prints 5 maxNestingDepth (plugin_config plugin) (JObj [(chars "plugin", JArr [JStr (json_escape (file_url plugin))])])).
  { apply (Prompt.prints_object 3 maxNestingDepth ("plugin", "["%char :: json_string (file_url plugin) ++ ["]"%char], JArr [JStr (json_escape (file_url plugin))]) []);
      [done| |constructor]. split; [by apply Prompt.key_plain|]. apply (Prompt.prints_array 1); [done|apply Prompt.prints_string|done|done]. }
  rewrite (json_tree_fuel (S (2 * length (plugin_config plugin)) + 5)) by lia. rewrite <- (app_nil_r (plugin_config plugin)) at 2. rewrite Hp by lia. done.
Qed.

(** ** The runtime directory *)

Lemma push_plain b es st : Forall plain es → foldl (clean_step b) st es = rev es ++ st.
Proof.
  intros He. revert st. induction He as [|e es (H1 & H2 & H3 & _) _ IH]; intros st; [done|]. cbn [foldl]. rewrite IH. unfold clean_step at 1.
  rewrite !decide_False by done. cbn [rev]. by rewrite <- app_assoc.
Qed.

Lemma Join_plain_dot es : Forall plain es → es ≠ [] → Join "/" es ≠ "." ∧ Join "/" es ≠ "" ∧ HasPrefix (Join "/" es) "/" = false.
Proof.
  intros He Hne. destruct es as [|e es]; [done|]. apply Forall_cons in He as [(H1 & H2 & H3 & H4) He]. split_and!.
  - destruct es as [|e' es]; [done|]. rewrite Join_cons by done. intros Hj. apply (f_equal (λ s, slash ∈ chars s)) in Hj. rewrite !chars_app in Hj.
    assert (Hin : slash ∈ chars e ++ chars "/" ++ chars (Join "/" (e' :: es))) by (apply elem_of_app; right; apply elem_of_app; left; by left).
    rewrite Hj in Hin. by apply list_elem_of_singleton in Hin.
  - by apply Join_cons_ne.
  - by apply Join_cons_no_prefix.
Qed.

Lemma Dir_join es : Forall plain es → es ≠ [] → Dir (Join "/" es) = "." ↔ length es = 1.
Proof.
  intros He Hne. destruct (exists_last Hne) as (init & e & ->). apply Forall_app in He as [Hi [(_ & _ & _ & Hs) _]%Forall_cons].
  assert (Hrev : slash ∉ rev (chars e)) by (by rewrite list_elem_of_In, <- in_rev, <- list_elem_of_In).
  rewrite length_app. cbn [length]. destruct init as [|i init].
  - cbn [app length]. split; [done|intros _]. unfold Dir. cbn [Join]. assert (Hu : upto_slash (rev (chars e)) = []); [|by rewrite Hu].
    induction (rev (chars e)) as [|c l IH]; [done|]. cbn [upto_slash]. rewrite decide_False by set_solver. apply IH. set_solver.
  - cbn [length]. split; [|lia]. intros Hd. exfalso. revert Hd. rewrite Join_app by done. set (init' := i :: init) in *.
    destruct (Join_plain_dot init' Hi) as (H1 & H2 & H3); [done|]. cbn [Join]. unfold Dir. rewrite !chars_app, !rev_app_distr.
    change (rev (chars "/")) with [slash]. rewrite <- app_assoc. cbn [app]. rewrite upto_slash_app by done. cbn [rev]. rewrite rev_involutive.
    assert (Ht : of_chars (chars (Join "/" init') ++ [slash]) = Join "/" init' +:+ "/" +:+ "") by (apply chars_inj; by rewrite chars_of_chars, chars_app).
    rewrite Ht. assert (Hp : HasPrefix (Join "/" init' +:+ "/" +:+ "") "/" = false).
    { destruct (Join "/" init') as [|c t]; [done|].
      assert (Hany : ∀ x, HasPrefix x "" = true) by (by intros []). 
      change (bool_decide ("/"%char = c) && HasPrefix t "" = false) in H3. change (bool_decide ("/"%char = c) && HasPrefix (t +:+ "/" +:+ "") "" = false).
      by rewrite Hany in H3 |- *. }
    assert (Hsplit : Split slash (Join "/" init') = init').
    { apply (Split_Join slash init'); [done|]. eapply Forall_impl; [exact Hi|]. by intros x (_ & _ & _ & ?). }
    unfold Clean. rewrite Hp, Split_cut, Hsplit. unfold clean_elems. rewrite foldl_app, (push_plain false init') by done.
    change (Split slash "") with [""]. cbn [foldl]. change (clean_step false ?st "") with st. rewrite app_nil_r, rev_involutive. by rewrite decide_False.
Qed.

(** What [Cleanup] may delete: exactly a child of the runtime directory whose name is
    the prefix and something behind it. *)
Theorem runtime_child_exact parent root : rooted parent → rooted root →
  isOpenCodeRuntimeChild parent root = true ↔ ∃ s, s ≠ "" ∧ elems root = elems parent ++ [openCodeRuntimePrefix +:+ s].
Proof.
  intros Hp Hr. destruct (Clean_elems parent Hp) as [Hpp Hcp], (Clean_elems root Hr) as [Hpr Hcr]. unfold isOpenCodeRuntimeChild, Rel.
  assert (Habs : IsAbs (Clean root) = true) by (rewrite Hcr; apply abs_path_rooted). rewrite Habs. cbn [negb].
  case_decide as Heq.
  { rewrite bool_decide_true by done. split; [done|]. intros (s & _ & H). rewrite Hcp, Hcr in Heq. apply abs_path_inj in Heq; [|done|done].
    rewrite Heq in H. apply (f_equal length) in H. rewrite length_app in H. cbn in H. lia. }
  destruct (strip_common_spec (elems parent) (elems root)) as (common & H1 & H2 & H3). destruct (strip_common _ _) as [up down]. cbn [fst snd] in *.
  assert (Hdown : Forall plain down) by (rewrite H2 in Hpr; by apply Forall_app in Hpr as [_ ?]).
  rewrite !andb_true_iff, negb_true_iff, bool_decide_eq_false, bool_decide_eq_true, Nat.ltb_lt. split.
  - intros [[[_ Hdir] Hlen] Hpre]. destruct up as [|u up].
    2: { exfalso. apply HasPrefix_app in Hpre as [t Ht]. destruct (Join_dots_prefix (length (u :: up)) down) as [Hj|[t' Hj]%HasPrefix_app]; [cbn; lia|done|..];
         rewrite Hj in Ht; done. }
    cbn [length replicate app] in *. rewrite app_nil_r in H1. destruct down as [|d down]; [done|]. apply Dir_join in Hdir; [|done|done].
    destruct down; [|done]. cbn [Join] in *. apply HasPrefix_app in Hpre as [t ->]. exists t. split; [intros ->; vm_compute in Hlen; lia|]. by rewrite H1, H2.
  - intros (s & Hs & H). assert (up = [] ∧ down = [openCodeRuntimePrefix +:+ s]) as [-> ->].
    { rewrite H2, H1, <- app_assoc in H. apply app_inv_head in H. destruct up as [|u up]; [done|]. exfalso. subst down. exact (H3 u u eq_refl eq_refl eq_refl). }
    cbn [length replicate app Join]. assert (Hn : openCodeRuntimePrefix +:+ s ≠ ".") by done. split_and!; [done| |change (7 < 7 + String.length s); destruct s; [done|cbn; lia]|apply HasPrefix_app; by exists s].
    apply (Dir_join [_]); done.
Qed.

(** ** A launch *)

#[local] Instance demo_files : Files := {
  Stat path := if decide (path = "/adapters/plugin.js") then Found (RegularFile 900) else Found Directory;
  Lstat _ := NotExist;
  regularExecutable _ := true;
  OpenSame _ := true; MkdirAll _ := true; CreateExclusive _ := true; CopyBytes _ _ := None; SyncAndClose _ := true }.

Definition demo_launch : LaunchOptions :=
  mkLaunch "/usr/bin/opencode" "/adapters/plugin.js" "/run/launch-1/home" "/run/launch-1/config"
    ["HOME=/home/u"; "OPENCODE_PURE=1"; "RALPH_MANAGED_SESSION_ID=s-1"; "RALPH_HOOK_ENDPOINT=/run/ralph.sock"] 1000000000.
Definition demo_run : ProviderRun := mkRun (Some "5c09e") true true true true (Exited 0) (Copied, Copied).
Definition demo_supervisor (attempt : nat) (endpoint : string) (args : HookEventArgs) : HookAnswer :=
  Answers (if attempt =? 0 then mkHookReply false "verification_started" else mkHookReply true "acceptance_passed").

(** Allowed at the second attempt, the launcher exits with success. *)
Theorem managed_success_is_earned_witness :
  lx_exit (runOpenCodeLauncher true demo_launch (default_polling 1000000000) demo_run OtherStatus demo_supervisor (λ _, false)) = 0%Z.
Proof.
  assert (Hs : environmentLookup (lo_Env demo_launch) ManagedSessionEnv = "s-1") by (vm_compute; reflexivity).
  assert (He : environmentLookup (lo_Env demo_launch) HookEndpointEnv = "/run/ralph.sock") by (vm_compute; reflexivity).
  refine (proj2 (proj1 (managed_success_is_earned true demo_launch (default_polling 1000000000) demo_run OtherStatus demo_supervisor (λ _, false) _ _)) _);
    [by rewrite Hs|by rewrite He|]. rewrite Hs, He.
  split; [split_and!; try done; vm_compute; by eexists|]. split; [split_and!; try done; by eexists|]. split; [done|]. split; [done|].
  exists 1, (mkHookReply true "acceptance_passed"). split_and!; [vm_compute; lia|done..|].
  intros i Hi. assert (i = 0) as -> by lia. split; [done|]. eexists. split_and!; [reflexivity|done|by left].
Defined.
