(* ===== verification/VConfig.v ===== *)
(** * Virtual configuration: [internal/vconfig] and [--init]

    The layers a project's configuration is resolved through, what a change writes
    and an override does not ([vconfig.go], [source.go], [effective.go], [diff.go],
    [validate.go]), and the headless init that decides which values of a file reach
    the store ([cmd/radioactive_ralph/init_cmd.go]). The store is behind an
    interface, as in the code; viper and the files are given, and so is the JSON text
    of a value. *)
From Stdlib Require Import SpecFloat.
From S2P Require Import Prelude GoLib Provider CmdResolver StoreModel StoreSql StoreProjects StoreProjectsProps SupDrive.

(** ** Values *)

(** An [any] as TOML and JSON decode it - [int64] in the one, [float64] for every
    number in the other - and the [[]string] of a provider selection. Tables have
    their keys in order. *)
Inductive cval :=
| CNil | CBool (b : bool) | CInt (n : Z) | CFloat (f : spec_float) | CString (s : string)
| CList (l : list cval) | CTable (t : list (string * cval)) | CStrings (l : list string).

Abbreviation Settings := (gmap string cval).

(** [reflect.DeepEqual]. *)
Fixpoint deep_equal (a b : cval) {struct a} : bool :=
  let fix all (l1 l2 : list cval) : bool :=
    match l1, l2 with
    | [], [] => true
    | x :: l1, y :: l2 => deep_equal x y && all l1 l2
    | _, _ => false
    end in
  let fix members (t1 t2 : list (string * cval)) : bool :=
    match t1, t2 with
    | [], [] => true
    | (k1, x) :: t1, (k2, y) :: t2 => bool_decide (k1 = k2) && deep_equal x y && members t1 t2
    | _, _ => false
    end in
  match a, b with
  | CNil, CNil => true
  | CBool x, CBool y => eqb x y
  | CInt x, CInt y => (x =? y)%Z
  | CFloat x, CFloat y => SFeqb x y
  | CString x, CString y => bool_decide (x = y)
  | CList x, CList y => all x y
  | CTable x, CTable y => members x y
  | CStrings x, CStrings y => bool_decide (x = y)
  | _, _ => false
  end.

(** What [json.Marshal] writes, none on an error, and what [json.Unmarshal] reads. *)
Class Wire := { Marshal : cval → option string; Unmarshal : string → option cval }.

(** A value after it has been written and read. *)
Definition float_of_int (n : Z) : spec_float := binary_normalize 53 1024 n 0 false.
Fixpoint shape (v : cval) : cval :=
  match v with
  | CInt n => CFloat (float_of_int n)
  | CList l => CList (shape <$> l)
  | CTable t => CTable ((λ kv, (kv.1, shape kv.2)) <$> t)
  | CStrings l => CList (CString <$> l)
  | _ => v
  end.

(** What the selection of providers tells apart. *)
Fixpoint to_value (v : cval) : Value :=
  match v with
  | CString s => VString s
  | CBool b => VBool b
  | CList l => VList (to_value <$> l)
  | CTable t => VTable ((λ kv, (kv.1, to_value kv.2)) <$> t)
  | CStrings l => VList (VString <$> l)
  | CNil | CInt _ | CFloat _ => VOther
  end.

(** ** Where configuration comes from *)

(** [ConfigSource], over the state behind it. *)
Record ConfigSource (S E : Type) := mkSource {
  UserScopeProject : SM S E string;
  ProjectConfigValues : string → SM S E (gmap string string);
  ApplyProjectConfigValues : string → gmap string string → list string → SM S E unit }.
Arguments UserScopeProject {S E}.
Arguments ProjectConfigValues {S E}.
Arguments ApplyProjectConfigValues {S E}.

Section Sources.
Context `{CostOps}.

(** [StoreConfigSource]: [resolved] is what others do before a project is created, and
    [uuid] the identifier it gets. *)
Definition StoreConfigSource (resolved : Registry → Registry) (uuid : string) : ConfigSource Registry StoreError :=
  mkSource _ _ (UserScopeProjectID resolved uuid) (λ projectID, sget (GetProjectConfig projectID)) ApplyProjectConfig.

(** [supervisorConfigSource] ([config_source.go]): each request on a connection of its
    own, which may not come about, or be lost with the reply; and the user's
    project, kept with its values. *)
Inductive Link := LinkUp | LinkDown | ReplyLost.
Inductive ClientError := ErrNoSupervisor | ErrLost | ErrRefused (e : DriveError).
Record ConfigClient := mkClient { cl_registry : Registry; cl_user : option (string * gmap string string); cl_links : list Link }.

(** One request: what it is to the supervisor, and what becomes of its reply. *)
Definition request {A} (handle : SM Registry DriveError A) : SM ConfigClient ClientError A := λ c,
  let rest := tl (cl_links c) in
  match default LinkUp (head (cl_links c)) with
  | LinkDown => (Err ErrNoSupervisor, mkClient (cl_registry c) (cl_user c) rest)
  | link =>
      let '(r, g) := handle (cl_registry c) in
      (match link, r with
       | ReplyLost, _ => Err ErrLost
       | _, Ok a => Ok a
       | _, Err e => Err (ErrRefused e)
       end, mkClient g (cl_user c) rest)
  end.
Definition client_user (u : string) (values : gmap string string) : ConfigClient → ConfigClient :=
  λ c, mkClient (cl_registry c) (if decide (u = "") then cl_user c else Some (u, values)) (cl_links c).

Definition client_UserScopeProject (resolved : Registry → Registry) (uuid : string) : SM ConfigClient ClientError string :=
  let! user := sget cl_user in
  match user with
  | Some (id, _) => sret id
  | None =>
      let! reply := request (HandleProjectConfigGet resolved uuid "" true) in
      do! smod (client_user reply.2 reply.1) in
      sret reply.2
  end.
Definition client_ProjectConfigValues (resolved : Registry → Registry) (uuid projectID : string)
    : SM ConfigClient ClientError (gmap string string) :=
  let! user := sget cl_user in
  match (match user with Some (id, values) => if decide (projectID = id) then Some values else None | None => None end) with
  | Some values => sret values
  | None => let! reply := request (HandleProjectConfigGet resolved uuid projectID false) in sret reply.1
  end.
Definition client_ApplyProjectConfigValues (resolved : Registry → Registry) (uuid projectID : string)
    (upserts : gmap string string) (deleteKeys : list string) : SM ConfigClient ClientError unit :=
  if bool_decide (upserts = ∅) && bool_decide (deleteKeys = []) then sret tt
  else
    let! user := sget cl_user in
    let user_scope := match user with Some (id, _) => bool_decide (projectID = id) | None => false end in
    request (HandleProjectConfigApply resolved uuid (if user_scope then "" else projectID) user_scope upserts deleteKeys).
Definition supervisorConfigSource (resolved : Registry → Registry) (uuid : string) : ConfigSource ConfigClient ClientError :=
  mkSource _ _ (client_UserScopeProject resolved uuid) (client_ProjectConfigValues resolved uuid) (client_ApplyProjectConfigValues resolved uuid).
End Sources.

(** Viper: an instance, its defaults, the merge of a file - none when it cannot be
    read or parsed -, and the settings it comes to. *)
Class Viper := {
  viper : Type;
  viper_New : viper;
  SetDefault : string → cval → viper → viper;
  MergeInConfig : string → viper → option viper;
  AllSettings : viper → Settings }.

Inductive ConfigError (E : Type) :=
| SourceError (e : E) | ErrDecodeStored (key : string) | ErrMergeFile (path : string) | ErrNoSource | ErrEncode (key : string)
| ErrSelection (e : SelectError) | ErrMissing (keys : list string).
Arguments SourceError {E}.
Arguments ErrDecodeStored {E}.
Arguments ErrMergeFile {E}.
Arguments ErrNoSource {E}.
Arguments ErrEncode {E}.
Arguments ErrSelection {E}.
Arguments ErrMissing {E}.

Record UserConfig := mkUserConfig { uc_Values : Settings; uc_Projects : gmap string Settings }.
Inductive Mode := ModeChange | ModeOverride.

Section Config.
Context `{Wire} `{Viper} {S E : Type}.
Implicit Types src : option (ConfigSource S E).

Definition lift {A} (m : SM S E A) : SM S (ConfigError E) A :=
  λ s, match m s with (Ok a, s') => (Ok a, s') | (Err e, s') => (Err (SourceError e), s') end.
Definition of_result {A} (r : result (ConfigError E) A) : SM S (ConfigError E) A := λ s, (r, s).

(** The keys are read in any order, so any one that does not decode is named. *)
Definition decodeConfigValues (raw : gmap string string) : result (ConfigError E) Settings :=
  match base.filter (λ kv, Unmarshal kv.2 = None) (map_to_list raw) with
  | [] => Ok (omap Unmarshal raw)
  | kv :: _ => Err (ErrDecodeStored kv.1)
  end.

Definition loadSourceConfig src (projectID : string) : SM S (ConfigError E) Settings :=
  match src with
  | None => sret ∅
  | Some src => let! raw := lift (ProjectConfigValues src projectID) in of_result (decodeConfigValues raw)
  end.

Definition mergeFileInto (path : string) (v : viper) : result (ConfigError E) viper :=
  if decide (path = "") then Ok v
  else match MergeInConfig path v with Some v' => Ok v' | None => Err (ErrMergeFile path) end.

(** A table's members, the last of a key. *)
Definition table_settings (v : cval) : option Settings :=
  match v with CTable t => Some (list_to_map t) | _ => None end.
Definition projectsStanzaKey : string := "projects".
Definition extractProjectsStanza (all : Settings) : gmap string Settings :=
  match all !! projectsStanzaKey ≫= table_settings with
  | Some projects => omap table_settings projects
  | None => ∅
  end.

Definition ResolveUserFrom src (configFile userConfigFile : string) : SM S (ConfigError E) UserConfig :=
  let! defaults := match src with
                   | None => sret ∅
                   | Some source => let! userProjectID := lift (UserScopeProject source) in loadSourceConfig src userProjectID
                   end in
  let v := map_fold SetDefault viper_New (defaults : Settings) in
  let! v := of_result (mergeFileInto configFile v) in
  let! v := of_result (mergeFileInto userConfigFile v) in
  sret (mkUserConfig (delete projectsStanzaKey (AllSettings v)) (extractProjectsStanza (AllSettings v))).

(** [mergeMapInto] a copy of the other: the overlay's keys win. *)
Definition overlaid (base overlay : Settings) : Settings := overlay ∪ base.

Definition ResolveProjectsFrom src (userCfg : UserConfig) (projectID : string) : SM S (ConfigError E) Settings :=
  let! base := loadSourceConfig src projectID in
  sret (match uc_Projects userCfg !! projectID with Some overlay => overlaid base overlay | None => base end).

(** The values' texts, or a key whose value has none. *)
Definition encodeProjectConfigValues (values : Settings) : result (ConfigError E) (gmap string string) :=
  match base.filter (λ kv, Marshal kv.2 = None) (map_to_list values) with
  | [] => Ok (omap Marshal values)
  | kv :: _ => Err (ErrEncode kv.1)
  end.

Definition EffectiveProjectFromValuesFrom src (projectsCfg : Settings) (projectID : string) (overlay : Settings) (mode : Mode)
    : SM S (ConfigError E) Settings :=
  let merged := overlaid projectsCfg overlay in
  match mode with
  | ModeOverride => sret merged
  | ModeChange =>
      match src with
      | None => sfail ErrNoSource
      | Some src =>
          let! upserts := of_result (encodeProjectConfigValues overlay) in
          if decide (upserts = ∅) then sret merged
          else do! lift (ApplyProjectConfigValues src projectID upserts []) in sret merged
      end
  end.

Definition LoadFileValues (path : string) : result (ConfigError E) Settings :=
  match MergeInConfig path viper_New with Some v => Ok (AllSettings v) | None => Err (ErrMergeFile path) end.

Definition EffectiveProjectFrom src (projectsCfg : Settings) (projectID projectConfigFile : string) (mode : Mode) : SM S (ConfigError E) Settings :=
  if decide (projectConfigFile = "") then sret projectsCfg
  else let! overlay := of_result (LoadFileValues projectConfigFile) in EffectiveProjectFromValuesFrom src projectsCfg projectID overlay mode.

(** ** Conflicts *)

(** A key with the stored and the incoming value. *)
Abbreviation Conflict := (string * (cval * cval))%type.
Definition DiffConflicts (stored incoming : Settings) : list Conflict :=
  base.filter (λ c, deep_equal c.2.1 c.2.2 = false) (map_to_list (map_zip stored incoming)).
Definition AutoRemove (incoming : Settings) (conflicts : list Conflict) : Settings :=
  foldl (λ out c, delete c.1 out) incoming conflicts.

(** ** Required keys *)

Definition isEmptyValue (v : cval) : bool :=
  match v with CNil | CString EmptyString | CList [] | CTable [] => true | _ => false end.
Definition Validate (cfg : Settings) (required : list string) : list string :=
  base.filter (λ key, match cfg !! key with Some v => isEmptyValue v | None => true end = true) required.

(** ** Init *)

Definition providersConfigKey : string := "providers".
Definition providerConfigKey : string := "provider".

Definition selection_of (values : Settings) : result (ConfigError E) (option (list string)) :=
  match providerSelectionFromValues (to_value <$> values) with Ok names => Ok names | Err e => Err (ErrSelection e) end.
Definition normalizeIncomingProviderSelection (values : Settings) : result (ConfigError E) (Settings * bool) :=
  try found := selection_of values in
  Ok (match found with
      | None => (values, false)
      | Some names => (<[providersConfigKey := CStrings names]> (delete providerConfigKey values), true)
      end).

(** [resolveProviderNamesFromUserConfigSource], for its errors. *)
Definition resolveProviderNamesFromUserConfigSource src (userCfg : UserConfig) (projectID : string) : SM S (ConfigError E) (list string) :=
  let! stanza := of_result (match uc_Projects userCfg !! projectID with Some overlay => selection_of overlay | None => Ok None end) in
  match stanza with
  | Some names => sret names
  | None =>
      let! stored := ResolveProjectsFrom src (mkUserConfig ∅ ∅) projectID in
      let! names := of_result (selection_of stored) in
      match names with
      | Some names => sret names
      | None => let! user := of_result (selection_of (uc_Values userCfg)) in sret (default [] user)
      end
  end.

(** What is printed about conflicts. *)
Inductive Notice := Overrides (conflicts : list Conflict) | Skips (conflicts : list Conflict).

(** The overlay of a file over the project's values, with what is said of it. *)
Definition init_overlay (force : bool) (projectsCfg incoming : Settings) (selectionFound : bool) : Settings * option Notice :=
  let conflictInput := if selectionFound then delete providersConfigKey incoming else incoming in
  match DiffConflicts projectsCfg conflictInput with
  | [] => (incoming, None)
  | conflicts => if force then (incoming, Some (Overrides conflicts)) else (AutoRemove incoming conflicts, Some (Skips conflicts))
  end.

Definition requiredKeys : list string := [].

(** What follows the notice: the checks of the whole, and the write. *)
Definition init_apply (source : ConfigSource S E) (userCfg : UserConfig) (base : Settings) (projectID : string) (overlay : Settings)
    (selectionFound : bool) : SM S (ConfigError E) unit :=
  let! effective := EffectiveProjectFromValuesFrom (Some source) base projectID overlay ModeOverride in
  let! encoded := of_result (encodeProjectConfigValues overlay) in
  do! (if selectionFound then sret [] else resolveProviderNamesFromUserConfigSource (Some source) userCfg projectID) in
  match Validate effective requiredKeys with
  | [] => lift (ApplyProjectConfigValues source projectID encoded (if selectionFound then [providerConfigKey] else []))
  | missing => sfail (ErrMissing missing)
  end.

(** [validateProjectConfig] with a file, and then from the values of the flags. What
    it prints it prints when it comes to the overlay, whatever follows. *)
Definition init_file (source : ConfigSource S E) (userCfg : UserConfig) (projectsCfg : Settings) (force : bool) (projectID file : string)
    : SM S (ConfigError E) (option Notice * result (ConfigError E) unit) :=
  let! loaded := of_result (LoadFileValues file) in
  let! normalized := of_result (normalizeIncomingProviderSelection loaded) in
  let overlay := init_overlay force projectsCfg normalized.1 normalized.2 in
  let base := if normalized.2 then delete providerConfigKey projectsCfg else projectsCfg in
  λ s, let '(r, s') := init_apply source userCfg base projectID overlay.1 normalized.2 s in (Ok (overlay.2, r), s').

Definition validateProjectConfig (source : ConfigSource S E) (configFile userConfigFile projectConfigFile : string) (force : bool) (projectID : string)
    : SM S (ConfigError E) (option Notice * result (ConfigError E) unit) :=
  let! userCfg := ResolveUserFrom (Some source) configFile userConfigFile in
  let! projectsCfg := ResolveProjectsFrom (Some source) userCfg projectID in
  if decide (projectConfigFile = "") then
    let! effective := EffectiveProjectFrom (Some source) projectsCfg projectID "" ModeChange in
    do! resolveProviderNamesFromUserConfigSource (Some source) userCfg projectID in
    match Validate effective requiredKeys with
    | [] => sret (None, Ok tt)
    | missing => sfail (ErrMissing missing)
    end
  else init_file source userCfg projectsCfg force projectID projectConfigFile.
End Config.

(** ** The promise of a source *)

(** The configuration of a project was changed as asked, and no other. *)
Definition written (p : string) (upserts : gmap string string) (dels : list string) (before after : string → gmap string string) : Prop :=
  after p = upserts ∪ filter (λ kv, kv.1 ∉ dels) (before p) ∧ ∀ q, q ≠ p → after q = before q.

(** A source shows the values of some store: its user's project changes none, its
    reads are exact, and a write happens whole or not at all - whole, also when an
    error says that it is not known. [ok] is what the source keeps of itself, [free] the
    projects whose values it has not kept. *)
Record SourceLaws {S E} (src : ConfigSource S E) (values : S → string → gmap string string) (ok : S → Prop) (free : S → string → Prop) : Prop := {
  user_quiet : ∀ s r s', ok s → UserScopeProject src s = (r, s') →
    ok s' ∧ values s' = values s ∧ ∀ p, free s p → (∀ id, r = Ok id → id ≠ p) → free s' p;
  read_exact : ∀ p s r s', ok s → ProjectConfigValues src p s = (r, s') →
    ok s' ∧ values s' = values s ∧ (∀ q, free s q → free s' q) ∧ ∀ m, r = Ok m → m = values s p;
  write_exact : ∀ p upserts dels s r s', ok s → free s p → ApplyProjectConfigValues src p upserts dels s = (r, s') →
    ok s' ∧ (written p upserts dels (values s) (values s') ∨ r ≠ Ok tt ∧ values s' = values s) }.

(** ** The store behind it *)

Section Implementations.
Context `{CostOps}.

(** Others may touch the projects, but not the configuration. *)
Definition leaves_config (resolved : Registry → Registry) : Prop := ∀ g, rg_config (resolved g) = rg_config g.

Lemma config_of_fields g g' : rg_config g' = rg_config g → (λ p, GetProjectConfig p g') = (λ p, GetProjectConfig p g).
Proof. intros Hc. unfold GetProjectConfig. by rewrite Hc. Qed.

Lemma insert_leaves_config p fps now g : rg_config (insertIdentifiers p fps now g).2 = rg_config g.
Proof.
  unfold insertIdentifiers. revert g. induction fps as [|fp fps IH]; intros g; [done|]. cbn [sfor]. unfold sbind at 1.
  destruct (blank fp); [apply IH|]. unfold sbind at 1, sget at 1. cbn beta iota. unfold sbind at 1, sget at 1. cbn beta iota.
  destruct (_ || _); [|done]. unfold smod. rewrite IH. done.
Qed.

Lemma CreateProject_leaves_config uuid name fps g : rg_config (CreateProject uuid name fps g).2 = rg_config g.
Proof.
  unfold CreateProject, atomically. unfold sbind at 1, sget at 1. cbn beta iota. unfold sbind at 1, sget at 1. cbn beta iota.
  destruct (has uuid (rg_projects g)); [done|]. unfold sbind at 1, smod at 1. cbn beta iota. unfold sbind at 1.
  pose proof (insert_leaves_config uuid fps (rg_now g) (set_rg_projects <[uuid := mkProject (nullIfEmpty name) (rg_now g) (rg_now g) (Some (rg_now g))]> g)) as Hi.
  destruct (insertIdentifiers _ _ _ _) as [[[]|e] g']; [exact Hi|done].
Qed.

Lemma user_scope_leaves_config resolved uuid g : leaves_config resolved → rg_config (UserScopeProjectID resolved uuid g).2 = rg_config g.
Proof.
  intros Hr. unfold UserScopeProjectID. destruct (ResolveProject _ _); [apply Hr|]. rewrite CreateProject_leaves_config. apply Hr.
Qed.

Theorem store_source_lawful resolved uuid : leaves_config resolved →
  SourceLaws (StoreConfigSource resolved uuid) (λ g p, GetProjectConfig p g) (λ _, True) (λ _ _, True).
Proof.
  intros Hr. split.
  - intros g r g' _ Hu. split_and!; [done| |done]. apply config_of_fields. pose proof (user_scope_leaves_config resolved uuid g Hr) as Hc.
    cbn in Hu. by rewrite Hu in Hc.
  - intros p g r g' _ [= <- <-]. split_and!; [done..|]. by intros m [= <-].
  - intros p upserts dels g r g' _ _ Ha. split; [done|]. destruct (ApplyProjectConfig_exact p upserts dels g r g' Ha) as [Hx _].
    destruct r as [[]|e]; [by left|right]. subst g'. done.
Qed.

(** ** The supervisor in front of it *)

Definition client_values (c : ConfigClient) (p : string) : gmap string string := GetProjectConfig p (cl_registry c).
Definition client_ok (c : ConfigClient) : Prop :=
  match cl_user c with Some (u, m) => m = GetProjectConfig u (cl_registry c) | None => True end.
Definition client_free (c : ConfigClient) (p : string) : Prop := match cl_user c with Some (u, _) => p ≠ u | None => True end.

Lemma request_run {A} (handle : SM Registry DriveError A) c :
  let '(r, c') := request handle c in
  cl_user c' = cl_user c ∧
  (r = Err ErrNoSupervisor ∧ cl_registry c' = cl_registry c ∨
   cl_registry c' = (handle (cl_registry c)).2 ∧ (∀ a, r = Ok a → (handle (cl_registry c)).1 = Ok a)).
Proof.
  unfold request. destruct (default LinkUp (head (cl_links c))).
  - destruct (handle (cl_registry c)) as [[a|e] g]; cbn; split; [done| |done|]; right; split; [done| |done|]; [by intros ? [= <-]|done].
  - cbn. split; [done|]. by left.
  - destruct (handle (cl_registry c)) as [r g]; cbn. split; [done|]. by right.
Qed.

Lemma get_leaves_config resolved uuid p user g : leaves_config resolved → rg_config (HandleProjectConfigGet resolved uuid p user g).2 = rg_config g.
Proof.
  intros Hr. unfold HandleProjectConfigGet, resolveConfigProject. destruct user.
  - destruct (negb _); [done|]. pose proof (user_scope_leaves_config resolved uuid g Hr) as Hu. destruct (UserScopeProjectID _ _ _) as [[id|e] g']; exact Hu.
  - by case_decide.
Qed.

Lemma get_exact resolved uuid p user g m id : (HandleProjectConfigGet resolved uuid p user g).1 = Ok (m, id) →
  m = GetProjectConfig id (HandleProjectConfigGet resolved uuid p user g).2 ∧ (user = false → id = p).
Proof.
  unfold HandleProjectConfigGet, resolveConfigProject. destruct user.
  - destruct (negb _); [done|]. destruct (UserScopeProjectID _ _ _) as [[u|e] g']; [|done]. by intros [= <- <-].
  - case_decide; [done|]. by intros [= <- <-].
Qed.

Lemma apply_exact resolved uuid p upserts dels g : let '(r, g') := HandleProjectConfigApply resolved uuid p false upserts dels g in
  written p upserts dels (λ q, GetProjectConfig q g) (λ q, GetProjectConfig q g') ∧ r = Ok tt ∨ r ≠ Ok tt ∧ g' = g.
Proof.
  unfold HandleProjectConfigApply, resolveConfigProject. destruct (_ && _); [by right|]. case_decide; [by right|].
  destruct (ApplyProjectConfig p upserts dels g) as [r g'] eqn:Ha. destruct (ApplyProjectConfig_exact p upserts dels g r g' Ha) as [Hx _].
  destruct r as [[]|e]; [by left|by right].
Qed.

Theorem supervisor_source_lawful resolved uuid : leaves_config resolved →
  SourceLaws (supervisorConfigSource resolved uuid) client_values client_ok client_free.
Proof.
  intros Hr. assert (Hvals : ∀ c c', rg_config (cl_registry c') = rg_config (cl_registry c) → client_values c' = client_values c) by (intros c c'; apply config_of_fields).
  split.
  - intros c r c' Hok. cbn. unfold client_UserScopeProject, sbind at 1, sget. cbn beta iota. destruct (cl_user c) as [[u m]|] eqn:Hu; [by intros [= <- <-]|].
    unfold sbind at 1. pose proof (request_run (HandleProjectConfigGet resolved uuid "" true) c) as Hq. destruct (request _ c) as [q c1].
    destruct Hq as [Hsame Hq]. assert (Hc1 : client_values c1 = client_values c).
    { apply Hvals. destruct Hq as [[_ ->]|[-> _]]; [done|by apply get_leaves_config]. }
    destruct q as [[m id]|e]; intros [= <- <-].
    + destruct Hq as [[? _]|[Hg Hm]]; [done|]. specialize (Hm _ eq_refl). destruct (get_exact _ _ _ _ _ _ _ Hm) as [-> _]. rewrite <- Hg in *.
      unfold client_ok, client_free, client_user. cbn. case_decide; [by rewrite Hsame, Hu|]. split_and!; [done|exact Hc1|].
      intros p _ Hp Heq. exact (Hp id eq_refl (eq_sym Heq)).
    + unfold client_ok, client_free. rewrite Hsame, Hu. done.
  - intros p c r c' Hok. cbn. unfold client_ProjectConfigValues, sbind at 1, sget. cbn beta iota.
    destruct (match cl_user c with Some (id, values) => if decide (p = id) then Some values else None | None => None end) as [m|] eqn:Hcache.
    { intros [= <- <-]. split_and!; [done..|]. intros m' [= <-]. unfold client_ok in Hok. destruct (cl_user c) as [[u mu]|]; [|done].
      case_decide as Hp; [|done]. injection Hcache as ->. by subst p. }
    clear Hcache. pose proof (request_run (HandleProjectConfigGet resolved uuid p false) c) as Hq. destruct (request _ c) as [q c1].
    destruct Hq as [Hsame Hq]. assert (Hc1 : client_values c1 = client_values c).
    { apply Hvals. destruct Hq as [[_ ->]|[-> _]]; [done|by apply get_leaves_config]. }
    assert (Hkeep : client_ok c1 ∧ client_values c1 = client_values c ∧ ∀ q, client_free c q → client_free c1 q).
    { split_and!; [|exact Hc1|by unfold client_free; rewrite Hsame]. unfold client_ok in *. rewrite Hsame. destruct (cl_user c) as [[u mu]|]; [|done].
      subst mu. exact (eq_sym (f_equal (λ f, f u) Hc1)). }
    destruct Hkeep as (H1 & H2 & H3). destruct q as [[m id]|e]; intros [= <- <-]; [|by split_and!]. split_and!; [done..|].
    intros m' [= <-]. destruct Hq as [[? _]|[Hg Hm]]; [done|]. specialize (Hm _ eq_refl). destruct (get_exact _ _ _ _ _ _ _ Hm) as [-> Hidp].
    rewrite (Hidp eq_refl), <- Hg. exact (f_equal (λ f, f p) Hc1).
  - intros p upserts dels c r c' Hok Hfree. cbn. unfold client_ApplyProjectConfigValues. destruct (_ && _) eqn:Hempty.
    { intros [= <- <-]. split; [done|]. left. apply andb_true_iff in Hempty as [->%bool_decide_eq_true ->%bool_decide_eq_true].
      split; [|done]. rewrite (left_id_L ∅ union). symmetry. apply map_filter_id. intros k x _. apply not_elem_of_nil. }
    unfold sbind at 1, sget. cbn beta iota.
    assert (Hscope : match cl_user c with Some (id, _) => bool_decide (p = id) | None => false end = false).
    { unfold client_free in Hfree. destruct (cl_user c) as [[u m]|]; [|done]. by apply bool_decide_eq_false. }
    rewrite Hscope. pose proof (request_run (HandleProjectConfigApply resolved uuid p false upserts dels) c) as Hq.
    destruct (request _ c) as [q c1]. destruct Hq as [Hsame Hq]. intros [= <- <-].
    pose proof (apply_exact resolved uuid p upserts dels (cl_registry c)) as Ha. destruct (HandleProjectConfigApply _ _ _ _ _ _ _) as [ra ga]. cbn [fst snd] in Hq.
    assert (Hdone : written p upserts dels (client_values c) (client_values c1) ∨ q ≠ Ok tt ∧ client_values c1 = client_values c).
    { destruct Hq as [[-> Hg]|[Hg Hm]]; [right; split; [done|]; apply Hvals; by rewrite Hg|].
      destruct Ha as [[Hw _]|[Hn ->]]; [left; unfold client_values; by rewrite Hg|]. right. split; [|apply Hvals; by rewrite Hg].
      intros ->. by apply Hn, Hm. }
    split; [|done]. unfold client_ok, client_free in *. rewrite Hsame. destruct (cl_user c) as [[u m]|]; [|done]. subst m.
    destruct Hdone as [[_ Hoth]|[_ Heq]]; [symmetry; by apply Hoth|]. exact (eq_sym (f_equal (λ f, f u) Heq)).
Qed.
End Implementations.

(** ** Conflicts *)

(** An integer is never written as NaN: rounding keeps the mantissa's sign. *)
Lemma shr_1_nonneg mrs : (0 ≤ shr_m mrs → 0 ≤ shr_m (shr_1 mrs))%Z.
Proof. destruct mrs as [[|[p|p|]|[p|p|]] r s]; simpl; lia. Qed.
Lemma shr_nonneg mrs e n : (0 ≤ shr_m mrs → 0 ≤ shr_m (shr mrs e n).1)%Z.
Proof.
  destruct n as [|p|p]; [done| |done]. cbn [shr fst]. revert mrs. induction p as [p IH|p IH|]; intros mrs Hm; cbn [iter_pos].
  - by apply IH, IH, shr_1_nonneg.
  - by apply IH, IH.
  - by apply shr_1_nonneg.
Qed.
Lemma shr_fexp_nonneg prec emax m e l : (0 ≤ m → 0 ≤ shr_m (shr_fexp prec emax m e l).1)%Z.
Proof. intros Hm. unfold shr_fexp. apply shr_nonneg. by destruct l as [|[]]. Qed.
Lemma round_nonneg m l : (0 ≤ m → 0 ≤ round_nearest_even m l)%Z.
Proof. unfold round_nearest_even. repeat case_match; lia. Qed.
Lemma binary_round_number sx m e : binary_round_aux 53 1024 sx (Zpos m) e loc_Exact ≠ S754_nan.
Proof.
  unfold binary_round_aux. pose proof (shr_fexp_nonneg 53 1024 (Zpos m) e loc_Exact ltac:(lia)) as H1.
  destruct (shr_fexp 53 1024 (Zpos m) e loc_Exact) as [mrs e1]. cbn [fst] in H1.
  pose proof (shr_fexp_nonneg 53 1024 _ e1 loc_Exact (round_nonneg _ (loc_of_shr_record mrs) H1)) as H2.
  destruct (shr_fexp _ _ _ e1 loc_Exact) as [mrs' e2]. cbn [fst] in H2. destruct (shr_m mrs'); [done| |lia]. by destruct (_ <=? _)%Z.
Qed.
Lemma float_of_int_number n : float_of_int n ≠ S754_nan.
Proof.
  destruct n as [|m|m]; [done| |]; unfold float_of_int, binary_normalize, binary_round; destruct (shl_align _ _ _) as [mz ez]; apply binary_round_number.
Qed.
Lemma SFeqb_refl f : f ≠ S754_nan → SFeqb f f = true.
Proof. unfold SFeqb. destruct f as [s|s| |s m e]; try done; [by destruct s|]. intros _. simpl. rewrite Z.compare_refl, Pos.compare_refl. by destruct s. Qed.

Lemma texts_equal l : deep_equal (CList (CString <$> l)) (CList (CString <$> l)) = true.
Proof. induction l as [|x l IH]; [done|]. simpl. rewrite bool_decide_true by done. exact IH. Qed.

(** Values equal before they are written are equal after. *)
Lemma deep_equal_shape : ∀ a b, deep_equal a b = true → deep_equal (shape a) (shape b) = true.
Proof.
  fix IH 1. intros [ |x|x|x|x|l|t|l] [ |y|y|y|y|l'|t'|l']; try done.
  - intros ->%Z.eqb_eq. apply SFeqb_refl, float_of_int_number.
  - revert l l'. fix IHl 1. intros [|x l] [|y l']; try done. intros [H1 H2]%andb_true_iff. apply andb_true_iff. split; [exact (IH x y H1)|exact (IHl l l' H2)].
  - revert t t'. fix IHt 1. intros [|[j x] t] [|[k y] t']; try done. intros [[H0 H1]%andb_true_iff H2]%andb_true_iff. apply andb_true_iff.
    split; [apply andb_true_iff; split; [exact H0|exact (IH x y H1)]|exact (IHt t t' H2)].
  - intros ->%bool_decide_eq_true. apply texts_equal.
Qed.

Lemma DiffConflicts_exact stored incoming k old new :
  (k, (old, new)) ∈ DiffConflicts stored incoming ↔ stored !! k = Some old ∧ incoming !! k = Some new ∧ deep_equal old new = false.
Proof.
  unfold DiffConflicts. rewrite list_elem_of_filter, elem_of_map_to_list, map_lookup_zip_Some. cbn. tauto.
Qed.

Lemma AutoRemove_lookup incoming conflicts k :
  AutoRemove incoming conflicts !! k = if decide (k ∈ conflicts.*1) then None else incoming !! k.
Proof.
  unfold AutoRemove. revert incoming. induction conflicts as [|[k' c] conflicts IH]; intros incoming; [done|]. cbn [foldl fst fmap list_fmap]. rewrite IH.
  destruct (decide (k ∈ conflicts.*1)) as [Hin|Hin]; [by rewrite decide_True by (by right)|].
  destruct (decide (k' = k)) as [->|Hne]; [by rewrite lookup_delete_eq, decide_True by left|].
  rewrite lookup_delete_ne by done. rewrite decide_False; [done|]. by intros [->|?]%elem_of_cons.
Qed.

(** ** Texts *)

Section Texts.
Context `{Wire} {E : Type}.

Lemma encode_exact values encoded : encodeProjectConfigValues (E:=E) values = Ok encoded →
  ∀ k, encoded !! k = values !! k ≫= Marshal ∧ (is_Some (values !! k) → is_Some (encoded !! k)).
Proof.
  unfold encodeProjectConfigValues. destruct (base.filter _ _) as [|kv rest] eqn:Hf; [|done]. intros [= <-] k. rewrite lookup_omap. split; [done|].
  intros [v Hv]. rewrite Hv. cbn. destruct (Marshal v) eqn:Hm; [by eexists|]. exfalso.
  assert (Hin : (k, v) ∈ base.filter (λ kv, Marshal kv.2 = None) (map_to_list values)) by (apply list_elem_of_filter; split; [done|by apply elem_of_map_to_list]).
  rewrite Hf in Hin. by apply elem_of_nil in Hin.
Qed.

Lemma decode_exact raw decoded : decodeConfigValues (E:=E) raw = Ok decoded → ∀ k, decoded !! k = raw !! k ≫= Unmarshal.
Proof. unfold decodeConfigValues. destruct (base.filter _ _); [|done]. intros [= <-] k. apply lookup_omap. Qed.

(** A file whose values were stored is in conflict with them exactly where a value is
    not what it is after it was written and read. *)
Theorem rerun_conflicts_exactly incoming raw stored k old new : (∀ v text, Marshal v = Some text → Unmarshal text = Some (shape v)) →
  encodeProjectConfigValues (E:=E) incoming = Ok raw → decodeConfigValues (E:=E) raw = Ok stored →
  (k, (old, new)) ∈ DiffConflicts stored incoming ↔ incoming !! k = Some new ∧ old = shape new ∧ deep_equal (shape new) new = false.
Proof.
  intros Hwire He Hd. rewrite DiffConflicts_exact, (decode_exact raw stored Hd). destruct (encode_exact incoming raw He k) as [-> Hsome].
  destruct (incoming !! k) as [v|] eqn:Hv; cbn; [|naive_solver]. destruct (Marshal v) as [text|] eqn:Hm; cbn.
  - rewrite (Hwire v text Hm). naive_solver.
  - exfalso. destruct Hsome as [? Hx]; [by eexists|]. cbn in Hx. by rewrite Hm in Hx.
Qed.

(** Every integer of a file is: its stored form is a float. *)
Lemma integers_conflict n : deep_equal (shape (CInt n)) (CInt n) = false.
Proof. done. Qed.
Lemma texts_agree s : deep_equal (shape (CString s)) (CString s) = true.
Proof. cbn. by rewrite bool_decide_true. Qed.
End Texts.

(** ** Init *)

Section Init.
Context `{Wire} `{Viper} {S E : Type} (src : ConfigSource S E) (values : S → string → gmap string string) (ok : S → Prop) (free : S → string → Prop).
Hypothesis laws : SourceLaws src values ok free.
Variable pid : string.

(** A computation that changes no configuration. *)
Definition quiet {A} (m : SM S (ConfigError E) A) : Prop :=
  ∀ s r s', ok s → m s = (r, s') → ok s' ∧ values s' = values s ∧ (free s pid → free s' pid).

Lemma quiet_ret {A} (a : A) : quiet (sret a).
Proof. intros s r s' Hok [= <- <-]. done. Qed.
Lemma quiet_fail {A} e : quiet (sfail (A:=A) e).
Proof. intros s r s' Hok [= <- <-]. done. Qed.
Lemma quiet_result {A} (x : result (ConfigError E) A) : quiet (of_result x).
Proof. intros s r s' Hok [= <- <-]. done. Qed.
Lemma quiet_bind {A B} (m : SM S (ConfigError E) A) (k : A → SM S (ConfigError E) B) : quiet m → (∀ a, quiet (k a)) → quiet (sbind m k).
Proof.
  intros Hm Hk s r s' Hok. unfold sbind. destruct (m s) as [[a|e] s1] eqn:Hr; destruct (Hm _ _ _ Hok Hr) as (H1 & H2 & H3); [|by intros [= <- <-]].
  intros Hr'. destruct (Hk a _ _ _ H1 Hr') as (H4 & H5 & H6). split_and!; [done|by rewrite H5|auto].
Qed.
Lemma quiet_read p : quiet (lift (ProjectConfigValues src p)).
Proof.
  intros s r s' Hok. unfold lift. destruct (ProjectConfigValues src p s) as [x s1] eqn:Hr. destruct (read_exact _ _ _ _ laws p s x s1 Hok Hr) as (H1 & H2 & H3 & _).
  destruct x; intros [= <- <-]; (split_and!; [done|done|apply H3]).
Qed.
Lemma quiet_load p : quiet (loadSourceConfig (Some src) p).
Proof. apply quiet_bind; [apply quiet_read|intros; apply quiet_result]. Qed.
Lemma quiet_projects userCfg p : quiet (ResolveProjectsFrom (Some src) userCfg p).
Proof. apply quiet_bind; [apply quiet_load|intros; apply quiet_ret]. Qed.
Lemma user_config_run configFile userConfigFile s userCfg s' : ok s → free s pid → (∀ id s1, UserScopeProject src s = (Ok id, s1) → id ≠ pid) →
  ResolveUserFrom (Some src) configFile userConfigFile s = (Ok userCfg, s') → ok s' ∧ values s' = values s ∧ free s' pid.
Proof.
  intros Hok Hfree Hid Hrun. apply sbind_ok in Hrun as (defaults & s1 & Hrun & Hrest). apply sbind_ok in Hrun as (id & s0 & Huser & Hload).
  unfold lift in Huser. destruct (UserScopeProject src s) as [[u|e] su] eqn:Hu; [|done]. injection Huser as -> ->.
  destruct (user_quiet _ _ _ _ laws s _ _ Hok Hu) as (H1 & H2 & H3). assert (Hf : free s0 pid) by (apply H3; [done|]; intros id' [= <-]; by eapply Hid).
  destruct (quiet_load id _ _ _ H1 Hload) as (H4 & H5 & H6).
  assert (Hq : quiet (let v := map_fold SetDefault viper_New (defaults : Settings) in let! v := of_result (mergeFileInto configFile v) in
    let! v := of_result (mergeFileInto userConfigFile v) in sret (mkUserConfig (delete projectsStanzaKey (AllSettings v)) (extractProjectsStanza (AllSettings v))))).
  { apply quiet_bind; [apply quiet_result|]. intros v. apply quiet_bind; [apply quiet_result|]. intros; apply quiet_ret. }
  destruct (Hq _ _ _ H4 Hrest) as (H7 & H8 & H9). split_and!; [done|congruence|auto].
Qed.
Lemma quiet_names userCfg p : quiet (resolveProviderNamesFromUserConfigSource (Some src) userCfg p).
Proof.
  unfold resolveProviderNamesFromUserConfigSource. apply quiet_bind; [apply quiet_result|]. intros [names|]; [apply quiet_ret|].
  apply quiet_bind; [apply quiet_projects|]. intros stored. apply quiet_bind; [apply quiet_result|]. intros [names|]; [apply quiet_ret|].
  apply quiet_bind; [apply quiet_result|]. intros; apply quiet_ret.
Qed.

(** The values a project is resolved to. *)
Lemma resolved_projects userCfg s cfg s' : ok s → ResolveProjectsFrom (Some src) userCfg pid s = (Ok cfg, s') →
  ∃ base, decodeConfigValues (E:=E) (values s pid) = Ok base ∧ cfg = default ∅ (uc_Projects userCfg !! pid) ∪ base.
Proof.
  intros Hok Hr. apply sbind_ok in Hr as (base & s1 & Hload & [= <- <-]). apply sbind_ok in Hload as (raw & s2 & Hread & Hdec).
  unfold lift in Hread. destruct (ProjectConfigValues src pid s) as [[m|e] s3] eqn:Hp; [|done]. injection Hread as -> ->.
  destruct (read_exact _ _ _ _ laws pid s _ _ Hok Hp) as (_ & _ & _ & Hm). rewrite <- (Hm raw eq_refl). unfold of_result in Hdec. injection Hdec as Hdec _.
  exists base. split; [done|]. destruct (uc_Projects userCfg !! pid); [done|]. cbn. by rewrite (left_id_L ∅ union).
Qed.

(** Two values that are not the same once they are written and read. *)
Definition differs (old new : cval) : Prop := deep_equal (shape old) (shape new) = false.

(** A key about which the file and the project disagree, a selection of providers
    apart: its two values, each as its own side decodes it, are not equal. *)
Definition disputed (cfg incoming : Settings) (selection : bool) (k : string) : Prop :=
  (selection = true → k ≠ providersConfigKey) ∧ ∃ old new, cfg !! k = Some old ∧ incoming !! k = Some new ∧ deep_equal old new = false.

Lemma differs_disputed (cfg incoming : Settings) (selection : bool) k old new :
  (selection = true → k ≠ providersConfigKey) → cfg !! k = Some old → incoming !! k = Some new → differs old new → disputed cfg incoming selection k.
Proof.
  intros Hk Ho Hn Hd. split; [done|]. exists old, new. split_and!; [done..|]. unfold differs in Hd.
  destruct (deep_equal old new) eqn:He; [|done]. apply deep_equal_shape in He. congruence.
Qed.

Lemma init_overlay_exact force cfg incoming selection :
  let '(overlay, notice) := init_overlay force cfg incoming selection in
  (∀ k, disputed cfg incoming selection k → overlay !! k = if force then incoming !! k else None) ∧
  (∀ k, ¬ disputed cfg incoming selection k → overlay !! k = incoming !! k) ∧
  match notice with
  | None => ∀ k, ¬ disputed cfg incoming selection k
  | Some (Overrides conflicts) => force = true ∧ ∀ k, k ∈ conflicts.*1 ↔ disputed cfg incoming selection k
  | Some (Skips conflicts) => force = false ∧ ∀ k, k ∈ conflicts.*1 ↔ disputed cfg incoming selection k
  end.
Proof.
  unfold init_overlay. set (input := if selection then _ else _). assert (Hk : ∀ k, k ∈ (DiffConflicts cfg input).*1 ↔ disputed cfg incoming selection k).
  { intros k. rewrite list_elem_of_fmap. unfold disputed. split.
    - intros ([k' [old new]] & -> & (H1 & H2 & H3)%DiffConflicts_exact). cbn. subst input. destruct selection.
      + apply lookup_delete_Some in H2 as [Hne H2]. split; [intros _; by apply not_eq_sym|]. by exists old, new.
      + split; [done|]. by exists old, new.
    - intros (Hs & old & new & H1 & H2 & H3). exists (k, (old, new)). split; [done|]. apply DiffConflicts_exact. split_and!; [done| |done].
      subst input. destruct selection; [|done]. apply lookup_delete_Some. split; [|done]. by apply not_eq_sym, Hs. }
  clearbody input. destruct (DiffConflicts cfg input) as [|c conflicts] eqn:Hd.
  - assert (Hno : ∀ k, ¬ disputed cfg incoming selection k) by (intros k Hkd; apply Hk in Hkd; by apply elem_of_nil in Hkd).
    split_and!; [intros k Hkd; by destruct (Hno k)|done|done].
  - destruct force; [split_and!; done|]. split_and!; [| |done|done].
    + intros k Hkd. rewrite AutoRemove_lookup. rewrite decide_True by (by apply Hk). done.
    + intros k Hkd. rewrite AutoRemove_lookup. rewrite decide_False by (by rewrite Hk). done.
Qed.

Lemma init_apply_exact userCfg base overlay selection s s' : ok s → free s pid →
  init_apply src userCfg base pid overlay selection s = (Ok tt, s') →
  ∃ encoded, encodeProjectConfigValues (E:=E) overlay = Ok encoded ∧
    written pid encoded (if selection then [providerConfigKey] else []) (values s) (values s').
Proof.
  intros Hok Hfree Hrun. apply sbind_ok in Hrun as (effective & s1 & [= _ <-] & Hrun). apply sbind_ok in Hrun as (encoded & s2 & [= Henc <-] & Hrun).
  apply sbind_ok in Hrun as (names & s3 & Hnames & Hrun).
  assert (Hq : ok s3 ∧ values s3 = values s ∧ (free s pid → free s3 pid)) by (destruct selection; [by injection Hnames as _ <-|by eapply quiet_names]).
  destruct Hq as (Hok3 & Hv3 & Hf3). change (Validate effective requiredKeys) with (@nil string) in Hrun. cbn iota in Hrun. unfold lift in Hrun.
  destruct (ApplyProjectConfigValues src pid encoded _ s3) as [[[]|e] s4] eqn:Happ; [|done]. injection Hrun as ->.
  destruct (write_exact _ _ _ _ laws _ _ _ _ _ _ Hok3 (Hf3 Hfree) Happ) as (_ & [Hw|[? _]]); [|done].
  exists encoded. split; [done|]. by rewrite <- Hv3.
Qed.

(** Whether a key is disputed is told by the notice, so it is decided. *)
Lemma overlay_lookup force cfg incoming selection k : let overlay := (init_overlay force cfg incoming selection).1 in
  (overlay !! k = incoming !! k ∧ (force = true ∨ ¬ disputed cfg incoming selection k)) ∨
  (overlay !! k = None ∧ force = false ∧ disputed cfg incoming selection k).
Proof.
  pose proof (init_overlay_exact force cfg incoming selection) as Ho. destruct (init_overlay force cfg incoming selection) as [overlay note]. destruct Ho as (Ho1 & Ho2 & Ho3).
  assert (Hd : disputed cfg incoming selection k ∨ ¬ disputed cfg incoming selection k).
  { destruct note as [[c|c]|]; [destruct Ho3 as [_ Ho3]|destruct Ho3 as [_ Ho3]|by right; apply Ho3]; rewrite <- Ho3; destruct (decide (k ∈ c.*1)); tauto. }
  cbn. destruct Hd as [Hd|Hd]; [|left; auto]. specialize (Ho1 k Hd). destruct force; [left; auto|by right].
Qed.

(** C28: The headless init applies what it says it applies. When it succeeds, every key
    of the file is stored with the file's value, except the keys in dispute between
    the file and the project's resolved configuration, which is what is stored for
    it overlaid with its stanza of the user configuration of that run: those keep
    their stored value and are exactly the ones the notice lists as skipped, or with
    the override flag are stored and listed as overridden. A key is in dispute when
    its two values, each as its own side decodes it, are not equal; so it is
    whenever they differ once written and read, and it also is, though nothing
    differs once they are, when their decoded types do, as those of an integer of
    the file and of the same integer stored before. A selection of providers is
    always replaced, with its legacy key deleted. Every other key and every other
    project is as it was. *)
Theorem init_applies_what_it_says configFile userConfigFile file force s notice s' :
  ok s → free s pid → (∀ id s1, UserScopeProject src s = (Ok id, s1) → id ≠ pid) → file ≠ "" →
  validateProjectConfig src configFile userConfigFile file force pid s = (Ok (notice, Ok tt), s') →
  ∃ userCfg s1 base loaded incoming selection,
    ResolveUserFrom (Some src) configFile userConfigFile s = (Ok userCfg, s1) ∧
    decodeConfigValues (E:=E) (values s pid) = Ok base ∧ LoadFileValues (E:=E) file = Ok loaded ∧
    normalizeIncomingProviderSelection (E:=E) loaded = Ok (incoming, selection) ∧
    let resolved := default ∅ (uc_Projects userCfg !! pid) ∪ base in
    let disagree := disputed resolved incoming selection in
    (∀ k old new, (selection = true → k ≠ providersConfigKey) → resolved !! k = Some old → incoming !! k = Some new →
       differs old new → disagree k) ∧
    (∀ q, q ≠ pid → values s' q = values s q) ∧
    (∀ k v, incoming !! k = Some v → force = true ∨ ¬ disagree k → is_Some (Marshal v) ∧ values s' pid !! k = Marshal v) ∧
    (∀ k, incoming !! k = None ∨ force = false ∧ disagree k → selection = false ∨ k ≠ providerConfigKey → values s' pid !! k = values s pid !! k) ∧
    (selection = true → values s' pid !! providerConfigKey = None) ∧
    match notice with
    | None => ∀ k, ¬ disagree k
    | Some (Overrides conflicts) => force = true ∧ ∀ k, k ∈ conflicts.*1 ↔ disagree k
    | Some (Skips conflicts) => force = false ∧ ∀ k, k ∈ conflicts.*1 ↔ disagree k
    end.
Proof.
  intros Hok Hfree Hid Hfile Hrun. apply sbind_ok in Hrun as (userCfg & s1 & Huser & Hrun).
  destruct (user_config_run configFile userConfigFile _ _ _ Hok Hfree Hid Huser) as (Hok1 & Hv1 & Hf1).
  apply sbind_ok in Hrun as (cfg & s2 & Hproj & Hrun). destruct (quiet_projects userCfg pid _ _ _ Hok1 Hproj) as (Hok2 & Hv2 & Hf2).
  destruct (resolved_projects userCfg s1 cfg s2 Hok1 Hproj) as (base & Hbase & Hcfg). rewrite Hv1 in Hbase.
  rewrite decide_False in Hrun by done. apply sbind_ok in Hrun as (loaded & s3 & [= Hload <-] & Hrun).
  apply sbind_ok in Hrun as ([incoming selection] & s4 & [= Hnorm <-] & Hrun). cbn [fst snd] in Hrun.
  destruct (init_apply _ _ _ _ _ _ s2) as [r s5] eqn:Happly. injection Hrun as Hnote -> ->.
  apply init_apply_exact in Happly as (encoded & Henc & Hw & Hother); [|done|auto]. rewrite Hv2, Hv1 in Hw, Hother.
  exists userCfg, s1, base, loaded, incoming, selection.
  assert (Hov := overlay_lookup force cfg incoming selection). assert (Henc' := encode_exact _ _ Henc). cbn zeta in Hov.
  do 4 (split; [done|]). cbn zeta. rewrite <- Hcfg. split; [intros *; apply differs_disputed|]. split; [exact Hother|]. split; [|split; [|split]].
  - intros k v Hi Hcase. destruct (Hov k) as [[Hk _]|(_ & Hf & Hd)]; [|destruct Hcase; [congruence|done]].
    destruct (Henc' k) as [Hek Hsome]. rewrite Hk, Hi in Hek, Hsome. cbn in Hek. rewrite Hek in Hsome. destruct Hsome as [text Ht]; [by eexists|].
    rewrite Ht in Hek |- *. split; [by eexists|]. rewrite Hw. by rewrite (lookup_union_Some_l _ _ _ _ Hek).
  - intros k Hcase Hsel. destruct (Henc' k) as [Hek _].
    assert (Hnone : encoded !! k = None).
    { rewrite Hek. destruct (Hov k) as [[-> Hfd]|[-> _]]; [|done]. destruct Hcase as [->|[Hf Hd]]; [done|]. destruct Hfd; [congruence|done]. }
    rewrite Hw, lookup_union_r by done. rewrite map_lookup_filter. destruct (values s pid !! k) as [t|]; [|done]. cbn. rewrite option_guard_True; [done|]. cbn.
    destruct selection; [|apply not_elem_of_nil]. rewrite list_elem_of_singleton. by destruct Hsel.
  - intros ->. apply rbind_ok in Hnorm as ([names|] & _ & [= <-]). destruct (Henc' providerConfigKey) as [Hek _].
    assert (Hnone : encoded !! providerConfigKey = None).
    { rewrite Hek. destruct (Hov providerConfigKey) as [[-> _]|[-> _]]; [|done]. by rewrite lookup_insert_ne, lookup_delete_eq. }
    rewrite Hw, lookup_union_r by done. apply map_lookup_filter_None. right. intros t _ Hn. apply Hn. by left.
  - pose proof (init_overlay_exact force cfg incoming selection) as Ho. destruct (init_overlay force cfg incoming selection) as [overlay note]. destruct Ho as (_ & _ & Ho).
    by rewrite <- Hnote.
Qed.
End Init.

(** ** An init, and the same again *)

Definition quote_mark : string := String "034" "".
#[local] Instance toy_wire : Wire := {
  Marshal v := match v with CInt n => Some (Itoa n) | CString s => Some (quote_mark +:+ s +:+ quote_mark) | _ => None end;
  Unmarshal text := match Atoi text, chars text with
                    | Some n, _ => Some (CFloat (float_of_int n))
                    | None, _ :: rest => Some (CString (of_chars (removelast rest)))
                    | None, [] => None
                    end }.
Definition toy_file : Settings := {["max" := CInt 3; "model" := CString "opus"]}.
#[local] Instance toy_viper : Viper := {|
  viper := Settings; viper_New := ∅; SetDefault := λ k v m, <[k := v]> m;
  MergeInConfig := λ path m, if decide (path = "/project.toml") then Some (toy_file ∪ m) else None;
  AllSettings := λ m, m |}.

Definition demo_client : ConfigClient := mkClient (H:=toy_costs) (demo_registry 0 []) None [].
Definition demo_source : ConfigSource ConfigClient ClientError := supervisorConfigSource (H:=toy_costs) (λ g, g) "u-1".
Definition demo_init (force : bool) : SM ConfigClient (ConfigError ClientError) (option Notice * result (ConfigError ClientError) unit) :=
  validateProjectConfig demo_source "" "" "/project.toml" force "p".

Lemma demo_lawful : SourceLaws demo_source (client_values (H:=toy_costs)) (client_ok (H:=toy_costs)) (client_free (H:=toy_costs)).
Proof. apply (supervisor_source_lawful (H:=toy_costs)). by intros g. Qed.

Definition demo_after : ConfigClient := (demo_init true demo_client).2.

Theorem init_applies_what_it_says_witness :
  client_values (H:=toy_costs) demo_after "p" !! "max" = Some "3" ∧
  client_values (H:=toy_costs) demo_after "p" !! "old" = client_values (H:=toy_costs) demo_client "p" !! "old".
Proof.
  assert (Hrun : demo_init true demo_client = (Ok (None, Ok tt), demo_after)) by (vm_compute; reflexivity).
  destruct (init_applies_what_it_says demo_source _ _ _ demo_lawful "p" "" "" "/project.toml" true demo_client None demo_after) as
    (userCfg & s1 & base & loaded & incoming & selection & _ & Hbase & Hload & Hnorm & _ & _ & Hnew & Hkept & _);
    [done|done| |done|exact Hrun|].
  { intros id s1 Hu. apply (f_equal fst) in Hu. vm_compute in Hu. by injection Hu as <-. }
  assert (Hl : LoadFileValues (E:=ClientError) "/project.toml" = Ok toy_file) by (vm_compute; reflexivity).
  assert (Hn : normalizeIncomingProviderSelection (E:=ClientError) toy_file = Ok (toy_file, false)) by (vm_compute; reflexivity).
  assert (loaded = toy_file) as -> by congruence. assert (incoming = toy_file) as -> by congruence. assert (selection = false) as -> by congruence.
  split.
  - destruct (Hnew "max" (CInt 3)) as [_ Hmax]; [vm_compute; reflexivity|by left|exact Hmax].
  - apply Hkept; left; vm_compute; reflexivity.
Defined.

(** The same integer, stored and in the file: in dispute, and no different. *)
Example retyped_integer : deep_equal (shape (CInt 3)) (CInt 3) = false ∧ ¬ differs (shape (CInt 3)) (CInt 3).
Proof. by vm_compute. Qed.

(** A file with a number, given to init twice: the second time its own number is in
    dispute, since what was stored is read as a float. *)
Theorem init_disputes_its_own_number : let once := demo_init false demo_client in
  once.1 = Ok (None, Ok tt) ∧
  (demo_init false once.2).1 = Ok (Some (Skips [("max", (CFloat (float_of_int 3), CInt 3))]), Ok tt).
Proof. split; vm_compute; reflexivity. Qed.
